(* ===== verification/_CoqProject ===== *)
-Q . S2P
Prelude.v
Double.v
Serialize.v
BaseUint.v
Crypto.v
ScriptCode.v
Interpreter.v
Transaction.v
SigHash.v
Standard.v
Chain.v
Pow.v
Merkle.v
PartialMerkle.v
Block.v
Compressor.v
Coins.v
CoinsView.v
Utxo.v
AddressIndex.v
ConnectBlock.v
Ledger.v
ChainSelect.v
ActivateChain.v
Mempool.v
MempoolInputs.v
MempoolAccept.v
Kernel.v
BlockFiles.v
ChainLink.v
IndexAdd.v
AcceptBlock.v
Accepted.v
Node.v
Reorg.v
CheckQueue.v
NetAddr.v
AddrMan.v
Bloom.v
TimeData.v
Containers.v
Signing.v
