(* ===== verification/Prelude.v ===== *)
(** * FairCoin Core: a verification library

    FairCoin Core is a node of the FairCoin network, in C++: it keeps the chain of
    blocks and the set of unspent transaction outputs, checks every block and
    transaction it is given, and relays them.  This library models the part of the
    program that decides what is valid, as executable functions, and proves what
    makes it correct.  Paths below are relative to [src/src/].

    ** How the program works, and where it is modelled

    A block or transaction arrives as bytes ([serialize.h]: file Serialize).  Its
    header commits to its transactions by a merkle root ([primitives/block.cpp]:
    Merkle; [merkleblock.cpp]: PartialMerkle) and proves work against a compact
    target ([pow.cpp], [uint256.cpp]: Pow, BaseUint).  Block headers form a tree
    with skip pointers, of which the active chain is one path ([chain.cpp]: Chain).
    [CheckBlock], [ContextualCheckBlock] and [CheckTransaction] ([main.cpp]: Block,
    Transaction) check what needs no coins.  [ConnectBlock] ([main.cpp]:
    ConnectBlock) then spends the inputs and adds the outputs of every transaction
    ([UpdateCoins], Utxo) in a view of the coins ([coins.cpp]: Coins, CoinsView),
    runs the scripts ([script/interpreter.cpp]: Interpreter, over ScriptCode,
    SigHash and Crypto), keeps the money supply and collects updates for the address
    indexes ([addressindex.h], [spentindex.h]: AddressIndex, over Standard).
    [DisconnectBlock] takes all of it back with the undo data.  The coins are stored
    compressed ([compressor.cpp]: Compressor).

    [AcceptBlock] ([main.cpp]: AcceptBlock) leads up to this: a block that passes its
    checks, a stake among them ([kernel.cpp]: Kernel), gets an entry in the index
    ([AddToBlockIndex]: IndexAdd), a place in the block files (BlockFiles) and, once
    its predecessors are there ([ReceivedBlockTransactions]: ChainLink), a place among
    the candidates for the tip (ChainSelect).  [ActivateBestChain] (ActivateChain) moves
    the chain to the best candidate by [ConnectTip] and [DisconnectTip] (Node), which
    put blocks, coins, undo data, indexes, files and the memory pool (Mempool)
    together.  Scripts run on several threads ([checkqueue.h]: CheckQueue).  Towards
    its peers the node keeps their addresses ([addrman.cpp]: AddrMan, NetAddr), a clock
    offset ([timedata.cpp]: TimeData), a filter for each light client ([bloom.cpp]:
    Bloom) and bounded memories ([limitedmap.h], [mruset.h]: Containers).

    ** Files

    - Prelude: outcomes, machine integers, bytes, sums over lists, tactics, hints.
    - Serialize: compact sizes, variable-length integers, vectors, the class of
      serializable types with its round-trip law ([serialize.h]).
    - BaseUint: [base_uint]'s arithmetic on limbs and the compact form
      ([uint256.h], [uint256.cpp]).
    - Crypto: the hash functions as compression loops with their streaming
      interface, HMAC and the key derivations on top ([crypto/], [hash.cpp]).
    - ScriptCode: script numbers, [GetOp], pushes, [FindAndDelete], signature
      operation counts ([script/script.h], [script.cpp]).
    - Interpreter: [EvalScript] as a step function and [VerifyScript], with the
      encoding checks of signatures and keys ([script/interpreter.cpp]).
    - Transaction: data, wire format and hash of transactions, amounts, fees,
      [CheckTransaction], [IsFinalTx] ([primitives/transaction.*], [amount.*]).
    - SigHash: [SignatureHash] and the signature checker.
    - Standard: the solver, standard scripts and destinations
      ([script/standard.cpp], [GetAddressIndexKey] of [main.cpp]).
    - Chain: the block index, [GetAncestor], the active chain, locators
      ([chain.h], [chain.cpp], [AddToBlockIndex]'s linking).
    - Pow: [CheckProofOfWork], the retargeting, work and trust ([pow.cpp]).
    - Merkle, PartialMerkle: trees, branches and filtered blocks.
    - Block: blocks, their checks and signatures, checkpoints, the subsidy.
    - Compressor, Coins, CoinsView: compressed outputs, the coins of a transaction
      and their undo data, the stack of caches over the database ([compressor.*],
      [coins.*], [undo.h], [txdb.cpp]).
    - Utxo: [UpdateCoins] and the undoing loops, over any coin store.
    - AddressIndex: the optional indexes, their updates and batches.
    - ConnectBlock: [CheckInputs], [ConnectBlock], [DisconnectBlock].
    - Ledger: the abstract ledger, and that blocks refine it.
    - ChainSelect: the candidates for the tip and their order, the walk of
      [FindMostWorkChain], [ReceivedBlockTransactions], invalid chains.
    - ActivateChain: [ActivateBestChain] and its step, [InvalidateBlock],
      [ReconsiderBlock], over every way to connect and disconnect one block.
    - Double: binary64 arithmetic on the Standard Library's [SpecFloat].
    - Mempool: the memory pool, adding, removing, conflicts, its indexes
      ([txmempool.h], [txmempool.cpp]).
    - MempoolInputs: what the pool may spend, and that a block keeps it so.
    - MempoolAccept: standardness, fees and [AcceptToMemoryPool] ([main.cpp]).
    - Kernel: the stake modifier, the kernel hash and the search for one ([kernel.*]).
    - BlockFiles: positions in the block and undo files, writing and reading blocks
      and undo data.
    - ChainLink: [ReceivedBlockTransactions], the blocks that wait for others.
    - IndexAdd: [AddToBlockIndex] with the stake fields and work of the new entry.
    - AcceptBlock, Accepted: [AcceptBlockHeader], [AcceptBlock], [ProcessNewBlock] and
      the check of a proof of stake; what they keep and show.
    - Node, Reorg: [ConnectTip], [DisconnectTip], [UpdateTip] and [FlushStateToDisk] on
      the whole state of the node, and that connecting a block can be undone.
    - CheckQueue: the queue of script checks as a step relation between threads.
    - NetAddr, AddrMan: addresses with their classes, groups, formats and subnets
      ([netbase.*], [protocol.h]); the address manager ([addrman.*]).
    - Bloom: bloom filters, the messages that set them, filtered blocks.
    - TimeData: the median filter and the clock offset.
    - Containers: the bounded map and the bounded set.
    - Signing: the key store, signing an input, and whose an output is
      ([keystore.*], [script/sign.cpp], [wallet_ismine.cpp]).

    Where components meet there is a class: [Serial] (Serialize) promises that
    reading undoes writing, and the formats of larger types are built from it;
    [CoinsStore] (CoinsView) is what block connection needs of the coins, and both
    a stack of caches and a bare map of coins are instances; [TipOps] (ActivateChain)
    is what the choice of the best chain needs of connecting one block, and Node
    gives its instance; [KeyOps] (Signing) is what signing needs of a key.

    ** What the theorems show

    - Scripts: a run always ends, within the limits on stack, element and operation
      counts, and never fails an assertion; pay-to-key-hash and multisignature
      spends are accepted exactly as they should be; what is declared unspendable
      cannot be spent; signature hashes commit to what the reference says.
    - Formats: transactions, blocks, coins, undo data, amounts, scripts, script
      numbers and partial merkle trees are read back as they were written, and in
      the canonical cases nothing else is accepted.
    - Data structures: the skip pointers and the locator agree with the plain walk,
      [SetTip] and [FindFork] are what they should be, the merkle construction is
      the recursive tree, the stack of coin caches refines a stack of maps.
    - Rules: [CheckTransaction], [CheckBlock], [CheckProofOfWork] and [CheckInputs]
      accept exactly what the stated rules allow and always return; the next target
      stays in range.
    - The ledger: an accepted block is a step of an abstract ledger, disconnecting
      it restores the state but for the coinstake flag of what it had fully spent, and
      the money supply always covers the outputs.
    - The best chain: [FindMostWorkChain] finds the greatest usable candidate,
      [ActivateBestChain] ends with it as the tip whatever blocks turn out to be
      invalid, and [InvalidateBlock] shuts a block and its descendants out, unless
      connecting or disconnecting a block fails, and then the first failing call is
      given.
    - The memory pool: removal takes exactly a transaction and its descendants;
      acceptance and the connection of a block keep the pool consistent, without
      double spends and with every input available.
    - Stakes: the next modifier is computed without failure and from blocks of its
      interval, and what the search for a stake finds the kernel check accepts.
    - The node: [AcceptBlock] leaves no data of a refused block behind and keeps index
      and files in order; whatever is stored is read back, also from a file that was
      left and cut; connecting a tip and taking it off again restores coins (up to the
      flag above), indexes and chain from what is on disk; checking
      scripts on several threads gives what checking them in order gives.
    - Signing: an output that the key store counts as its own is signed, and what is
      signed passes the interpreter.
    - Peers: the address manager never fails an assertion and passes its own check
      after any operations; the addresses it hands out are distinct and sound; a
      filter from the network cannot be indexed out of bounds, misses nothing that
      it contains and follows the coins it matched; a filtered block proves exactly
      its matches; the clock offset stays within its limit.

    Some theorems record what the code does against its comments: the fees of a
    block can be claimed twice in the proof-of-work phase ([Ledger.coinbase_bound]);
    undoing a block loses the coinstake flag of what it had fully spent
    ([Ledger.reorg_roundtrip]); a coinstake that names an output which is not there
    makes [CheckProofOfStake] read past a vector ([Accepted.AcceptBlock_sound]); and a stake that pays to a key hash is signed and then always refused
    ([Block.stake_signature]); some outputs count as spendable that the signer refuses
    ([Signing.nested_not_signed]).

    ** Conventions

    A call returns an [outcome]: [Ok] a value, [Err] an error the caller sees,
    [AssertFail] where an assertion fails or the behaviour is undefined (signed
    overflow, a null pointer, an index out of range), [OutOfFuel] where a loop's
    bound is spent.  The bounds are lengths, heights or table sizes that the caller
    computes from its arguments, and the theorems show that they are enough.
    Integers are in [Z] with their wrap-around ([u32], [s64], ...) written where the
    code can reach it.  Bytes are in [list Z].  A [uint256] used as a hash is a
    number, one used as an integer is a list of limbs; a [uint160] is its 20 bytes.
    Block index entries are named by their block hash, which stands for the pointer.
    A function that fills caches returns the new view.

    ** Parameters

    Code that is not in the repository, or that stands apart, is a parameter:
    signature verification and keys (secp256k1, [CPubKey::Verify], the key store),
    the six hash functions under [HashQuark], the network parameters, the adjusted
    time, the queries to the masternode, spork and budget modules, the address
    order of pointers, and the random numbers that the address manager draws.  Files
    and databases store what they are given.  The signature cache only spares work, so
    it has no counterpart.

    ** Not modelled

    The wallet apart from its key store and signing, the graphical interface, RPC and REST, sockets and
    the peer-to-peer protocol apart from the messages about filters, masternodes,
    budgets, obfuscation and SwiftTX, alerts and sporks, mining, fee estimates, the
    file of known peers ([peers.dat]), logging and the timer of the periodic flush:
    they keep or move what is decided here, or have rules of their own whose answers
    are parameters.  LevelDB, JSON, sphlib's and scrypt's sources are third-party
    code.  Functions that only print, and those that compute with the platform's
    logarithm, are left out. *)
From stdpp Require Import base tactics list gmap numbers option.
From Stdlib Require Import ZArith Lia.

Declare Scope fc_scope.
Delimit Scope fc_scope with fc.
Open Scope Z_scope.

Create HintDb fc discriminated.
Create Rewrite HintDb fc_rw.

(** ** Outcomes: C++ control flow as a value *)

(** A C++ call either returns a value, leaves through an error (a thrown
    exception or an error code [e]), or stops the process at a failed
    [assert].  [OutOfFuel] is the value of a loop whose step bound is spent; the
    theorems show that no loop reaches it with the bound its caller gives. *)
Inductive outcome (E A : Type) : Type :=
| Ok (a : A)
| Err (e : E)
| AssertFail
| OutOfFuel.
Arguments Ok {E A} a.
Arguments Err {E A} e.
Arguments AssertFail {E A}.
Arguments OutOfFuel {E A}.

#[export] Instance outcome_ret E : MRet (outcome E) := λ A a, Ok a.
#[export] Instance outcome_bind E : MBind (outcome E) :=
  λ A B f m, match m with
  | Ok a => f a | Err e => Err e | AssertFail => AssertFail | OutOfFuel => OutOfFuel
  end.

Definition is_ok {E A} (m : outcome E A) : bool :=
  match m with Ok _ => true | _ => false end.

(** The computation comes back to its caller, with a value or an error. *)
Definition returns {E A} (m : outcome E A) : Prop :=
  match m with Ok _ | Err _ => True | _ => False end.

Definition assert_that {E} (b : bool) : outcome E unit :=
  if b then Ok tt else AssertFail.

Lemma outcome_bind_ok {E A B} (m : outcome E A) (f : A → outcome E B) b :
  (m ≫= f) = Ok b → ∃ a, m = Ok a ∧ f a = Ok b.
Proof. destruct m; simpl; naive_solver. Qed.

Lemma returns_bind {E A B} (m : outcome E A) (f : A → outcome E B) :
  returns m → (∀ a, m = Ok a → returns (f a)) → returns (m ≫= f).
Proof. destruct m; simpl; naive_solver. Qed.

Lemma returns_spec {E A} (m : outcome E A) :
  returns m ↔ (∃ a, m = Ok a) ∨ (∃ e, m = Err e).
Proof.
  destruct m; simpl; (split; [by eauto|done]) ||
    (split; [done|by intros [[? H]|[? H]]; discriminate H]).
Qed.

(** The computation comes back, and a value it returns satisfies [P]. *)
Definition safe {E A} (P : A → Prop) (m : outcome E A) : Prop :=
  match m with Ok a => P a | Err _ => True | _ => False end.

Lemma safe_bind {E A B} (P : A → Prop) (Q : B → Prop) (m : outcome E A) (f : A → outcome E B) :
  safe P m → (∀ a, P a → safe Q (f a)) → safe Q (m ≫= f).
Proof. destruct m; simpl; auto. Qed.
Lemma safe_mono {E A} (P Q : A → Prop) (m : outcome E A) : safe P m → (∀ a, P a → Q a) → safe Q m.
Proof. destruct m; simpl; auto. Qed.
Lemma safe_returns {E A} (P : A → Prop) (m : outcome E A) : safe P m → returns m.
Proof. destruct m; simpl; auto. Qed.
Lemma safe_ok {E A} (P : A → Prop) (m : outcome E A) a : safe P m → m = Ok a → P a.
Proof. by intros H ->. Qed.
Lemma safe_if {E A} (P : A → Prop) (b : bool) (m m' : outcome E A) :
  (b = true → safe P m) → (b = false → safe P m') → safe P (if b then m else m').
Proof. destruct b; auto. Qed.

(** A call inside a function with other errors: its error is translated, or it
    has none. *)
Definition map_err {E E' A} (f : E → E') (m : outcome E A) : outcome E' A :=
  match m with Ok a => Ok a | Err e => Err (f e) | AssertFail => AssertFail | OutOfFuel => OutOfFuel end.
Definition no_err {E E' A} (m : outcome E A) : outcome E' A :=
  match m with Ok a => Ok a | OutOfFuel => OutOfFuel | _ => AssertFail end.

(** Inverts a successful run of a monadic computation. *)
Ltac invert_ok :=
  repeat match goal with
  | H : (_ ≫= _) = Ok _ |- _ =>
      let a := fresh "v" in let E := fresh "E" in
      apply outcome_bind_ok in H; destruct H as (a & E & H)
  | H : Ok _ = Ok _ |- _ => injection H; clear H; intros; subst
  | H : Err _ = Ok _ |- _ => discriminate H
  | H : AssertFail = Ok _ |- _ => discriminate H
  | H : OutOfFuel = Ok _ |- _ => discriminate H
  | H : mret _ = Ok _ |- _ => unfold mret, outcome_ret in H
  end.

(** Proves a closed decidable goal by evaluating its decision procedure. *)
Ltac by_decision := apply (bool_decide_unpack _); vm_compute; exact I.

(** ** Machine integers *)

Definition u8 (z : Z) : Z := z mod 2 ^ 8.
Definition u16 (z : Z) : Z := z mod 2 ^ 16.
Definition u32 (z : Z) : Z := z mod 2 ^ 32.
Definition u64 (z : Z) : Z := z mod 2 ^ 64.
Definition s32 (z : Z) : Z := (z + 2 ^ 31) mod 2 ^ 32 - 2 ^ 31.
Definition s64 (z : Z) : Z := (z + 2 ^ 63) mod 2 ^ 64 - 2 ^ 63.

Definition is_u (w z : Z) : Prop := 0 ≤ z < 2 ^ w.
Definition is_s (w z : Z) : Prop := - 2 ^ (w - 1) ≤ z < 2 ^ (w - 1).

#[export] Instance is_u_dec w z : Decision (is_u w z).
Proof. unfold is_u. apply _. Defined.
#[export] Instance is_s_dec w z : Decision (is_s w z).
Proof. unfold is_s. apply _. Defined.

Definition INT32_MAX : Z := 2147483647.
Definition INT32_MIN : Z := -2147483648.
Definition INT64_MAX : Z := 9223372036854775807.
Definition INT64_MIN : Z := -9223372036854775808.

(** [int64_t] addition: an overflow is undefined. *)
Definition add64 {E} (a b : Z) : outcome E Z :=
  if (INT64_MIN <=? a + b) && (a + b <=? INT64_MAX) then Ok (a + b) else AssertFail.

Lemma add64_ok {E} a b : INT64_MIN ≤ a + b ≤ INT64_MAX → add64 (E:=E) a b = Ok (a + b).
Proof. intros [H1 H2]. unfold add64. by rewrite (proj2 (Z.leb_le _ _) H1), (proj2 (Z.leb_le _ _) H2). Qed.

(** A flag test [(flags & f) != 0]. *)
Definition flag (flags f : Z) : bool := negb (Z.land flags f =? 0).

Lemma u32_id z : is_u 32 z → u32 z = z.
Proof. intros. apply Z.mod_small. done. Qed.
Lemma u64_id z : is_u 64 z → u64 z = z.
Proof. intros. apply Z.mod_small. done. Qed.
Lemma s64_id z : is_s 64 z → s64 z = z.
Proof. unfold is_s, s64. intros. rewrite Z.mod_small; lia. Qed.
Lemma s32_id z : is_s 32 z → s32 z = z.
Proof. unfold is_s, s32. intros. rewrite Z.mod_small; lia. Qed.

(** ** Bytes *)

Definition is_byte (b : Z) : Prop := 0 ≤ b < 256.
Notation bytes_ok := (Forall is_byte).

#[export] Instance is_byte_dec b : Decision (is_byte b).
Proof. unfold is_byte. apply _. Defined.

(** The [n] bytes of [z] in memory order on a little-endian machine. *)
Fixpoint le_bytes (n : nat) (z : Z) : list Z :=
  match n with
  | O => []
  | S n => z mod 256 :: le_bytes n (z / 256)
  end.

Fixpoint le_value (bs : list Z) : Z :=
  match bs with
  | [] => 0
  | b :: bs => b + 256 * le_value bs
  end.

Lemma length_le_bytes n z : length (le_bytes n z) = n.
Proof. revert z; induction n; simpl; auto. Qed.

Lemma bytes_ok_le_bytes n z : bytes_ok (le_bytes n z).
Proof.
  revert z; induction n; simpl; constructor; auto.
  apply Z.mod_pos_bound. lia.
Qed.

Lemma pow256_succ n : 256 ^ Z.of_nat (S n) = 256 * 256 ^ Z.of_nat n.
Proof. rewrite Nat2Z.inj_succ, Z.pow_succ_r; lia. Qed.

Lemma pow256_pos n : 0 < 256 ^ Z.of_nat n.
Proof. apply Z.pow_pos_nonneg; lia. Qed.

Lemma le_value_le_bytes n z : le_value (le_bytes n z) = z mod 256 ^ Z.of_nat n.
Proof.
  revert z; induction n as [|n IH]; intros z; [by rewrite Z.mod_1_r|].
  cbn [le_bytes le_value]. rewrite IH, pow256_succ.
  rewrite Z.rem_mul_r; pose proof (pow256_pos n); lia.
Qed.

Lemma le_value_bound bs : bytes_ok bs → 0 ≤ le_value bs < 256 ^ Z.of_nat (length bs).
Proof.
  induction 1 as [|b bs Hb _ IH]; [simpl; lia|].
  cbn [le_value length]. rewrite pow256_succ. unfold is_byte in Hb. lia.
Qed.

Lemma le_bytes_le_value bs : bytes_ok bs → le_bytes (length bs) (le_value bs) = bs.
Proof.
  induction 1 as [|b bs Hb _ IH]; [done|].
  cbn [le_value length le_bytes]. unfold is_byte in Hb.
  rewrite (Z.mul_comm 256), Z.mod_add, Z.div_add by lia.
  rewrite Z.mod_small, Z.div_small by lia. by rewrite Z.add_0_l, IH.
Qed.

Lemma le_value_app a b :
  le_value (a ++ b) = le_value a + 256 ^ Z.of_nat (length a) * le_value b.
Proof.
  induction a as [|x a IH]; [cbn -[Z.mul]; lia|].
  change ((x :: a) ++ b) with (x :: (a ++ b)).
  cbn [le_value length]. rewrite IH, pow256_succ. lia.
Qed.

#[export] Hint Resolve bytes_ok_le_bytes pow256_pos : fc.
#[export] Hint Rewrite length_le_bytes le_value_le_bytes : fc_rw.

(** ** Lists *)

Lemma filter_all {A} (P : A → Prop) `{∀ x, Decision (P x)} l : Forall P l → filter P l = l.
Proof. induction 1; [done|]. rewrite filter_cons_True by done. by f_equal. Qed.
Lemma filter_none {A} (P : A → Prop) `{∀ x, Decision (P x)} l : Forall (λ x, ¬ P x) l → filter P l = [].
Proof. induction 1; [done|]. by rewrite filter_cons_False. Qed.
Lemma filter_Permutation_length {A} (P : A → Prop) `{∀ x, Decision (P x)} l l' :
  l ≡ₚ l' → length (filter P l) = length (filter P l').
Proof. intros Hp. by rewrite Hp. Qed.

(** ** Bit operations as arithmetic *)

Lemma land_low z n : 0 ≤ n → Z.land z (2 ^ n - 1) = z mod 2 ^ n.
Proof. intros. rewrite <- Z.land_ones by done. f_equal. rewrite Z.ones_equiv. lia. Qed.

Lemma land_ff z : Z.land z 0xff = z mod 256.
Proof. apply (land_low z 8). lia. Qed.
Lemma land_7f z : Z.land z 0x7F = z mod 128.
Proof. apply (land_low z 7). lia. Qed.

Lemma land_shiftl_disjoint a b k : 0 ≤ k → 0 ≤ a < 2 ^ k → Z.land a (Z.shiftl b k) = 0.
Proof.
  intros Hk Ha. apply Z.bits_inj'. intros i Hi.
  rewrite Z.land_spec, Z.bits_0, Z.shiftl_spec by lia.
  destruct (decide (i < k)).
  - rewrite (Z.testbit_neg_r b) by lia. apply andb_false_r.
  - rewrite <- (Z.mod_small a (2 ^ k)) by lia.
    rewrite Z.mod_pow2_bits_high by lia. done.
Qed.

Lemma lor_shiftl_add a b k : 0 ≤ k → 0 ≤ a < 2 ^ k → Z.lor a (Z.shiftl b k) = a + b * 2 ^ k.
Proof.
  intros. rewrite <- Z.add_nocarry_lor by (by apply land_shiftl_disjoint).
  by rewrite Z.shiftl_mul_pow2.
Qed.

(** [lor] with a shifted value, the shift written as a multiplication. *)
Lemma lor_mul_add a b k : 0 ≤ k → 0 ≤ a < 2 ^ k → Z.lor (b * 2 ^ k) a = b * 2 ^ k + a.
Proof. intros. rewrite Z.lor_comm, <- Z.shiftl_mul_pow2, lor_shiftl_add by done. rewrite Z.shiftl_mul_pow2; lia. Qed.

(** Testing one bit of a byte. *)
Lemma land_80 b : is_byte b → Z.land b 0x80 = if b <? 128 then 0 else 128.
Proof.
  unfold is_byte. intros Hb. destruct (Z.ltb_spec b 128).
  - apply (land_shiftl_disjoint b 1 7); lia.
  - assert (Hb' : b = Z.lor (b - 128) (Z.shiftl 1 7))
      by (rewrite lor_shiftl_add by lia; lia).
    rewrite Hb', Z.land_lor_distr_l.
    pose proof (land_shiftl_disjoint (b - 128) 1 7) as E.
    change (Z.shiftl 1 7) with 128 in *. by rewrite E by lia.
Qed.

Lemma shiftr_div z n : 0 ≤ n → Z.shiftr z n = z / 2 ^ n.
Proof. apply Z.shiftr_div_pow2. Qed.

(** ** Sums over a list *)

Definition sum_Z {A} (f : A → Z) (l : list A) : Z := foldr (λ x s, f x + s) 0 l.

Lemma sum_Z_cons {A} (f : A → Z) x l : sum_Z f (x :: l) = f x + sum_Z f l.
Proof. done. Qed.
Lemma sum_Z_app {A} (f : A → Z) l1 l2 : sum_Z f (l1 ++ l2) = sum_Z f l1 + sum_Z f l2.
Proof. induction l1 as [|x l1 IH]; [done|]. rewrite <- app_comm_cons, !sum_Z_cons. lia. Qed.
Lemma sum_Z_ext {A} (f g : A → Z) l : (∀ x, x ∈ l → f x = g x) → sum_Z f l = sum_Z g l.
Proof. induction l as [|x l IH]; intros H; [done|]. rewrite !sum_Z_cons, H, IH; [done| |by left]. intros y Hy. apply H. by right. Qed.
Lemma sum_Z_bounds {A} (f g : A → Z) l : (∀ x, 0 ≤ f x ≤ g x) → 0 ≤ sum_Z f l ≤ sum_Z g l.
Proof. intros H. induction l as [|x l IH]; [done|]. rewrite !sum_Z_cons. specialize (H x). lia. Qed.
Lemma sum_Z_insert {A} (f : A → Z) l n x y : l !! n = Some x → sum_Z f (<[n := y]> l) = sum_Z f l - f x + f y.
Proof.
  revert n. induction l as [|z l IH]; intros [|n]; try done.
  - intros [= ->]. cbn. lia.
  - intros Hn. change (<[S n := y]> (z :: l)) with (z :: <[n := y]> l). rewrite !sum_Z_cons, IH by done. lia.
Qed.
Lemma sum_Z_mono {A} (f g : A → Z) l : (∀ x, f x ≤ g x) → sum_Z f l ≤ sum_Z g l.
Proof. intros H. induction l as [|x l IH]; cbn; [lia|]. specialize (H x). unfold sum_Z in IH. lia. Qed.
Lemma sum_Z_scale {A} (f : A → Z) k l : sum_Z (λ x, k * f x) l = k * sum_Z f l.
Proof. induction l as [|x l IH]; cbn; [lia|]. unfold sum_Z in IH. lia. Qed.
