(* ===== verification/Double.v ===== *)
(** * Double-precision numbers

    The [double] of the code: IEEE 754 binary64 with rounding to nearest, as
    computed by the Standard Library's [SpecFloat]. *)
From stdpp Require Import base tactics list numbers option.
From Stdlib Require Import ZArith Lia SpecFloat.
From S2P Require Import Prelude.

Notation double := spec_float.

Definition d_prec : Z := 53.
Definition d_emax : Z := 1024.

(** The conversion from an integer. *)
Definition d_of_Z (z : Z) : double := binary_normalize d_prec d_emax z 0 false.
Definition d_add : double → double → double := SFadd d_prec d_emax.
Definition d_sub : double → double → double := SFsub d_prec d_emax.
Definition d_mul : double → double → double := SFmul d_prec d_emax.
Definition d_div : double → double → double := SFdiv d_prec d_emax.
Definition d_lt (a b : double) : bool := SFltb a b.
Definition d_le (a b : double) : bool := SFleb a b.
Definition d_gt (a b : double) : bool := SFltb b a.
Definition d_ge (a b : double) : bool := SFleb b a.
Definition d_zero : double := S754_zero false.

(** The comparison is an order on the numbers that are not NaN. *)
Definition is_nan (a : double) : bool := match a with S754_nan => true | _ => false end.

Lemma d_lt_irrefl a : d_lt a a = false.
Proof.
  unfold d_lt, SFltb, SFcompare. destruct a as [s|s| |s m e]; try done; [by destruct s|].
  by destruct s; rewrite ?Z.compare_refl, ?Pos.compare_refl.
Qed.

#[export] Instance double_eq_dec : EqDecision double.
Proof. solve_decision. Defined.
