(* ===== verification/Serialize.v ===== *)
(** * serialize.h: the byte-level codecs

    The stream operations every other component serialises through: fixed-width
    integers, CompactSize, VarInt, flat data, pairs and vectors.  A stream is
    the list of bytes not yet read; a read past its end is the
    [std::ios_base::failure] the code throws.  [Serial] is the interface a
    serialisable type offers: a writer, a reader, the values it is defined on,
    and the law that reading what was written gives the value back and leaves
    the rest of the stream. *)
From stdpp Require Import base tactics list gmap numbers option.
From Stdlib Require Import ZArith Lia.
From S2P Require Import Prelude.

(** ** Streams *)

Inductive stream_error :=
| EndOfData           (* CDataStream::read() : end of data *)
| NonCanonicalSize    (* non-canonical ReadCompactSize() *)
| SizeTooLarge.       (* ReadCompactSize() : size too large *)

Definition reader (A : Type) : Type := list Z → outcome stream_error (A * list Z).

Definition MAX_SIZE : Z := 0x02000000.

(** [CDataStream::read]: the stream is its unread suffix. *)
Definition stream_read (n : nat) : reader (list Z) := λ s,
  if decide (length s < n)%nat then Err EndOfData else Ok (take n s, drop n s).

(** ** Fixed-width integers *)

(** [WRITEDATA] and [READDATA] copy the object's memory; the host is
    little-endian. *)
Definition WRITEDATA (n : nat) (obj : Z) : list Z := le_bytes n obj.
Definition READDATA (n : nat) : reader Z := λ s,
  '(b, s) ← stream_read n s; Ok (le_value b, s).

(** A signed object of [n] bytes. *)
Definition READDATA_signed (n : nat) : reader Z := λ s,
  '(b, s) ← stream_read n s;
  let v := le_value b in
  let w := 8 * Z.of_nat n in
  Ok (if v <? 2 ^ (w - 1) then v else v - 2 ^ w, s).

Definition ser_writedata8 (obj : Z) : list Z := [obj].
Definition ser_writedata16 (obj : Z) : list Z :=
  [Z.land obj 0xff; Z.land (Z.shiftr obj 8) 0xff].
Definition ser_writedata32 (obj : Z) : list Z :=
  [Z.land obj 0xff; Z.land (Z.shiftr obj 8) 0xff;
   Z.land (Z.shiftr obj 16) 0xff; Z.land (Z.shiftr obj 24) 0xff].
Definition ser_writedata32be (obj : Z) : list Z :=
  [Z.land (Z.shiftr obj 24) 0xff; Z.land (Z.shiftr obj 16) 0xff;
   Z.land (Z.shiftr obj 8) 0xff; Z.land obj 0xff].
Definition ser_writedata64 (obj : Z) : list Z :=
  map (λ i, Z.land (Z.shiftr obj (8 * Z.of_nat i)) 0xff) (seq 0 8).

Definition byte_at (buf : list Z) (i : nat) : Z := nth i buf 0.

Definition ser_readdata8 : reader Z := λ s,
  '(buf, s) ← stream_read 1 s; Ok (byte_at buf 0, s).
Definition ser_readdata16 : reader Z := λ s,
  '(buf, s) ← stream_read 2 s;
  Ok (Z.lor (byte_at buf 0) (Z.shiftl (byte_at buf 1) 8), s).
Definition ser_readdata32 : reader Z := λ s,
  '(buf, s) ← stream_read 4 s;
  Ok (Z.lor (Z.lor (Z.lor (byte_at buf 0) (Z.shiftl (byte_at buf 1) 8))
        (Z.shiftl (byte_at buf 2) 16)) (Z.shiftl (byte_at buf 3) 24), s).
Definition ser_readdata32be : reader Z := λ s,
  '(buf, s) ← stream_read 4 s;
  Ok (Z.lor (Z.lor (Z.lor (Z.shiftl (byte_at buf 0) 24) (Z.shiftl (byte_at buf 1) 16))
        (Z.shiftl (byte_at buf 2) 8)) (byte_at buf 3), s).
Definition ser_readdata64 : reader Z := λ s,
  '(buf, s) ← stream_read 8 s;
  Ok (fold_left (λ obj i, Z.lor obj (Z.shiftl (byte_at buf i) (8 * Z.of_nat i))) (seq 0 8) 0, s).

(** ** CompactSize *)

Definition GetSizeOfCompactSize (nSize : Z) : Z :=
  if nSize <? 253 then 1
  else if nSize <=? 0xffff then 1 + 2
  else if nSize <=? 0xffffffff then 1 + 4
  else 1 + 8.

Definition WriteCompactSize (nSize : Z) : list Z :=
  if nSize <? 253 then WRITEDATA 1 nSize
  else if nSize <=? 0xffff then WRITEDATA 1 253 ++ WRITEDATA 2 nSize
  else if nSize <=? 0xffffffff then WRITEDATA 1 254 ++ WRITEDATA 4 nSize
  else WRITEDATA 1 255 ++ WRITEDATA 8 nSize.

Definition ReadCompactSize : reader Z := λ s,
  '(chSize, s) ← READDATA 1 s;
  '(nSizeRet, s) ←
    (if chSize <? 253 then Ok (chSize, s)
     else if chSize =? 253 then
       '(x, s) ← READDATA 2 s;
       if x <? 253 then Err NonCanonicalSize else Ok (x, s)
     else if chSize =? 254 then
       '(x, s) ← READDATA 4 s;
       if x <? 0x10000 then Err NonCanonicalSize else Ok (x, s)
     else
       '(x, s) ← READDATA 8 s;
       if x <? 0x100000000 then Err NonCanonicalSize else Ok (x, s));
  if MAX_SIZE <? nSizeRet then Err SizeTooLarge else Ok (nSizeRet, s).

(** ** VarInt *)

(** The digits [tmp[len..]] of [WriteVarInt], lowest first; [room] is what is
    left of the buffer [tmp], and [None] a write past its end. *)
Fixpoint varint_digits (room : nat) (first : bool) (n : Z) : option (list Z) :=
  match room with
  | O => None
  | S room =>
      let d := Z.lor (Z.land n 0x7F) (if first then 0x00 else 0x80) in
      if n <=? 0x7F then Some [d]
      else ds ← varint_digits room false (Z.shiftr n 7 - 1); Some (d :: ds)
  end.

(** [sizeof(tmp)] for a type of [w] bits. *)
Definition varint_room (w : Z) : nat := Z.to_nat ((w + 6) / 7).

(** [WriteVarInt<I>] for an unsigned [I] of [w] bits: the digits go out last
    one first. *)
Definition WriteVarInt (w n : Z) : option (list Z) :=
  ds ← varint_digits (varint_room w) true n; Some (rev ds).

Fixpoint GetSizeOfVarInt_loop (fuel : nat) (n : Z) : Z :=
  match fuel with
  | O => 0
  | S fuel => 1 + (if n <=? 0x7F then 0 else GetSizeOfVarInt_loop fuel (Z.shiftr n 7 - 1))
  end.
Definition GetSizeOfVarInt (w n : Z) : Z := GetSizeOfVarInt_loop (varint_room w) n.

(** [ReadVarInt<I>]; the accumulator wraps at [w] bits. *)
Fixpoint ReadVarInt_loop (w n : Z) (s : list Z) : outcome stream_error (Z * list Z) :=
  match s with
  | [] => Err EndOfData
  | chData :: s =>
      let n := Z.lor (Z.shiftl n 7 mod 2 ^ w) (Z.land chData 0x7F) in
      if Z.land chData 0x80 =? 0 then Ok (n, s)
      else ReadVarInt_loop w ((n + 1) mod 2 ^ w) s
  end.
Definition ReadVarInt (w : Z) : reader Z := ReadVarInt_loop w 0.

(** ** The interface of serialisable types *)

Class Serial (A : Type) := {
  ser : A → list Z;
  unser : reader A;
  ser_ok : A → Prop;
  ser_bytes : ∀ a, ser_ok a → bytes_ok (ser a);
  unser_ser : ∀ a rest, ser_ok a → unser (ser a ++ rest) = Ok (a, rest)
}.

(** Vectors: a CompactSize and the elements.  [Unserialize_impl] grows the
    vector in chunks while it reads; the elements are read one after another. *)
Fixpoint read_n {A} (r : reader A) (n : nat) : reader (list A) := λ s,
  match n with
  | O => Ok ([], s)
  | S n => '(a, s) ← r s; '(l, s) ← read_n r n s; Ok (a :: l, s)
  end.

Definition ser_vector {A} (w : A → list Z) (v : list A) : list Z :=
  WriteCompactSize (Z.of_nat (length v)) ++ concat (map w v).
Definition unser_vector {A} (r : reader A) : reader (list A) := λ s,
  '(nSize, s) ← ReadCompactSize s; read_n r (Z.to_nat nSize) s.

(** Vectors of bytes (scripts, byte strings) go out as one blob. *)
Definition ser_blob (v : list Z) : list Z :=
  WriteCompactSize (Z.of_nat (length v)) ++ v.
Definition unser_blob : reader (list Z) := λ s,
  '(nSize, s) ← ReadCompactSize s; stream_read (Z.to_nat nSize) s.

Definition ser_pair {A B} (wa : A → list Z) (wb : B → list Z) (p : A * B) : list Z :=
  wa p.1 ++ wb p.2.
Definition unser_pair {A B} (ra : reader A) (rb : reader B) : reader (A * B) := λ s,
  '(a, s) ← ra s; '(b, s) ← rb s; Ok ((a, b), s).

(** ** Reading back what was written *)

Lemma stream_read_app a rest : stream_read (length a) (a ++ rest) = Ok (a, rest).
Proof.
  unfold stream_read. rewrite decide_False by (rewrite length_app; lia).
  by rewrite take_app_length, drop_app_length.
Qed.

Lemma stream_read_ok n s b s' :
  stream_read n s = Ok (b, s') → s = b ++ s' ∧ length b = n.
Proof.
  unfold stream_read. case_decide; [done|]. intros [= <- <-].
  rewrite take_drop, length_take. split; [done|lia].
Qed.

Lemma READDATA_WRITEDATA n obj rest :
  0 ≤ obj < 256 ^ Z.of_nat n → READDATA n (WRITEDATA n obj ++ rest) = Ok (obj, rest).
Proof.
  intros. unfold READDATA, WRITEDATA.
  rewrite <- (length_le_bytes n obj) at 1. rewrite stream_read_app. simpl.
  by rewrite le_value_le_bytes, Z.mod_small.
Qed.

Lemma pow256_pow2 n : 256 ^ Z.of_nat n = 2 ^ (8 * Z.of_nat n).
Proof. change 256 with (2 ^ 8). rewrite <- Z.pow_mul_r; lia. Qed.

Lemma READDATA_signed_WRITEDATA n obj rest :
  (0 < n)%nat → is_s (8 * Z.of_nat n) obj →
  READDATA_signed n (WRITEDATA n obj ++ rest) = Ok (obj, rest).
Proof.
  unfold is_s. intros Hn Ho. unfold READDATA_signed, WRITEDATA.
  rewrite <- (length_le_bytes n obj) at 1. rewrite stream_read_app. cbn -[Z.mul].
  rewrite le_value_le_bytes, pow256_pow2.
  set (w := 8 * Z.of_nat n) in *.
  assert (Hw : 2 ^ w = 2 * 2 ^ (w - 1)) by (rewrite <- Z.pow_succ_r; [f_equal|]; lia).
  destruct (Z.ltb_spec obj 0).
  - replace (obj mod 2 ^ w) with (obj + 2 ^ w).
    + rewrite (proj2 (Z.ltb_ge _ _)) by lia. do 2 f_equal. lia.
    + apply Z.mod_unique with (-1); lia.
  - rewrite Z.mod_small by lia. by rewrite (proj2 (Z.ltb_lt _ _)) by lia.
Qed.

Lemma READDATA_ok n s v s' :
  bytes_ok s → READDATA n s = Ok (v, s') →
  s = WRITEDATA n v ++ s' ∧ 0 ≤ v < 256 ^ Z.of_nat n ∧ bytes_ok s'.
Proof.
  unfold READDATA, WRITEDATA. intros Hs H. invert_ok. destruct v0 as [b s''].
  invert_ok. apply stream_read_ok in E as [-> <-].
  apply Forall_app in Hs as [Hb Hs]. split_and!; [|apply le_value_bound..|]; [|done..].
  by rewrite le_bytes_le_value.
Qed.

Lemma ReadCompactSize_Write nSize rest :
  0 ≤ nSize ≤ MAX_SIZE → ReadCompactSize (WriteCompactSize nSize ++ rest) = Ok (nSize, rest).
Proof.
  unfold MAX_SIZE. intros Hn. unfold ReadCompactSize, WriteCompactSize.
  destruct (Z.ltb_spec nSize 253); [|destruct (Z.leb_spec nSize 0xffff)];
    [| |rewrite (proj2 (Z.leb_le nSize 0xffffffff)) by lia];
    rewrite <- ?app_assoc, READDATA_WRITEDATA by (cbn; lia); cbn [mbind outcome_bind].
  - rewrite (proj2 (Z.ltb_lt nSize 253)) by lia. cbn [mbind outcome_bind].
    by rewrite (proj2 (Z.ltb_ge _ nSize)) by (unfold MAX_SIZE; lia).
  - cbn [Z.ltb Z.compare Z.eqb Pos.compare Pos.compare_cont Pos.eqb].
    rewrite READDATA_WRITEDATA by (cbn; lia). cbn [mbind outcome_bind].
    rewrite (proj2 (Z.ltb_ge nSize 253)) by lia. cbn [mbind outcome_bind].
    by rewrite (proj2 (Z.ltb_ge _ nSize)) by (unfold MAX_SIZE; lia).
  - cbn [Z.ltb Z.compare Z.eqb Pos.compare Pos.compare_cont Pos.eqb].
    rewrite READDATA_WRITEDATA by (cbn; lia). cbn [mbind outcome_bind].
    rewrite (proj2 (Z.ltb_ge nSize 0x10000)) by lia. cbn [mbind outcome_bind].
    by rewrite (proj2 (Z.ltb_ge _ nSize)) by (unfold MAX_SIZE; lia).
Qed.

(** Everything [ReadCompactSize] accepts is what [WriteCompactSize] writes, and
    at most [MAX_SIZE]. *)
Lemma ReadCompactSize_canonical s n s' :
  bytes_ok s → ReadCompactSize s = Ok (n, s') →
  s = WriteCompactSize n ++ s' ∧ 0 ≤ n ≤ MAX_SIZE ∧ bytes_ok s'.
Proof.
  intros Hs H. unfold ReadCompactSize in H. invert_ok.
  destruct v as [ch s1]. invert_ok. destruct v as [v s2].
  destruct (Z.ltb_spec MAX_SIZE v) as [|Hmax]; [done|]. invert_ok.
  apply READDATA_ok in E as (-> & Hch & Hs1); [|done].
  change (256 ^ Z.of_nat 1) with 256 in Hch.
  unfold WriteCompactSize.
  destruct (Z.ltb_spec ch 253).
  { invert_ok. rewrite (proj2 (Z.ltb_lt n 253)) by lia. split_and!; [done|lia..|done]. }
  destruct (Z.eqb_spec ch 253) as [->|]; [|destruct (Z.eqb_spec ch 254) as [->|]];
    [| |replace ch with 255 by lia];
    invert_ok; destruct v as [x s3]; apply READDATA_ok in E as (-> & Hx & Hs3); [|done| |done| |done];
    destruct (x <? _) eqn:Hlt in E0; invert_ok; apply Z.ltb_ge in Hlt; cbn in Hx.
  - rewrite (proj2 (Z.ltb_ge n 253)), (proj2 (Z.leb_le n 0xffff)) by lia.
    rewrite <- app_assoc. split_and!; [done|lia..|done].
  - rewrite (proj2 (Z.ltb_ge n 253)), (proj2 (Z.leb_gt n 0xffff)), (proj2 (Z.leb_le n 0xffffffff)) by lia.
    rewrite <- app_assoc. split_and!; [done|lia..|done].
  - unfold MAX_SIZE in *. lia.
Qed.

Lemma bytes_ok_WRITEDATA n z : bytes_ok (WRITEDATA n z).
Proof. apply bytes_ok_le_bytes. Qed.
#[export] Hint Resolve bytes_ok_WRITEDATA : fc.

Lemma bytes_ok_WriteCompactSize n : bytes_ok (WriteCompactSize n).
Proof. unfold WriteCompactSize. repeat case_match; rewrite ?Forall_app; auto with fc. Qed.
#[export] Hint Resolve bytes_ok_WriteCompactSize : fc.

Lemma length_WriteCompactSize n : Z.of_nat (length (WriteCompactSize n)) = GetSizeOfCompactSize n.
Proof.
  unfold WriteCompactSize, GetSizeOfCompactSize, WRITEDATA.
  repeat case_match; by rewrite ?length_app, ?length_le_bytes.
Qed.

(** The shift-and-mask writers agree with the memory copies. *)
Lemma ser_writedata32_le obj : ser_writedata32 obj = WRITEDATA 4 obj.
Proof.
  unfold ser_writedata32, WRITEDATA. cbn [le_bytes].
  rewrite !land_ff, !shiftr_div, !Z.div_div by lia. done.
Qed.

(** ** VarInt *)

Lemma varint_digit_false n :
  0 ≤ n → let d := Z.lor (Z.land n 0x7F) 0x80 in
  is_byte d ∧ Z.land d 0x7F = n mod 128 ∧ Z.land d 0x80 = 128.
Proof.
  intros Hn d. pose proof (Z.mod_pos_bound n 128).
  assert (Hd : d = n mod 128 + 128).
  { unfold d. rewrite land_7f. apply (lor_shiftl_add _ 1 7); lia. }
  assert (Hb : is_byte d) by (unfold is_byte; lia).
  split_and!; [done| |].
  - rewrite land_7f, Hd. rewrite (Z.add_mod _ 128), Z.mod_same, Z.add_0_r, !Z.mod_mod by lia. done.
  - rewrite land_80 by done. by rewrite (proj2 (Z.ltb_ge _ _)) by lia.
Qed.

Lemma varint_digit_true n :
  0 ≤ n → let d := Z.lor (Z.land n 0x7F) 0x00 in
  is_byte d ∧ Z.land d 0x7F = n mod 128 ∧ Z.land d 0x80 = 0.
Proof.
  intros Hn d. pose proof (Z.mod_pos_bound n 128).
  assert (Hd : d = n mod 128) by (unfold d; by rewrite Z.lor_0_r, land_7f).
  assert (Hb : is_byte d) by (unfold is_byte; lia).
  split_and!; [done| |].
  - rewrite land_7f, Hd. by rewrite Z.mod_mod by lia.
  - rewrite land_80 by done. by rewrite (proj2 (Z.ltb_lt _ _)) by lia.
Qed.

(** One byte of the reader's loop, the bit operations resolved. *)
Lemma ReadVarInt_step w n d s acc :
  7 ≤ w → 0 ≤ acc → acc * 128 + n mod 128 < 2 ^ w →
  Z.land d 0x7F = n mod 128 →
  ReadVarInt_loop w acc (d :: s) =
    if Z.land d 0x80 =? 0 then Ok (acc * 128 + n mod 128, s)
    else ReadVarInt_loop w ((acc * 128 + n mod 128 + 1) mod 2 ^ w) s.
Proof.
  intros Hw Ha Hlt Hd. cbn [ReadVarInt_loop]. pose proof (Z.mod_pos_bound n 128).
  rewrite Hd, Z.shiftl_mul_pow2 by lia. change (2 ^ 7) with 128.
  rewrite Z.mod_small by lia.
  pose proof (lor_mul_add (n mod 128) acc 7 ltac:(lia) ltac:(change (2 ^ 7) with 128; lia)) as E.
  change (2 ^ 7) with 128 in E. by rewrite E.
Qed.

Lemma varint_digits_read w room m ds tail :
  7 ≤ w → 0 ≤ m < 2 ^ w → varint_digits room false m = Some ds →
  ReadVarInt_loop w 0 (rev ds ++ tail) = ReadVarInt_loop w ((m + 1) mod 2 ^ w) tail.
Proof.
  intros Hw. revert m ds tail. induction room as [|room IH]; intros m ds tail Hm; [done|].
  cbn [varint_digits]. destruct (varint_digit_false m) as (_ & H7 & H8); [lia|].
  destruct (Z.leb_spec m 0x7F).
  - intros [= <-]. cbn [rev app].
    assert (m mod 128 = m) as Hmm by (apply Z.mod_small; lia).
    rewrite (ReadVarInt_step w m) by (done || lia). rewrite H8. cbn [Z.eqb]. by rewrite Z.mul_0_l, Z.add_0_l, Hmm.
  - destruct (varint_digits room false _) as [ds'|] eqn:E; [|done]. cbn. intros [= <-].
    cbn [rev]. rewrite <- app_assoc. rewrite shiftr_div in E by lia. change (2 ^ 7) with 128 in E.
    assert (128 * (m / 128) + m mod 128 = m) by (symmetry; apply Z.div_mod; lia).
    assert (1 ≤ m / 128) by (apply Z.div_le_lower_bound; lia).
    pose proof (Z.mod_pos_bound m 128).
    rewrite (IH (m / 128 - 1) ds') by (done || lia). cbn [app]. rewrite Z.sub_add, (Z.mod_small (m / 128)) by lia.
    rewrite (ReadVarInt_step w m) by (done || lia).
    rewrite H8. cbn [Z.eqb]. do 2 f_equal. lia.
Qed.

Lemma varint_digits_room room first n :
  (0 < room)%nat → 0 ≤ n < 2 ^ (7 * Z.of_nat room) →
  ∃ ds, varint_digits room first n = Some ds ∧ bytes_ok ds ∧
        Z.of_nat (length ds) = GetSizeOfVarInt_loop room n.
Proof.
  revert first n. induction room as [|room IH]; intros first n Hr Hn; [lia|].
  cbn [varint_digits GetSizeOfVarInt_loop].
  assert (Hb : is_byte (Z.lor (Z.land n 0x7F) (if first then 0x00 else 0x80))).
  { destruct first; [apply (varint_digit_true n)|apply (varint_digit_false n)]; destruct (Z.leb_spec 0 n); done || lia. }
  destruct (Z.leb_spec n 0x7F); [eexists; split_and!; [done|by apply Forall_singleton|done]|].
  rewrite shiftr_div by lia. change (2 ^ 7) with 128.
  assert (0 < room)%nat by (destruct room; [cbn in Hn|]; lia).
  destruct (IH false (n / 128 - 1)) as (ds & -> & Hds & Hlen); [done| |].
  { assert (1 ≤ n / 128) by (apply Z.div_le_lower_bound; lia). split; [lia|].
    assert (n / 128 < 2 ^ (7 * Z.of_nat room)); [|lia].
    apply Z.div_lt_upper_bound; [lia|].
    replace (7 * Z.of_nat (S room)) with (7 + 7 * Z.of_nat room) in Hn by lia.
    rewrite Z.pow_add_r in Hn by lia. change (2 ^ 7) with 128 in Hn. lia. }
  eexists; split_and!; [done|by constructor|]. cbn [length]. lia.
Qed.

Lemma varint_room_pos w : 0 < w → (0 < varint_room w)%nat.
Proof. intros. unfold varint_room. assert (1 ≤ (w + 6) / 7) by (apply Z.div_le_lower_bound; lia). lia. Qed.

Lemma varint_room_enough w n : 0 < w → is_u w n → 0 ≤ n < 2 ^ (7 * Z.of_nat (varint_room w)).
Proof.
  unfold is_u, varint_room. intros Hw Hn. split; [lia|].
  rewrite Z2Nat.id by (apply Z.div_pos; lia).
  eapply Z.lt_le_trans; [apply Hn|]. apply Z.pow_le_mono_r; [lia|].
  pose proof (Z.div_mod (w + 6) 7). pose proof (Z.mod_pos_bound (w + 6) 7). lia.
Qed.

Lemma varint_roundtrip_gen w n rest :
  7 ≤ w → is_u w n →
  ∃ bs, WriteVarInt w n = Some bs ∧ bytes_ok bs ∧
        Z.of_nat (length bs) = GetSizeOfVarInt w n ∧
        ReadVarInt w (bs ++ rest) = Ok (n, rest).
Proof.
  intros Hw Hn. destruct (varint_digits_room _ true n (varint_room_pos w ltac:(lia)) (varint_room_enough w n ltac:(lia) Hn))
    as (ds & E & Hb & Hl).
  unfold WriteVarInt, GetSizeOfVarInt. rewrite E. eexists; split_and!; [done|..].
  - by apply Forall_rev.
  - by rewrite length_rev.
  - unfold is_u, ReadVarInt in *. destruct (varint_room w) as [|room]; [done|].
    cbn [varint_digits] in E. destruct (varint_digit_true n) as (_ & H7 & H8); [lia|].
    destruct (Z.leb_spec n 0x7F).
    + injection E as <-. cbn [rev app].
      assert (n mod 128 = n) as Hnn by (apply Z.mod_small; lia).
      rewrite (ReadVarInt_step w n) by (done || lia). rewrite H8. cbn [Z.eqb]. by rewrite Z.mul_0_l, Z.add_0_l, Hnn.
    + destruct (varint_digits room false _) as [ds'|] eqn:E'; [|done]. cbn in E.
      injection E as <-. cbn [rev]. rewrite <- app_assoc, shiftr_div in * by lia.
      change (2 ^ 7) with 128 in *.
      assert (128 * (n / 128) + n mod 128 = n) by (symmetry; apply Z.div_mod; lia).
      assert (1 ≤ n / 128) by (apply Z.div_le_lower_bound; lia).
      pose proof (Z.mod_pos_bound n 128).
      rewrite (varint_digits_read w room (n / 128 - 1) ds') by (done || lia). cbn [app].
      rewrite Z.sub_add, (Z.mod_small (n / 128)) by lia.
      rewrite (ReadVarInt_step w n) by (done || lia).
      rewrite H8. cbn [Z.eqb]. do 2 f_equal. lia.
Qed.

(** ** Codecs for the composite types *)

Lemma read_n_concat {A} (w : A → list Z) (r : reader A) (P : A → Prop) l rest :
  (∀ a rest, P a → r (w a ++ rest) = Ok (a, rest)) → Forall P l →
  read_n r (length l) (concat (map w l) ++ rest) = Ok (l, rest).
Proof.
  intros Hr. induction 1 as [|a l Ha Hl IH]; [done|].
  cbn [length map concat read_n]. rewrite <- app_assoc, Hr by done.
  cbn [mbind outcome_bind]. by rewrite IH.
Qed.

Lemma unser_vector_ser {A} (w : A → list Z) (r : reader A) (P : A → Prop) l rest :
  (∀ a rest, P a → r (w a ++ rest) = Ok (a, rest)) → Forall P l →
  Z.of_nat (length l) ≤ MAX_SIZE →
  unser_vector r (ser_vector w l ++ rest) = Ok (l, rest).
Proof.
  intros Hr Hl Hlen. unfold unser_vector, ser_vector.
  rewrite <- app_assoc, ReadCompactSize_Write by lia. cbn [mbind outcome_bind].
  rewrite Nat2Z.id. by apply (read_n_concat w r P).
Qed.

Lemma bytes_ok_concat {A} (w : A → list Z) (P : A → Prop) l :
  (∀ a, P a → bytes_ok (w a)) → Forall P l → bytes_ok (concat (map w l)).
Proof. intros Hw. induction 1; cbn [map concat]; [done|]. apply Forall_app; auto. Qed.

Lemma unser_blob_ser v rest :
  Z.of_nat (length v) ≤ MAX_SIZE → unser_blob (ser_blob v ++ rest) = Ok (v, rest).
Proof.
  intros. unfold unser_blob, ser_blob.
  rewrite <- app_assoc, ReadCompactSize_Write by lia. cbn [mbind outcome_bind].
  by rewrite Nat2Z.id, stream_read_app.
Qed.

(** A vector of serialisable elements is serialisable. *)
#[export] Program Instance serial_vector {A} `{!Serial A} : Serial (list A) := {|
  ser v := ser_vector ser v;
  unser := unser_vector unser;
  ser_ok v := Forall ser_ok v ∧ Z.of_nat (length v) ≤ MAX_SIZE |}.
Next Obligation.
  intros A HA v [Hv Hl]. apply Forall_app. split; [auto with fc|].
  apply (bytes_ok_concat _ ser_ok); [apply ser_bytes|done].
Qed.
Next Obligation.
  intros A HA v rest [Hv Hl]. apply (unser_vector_ser _ _ ser_ok); [apply unser_ser|done..].
Qed.

#[export] Program Instance serial_pair {A B} `{!Serial A, !Serial B} : Serial (A * B) := {|
  ser := ser_pair ser ser;
  unser := unser_pair unser unser;
  ser_ok p := ser_ok p.1 ∧ ser_ok p.2 |}.
Next Obligation. intros A B ?? [a b] [Ha Hb]. apply Forall_app. split; by apply ser_bytes. Qed.
Next Obligation.
  intros A B ?? [a b] rest [Ha Hb]. unfold unser_pair, ser_pair. cbn [fst snd] in *.
  rewrite <- app_assoc, unser_ser by done. cbn [mbind outcome_bind]. by rewrite unser_ser.
Qed.

(** ** Properties *)

(** ** Only the canonical bytes are read *)

(** What one type promises besides the round trip: a value that is read is well
    formed and the bytes consumed are exactly its serialization. *)
Class Canonical (A : Type) `{Serial A} :=
  unser_inv s (a : A) s' : bytes_ok s → unser s = Ok (a, s') → s = ser a ++ s' ∧ ser_ok a.

Lemma bytes_ok_tail a s : bytes_ok (a ++ s) → bytes_ok s.
Proof. by intros [_ ?]%Forall_app. Qed.

Lemma le_bytes_mod n z : le_bytes n (z mod 256 ^ Z.of_nat n) = le_bytes n z.
Proof.
  rewrite <- le_value_le_bytes. rewrite <- (length_le_bytes n z) at 1.
  apply le_bytes_le_value, bytes_ok_le_bytes.
Qed.

Lemma READDATA_signed_ok n s v s' :
  (0 < n)%nat → bytes_ok s → READDATA_signed n s = Ok (v, s') →
  s = WRITEDATA n v ++ s' ∧ is_s (8 * Z.of_nat n) v.
Proof.
  intros Hn Hs H. unfold READDATA_signed in H. invert_ok. destruct v0 as [b s''].
  cbn zeta in *. apply stream_read_ok in E as [-> Hl]. injection H as <- <-.
  apply Forall_app in Hs as [Hb _]. pose proof (le_value_bound b Hb) as Hv. rewrite Hl in Hv.
  assert (le_bytes n (le_value b) = b) as Eb by (rewrite <- Hl; by apply le_bytes_le_value).
  unfold WRITEDATA, is_s. set (w := 8 * Z.of_nat n) in *. rewrite pow256_pow2 in Hv. fold w in Hv.
  assert (2 ^ w = 2 * 2 ^ (w - 1)) as Hw by (rewrite <- Z.pow_succ_r by lia; f_equal; lia).
  destruct (Z.ltb_spec (le_value b) (2 ^ (w - 1))).
  - split; [by rewrite Eb|lia].
  - split; [|lia]. rewrite <- (le_bytes_mod n (le_value b - _)), pow256_pow2. fold w.
    replace (le_value b - 2 ^ w) with (le_value b + (-1) * 2 ^ w) by lia.
    by rewrite Z.mod_add, Z.mod_small, Eb by lia.
Qed.

Lemma unser_blob_inv s v s' :
  bytes_ok s → unser_blob s = Ok (v, s') → s = ser_blob v ++ s' ∧ bytes_ok v ∧ Z.of_nat (length v) ≤ MAX_SIZE.
Proof.
  intros Hs H. unfold unser_blob in H. invert_ok. destruct v0 as [n s''].
  apply ReadCompactSize_canonical in E as (-> & Hn & Hs'); [|done]. apply stream_read_ok in H as [-> Hl].
  unfold ser_blob. rewrite <- app_assoc. replace (Z.of_nat (length v)) with n by lia.
  apply Forall_app in Hs' as [? _]. split_and!; [done|done|lia].
Qed.

Lemma read_n_inv {A} (w : A → list Z) (r : reader A) (P : A → Prop) n s l s' :
  (∀ s a s', bytes_ok s → r s = Ok (a, s') → s = w a ++ s' ∧ P a) →
  bytes_ok s → read_n r n s = Ok (l, s') → s = concat (map w l) ++ s' ∧ Forall P l ∧ length l = n.
Proof.
  intros Hr. revert s l. induction n as [|n IH]; intros s l Hs H; cbn [read_n] in H.
  { by injection H as <- <-. }
  invert_ok. destruct v as [a s1]. apply outcome_bind_ok in H as ([l' s2] & E' & [= <- <-]).
  apply Hr in E as [-> Ha]; [|done]. apply IH in E' as (-> & Hl & Hlen); [|by eapply bytes_ok_tail].
  cbn [map concat length]. rewrite <- app_assoc. split_and!; [done|by constructor|by f_equal].
Qed.

#[export] Instance canonical_vector {A} `{Canonical A} : Canonical (list A).
Proof.
  intros s l s' Hs Hr. cbn [unser serial_vector] in Hr. unfold unser_vector in Hr. invert_ok. destruct v as [n s1].
  apply ReadCompactSize_canonical in E as (-> & Hn & Hs1); [|done].
  apply (read_n_inv ser unser ser_ok) in Hr as (-> & Hl & Hlen); [|apply unser_inv|done].
  cbn [ser serial_vector ser_ok]. unfold ser_vector. rewrite <- app_assoc. rewrite Hlen, Z2Nat.id by lia.
  split_and!; [done|done|lia].
Qed.

(** ReadCompactSize accepts exactly the byte strings WriteCompactSize
    produces for the sizes 0..MAX_SIZE, gives that size back and leaves the
    rest of the stream; every non-canonical or oversized encoding is refused. *)
Theorem compact_size_exact (s s' : list Z) (n : Z) :
  bytes_ok s →
  ReadCompactSize s = Ok (n, s') ↔ s = WriteCompactSize n ++ s' ∧ 0 ≤ n ≤ MAX_SIZE.
Proof.
  intros Hs. split.
  - intros H. apply ReadCompactSize_canonical in H as (-> & Hn & _); done.
  - intros [-> Hn]. by apply ReadCompactSize_Write.
Qed.

Lemma compact_size_exact_witness :
  ReadCompactSize (WriteCompactSize 70000 ++ [1; 2]) = Ok (70000, [1; 2]).
Proof.
  apply (compact_size_exact (WriteCompactSize 70000 ++ [1; 2]) [1; 2] 70000).
  - by_decision.
  - split; [reflexivity|unfold MAX_SIZE; lia].
Defined.

(** WriteVarInt on a w-bit unsigned value never overruns its digit buffer,
    writes as many bytes as GetSizeOfVarInt says, and ReadVarInt at the same
    width gives the value back and leaves the rest of the stream. *)
Theorem varint_roundtrip (w n : Z) (rest : list Z) :
  7 ≤ w → is_u w n →
  ∃ bs, WriteVarInt w n = Some bs ∧ bytes_ok bs ∧
        Z.of_nat (length bs) = GetSizeOfVarInt w n ∧
        ReadVarInt w (bs ++ rest) = Ok (n, rest).
Proof. apply varint_roundtrip_gen. Qed.

Lemma varint_roundtrip_witness :
  ∃ bs, WriteVarInt 32 65535 = Some bs ∧ bytes_ok bs ∧
        Z.of_nat (length bs) = GetSizeOfVarInt 32 65535 ∧
        ReadVarInt 32 (bs ++ [7]) = Ok (65535, [7]).
Proof. apply (varint_roundtrip 32 65535 [7]); [lia|unfold is_u; lia]. Defined.

(** The reader does not check for overflow: at 32 bits the encoding of 2^32
    listed in the comment above WriteVarInt is read as 0, so 0 has two
    encodings, against the comment's claim that every integer has exactly
    one. *)
Theorem varint_overflow_not_unique (rest : list Z) :
  ReadVarInt 32 ([0x00] ++ rest) = Ok (0, rest) ∧
  ReadVarInt 32 ([0x8E; 0xFE; 0xFE; 0xFF; 0x00] ++ rest) = Ok (0, rest).
Proof. split; reflexivity. Qed.
