(* ===== verification/BaseUint.v ===== *)
(** * arith_uint256.{h,cpp}: fixed-width big integers

    [base_uint<BITS>] is an array [pn] of [WIDTH = BITS/32] 32-bit limbs, least
    significant first.  The operations are translated limb by limb, with their
    carries; [uval] is the number an array stands for, and the lemmas of each
    section show that an operation computes the arithmetic operation on [uval]
    modulo [2^(32*WIDTH)].  [arith_uint256] adds the "compact" encoding of
    difficulty targets. *)
From stdpp Require Import base tactics list gmap numbers option.
From Stdlib Require Import ZArith Lia.
From S2P Require Import Prelude.

(** A [uint_error]. *)
Inductive uint_error := DivisionByZero.

Definition LIMB : Z := 2 ^ 32.

(** The number an array of limbs stands for. *)
Fixpoint uval (pn : list Z) : Z :=
  match pn with
  | [] => 0
  | x :: pn => x + LIMB * uval pn
  end.

Definition limbs_ok (W : nat) (pn : list Z) : Prop := length pn = W ∧ Forall (is_u 32) pn.

Section BaseUint.
Variable WIDTH : nat.

(** [base_uint()] and [base_uint(uint64_t b)]. *)
Definition uint_zero : list Z := replicate WIDTH 0.
Definition uint_of_u64 (b : Z) : list Z :=
  [u32 b; u32 (Z.shiftr b 32)] ++ replicate (WIDTH - 2) 0.

(** [operator!] *)
Definition uint_not (a : list Z) : bool := forallb (λ x, x =? 0) a.

(** [operator~] *)
Definition uint_compl (a : list Z) : list Z := map (λ x, u32 (Z.lnot x)) a.

(** [operator^=], [operator&=], [operator|=] *)
Definition uint_xor (a b : list Z) : list Z := zip_with Z.lxor a b.
Definition uint_and (a b : list Z) : list Z := zip_with Z.land a b.
Definition uint_or (a b : list Z) : list Z := zip_with Z.lor a b.

(** [operator+=] *)
Fixpoint uint_add_loop (carry : Z) (a b : list Z) : list Z :=
  match a, b with
  | x :: a, y :: b =>
      let n := u64 (carry + x + y) in
      Z.land n 0xffffffff :: uint_add_loop (Z.shiftr n 32) a b
  | _, _ => []
  end.
Definition uint_add (a b : list Z) : list Z := uint_add_loop 0 a b.

(** Prefix [operator++]: stop at the first limb that does not wrap to 0. *)
Fixpoint uint_inc (a : list Z) : list Z :=
  match a with
  | [] => []
  | x :: a => let x := u32 (x + 1) in if x =? 0 then x :: uint_inc a else x :: a
  end.

(** Prefix [operator--]. *)
Fixpoint uint_dec (a : list Z) : list Z :=
  match a with
  | [] => []
  | x :: a => let x := u32 (x - 1) in if x =? 0xffffffff then x :: uint_dec a else x :: a
  end.

(** [operator-] (unary) and [operator-=]. *)
Definition uint_neg (a : list Z) : list Z := uint_inc (uint_compl a).
Definition uint_sub (a b : list Z) : list Z := uint_add a (uint_neg b).

(** [operator<<=]: the loop of the code, limb [i] of the copy [a] going to
    limbs [i+k+1] and [i+k] of [pn]. *)
Definition uint_shl_step (a : list Z) (k : nat) (shift : Z) (pn : list Z) (i : nat) : list Z :=
  let ai := nth i a 0 in
  let pn := if ((i + k + 1 <? WIDTH)%nat && negb (shift =? 0))%bool
            then alter (λ x, Z.lor x (Z.shiftr ai (32 - shift))) (i + k + 1)%nat pn else pn in
  if (i + k <? WIDTH)%nat
  then alter (λ x, Z.lor x (u32 (Z.shiftl ai shift))) (i + k)%nat pn else pn.
Definition uint_shl (a : list Z) (shift : Z) : list Z :=
  fold_left (uint_shl_step a (Z.to_nat (shift / 32)) (shift mod 32)) (seq 0 WIDTH) uint_zero.

(** [operator>>=] *)
Definition uint_shr_step (a : list Z) (k : nat) (shift : Z) (pn : list Z) (i : nat) : list Z :=
  let ai := nth i a 0 in
  let pn := if ((k + 1 <=? i)%nat && negb (shift =? 0))%bool
            then alter (λ x, Z.lor x (u32 (Z.shiftl ai (32 - shift)))) (i - k - 1)%nat pn else pn in
  if (k <=? i)%nat
  then alter (λ x, Z.lor x (Z.shiftr ai shift)) (i - k)%nat pn else pn.
Definition uint_shr (a : list Z) (shift : Z) : list Z :=
  fold_left (uint_shr_step a (Z.to_nat (shift / 32)) (shift mod 32)) (seq 0 WIDTH) uint_zero.

(** [operator*=(uint32_t b32)] *)
Fixpoint uint_mul32_loop (b32 carry : Z) (pn : list Z) : list Z :=
  match pn with
  | [] => []
  | x :: pn =>
      let n := u64 (carry + u64 (b32 * x)) in
      Z.land n 0xffffffff :: uint_mul32_loop b32 (Z.shiftr n 32) pn
  end.
Definition uint_mul32 (a : list Z) (b32 : Z) : list Z := uint_mul32_loop b32 0 a.

(** [operator*=(const base_uint& b)]: the inner loop runs over [pn[j..]]. *)
Fixpoint uint_mul_inner (aj carry : Z) (pn b : list Z) : list Z :=
  match pn, b with
  | x :: pn, y :: b =>
      let n := u64 (u64 (carry + x) + u64 (aj * y)) in
      Z.land n 0xffffffff :: uint_mul_inner aj (Z.shiftr n 32) pn b
  | _, _ => pn
  end.
Definition uint_mul_step (a b : list Z) (pn : list Z) (j : nat) : list Z :=
  take j pn ++ uint_mul_inner (nth j a 0) 0 (drop j pn) b.
Definition uint_mul (a b : list Z) : list Z :=
  fold_left (uint_mul_step a b) (seq 0 WIDTH) uint_zero.

(** [CompareTo]: from the most significant limb down. *)
Fixpoint uint_compare_loop (a b : list Z) : Z :=
  match a, b with
  | x :: a, y :: b =>
      let c := uint_compare_loop a b in
      if c =? 0 then (if x <? y then -1 else if y <? x then 1 else 0) else c
  | _, _ => 0
  end.
Definition uint_CompareTo (a b : list Z) : Z := uint_compare_loop a b.

Definition uint_gt (a b : list Z) : bool := 0 <? uint_CompareTo a b.
Definition uint_lt (a b : list Z) : bool := uint_CompareTo a b <? 0.
Definition uint_ge (a b : list Z) : bool := 0 <=? uint_CompareTo a b.
Definition uint_le (a b : list Z) : bool := uint_CompareTo a b <=? 0.
Definition uint_eq (a b : list Z) : bool := bool_decide (a = b).

(** [EqualTo(uint64_t b)] *)
Definition uint_EqualTo (a : list Z) (b : Z) : bool :=
  (forallb (λ x, x =? 0) (drop 2 a) && (nth 1 a 0 =? Z.shiftr b 32)
   && (nth 0 a 0 =? Z.land b 0xffffffff))%bool.

(** [bits()]: the inner loop looks for the highest bit of a non-zero limb. *)
Fixpoint uint_limb_bits (bits : nat) (x : Z) : Z :=
  match bits with
  | O => 1
  | S b => if Z.land x (Z.shiftl 1 (Z.of_nat bits)) =? 0 then uint_limb_bits b x
           else Z.of_nat bits + 1
  end.
Fixpoint uint_bits_loop (pos : nat) (a : list Z) : Z :=
  match pos with
  | O => 0
  | S p => if nth p a 0 =? 0 then uint_bits_loop p a
           else 32 * Z.of_nat p + uint_limb_bits 31 (nth p a 0)
  end.
Definition uint_bits (a : list Z) : Z := uint_bits_loop WIDTH a.

Definition uint_GetLow64 (a : list Z) : Z := Z.lor (nth 0 a 0) (Z.shiftl (nth 1 a 0) 32).

(** [operator/=]: shift-and-subtract long division. *)
Fixpoint uint_div_loop (n : nat) (num div quo : list Z) : list Z * list Z :=
  match n with
  | O => (quo, num)
  | S shift =>
      let '(num, quo) :=
        if uint_ge num div
        then (uint_sub num div,
              alter (λ x, Z.lor x (Z.shiftl 1 (Z.of_nat shift mod 32))) (shift / 32)%nat quo)
        else (num, quo) in
      uint_div_loop shift num (uint_shr div 1) quo
  end.
Definition uint_div (a b : list Z) : outcome uint_error (list Z) :=
  let num_bits := uint_bits a in
  let div_bits := uint_bits b in
  if div_bits =? 0 then Err DivisionByZero
  else if num_bits <? div_bits then Ok uint_zero
  else
    let shift := num_bits - div_bits in
    Ok (uint_div_loop (Z.to_nat (shift + 1)) a (uint_shl b shift) uint_zero).1.
End BaseUint.

(** ** The number of an array *)

Lemma LIMB_pos : 0 < LIMB. Proof. reflexivity. Qed.
Lemma LIMB_pow_pos n : 0 < LIMB ^ Z.of_nat n.
Proof. apply Z.pow_pos_nonneg; [apply LIMB_pos|lia]. Qed.
Lemma LIMB_pow_succ n : LIMB ^ Z.of_nat (S n) = LIMB * LIMB ^ Z.of_nat n.
Proof. rewrite Nat2Z.inj_succ, Z.pow_succ_r; lia. Qed.
Lemma LIMB_pow_add n m : LIMB ^ Z.of_nat (n + m) = LIMB ^ Z.of_nat n * LIMB ^ Z.of_nat m.
Proof. rewrite Nat2Z.inj_add, Z.pow_add_r; lia. Qed.
Lemma LIMB_pow2 n : LIMB ^ Z.of_nat n = 2 ^ (32 * Z.of_nat n).
Proof. unfold LIMB. rewrite <- Z.pow_mul_r; lia. Qed.

Lemma uval_bound a : Forall (is_u 32) a → 0 ≤ uval a < LIMB ^ Z.of_nat (length a).
Proof.
  induction 1 as [|x a Hx _ IH]; [simpl; lia|].
  cbn [uval length]. rewrite LIMB_pow_succ. unfold is_u in Hx. change (2 ^ 32) with LIMB in Hx. nia.
Qed.

Lemma uval_app a b : uval (a ++ b) = uval a + LIMB ^ Z.of_nat (length a) * uval b.
Proof.
  induction a as [|x a IH]; [cbn [app length uval]; change (LIMB ^ Z.of_nat 0) with 1; lia|].
  cbn [app length uval]. rewrite IH, LIMB_pow_succ. lia.
Qed.

Lemma uval_inj a b :
  Forall (is_u 32) a → Forall (is_u 32) b → length a = length b → uval a = uval b → a = b.
Proof.
  intros Ha. revert b. induction Ha as [|x a Hx Ha IH]; intros [|y b] Hb Hl Hv; try done.
  apply Forall_cons_1 in Hb as [Hy Hb]. cbn [uval] in Hv.
  unfold is_u in Hx, Hy. change (2 ^ 32) with LIMB in *.
  pose proof (uval_bound a Ha); pose proof (uval_bound b Hb).
  assert (uval a = uval b) as E.
  { pose proof LIMB_pos.
    assert ((x + LIMB * uval a) / LIMB = (y + LIMB * uval b) / LIMB) as E by (by rewrite Hv).
    rewrite (Z.mul_comm LIMB (uval a)), (Z.mul_comm LIMB (uval b)), !Z.div_add in E by lia.
    by rewrite !Z.div_small in E by done. }
  rewrite E in Hv. f_equal; [lia|]. apply IH; auto.
Qed.

Lemma uval_replicate n : uval (replicate n 0) = 0.
Proof. induction n; cbn [replicate uval]; lia. Qed.

Lemma limbs_ok_zero W : limbs_ok W (uint_zero W).
Proof. split; [apply length_replicate|]. apply Forall_replicate. by unfold is_u. Qed.

Lemma uval_uint_of_u64 W b :
  (2 ≤ W)%nat → is_u 64 b → limbs_ok W (uint_of_u64 W b) ∧ uval (uint_of_u64 W b) = b.
Proof.
  intros HW Hb. unfold uint_of_u64, is_u in *. rewrite shiftr_div by lia.
  assert (0 ≤ b / 2 ^ 32 < 2 ^ 32).
  { split; [apply Z.div_pos; lia|]. apply Z.div_lt_upper_bound; lia. }
  unfold u32. split.
  - split; [rewrite length_app, length_replicate; cbn; lia|].
    do 2 (constructor; [by apply Z.mod_pos_bound|]).
    apply Forall_replicate. by unfold is_u.
  - cbn [app uval]. rewrite uval_replicate, (Z.mod_small (b / 2 ^ 32)) by done.
    change LIMB with (2 ^ 32). pose proof (Z.div_mod b (2 ^ 32)). lia.
Qed.

(** The step shared by every carry loop. *)
Lemma carry_step n m M : 0 < M → (n + LIMB * m) mod (LIMB * M) = n mod LIMB + LIMB * ((n / LIMB + m) mod M).
Proof.
  intros HM. pose proof LIMB_pos. rewrite Z.rem_mul_r by lia.
  rewrite (Z.mul_comm LIMB m), Z.mod_add, Z.div_add by lia. done.
Qed.

Lemma mod_mul_split p m L M : 0 ≤ p < L → 0 < M → (p + L * m) mod (L * M) = p + L * (m mod M).
Proof.
  intros Hp HM. rewrite Z.rem_mul_r by lia.
  rewrite (Z.mul_comm L m), Z.mod_add, Z.div_add by lia.
  rewrite (Z.mod_small p), (Z.div_small p) by lia. done.
Qed.

Lemma limb_mask n : Z.land n 0xffffffff = n mod LIMB.
Proof. apply (land_low n 32). lia. Qed.
Lemma limb_shiftr n : Z.shiftr n 32 = n / LIMB.
Proof. by apply shiftr_div. Qed.
Lemma is_u_limb_mod n : is_u 32 (n mod LIMB).
Proof. apply Z.mod_pos_bound, LIMB_pos. Qed.
#[export] Hint Resolve is_u_limb_mod LIMB_pow_pos LIMB_pos : fc.

(** Puts a limb hypothesis in the form [0 ≤ x < LIMB] and unfolds the masks. *)
Ltac limb_simpl :=
  repeat match goal with
  | H : is_u 32 ?x |- _ => change (0 ≤ x < LIMB) in H
  | H : Forall (is_u 32) (_ :: _) |- _ => apply Forall_cons_1 in H as [? H]
  end;
  rewrite ?limb_mask, ?limb_shiftr.

(** ** Addition, negation, subtraction *)

Lemma uint_add_loop_spec a b c :
  Forall (is_u 32) a → Forall (is_u 32) b → length a = length b → 0 ≤ c ≤ 1 →
  limbs_ok (length a) (uint_add_loop c a b) ∧
  uval (uint_add_loop c a b) = (c + uval a + uval b) mod LIMB ^ Z.of_nat (length a).
Proof.
  intros Ha. revert b c. induction Ha as [|x a Hx Ha IH]; intros [|y b] c Hb Hl Hc; try done.
  { split; [done|]. by rewrite Z.mod_1_r. }
  cbn [uint_add_loop uval length]. limb_simpl.
  pose proof LIMB_pos as HL. assert (LIMB = 4294967296) as HL' by reflexivity.
  rewrite u64_id by (unfold is_u; lia).
  destruct (IH b ((c + x + y) / LIMB)) as [[Hlen Hok] Hv]; [done|by injection Hl| |].
  { split; [apply Z.div_pos; lia|]. apply Z.lt_succ_r, Z.div_lt_upper_bound; lia. }
  split; [split; [cbn; by rewrite Hlen|constructor; auto with fc]|].
  rewrite LIMB_pow_succ, Hv, <- (Z.add_assoc (_ / _)), <- carry_step by auto with fc. f_equal. lia.
Qed.

Lemma uint_add_spec W a b :
  limbs_ok W a → limbs_ok W b →
  limbs_ok W (uint_add a b) ∧ uval (uint_add a b) = (uval a + uval b) mod 2 ^ (32 * Z.of_nat W).
Proof.
  intros [<- Ha] [Hl Hb]. rewrite <- LIMB_pow2.
  by apply (uint_add_loop_spec a b 0).
Qed.

Lemma uint_compl_spec W a :
  limbs_ok W a →
  limbs_ok W (uint_compl a) ∧ uval (uint_compl a) = 2 ^ (32 * Z.of_nat W) - 1 - uval a.
Proof.
  intros [<- Ha]. rewrite <- LIMB_pow2. unfold uint_compl.
  assert (∀ x, is_u 32 x → u32 (Z.lnot x) = LIMB - 1 - x) as Hc.
  { unfold is_u, u32, Z.lnot. change (2 ^ 32) with LIMB. intros x Hx.
    symmetry. apply Z.mod_unique with (-1); lia. }
  split; [split; [by rewrite length_map|]|].
  - apply Forall_map. apply Forall_true. intros. by apply is_u_limb_mod.
  - induction Ha as [|x a Hx Ha IH]; [done|].
    cbn [map uval length]. rewrite LIMB_pow_succ, IH, Hc by done. lia.
Qed.

Lemma uint_inc_spec W a :
  limbs_ok W a →
  limbs_ok W (uint_inc a) ∧ uval (uint_inc a) = (uval a + 1) mod 2 ^ (32 * Z.of_nat W).
Proof.
  intros [<- Ha]. rewrite <- LIMB_pow2.
  induction Ha as [|x a Hx Ha IH]; [done|].
  pose proof (uval_bound a Ha). pose proof (LIMB_pow_pos (length a)).
  cbn [uint_inc uval length]. rewrite LIMB_pow_succ. limb_simpl.
  unfold u32. change (2 ^ 32) with LIMB.
  replace (x + LIMB * uval a + 1) with ((x + 1) + LIMB * uval a) by lia.
  rewrite carry_step by done. destruct (decide (x = LIMB - 1)) as [->|].
  - rewrite Z.sub_add, Z.mod_same, Z.div_same by (pose proof LIMB_pos; lia). cbn [Z.eqb uval length].
    destruct IH as [[Hl Hok] Hv]. rewrite Hv, (Z.add_comm 1).
    split; [split; [cbn; lia|constructor; [by unfold is_u|done]]|done].
  - rewrite Z.mod_small, Z.div_small by lia. rewrite (proj2 (Z.eqb_neq _ _)) by lia.
    rewrite Z.add_0_l, (Z.mod_small (uval a)) by lia.
    split; [split; [done|constructor; [unfold is_u; change (2 ^ 32) with LIMB; lia|done]]|done].
Qed.

Lemma uint_neg_spec W a :
  limbs_ok W a →
  limbs_ok W (uint_neg a) ∧ uval (uint_neg a) = (- uval a) mod 2 ^ (32 * Z.of_nat W).
Proof.
  intros Ha. destruct (uint_compl_spec W a Ha) as [Hc Hv].
  destruct (uint_inc_spec W _ Hc) as [Hi Hiv]. split; [done|].
  unfold uint_neg. rewrite Hiv, Hv.
  replace (_ - 1 - uval a + 1) with (- uval a + 1 * 2 ^ (32 * Z.of_nat W)) by lia.
  apply Z.mod_add. lia.
Qed.

Lemma uint_sub_spec W a b :
  limbs_ok W a → limbs_ok W b →
  limbs_ok W (uint_sub a b) ∧ uval (uint_sub a b) = (uval a - uval b) mod 2 ^ (32 * Z.of_nat W).
Proof.
  intros Ha Hb. destruct (uint_neg_spec W b Hb) as [Hn Hv].
  destruct (uint_add_spec W a _ Ha Hn) as [Hs Hsv]. split; [done|].
  unfold uint_sub. rewrite Hsv, Hv, Z.add_mod_idemp_r by lia. done.
Qed.

(** ** Multiplication *)

Lemma uint_mul32_loop_spec b32 a c :
  Forall (is_u 32) a → is_u 32 b32 → is_u 32 c →
  limbs_ok (length a) (uint_mul32_loop b32 c a) ∧
  uval (uint_mul32_loop b32 c a) = (c + b32 * uval a) mod LIMB ^ Z.of_nat (length a).
Proof.
  intros Ha Hb. revert c. induction Ha as [|x a Hx Ha IH]; intros c Hc.
  { split; [done|]. by rewrite Z.mod_1_r. }
  cbn [uint_mul32_loop uval length]. limb_simpl.
  assert (LIMB = 4294967296) as HL by reflexivity.
  assert (0 ≤ b32 * x ≤ (LIMB - 1) * (LIMB - 1)) by nia.
  rewrite (u64_id (b32 * x)) by (unfold is_u; change (2 ^ 64) with (LIMB * LIMB); nia).
  rewrite u64_id by (unfold is_u; change (2 ^ 64) with (LIMB * LIMB); nia).
  destruct (IH ((c + b32 * x) / LIMB)) as [[Hlen Hok] Hv].
  { split; [apply Z.div_pos; nia|]. apply Z.div_lt_upper_bound; change (2 ^ 32) with LIMB; nia. }
  split; [split; [cbn; by rewrite Hlen|constructor; auto with fc]|].
  rewrite LIMB_pow_succ, Hv, <- carry_step by auto with fc. f_equal. lia.
Qed.

Lemma uint_mul32_spec W a b32 :
  limbs_ok W a → is_u 32 b32 →
  limbs_ok W (uint_mul32 a b32) ∧ uval (uint_mul32 a b32) = (uval a * b32) mod 2 ^ (32 * Z.of_nat W).
Proof.
  intros [<- Ha] Hb. rewrite <- LIMB_pow2, Z.mul_comm.
  by apply (uint_mul32_loop_spec b32 a 0).
Qed.

Lemma uint_mul_inner_spec aj pn b c :
  Forall (is_u 32) pn → Forall (is_u 32) b → (length pn ≤ length b)%nat → is_u 32 aj → is_u 32 c →
  limbs_ok (length pn) (uint_mul_inner aj c pn b) ∧
  uval (uint_mul_inner aj c pn b) = (c + uval pn + aj * uval b) mod LIMB ^ Z.of_nat (length pn).
Proof.
  intros Hp. revert b c. induction Hp as [|x pn Hx Hp IH]; intros b c Hb Hl Haj Hc.
  { split; [done|]. by rewrite Z.mod_1_r. }
  destruct b as [|y b]; cbn [length] in Hl; [lia|].
  cbn [uint_mul_inner uval length]. limb_simpl.
  assert (LIMB = 4294967296) as HL by reflexivity.
  assert (0 ≤ aj * y ≤ (LIMB - 1) * (LIMB - 1)) by nia.
  rewrite (u64_id (aj * y)), (u64_id (c + x)) by (unfold is_u; change (2 ^ 64) with (LIMB * LIMB); nia).
  rewrite u64_id by (unfold is_u; change (2 ^ 64) with (LIMB * LIMB); nia).
  destruct (IH b ((c + x + aj * y) / LIMB)) as [[Hlen Hok] Hv]; [done|lia|done| |].
  { split; [apply Z.div_pos; nia|]. apply Z.div_lt_upper_bound; change (2 ^ 32) with LIMB; nia. }
  split; [split; [cbn; by rewrite Hlen|constructor; auto with fc]|].
  rewrite LIMB_pow_succ, Hv, <- (Z.add_assoc (_ / _)), <- carry_step by auto with fc. f_equal. lia.
Qed.

Lemma nth_take_S {A} (d : A) a j : (j < length a)%nat → take (S j) a = take j a ++ [nth j a d].
Proof.
  revert j. induction a as [|x a IH]; intros [|j] Hj; simpl in *; try lia; [done|].
  by rewrite <- IH by lia.
Qed.

Lemma Forall_nth_default {A} (P : A → Prop) d a j : P d → Forall P a → P (nth j a d).
Proof. intros Hd Ha. revert j. induction Ha; intros [|j]; simpl; auto. Qed.

(** After [j] rounds the result is [a]'s low [j] limbs times [b]. *)
Lemma uint_mul_rounds W a b j :
  limbs_ok W a → limbs_ok W b → (j ≤ W)%nat →
  let pn := fold_left (uint_mul_step a b) (seq 0 j) (uint_zero W) in
  limbs_ok W pn ∧ uval pn = (uval (take j a) * uval b) mod LIMB ^ Z.of_nat W.
Proof.
  intros Ha Hb. induction j as [|j IH]; intros Hj; cbn zeta.
  - cbn [seq fold_left]. split; [apply limbs_ok_zero|].
    unfold uint_zero. rewrite uval_replicate, take_0. cbn [uval]. rewrite Z.mul_0_l. by rewrite Z.mod_0_l by (pose proof (LIMB_pow_pos W); lia).
  - rewrite seq_S, fold_left_app. cbn [Nat.add fold_left].
    destruct IH as [[Hl Hok] Hv]; [lia|]. remember (fold_left _ _ _) as pn eqn:Epn. clear Epn.
    destruct Ha as [Hla Hoka], Hb as [Hlb Hokb].
    destruct (uint_mul_inner_spec (nth j a 0) (drop j pn) b 0) as [[Hl' Hok'] Hv'];
      [by apply Forall_drop|done|rewrite length_drop; lia|by apply Forall_nth_default|by unfold is_u|].
    unfold uint_mul_step. rewrite length_drop in Hl', Hv'.
    split; [split; [rewrite length_app, length_take, Hl'; lia|apply Forall_app; auto using Forall_take]|].
    rewrite uval_app, Hv', length_take, Nat.min_l by lia.
    rewrite (nth_take_S 0) by lia. rewrite uval_app, length_take, Nat.min_l by lia.
    cbn [uval]. pose proof (LIMB_pow_pos j) as Pj. pose proof (LIMB_pow_pos (W - j)) as Pw.
    rewrite <- (take_drop j pn), uval_app, length_take, Nat.min_l in Hv by lia.
    replace (LIMB ^ Z.of_nat W) with (LIMB ^ Z.of_nat j * LIMB ^ Z.of_nat (W - j)) in *
      by (rewrite <- LIMB_pow_add; do 2 f_equal; lia).
    rewrite Hl, Z.mul_add_distr_r.
    rewrite <- (Z.add_mod_idemp_l (uval (take j a) * uval b)), <- Hv by nia.
    pose proof (uval_bound (take j pn)) as Hb; rewrite length_take, Nat.min_l in Hb by lia.
    specialize (Hb ltac:(by apply Forall_take)).
    rewrite <- (mod_mul_split (uval (take j pn))) by lia. f_equal. lia.
Qed.

Lemma uint_mul_spec W a b :
  limbs_ok W a → limbs_ok W b →
  limbs_ok W (uint_mul W a b) ∧ uval (uint_mul W a b) = (uval a * uval b) mod 2 ^ (32 * Z.of_nat W).
Proof.
  intros Ha Hb. destruct (uint_mul_rounds W a b W Ha Hb) as [Hok Hv]; [lia|].
  split; [done|]. unfold uint_mul. rewrite Hv, LIMB_pow2, take_ge by (destruct Ha; lia). done.
Qed.


(** ** Comparison *)

Definition sign_of (c : comparison) : Z := match c with Lt => -1 | Eq => 0 | Gt => 1 end.

Lemma uint_compare_spec W a b :
  limbs_ok W a → limbs_ok W b → uint_CompareTo a b = sign_of (uval a ?= uval b).
Proof.
  intros [<- Ha] [Hl Hb]. unfold uint_CompareTo. revert b Hl Hb.
  induction Ha as [|x a Hx Ha IH]; intros [|y b] Hl Hb; try done.
  cbn [uint_compare_loop uval]. limb_simpl.
  rewrite IH by (done || by injection Hl). pose proof LIMB_pos.
  destruct (Z.compare_spec (uval a) (uval b)) as [->|?|?]; cbn [sign_of Z.eqb].
  - destruct (Z.compare_spec (x + LIMB * uval b) (y + LIMB * uval b)); cbn [sign_of];
      destruct (Z.ltb_spec x y); try lia; destruct (Z.ltb_spec y x); lia.
  - by rewrite (proj2 (Z.compare_lt_iff _ _)) by nia.
  - by rewrite (proj2 (Z.compare_gt_iff _ _)) by nia.
Qed.

Lemma uint_ge_spec W a b : limbs_ok W a → limbs_ok W b → uint_ge a b = (uval b <=? uval a).
Proof.
  intros. unfold uint_ge. rewrite (uint_compare_spec W) by done.
  destruct (Z.compare_spec (uval a) (uval b)); cbn [sign_of]; symmetry; lia.
Qed.
Lemma uint_gt_spec W a b : limbs_ok W a → limbs_ok W b → uint_gt a b = (uval b <? uval a).
Proof.
  intros. unfold uint_gt. rewrite (uint_compare_spec W) by done.
  destruct (Z.compare_spec (uval a) (uval b)); cbn [sign_of]; symmetry; lia.
Qed.

(** ** Bits *)

Lemma uval_testbit a i :
  Forall (is_u 32) a → 0 ≤ i →
  Z.testbit (uval a) i = Z.testbit (nth (Z.to_nat (i / 32)) a 0) (i mod 32).
Proof.
  intros Ha. revert i. induction Ha as [|x a Hx Ha IH]; intros i Hi.
  { cbn [uval]. destruct (Z.to_nat (i / 32)); cbn [nth]; by rewrite !Z.bits_0. }
  cbn [uval]. replace (x + LIMB * uval a) with (Z.lor x (Z.shiftl (uval a) 32))
    by (rewrite lor_shiftl_add by (done || lia); unfold LIMB; lia).
  rewrite Z.lor_spec, Z.shiftl_spec by done. unfold is_u in Hx.
  destruct (Z.ltb_spec i 32).
  - rewrite Z.div_small, (Z.mod_small i), (Z.testbit_neg_r (uval a)) by lia. apply orb_false_r.
  - rewrite <- (Z.mod_small x (2 ^ 32)), Z.mod_pow2_bits_high, orb_false_l by lia.
    rewrite IH by lia. replace i with ((i - 32) + 1 * 32) at 3 4 by lia.
    rewrite Z.div_add, Z.mod_add, Z2Nat.inj_add, Nat.add_comm by (lia || apply Z.div_pos; lia).
    done.
Qed.

Lemma land_bit x n : 0 ≤ n → (Z.land x (Z.shiftl 1 n) =? 0) = negb (Z.testbit x n).
Proof.
  intros Hn. destruct (Z.testbit x n) eqn:E; cbn [negb].
  - apply Z.eqb_neq. intros H. apply (f_equal (λ z, Z.testbit z n)) in H.
    rewrite Z.land_spec, E, Z.shiftl_spec, Z.sub_diag, Z.bits_0 in H by done. done.
  - apply Z.eqb_eq, Z.bits_inj'. intros i Hi. rewrite Z.land_spec, Z.shiftl_spec, Z.bits_0 by done.
    destruct (decide (i = n)) as [->|]; [by rewrite E|].
    destruct (Z.ltb_spec i n); [rewrite (Z.testbit_neg_r 1) by lia; apply andb_false_r|].
    rewrite (Z.bits_above_log2 1) by (cbn; lia). apply andb_false_r.
Qed.

Lemma uint_limb_bits_spec n x :
  0 < x < 2 ^ (Z.of_nat n + 1) → uint_limb_bits n x = Z.log2 x + 1.
Proof.
  induction n as [|n IH]; intros Hx.
  { assert (x = 1) as -> by (change (2 ^ (Z.of_nat 0 + 1)) with 2 in Hx; lia). done. }
  cbn [uint_limb_bits]. rewrite land_bit by lia.
  destruct (Z.ltb_spec x (2 ^ Z.of_nat (S n))).
  - rewrite Z.bits_above_log2 by (try apply Z.log2_lt_pow2; lia). cbn [negb].
    apply IH. rewrite Nat2Z.inj_succ in *. lia.
  - assert (Z.log2 x = Z.of_nat (S n)) as E by (apply Z.log2_unique; lia).
    rewrite <- E, Z.bit_log2 by lia. cbn [negb]. lia.
Qed.

Definition bit_length (z : Z) : Z := if z =? 0 then 0 else Z.log2 z + 1.

Lemma uint_bits_loop_spec pos a :
  Forall (is_u 32) a → (pos ≤ length a)%nat →
  uint_bits_loop pos a = bit_length (uval (take pos a)).
Proof.
  intros Ha. induction pos as [|p IH]; intros Hp; [done|].
  cbn [uint_bits_loop]. rewrite (nth_take_S 0), uval_app, length_take, Nat.min_l by lia.
  cbn [uval]. pose proof (Forall_nth_default (is_u 32) 0 a p) as Hx. unfold is_u in Hx at 1 3.
  specialize (Hx ltac:(lia) Ha). destruct (Z.eqb_spec (nth p a 0) 0) as [->|Hne].
  - rewrite IH by lia. f_equal. lia.
  - rewrite uint_limb_bits_spec by (cbn; lia).
    pose proof (uval_bound (take p a)) as Hb; rewrite length_take, Nat.min_l in Hb by lia.
    specialize (Hb ltac:(by apply Forall_take)). rewrite LIMB_pow2 in *.
    set (x := nth p a 0) in *. set (v := uval (take p a)) in *.
    unfold bit_length. rewrite (proj2 (Z.eqb_neq _ _)) by nia.
    assert (Z.log2 (v + 2 ^ (32 * Z.of_nat p) * (x + LIMB * 0)) = 32 * Z.of_nat p + Z.log2 x); [|lia].
    pose proof (Z.log2_spec x). pose proof (Z.log2_nonneg x). apply Z.log2_unique; [lia|].
    rewrite <- Z.add_succ_r, !Z.pow_add_r by lia. nia.
Qed.

Lemma uint_bits_spec W a : limbs_ok W a → uint_bits W a = bit_length (uval a).
Proof.
  intros [Hl Ha]. unfold uint_bits. rewrite uint_bits_loop_spec, take_ge by (done || lia). done.
Qed.

(** ** Shifts *)

(** The limb at an index, 0 outside the array. *)
Definition zlimb (a : list Z) (z : Z) : Z := if z <? 0 then 0 else nth (Z.to_nat z) a 0.

Lemma nth_replicate_0 n j : nth j (replicate n 0) 0 = 0.
Proof. revert j. induction n; intros [|j]; simpl; auto. Qed.

Lemma zlimb_nil z : zlimb [] z = 0.
Proof. unfold zlimb. destruct (z <? 0); [done|]. by apply nth_overflow, Nat.le_0_l. Qed.

Lemma zlimb_ok a z : Forall (is_u 32) a → is_u 32 (zlimb a z).
Proof.
  intros. unfold zlimb. destruct (z <? 0); [by unfold is_u|].
  apply Forall_nth_default; [by unfold is_u|done].
Qed.

Lemma zlimb_take_S a n z : (n < length a)%nat →
  zlimb (take (S n) a) z = if z =? Z.of_nat n then nth n a 0 else zlimb (take n a) z.
Proof.
  intros Hn. unfold zlimb. rewrite (nth_take_S 0) by done.
  assert (length (take n a) = n) as El by (rewrite length_take; lia).
  destruct (Z.ltb_spec z 0), (Z.eqb_spec z (Z.of_nat n)); try lia; try done.
  - subst z. rewrite Nat2Z.id, app_nth2, El, Nat.sub_diag by lia. done.
  - destruct (decide (Z.to_nat z < n)%nat); [by rewrite app_nth1 by lia|].
    rewrite !nth_overflow; rewrite ?length_app, ?El; cbn; (done || lia).
Qed.

Lemma zlimb_take_beyond a n z : Z.of_nat n ≤ z → zlimb (take n a) z = 0.
Proof.
  intros. unfold zlimb. destruct (z <? 0); [done|]. apply nth_overflow. rewrite length_take. lia.
Qed.

Lemma uval_testbit_zlimb a i :
  Forall (is_u 32) a → Z.testbit (uval a) i = Z.testbit (zlimb a (i / 32)) (i mod 32).
Proof.
  intros Ha. unfold zlimb. pose proof (Z.div_mod i 32). pose proof (Z.mod_pos_bound i 32).
  destruct (Z.ltb_spec (i / 32) 0); [rewrite Z.testbit_neg_r, Z.bits_0 by lia; done|].
  apply uval_testbit; [done|lia].
Qed.

Lemma nth_alter f i j (l : list Z) :
  nth j (alter f i l) 0 = if ((j =? i) && (i <? length l))%nat%bool then f (nth i l 0) else nth j l 0.
Proof.
  revert i j. induction l as [|x l IH]; intros i j.
  { destruct i, j; cbn; rewrite ?andb_false_r; done. }
  destruct i, j; cbn; done || apply IH.
Qed.

Lemma u32_shiftl_testbit x s r : 0 ≤ s → 0 ≤ r < 32 → Z.testbit (u32 (Z.shiftl x s)) r = Z.testbit x (r - s).
Proof. intros. unfold u32. rewrite Z.mod_pow2_bits_low, Z.shiftl_spec by lia. done. Qed.

Lemma limb_testbit_high x r : is_u 32 x → 32 ≤ r → Z.testbit x r = false.
Proof. intros Hx Hr. unfold is_u in Hx. rewrite <- (Z.mod_small x (2 ^ 32)) by done. by apply Z.mod_pow2_bits_high. Qed.

Definition shl_limb (a : list Z) (k s j : Z) : Z :=
  Z.lor (Z.shiftr (zlimb a (j - k - 1)) (32 - s)) (u32 (Z.shiftl (zlimb a (j - k)) s)).
Definition shr_limb (a : list Z) (k s j : Z) : Z :=
  Z.lor (u32 (Z.shiftl (zlimb a (j + k + 1)) (32 - s))) (Z.shiftr (zlimb a (j + k)) s).

Lemma limb_shiftr_32 x : is_u 32 x → Z.shiftr x 32 = 0.
Proof. intros. rewrite shiftr_div by lia. by apply Z.div_small. Qed.
Lemma limb_shiftl_32 x : u32 (Z.shiftl x 32) = 0.
Proof. rewrite Z.shiftl_mul_pow2 by lia. apply Z.mod_mul. done. Qed.

Lemma is_u_32_bits x : (∀ r, 32 ≤ r → Z.testbit x r = false) → 0 ≤ x → is_u 32 x.
Proof.
  intros Hb Hx. unfold is_u. split; [done|].
  destruct (Z.eqb_spec x 0); [lia|]. apply Z.log2_lt_pow2; [lia|].
  apply Z.nle_gt. intros H. pose proof (Hb _ H) as E. rewrite Z.bit_log2 in E by lia. done.
Qed.

Lemma uint_shl_rounds W a k s n :
  limbs_ok W a → 0 ≤ s < 32 → (n ≤ W)%nat →
  let pn := fold_left (uint_shl_step W a k s) (seq 0 n) (uint_zero W) in
  length pn = W ∧ ∀ j, (j < W)%nat → nth j pn 0 = shl_limb (take n a) (Z.of_nat k) s (Z.of_nat j).
Proof.
  intros [Hl Ha] Hs. induction n as [|n IH]; intros Hn; cbn zeta.
  - split; [apply length_replicate|]. intros j Hj. cbn [seq fold_left].
    unfold shl_limb, uint_zero. rewrite nth_replicate_0, take_0, !zlimb_nil.
    by rewrite Z.shiftr_0_l, Z.shiftl_0_l.
  - destruct IH as [Hlp Hj]; [lia|]. rewrite seq_S, fold_left_app. cbn [Nat.add fold_left].
    remember (fold_left _ _ _) as pn eqn:E; clear E. unfold uint_shl_step.
    split; [repeat case_match; rewrite ?length_alter; done|].
    intros j Hjw. assert (is_u 32 (nth n a 0)) by (apply Forall_nth_default; [by unfold is_u|done]).
    transitivity (Z.lor (nth j pn 0) (Z.lor
      (if (j =? n + k + 1)%nat then Z.shiftr (nth n a 0) (32 - s) else 0)
      (if (j =? n + k)%nat then u32 (Z.shiftl (nth n a 0) s) else 0))).
    + destruct (Nat.ltb_spec (n + k + 1) W), (Z.eqb_spec s 0), (Nat.ltb_spec (n + k) W);
        cbn [andb negb]; rewrite ?nth_alter, ?length_alter, ?Hlp;
        repeat match goal with |- context [(?x =? ?y)%nat] => destruct (Nat.eqb_spec x y) end;
        repeat match goal with |- context [(?x <? ?y)%nat] => destruct (Nat.ltb_spec x y) end;
        subst; try lia; cbn [andb]; rewrite ?Z.sub_0_r, ?limb_shiftr_32, ?Z.lor_0_r, ?Z.lor_0_l by done;
        try done.
    + rewrite Hj by done. unfold shl_limb. rewrite !zlimb_take_S by lia.
      destruct (Nat.eqb_spec j (n + k + 1)), (Nat.eqb_spec j (n + k)),
        (Z.eqb_spec (Z.of_nat j - Z.of_nat k - 1) (Z.of_nat n)),
        (Z.eqb_spec (Z.of_nat j - Z.of_nat k) (Z.of_nat n)); try lia;
        rewrite ?(zlimb_take_beyond a n (_ - _ - 1)) by lia;
        rewrite ?(zlimb_take_beyond a n (_ - Z.of_nat k)) by lia;
        rewrite ?Z.shiftr_0_l, ?Z.shiftl_0_l, ?Z.lor_0_r, ?Z.lor_0_l; done.
Qed.

Lemma uint_shr_rounds W a k s n :
  limbs_ok W a → 0 ≤ s < 32 → (n ≤ W)%nat →
  let pn := fold_left (uint_shr_step a k s) (seq 0 n) (uint_zero W) in
  length pn = W ∧ ∀ j, (j < W)%nat → nth j pn 0 = shr_limb (take n a) (Z.of_nat k) s (Z.of_nat j).
Proof.
  intros [Hl Ha] Hs. induction n as [|n IH]; intros Hn; cbn zeta.
  - split; [apply length_replicate|]. intros j Hj. cbn [seq fold_left].
    unfold shr_limb, uint_zero. rewrite nth_replicate_0, take_0, !zlimb_nil.
    by rewrite Z.shiftr_0_l, Z.shiftl_0_l.
  - destruct IH as [Hlp Hj]; [lia|]. rewrite seq_S, fold_left_app. cbn [Nat.add fold_left].
    remember (fold_left _ _ _) as pn eqn:E; clear E. unfold uint_shr_step.
    split; [repeat case_match; rewrite ?length_alter; done|].
    intros j Hjw. assert (is_u 32 (nth n a 0)) by (apply Forall_nth_default; [by unfold is_u|done]).
    transitivity (Z.lor (nth j pn 0) (Z.lor
      (if (j + k + 1 =? n)%nat then u32 (Z.shiftl (nth n a 0) (32 - s)) else 0)
      (if (j + k =? n)%nat then Z.shiftr (nth n a 0) s else 0))).
    + destruct (Nat.leb_spec (k + 1) n), (Z.eqb_spec s 0), (Nat.leb_spec k n);
        cbn [andb negb]; rewrite ?nth_alter, ?length_alter, ?Hlp;
        repeat match goal with |- context [(?x =? ?y)%nat] => destruct (Nat.eqb_spec x y) end;
        repeat match goal with |- context [(?x <? ?y)%nat] => destruct (Nat.ltb_spec x y) end;
        subst; try lia; cbn [andb]; rewrite ?Z.sub_0_r, ?limb_shiftl_32, ?Z.lor_0_r, ?Z.lor_0_l by done;
        try done.
    + rewrite Hj by done. unfold shr_limb. rewrite !zlimb_take_S by lia.
      destruct (Nat.eqb_spec (j + k + 1) n), (Nat.eqb_spec (j + k) n),
        (Z.eqb_spec (Z.of_nat j + Z.of_nat k + 1) (Z.of_nat n)),
        (Z.eqb_spec (Z.of_nat j + Z.of_nat k) (Z.of_nat n)); try lia;
        rewrite ?(zlimb_take_beyond a n (_ + _ + 1)) by lia;
        rewrite ?(zlimb_take_beyond a n (_ + Z.of_nat k)) by lia;
        rewrite ?Z.shiftr_0_l, ?Z.shiftl_0_l; change (u32 0) with 0; rewrite ?Z.lor_0_r, ?Z.lor_0_l;
        done || apply Z.lor_comm.
Qed.

Lemma shl_limb_ok a k s j : Forall (is_u 32) a → 0 ≤ s < 32 → is_u 32 (shl_limb a k s j).
Proof.
  intros Ha Hs. pose proof (zlimb_ok a (j - k - 1) Ha) as H1. unfold shl_limb.
  assert (is_u 32 (u32 (Z.shiftl (zlimb a (j - k)) s))) as H2 by (apply is_u_limb_mod).
  apply is_u_32_bits.
  - intros r Hr. rewrite Z.lor_spec, Z.shiftr_spec, !limb_testbit_high by (done || lia). done.
  - apply Z.lor_nonneg. split; [apply Z.shiftr_nonneg, H1|apply H2].
Qed.

Lemma shr_limb_ok a k s j : Forall (is_u 32) a → 0 ≤ s < 32 → is_u 32 (shr_limb a k s j).
Proof.
  intros Ha Hs. pose proof (zlimb_ok a (j + k) Ha) as H1. unfold shr_limb.
  assert (is_u 32 (u32 (Z.shiftl (zlimb a (j + k + 1)) (32 - s)))) as H2 by (apply is_u_limb_mod).
  apply is_u_32_bits.
  - intros r Hr. rewrite Z.lor_spec, Z.shiftr_spec, !limb_testbit_high by (done || lia). done.
  - apply Z.lor_nonneg. split; [apply H2|apply Z.shiftr_nonneg, H1].
Qed.

Lemma limbs_ok_nth W pn : length pn = W → (∀ j, (j < W)%nat → is_u 32 (nth j pn 0)) → limbs_ok W pn.
Proof.
  intros Hl H. split; [done|]. apply Forall_lookup. intros i x Hi. pose proof (lookup_lt_Some _ _ _ Hi).
  specialize (H i). rewrite (nth_lookup_Some _ _ _ _ Hi) in H. apply H. lia.
Qed.

Lemma uint_shl_spec W a shift :
  limbs_ok W a → 0 ≤ shift →
  limbs_ok W (uint_shl W a shift) ∧
  uval (uint_shl W a shift) = (uval a * 2 ^ shift) mod 2 ^ (32 * Z.of_nat W).
Proof.
  intros Ha Hs. pose proof (Z.mod_pos_bound shift 32 ltac:(lia)) as Hm.
  assert (0 ≤ shift / 32) as Hd by (apply Z.div_pos; lia).
  destruct (uint_shl_rounds W a (Z.to_nat (shift / 32)) (shift mod 32) W Ha Hm (le_n W)) as [Hl Hj].
  fold (uint_shl W a shift) in *. destruct Ha as [Hla Ha]. rewrite take_ge, Z2Nat.id in Hj by lia.
  assert (limbs_ok W (uint_shl W a shift)) as Hok.
  { apply limbs_ok_nth; [done|]. intros j Hjw. rewrite Hj by done. by apply shl_limb_ok. }
  split; [done|]. rewrite <- Z.shiftl_mul_pow2 by done. destruct Hok as [_ Hok].
  apply Z.bits_inj'. intros i Hi. destruct (Z.ltb_spec i (32 * Z.of_nat W)).
  2: { pose proof (uval_bound _ Hok) as Hb. rewrite LIMB_pow2, Hl in Hb.
       rewrite Z.mod_pow2_bits_high, <- (Z.mod_small _ _ Hb), Z.mod_pow2_bits_high by lia. done. }
  pose proof (Z.div_mod i 32 ltac:(lia)). pose proof (Z.mod_pos_bound i 32 ltac:(lia)).
  pose proof (Z.div_mod shift 32 ltac:(lia)).
  rewrite Z.mod_pow2_bits_low, Z.shiftl_spec, uval_testbit by done.
  rewrite Hj, Z2Nat.id by lia. unfold shl_limb.
  rewrite Z.lor_spec, Z.shiftr_spec, u32_shiftl_testbit, uval_testbit_zlimb by (done || lia).
  set (q := i / 32) in *. set (r := i mod 32) in *. set (k := shift / 32) in *. set (s := shift mod 32) in *.
  destruct (Z.leb_spec s r).
  - rewrite <- (Z.div_unique (i - shift) 32 (q - k) (r - s)), <- (Z.mod_unique (i - shift) 32 (q - k) (r - s)) by lia.
    rewrite limb_testbit_high by (by (apply zlimb_ok || lia)). done.
  - rewrite <- (Z.div_unique (i - shift) 32 (q - k - 1) (r - s + 32)), <- (Z.mod_unique (i - shift) 32 (q - k - 1) (r - s + 32)) by lia.
    rewrite (Z.testbit_neg_r _ (r - s)), orb_false_r by lia. f_equal. lia.
Qed.

Lemma uint_shr_spec W a shift :
  limbs_ok W a → 0 ≤ shift →
  limbs_ok W (uint_shr W a shift) ∧ uval (uint_shr W a shift) = uval a / 2 ^ shift.
Proof.
  intros Ha Hs. pose proof (Z.mod_pos_bound shift 32 ltac:(lia)) as Hm.
  assert (0 ≤ shift / 32) as Hd by (apply Z.div_pos; lia).
  destruct (uint_shr_rounds W a (Z.to_nat (shift / 32)) (shift mod 32) W Ha Hm (le_n W)) as [Hl Hj].
  fold (uint_shr W a shift) in *. destruct Ha as [Hla Ha]. rewrite take_ge, Z2Nat.id in Hj by lia.
  assert (limbs_ok W (uint_shr W a shift)) as Hok.
  { apply limbs_ok_nth; [done|]. intros j Hjw. rewrite Hj by done. by apply shr_limb_ok. }
  split; [done|]. rewrite <- shiftr_div by done. destruct Hok as [_ Hok].
  pose proof (uval_bound _ Ha) as Hba. rewrite LIMB_pow2, Hla in Hba.
  apply Z.bits_inj'. intros i Hi. rewrite Z.shiftr_spec by done. destruct (Z.ltb_spec i (32 * Z.of_nat W)).
  2: { pose proof (uval_bound _ Hok) as Hb. rewrite LIMB_pow2, Hl in Hb.
       rewrite <- (Z.mod_small _ _ Hba), <- (Z.mod_small _ _ Hb), !Z.mod_pow2_bits_high by lia. done. }
  pose proof (Z.div_mod i 32 ltac:(lia)). pose proof (Z.mod_pos_bound i 32 ltac:(lia)).
  pose proof (Z.div_mod shift 32 ltac:(lia)).
  rewrite uval_testbit by done. rewrite Hj, Z2Nat.id by lia. unfold shr_limb.
  rewrite Z.lor_spec, Z.shiftr_spec, u32_shiftl_testbit, uval_testbit_zlimb by (done || lia).
  set (q := i / 32) in *. set (r := i mod 32) in *. set (k := shift / 32) in *. set (s := shift mod 32) in *.
  destruct (Z.ltb_spec (r + s) 32).
  - rewrite <- (Z.div_unique (i + shift) 32 (q + k) (r + s)), <- (Z.mod_unique (i + shift) 32 (q + k) (r + s)) by lia.
    rewrite (Z.testbit_neg_r _ (r - (32 - s))) by lia. done.
  - rewrite <- (Z.div_unique (i + shift) 32 (q + k + 1) (r + s - 32)), <- (Z.mod_unique (i + shift) 32 (q + k + 1) (r + s - 32)) by lia.
    rewrite (limb_testbit_high _ (r + s)), orb_false_r by (by (apply zlimb_ok || lia)). f_equal. lia.
Qed.

(** ** Division *)

Lemma uval_set_bit W q s :
  limbs_ok W q → 0 ≤ s < 32 * Z.of_nat W → uval q mod 2 ^ (s + 1) = 0 →
  let q' := alter (λ x, Z.lor x (Z.shiftl 1 (s mod 32))) (Z.to_nat (s / 32)) q in
  limbs_ok W q' ∧ uval q' = uval q + 2 ^ s.
Proof.
  intros [Hl Hq] Hs Hlow. cbn zeta.
  pose proof (Z.div_mod s 32 ltac:(lia)) as Hsd. pose proof (Z.mod_pos_bound s 32 ltac:(lia)) as Hsm.
  set (q' := alter _ _ q).
  assert (limbs_ok W q') as Hok.
  { apply limbs_ok_nth; [unfold q'; by rewrite length_alter|]. intros j Hj.
    unfold q'. rewrite nth_alter.
    assert (∀ i, is_u 32 (nth i q 0)) as Hn by (intros i; apply Forall_nth_default; [by unfold is_u|done]).
    destruct (_ && _)%bool; [|apply Hn]. apply is_u_32_bits.
    - intros r Hr. rewrite Z.lor_spec, Z.shiftl_spec, limb_testbit_high by (done || lia).
      rewrite Z.bits_above_log2; [done|lia|cbn; lia].
    - apply Z.lor_nonneg. split; [apply Hn|]. apply Z.shiftl_nonneg. lia. }
  split; [done|]. destruct Hok as [Hl' Hok'].
  transitivity (Z.lor (uval q) (Z.shiftl 1 s)).
  - apply Z.bits_inj'. intros i Hi. rewrite Z.lor_spec, !uval_testbit by done.
    unfold q'. rewrite nth_alter, Hl.
    pose proof (Z.div_mod i 32 ltac:(lia)) as Hid. pose proof (Z.mod_pos_bound i 32 ltac:(lia)) as Him.
    rewrite Z.shiftl_spec by lia. destruct (Nat.eqb_spec (Z.to_nat (i / 32)) (Z.to_nat (s / 32))) as [E|E].
    + rewrite (proj2 (Nat.ltb_lt _ _)) by lia. cbn [andb]. rewrite Z.lor_spec, Z.shiftl_spec, E by lia.
      do 2 f_equal. assert (0 ≤ i / 32) by (apply Z.div_pos; lia).
      assert (0 ≤ s / 32) by (apply Z.div_pos; lia). lia.
    + cbn [andb]. destruct (Z.ltb_spec i s); [rewrite (Z.testbit_neg_r 1) by lia; by rewrite orb_false_r|].
      rewrite (Z.bits_above_log2 1), orb_false_r; [done|lia|].
      cbn. enough (i ≠ s) by lia. congruence.
  - rewrite <- Z.add_nocarry_lor, Z.shiftl_mul_pow2; [lia|lia|].
    rewrite Z.land_comm. apply Z.bits_inj'. intros i Hi. rewrite Z.land_spec, Z.shiftl_spec, Z.bits_0 by done.
    destruct (Z.eqb_spec i s) as [->|].
    + rewrite <- (Z.mod_pow2_bits_low (uval q) (s + 1)), Hlow, Z.bits_0 by lia. apply andb_false_r.
    + destruct (Z.ltb_spec i s); [rewrite (Z.testbit_neg_r 1) by lia; done|].
      rewrite (Z.bits_above_log2 1); [done|lia|cbn; lia].
Qed.

Lemma uint_div_loop_spec W b n num div quo q :
  limbs_ok W num → limbs_ok W div → limbs_ok W quo → 0 < b →
  (∀ s, n = S s → uval div = b * 2 ^ Z.of_nat s) → uval num < b * 2 ^ Z.of_nat n →
  uval quo = q * 2 ^ Z.of_nat n →
  limbs_ok W (uint_div_loop W n num div quo).1 ∧
  uval (uint_div_loop W n num div quo).1 = uval quo + uval num / b.
Proof.
  revert num div quo q. induction n as [|s IH]; intros num div quo q Hnum Hdiv Hquo Hb Hd Hn Hq.
  - cbn [uint_div_loop fst]. split; [done|]. pose proof (uval_bound num (proj2 Hnum)).
    rewrite Z.div_small; lia.
  - cbn [uint_div_loop]. specialize (Hd s eq_refl).
    destruct (uint_shr_spec W div 1 Hdiv ltac:(lia)) as [Hdiv' Hdv].
    assert (∀ t, s = S t → uval (uint_shr W div 1) = b * 2 ^ Z.of_nat t) as Hd'.
    { intros t ->. rewrite Hdv, Hd, Nat2Z.inj_succ, Z.pow_succ_r by lia.
      rewrite Z.mul_assoc, (Z.mul_comm b), <- Z.mul_assoc, Z.mul_comm, Z.div_mul; lia. }
    rewrite Nat2Z.inj_succ, Z.pow_succ_r in Hn, Hq by lia.
    rewrite (uint_ge_spec W) by done. destruct (Z.leb_spec (uval div) (uval num)) as [Hge|Hlt].
    + pose proof (uval_bound num (proj2 Hnum)) as Hnb. rewrite (proj1 Hnum), LIMB_pow2 in Hnb.
      pose proof (uval_bound div (proj2 Hdiv)) as Hdb.
      destruct (uint_sub_spec W num div Hnum Hdiv) as [Hs Hsv]. rewrite Z.mod_small in Hsv by lia.
      assert (Z.of_nat s < 32 * Z.of_nat W) as Hsw by (apply (Z.pow_lt_mono_r_iff 2); nia).
      destruct (uval_set_bit W quo (Z.of_nat s) Hquo) as [Hq' Hqv]; [lia| |].
      { rewrite Hq, <- Z.pow_succ_r, Z.mod_mul by lia. done. }
      assert ((s / 32)%nat = Z.to_nat (Z.of_nat s / 32)) as -> by (rewrite <- (Nat2Z.id (s / 32)), Nat2Z.inj_div; done).
      destruct (IH (uint_sub num div) (uint_shr W div 1)
        (alter (λ x, Z.lor x (Z.shiftl 1 (Z.of_nat s mod 32))) (Z.to_nat (Z.of_nat s / 32)) quo) (2 * q + 1))
        as [Hr Hv]; [done|done|done|done|done|lia|lia|].
      split; [done|]. rewrite Hv, Hqv, Hsv, Hd.
      replace (uval num - b * 2 ^ Z.of_nat s) with (uval num + (- 2 ^ Z.of_nat s) * b) by lia.
      rewrite Z.div_add by lia. lia.
    + apply (IH num (uint_shr W div 1) quo (2 * q)); try done; lia.
Qed.

Lemma bit_length_bound z : 0 ≤ z → z < 2 ^ bit_length z.
Proof.
  intros. unfold bit_length. destruct (Z.eqb_spec z 0); [subst; lia|].
  apply Z.log2_spec. lia.
Qed.
Lemma bit_length_low z : 0 < z → 2 ^ (bit_length z - 1) ≤ z.
Proof.
  intros. unfold bit_length. rewrite (proj2 (Z.eqb_neq _ _)), Z.add_simpl_r by lia.
  apply Z.log2_spec. lia.
Qed.
Lemma bit_length_nonneg z : 0 ≤ bit_length z.
Proof. unfold bit_length. case_match; pose proof (Z.log2_nonneg z); lia. Qed.
Lemma bit_length_pos z : 0 < z → 0 < bit_length z.
Proof. intros. unfold bit_length. rewrite (proj2 (Z.eqb_neq _ _)) by lia. pose proof (Z.log2_nonneg z); lia. Qed.
Lemma bit_length_le z n : 0 ≤ n → 0 ≤ z < 2 ^ n → bit_length z ≤ n.
Proof.
  intros. unfold bit_length. destruct (Z.eqb_spec z 0); [lia|].
  enough (Z.log2 z < n) by lia. apply Z.log2_lt_pow2; lia.
Qed.

Lemma uint_div_spec W a b :
  limbs_ok W a → limbs_ok W b → uval b ≠ 0 →
  ∃ q, uint_div W a b = Ok q ∧ limbs_ok W q ∧ uval q = uval a / uval b.
Proof.
  intros Ha Hb Hnz. unfold uint_div. rewrite !uint_bits_spec by done.
  pose proof (uval_bound a (proj2 Ha)) as Hba. pose proof (uval_bound b (proj2 Hb)) as Hbb.
  rewrite (proj1 Ha), LIMB_pow2 in Hba.
  pose proof (bit_length_pos (uval b) ltac:(lia)). pose proof (bit_length_nonneg (uval a)).
  pose proof (bit_length_bound (uval a) ltac:(lia)). pose proof (bit_length_low (uval b) ltac:(lia)).
  pose proof (bit_length_le (uval a) (32 * Z.of_nat W) ltac:(lia) Hba).
  rewrite (proj2 (Z.eqb_neq _ _)) by lia. set (na := bit_length (uval a)) in *. set (nb := bit_length (uval b)) in *.
  destruct (Z.ltb_spec na nb).
  - exists (uint_zero W). split; [done|]. split; [apply limbs_ok_zero|].
    unfold uint_zero. rewrite uval_replicate, Z.div_small; [done|].
    assert (2 ^ na ≤ 2 ^ (nb - 1)) by (apply Z.pow_le_mono_r; lia). lia.
  - eexists. split; [done|]. destruct (uint_shl_spec W b (na - nb) Hb) as [Hs Hsv]; [lia|].
    pose proof (bit_length_bound (uval b) ltac:(lia)) as Hbl. fold nb in Hbl.
    assert (uval b * 2 ^ (na - nb) < 2 ^ na).
    { replace na with (nb + (na - nb)) at 2 by lia. rewrite Z.pow_add_r by lia. nia. }
    assert (2 ^ na ≤ 2 ^ (32 * Z.of_nat W)) by (apply Z.pow_le_mono_r; lia).
    rewrite Z.mod_small in Hsv by lia.
    destruct (uint_div_loop_spec W (uval b) (Z.to_nat (na - nb + 1)) a (uint_shl W b (na - nb)) (uint_zero W) 0)
      as [Hok Hv]; try done; [apply limbs_ok_zero|lia| | | |].
    + intros s Hs'. rewrite Hsv. do 2 f_equal. lia.
    + rewrite Z2Nat.id by lia.
      assert (2 ^ na = 2 ^ (nb - 1) * 2 ^ (na - nb + 1)) by (rewrite <- Z.pow_add_r by lia; f_equal; lia). nia.
    + unfold uint_zero. rewrite uval_replicate. lia.
    + split; [done|]. rewrite Hv. unfold uint_zero. rewrite uval_replicate. lia.
Qed.

(** ** The compact encoding of targets *)

Definition UINT256_WIDTH : nat := 8.
Definition uint256_of_u64 (b : Z) : list Z := uint_of_u64 UINT256_WIDTH b.

(** [uint256::SetCompact]: the number, [*pfNegative] and [*pfOverflow]. *)
Definition SetCompact (nCompact : Z) : list Z * bool * bool :=
  let nSize := Z.shiftr nCompact 24 in
  let nWord := Z.land nCompact 0x007fffff in
  let '(nWord, this) :=
    if nSize <=? 3
    then let nWord := Z.shiftr nWord (8 * (3 - nSize)) in (nWord, uint256_of_u64 nWord)
    else (nWord, uint_shl UINT256_WIDTH (uint256_of_u64 nWord) (8 * (nSize - 3))) in
  let pfNegative := negb (nWord =? 0) && flag nCompact 0x00800000 in
  let pfOverflow := negb (nWord =? 0) &&
    ((34 <? nSize) || ((0xff <? nWord) && (33 <? nSize)) || ((0xffff <? nWord) && (32 <? nSize))) in
  (this, pfNegative, pfOverflow).

(** [uint256::GetCompact] *)
Definition GetCompact (this : list Z) (fNegative : bool) : outcome uint_error Z :=
  let nSize := (uint_bits UINT256_WIDTH this + 7) / 8 in
  let nCompact :=
    if nSize <=? 3 then u32 (u64 (Z.shiftl (uint_GetLow64 this) (8 * (3 - nSize))))
    else u32 (uint_GetLow64 (uint_shr UINT256_WIDTH this (8 * (nSize - 3)))) in
  let '(nCompact, nSize) :=
    if flag nCompact 0x00800000 then (Z.shiftr nCompact 8, nSize + 1) else (nCompact, nSize) in
  _ ← assert_that (negb (flag nCompact (u32 (Z.lnot 0x007fffff))));
  _ ← assert_that (nSize <? 256);
  let nCompact := Z.lor nCompact (u32 (Z.shiftl nSize 24)) in
  mret (Z.lor nCompact (if fNegative && flag nCompact 0x007fffff then 0x00800000 else 0)).

(** The number a compact encoding denotes, before reduction modulo 2^256. *)
Definition compact_value (nCompact : Z) : Z :=
  let nSize := nCompact / 2 ^ 24 in
  let nWord := nCompact mod 2 ^ 23 in
  if nSize <=? 3 then nWord / 256 ^ (3 - nSize) else nWord * 256 ^ (nSize - 3).

Lemma uval_uint256 b : is_u 64 b → limbs_ok 8 (uint256_of_u64 b) ∧ uval (uint256_of_u64 b) = b.
Proof. apply (uval_uint_of_u64 8). lia. Qed.

Lemma uint_GetLow64_spec W a : (2 ≤ W)%nat → limbs_ok W a → uint_GetLow64 a = uval a mod 2 ^ 64.
Proof.
  intros HW [Hl Ha]. destruct a as [|x [|y a]]; cbn [length] in Hl; try lia.
  limb_simpl. unfold uint_GetLow64. cbn [nth uval].
  rewrite lor_shiftl_add by (done || lia). change (2 ^ 32) with LIMB.
  change (2 ^ 64) with (LIMB * LIMB).
  apply Z.mod_unique with (uval a); [left; nia|lia].
Qed.

Lemma flag_bit c n : 0 ≤ n → flag c (2 ^ n) = Z.testbit c n.
Proof.
  intros. unfold flag. rewrite <- (Z.mul_1_l (2 ^ n)), <- Z.shiftl_mul_pow2, land_bit by done.
  by rewrite negb_involutive.
Qed.

(** [SetCompact] computes [compact_value] modulo 2^256, and the overflow flag
    says exactly that nothing was lost. *)
Lemma SetCompact_spec c :
  is_u 32 c →
  let '(this, neg, ovf) := SetCompact c in
  limbs_ok 8 this ∧ uval this = compact_value c mod 2 ^ 256 ∧
  neg = negb (compact_value c =? 0) && Z.testbit c 23 ∧
  ovf = (2 ^ 256 <=? compact_value c).
Proof.
  intros Hc. unfold is_u in Hc. unfold SetCompact, compact_value.
  change 0x00800000 with (2 ^ 23). rewrite flag_bit by lia.
  rewrite shiftr_div by lia. change 0x007fffff with (2 ^ 23 - 1). rewrite land_low by lia.
  assert (0 ≤ c / 2 ^ 24 < 256) as Hn.
  { split; [apply Z.div_pos; lia|]. apply Z.div_lt_upper_bound; lia. }
  pose proof (Z.mod_pos_bound c (2 ^ 23) ltac:(lia)) as Hw.
  set (n := c / 2 ^ 24) in *. set (w := c mod 2 ^ 23) in *. clearbody n w. clear Hc.
  destruct (Z.leb_spec n 3).
  - rewrite shiftr_div by lia. change 256 with (2 ^ 8). rewrite <- Z.pow_mul_r by lia.
    assert (0 < 2 ^ (8 * (3 - n))) by lia.
    assert (0 ≤ w / 2 ^ (8 * (3 - n)) < 2 ^ 23) as Hv.
    { split; [apply Z.div_pos; lia|]. apply Z.div_lt_upper_bound; nia. }
    set (v := w / _) in *. clearbody v.
    destruct (uval_uint256 v) as [Hok Hval]; [unfold is_u; lia|].
    split_and!; [done|rewrite Hval, Z.mod_small; lia|done|].
    destruct (Z.leb_spec (2 ^ 256) v), (Z.ltb_spec 34 n), (Z.ltb_spec 33 n), (Z.ltb_spec 32 n); lia.
  - destruct (uval_uint256 w) as [Hok Hval]; [unfold is_u; lia|].
    destruct (uint_shl_spec 8 (uint256_of_u64 w) (8 * (n - 3)) Hok) as [Hok' Hval']; [lia|].
    rewrite Hval in Hval'.
    assert (256 ^ (n - 3) = 2 ^ (8 * (n - 3))) as -> by (change 256 with (2 ^ 8); by rewrite <- Z.pow_mul_r by lia).
    assert (0 < 2 ^ (8 * (n - 3))) by lia.
    split_and!; [done|exact Hval'| |].
    + f_equal. f_equal. destruct (Z.eqb_spec w 0), (Z.eqb_spec (w * 2 ^ (8 * (n - 3))) 0); nia.
    + destruct (Z.ltb_spec 34 n); [|destruct (decide (n = 34)) as [->|];
        [|destruct (decide (n = 33)) as [->|]]].
      * assert (2 ^ 256 ≤ 2 ^ (8 * (n - 3))) by (apply Z.pow_le_mono_r; lia).
        cbn [orb]. rewrite andb_true_r.
        destruct (Z.eqb_spec w 0), (Z.leb_spec (2 ^ 256) (w * 2 ^ (8 * (n - 3)))); cbn [negb]; nia || done.
      * change (2 ^ (8 * (34 - 3))) with (2 ^ 248). cbn -[Z.pow Z.mul].
        destruct (Z.eqb_spec w 0), (Z.ltb_spec 0xff w), (Z.ltb_spec 0xffff w),
          (Z.leb_spec (2 ^ 256) (w * 2 ^ 248)); cbn; lia || done.
      * change (2 ^ (8 * (33 - 3))) with (2 ^ 240). cbn -[Z.pow Z.mul].
        destruct (Z.eqb_spec w 0), (Z.ltb_spec 0xff w), (Z.ltb_spec 0xffff w),
          (Z.leb_spec (2 ^ 256) (w * 2 ^ 240)); cbn; lia || done.
      * assert (2 ^ (8 * (n - 3)) ≤ 2 ^ 232) by (apply Z.pow_le_mono_r; lia).
        rewrite (proj2 (Z.ltb_ge 33 n)), (proj2 (Z.ltb_ge 32 n)), !andb_false_r by lia. cbn [orb].
        symmetry. apply Z.leb_gt. nia.
Qed.

Lemma bytes_of_bits x :
  0 < x → let n := (bit_length x + 7) / 8 in 256 ^ (n - 1) ≤ x < 256 ^ n ∧ 1 ≤ n.
Proof.
  intros Hx. cbn zeta. pose proof (bit_length_pos x Hx). pose proof (bit_length_low x Hx).
  pose proof (bit_length_bound x ltac:(lia)).
  pose proof (Z.div_mod (bit_length x + 7) 8 ltac:(lia)). pose proof (Z.mod_pos_bound (bit_length x + 7) 8 ltac:(lia)).
  set (n := (bit_length x + 7) / 8) in *. clearbody n. set (m := bit_length x) in *. clearbody m.
  change 256 with (2 ^ 8). rewrite <- !Z.pow_mul_r by lia.
  assert (2 ^ (8 * (n - 1)) ≤ 2 ^ (m - 1)) by (apply Z.pow_le_mono_r; lia).
  assert (2 ^ m ≤ 2 ^ (8 * n)) by (apply Z.pow_le_mono_r; lia). lia.
Qed.

(** The mantissa and size [GetCompact] computes before the sign-bit adjustment. *)
Lemma compact_mantissa this :
  limbs_ok 8 this →
  let n := (bit_length (uval this) + 7) / 8 in
  let m := if n <=? 3 then u32 (u64 (Z.shiftl (uint_GetLow64 this) (8 * (3 - n))))
           else u32 (uint_GetLow64 (uint_shr 8 this (8 * (n - 3)))) in
  m = (if n <=? 3 then uval this * 256 ^ (3 - n) else uval this / 256 ^ (n - 3)) ∧
  0 ≤ m < 2 ^ 24 ∧ (uval this ≠ 0 → 2 ^ 16 ≤ m) ∧
  0 ≤ n ≤ 32 ∧ (uval this = 0 → n = 0).
Proof.
  intros Hok. cbn zeta. pose proof (uval_bound this (proj2 Hok)) as Hb.
  rewrite (proj1 Hok) in Hb. change (LIMB ^ Z.of_nat 8) with (2 ^ 256) in Hb.
  destruct (Z.eqb_spec (uval this) 0) as [E|E].
  { rewrite (uint_GetLow64_spec 8), E by (done || lia). vm_compute. intuition congruence. }
  destruct (bytes_of_bits (uval this)) as [Hn Hn1]; [lia|].
  pose proof (bit_length_le (uval this) 256 ltac:(lia) Hb).
  assert ((bit_length (uval this) + 7) / 8 ≤ 32).
  { apply Z.lt_succ_r, Z.div_lt_upper_bound; lia. }
  set (n := (bit_length (uval this) + 7) / 8) in *. clearbody n.
  destruct (Z.leb_spec n 3).
  - assert (256 ^ n * 256 ^ (3 - n) = 2 ^ 24) as E1 by (rewrite <- Z.pow_add_r by lia; replace (n + (3 - n)) with 3 by lia; done).
    assert (256 ^ (n - 1) * 256 ^ (3 - n) = 2 ^ 16) as E2 by (rewrite <- Z.pow_add_r by lia; replace (n - 1 + (3 - n)) with 2 by lia; done).
    assert (0 < 256 ^ (3 - n)) by lia. assert (256 ^ n ≤ 256 ^ 3) by (apply Z.pow_le_mono_r; lia).
    rewrite (uint_GetLow64_spec 8) by (done || lia). rewrite (Z.mod_small (uval this)) by lia.
    rewrite Z.shiftl_mul_pow2, Z.pow_mul_r by lia. change (2 ^ 8) with 256.
    rewrite u64_id, u32_id by (unfold is_u; nia). split_and!; try done; nia.
  - destruct (uint_shr_spec 8 this (8 * (n - 3)) Hok) as [Hs Hv]; [lia|].
    rewrite (uint_GetLow64_spec 8), Hv, Z.pow_mul_r by (done || lia). change (2 ^ 8) with 256.
    assert (256 ^ n = 256 ^ (n - 3) * 2 ^ 24) as E1 by (change (2 ^ 24) with (256 ^ 3); rewrite <- Z.pow_add_r by lia; f_equal; lia).
    assert (256 ^ (n - 1) = 256 ^ (n - 3) * 2 ^ 16) as E2 by (change (2 ^ 16) with (256 ^ 2); rewrite <- Z.pow_add_r by lia; f_equal; lia).
    assert (0 < 256 ^ (n - 3)) by lia.
    assert (2 ^ 16 ≤ uval this / 256 ^ (n - 3) < 2 ^ 24).
    { split; [apply Z.div_le_lower_bound; lia|apply Z.div_lt_upper_bound; lia]. }
    rewrite (Z.mod_small (_ / _)), u32_id by (unfold is_u; lia). split_and!; try done; lia.
Qed.

(** Decoding a mantissa of 23 bits with a size and a sign. *)
Lemma compact_pack m n (neg : bool) :
  0 ≤ m < 2 ^ 23 → 0 ≤ n < 2 ^ 8 →
  let c := Z.lor (Z.lor m (u32 (Z.shiftl n 24))) (if neg then 0x00800000 else 0) in
  is_u 32 c ∧ c mod 2 ^ 23 = m ∧ c / 2 ^ 24 = n ∧ Z.testbit c 23 = neg.
Proof.
  intros Hm Hn. cbn zeta. unfold u32. rewrite (Z.mod_small (Z.shiftl n 24)) by (rewrite Z.shiftl_mul_pow2; lia).
  rewrite <- Z.lor_assoc, (Z.lor_comm (Z.shiftl n 24)), Z.lor_assoc.
  assert (Z.lor m (if neg then 0x00800000 else 0) = m + (if neg then 1 else 0) * 2 ^ 23) as ->.
  { destruct neg; [|by rewrite Z.lor_0_r; lia]. change 0x00800000 with (Z.shiftl 1 23).
    by rewrite lor_shiftl_add. }
  rewrite lor_shiftl_add by (destruct neg; lia).
  unfold is_u. split_and!; try (destruct neg; lia).
  - symmetry. apply Z.mod_unique with (2 * n + if neg then 1 else 0); destruct neg; lia.
  - symmetry. apply Z.div_unique with (m + (if neg then 1 else 0) * 2 ^ 23); destruct neg; lia.
  - replace (_ + n * 2 ^ 24) with (m + ((if neg then 1 else 0) + 2 * n) * 2 ^ 23) by (destruct neg; lia).
    rewrite Z.testbit_eqb, Z.div_add, Z.div_small, Z.add_0_l by lia.
    rewrite (Z.mul_comm 2), Z.mod_add by lia. by destruct neg.
Qed.

(** The last steps of [GetCompact], from the adjusted mantissa and size. *)
Lemma GetCompact_pack m n neg :
  0 ≤ m < 2 ^ 23 → 0 ≤ n ≤ 33 →
  (_ ← assert_that (negb (flag m (u32 (Z.lnot 0x007fffff))));
   _ ← assert_that (n <? 256);
   let nCompact := Z.lor m (u32 (Z.shiftl n 24)) in
   mret (M:=outcome uint_error)
     (Z.lor nCompact (if neg && flag nCompact 0x007fffff then 0x00800000 else 0)))
  = Ok (Z.lor (Z.lor m (u32 (Z.shiftl n 24))) (if neg && negb (m =? 0) then 0x00800000 else 0)).
Proof.
  intros Hm Hn.
  assert (flag m (u32 (Z.lnot 0x007fffff)) = false) as ->.
  { unfold flag. pose proof (land_shiftl_disjoint m 511 23) as E.
    change (Z.shiftl 511 23) with (u32 (Z.lnot 0x007fffff)) in E. by rewrite E by lia. }
  rewrite (proj2 (Z.ltb_lt n 256)) by lia. cbn -[u32 Z.shiftl].
  destruct (compact_pack m n false) as (_ & E & _); [lia|lia|]. rewrite Z.lor_0_r in E.
  unfold flag. change 0x007fffff with (2 ^ 23 - 1). rewrite land_low, E by lia. done.
Qed.

(** The mantissa, size and number of dropped bytes of [GetCompact]. *)
Lemma GetCompact_eq this neg :
  limbs_ok 8 this →
  let x := uval this in
  ∃ m n k, GetCompact this neg =
    Ok (Z.lor (Z.lor m (u32 (Z.shiftl n 24))) (if neg && negb (m =? 0) then 0x00800000 else 0)) ∧
    0 ≤ m < 2 ^ 23 ∧ 0 ≤ n ≤ 33 ∧ 0 ≤ k ∧ (m = 0 ↔ x = 0) ∧
    (k = 0 ∨ 2 ^ 15 ≤ x / 256 ^ k) ∧
    (if n <=? 3 then m / 256 ^ (3 - n) else m * 256 ^ (n - 3)) = x / 256 ^ k * 256 ^ k.
Proof.
  intros Hok. cbn zeta. destruct (compact_mantissa this Hok) as (Hm & Hmb & Hm0 & Hn & Hn0).
  unfold GetCompact. rewrite uint_bits_spec by done. change UINT256_WIDTH with 8%nat.
  set (n := (bit_length (uval this) + 7) / 8) in *. clearbody n.
  set (m := if n <=? 3 then u32 _ else _) in *. clearbody m.
  pose proof (uval_bound this (proj2 Hok)) as Hx. set (x := uval this) in *. clearbody x.
  assert (x = 0 → m = 0) as Hx0.
  { intros ->. rewrite Hm. destruct (Z.leb_spec n 3); [done|]. by rewrite Z.div_0_l by lia. }
  change 0x00800000 with (2 ^ 23) at 1. rewrite flag_bit by lia.
  assert (Z.testbit m 23 = negb (m <? 2 ^ 23)) as ->.
  { rewrite Z.testbit_eqb by lia. destruct (Z.ltb_spec m (2 ^ 23)); [by rewrite Z.div_small by lia|].
    by rewrite <- (Z.div_unique m (2 ^ 23) 1 (m - 2 ^ 23)) by lia. }
  destruct (Z.ltb_spec m (2 ^ 23)) as [Hlt|Hge]; cbn [negb].
  - exists m, n, (if n <=? 3 then 0 else n - 3). rewrite GetCompact_pack by lia.
    split_and!; try done; try lia; destruct (Z.leb_spec n 3); try lia.
    rewrite Hm. change (256 ^ 0) with 1. rewrite Z.div_mul, Z.div_1_r; lia.
  - exists (m / 256), (n + 1), (if n <=? 2 then 0 else n - 2).
    assert (2 ^ 15 ≤ m / 256 < 2 ^ 23).
    { split; [apply Z.div_le_lower_bound; lia|apply Z.div_lt_upper_bound; lia]. }
    rewrite shiftr_div by lia. change (2 ^ 8) with 256. rewrite GetCompact_pack by lia.
    assert (n ≤ 2 → m / 256 = x * 256 ^ (2 - n)) as E1.
    { intros. rewrite Hm, (proj2 (Z.leb_le n 3)) by lia.
      replace (3 - n) with (Z.succ (2 - n)) by lia. rewrite Z.pow_succ_r by lia.
      rewrite (Z.mul_comm 256), Z.mul_assoc, Z.div_mul; lia. }
    assert (3 ≤ n → m / 256 = x / 256 ^ (n - 2)) as E2.
    { intros. rewrite Hm. destruct (Z.leb_spec n 3).
      - assert (n = 3) as -> by lia. change (256 ^ (3 - 3)) with 1. by rewrite Z.mul_1_r.
      - rewrite Z.div_div by lia. f_equal. rewrite Z.mul_comm, <- Z.pow_succ_r by lia. f_equal. lia. }
    split_and!; try done; try lia; destruct (Z.leb_spec n 2), (Z.leb_spec (n + 1) 3); try lia.
    + change (256 ^ 0) with 1. rewrite E1 by lia. replace (3 - (n + 1)) with (2 - n) by lia.
      rewrite Z.div_mul, Z.div_1_r; lia.
    + rewrite E2 by lia. do 2 f_equal. lia.
Qed.

(** Decoding what [GetCompact] gives. *)
Lemma GetCompact_decodes this neg :
  limbs_ok 8 this →
  ∃ c k r, GetCompact this neg = Ok c ∧ is_u 32 c ∧
    SetCompact c = (r, neg && negb (uval this =? 0), false) ∧ limbs_ok 8 r ∧
    0 ≤ k ∧ (k = 0 ∨ 2 ^ 15 ≤ uval this / 256 ^ k) ∧
    uval r = uval this / 256 ^ k * 256 ^ k.
Proof.
  intros Hok. destruct (GetCompact_eq this neg Hok) as (m & n & k & HG & Hm & Hn & Hk & Hm0 & Hk' & Hv).
  destruct (compact_pack m n (neg && negb (m =? 0)) Hm) as (Hc & Hlow & Hhigh & Hsign); [lia|].
  set (c := Z.lor _ _) in *. clearbody c. pose proof (SetCompact_spec c Hc) as HS.
  destruct (SetCompact c) as [[r sg] ov] eqn:ES. destruct HS as (Hr & Hrv & Hsg & Hov).
  unfold compact_value in *. rewrite Hlow, Hhigh, Hv in *.
  pose proof (uval_bound this (proj2 Hok)) as Hx. rewrite (proj1 Hok) in Hx.
  change (LIMB ^ Z.of_nat 8) with (2 ^ 256) in Hx.
  assert (0 < 256 ^ k) by lia.
  pose proof (Z.mul_div_le (uval this) (256 ^ k)). pose proof (Z.div_pos (uval this) (256 ^ k)).
  exists c, k, r. split_and!; try done.
  - rewrite ES. f_equal; [f_equal|].
    + rewrite Hsg, Hsign. destruct neg; [|by rewrite andb_false_r]. cbn [andb].
      destruct (Z.eqb_spec m 0), (Z.eqb_spec (uval this) 0); try lia; cbn; rewrite ?andb_false_r; try done.
      destruct (Z.eqb_spec (uval this / 256 ^ k * 256 ^ k) 0); [|done].
      destruct Hk' as [->|]; [change (256 ^ 0) with 1 in *; rewrite Z.div_1_r in *|]; nia.
    + rewrite Hov. apply Z.leb_gt. nia.
  - rewrite Hrv. apply Z.mod_small. nia.
Qed.

(** ** Properties *)

(** [base_uint]'s operators on arrays of 32-bit limbs compute addition,
    subtraction, negation, multiplication (by a word and by a number) and both
    shifts of the numbers the arrays stand for, modulo [2^BITS], and their
    results are arrays of [WIDTH] 32-bit limbs again. *)
Theorem base_uint_modular W a b x n :
  limbs_ok W a → limbs_ok W b → is_u 32 x → 0 ≤ n →
  let M := 2 ^ (32 * Z.of_nat W) in
  let computes r v := limbs_ok W r ∧ uval r = v in
  computes (uint_add a b) ((uval a + uval b) mod M) ∧
  computes (uint_sub a b) ((uval a - uval b) mod M) ∧
  computes (uint_neg a) ((- uval a) mod M) ∧
  computes (uint_mul32 a x) ((uval a * x) mod M) ∧
  computes (uint_mul W a b) ((uval a * uval b) mod M) ∧
  computes (uint_shl W a n) ((uval a * 2 ^ n) mod M) ∧
  computes (uint_shr W a n) (uval a / 2 ^ n).
Proof.
  intros Ha Hb Hx Hn. cbn zeta.
  pose proof (uint_add_spec W a b Ha Hb). pose proof (uint_sub_spec W a b Ha Hb).
  pose proof (uint_neg_spec W a Ha). pose proof (uint_mul32_spec W a x Ha Hx).
  pose proof (uint_mul_spec W a b Ha Hb). pose proof (uint_shl_spec W a n Ha Hn).
  pose proof (uint_shr_spec W a n Ha Hn). auto 10.
Qed.

Lemma base_uint_modular_witness :
  uval (uint_mul 8 (replicate 8 0xffffffff) (replicate 8 0xffffffff)) = 1 ∧
  limbs_ok 8 (uint_sub (replicate 8 0) (replicate 8 1)).
Proof.
  pose proof (base_uint_modular 8 (replicate 8 0xffffffff) (replicate 8 0xffffffff) 7 300) as H.
  pose proof (base_uint_modular 8 (replicate 8 0) (replicate 8 1) 7 300) as H'.
  destruct H as (_ & _ & _ & _ & [_ H] & _); [by_decision|by_decision|by_decision|done|].
  destruct H' as (_ & [H' _] & _); [by_decision|by_decision|by_decision|done|].
  split; [by rewrite H|done].
Defined.

(** [operator/=] raises [uint_error] exactly for a zero divisor, and
    otherwise its shift-and-subtract loop computes the integer quotient. *)
Theorem base_uint_division W a b :
  limbs_ok W a → limbs_ok W b →
  (uval b = 0 → uint_div W a b = Err DivisionByZero) ∧
  (uval b ≠ 0 → ∃ q, uint_div W a b = Ok q ∧ limbs_ok W q ∧ uval q = uval a / uval b).
Proof.
  intros Ha Hb. split; [|by apply uint_div_spec].
  intros Hz. unfold uint_div. rewrite (uint_bits_spec W b Hb), Hz. done.
Qed.

Lemma base_uint_division_witness :
  ∃ q, uint_div 8 (replicate 8 0xffffffff) (uint_of_u64 8 1000) = Ok q ∧
       uval q = (2 ^ 256 - 1) / 1000.
Proof.
  destruct (base_uint_division 8 (replicate 8 0xffffffff) (uint_of_u64 8 1000)) as [_ H];
    [by_decision|by_decision|].
  destruct H as (q & Hq & _ & Hv); [by vm_compute|].
  exists q. split; [exact Hq|]. rewrite Hv. vm_compute. reflexivity.
Defined.

(** Decoding a compact target gives its mantissa scaled by its exponent;
    the overflow flag is set exactly when that number needs more than 256 bits,
    and the negative flag exactly for a non-zero number with the sign bit. *)
Theorem SetCompact_exact c :
  is_u 32 c →
  let '(this, neg, ovf) := SetCompact c in
  limbs_ok 8 this ∧ uval this = compact_value c mod 2 ^ 256 ∧
  neg = negb (compact_value c =? 0) && Z.testbit c 23 ∧
  ovf = (2 ^ 256 <=? compact_value c).
Proof. apply SetCompact_spec. Qed.

Lemma SetCompact_exact_witness : (SetCompact 0x20123456).2 = false ∧ (SetCompact 0xff123456).2 = true.
Proof.
  pose proof (SetCompact_exact 0x20123456) as H1. pose proof (SetCompact_exact 0xff123456) as H2.
  destruct (SetCompact 0x20123456) as [[? ?] ?]. destruct (SetCompact 0xff123456) as [[? ?] ?].
  destruct H1 as (_ & _ & _ & ->); [by_decision|]. destruct H2 as (_ & _ & _ & ->); [by_decision|].
  split; vm_compute; done.
Defined.

(** [GetCompact] always returns (neither assertion can fail), and decoding
    its result gives the number with its low bytes cleared: at least 15 bits of
    precision are kept, the sign is the one asked for (0 has none) and there is
    no overflow. *)
Theorem GetCompact_SetCompact this neg :
  limbs_ok 8 this →
  ∃ c k r, GetCompact this neg = Ok c ∧ is_u 32 c ∧
    SetCompact c = (r, neg && negb (uval this =? 0), false) ∧ limbs_ok 8 r ∧
    0 ≤ k ∧ (k = 0 ∨ 2 ^ 15 ≤ uval this / 256 ^ k) ∧
    uval r = uval this / 256 ^ k * 256 ^ k.
Proof. apply GetCompact_decodes. Qed.

Lemma GetCompact_SetCompact_witness :
  ∃ c r, GetCompact (uint_shr 8 (replicate 8 0xffffffff) 24) false = Ok c ∧ SetCompact c = (r, false, false).
Proof.
  destruct (GetCompact_SetCompact (uint_shr 8 (replicate 8 0xffffffff) 24) false) as (c & k & r & Hc & _ & Hr & _);
    [by_decision|].
  exists c, r. split; [exact Hc|exact Hr].
Defined.
