(* ===== verification/Crypto.v ===== *)
(** * crypto/: the hash functions

    The four hasher classes ([CSHA256], [CSHA512], [CSHA1], [CRIPEMD160]) share
    the code of [Write] and [Finalize] and differ in their compression function,
    block size, initial state and byte order: the record [hash_alg] holds what
    differs.  [hash_stream_reference] shows that writing a message in any pieces
    gives the digest of the padded message.  On top of them: the composed hashes
    of hash.h, HMAC, the deterministic nonce generator and MurmurHash3. *)
From stdpp Require Import base tactics list gmap numbers option.
From Stdlib Require Import ZArith Lia.
From S2P Require Import Prelude.

(** ** crypto/common.h *)

Definition ReadLE32 (p : list Z) : Z :=
  Z.lor (Z.lor (Z.lor (Z.shiftl (nth 3 p 0) 24) (Z.shiftl (nth 2 p 0) 16)) (Z.shiftl (nth 1 p 0) 8)) (nth 0 p 0).
Definition WriteLE32 (x : Z) : list Z := [u8 x; u8 (Z.shiftr x 8); u8 (Z.shiftr x 16); u8 (Z.shiftr x 24)].
Definition WriteLE64 (x : Z) : list Z :=
  [u8 x; u8 (Z.shiftr x 8); u8 (Z.shiftr x 16); u8 (Z.shiftr x 24);
   u8 (Z.shiftr x 32); u8 (Z.shiftr x 40); u8 (Z.shiftr x 48); u8 (Z.shiftr x 56)].
Definition ReadBE32 (p : list Z) : Z :=
  Z.lor (Z.lor (Z.lor (Z.shiftl (nth 0 p 0) 24) (Z.shiftl (nth 1 p 0) 16)) (Z.shiftl (nth 2 p 0) 8)) (nth 3 p 0).
Definition ReadBE64 (p : list Z) : Z := Z.lor (Z.shiftl (ReadBE32 p) 32) (ReadBE32 (drop 4 p)).
Definition WriteBE32 (x : Z) : list Z := rev (WriteLE32 x).
Definition WriteBE64 (x : Z) : list Z := rev (WriteLE64 x).

(** The words of a chunk, [chunk + step * i] for [i = 0 .. 15]. *)
Definition chunk_words (read : list Z → Z) (step : nat) (chunk : list Z) : list Z :=
  map (λ i, read (drop (step * i) chunk)) (seq 0 16).

(** Rotations of 32- and 64-bit words, written [x >> n | x << (w - n)]. *)
Definition rotr32 (x n : Z) : Z := Z.lor (Z.shiftr x n) (u32 (Z.shiftl x (32 - n))).
Definition rotl32 (x n : Z) : Z := Z.lor (u32 (Z.shiftl x n)) (Z.shiftr x (32 - n)).
Definition rotr64 (x n : Z) : Z := Z.lor (Z.shiftr x n) (u64 (Z.shiftl x (64 - n))).

(** ** crypto/sha256.cpp *)
Module sha256.
Definition Ch (x y z : Z) : Z := Z.lxor z (Z.land x (Z.lxor y z)).
Definition Maj (x y z : Z) : Z := Z.lor (Z.land x y) (Z.land z (Z.lor x y)).
Definition Sigma0 (x : Z) : Z := Z.lxor (Z.lxor (rotr32 x 2) (rotr32 x 13)) (rotr32 x 22).
Definition Sigma1 (x : Z) : Z := Z.lxor (Z.lxor (rotr32 x 6) (rotr32 x 11)) (rotr32 x 25).
Definition sigma0 (x : Z) : Z := Z.lxor (Z.lxor (rotr32 x 7) (rotr32 x 18)) (Z.shiftr x 3).
Definition sigma1 (x : Z) : Z := Z.lxor (Z.lxor (rotr32 x 17) (rotr32 x 19)) (Z.shiftr x 10).

(** The eight registers, in the argument order of the next [Round]. *)
Record regs := Regs { ra : Z; rb : Z; rc : Z; rd : Z; re : Z; rf : Z; rg : Z; rh : Z }.

(** [Round] writes [d] and [h]; the next call takes the registers rotated. *)
Definition Round (r : regs) (k w : Z) : regs :=
  let '(Regs a b c d e f g h) := r in
  let t1 := u32 (h + Sigma1 e + Ch e f g + k + w) in
  let t2 := u32 (Sigma0 a + Maj a b c) in
  Regs (u32 (t1 + t2)) a b c (u32 (d + t1)) e f g.

Definition Initialize : list Z :=
  [0x6a09e667; 0xbb67ae85; 0x3c6ef372; 0xa54ff53a; 0x510e527f; 0x9b05688c; 0x1f83d9ab; 0x5be0cd19].

Definition K : list Z := concat [
   [0x428a2f98; 0x71374491; 0xb5c0fbcf; 0xe9b5dba5];
   [0x3956c25b; 0x59f111f1; 0x923f82a4; 0xab1c5ed5];
   [0xd807aa98; 0x12835b01; 0x243185be; 0x550c7dc3];
   [0x72be5d74; 0x80deb1fe; 0x9bdc06a7; 0xc19bf174];
   [0xe49b69c1; 0xefbe4786; 0x0fc19dc6; 0x240ca1cc];
   [0x2de92c6f; 0x4a7484aa; 0x5cb0a9dc; 0x76f988da];
   [0x983e5152; 0xa831c66d; 0xb00327c8; 0xbf597fc7];
   [0xc6e00bf3; 0xd5a79147; 0x06ca6351; 0x14292967];
   [0x27b70a85; 0x2e1b2138; 0x4d2c6dfc; 0x53380d13];
   [0x650a7354; 0x766a0abb; 0x81c2c92e; 0x92722c85];
   [0xa2bfe8a1; 0xa81a664b; 0xc24b8b70; 0xc76c51a3];
   [0xd192e819; 0xd6990624; 0xf40e3585; 0x106aa070];
   [0x19a4c116; 0x1e376c08; 0x2748774c; 0x34b0bcb5];
   [0x391c0cb3; 0x4ed8aa4a; 0x5b9cca4f; 0x682e6ff3];
   [0x748f82ee; 0x78a5636f; 0x84c87814; 0x8cc70208];
   [0x90befffa; 0xa4506ceb; 0xbef9a3f7; 0xc67178f2]].

(** The 16 message words, oldest first: one update
    [w0 += sigma1(w14) + w9 + sigma0(w1)], and a block of 16 of them. *)
Definition schedule_step (w : list Z) : list Z :=
  tail w ++ [u32 (nth 0 w 0 + sigma1 (nth 14 w 0) + nth 9 w 0 + sigma0 (nth 1 w 0))].
Definition schedule (w : list Z) : list Z := Nat.iter 16 schedule_step w.

Fixpoint rounds (r : regs) (ks w : list Z) : regs :=
  match ks, w with
  | k :: ks, x :: w => rounds (Round r k x) ks w
  | _, _ => r
  end.

Definition Transform (s chunk : list Z) : list Z :=
  let n i := nth i s 0 in
  let w := chunk_words ReadBE32 4 chunk in
  let r := Regs (n 0%nat) (n 1%nat) (n 2%nat) (n 3%nat) (n 4%nat) (n 5%nat) (n 6%nat) (n 7%nat) in
  let r := rounds r (take 16 K) w in
  let w := schedule w in
  let r := rounds r (take 16 (drop 16 K)) w in
  let w := schedule w in
  let r := rounds r (take 16 (drop 32 K)) w in
  let w := schedule w in
  let r := rounds r (drop 48 K) w in
  zip_with (λ x y, u32 (x + y)) s [ra r; rb r; rc r; rd r; re r; rf r; rg r; rh r].
End sha256.

(** ** crypto/sha512.cpp *)
Module sha512.
Definition Ch (x y z : Z) : Z := Z.lxor z (Z.land x (Z.lxor y z)).
Definition Maj (x y z : Z) : Z := Z.lor (Z.land x y) (Z.land z (Z.lor x y)).
Definition Sigma0 (x : Z) : Z := Z.lxor (Z.lxor (rotr64 x 28) (rotr64 x 34)) (rotr64 x 39).
Definition Sigma1 (x : Z) : Z := Z.lxor (Z.lxor (rotr64 x 14) (rotr64 x 18)) (rotr64 x 41).
Definition sigma0 (x : Z) : Z := Z.lxor (Z.lxor (rotr64 x 1) (rotr64 x 8)) (Z.shiftr x 7).
Definition sigma1 (x : Z) : Z := Z.lxor (Z.lxor (rotr64 x 19) (rotr64 x 61)) (Z.shiftr x 6).

Record regs := Regs { ra : Z; rb : Z; rc : Z; rd : Z; re : Z; rf : Z; rg : Z; rh : Z }.
Definition Round (r : regs) (k w : Z) : regs :=
  let '(Regs a b c d e f g h) := r in
  let t1 := u64 (h + Sigma1 e + Ch e f g + k + w) in
  let t2 := u64 (Sigma0 a + Maj a b c) in
  Regs (u64 (t1 + t2)) a b c (u64 (d + t1)) e f g.

Definition Initialize : list Z :=
  [0x6a09e667f3bcc908; 0xbb67ae8584caa73b; 0x3c6ef372fe94f82b; 0xa54ff53a5f1d36f1;
   0x510e527fade682d1; 0x9b05688c2b3e6c1f; 0x1f83d9abfb41bd6b; 0x5be0cd19137e2179].

Definition K : list Z := concat [
   [0x428a2f98d728ae22; 0x7137449123ef65cd; 0xb5c0fbcfec4d3b2f; 0xe9b5dba58189dbbc];
   [0x3956c25bf348b538; 0x59f111f1b605d019; 0x923f82a4af194f9b; 0xab1c5ed5da6d8118];
   [0xd807aa98a3030242; 0x12835b0145706fbe; 0x243185be4ee4b28c; 0x550c7dc3d5ffb4e2];
   [0x72be5d74f27b896f; 0x80deb1fe3b1696b1; 0x9bdc06a725c71235; 0xc19bf174cf692694];
   [0xe49b69c19ef14ad2; 0xefbe4786384f25e3; 0x0fc19dc68b8cd5b5; 0x240ca1cc77ac9c65];
   [0x2de92c6f592b0275; 0x4a7484aa6ea6e483; 0x5cb0a9dcbd41fbd4; 0x76f988da831153b5];
   [0x983e5152ee66dfab; 0xa831c66d2db43210; 0xb00327c898fb213f; 0xbf597fc7beef0ee4];
   [0xc6e00bf33da88fc2; 0xd5a79147930aa725; 0x06ca6351e003826f; 0x142929670a0e6e70];
   [0x27b70a8546d22ffc; 0x2e1b21385c26c926; 0x4d2c6dfc5ac42aed; 0x53380d139d95b3df];
   [0x650a73548baf63de; 0x766a0abb3c77b2a8; 0x81c2c92e47edaee6; 0x92722c851482353b];
   [0xa2bfe8a14cf10364; 0xa81a664bbc423001; 0xc24b8b70d0f89791; 0xc76c51a30654be30];
   [0xd192e819d6ef5218; 0xd69906245565a910; 0xf40e35855771202a; 0x106aa07032bbd1b8];
   [0x19a4c116b8d2d0c8; 0x1e376c085141ab53; 0x2748774cdf8eeb99; 0x34b0bcb5e19b48a8];
   [0x391c0cb3c5c95a63; 0x4ed8aa4ae3418acb; 0x5b9cca4f7763e373; 0x682e6ff3d6b2b8a3];
   [0x748f82ee5defb2fc; 0x78a5636f43172f60; 0x84c87814a1f0ab72; 0x8cc702081a6439ec];
   [0x90befffa23631e28; 0xa4506cebde82bde9; 0xbef9a3f7b2c67915; 0xc67178f2e372532b];
   [0xca273eceea26619c; 0xd186b8c721c0c207; 0xeada7dd6cde0eb1e; 0xf57d4f7fee6ed178];
   [0x06f067aa72176fba; 0x0a637dc5a2c898a6; 0x113f9804bef90dae; 0x1b710b35131c471b];
   [0x28db77f523047d84; 0x32caab7b40c72493; 0x3c9ebe0a15c9bebc; 0x431d67c49c100d4c];
   [0x4cc5d4becb3e42b6; 0x597f299cfc657e2a; 0x5fcb6fab3ad6faec; 0x6c44198c4a475817]].

Definition schedule_step (w : list Z) : list Z :=
  tail w ++ [u64 (nth 0 w 0 + sigma1 (nth 14 w 0) + nth 9 w 0 + sigma0 (nth 1 w 0))].
Definition schedule (w : list Z) : list Z := Nat.iter 16 schedule_step w.

Fixpoint rounds (r : regs) (ks w : list Z) : regs :=
  match ks, w with
  | k :: ks, x :: w => rounds (Round r k x) ks w
  | _, _ => r
  end.

Definition Transform (s chunk : list Z) : list Z :=
  let n i := nth i s 0 in
  let w := chunk_words ReadBE64 8 chunk in
  let r := Regs (n 0%nat) (n 1%nat) (n 2%nat) (n 3%nat) (n 4%nat) (n 5%nat) (n 6%nat) (n 7%nat) in
  let r := rounds r (take 16 K) w in
  let w := schedule w in
  let r := rounds r (take 16 (drop 16 K)) w in
  let w := schedule w in
  let r := rounds r (take 16 (drop 32 K)) w in
  let w := schedule w in
  let r := rounds r (take 16 (drop 48 K)) w in
  let w := schedule w in
  let r := rounds r (drop 64 K) w in
  zip_with (λ x y, u64 (x + y)) s [ra r; rb r; rc r; rd r; re r; rf r; rg r; rh r].
End sha512.

(** ** crypto/sha1.cpp *)
Module sha1.
Record regs := Regs { ra : Z; rb : Z; rc : Z; rd : Z; re : Z }.
Definition f1 (b c d : Z) : Z := Z.lxor d (Z.land b (Z.lxor c d)).
Definition f2 (b c d : Z) : Z := Z.lxor (Z.lxor b c) d.
Definition f3 (b c d : Z) : Z := Z.lor (Z.land b c) (Z.land d (Z.lor b c)).
Definition left (x : Z) : Z := rotl32 x 1.

(** [Round] writes [b] and [e]; the next call takes the registers rotated. *)
Definition Round (f : Z → Z → Z → Z) (k : Z) (r : regs) (w : Z) : regs :=
  let '(Regs a b c d e) := r in
  Regs (u32 (e + rotl32 a 5 + f b c d + k + w)) a (rotl32 b 30) c d.

Definition Initialize : list Z := [0x67452301; 0xEFCDAB89; 0x98BADCFE; 0x10325476; 0xC3D2E1F0].
Definition k1 : Z := 0x5A827999.
Definition k2 : Z := 0x6ED9EBA1.
Definition k3 : Z := 0x8F1BBCDC.
Definition k4 : Z := 0xCA62C1D6.

Definition schedule_step (w : list Z) : list Z :=
  tail w ++ [left (Z.lxor (Z.lxor (Z.lxor (nth 0 w 0) (nth 13 w 0)) (nth 8 w 0)) (nth 2 w 0))].

(** All 80 message words. *)
Definition schedule (w : list Z) : list Z :=
  w ++ map (λ i, nth 15 (Nat.iter (S i) schedule_step w) 0) (seq 0 64).

Definition Transform (s chunk : list Z) : list Z :=
  let n i := nth i s 0 in
  let w := schedule (chunk_words ReadBE32 4 chunk) in
  let r := Regs (n 0%nat) (n 1%nat) (n 2%nat) (n 3%nat) (n 4%nat) in
  let r := fold_left (Round f1 k1) (take 20 w) r in
  let r := fold_left (Round f2 k2) (take 20 (drop 20 w)) r in
  let r := fold_left (Round f3 k3) (take 20 (drop 40 w)) r in
  let r := fold_left (Round f2 k4) (drop 60 w) r in
  zip_with (λ x y, u32 (x + y)) s [ra r; rb r; rc r; rd r; re r].
End sha1.

(** ** crypto/ripemd160.cpp *)
Module ripemd160.
Record regs := Regs { ra : Z; rb : Z; rc : Z; rd : Z; re : Z }.
Definition f1 (x y z : Z) : Z := Z.lxor (Z.lxor x y) z.
Definition f2 (x y z : Z) : Z := Z.lor (Z.land x y) (Z.land (u32 (Z.lnot x)) z).
Definition f3 (x y z : Z) : Z := Z.lxor (Z.lor x (u32 (Z.lnot y))) z.
Definition f4 (x y z : Z) : Z := Z.lor (Z.land x z) (Z.land y (u32 (Z.lnot z))).
Definition f5 (x y z : Z) : Z := Z.lxor x (Z.lor y (u32 (Z.lnot z))).

Definition Initialize : list Z := [0x67452301; 0xEFCDAB89; 0x98BADCFE; 0x10325476; 0xC3D2E1F0].
Definition rol (x i : Z) : Z := rotl32 x i.

(** [Round] writes [a] and [c]; the next call takes the registers rotated. *)
Definition Round (f : Z → Z → Z → Z) (k : Z) (w : list Z) (r : regs) (x_rot : nat * Z) : regs :=
  let '(Regs a b c d e) := r in
  let '(x, rot) := x_rot in
  Regs e (u32 (rol (u32 (a + f b c d + nth x w 0 + k)) rot + e)) b (rol c 10) d.

(** The message words and rotations of the five groups of both lines. *)
Definition left1 : list (nat * Z) := [(0%nat, 11); (1%nat, 14); (2%nat, 15); (3%nat, 12); (4%nat, 5); (5%nat, 8); (6%nat, 7); (7%nat, 9); (8%nat, 11); (9%nat, 13); (10%nat, 14); (11%nat, 15); (12%nat, 6); (13%nat, 7); (14%nat, 9); (15%nat, 8)].
Definition left2 : list (nat * Z) := [(7%nat, 7); (4%nat, 6); (13%nat, 8); (1%nat, 13); (10%nat, 11); (6%nat, 9); (15%nat, 7); (3%nat, 15); (12%nat, 7); (0%nat, 12); (9%nat, 15); (5%nat, 9); (2%nat, 11); (14%nat, 7); (11%nat, 13); (8%nat, 12)].
Definition left3 : list (nat * Z) := [(3%nat, 11); (10%nat, 13); (14%nat, 6); (4%nat, 7); (9%nat, 14); (15%nat, 9); (8%nat, 13); (1%nat, 15); (2%nat, 14); (7%nat, 8); (0%nat, 13); (6%nat, 6); (13%nat, 5); (11%nat, 12); (5%nat, 7); (12%nat, 5)].
Definition left4 : list (nat * Z) := [(1%nat, 11); (9%nat, 12); (11%nat, 14); (10%nat, 15); (0%nat, 14); (8%nat, 15); (12%nat, 9); (4%nat, 8); (13%nat, 9); (3%nat, 14); (7%nat, 5); (15%nat, 6); (14%nat, 8); (5%nat, 6); (6%nat, 5); (2%nat, 12)].
Definition left5 : list (nat * Z) := [(4%nat, 9); (0%nat, 15); (5%nat, 5); (9%nat, 11); (7%nat, 6); (12%nat, 8); (2%nat, 13); (10%nat, 12); (14%nat, 5); (1%nat, 12); (3%nat, 13); (8%nat, 14); (11%nat, 11); (6%nat, 8); (15%nat, 5); (13%nat, 6)].
Definition right1 : list (nat * Z) := [(5%nat, 8); (14%nat, 9); (7%nat, 9); (0%nat, 11); (9%nat, 13); (2%nat, 15); (11%nat, 15); (4%nat, 5); (13%nat, 7); (6%nat, 7); (15%nat, 8); (8%nat, 11); (1%nat, 14); (10%nat, 14); (3%nat, 12); (12%nat, 6)].
Definition right2 : list (nat * Z) := [(6%nat, 9); (11%nat, 13); (3%nat, 15); (7%nat, 7); (0%nat, 12); (13%nat, 8); (5%nat, 9); (10%nat, 11); (14%nat, 7); (15%nat, 7); (8%nat, 12); (12%nat, 7); (4%nat, 6); (9%nat, 15); (1%nat, 13); (2%nat, 11)].
Definition right3 : list (nat * Z) := [(15%nat, 9); (5%nat, 7); (1%nat, 15); (3%nat, 11); (7%nat, 8); (14%nat, 6); (6%nat, 6); (9%nat, 14); (11%nat, 12); (8%nat, 13); (12%nat, 5); (2%nat, 14); (10%nat, 13); (0%nat, 13); (4%nat, 7); (13%nat, 5)].
Definition right4 : list (nat * Z) := [(8%nat, 15); (6%nat, 5); (4%nat, 8); (1%nat, 11); (3%nat, 14); (11%nat, 14); (15%nat, 6); (0%nat, 14); (5%nat, 6); (12%nat, 9); (2%nat, 12); (13%nat, 9); (9%nat, 12); (7%nat, 5); (10%nat, 15); (14%nat, 8)].
Definition right5 : list (nat * Z) := [(12%nat, 8); (15%nat, 5); (10%nat, 12); (4%nat, 9); (1%nat, 12); (5%nat, 5); (8%nat, 14); (7%nat, 6); (6%nat, 8); (2%nat, 13); (13%nat, 6); (14%nat, 5); (0%nat, 15); (3%nat, 13); (9%nat, 11); (11%nat, 11)].

Definition line1 (w : list Z) (r : regs) : regs :=
  fold_left (Round f5 0xA953FD4E w) left5 (fold_left (Round f4 0x8F1BBCDC w) left4
    (fold_left (Round f3 0x6ED9EBA1 w) left3 (fold_left (Round f2 0x5A827999 w) left2
      (fold_left (Round f1 0 w) left1 r)))).
Definition line2 (w : list Z) (r : regs) : regs :=
  fold_left (Round f1 0 w) right5 (fold_left (Round f2 0x7A6D76E9 w) right4
    (fold_left (Round f3 0x6D703EF3 w) right3 (fold_left (Round f4 0x5C4DD124 w) right2
      (fold_left (Round f5 0x50A28BE6 w) right1 r)))).

Definition Transform (s chunk : list Z) : list Z :=
  let n i := nth i s 0 in
  let w := chunk_words ReadLE32 4 chunk in
  let r := Regs (n 0%nat) (n 1%nat) (n 2%nat) (n 3%nat) (n 4%nat) in
  let l1 := line1 w r in
  let l2 := line2 w r in
  [u32 (n 1%nat + rc l1 + rd l2); u32 (n 2%nat + rd l1 + re l2); u32 (n 3%nat + re l1 + ra l2);
   u32 (n 4%nat + ra l1 + rb l2); u32 (n 0%nat + rb l1 + rc l2)].
End ripemd160.

(** ** The hasher classes *)

(** What distinguishes the classes.  [pad_base] is the constant of [Finalize]:
    119 for blocks of 64 bytes, 239 for 128. *)
Record hash_alg := HashAlg {
  alg_block : nat;
  alg_init : list Z;
  alg_transform : list Z → list Z → list Z;
  alg_pad_base : Z;
  alg_sizedesc : Z → list Z;
  alg_output : list Z → list Z
}.

Definition SHA256_alg : hash_alg :=
  HashAlg 64 sha256.Initialize sha256.Transform 119 WriteBE64 (λ s, concat (map WriteBE32 s)).
Definition SHA512_alg : hash_alg :=
  HashAlg 128 sha512.Initialize sha512.Transform 239 (λ n, replicate 8 0 ++ WriteBE64 n) (λ s, concat (map WriteBE64 s)).
Definition SHA1_alg : hash_alg :=
  HashAlg 64 sha1.Initialize sha1.Transform 119 WriteBE64 (λ s, concat (map WriteBE32 s)).
Definition RIPEMD160_alg : hash_alg :=
  HashAlg 64 ripemd160.Initialize ripemd160.Transform 119 WriteLE64 (λ s, concat (map WriteLE32 s)).

(** The members [s], [buf] and [bytes]. *)
Record hasher := Hasher { h_s : list Z; h_buf : list Z; h_bytes : Z }.

Definition memcpy (dst : list Z) (off : nat) (src : list Z) : list Z :=
  take off dst ++ src ++ drop (off + length src) dst.

Section Hasher.
Variable A : hash_alg.
Let B : nat := alg_block A.

(** The constructors ([buf] starts uninitialised; zeros stand for it). *)
Definition hasher_new : hasher := Hasher (alg_init A) (replicate B 0) 0.

(** The loop over full chunks, [n = (end - data) / B] rounds. *)
Fixpoint write_chunks (n : nat) (s data : list Z) : list Z * list Z :=
  match n with
  | O => (s, data)
  | S n => write_chunks n (alg_transform A s (take B data)) (drop B data)
  end.

Definition hasher_Write (h : hasher) (data : list Z) : hasher :=
  let bufsize := Z.to_nat (h_bytes h mod Z.of_nat B) in
  let '(h, bufsize, data) :=
    if (negb (bufsize =? 0) && (B <=? bufsize + length data))%nat%bool then
      let buf := memcpy (h_buf h) bufsize (take (B - bufsize) data) in
      (Hasher (alg_transform A (h_s h) buf) buf (u64 (h_bytes h + Z.of_nat (B - bufsize))),
       0%nat, drop (B - bufsize) data)
    else (h, bufsize, data) in
  let n := (length data / B)%nat in
  let '(s, data) := write_chunks n (h_s h) data in
  let bytes := u64 (h_bytes h + Z.of_nat (n * B)) in
  if (0 <? length data)%nat
  then Hasher s (memcpy (h_buf h) bufsize data) (u64 (bytes + Z.of_nat (length data)))
  else Hasher s (h_buf h) bytes.

Definition hash_pad (bytes : Z) : list Z :=
  0x80 :: replicate (Z.to_nat ((alg_pad_base A - bytes mod Z.of_nat B) mod Z.of_nat B)) 0.

Definition hasher_Finalize (h : hasher) : list Z :=
  let sizedesc := alg_sizedesc A (u64 (Z.shiftl (h_bytes h) 3)) in
  let h := hasher_Write h (hash_pad (h_bytes h)) in
  let h := hasher_Write h sizedesc in
  alg_output A (h_s h).

(** One [Write] of a whole message, the way the node hashes a vector. *)
Definition hash_of (data : list Z) : list Z := hasher_Finalize (hasher_Write hasher_new data).

(** The reference: the compression function folded over the blocks of the
    padded message. *)
Definition padded (data : list Z) : list Z :=
  data ++ hash_pad (Z.of_nat (length data)) ++ alg_sizedesc A (u64 (Z.shiftl (Z.of_nat (length data)) 3)).
Definition reference_hash (data : list Z) : list Z :=
  alg_output A (write_chunks (length (padded data) / B)%nat (alg_init A) (padded data)).1.
End Hasher.

Definition SHA256 : list Z → list Z := hash_of SHA256_alg.
Definition SHA512 : list Z → list Z := hash_of SHA512_alg.
Definition SHA1 : list Z → list Z := hash_of SHA1_alg.
Definition RIPEMD160 : list Z → list Z := hash_of RIPEMD160_alg.

(** ** hash.h: [CHash256], [CHash160] *)

Definition Hash256 (data : list Z) : list Z := SHA256 (SHA256 data).
Definition Hash160 (data : list Z) : list Z := RIPEMD160 (SHA256 data).

(** ** crypto/hmac_sha256.cpp, crypto/hmac_sha512.cpp *)

Definition hmac_key (A : hash_alg) (key : list Z) : list Z :=
  let B := alg_block A in
  if (length key <=? B)%nat then key ++ replicate (B - length key) 0
  else let k := hash_of A key in k ++ replicate (B - length k) 0.
(** The members [outer] and [inner] after the constructor. *)
Definition hmac_new (A : hash_alg) (key : list Z) : hasher * hasher :=
  let rkey := map (λ x, Z.lxor x 0x5c) (hmac_key A key) in
  let outer := hasher_Write A (hasher_new A) rkey in
  let rkey := map (λ x, Z.lxor x (Z.lxor 0x5c 0x36)) rkey in
  (outer, hasher_Write A (hasher_new A) rkey).
Definition hmac_Write (A : hash_alg) (h : hasher * hasher) (data : list Z) : hasher * hasher :=
  (h.1, hasher_Write A h.2 data).
Definition hmac_Finalize (A : hash_alg) (h : hasher * hasher) : list Z :=
  let temp := hasher_Finalize A h.2 in
  hasher_Finalize A (hasher_Write A h.1 temp).
Definition hmac (A : hash_alg) (key : list Z) (pieces : list (list Z)) : list Z :=
  hmac_Finalize A (fold_left (hmac_Write A) pieces (hmac_new A key)).

(** ** crypto/rfc6979_hmac_sha256.cpp *)

Record rfc6979 := Rfc6979 { rfc_V : list Z; rfc_K : list Z; rfc_retry : bool }.

Definition rfc6979_new (key msg : list Z) : rfc6979 :=
  let V := replicate 32 0x01 in
  let K := replicate 32 0x00 in
  let K := hmac SHA256_alg K [V; [0x00]; key; msg] in
  let V := hmac SHA256_alg K [V] in
  let K := hmac SHA256_alg K [V; [0x01]; key; msg] in
  let V := hmac SHA256_alg K [V] in
  Rfc6979 V K false.

(** The output loop writes at most 32 bytes per round: [outputlen / 32 + 1]
    rounds are enough. *)
Fixpoint rfc6979_output (fuel : nat) (K V : list Z) (outputlen : nat) : list Z * list Z :=
  match fuel with
  | O => (V, [])
  | S fuel =>
      if (outputlen =? 0)%nat then (V, [])
      else
        let V := hmac SHA256_alg K [V] in
        let len := Nat.min outputlen (length V) in
        let '(V', out) := rfc6979_output fuel K V (outputlen - len) in
        (V', take len V ++ out)
  end.
Definition rfc6979_Generate (r : rfc6979) (outputlen : nat) : rfc6979 * list Z :=
  let '(K, V) :=
    if rfc_retry r then
      let K := hmac SHA256_alg (rfc_K r) [rfc_V r; [0x00]] in (K, hmac SHA256_alg K [rfc_V r])
    else (rfc_K r, rfc_V r) in
  let '(V, out) := rfc6979_output (outputlen / 32 + 1) K V outputlen in
  (Rfc6979 V K true, out).

(** ** hash.cpp: [MurmurHash3] and [BIP32Hash] *)

Definition ROTL32 (x r : Z) : Z := rotl32 x r.

Definition murmur_c1 : Z := 0xcc9e2d51.
Definition murmur_c2 : Z := 0x1b873593.
Definition murmur_mix (k1 : Z) : Z := u32 (ROTL32 (u32 (k1 * murmur_c1)) 15 * murmur_c2).

(** The body: 4 bytes at a time; what is left is the tail. *)
Fixpoint murmur_body (h1 : Z) (data : list Z) : Z * list Z :=
  match data with
  | a :: b :: c :: d :: rest =>
      let h1 := ROTL32 (Z.lxor h1 (murmur_mix (ReadLE32 [a; b; c; d]))) 13 in
      murmur_body (u32 (h1 * 5 + 0xe6546b64)) rest
  | _ => (h1, data)
  end.
Definition murmur_tail (h1 : Z) (tail : list Z) : Z :=
  match tail with
  | [] => h1
  | _ =>
      let k1 := Z.lxor (Z.lxor (Z.shiftl (nth 2 tail 0) 16) (Z.shiftl (nth 1 tail 0) 8)) (nth 0 tail 0) in
      Z.lxor h1 (murmur_mix k1)
  end.
Definition MurmurHash3 (nHashSeed : Z) (vDataToHash : list Z) : Z :=
  let '(h1, tail) := murmur_body nHashSeed vDataToHash in
  let h1 := murmur_tail h1 tail in
  let h1 := Z.lxor h1 (u32 (Z.of_nat (length vDataToHash))) in
  let h1 := Z.lxor h1 (Z.shiftr h1 16) in
  let h1 := u32 (h1 * 0x85ebca6b) in
  let h1 := Z.lxor h1 (Z.shiftr h1 13) in
  let h1 := u32 (h1 * 0xc2b2ae35) in
  Z.lxor h1 (Z.shiftr h1 16).

Definition BIP32Hash (chainCode : list Z) (nChild header : Z) (data : list Z) : list Z :=
  hmac SHA512_alg chainCode [[header]; data; WriteBE32 nChild].

(** ** Streaming: [Write] in pieces absorbs the concatenation *)

Section Streaming.
Variable A : hash_alg.
Notation B := (alg_block A).
Hypothesis B_pos : (0 < B)%nat.

Lemma write_chunks_snd n s m : (write_chunks A n s m).2 = drop (n * B) m.
Proof.
  revert s m. induction n as [|n IH]; intros s m; [done|].
  cbn [write_chunks]. rewrite IH, drop_drop. f_equal; lia.
Qed.

Lemma write_chunks_app n s m d :
  (n * B ≤ length m)%nat →
  write_chunks A n s (m ++ d) = ((write_chunks A n s m).1, (write_chunks A n s m).2 ++ d).
Proof.
  revert s m. induction n as [|n IH]; intros s m Hn; [done|].
  cbn [write_chunks]. rewrite take_app_le, drop_app_le by lia. apply IH. rewrite length_drop. lia.
Qed.

Lemma write_chunks_add a b s m :
  write_chunks A (a + b) s m = write_chunks A b (write_chunks A a s m).1 (write_chunks A a s m).2.
Proof. revert s m. induction a as [|a IH]; intros s m; [done|]. apply IH. Qed.

(** The hasher has absorbed the message [m]. *)
Definition absorbed (h : hasher) (m : list Z) : Prop :=
  h_bytes h = Z.of_nat (length m) ∧ length (h_buf h) = B ∧
  (h_s h, take (length m mod B) (h_buf h)) = write_chunks A (length m / B) (alg_init A) m.

Lemma absorbed_rest h m : absorbed h m → take (length m mod B) (h_buf h) = drop (length m / B * B) m.
Proof. intros (_ & _ & H). rewrite <- write_chunks_snd with (s := alg_init A), <- H. done. Qed.

Lemma absorbed_chunks h m : absorbed h m → h_s h = (write_chunks A (length m / B) (alg_init A) m).1.
Proof. intros (_ & _ & H). by rewrite <- H. Qed.

Lemma take_memcpy dst off src :
  (off + length src ≤ length dst)%nat → take (off + length src) (memcpy dst off src) = take off dst ++ src.
Proof.
  intros H. unfold memcpy. rewrite app_assoc. apply take_app_length'.
  rewrite length_app, length_take. lia.
Qed.
Lemma length_memcpy dst off src :
  (off + length src ≤ length dst)%nat → length (memcpy dst off src) = length dst.
Proof. intros H. unfold memcpy. rewrite !length_app, length_take, length_drop. lia. Qed.

Lemma absorbed_new : absorbed (hasher_new A) [].
Proof.
  unfold absorbed, hasher_new. cbn [h_bytes h_buf h_s length]. rewrite length_replicate, Nat.Div0.div_0_l, Nat.Div0.mod_0_l. done.
Qed.

(** Division facts for a message [m ++ d]. *)
Lemma div_mod_app (a b : nat) : (a mod B = 0)%nat → ((a + b) / B = a / B + b / B)%nat ∧ ((a + b) mod B = b mod B)%nat.
Proof.
  intros H. pose proof (Nat.div_mod_eq a B) as E. rewrite H, Nat.add_0_r in E.
  rewrite E at 1 3. rewrite (Nat.mul_comm B), Nat.add_comm, Nat.div_add, Nat.Div0.mod_add by lia. lia.
Qed.

(** The tail of [Write], from an aligned hasher or with data that fit the buffer. *)
Lemma absorbed_tail h m d :
  absorbed h m → Z.of_nat (length (m ++ d)) < 2 ^ 64 →
  (length m mod B = 0 ∨ length m mod B + length d < B)%nat →
  absorbed
    (let n := (length d / B)%nat in
     let '(s, data) := write_chunks A n (h_s h) d in
     let bytes := u64 (h_bytes h + Z.of_nat (n * B)) in
     if (0 <? length data)%nat
     then Hasher s (memcpy (h_buf h) (length m mod B) data) (u64 (bytes + Z.of_nat (length data)))
     else Hasher s (h_buf h) bytes) (m ++ d).
Proof.
  intros Hh Hlen Hcase. pose proof (absorbed_rest _ _ Hh) as Hrest. pose proof (absorbed_chunks _ _ Hh) as Hs.
  destruct Hh as (Hb & Hbuf & _). cbn zeta. rewrite length_app in Hlen.
  set (n := (length d / B)%nat). destruct (write_chunks A n (h_s h) d) as [s data] eqn:Ew.
  pose proof (write_chunks_snd n (h_s h) d) as Hd. rewrite Ew in Hd. cbn [snd] in Hd.
  assert (length data = length d mod B)%nat as Hld.
  { rewrite Hd, length_drop. unfold n. pose proof (Nat.div_mod_eq (length d) B). lia. }
  assert (n * B + length data = length d)%nat as Hsum.
  { unfold n. rewrite Hld. pose proof (Nat.div_mod_eq (length d) B). lia. }
  assert (((length m + length d) / B = length m / B + n)%nat ∧
          ((length m + length d) mod B = length m mod B + length data)%nat) as [Hq Hr].
  { rewrite Hld. destruct Hcase as [H0|Hlt].
    - destruct (div_mod_app (length m) (length d) H0) as [-> ->]. by rewrite H0.
    - unfold n. rewrite (Nat.div_small (length d)), (Nat.mod_small (length d)) by lia.
      pose proof (Nat.div_mod_eq (length m) B).
      split; symmetry; [apply Nat.div_unique with (length m mod B + length d)%nat
                       |apply Nat.mod_unique with (length m / B)%nat]; lia. }
  assert (write_chunks A (length m / B + n) (alg_init A) (m ++ d) = (s, drop (length m / B * B) m ++ data)) as Hc.
  { pose proof (Nat.div_mod_eq (length m) B). rewrite write_chunks_add, write_chunks_app by lia. cbn [fst snd].
    rewrite <- Hs, write_chunks_snd. destruct Hcase as [H0|Hlt].
    - rewrite drop_ge, !app_nil_l by lia. exact Ew.
    - assert (n = 0)%nat as E0 by (unfold n; apply Nat.div_small; lia). rewrite E0 in Ew |- *.
      cbn [write_chunks] in Ew |- *. by injection Ew as <- <-. }
  assert (length m mod B + length data ≤ B)%nat as Hfit.
  { pose proof (Nat.mod_upper_bound (length m) B). pose proof (Nat.mod_upper_bound (length d) B). lia. }
  unfold absorbed. rewrite length_app, Hq, Hr, Hc, Hb.
  rewrite (u64_id (_ + Z.of_nat (n * B))) by (unfold is_u; lia).
  destruct (Nat.ltb_spec 0 (length data)); cbn [h_bytes h_buf h_s].
  - rewrite u64_id by (unfold is_u; lia). rewrite length_memcpy, take_memcpy, Hrest by lia. split_and!; [lia|done|done].
  - destruct data; [|simpl in *; lia]. rewrite app_nil_r. cbn [length] in *. rewrite Nat.add_0_r, Hrest.
    split_and!; [lia|done|done].
Qed.

Lemma hasher_Write_absorbs h m d :
  absorbed h m → Z.of_nat (length (m ++ d)) < 2 ^ 64 → absorbed (hasher_Write A h d) (m ++ d).
Proof.
  intros Hh Hlen. pose proof Hh as (Hb & Hbuf & _). unfold hasher_Write. rewrite Hb.
  rewrite <- Nat2Z.inj_mod, Nat2Z.id. pose proof (Nat.mod_upper_bound (length m) B ltac:(lia)).
  destruct (negb (length m mod B =? 0)%nat && (B <=? length m mod B + length d)%nat) eqn:E.
  - apply andb_true_iff in E as [E1 E2]. apply negb_true_iff, Nat.eqb_neq in E1. apply Nat.leb_le in E2.
    set (k := (B - length m mod B)%nat).
    replace (m ++ d) with ((m ++ take k d) ++ drop k d) by (by rewrite <- app_assoc, take_drop).
    assert (length (take k d) = k) as Hk by (rewrite length_take; lia).
    assert (length (m ++ take k d) = (length m / B + 1) * B)%nat as Hmk.
    { rewrite length_app, Hk. pose proof (Nat.div_mod_eq (length m) B). lia. }
    assert (length (m ++ take k d) mod B = 0)%nat as Hm0 by (rewrite Hmk; apply Nat.Div0.mod_mul).
    rewrite length_app in Hlen.
    set (h1 := Hasher _ _ _). assert (absorbed h1 (m ++ take k d)) as H1.
    { unfold absorbed, h1. cbn [h_bytes h_buf h_s]. rewrite Hm0, Hmk, Nat.div_mul by lia.
      rewrite length_memcpy by lia. fold k. rewrite u64_id by (unfold is_u; lia).
      split_and!; [rewrite <- Hmk, length_app, Hk; lia|done|].
      pose proof (Nat.div_mod_eq (length m) B).
      rewrite write_chunks_add, write_chunks_app by lia. cbn [fst snd write_chunks].
      rewrite <- (absorbed_chunks _ _ Hh), write_chunks_snd, <- (absorbed_rest _ _ Hh).
      assert (length (take (length m mod B) (h_buf h) ++ take k d) = B) as Hlb
        by (rewrite length_app, length_take; lia).
      rewrite (take_ge (_ ++ take k d)), (drop_ge (_ ++ take k d)) by lia.
      f_equal. f_equal. unfold memcpy. rewrite (drop_ge (h_buf h)) by lia. by rewrite app_nil_r. }
    pose proof (absorbed_tail h1 _ (drop k d) H1) as Ht. rewrite Hm0 in Ht. apply Ht; [|by left].
    rewrite <- app_assoc, take_drop, length_app. done.
  - pose proof (absorbed_tail h m d Hh Hlen) as Ht. apply Ht.
    apply andb_false_iff in E as [E|E]; [left; by apply negb_false_iff, Nat.eqb_eq in E|right; by apply Nat.leb_gt].
Qed.

Lemma hasher_Write_pieces h m pieces :
  absorbed h m → Z.of_nat (length (m ++ concat pieces)) < 2 ^ 64 →
  absorbed (fold_left (hasher_Write A) pieces h) (m ++ concat pieces).
Proof.
  revert h m. induction pieces as [|p pieces IH]; intros h m Hh Hlen; cbn [fold_left concat] in *.
  - by rewrite app_nil_r.
  - rewrite app_assoc in *. apply IH; [|done]. apply hasher_Write_absorbs; [done|].
    rewrite length_app in Hlen. lia.
Qed.

Lemma hasher_Finalize_reference h m :
  absorbed h m → Z.of_nat (length (padded A m)) < 2 ^ 64 → hasher_Finalize A h = reference_hash A m.
Proof.
  intros Hh Hlen. pose proof Hh as (Hb & _ & _). unfold hasher_Finalize, reference_hash. rewrite Hb.
  unfold padded in *. f_equal. rewrite app_assoc in *.
  eapply absorbed_chunks, hasher_Write_absorbs; [|done].
  apply hasher_Write_absorbs; [done|]. rewrite length_app in Hlen. lia.
Qed.
End Streaming.

(** ** Digest sizes *)

Section DigestSize.
Variables (A : hash_alg) (k : nat).
Hypothesis init_length : length (alg_init A) = k.
Hypothesis transform_length : ∀ s c, length s = k → length (alg_transform A s c) = k.

Lemma write_chunks_length n s m : length s = k → length (write_chunks A n s m).1 = k.
Proof. revert s m. induction n as [|n IH]; intros s m Hs; [done|]. apply IH. auto. Qed.

Lemma hasher_Write_length h d : length (h_s h) = k → length (h_s (hasher_Write A h d)) = k.
Proof.
  intros Hh. unfold hasher_Write.
  destruct (_ && _)%bool; cbn [h_s];
    match goal with |- context [write_chunks A ?n ?s ?d] =>
      assert (length (write_chunks A n s d).1 = k) by (apply write_chunks_length; auto);
      destruct (write_chunks A n s d) end; by case_match.
Qed.

Lemma hasher_Finalize_length h w :
  (∀ s, length s = k → length (alg_output A s) = w) → length (h_s h) = k →
  length (hasher_Finalize A h) = w.
Proof. intros Hw Hh. unfold hasher_Finalize. apply Hw. by do 2 apply hasher_Write_length. Qed.
End DigestSize.

Lemma length_concat_const {X} (f : Z → list X) w s :
  (∀ x, length (f x) = w) → length (concat (map f s)) = (length s * w)%nat.
Proof. intros H. induction s as [|x s IH]; [done|]. cbn. rewrite length_app, H, IH. done. Qed.

Lemma is_byte_u8 x : is_byte (u8 x).
Proof. by apply Z.mod_pos_bound. Qed.

Lemma bytes_ok_concat_map (f : Z → list Z) s : (∀ x, bytes_ok (f x)) → bytes_ok (concat (map f s)).
Proof. intros H. induction s as [|x s IH]; [constructor|]. apply Forall_app. auto. Qed.

Lemma bytes_ok_WriteLE32 x : bytes_ok (WriteLE32 x).
Proof. repeat constructor; apply is_byte_u8. Qed.
Lemma bytes_ok_WriteLE64 x : bytes_ok (WriteLE64 x).
Proof. repeat constructor; apply is_byte_u8. Qed.
Lemma bytes_ok_WriteBE32 x : bytes_ok (WriteBE32 x).
Proof. apply Forall_rev, bytes_ok_WriteLE32. Qed.
Lemma bytes_ok_WriteBE64 x : bytes_ok (WriteBE64 x).
Proof. apply Forall_rev, bytes_ok_WriteLE64. Qed.
#[export] Hint Resolve bytes_ok_WriteLE32 bytes_ok_WriteLE64 bytes_ok_WriteBE32 bytes_ok_WriteBE64 bytes_ok_concat_map : fc.

Lemma length_SHA256 m : length (SHA256 m) = 32%nat.
Proof.
  assert (∀ s c, length s = 8%nat → length (sha256.Transform s c) = 8%nat) as Ht.
  { intros s c Hs. unfold sha256.Transform. by rewrite length_zip_with, Hs. }
  apply (hasher_Finalize_length SHA256_alg 8 Ht).
  - intros s Hs. unfold SHA256_alg. cbn [alg_output]. by rewrite (length_concat_const _ 4), Hs.
  - by apply (hasher_Write_length SHA256_alg 8 Ht).
Qed.
Lemma length_SHA512 m : length (SHA512 m) = 64%nat.
Proof.
  assert (∀ s c, length s = 8%nat → length (sha512.Transform s c) = 8%nat) as Ht.
  { intros s c Hs. unfold sha512.Transform. by rewrite length_zip_with, Hs. }
  apply (hasher_Finalize_length SHA512_alg 8 Ht).
  - intros s Hs. unfold SHA512_alg. cbn [alg_output]. by rewrite (length_concat_const _ 8), Hs.
  - by apply (hasher_Write_length SHA512_alg 8 Ht).
Qed.
Lemma length_SHA1 m : length (SHA1 m) = 20%nat.
Proof.
  assert (∀ s c, length s = 5%nat → length (sha1.Transform s c) = 5%nat) as Ht.
  { intros s c Hs. unfold sha1.Transform. by rewrite length_zip_with, Hs. }
  apply (hasher_Finalize_length SHA1_alg 5 Ht).
  - intros s Hs. unfold SHA1_alg. cbn [alg_output]. by rewrite (length_concat_const _ 4), Hs.
  - by apply (hasher_Write_length SHA1_alg 5 Ht).
Qed.
Lemma length_RIPEMD160 m : length (RIPEMD160 m) = 20%nat.
Proof.
  assert (∀ s c, length s = 5%nat → length (ripemd160.Transform s c) = 5%nat) as Ht by done.
  apply (hasher_Finalize_length RIPEMD160_alg 5 Ht).
  - intros s Hs. unfold RIPEMD160_alg. cbn [alg_output]. by rewrite (length_concat_const _ 4), Hs.
  - by apply (hasher_Write_length RIPEMD160_alg 5 Ht).
Qed.
Lemma length_Hash160 m : length (Hash160 m) = 20%nat.
Proof. apply length_RIPEMD160. Qed.
Lemma length_Hash256 m : length (Hash256 m) = 32%nat.
Proof. apply length_SHA256. Qed.

Lemma bytes_ok_digest A m :
  In A [SHA256_alg; SHA512_alg; SHA1_alg; RIPEMD160_alg] → bytes_ok (hash_of A m).
Proof.
  intros HA. unfold hash_of, hasher_Finalize. set (s := h_s _). clearbody s.
  destruct HA as [<-|[<-|[<-|[<-|[]]]]]; cbn [alg_output SHA256_alg SHA512_alg SHA1_alg RIPEMD160_alg];
    auto with fc.
Qed.

Lemma bytes_ok_SHA256 m : bytes_ok (SHA256 m).
Proof. apply (bytes_ok_digest SHA256_alg). simpl; auto. Qed.
Lemma bytes_ok_SHA1 m : bytes_ok (SHA1 m).
Proof. apply (bytes_ok_digest SHA1_alg). simpl; auto. Qed.
Lemma bytes_ok_RIPEMD160 m : bytes_ok (RIPEMD160 m).
Proof. apply (bytes_ok_digest RIPEMD160_alg). simpl; auto. Qed.
Lemma bytes_ok_Hash256 m : bytes_ok (Hash256 m).
Proof. apply bytes_ok_SHA256. Qed.
#[export] Hint Resolve bytes_ok_SHA256 bytes_ok_SHA1 bytes_ok_RIPEMD160 bytes_ok_Hash256 : fc.

#[global] Opaque SHA256 SHA512 SHA1 RIPEMD160.
#[export] Hint Rewrite length_SHA256 length_SHA512 length_SHA1 length_RIPEMD160 length_Hash160 length_Hash256 : fc_rw.

(** C21: for each of the four hash classes, any sequence of [Write] calls
    followed by [Finalize] gives the compression function folded over the blocks
    of the padded concatenation (the buffer is never lost, doubled or overrun),
    and the padded message is a whole number of blocks. *)
Theorem hash_stream_reference A pieces :
  In A [SHA256_alg; SHA512_alg; SHA1_alg; RIPEMD160_alg] →
  Z.of_nat (length (concat pieces)) < 2 ^ 60 →
  hasher_Finalize A (fold_left (hasher_Write A) pieces (hasher_new A)) = reference_hash A (concat pieces) ∧
  (length (padded A (concat pieces)) mod alg_block A = 0)%nat.
Proof.
  intros HA Hlen. set (m := concat pieces) in *.
  assert ((0 < alg_block A)%nat ∧ Z.of_nat (length (padded A m)) < 2 ^ 64 ∧
          (length (padded A m) mod alg_block A = 0)%nat) as (HB & Hp & Hmod).
  { unfold padded, hash_pad. rewrite !length_app. cbn [length]. rewrite length_replicate.
    destruct HA as [<-|[<-|[<-|[<-|[]]]]];
      cbn [alg_block alg_pad_base alg_sizedesc SHA256_alg SHA512_alg SHA1_alg RIPEMD160_alg];
      rewrite ?length_app, ?length_replicate; unfold WriteBE64, WriteLE64; cbn [length rev app];
      (split; [lia|]);
      (split; [|apply Nat2Z.inj; rewrite Nat2Z.inj_mod]); change (Z.of_nat 64) with 64;
      change (Z.of_nat 128) with 128; Z.to_euclidean_division_equations; lia. }
  split; [|done]. apply hasher_Finalize_reference; [done| |done].
  apply (hasher_Write_pieces A HB _ []); [by apply absorbed_new|]. cbn [app]. fold m. lia.
Qed.

Lemma hash_stream_reference_witness :
  hasher_Finalize SHA256_alg (fold_left (hasher_Write SHA256_alg) [replicate 60 97; [98; 99]; replicate 70 1] (hasher_new SHA256_alg))
  = reference_hash SHA256_alg (concat [replicate 60 97; [98; 99]; replicate 70 1]).
Proof. apply (hash_stream_reference SHA256_alg); [by left|by_decision]. Defined.
