(* ===== verification/ScriptCode.v ===== *)
(** * script/script.{h,cpp}: scripts as byte strings

    Opcodes, script numbers ([CScriptNum]), the push operators of [CScript],
    its instruction decoder [GetOp2], the scans built on it (signature-operation
    counting, templates, [FindAndDelete]), with the round trips between the
    encoders and the decoders.  An iterator into a script is the suffix of bytes
    it points at, so [pc < end()] is a non-empty suffix. *)
From stdpp Require Import base tactics list gmap numbers option.
From Stdlib Require Import ZArith Lia.
From S2P Require Import Prelude.

Notation valtype := (list Z) (only parsing).

Definition MAX_SCRIPT_ELEMENT_SIZE : Z := 520.

(** [enum opcodetype] *)
Definition OP_0 : Z := 0x00.
Definition OP_FALSE : Z := OP_0.
Definition OP_PUSHDATA1 : Z := 0x4c.
Definition OP_PUSHDATA2 : Z := 0x4d.
Definition OP_PUSHDATA4 : Z := 0x4e.
Definition OP_1NEGATE : Z := 0x4f.
Definition OP_RESERVED : Z := 0x50.
Definition OP_1 : Z := 0x51.
Definition OP_TRUE : Z := OP_1.
Definition OP_2 : Z := 0x52.
Definition OP_3 : Z := 0x53.
Definition OP_4 : Z := 0x54.
Definition OP_5 : Z := 0x55.
Definition OP_6 : Z := 0x56.
Definition OP_7 : Z := 0x57.
Definition OP_8 : Z := 0x58.
Definition OP_9 : Z := 0x59.
Definition OP_10 : Z := 0x5a.
Definition OP_11 : Z := 0x5b.
Definition OP_12 : Z := 0x5c.
Definition OP_13 : Z := 0x5d.
Definition OP_14 : Z := 0x5e.
Definition OP_15 : Z := 0x5f.
Definition OP_16 : Z := 0x60.
Definition OP_NOP : Z := 0x61.
Definition OP_VER : Z := 0x62.
Definition OP_IF : Z := 0x63.
Definition OP_NOTIF : Z := 0x64.
Definition OP_VERIF : Z := 0x65.
Definition OP_VERNOTIF : Z := 0x66.
Definition OP_ELSE : Z := 0x67.
Definition OP_ENDIF : Z := 0x68.
Definition OP_VERIFY : Z := 0x69.
Definition OP_RETURN : Z := 0x6a.
Definition OP_TOALTSTACK : Z := 0x6b.
Definition OP_FROMALTSTACK : Z := 0x6c.
Definition OP_2DROP : Z := 0x6d.
Definition OP_2DUP : Z := 0x6e.
Definition OP_3DUP : Z := 0x6f.
Definition OP_2OVER : Z := 0x70.
Definition OP_2ROT : Z := 0x71.
Definition OP_2SWAP : Z := 0x72.
Definition OP_IFDUP : Z := 0x73.
Definition OP_DEPTH : Z := 0x74.
Definition OP_DROP : Z := 0x75.
Definition OP_DUP : Z := 0x76.
Definition OP_NIP : Z := 0x77.
Definition OP_OVER : Z := 0x78.
Definition OP_PICK : Z := 0x79.
Definition OP_ROLL : Z := 0x7a.
Definition OP_ROT : Z := 0x7b.
Definition OP_SWAP : Z := 0x7c.
Definition OP_TUCK : Z := 0x7d.
Definition OP_CAT : Z := 0x7e.
Definition OP_SUBSTR : Z := 0x7f.
Definition OP_LEFT : Z := 0x80.
Definition OP_RIGHT : Z := 0x81.
Definition OP_SIZE : Z := 0x82.
Definition OP_INVERT : Z := 0x83.
Definition OP_AND : Z := 0x84.
Definition OP_OR : Z := 0x85.
Definition OP_XOR : Z := 0x86.
Definition OP_EQUAL : Z := 0x87.
Definition OP_EQUALVERIFY : Z := 0x88.
Definition OP_RESERVED1 : Z := 0x89.
Definition OP_RESERVED2 : Z := 0x8a.
Definition OP_1ADD : Z := 0x8b.
Definition OP_1SUB : Z := 0x8c.
Definition OP_2MUL : Z := 0x8d.
Definition OP_2DIV : Z := 0x8e.
Definition OP_NEGATE : Z := 0x8f.
Definition OP_ABS : Z := 0x90.
Definition OP_NOT : Z := 0x91.
Definition OP_0NOTEQUAL : Z := 0x92.
Definition OP_ADD : Z := 0x93.
Definition OP_SUB : Z := 0x94.
Definition OP_MUL : Z := 0x95.
Definition OP_DIV : Z := 0x96.
Definition OP_MOD : Z := 0x97.
Definition OP_LSHIFT : Z := 0x98.
Definition OP_RSHIFT : Z := 0x99.
Definition OP_BOOLAND : Z := 0x9a.
Definition OP_BOOLOR : Z := 0x9b.
Definition OP_NUMEQUAL : Z := 0x9c.
Definition OP_NUMEQUALVERIFY : Z := 0x9d.
Definition OP_NUMNOTEQUAL : Z := 0x9e.
Definition OP_LESSTHAN : Z := 0x9f.
Definition OP_GREATERTHAN : Z := 0xa0.
Definition OP_LESSTHANOREQUAL : Z := 0xa1.
Definition OP_GREATERTHANOREQUAL : Z := 0xa2.
Definition OP_MIN : Z := 0xa3.
Definition OP_MAX : Z := 0xa4.
Definition OP_WITHIN : Z := 0xa5.
Definition OP_RIPEMD160 : Z := 0xa6.
Definition OP_SHA1 : Z := 0xa7.
Definition OP_SHA256 : Z := 0xa8.
Definition OP_HASH160 : Z := 0xa9.
Definition OP_HASH256 : Z := 0xaa.
Definition OP_CODESEPARATOR : Z := 0xab.
Definition OP_CHECKSIG : Z := 0xac.
Definition OP_CHECKSIGVERIFY : Z := 0xad.
Definition OP_CHECKMULTISIG : Z := 0xae.
Definition OP_CHECKMULTISIGVERIFY : Z := 0xaf.
Definition OP_NOP1 : Z := 0xb0.
Definition OP_NOP2 : Z := 0xb1.
Definition OP_NOP3 : Z := 0xb2.
Definition OP_NOP4 : Z := 0xb3.
Definition OP_NOP5 : Z := 0xb4.
Definition OP_NOP6 : Z := 0xb5.
Definition OP_NOP7 : Z := 0xb6.
Definition OP_NOP8 : Z := 0xb7.
Definition OP_NOP9 : Z := 0xb8.
Definition OP_NOP10 : Z := 0xb9.
Definition OP_SMALLINTEGER : Z := 0xfa.
Definition OP_PUBKEYS : Z := 0xfb.
Definition OP_PUBKEYHASH : Z := 0xfd.
Definition OP_PUBKEY : Z := 0xfe.
Definition OP_INVALIDOPCODE : Z := 0xff.
Definition size (v : list Z) : Z := Z.of_nat (length v).
(** [v.back()], for a non-empty vector. *)
Definition back (v : list Z) : Z := nth (length v - 1) v 0.

(** ** CScriptNum *)

Inductive scriptnum_error := ScriptNumOverflow | ScriptNumNonMinimal.

Definition nMaxNumSize : Z := 4.

(** [CScriptNum::set_vch] *)
Fixpoint set_vch_loop (i : Z) (vch : list Z) (result : Z) : Z :=
  match vch with
  | [] => result
  | b :: vch => set_vch_loop (i + 1) vch (Z.lor result (s64 (Z.shiftl b (8 * i))))
  end.
Definition set_vch (vch : list Z) : Z :=
  match vch with
  | [] => 0
  | _ =>
      let result := set_vch_loop 0 vch 0 in
      if flag (back vch) 0x80
      then - s64 (Z.land (u64 result) (u64 (Z.lnot (u64 (Z.shiftl 0x80 (8 * (size vch - 1)))))))
      else result
  end.

(** The constructor [CScriptNum(vch, fRequireMinimal)]: the number, or the
    exception it throws. *)
Definition CScriptNum (vch : list Z) (fRequireMinimal : bool) : outcome scriptnum_error Z :=
  if nMaxNumSize <? size vch then Err ScriptNumOverflow
  else if fRequireMinimal && (0 <? size vch)
          && (Z.land (back vch) 0x7f =? 0)
          && ((size vch <=? 1) || (Z.land (nth (length vch - 2) vch 0) 0x80 =? 0))
  then Err ScriptNumNonMinimal
  else Ok (set_vch vch).

(** [CScriptNum::serialize]; the bytes of a 64-bit magnitude are at most 8. *)
Fixpoint abs_bytes (fuel : nat) (absvalue : Z) : list Z :=
  match fuel with
  | O => []
  | S fuel => if absvalue =? 0 then [] else Z.land absvalue 0xff :: abs_bytes fuel (Z.shiftr absvalue 8)
  end.
Definition num_serialize (value : Z) : list Z :=
  if value =? 0 then []
  else
    let neg := value <? 0 in
    let absvalue := u64 (if neg then - value else value) in
    let result := abs_bytes 8 absvalue in
    if flag (back result) 0x80 then result ++ [if neg then 0x80 else 0]
    else if neg then take (length result - 1) result ++ [Z.lor (back result) 0x80]
    else result.

(** [CScriptNum::getint] *)
Definition getint (m_value : Z) : Z :=
  if INT32_MAX <? m_value then INT32_MAX
  else if m_value <? INT32_MIN then INT32_MIN
  else m_value.

(** The asserting operators. *)
Definition num_neg {E} (m_value : Z) : outcome E Z :=
  _ ← assert_that (negb (m_value =? INT64_MIN)); mret (- m_value).
Definition num_add_assign {E} (m_value rhs : Z) : outcome E Z :=
  _ ← assert_that ((rhs =? 0) || ((0 <? rhs) && (m_value <=? INT64_MAX - rhs))
                   || ((rhs <? 0) && (INT64_MIN - rhs <=? m_value)));
  mret (m_value + rhs).
Definition num_sub_assign {E} (m_value rhs : Z) : outcome E Z :=
  _ ← assert_that ((rhs =? 0) || ((0 <? rhs) && (INT64_MIN + rhs <=? m_value))
                   || ((rhs <? 0) && (m_value <=? INT64_MAX + rhs)));
  mret (m_value - rhs).

(** ** Building scripts *)

(** [operator<<(const std::vector<unsigned char>&)]: the bytes appended. *)
Definition push_data (b : list Z) : list Z :=
  (if size b <? OP_PUSHDATA1 then [size b]
   else if size b <=? 0xff then [OP_PUSHDATA1; size b]
   else if size b <=? 0xffff then OP_PUSHDATA2 :: le_bytes 2 (size b)
   else OP_PUSHDATA4 :: le_bytes 4 (size b)) ++ b.

(** [push_int64], i.e. [operator<<(int64_t)]. *)
Definition push_int64 (n : Z) : list Z :=
  if (n =? -1) || ((1 <=? n) && (n <=? 16)) then [n + (OP_1 - 1)]
  else if n =? 0 then [OP_0]
  else push_data (num_serialize n).

(** [operator<<(opcodetype)] *)
Definition push_opcode (opcode : Z) : outcome unit (list Z) :=
  if (opcode <? 0) || (0xff <? opcode) then Err tt else Ok [opcode].

Definition DecodeOP_N {E} (opcode : Z) : outcome E Z :=
  if opcode =? OP_0 then Ok 0
  else _ ← assert_that ((OP_1 <=? opcode) && (opcode <=? OP_16)); mret (opcode - (OP_1 - 1)).
Definition EncodeOP_N {E} (n : Z) : outcome E Z :=
  _ ← assert_that ((0 <=? n) && (n <=? 16)); mret (if n =? 0 then OP_0 else OP_1 + n - 1).

(** ** Reading instructions *)

(** What [GetOp2] leaves behind: its result, [opcodeRet], [*pvchRet], [pc]. *)
Record op_read := OpRead { fRet : bool; opcodeRet : Z; vchRet : list Z; pcRet : list Z }.

(** The operand of a push: its length and the bytes after the length field, or
    where the iterator stops when the length field is cut off. *)
Definition push_size (opcode : Z) (pc : list Z) : list Z + Z * list Z :=
  if opcode <? OP_PUSHDATA1 then inr (opcode, pc)
  else if opcode =? OP_PUSHDATA1 then
    match pc with n :: pc => inr (n, pc) | [] => inl pc end
  else if opcode =? OP_PUSHDATA2 then
    match pc with a :: b :: pc => inr (le_value [a; b], pc) | _ => inl pc end
  else
    match pc with a :: b :: c :: d :: pc => inr (le_value [a; b; c; d], pc) | _ => inl pc end.

Definition GetOp2 (pc : list Z) : op_read :=
  match pc with
  | [] => OpRead false OP_INVALIDOPCODE [] []
  | opcode :: pc =>
      if opcode <=? OP_PUSHDATA4 then
        match push_size opcode pc with
        | inl pc => OpRead false OP_INVALIDOPCODE [] pc
        | inr (nSize, pc) =>
            if u32 (size pc) <? nSize then OpRead false OP_INVALIDOPCODE [] pc
            else OpRead true opcode (take (Z.to_nat nSize) pc) (drop (Z.to_nat nSize) pc)
        end
      else OpRead true opcode [] pc
  end.

(** ** Scans over a script

    The loops advance an iterator with [GetOp]; [fuel] bounds their rounds, and
    the length of the script is enough, because a successful [GetOp] consumes
    at least one byte. *)

(** [CScript::GetSigOpCount(bool fAccurate)] *)
Fixpoint GetSigOpCount_loop {E} (fuel : nat) (fAccurate : bool) (pc : list Z) (lastOpcode n : Z) : outcome E Z :=
  match pc with
  | [] => Ok n
  | _ =>
      match fuel with
      | O => OutOfFuel
      | S fuel =>
          let r := GetOp2 pc in
          if fRet r then
            let opcode := opcodeRet r in
            n ← (if (opcode =? OP_CHECKSIG) || (opcode =? OP_CHECKSIGVERIFY) then Ok (u32 (n + 1))
                 else if (opcode =? OP_CHECKMULTISIG) || (opcode =? OP_CHECKMULTISIGVERIFY) then
                   if fAccurate && (OP_1 <=? lastOpcode) && (lastOpcode <=? OP_16)
                   then k ← DecodeOP_N lastOpcode; Ok (u32 (n + k))
                   else Ok (u32 (n + 20))
                 else Ok n);
            GetSigOpCount_loop fuel fAccurate (pcRet r) opcode n
          else Ok n
      end
  end.
Definition GetSigOpCount {E} (script : list Z) (fAccurate : bool) : outcome E Z :=
  GetSigOpCount_loop (length script) fAccurate script OP_INVALIDOPCODE 0.

Definition IsPayToScriptHash (script : list Z) : bool :=
  (size script =? 23) && (nth 0 script 0 =? OP_HASH160) && (nth 1 script 0 =? 0x14)
  && (nth 22 script 0 =? OP_EQUAL).

(** [CScript::GetSigOpCount(const CScript& scriptSig)]: the loop finds the last
    item [scriptSig] pushes ([None]: the early [return 0]). *)
Fixpoint last_push_loop {E} (fuel : nat) (pc data : list Z) : outcome E (option (list Z)) :=
  match pc with
  | [] => Ok (Some data)
  | _ =>
      match fuel with
      | O => OutOfFuel
      | S fuel =>
          let r := GetOp2 pc in
          if negb (fRet r) then Ok None
          else if OP_16 <? opcodeRet r then Ok None
          else last_push_loop fuel (pcRet r) (vchRet r)
      end
  end.
Definition GetSigOpCount_P2SH {E} (scriptPubKey scriptSig : list Z) : outcome E Z :=
  if negb (IsPayToScriptHash scriptPubKey) then GetSigOpCount scriptPubKey true
  else
    data ← last_push_loop (length scriptSig) scriptSig [];
    match data with None => Ok 0 | Some subscript => GetSigOpCount subscript true end.

(** [CScript::IsNormalPaymentScript] *)
Fixpoint IsNormalPaymentScript_loop {E} (fuel : nat) (pc : list Z) (i : Z) : outcome E bool :=
  match pc with
  | [] => Ok true
  | _ =>
      match fuel with
      | O => OutOfFuel
      | S fuel =>
          let r := GetOp2 pc in
          let opcode := opcodeRet r in
          if (i =? 0) && negb (opcode =? OP_DUP) then Ok false
          else if (i =? 1) && negb (opcode =? OP_HASH160) then Ok false
          else if (i =? 3) && negb (opcode =? OP_EQUALVERIFY) then Ok false
          else if (i =? 4) && negb (opcode =? OP_CHECKSIG) then Ok false
          else if i =? 5 then Ok false
          else IsNormalPaymentScript_loop fuel (pcRet r) (i + 1)
      end
  end.
Definition IsNormalPaymentScript {E} (script : list Z) : outcome E bool :=
  if negb (size script =? 25) then Ok false
  else IsNormalPaymentScript_loop (length script) script 0.

(** [CScript::IsPushOnly] *)
Fixpoint IsPushOnly_loop {E} (fuel : nat) (pc : list Z) : outcome E bool :=
  match pc with
  | [] => Ok true
  | _ =>
      match fuel with
      | O => OutOfFuel
      | S fuel =>
          let r := GetOp2 pc in
          if negb (fRet r) then Ok false
          else if OP_16 <? opcodeRet r then Ok false
          else IsPushOnly_loop fuel (pcRet r)
      end
  end.
Definition IsPushOnly {E} (script : list Z) : outcome E bool := IsPushOnly_loop (length script) script.

Definition IsUnspendable (script : list Z) : bool :=
  match script with [] => false | b :: _ => b =? OP_RETURN end.

(** [CScript::Find] *)
Fixpoint Find_loop {E} (fuel : nat) (op : Z) (pc : list Z) (nFound : Z) : outcome E Z :=
  match pc with
  | [] => Ok nFound
  | _ =>
      match fuel with
      | O => OutOfFuel
      | S fuel =>
          let r := GetOp2 pc in
          if fRet r then Find_loop fuel op (pcRet r) (if opcodeRet r =? op then nFound + 1 else nFound)
          else Ok nFound
      end
  end.
Definition Find {E} (op : Z) (script : list Z) : outcome E Z := Find_loop (length script) op script 0.

(** [CScript::FindAndDelete].  The inner loop erases occurrences of [b] at the
    iterator; the outer loop steps over one instruction.  [pre] is the part of
    the script before the iterator. *)
Definition starts_with (b pc : list Z) : bool :=
  bool_decide (take (length b) pc = b).
Fixpoint erase_loop {E} (fuel : nat) (b pc : list Z) (nFound : Z) : outcome E (list Z * Z) :=
  if starts_with b pc then
    match fuel with
    | O => OutOfFuel
    | S fuel => erase_loop fuel b (drop (length b) pc) (nFound + 1)
    end
  else Ok (pc, nFound).
Fixpoint FindAndDelete_loop {E} (fuel : nat) (b pre pc : list Z) (nFound : Z) : outcome E (list Z * Z) :=
  match fuel with
  | O => OutOfFuel
  | S fuel =>
      '(pc, nFound) ← erase_loop (length pc) b pc nFound;
      let r := GetOp2 pc in
      if fRet r
      then FindAndDelete_loop fuel b (pre ++ take (length pc - length (pcRet r)) pc) (pcRet r) nFound
      else Ok (pre ++ pc, nFound)
  end.
Definition FindAndDelete {E} (script b : list Z) : outcome E (list Z * Z) :=
  match b with
  | [] => Ok (script, 0)
  | _ => FindAndDelete_loop (S (length script)) b [] script 0
  end.

(** ** The decoder consumes a non-empty prefix *)

Lemma push_size_inr opcode pc n rest :
  push_size opcode pc = inr (n, rest) → ∃ c, pc = c ++ rest ∧ (length c ≤ 4)%nat.
Proof.
  unfold push_size. repeat case_match; intros [= <- <-]; subst.
  all: first [eexists []; split; [reflexivity|simpl; lia] | eexists [_]; split; [reflexivity|simpl; lia]
    | eexists [_; _]; split; [reflexivity|simpl; lia]
    | eexists [_; _; _; _]; split; [reflexivity|simpl; lia]].
Qed.

Lemma GetOp2_consumes pc :
  fRet (GetOp2 pc) = true → ∃ c, c ≠ [] ∧ pc = c ++ pcRet (GetOp2 pc).
Proof.
  unfold GetOp2. destruct pc as [|opcode pc]; [done|].
  destruct (opcode <=? OP_PUSHDATA4).
  - destruct (push_size opcode pc) as [pc'|[n pc']] eqn:E; [done|].
    destruct (_ <? _); [done|]. intros _. cbn [pcRet].
    apply push_size_inr in E as (c & -> & _).
    exists (opcode :: c ++ take (Z.to_nat n) pc'). split; [done|].
    by rewrite <- app_comm_cons, <- app_assoc, take_drop.
  - intros _. by exists [opcode].
Qed.

Lemma GetOp2_shorter pc : fRet (GetOp2 pc) = true → (length (pcRet (GetOp2 pc)) < length pc)%nat.
Proof.
  intros H. destruct (GetOp2_consumes pc H) as (c & Hc & E).
  rewrite E at 2. rewrite length_app. destruct c; [done|simpl; lia].
Qed.

Lemma GetOp2_fail pc : fRet (GetOp2 pc) = false → opcodeRet (GetOp2 pc) = OP_INVALIDOPCODE.
Proof. unfold GetOp2. repeat case_match; done. Qed.

Lemma GetOp2_not_longer pc : (length (pcRet (GetOp2 pc)) ≤ length pc - 1)%nat.
Proof.
  destruct (fRet (GetOp2 pc)) eqn:E; [pose proof (GetOp2_shorter _ E); lia|].
  unfold GetOp2 in *. destruct pc as [|opcode pc]; [simpl; lia|]. cbn [length].
  destruct (opcode <=? OP_PUSHDATA4); [|done].
  destruct (push_size opcode pc) as [pc'|[n pc']] eqn:Es; cbn [pcRet] in *.
  - unfold push_size in Es. repeat case_match; simplify_eq; simpl; lia.
  - apply push_size_inr in Es as (c & -> & _). destruct (_ <? _); [cbn [pcRet]|done].
    rewrite length_app. lia.
Qed.


Lemma push_size_inr_any opcode pc n rest :
  push_size opcode pc = inr (n, rest) →
  ∃ c, pc = c ++ rest ∧ ∀ t, push_size opcode (c ++ t) = inr (n, t).
Proof.
  unfold push_size.
  destruct (opcode <? OP_PUSHDATA1); [intros [= <- <-]; by exists []|].
  destruct (opcode =? OP_PUSHDATA1).
  { destruct pc as [|x pc]; [done|]. intros [= <- <-]. by exists [x]. }
  destruct (opcode =? OP_PUSHDATA2).
  { destruct pc as [|x [|y pc]]; try done. intros [= <- <-]. by exists [x; y]. }
  destruct pc as [|x [|y [|z [|w pc]]]]; try done. intros [= <- <-]. by exists [x; y; z; w].
Qed.

Lemma u32_le z : 0 ≤ z → u32 z ≤ z.
Proof. intros. by apply Z.mod_le. Qed.
Lemma u32_nonneg z : 0 ≤ u32 z.
Proof. by apply Z.mod_pos_bound. Qed.

(** What [GetOp2] reads depends only on the bytes it consumes. *)
Lemma GetOp2_local pc :
  fRet (GetOp2 pc) = true →
  ∃ c, c ≠ [] ∧ pc = c ++ pcRet (GetOp2 pc) ∧
    ∀ t, size (c ++ t) < 2 ^ 32 →
      GetOp2 (c ++ t) = OpRead true (opcodeRet (GetOp2 pc)) (vchRet (GetOp2 pc)) t.
Proof.
  unfold GetOp2 at 1 2 4 5. destruct pc as [|opcode pc]; [done|].
  destruct (opcode <=? OP_PUSHDATA4) eqn:Eop.
  - destruct (push_size opcode pc) as [pc'|[n pc']] eqn:E; [done|].
    destruct (Z.ltb_spec (u32 (size pc')) n) as [|Hn]; [done|]. intros _. cbn [pcRet opcodeRet vchRet].
    apply push_size_inr_any in E as (c & -> & Hc).
    assert (Z.of_nat (length (take (Z.to_nat n) pc')) = Z.max 0 n) as Hl.
    { pose proof (u32_le (size pc')). unfold size in *. rewrite length_take. lia. }
    exists (opcode :: c ++ take (Z.to_nat n) pc'). split_and!; [done| |].
    + by rewrite <- app_comm_cons, <- app_assoc, take_drop.
    + intros t Ht. unfold GetOp2. rewrite <- app_comm_cons, Eop, <- app_assoc, Hc.
      unfold size in *. rewrite <- app_comm_cons in Ht. cbn [length] in Ht. rewrite !length_app in Ht.
      rewrite u32_id by (unfold is_u; rewrite length_app; lia).
      rewrite (proj2 (Z.ltb_ge _ _)) by (rewrite length_app; lia).
      set (tk := take (Z.to_nat n) pc') in *. clearbody tk.
      replace (Z.to_nat n) with (length tk) by lia.
      by rewrite take_app_length, drop_app_length.
  - intros _. exists [opcode]. split_and!; [done..|]. intros t _. cbn [app]. unfold GetOp2. by rewrite Eop.
Qed.

(** A byte string that is one instruction. *)
Definition is_instr (b : list Z) : Prop := fRet (GetOp2 b) = true ∧ pcRet (GetOp2 b) = [].

Lemma GetOp2_instr b t :
  is_instr b → size (b ++ t) < 2 ^ 32 →
  GetOp2 (b ++ t) = OpRead true (opcodeRet (GetOp2 b)) (vchRet (GetOp2 b)) t.
Proof.
  intros [Hr Hp] Hs. destruct (GetOp2_local b Hr) as (c & _ & E & Hc).
  rewrite Hp, app_nil_r in E. subst c. by apply Hc.
Qed.

(** The opcode [operator<<(vector)] chooses for a size. *)
Definition push_op (n : Z) : Z :=
  if n <? OP_PUSHDATA1 then n
  else if n <=? 0xff then OP_PUSHDATA1
  else if n <=? 0xffff then OP_PUSHDATA2
  else OP_PUSHDATA4.

Lemma push_op_bound n : 0 ≤ n → 0 ≤ push_op n ≤ OP_PUSHDATA4.
Proof. unfold push_op, OP_PUSHDATA1, OP_PUSHDATA2, OP_PUSHDATA4. intros. repeat case_match; lia. Qed.

(** [operator<<(vector)] writes one instruction that [GetOp2] reads back. *)
Lemma GetOp2_push_data b rest :
  size (push_data b ++ rest) < 2 ^ 32 →
  GetOp2 (push_data b ++ rest) = OpRead true (push_op (size b)) b rest.
Proof.
  unfold push_data, push_op, GetOp2, push_size, size. rewrite !length_app. intros Hs.
  assert (∀ o k, 0 ≤ k → k = Z.of_nat (length b) →
    (if u32 (Z.of_nat (length (b ++ rest))) <? k then OpRead false OP_INVALIDOPCODE [] (b ++ rest)
     else OpRead true o (take (Z.to_nat k) (b ++ rest)) (drop (Z.to_nat k) (b ++ rest)))
    = OpRead true o b rest) as Htail.
  { intros o k Hk ->. rewrite u32_id by (unfold is_u; rewrite length_app; lia).
    rewrite (proj2 (Z.ltb_ge _ _)) by (rewrite length_app; lia).
    by rewrite Nat2Z.id, take_app_length, drop_app_length. }
  destruct (Z.ltb_spec (Z.of_nat (length b)) OP_PUSHDATA1) as [H1|H1];
    [|destruct (Z.leb_spec (Z.of_nat (length b)) 0xff) as [H2|H2];
      [|destruct (Z.leb_spec (Z.of_nat (length b)) 0xffff) as [H3|H3]]].
  - cbn [app]. rewrite (proj2 (Z.leb_le _ _)) by (unfold OP_PUSHDATA1, OP_PUSHDATA4 in *; lia).
    rewrite (proj2 (Z.ltb_lt _ OP_PUSHDATA1)) by done. apply Htail; lia.
  - cbn [app].
    change (OP_PUSHDATA1 <=? OP_PUSHDATA4) with true. change (OP_PUSHDATA1 <? OP_PUSHDATA1) with false.
    change (OP_PUSHDATA1 =? OP_PUSHDATA1) with true. cbv iota. apply Htail; lia.
  - cbn [le_bytes app].
    change (OP_PUSHDATA2 <=? OP_PUSHDATA4) with true. change (OP_PUSHDATA2 <? OP_PUSHDATA1) with false.
    change (OP_PUSHDATA2 =? OP_PUSHDATA1) with false. change (OP_PUSHDATA2 =? OP_PUSHDATA2) with true. cbv iota.
    change [Z.of_nat (length b) mod 256; Z.of_nat (length b) / 256 mod 256]
      with (le_bytes 2 (Z.of_nat (length b))).
    rewrite le_value_le_bytes. rewrite Z.mod_small by lia. apply Htail; lia.
  - cbn [le_bytes app].
    change (OP_PUSHDATA4 <=? OP_PUSHDATA4) with true. change (OP_PUSHDATA4 <? OP_PUSHDATA1) with false.
    change (OP_PUSHDATA4 =? OP_PUSHDATA1) with false. change (OP_PUSHDATA4 =? OP_PUSHDATA2) with false. cbv iota.
    match goal with |- context [le_value ?l] => change l with (le_bytes 4 (Z.of_nat (length b))) end.
    rewrite le_value_le_bytes, Z.mod_small by lia. apply Htail; lia.
Qed.
Lemma push_data_20 h : size h = 20 → push_data h = 20 :: h.
Proof. intros H. unfold push_data. by rewrite H. Qed.

(** ** FindAndDelete removes instructions *)

(** [pc] decodes into the instructions [ops], with an undecodable [tail]. *)
Inductive decodes : list Z → list (list Z) → list Z → Prop :=
| decodes_end pc : fRet (GetOp2 pc) = false → decodes pc [] pc
| decodes_op c pc ops tail :
    fRet (GetOp2 (c ++ pc)) = true → pcRet (GetOp2 (c ++ pc)) = pc →
    decodes pc ops tail → decodes (c ++ pc) (c :: ops) tail.

Lemma decodes_total pc : ∃ ops tail, decodes pc ops tail.
Proof.
  remember (length pc) as n eqn:En. revert pc En.
  induction n as [n IH] using lt_wf_ind. intros pc ->.
  destruct (fRet (GetOp2 pc)) eqn:E; [|by exists [], pc; constructor].
  pose proof (GetOp2_shorter pc E) as Hlt. destruct (GetOp2_consumes pc E) as (c & _ & Hc).
  destruct (IH _ Hlt _ eq_refl) as (ops & tail & Hd).
  exists (c :: ops), tail. remember (pcRet (GetOp2 pc)) as rest eqn:Er. subst pc.
  by constructor.
Qed.

Lemma decodes_concat pc ops tail : decodes pc ops tail → pc = concat ops ++ tail.
Proof. induction 1 as [|c pc ops tail _ _ _ IH]; [done|]. simpl. by rewrite <- app_assoc, <- IH. Qed.

Lemma starts_with_spec b pc : starts_with b pc = true ↔ ∃ t, pc = b ++ t.
Proof.
  unfold starts_with. rewrite bool_decide_eq_true. split.
  - intros H. exists (drop (length b) pc). rewrite <- H at 1. by rewrite take_drop.
  - intros [t ->]. by rewrite take_app_length.
Qed.

Lemma erase_loop_enough {E} b pc n f1 f2 :
  b ≠ [] → (length pc ≤ f1)%nat → (length pc ≤ f2)%nat →
  erase_loop (E:=E) f1 b pc n = erase_loop f2 b pc n.
Proof.
  intros Hb. revert pc n f2. induction f1 as [|f1 IH]; intros pc n f2 H1 H2.
  - destruct pc; [|simpl in H1; lia]. destruct b; [done|]. by destruct f2.
  - destruct f2 as [|f2].
    + destruct pc; [|simpl in H2; lia]. by destruct b.
    + cbn [erase_loop]. destruct (starts_with b pc) eqn:Es; [|done].
      apply starts_with_spec in Es as [t ->]. rewrite drop_app_length.
      rewrite length_app in *. destruct b; [done|]. simpl in *. apply IH; lia.
Qed.

Lemma erase_loop_step {E} b t n :
  b ≠ [] → erase_loop (E:=E) (length (b ++ t)) b (b ++ t) n = erase_loop (length t) b t (n + 1).
Proof.
  intros Hb. destruct (length (b ++ t)) as [|f] eqn:El; [by destruct b|].
  cbn [erase_loop]. rewrite (proj2 (starts_with_spec b (b ++ t))) by eauto. rewrite drop_app_length.
  rewrite length_app in El. destruct b; [done|]. simpl in El. apply erase_loop_enough; [done|lia|lia].
Qed.

Lemma erase_loop_skip {E} b pc n f :
  starts_with b pc = false → erase_loop (E:=E) f b pc n = Ok (pc, n).
Proof. intros H. destruct f; cbn [erase_loop]; by rewrite H. Qed.

Lemma FindAndDelete_loop_spec {E} b pc ops tail :
  is_instr b → size pc < 2 ^ 32 → decodes pc ops tail →
  ∀ fuel pre n, (length ops < fuel)%nat →
  FindAndDelete_loop (E:=E) fuel b pre pc n =
    Ok (pre ++ concat (filter (.≠ b) ops) ++ tail, n + Z.of_nat (length (filter (.= b) ops))).
Proof.
  intros Hb Hs Hd. assert (b ≠ []) as Hb0 by (by intros ->; destruct Hb).
  induction Hd as [pc Hf|c pc ops tail Hr Hp Hd IH]; intros fuel pre n Hfuel.
  - destruct fuel as [|fuel]; [simpl in Hfuel; lia|]. cbn [FindAndDelete_loop].
    rewrite erase_loop_skip; [cbn; by rewrite Hf, Z.add_0_r|].
    destruct (starts_with b pc) eqn:E'; [|done]. apply starts_with_spec in E' as [t ->].
    by rewrite GetOp2_instr in Hf.
  - assert (size pc < 2 ^ 32) as Hs' by (unfold size in *; rewrite length_app in Hs; lia).
    specialize (IH Hs'). cbn [length] in Hfuel.
    destruct (decide (c = b)) as [->|Hne].
    + rewrite filter_cons_False by naive_solver. rewrite filter_cons_True by done.
      destruct fuel as [|fuel]; [lia|]. specialize (IH (S fuel) pre (n + 1)).
      cbn [FindAndDelete_loop] in IH |- *. rewrite erase_loop_step by done.
      rewrite IH by lia. cbn [length]. do 2 f_equal. lia.
    + rewrite filter_cons_True by done. rewrite filter_cons_False by done.
      destruct fuel as [|fuel]; [lia|]. cbn [FindAndDelete_loop]. rewrite erase_loop_skip.
      * cbn [mbind outcome_bind]. rewrite Hr, Hp, IH by lia.
        rewrite length_app, Nat.add_sub, take_app_length. cbn [concat]. by rewrite <- !app_assoc.
      * destruct (starts_with b (c ++ pc)) eqn:E'; [|done]. apply starts_with_spec in E' as [t Et].
        rewrite Et, GetOp2_instr in Hp by (by rewrite <- Et || done). cbn [pcRet] in Hp. subst t.
        by apply app_inv_tail in Et.
Qed.

Lemma decodes_length pc ops tail : decodes pc ops tail → (length ops ≤ length pc)%nat.
Proof.
  induction 1 as [|c pc ops tail Hr Hp _ IH]; [simpl; lia|].
  pose proof (GetOp2_shorter _ Hr) as H. rewrite Hp in H. simpl. lia.
Qed.

(** Deleting one instruction [b] (a pushed signature, [OP_CODESEPARATOR])
    from a script removes exactly the instructions equal to [b], at instruction
    boundaries only, keeps the others and an undecodable tail in order, counts
    the removed ones, and always terminates. *)
Theorem FindAndDelete_filters (script b : list Z) ops tail :
  is_instr b → size script < 2 ^ 32 → decodes script ops tail →
  FindAndDelete (E:=unit) script b =
    Ok (concat (filter (.≠ b) ops) ++ tail, Z.of_nat (length (filter (.= b) ops))).
Proof.
  intros Hb Hs Hd. unfold FindAndDelete. destruct b as [|x b]; [by destruct Hb|].
  pose proof (decodes_length _ _ _ Hd) as Hl.
  rewrite (FindAndDelete_loop_spec _ _ ops tail) by (done || lia).
  by rewrite Z.add_0_l.
Qed.

Lemma FindAndDelete_filters_witness :
  FindAndDelete (E:=unit) (push_data [7; 1] ++ [OP_DUP] ++ push_data [7; 1] ++ [2; 2; 7]) (push_data [7; 1])
  = Ok ([OP_DUP; 2; 2; 7], 2).
Proof.
  refine (FindAndDelete_filters _ _ [push_data [7; 1]; [OP_DUP]; push_data [7; 1]; [2; 2; 7]] [] _ _ _).
  - by vm_compute.
  - by vm_compute.
  - apply (decodes_op (push_data [7; 1]) ([OP_DUP] ++ push_data [7; 1] ++ [2; 2; 7])); [done..|].
    apply (decodes_op [OP_DUP] (push_data [7; 1] ++ [2; 2; 7])); [done..|].
    apply (decodes_op (push_data [7; 1]) [2; 2; 7]); [done..|].
    apply (decodes_op [2; 2; 7] []); [done..|]. by constructor.
Defined.

(** ** The scans return *)

Lemma IsPushOnly_loop_ok {E} fuel pc :
  (length pc ≤ fuel)%nat → ∃ b, IsPushOnly_loop (E:=E) fuel pc = Ok b.
Proof.
  revert pc. induction fuel as [|fuel IH]; intros [|x pc] Hf; simpl in Hf; try lia; try by eexists.
  cbn [IsPushOnly_loop]. destruct (fRet (GetOp2 (x :: pc))) eqn:Er; [|by eexists].
  destruct (_ <? _); [by eexists|]. apply IH. pose proof (GetOp2_shorter _ Er). simpl in *. lia.
Qed.

Lemma IsPushOnly_ok {E} script : ∃ b, IsPushOnly (E:=E) script = Ok b.
Proof. by apply IsPushOnly_loop_ok. Qed.

Lemma erase_loop_ok {E} b pc n :
  b ≠ [] → ∃ pc' n', erase_loop (E:=E) (length pc) b pc n = Ok (pc', n') ∧ (length pc' ≤ length pc)%nat.
Proof.
  intros Hb. remember (length pc) as k eqn:Ek. revert pc n Ek.
  induction k as [k IH] using lt_wf_ind. intros pc n ->.
  destruct (starts_with b pc) eqn:Es.
  - apply starts_with_spec in Es as [t ->]. rewrite erase_loop_step by done.
    destruct (IH (length t)) with (pc := t) (n := n + 1) as (pc' & n' & -> & Hl); [|done|].
    { rewrite length_app. destruct b; [done|simpl; lia]. }
    exists pc', n'. split; [done|]. rewrite length_app. lia.
  - rewrite erase_loop_skip by done. by exists pc, n.
Qed.

Lemma FindAndDelete_loop_ok {E} b fuel pre pc n :
  b ≠ [] → (length pc < fuel)%nat → ∃ r, FindAndDelete_loop (E:=E) fuel b pre pc n = Ok r.
Proof.
  intros Hb. revert pre pc n. induction fuel as [|fuel IH]; intros pre pc n Hf; [lia|].
  cbn [FindAndDelete_loop]. destruct (erase_loop_ok (E:=E) b pc n Hb) as (pc' & n' & -> & Hl).
  cbn [mbind outcome_bind]. destruct (fRet (GetOp2 pc')) eqn:Er; [|by eexists].
  apply IH. pose proof (GetOp2_shorter _ Er). lia.
Qed.

Lemma FindAndDelete_ok {E} script b : ∃ r, FindAndDelete (E:=E) script b = Ok r.
Proof.
  unfold FindAndDelete. destruct b as [|x b]; [by eexists|].
  apply FindAndDelete_loop_ok; [done|lia].
Qed.

Lemma GetSigOpCount_loop_ok {E} fuel acc pc lastOpcode n :
  (length pc ≤ fuel)%nat → 0 ≤ n → n + 20 * size pc < 2 ^ 32 →
  ∃ r, GetSigOpCount_loop (E:=E) fuel acc pc lastOpcode n = Ok r ∧ n ≤ r ≤ n + 20 * size pc.
Proof.
  revert pc lastOpcode n. induction fuel as [|fuel IH]; intros [|x pc] lastOpcode n Hf Hn Hs;
    cbn [length] in Hf; try lia; try (eexists; split; [done|unfold size in *; simpl in *; lia]).
  cbn [GetSigOpCount_loop]. remember (x :: pc) as p eqn:Ep.
  destruct (fRet (GetOp2 p)) eqn:Er; [|exists n; split; [done|unfold size in *; lia]].
  pose proof (GetOp2_shorter _ Er) as Hlt. assert (length p = S (length pc)) by (by subst).
  assert (∀ k, 0 ≤ k ≤ 20 → ∃ r,
    GetSigOpCount_loop (E:=E) fuel acc (pcRet (GetOp2 p)) (opcodeRet (GetOp2 p)) (u32 (n + k)) = Ok r ∧
    n ≤ r ≤ n + 20 * size p) as Hk.
  { intros k Hk. unfold size in *. rewrite u32_id by (unfold is_u; lia).
    destruct (IH (pcRet (GetOp2 p)) (opcodeRet (GetOp2 p)) (n + k)) as (r & -> & Hr); [lia..|].
    exists r. split; [done|lia]. }
  destruct (_ || _); [by apply Hk|]. destruct (_ || _).
  - destruct (acc && (OP_1 <=? lastOpcode) && (lastOpcode <=? OP_16)) eqn:E1; [|by apply Hk].
    apply andb_true_iff in E1 as [E1 E3]. apply andb_true_iff in E1 as [_ E2].
    unfold DecodeOP_N. rewrite E2, E3. apply Z.leb_le in E2, E3. unfold OP_1, OP_16, OP_0 in *.
    rewrite (proj2 (Z.eqb_neq lastOpcode 0)) by lia. cbn. apply Hk. lia.
  - destruct (Hk 0) as (r & Hr & Hb); [lia|]. rewrite Z.add_0_r, u32_id in Hr by (unfold is_u, size in *; lia).
    by exists r.
Qed.

Lemma last_push_loop_ok {E} fuel pc data :
  (length pc ≤ fuel)%nat → ∃ r, last_push_loop (E:=E) fuel pc data = Ok r ∧
    ∀ d, r = Some d → (length d ≤ Nat.max (length data) (length pc))%nat.
Proof.
  revert pc data. induction fuel as [|fuel IH]; intros [|x pc] data Hf; cbn [length] in Hf; try lia;
    try (eexists; split; [done|intros d [= <-]; simpl; lia]).
  cbn [last_push_loop]. remember (x :: pc) as p eqn:Ep.
  destruct (fRet (GetOp2 p)) eqn:Er; [|by eexists]. destruct (_ <? _); [by eexists|].
  pose proof (GetOp2_shorter _ Er). assert (length p = S (length pc)) by (by subst).
  destruct (IH (pcRet (GetOp2 p)) (vchRet (GetOp2 p))) as (r & -> & Hr); [lia|].
  exists r. split; [done|]. intros d Hd. specialize (Hr d Hd).
  assert (length (vchRet (GetOp2 p)) ≤ length p)%nat; [|lia].
  clear. unfold GetOp2. destruct p as [|o q]; [simpl; lia|].
  destruct (o <=? OP_PUSHDATA4); [|simpl; lia].
  destruct (push_size o q) as [q'|[n q']] eqn:Es; [simpl; lia|].
  destruct (_ <? _); [simpl; lia|]. cbn [vchRet]. apply push_size_inr in Es as (c & -> & _).
  cbn [length]. rewrite length_take, length_app. lia.
Qed.

(** Counting signature operations always gives a result -- the assertion of
    [DecodeOP_N] cannot fail -- of at most 20 per byte, both for a script alone
    and for the pay-to-script-hash redeem script that the input pushes last. *)
Theorem GetSigOpCount_bounded (script scriptSig : list Z) fAccurate :
  size script < 2 ^ 27 → size scriptSig < 2 ^ 27 →
  (∃ n, GetSigOpCount (E:=unit) script fAccurate = Ok n ∧ 0 ≤ n ≤ 20 * size script) ∧
  (∃ n, GetSigOpCount_P2SH (E:=unit) script scriptSig = Ok n ∧ 0 ≤ n ≤ 20 * Z.max (size script) (size scriptSig)).
Proof.
  intros Hs1 Hs2.
  assert (∀ s acc, size s < 2 ^ 27 → ∃ n, GetSigOpCount (E:=unit) s acc = Ok n ∧ 0 ≤ n ≤ 20 * size s) as H.
  { intros s acc Hs. destruct (GetSigOpCount_loop_ok (E:=unit) (length s) acc s OP_INVALIDOPCODE 0) as (n & Hn & Hb);
      [done|lia|unfold size in *; lia|]. exists n. split; [done|lia]. }
  split; [by apply H|]. unfold GetSigOpCount_P2SH. destruct (negb _).
  - destruct (H script true Hs1) as (n & -> & Hn). exists n. split; [done|lia].
  - destruct (last_push_loop_ok (E:=unit) (length scriptSig) scriptSig []) as (r & -> & Hr); [done|].
    cbn [mbind outcome_bind]. destruct r as [d|]; [|exists 0; split; [done|unfold size; lia]].
    specialize (Hr d eq_refl). cbn [length] in Hr.
    destruct (H d true) as (n & -> & Hn); [unfold size in *; lia|].
    exists n. split; [done|unfold size in *; lia].
Qed.

Lemma GetSigOpCount_bounded_witness :
  ∃ n, GetSigOpCount (E:=unit) [OP_3; OP_CHECKMULTISIG; OP_CHECKSIG] true = Ok n ∧ 0 ≤ n ≤ 60.
Proof. apply (GetSigOpCount_bounded [OP_3; OP_CHECKMULTISIG; OP_CHECKSIG] [] true); done. Defined.

(** ** Script numbers *)

Lemma back_snoc ds t : back (ds ++ [t]) = t.
Proof. unfold back. rewrite length_app, Nat.add_sub, app_nth2, Nat.sub_diag by lia. done. Qed.

Lemma abs_bytes_spec fuel a :
  0 ≤ a < 256 ^ Z.of_nat fuel →
  le_value (abs_bytes fuel a) = a ∧ bytes_ok (abs_bytes fuel a) ∧
  (0 < a → ∃ ds t, abs_bytes fuel a = ds ++ [t] ∧ 0 < t).
Proof.
  revert a. induction fuel as [|fuel IH]; intros a Ha.
  { change (256 ^ Z.of_nat 0) with 1 in Ha. split_and!; [simpl; lia|constructor|lia]. }
  rewrite pow256_succ in Ha. cbn [abs_bytes]. rewrite land_ff, shiftr_div by lia. change (2 ^ 8) with 256.
  destruct (Z.eqb_spec a 0); [split_and!; [done|constructor|lia]|].
  pose proof (Z.mod_pos_bound a 256 ltac:(lia)). pose proof (Z.div_mod a 256 ltac:(lia)).
  assert (0 ≤ a / 256 < 256 ^ Z.of_nat fuel) as Hd.
  { split; [apply Z.div_pos; lia|apply Z.div_lt_upper_bound; lia]. }
  destruct (IH _ Hd) as (Hv & Hb & Ht). cbn [le_value]. split_and!; [lia|by constructor|].
  intros _. destruct (Z.eqb_spec (a / 256) 0) as [E|].
  - exists [], (a mod 256). split; [|lia]. rewrite E. by destruct fuel.
  - destruct Ht as (ds & t & E & ?); [lia|]. exists (a mod 256 :: ds), t. by rewrite E.
Qed.

Lemma abs_bytes_le_value fuel ds t :
  bytes_ok (ds ++ [t]) → 0 < t → (length ds < fuel)%nat →
  abs_bytes fuel (le_value (ds ++ [t])) = ds ++ [t].
Proof.
  revert fuel. induction ds as [|d ds IH]; intros [|fuel] Hb Ht Hf; simpl in Hf; try lia.
  - apply Forall_cons_1 in Hb as [Hb _]. unfold is_byte in Hb. cbn [app le_value abs_bytes].
    replace (t + 256 * 0) with t by lia.
    rewrite (proj2 (Z.eqb_neq t 0)), land_ff, shiftr_div by lia. change (2 ^ 8) with 256.
    rewrite (Z.mod_small t), (Z.div_small t) by lia. by destruct fuel.
  - rewrite <- app_comm_cons in *. apply Forall_cons_1 in Hb as [Hd Hb].
    cbn [le_value abs_bytes]. pose proof (le_value_app ds [t]) as E. cbn [le_value] in E.
    assert (bytes_ok ds) as Hds by (by apply Forall_app in Hb as [? _]).
    pose proof (le_value_bound ds Hds). pose proof (pow256_pos (length ds)). unfold is_byte in Hd.
    rewrite (proj2 (Z.eqb_neq _ _)), land_ff, shiftr_div by nia. change (2 ^ 8) with 256.
    rewrite (Z.mul_comm 256), Z.mod_add, Z.div_add, Z.mod_small, Z.div_small by lia.
    rewrite Z.add_0_l, IH by (done || lia). done.
Qed.

Lemma set_vch_loop_spec vch i r :
  bytes_ok vch → 0 ≤ i → 0 ≤ r < 2 ^ (8 * i) → i + size vch ≤ 7 →
  set_vch_loop i vch r = r + 2 ^ (8 * i) * le_value vch.
Proof.
  revert i r. induction vch as [|b vch IH]; intros i r Hb Hi Hr Hl; [cbn -[Z.mul]; lia|].
  apply Forall_cons_1 in Hb as [Hbb Hb]. unfold is_byte in Hbb. unfold size in *. cbn [length] in Hl.
  assert (0 < 2 ^ (8 * i)) by lia. assert (2 ^ (8 * (i + 1)) = 256 * 2 ^ (8 * i)) as E.
  { replace (8 * (i + 1)) with (8 + 8 * i) by lia. by rewrite Z.pow_add_r by lia. }
  assert (2 ^ (8 * (i + 1)) ≤ 2 ^ 56) by (apply Z.pow_le_mono_r; lia).
  cbn [set_vch_loop le_value].
  rewrite s64_id by (rewrite Z.shiftl_mul_pow2 by lia; unfold is_s; nia).
  rewrite lor_shiftl_add by lia. rewrite IH by (done || nia). nia.
Qed.

(** The number a non-empty vector of at most 4 bytes stands for: the magnitude
    little-endian, the sign in the top bit. *)
Lemma set_vch_snoc ds t :
  bytes_ok (ds ++ [t]) → (length ds ≤ 3)%nat →
  set_vch (ds ++ [t]) =
    (if t <? 128 then 1 else -1) * (le_value ds + 256 ^ Z.of_nat (length ds) * (t mod 128)).
Proof.
  intros Hb Hl. unfold set_vch. destruct (ds ++ [t]) as [|x l] eqn:E; [by destruct ds|]. rewrite <- E in *. clear E x l.
  rewrite set_vch_loop_spec by (try done; unfold size; rewrite ?length_app; simpl; lia).
  rewrite back_snoc. apply Forall_app in Hb as [Hds Ht]. apply Forall_cons_1 in Ht as [Ht _].
  pose proof (le_value_bound ds Hds) as Hv. pose proof (pow256_pos (length ds)) as Hp.
  rewrite le_value_app. cbn [le_value]. unfold flag. rewrite land_80 by done.
  unfold size. rewrite length_app, Nat2Z.inj_add, Z.add_simpl_r.
  change 256 with (2 ^ 8) in *. rewrite <- !Z.pow_mul_r in * by lia.
  assert (2 ^ (8 * Z.of_nat (length ds)) ≤ 2 ^ 24) by (apply Z.pow_le_mono_r; lia).
  unfold is_byte in Ht. change (8 * 0) with 0. rewrite Z.pow_0_r.
  set (P := 2 ^ (8 * Z.of_nat (length ds))) in *. set (V := le_value ds) in *.
  destruct (Z.ltb_spec t 128); cbn [Z.eqb negb].
  - rewrite Z.mod_small by lia. lia.
  - change 0x80 with 128. rewrite <- (Z.mod_unique t 128 1 (t - 128)) by lia.
    assert (Z.land (u64 (0 + 1 * (V + P * (t + 2 ^ 8 * 0)))) (u64 (Z.lnot (u64 (Z.shiftl 128 (8 * Z.of_nat (length ds))))))
      = V + P * (t - 128)) as ->; [|rewrite s64_id by (unfold is_s; nia); lia].
    rewrite Z.shiftl_mul_pow2 by lia. fold P. rewrite (u64_id (128 * P)) by (unfold is_u; nia).
    rewrite u64_id by (unfold is_u; nia).
    replace (0 + 1 * (V + P * (t + 2 ^ 8 * 0))) with ((V + P * (t - 128)) + 1 * (128 * P)) by lia.
    replace (128 * P) with (2 ^ (7 + 8 * Z.of_nat (length ds))) by (rewrite Z.pow_add_r by lia; done).
    rewrite <- lor_shiftl_add by (rewrite ?Z.pow_add_r by lia; fold P; change (2 ^ 7) with 128; nia).
    set (k := 7 + 8 * Z.of_nat (length ds)). assert (0 ≤ k < 64) by lia.
    set (W := V + P * (t - 128)). assert (0 ≤ W < 2 ^ k) as HW by (unfold W, k; rewrite Z.pow_add_r by lia; fold P; change (2 ^ 7) with 128; nia).
    apply Z.bits_inj'. intros j Hj. unfold u64.
    rewrite Z.land_spec, Z.lor_spec, Z.shiftl_spec by done.
    destruct (Z.ltb_spec j 64).
    + rewrite Z.mod_pow2_bits_low, Z.lnot_spec, Z.pow2_bits_eqb by lia.
      destruct (Z.eqb_spec k j) as [<-|].
      * rewrite andb_false_r. rewrite <- (Z.mod_small W (2 ^ k)) by done. by rewrite Z.mod_pow2_bits_high by lia.
      * rewrite andb_true_r. destruct (Z.ltb_spec j k); [rewrite (Z.testbit_neg_r 1) by lia; by rewrite orb_false_r|].
        rewrite (Z.bits_above_log2 1); [by rewrite orb_false_r|lia|cbn; lia].
    + rewrite Z.mod_pow2_bits_high by lia. rewrite andb_false_r.
      rewrite <- (Z.mod_small W (2 ^ k)) by done. by rewrite Z.mod_pow2_bits_high by lia.
Qed.

Lemma nth_second_last ds t u : nth (length (ds ++ [t; u]) - 2) (ds ++ [t; u]) 0 = t.
Proof.
  rewrite length_app. replace (length ds + length [t; u] - 2)%nat with (length ds) by (simpl; lia).
  rewrite app_nth2, Nat.sub_diag by lia. done.
Qed.

Lemma bytes_ok_snoc ds t : bytes_ok ds → is_byte t → bytes_ok (ds ++ [t]).
Proof. intros. apply Forall_app. auto. Qed.

Lemma lor_80 t : 0 ≤ t < 128 → Z.lor t 0x80 = t + 128.
Proof. intros. pose proof (lor_shiftl_add t 1 7) as E. change (Z.shiftl 1 7) with 128 in E. by rewrite E by lia. Qed.

Lemma length_pow256 n k : 256 ^ Z.of_nat n < 256 ^ Z.of_nat k ↔ (n < k)%nat.
Proof. rewrite <- Z.pow_lt_mono_r_iff by lia. lia. Qed.

(** The encoding of a number whose magnitude has the digits [ds ++ [t]]. *)
Definition signed_digits (ds : list Z) (t : Z) (neg : bool) : list Z :=
  if t <? 128 then ds ++ [if neg then t + 128 else t] else ds ++ [t; if neg then 0x80 else 0].

Lemma num_serialize_digits n ds t :
  n ≠ 0 → is_s 64 n → bytes_ok (ds ++ [t]) → 0 < t → le_value (ds ++ [t]) = Z.abs n → (length ds < 8)%nat →
  num_serialize n = signed_digits ds t (n <? 0).
Proof.
  intros Hn Hs Hb Ht Hv Hl. unfold num_serialize, signed_digits. unfold is_s in Hs.
  rewrite (proj2 (Z.eqb_neq _ _)) by done.
  assert (u64 (if n <? 0 then - n else n) = Z.abs n) as ->.
  { destruct (Z.ltb_spec n 0); rewrite u64_id; unfold is_u; lia. }
  rewrite <- Hv, abs_bytes_le_value by (done || lia). rewrite back_snoc.
  apply Forall_app in Hb as [_ Hb]. apply Forall_cons_1 in Hb as [Htb _].
  unfold flag. rewrite land_80 by done. unfold is_byte in Htb.
  destruct (Z.ltb_spec t 128); cbn [Z.eqb negb].
  - rewrite length_app, Nat.add_sub, take_app_length. destruct (n <? 0); [|done]. by rewrite lor_80 by lia.
  - by rewrite <- app_assoc.
Qed.

Lemma digits_exist n : n ≠ 0 → is_s 64 n → ∃ ds t,
  bytes_ok (ds ++ [t]) ∧ 0 < t ∧ le_value (ds ++ [t]) = Z.abs n ∧ (length ds < 8)%nat.
Proof.
  intros Hn Hs. unfold is_s in Hs. destruct (abs_bytes_spec 8 (Z.abs n)) as (Hv & Hb & Ht); [cbn; lia|].
  destruct Ht as (ds & t & E & Ht); [lia|]. rewrite E in *. exists ds, t. split_and!; try done.
  apply length_pow256. rewrite le_value_app in Hv. cbn [le_value] in Hv.
  apply Forall_app in Hb as [Hb _]. pose proof (le_value_bound ds Hb).
  change (256 ^ Z.of_nat 8) with (2 ^ 64). nia.
Qed.

(** Decoding a signed digit string of at most 4 bytes. *)
Lemma CScriptNum_signed_digits ds t neg m :
  bytes_ok (ds ++ [t]) → 0 < t →
  let v := signed_digits ds t neg in
  CScriptNum v m = if 4 <? size v then Err ScriptNumOverflow
                   else Ok ((if neg then -1 else 1) * le_value (ds ++ [t])).
Proof.
  intros Hb Ht. cbn zeta. unfold CScriptNum, signed_digits, nMaxNumSize.
  pose proof Hb as Hb'. apply Forall_app in Hb' as [Hds Htb]. apply Forall_cons_1 in Htb as [Htb _].
  unfold is_byte in Htb. rewrite le_value_app. cbn [le_value].
  destruct (Z.ltb_spec t 128).
  - set (s := if neg then t + 128 else t). assert (is_byte s) by (unfold is_byte; destruct neg; lia).
    destruct (Z.ltb_spec 4 (size (ds ++ [s]))) as [|Hs]; [done|].
    unfold size in Hs. rewrite length_app in Hs. simpl in Hs.
    rewrite back_snoc, land_7f. assert (s mod 128 = t) as Es.
    { unfold s. destruct neg; [|apply Z.mod_small; lia]. symmetry. apply Z.mod_unique with 1; lia. }
    rewrite Es, (proj2 (Z.eqb_neq t 0)), andb_false_r by lia. cbn [andb].
    rewrite set_vch_snoc, Es by (by apply bytes_ok_snoc || lia).
    unfold s. destruct neg; [rewrite (proj2 (Z.ltb_ge _ _)) by lia|rewrite (proj2 (Z.ltb_lt _ _)) by lia]; f_equal; lia.
  - set (s := if neg then 0x80 else 0).
    destruct (Z.ltb_spec 4 (size (ds ++ [t; s]))) as [|Hs]; [done|].
    unfold size in *. rewrite nth_second_last. rewrite length_app in *. cbn [length] in *.
    rewrite land_80, (proj2 (Z.ltb_ge t 128)) by (done || lia). cbn [Z.eqb orb].
    rewrite (proj2 (Z.leb_gt _ 1)), andb_false_r by lia.
    replace (ds ++ [t; s]) with ((ds ++ [t]) ++ [s]) by (by rewrite <- app_assoc).
    rewrite set_vch_snoc; [|apply bytes_ok_snoc; [done|unfold s, is_byte; destruct neg; lia]|rewrite length_app; simpl; lia].
    rewrite le_value_app. cbn [le_value]. unfold s. destruct neg; cbn [Z.ltb Z.compare Z.modulo]; f_equal.
    + change (128 mod 128) with 0. change (128 <? 128) with false. cbv iota. lia.
    + change (0 mod 128) with 0. cbv iota. lia.
Qed.

Lemma signed_digits_size ds t neg :
  bytes_ok (ds ++ [t]) → 0 < t → (4 <? size (signed_digits ds t neg)) = negb (le_value (ds ++ [t]) <? 2 ^ 31).
Proof.
  intros Hb Ht. apply Forall_app in Hb as [Hds Htb]. apply Forall_cons_1 in Htb as [Htb _].
  unfold is_byte in Htb. rewrite le_value_app. cbn [le_value].
  pose proof (le_value_bound ds Hds) as Hv. pose proof (pow256_pos (length ds)).
  assert (∀ k, (k ≤ length ds)%nat → 256 ^ Z.of_nat k ≤ 256 ^ Z.of_nat (length ds)) as Hge
    by (intros; apply Z.pow_le_mono_r; lia).
  assert (∀ k, (length ds ≤ k)%nat → 256 ^ Z.of_nat (length ds) ≤ 256 ^ Z.of_nat k) as Hle
    by (intros; apply Z.pow_le_mono_r; lia).
  unfold signed_digits, size. destruct (Z.ltb_spec t 128); rewrite length_app; cbn [length].
  - destruct (Z.ltb_spec 4 (Z.of_nat (length ds + 1))).
    + specialize (Hge 4%nat ltac:(lia)). change (256 ^ Z.of_nat 4) with (2 ^ 32) in Hge.
      destruct (Z.ltb_spec (le_value ds + 256 ^ Z.of_nat (length ds) * (t + 256 * 0)) (2 ^ 31)); [nia|done].
    + specialize (Hle 3%nat ltac:(lia)). change (256 ^ Z.of_nat 3) with (2 ^ 24) in Hle.
      destruct (Z.ltb_spec (le_value ds + 256 ^ Z.of_nat (length ds) * (t + 256 * 0)) (2 ^ 31)); [done|nia].
  - destruct (Z.ltb_spec 4 (Z.of_nat (length ds + 2))).
    + specialize (Hge 3%nat ltac:(lia)). change (256 ^ Z.of_nat 3) with (2 ^ 24) in Hge.
      destruct (Z.ltb_spec (le_value ds + 256 ^ Z.of_nat (length ds) * (t + 256 * 0)) (2 ^ 31)); [nia|done].
    + specialize (Hle 2%nat ltac:(lia)). change (256 ^ Z.of_nat 2) with (2 ^ 16) in Hle.
      destruct (Z.ltb_spec (le_value ds + 256 ^ Z.of_nat (length ds) * (t + 256 * 0)) (2 ^ 31)); [done|nia].
Qed.

(** [CScriptNum] inverts [serialize] on 31-bit magnitudes and refuses the rest. *)
Lemma CScriptNum_serialize n m :
  is_s 64 n →
  CScriptNum (num_serialize n) m = if Z.abs n <? 2 ^ 31 then Ok n else Err ScriptNumOverflow.
Proof.
  intros Hs. destruct (Z.eqb_spec n 0) as [->|Hn]; [by destruct m|].
  destruct (digits_exist n Hn Hs) as (ds & t & Hb & Ht & Hv & Hl).
  rewrite (num_serialize_digits n ds t) by done.
  rewrite CScriptNum_signed_digits, signed_digits_size, Hv by done.
  destruct (Z.abs n <? 2 ^ 31); cbn [negb]; [|done].
  destruct (Z.ltb_spec n 0); f_equal; lia.
Qed.

Lemma CScriptNum_bytes v n :
  bytes_ok v → CScriptNum v false = Ok n → Z.abs n < 2 ^ 31 ∧ n = set_vch v.
Proof.
  intros Hb. unfold CScriptNum, nMaxNumSize. destruct (Z.ltb_spec 4 (size v)) as [|Hs]; [done|].
  cbn [andb]. intros [= <-]. split; [|done]. destruct v as [|t ds _] using rev_ind; [done|].
  unfold size in Hs. rewrite length_app in Hs. simpl in Hs.
  rewrite set_vch_snoc by (done || lia). apply Forall_app in Hb as [Hds _].
  pose proof (le_value_bound ds Hds). pose proof (pow256_pos (length ds)).
  assert (256 ^ Z.of_nat (length ds) ≤ 2 ^ 24) by (change (2 ^ 24) with (256 ^ 3); apply Z.pow_le_mono_r; lia).
  pose proof (Z.mod_pos_bound t 128 ltac:(lia)).
  assert (0 ≤ le_value ds + 256 ^ Z.of_nat (length ds) * (t mod 128) < 2 ^ 31) by nia.
  destruct (t <? 128); lia.
Qed.

(** Every vector the minimality rule accepts is a signed digit string. *)
Lemma minimal_is_signed_digits v n :
  bytes_ok v → v ≠ [] → CScriptNum v true = Ok n →
  ∃ ds t neg, v = signed_digits ds t neg ∧ bytes_ok (ds ++ [t]) ∧ 0 < t ∧ (length ds < 8)%nat.
Proof.
  intros Hb Hne H. unfold CScriptNum, nMaxNumSize in H.
  destruct (Z.ltb_spec 4 (size v)) as [|Hs]; [done|].
  destruct v as [|b ds _] using rev_ind; [done|]. clear Hne.
  unfold size in H, Hs. rewrite back_snoc, land_7f in H. rewrite length_app in Hs. cbn [length] in Hs.
  rewrite (proj2 (Z.ltb_lt 0 _)) in H by (rewrite length_app; simpl; lia). cbn [andb] in H.
  pose proof Hb as Hb'. apply Forall_app in Hb' as [Hds Hbb]. apply Forall_cons_1 in Hbb as [Hbb _].
  unfold is_byte in Hbb. unfold signed_digits.
  destruct (Z.eqb_spec (b mod 128) 0) as [Hz|Hz].
  - cbn [andb] in H. destruct ds as [|u es _] using rev_ind.
    { cbn [app length] in H. done. }
    replace ((es ++ [u]) ++ [b]) with (es ++ [u; b]) in * by (by rewrite <- app_assoc).
    rewrite nth_second_last in H. apply Forall_app in Hds as [Hes Hu]. apply Forall_cons_1 in Hu as [Hu _].
    rewrite land_80 in H by done. unfold is_byte in Hu.
    destruct (Z.ltb_spec u 128); [by rewrite orb_true_r in H|].
    exists es, u, (128 <=? b). rewrite (proj2 (Z.ltb_ge u 128)) by lia.
    rewrite length_app in Hs. simpl in Hs.
    split_and!; [|by apply bytes_ok_snoc|lia|lia].
    destruct (Z.leb_spec 128 b); repeat f_equal.
    + pose proof (Z.div_mod b 128). assert (b / 128 = 1) by (symmetry; apply Z.div_unique with (b - 128); lia). lia.
    + rewrite Z.mod_small in Hz; lia.
  - exists ds, (b mod 128), (128 <=? b). pose proof (Z.mod_pos_bound b 128 ltac:(lia)).
    rewrite (proj2 (Z.ltb_lt (b mod 128) 128)) by lia.
    split_and!; [|apply bytes_ok_snoc; [done|unfold is_byte; lia]|lia|lia].
    do 2 f_equal. destruct (Z.leb_spec 128 b); [|by rewrite Z.mod_small by lia].
    rewrite <- (Z.mod_unique b 128 1 (b - 128)); lia.
Qed.

Lemma signed_digits_value_nonzero ds t : bytes_ok (ds ++ [t]) → 0 < t → 0 < le_value (ds ++ [t]).
Proof.
  intros Hb Ht. rewrite le_value_app. cbn [le_value]. apply Forall_app in Hb as [Hds _].
  pose proof (le_value_bound ds Hds). pose proof (pow256_pos (length ds)). nia.
Qed.

(** Script numbers: [serialize] is inverted by the [CScriptNum] constructor
    (minimality required or not) for magnitudes below 2^31 and refused as an
    overflow beyond, and a vector accepted under the minimality rule is exactly
    the serialization of its number, so minimal encodings are unique. *)
Theorem CScriptNum_exact n m v :
  is_s 64 n → bytes_ok v →
  CScriptNum (num_serialize n) m = (if Z.abs n <? 2 ^ 31 then Ok n else Err ScriptNumOverflow) ∧
  (CScriptNum v true = Ok n → num_serialize n = v).
Proof.
  intros Hs Hb. split; [by apply CScriptNum_serialize|]. intros H.
  destruct v as [|x v'] eqn:Ev; [by injection H as <-|]. rewrite <- Ev in *.
  destruct (minimal_is_signed_digits v n Hb) as (ds & t & neg & E & Hb' & Ht & Hl); [by subst|done|].
  rewrite E, CScriptNum_signed_digits in H by done. destruct (4 <? _); [done|]. injection H as Hn.
  pose proof (signed_digits_value_nonzero ds t Hb' Ht) as Hp.
  rewrite (num_serialize_digits n ds t) by (done || (destruct neg; lia)).
  rewrite E. f_equal. destruct neg; lia.
Qed.

Lemma CScriptNum_exact_witness :
  CScriptNum (num_serialize (-255)) true = Ok (-255) ∧ num_serialize (-255) = [0xff; 0x80].
Proof.
  destruct (CScriptNum_exact (-255) true [0xff; 0x80]) as [H1 H2]; [by_decision|by_decision|].
  split; [exact H1|apply H2; reflexivity].
Defined.

(** The decoder reads back what [operator<<] writes: a pushed vector comes
    back with a push opcode and the rest of the script, a pushed integer comes
    back as the opcode or the minimal number encoding of that integer. *)
Theorem GetOp2_push_roundtrip (b rest : list Z) n :
  size (push_data b ++ rest) < 2 ^ 32 → is_s 64 n → size rest < 2 ^ 31 →
  (∃ opcode, opcode ≤ OP_PUSHDATA4 ∧ GetOp2 (push_data b ++ rest) = OpRead true opcode b rest) ∧
  (∃ r, GetOp2 (push_int64 n ++ rest) = r ∧ fRet r = true ∧ pcRet r = rest ∧
     if (n =? -1) || ((1 <=? n) && (n <=? 16)) then opcodeRet r = n + (OP_1 - 1) ∧ vchRet r = []
     else vchRet r = num_serialize n ∧ opcodeRet r ≤ OP_PUSHDATA4).
Proof.
  intros Hs Hn Hr. split.
  { exists (push_op (size b)). split; [apply push_op_bound; unfold size; lia|by apply GetOp2_push_data]. }
  eexists. split; [reflexivity|].
  unfold push_int64. destruct ((n =? -1) || ((1 <=? n) && (n <=? 16))) eqn:E.
  - assert (OP_PUSHDATA4 < n + (OP_1 - 1)).
    { unfold OP_PUSHDATA4, OP_1. apply orb_true_iff in E as [E|E]; [|apply andb_true_iff in E as [E _]]; lia. }
    cbn [app]. unfold GetOp2. rewrite (proj2 (Z.leb_gt _ _)) by done. done.
  - destruct (Z.eqb_spec n 0) as [->|Hn0].
    + cbn [app]. unfold GetOp2, push_size, size in *.
      change (OP_0 <=? OP_PUSHDATA4) with true. change (OP_0 <? OP_PUSHDATA1) with true. cbv iota.
      change OP_0 with 0. rewrite u32_id by (unfold is_u; lia).
      rewrite (proj2 (Z.ltb_ge _ _)) by lia. done.
    + assert (size (num_serialize n) ≤ 9) as Hsz.
      { destruct (digits_exist n Hn0 Hn) as (ds & t & Hb & Ht & Hv & Hl).
        rewrite (num_serialize_digits n ds t) by done. unfold signed_digits, size.
        destruct (_ <? _); rewrite length_app; simpl; lia. }
      rewrite GetOp2_push_data; [split_and!; try done; apply push_op_bound; unfold size; lia|].
      unfold push_data, size, OP_PUSHDATA1 in *. rewrite (proj2 (Z.ltb_lt _ _)) by lia.
      rewrite !length_app. simpl length. lia.
Qed.

Lemma GetOp2_push_roundtrip_witness :
  ∃ opcode, GetOp2 (push_data (replicate 300 7) ++ [OP_DUP]) = OpRead true opcode (replicate 300 7) [OP_DUP].
Proof.
  destruct (GetOp2_push_roundtrip (replicate 300 7) [OP_DUP] (-1000)) as [(o & _ & H) _];
    [by_decision|by_decision|by_decision|]. exists o. exact H.
Defined.
