(* ===== verification/Interpreter.v ===== *)
(** * script/interpreter.cpp, eccryptoverify.cpp: executing scripts

    [EvalScript] and [VerifyScript].  A stack is a list with its top first;
    the program counter is the suffix of the script still to execute.  An error
    code set before [return false] is [Err]; an exception caught by the handler
    around the loop is [SCRIPT_ERR_UNKNOWN_ERROR], as in the code; a failed
    [assert] or an out-of-bounds [operator[]] is [AssertFail].  The virtual
    [BaseSignatureChecker::CheckSig] is a parameter of the evaluator. *)
From stdpp Require Import base tactics list gmap numbers option.
From Stdlib Require Import ZArith Lia.
From S2P Require Import Prelude.
From S2P Require Import Crypto.
From S2P Require Import ScriptCode.

(** [enum ScriptError] *)
Inductive ScriptError :=
| SCRIPT_ERR_UNKNOWN_ERROR | SCRIPT_ERR_EVAL_FALSE | SCRIPT_ERR_OP_RETURN
| SCRIPT_ERR_SCRIPT_SIZE | SCRIPT_ERR_PUSH_SIZE | SCRIPT_ERR_OP_COUNT | SCRIPT_ERR_STACK_SIZE
| SCRIPT_ERR_SIG_COUNT | SCRIPT_ERR_PUBKEY_COUNT
| SCRIPT_ERR_VERIFY | SCRIPT_ERR_EQUALVERIFY | SCRIPT_ERR_CHECKMULTISIGVERIFY
| SCRIPT_ERR_CHECKSIGVERIFY | SCRIPT_ERR_NUMEQUALVERIFY
| SCRIPT_ERR_BAD_OPCODE | SCRIPT_ERR_DISABLED_OPCODE | SCRIPT_ERR_INVALID_STACK_OPERATION
| SCRIPT_ERR_INVALID_ALTSTACK_OPERATION | SCRIPT_ERR_UNBALANCED_CONDITIONAL
| SCRIPT_ERR_SIG_HASHTYPE | SCRIPT_ERR_SIG_DER | SCRIPT_ERR_MINIMALDATA | SCRIPT_ERR_SIG_PUSHONLY
| SCRIPT_ERR_SIG_HIGH_S | SCRIPT_ERR_SIG_NULLDUMMY | SCRIPT_ERR_PUBKEYTYPE
| SCRIPT_ERR_DISCOURAGE_UPGRADABLE_NOPS.

#[export] Instance ScriptError_eq_dec : EqDecision ScriptError.
Proof. solve_decision. Defined.

Notation result := (outcome ScriptError).

(** Signature hash types and verification flags. *)
Definition SIGHASH_ALL : Z := 1.
Definition SIGHASH_NONE : Z := 2.
Definition SIGHASH_SINGLE : Z := 3.
Definition SIGHASH_ANYONECANPAY : Z := 0x80.

Definition SCRIPT_VERIFY_NONE : Z := 0.
Definition SCRIPT_VERIFY_P2SH : Z := Z.shiftl 1 0.
Definition SCRIPT_VERIFY_STRICTENC : Z := Z.shiftl 1 1.
Definition SCRIPT_VERIFY_DERSIG : Z := Z.shiftl 1 2.
Definition SCRIPT_VERIFY_LOW_S : Z := Z.shiftl 1 3.
Definition SCRIPT_VERIFY_NULLDUMMY : Z := Z.shiftl 1 4.
Definition SCRIPT_VERIFY_SIGPUSHONLY : Z := Z.shiftl 1 5.
Definition SCRIPT_VERIFY_MINIMALDATA : Z := Z.shiftl 1 6.
Definition SCRIPT_VERIFY_DISCOURAGE_UPGRADABLE_NOPS : Z := Z.shiftl 1 7.

(** ** Stack elements *)

Fixpoint CastToBool (vch : list Z) : bool :=
  match vch with
  | [] => false
  | b :: rest =>
      if negb (b =? 0) then negb (match rest with [] => b =? 0x80 | _ => false end)
      else CastToBool rest
  end.

(** [stacktop(-i)], with the bounds check of [vector::at]. *)
Definition stacktop (st : list valtype) (i : Z) : result valtype :=
  if i <? 1 then Err SCRIPT_ERR_UNKNOWN_ERROR
  else match st !! Z.to_nat (i - 1) with
       | Some v => Ok v
       | None => Err SCRIPT_ERR_UNKNOWN_ERROR
       end.

Definition popstack (st : list valtype) : result (list valtype) :=
  match st with [] => Err SCRIPT_ERR_UNKNOWN_ERROR | _ :: st => Ok st end.

(** [CScriptNum(vch, fRequireMinimal)]: its exception reaches the handler. *)
Definition script_num (fRequireMinimal : bool) (v : valtype) : result Z :=
  match CScriptNum v fRequireMinimal with
  | Ok n => Ok n
  | Err _ => Err SCRIPT_ERR_UNKNOWN_ERROR
  | AssertFail => AssertFail
  | OutOfFuel => OutOfFuel
  end.

Definition vchFalse : valtype := [].
Definition vchTrue : valtype := [1].
Definition bool_vch (b : bool) : valtype := if b then vchTrue else vchFalse.
Definition bool_num (b : bool) : Z := if b then 1 else 0.

(** ** Encodings of keys and signatures *)

(** [v[i]]: reading outside the vector is undefined. *)
Definition at_ (v : valtype) (i : Z) : result Z :=
  if i <? 0 then AssertFail else match v !! Z.to_nat i with Some b => Ok b | None => AssertFail end.

Definition IsCompressedOrUncompressedPubKey (vchPubKey : valtype) : bool :=
  if size vchPubKey <? 33 then false
  else if nth 0 vchPubKey 0 =? 0x04 then size vchPubKey =? 65
  else if (nth 0 vchPubKey 0 =? 0x02) || (nth 0 vchPubKey 0 =? 0x03) then size vchPubKey =? 33
  else false.

Definition IsValidSignatureEncoding (sig : valtype) : result bool :=
  if size sig <? 9 then Ok false
  else if 73 <? size sig then Ok false
  else
    s0 ← at_ sig 0; if negb (s0 =? 0x30) then Ok false else
    s1 ← at_ sig 1; if negb (s1 =? size sig - 3) then Ok false else
    lenR ← at_ sig 3;
    if size sig <=? 5 + lenR then Ok false else
    lenS ← at_ sig (5 + lenR);
    if negb (lenR + lenS + 7 =? size sig) then Ok false else
    s2 ← at_ sig 2; if negb (s2 =? 0x02) then Ok false else
    if lenR =? 0 then Ok false else
    s4 ← at_ sig 4; if flag s4 0x80 then Ok false else
    padR ← (if (1 <? lenR) && (s4 =? 0x00) then s5 ← at_ sig 5; Ok (negb (flag s5 0x80)) else Ok false);
    if padR : bool then Ok false else
    sR4 ← at_ sig (lenR + 4); if negb (sR4 =? 0x02) then Ok false else
    if lenS =? 0 then Ok false else
    sR6 ← at_ sig (lenR + 6); if flag sR6 0x80 then Ok false else
    padS ← (if (1 <? lenS) && (sR6 =? 0x00) then sR7 ← at_ sig (lenR + 7); Ok (negb (flag sR7 0x80)) else Ok false);
    if padS : bool then Ok false else Ok true.

(** [CompareBigEndian] of eccryptoverify.cpp: leading bytes of the longer
    string first, then byte by byte. *)
Fixpoint skip_zeros (n : nat) (c : list Z) : option (list Z) :=
  match n, c with
  | S n, b :: c => if negb (b =? 0) then None else skip_zeros n c
  | _, _ => Some c
  end.
Fixpoint compare_bytes (c1 c2 : list Z) : Z :=
  match c1, c2 with
  | x :: c1, y :: c2 => if y <? x then 1 else if x <? y then -1 else compare_bytes c1 c2
  | _, _ => 0
  end.
Definition CompareBigEndian (c1 c2 : list Z) : Z :=
  match skip_zeros (length c1 - length c2) c1 with
  | None => 1
  | Some c1 =>
      match skip_zeros (length c2 - length c1) c2 with
      | None => -1
      | Some c2 => compare_bytes c1 c2
      end
  end.
Definition vchMaxModOrder : list Z :=
  [0xFF; 0xFF; 0xFF; 0xFF; 0xFF; 0xFF; 0xFF; 0xFF; 0xFF; 0xFF; 0xFF; 0xFF; 0xFF; 0xFF; 0xFF; 0xFE;
   0xBA; 0xAE; 0xDC; 0xE6; 0xAF; 0x48; 0xA0; 0x3B; 0xBF; 0xD2; 0x5E; 0x8C; 0xD0; 0x36; 0x41; 0x40].
Definition vchMaxModHalfOrder : list Z :=
  [0x7F; 0xFF; 0xFF; 0xFF; 0xFF; 0xFF; 0xFF; 0xFF; 0xFF; 0xFF; 0xFF; 0xFF; 0xFF; 0xFF; 0xFF; 0xFF;
   0x5D; 0x57; 0x6E; 0x73; 0x57; 0xA4; 0x50; 0x1D; 0xDF; 0xE9; 0x2F; 0x46; 0x68; 0x1B; 0x20; 0xA0].
Definition CheckSignatureElement (vch : list Z) (half : bool) : bool :=
  (0 <? CompareBigEndian vch [])
  && (CompareBigEndian vch (if half then vchMaxModHalfOrder else vchMaxModOrder) <=? 0).

(** [IsLowDERSignature]: [Ok tt] for [true], the error set for [false]. *)
Definition IsLowDERSignature (vchSig : valtype) : result unit :=
  valid ← IsValidSignatureEncoding vchSig;
  if negb valid then Err SCRIPT_ERR_SIG_DER else
  nLenR ← at_ vchSig 3;
  nLenS ← at_ vchSig (5 + nLenR);
  let S := take (Z.to_nat nLenS) (drop (Z.to_nat (6 + nLenR)) vchSig) in
  if negb (CheckSignatureElement S true) then Err SCRIPT_ERR_SIG_HIGH_S else Ok tt.

Definition IsDefinedHashtypeSignature (vchSig : valtype) : bool :=
  if size vchSig =? 0 then false
  else
    let nHashType := Z.land (back vchSig) (u8 (Z.lnot SIGHASH_ANYONECANPAY)) in
    negb ((nHashType <? SIGHASH_ALL) || (SIGHASH_SINGLE <? nHashType)).

Definition CheckSignatureEncoding (vchSig : valtype) (flags : Z) : result unit :=
  if size vchSig =? 0 then Ok tt else
  invalid ← (if flag flags (Z.lor (Z.lor SCRIPT_VERIFY_DERSIG SCRIPT_VERIFY_LOW_S) SCRIPT_VERIFY_STRICTENC)
             then valid ← IsValidSignatureEncoding vchSig; Ok (negb valid) else Ok false);
  if invalid : bool then Err SCRIPT_ERR_SIG_DER else
  _ ← (if flag flags SCRIPT_VERIFY_LOW_S then IsLowDERSignature vchSig else Ok tt);
  if flag flags SCRIPT_VERIFY_STRICTENC && negb (IsDefinedHashtypeSignature vchSig)
  then Err SCRIPT_ERR_SIG_HASHTYPE else Ok tt.

Definition CheckPubKeyEncoding (vchPubKey : valtype) (flags : Z) : result unit :=
  if flag flags SCRIPT_VERIFY_STRICTENC && negb (IsCompressedOrUncompressedPubKey vchPubKey)
  then Err SCRIPT_ERR_PUBKEYTYPE else Ok tt.

Definition CheckMinimalPush (data : valtype) (opcode : Z) : bool :=
  if size data =? 0 then opcode =? OP_0
  else if (size data =? 1) && (1 <=? nth 0 data 0) && (nth 0 data 0 <=? 16)
  then opcode =? OP_1 + (nth 0 data 0 - 1)
  else if (size data =? 1) && (nth 0 data 0 =? 0x81) then opcode =? OP_1NEGATE
  else if size data <=? 75 then opcode =? size data
  else if size data <=? 255 then opcode =? OP_PUSHDATA1
  else if size data <=? 65535 then opcode =? OP_PUSHDATA2
  else true.

(** ** The evaluator's state *)

Record exec := Exec {
  stack : list valtype;        (** top first *)
  altstack : list valtype;     (** top first *)
  vfExec : list bool;          (** [back()] first *)
  nOpCount : Z;
  pbegincodehash : list Z      (** the script from the last code separator on *)
}.

Definition set_stack (s : exec) (st : list valtype) : exec :=
  Exec st (altstack s) (vfExec s) (nOpCount s) (pbegincodehash s).
Definition set_stacks (s : exec) (st alt : list valtype) : exec :=
  Exec st alt (vfExec s) (nOpCount s) (pbegincodehash s).
Definition set_vfExec (s : exec) (v : list bool) : exec :=
  Exec (stack s) (altstack s) v (nOpCount s) (pbegincodehash s).
Definition set_nOpCount (s : exec) (n : Z) : exec :=
  Exec (stack s) (altstack s) (vfExec s) n (pbegincodehash s).
Definition set_codehash (s : exec) (pc : list Z) : exec :=
  Exec (stack s) (altstack s) (vfExec s) (nOpCount s) pc.

Definition fExec (s : exec) : bool := forallb id (vfExec s).

Definition invalid_stack {A} : result A := Err SCRIPT_ERR_INVALID_STACK_OPERATION.

(** ** Groups of opcodes *)

Section Ops.
Variable flags : Z.
(** [checker.CheckSig(vchSig, vchPubKey, scriptCode)] *)
Variable CheckSig : valtype → valtype → list Z → bool.

Definition fRequireMinimal : bool := flag flags SCRIPT_VERIFY_MINIMALDATA.

(** [OP_1NEGATE], [OP_1] .. [OP_16] *)
Definition op_push_small (opcode : Z) (s : exec) : result exec :=
  Ok (set_stack s (num_serialize (opcode - (OP_1 - 1)) :: stack s)).

(** [OP_NOP1] .. [OP_NOP10] *)
Definition op_nop (s : exec) : result exec :=
  if flag flags SCRIPT_VERIFY_DISCOURAGE_UPGRADABLE_NOPS
  then Err SCRIPT_ERR_DISCOURAGE_UPGRADABLE_NOPS else Ok s.

(** [OP_IF], [OP_NOTIF], [OP_ELSE], [OP_ENDIF]: executed in every branch. *)
Definition op_if (opcode : Z) (s : exec) : result exec :=
  if fExec s then
    match stack s with
    | [] => Err SCRIPT_ERR_UNBALANCED_CONDITIONAL
    | vch :: st =>
        let fValue := CastToBool vch in
        let fValue := if opcode =? OP_NOTIF then negb fValue else fValue in
        Ok (set_vfExec (set_stack s st) (fValue :: vfExec s))
    end
  else Ok (set_vfExec s (false :: vfExec s)).
Definition op_else (s : exec) : result exec :=
  match vfExec s with
  | [] => Err SCRIPT_ERR_UNBALANCED_CONDITIONAL
  | b :: v => Ok (set_vfExec s (negb b :: v))
  end.
Definition op_endif (s : exec) : result exec :=
  match vfExec s with
  | [] => Err SCRIPT_ERR_UNBALANCED_CONDITIONAL
  | _ :: v => Ok (set_vfExec s v)
  end.
Definition op_verify (s : exec) : result exec :=
  match stack s with
  | [] => invalid_stack
  | x :: st => if CastToBool x then Ok (set_stack s st) else Err SCRIPT_ERR_VERIFY
  end.

(** Stack operations, [OP_TOALTSTACK] .. [OP_TUCK] and [OP_SIZE]. *)
Definition op_toaltstack (s : exec) : result exec :=
  match stack s with
  | x :: st => Ok (set_stacks s st (x :: altstack s))
  | _ => invalid_stack
  end.
Definition op_fromaltstack (s : exec) : result exec :=
  match altstack s with
  | x :: alt => Ok (set_stacks s (x :: stack s) alt)
  | _ => Err SCRIPT_ERR_INVALID_ALTSTACK_OPERATION
  end.
Definition op_2drop (s : exec) : result exec :=
  match stack s with _ :: _ :: st => Ok (set_stack s st) | _ => invalid_stack end.
Definition op_2dup (s : exec) : result exec :=
  match stack s with
  | x2 :: x1 :: st => Ok (set_stack s (x2 :: x1 :: x2 :: x1 :: st))
  | _ => invalid_stack
  end.
Definition op_3dup (s : exec) : result exec :=
  match stack s with
  | x3 :: x2 :: x1 :: st => Ok (set_stack s (x3 :: x2 :: x1 :: x3 :: x2 :: x1 :: st))
  | _ => invalid_stack
  end.
Definition op_2over (s : exec) : result exec :=
  match stack s with
  | x4 :: x3 :: x2 :: x1 :: st => Ok (set_stack s (x2 :: x1 :: x4 :: x3 :: x2 :: x1 :: st))
  | _ => invalid_stack
  end.
Definition op_2rot (s : exec) : result exec :=
  match stack s with
  | x6 :: x5 :: x4 :: x3 :: x2 :: x1 :: st => Ok (set_stack s (x2 :: x1 :: x6 :: x5 :: x4 :: x3 :: st))
  | _ => invalid_stack
  end.
Definition op_2swap (s : exec) : result exec :=
  match stack s with
  | x4 :: x3 :: x2 :: x1 :: st => Ok (set_stack s (x2 :: x1 :: x4 :: x3 :: st))
  | _ => invalid_stack
  end.
Definition op_ifdup (s : exec) : result exec :=
  match stack s with
  | x :: st => Ok (if CastToBool x then set_stack s (x :: x :: st) else s)
  | _ => invalid_stack
  end.
Definition op_depth (s : exec) : result exec :=
  Ok (set_stack s (num_serialize (Z.of_nat (length (stack s))) :: stack s)).
Definition op_drop (s : exec) : result exec :=
  match stack s with _ :: st => Ok (set_stack s st) | _ => invalid_stack end.
Definition op_dup (s : exec) : result exec :=
  match stack s with x :: st => Ok (set_stack s (x :: x :: st)) | _ => invalid_stack end.
Definition op_nip (s : exec) : result exec :=
  match stack s with x2 :: x1 :: st => Ok (set_stack s (x2 :: st)) | _ => invalid_stack end.
Definition op_over (s : exec) : result exec :=
  match stack s with x2 :: x1 :: st => Ok (set_stack s (x1 :: x2 :: x1 :: st)) | _ => invalid_stack end.
Definition op_pick_roll (opcode : Z) (s : exec) : result exec :=
  match stack s with
  | x :: ((_ :: _) as st) =>
      n ← script_num fRequireMinimal x;
      let n := getint n in
      if (n <? 0) || (Z.of_nat (length st) <=? n) then invalid_stack
      else
        vch ← stacktop st (n + 1);
        let st := if opcode =? OP_ROLL then take (Z.to_nat n) st ++ drop (Z.to_nat n + 1) st else st in
        Ok (set_stack s (vch :: st))
  | _ => invalid_stack
  end.
Definition op_rot (s : exec) : result exec :=
  match stack s with
  | x3 :: x2 :: x1 :: st => Ok (set_stack s (x1 :: x3 :: x2 :: st))
  | _ => invalid_stack
  end.
Definition op_swap (s : exec) : result exec :=
  match stack s with x2 :: x1 :: st => Ok (set_stack s (x1 :: x2 :: st)) | _ => invalid_stack end.
Definition op_tuck (s : exec) : result exec :=
  match stack s with x2 :: x1 :: st => Ok (set_stack s (x2 :: x1 :: x2 :: st)) | _ => invalid_stack end.
Definition op_size (s : exec) : result exec :=
  match stack s with x :: st => Ok (set_stack s (num_serialize (size x) :: x :: st)) | _ => invalid_stack end.

(** [OP_EQUAL], [OP_EQUALVERIFY] *)
Definition op_equal (opcode : Z) (s : exec) : result exec :=
  match stack s with
  | vch2 :: vch1 :: st =>
      let fEqual := bool_decide (vch1 = vch2) in
      if opcode =? OP_EQUALVERIFY then
        if fEqual then Ok (set_stack s st) else Err SCRIPT_ERR_EQUALVERIFY
      else Ok (set_stack s (bool_vch fEqual :: st))
  | _ => invalid_stack
  end.

(** [OP_1ADD], [OP_1SUB], [OP_NEGATE], [OP_ABS], [OP_NOT], [OP_0NOTEQUAL] *)
Definition unary_num (opcode bn : Z) : result Z :=
  if opcode =? OP_1ADD then num_add_assign bn 1
  else if opcode =? OP_1SUB then num_sub_assign bn 1
  else if opcode =? OP_NEGATE then num_neg bn
  else if opcode =? OP_ABS then (if bn <? 0 then num_neg bn else Ok bn)
  else if opcode =? OP_NOT then Ok (bool_num (bn =? 0))
  else if opcode =? OP_0NOTEQUAL then Ok (bool_num (negb (bn =? 0)))
  else AssertFail.
Definition op_unary (opcode : Z) (s : exec) : result exec :=
  match stack s with
  | x :: st =>
      bn ← script_num fRequireMinimal x;
      bn ← unary_num opcode bn;
      Ok (set_stack s (num_serialize bn :: st))
  | _ => invalid_stack
  end.

(** [OP_ADD] .. [OP_MAX] *)
Definition binary_num (opcode bn1 bn2 : Z) : result Z :=
  if opcode =? OP_ADD then Ok (s64 (bn1 + bn2))
  else if opcode =? OP_SUB then Ok (s64 (bn1 - bn2))
  else if opcode =? OP_BOOLAND then Ok (bool_num (negb (bn1 =? 0) && negb (bn2 =? 0)))
  else if opcode =? OP_BOOLOR then Ok (bool_num (negb (bn1 =? 0) || negb (bn2 =? 0)))
  else if opcode =? OP_NUMEQUAL then Ok (bool_num (bn1 =? bn2))
  else if opcode =? OP_NUMEQUALVERIFY then Ok (bool_num (bn1 =? bn2))
  else if opcode =? OP_NUMNOTEQUAL then Ok (bool_num (negb (bn1 =? bn2)))
  else if opcode =? OP_LESSTHAN then Ok (bool_num (bn1 <? bn2))
  else if opcode =? OP_GREATERTHAN then Ok (bool_num (bn2 <? bn1))
  else if opcode =? OP_LESSTHANOREQUAL then Ok (bool_num (bn1 <=? bn2))
  else if opcode =? OP_GREATERTHANOREQUAL then Ok (bool_num (bn2 <=? bn1))
  else if opcode =? OP_MIN then Ok (if bn1 <? bn2 then bn1 else bn2)
  else if opcode =? OP_MAX then Ok (if bn2 <? bn1 then bn1 else bn2)
  else AssertFail.
Definition op_binary (opcode : Z) (s : exec) : result exec :=
  match stack s with
  | x2 :: x1 :: st =>
      bn1 ← script_num fRequireMinimal x1;
      bn2 ← script_num fRequireMinimal x2;
      bn ← binary_num opcode bn1 bn2;
      let v := num_serialize bn in
      if opcode =? OP_NUMEQUALVERIFY then
        if CastToBool v then Ok (set_stack s st) else Err SCRIPT_ERR_NUMEQUALVERIFY
      else Ok (set_stack s (v :: st))
  | _ => invalid_stack
  end.
Definition op_within (s : exec) : result exec :=
  match stack s with
  | x3 :: x2 :: x1 :: st =>
      bn1 ← script_num fRequireMinimal x1;
      bn2 ← script_num fRequireMinimal x2;
      bn3 ← script_num fRequireMinimal x3;
      Ok (set_stack s (bool_vch ((bn2 <=? bn1) && (bn1 <? bn3)) :: st))
  | _ => invalid_stack
  end.

(** [OP_RIPEMD160] .. [OP_HASH256] *)
Definition op_hash (opcode : Z) (s : exec) : result exec :=
  match stack s with
  | vch :: st =>
      let vchHash :=
        if opcode =? OP_RIPEMD160 then RIPEMD160 vch
        else if opcode =? OP_SHA1 then SHA1 vch
        else if opcode =? OP_SHA256 then SHA256 vch
        else if opcode =? OP_HASH160 then Hash160 vch
        else Hash256 vch in
      Ok (set_stack s (vchHash :: st))
  | _ => invalid_stack
  end.

(** [OP_CHECKSIG], [OP_CHECKSIGVERIFY] *)
Definition op_checksig (opcode : Z) (s : exec) : result exec :=
  match stack s with
  | vchPubKey :: vchSig :: st =>
      '(scriptCode, _) ← FindAndDelete (pbegincodehash s) (push_data vchSig);
      _ ← CheckSignatureEncoding vchSig flags;
      _ ← CheckPubKeyEncoding vchPubKey flags;
      let fSuccess := CheckSig vchSig vchPubKey scriptCode in
      if opcode =? OP_CHECKSIGVERIFY then
        if fSuccess then Ok (set_stack s st) else Err SCRIPT_ERR_CHECKSIGVERIFY
      else Ok (set_stack s (bool_vch fSuccess :: st))
  | _ => invalid_stack
  end.

(** [OP_CHECKMULTISIG], [OP_CHECKMULTISIGVERIFY].  Positions are counted from
    the top of the stack, as in [stacktop(-i)]. *)

(** Drop the signatures from the script being signed. *)
Fixpoint delete_sigs (n : nat) (st : list valtype) (isig : Z) (scriptCode : list Z) : result (list Z) :=
  match n with
  | O => Ok scriptCode
  | S n =>
      vchSig ← stacktop st isig;
      '(scriptCode, _) ← FindAndDelete scriptCode (push_data vchSig);
      delete_sigs n st (isig + 1) scriptCode
  end.

(** The matching loop; a key is used up in every round. *)
Fixpoint multisig_loop (fuel : nat) (st : list valtype) (scriptCode : list Z)
    (isig ikey nSigsCount nKeysCount : Z) : result bool :=
  if nSigsCount <=? 0 then Ok true
  else
    match fuel with
    | O => OutOfFuel
    | S fuel =>
        vchSig ← stacktop st isig;
        vchPubKey ← stacktop st ikey;
        _ ← CheckSignatureEncoding vchSig flags;
        _ ← CheckPubKeyEncoding vchPubKey flags;
        let fOk := CheckSig vchSig vchPubKey scriptCode in
        let isig := if fOk then isig + 1 else isig in
        let nSigsCount := if fOk then nSigsCount - 1 else nSigsCount in
        let ikey := ikey + 1 in
        let nKeysCount := nKeysCount - 1 in
        if nKeysCount <? nSigsCount then Ok false
        else multisig_loop fuel st scriptCode isig ikey nSigsCount nKeysCount
    end.

(** [while (i-- > 1) popstack(stack)] *)
Fixpoint pop_n (n : nat) (st : list valtype) : result (list valtype) :=
  match n with
  | O => Ok st
  | S n => st ← popstack st; pop_n n st
  end.

Definition op_checkmultisig (opcode : Z) (s : exec) : result exec :=
  let st := stack s in
  let depth := Z.of_nat (length st) in
  let i := 1 in
  if depth <? i then invalid_stack else
  v ← stacktop st i;
  nKeysCount ← script_num fRequireMinimal v;
  let nKeysCount := getint nKeysCount in
  if (nKeysCount <? 0) || (20 <? nKeysCount) then Err SCRIPT_ERR_PUBKEY_COUNT else
  let nOpCount := nOpCount s + nKeysCount in
  if 201 <? nOpCount then Err SCRIPT_ERR_OP_COUNT else
  let ikey := i + 1 in
  let i := ikey + nKeysCount in
  if depth <? i then invalid_stack else
  v ← stacktop st i;
  nSigsCount ← script_num fRequireMinimal v;
  let nSigsCount := getint nSigsCount in
  if (nSigsCount <? 0) || (nKeysCount <? nSigsCount) then Err SCRIPT_ERR_SIG_COUNT else
  let isig := i + 1 in
  let i := isig + nSigsCount in
  if depth <? i then invalid_stack else
  scriptCode ← delete_sigs (Z.to_nat nSigsCount) st isig (pbegincodehash s);
  fSuccess ← multisig_loop (Z.to_nat nKeysCount) st scriptCode isig ikey nSigsCount nKeysCount;
  st ← pop_n (Z.to_nat (i - 1)) st;
  match st with
  | [] => invalid_stack
  | dummy :: st =>
      if flag flags SCRIPT_VERIFY_NULLDUMMY && negb (size dummy =? 0) then Err SCRIPT_ERR_SIG_NULLDUMMY else
      let s := set_nOpCount s nOpCount in
      if opcode =? OP_CHECKMULTISIGVERIFY then
        if (fSuccess : bool) then Ok (set_stack s st) else Err SCRIPT_ERR_CHECKMULTISIGVERIFY
      else Ok (set_stack s (bool_vch fSuccess :: st))
  end.

(** ** One instruction *)

Definition disabled_opcodes : list Z :=
  [OP_CAT; OP_SUBSTR; OP_LEFT; OP_RIGHT; OP_INVERT; OP_AND; OP_OR; OP_XOR; OP_2MUL; OP_2DIV;
   OP_MUL; OP_DIV; OP_MOD; OP_LSHIFT; OP_RSHIFT].
Definition disabled_opcode (opcode : Z) : bool := existsb (Z.eqb opcode) disabled_opcodes.

Definition one_of (opcode : Z) (l : list Z) : bool := existsb (Z.eqb opcode) l.

(** The [switch]; [pc] is the iterator after the instruction. *)
Definition exec_opcode (opcode : Z) (pc : list Z) (s : exec) : result exec :=
  if (opcode =? OP_1NEGATE) || ((OP_1 <=? opcode) && (opcode <=? OP_16)) then op_push_small opcode s
  else if opcode =? OP_NOP then Ok s
  else if (OP_NOP1 <=? opcode) && (opcode <=? OP_NOP10) then op_nop s
  else if one_of opcode [OP_IF; OP_NOTIF] then op_if opcode s
  else if opcode =? OP_ELSE then op_else s
  else if opcode =? OP_ENDIF then op_endif s
  else if opcode =? OP_VERIFY then op_verify s
  else if opcode =? OP_RETURN then Err SCRIPT_ERR_OP_RETURN
  else if opcode =? OP_TOALTSTACK then op_toaltstack s
  else if opcode =? OP_FROMALTSTACK then op_fromaltstack s
  else if opcode =? OP_2DROP then op_2drop s
  else if opcode =? OP_2DUP then op_2dup s
  else if opcode =? OP_3DUP then op_3dup s
  else if opcode =? OP_2OVER then op_2over s
  else if opcode =? OP_2ROT then op_2rot s
  else if opcode =? OP_2SWAP then op_2swap s
  else if opcode =? OP_IFDUP then op_ifdup s
  else if opcode =? OP_DEPTH then op_depth s
  else if opcode =? OP_DROP then op_drop s
  else if opcode =? OP_DUP then op_dup s
  else if opcode =? OP_NIP then op_nip s
  else if opcode =? OP_OVER then op_over s
  else if one_of opcode [OP_PICK; OP_ROLL] then op_pick_roll opcode s
  else if opcode =? OP_ROT then op_rot s
  else if opcode =? OP_SWAP then op_swap s
  else if opcode =? OP_TUCK then op_tuck s
  else if opcode =? OP_SIZE then op_size s
  else if one_of opcode [OP_EQUAL; OP_EQUALVERIFY] then op_equal opcode s
  else if one_of opcode [OP_1ADD; OP_1SUB; OP_NEGATE; OP_ABS; OP_NOT; OP_0NOTEQUAL] then op_unary opcode s
  else if one_of opcode [OP_ADD; OP_SUB; OP_BOOLAND; OP_BOOLOR; OP_NUMEQUAL; OP_NUMEQUALVERIFY;
            OP_NUMNOTEQUAL; OP_LESSTHAN; OP_GREATERTHAN; OP_LESSTHANOREQUAL; OP_GREATERTHANOREQUAL;
            OP_MIN; OP_MAX] then op_binary opcode s
  else if opcode =? OP_WITHIN then op_within s
  else if one_of opcode [OP_RIPEMD160; OP_SHA1; OP_SHA256; OP_HASH160; OP_HASH256] then op_hash opcode s
  else if opcode =? OP_CODESEPARATOR then Ok (set_codehash s pc)
  else if one_of opcode [OP_CHECKSIG; OP_CHECKSIGVERIFY] then op_checksig opcode s
  else if one_of opcode [OP_CHECKMULTISIG; OP_CHECKMULTISIGVERIFY] then op_checkmultisig opcode s
  else Err SCRIPT_ERR_BAD_OPCODE.

(** The body of the loop of [EvalScript]. *)
Definition EvalScript_step (pc : list Z) (s : exec) : result (exec * list Z) :=
  let fExec := fExec s in
  let r := GetOp2 pc in
  if negb (fRet r) then Err SCRIPT_ERR_BAD_OPCODE else
  let opcode := opcodeRet r in
  let vchPushValue := vchRet r in
  if MAX_SCRIPT_ELEMENT_SIZE <? size vchPushValue then Err SCRIPT_ERR_PUSH_SIZE else
  let nOpCount := if OP_16 <? opcode then nOpCount s + 1 else nOpCount s in
  if (OP_16 <? opcode) && (201 <? nOpCount) then Err SCRIPT_ERR_OP_COUNT else
  let s := set_nOpCount s nOpCount in
  if disabled_opcode opcode then Err SCRIPT_ERR_DISABLED_OPCODE else
  s ← (if fExec && (0 <=? opcode) && (opcode <=? OP_PUSHDATA4) then
         if fRequireMinimal && negb (CheckMinimalPush vchPushValue opcode)
         then Err SCRIPT_ERR_MINIMALDATA
         else Ok (set_stack s (vchPushValue :: stack s))
       else if fExec || ((OP_IF <=? opcode) && (opcode <=? OP_ENDIF)) then exec_opcode opcode (pcRet r) s
       else Ok s);
  if (1000 <? Z.of_nat (length (stack s) + length (altstack s))) then Err SCRIPT_ERR_STACK_SIZE
  else Ok (s, pcRet r).

Fixpoint EvalScript_loop (fuel : nat) (pc : list Z) (s : exec) : result exec :=
  match pc with
  | [] => Ok s
  | _ =>
      match fuel with
      | O => OutOfFuel
      | S fuel => '(s, pc) ← EvalScript_step pc s; EvalScript_loop fuel pc s
      end
  end.

Definition EvalScript (st : list valtype) (script : list Z) : result (list valtype) :=
  if 10000 <? size script then Err SCRIPT_ERR_SCRIPT_SIZE
  else
    s ← EvalScript_loop (length script) script (Exec st [] [] 0 script);
    match vfExec s with
    | [] => Ok (stack s)
    | _ => Err SCRIPT_ERR_UNBALANCED_CONDITIONAL
    end.

(** [VerifyScript]: [Ok tt] for [true] with [SCRIPT_ERR_OK]. *)
Definition VerifyScript (scriptSig scriptPubKey : list Z) : result unit :=
  push_only ← IsPushOnly (E:=ScriptError) scriptSig;
  if flag flags SCRIPT_VERIFY_SIGPUSHONLY && negb push_only then Err SCRIPT_ERR_SIG_PUSHONLY else
  st ← EvalScript [] scriptSig;
  let stackCopy := if flag flags SCRIPT_VERIFY_P2SH then st else [] in
  st ← EvalScript st scriptPubKey;
  match st with
  | [] => Err SCRIPT_ERR_EVAL_FALSE
  | top :: _ =>
      if negb (CastToBool top) then Err SCRIPT_ERR_EVAL_FALSE
      else if flag flags SCRIPT_VERIFY_P2SH && IsPayToScriptHash scriptPubKey then
        if negb push_only then Err SCRIPT_ERR_SIG_PUSHONLY else
        match stackCopy with
        | [] => AssertFail
        | pubKey2 :: stackCopy =>
            stackCopy ← EvalScript stackCopy pubKey2;
            match stackCopy with
            | [] => Err SCRIPT_ERR_EVAL_FALSE
            | top :: _ => if CastToBool top then Ok tt else Err SCRIPT_ERR_EVAL_FALSE
            end
        end
      else Ok tt
  end.
End Ops.

(** ** Elements, numbers and encodings never go wrong *)

(** A stack element: at most 520 bytes. *)
Definition elem_ok (v : valtype) : Prop := bytes_ok v ∧ size v ≤ MAX_SCRIPT_ELEMENT_SIZE.

Lemma length_abs_bytes fuel a : (length (abs_bytes fuel a) ≤ fuel)%nat.
Proof. revert a. induction fuel as [|fuel IH]; intros a; cbn; [done|]. case_match; simpl; [lia|]. specialize (IH (Z.shiftr a 8)). lia. Qed.
Lemma bytes_ok_abs_bytes fuel a : bytes_ok (abs_bytes fuel a).
Proof.
  revert a. induction fuel as [|fuel IH]; intros a; cbn; [constructor|].
  case_match; constructor; [rewrite land_ff; apply Z.mod_pos_bound; lia|apply IH].
Qed.

Lemma is_byte_nth v i : bytes_ok v → is_byte (nth i v 0).
Proof. intros Hv. revert i. induction Hv; intros [|i]; simpl; auto; by unfold is_byte. Qed.

Lemma is_byte_lor a b : is_byte a → is_byte b → is_byte (Z.lor a b).
Proof.
  unfold is_byte. intros Ha Hb. split; [apply Z.lor_nonneg; lia|].
  destruct (Z.eqb_spec (Z.lor a b) 0) as [->|]; [lia|]. apply (Z.log2_lt_pow2 _ 8).
  { pose proof (proj2 (Z.lor_nonneg a b)). lia. }
  rewrite Z.log2_lor by lia.
  assert (∀ c, 0 ≤ c < 256 → Z.log2 c ≤ 7) as Hl.
  { intros c Hc. transitivity (Z.log2 255); [apply Z.log2_le_mono; lia|done]. }
  pose proof (Hl a Ha). pose proof (Hl b Hb). lia.
Qed.

Lemma num_serialize_elem n : elem_ok (num_serialize n).
Proof.
  unfold elem_ok, num_serialize, size, MAX_SCRIPT_ELEMENT_SIZE.
  destruct (n =? 0); [split; [constructor|simpl; lia]|].
  set (a := u64 _). pose proof (length_abs_bytes 8 a). pose proof (bytes_ok_abs_bytes 8 a) as Hb.
  set (r := abs_bytes 8 a) in *. destruct (flag _ _).
  - split; [apply bytes_ok_snoc; [done|by case_match; unfold is_byte]|rewrite length_app; simpl; lia].
  - destruct (n <? 0); [|split; [done|lia]]. split.
    + apply bytes_ok_snoc; [by apply Forall_take|]. apply is_byte_lor; [by apply is_byte_nth|by unfold is_byte].
    + rewrite length_app, length_take. simpl. lia.
Qed.

Lemma bool_vch_elem b : elem_ok (bool_vch b).
Proof. destruct b; by_decision. Qed.

Lemma elem_ok_short v : bytes_ok v → (length v ≤ 64)%nat → elem_ok v.
Proof. intros. split; [done|]. unfold size, MAX_SCRIPT_ELEMENT_SIZE. lia. Qed.

Lemma script_num_safe m v : bytes_ok v → safe (λ n, Z.abs n < 2 ^ 31) (script_num m v).
Proof.
  intros Hv. unfold script_num.
  destruct (CScriptNum v m) eqn:E; cbn; [|done|..].
  - assert (CScriptNum v false = Ok a) as E'; [|by apply (CScriptNum_bytes v a Hv) in E' as [? _]].
    unfold CScriptNum in *. destruct (_ <? _); [done|]. by destruct (_ && _).
  - unfold CScriptNum in E. by repeat case_match.
  - unfold CScriptNum in E. by repeat case_match.
Qed.

Lemma at_ok v i : bytes_ok v → 0 ≤ i < size v → ∃ b, at_ v i = Ok b ∧ is_byte b.
Proof.
  intros Hv Hi. unfold at_, size in *. rewrite (proj2 (Z.ltb_ge _ _)) by lia.
  destruct (v !! Z.to_nat i) as [b|] eqn:E.
  - exists b. split; [done|]. by eapply Forall_lookup_1.
  - apply lookup_ge_None in E. lia.
Qed.

(** Reads [sig[i]] at a position known to be inside. *)
Ltac sig_read b Hb :=
  match goal with |- context [at_ ?v ?i ≫= _] =>
    let E := fresh "E" in
    destruct (at_ok v i) as (b & E & Hb); [assumption|lia|rewrite E; cbn [mbind outcome_bind]]
  end.
(** Takes the next early return. *)
Ltac sig_test :=
  match goal with |- safe _ (if ?b then _ else _) => destruct b eqn:?; [done|] end.

(** [IsValidSignatureEncoding] reads inside the signature only; a signature it
    accepts has room for both lengths and both integers. *)
Lemma IsValidSignatureEncoding_safe sig :
  bytes_ok sig →
  safe (λ b, b = true → ∃ lenR lenS, at_ sig 3 = Ok lenR ∧ at_ sig (5 + lenR) = Ok lenS ∧
          0 < lenR ∧ 0 < lenS ∧ lenR + lenS + 7 = size sig ∧ 9 ≤ size sig ≤ 73)
       (IsValidSignatureEncoding sig).
Proof.
  intros Hb. unfold IsValidSignatureEncoding, is_byte in *.
  destruct (Z.ltb_spec (size sig) 9); [done|]. destruct (Z.ltb_spec 73 (size sig)); [done|].
  sig_read s0 B0. sig_test. sig_read s1 B1. sig_test. sig_read lenR HR.
  unfold is_byte in HR. destruct (Z.leb_spec (size sig) (5 + lenR)); [done|].
  sig_read lenS HS. unfold is_byte in HS. destruct (Z.eqb_spec (lenR + lenS + 7) (size sig)); [|done]. cbn [negb].
  sig_read s2 B2. sig_test. destruct (Z.eqb_spec lenR 0); [done|]. sig_read s4 B4. sig_test.
  apply safe_bind with (P := λ _, True).
  { destruct (_ && _); [|done]. sig_read s5 B5. done. }
  intros padR _. sig_test. sig_read sR4 HR4. sig_test. destruct (Z.eqb_spec lenS 0); [done|].
  sig_read sR6 HR6. sig_test. apply safe_bind with (P := λ _, True).
  { destruct (Z.ltb_spec 1 lenS); [|done]. destruct (sR6 =? 0); [|done]. cbn [andb]. sig_read s7 B7. done. }
  intros padS _. sig_test. cbn. intros _. exists lenR, lenS. split_and!; (done || lia).
Qed.

Lemma IsLowDERSignature_safe sig : bytes_ok sig → safe (λ _, True) (IsLowDERSignature sig).
Proof.
  intros Hb. unfold IsLowDERSignature.
  eapply safe_bind; [by apply IsValidSignatureEncoding_safe|].
  intros [] Hv; [|done]. destruct (Hv eq_refl) as (lenR & lenS & E1 & E2 & _). cbn [negb].
  rewrite E1. cbn. rewrite E2. cbn. by case_match.
Qed.

Lemma CheckSignatureEncoding_safe sig flags : bytes_ok sig → safe (λ _, True) (CheckSignatureEncoding sig flags).
Proof.
  intros Hb. unfold CheckSignatureEncoding. destruct (_ =? _); [done|].
  apply safe_bind with (P := λ _, True).
  { destruct (flag _ _); [|done]. eapply safe_bind; [by apply IsValidSignatureEncoding_safe|done]. }
  intros invalid _. destruct invalid; [done|]. apply safe_bind with (P := λ _, True).
  { destruct (flag _ _); [by apply IsLowDERSignature_safe|done]. }
  intros _ _. by case_match.
Qed.

Lemma CheckPubKeyEncoding_safe key flags : safe (λ _, True) (CheckPubKeyEncoding key flags).
Proof. unfold CheckPubKeyEncoding. by case_match. Qed.

(** ** Every operation keeps the evaluator's invariant *)

Definition exec_ok (s : exec) : Prop :=
  Forall elem_ok (stack s) ∧ Forall elem_ok (altstack s) ∧ 0 ≤ nOpCount s ≤ 201.

Lemma stacktop_safe st i : Forall elem_ok st → safe elem_ok (stacktop st i).
Proof.
  intros Hst. unfold stacktop. destruct (_ <? _); [done|].
  destruct (st !! _) eqn:E; [|done]. by eapply (Forall_lookup_1 elem_ok).
Qed.

Lemma popstack_safe st : Forall elem_ok st → safe (Forall elem_ok) (popstack st).
Proof. intros [|]; done. Qed.

Lemma pop_n_safe n st : Forall elem_ok st → safe (Forall elem_ok) (pop_n n st).
Proof.
  revert st. induction n as [|n IH]; intros st Hst; [done|].
  cbn [pop_n]. eapply safe_bind; [by apply popstack_safe|apply IH].
Qed.

Lemma RIPEMD160_elem m : elem_ok (RIPEMD160 m).
Proof. apply elem_ok_short; [apply bytes_ok_RIPEMD160|rewrite length_RIPEMD160; lia]. Qed.
Lemma SHA1_elem m : elem_ok (SHA1 m).
Proof. apply elem_ok_short; [apply bytes_ok_SHA1|rewrite length_SHA1; lia]. Qed.
Lemma SHA256_elem m : elem_ok (SHA256 m).
Proof. apply elem_ok_short; [apply bytes_ok_SHA256|rewrite length_SHA256; lia]. Qed.

#[export] Hint Resolve num_serialize_elem bool_vch_elem RIPEMD160_elem SHA1_elem SHA256_elem : fc.

(** Operations that only rearrange the top of the stack. *)
Ltac stack_op :=
  match goal with
  | H : exec_ok ?s |- safe exec_ok _ =>
      destruct s as [? ? ? ? ?]; destruct H as (? & ? & ?); simpl in *;
      repeat case_match; simpl; try done;
      repeat match goal with H : Forall _ (_ :: _) |- _ => apply Forall_cons_1 in H as [? H] end;
      unfold exec_ok; simpl; split_and!; try lia; repeat apply Forall_cons_2; auto with fc
  end.

Section Safety.
Variable flags : Z.
Variable CheckSig : valtype → valtype → list Z → bool.

Lemma op_if_safe opcode s : exec_ok s → safe exec_ok (op_if opcode s).
Proof. intros Hs. unfold op_if, fExec, set_stack, set_vfExec. stack_op. Qed.
Lemma op_else_safe s : exec_ok s → safe exec_ok (op_else s).
Proof. intros Hs. unfold op_else, set_vfExec. stack_op. Qed.
Lemma op_endif_safe s : exec_ok s → safe exec_ok (op_endif s).
Proof. intros Hs. unfold op_endif, set_vfExec. stack_op. Qed.
Lemma op_verify_safe s : exec_ok s → safe exec_ok (op_verify s).
Proof. intros Hs. unfold op_verify, set_stack. stack_op. Qed.

Lemma stack_ops_safe s :
  exec_ok s → Forall (λ op, safe exec_ok (op s))
    [op_toaltstack; op_fromaltstack; op_2drop; op_2dup; op_3dup; op_2over; op_2rot; op_2swap; op_ifdup;
     op_depth; op_drop; op_dup; op_nip; op_over; op_rot; op_swap; op_tuck; op_size].
Proof.
  intros Hs. repeat apply Forall_cons_2; [..|constructor];
    unfold op_toaltstack, op_fromaltstack, op_2drop, op_2dup, op_3dup, op_2over, op_2rot, op_2swap, op_ifdup,
      op_depth, op_drop, op_dup, op_nip, op_over, op_rot, op_swap, op_tuck, op_size, set_stack, set_stacks;
    stack_op.
Qed.

Lemma op_pick_roll_safe opcode s : exec_ok s → safe exec_ok (op_pick_roll flags opcode s).
Proof.
  intros (Hst & Halt & Hn). unfold op_pick_roll. destruct (stack s) as [|x [|y st]] eqn:E; [done..|].
  apply Forall_cons_1 in Hst as [Hx Hst].
  eapply safe_bind; [apply script_num_safe, Hx|]. intros n _.
  apply safe_if; [done|]. intros _. eapply safe_bind; [by apply stacktop_safe|].
  intros v Hv. split; [|done]. cbn [stack set_stack]. constructor; [done|].
  destruct (_ =? _); [|done]. apply Forall_app. auto using Forall_take, Forall_drop.
Qed.

Lemma op_equal_safe opcode s : exec_ok s → safe exec_ok (op_equal opcode s).
Proof. intros Hs. unfold op_equal, set_stack. stack_op. Qed.

Lemma unary_num_safe opcode bn :
  one_of opcode [OP_1ADD; OP_1SUB; OP_NEGATE; OP_ABS; OP_NOT; OP_0NOTEQUAL] = true →
  Z.abs bn < 2 ^ 31 → safe (λ _, True) (unary_num opcode bn).
Proof.
  intros Hop Hbn. unfold one_of in Hop. cbn [existsb] in Hop.
  assert (∀ b, b = true → safe (E:=ScriptError) (λ _ : unit, True) (assert_that b)) as Ha by (by intros b ->).
  assert (safe (E:=ScriptError) (λ _ : Z, True) (num_neg bn)) as Hneg.
  { unfold num_neg. eapply safe_bind; [apply Ha|done]. unfold INT64_MIN. lia. }
  unfold unary_num. destruct (opcode =? OP_1ADD).
  { unfold num_add_assign. eapply safe_bind; [apply Ha|done]. unfold INT64_MAX, INT64_MIN. lia. }
  destruct (opcode =? OP_1SUB).
  { unfold num_sub_assign. eapply safe_bind; [apply Ha|done]. unfold INT64_MAX, INT64_MIN. lia. }
  destruct (opcode =? OP_NEGATE); [done|]. destruct (opcode =? OP_ABS); [by case_match|].
  destruct (opcode =? OP_NOT); [done|]. by destruct (opcode =? OP_0NOTEQUAL).
Qed.

Lemma op_unary_safe opcode s :
  one_of opcode [OP_1ADD; OP_1SUB; OP_NEGATE; OP_ABS; OP_NOT; OP_0NOTEQUAL] = true →
  exec_ok s → safe exec_ok (op_unary flags opcode s).
Proof.
  intros Hop (Hst & Halt & Hn). unfold op_unary. destruct (stack s) as [|x st] eqn:E; [done|].
  apply Forall_cons_1 in Hst as [Hx Hst].
  eapply safe_bind; [apply script_num_safe, Hx|]. intros n Hb.
  eapply safe_bind; [by apply unary_num_safe|]. intros m _. split; [|done]. constructor; auto with fc.
Qed.

Lemma binary_num_safe opcode bn1 bn2 :
  one_of opcode [OP_ADD; OP_SUB; OP_BOOLAND; OP_BOOLOR; OP_NUMEQUAL; OP_NUMEQUALVERIFY;
    OP_NUMNOTEQUAL; OP_LESSTHAN; OP_GREATERTHAN; OP_LESSTHANOREQUAL; OP_GREATERTHANOREQUAL;
    OP_MIN; OP_MAX] = true → safe (λ _, True) (binary_num opcode bn1 bn2).
Proof.
  unfold one_of, binary_num. cbn [existsb]. intros Hop.
  repeat match goal with |- safe _ (if opcode =? ?o then _ else _) => destruct (opcode =? o); [done|] end.
  done.
Qed.

Lemma op_binary_safe opcode s :
  one_of opcode [OP_ADD; OP_SUB; OP_BOOLAND; OP_BOOLOR; OP_NUMEQUAL; OP_NUMEQUALVERIFY;
    OP_NUMNOTEQUAL; OP_LESSTHAN; OP_GREATERTHAN; OP_LESSTHANOREQUAL; OP_GREATERTHANOREQUAL;
    OP_MIN; OP_MAX] = true → exec_ok s → safe exec_ok (op_binary flags opcode s).
Proof.
  intros Hop (Hst & Halt & Hn). unfold op_binary. destruct (stack s) as [|x [|y st]] eqn:E; [done..|].
  apply Forall_cons_1 in Hst as [Hx Hst]. apply Forall_cons_1 in Hst as [Hy Hst].
  eapply safe_bind; [apply script_num_safe, Hy|]. intros n1 _.
  eapply safe_bind; [apply script_num_safe, Hx|]. intros n2 _.
  eapply safe_bind; [by apply binary_num_safe|]. intros m _.
  cbn zeta. destruct (opcode =? _).
  - destruct (CastToBool _); [|done]. by split.
  - split; [|done]. constructor; auto with fc.
Qed.

Lemma op_within_safe s : exec_ok s → safe exec_ok (op_within flags s).
Proof.
  intros (Hst & Halt & Hn). unfold op_within. destruct (stack s) as [|x [|y [|z st]]] eqn:E; [done..|].
  apply Forall_cons_1 in Hst as [Hx Hst]. apply Forall_cons_1 in Hst as [Hy Hst]. apply Forall_cons_1 in Hst as [Hz Hst].
  eapply safe_bind; [apply script_num_safe, Hz|]. intros n1 _.
  eapply safe_bind; [apply script_num_safe, Hy|]. intros n2 _.
  eapply safe_bind; [apply script_num_safe, Hx|]. intros n3 _.
  split; [|done]. constructor; auto with fc.
Qed.

Lemma op_hash_safe opcode s : exec_ok s → safe exec_ok (op_hash opcode s).
Proof.
  intros (Hst & Halt & Hn). unfold op_hash. destruct (stack s) as [|x st] eqn:E; [done|].
  apply Forall_cons_1 in Hst as [_ Hst]. split; [|done]. constructor; [|done].
  unfold Hash160, Hash256. repeat case_match; auto with fc.
Qed.

Lemma op_checksig_safe opcode s : exec_ok s → safe exec_ok (op_checksig flags CheckSig opcode s).
Proof.
  intros (Hst & Halt & Hn). unfold op_checksig. destruct (stack s) as [|k [|g st]] eqn:E; [done..|].
  apply Forall_cons_1 in Hst as [_ Hst]. apply Forall_cons_1 in Hst as [[Hg _] Hst].
  destruct (FindAndDelete_ok (E:=ScriptError) (pbegincodehash s) (push_data g)) as [[sc n] ->].
  cbn [mbind outcome_bind].
  eapply safe_bind; [by apply CheckSignatureEncoding_safe|]. intros _ _.
  eapply safe_bind; [apply CheckPubKeyEncoding_safe|]. intros _ _.
  cbn zeta. destruct (opcode =? _).
  - destruct (CheckSig _ _ _); [|done]. by split.
  - split; [|done]. constructor; auto with fc.
Qed.

Lemma delete_sigs_safe n st isig sc :
  Forall elem_ok st → safe (λ _, True) (delete_sigs n st isig sc).
Proof.
  intros Hst. revert isig sc. induction n as [|n IH]; intros isig sc; [done|]. cbn [delete_sigs].
  eapply safe_bind; [by apply stacktop_safe|]. intros g _.
  destruct (FindAndDelete_ok (E:=ScriptError) sc (push_data g)) as [[sc' k] ->]. apply IH.
Qed.

(** The matching loop uses at most one round per key. *)
Lemma multisig_loop_safe fuel st sc isig ikey nSigs nKeys :
  Forall elem_ok st → nSigs ≤ nKeys ≤ Z.of_nat fuel →
  safe (λ _, True) (multisig_loop flags CheckSig fuel st sc isig ikey nSigs nKeys).
Proof.
  intros Hst. revert isig ikey nSigs nKeys. induction fuel as [|fuel IH]; intros isig ikey nSigs nKeys Hk;
    cbn [multisig_loop]; destruct (Z.leb_spec nSigs 0); try done; [lia|].
  eapply safe_bind; [by apply stacktop_safe|]. intros g [Hg _].
  eapply safe_bind; [by apply stacktop_safe|]. intros k _.
  eapply safe_bind; [by apply CheckSignatureEncoding_safe|]. intros _ _.
  eapply safe_bind; [apply CheckPubKeyEncoding_safe|]. intros _ _.
  cbn zeta. apply safe_if; [done|]. intros Hlt. apply IH. destruct (CheckSig g k sc); lia.
Qed.

Lemma op_checkmultisig_safe opcode s : exec_ok s → safe exec_ok (op_checkmultisig flags CheckSig opcode s).
Proof.
  intros (Hst & Halt & Hn). unfold op_checkmultisig. cbn zeta.
  apply safe_if; [done|]. intros _.
  eapply safe_bind; [by apply stacktop_safe|]. intros v [Hv _].
  eapply safe_bind; [by apply script_num_safe|]. intros nk _.
  apply safe_if; [done|]. intros Hnk. apply safe_if; [done|]. intros Hop. apply safe_if; [done|]. intros _.
  eapply safe_bind; [by apply stacktop_safe|]. intros v' [Hv' _].
  eapply safe_bind; [by apply script_num_safe|]. intros ns _.
  apply safe_if; [done|]. intros Hns. apply safe_if; [done|]. intros _.
  apply orb_false_iff in Hnk as [Hnk1 Hnk2]. apply orb_false_iff in Hns as [Hns1 Hns2].
  apply Z.ltb_ge in Hnk1, Hnk2, Hop, Hns1, Hns2.
  eapply safe_bind; [by apply delete_sigs_safe|]. intros sc _.
  eapply safe_bind; [apply multisig_loop_safe; [done|lia]|]. intros b _.
  eapply safe_bind; [by apply pop_n_safe|]. intros st Hst'. destruct st as [|dummy st]; [done|].
  apply Forall_cons_1 in Hst' as [_ Hst']. apply safe_if; [done|]. intros _.
  destruct (opcode =? _).
  - destruct b; [|done]. split; [done|]. split; [done|]. cbn. lia.
  - split; [constructor; auto with fc|]. split; [done|]. cbn. lia.
Qed.

Lemma exec_opcode_safe opcode pc s : exec_ok s → safe exec_ok (exec_opcode flags CheckSig opcode pc s).
Proof.
  intros Hs. pose proof (stack_ops_safe s Hs) as Hops.
  repeat match goal with H : Forall _ (_ :: _) |- _ => apply Forall_cons_1 in H as [? H] end.
  unfold exec_opcode.
  repeat (apply safe_if; [intros Hop|intros _]); try assumption; try done;
    auto using op_if_safe, op_else_safe, op_endif_safe, op_verify_safe, op_pick_roll_safe, op_equal_safe,
      op_unary_safe, op_binary_safe, op_within_safe, op_hash_safe, op_checksig_safe, op_checkmultisig_safe.
  - destruct Hs as (? & ? & ?). split; [|done]. constructor; auto with fc.
  - unfold op_nop. by case_match.
Qed.

(** ** The loop *)

Lemma bytes_ok_suffix c rest : bytes_ok (c ++ rest) → bytes_ok rest.
Proof. intros H. by apply Forall_app in H as [_ ?]. Qed.

Lemma GetOp2_bytes pc :
  bytes_ok pc → fRet (GetOp2 pc) = true → bytes_ok (vchRet (GetOp2 pc)) ∧ bytes_ok (pcRet (GetOp2 pc)).
Proof.
  unfold GetOp2. destruct pc as [|o pc]; [done|]. intros Hb. apply Forall_cons_1 in Hb as [_ Hb].
  destruct (o <=? OP_PUSHDATA4); [|done]. destruct (push_size o pc) as [|[n pc']] eqn:E; [done|].
  apply push_size_inr in E as (c & -> & _). apply bytes_ok_suffix in Hb.
  destruct (_ <? _); [done|]. intros _. cbn. auto using Forall_take, Forall_drop.
Qed.

Definition within_limits (s : exec) : Prop :=
  exec_ok s ∧ (length (stack s) + length (altstack s) ≤ 1000)%nat.

Lemma EvalScript_step_safe pc s :
  bytes_ok pc → exec_ok s →
  safe (λ r, within_limits r.1 ∧ bytes_ok r.2 ∧ (length r.2 < length pc)%nat) (EvalScript_step flags CheckSig pc s).
Proof.
  intros Hpc Hs. unfold EvalScript_step. cbn zeta.
  destruct (fRet (GetOp2 pc)) eqn:Er; [|done]. cbn [negb].
  destruct (GetOp2_bytes pc Hpc Er) as [Hv Hp]. pose proof (GetOp2_shorter pc Er) as Hlt.
  destruct (Z.ltb_spec MAX_SCRIPT_ELEMENT_SIZE (size (vchRet (GetOp2 pc)))) as [|Hsz]; [done|].
  set (n := if OP_16 <? _ then _ else _).
  destruct ((OP_16 <? opcodeRet (GetOp2 pc)) && (201 <? n)) eqn:Eop; [done|].
  assert (exec_ok (set_nOpCount s n)) as Hs'.
  { destruct Hs as (? & ? & ?). split_and!; [done|done|..]; unfold n in *; cbn [nOpCount set_nOpCount];
      destruct (OP_16 <? _); cbn [andb] in Eop; lia. }
  destruct (disabled_opcode _); [done|].
  eapply safe_bind with (P := exec_ok).
  - apply safe_if; intros _.
    + apply safe_if; [done|]. intros _. destruct Hs' as (? & ? & ?). split; [|done]. by constructor.
    + apply safe_if; intros _; [by apply exec_opcode_safe|done].
  - intros s' Hs''. apply safe_if; [done|]. intros Hl. apply Z.ltb_ge in Hl.
    split; [split; [done|cbn [fst]; lia]|done].
Qed.

Lemma EvalScript_loop_safe fuel pc s :
  bytes_ok pc → exec_ok s → (length pc ≤ fuel)%nat →
  safe (λ s', exec_ok s' ∧ ((pc = [] ∧ s' = s) ∨ within_limits s')) (EvalScript_loop flags CheckSig fuel pc s).
Proof.
  revert pc s. induction fuel as [|fuel IH]; intros [|x pc] s Hb Hs Hl; cbn [EvalScript_loop length] in *;
    try (by (simpl; auto)); [lia|].
  eapply safe_bind; [by apply EvalScript_step_safe|]. intros [s' pc'] (Hs' & Hb' & Hl'). cbn [fst snd length] in *.
  eapply safe_mono; [apply IH; [done|apply Hs'|lia]|]. intros s'' [H1 H2]. split; [done|]. right.
  by destruct H2 as [[-> ->]|].
Qed.

Lemma EvalScript_safe st script :
  bytes_ok script → Forall elem_ok st →
  safe (λ st', Forall elem_ok st' ∧ ((script = [] ∧ st' = st) ∨ (length st' ≤ 1000)%nat))
       (EvalScript flags CheckSig st script).
Proof.
  intros Hb Hst. unfold EvalScript. apply safe_if; [done|]. intros _.
  eapply safe_bind; [by apply EvalScript_loop_safe; [done|split_and!|]|].
  intros s [(H1 & _) H2]. destruct (vfExec s); [|done]. split; [done|].
  destruct H2 as [[-> ->]|[_ H2]]; [by left|right; lia].
Qed.
End Safety.

(** ** Running from a program point *)

Section Run.
Variable flags : Z.
Variable CheckSig : valtype → valtype → list Z → bool.
Notation step := (EvalScript_step flags CheckSig).
Notation loop := (EvalScript_loop flags CheckSig).

Lemma EvalScript_step_shorter pc s s' pc' :
  step pc s = Ok (s', pc') → pc' = pcRet (GetOp2 pc) ∧ (length pc' < length pc)%nat.
Proof.
  unfold EvalScript_step. cbn zeta. destruct (fRet (GetOp2 pc)) eqn:Er; [|done]. cbn [negb].
  pose proof (GetOp2_shorter pc Er). repeat (destruct (_ <? _) || destruct (_ && _) || destruct (disabled_opcode _)); try done;
  intros H'; apply outcome_bind_ok in H' as (a & _ & H'); destruct (1000 <? _); try done; injection H' as <- <-; done.
Qed.

Lemma EvalScript_loop_enough f1 f2 pc s :
  (length pc ≤ f1)%nat → (length pc ≤ f2)%nat → loop f1 pc s = loop f2 pc s.
Proof.
  revert f2 pc s. induction f1 as [|f1 IH]; intros [|f2] [|x pc] s H1 H2; simpl in H1, H2; try done; try lia.
  cbn [EvalScript_loop]. destruct (step (x :: pc) s) as [[s' pc']| | |] eqn:E; try done.
  apply EvalScript_step_shorter in E as [_ E]. simpl in *. apply IH; lia.
Qed.

(** [run pc s]: the loop with exactly the fuel it can need. *)
Definition run (pc : list Z) (s : exec) : result exec := loop (length pc) pc s.

Lemma run_nil s : run [] s = Ok s.
Proof. done. Qed.

Lemma run_step pc s :
  pc ≠ [] → run pc s = '(s', pc') ← step pc s; run pc' s'.
Proof.
  intros Hpc. unfold run. destruct pc as [|x pc]; [done|]. cbn [EvalScript_loop length].
  destruct (step (x :: pc) s) as [[s' pc']| | |] eqn:E; try done.
  apply EvalScript_step_shorter in E as [_ E]. simpl in *. apply EvalScript_loop_enough; lia.
Qed.

(** One opcode that is not a push, executed. *)
Lemma run_opcode opcode pc s :
  OP_16 < opcode → nOpCount s < 201 → fExec s = true → disabled_opcode opcode = false →
  run (opcode :: pc) s =
    (s' ← exec_opcode flags CheckSig opcode pc (set_nOpCount s (nOpCount s + 1));
     if 1000 <? Z.of_nat (length (stack s') + length (altstack s')) then Err SCRIPT_ERR_STACK_SIZE
     else run pc s').
Proof.
  unfold OP_16. intros Ho Hn He Hd. rewrite run_step by done. unfold EvalScript_step, GetOp2.
  unfold OP_PUSHDATA4, OP_16.
  rewrite (proj2 (Z.leb_gt opcode 0x4e)) by lia. cbn [fRet opcodeRet vchRet pcRet negb].
  change (MAX_SCRIPT_ELEMENT_SIZE <? size []) with false. cbv iota zeta.
  rewrite (proj2 (Z.ltb_lt 0x60 opcode)), (proj2 (Z.ltb_ge 201 _)), Hd, He by lia. cbn [andb orb].
  rewrite (proj2 (Z.leb_gt opcode 0x4e)), andb_false_r by lia.
  destruct (exec_opcode _ _ _ _ _); cbn [mbind outcome_bind]; try done. by case_match.
Qed.

Lemma CheckMinimalPush_push_op v :
  2 ≤ size v ≤ MAX_SCRIPT_ELEMENT_SIZE → CheckMinimalPush v (push_op (size v)) = true.
Proof.
  unfold MAX_SCRIPT_ELEMENT_SIZE. intros Hv. unfold CheckMinimalPush, push_op, OP_PUSHDATA1.
  rewrite (proj2 (Z.eqb_neq _ 0)), (proj2 (Z.eqb_neq _ 1)) by lia. cbn [andb].
  destruct (Z.ltb_spec (size v) 0x4c), (Z.leb_spec (size v) 75), (Z.leb_spec (size v) 255),
    (Z.leb_spec (size v) 65535); try lia; by rewrite ?Z.eqb_refl.
Qed.

(** One data push, executed. *)
Lemma run_push_minimal v rest s :
  size (push_data v ++ rest) < 2 ^ 32 → size v ≤ MAX_SCRIPT_ELEMENT_SIZE → CheckMinimalPush v (push_op (size v)) = true → fExec s = true →
  nOpCount s ≤ 201 → (length (stack s) + length (altstack s) < 1000)%nat →
  run (push_data v ++ rest) s = run rest (set_stack s (v :: stack s)).
Proof.
  intros Hsz Hv Hm He Hn Hl. rewrite run_step.
  2: { unfold push_data. repeat case_match; done. }
  unfold EvalScript_step. rewrite GetOp2_push_data by done. cbn [fRet opcodeRet vchRet pcRet negb]. cbv zeta.
  assert (0 ≤ size v) by (unfold size; lia). pose proof (push_op_bound (size v)) as Ho. rewrite (proj2 (Z.ltb_ge MAX_SCRIPT_ELEMENT_SIZE _)) by lia.
  assert (OP_PUSHDATA4 < OP_16) by done.
  rewrite (proj2 (Z.ltb_ge OP_16 _)) by lia. cbn [andb].
  assert (disabled_opcode (push_op (size v)) = false) as ->.
  { unfold disabled_opcode. apply not_true_is_false. intros H'. apply existsb_exists in H' as (o & Hin & Ho').
    apply Z.eqb_eq in Ho'. subst o. assert (Forall (λ o, OP_PUSHDATA4 < o) disabled_opcodes) as Hd by by_decision.
    rewrite List.Forall_forall in Hd. specialize (Hd _ Hin). unfold size in *. lia. }
  rewrite He, (proj2 (Z.leb_le 0 _)), (proj2 (Z.leb_le _ OP_PUSHDATA4)) by lia. cbn [andb].
  rewrite Hm, andb_false_r. cbn [mbind outcome_bind stack altstack set_stack set_nOpCount length].
  rewrite (proj2 (Z.ltb_ge 1000 _)) by lia. done.
Qed.
Lemma run_push v rest s :
  size (push_data v ++ rest) < 2 ^ 32 → 2 ≤ size v ≤ MAX_SCRIPT_ELEMENT_SIZE → fExec s = true →
  nOpCount s ≤ 201 → (length (stack s) + length (altstack s) < 1000)%nat →
  run (push_data v ++ rest) s = run rest (set_stack s (v :: stack s)).
Proof. intros Hsz Hv. apply run_push_minimal; [done|lia|by apply CheckMinimalPush_push_op]. Qed.
End Run.

(** ** Reachable states *)

Section Reachable.
Variable flags : Z.
Variable CheckSig : valtype → valtype → list Z → bool.

(** The states the loop passes through: program counter and evaluator state. *)
Inductive reaches (from : list Z * exec) : list Z * exec → Prop :=
| reaches_refl : reaches from from
| reaches_step pc s pc' s' :
    reaches from (pc, s) → EvalScript_step flags CheckSig pc s = Ok (s', pc') → reaches from (pc', s').

Lemma reaches_within_limits pc0 s0 pc s :
  bytes_ok pc0 → within_limits s0 → reaches (pc0, s0) (pc, s) → bytes_ok pc ∧ within_limits s.
Proof.
  intros Hb Hs Hr. remember (pc0, s0) as from eqn:Ef. remember (pc, s) as to eqn:Et. revert pc s Et.
  induction Hr as [|pc1 s1 pc2 s2 Hr IH Hstep]; intros pc s Et.
  - subst from. by injection Et as <- <-.
  - injection Et as <- <-. destruct (IH pc1 s1 eq_refl) as [Hb1 [Hs1 _]].
    pose proof (EvalScript_step_safe flags CheckSig pc1 s1 Hb1 Hs1) as H.
    by apply (safe_ok _ _ _ H) in Hstep as (? & ? & _).
Qed.
End Reachable.

Lemma run_EvalScript flags CheckSig st script :
  EvalScript flags CheckSig st script =
    if 10000 <? size script then Err SCRIPT_ERR_SCRIPT_SIZE
    else s ← run flags CheckSig script (Exec st [] [] 0 script);
         match vfExec s with [] => Ok (stack s) | _ => Err SCRIPT_ERR_UNBALANCED_CONDITIONAL end.
Proof. done. Qed.

(** A script that begins with a counted opcode in an empty conditional stack. *)
Lemma EvalScript_opcode flags CheckSig st opcode pc e :
  OP_16 < opcode → disabled_opcode opcode = false →
  (∀ s, stack s = st → exec_opcode flags CheckSig opcode pc s = Err e) →
  EvalScript flags CheckSig st (opcode :: pc) = Err (if 10000 <? size (opcode :: pc) then SCRIPT_ERR_SCRIPT_SIZE else e).
Proof.
  intros Ho Hd He. rewrite run_EvalScript. destruct (10000 <? size _); [done|].
  rewrite run_opcode by (done || (cbn; lia)). by rewrite He.
Qed.

(** A pay-to-script-hash script fails on an empty stack. *)
Lemma p2sh_needs_stack flags CheckSig script :
  IsPayToScriptHash script = true → ∃ e, EvalScript flags CheckSig [] script = Err e.
Proof.
  unfold IsPayToScriptHash. intros H. repeat (apply andb_true_iff in H as [H ?]).
  destruct script as [|b script]; [done|]. cbn [nth] in *.
  assert (b = OP_HASH160) as -> by lia. eexists. apply EvalScript_opcode; [done..|].
  intros s Hs. change (exec_opcode flags CheckSig OP_HASH160 script s) with (op_hash OP_HASH160 s).
  unfold op_hash. by rewrite Hs.
Qed.

(** ** Properties *)

(** C8: executing any script on any stack of well-formed elements ends with a
    result or an error code: no assertion of the evaluator or of [CScriptNum]
    fails, no signature byte is read out of bounds, every loop (the script, the
    key/signature matching, the deletion of signatures) terminates. *)
Theorem EvalScript_returns flags CheckSig st script :
  bytes_ok script → Forall elem_ok st → returns (EvalScript flags CheckSig st script).
Proof. intros Hb Hst. eapply safe_returns, EvalScript_safe; done. Qed.

Lemma EvalScript_returns_witness :
  returns (EvalScript SCRIPT_VERIFY_STRICTENC (λ _ _ _, true) [[0x80]; [1]] [OP_1ADD; OP_CHECKMULTISIG; 0x4d]).
Proof. apply EvalScript_returns; by_decision. Defined.

(** C5: the resource limits hold in every state of every run: at most 1000
    elements on both stacks together, at most 520 bytes per element, at most 201
    counted operations (keys of a multisig included). *)
Theorem eval_limits_invariant flags CheckSig st script pc s :
  bytes_ok script → Forall elem_ok st → (length st ≤ 1000)%nat →
  reaches flags CheckSig (script, Exec st [] [] 0 script) (pc, s) →
  (length (stack s) + length (altstack s) ≤ 1000)%nat ∧
  Forall elem_ok (stack s) ∧ Forall elem_ok (altstack s) ∧ 0 ≤ nOpCount s ≤ 201.
Proof.
  intros Hb Hst Hl Hr.
  assert (within_limits (Exec st [] [] 0 script)) as H0.
  { split; [split_and!; [done|constructor|done|done]|cbn; lia]. }
  by destruct (reaches_within_limits _ _ _ _ _ _ Hb H0 Hr) as [_ [(? & ? & ?) ?]].
Qed.

Lemma eval_limits_invariant_witness :
  ∃ s, (length (stack s) + length (altstack s) ≤ 1000)%nat ∧ 0 ≤ nOpCount s ≤ 201 ∧ stack s = [[2]; [2]].
Proof.
  set (s0 := Exec [] [] [] 0 [OP_2; OP_DUP]).
  destruct (eval_limits_invariant 0 (λ _ _ _, true) [] [OP_2; OP_DUP] [] (Exec [[2]; [2]] [] [] 1 [OP_2; OP_DUP]))
    as (H1 & _ & _ & H2); [by_decision|by_decision|simpl; lia| |].
  - eapply (reaches_step _ _ _ [OP_DUP] (Exec [[2]] [] [] 0 [OP_2; OP_DUP])); [|by vm_compute].
    eapply (reaches_step _ _ _ [OP_2; OP_DUP] s0); [apply reaches_refl|by vm_compute].
  - by eexists.
Defined.

Lemma VerifyScript_total flags CheckSig scriptSig scriptPubKey :
  bytes_ok scriptSig → bytes_ok scriptPubKey →
  returns (VerifyScript flags CheckSig scriptSig scriptPubKey).
Proof.
  intros H1 H2. eapply (safe_returns (λ _, True)). unfold VerifyScript.
  destruct (IsPushOnly_ok (E:=ScriptError) scriptSig) as [po ->]. cbn [mbind outcome_bind].
  destruct (flag flags SCRIPT_VERIFY_SIGPUSHONLY && negb po); [done|].
  eapply safe_bind; [apply EvalScript_safe; [done|constructor]|]. intros st [Hst _].
  pose proof (EvalScript_safe flags CheckSig st scriptPubKey H2 Hst) as Hs.
  destruct (EvalScript flags CheckSig st scriptPubKey) as [st'| | |] eqn:E; try done.
  cbn [mbind outcome_bind]. destruct st' as [|top st']; [done|].
  destruct (CastToBool top); [|done]. cbn [negb].
  destruct (flag flags SCRIPT_VERIFY_P2SH); [|done]. cbn [andb].
  destruct (IsPayToScriptHash scriptPubKey) eqn:Ep; [|done]. destruct po; [|done]. cbn [negb].
  destruct st as [|pubKey2 st].
  { destruct (p2sh_needs_stack flags CheckSig scriptPubKey Ep) as [e He]. congruence. }
  apply Forall_cons_1 in Hst as [[Hk _] Hst].
  eapply safe_bind; [by apply EvalScript_safe|]. intros st2 _. destruct st2; [done|]. by case_match.
Qed.

(** C2: verifying a spend ends with success or an error code; in particular the
    assertion that the copied stack of a pay-to-script-hash spend is not empty
    can never fail. *)
Theorem VerifyScript_returns flags CheckSig scriptSig scriptPubKey :
  bytes_ok scriptSig → bytes_ok scriptPubKey →
  returns (VerifyScript flags CheckSig scriptSig scriptPubKey).
Proof. apply VerifyScript_total. Qed.

Lemma VerifyScript_returns_witness :
  returns (VerifyScript SCRIPT_VERIFY_P2SH (λ _ _ _, false) (push_data [OP_1; OP_1])
    ([OP_HASH160] ++ push_data (replicate 20 7) ++ [OP_EQUAL])).
Proof. apply VerifyScript_returns; by_decision. Defined.

(** An output script that [IsUnspendable] lets the node prune fails in every
    execution, whatever the stack, the flags and the signature checker. *)
Theorem IsUnspendable_sound flags CheckSig st script :
  IsUnspendable script = true →
  EvalScript flags CheckSig st script = Err SCRIPT_ERR_OP_RETURN ∨
  EvalScript flags CheckSig st script = Err SCRIPT_ERR_SCRIPT_SIZE.
Proof.
  intros H. destruct script as [|b script]; [done|]. cbn in H. assert (b = OP_RETURN) as -> by lia.
  rewrite (EvalScript_opcode _ _ _ _ _ SCRIPT_ERR_OP_RETURN); [|done..]. case_match; auto.
Qed.

Lemma IsUnspendable_sound_witness :
  EvalScript 0 (λ _ _ _, true) [[1]] [OP_RETURN; 3; 1; 2; 3] = Err SCRIPT_ERR_OP_RETURN ∨
  EvalScript 0 (λ _ _ _, true) [[1]] [OP_RETURN; 3; 1; 2; 3] = Err SCRIPT_ERR_SCRIPT_SIZE.
Proof. apply IsUnspendable_sound. reflexivity. Defined.

(** ** Pay-to-public-key-hash *)

Definition p2pkh_script (h : list Z) : list Z :=
  [OP_DUP; OP_HASH160] ++ push_data h ++ [OP_EQUALVERIFY; OP_CHECKSIG].


Lemma size_p2pkh h : size h = 20 → size (p2pkh_script h) = 25.
Proof.
  intros Hh. unfold p2pkh_script. rewrite push_data_20 by done.
  unfold size in *. rewrite !length_app. simpl length. lia.
Qed.

Lemma push_data_inj a b : push_data a = push_data b → size a < 2 ^ 16 → size b < 2 ^ 16 → a = b.
Proof.
  intros E Ha Hb.
  assert (∀ v : list Z, size v < 2 ^ 16 → size (push_data v ++ []) < 2 ^ 32) as Hs.
  { intros v Hv. unfold push_data, size in *. repeat case_match; rewrite !length_app; simpl length; lia. }
  pose proof (GetOp2_push_data a [] (Hs a Ha)) as Ea. pose proof (GetOp2_push_data b [] (Hs b Hb)) as Eb.
  rewrite E, Eb in Ea. by injection Ea.
Qed.

Lemma decodes_p2pkh h :
  size h = 20 →
  decodes (p2pkh_script h) [[OP_DUP]; [OP_HASH160]; push_data h; [OP_EQUALVERIFY]; [OP_CHECKSIG]] [].
Proof.
  intros Hh. unfold p2pkh_script.
  apply (decodes_op [OP_DUP] ([OP_HASH160] ++ push_data h ++ [OP_EQUALVERIFY; OP_CHECKSIG])); [done..|].
  apply (decodes_op [OP_HASH160] (push_data h ++ [OP_EQUALVERIFY; OP_CHECKSIG])); [done..|].
  assert (size (push_data h ++ [OP_EQUALVERIFY; OP_CHECKSIG]) < 2 ^ 32) as Hs.
  { rewrite push_data_20 by done. unfold size in *. rewrite length_app. simpl length. lia. }
  apply (decodes_op (push_data h) [OP_EQUALVERIFY; OP_CHECKSIG]); [by rewrite GetOp2_push_data..|].
  apply (decodes_op [OP_EQUALVERIFY] [OP_CHECKSIG]); [done..|].
  apply (decodes_op [OP_CHECKSIG] []); [done..|]. by constructor.
Qed.

(** The signature is not part of a pay-to-public-key-hash script. *)
Lemma FindAndDelete_p2pkh {E} h sig :
  size h = 20 → size sig ≠ 20 → 2 ≤ size sig ≤ 520 →
  FindAndDelete (E:=E) (p2pkh_script h) (push_data sig) = Ok (p2pkh_script h, 0).
Proof.
  intros Hh Hne Hs. unfold FindAndDelete.
  assert (is_instr (push_data sig)) as Hi.
  { unfold is_instr. rewrite <- (app_nil_r (push_data sig)), GetOp2_push_data; [done|].
    unfold push_data, size in *. repeat case_match; rewrite !length_app; simpl length; lia. }
  destruct (push_data sig) as [|x b] eqn:Eb; [by destruct Hi|]. rewrite <- Eb in *. clear x b Eb.
  assert (∀ l, length l = 1%nat → l ≠ push_data sig) as H1.
  { intros l Hl E'. apply (f_equal length) in E'. unfold push_data, size in *. rewrite Hl, length_app in E'.
    repeat case_match; simpl length in E'; lia. }
  assert (push_data h ≠ push_data sig) as H2.
  { intros E'. apply push_data_inj in E'; [|lia..]. by subst. }
  assert (size (p2pkh_script h) < 2 ^ 32) as Hsz by (by rewrite size_p2pkh).
  rewrite (FindAndDelete_loop_spec _ _ _ _ Hi Hsz (decodes_p2pkh h Hh)) by (pose proof (size_p2pkh h Hh) as E25; unfold size in E25; simpl length at 1; lia).
  rewrite filter_all by (repeat constructor; first [exact H2 | by apply H1]).
  cbn [concat length app]. unfold p2pkh_script.
  rewrite filter_none by (repeat constructor; first [exact H2 | by apply H1]). by rewrite !app_nil_r.
Qed.

Lemma IsPushOnly_push {E} a rest :
  size (push_data a ++ rest) < 2 ^ 32 → IsPushOnly (E:=E) (push_data a ++ rest) = IsPushOnly rest.
Proof.
  intros Hs. unfold IsPushOnly.
  assert (∀ f1 f2 pc, (length pc ≤ f1)%nat → (length pc ≤ f2)%nat → IsPushOnly_loop (E:=E) f1 pc = IsPushOnly_loop f2 pc) as He.
  { clear. induction f1 as [|f1 IH]; intros [|f2] [|x pc] H1 H2; simpl in H1, H2; try done; try lia.
    cbn [IsPushOnly_loop]. destruct (fRet (GetOp2 (x :: pc))) eqn:Er; [|done]. cbn [negb].
    pose proof (GetOp2_shorter _ Er). simpl in *. destruct (_ <? _); [done|]. apply IH; lia. }
  destruct (push_data a) as [|x p] eqn:Ep; [by unfold push_data in Ep; repeat case_match|].
  cbn [app length IsPushOnly_loop]. pose proof (GetOp2_push_data a rest) as Eg. rewrite Ep in Eg. cbn [app] in Eg.
  rewrite Eg by done. cbn [fRet opcodeRet pcRet negb].
  pose proof (push_op_bound (size a)). rewrite (proj2 (Z.ltb_ge OP_16 _)) by (unfold OP_16, OP_PUSHDATA4, size in *; lia).
  apply He; rewrite ?length_app; lia.
Qed.

Definition script_elem (v : valtype) : Prop := 2 ≤ size v ≤ MAX_SCRIPT_ELEMENT_SIZE.

Lemma size_push_data v : size v ≤ MAX_SCRIPT_ELEMENT_SIZE → size (push_data v) ≤ size v + 3.
Proof.
  unfold MAX_SCRIPT_ELEMENT_SIZE, push_data, size. intros. repeat case_match; rewrite length_app; simpl length; lia.
Qed.

(** Running a pay-to-public-key-hash script on a signature and a key. *)
Lemma run_p2pkh flags CheckSig h sig pk :
  size h = 20 → script_elem sig → size sig ≠ 20 → script_elem pk →
  EvalScript flags CheckSig [pk; sig] (p2pkh_script h) =
    if bool_decide (Hash160 pk = h) then
      _ ← CheckSignatureEncoding sig flags;
      _ ← CheckPubKeyEncoding pk flags;
      Ok [bool_vch (CheckSig sig pk (p2pkh_script h))]
    else Err SCRIPT_ERR_EQUALVERIFY.
Proof.
  intros Hh Hsig Hne Hpk. rewrite run_EvalScript.
  rewrite size_p2pkh by done. change (10000 <? 25) with false. cbv iota.
  set (code := p2pkh_script h) at 2. unfold p2pkh_script at 1. cbn [app].
  rewrite run_opcode by done. change (exec_opcode flags CheckSig OP_DUP ?p ?s) with (op_dup s).
  cbn [op_dup stack set_nOpCount set_stack mbind outcome_bind altstack length].
  change (1000 <? Z.of_nat (3 + 0)) with false. cbv iota.
  rewrite run_opcode by done. change (exec_opcode flags CheckSig OP_HASH160 ?p ?s) with (op_hash OP_HASH160 s).
  cbn [op_hash stack set_nOpCount set_stack mbind outcome_bind altstack length nOpCount vfExec pbegincodehash].
  change (OP_HASH160 =? OP_RIPEMD160) with false. change (OP_HASH160 =? OP_SHA1) with false.
  change (OP_HASH160 =? OP_SHA256) with false. change (OP_HASH160 =? OP_HASH160) with true.
  change (1000 <? Z.of_nat (3 + 0)) with false. cbv iota.
  rewrite run_push; [|rewrite push_data_20 by done; unfold size in *; rewrite length_app; simpl length; lia
    |unfold MAX_SCRIPT_ELEMENT_SIZE; lia|done|done|cbn; lia].
  cbn [stack set_nOpCount set_stack altstack length nOpCount vfExec pbegincodehash].
  rewrite run_opcode by done. change (exec_opcode flags CheckSig OP_EQUALVERIFY ?p ?s) with (op_equal OP_EQUALVERIFY s).
  cbn [op_equal stack set_nOpCount set_stack altstack nOpCount vfExec pbegincodehash].
  change (OP_EQUALVERIFY =? OP_EQUALVERIFY) with true. cbv iota.
  destruct (bool_decide (Hash160 pk = h)); [|done].
  cbn [mbind outcome_bind stack altstack set_stack set_nOpCount length nOpCount vfExec pbegincodehash].
  change (1000 <? Z.of_nat (2 + 0)) with false. cbv iota.
  rewrite run_opcode by done. change (exec_opcode flags CheckSig OP_CHECKSIG ?p ?s) with (op_checksig flags CheckSig OP_CHECKSIG s).
  cbn [op_checksig stack set_nOpCount set_stack altstack nOpCount vfExec pbegincodehash].
  unfold code. rewrite FindAndDelete_p2pkh by done. cbn [mbind outcome_bind].
  destruct (CheckSignatureEncoding sig flags); [|done..]. cbn [mbind outcome_bind].
  destruct (CheckPubKeyEncoding pk flags); [|done..]. cbn [mbind outcome_bind].
  change (OP_CHECKSIG =? OP_CHECKSIGVERIFY) with false. cbv iota zeta.
  cbn [stack set_nOpCount set_stack altstack nOpCount vfExec pbegincodehash length].
  change (1000 <? Z.of_nat (1 + 0)) with false. cbv iota. done.
Qed.

(** C1: a spend of a pay-to-public-key-hash output with a signature and a key:
    it is accepted exactly when the key hashes to the one in the script, both
    encodings pass the checks the flags ask for, and the signature verifies for
    that key over the output script itself; otherwise the error says which. *)
Theorem VerifyScript_p2pkh flags CheckSig h sig pk :
  size h = 20 → script_elem sig → size sig ≠ 20 → script_elem pk →
  VerifyScript flags CheckSig (push_data sig ++ push_data pk) (p2pkh_script h) =
    if bool_decide (Hash160 pk = h) then
      _ ← CheckSignatureEncoding sig flags;
      _ ← CheckPubKeyEncoding pk flags;
      if CheckSig sig pk (p2pkh_script h) then Ok tt else Err SCRIPT_ERR_EVAL_FALSE
    else Err SCRIPT_ERR_EQUALVERIFY.
Proof.
  intros Hh Hsig Hne Hpk. unfold VerifyScript.
  pose proof (size_push_data sig (proj2 Hsig)). pose proof (size_push_data pk (proj2 Hpk)).
  assert (size (push_data sig ++ push_data pk ++ []) < 2 ^ 32) as Hs.
  { unfold script_elem, MAX_SCRIPT_ELEMENT_SIZE, size in *. rewrite !length_app. simpl length. lia. }
  assert (size (push_data pk ++ []) < 2 ^ 32) as Hs'.
  { unfold size in *. rewrite !length_app in *. lia. }
  rewrite <- (app_nil_r (push_data pk)). rewrite !IsPushOnly_push by done. cbn [IsPushOnly IsPushOnly_loop length].
  cbn [mbind outcome_bind negb]. rewrite andb_false_r.
  assert (EvalScript flags CheckSig [] (push_data sig ++ push_data pk ++ []) = Ok [pk; sig]) as ->.
  { rewrite run_EvalScript. rewrite (proj2 (Z.ltb_ge 10000 _)).
    2: { unfold script_elem, MAX_SCRIPT_ELEMENT_SIZE, size in *. rewrite !length_app. simpl length. lia. }
    rewrite run_push; [|done|exact Hsig|done|done|cbn; lia]. rewrite run_push; [|done|exact Hpk|done|done|cbn; lia].
    done. }
  cbn [mbind outcome_bind]. rewrite (run_p2pkh flags CheckSig h sig pk) by done.
  destruct (bool_decide _); [|done]. destruct (CheckSignatureEncoding sig flags); [|done..]. cbn [mbind outcome_bind].
  destruct (CheckPubKeyEncoding pk flags); [|done..]. cbn [mbind outcome_bind].
  destruct (CheckSig _ _ _); [|done]. cbn [bool_vch CastToBool vchTrue].
  unfold IsPayToScriptHash. rewrite size_p2pkh by done. cbn -[flag]. by rewrite andb_false_r.
Qed.

Definition p2pkh_sig : list Z := [0x30; 6; 2; 1; 1; 2; 1; 1; 1].
Definition p2pkh_key : list Z := 2 :: replicate 32 7.

Lemma VerifyScript_p2pkh_witness :
  VerifyScript 0 (λ sig _ _, bool_decide (sig = p2pkh_sig)) (push_data p2pkh_sig ++ push_data p2pkh_key)
    (p2pkh_script (Hash160 p2pkh_key)) = Ok tt ∧
  VerifyScript 0 (λ _ _ _, true) (push_data p2pkh_sig ++ push_data p2pkh_key)
    (p2pkh_script (replicate 20 0)) = Err SCRIPT_ERR_EQUALVERIFY.
Proof.
  split; rewrite VerifyScript_p2pkh by (by_decision || (vm_compute; (discriminate || split; discriminate)));
    vm_compute; reflexivity.
Defined.

(** ** Multisignature *)

(** Signatures in the order of their keys: each key is tried once. *)
Fixpoint match_sigs (verifies : valtype → valtype → bool) (sigs keys : list valtype) : bool :=
  match sigs, keys with
  | [], _ => true
  | _ :: _, [] => false
  | g :: sigs', k :: keys' =>
      if verifies g k then match_sigs verifies sigs' keys' else match_sigs verifies sigs keys'
  end.

Lemma match_sigs_short V sigs keys : (length keys < length sigs)%nat → match_sigs V sigs keys = false.
Proof.
  revert sigs. induction keys as [|k keys IH]; intros [|g sigs] H; simpl in H; try lia; [done|].
  cbn [match_sigs]. destruct (V g k); apply IH; simpl; lia.
Qed.

(** The greedy matching finds an assignment whenever one exists. *)
Lemma match_sigs_spec V sigs keys :
  match_sigs V sigs keys = true ↔
  ∃ ks, ks `sublist_of` keys ∧ Forall2 (λ g k, V g k = true) sigs ks.
Proof.
  revert sigs. induction keys as [|k keys IH]; intros [|g sigs]; cbn [match_sigs].
  - split; [|done]. intros _. exists []. by split; [apply sublist_nil_l|].
  - split; [done|]. intros (ks & Hs & H2). apply sublist_nil_r in Hs as ->. inversion H2.
  - split; [|done]. intros _. exists []. by split; [apply sublist_nil_l|].
  - destruct (V g k) eqn:EV; rewrite IH.
    + split; intros (ks & Hs & H2).
      * exists (k :: ks). by split; constructor.
      * destruct ks as [|k' ks]; [by inversion H2|]. apply Forall2_cons_1 in H2 as [_ H2].
        exists ks. split; [|done]. apply sublist_cons_r in Hs as [Hs|(l & E & Hs)].
        -- etrans; [|exact Hs]. by apply sublist_cons.
        -- by simplify_eq.
    + split; intros (ks & Hs & H2).
      * exists ks. split; [by apply sublist_cons|done].
      * destruct ks as [|k' ks]; [by inversion H2|]. exists (k' :: ks). split; [|done].
        apply sublist_cons_r in Hs as [Hs|(l & E & Hs)]; [done|]. simplify_eq.
        apply Forall2_cons_1 in H2 as [H2 _]. congruence.
Qed.

Section multisig.
Context (flags : Z) (CheckSig : list Z → list Z → list Z → bool).

Fixpoint drop_sigs (sigs : list valtype) (sc : list Z) : result (list Z) :=
  match sigs with
  | [] => Ok sc
  | g :: sigs => '(sc, _) ← FindAndDelete sc (push_data g); drop_sigs sigs sc
  end.

Lemma drop_sigs_ok sigs sc : ∃ sc', drop_sigs sigs sc = Ok sc'.
Proof.
  revert sc. induction sigs as [|g sigs IH]; intros sc; [by eexists|]. cbn [drop_sigs].
  destruct (FindAndDelete_ok (E:=ScriptError) sc (push_data g)) as [[sc' n] ->]. apply IH.
Qed.

Definition at_pos (st : list valtype) (i : Z) (l : list valtype) : Prop :=
  1 ≤ i ∧ ∃ rest, drop (Z.to_nat (i - 1)) st = l ++ rest.

Lemma at_pos_cons st i x l : at_pos st i (x :: l) → stacktop st i = Ok x ∧ at_pos st (i + 1) l.
Proof.
  intros [Hi [rest E]]. assert (st !! Z.to_nat (i - 1) = Some x) as El.
  { by rewrite <- (Nat.add_0_r (Z.to_nat (i - 1))), <- lookup_drop, E. }
  split.
  - unfold stacktop. rewrite (proj2 (Z.ltb_ge i 1)) by lia. by rewrite El.
  - split; [lia|]. exists rest. replace (Z.to_nat (i + 1 - 1)) with (S (Z.to_nat (i - 1))) by lia.
    apply drop_S in El. rewrite E in El. by injection El.
Qed.

Lemma delete_sigs_at st i sigs sc : at_pos st i sigs → delete_sigs (length sigs) st i sc = drop_sigs sigs sc.
Proof.
  revert i sc. induction sigs as [|g sigs IH]; intros i sc H; [done|]. apply at_pos_cons in H as [E H].
  cbn [length delete_sigs drop_sigs]. rewrite E. cbn [mbind outcome_bind].
  destruct (FindAndDelete _ _) as [[sc' n]| | |]; [|done..]. cbn [mbind outcome_bind]. by apply IH.
Qed.

Lemma multisig_loop_at fuel st sc i j sigs keys :
  at_pos st i sigs → at_pos st j keys → (length sigs ≤ length keys ≤ fuel)%nat →
  Forall (λ g, CheckSignatureEncoding g flags = Ok tt) sigs →
  Forall (λ k, CheckPubKeyEncoding k flags = Ok tt) keys →
  multisig_loop flags CheckSig fuel st sc i j (Z.of_nat (length sigs)) (Z.of_nat (length keys)) =
    Ok (match_sigs (λ g k, CheckSig g k sc) sigs keys).
Proof.
  revert i j sigs keys. induction fuel as [|fuel IH]; intros i j [|g sigs] [|k keys] Hi Hj Hl Hg Hk;
    simpl length in Hl; try lia; try done.
  pose proof (at_pos_cons _ _ _ _ Hi) as [Eg Hi']. pose proof (at_pos_cons _ _ _ _ Hj) as [Ek Hj'].
  pose proof (Forall_cons_1 _ _ _ Hg) as [Hg1 Hg2]. apply Forall_cons_1 in Hk as [Hk1 Hk2].
  cbn [multisig_loop match_sigs]. rewrite (proj2 (Z.leb_gt _ 0)) by (simpl length; lia).
  rewrite Eg, Ek. cbn [mbind outcome_bind]. rewrite Hg1, Hk1. cbn [mbind outcome_bind]. cbn zeta.
  replace (Z.of_nat (length (k :: keys)) - 1) with (Z.of_nat (length keys)) by (simpl length; lia).
  destruct (CheckSig g k sc).
  - replace (Z.of_nat (length (g :: sigs)) - 1) with (Z.of_nat (length sigs)) by (simpl length; lia).
    rewrite (proj2 (Z.ltb_ge _ _)) by lia. apply IH; [done..|lia|done|done].
  - destruct (Z.ltb_spec (Z.of_nat (length keys)) (Z.of_nat (length (g :: sigs)))).
    + rewrite match_sigs_short; [done|lia].
    + apply IH; [done|done|simpl length in *; lia|done|done].
Qed.

Lemma pop_n_drop n st : (n ≤ length st)%nat → pop_n n st = Ok (drop n st).
Proof.
  revert st. induction n as [|n IH]; intros [|x st] H; simpl in H; try done; [lia|].
  cbn [pop_n popstack mbind outcome_bind drop]. apply IH. lia.
Qed.

End multisig.

Lemma script_num_small m n : 0 ≤ n ≤ 20 → script_num m (num_serialize n) = Ok n ∧ getint n = n.
Proof.
  intros Hn. assert (∀ k, (k < 21)%nat → ∀ m, script_num m (num_serialize (Z.of_nat k)) = Ok (Z.of_nat k)) as H.
  { intros k Hk [|]; do 21 (destruct k as [|k]; [vm_compute; reflexivity|]); lia. }
  specialize (H (Z.to_nat n) ltac:(lia) m). rewrite Z2Nat.id in H by lia. split; [done|].
  unfold getint, INT32_MAX, INT32_MIN. repeat case_match; lia.
Qed.

(** The instruction runs the greedy matching. *)
Lemma op_checkmultisig_ok flags CheckSig s keys sigs dummy rest :
  let nk := Z.of_nat (length keys) in let ns := Z.of_nat (length sigs) in
  stack s = num_serialize nk :: keys ++ num_serialize ns :: sigs ++ dummy :: rest →
  ns ≤ nk ≤ 20 → nOpCount s + nk ≤ 201 →
  Forall (λ g, CheckSignatureEncoding g flags = Ok tt) sigs →
  Forall (λ k, CheckPubKeyEncoding k flags = Ok tt) keys →
  (flag flags SCRIPT_VERIFY_NULLDUMMY = true → dummy = []) →
  ∃ sc, drop_sigs sigs (pbegincodehash s) = Ok sc ∧
    op_checkmultisig flags CheckSig OP_CHECKMULTISIG s =
      Ok (set_stack (set_nOpCount s (nOpCount s + nk)) (bool_vch (match_sigs (λ g k, CheckSig g k sc) sigs keys) :: rest)).
Proof.
  intros nk ns Est Hn Hop Hg Hk Hdummy.
  destruct (drop_sigs_ok sigs (pbegincodehash s)) as [sc Esc].
  exists sc. split; [done|].
  set (st := stack s) in *.
  assert (Z.of_nat (length st) = nk + ns + 3 + Z.of_nat (length rest)) as Hlen.
  { rewrite Est. cbn [length]. rewrite length_app. cbn [length]. rewrite length_app. cbn [length]. unfold nk, ns. lia. }
  assert (at_pos st 1 (num_serialize nk :: keys)) as P1 by (split; [lia|]; exists (num_serialize ns :: sigs ++ dummy :: rest); by rewrite Est).
  assert (at_pos st (2 + nk) (num_serialize ns :: sigs)) as P2.
  { split; [lia|]. exists (dummy :: rest). rewrite Est. replace (Z.to_nat (2 + nk - 1)) with (S (length keys)) by (unfold nk; lia).
    cbn [drop]. by rewrite drop_app_length. }
  apply at_pos_cons in P1 as [E1 P1]. apply at_pos_cons in P2 as [E2 P2].
  destruct (script_num_small (flag flags SCRIPT_VERIFY_MINIMALDATA) nk) as [Ek1 Ek2]; [lia|].
  destruct (script_num_small (flag flags SCRIPT_VERIFY_MINIMALDATA) ns) as [Es1 Es2]; [lia|].
  unfold op_checkmultisig, fRequireMinimal. cbn zeta. fold st. rewrite Hlen. rewrite E1. cbn [mbind outcome_bind].
  rewrite (proj2 (Z.ltb_ge _ 1)) by lia. rewrite Ek1. cbn [mbind outcome_bind]. rewrite Ek2.
  rewrite (proj2 (Z.ltb_ge nk 0)), (proj2 (Z.ltb_ge 20 nk)) by lia. cbn [orb].
  rewrite (proj2 (Z.ltb_ge 201 _)) by lia. rewrite (proj2 (Z.ltb_ge _ (1 + 1 + nk))) by lia.
  change (1 + 1) with 2 in *. rewrite E2. cbn [mbind outcome_bind]. rewrite Es1. cbn [mbind outcome_bind]. rewrite Es2.
  rewrite (proj2 (Z.ltb_ge ns 0)), (proj2 (Z.ltb_ge nk ns)) by lia. cbn [orb].
  rewrite (proj2 (Z.ltb_ge _ (2 + nk + 1 + ns))) by lia.
  replace (Z.to_nat ns) with (length sigs) by (unfold ns; lia). replace (Z.to_nat nk) with (length keys) by (unfold nk; lia).
  rewrite (delete_sigs_at st _ sigs) by done. rewrite Esc. cbn [mbind outcome_bind].
  rewrite (multisig_loop_at _ _ _ _ sc _ _ sigs keys) by (done || lia). cbn [mbind outcome_bind].
  rewrite pop_n_drop by lia. cbn [mbind outcome_bind].
  replace (drop _ st) with (dummy :: rest).
  2: { rewrite Est. replace (Z.to_nat (2 + nk + 1 + ns - 1)) with (S (length keys + S (length sigs))) by (unfold nk, ns; lia).
       cbn [drop]. rewrite <- drop_drop, drop_app_length. cbn [drop]. by rewrite drop_app_length. }
  destruct (flag flags SCRIPT_VERIFY_NULLDUMMY) eqn:Ef; [rewrite (Hdummy eq_refl)|]; done.
Qed.

(** C3: OP_CHECKMULTISIG on a well-formed stack (n keys, m signatures with
    m ≤ n ≤ 20, encodings the flags accept) consumes all its arguments and the
    extra one, and pushes true exactly when the signatures can be assigned in
    order to a subsequence of the keys, each verifying over the script with every
    signature removed. *)
Theorem op_checkmultisig_spec flags CheckSig s keys sigs dummy rest :
  let nk := Z.of_nat (length keys) in let ns := Z.of_nat (length sigs) in
  stack s = num_serialize nk :: keys ++ num_serialize ns :: sigs ++ dummy :: rest →
  ns ≤ nk ≤ 20 → nOpCount s + nk ≤ 201 →
  Forall (λ g, CheckSignatureEncoding g flags = Ok tt) sigs →
  Forall (λ k, CheckPubKeyEncoding k flags = Ok tt) keys →
  (flag flags SCRIPT_VERIFY_NULLDUMMY = true → dummy = []) →
  ∃ sc b, drop_sigs sigs (pbegincodehash s) = Ok sc ∧
    op_checkmultisig flags CheckSig OP_CHECKMULTISIG s =
      Ok (set_stack (set_nOpCount s (nOpCount s + nk)) (bool_vch b :: rest)) ∧
    (b = true ↔ ∃ ks, ks `sublist_of` keys ∧ Forall2 (λ g k, CheckSig g k sc = true) sigs ks).
Proof.
  intros nk ns Est Hn Hop Hg Hk Hdummy.
  destruct (op_checkmultisig_ok flags CheckSig s keys sigs dummy rest Est Hn Hop Hg Hk Hdummy) as (sc & Esc & E).
  exists sc, (match_sigs (λ g k, CheckSig g k sc) sigs keys). split_and!; [done|done|apply match_sigs_spec].
Qed.

Lemma op_checkmultisig_spec_witness :
  let s := Exec [[2]; [3]; [5]; [1]; [3]; []; [9]] [] [] 0 [] in
  ∃ sc b, drop_sigs [[3]] [] = Ok sc ∧
    op_checkmultisig 0 (λ g k _, bool_decide (g = k)) OP_CHECKMULTISIG s =
      Ok (set_stack (set_nOpCount s (0 + 2)) (bool_vch b :: [[9]])) ∧
    (b = true ↔ ∃ ks, ks `sublist_of` [[3]; [5]] ∧ Forall2 (λ g k, bool_decide (g = k) = true) [[3]] ks).
Proof.
  apply (op_checkmultisig_spec 0 _ (Exec [[2]; [3]; [5]; [1]; [3]; []; [9]] [] [] 0 []) [[3]; [5]] [[3]] [] [[9]]);
    [reflexivity|by_decision|by_decision|repeat constructor..|done].
Defined.
