(* ===== verification/Transaction.v ===== *)
(** * Transactions (primitives/transaction.h, transaction.cpp, amount.cpp, main.cpp)

    [COutPoint], [CTxIn], [CTxOut] and [CTransaction] with their wire format,
    hashes and classification, amounts and fees, the context-free check
    [CheckTransaction], [IsFinalTx] and the legacy signature-operation count.
    A 256-bit hash is its value, an integer below 2^256; in memory and on the
    wire it is the 32 bytes of that value, least significant first. *)
From stdpp Require Import base tactics list gmap numbers option.
From Stdlib Require Import ZArith Lia.
From S2P Require Import Prelude.
From S2P Require Import Serialize.
From S2P Require Import Crypto.
From S2P Require Import ScriptCode.

(** ** 256-bit hashes *)

Definition ser_uint256 (h : Z) : list Z := WRITEDATA 32 h.
Definition unser_uint256 : reader Z := READDATA 32.

(** The hash of a byte string, as a number. *)
Definition uint256_of_bytes (bs : list Z) : Z := le_value bs.

(** [SerializeHash(obj)] *)
Definition SerializeHash {A} `{Serial A} (obj : A) : Z := uint256_of_bytes (Hash256 (ser obj)).

(** ** Data *)

Record COutPoint := OutPoint { prevout_hash : Z; prevout_n : Z }.

Record CTxIn := TxIn {
  prevout : COutPoint;
  scriptSig : list Z;
  nSequence : Z;
  prevPubKey : list Z     (** memory only *)
}.

Record CTxOut := TxOut {
  nValue : Z;
  scriptPubKey : list Z;
  nRounds : Z             (** memory only *)
}.

Record CTransaction := Tx {
  tx_hash : Z;            (** memory only: the cached hash *)
  nVersion : Z;
  vin : list CTxIn;
  vout : list CTxOut;
  nLockTime : Z
}.

#[export] Instance COutPoint_eq_dec : EqDecision COutPoint.
Proof. solve_decision. Defined.
#[export] Instance CTxIn_eq_dec : EqDecision CTxIn.
Proof. solve_decision. Defined.
#[export] Instance CTxOut_eq_dec : EqDecision CTxOut.
Proof. solve_decision. Defined.
#[export] Instance COutPoint_countable : Countable COutPoint.
Proof.
  apply (inj_countable' (λ o, (prevout_hash o, prevout_n o)) (λ p, OutPoint p.1 p.2)). by intros [].
Defined.

Definition UINT32_MAX : Z := 4294967295.

Definition COutPoint_null : COutPoint := OutPoint 0 UINT32_MAX.
Definition COutPoint_IsNull (o : COutPoint) : bool := (prevout_hash o =? 0) && (prevout_n o =? UINT32_MAX).
Definition COutPoint_lt (a b : COutPoint) : bool :=
  (prevout_hash a <? prevout_hash b) || ((prevout_hash a =? prevout_hash b) && (prevout_n a <? prevout_n b)).

Definition CTxIn_IsFinal (i : CTxIn) : bool := nSequence i =? UINT32_MAX.
(** [operator==] of inputs: the memory-only field is not compared. *)
Definition CTxIn_eq (a b : CTxIn) : bool :=
  bool_decide (prevout a = prevout b ∧ scriptSig a = scriptSig b ∧ nSequence a = nSequence b).

Definition CTxOut_null : CTxOut := TxOut (-1) [] (-10).
Definition CTxOut_IsNull (o : CTxOut) : bool := nValue o =? -1.
Definition CTxOut_SetEmpty (o : CTxOut) : CTxOut := TxOut 0 [] (nRounds o).
Definition CTxOut_IsEmpty (o : CTxOut) : bool := (nValue o =? 0) && (size (scriptPubKey o) =? 0).

Definition CURRENT_VERSION : Z := 1.
Definition CTransaction_new : CTransaction := Tx 0 CURRENT_VERSION [] [] 0.

Definition IsNull (tx : CTransaction) : bool :=
  match vin tx, vout tx with [], [] => true | _, _ => false end.

Definition IsCoinBase (tx : CTransaction) : bool :=
  match vin tx with [i] => COutPoint_IsNull (prevout i) | _ => false end.

Definition IsCoinStake (tx : CTransaction) : bool :=
  match vin tx, vout tx with
  | i :: _, o :: _ :: _ => negb (COutPoint_IsNull (prevout i)) && CTxOut_IsEmpty o
  | _, _ => false
  end.

(** [vout[1]] and [vout[n]] are read only after the size tests. *)
Definition IsMasternodeReward (o : COutPoint) (tx : CTransaction) : bool :=
  if negb (IsCoinStake tx) then false
  else (prevout_n o =? Z.of_nat (length (vout tx)) - 1) &&
       match vout tx !! 1%nat, vout tx !! Z.to_nat (prevout_n o) with
       | Some a, Some b => negb (bool_decide (scriptPubKey a = scriptPubKey b))
       | _, _ => false
       end.

(** ** Wire format *)

(** [FLATDATA( *this )]: the 36 bytes of the object. *)
Definition ser_outpoint (o : COutPoint) : list Z := ser_uint256 (prevout_hash o) ++ WRITEDATA 4 (prevout_n o).
Definition unser_outpoint : reader COutPoint := λ s,
  '(hash, s) ← unser_uint256 s; '(n, s) ← READDATA 4 s; Ok (OutPoint hash n, s).

Definition ser_txin (i : CTxIn) : list Z :=
  ser_outpoint (prevout i) ++ ser_blob (scriptSig i) ++ WRITEDATA 4 (nSequence i).
Definition unser_txin : reader CTxIn := λ s,
  '(prevout, s) ← unser_outpoint s;
  '(scriptSig, s) ← unser_blob s;
  '(nSequence, s) ← READDATA 4 s;
  Ok (TxIn prevout scriptSig nSequence [], s).

Definition ser_txout (o : CTxOut) : list Z := WRITEDATA 8 (nValue o) ++ ser_blob (scriptPubKey o).
Definition unser_txout : reader CTxOut := λ s,
  '(nValue, s) ← READDATA_signed 8 s;
  '(scriptPubKey, s) ← unser_blob s;
  Ok (TxOut nValue scriptPubKey (-10), s).

Definition outpoint_ok (o : COutPoint) : Prop := is_u 256 (prevout_hash o) ∧ is_u 32 (prevout_n o).
Definition script_ok (s : list Z) : Prop := bytes_ok s ∧ size s ≤ MAX_SIZE.
Definition txin_ok (i : CTxIn) : Prop :=
  outpoint_ok (prevout i) ∧ script_ok (scriptSig i) ∧ is_u 32 (nSequence i) ∧ prevPubKey i = [].
Definition txout_ok (o : CTxOut) : Prop :=
  is_s 64 (nValue o) ∧ script_ok (scriptPubKey o) ∧ nRounds o = -10.

#[export] Instance outpoint_ok_dec o : Decision (outpoint_ok o).
Proof. unfold outpoint_ok. apply _. Defined.
#[export] Instance script_ok_dec s : Decision (script_ok s).
Proof. unfold script_ok. apply _. Defined.
#[export] Instance txin_ok_dec i : Decision (txin_ok i).
Proof. unfold txin_ok. apply _. Defined.
#[export] Instance txout_ok_dec o : Decision (txout_ok o).
Proof. unfold txout_ok. apply _. Defined.

Lemma bytes_ok_ser_blob v : bytes_ok v → bytes_ok (ser_blob v).
Proof. intros. apply Forall_app. auto with fc. Qed.
#[export] Hint Resolve bytes_ok_ser_blob : fc.

Lemma uint256_of_bytes_range l : bytes_ok l → length l = 32%nat → 0 ≤ uint256_of_bytes l < 2 ^ 256.
Proof.
  intros Hb Hl. unfold uint256_of_bytes. pose proof (le_value_bound l Hb) as H. rewrite Hl in H. exact H.
Qed.

Lemma unser_uint256_ser h rest : is_u 256 h → unser_uint256 (ser_uint256 h ++ rest) = Ok (h, rest).
Proof. intros. by apply READDATA_WRITEDATA. Qed.
Lemma READDATA4_WRITE z rest : is_u 32 z → READDATA 4 (WRITEDATA 4 z ++ rest) = Ok (z, rest).
Proof. intros. by apply READDATA_WRITEDATA. Qed.
Lemma READDATA8_WRITE z rest : is_s 64 z → READDATA_signed 8 (WRITEDATA 8 z ++ rest) = Ok (z, rest).
Proof. intros. apply READDATA_signed_WRITEDATA; [lia|done]. Qed.
Lemma READDATA4s_WRITE z rest : is_s 32 z → READDATA_signed 4 (WRITEDATA 4 z ++ rest) = Ok (z, rest).
Proof. intros. apply READDATA_signed_WRITEDATA; [lia|done]. Qed.
Lemma unser_script_ser v rest : script_ok v → unser_blob (ser_blob v ++ rest) = Ok (v, rest).
Proof. intros [_ Hs]. by apply unser_blob_ser. Qed.

(** Reads back a concatenation of fields. *)
Ltac unser_step :=
  rewrite <- ?app_assoc;
  first [rewrite unser_uint256_ser by done | rewrite READDATA4_WRITE by done | rewrite READDATA8_WRITE by done
        | rewrite READDATA4s_WRITE by done | rewrite unser_script_ser by done | rewrite unser_ser by done];
  cbn [mbind outcome_bind].

#[export] Program Instance serial_outpoint : Serial COutPoint := {|
  ser := ser_outpoint; unser := unser_outpoint; ser_ok := outpoint_ok |}.
Next Obligation. intros o _. apply Forall_app. split; apply bytes_ok_WRITEDATA. Qed.
Next Obligation.
  intros [h n] rest [Hh Hn]. unfold ser_outpoint, unser_outpoint. cbn [prevout_hash prevout_n] in *.
  do 2 unser_step. done.
Qed.

#[export] Program Instance serial_txin : Serial CTxIn := {|
  ser := ser_txin; unser := unser_txin; ser_ok := txin_ok |}.
Next Obligation.
  intros i (Ho & [Hb _] & Hn & _). unfold ser_txin. rewrite !Forall_app. split_and!; auto with fc.
  exact (ser_bytes (prevout i) Ho).
Qed.
Next Obligation.
  intros [o sc n pk] rest (Ho & Hs & Hn & Hp). unfold ser_txin, unser_txin.
  cbn [prevout scriptSig nSequence prevPubKey] in *. subst pk.
  change (ser_outpoint o) with (ser o). change unser_outpoint with (unser (A:=COutPoint)). by do 3 unser_step.
Qed.

#[export] Program Instance serial_txout : Serial CTxOut := {|
  ser := ser_txout; unser := unser_txout; ser_ok := txout_ok |}.
Next Obligation. intros o (Hv & [Hb _] & _). apply Forall_app. auto with fc. Qed.
Next Obligation.
  intros [v sc r] rest (Hv & Hs & Hr). unfold ser_txout, unser_txout. cbn [nValue scriptPubKey nRounds] in *. subst r.
  by do 2 unser_step.
Qed.

(** The four serialized fields of a transaction; [nVersion] and [nLockTime]
    are 32 bits, the former signed. *)
Definition ser_tx (tx : CTransaction) : list Z :=
  WRITEDATA 4 (nVersion tx) ++ ser (vin tx) ++ ser (vout tx) ++ WRITEDATA 4 (nLockTime tx).

(** [UpdateHash] *)
Definition tx_SerializeHash (tx : CTransaction) : Z := uint256_of_bytes (Hash256 (ser_tx tx)).
Definition UpdateHash (tx : CTransaction) : CTransaction :=
  Tx (tx_SerializeHash tx) (nVersion tx) (vin tx) (vout tx) (nLockTime tx).

Definition unser_tx : reader CTransaction := λ s,
  '(nVersion, s) ← READDATA_signed 4 s;
  '(vin, s) ← unser s;
  '(vout, s) ← unser s;
  '(nLockTime, s) ← READDATA 4 s;
  Ok (UpdateHash (Tx 0 nVersion vin vout nLockTime), s).

(** [CMutableTransaction] has the same fields without the cached hash;
    [CTransaction(const CMutableTransaction &)] computes it. *)
Record CMutableTransaction := MTx { m_nVersion : Z; m_vin : list CTxIn; m_vout : list CTxOut; m_nLockTime : Z }.
Definition tx_of_mutable (m : CMutableTransaction) : CTransaction :=
  UpdateHash (Tx 0 (m_nVersion m) (m_vin m) (m_vout m) (m_nLockTime m)).
Definition mutable_of_tx (tx : CTransaction) : CMutableTransaction :=
  MTx (nVersion tx) (vin tx) (vout tx) (nLockTime tx).

Definition tx_ok (tx : CTransaction) : Prop :=
  is_s 32 (nVersion tx) ∧ ser_ok (vin tx) ∧ ser_ok (vout tx) ∧ is_u 32 (nLockTime tx) ∧
  tx_hash tx = tx_SerializeHash tx.

#[export] Program Instance serial_tx : Serial CTransaction := {|
  ser := ser_tx; unser := unser_tx; ser_ok := tx_ok |}.
Next Obligation.
  intros tx (_ & Hi & Ho & _). unfold ser_tx. rewrite !Forall_app.
  split_and!; [auto with fc| | |auto with fc]; by apply ser_bytes.
Qed.
Next Obligation.
  intros [h v i o l] rest (Hv & Hi & Ho & Hl & Hh). unfold ser_tx, unser_tx.
  cbn [nVersion vin vout nLockTime tx_hash] in *. do 4 unser_step.
  unfold UpdateHash. cbn [nVersion vin vout nLockTime]. by rewrite Hh.
Qed.

(** ** Amounts *)

Definition COIN : Z := 100000000.
Definition CENT : Z := 1000000.

(** [CFeeRate]: satoshis per 1000 bytes.  The size is a [size_t], so the
    divisions are unsigned. *)
Definition CFeeRate_of (nFeePaid nSize : Z) : Z :=
  if 0 <? nSize then s64 (u64 (nFeePaid * 1000) / nSize) else 0.
Definition GetFee (nSatoshisPerK nSize : Z) : Z :=
  let nFee := s64 (u64 (nSatoshisPerK * nSize) / 1000) in
  if (nFee =? 0) && (0 <? nSatoshisPerK) then nSatoshisPerK else nFee.

Definition IsDust (minRelayTxFee : Z) (o : CTxOut) : bool :=
  nValue o <? 3 * GetFee minRelayTxFee (size (ser o) + 148).

Inductive value_error := ValueNegative | ValueWraps.

(** [GetValueOut]: the second test compares after an [int64_t] addition whose
    overflow is undefined. *)
Fixpoint GetValueOut_loop (outs : list CTxOut) (nValueOut : Z) : outcome value_error Z :=
  match outs with
  | [] => Ok nValueOut
  | o :: outs =>
      if nValue o <? 0 then Err ValueNegative else
      sum ← add64 nValueOut (nValue o);
      if sum <? nValueOut then Err ValueWraps else
      GetValueOut_loop outs sum
  end.
Definition GetValueOut (tx : CTransaction) : outcome value_error Z := GetValueOut_loop (vout tx) 0.

(** [CalculateModifiedSize]: up to 151 bytes off per input. *)
Definition modified_size_step (nTxSize : Z) (i : CTxIn) : Z :=
  let offset := 41 + Z.min 110 (size (scriptSig i)) in
  if offset <? nTxSize then nTxSize - offset else nTxSize.
Definition CalculateModifiedSize (tx : CTransaction) (nTxSize : Z) : Z :=
  fold_left modified_size_step (vin tx) (if nTxSize =? 0 then size (ser tx) else nTxSize).

(** ** Checks *)

Definition MAX_BLOCK_SIZE : Z := 1000000.
Definition LOCKTIME_THRESHOLD : Z := 500000000.

Definition add_sigops {E A} (get : A → list Z) (acc : outcome E Z) (x : A) : outcome E Z :=
  nSigOps ← acc; n ← GetSigOpCount (get x) false; Ok (u32 (nSigOps + n)).
Definition GetLegacySigOpCount {E} (tx : CTransaction) : outcome E Z :=
  fold_left (add_sigops scriptPubKey) (vout tx) (fold_left (add_sigops scriptSig) (vin tx) (Ok 0)).

(** [IsFinalTx]: [height] and [adjusted] are [chainActive.Height()] and
    [GetAdjustedTime()], which stand in for arguments that are zero. *)
Definition IsFinalTx (height adjusted : Z) (tx : CTransaction) (nBlockHeight nBlockTime : Z) : bool :=
  if nLockTime tx =? 0 then true else
  let nBlockHeight := if nBlockHeight =? 0 then height else nBlockHeight in
  let nBlockTime := if nBlockTime =? 0 then adjusted else nBlockTime in
  if nLockTime tx <? (if nLockTime tx <? LOCKTIME_THRESHOLD then nBlockHeight else nBlockTime) then true
  else forallb CTxIn_IsFinal (vin tx).

Definition MoneyRange (nMaxMoneyOut nValueOut : Z) : bool := (0 <=? nValueOut) && (nValueOut <=? nMaxMoneyOut).

(** The ways [CheckTransaction] refuses, with the ban score of each. *)
Inductive tx_reject :=
| TxVinEmpty | TxVoutEmpty | TxOversize | TxOutEmpty | TxOutNegative | TxOutTooLarge
| TxTotalTooLarge | TxDuplicateInputs | TxCoinbaseLength | TxPrevoutNull.
Definition tx_reject_dos (e : tx_reject) : Z :=
  match e with TxVinEmpty | TxVoutEmpty | TxPrevoutNull => 10 | _ => 100 end.

Section CheckTransaction.
Context (nMaxMoneyOut : Z).

Fixpoint check_outputs (user : bool) (outs : list CTxOut) (nValueOut : Z) : outcome tx_reject unit :=
  match outs with
  | [] => Ok tt
  | o :: outs =>
      if CTxOut_IsEmpty o && user then Err TxOutEmpty else
      if nValue o <? 0 then Err TxOutNegative else
      if nMaxMoneyOut <? nValue o then Err TxOutTooLarge else
      nValueOut ← add64 nValueOut (nValue o);
      if negb (MoneyRange nMaxMoneyOut nValueOut) then Err TxTotalTooLarge else
      check_outputs user outs nValueOut
  end.

Fixpoint check_duplicates (ins : list CTxIn) (vInOutPoints : gset COutPoint) : outcome tx_reject unit :=
  match ins with
  | [] => Ok tt
  | i :: ins =>
      if bool_decide (prevout i ∈ vInOutPoints) then Err TxDuplicateInputs else
      check_duplicates ins ({[prevout i]} ∪ vInOutPoints)
  end.

Definition CheckTransaction (tx : CTransaction) : outcome tx_reject unit :=
  match vin tx, vout tx with
  | [], _ => Err TxVinEmpty
  | _, [] => Err TxVoutEmpty
  | i :: _, _ =>
      if MAX_BLOCK_SIZE <? size (ser tx) then Err TxOversize else
      _ ← check_outputs (negb (IsCoinBase tx) && negb (IsCoinStake tx)) (vout tx) 0;
      _ ← check_duplicates (vin tx) ∅;
      if IsCoinBase tx then
        if (size (scriptSig i) <? 2) || (150 <? size (scriptSig i)) then Err TxCoinbaseLength else Ok tt
      else if existsb (λ i, COutPoint_IsNull (prevout i)) (vin tx) then Err TxPrevoutNull
      else Ok tt
  end.

End CheckTransaction.

(** ** The wire format is canonical *)

(** Splits one field off a successful read. *)
Ltac read_field H :=
  let x := fresh "x" in let s := fresh "s" in let E := fresh "E" in
  apply outcome_bind_ok in H as ([x s] & E & H).

#[export] Instance canonical_outpoint : Canonical COutPoint.
Proof.
  intros s o s' Hs H. change (unser_outpoint s = Ok (o, s')) in H. unfold unser_outpoint, unser_uint256 in H.
  do 2 read_field H. injection H as <- <-.
  apply READDATA_ok in E as (-> & Hh & Hs1); [|done]. apply READDATA_ok in E0 as (-> & Hn & _); [|done].
  change (ser ?o) with (ser_outpoint o). unfold ser_outpoint, ser_uint256. cbn [prevout_hash prevout_n].
  rewrite <- app_assoc. done.
Qed.

#[export] Instance canonical_txin : Canonical CTxIn.
Proof.
  intros s i s' Hs H. change (unser_txin s = Ok (i, s')) in H. unfold unser_txin in H.
  change unser_outpoint with (unser (A:=COutPoint)) in H. do 3 read_field H. injection H as <- <-.
  apply unser_inv in E as [-> Ho]; [|done]. apply bytes_ok_tail in Hs.
  apply unser_blob_inv in E0 as (-> & Hb & Hl); [|done]. apply bytes_ok_tail in Hs.
  apply READDATA_ok in E1 as (-> & Hn & _); [|done].
  change (ser (TxIn ?a ?b ?c ?d)) with (ser_txin (TxIn a b c d)). unfold ser_txin. cbn [prevout scriptSig nSequence].
  change (ser_outpoint ?o) with (ser o). rewrite <- !app_assoc. done.
Qed.

#[export] Instance canonical_txout : Canonical CTxOut.
Proof.
  intros s o s' Hs H. change (unser_txout s = Ok (o, s')) in H. unfold unser_txout in H.
  do 2 read_field H. injection H as <- <-.
  apply READDATA_signed_ok in E as [-> Hv]; [|lia|done]. apply bytes_ok_tail in Hs.
  apply unser_blob_inv in E0 as (-> & Hb & Hl); [|done].
  change (ser ?o) with (ser_txout o). unfold ser_txout. cbn [nValue scriptPubKey]. rewrite <- !app_assoc. done.
Qed.

#[export] Instance canonical_tx : Canonical CTransaction.
Proof.
  intros s tx s' Hs H. change (unser_tx s = Ok (tx, s')) in H. unfold unser_tx in H.
  do 4 read_field H. injection H as <- <-.
  apply READDATA_signed_ok in E as [-> Hv]; [|lia|done]. apply bytes_ok_tail in Hs.
  apply unser_inv in E0 as [-> Hi]; [|done]. apply bytes_ok_tail in Hs.
  apply unser_inv in E1 as [-> Ho]; [|done]. apply bytes_ok_tail in Hs.
  apply READDATA_ok in E2 as (-> & Hn & _); [|done].
  change (ser (UpdateHash ?t)) with (ser_tx t). unfold ser_tx. cbn [nVersion vin vout nLockTime].
  rewrite <- !app_assoc. done.
Qed.

(** C31: transactions on the wire: reading gives a transaction and the rest of
    the stream exactly when the stream starts with that transaction's
    serialization and the transaction is well formed, its cached hash being the
    double SHA-256 of those bytes.  So the encoding round-trips, no other bytes
    decode to the same transaction, and the hash covers every byte read. *)
Theorem CTransaction_exact s tx s' :
  bytes_ok s → unser s = Ok (tx, s') ↔ s = ser tx ++ s' ∧ tx_ok tx.
Proof.
  intros Hs. split.
  - intros H. by apply unser_inv in H.
  - intros [-> Hok]. by apply (unser_ser tx).
Qed.

Lemma tx_ok_UpdateHash v i o l :
  is_s 32 v → Forall txin_ok i → Z.of_nat (length i) ≤ MAX_SIZE → Forall txout_ok o →
  Z.of_nat (length o) ≤ MAX_SIZE → is_u 32 l → tx_ok (UpdateHash (Tx 0 v i o l)).
Proof. intros. split_and!; [done|split; done|split; done|done|]. reflexivity. Qed.

Definition sample_tx : CTransaction :=
  UpdateHash (Tx 0 1 [TxIn (OutPoint 5 0) [1; 7] UINT32_MAX []] [TxOut 1000 [OP_1] (-10); TxOut 2000 [] (-10)] 0).

Lemma CTransaction_exact_witness : unser (ser sample_tx ++ [9]) = Ok (sample_tx, [9]).
Proof.
  apply (CTransaction_exact (ser sample_tx ++ [9]) sample_tx [9]); [by_decision|].
  split; [reflexivity|]. apply tx_ok_UpdateHash; by_decision.
Defined.

(** ** What [CheckTransaction] accepts *)

Definition sum_values (outs : list CTxOut) : Z := foldr (λ o s, nValue o + s) 0 outs.

Lemma sum_values_cons o outs : sum_values (o :: outs) = nValue o + sum_values outs.
Proof. done. Qed.
Lemma sum_values_nonneg outs : Forall (λ o, 0 ≤ nValue o) outs → 0 ≤ sum_values outs.
Proof. induction 1 as [|o outs Ho _ IH]; [done|]. rewrite sum_values_cons. lia. Qed.

Lemma check_outputs_spec maxm user outs acc :
  0 ≤ acc ≤ maxm → maxm < 2 ^ 62 →
  check_outputs maxm user outs acc = Ok tt ↔
  Forall (λ o, (user = true → CTxOut_IsEmpty o = false) ∧ 0 ≤ nValue o ≤ maxm) outs ∧
  acc + sum_values outs ≤ maxm.
Proof.
  intros Ha Hm. revert acc Ha. induction outs as [|o outs IH]; intros acc Ha.
  { cbn. rewrite Z.add_0_r. split; [intros _; split; [constructor|lia]|done]. }
  cbn [check_outputs sum_values foldr]. fold (sum_values outs). rewrite list.Forall_cons.
  destruct (CTxOut_IsEmpty o && user) eqn:Eu.
  { apply andb_true_iff in Eu as [E1 ->]. split; [done|]. intros [[[H _] _] _]. by rewrite (H eq_refl) in E1. }
  assert (user = true → CTxOut_IsEmpty o = false) as Hu by (intros ->; by rewrite andb_true_r in Eu).
  destruct (Z.ltb_spec (nValue o) 0); [split; [done|intros [[[_ ?] _] _]; lia]|].
  destruct (Z.ltb_spec maxm (nValue o)); [split; [done|intros [[[_ ?] _] _]; lia]|].
  rewrite add64_ok by (unfold INT64_MIN, INT64_MAX; lia). cbn [mbind outcome_bind].
  unfold MoneyRange. rewrite (proj2 (Z.leb_le 0 _)) by lia. cbn [andb].
  assert (Forall (λ o, (user = true → CTxOut_IsEmpty o = false) ∧ 0 ≤ nValue o ≤ maxm) outs → 0 ≤ sum_values outs) as Hs.
  { intros Hf. apply sum_values_nonneg. eapply list.Forall_impl; [exact Hf|]. cbn. lia. }
  destruct (Z.leb_spec (acc + nValue o) maxm); cbn [negb].
  - rewrite IH by lia. split; intros [? ?]; (split; [|lia]); [by split_and!|by destruct_and!].
  - split; [done|]. intros [[_ Hf] Hle]. specialize (Hs Hf). lia.
Qed.

Lemma check_duplicates_spec ins S :
  check_duplicates ins S = Ok tt ↔ NoDup (prevout <$> ins) ∧ Forall (λ i, prevout i ∉ S) ins.
Proof.
  revert S. induction ins as [|i ins IH]; intros S; cbn [check_duplicates fmap list_fmap].
  { split; [intros _; split; constructor|done]. }
  rewrite list.NoDup_cons, list.Forall_cons. case_bool_decide as Hin.
  - split; [done|]. intros [_ [? _]]. done.
  - rewrite IH. rewrite list_elem_of_fmap. split.
    + intros [Hn Hf]. rewrite list.Forall_forall in Hf. split; [split; [|done]|split; [done|]].
      * intros (j & E & Hj). apply (Hf j Hj). rewrite <- E. set_solver.
      * apply list.Forall_forall. intros j Hj. specialize (Hf j Hj). set_solver.
    + intros [[Hi Hn] [_ Hf]]. split; [done|]. rewrite list.Forall_forall in *. intros j Hj Hu.
      apply elem_of_union in Hu as [Hu|Hu]; [|by apply (Hf j)]. apply elem_of_singleton in Hu. apply Hi. by exists j.
Qed.

(** The declarative rule. *)
Record tx_valid (maxm : Z) (tx : CTransaction) : Prop := {
  tv_vin : vin tx ≠ [];
  tv_vout : vout tx ≠ [];
  tv_size : size (ser tx) ≤ MAX_BLOCK_SIZE;
  tv_empty : IsCoinBase tx = false → IsCoinStake tx = false → Forall (λ o, CTxOut_IsEmpty o = false) (vout tx);
  tv_values : Forall (λ o, 0 ≤ nValue o ≤ maxm) (vout tx);
  tv_total : sum_values (vout tx) ≤ maxm;
  tv_inputs : NoDup (prevout <$> vin tx);
  tv_coinbase : IsCoinBase tx = true → Forall (λ i, 2 ≤ size (scriptSig i) ≤ 150) (vin tx);
  tv_prevouts : IsCoinBase tx = false → Forall (λ i, COutPoint_IsNull (prevout i) = false) (vin tx)
}.

Lemma existsb_false {A} (f : A → bool) l : existsb f l = false ↔ Forall (λ x, f x = false) l.
Proof. induction l as [|x l IH]; cbn; [done|]. by rewrite orb_false_iff, list.Forall_cons, IH. Qed.

Lemma bind_unit_ok {E} (m m' : outcome E unit) : (_ ← m; m') = Ok tt ↔ m = Ok tt ∧ m' = Ok tt.
Proof. destruct m as [[]| | |]; cbn; naive_solver. Qed.

Lemma IsCoinBase_single tx : IsCoinBase tx = true → ∃ i, vin tx = [i].
Proof. unfold IsCoinBase. destruct (vin tx) as [|i [|]]; [done| |done]. by exists i. Qed.

Lemma CheckTransaction_valid maxm tx :
  0 ≤ maxm < 2 ^ 62 → CheckTransaction maxm tx = Ok tt ↔ tx_valid maxm tx.
Proof.
  intros Hm. unfold CheckTransaction. destruct (vin tx) as [|i ins] eqn:Ei.
  { split; [done|]. intros H. by destruct (tv_vin _ _ H). }
  destruct (vout tx) as [|o outs] eqn:Eo.
  { split; [done|]. intros H. by destruct (tv_vout _ _ H). }
  destruct (Z.ltb_spec MAX_BLOCK_SIZE (size (ser tx))).
  { split; [done|]. intros [? ? Hs]. lia. }
  rewrite !bind_unit_ok, check_outputs_spec, check_duplicates_spec by lia.
  assert (∀ l : list CTxIn, Forall (λ i, prevout i ∉ (∅ : gset COutPoint)) l) as Hemp.
  { intros l. apply list.Forall_forall. set_solver. }
  rewrite <- Eo, <- Ei. rewrite list.Forall_and.
  transitivity ((IsCoinBase tx = false → IsCoinStake tx = false → Forall (λ o, CTxOut_IsEmpty o = false) (vout tx)) ∧
    Forall (λ o, 0 ≤ nValue o ≤ maxm) (vout tx) ∧ sum_values (vout tx) ≤ maxm ∧ NoDup (prevout <$> vin tx) ∧
    (IsCoinBase tx = true → Forall (λ i, 2 ≤ size (scriptSig i) ≤ 150) (vin tx)) ∧
    (IsCoinBase tx = false → Forall (λ i, COutPoint_IsNull (prevout i) = false) (vin tx))).
  2: { split; [intros (?&?&?&?&?&?); split; (done || by rewrite ?Ei, ?Eo)|intros []; split_and!; done]. }
  assert (∀ b c, Forall (λ o, negb b && negb c = true → CTxOut_IsEmpty o = false) (vout tx) ↔
    (b = false → c = false → Forall (λ o, CTxOut_IsEmpty o = false) (vout tx))) as ->.
  { intros [|] [|]; rewrite !list.Forall_forall; cbn; naive_solver. }
  rewrite Z.add_0_l. destruct (IsCoinBase tx) eqn:Ecb.
  - destruct (IsCoinBase_single tx Ecb) as [i' Ei']. rewrite Ei' in Ei. injection Ei as -> <-. rewrite Ei'.
    rewrite !Forall_singleton. split.
    + intros ([[? ?] ?] & [? _] & Hc). split_and!; try done. intros _.
      destruct ((size (scriptSig i) <? 2) || (150 <? size (scriptSig i))) eqn:Es; [done|].
      apply orb_false_iff in Es as [Es1%Z.ltb_ge Es2%Z.ltb_ge]. lia.
    + intros (? & ? & ? & ? & Hc & _). specialize (Hc eq_refl).
      rewrite (proj2 (Z.ltb_ge _ 2)), (proj2 (Z.ltb_ge 150 _)) by lia. by split_and!.
  - rewrite <- (existsb_false _ (vin tx)). destruct (existsb _ (vin tx)); split.
    + by intros (_ & _ & [=]).
    + intros (_ & _ & _ & _ & _ & Hp). by specialize (Hp eq_refl).
    + intros ([[? ?] ?] & [? _] & _). by split_and!.
    + intros (? & ? & ? & ? & _ & _). by split_and!.
Qed.

Lemma check_outputs_returns maxm user outs acc : 0 ≤ acc ≤ maxm → maxm < 2 ^ 62 → returns (check_outputs maxm user outs acc).
Proof.
  intros Ha Hm. revert acc Ha. induction outs as [|o outs IH]; intros acc Ha; [done|]. cbn [check_outputs].
  destruct (_ && user); [done|]. destruct (Z.ltb_spec (nValue o) 0); [done|]. destruct (Z.ltb_spec maxm (nValue o)); [done|].
  rewrite add64_ok by (unfold INT64_MIN, INT64_MAX; lia). cbn [mbind outcome_bind].
  destruct (MoneyRange maxm (acc + nValue o)) eqn:Em; cbn [negb]; [|done]. apply andb_prop in Em as [_ Em%Z.leb_le]. apply IH. lia.
Qed.

Lemma CheckTransaction_returns maxm tx : 0 ≤ maxm < 2 ^ 62 → returns (CheckTransaction maxm tx).
Proof.
  intros Hm. unfold CheckTransaction. destruct (vin tx) as [|i ins]; [done|]. destruct (vout tx) as [|o outs]; [done|].
  destruct (_ <? _); [done|]. apply returns_bind; [apply check_outputs_returns; lia|]. intros _ _.
  apply returns_bind.
  - generalize (i :: ins) as l, (∅ : gset COutPoint) as S. intros l. induction l as [|j l IH]; intros S; [done|]. cbn. case_bool_decide; [done|apply IH].
  - intros _ _. repeat case_match; done.
Qed.

(** C18: [CheckTransaction] returns on every transaction, so that the sum of the values it
    forms never leaves the 64-bit range, and accepts exactly those that have inputs and
    outputs, are at most a block in size, have no empty output unless they are a
    coinbase or coinstake, whose values and their total are within the money
    supply, whose inputs are distinct, whose input script has 2 to 150 bytes if they are
    a coinbase, and otherwise none of whose inputs is null; what it refuses it refuses with
    one of its errors. *)
Theorem CheckTransaction_spec maxm tx :
  0 ≤ maxm < 2 ^ 62 →
  (CheckTransaction maxm tx = Ok tt ↔ tx_valid maxm tx) ∧
  (¬ tx_valid maxm tx → ∃ e, CheckTransaction maxm tx = Err e).
Proof.
  intros Hm. split; [by apply CheckTransaction_valid|]. rewrite <- CheckTransaction_valid by done. intros Hn.
  pose proof (CheckTransaction_returns maxm tx Hm) as Hr. apply returns_spec in Hr as [[[] E]|H]; [done|exact H].
Qed.

(** A transaction whose second value would take the sum past the 64-bit range. *)
Definition overflowing_tx : CTransaction :=
  Tx 0 1 [TxIn (OutPoint 5 0) [] 0 []] [TxOut 1000 [81] (-10); TxOut INT64_MAX [81] (-10)] 0.

Lemma CheckTransaction_spec_witness :
  (CheckTransaction (33000000 * COIN) sample_tx = Ok tt ∧ tx_valid (33000000 * COIN) sample_tx) ∧
  ∃ e, CheckTransaction (33000000 * COIN) overflowing_tx = Err e.
Proof.
  assert (0 ≤ 33000000 * COIN < 2 ^ 62) as Hm by by_decision.
  assert (CheckTransaction (33000000 * COIN) sample_tx = Ok tt) as H by (vm_compute; reflexivity).
  split.
  - split; [exact H|]. apply (CheckTransaction_spec (33000000 * COIN) sample_tx Hm). exact H.
  - apply (CheckTransaction_spec (33000000 * COIN) overflowing_tx Hm). intros Hv. apply tv_values in Hv. unfold overflowing_tx in Hv. cbn [vout] in Hv.
    apply list.Forall_cons in Hv as [_ Hv]. apply List.Forall_inv in Hv. destruct Hv as [_ Hv]. vm_compute in Hv. apply Hv. reflexivity.
Defined.

(** ** Sums of outputs *)

Lemma GetValueOut_loop_spec outs acc :
  0 ≤ acc ≤ INT64_MAX →
  GetValueOut_loop outs acc =
    if decide (Forall (λ o, 0 ≤ nValue o) outs ∧ acc + sum_values outs ≤ INT64_MAX) then Ok (acc + sum_values outs)
    else GetValueOut_loop outs acc.
Proof.
  revert acc. induction outs as [|o outs IH]; intros acc Ha; case_decide as Hd; try done.
  { cbn. by rewrite Z.add_0_r. }
  destruct Hd as [Hf Hs]. apply Forall_cons_1 in Hf as [Ho Hf]. cbn [GetValueOut_loop].
  pose proof (sum_values_nonneg outs Hf). rewrite sum_values_cons in *.
  rewrite (proj2 (Z.ltb_ge _ 0)) by lia. rewrite add64_ok by (unfold INT64_MIN in *; lia). cbn [mbind outcome_bind].
  rewrite (proj2 (Z.ltb_ge _ _)) by lia. rewrite IH by (unfold INT64_MAX in *; lia).
  rewrite decide_True by (split; [done|lia]). f_equal. lia.
Qed.

(** A transaction that passed [CheckTransaction] has a total output value:
    [GetValueOut] neither throws nor overflows and returns the sum of the
    outputs, within the money supply. *)
Theorem CheckTransaction_GetValueOut maxm tx :
  0 ≤ maxm < 2 ^ 62 → CheckTransaction maxm tx = Ok tt →
  GetValueOut tx = Ok (sum_values (vout tx)) ∧ 0 ≤ sum_values (vout tx) ≤ maxm.
Proof.
  intros Hm H. apply CheckTransaction_valid in H; [|done]. destruct H as [_ _ _ _ Hv Ht _ _ _].
  assert (Forall (λ o, 0 ≤ nValue o) (vout tx)) as Hv' by (eapply list.Forall_impl; [exact Hv|cbn; lia]).
  pose proof (sum_values_nonneg _ Hv').
  split; [|done]. unfold GetValueOut. rewrite GetValueOut_loop_spec by by_decision.
  rewrite decide_True; [done|]. split; [done|unfold INT64_MAX; lia].
Qed.

Lemma CheckTransaction_GetValueOut_witness :
  GetValueOut sample_tx = Ok 3000 ∧ 0 ≤ 3000 ≤ 33000000 * COIN.
Proof. apply (CheckTransaction_GetValueOut (33000000 * COIN) sample_tx); [by_decision|vm_compute; reflexivity]. Defined.
