(* ===== verification/SigHash.v ===== *)
(** * Signature hashes (script/interpreter.cpp, pubkey.h, test/sighash_tests.cpp)

    [CTransactionSignatureSerializer], [SignatureHash] and the transaction
    signature checker.  The serializer writes, in one pass, what the older
    [SignatureHashOld] (kept by the tests) obtained by editing a copy of the
    transaction; the main theorem says the two agree. *)
From stdpp Require Import base tactics list gmap numbers option.
From Stdlib Require Import ZArith Lia.
From S2P Require Import Prelude.
From S2P Require Import Serialize.
From S2P Require Import Crypto.
From S2P Require Import ScriptCode.
From S2P Require Import Interpreter.
From S2P Require Import Transaction.

(** ** The serializer *)

(** [while (scriptCode.GetOp(it, opcode)) if (opcode == OP_CODESEPARATOR) nCodeSeparators++] *)
Fixpoint count_separators (fuel : nat) (it : list Z) (n : Z) : result Z :=
  match fuel with
  | O => OutOfFuel
  | S fuel =>
      let r := GetOp2 it in
      if fRet r then count_separators fuel (pcRet r) (if opcodeRet r =? OP_CODESEPARATOR then n + 1 else n)
      else Ok n
  end.

(** The second pass; [itBegin] and [it] are suffixes of the script.  The bytes
    after the point where [GetOp] gave up are not written. *)
Fixpoint write_segments (fuel : nat) (itBegin it out : list Z) : result (list Z) :=
  match fuel with
  | O => OutOfFuel
  | S fuel =>
      let r := GetOp2 it in
      if fRet r then
        if opcodeRet r =? OP_CODESEPARATOR
        then write_segments fuel (pcRet r) (pcRet r) (out ++ take (length itBegin - length (pcRet r) - 1) itBegin)
        else write_segments fuel itBegin (pcRet r) out
      else
        match itBegin with
        | [] => Ok out
        | _ => Ok (out ++ take (length itBegin - length (pcRet r)) itBegin)
        end
  end.

Definition SerializeScriptCode (scriptCode : list Z) : result (list Z) :=
  nCodeSeparators ← count_separators (S (length scriptCode)) scriptCode 0;
  body ← write_segments (S (length scriptCode)) scriptCode scriptCode [];
  Ok (WriteCompactSize (size scriptCode - nCodeSeparators) ++ body).

Section Serializer.
Context (txTo : CTransaction) (scriptCode : list Z) (nIn : nat) (nHashType : Z).

Definition fAnyoneCanPay : bool := flag nHashType SIGHASH_ANYONECANPAY.
Definition fHashSingle : bool := Z.land nHashType 0x1f =? SIGHASH_SINGLE.
Definition fHashNone : bool := Z.land nHashType 0x1f =? SIGHASH_NONE.

Definition SerializeInput (nInput : nat) : result (list Z) :=
  let nInput := if fAnyoneCanPay then nIn else nInput in
  match vin txTo !! nInput with
  | None => AssertFail
  | Some i =>
      script ← (if bool_decide (nInput = nIn) then SerializeScriptCode scriptCode else Ok (ser_blob []));
      Ok (ser (prevout i) ++ script ++
          WRITEDATA 4 (if negb (bool_decide (nInput = nIn)) && (fHashSingle || fHashNone) then 0 else nSequence i))
  end.

Definition SerializeOutput (nOutput : nat) : result (list Z) :=
  if fHashSingle && negb (bool_decide (nOutput = nIn)) then Ok (ser CTxOut_null)
  else match vout txTo !! nOutput with Some o => Ok (ser o) | None => AssertFail end.

(** [for (k = 0; k < n; k++) f(k)], the outputs in order. *)
Fixpoint write_each (f : nat → result (list Z)) (k n : nat) : result (list Z) :=
  match n with
  | O => Ok []
  | S n => a ← f k; b ← write_each f (S k) n; Ok (a ++ b)
  end.

Definition SerializeForSig : result (list Z) :=
  let nInputs := if fAnyoneCanPay then 1%nat else length (vin txTo) in
  let nOutputs := if fHashNone then 0%nat else if fHashSingle then S nIn else length (vout txTo) in
  ins ← write_each SerializeInput 0 nInputs;
  outs ← write_each SerializeOutput 0 nOutputs;
  Ok (WRITEDATA 4 (nVersion txTo) ++ WriteCompactSize (Z.of_nat nInputs) ++ ins ++
      WriteCompactSize (Z.of_nat nOutputs) ++ outs ++ WRITEDATA 4 (nLockTime txTo)).

Definition SignatureHash : result Z :=
  if bool_decide (length (vin txTo) ≤ nIn)%nat then Ok 1
  else if fHashSingle && bool_decide (length (vout txTo) ≤ nIn)%nat then Ok 1
  else
    ss ← SerializeForSig;
    Ok (uint256_of_bytes (Hash256 (ss ++ WRITEDATA 4 nHashType))).

(** ** The reference: a modified copy of the transaction *)

Definition old_input (k : nat) (i : CTxIn) : CTxIn :=
  if bool_decide (k = nIn) then TxIn (prevout i) scriptCode (nSequence i) []
  else TxIn (prevout i) [] (if fHashSingle || fHashNone then 0 else nSequence i) [].

Definition old_inputs : list CTxIn :=
  let ins := imap old_input (vin txTo) in
  if fAnyoneCanPay then from_option (λ i, [i]) [] (ins !! nIn) else ins.

Definition old_outputs : list CTxOut :=
  if fHashNone then []
  else if fHashSingle then imap (λ k o, if bool_decide (k = nIn) then o else CTxOut_null) (take (S nIn) (vout txTo))
  else vout txTo.

Definition SignatureHashOld_tx : CTransaction := Tx 0 (nVersion txTo) old_inputs old_outputs (nLockTime txTo).

End Serializer.

Definition SignatureHashOld (scriptCode : list Z) (txTo : CTransaction) (nIn : nat) (nHashType : Z) : result Z :=
  if bool_decide (length (vin txTo) ≤ nIn)%nat then Ok 1
  else
    '(scriptCode, _) ← FindAndDelete scriptCode [OP_CODESEPARATOR];
    if fHashSingle nHashType && bool_decide (length (vout txTo) ≤ nIn)%nat then Ok 1
    else Ok (uint256_of_bytes (Hash256 (ser_tx (SignatureHashOld_tx txTo scriptCode nIn nHashType) ++ WRITEDATA 4 nHashType))).

(** ** The signature checker *)

(** [CPubKey::GetLen] *)
Definition GetLen (chHeader : Z) : Z :=
  if (chHeader =? 2) || (chHeader =? 3) then 33
  else if (chHeader =? 4) || (chHeader =? 6) || (chHeader =? 7) then 65
  else 0.

(** [CPubKey(vch)]: the stored key, empty when invalid. *)
Definition CPubKey_of (vch : list Z) : list Z :=
  match vch with
  | [] => []
  | b :: _ => if negb (GetLen b =? 0) && (GetLen b =? size vch) then vch else []
  end.
Definition CPubKey_IsValid (pubkey : list Z) : bool := 0 <? size pubkey.

Section Checker.
(** [CPubKey::Verify(hash, vchSig)], of the elliptic-curve code. *)
Context (Verify : list Z → Z → list Z → bool).

Definition TransactionCheckSig (txTo : CTransaction) (nIn : nat) (vchSigIn vchPubKey scriptCode : list Z) : result bool :=
  let pubkey := CPubKey_of vchPubKey in
  if negb (CPubKey_IsValid pubkey) then Ok false else
  match vchSigIn with
  | [] => Ok false
  | _ =>
      let nHashType := back vchSigIn in
      let vchSig := take (length vchSigIn - 1) vchSigIn in
      sighash ← SignatureHash txTo scriptCode nIn nHashType;
      Ok (Verify pubkey sighash vchSig)
  end.

(** The checker the evaluator is given. *)
Definition tx_CheckSig (txTo : CTransaction) (nIn : nat) : list Z → list Z → list Z → bool := λ sig key sc,
  match TransactionCheckSig txTo nIn sig key sc with Ok b => b | _ => false end.

(** [VerifyScript] with a [TransactionSignatureChecker]. *)
Definition VerifyInput (flags : Z) (txTo : CTransaction) (nIn : nat) (scriptPubKey : list Z) : result unit :=
  match vin txTo !! nIn with
  | Some i => VerifyScript flags (tx_CheckSig txTo nIn) (scriptSig i) scriptPubKey
  | None => AssertFail
  end.

End Checker.

(** ** Code separators *)

Lemma decoded_head c pc :
  fRet (GetOp2 (c ++ pc)) = true → pcRet (GetOp2 (c ++ pc)) = pc →
  (opcodeRet (GetOp2 (c ++ pc)) = OP_CODESEPARATOR ↔ c = [OP_CODESEPARATOR]).
Proof.
  intros Hr Hp. split; [|by intros ->].
  destruct c as [|x c].
  { cbn [app] in *. pose proof (GetOp2_shorter pc Hr) as Hs. rewrite Hp in Hs. lia. }
  cbn [app GetOp2] in *. destruct (Z.leb_spec x OP_PUSHDATA4).
  - destruct (push_size x (c ++ pc)) as [r|[n r]]; [done|]. destruct (_ <? _); [done|].
    cbn [opcodeRet]. intros ->. unfold OP_CODESEPARATOR, OP_PUSHDATA4 in *. lia.
  - cbn [opcodeRet pcRet] in *. intros ->. f_equal. apply (app_inv_tail pc c []). done.
Qed.

Lemma separator_dec c pc :
  fRet (GetOp2 (c ++ pc)) = true → pcRet (GetOp2 (c ++ pc)) = pc →
  (opcodeRet (GetOp2 (c ++ pc)) =? OP_CODESEPARATOR) = bool_decide (c = [OP_CODESEPARATOR]).
Proof.
  intros Hr Hp. apply eq_bool_prop_intro. rewrite bool_decide_spec, <- (decoded_head c pc) by done.
  by rewrite Is_true_true, Z.eqb_eq.
Qed.

Notation is_sep := (.= [OP_CODESEPARATOR]).
Notation not_sep := (.≠ [OP_CODESEPARATOR]).

Lemma count_separators_spec it ops tail fuel n :
  decodes it ops tail → (length ops < fuel)%nat →
  count_separators fuel it n = Ok (n + Z.of_nat (length (filter is_sep ops))).
Proof.
  intros Hd. revert fuel n. induction Hd as [it Hf|c pc ops tail Hr Hp Hd IH]; intros [|fuel] n Hl;
    try (simpl in Hl; lia); cbn [count_separators].
  - rewrite Hf. cbn. by rewrite Z.add_0_r.
  - rewrite Hr, (separator_dec c pc Hr Hp), Hp. rewrite IH by (simpl in Hl; lia). rewrite filter_cons.
    case_bool_decide; case_decide; try done. f_equal. cbn [length]. lia.
Qed.

Lemma write_segments_spec it ops tail pre out fuel :
  decodes it ops tail → tail = [] → (length ops < fuel)%nat →
  write_segments fuel (pre ++ it) it out = Ok (out ++ pre ++ concat (filter not_sep ops)).
Proof.
  intros Hd. revert pre out fuel. induction Hd as [it Hf|c pc ops tail Hr Hp Hd IH]; intros pre out [|fuel] Ht Hl;
    try (simpl in Hl; lia); cbn [write_segments].
  - subst it. cbn [GetOp2 fRet pcRet concat filter list_filter]. rewrite !app_nil_r.
    destruct pre; [by rewrite app_nil_r|]. by rewrite firstn_all2 by (cbn [length]; lia).
  - rewrite Hr, (separator_dec c pc Hr Hp), Hp. rewrite filter_cons. case_bool_decide as Ec.
    + rewrite decide_False by (intros H; by apply H). subst c. pose proof (IH [] (out ++ pre) fuel Ht) as IH'.
      cbn [app] in IH'. rewrite <- app_assoc in IH'.
      replace (take _ (pre ++ [OP_CODESEPARATOR] ++ pc)) with pre; [by rewrite IH' by (simpl in Hl; lia)|].
      rewrite !length_app. cbn [length]. rewrite take_app_le by lia. symmetry. apply firstn_all2. lia.
    + rewrite decide_True by done. cbn [concat]. rewrite !app_assoc. rewrite <- (app_assoc out), <- (app_assoc out).
      apply IH; [done|simpl in Hl; lia].
Qed.

Lemma concat_filter_size ops :
  size (concat (filter not_sep ops)) = size (concat ops) - Z.of_nat (length (filter is_sep ops)).
Proof.
  unfold size. induction ops as [|c ops IH]; [done|]. rewrite !filter_cons. cbn [concat].
  repeat case_decide; try done; subst; cbn [concat]; rewrite !length_app; cbn [length]; lia.
Qed.

Lemma is_instr_separator : is_instr [OP_CODESEPARATOR].
Proof. done. Qed.

(** One pass over the script writes what deleting the separators leaves. *)
Lemma SerializeScriptCode_spec sc ops :
  decodes sc ops [] → size sc < 2 ^ 32 →
  SerializeScriptCode sc = Ok (ser_blob (concat (filter not_sep ops))) ∧
  FindAndDelete (E:=ScriptError) sc [OP_CODESEPARATOR] =
    Ok (concat (filter not_sep ops), Z.of_nat (length (filter is_sep ops))).
Proof.
  intros Hd Hs. pose proof (decodes_length _ _ _ Hd) as Hl. pose proof (decodes_concat _ _ _ Hd) as Hc. split.
  - unfold SerializeScriptCode. rewrite (count_separators_spec sc ops [] _ 0 Hd) by lia. cbn [mbind outcome_bind].
    rewrite (write_segments_spec sc ops [] [] [] _ Hd) by (done || lia). cbn [mbind outcome_bind app].
    unfold ser_blob. fold (size (concat (filter not_sep ops))). rewrite concat_filter_size.
    rewrite app_nil_r in Hc. by rewrite <- Hc.
  - unfold FindAndDelete.
    rewrite (FindAndDelete_loop_spec _ sc ops [] is_instr_separator Hs Hd) by lia. by rewrite app_nil_r.
Qed.

(** ** The fields, one after another *)

Lemma write_each_ext f g k n :
  (∀ j, (k ≤ j < k + n)%nat → f j = g j) → write_each f k n = write_each g k n.
Proof.
  revert k. induction n as [|n IH]; intros k H; [done|]. cbn [write_each].
  rewrite (H k), (IH (S k)) by (lia || (intros; apply H; lia)). done.
Qed.

Lemma write_each_imap {A B} (f : nat → result (list Z)) (w : B → list Z) (h : nat → A → B) l k :
  (∀ j x, l !! j = Some x → f (k + j)%nat = Ok (w (h j x))) →
  write_each f k (length l) = Ok (concat (map w (imap h l))).
Proof.
  revert k h. induction l as [|x l IH]; intros k h H; [done|]. cbn [length write_each].
  rewrite <- (Nat.add_0_r k) at 1. rewrite (H 0%nat x) by done. cbn [mbind outcome_bind].
  rewrite (IH (S k) (h ∘ S)).
  2: { intros j y Hj. replace (S k + j)%nat with (k + S j)%nat by lia. by rewrite (H (S j) y). }
  done.
Qed.

Section Agreement.
Context (tx : CTransaction) (sc sc' : list Z) (nIn : nat) (ht : Z).
Hypothesis Hsc : SerializeScriptCode sc = Ok (ser_blob sc').
Hypothesis HnIn : (nIn < length (vin tx))%nat.

Lemma SerializeInput_old j i :
  vin tx !! j = Some i → fAnyoneCanPay ht = false →
  SerializeInput tx sc nIn ht j = Ok (ser (old_input sc' nIn ht j i)).
Proof.
  intros Hj Ha. unfold SerializeInput, old_input. rewrite Ha, Hj.
  case_bool_decide; [rewrite Hsc|]; cbn [mbind outcome_bind negb andb]; done.
Qed.

Lemma inputs_old :
  write_each (SerializeInput tx sc nIn ht) 0 (if fAnyoneCanPay ht then 1 else length (vin tx)) =
    Ok (concat (map ser (old_inputs tx sc' nIn ht))) ∧
  length (old_inputs tx sc' nIn ht) = (if fAnyoneCanPay ht then 1 else length (vin tx))%nat.
Proof.
  unfold old_inputs. destruct (fAnyoneCanPay ht) eqn:Ha.
  - destruct (lookup_lt_is_Some_2 _ _ HnIn) as [i Hi]. rewrite list_lookup_imap, Hi. split; [|done].
    cbn [fmap option_fmap option_map from_option map concat write_each].
    unfold SerializeInput. rewrite Ha, Hi, bool_decide_eq_true_2, Hsc by done.
    cbn [mbind outcome_bind negb andb]. unfold old_input. rewrite bool_decide_eq_true_2 by done. done.
  - split; [|by rewrite length_imap].
    apply (write_each_imap _ ser (old_input sc' nIn ht)). intros j x Hj. by apply SerializeInput_old.
Qed.

Hypothesis Hsingle : fHashSingle ht = true → (nIn < length (vout tx))%nat.

Lemma outputs_old :
  write_each (SerializeOutput tx nIn ht) 0
    (if fHashNone ht then 0 else if fHashSingle ht then S nIn else length (vout tx)) =
    Ok (concat (map ser (old_outputs tx nIn ht))) ∧
  length (old_outputs tx nIn ht) =
    (if fHashNone ht then 0 else if fHashSingle ht then S nIn else length (vout tx))%nat.
Proof.
  unfold old_outputs. destruct (fHashNone ht); [done|]. destruct (fHashSingle ht) eqn:Es.
  - specialize (Hsingle eq_refl). rewrite length_imap, length_take, Nat.min_l by lia. split; [|done].
    rewrite <- (Nat.min_l (S nIn) (length (vout tx))) at 1 by lia. rewrite <- length_take.
    apply (write_each_imap _ ser). intros j o Hj. apply lookup_take_Some in Hj as [Hj _].
    unfold SerializeOutput. rewrite Es, Nat.add_0_l, Hj. by case_bool_decide.
  - split; [|done]. replace (map ser (vout tx)) with (map ser (imap (λ _ o, o) (vout tx))).
    2: { f_equal. apply list_eq. intros k. rewrite list_lookup_imap. by destruct (vout tx !! k). }
    apply (write_each_imap _ ser). intros j o Hj. unfold SerializeOutput. by rewrite Es, Nat.add_0_l, Hj.
Qed.

Lemma SerializeForSig_old : SerializeForSig tx sc nIn ht = Ok (ser_tx (SignatureHashOld_tx tx sc' nIn ht)).
Proof.
  unfold SerializeForSig. destruct inputs_old as [Ei Eil], outputs_old as [Eo Eol]. rewrite Ei. cbn [mbind outcome_bind].
  rewrite Eo. cbn [mbind outcome_bind]. rewrite <- Eil, <- Eol.
  unfold ser_tx, SignatureHashOld_tx. cbn [nVersion vin vout nLockTime].
  change (ser (old_inputs ?a ?b ?c ?d)) with (ser_vector ser (old_inputs a b c d)).
  change (ser (old_outputs ?a ?b ?c)) with (ser_vector ser (old_outputs a b c)).
  unfold ser_vector. by rewrite <- !app_assoc.
Qed.

End Agreement.

Lemma SignatureHash_agrees tx sc ops nIn ht :
  decodes sc ops [] → size sc < 2 ^ 32 →
  SignatureHash tx sc nIn ht = SignatureHashOld sc tx nIn ht ∧ is_ok (SignatureHash tx sc nIn ht) = true.
Proof.
  intros Hd Hs. destruct (SerializeScriptCode_spec sc ops Hd Hs) as [Esc Efd].
  unfold SignatureHash, SignatureHashOld. case_bool_decide as Hn; [done|]. rewrite Efd. cbn [mbind outcome_bind].
  destruct (fHashSingle ht && bool_decide (length (vout tx) ≤ nIn)%nat) eqn:Eb; [done|].
  rewrite (SerializeForSig_old tx sc (concat (filter not_sep ops))); [done|done|lia|].
  intros E1. rewrite E1 in Eb. apply bool_decide_eq_false in Eb. lia.
Qed.

(** C19: for every script that decodes to its end, every input index and every
    hash type, the one-pass signature serializer hashes exactly what the older
    algorithm obtained by editing a copy of the transaction: code separators
    deleted, other scripts blanked, outputs and sequence numbers masked as the
    hash type says.  Out-of-range indices give the constant 1 in both. *)
Theorem SignatureHash_reference tx sc ops nIn ht :
  decodes sc ops [] → size sc < 2 ^ 32 →
  SignatureHash tx sc nIn ht = SignatureHashOld sc tx nIn ht ∧ is_ok (SignatureHash tx sc nIn ht) = true.
Proof. apply SignatureHash_agrees. Qed.

Definition sighash_tx : CTransaction :=
  Tx 0 1 [TxIn (OutPoint 5 0) [1; 7] 9 []; TxIn (OutPoint 6 1) [1; 8] 10 []] [TxOut 1000 [OP_1] (-10); TxOut 7 [] (-10)] 3.

Lemma SignatureHash_reference_witness :
  SignatureHash sighash_tx [OP_DUP; OP_CODESEPARATOR; 1; 0xab] 1 SIGHASH_SINGLE =
    SignatureHashOld [OP_DUP; OP_CODESEPARATOR; 1; 0xab] sighash_tx 1 SIGHASH_SINGLE ∧
  is_ok (SignatureHash sighash_tx [OP_DUP; OP_CODESEPARATOR; 1; 0xab] 1 SIGHASH_SINGLE) = true.
Proof.
  apply (SignatureHash_reference sighash_tx _ [[OP_DUP]; [OP_CODESEPARATOR]; [1; 0xab]]); [|reflexivity].
  apply (decodes_op [OP_DUP] [OP_CODESEPARATOR; 1; 0xab]); [reflexivity..|].
  apply (decodes_op [OP_CODESEPARATOR] [1; 0xab]); [reflexivity..|].
  apply (decodes_op [1; 0xab] []); [reflexivity..|]. constructor. reflexivity.
Defined.

(** ** What a signature does not cover *)

Definition set_scripts (f : CTxIn → list Z) (tx : CTransaction) : CTransaction :=
  UpdateHash (Tx 0 (nVersion tx) ((λ i, TxIn (prevout i) (f i) (nSequence i) (prevPubKey i)) <$> vin tx) (vout tx) (nLockTime tx)).
Definition set_outputs (outs : list CTxOut) (tx : CTransaction) : CTransaction :=
  UpdateHash (Tx 0 (nVersion tx) (vin tx) outs (nLockTime tx)).

Lemma SerializeInput_set_scripts f tx sc nIn ht j :
  SerializeInput (set_scripts f tx) sc nIn ht j = SerializeInput tx sc nIn ht j.
Proof.
  unfold SerializeInput, set_scripts, UpdateHash. cbn [vin]. rewrite list_lookup_fmap. by destruct (vin tx !! _).
Qed.

(** What a signature hash leaves open: it does not depend on the unlocking
    scripts of any input (nor on the transaction id), and under SIGHASH_NONE it
    does not depend on the outputs. *)
Theorem SignatureHash_uncovered f outs tx sc nIn ht :
  SignatureHash (set_scripts f tx) sc nIn ht = SignatureHash tx sc nIn ht ∧
  (fHashNone ht = true → SignatureHash (set_outputs outs tx) sc nIn ht = SignatureHash tx sc nIn ht).
Proof.
  split.
  - unfold SignatureHash, SerializeForSig.
    replace (length (vin (set_scripts f tx))) with (length (vin tx)) by (cbn; by rewrite length_fmap).
    rewrite (write_each_ext (SerializeInput _ _ _ _) (SerializeInput tx sc nIn ht)) by (intros; apply SerializeInput_set_scripts). done.
  - intros Hn. assert (fHashSingle ht = false) as Hs.
    { unfold fHashNone, fHashSingle in *. apply Z.eqb_eq in Hn. rewrite Hn. done. }
    unfold SignatureHash, SerializeForSig. rewrite Hn, Hs. done.
Qed.

Lemma SignatureHash_uncovered_witness :
  SignatureHash (set_outputs [] sighash_tx) [OP_1] 0 SIGHASH_NONE = SignatureHash sighash_tx [OP_1] 0 SIGHASH_NONE.
Proof. apply (SignatureHash_uncovered (λ _, []) [] sighash_tx [OP_1] 0 SIGHASH_NONE). reflexivity. Defined.
