(* ===== verification/Standard.v ===== *)
(** * Standard output scripts (script/standard.h, script/standard.cpp)

    The templates of the standard transactions, the solver that matches a
    script against them, and the destinations it gives.  The specification is on
    decoded instructions: a script is standard when its instructions are those of
    a template, whatever push encodes the data. *)
From stdpp Require Import base tactics list numbers option.
From Stdlib Require Import ZArith Lia.
From S2P Require Import Prelude.
From S2P Require Import Crypto.
From S2P Require Import ScriptCode.
From S2P Require Import SigHash.

Notation result := (outcome unit).

(** ** Data *)

Inductive txnouttype :=
| TX_NONSTANDARD | TX_PUBKEY | TX_PUBKEYHASH | TX_SCRIPTHASH | TX_MULTISIG | TX_NULL_DATA.

#[export] Instance txnouttype_eq_dec : EqDecision txnouttype.
Proof. solve_decision. Defined.

(** A [CTxDestination]; a [uint160] is its 20 bytes. *)
Inductive CTxDestination := CNoDestination | CKeyID (h : list Z) | CScriptID (h : list Z).

#[export] Instance CTxDestination_eq_dec : EqDecision CTxDestination.
Proof. solve_decision. Defined.

(** [uint160(vch)], which throws when the size is wrong. *)
Definition uint160_of (vch : list Z) : result (list Z) := if negb (size vch =? 20) then Err tt else Ok vch.

Definition MAX_OP_RETURN_RELAY : Z := 83.

(** [mTemplates], in the order of the multimap's keys. *)
Definition mTemplates : list (txnouttype * list Z) :=
  [(TX_PUBKEY, [OP_PUBKEY; OP_CHECKSIG]);
   (TX_PUBKEYHASH, [OP_DUP; OP_HASH160; OP_PUBKEYHASH; OP_EQUALVERIFY; OP_CHECKSIG]);
   (TX_MULTISIG, [OP_SMALLINTEGER; OP_PUBKEYS; OP_SMALLINTEGER; OP_CHECKMULTISIG])].

(** ** The solver *)

Definition key_sized (v : list Z) : bool := (33 <=? size v) && (size v <=? 65).

(** [while (vch1.size() >= 33 && vch1.size() <= 65) { … }]; [r1] is the last
    instruction read. *)
Fixpoint take_pubkeys (fuel : nat) (r1 : op_read) (sols : list valtype) : result (op_read * list valtype) :=
  if key_sized (vchRet r1) then
    match fuel with
    | O => OutOfFuel
    | S fuel =>
        let sols := sols ++ [vchRet r1] in
        let r := GetOp2 (pcRet r1) in
        if fRet r then take_pubkeys fuel r sols else Ok (r, sols)
    end
  else Ok (r1, sols).

(** The if-chain on the template's opcode: the solutions after it, or [None]
    for [break]. *)
Definition match_op (r1 : op_read) (opcode2 : Z) (vch2 : valtype) (sols : list valtype) : result (option (list valtype)) :=
  if opcode2 =? OP_PUBKEY then
    if negb (key_sized (vchRet r1)) then Ok None else Ok (Some (sols ++ [vchRet r1]))
  else if opcode2 =? OP_PUBKEYHASH then
    if negb (size (vchRet r1) =? 20) then Ok None else Ok (Some (sols ++ [vchRet r1]))
  else if opcode2 =? OP_SMALLINTEGER then
    if (opcodeRet r1 =? OP_0) || ((OP_1 <=? opcodeRet r1) && (opcodeRet r1 <=? OP_16)) then
      n ← DecodeOP_N (opcodeRet r1); Ok (Some (sols ++ [[n]]))
    else Ok None
  else if negb (opcodeRet r1 =? opcode2) || negb (bool_decide (vchRet r1 = vch2)) then Ok None
  else Ok (Some sols).

(** One template: the solutions when it matches. *)
Fixpoint match_template (fuel : nat) (pc1 pc2 : list Z) (sols : list valtype) : result (option (list valtype)) :=
  match pc1, pc2 with
  | [], [] => Ok (Some sols)
  | _, _ =>
      match fuel with
      | O => OutOfFuel
      | S fuel =>
          let r1 := GetOp2 pc1 in
          if negb (fRet r1) then Ok None else
          let r2 := GetOp2 pc2 in
          if negb (fRet r2) then Ok None else
          st ← (if opcodeRet r2 =? OP_PUBKEYS then
                  '(r1, sols) ← take_pubkeys (length pc1) r1 sols;
                  let r2 := GetOp2 (pcRet r2) in
                  if negb (fRet r2) then Ok None else Ok (Some (r1, r2, sols))
                else Ok (Some (r1, r2, sols)));
          match st with
          | None => Ok None
          | Some (r1, r2, sols) =>
              m ← match_op r1 (opcodeRet r2) (vchRet r2) sols;
              match m with
              | None => Ok None
              | Some sols => match_template fuel (pcRet r1) (pcRet r2) sols
              end
          end
      end
  end.

(** [vSolutions.front()[0]] and [vSolutions.back()[0]] *)
Definition front0 (v : list valtype) : result Z :=
  match v with (b :: _) :: _ => Ok b | _ => AssertFail end.
Definition back0 (v : list valtype) : result Z :=
  match list.last v with Some (b :: _) => Ok b | _ => AssertFail end.

(** The additional checks of [TX_MULTISIG]; [m] and [n] are bytes. *)
Definition multisig_ok (sols : list valtype) : result bool :=
  m ← front0 sols; n ← back0 sols;
  Ok (negb ((m <? 1) || (n <? 1) || (n <? m) || negb (Z.of_nat (length sols) - 2 =? n))).

Fixpoint try_templates (ts : list (txnouttype * list Z)) (scriptPubKey : list Z) : result (bool * txnouttype * list valtype) :=
  match ts with
  | [] => Ok (false, TX_NONSTANDARD, [])
  | (t, script2) :: ts =>
      m ← match_template (S (length script2)) scriptPubKey script2 [];
      match m with
      | None => try_templates ts scriptPubKey
      | Some sols =>
          ok ← (if decide (t = TX_MULTISIG) then multisig_ok sols else Ok true);
          Ok (ok, t, sols)
      end
  end.

(** The first byte is [OP_RETURN] and the rest only pushes. *)
Definition is_null_data (scriptPubKey : list Z) : result bool :=
  match scriptPubKey with
  | b :: rest => if b =? OP_RETURN then IsPushOnly rest else Ok false
  | [] => Ok false
  end.

(** [Solver]: the result, [typeRet] and [vSolutionsRet] (empty at the call). *)
Definition Solver (scriptPubKey : list Z) : result (bool * txnouttype * list valtype) :=
  if IsPayToScriptHash scriptPubKey then Ok (true, TX_SCRIPTHASH, [take 20 (drop 2 scriptPubKey)]) else
  null_data ← is_null_data scriptPubKey;
  if null_data : bool then Ok (true, TX_NULL_DATA, []) else
  try_templates mTemplates scriptPubKey.

Definition ScriptSigArgsExpected (t : txnouttype) (vSolutions : list valtype) : Z :=
  match t with
  | TX_NONSTANDARD | TX_NULL_DATA => -1
  | TX_PUBKEY => 1
  | TX_PUBKEYHASH => 2
  | TX_MULTISIG => match vSolutions with (b :: _) :: _ => b + 1 | _ => -1 end
  | TX_SCRIPTHASH => 1
  end.

(** [IsStandard], with the [-datacarrier] argument and [nMaxDatacarrierBytes]. *)
Definition IsStandard (datacarrier : bool) (nMaxDatacarrierBytes : Z) (scriptPubKey : list Z) : result (bool * txnouttype) :=
  '(ok, whichType, vSolutions) ← Solver scriptPubKey;
  if negb ok then Ok (false, whichType) else
  match whichType with
  | TX_MULTISIG =>
      m ← front0 vSolutions; n ← back0 vSolutions;
      if (n <? 1) || (3 <? n) then Ok (false, whichType) else
      if (m <? 1) || (n <? m) then Ok (false, whichType) else Ok (true, whichType)
  | TX_NULL_DATA =>
      if negb datacarrier || (nMaxDatacarrierBytes <? size scriptPubKey) then Ok (false, whichType) else Ok (true, whichType)
  | _ => Ok (bool_decide (whichType ≠ TX_NONSTANDARD), whichType)
  end.

(** [CPubKey::GetID] *)
Definition GetID (pubkey : list Z) : list Z := Hash160 pubkey.
(** [CScriptID(const CScript&)] *)
Definition CScriptID_of (script : list Z) : list Z := Hash160 script.

(** [vSolutions[0]] *)
Definition solution0 (v : list valtype) : result valtype := match v with s :: _ => Ok s | [] => AssertFail end.

Definition ExtractDestination (scriptPubKey : list Z) : result (option CTxDestination) :=
  '(ok, whichType, vSolutions) ← Solver scriptPubKey;
  if negb ok then Ok None else
  match whichType with
  | TX_PUBKEY =>
      s ← solution0 vSolutions;
      let pubKey := CPubKey_of s in
      if negb (CPubKey_IsValid pubKey) then Ok None else Ok (Some (CKeyID (GetID pubKey)))
  | TX_PUBKEYHASH => s ← solution0 vSolutions; h ← uint160_of s; Ok (Some (CKeyID h))
  | TX_SCRIPTHASH => s ← solution0 vSolutions; h ← uint160_of s; Ok (Some (CScriptID h))
  | _ => Ok None
  end.

(** The addresses of the multisig keys, [vSolutions[1]] to the one before last;
    invalid keys are skipped. *)
Definition multisig_addresses (vSolutions : list valtype) : list CTxDestination :=
  (λ s, CKeyID (GetID (CPubKey_of s))) <$>
    filter (λ s, CPubKey_IsValid (CPubKey_of s) = true) (take (length vSolutions - 2) (drop 1 vSolutions)).

(** [ExtractDestinations]: the type, and when it returns [true] the addresses
    and the number required. *)
Definition ExtractDestinations (scriptPubKey : list Z) : result (txnouttype * option (list CTxDestination * Z)) :=
  '(ok, typeRet, vSolutions) ← Solver scriptPubKey;
  if negb ok then Ok (typeRet, None) else
  match typeRet with
  | TX_NULL_DATA => Ok (typeRet, None)
  | TX_MULTISIG =>
      nRequired ← front0 vSolutions;
      match multisig_addresses vSolutions with
      | [] => Ok (typeRet, None)
      | addrs => Ok (typeRet, Some (addrs, nRequired))
      end
  | _ =>
      r ← ExtractDestination scriptPubKey;
      match r with
      | None => Ok (typeRet, None)
      | Some address => Ok (typeRet, Some ([address], 1))
      end
  end.

(** ** Building *)

(** [GetScriptForDestination]: the script the visitor leaves. *)
Definition GetScriptForDestination (dest : CTxDestination) : list Z :=
  match dest with
  | CNoDestination => []
  | CKeyID keyID => [OP_DUP; OP_HASH160] ++ push_data keyID ++ [OP_EQUALVERIFY; OP_CHECKSIG]
  | CScriptID scriptID => [OP_HASH160] ++ push_data scriptID ++ [OP_EQUAL]
  end.

Definition GetScriptForMultisig (nRequired : Z) (keys : list valtype) : result (list Z) :=
  m ← EncodeOP_N nRequired;
  n ← EncodeOP_N (Z.of_nat (length keys));
  Ok ([m] ++ concat (push_data <$> keys) ++ [n; OP_CHECKMULTISIG]).

(** [GetAddressIndexKey] of main.cpp: the address type and hash, or the
    [false] result with the values it leaves. *)
Definition GetAddressIndexKey (script : list Z) : result (bool * list Z * Z) :=
  if IsPayToScriptHash script then h ← uint160_of (take 20 (drop 2 script)); Ok (true, h, 2) else
  dest ← ExtractDestination script;
  match dest with
  | Some (CKeyID h) => Ok (true, h, 1)
  | Some (CScriptID h) => Ok (true, h, 2)
  | _ => Ok (false, replicate 20 0, 0)
  end.

(** ** Specification: scripts as instructions *)

(** [pc] decodes completely into instructions: opcode and operand. *)
Inductive decoded : list Z → list (Z * valtype) → Prop :=
| decoded_end : decoded [] []
| decoded_op pc ops :
    fRet (GetOp2 pc) = true → decoded (pcRet (GetOp2 pc)) ops →
    decoded pc ((opcodeRet (GetOp2 pc), vchRet (GetOp2 pc)) :: ops).

(** A small integer [n] as an instruction. *)
Definition small_int (i : Z * valtype) (n : Z) : Prop :=
  i = (if n =? 0 then OP_0 else OP_1 + n - 1, []) ∧ 0 ≤ n ≤ 16.

(** What the solver must find in a script. *)
Inductive standard (script : list Z) : txnouttype → list valtype → Prop :=
| std_scripthash h : size h = 20 → script = [OP_HASH160; 20] ++ h ++ [OP_EQUAL] → standard script TX_SCRIPTHASH [h]
| std_null_data rest ops :
    script = OP_RETURN :: rest → decoded rest ops → Forall (λ i, i.1 ≤ OP_16) ops → standard script TX_NULL_DATA []
| std_pubkey o k : key_sized k = true → decoded script [(o, k); (OP_CHECKSIG, [])] → standard script TX_PUBKEY [k]
| std_pubkeyhash o h :
    size h = 20 →
    decoded script [(OP_DUP, []); (OP_HASH160, []); (o, h); (OP_EQUALVERIFY, []); (OP_CHECKSIG, [])] →
    standard script TX_PUBKEYHASH [h]
| std_multisig im m keys i n :
    small_int im m → small_int i n → 1 ≤ m ≤ n → Forall (λ k, key_sized k.2 = true) keys → n = Z.of_nat (length keys) →
    decoded script (im :: keys ++ [i; (OP_CHECKMULTISIG, [])]) →
    standard script TX_MULTISIG ([m] :: (snd <$> keys) ++ [[n]]).

(** A template against instructions. *)
Inductive item : Z → Z * valtype → list valtype → Prop :=
| item_pubkey o k : key_sized k = true → item OP_PUBKEY (o, k) [k]
| item_hash o h : size h = 20 → item OP_PUBKEYHASH (o, h) [h]
| item_small i n : small_int i n → item OP_SMALLINTEGER i [[n]]
| item_same o : OP_PUSHDATA4 < o < OP_SMALLINTEGER → item o (o, []) [].
Inductive matches : list Z → list (Z * valtype) → list valtype → Prop :=
| matches_end : matches [] [] []
| matches_one o i T ops s sols : item o i s → matches T ops sols → matches (o :: T) (i :: ops) (s ++ sols)
| matches_keys keys i T ops sols :
    Forall (λ k, key_sized k.2 = true) keys → key_sized i.2 = false → matches T (i :: ops) sols →
    matches (OP_PUBKEYS :: T) (keys ++ i :: ops) ((snd <$> keys) ++ sols).

(** A template's opcodes; one that is not last follows [OP_PUBKEYS]. *)
Definition plain_op (o : Z) : Prop :=
  OP_PUSHDATA4 < o < OP_SMALLINTEGER ∨ o = OP_PUBKEY ∨ o = OP_PUBKEYHASH ∨ o = OP_SMALLINTEGER.
Inductive template : list Z → Prop :=
| template_end : template []
| template_one o T : plain_op o → template T → template (o :: T)
| template_keys o T : plain_op o → template T → template (OP_PUBKEYS :: o :: T).

(** ** The solver meets it *)

Lemma GetOp2_plain o pc : OP_PUSHDATA4 < o → GetOp2 (o :: pc) = OpRead true o [] pc.
Proof. intros H. unfold GetOp2. by rewrite (proj2 (Z.leb_gt _ _)). Qed.

Lemma GetOp2_nodata pc :
  fRet (GetOp2 pc) = true → opcodeRet (GetOp2 pc) = OP_0 ∨ OP_PUSHDATA4 < opcodeRet (GetOp2 pc) → vchRet (GetOp2 pc) = [].
Proof.
  unfold GetOp2. destruct pc as [|o pc]; [done|]. destruct (Z.leb_spec o OP_PUSHDATA4); [|done].
  destruct (push_size o pc) as [|[n pc']] eqn:E; [done|]. destruct (_ <? _); [done|]. cbn. intros _ [->|]; [|lia].
  cbn in E. by injection E as <- _.
Qed.
Lemma GetOp2_fail_data pc : fRet (GetOp2 pc) = false → vchRet (GetOp2 pc) = [].
Proof. unfold GetOp2. repeat case_match; done. Qed.

Lemma decoded_inv pc ops :
  decoded pc ops →
  (pc = [] ∧ ops = []) ∨
  (fRet (GetOp2 pc) = true ∧ ∃ ops', ops = (opcodeRet (GetOp2 pc), vchRet (GetOp2 pc)) :: ops' ∧ decoded (pcRet (GetOp2 pc)) ops').
Proof. destruct 1; [by left|right; eauto]. Qed.
Lemma decoded_det pc ops ops' : decoded pc ops → decoded pc ops' → ops = ops'.
Proof.
  intros H. revert ops'. induction H as [|pc ops Hr H IH]; intros ops' H'; apply decoded_inv in H'.
  - by destruct H' as [[_ ->]|[? _]].
  - destruct H' as [[-> _]|(_ & ops1 & -> & H')]; [done|]. f_equal. by apply IH.
Qed.

(** What an instruction just read and the bytes after it decode to. *)
Definition decoded_from (r : op_read) (ops : list (Z * valtype)) : Prop :=
  fRet r = true ∧ ∃ ops', ops = (opcodeRet r, vchRet r) :: ops' ∧ decoded (pcRet r) ops'.

Lemma decoded_step pc ops i :
  decoded pc (i :: ops) ↔ fRet (GetOp2 pc) = true ∧ i = (opcodeRet (GetOp2 pc), vchRet (GetOp2 pc)) ∧ decoded (pcRet (GetOp2 pc)) ops.
Proof.
  split.
  - by intros [[_ ?]|(Hr & ops' & [= -> ->] & Hd)]%decoded_inv.
  - intros (Hr & -> & Hd). by constructor.
Qed.
Lemma decoded_from_pc pc ops : decoded_from (GetOp2 pc) ops ↔ decoded pc ops ∧ ops ≠ [].
Proof.
  unfold decoded_from. split.
  - intros (Hr & ops' & -> & Hd). split; [|done]. by constructor.
  - intros [[[_ ->]|(Hr & ops' & -> & Hd)]%decoded_inv Hne]; [done|]. eauto.
Qed.

Notation not_key := (λ k : Z * valtype, key_sized k.2 = false).
Notation is_key := (λ k : Z * valtype, key_sized k.2 = true).

Lemma take_pubkeys_spec fuel pc sols :
  (length pc ≤ fuel)%nat →
  ∃ keys pc', take_pubkeys fuel (GetOp2 pc) sols = Ok (GetOp2 pc', sols ++ (snd <$> keys)) ∧
    Forall is_key keys ∧ key_sized (vchRet (GetOp2 pc')) = false ∧
    (∀ ops, decoded pc ops → Exists not_key ops → ∃ ops', ops = keys ++ ops' ∧ decoded pc' ops') ∧
    (∀ ops, decoded pc' ops → ops ≠ [] → decoded pc (keys ++ ops)).
Proof.
  revert pc sols. induction fuel as [|fuel IH]; intros pc sols Hf; unfold take_pubkeys; fold take_pubkeys.
  all: destruct (key_sized (vchRet (GetOp2 pc))) eqn:Ek; [|exists [], pc; rewrite app_nil_r; split_and!; eauto].
  - destruct pc; [done|simpl in Hf; lia].
  - assert (fRet (GetOp2 pc) = true) as Hr.
    { destruct (fRet (GetOp2 pc)) eqn:E; [done|]. by rewrite (GetOp2_fail_data _ E) in Ek. }
    pose proof (GetOp2_shorter _ Hr) as Hl. set (pc1 := pcRet (GetOp2 pc)) in *. set (i := (opcodeRet (GetOp2 pc), vchRet (GetOp2 pc))).
    assert (∀ ops, decoded pc ops → Exists not_key ops → ∃ ops', ops = i :: ops' ∧ decoded pc1 ops' ∧ Exists not_key ops') as Hstep.
    { intros [|j ops] Hd He; [by inversion He|]. apply decoded_step in Hd as (_ & -> & Hd). eexists. split_and!; [done..|].
      inversion He as [? ? Hi|]; subst; [cbn in Hi; congruence|done]. }
    destruct (fRet (GetOp2 pc1)) eqn:Er1.
    + destruct (IH pc1 (sols ++ [vchRet (GetOp2 pc)])) as (keys & pc' & E & Hk & Hnk & Hto & Hfrom); [lia|].
      exists (i :: keys), pc'. rewrite E, <- app_assoc. split_and!; [done|by constructor|done| |].
      * intros ops Hd He. destruct (Hstep ops Hd He) as (ops1 & -> & Hd1 & He1). destruct (Hto ops1 Hd1 He1) as (ops' & -> & Hd'). eauto.
      * intros ops Hd Hne. rewrite <- app_comm_cons, decoded_step. split_and!; [done..|]. by apply Hfrom.
    + exists [i], pc1. split_and!; [done|by constructor|by rewrite GetOp2_fail_data| |].
      * intros ops Hd He. destruct (Hstep ops Hd He) as (ops1 & -> & Hd1 & He1). eauto.
      * intros ops Hd Hne. cbn [app]. by rewrite decoded_step.
Qed.

Lemma small_int_spec o v :
  (OP_PUSHDATA4 < o → v = []) → (o = OP_0 → v = []) →
  if (o =? OP_0) || ((OP_1 <=? o) && (o <=? OP_16)) then
    ∃ n, DecodeOP_N (E:=unit) o = Ok n ∧ ∀ n', small_int (o, v) n' ↔ n' = n
  else ∀ n, ¬ small_int (o, v) n.
Proof.
  intros H1 H2. unfold small_int, DecodeOP_N. destruct (Z.eqb_spec o OP_0) as [->|Ho]; cbn [orb].
  - exists 0. split; [done|]. intros n'. rewrite (H2 eq_refl). unfold OP_0, OP_1. split; [|by intros ->].
    intros [[= H] ?]. destruct (Z.eqb_spec n' 0); lia.
  - unfold OP_0, OP_1, OP_16, OP_PUSHDATA4 in *. destruct ((0x51 <=? o) && (o <=? 0x60)) eqn:E.
    + exists (o - 0x50). cbn [assert_that mbind outcome_bind mret outcome_ret]. split; [done|]. intros n'. rewrite H1 by lia. split.
      * intros [[= H] ?]. destruct (Z.eqb_spec n' 0); lia.
      * intros ->. split; [|lia]. f_equal. rewrite (proj2 (Z.eqb_neq _ _)) by lia. lia.
    + intros n [[= H Hv] Hn]. destruct (Z.eqb_spec n 0); lia.
Qed.

(** Inverts an [item] whose template opcode is known up to its range. *)
Ltac inv_item H :=
  inversion H; subst; try (unfold OP_PUBKEY, OP_PUBKEYHASH, OP_SMALLINTEGER, OP_PUSHDATA4 in *; lia); try congruence.

(** [match_op] decides [item], also after a failed read. *)
Lemma match_op_spec pc o sols :
  plain_op o → let r := GetOp2 pc in
  ∃ m, match_op r o [] sols = Ok m ∧
    ∀ sols', m = Some sols' ↔ ∃ s, item o (opcodeRet r, vchRet r) s ∧ sols' = sols ++ s.
Proof.
  intros Ho r. assert (fRet r = false → opcodeRet r = OP_INVALIDOPCODE ∧ vchRet r = []) as Hfail
    by (intros E; split; [by apply GetOp2_fail|by apply GetOp2_fail_data]).
  assert ((OP_PUSHDATA4 < opcodeRet r → vchRet r = []) ∧ (opcodeRet r = OP_0 → vchRet r = [])) as [Hd1 Hd2].
  { destruct (fRet r) eqn:E; [|by destruct (Hfail eq_refl) as [_ ->]]. split; intros; apply GetOp2_nodata; auto. }
  clear Hfail. clearbody r. destruct r as [b o1 v1 pc1]. cbn [opcodeRet vchRet] in *.
  unfold match_op. cbn [opcodeRet vchRet].
  destruct Ho as [Ho|[->|[->| ->]]].
  - unfold OP_PUBKEY, OP_PUBKEYHASH, OP_SMALLINTEGER, OP_PUSHDATA4 in *. rewrite !(proj2 (Z.eqb_neq o _)) by lia.
    destruct (Z.eqb_spec o1 o) as [->|Hne]; cbn [negb orb].
    + rewrite Hd1 by lia. eexists. split; [reflexivity|]. cbn. intros sols'. split.
      * intros [= <-]. exists []. rewrite app_nil_r. split; [|done]. by constructor.
      * intros (s & Hi & ->). inv_item Hi. by rewrite app_nil_r.
    + eexists. split; [reflexivity|]. intros sols'. split; [done|]. intros (s & Hi & ->). inv_item Hi.
  - change (OP_PUBKEY =? OP_PUBKEY) with true. cbv iota. destruct (key_sized v1) eqn:E; cbn [negb]; eexists; (split; [reflexivity|]); intros sols'; split.
    + intros [= <-]. eexists. split; [by constructor|done].
    + intros (s & Hi & ->). inv_item Hi.
    + done.
    + intros (s & Hi & ->). inv_item Hi.
  - change (OP_PUBKEYHASH =? OP_PUBKEY) with false. change (OP_PUBKEYHASH =? OP_PUBKEYHASH) with true. cbv iota.
    destruct (Z.eqb_spec (size v1) 20); cbn [negb]; eexists; (split; [reflexivity|]); intros sols'; split.
    + intros [= <-]. eexists. split; [by constructor|done].
    + intros (s & Hi & ->). inv_item Hi.
    + done.
    + intros (s & Hi & ->). inv_item Hi.
  - change (OP_SMALLINTEGER =? OP_PUBKEY) with false. change (OP_SMALLINTEGER =? OP_PUBKEYHASH) with false.
    change (OP_SMALLINTEGER =? OP_SMALLINTEGER) with true. cbv iota. pose proof (small_int_spec o1 v1 Hd1 Hd2) as Hs.
    destruct ((o1 =? OP_0) || _).
    + destruct Hs as (n & -> & Hn). eexists. split; [reflexivity|]. intros sols'. split.
      * intros [= <-]. eexists. split; [|reflexivity]. constructor. by apply Hn.
      * intros (s & Hi & ->). inv_item Hi. match goal with H : small_int _ _ |- _ => apply Hn in H; by subst end.
    + eexists. split; [reflexivity|]. intros sols'. split; [done|]. intros (s & Hi & ->). inv_item Hi.
      match goal with H : small_int _ _ |- _ => by apply Hs in H end.
Qed.

Lemma no_item_invalid o s : ¬ item o (OP_INVALIDOPCODE, []) s.
Proof.
  inversion 1 as [| |? n [Hn ?]|]; [done|done| |unfold OP_INVALIDOPCODE, OP_SMALLINTEGER in *; lia].
  injection Hn as Hn. unfold OP_INVALIDOPCODE, OP_0, OP_1 in Hn. destruct (n =? 0); lia.
Qed.

Lemma no_item_keys i s : ¬ item OP_PUBKEYS i s.
Proof. intros H. inv_item H. unfold OP_PUBKEYS, OP_SMALLINTEGER in *. lia. Qed.

Lemma plain_op_gt o : plain_op o → OP_PUSHDATA4 < o ∧ o ≠ OP_PUBKEYS.
Proof. unfold plain_op, OP_PUSHDATA4, OP_SMALLINTEGER, OP_PUBKEY, OP_PUBKEYHASH, OP_PUBKEYS. lia. Qed.

Lemma matches_one_inv o T ops sols :
  o ≠ OP_PUBKEYS → matches (o :: T) ops sols →
  ∃ i ops' s s', ops = i :: ops' ∧ sols = s ++ s' ∧ item o i s ∧ matches T ops' s'.
Proof. intros Hne H. inversion H; subst; [|done]. eauto 8. Qed.

Lemma matches_nonempty o T sols : ¬ matches (o :: T) [] sols.
Proof. intros H. inversion H. by destruct keys. Qed.

(** Two splittings at the first instruction that is not a key agree. *)
Lemma keys_unique ks1 ks2 i1 i2 l1 l2 :
  Forall is_key ks1 → Forall is_key ks2 → key_sized i1.2 = false → key_sized i2.2 = false →
  ks1 ++ i1 :: l1 = ks2 ++ i2 :: l2 → ks1 = ks2 ∧ i1 :: l1 = i2 :: l2.
Proof.
  revert ks2. induction ks1 as [|k ks1 IH]; intros [|k2 ks2] H1 H2 Hi1 Hi2 E; [done| | |].
  - injection E as -> _. apply list.Forall_cons in H2 as [H2 _]. congruence.
  - injection E as <- _. apply list.Forall_cons in H1 as [H1 _]. congruence.
  - apply list.Forall_cons in H1 as [_ H1], H2 as [_ H2]. injection E as -> E.
    destruct (IH ks2 H1 H2 Hi1 Hi2 E) as [-> ?]. done.
Qed.

(** A template matches exactly the scripts that decode to it. *)
Definition match_spec (pc T : list Z) (sols : list valtype) (m : result (option (list valtype))) : Prop :=
  ∃ r, m = Ok r ∧ ∀ sols', r = Some sols' ↔ ∃ ops s, decoded pc ops ∧ matches T ops s ∧ sols' = sols ++ s.

Lemma match_spec_none pc T sols : (∀ ops s, decoded pc ops → matches T ops s → False) → match_spec pc T sols (Ok None).
Proof. intros H. eexists. split; [reflexivity|]. intros sols'. split; [done|]. intros (ops & s & Hd & Hm & _). by destruct (H ops s). Qed.

(** The part of a round after the template's opcode is read. *)
Lemma match_round_spec fuel pc o T sols :
  plain_op o → (∀ sols, match_spec (pcRet (GetOp2 pc)) T sols (match_template fuel (pcRet (GetOp2 pc)) T sols)) →
  match_spec pc (o :: T) sols
    (m ← match_op (GetOp2 pc) o [] sols;
     match m with None => Ok None | Some sols => match_template fuel (pcRet (GetOp2 pc)) T sols end).
Proof.
  intros Ho IH. destruct (match_op_spec pc o sols Ho) as (m & -> & Hm). destruct (plain_op_gt o Ho) as [_ Hne].
  cbn [mbind outcome_bind].
  assert (∀ ops s, decoded pc ops → matches (o :: T) ops s → ∃ s1 s2 ops', s = s1 ++ s2 ∧
    item o (opcodeRet (GetOp2 pc), vchRet (GetOp2 pc)) s1 ∧ decoded (pcRet (GetOp2 pc)) ops' ∧ matches T ops' s2) as Hinv.
  { intros ops s Hd Hmt. apply matches_one_inv in Hmt as (i & ops' & s1 & s2 & -> & -> & Hi & Hmt); [|done].
    apply decoded_step in Hd as (_ & -> & Hd). eauto 8. }
  destruct m as [sols1|].
  - destruct (proj1 (Hm sols1) eq_refl) as (s & Hi & ->). destruct (IH (sols ++ s)) as (r & -> & Hr).
    eexists. split; [reflexivity|]. intros sols'. rewrite Hr. split.
    + intros (ops & s' & Hd & Hmt & ->). exists ((opcodeRet (GetOp2 pc), vchRet (GetOp2 pc)) :: ops), (s ++ s'). rewrite app_assoc.
      split_and!; [|by constructor|done]. destruct (fRet (GetOp2 pc)) eqn:Er; [by apply decoded_step|].
      rewrite GetOp2_fail, GetOp2_fail_data in Hi by done. by apply no_item_invalid in Hi.
    + intros (ops & s' & Hd & Hmt & ->). destruct (Hinv ops s' Hd Hmt) as (s1 & s2 & ops' & -> & Hi1 & Hd' & Hm').
      assert (Some (sols ++ s) = Some (sols ++ s1)) as [= <-%app_inv_head] by (apply Hm; eauto).
      exists ops', s2. by rewrite app_assoc.
  - apply match_spec_none. intros ops s Hd Hmt. destruct (Hinv ops s Hd Hmt) as (s1 & s2 & ops' & _ & Hi1 & _).
    assert (None = Some (sols ++ s1)) by (apply Hm; eauto). done.
Qed.

Lemma match_template_spec fuel pc T sols :
  template T → (length T < fuel)%nat → match_spec pc T sols (match_template fuel pc T sols).
Proof.
  revert pc T sols. induction fuel as [|fuel IH]; [lia|]. intros pc T sols HT Hf. unfold match_template; fold match_template.
  destruct T as [|o T].
  { destruct pc as [|x pc].
    - eexists. split; [reflexivity|]. intros sols'. split.
      + intros [= <-]. exists [], []. rewrite app_nil_r. split_and!; constructor.
      + intros (ops & s & _ & Hm & ->). inversion Hm. by rewrite app_nil_r.
    - destruct (negb (fRet (GetOp2 (x :: pc)))); cbn [GetOp2 fRet negb].
      all: apply match_spec_none; intros ops s Hd Hm; inversion Hm; subst; inversion Hd. }
  destruct (fRet (GetOp2 pc)) eqn:Er; cycle 1.
  { assert (match_spec pc (o :: T) sols (Ok None)) as H; [|by destruct pc].
    apply match_spec_none. intros ops s Hd Hm. apply decoded_inv in Hd as [[_ ->]|[? _]]; [|congruence]. by apply matches_nonempty in Hm. }
  destruct pc as [|x pc']; [done|]. set (pc := x :: pc') in *. cbv zeta.
  inversion HT as [|? ? Ho HT'|o' T' Ho HT']; subst.
  - destruct (plain_op_gt o Ho) as [Hgt Hne]. rewrite (GetOp2_plain o) by done. cbn [fRet opcodeRet pcRet vchRet negb].
    rewrite (proj2 (Z.eqb_neq _ _)) by done. cbn [mbind outcome_bind fRet opcodeRet pcRet vchRet].
    apply match_round_spec; [done|]. intros. apply IH; [done|]. simpl in Hf. lia.
  - rewrite GetOp2_plain by done. cbn [fRet opcodeRet pcRet vchRet negb]. rewrite Z.eqb_refl.
    destruct (plain_op_gt o' Ho) as [Hgt Hne]. rewrite (GetOp2_plain o') by done. cbn [fRet opcodeRet pcRet vchRet negb].
    destruct (take_pubkeys_spec (length pc) pc sols) as (keys & pc1 & -> & Hk & Hnk & Hto & Hfrom); [lia|].
    cbn [mbind outcome_bind fRet opcodeRet pcRet vchRet negb].
    destruct (match_round_spec fuel pc1 o' T' (sols ++ (snd <$> keys)) Ho) as (r & E & Hr).
    { intros. apply IH; [done|]. simpl in Hf. lia. }
    cbn [mbind outcome_bind] in E. rewrite E. eexists. split; [reflexivity|]. intros sols'. rewrite Hr. split.
    + intros (ops & s & Hd & Hm & ->). destruct ops as [|i ops]; [by apply matches_nonempty in Hm|].
      exists (keys ++ i :: ops), ((snd <$> keys) ++ s). rewrite app_assoc. split_and!; [by apply Hfrom| |done].
      constructor; [done| |done]. apply decoded_step in Hd as (_ & -> & _). done.
    + intros (ops & s & Hd & Hm & ->). inversion Hm as [|? ? ? ? ? ? Hi|keys2 i ? ops2 s2 Hk2 Hi2 Hm2]; subst.
      { by apply no_item_keys in Hi. }
      destruct (Hto _ Hd) as (ops' & E2 & Hd').
      { apply Exists_app. right. by left. }
      destruct ops' as [|i' ops'].
      { rewrite app_nil_r in E2. rewrite <- E2 in Hk. apply Forall_app in Hk as [_ Hk]. apply list.Forall_cons in Hk as [Hk _]. congruence. }
      assert (key_sized i'.2 = false) by (by apply decoded_step in Hd' as (_ & -> & _)).
      destruct (keys_unique _ _ _ _ _ _ Hk2 Hk Hi2 H E2) as [-> [= -> ->]].
      exists (i' :: ops'), s2. by rewrite app_assoc.
Qed.

Lemma item_pubkey_inv i s : item OP_PUBKEY i s → ∃ o k, i = (o, k) ∧ s = [k] ∧ key_sized k = true.
Proof. intros H. inv_item H. eauto. Qed.
Lemma item_hash_inv i s : item OP_PUBKEYHASH i s → ∃ o h, i = (o, h) ∧ s = [h] ∧ size h = 20.
Proof. intros H. inv_item H. eauto. Qed.
Lemma item_small_inv i s : item OP_SMALLINTEGER i s → ∃ n, s = [[n]] ∧ small_int i n.
Proof. intros H. inv_item H. eauto. Qed.
Lemma item_same_inv o i s : OP_PUSHDATA4 < o < OP_SMALLINTEGER → item o i s → i = (o, []) ∧ s = [].
Proof. intros Ho H. by inv_item H. Qed.

(** Takes the first instruction off a match. *)
Ltac next_match H inv :=
  apply matches_one_inv in H as (? & ? & ? & ? & -> & -> & H' & H); [|done]; apply inv in H'.

Lemma matches_pubkey ops s :
  matches [OP_PUBKEY; OP_CHECKSIG] ops s ↔
  ∃ o k, ops = [(o, k); (OP_CHECKSIG, [])] ∧ s = [k] ∧ key_sized k = true.
Proof.
  split.
  - intros H. next_match H item_pubkey_inv. destruct H' as (o & k & -> & -> & Hk).
    next_match H item_same_inv; [|done]. destruct H' as [-> ->]. inversion H. subst. by exists o, k.
  - intros (o & k & -> & -> & Hk). apply (matches_one _ _ _ _ [k] []); [by constructor|].
    apply (matches_one _ _ _ _ [] []); constructor. done.
Qed.

Lemma matches_pubkeyhash ops s :
  matches [OP_DUP; OP_HASH160; OP_PUBKEYHASH; OP_EQUALVERIFY; OP_CHECKSIG] ops s ↔
  ∃ o h, ops = [(OP_DUP, []); (OP_HASH160, []); (o, h); (OP_EQUALVERIFY, []); (OP_CHECKSIG, [])] ∧ s = [h] ∧ size h = 20.
Proof.
  split.
  - intros H. do 2 (next_match H item_same_inv; [|done]; destruct H' as [-> ->]).
    next_match H item_hash_inv. destruct H' as (o & h & -> & -> & Hh).
    do 2 (next_match H item_same_inv; [|done]; destruct H' as [-> ->]). inversion H. subst. by exists o, h.
  - intros (o & k & -> & -> & Hk). apply (matches_one _ _ _ _ [] [k]); [by constructor|].
    apply (matches_one _ _ _ _ [] [k]); [by constructor|]. apply (matches_one _ _ _ _ [k] []); [by constructor|].
    do 2 (apply (matches_one _ _ _ _ [] []); [by constructor|]). constructor.
Qed.

Lemma matches_multisig ops s :
  matches [OP_SMALLINTEGER; OP_PUBKEYS; OP_SMALLINTEGER; OP_CHECKMULTISIG] ops s ↔
  ∃ im m keys i n, ops = im :: keys ++ [i; (OP_CHECKMULTISIG, [])] ∧ s = [m] :: (snd <$> keys) ++ [[n]] ∧
    small_int im m ∧ small_int i n ∧ Forall is_key keys.
Proof.
  split.
  - intros H. next_match H item_small_inv. destruct H' as (m & -> & Hm).
    inversion H as [|? ? ? ? ? ? Hik|keys i ? ops2 s3 Hk Hnk H2]; subst.
    { by apply no_item_keys in Hik. }
    next_match H2 item_small_inv. destruct H' as (n & -> & Hn).
    next_match H2 item_same_inv; [|done]. destruct H' as [-> ->]. inversion H2. subst. eauto 12.
  - intros (im & m & keys & i & n & -> & -> & Hm & Hn & Hk). apply (matches_one _ _ _ _ [[m]]); [by constructor|].
    constructor; [done| |].
    + destruct Hn as [-> _]. done.
    + apply (matches_one _ _ _ _ [[n]] []); [by constructor|]. apply (matches_one _ _ _ _ [] []); constructor. done.
Qed.

Lemma IsPushOnly_spec pc :
  ∃ b, IsPushOnly (E:=unit) pc = Ok b ∧ (b = true ↔ ∃ ops, decoded pc ops ∧ Forall (λ i, i.1 ≤ OP_16) ops).
Proof.
  unfold IsPushOnly. assert (length pc ≤ length pc)%nat as Hf by done. revert Hf. generalize (length pc) at 2 3 as fuel. intros fuel. revert pc.
  induction fuel as [|fuel IH]; intros [|x pc] Hf; try (simpl in Hf; lia).
  1, 2: exists true; split; [done|]; split; [|done]; intros _; exists []; split; constructor.
  cbn [IsPushOnly_loop]. destruct (fRet (GetOp2 (x :: pc))) eqn:Er; cbn [negb]; cycle 1.
  { exists false. split; [done|]. split; [done|]. intros (ops & [[? _]|[? _]]%decoded_inv & _); [done|congruence]. }
  pose proof (GetOp2_shorter _ Er) as Hl. cbn [length] in Hf, Hl.
  destruct (Z.ltb_spec OP_16 (opcodeRet (GetOp2 (x :: pc)))) as [Hlt|Hle].
  - exists false. split; [done|]. split; [done|]. intros (ops & [[E0 _]|(_ & ops' & -> & _)]%decoded_inv & H); [done|].
    apply list.Forall_cons in H as [H _]. cbn [fst] in H. lia.
  - destruct (IH (pcRet (GetOp2 (x :: pc)))) as (b & -> & Hb); [lia|]. exists b. split; [done|]. rewrite Hb. split.
    + intros (ops & Hd & H). eexists. split; [by constructor|by constructor].
    + intros (ops & [[E0 _]|(_ & ops' & -> & Hd)]%decoded_inv & H); [done|]. apply list.Forall_cons in H as [_ H]. eauto.
Qed.

Lemma IsPayToScriptHash_spec script :
  IsPayToScriptHash script = true ↔ ∃ h, size h = 20 ∧ script = [OP_HASH160; 20] ++ h ++ [OP_EQUAL].
Proof.
  unfold IsPayToScriptHash, size. split.
  - intros H. apply andb_prop in H as [[[Hl H0]%andb_prop H1]%andb_prop H2]. apply Z.eqb_eq in Hl, H0, H1, H2.
    destruct script as [|a [|b script]]; [done|done|]. cbn [nth] in *. subst a b.
    exists (take 20 script). cbn [length] in Hl. split; [rewrite length_take; lia|].
    assert (drop 20 script = [OP_EQUAL]) as E; [|by rewrite <- E, take_drop].
    change (nth 20 script 0 = OP_EQUAL) in H2. rewrite <- (take_drop 20 script) in H2. rewrite app_nth2 in H2 by (rewrite length_take; lia).
    rewrite length_take, Nat.min_l, Nat.sub_diag in H2 by lia. assert (length (drop 20 script) = 1%nat) as Hd by (rewrite length_drop; lia).
    destruct (drop 20 script) as [|e [|]]; try done. cbn in H2. by subst.
  - intros (h & Hh & ->). cbn [app nth length]. rewrite length_app. cbn [length].
    change (nth 20 (h ++ [OP_EQUAL]) 0) with (nth 20 (h ++ [OP_EQUAL]) 0). rewrite app_nth2 by lia.
    replace (20 - length h)%nat with 0%nat by lia. cbn [nth].
    rewrite !andb_true_iff, !Z.eqb_eq. repeat split; lia.
Qed.


Lemma decoded_scripthash h ops :
  size h = 20 → decoded ([OP_HASH160; 20] ++ h ++ [OP_EQUAL]) ops → ops = [(OP_HASH160, []); (20, h); (OP_EQUAL, [])].
Proof.
  intros Hh Hd. apply (decoded_det _ _ _ Hd). apply decoded_step. cbn [app]. rewrite (GetOp2_plain OP_HASH160) by done. cbn [fRet opcodeRet vchRet pcRet].
  split_and!; [done..|]. apply decoded_step.
  assert (GetOp2 (20 :: h ++ [OP_EQUAL]) = OpRead true 20 h [OP_EQUAL]) as ->.
  { pose proof (GetOp2_push_data h [OP_EQUAL]) as H. rewrite (push_data_20 h Hh) in H. cbn [app] in H. rewrite H.
    - unfold push_op. by rewrite Hh.
    - unfold size in *. cbn [length]. rewrite length_app. cbn [length]. lia. }
  cbn [fRet opcodeRet vchRet pcRet]. split_and!; [done..|]. apply decoded_step. rewrite (GetOp2_plain OP_EQUAL) by done.
  cbn [fRet opcodeRet vchRet pcRet]. split_and!; [done..|constructor].
Qed.

Lemma multisig_ok_spec im m (keys : list (Z * valtype)) i n :
  small_int im m → small_int i n →
  ∃ ok, multisig_ok ([m] :: (snd <$> keys) ++ [[n]]) = Ok ok ∧ (ok = true ↔ 1 ≤ m ≤ n ∧ n = Z.of_nat (length keys)).
Proof.
  intros [_ Hm] [_ Hn]. unfold multisig_ok, back0. cbn [front0 mbind outcome_bind].
  rewrite app_comm_cons, list.last_snoc. eexists. split; [reflexivity|]. cbn [length]. rewrite length_app. cbn [length]. rewrite length_fmap. cbn [length].
  rewrite negb_true_iff, !orb_false_iff, negb_false_iff, !Z.ltb_ge, Z.eqb_eq. lia.
Qed.

Lemma templates_ok : Forall (λ t, template t.2) mTemplates.
Proof.
  assert (plain_op OP_PUBKEY ∧ plain_op OP_PUBKEYHASH ∧ plain_op OP_SMALLINTEGER) as (? & ? & ?) by (unfold plain_op; split_and!; tauto).
  assert (∀ o, OP_PUSHDATA4 < o < OP_SMALLINTEGER → plain_op o) as Hp by (unfold plain_op; auto).
  unfold mTemplates. rewrite !list.Forall_cons. cbn [snd].
  split_and!; [| | |done]; repeat (apply template_keys || apply template_one || apply template_end); first [done|by apply Hp].
Qed.

(** The solutions of a standard script determine its instructions. *)
Definition std_ops (script : list Z) (t : txnouttype) (sols : list valtype) : Prop :=
  match t with
  | TX_PUBKEY => ∃ ops, decoded script ops ∧ matches [OP_PUBKEY; OP_CHECKSIG] ops sols
  | TX_PUBKEYHASH => ∃ ops, decoded script ops ∧ matches [OP_DUP; OP_HASH160; OP_PUBKEYHASH; OP_EQUALVERIFY; OP_CHECKSIG] ops sols
  | TX_MULTISIG => ∃ ops, decoded script ops ∧
      matches [OP_SMALLINTEGER; OP_PUBKEYS; OP_SMALLINTEGER; OP_CHECKMULTISIG] ops sols ∧ multisig_ok sols = Ok true
  | _ => False
  end.

Lemma std_ops_standard script t sols :
  t ≠ TX_SCRIPTHASH → t ≠ TX_NULL_DATA → std_ops script t sols ↔ standard script t sols.
Proof.
  intros H1 H2. split.
  - destruct t; cbn; try done.
    + intros (ops & Hd & (o & k & -> & -> & Hk)%matches_pubkey). by econstructor.
    + intros (ops & Hd & (o & k & -> & -> & Hk)%matches_pubkeyhash). by econstructor.
    + intros (ops & Hd & (im & m & keys & i & n & -> & -> & Hm & Hn & Hk)%matches_multisig & Hok).
      destruct (multisig_ok_spec im m keys i n Hm Hn) as (ok & E & Hiff). rewrite E in Hok. injection Hok as ->.
      destruct (proj1 Hiff eq_refl). by econstructor.
  - inversion 1 as [| |o k Hk Hd|o h Hh Hd|im m keys i n Hm Hn Hmn Hk Hl Hd]; subst; unfold std_ops; try done.
    + eexists. split; [done|]. apply matches_pubkey. eauto.
    + eexists. split; [done|]. apply matches_pubkeyhash. eauto.
    + eexists. split; [done|]. split; [apply matches_multisig; eauto 12|].
      destruct (multisig_ok_spec im m keys i _ Hm Hn) as (ok & -> & Hiff). f_equal. by apply Hiff.
Qed.

(** The templates exclude one another. *)
Lemma pubkey_excludes ops s s' :
  matches [OP_PUBKEY; OP_CHECKSIG] ops s →
  ¬ matches [OP_DUP; OP_HASH160; OP_PUBKEYHASH; OP_EQUALVERIFY; OP_CHECKSIG] ops s' ∧
  ¬ matches [OP_SMALLINTEGER; OP_PUBKEYS; OP_SMALLINTEGER; OP_CHECKMULTISIG] ops s'.
Proof.
  intros (o & k & -> & -> & Hk)%matches_pubkey. split.
  - by intros (? & ? & ? & _)%matches_pubkeyhash.
  - intros (im & m & keys & i & n & E & _)%matches_multisig. by destruct keys as [|? [|]].
Qed.
Lemma pubkeyhash_excludes ops s s' :
  matches [OP_DUP; OP_HASH160; OP_PUBKEYHASH; OP_EQUALVERIFY; OP_CHECKSIG] ops s →
  ¬ matches [OP_SMALLINTEGER; OP_PUBKEYS; OP_SMALLINTEGER; OP_CHECKMULTISIG] ops s'.
Proof.
  intros (o & k & -> & -> & Hk)%matches_pubkeyhash (im & m & keys & i & n & E & _ & Hm & _)%matches_multisig.
  injection E as <- _. destruct Hm as [[= Hm] ?]. unfold OP_DUP, OP_0, OP_1 in Hm. destruct (m =? 0); lia.
Qed.

Lemma try_templates_spec script :
  ∃ ok t sols, try_templates mTemplates script = Ok (ok, t, sols) ∧
    ∀ t' sols', (ok = true ∧ t = t' ∧ sols = sols') ↔ std_ops script t' sols'.
Proof.
  pose proof templates_ok as Ht. unfold mTemplates, try_templates in *.
  apply list.Forall_cons in Ht as [T1 [T2 [T3 _]%list.Forall_cons]%list.Forall_cons]. cbn [snd length] in *.
  destruct (match_template_spec 3 script _ [] T1) as (r1 & -> & H1); [simpl; lia|].
  destruct (match_template_spec 6 script _ [] T2) as (r2 & -> & H2); [simpl; lia|].
  destruct (match_template_spec 5 script _ [] T3) as (r3 & -> & H3); [simpl; lia|].
  cbn [app mbind outcome_bind] in *. change (@app (list Z) []) with (@id (list (list Z))) in *. unfold id in *.
  destruct r1 as [s1|].
  { destruct (proj1 (H1 s1) eq_refl) as (ops & s & Hd & Hm & ->). do 3 eexists. split; [reflexivity|].
    intros t' sols'. split.
    - intros (_ & <- & <-). cbn. eauto.
    - intros Hs. destruct t'; cbn in Hs; try done.
      + destruct Hs as (ops' & Hd' & Hm'). split_and!; [done..|]. enough (Some s = Some sols') by congruence. apply H1. eauto.
      + destruct Hs as (ops' & Hd' & Hm'). rewrite (decoded_det _ _ _ Hd Hd') in Hm. by destruct (proj1 (pubkey_excludes _ _ sols' Hm) Hm').
      + destruct Hs as (ops' & Hd' & Hm' & _). rewrite (decoded_det _ _ _ Hd Hd') in Hm. by destruct (proj2 (pubkey_excludes _ _ sols' Hm) Hm'). }
  assert (∀ ops s, decoded script ops → ¬ matches [OP_PUBKEY; OP_CHECKSIG] ops s) as N1
    by (intros ops s Hd Hm; assert (None = Some s) by (apply H1; eauto); done).
  destruct r2 as [s2|].
  { destruct (proj1 (H2 s2) eq_refl) as (ops & s & Hd & Hm & ->). do 3 eexists. split; [reflexivity|].
    intros t' sols'. split.
    - intros (_ & <- & <-). cbn. eauto.
    - intros Hs. destruct t'; cbn in Hs; try done.
      + destruct Hs as (ops' & Hd' & Hm'). by apply N1 in Hm'.
      + destruct Hs as (ops' & Hd' & Hm'). split_and!; [done..|]. enough (Some s = Some sols') by congruence. apply H2. eauto.
      + destruct Hs as (ops' & Hd' & Hm' & _). rewrite (decoded_det _ _ _ Hd Hd') in Hm. by destruct (pubkeyhash_excludes _ _ sols' Hm Hm'). }
  assert (∀ ops s, decoded script ops → ¬ matches [OP_DUP; OP_HASH160; OP_PUBKEYHASH; OP_EQUALVERIFY; OP_CHECKSIG] ops s) as N2
    by (intros ops s Hd Hm; assert (None = Some s) by (apply H2; eauto); done).
  destruct r3 as [s3|].
  { destruct (proj1 (H3 s3) eq_refl) as (ops & s & Hd & Hm & ->).
    pose proof Hm as (im & m & keys & i & n & _ & -> & Hm1 & Hn1 & _)%matches_multisig.
    destruct (multisig_ok_spec im m keys i n Hm1 Hn1) as (ok & E & _). cbn [decide mbind outcome_bind]. rewrite E. cbn [mbind outcome_bind].
    do 3 eexists. split; [reflexivity|]. intros t' sols'. split.
    - intros (-> & <- & <-). cbn. eauto.
    - intros Hs. destruct t'; cbn in Hs; try done; destruct Hs as (ops' & Hd' & Hm'); [by apply N1 in Hm'|by apply N2 in Hm'|].
      destruct Hm' as [Hm' Hok]. assert (Some ([m] :: (snd <$> keys) ++ [[n]]) = Some sols') as [= <-] by (apply H3; eauto). split_and!; [congruence|done..]. }
  do 3 eexists. split; [reflexivity|]. intros t' sols'. split; [by intros [? _]|]. intros Hs.
  destruct t'; cbn in Hs; try done; destruct Hs as (ops' & Hd' & Hm'); [by apply N1 in Hm'|by apply N2 in Hm'|].
  destruct Hm' as [Hm' _]. assert (None = Some sols') by (apply H3; eauto). done.
Qed.

Lemma null_data_spec script :
  ∃ b, is_null_data script = Ok b ∧ (b = true ↔ standard script TX_NULL_DATA []).
Proof.
  destruct script as [|o rest]; cbn [is_null_data].
  { eexists. split; [reflexivity|]. split; [done|]. by inversion 1. }
  destruct (Z.eqb_spec o OP_RETURN) as [->|Hne].
  - destruct (IsPushOnly_spec rest) as (b & -> & Hb). exists b. split; [done|]. rewrite Hb. split.
    + intros (ops & Hd & Hops). by econstructor.
    + inversion 1 as [|? ops E| | |]. injection E as <-. eauto.
  - eexists. split; [reflexivity|]. split; [done|]. inversion 1 as [|? ops E| | |]. by injection E.
Qed.

(** The shortcuts exclude the templates. *)
Lemma scripthash_excludes script h t sols :
  standard script TX_SCRIPTHASH [h] → standard script t sols → t = TX_SCRIPTHASH ∧ sols = [h].
Proof.
  intros H. inversion H as [? Hh E| | | |]; subst.
  assert (∀ ops, decoded ([OP_HASH160; 20] ++ h ++ [OP_EQUAL]) ops → ops = [(OP_HASH160, []); (20, h); (OP_EQUAL, [])]) as Hops
    by (intros ops; by apply decoded_scripthash).
  intros Hs. inversion Hs as [h' Hh' E|rest ops E|o k Hk Hd|o h' Hh' Hd|im m keys i n Hm Hn Hmn Hk Hl Hd]; subst.
  - injection E as E. apply app_inj_tail in E as [-> _]. done.
  - done.
  - by apply Hops in Hd.
  - by apply Hops in Hd.
  - apply Hops in Hd. by destruct keys as [|? [|? [|]]].
Qed.

Lemma null_data_excludes script t sols :
  standard script TX_NULL_DATA [] → standard script t sols → t = TX_NULL_DATA ∧ sols = [].
Proof.
  intros H. inversion H as [|rest ops Er _ _| | |]; subst.
  assert (∀ i ops, decoded (OP_RETURN :: rest) (i :: ops) → i = (OP_RETURN, [])) as Hops.
  { intros i ops' Hd. apply decoded_step in Hd as (_ & -> & _). by rewrite GetOp2_plain. }
  intros Hs. inversion Hs as [h' Hh' E|rest' ops' E|o k Hk Hd|o h' Hh' Hd|im m keys i n Hm Hn Hmn Hk Hl Hd]; subst; try done.
  - apply Hops in Hd. injection Hd as -> ->. done.
  - apply Hops in Hd. done.
  - apply Hops in Hd. subst im. destruct Hm as [[= Hm] ?]. unfold OP_RETURN, OP_0, OP_1 in Hm. destruct (m =? 0); lia.
Qed.

Lemma Solver_spec script :
  ∃ ok t sols, Solver script = Ok (ok, t, sols) ∧ ∀ t' sols', (ok = true ∧ t = t' ∧ sols = sols') ↔ standard script t' sols'.
Proof.
  unfold Solver. destruct (IsPayToScriptHash script) eqn:Ep.
  { apply IsPayToScriptHash_spec in Ep as (h & Hh & ->). do 3 eexists. split; [reflexivity|].
    assert (take 20 (drop 2 ([OP_HASH160; 20] ++ h ++ [OP_EQUAL])) = h) as -> by (apply take_app_length'; unfold size in Hh; lia).
    intros t' sols'. split; [intros (_ & <- & <-); by econstructor|]. intros Hs.
    by destruct (scripthash_excludes _ h _ _ (std_scripthash _ h Hh eq_refl) Hs) as [-> ->]. }
  destruct (null_data_spec script) as (b & -> & Hb). cbn [mbind outcome_bind]. destruct b.
  { pose proof (proj1 Hb eq_refl) as Hn. do 3 eexists. split; [reflexivity|]. intros t' sols'. split; [intros (_ & <- & <-); done|].
    intros Hs. by destruct (null_data_excludes _ _ _ Hn Hs) as [-> ->]. }
  destruct (try_templates_spec script) as (ok & t & sols & -> & H). do 3 eexists. split; [reflexivity|]. intros t' sols'. rewrite H.
  destruct (decide (t' = TX_SCRIPTHASH)) as [->|H1].
  { split; [done|]. inversion 1 as [h Hh E| | | |]. rewrite (proj2 (IsPayToScriptHash_spec script)) in Ep by eauto. done. }
  destruct (decide (t' = TX_NULL_DATA)) as [->|H2]; [|by apply std_ops_standard].
  split; [done|]. intros Hs. assert (sols' = []) as -> by (by inversion Hs). by apply Hb in Hs.
Qed.

Lemma Solver_standard script t sols : standard script t sols → Solver script = Ok (true, t, sols).
Proof. intros Hs. destruct (Solver_spec script) as (ok & t' & sols' & -> & H). by destruct (proj2 (H _ _) Hs) as (-> & -> & ->). Qed.

(** ** Scripts built for destinations *)

Lemma decoded_push b rest ops :
  size (push_data b ++ rest) < 2 ^ 32 → decoded rest ops → decoded (push_data b ++ rest) ((push_op (size b), b) :: ops).
Proof. intros Hs Hd. apply decoded_step. rewrite GetOp2_push_data by done. done. Qed.
Lemma decoded_plain o rest ops : OP_PUSHDATA4 < o → decoded rest ops → decoded (o :: rest) ((o, []) :: ops).
Proof. intros Ho Hd. apply decoded_step. rewrite GetOp2_plain by done. done. Qed.

Definition dest_ok (d : CTxDestination) : Prop :=
  match d with CNoDestination => False | CKeyID h | CScriptID h => size h = 20 end.

Lemma size_app (a b : list Z) : size (a ++ b) = size a + size b.
Proof. unfold size. rewrite length_app. lia. Qed.
Lemma size_cons (a : Z) (b : list Z) : size (a :: b) = 1 + size b.
Proof. unfold size. cbn [length]. lia. Qed.

Lemma destination_standard d :
  dest_ok d → match d with
              | CNoDestination => False
              | CKeyID h => standard (GetScriptForDestination d) TX_PUBKEYHASH [h]
              | CScriptID h => standard (GetScriptForDestination d) TX_SCRIPTHASH [h]
              end.
Proof.
  destruct d as [|h|h]; cbn [dest_ok GetScriptForDestination]; [done| |]; intros Hh.
  - apply (std_pubkeyhash _ (push_op (size h))); [done|]. cbn [app]. do 2 (apply decoded_plain; [done|]). apply decoded_push.
    { rewrite push_data_20 by done. rewrite size_app, size_cons, Hh. done. }
    do 2 (apply decoded_plain; [done|]). constructor.
  - constructor; [done|]. by rewrite push_data_20.
Qed.

Lemma push_data_size b : key_sized b = true → size (push_data b) = 1 + size b.
Proof.
  unfold key_sized. intros [H1 H2]%andb_prop. apply Z.leb_le in H1, H2. unfold push_data.
  rewrite (proj2 (Z.ltb_lt _ _)) by (unfold OP_PUSHDATA1; lia). by rewrite size_app, size_cons.
Qed.
Lemma keys_size keys : Forall (λ k, key_sized k = true) keys → size (concat (push_data <$> keys)) ≤ 66 * Z.of_nat (length keys).
Proof.
  induction 1 as [|k keys Hk _ IH]; [done|]. rewrite fmap_cons. cbn [concat]. rewrite size_app, push_data_size by done.
  unfold key_sized in Hk. apply andb_prop in Hk as [_ Hk%Z.leb_le]. cbn [length]. lia.
Qed.
Lemma decoded_keys keys rest ops :
  Forall (λ k, key_sized k = true) keys → 66 * Z.of_nat (length keys) + size rest < 2 ^ 32 → decoded rest ops →
  decoded (concat (push_data <$> keys) ++ rest) (((λ k, (push_op (size k), k)) <$> keys) ++ ops).
Proof.
  intros Hk. induction Hk as [|k keys Hk Hks IH]; intros Hs Hd; [done|]. rewrite !fmap_cons. cbn [concat app]. rewrite <- app_assoc.
  pose proof (keys_size keys Hks) as Hl. cbn [length] in Hs. apply decoded_push.
  - rewrite !size_app, push_data_size by done. unfold key_sized in Hk. apply andb_prop in Hk as [_ Hk%Z.leb_le]. lia.
  - apply IH; [lia|done].
Qed.

Lemma EncodeOP_N_small n : 0 ≤ n ≤ 16 → EncodeOP_N (E:=unit) n = Ok (if n =? 0 then OP_0 else OP_1 + n - 1).
Proof. intros H. unfold EncodeOP_N. by rewrite (proj2 (Z.leb_le _ _)), (proj2 (Z.leb_le _ _)) by lia. Qed.
Lemma small_opcode n : 1 ≤ n ≤ 16 → OP_PUSHDATA4 < (if n =? 0 then OP_0 else OP_1 + n - 1).
Proof. intros H. rewrite (proj2 (Z.eqb_neq _ _)) by lia. unfold OP_PUSHDATA4, OP_1. lia. Qed.

Lemma multisig_standard m keys :
  1 ≤ m ≤ Z.of_nat (length keys) → Z.of_nat (length keys) ≤ 16 → Forall (λ k, key_sized k = true) keys →
  ∃ script, GetScriptForMultisig m keys = Ok script ∧ standard script TX_MULTISIG ([m] :: keys ++ [[Z.of_nat (length keys)]]).
Proof.
  intros Hm Hn Hk. unfold GetScriptForMultisig. rewrite !EncodeOP_N_small by lia. cbn [mbind outcome_bind]. eexists. split; [reflexivity|].
  assert (keys = snd <$> ((λ k, (push_op (size k), k)) <$> keys)) as E.
  { rewrite <- list_fmap_compose. symmetry. apply list_fmap_id. }
  set (n := Z.of_nat (length keys)) in *.
  assert (keys ++ [[n]] = (snd <$> ((λ k, (push_op (size k), k)) <$> keys)) ++ [[n]]) as -> by (by f_equal).
  apply (std_multisig _ (if m =? 0 then OP_0 else OP_1 + m - 1, []) m _ (if n =? 0 then OP_0 else OP_1 + n - 1, []) n).
  - split; [done|lia].
  - split; [done|lia].
  - done.
  - rewrite Forall_fmap. by apply (list.Forall_impl _ _ _ Hk).
  - by rewrite length_fmap.
  - cbn [app]. apply decoded_plain; [by apply small_opcode; lia|]. apply decoded_keys; [done|unfold size; cbn [length]; lia|].
    apply decoded_plain; [by apply small_opcode; lia|]. apply decoded_plain; [done|constructor].
Qed.

(** ** Properties *)

(** C24: the solver always returns, and says [true] with a type and solutions
    exactly when the instructions of the script are those of that standard form,
    whatever pushes encode the data; no script has two forms. *)
Theorem Solver_exact (script : list Z) :
  (∃ r, Solver script = Ok r) ∧
  (∀ t sols, Solver script = Ok (true, t, sols) ↔ standard script t sols).
Proof.
  destruct (Solver_spec script) as (ok & t & sols & E & H). split; [eauto|]. intros t' sols'. rewrite E, <- H. split; [by intros [= -> -> ->]|by intros (-> & -> & ->)].
Qed.

(** The script built for a destination is standard and gives the destination
    back, to the wallet and to the address index; a script built for [m] of the
    [n] keys is the multisig form with these keys, standard up to three keys. *)
Theorem destination_roundtrip (d : CTxDestination) (m : Z) (keys : list valtype) :
  dest_ok d → 1 ≤ m ≤ Z.of_nat (length keys) → Z.of_nat (length keys) ≤ 16 → Forall (λ k, key_sized k = true) keys →
  ExtractDestination (GetScriptForDestination d) = Ok (Some d) ∧
  GetAddressIndexKey (GetScriptForDestination d)
    = Ok (match d with CKeyID h => (true, h, 1) | CScriptID h => (true, h, 2) | CNoDestination => (false, [], 0) end) ∧
  ∃ script, GetScriptForMultisig m keys = Ok script ∧
    Solver script = Ok (true, TX_MULTISIG, [m] :: keys ++ [[Z.of_nat (length keys)]]) ∧
    IsStandard true MAX_OP_RETURN_RELAY script = Ok (Z.of_nat (length keys) <=? 3, TX_MULTISIG).
Proof.
  intros Hd Hm Hn Hk. pose proof (destination_standard d Hd) as Hs. destruct (multisig_standard m keys Hm Hn Hk) as (script & E & Hms).
  apply Solver_standard in Hms. split_and!; [| |exists script; split_and!; [done..|]].
  - destruct d as [|h|h]; [done| |]; apply Solver_standard in Hs; unfold ExtractDestination; rewrite Hs; cbn; unfold uint160_of; by rewrite Hd.
  - unfold GetAddressIndexKey. destruct d as [|h|h]; [done| |].
    + destruct (IsPayToScriptHash _) eqn:Ep.
      { apply IsPayToScriptHash_spec in Ep as (h' & _ & Ep). done. }
      apply Solver_standard in Hs. unfold ExtractDestination. rewrite Hs. cbn. unfold uint160_of. by rewrite Hd.
    + rewrite (proj2 (IsPayToScriptHash_spec _)) by (exists h; split; [done|]; cbn [GetScriptForDestination]; by rewrite push_data_20).
      cbn [GetScriptForDestination]. rewrite push_data_20 by done.
      assert (take 20 (drop 2 ([OP_HASH160] ++ (20 :: h) ++ [OP_EQUAL])) = h) as ->
        by (apply (take_app_length' h [OP_EQUAL]); cbn in Hd; unfold size in Hd; lia).
      unfold uint160_of. by rewrite Hd.
  - unfold IsStandard. rewrite Hms. cbn [mbind outcome_bind negb]. unfold back0. cbn [front0 mbind outcome_bind].
    rewrite app_comm_cons, list.last_snoc. cbn [mbind outcome_bind].
    rewrite (proj2 (Z.ltb_ge _ _)) by lia. cbn [orb]. rewrite Z.leb_antisym. destruct (3 <? Z.of_nat (length keys)); [done|]. cbn [negb].
    by rewrite (proj2 (Z.ltb_ge _ _)), (proj2 (Z.ltb_ge _ _)) by lia.
Qed.

Lemma destination_roundtrip_witness :
  let k := 2 :: replicate 32 7 in
  ExtractDestination (GetScriptForDestination (CKeyID (replicate 20 9))) = Ok (Some (CKeyID (replicate 20 9))) ∧
  ∃ script, GetScriptForMultisig 2 [k; k] = Ok script.
Proof.
  cbn zeta. destruct (destination_roundtrip (CKeyID (replicate 20 9)) 2 [2 :: replicate 32 7; 2 :: replicate 32 7]) as (H1 & _ & script & H2 & _).
  - by vm_compute.
  - by vm_compute.
  - by vm_compute.
  - by repeat constructor.
  - split; [exact H1|]. exists script. exact H2.
Defined.
