(* ===== verification/Chain.v ===== *)
(** * The block index and the active chain (chain.h, chain.cpp, main.cpp)

    Block index entries live in a store [block_index] that maps a pointer to
    the entry it points to; an entry's pointer is written as the hash of its
    block, which identifies it in [mapBlockIndex].  [NULL] is [None], and
    following a pointer that is not in the store is undefined ([AssertFail]).
    [CBlockIndex::GetAncestor] with its skip pointers, [CChain] and the median
    time are modelled and related to the plain walk along [pprev]. *)
From stdpp Require Import base tactics list gmap numbers option sorting.
From Stdlib Require Import ZArith Lia.
From S2P Require Import Prelude.
From S2P Require Import Transaction.

(** ** Data *)

Definition BLOCK_VALID_UNKNOWN : Z := 0.
Definition BLOCK_VALID_HEADER : Z := 1.
Definition BLOCK_VALID_TREE : Z := 2.
Definition BLOCK_VALID_TRANSACTIONS : Z := 3.
Definition BLOCK_VALID_CHAIN : Z := 4.
Definition BLOCK_VALID_SCRIPTS : Z := 5.
Definition BLOCK_VALID_MASK : Z :=
  Z.lor (Z.lor (Z.lor (Z.lor BLOCK_VALID_HEADER BLOCK_VALID_TREE) BLOCK_VALID_TRANSACTIONS) BLOCK_VALID_CHAIN)
    BLOCK_VALID_SCRIPTS.
Definition BLOCK_HAVE_DATA : Z := 8.
Definition BLOCK_HAVE_UNDO : Z := 16.
Definition BLOCK_FAILED_VALID : Z := 32.
Definition BLOCK_FAILED_CHILD : Z := 64.
Definition BLOCK_FAILED_MASK : Z := Z.lor BLOCK_FAILED_VALID BLOCK_FAILED_CHILD.
Definition BLOCK_PROOF_OF_STAKE : Z := Z.shiftl 1 0.

(** Where the block and its undo record are on disk. *)
Record disk_fields := DiskFields { nFile : Z; nDataPos : Z; nUndoPos : Z }.

(** The proof-of-stake fields. *)
Record stake_fields := StakeFields {
  nStakeModifier : Z;
  nStakeModifierChecksum : Z;
  prevoutStake : COutPoint;
  nStakeTime : Z;
  hashProofOfStake : Z;
  nMint : Z;
  nMoneySupply : Z
}.

(** Numbers of 256 bits that are added and compared are arrays of limbs. *)
Record CBlockIndex := BlockIndex {
  pprev : option Z;
  pskip : option Z;
  nHeight : Z;
  bnChainTrust : list Z;
  nChainWork : list Z;
  nChainTx : Z;
  nStatus : Z;
  nFlags : Z;
  nSequenceId : Z;
  bi_nVersion : Z;
  nTime : Z;
  nBits : Z;
  bi_hashMerkleRoot : Z;
  bi_nNonce : Z;
  pnext : option Z;
  nTx : Z;
  bi_disk : disk_fields;
  bi_stake : stake_fields
}.

(** [SetNull] and the constructor of an entry: the fields read by the proof of
    work and the links are arguments, the others are zero. *)
Definition stake_null : stake_fields := StakeFields 0 0 COutPoint_null 0 0 0 0.
Definition index_entry (prev skip : option Z) (height : Z) (trust work : list Z) (chaintx status flags seq version time bits : Z) : CBlockIndex :=
  BlockIndex prev skip height trust work chaintx status flags seq version time bits 0 0 None 0 (DiskFields 0 0 0) stake_null.

Notation block_index := (gmap Z CBlockIndex).
Notation res := (outcome unit).

(** [*p] *)
Definition deref {E} (m : block_index) (p : Z) : outcome E CBlockIndex :=
  match m !! p with Some b => Ok b | None => AssertFail end.

Definition IsProofOfStake (b : CBlockIndex) : bool := flag (nFlags b) BLOCK_PROOF_OF_STAKE.
Definition GetBlockTime (b : CBlockIndex) : Z := nTime b.

(** [IsValid(nUpTo)]: the flags outside the validity mask are a programming error. *)
Definition IsValid (nUpTo : Z) (b : CBlockIndex) : res bool :=
  if flag nUpTo (Z.lnot BLOCK_VALID_MASK) then AssertFail
  else if flag (nStatus b) BLOCK_FAILED_MASK then Ok false
  else Ok (nUpTo <=? Z.land (nStatus b) BLOCK_VALID_MASK).

Definition set_nStatus (s : Z) (b : CBlockIndex) : CBlockIndex :=
  BlockIndex (pprev b) (pskip b) (nHeight b) (bnChainTrust b) (nChainWork b) (nChainTx b) s (nFlags b)
    (nSequenceId b) (bi_nVersion b) (nTime b) (nBits b)
    (bi_hashMerkleRoot b) (bi_nNonce b) (pnext b) (nTx b) (bi_disk b) (bi_stake b).

(** [RaiseValidity(nUpTo)] *)
Definition RaiseValidity (nUpTo : Z) (b : CBlockIndex) : res (bool * CBlockIndex) :=
  if flag nUpTo (Z.lnot BLOCK_VALID_MASK) then AssertFail
  else if flag (nStatus b) BLOCK_FAILED_MASK then Ok (false, b)
  else if Z.land (nStatus b) BLOCK_VALID_MASK <? nUpTo
       then Ok (true, set_nStatus (Z.lor (Z.land (nStatus b) (Z.lnot BLOCK_VALID_MASK)) nUpTo) b)
  else Ok (false, b).

(** ** Ancestors *)

Definition InvertLowestOne (n : Z) : Z := Z.land n (n - 1).

Definition GetSkipHeight (height : Z) : Z :=
  if height <? 2 then 0
  else if flag height 1 then InvertLowestOne (InvertLowestOne (height - 1)) + 1
  else InvertLowestOne height.

(** The loop of [GetAncestor]; [pindexWalk] may become [NULL]. *)
Fixpoint GetAncestor_loop (fuel : nat) (m : block_index) (height : Z) (pindexWalk : option Z) (heightWalk : Z)
    : res (option Z) :=
  if heightWalk <=? height then Ok pindexWalk
  else
    match fuel with
    | O => OutOfFuel
    | S fuel =>
        match pindexWalk with
        | None => AssertFail
        | Some p =>
            b ← deref m p;
            let heightSkip := GetSkipHeight heightWalk in
            let heightSkipPrev := GetSkipHeight (heightWalk - 1) in
            if (heightSkip =? height) ||
               ((height <? heightSkip) && negb ((heightSkipPrev <? heightSkip - 2) && (height <=? heightSkipPrev)))
            then GetAncestor_loop fuel m height (pskip b) heightSkip
            else GetAncestor_loop fuel m height (pprev b) (heightWalk - 1)
        end
    end.

Definition GetAncestor (m : block_index) (this height : Z) : res (option Z) :=
  b ← deref m this;
  if (nHeight b <? height) || (height <? 0) then Ok None
  else GetAncestor_loop (Z.to_nat (nHeight b)) m height (Some this) (nHeight b).

Definition set_pskip (s : option Z) (b : CBlockIndex) : CBlockIndex :=
  BlockIndex (pprev b) s (nHeight b) (bnChainTrust b) (nChainWork b) (nChainTx b) (nStatus b) (nFlags b)
    (nSequenceId b) (bi_nVersion b) (nTime b) (nBits b)
    (bi_hashMerkleRoot b) (bi_nNonce b) (pnext b) (nTx b) (bi_disk b) (bi_stake b).
Definition set_link (p : option Z) (h : Z) (b : CBlockIndex) : CBlockIndex :=
  BlockIndex p (pskip b) h (bnChainTrust b) (nChainWork b) (nChainTx b) (nStatus b) (nFlags b)
    (nSequenceId b) (bi_nVersion b) (nTime b) (nBits b)
    (bi_hashMerkleRoot b) (bi_nNonce b) (pnext b) (nTx b) (bi_disk b) (bi_stake b).

Definition BuildSkip (m : block_index) (this : Z) : res block_index :=
  b ← deref m this;
  match pprev b with
  | None => Ok m
  | Some p => s ← GetAncestor m p (GetSkipHeight (nHeight b)); Ok (<[this := set_pskip s b]> m)
  end.

(** The part of [AddToBlockIndex] that links a new entry: it is inserted under
    its hash, and when the previous block is known it gets its predecessor,
    height and skip pointer. *)
Definition AddToBlockIndex_link (m : block_index) (hash hashPrevBlock : Z) (entry : CBlockIndex) : res block_index :=
  match m !! hash with
  | Some _ => Ok m
  | None =>
      let m := <[hash := set_pskip None (set_link None 0 entry)]> m in
      match m !! hashPrevBlock with
      | None => Ok m
      | Some prev =>
          b ← deref m hash;
          let m := <[hash := set_link (Some hashPrevBlock) (nHeight prev + 1) b]> m in
          BuildSkip m hash
      end
  end.

(** [GetMedianTimePast]: up to eleven times, collected backwards. *)
Definition nMedianTimeSpan : nat := 11.
Fixpoint past_times (n : nat) (m : block_index) (pindex : option Z) : res (list Z) :=
  match n, pindex with
  | S n, Some p => b ← deref m p; ts ← past_times n m (pprev b); Ok (ts ++ [GetBlockTime b])
  | _, _ => Ok []
  end.
Definition GetMedianTimePast (m : block_index) (this : Z) : res Z :=
  ts ← past_times nMedianTimeSpan m (Some this);
  match merge_sort Z.le ts !! (length ts / 2)%nat with Some t => Ok t | None => AssertFail end.

(** [IsSuperMajority(minVersion, pstart, nRequired)]; [nToCheck] is the
    parameter [ToCheckBlockUpgradeMajority]. *)
Fixpoint IsSuperMajority_loop (n : nat) (m : block_index) (minVersion nRequired : Z) (pstart : option Z) (nFound : Z)
    : res bool :=
  match n, pstart with
  | S n, Some p =>
      if nRequired <=? nFound then Ok true
      else
        b ← deref m p;
        IsSuperMajority_loop n m minVersion nRequired (pprev b)
          (if minVersion <=? bi_nVersion b then nFound + 1 else nFound)
  | _, _ => Ok (nRequired <=? nFound)
  end.
Definition IsSuperMajority (nToCheck : nat) (m : block_index) (minVersion : Z) (pstart : option Z) (nRequired : Z) : res bool :=
  IsSuperMajority_loop nToCheck m minVersion nRequired pstart 0.

(** ** The active chain *)

(** [vChain]: a vector of pointers, [NULL] after a resize. *)
Notation CChain := (list (option Z)).

Definition Genesis (v : CChain) : option Z := match v with p :: _ => p | [] => None end.
Definition chain_at (v : CChain) (nHeight : Z) : option Z :=
  if (nHeight <? 0) || (Z.of_nat (length v) <=? nHeight) then None else mjoin (v !! Z.to_nat nHeight).
Definition Height (v : CChain) : Z := Z.of_nat (length v) - 1.
Definition Contains (m : block_index) (v : CChain) (pindex : Z) : res bool :=
  b ← deref m pindex; Ok (bool_decide (chain_at v (nHeight b) = Some pindex)).
Definition Next (m : block_index) (v : CChain) (pindex : Z) : res (option Z) :=
  c ← Contains m v pindex;
  if c : bool then b ← deref m pindex; Ok (chain_at v (nHeight b + 1)) else Ok None.

(** [Tip(fProofOfStake)] *)
Fixpoint Tip_loop (fuel : nat) (m : block_index) (pindex : option Z) : res (option Z) :=
  match pindex with
  | None => Ok None
  | Some p =>
      b ← deref m p;
      match pprev b with
      | Some _ =>
          if IsProofOfStake b then Ok pindex
          else match fuel with O => OutOfFuel | S fuel => Tip_loop fuel m (pprev b) end
      | None => Ok pindex
      end
  end.
Definition Tip (m : block_index) (v : CChain) (fProofOfStake : bool) : res (option Z) :=
  match last v with
  | None => Ok None
  | Some pindex => if fProofOfStake then Tip_loop (length v) m pindex else Ok pindex
  end.

(** [vector::resize]: new slots are [NULL]. *)
Definition resize_chain (v : CChain) (n : nat) : CChain := resize n None v.

Fixpoint SetTip_loop (fuel : nat) (m : block_index) (v : CChain) (pindex : option Z) : res CChain :=
  match pindex with
  | None => Ok v
  | Some p =>
      b ← deref m p;
      if negb ((0 <=? nHeight b) && (nHeight b <? Z.of_nat (length v))) then AssertFail
      else if bool_decide (v !! Z.to_nat (nHeight b) = Some (Some p)) then Ok v
      else match fuel with
           | O => OutOfFuel
           | S fuel => SetTip_loop fuel m (<[Z.to_nat (nHeight b) := Some p]> v) (pprev b)
           end
  end.

Definition SetTip (m : block_index) (v : CChain) (pindex : option Z) : res CChain :=
  match pindex with
  | None => Ok []
  | Some p =>
      b ← deref m p;
      let n := Z.to_nat (nHeight b + 1) in
      SetTip_loop n m (resize_chain v n) (Some p)
  end.

(** [FindFork] *)
Fixpoint FindFork_loop (fuel : nat) (m : block_index) (v : CChain) (pindex : option Z) : res (option Z) :=
  match pindex with
  | None => Ok None
  | Some p =>
      c ← Contains m v p;
      if c : bool then Ok (Some p)
      else match fuel with
           | O => OutOfFuel
           | S fuel => b ← deref m p; FindFork_loop fuel m v (pprev b)
           end
  end.

Definition FindFork (m : block_index) (v : CChain) (pindex : Z) : res (option Z) :=
  b ← deref m pindex;
  p ← (if Height v <? nHeight b then GetAncestor m pindex (Height v) else Ok (Some pindex));
  FindFork_loop (Z.to_nat (nHeight b + 1)) m v p.

(** [GetLocator]; block hashes are the pointers themselves. *)
Fixpoint GetLocator_loop (fuel : nat) (m : block_index) (v : CChain) (pindex : option Z) (vHave : list Z) (nStep : Z)
    : res (list Z) :=
  match pindex with
  | None => Ok vHave
  | Some p =>
      let vHave := vHave ++ [p] in
      b ← deref m p;
      if nHeight b =? 0 then Ok vHave
      else match fuel with
           | O => OutOfFuel
           | S fuel =>
               let height := Z.max (nHeight b - nStep) 0 in
               c ← Contains m v p;
               p' ← (if c : bool then Ok (chain_at v height) else GetAncestor m p height);
               GetLocator_loop fuel m v p' vHave (if (10 <? length vHave)%nat then nStep * 2 else nStep)
           end
  end.

Definition GetLocator (m : block_index) (v : CChain) (pindex : option Z) : res (list Z) :=
  p ← (match pindex with Some p => Ok (Some p) | None => Tip m v false end);
  match p with
  | None => Ok []
  | Some p => b ← deref m p; GetLocator_loop (Z.to_nat (nHeight b)) m v (Some p) [] 1
  end.

(** [FindForkInGlobalIndex] (main.cpp) *)
Fixpoint FindForkInGlobalIndex (m : block_index) (v : CChain) (vHave : list Z) : res (option Z) :=
  match vHave with
  | [] => Ok (Genesis v)
  | hash :: vHave =>
      match m !! hash with
      | None => FindForkInGlobalIndex m v vHave
      | Some _ => c ← Contains m v hash; if c : bool then Ok (Some hash) else FindForkInGlobalIndex m v vHave
      end
  end.

(** ** The plain walk along [pprev] *)

Fixpoint walk_back (m : block_index) (n : nat) (p : Z) : option Z :=
  match n with
  | O => Some p
  | S n => b ← m !! p; q ← pprev b; walk_back m n q
  end.

(** The ancestor of [p] at a height, by walking back one block at a time. *)
Definition ancestor (m : block_index) (p height : Z) : option Z :=
  b ← m !! p;
  if (0 <=? height) && (height <=? nHeight b) then walk_back m (Z.to_nat (nHeight b - height)) p else None.

(** Every entry is one above its predecessor, a root is at height 0, and a skip
    pointer leads to the ancestor at the entry's skip height. *)
Record index_wf (m : block_index) : Prop := {
  wf_height p b : m !! p = Some b → 0 ≤ nHeight b;
  wf_root p b : m !! p = Some b → pprev b = None → nHeight b = 0;
  wf_pprev p b q : m !! p = Some b → pprev b = Some q → ∃ c, m !! q = Some c ∧ nHeight b = nHeight c + 1;
  wf_pskip p b q : m !! p = Some b → pprev b = Some q → pskip b = ancestor m q (GetSkipHeight (nHeight b))
}.

Lemma deref_some {E} m p b : m !! p = Some b → deref (E:=E) m p = Ok b.
Proof. unfold deref. by intros ->. Qed.

Lemma walk_back_add m n k p : walk_back m (n + k) p = walk_back m n p ≫= walk_back m k.
Proof.
  revert p. induction n as [|n IH]; intros p; [done|]. cbn [walk_back Nat.add].
  destruct (m !! p) as [b|]; [|done]. cbn. destruct (pprev b) as [q|]; [|done]. cbn. apply IH.
Qed.

Lemma walk_back_mono m m' n p q : m ⊆ m' → walk_back m n p = Some q → walk_back m' n p = Some q.
Proof.
  intros Hm. revert p. induction n as [|n IH]; intros p; [done|]. cbn [walk_back].
  destruct (m !! p) as [b|] eqn:E; [|done]. rewrite (lookup_weaken _ _ _ _ E Hm). cbn.
  destruct (pprev b); [|done]. apply IH.
Qed.

Lemma InvertLowestOne_bound n : 0 ≤ n → 0 ≤ InvertLowestOne n ≤ n ∧ (0 < n → InvertLowestOne n < n).
Proof.
  intros Hn. unfold InvertLowestOne. destruct (Z.eqb_spec n 0) as [->|Hnz]; [done|].
  assert (0 ≤ Z.land n (n - 1)) by (apply Z.land_nonneg; lia).
  assert (Z.land n (n - 1) ≤ n - 1).
  { rewrite Z.land_comm. apply Z.ldiff_le; [lia|]. apply Z.bits_inj'. intros i Hi.
    rewrite Z.ldiff_spec, Z.land_spec, Z.bits_0. by destruct (Z.testbit (n - 1) i), (Z.testbit n i). }
  lia.
Qed.

Lemma GetSkipHeight_bound h : 0 < h → 0 ≤ GetSkipHeight h < h.
Proof.
  intros Hh. unfold GetSkipHeight. destruct (Z.ltb_spec h 2); [lia|]. destruct (flag h 1) eqn:Ef.
  - destruct (InvertLowestOne_bound (h - 1)) as [? H1]; [lia|]. specialize (H1 ltac:(lia)).
    destruct (InvertLowestOne_bound (InvertLowestOne (h - 1))) as [? H2]; [lia|].
    assert (2 < h ∨ h = 2) as [?| ->] by lia; [|done].
    destruct (Z.eqb_spec (InvertLowestOne (h - 1)) 0) as [E|]; [rewrite E in *; lia|]. specialize (H2 ltac:(lia)). lia.
  - destruct (InvertLowestOne_bound h) as [? H1]; lia.
Qed.

Section Wf.
Context (m : block_index) (Hwf : index_wf m).

Lemma walk_back_ok n p b :
  m !! p = Some b → Z.of_nat n ≤ nHeight b →
  ∃ q c, walk_back m n p = Some q ∧ m !! q = Some c ∧ nHeight c = nHeight b - Z.of_nat n.
Proof.
  revert p b. induction n as [|n IH]; intros p b Hp Hn; [exists p, b; split_and!; [done..|lia]|].
  cbn [walk_back]. rewrite Hp. cbn. destruct (pprev b) as [q|] eqn:Eq.
  - destruct (wf_pprev m Hwf p b q Hp Eq) as (c & Hc & Hh). destruct (IH q c Hc) as (r & d & Hr & Hd & Hhd); [lia|].
    exists r, d. cbn. split_and!; [done..|lia].
  - pose proof (wf_root m Hwf p b Hp Eq). lia.
Qed.

Lemma ancestor_walk p b h :
  m !! p = Some b → 0 ≤ h ≤ nHeight b → ancestor m p h = walk_back m (Z.to_nat (nHeight b - h)) p.
Proof.
  intros Hp Hh. unfold ancestor. rewrite Hp. cbn.
  by rewrite (proj2 (Z.leb_le 0 h)), (proj2 (Z.leb_le h _)) by lia.
Qed.

Lemma ancestor_out p b h : m !! p = Some b → h < 0 ∨ nHeight b < h → ancestor m p h = None.
Proof.
  intros Hp Hh. unfold ancestor. rewrite Hp. cbn. destruct Hh.
  - by rewrite (proj2 (Z.leb_gt 0 h)) by lia.
  - by rewrite (proj2 (Z.leb_gt h _)), andb_false_r by lia.
Qed.

Lemma ancestor_ok p b h :
  m !! p = Some b → 0 ≤ h ≤ nHeight b → ∃ q c, ancestor m p h = Some q ∧ m !! q = Some c ∧ nHeight c = h.
Proof.
  intros Hp Hh. rewrite (ancestor_walk p b h) by done.
  destruct (walk_back_ok (Z.to_nat (nHeight b - h)) p b Hp) as (q & c & ? & ? & ?); [lia|].
  exists q, c. split_and!; [done..|lia].
Qed.

Lemma ancestor_some p b h q :
  m !! p = Some b → ancestor m p h = Some q → 0 ≤ h ≤ nHeight b ∧ ∃ c, m !! q = Some c ∧ nHeight c = h.
Proof.
  intros Hp Hq. destruct (decide (0 ≤ h ≤ nHeight b)) as [Hh|Hh].
  - split; [done|]. destruct (ancestor_ok p b h Hp Hh) as (q' & c & E & ? & ?). exists c. by simplify_eq.
  - rewrite (ancestor_out p b h) in Hq; [done|done|lia].
Qed.

Lemma ancestor_self p b : m !! p = Some b → ancestor m p (nHeight b) = Some p.
Proof.
  intros Hp. pose proof (wf_height m Hwf p b Hp). rewrite (ancestor_walk p b) by (done || lia).
  by rewrite Z.sub_diag.
Qed.

Lemma ancestor_trans p b k s h :
  m !! p = Some b → ancestor m p k = Some s → h ≤ k → ancestor m s h = ancestor m p h.
Proof.
  intros Hp Hs Hk. destruct (ancestor_some p b k s Hp Hs) as (Hkb & c & Hc & Hhc).
  destruct (decide (0 ≤ h)).
  - rewrite (ancestor_walk s c h), (ancestor_walk p b h) by (done || lia).
    rewrite (ancestor_walk p b k) in Hs by (done || lia).
    replace (Z.to_nat (nHeight b - h)) with (Z.to_nat (nHeight b - k) + Z.to_nat (nHeight c - h))%nat by lia.
    by rewrite walk_back_add, Hs.
  - rewrite (ancestor_out s c h), (ancestor_out p b h) by (done || lia). done.
Qed.

Lemma ancestor_pprev p b q : m !! p = Some b → pprev b = Some q → ancestor m p (nHeight b - 1) = Some q.
Proof.
  intros Hp Hq. destruct (wf_pprev m Hwf p b q Hp Hq) as (c & Hc & Hh). pose proof (wf_height m Hwf q c Hc).
  rewrite (ancestor_walk p b) by (done || lia). replace (Z.to_nat _) with 1%nat by lia. cbn [walk_back].
  rewrite Hp. cbn. by rewrite Hq.
Qed.

Lemma has_pprev p b : m !! p = Some b → 0 < nHeight b → ∃ q, pprev b = Some q.
Proof. intros Hp Hh. destruct (pprev b) as [q|] eqn:E; [by exists q|]. pose proof (wf_root m Hwf p b Hp E). lia. Qed.

Lemma GetAncestor_loop_spec fuel p b h :
  m !! p = Some b → 0 ≤ h ≤ nHeight b → nHeight b - h ≤ Z.of_nat fuel →
  GetAncestor_loop fuel m h (Some p) (nHeight b) = Ok (ancestor m p h).
Proof.
  revert p b. induction fuel as [|fuel IH]; intros p b Hp Hh Hf; cbn [GetAncestor_loop];
    destruct (Z.leb_spec (nHeight b) h).
  1,3: replace h with (nHeight b) by lia; by rewrite ancestor_self.
  { lia. }
  rewrite (deref_some m p b Hp). cbn [mbind outcome_bind].
  destruct (has_pprev p b Hp) as [q Hq]; [lia|].
  pose proof (ancestor_pprev p b q Hp Hq) as Ep. destruct (wf_pprev m Hwf p b q Hp Hq) as (c & Hc & Hhc).
  pose proof (GetSkipHeight_bound (nHeight b) ltac:(lia)) as Hsk.
  destruct (_ || _) eqn:Ec.
  - assert (h ≤ GetSkipHeight (nHeight b)) as Hle.
    { apply orb_true_iff in Ec as [E%Z.eqb_eq|E]; [lia|]. apply andb_true_iff in E as [E%Z.ltb_lt _]. lia. }
    rewrite (wf_pskip m Hwf p b q Hp Hq).
    destruct (ancestor_ok q c (GetSkipHeight (nHeight b)) Hc) as (s & d & Es & Hd & Hhd); [lia|].
    rewrite Es. rewrite <- Hhd at 1. rewrite (IH s d Hd) by lia.
    rewrite (ancestor_trans q c _ s h Hc Es) by lia. by rewrite (ancestor_trans p b _ q h Hp Ep) by lia.
  - rewrite Hq. replace (nHeight b - 1) with (nHeight c) by lia. rewrite (IH q c Hc) by lia.
    by rewrite (ancestor_trans p b _ q h Hp Ep) by lia.
Qed.

Lemma GetAncestor_spec p b h : m !! p = Some b → GetAncestor m p h = Ok (ancestor m p h).
Proof.
  intros Hp. unfold GetAncestor. rewrite (deref_some m p b Hp). cbn [mbind outcome_bind].
  destruct (Z.ltb_spec (nHeight b) h); cbn [orb]; [rewrite (ancestor_out p b h); [done|done|lia]|].
  destruct (Z.ltb_spec h 0); [rewrite (ancestor_out p b h); [done|done|lia]|].
  apply GetAncestor_loop_spec; [done|lia|lia].
Qed.

End Wf.

(** ** The active chain *)

Section ChainProofs.
Context (m : block_index) (Hwf : index_wf m).

(** [v] is the whole chain up to [tip]. *)
Definition chain_ok (v : CChain) (tip : option Z) : Prop :=
  match tip with
  | None => v = []
  | Some t => ∃ b, m !! t = Some b ∧ Z.of_nat (length v) = nHeight b + 1 ∧
      ∀ k, 0 ≤ k ≤ nHeight b → v !! Z.to_nat k = Some (ancestor m t k)
  end.

(** [p] is the tip or one of its ancestors. *)
Definition on_chain (tip : option Z) (p : Z) : Prop := ∃ t b, tip = Some t ∧ m !! p = Some b ∧ ancestor m t (nHeight b) = Some p.

Lemma chain_at_spec v tip k :
  chain_ok v tip → chain_at v k = t ← tip; ancestor m t k.
Proof.
  intros Hv. unfold chain_at. destruct tip as [t|]; cbn in *.
  2: { subst v. by destruct (_ || _). }
  destruct Hv as (b & Ht & Hl & Hk). rewrite Hl.
  destruct (Z.ltb_spec k 0); cbn [orb]; [by rewrite (ancestor_out m t b k) by (done || lia)|].
  destruct (Z.leb_spec (nHeight b + 1) k); [by rewrite (ancestor_out m t b k) by (done || lia)|].
  by rewrite Hk by lia.
Qed.

Lemma Height_spec v t b : m !! t = Some b → chain_ok v (Some t) → Height v = nHeight b.
Proof. intros Ht (b' & Ht' & Hl & _). simplify_eq. unfold Height. lia. Qed.

Lemma Contains_spec v tip p b :
  chain_ok v tip → m !! p = Some b →
  ∃ c : bool, Contains m v p = Ok c ∧ (c = true ↔ on_chain tip p).
Proof.
  intros Hv Hp. unfold Contains. rewrite (deref_some m p b Hp). cbn [mbind outcome_bind].
  eexists. split; [done|]. rewrite bool_decide_eq_true, (chain_at_spec v tip) by done. unfold on_chain. split.
  - intros H. destruct tip as [t|]; [|done]. by exists t, b.
  - intros (t & b' & -> & Hp' & Ha). by simplify_eq.
Qed.

(** An ancestor of a block on the chain is on the chain. *)
Lemma on_chain_ancestor tip p b h q :
  (∀ t, tip = Some t → is_Some (m !! t)) → on_chain tip p → m !! p = Some b → ancestor m p h = Some q → on_chain tip q.
Proof.
  intros Htip (t & b' & -> & Hp & Ha) Hp' Hq. simplify_eq. destruct (Htip t eq_refl) as [bt Ht].
  destruct (ancestor_some m Hwf p _ h q Hp Hq) as (Hh & c & Hc & Hhc).
  exists t, c. split_and!; [done..|]. rewrite Hhc. rewrite <- Hq. symmetry.
  eapply (ancestor_trans m Hwf t bt); [done|done|lia].
Qed.

Lemma SetTip_loop_spec fuel v old t bt p b :
  m !! t = Some bt → Z.of_nat (length v) = nHeight bt + 1 →
  m !! p = Some b → ancestor m t (nHeight b) = Some p → nHeight b < Z.of_nat fuel →
  (∀ k, nHeight b < k ≤ nHeight bt → v !! Z.to_nat k = Some (ancestor m t k)) →
  (∀ k q, 0 ≤ k ≤ nHeight b → v !! Z.to_nat k = Some (Some q) → ∃ o bo, old = Some o ∧ m !! o = Some bo ∧ ancestor m o k = Some q) →
  (∀ k o bo, 0 ≤ k ≤ nHeight b → old = Some o → m !! o = Some bo → k ≤ nHeight bo → v !! Z.to_nat k = Some (ancestor m o k)) →
  ∃ v', SetTip_loop fuel m v (Some p) = Ok v' ∧ chain_ok v' (Some t).
Proof.
  intros Ht. revert v p b. induction fuel as [|fuel IH]; intros v p b Hl Hp Ha Hf Hhi Hlo Hold.
  { pose proof (wf_height m Hwf p b Hp). lia. }
  pose proof (wf_height m Hwf p b Hp) as Hh0.
  destruct (ancestor_some m Hwf t bt _ p Ht Ha) as (Hhb & _).
  cbn [SetTip_loop]. rewrite (deref_some m p b Hp). cbn [mbind outcome_bind].
  rewrite (proj2 (Z.leb_le 0 _)), (proj2 (Z.ltb_lt _ _)) by lia. cbn [andb negb].
  case_bool_decide as Hin.
  - exists v. split; [done|]. exists bt. split_and!; [done..|]. intros k Hk.
    destruct (decide (nHeight b < k)); [apply Hhi; lia|].
    destruct (Hlo (nHeight b) p ltac:(lia) Hin) as (o & bo & Eo & Ho & Hao).
    destruct (ancestor_some m Hwf o bo _ p Ho Hao) as (Hbo & _).
    rewrite (Hold k o bo) by (done || lia).
    rewrite <- (ancestor_trans m Hwf o bo _ p k Ho Hao) by lia.
    by rewrite (ancestor_trans m Hwf t bt _ p k Ht Ha) by lia.
  - assert (∀ k, nHeight b ≤ k ≤ nHeight bt →
      <[Z.to_nat (nHeight b):=Some p]> v !! Z.to_nat k = Some (ancestor m t k)) as Hins.
    { intros k Hk. destruct (decide (k = nHeight b)) as [->|].
      - rewrite Ha. apply list_lookup_insert_eq. lia.
      - rewrite list_lookup_insert_ne by lia. apply Hhi. lia. }
    destruct (pprev b) as [q|] eqn:Eq.
    + destruct (wf_pprev m Hwf p b q Hp Eq) as (c & Hc & Hhc).
      apply (IH _ q c); [by rewrite length_insert|done| |lia|intros k Hk; apply Hins; lia| |].
      * rewrite <- (ancestor_pprev m Hwf p b q Hp Eq). replace (nHeight c) with (nHeight b - 1) by lia. symmetry.
        by apply (ancestor_trans m Hwf t bt (nHeight b)); [..|lia].
      * intros k r Hk. rewrite list_lookup_insert_ne by lia. apply Hlo. lia.
      * intros k o bo Hk. rewrite list_lookup_insert_ne by lia. apply Hold. lia.
    + pose proof (wf_root m Hwf p b Hp Eq) as Hr. eexists. split; [by destruct fuel|].
      exists bt. split; [done|]. split; [by rewrite length_insert|]. intros k Hk. apply Hins. lia.
Qed.

Lemma SetTip_chain v old t b :
  chain_ok v old → m !! t = Some b → ∃ v', SetTip m v (Some t) = Ok v' ∧ chain_ok v' (Some t).
Proof.
  intros Hv Ht. pose proof (wf_height m Hwf t b Ht) as Hh. unfold SetTip. rewrite (deref_some m t b Ht).
  cbn [mbind outcome_bind]. set (n := Z.to_nat (nHeight b + 1)).
  assert (∀ k, (k < n)%nat → resize_chain v n !! k = Some (mjoin (v !! k))) as Hres.
  { intros k Hk. unfold resize_chain. destruct (decide (k < length v)%nat).
    - rewrite lookup_resize by lia. destruct (lookup_lt_is_Some_2 v k) as [x ->]; done.
    - rewrite lookup_resize_new by lia. rewrite (lookup_ge_None_2 v k) by lia. done. }
  assert (∀ k, 0 ≤ k → mjoin (v !! Z.to_nat k) = chain_at v k) as Hat.
  { intros k Hk. unfold chain_at. rewrite (proj2 (Z.ltb_ge k 0)) by lia. cbn [orb].
    destruct (Z.leb_spec (Z.of_nat (length v)) k); [|done]. by rewrite lookup_ge_None_2 by lia. }
  apply (SetTip_loop_spec _ _ old t b t b); [done|unfold resize_chain; rewrite length_resize; lia|done
    |by apply ancestor_self|lia|lia| |].
  - intros k q Hk. rewrite Hres by lia. rewrite Hat, (chain_at_spec v old) by (done || lia). intros [= E].
    destruct old as [o|]; [|done]. cbn in E. destruct Hv as (bo & Ho & _). by exists o, bo.
  - intros k o bo Hk -> Ho Hko. rewrite Hres by lia. rewrite Hat, (chain_at_spec v (Some o)) by (done || lia). done.
Qed.

(** ** The last common block *)

Definition fork_spec (tip : option Z) (p : Z) (r : option Z) : Prop :=
  match r with
  | Some f => on_chain tip f ∧ ∃ b, m !! f = Some b ∧ ancestor m p (nHeight b) = Some f ∧
      ∀ q c, on_chain tip q → m !! q = Some c → ancestor m p (nHeight c) = Some q → nHeight c ≤ nHeight b
  | None => ∀ q c, m !! q = Some c → ancestor m p (nHeight c) = Some q → ¬ on_chain tip q
  end.

Lemma FindFork_loop_spec fuel v tip p bp q bq :
  chain_ok v tip → m !! p = Some bp → m !! q = Some bq → ancestor m p (nHeight bq) = Some q →
  (∀ r c, on_chain tip r → m !! r = Some c → ancestor m p (nHeight c) = Some r → nHeight c ≤ nHeight bq) →
  nHeight bq < Z.of_nat fuel →
  ∃ r, FindFork_loop fuel m v (Some q) = Ok r ∧ fork_spec tip p r.
Proof.
  intros Hv Hp. revert q bq. induction fuel as [|fuel IH]; intros q bq Hq Ha Hmax Hf;
    pose proof (wf_height m Hwf q bq Hq) as Hh; [lia|].
  cbn [FindFork_loop]. destruct (Contains_spec v tip q bq Hv Hq) as (c & Ec & Hc). rewrite Ec. cbn [mbind outcome_bind].
  destruct c.
  - eexists. split; [done|]. split; [by apply Hc|]. by exists bq.
  - rewrite (deref_some m q bq Hq). cbn [mbind outcome_bind].
    assert (¬ on_chain tip q) as Hoff by (intros H; by apply Hc in H).
    assert (∀ r d, on_chain tip r → m !! r = Some d → ancestor m p (nHeight d) = Some r → nHeight d < nHeight bq) as Hlt.
    { intros r d Hr Hd Hr'. pose proof (Hmax r d Hr Hd Hr').
      destruct (decide (nHeight d = nHeight bq)) as [E|]; [|lia]. rewrite E, Ha in Hr'. by simplify_eq. }
    destruct (pprev bq) as [q'|] eqn:Eq.
    + destruct (wf_pprev m Hwf q bq q' Hq Eq) as (d & Hd & Hhd). apply (IH q' d); [done| | |lia].
      * rewrite <- (ancestor_pprev m Hwf q bq q' Hq Eq). replace (nHeight d) with (nHeight bq - 1) by lia. symmetry.
        apply (ancestor_trans m Hwf p bp _ q _ Hp Ha). lia.
      * intros r e Hr He Hr'. pose proof (Hlt r e Hr He Hr'). lia.
    + exists None. split; [by destruct fuel|]. intros r d Hd Hr Hon.
      pose proof (Hlt r d Hon Hd Hr). pose proof (wf_root m Hwf q bq Hq Eq). pose proof (wf_height m Hwf r d Hd). lia.
Qed.

Lemma FindFork_chain v tip p b :
  chain_ok v tip → m !! p = Some b → ∃ r, FindFork m v p = Ok r ∧ fork_spec tip p r.
Proof.
  intros Hv Hp. pose proof (wf_height m Hwf p b Hp) as Hh. unfold FindFork. rewrite (deref_some m p b Hp).
  cbn [mbind outcome_bind].
  assert (∀ r c, on_chain tip r → m !! r = Some c → ancestor m p (nHeight c) = Some r → nHeight c ≤ Height v ∧ nHeight c ≤ nHeight b) as Hmax.
  { intros r c (t & c' & -> & Hr' & Ht) Hr Ha. simplify_eq. destruct Hv as (bt & Hbt & Hl & _).
    destruct (ancestor_some m Hwf t bt _ r Hbt Ht). destruct (ancestor_some m Hwf p b _ r Hp Ha). unfold Height. lia. }
  destruct (Z.ltb_spec (Height v) (nHeight b)) as [Hlt|Hge].
  - rewrite (GetAncestor_spec m Hwf p b _ Hp). cbn [mbind outcome_bind].
    destruct (ancestor m p (Height v)) as [q|] eqn:Eq.
    + destruct (ancestor_some m Hwf p b _ q Hp Eq) as (? & c & Hc & Hhc).
      apply (FindFork_loop_spec _ v tip p b q c Hv Hp Hc); [by rewrite Hhc| |lia].
      intros r d Hr Hd Hrp. destruct (Hmax r d Hr Hd Hrp). lia.
    + exists None. split; [by destruct (Z.to_nat _)|]. intros r d Hd Hr Hon. destruct (Hmax r d Hon Hd Hr).
      pose proof (wf_height m Hwf r d Hd). destruct (ancestor_ok m Hwf p b (Height v) Hp) as (? & ? & E & _); [lia|].
      by rewrite E in Eq.
  - cbn [mbind outcome_bind]. apply (FindFork_loop_spec _ v tip p b p b Hv Hp Hp); [by apply ancestor_self| |lia].
    intros r d Hr Hd Hrp. by destruct (Hmax r d Hr Hd Hrp).
Qed.

End ChainProofs.

(** ** Adding an entry *)

Lemma GetAncestor_loop_mono m m' fuel h p hw r :
  m ⊆ m' → GetAncestor_loop fuel m h p hw = Ok r → GetAncestor_loop fuel m' h p hw = Ok r.
Proof.
  intros Hm. revert p hw. induction fuel as [|fuel IH]; intros p hw; cbn [GetAncestor_loop];
    destruct (hw <=? h); try done. destruct p as [p|]; [|done]. unfold deref.
  destruct (m !! p) as [b|] eqn:E; [|done]. rewrite (lookup_weaken _ _ _ _ E Hm). cbn [mbind outcome_bind].
  destruct (_ || _); apply IH.
Qed.

Lemma GetAncestor_mono m m' p h r : m ⊆ m' → GetAncestor m p h = Ok r → GetAncestor m' p h = Ok r.
Proof.
  intros Hm. unfold GetAncestor, deref. destruct (m !! p) as [b|] eqn:E; [|done].
  rewrite (lookup_weaken _ _ _ _ E Hm). cbn [mbind outcome_bind]. destruct (_ || _); [done|].
  by apply GetAncestor_loop_mono.
Qed.

Lemma ancestor_mono m m' p h q : m ⊆ m' → ancestor m p h = Some q → ancestor m' p h = Some q.
Proof.
  intros Hm. unfold ancestor. destruct (m !! p) as [b|] eqn:E; [|done]. rewrite (lookup_weaken _ _ _ _ E Hm). cbn.
  destruct (_ && _); [|done]. by apply walk_back_mono.
Qed.

(** A fresh entry whose links are right keeps the index well formed. *)
Lemma index_wf_insert m p b :
  index_wf m → m !! p = None → 0 ≤ nHeight b →
  (pprev b = None → nHeight b = 0) →
  (∀ q, pprev b = Some q → ∃ c, m !! q = Some c ∧ nHeight b = nHeight c + 1 ∧ pskip b = ancestor m q (GetSkipHeight (nHeight b))) →
  index_wf (<[p := b]> m).
Proof.
  intros Hwf Hp Hh Hroot Hprev. assert (m ⊆ <[p := b]> m) as Hm by (by apply insert_subseteq).
  assert (∀ q c sk, m !! q = Some c → 0 ≤ sk ≤ nHeight c → ancestor (<[p := b]> m) q sk = ancestor m q sk) as Hanc.
  { intros q c sk Hq Hsk. destruct (ancestor_ok m Hwf q c sk Hq Hsk) as (s & d & Es & _). rewrite Es.
    by apply (ancestor_mono m). }
  split.
  - intros r c. rewrite lookup_insert_Some. intros [[<- <-]|[_ Hr]]; [done|by apply (wf_height m Hwf r)].
  - intros r c. rewrite lookup_insert_Some. intros [[<- <-]|[_ Hr]]; [done|by apply (wf_root m Hwf r)].
  - intros r c q. rewrite lookup_insert_Some. intros [[<- <-]|[_ Hr]] Hq.
    + destruct (Hprev q Hq) as (d & Hd & ? & _). exists d. split; [by apply (lookup_weaken m)|done].
    + destruct (wf_pprev m Hwf r c q Hr Hq) as (d & Hd & ?). exists d. split; [by apply (lookup_weaken m)|done].
  - intros r c q. rewrite lookup_insert_Some. intros [[<- <-]|[_ Hr]] Hq.
    + destruct (Hprev q Hq) as (d & Hd & Hhd & ->). pose proof (GetSkipHeight_bound (nHeight b)).
      pose proof (wf_height m Hwf q d Hd). symmetry. apply (Hanc q d); [done|lia].
    + destruct (wf_pprev m Hwf r c q Hr Hq) as (d & Hd & Hhd). pose proof (GetSkipHeight_bound (nHeight c)).
      pose proof (wf_height m Hwf q d Hd). rewrite (wf_pskip m Hwf r c q Hr Hq). symmetry. apply (Hanc q d); [done|lia].
Qed.

Lemma AddToBlockIndex_link_wf m hash hashPrevBlock entry :
  index_wf m → hash ≠ hashPrevBlock →
  ∃ m', AddToBlockIndex_link m hash hashPrevBlock entry = Ok m' ∧ index_wf m' ∧ m ⊆ m' ∧ is_Some (m' !! hash).
Proof.
  intros Hwf Hne. unfold AddToBlockIndex_link. destruct (m !! hash) as [b0|] eqn:Eh; [by exists m; eauto|].
  set (e0 := set_pskip None (set_link None 0 entry)).
  rewrite lookup_insert_ne by done. destruct (m !! hashPrevBlock) as [prev|] eqn:Ep.
  - rewrite (deref_some _ hash e0) by (by rewrite lookup_insert_eq). cbn [mbind outcome_bind].
    rewrite insert_insert_eq. set (e1 := set_link (Some hashPrevBlock) (nHeight prev + 1) e0).
    unfold BuildSkip. rewrite (deref_some _ hash e1) by (by rewrite lookup_insert_eq). cbn [mbind outcome_bind].
    change (pprev e1) with (Some hashPrevBlock). change (nHeight e1) with (nHeight prev + 1). cbv iota.
    assert (m ⊆ <[hash := e1]> m) as Hm by (by apply insert_subseteq).
    rewrite (GetAncestor_mono m _ _ _ _ Hm (GetAncestor_spec m Hwf hashPrevBlock prev _ Ep)). cbn [mbind outcome_bind].
    rewrite insert_insert_eq. eexists. split; [done|]. pose proof (wf_height m Hwf _ _ Ep). split; [|split].
    + apply index_wf_insert; [done|done|cbn; lia|done|]. intros q [= <-]. by exists prev.
    + by apply insert_subseteq.
    + by rewrite lookup_insert_eq.
  - eexists. split; [done|]. split; [|split; [by apply insert_subseteq|by rewrite lookup_insert_eq]].
    by apply index_wf_insert.
Qed.

(** A chain of [n] blocks built by [AddToBlockIndex], for the witnesses: block
    [i] has hash [i]. *)
Definition blank_entry : CBlockIndex := index_entry None None 0 [] [] 0 0 0 0 3 0 0.
Fixpoint sample_index (n : nat) : block_index :=
  match n with
  | O => ∅
  | S n =>
      match AddToBlockIndex_link (sample_index n) (Z.of_nat n) (Z.of_nat n - 1) (index_entry None None 0 [] [] 0 0 0 0 3 (Z.of_nat n) 0) with
      | Ok m => m | _ => ∅
      end
  end.

Lemma index_wf_empty : index_wf ∅.
Proof. split; intros *; by rewrite lookup_empty. Qed.

Lemma sample_index_wf n : index_wf (sample_index n).
Proof.
  induction n as [|n IH]; [apply index_wf_empty|]. cbn [sample_index].
  edestruct (AddToBlockIndex_link_wf (sample_index n) (Z.of_nat n) (Z.of_nat n - 1)) as (m' & -> & Hwf & _); [done|lia|done].
Qed.

(** [AddToBlockIndex] keeps the block index well formed: from an index in
    which heights, predecessors and skip pointers agree, adding a block (whose
    hash differs from its predecessor's) terminates without following a bad
    pointer, leaves every old entry in place and yields such an index again. *)
Theorem AddToBlockIndex_wf m hash hashPrevBlock entry :
  index_wf m → hash ≠ hashPrevBlock →
  ∃ m', AddToBlockIndex_link m hash hashPrevBlock entry = Ok m' ∧ index_wf m' ∧ m ⊆ m' ∧ is_Some (m' !! hash).
Proof. apply AddToBlockIndex_link_wf. Qed.

Lemma AddToBlockIndex_wf_witness :
  ∃ m', AddToBlockIndex_link (sample_index 5) 5 4 blank_entry = Ok m' ∧ index_wf m' ∧ sample_index 5 ⊆ m' ∧ is_Some (m' !! 5).
Proof. apply AddToBlockIndex_wf; [apply sample_index_wf|done]. Defined.

(** C37: ancestors: in a well-formed index, [GetAncestor] with its skip pointers
    terminates for every height and gives the block that walking back one
    predecessor at a time gives, [NULL] exactly when the height is negative or
    above the block. *)
Theorem GetAncestor_reference m p b h :
  index_wf m → m !! p = Some b →
  GetAncestor m p h = Ok (ancestor m p h) ∧ (is_Some (ancestor m p h) ↔ 0 ≤ h ≤ nHeight b).
Proof.
  intros Hwf Hp. split; [by eapply GetAncestor_spec|]. split.
  - intros [q Hq]. by destruct (ancestor_some m Hwf p b h q Hp Hq).
  - intros Hh. destruct (ancestor_ok m Hwf p b h Hp Hh) as (q & _ & Hq & _). by exists q.
Qed.

Lemma lookup_sample n p : is_Some (sample_index n !! p) → ∃ b, sample_index n !! p = Some b.
Proof. intros [b H]. by exists b. Qed.

Lemma GetAncestor_reference_witness :
  ∃ b, sample_index 40 !! 39 = Some b ∧ GetAncestor (sample_index 40) 39 7 = Ok (ancestor (sample_index 40) 39 7) ∧
    ancestor (sample_index 40) 39 7 = Some 7.
Proof.
  assert (∃ b, sample_index 40 !! 39 = Some b) as [b Hb].
  { apply lookup_sample, (bool_decide_unpack _). vm_compute. exact I. }
  exists b. split; [exact Hb|]. split; [|vm_compute; reflexivity].
  apply (GetAncestor_reference (sample_index 40) 39 b 7); [apply sample_index_wf|exact Hb].
Defined.

(** [SetTip]: from any complete chain, or none, setting a block as the tip
    gives the complete chain of that block: its ancestor at every height, and
    nothing above.  The loop stops at the first block the chains share, without
    reading out of range. *)
Theorem SetTip_correct m v old t b :
  index_wf m → chain_ok m v old → m !! t = Some b →
  ∃ v', SetTip m v (Some t) = Ok v' ∧ chain_ok m v' (Some t).
Proof. intros Hwf. by apply SetTip_chain. Qed.

Lemma SetTip_correct_witness :
  ∃ v', SetTip (sample_index 6) [] (Some 5) = Ok v' ∧ chain_ok (sample_index 6) v' (Some 5).
Proof.
  assert (∃ b, sample_index 6 !! 5 = Some b) as [b Hb].
  { apply lookup_sample, (bool_decide_unpack _). vm_compute. exact I. }
  apply (SetTip_correct (sample_index 6) [] None 5 b); [apply sample_index_wf|reflexivity|exact Hb].
Defined.

(** [FindFork]: for a complete chain and any block of the index, the result
    is the highest block of the chain that is the block itself or an ancestor
    of it, and [NULL] only when they share none. *)
Theorem FindFork_correct m v tip p b :
  index_wf m → chain_ok m v tip → m !! p = Some b →
  ∃ r, FindFork m v p = Ok r ∧ fork_spec m tip p r.
Proof. intros Hwf. by apply FindFork_chain. Qed.

Lemma FindFork_correct_witness :
  ∃ v r, SetTip (sample_index 6) [] (Some 3) = Ok v ∧ FindFork (sample_index 6) v 5 = Ok r ∧
    fork_spec (sample_index 6) (Some 3) 5 r.
Proof.
  assert (∃ b, sample_index 6 !! 5 = Some b) as [b Hb] by (apply lookup_sample, (bool_decide_unpack _); vm_compute; exact I).
  assert (∃ b, sample_index 6 !! 3 = Some b) as [b3 Hb3] by (apply lookup_sample, (bool_decide_unpack _); vm_compute; exact I).
  destruct (SetTip_chain (sample_index 6) (sample_index_wf 6) [] None 3 b3 eq_refl Hb3) as (v & Ev & Hv).
  destruct (FindFork_correct (sample_index 6) v (Some 3) 5 b (sample_index_wf 6) Hv Hb) as (r & Er & Hr).
  exists v, r. split_and!; assumption.
Defined.

(** ** Locators *)

(** The hashes of a locator for [p0] from height [h] down: ancestors of [p0] at
    strictly decreasing heights, the last one a root. *)
Inductive locator_from (m : block_index) (p0 : Z) : Z → list Z → Prop :=
| locator_genesis g : ancestor m p0 0 = Some g → locator_from m p0 0 [g]
| locator_step h h' q l :
    ancestor m p0 h = Some q → 0 ≤ h' < h → locator_from m p0 h' l → locator_from m p0 h (q :: l).

Section Locator.
Context (m : block_index) (Hwf : index_wf m).

Lemma GetLocator_loop_spec fuel v tip p0 b0 p b vHave nStep k :
  chain_ok m v tip → m !! p0 = Some b0 → m !! p = Some b → ancestor m p0 (nHeight b) = Some p →
  1 ≤ nStep → nHeight b ≤ Z.of_nat fuel →
  ((length vHave < 10)%nat → nStep = 1) → 0 ≤ k → nHeight b ≤ nStep * (2 ^ k - 1) →
  ∃ l, GetLocator_loop fuel m v (Some p) vHave nStep = Ok (vHave ++ l) ∧ locator_from m p0 (nHeight b) l ∧
    Z.of_nat (length l) ≤ Z.max 0 (10 - Z.of_nat (length vHave)) + 1 + k.
Proof.
  intros Hv Hp0. revert p b vHave nStep k.
  induction fuel as [|fuel IH]; intros p b vHave nStep k Hp Ha Hs Hf Hn Hk Hb;
    pose proof (wf_height m Hwf p b Hp) as Hh; cbn [GetLocator_loop]; rewrite (deref_some m p b Hp);
    cbn [mbind outcome_bind]; destruct (Z.eqb_spec (nHeight b) 0) as [E|E].
  1,3: exists [p]; split; [done|]; split; [rewrite E in *; by constructor|cbn [length]; lia].
  { lia. }
  destruct (Contains_spec m v tip p b Hv Hp) as (c & Ec & Hc). rewrite Ec. cbn [mbind outcome_bind].
  remember (Z.max (nHeight b - nStep) 0) as h' eqn:Eh'.
  destruct (ancestor_ok m Hwf p b h' Hp) as (q & d & Eq & Hq & Hhd); [lia|].
  assert ((if c then Ok (chain_at v h') else GetAncestor m p h') = Ok (Some q)) as ->.
  { destruct c; [|by rewrite (GetAncestor_spec m Hwf p b), Eq].
    destruct (proj1 Hc eq_refl) as (t & b' & Et & Hp' & Hat). rewrite Hp in Hp'. injection Hp' as <-. rewrite Et in Hv.
    rewrite (chain_at_spec m v _ h' Hv). cbn. destruct Hv as (bt & Ht & _).
    rewrite <- (ancestor_trans m Hwf t bt _ p h' Ht Hat) by lia. by rewrite Eq. }
  cbn [mbind outcome_bind].
  assert (ancestor m p0 (nHeight d) = Some q) as Haq.
  { rewrite Hhd, <- Eq. symmetry. apply (ancestor_trans m Hwf p0 b0 _ p h' Hp0 Ha). lia. }
  assert (length (vHave ++ [p]) = S (length vHave)) as El by (rewrite length_app; cbn; lia).
  assert (1 ≤ k) as Hk1 by (destruct (Z.eqb_spec k 0) as [->|]; [cbn in Hb; lia|lia]).
  assert (2 ^ k = 2 * 2 ^ (k - 1)) as Epow by (rewrite <- Z.pow_succ_r by lia; f_equal; lia).
  pose proof (Z.pow_pos_nonneg 2 (k - 1)) as Hpow.
  assert (nHeight d ≤ nStep * 2 * (2 ^ (k - 1) - 1)) as Hb' by nia.
  destruct (Nat.ltb_spec 10 (length (vHave ++ [p]))) as [Hlt|Hge].
  - destruct (IH q d (vHave ++ [p]) (nStep * 2) (k - 1) Hq Haq) as (l & Er & Hl & Hlen); [lia..|].
    exists (p :: l). rewrite Er, <- app_assoc. split; [done|]. split; [|cbn [length]; lia].
    apply locator_step with (nHeight d); [done|lia|done].
  - assert (nStep = 1) as -> by (apply Hn; lia).
    destruct (IH q d (vHave ++ [p]) 1 k Hq Haq) as (l & Er & Hl & Hlen); [lia..|].
    exists (p :: l). rewrite Er, <- app_assoc. split; [done|]. split; [|cbn [length]; lia].
    apply locator_step with (nHeight d); [done|lia|done].
Qed.

End Locator.

(** [GetLocator]: for a block of the index and a complete chain, the locator
    starts with the block, goes down through its ancestors at strictly
    decreasing heights to the root, and its length is at most 12 plus the
    logarithm of the height. *)
Theorem GetLocator_correct m v tip p b :
  index_wf m → chain_ok m v tip → m !! p = Some b →
  ∃ l, GetLocator m v (Some p) = Ok l ∧ locator_from m p (nHeight b) l ∧
    Z.of_nat (length l) ≤ 12 + Z.log2 (nHeight b).
Proof.
  intros Hwf Hv Hp. pose proof (wf_height m Hwf p b Hp) as Hh. unfold GetLocator. cbn [mbind outcome_bind].
  rewrite (deref_some m p b Hp). cbn [mbind outcome_bind].
  destruct (GetLocator_loop_spec m Hwf (Z.to_nat (nHeight b)) v tip p b p b [] 1 (Z.log2 (nHeight b) + 1))
    as (l & El & Hl & Hlen); [done|done|done|by apply ancestor_self|lia|lia|done|pose proof (Z.log2_nonneg (nHeight b)); lia| |].
  - destruct (Z.eqb_spec (nHeight b) 0) as [->|]; [done|]. pose proof (Z.log2_spec (nHeight b)). rewrite Z.add_1_r. lia.
  - exists l. split_and!; [done..|]. cbn [length] in Hlen. lia.
Qed.

Lemma GetLocator_correct_witness :
  ∃ b l, sample_index 40 !! 39 = Some b ∧ GetLocator (sample_index 40) [] (Some 39) = Ok l ∧
    locator_from (sample_index 40) 39 (nHeight b) l ∧ Z.of_nat (length l) ≤ 12 + Z.log2 (nHeight b).
Proof.
  assert (∃ b, sample_index 40 !! 39 = Some b) as [b Hb] by (apply lookup_sample, (bool_decide_unpack _); vm_compute; exact I).
  destruct (GetLocator_correct (sample_index 40) [] None 39 b (sample_index_wf 40) eq_refl Hb) as (l & H1 & H2 & H3).
  exists b, l. split_and!; assumption.
Defined.

(** ** Median time *)

(** The times of a block and its predecessors, at most [n] of them. *)
Fixpoint recent_times (m : block_index) (n : nat) (p : option Z) : list Z :=
  match n, p with
  | S n, Some p => match m !! p with Some b => nTime b :: recent_times m n (pprev b) | None => [] end
  | _, _ => []
  end.

Lemma past_times_spec m n p b :
  index_wf m → m !! p = Some b → past_times n m (Some p) = Ok (reverse (recent_times m n (Some p))).
Proof.
  intros Hwf. revert p b. induction n as [|n IH]; intros p b Hp; [done|]. cbn [past_times recent_times].
  rewrite (deref_some m p b Hp), Hp. cbn [mbind outcome_bind]. rewrite reverse_cons. unfold GetBlockTime.
  destruct (pprev b) as [q|] eqn:Eq.
  - destruct (wf_pprev m Hwf p b q Hp Eq) as (c & Hc & _). by rewrite (IH q c Hc).
  - by destruct n.
Qed.

(** Around a position of a sorted list. *)
Lemma sorted_middle l1 t l2 :
  StronglySorted Z.le (l1 ++ t :: l2) →
  (length (filter (λ x, x < t)%Z (l1 ++ t :: l2)) ≤ length l1)%nat ∧
  (length (filter (λ x, t < x)%Z (l1 ++ t :: l2)) ≤ length l2)%nat.
Proof.
  intros Hs. apply StronglySorted_app in Hs as (H12 & _ & Hs2).
  apply StronglySorted_inv in Hs2 as [_ Ht2]. rewrite !filter_app, !length_app. split.
  - assert (filter (λ x, x < t) (t :: l2) = []) as ->; [|cbn; rewrite Nat.add_0_r; apply length_filter].
    apply filter_none. constructor; [lia|]. eapply list.Forall_impl; [exact Ht2|]. cbn. lia.
  - assert (filter (λ x, t < x) l1 = []) as ->.
    { apply filter_none. apply list.Forall_forall. intros x Hx ?. assert (x ≤ t); [|lia]. apply H12; [done|by left]. }
    rewrite filter_cons, decide_False by lia. cbn. apply length_filter.
Qed.

(** [GetMedianTimePast] is a median of the times of the block and its
    predecessors, eleven of them or as many as there are: it is one of these
    times, and at most half of them are earlier and at most half later. *)
Theorem GetMedianTimePast_correct m p b :
  index_wf m → m !! p = Some b →
  let ts := recent_times m 11 (Some p) in
  ∃ t, GetMedianTimePast m p = Ok t ∧ t ∈ ts ∧
    (length (filter (λ x, x < t)%Z ts) ≤ length ts / 2)%nat ∧ (length (filter (λ x, t < x)%Z ts) ≤ length ts / 2)%nat.
Proof.
  intros Hwf Hp ts. unfold GetMedianTimePast. rewrite (past_times_spec m _ p b Hwf Hp). cbn [mbind outcome_bind].
  change nMedianTimeSpan with 11%nat. fold ts.
  assert (0 < length ts)%nat as Hpos by (subst ts; cbn [recent_times]; rewrite Hp; cbn [length]; lia).
  set (l := merge_sort Z.le (reverse ts)).
  assert (l ≡ₚ ts) as Hperm by (unfold l; by rewrite merge_sort_Permutation, reverse_Permutation).
  pose proof (Permutation_length Hperm) as Hlen. rewrite length_reverse.
  assert (length ts / 2 < length l)%nat as Hk by (rewrite Hlen; apply Nat.div_lt; lia).
  destruct (lookup_lt_is_Some_2 l _ Hk) as [t Ht]. rewrite Ht. exists t. split; [done|].
  pose proof (take_drop_middle l _ t Ht) as El.
  assert (StronglySorted Z.le (take (length ts / 2) l ++ t :: drop (S (length ts / 2)) l)) as Hs.
  { rewrite El. apply StronglySorted_merge_sort; apply _. }
  destruct (sorted_middle _ _ _ Hs) as [H1 H2]. rewrite El in H1, H2.
  rewrite length_take in H1. rewrite length_drop in H2. split_and!.
  - rewrite <- Hperm. by eapply list_elem_of_lookup_2.
  - rewrite <- (filter_Permutation_length (λ x, x < t) l ts Hperm). lia.
  - rewrite <- (filter_Permutation_length (λ x, t < x) l ts Hperm).
    pose proof (Nat.div_mod_eq (length ts) 2). pose proof (Nat.mod_upper_bound (length ts) 2). lia.
Qed.

Lemma GetMedianTimePast_correct_witness :
  let ts := recent_times (sample_index 20) 11 (Some 19) in
  ∃ t, GetMedianTimePast (sample_index 20) 19 = Ok t ∧ t ∈ ts ∧
    (length (filter (λ x, x < t)%Z ts) ≤ length ts / 2)%nat ∧ (length (filter (λ x, t < x)%Z ts) ≤ length ts / 2)%nat.
Proof.
  assert (∃ b, sample_index 20 !! 19 = Some b) as [b Hb] by (apply lookup_sample, (bool_decide_unpack _); vm_compute; exact I).
  exact (GetMedianTimePast_correct (sample_index 20) 19 b (sample_index_wf 20) Hb).
Defined.
