(* ===== verification/Pow.v ===== *)
(** * Difficulty and proof of work (pow.cpp, chain.cpp, chainparams.cpp)

    The target of the next block, the proof-of-work test, the work a block
    proves and its trust score, computed on the limb arrays of [BaseUint]; the
    theorems give their values as numbers. *)
From stdpp Require Import base tactics list gmap numbers option.
From Stdlib Require Import ZArith Lia.
From S2P Require Import Prelude.
From S2P Require Import BaseUint.
From S2P Require Import Chain.

(** The network parameters these functions read. *)
Record CChainParams := ChainParams {
  ProofOfWorkLimit : list Z;
  LAST_POW_BLOCK : Z;
  TargetSpacing : Z;
  SkipProofOfWorkCheck : bool
}.

Definition uint256_max : list Z := uint_compl (uint256_of_u64 0).

(** The values of the main network. *)
Definition CMainParams : CChainParams := ChainParams (uint_shr UINT256_WIDTH uint256_max 20) 10000 120 false.

Notation uresult := (outcome uint_error).

(** ** Proof of work *)

Definition CheckProofOfWork (params : CChainParams) (hash : list Z) (nBits : Z) : bool :=
  if SkipProofOfWorkCheck params then true else
  let '(bnTarget, fNegative, fOverflow) := SetCompact nBits in
  if fNegative || uint_EqualTo bnTarget 0 || fOverflow || uint_gt bnTarget (ProofOfWorkLimit params) then false
  else negb (uint_gt hash bnTarget).

(** [GetBlockProof]: [~bnTarget / (bnTarget + 1) + 1]. *)
Definition GetBlockProof (nBits : Z) : uresult (list Z) :=
  let '(bnTarget, fNegative, fOverflow) := SetCompact nBits in
  if fNegative || fOverflow || uint_EqualTo bnTarget 0 then Ok (uint256_of_u64 0)
  else
    q ← uint_div UINT256_WIDTH (uint_compl bnTarget) (uint_add bnTarget (uint256_of_u64 1));
    Ok (uint_add q (uint256_of_u64 1)).

(** [CBlockIndex::GetBlockTrust] (chain.cpp) *)
Definition GetBlockTrust (nBits : Z) (proofOfStake : bool) : uresult (list Z) :=
  let '(bnTarget, _, _) := SetCompact nBits in
  if uint_le bnTarget (uint256_of_u64 0) then Ok (uint256_of_u64 0)
  else if proofOfStake then
    uint_div UINT256_WIDTH (uint_shl UINT256_WIDTH (uint256_of_u64 1) 256) (uint_add bnTarget (uint256_of_u64 1))
  else
    bnPoWTrust ← uint_div UINT256_WIDTH (uint_shr UINT256_WIDTH uint256_max 20) (uint_add bnTarget (uint256_of_u64 1));
    Ok (if uint_gt bnPoWTrust (uint256_of_u64 1) then bnPoWTrust else uint256_of_u64 1).

(** ** The next target *)

Definition PastBlocksMin : Z := 24.
Definition PastBlocksMax : Z := 24.

(** The variables the averaging loop carries. *)
Record dgw := Dgw {
  PastDifficultyAverage : list Z;
  PastDifficultyAveragePrev : list Z;
  nActualTimespan : Z;
  LastBlockTime : Z;
  CountBlocks : Z
}.

(** The body of the loop for the block [b].  [operator*] takes the count as a
    [uint32_t]; the divisor is converted to a 256-bit number. *)
Definition dgw_step (st : dgw) (b : CBlockIndex) : uresult dgw :=
  let CountBlocks := CountBlocks st + 1 in
  '(avg, prev) ←
    (if CountBlocks <=? PastBlocksMin then
       let target := (SetCompact (nBits b)).1.1 in
       avg ← (if CountBlocks =? 1 then Ok target
              else uint_div UINT256_WIDTH (uint_add (uint_mul32 (PastDifficultyAveragePrev st) (u32 CountBlocks)) target)
                     (uint256_of_u64 (CountBlocks + 1)));
       Ok (avg, avg)
     else Ok (PastDifficultyAverage st, PastDifficultyAveragePrev st));
  let span := if 0 <? LastBlockTime st then nActualTimespan st + (LastBlockTime st - GetBlockTime b)
              else nActualTimespan st in
  Ok (Dgw avg prev span (GetBlockTime b) CountBlocks).

Fixpoint dgw_loop (fuel : nat) (m : block_index) (BlockReading : option Z) (i : Z) (st : dgw) : uresult dgw :=
  match BlockReading with
  | None => Ok st
  | Some p =>
      b ← deref m p;
      if nHeight b <=? 0 then Ok st
      else if (0 <? PastBlocksMax) && (PastBlocksMax <? i) then Ok st
      else
        match fuel with
        | O => OutOfFuel
        | S fuel =>
            st ← dgw_step st b;
            match pprev b with
            | None => Ok st
            | Some q => dgw_loop fuel m (Some q) (i + 1) st
            end
        end
  end.

(** The proof-of-stake retarget. *)
Definition stake_target (nActualSpacing nBits : Z) : uresult (list Z) :=
  let bnTargetLimit := uint_shr UINT256_WIDTH uint256_max 24 in
  let nTargetSpacing := 60 in
  let nTargetTimespan := 60 * 40 in
  let nActualSpacing := if nActualSpacing <? 0 then 1 else nActualSpacing in
  let bnNew := (SetCompact nBits).1.1 in
  let nInterval := nTargetTimespan / nTargetSpacing in
  let bnNew := uint_mul32 bnNew (u32 ((nInterval - 1) * nTargetSpacing + nActualSpacing + nActualSpacing)) in
  bnNew ← uint_div UINT256_WIDTH bnNew (uint256_of_u64 ((nInterval + 1) * nTargetSpacing));
  Ok (if uint_le bnNew (uint256_of_u64 0) || uint_gt bnNew bnTargetLimit then bnTargetLimit else bnNew).

(** The proof-of-work retarget from the averaged difficulty. *)
Definition work_target (params : CChainParams) (st : dgw) : uresult (list Z) :=
  let nTargetTimespan := CountBlocks st * TargetSpacing params in
  let span := nActualTimespan st in
  let span := if span <? nTargetTimespan ÷ 3 then nTargetTimespan ÷ 3 else span in
  let span := if nTargetTimespan * 3 <? span then nTargetTimespan * 3 else span in
  let bnNew := uint_mul32 (PastDifficultyAverage st) (u32 span) in
  bnNew ← uint_div UINT256_WIDTH bnNew (uint256_of_u64 (u64 nTargetTimespan));
  Ok (if uint_gt bnNew (ProofOfWorkLimit params) then ProofOfWorkLimit params else bnNew).

Definition GetNextWorkRequired (params : CChainParams) (m : block_index) (pindexLast : option Z) : uresult Z :=
  match pindexLast with
  | None => GetCompact (ProofOfWorkLimit params) false
  | Some p =>
      b ← deref m p;
      if (nHeight b =? 0) || (nHeight b <? PastBlocksMin) then GetCompact (ProofOfWorkLimit params) false
      else if LAST_POW_BLOCK params <? nHeight b then
        nActualSpacing ←
          (if negb (nHeight b =? 0) then
             match pprev b with
             | None => AssertFail
             | Some q => c ← deref m q; Ok (GetBlockTime b - GetBlockTime c)
             end
           else Ok 0);
        bnNew ← stake_target nActualSpacing (nBits b);
        GetCompact bnNew false
      else
        st ← dgw_loop (S (Z.to_nat PastBlocksMax)) m (Some p) 1
               (Dgw (uint_zero UINT256_WIDTH) (uint_zero UINT256_WIDTH) 0 0 0);
        bnNew ← work_target params st;
        GetCompact bnNew false
  end.

(** ** Values *)

Lemma uval_zero a : Forall (is_u 32) a → (uval a =? 0) = forallb (λ x, x =? 0) a.
Proof.
  induction 1 as [|x a Hx Ha IH]; [done|]. cbn [uval forallb]. rewrite <- IH.
  pose proof (uval_bound a Ha). unfold is_u in Hx. pose proof LIMB_pos.
  destruct (Z.eqb_spec x 0), (Z.eqb_spec (uval a) 0); cbn [andb]; apply Z.eqb_eq || apply Z.eqb_neq; nia.
Qed.

Lemma uint_EqualTo_zero W a : (2 ≤ W)%nat → limbs_ok W a → uint_EqualTo a 0 = (uval a =? 0).
Proof.
  intros HW [Hl Ha]. rewrite uval_zero by done. destruct a as [|x [|y a]]; cbn [length] in Hl; try lia.
  unfold uint_EqualTo. cbn [drop nth forallb]. change (Z.shiftr 0 32) with 0. change (Z.land 0 0xffffffff) with 0.
  destruct (x =? 0), (y =? 0); cbn [andb]; by rewrite ?andb_true_r, ?andb_false_r.
Qed.

Lemma uint_le_spec W a b : limbs_ok W a → limbs_ok W b → uint_le a b = (uval a <=? uval b).
Proof.
  intros. unfold uint_le. rewrite (uint_compare_spec W) by done.
  destruct (Z.compare_spec (uval a) (uval b)); cbn [sign_of]; symmetry; lia.
Qed.

Lemma uval_256 a : limbs_ok 8 a → 0 ≤ uval a < 2 ^ 256.
Proof. intros [Hl Ha]. pose proof (uval_bound a Ha) as H. rewrite Hl in H. exact H. Qed.

(** No compact encoding denotes [2^256 - 1], so a target plus one does not wrap. *)
Lemma compact_target_bound c : is_u 32 c → 0 ≤ compact_value c mod 2 ^ 256 < 2 ^ 256 - 1.
Proof.
  intros Hc. pose proof (Z.mod_pos_bound (compact_value c) (2 ^ 256) ltac:(lia)) as Hm.
  enough (compact_value c mod 2 ^ 256 ≠ 2 ^ 256 - 1) by lia. unfold compact_value in *.
  pose proof (Z.mod_pos_bound c (2 ^ 23) ltac:(lia)) as Hw. unfold is_u in Hc.
  assert (0 ≤ c / 2 ^ 24) by (apply Z.div_pos; lia).
  destruct (Z.leb_spec (c / 2 ^ 24) 3).
  - assert (0 < 256 ^ (3 - c / 2 ^ 24)) by lia.
    assert (0 ≤ (c mod 2 ^ 23) / 256 ^ (3 - c / 2 ^ 24) < 2 ^ 23).
    { split; [apply Z.div_pos; lia|]. apply Z.div_lt_upper_bound; nia. }
    rewrite Z.mod_small; lia.
  - intros E. set (w := c mod 2 ^ 23) in *. set (n := c / 2 ^ 24 - 3) in *.
    replace (256 ^ n) with (256 * 256 ^ (n - 1)) in E by (rewrite <- Z.pow_succ_r by lia; f_equal; lia).
    apply (f_equal (λ z, z mod 256)) in E.
    rewrite Z.mod_mod_divide in E by (exists (2 ^ 248); reflexivity).
    replace (w * (256 * 256 ^ (n - 1))) with ((w * 256 ^ (n - 1)) * 256) in E by lia.
    rewrite Z.mod_mul in E by lia. vm_compute in E. done.
Qed.

(** A target and the target plus one. *)
Lemma target_spec c :
  is_u 32 c →
  let '(t, neg, ovf) := SetCompact c in
  limbs_ok 8 t ∧ uval t = compact_value c mod 2 ^ 256 ∧
  neg = negb (compact_value c =? 0) && Z.testbit c 23 ∧ ovf = (2 ^ 256 <=? compact_value c) ∧
  limbs_ok 8 (uint_add t (uint256_of_u64 1)) ∧ uval (uint_add t (uint256_of_u64 1)) = uval t + 1 ∧ uval t < 2 ^ 256 - 1.
Proof.
  intros Hc. pose proof (SetCompact_spec c Hc) as H. destruct (SetCompact c) as [[t neg] ovf].
  destruct H as (Ht & Hv & Hn & Ho). destruct (uval_uint256 1) as [H1 E1]; [by_decision|].
  destruct (uint_add_spec 8 t (uint256_of_u64 1) Ht H1) as [Hok Hval].
  pose proof (compact_target_bound c Hc). rewrite E1, Hv in Hval.
  split_and!; try done; [|lia]. rewrite Hval, Hv. apply (Z.mod_small _ (2 ^ 256)). lia.
Qed.

Lemma compact_value_nonneg c : is_u 32 c → 0 ≤ compact_value c.
Proof.
  intros Hc. unfold compact_value. pose proof (Z.mod_pos_bound c (2 ^ 23) ltac:(lia)).
  destruct (Z.leb_spec (c / 2 ^ 24) 3); [apply Z.div_pos; lia|]. apply Z.mul_nonneg_nonneg; lia.
Qed.

(** C23: [CheckProofOfWork] accepts a hash exactly when the target its difficulty
    bits denote, as an unbounded number, is positive, carries no sign bit and is
    at most the network's limit, and the hash is at most that target. *)
Theorem CheckProofOfWork_exact params hash c :
  SkipProofOfWorkCheck params = false → limbs_ok 8 (ProofOfWorkLimit params) → limbs_ok 8 hash → is_u 32 c →
  CheckProofOfWork params hash c = true ↔
  Z.testbit c 23 = false ∧ 0 < compact_value c ≤ uval (ProofOfWorkLimit params) ∧ uval hash ≤ compact_value c.
Proof.
  intros Hskip Hlim Hh Hc. unfold CheckProofOfWork. rewrite Hskip. pose proof (target_spec c Hc) as H.
  destruct (SetCompact c) as [[t neg] ovf]. destruct H as (Ht & Hv & -> & -> & _).
  rewrite (uint_EqualTo_zero 8) by (done || lia). rewrite !(uint_gt_spec 8) by done.
  pose proof (uval_256 _ Hlim). pose proof (compact_value_nonneg c Hc). rewrite Hv.
  destruct (Z.leb_spec (2 ^ 256) (compact_value c)).
  { rewrite orb_true_r. cbn [orb]. split; [done|lia]. }
  rewrite (Z.mod_small (compact_value c)) by lia. destruct (Z.eqb_spec (compact_value c) 0); cbn [negb andb orb].
  { split; [done|lia]. }
  destruct (Z.testbit c 23); cbn [orb]; [split; [done|by intros [? _]]|].
  destruct (Z.ltb_spec (uval (ProofOfWorkLimit params)) (compact_value c)); [split; [done|lia]|].
  rewrite negb_true_iff, Z.ltb_ge. split; [intros; split_and!; lia || done|lia].
Qed.

Lemma CheckProofOfWork_exact_witness :
  CheckProofOfWork CMainParams (uint256_of_u64 12345) 0x1d00ffff = true ∧
  uval (uint256_of_u64 12345) ≤ compact_value 0x1d00ffff.
Proof.
  assert (CheckProofOfWork CMainParams (uint256_of_u64 12345) 0x1d00ffff = true) as H by (vm_compute; reflexivity).
  split; [exact H|]. apply (CheckProofOfWork_exact CMainParams); [reflexivity|by_decision|by_decision|by_decision|exact H].
Defined.

(** The work a block proves is the expected number of hashes for its target,
    [2^256 / (target + 1)] rounded down, and zero for a negative, zero or
    overflowing target; the division never fails and nothing wraps. *)
Theorem GetBlockProof_exact c :
  is_u 32 c →
  ∃ r, GetBlockProof c = Ok r ∧ limbs_ok 8 r ∧
    uval r = (let v := compact_value c in
              if Z.testbit c 23 || (v =? 0) || (2 ^ 256 <=? v) then 0 else 2 ^ 256 / (v + 1)).
Proof.
  intros Hc. unfold GetBlockProof. pose proof (target_spec c Hc) as H.
  destruct (SetCompact c) as [[t neg] ovf]. destruct H as (Ht & Hv & -> & -> & Ht1 & Hv1 & Hlt).
  destruct (uval_uint256 0) as [H0 E0]; [by_decision|]. destruct (uval_uint256 1) as [H1 E1]; [by_decision|].
  rewrite (uint_EqualTo_zero 8) by (done || lia). pose proof (compact_value_nonneg c Hc) as Hnn. rewrite Hv.
  cbn zeta. destruct (Z.leb_spec (2 ^ 256) (compact_value c)).
  { rewrite !orb_true_r. cbn [orb]. exists (uint256_of_u64 0). done. }
  rewrite (Z.mod_small (compact_value c)) in * by lia. destruct (Z.eqb_spec (compact_value c) 0); cbn [negb andb orb].
  { rewrite !orb_true_r. cbn [orb]. exists (uint256_of_u64 0). done. }
  destruct (Z.testbit c 23); cbn [orb]; [by exists (uint256_of_u64 0)|].
  destruct (uint_compl_spec 8 t Ht) as [Hn En].
  destruct (uint_div_spec 8 _ _ Hn Ht1) as (q & Eq & Hq & Vq); [lia|]. change UINT256_WIDTH with 8%nat. rewrite Eq.
  cbn [mbind outcome_bind]. eexists. split; [done|].
  destruct (uint_add_spec 8 q (uint256_of_u64 1) Hq H1) as [Hr Vr]. split; [done|].
  rewrite Vr, Vq, E1, En, Hv1, Hv. change (2 ^ (32 * Z.of_nat 8)) with (2 ^ 256).
  set (v := compact_value c) in *. clearbody v.
  assert ((2 ^ 256 - 1 - v) / (v + 1) + 1 = 2 ^ 256 / (v + 1)) as ->.
  { rewrite <- Z.div_add by lia. f_equal. lia. }
  apply Z.mod_small. split; [apply Z.div_pos; lia|]. apply Z.div_lt; lia.
Qed.

Lemma GetBlockProof_exact_witness :
  ∃ r, GetBlockProof 0x1d00ffff = Ok r ∧ uval r = 4295032833.
Proof.
  destruct (GetBlockProof_exact 0x1d00ffff) as (r & H1 & _ & H2); [by_decision|].
  exists r. split; [exact H1|]. rewrite H2. vm_compute. reflexivity.
Defined.

(** The trust score of a proof-of-stake block is zero for every difficulty:
    the numerator [uint256(1) << 256] is zero.  A proof-of-work block's is
    [(2^236 - 1) / (target + 1)], at least 1, and zero for a zero target. *)
Theorem GetBlockTrust_exact c pos :
  is_u 32 c →
  ∃ r, GetBlockTrust c pos = Ok r ∧ limbs_ok 8 r ∧
    uval r = (let t := compact_value c mod 2 ^ 256 in
              if pos || (t =? 0) then 0 else Z.max 1 ((2 ^ 236 - 1) / (t + 1))).
Proof.
  intros Hc. unfold GetBlockTrust. pose proof (target_spec c Hc) as H.
  destruct (SetCompact c) as [[t neg] ovf]. destruct H as (Ht & Hv & _ & _ & Ht1 & Hv1 & Hlt).
  destruct (uval_uint256 0) as [H0 E0]; [by_decision|]. destruct (uval_uint256 1) as [H1 E1]; [by_decision|].
  rewrite (uint_le_spec 8) by done. rewrite E0. pose proof (uval_256 t Ht) as Hb. cbn zeta. rewrite <- Hv.
  change UINT256_WIDTH with 8%nat. destruct (Z.leb_spec (uval t) 0).
  { replace (uval t) with 0 by lia. rewrite orb_true_r. by exists (uint256_of_u64 0). }
  rewrite (proj2 (Z.eqb_neq (uval t) 0)), orb_false_r by lia. destruct pos.
  - destruct (uint_shl_spec 8 (uint256_of_u64 1) 256 H1) as [Hs Vs]; [lia|].
    destruct (uint_div_spec 8 _ _ Hs Ht1) as (q & -> & Hq & Vq); [lia|]. exists q. split_and!; [done..|].
    rewrite Vq, Vs, E1, Hv1. change ((1 * 2 ^ 256) mod 2 ^ (32 * Z.of_nat 8)) with 0. apply Z.div_0_l. lia.
  - assert (limbs_ok 8 (uint_shr 8 uint256_max 20)) as Hs by by_decision.
    assert (uval (uint_shr 8 uint256_max 20) = 2 ^ 236 - 1) as Vs by (vm_compute; reflexivity).
    destruct (uint_div_spec 8 _ _ Hs Ht1) as (q & -> & Hq & Vq); [lia|]. cbn [mbind outcome_bind].
    rewrite (uint_gt_spec 8) by done. rewrite E1. rewrite Vs, Hv1 in Vq.
    destruct (Z.ltb_spec 1 (uval q)).
    + exists q. split_and!; [done..|]. lia.
    + exists (uint256_of_u64 1). split_and!; [done..|]. lia.
Qed.

Lemma GetBlockTrust_exact_witness :
  (∃ r, GetBlockTrust 0x1d00ffff true = Ok r ∧ uval r = 0) ∧ (∃ r, GetBlockTrust 0x1d00ffff false = Ok r ∧ uval r = 4096).
Proof.
  split.
  - destruct (GetBlockTrust_exact 0x1d00ffff true) as (r & H1 & _ & H2); [by_decision|]. exists r. split; [exact H1|exact H2].
  - destruct (GetBlockTrust_exact 0x1d00ffff false) as (r & H1 & _ & H2); [by_decision|]. exists r. split; [exact H1|].
    rewrite H2. vm_compute. reflexivity.
Defined.

(** ** The next target stays within the limits *)

Definition dgw_ok (st : dgw) : Prop :=
  limbs_ok 8 (PastDifficultyAverage st) ∧ limbs_ok 8 (PastDifficultyAveragePrev st).

Lemma dgw_step_ok st b :
  dgw_ok st → is_u 32 (nBits b) → 0 ≤ CountBlocks st ≤ 24 →
  ∃ st', dgw_step st b = Ok st' ∧ dgw_ok st' ∧ CountBlocks st' = CountBlocks st + 1.
Proof.
  intros [Ha Hp] Hb Hc. unfold dgw_step. pose proof (target_spec (nBits b) Hb) as H.
  destruct (SetCompact (nBits b)) as [[t neg] ovf]. destruct H as (Ht & _). cbn [fst].
  destruct (CountBlocks st + 1 <=? PastBlocksMin); [|by eexists].
  destruct (CountBlocks st + 1 =? 1); [by eexists|].
  destruct (uval_uint256 (CountBlocks st + 1 + 1)) as [Hd Vd]; [unfold is_u; lia|].
  destruct (uint_mul32_spec 8 _ (u32 (CountBlocks st + 1)) Hp) as [Hm _].
  { apply Z.mod_pos_bound. lia. }
  destruct (uint_add_spec 8 _ _ Hm Ht) as [Hs _].
  destruct (uint_div_spec 8 _ _ Hs Hd) as (q & Eq & Hq & _); [lia|]. change UINT256_WIDTH with 8%nat.
  rewrite Eq. by eexists.
Qed.

Lemma dgw_loop_ok m fuel p b i st :
  index_wf m → (∀ q c, m !! q = Some c → is_u 32 (nBits c)) → m !! p = Some b →
  dgw_ok st → CountBlocks st = i - 1 → 1 ≤ i ≤ 25 → 25 - i < Z.of_nat fuel →
  ∃ st', dgw_loop fuel m (Some p) i st = Ok st' ∧ dgw_ok st' ∧ CountBlocks st ≤ CountBlocks st' ≤ 24 ∧
    (0 < nHeight b → i ≤ 24 → i ≤ CountBlocks st').
Proof.
  intros Hwf Hbits. revert p b i st. induction fuel as [|fuel IH]; intros p b i st Hp Hst Hc Hi Hf; [lia|].
  cbn [dgw_loop]. rewrite (deref_some m p b Hp). cbn [mbind outcome_bind].
  destruct (Z.leb_spec (nHeight b) 0); [exists st; split_and!; [done..|lia|lia|lia]|].
  change (0 <? PastBlocksMax) with true. cbn [andb]. unfold PastBlocksMax.
  destruct (Z.ltb_spec 24 i); [exists st; split_and!; [done..|lia|lia|lia]|].
  destruct (dgw_step_ok st b Hst (Hbits p b Hp)) as (st1 & -> & Hst1 & Hc1); [lia|]. cbn [mbind outcome_bind].
  destruct (pprev b) as [q|] eqn:Eq; [|exists st1; split_and!; [done..|lia|lia|lia]].
  destruct (wf_pprev m Hwf p b q Hp Eq) as (c & Hq & _).
  destruct (IH q c (i + 1) st1 Hq Hst1) as (st2 & E2 & Hst2 & Hc2 & _); [lia..|].
  exists st2. split_and!; [done..|lia|lia|lia].
Qed.

Lemma stake_target_ok spacing c :
  is_u 32 c → ∃ t, stake_target spacing c = Ok t ∧ limbs_ok 8 t ∧ uval t < 2 ^ 232.
Proof.
  intros Hc. unfold stake_target. cbv zeta. pose proof (target_spec c Hc) as H.
  destruct (SetCompact c) as [[t neg] ovf]. destruct H as (Ht & _). cbn [fst].
  assert (limbs_ok 8 (uint_shr UINT256_WIDTH uint256_max 24)) as Hl by by_decision.
  assert (uval (uint_shr UINT256_WIDTH uint256_max 24) = 2 ^ 232 - 1) as Vl by (vm_compute; reflexivity).
  set (lim := uint_shr UINT256_WIDTH uint256_max 24) in *. clearbody lim.
  destruct (uint_mul32_spec 8 t (u32 (((60 * 40 / 60 - 1) * 60 + (if spacing <? 0 then 1 else spacing) +
    (if spacing <? 0 then 1 else spacing)))) Ht) as [Hm _]; [apply Z.mod_pos_bound; lia|].
  destruct (uval_uint256 ((60 * 40 / 60 + 1) * 60)) as [Hd Vd]; [by_decision|].
  destruct (uint_div_spec 8 _ _ Hm Hd) as (q & Eq & Hq & _); [by rewrite Vd|]. change UINT256_WIDTH with 8%nat. rewrite Eq.
  cbn [mbind outcome_bind]. destruct (uval_uint256 0) as [H0 E0]; [by_decision|].
  rewrite (uint_le_spec 8), (uint_gt_spec 8) by done. destruct (Z.leb_spec (uval q) (uval (uint256_of_u64 0))); cbn [orb].
  - exists lim. split_and!; [done..|lia].
  - destruct (Z.ltb_spec (uval lim) (uval q)); [exists lim|exists q]; split_and!; (done || lia).
Qed.

Lemma work_target_ok params st :
  limbs_ok 8 (ProofOfWorkLimit params) → 0 < TargetSpacing params < 2 ^ 20 → dgw_ok st → 1 ≤ CountBlocks st ≤ 24 →
  ∃ t, work_target params st = Ok t ∧ limbs_ok 8 t ∧ uval t ≤ uval (ProofOfWorkLimit params).
Proof.
  intros Hlim Hsp [Ha _] Hc. unfold work_target. cbv zeta.
  set (T := CountBlocks st * TargetSpacing params).
  assert (0 < T < 2 ^ 32) as HT by (unfold T; nia).
  match goal with |- context [uint_mul32 _ ?x] => destruct (uint_mul32_spec 8 (PastDifficultyAverage st) x Ha) as [Hm _] end.
  { apply Z.mod_pos_bound. lia. }
  destruct (uval_uint256 (u64 T)) as [Hd Vd]; [apply Z.mod_pos_bound; lia|].
  rewrite u64_id in * by (unfold is_u; lia).
  destruct (uint_div_spec 8 _ _ Hm Hd) as (q & Eq & Hq & _); [lia|]. change UINT256_WIDTH with 8%nat. rewrite Eq.
  cbn [mbind outcome_bind]. rewrite (uint_gt_spec 8) by done.
  destruct (Z.ltb_spec (uval (ProofOfWorkLimit params)) (uval q)); eexists; split_and!; (done || lia).
Qed.

(** The bound on the next target. *)
Definition next_limit (params : CChainParams) (m : block_index) (p : Z) : Z :=
  match m !! p with
  | Some b => if (24 <=? nHeight b) && (LAST_POW_BLOCK params <? nHeight b) then 2 ^ 232 - 1
              else uval (ProofOfWorkLimit params)
  | None => 0
  end.

Lemma GetCompact_bounded t :
  limbs_ok 8 t → ∃ c r, GetCompact t false = Ok c ∧ is_u 32 c ∧ SetCompact c = (r, false, false) ∧ uval r ≤ uval t.
Proof.
  intros Ht. destruct (GetCompact_decodes t false Ht) as (c & k & r & E & Hc & Hr & _ & Hk & _ & Hv).
  exists c, r. split_and!; [done..|]. rewrite Hv, Z.mul_comm. apply Z.mul_div_le. lia.
Qed.

Lemma next_work_bounded params m p b :
  index_wf m → (∀ q c, m !! q = Some c → is_u 32 (nBits c)) → m !! p = Some b →
  limbs_ok 8 (ProofOfWorkLimit params) → 0 < TargetSpacing params < 2 ^ 20 →
  ∃ c r, GetNextWorkRequired params m (Some p) = Ok c ∧ is_u 32 c ∧
    SetCompact c = (r, false, false) ∧ uval r ≤ next_limit params m p.
Proof.
  intros Hwf Hbits Hp Hlim Hsp. unfold GetNextWorkRequired, next_limit, PastBlocksMin.
  rewrite (deref_some m p b Hp), Hp. cbn [mbind outcome_bind]. pose proof (wf_height m Hwf p b Hp).
  destruct (Z.ltb_spec (nHeight b) 24).
  { rewrite orb_true_r. rewrite (proj2 (Z.leb_gt 24 _)) by lia. cbn [andb]. by apply GetCompact_bounded. }
  rewrite (proj2 (Z.leb_le 24 _)), (proj2 (Z.eqb_neq (nHeight b) 0)) by lia. cbn [andb orb negb].
  destruct (LAST_POW_BLOCK params <? nHeight b).
  - destruct (has_pprev m Hwf p b Hp) as [q Hq]; [lia|]. rewrite Hq.
    destruct (wf_pprev m Hwf p b q Hp Hq) as (c & Hc & _). rewrite (deref_some m q c Hc). cbn [mbind outcome_bind].
    destruct (stake_target_ok (GetBlockTime b - GetBlockTime c) (nBits b) (Hbits p b Hp)) as (t & -> & Ht & Hv).
    cbn [mbind outcome_bind]. destruct (GetCompact_bounded t Ht) as (c' & r & ? & ? & ? & ?).
    exists c', r. split_and!; [done..|lia].
  - destruct (dgw_loop_ok m (S (Z.to_nat PastBlocksMax)) p b 1
      (Dgw (uint_zero UINT256_WIDTH) (uint_zero UINT256_WIDTH) 0 0 0) Hwf Hbits Hp) as (st & -> & Hst & Hc & Hc1);
      [split; apply (limbs_ok_zero 8)|done|lia|unfold PastBlocksMax; lia|]. cbn [mbind outcome_bind].
    destruct (work_target_ok params st Hlim Hsp Hst) as (t & -> & Ht & Hv); [lia|]. cbn [mbind outcome_bind].
    destruct (GetCompact_bounded t Ht) as (c' & r & ? & ? & ? & ?). exists c', r. split_and!; [done..|lia].
Qed.

(** C26: [GetNextWorkRequired]: on every block of a well-formed index it returns
    difficulty bits (no division by zero, no missing predecessor, at most 24
    rounds), and the target they denote has no sign, does not overflow and is at
    most the network's limit, or [2^232 - 1] for proof-of-stake heights. *)
Theorem GetNextWorkRequired_bounded params m p b :
  index_wf m → (∀ q c, m !! q = Some c → is_u 32 (nBits c)) → m !! p = Some b →
  limbs_ok 8 (ProofOfWorkLimit params) → 0 < TargetSpacing params < 2 ^ 20 →
  ∃ c r, GetNextWorkRequired params m (Some p) = Ok c ∧ is_u 32 c ∧
    SetCompact c = (r, false, false) ∧ uval r ≤ next_limit params m p.
Proof. apply next_work_bounded. Qed.

Lemma sample_bits n q c : sample_index n !! q = Some c → is_u 32 (nBits c).
Proof.
  revert q c. induction n as [|n IH]; intros q c; [done|]. cbn [sample_index].
  unfold AddToBlockIndex_link. destruct (sample_index n !! Z.of_nat n) as [e|]; [apply IH|].
  rewrite lookup_insert_ne by lia. destruct (sample_index n !! (Z.of_nat n - 1)) as [e|].
  - rewrite (deref_some _ (Z.of_nat n) (set_pskip None (set_link None 0 (index_entry None None 0 [] [] 0 0 0 0 3 (Z.of_nat n) 0))))
      by (by rewrite lookup_insert_eq).
    cbn [mbind outcome_bind]. rewrite insert_insert_eq. unfold BuildSkip, deref.
    rewrite lookup_insert_eq. cbn [mbind outcome_bind pprev set_link set_pskip].
    destruct (GetAncestor _ _ _) as [s| | |]; cbn [mbind outcome_bind]; rewrite ?lookup_empty; try done.
    rewrite insert_insert_eq, lookup_insert_Some. intros [[_ <-]|[_ H]]; [by_decision|by eapply IH].
  - rewrite lookup_insert_Some. intros [[_ <-]|[_ H]]; [by_decision|by eapply IH].
Qed.

Lemma GetNextWorkRequired_bounded_witness :
  ∃ c r, GetNextWorkRequired CMainParams (sample_index 30) (Some 29) = Ok c ∧ is_u 32 c ∧
    SetCompact c = (r, false, false) ∧ uval r ≤ next_limit CMainParams (sample_index 30) 29.
Proof.
  assert (∃ b, sample_index 30 !! 29 = Some b) as [b Hb] by (apply lookup_sample, (bool_decide_unpack _); vm_compute; exact I).
  apply (GetNextWorkRequired_bounded CMainParams (sample_index 30) 29 b);
    [apply sample_index_wf|apply sample_bits|exact Hb|by_decision|split; reflexivity].
Defined.
