(* ===== verification/Merkle.v ===== *)
(** * Merkle trees (primitives/block.cpp)

    The flattened merkle tree of a block with its mutation flag, and merkle
    branches.  Indices and sizes are natural numbers: a block has fewer than
    2^24 transactions, so no sum of the code reaches 31 bits. *)
From stdpp Require Import base tactics list gmap numbers option.
From Stdlib Require Import ZArith Lia.
From S2P Require Import Prelude.
From S2P Require Import Serialize.
From S2P Require Import BaseUint.
From S2P Require Import Crypto.
From S2P Require Import Transaction.

Notation res := (outcome unit).

(** [Hash(BEGIN(a), END(a), BEGIN(b), END(b))] *)
Definition Hash2 (a b : Z) : Z := uint256_of_bytes (Hash256 (ser_uint256 a ++ ser_uint256 b)).

(** [v[i]] *)
Definition elem {A} (v : list A) (i : nat) : res A :=
  match v !! i with Some x => Ok x | None => AssertFail end.

(** ** The tree of a block *)

(** One level: [i] runs over the even positions of the [nSize] hashes from [j]. *)
Fixpoint merkle_level_loop (fuel j nSize i : nat) (vMerkleTree : list Z) (mutated : bool) : res (list Z * bool) :=
  if (nSize <=? i)%nat then Ok (vMerkleTree, mutated)
  else
    match fuel with
    | O => OutOfFuel
    | S fuel =>
        let i2 := Nat.min (i + 1) (nSize - 1) in
        a ← elem vMerkleTree (j + i);
        b ← elem vMerkleTree (j + i2);
        let mutated := if (i2 =? i + 1)%nat && (i2 + 1 =? nSize)%nat && (a =? b) then true else mutated in
        merkle_level_loop fuel j nSize (i + 2) (vMerkleTree ++ [Hash2 a b]) mutated
    end.

Fixpoint merkle_loop (fuel j nSize : nat) (vMerkleTree : list Z) (mutated : bool) : res (list Z * bool) :=
  if (nSize <=? 1)%nat then Ok (vMerkleTree, mutated)
  else
    match fuel with
    | O => OutOfFuel
    | S fuel =>
        '(vMerkleTree, mutated) ← merkle_level_loop nSize j nSize 0 vMerkleTree mutated;
        merkle_loop fuel (j + nSize) ((nSize + 1) / 2) vMerkleTree mutated
    end.

(** [BuildMerkleTree]: the root, [*fMutated] and the tree, for the transaction
    hashes [vtx]. *)
Definition BuildMerkleTree (vtx : list Z) : res (Z * bool * list Z) :=
  '(vMerkleTree, mutated) ← merkle_loop (length vtx) 0 (length vtx) vtx false;
  Ok (default 0 (list.last vMerkleTree), mutated, vMerkleTree).

Fixpoint merkle_branch_loop (fuel j nSize nIndex : nat) (vMerkleTree vMerkleBranch : list Z) : res (list Z) :=
  if (nSize <=? 1)%nat then Ok vMerkleBranch
  else
    match fuel with
    | O => OutOfFuel
    | S fuel =>
        let i := Nat.min (Nat.lxor nIndex 1) (nSize - 1) in
        h ← elem vMerkleTree (j + i);
        merkle_branch_loop fuel (j + nSize) ((nSize + 1) / 2) (nIndex / 2) vMerkleTree (vMerkleBranch ++ [h])
    end.

(** [GetMerkleBranch(nIndex)]; a tree that is not built yet is built first. *)
Definition GetMerkleBranch (vtx vMerkleTree : list Z) (nIndex : nat) : res (list Z) :=
  vMerkleTree ← (match vMerkleTree with [] => '(_, _, t) ← BuildMerkleTree vtx; Ok t | _ => Ok vMerkleTree end);
  merkle_branch_loop (length vtx) 0 (length vtx) nIndex vMerkleTree [].

(** [CheckMerkleBranch(hash, branch, nIndex)], for an index other than -1. *)
Fixpoint CheckMerkleBranch (hash : Z) (vMerkleBranch : list Z) (nIndex : nat) {struct vMerkleBranch} : Z :=
  match vMerkleBranch with
  | [] => hash
  | h :: vMerkleBranch =>
      CheckMerkleBranch (if Nat.odd nIndex then Hash2 h hash else Hash2 hash h) vMerkleBranch (nIndex / 2)
  end.
Definition CheckMerkleBranch_int (hash : Z) (vMerkleBranch : list Z) (nIndex : Z) : Z :=
  if nIndex =? -1 then 0 else CheckMerkleBranch hash vMerkleBranch (Z.to_nat nIndex).

(** ** The tree by levels *)

(** The next level: neighbours hashed together, an odd last one with itself. *)
Fixpoint pair_up (l : list Z) : list Z :=
  match l with
  | a :: b :: l => Hash2 a b :: pair_up l
  | [a] => [Hash2 a a]
  | [] => []
  end.

Definition level (k : nat) (l : list Z) : list Z := Nat.iter k pair_up l.

(** The levels from [l] up to the root. *)
Fixpoint levels (fuel : nat) (l : list Z) : list (list Z) :=
  match fuel with
  | O => [l]
  | S fuel => if (length l <=? 1)%nat then [l] else l :: levels fuel (pair_up l)
  end.
Definition merkle_levels (l : list Z) : list (list Z) := levels (length l) l.
Definition merkle_root (l : list Z) : Z := default 0 (list.last (concat (merkle_levels l))).

(** A level of at least two hashes, an even number, ends in two equal ones. *)
Fixpoint ends_in_pair (l : list Z) : bool :=
  match l with
  | [a; b] => a =? b
  | _ :: _ :: l => ends_in_pair l
  | _ => false
  end.

Example merkle_small : (r ← BuildMerkleTree [1; 2; 3]; Ok r.1.1) = (r ← BuildMerkleTree [1; 2; 3; 3]; Ok (E:=unit) r.1.1).
Proof. vm_compute. reflexivity. Qed.
Example merkle_small_mutated : (r ← BuildMerkleTree [1; 2; 3]; Ok r.1.2) = Ok false ∧ (r ← BuildMerkleTree [1; 2; 3; 3]; Ok (E:=unit) r.1.2) = Ok true.
Proof. vm_compute. split; reflexivity. Qed.
Lemma is_u_Hash2 a b : is_u 256 (Hash2 a b).
Proof.
  unfold Hash2, uint256_of_bytes, is_u. pose proof (le_value_bound _ (bytes_ok_Hash256 (ser_uint256 a ++ ser_uint256 b))) as H.
  rewrite length_Hash256 in H. exact H.
Qed.

(** From here on no proof computes a hash: [done] closes impossible equations
    with [congruence], where [discriminate] would evaluate [Hash2]. *)
#[global] Opaque Hash2.
Ltac done ::=
  solve
  [ repeat first
    [ fast_done | solve [trivial] | progress intros | solve [symmetry; trivial] | split | congruence ] ].

(** ** Pairs of neighbours *)

Lemma elem_some {A} (v : list A) i x : v !! i = Some x → elem v i = Ok x.
Proof. unfold elem. by intros ->. Qed.

Lemma list_ind2 (P : list Z → Prop) :
  P [] → (∀ a, P [a]) → (∀ a b l, P l → P (a :: b :: l)) → ∀ l, P l.
Proof.
  intros H0 H1 H2 l. enough (P l ∧ ∀ a, P (a :: l)) as [? _] by done.
  induction l as [|b l [IH1 IH2]]; [by auto|]. split; [apply IH2|]. intros a. by apply H2.
Qed.

Lemma half_S_S n : ((S (S n) + 1) / 2 = S ((n + 1) / 2))%nat.
Proof. replace (S (S n) + 1)%nat with (n + 1 + 1 * 2)%nat by lia. rewrite Nat.div_add by lia. lia. Qed.

Lemma length_pair_up l : length (pair_up l) = ((length l + 1) / 2)%nat.
Proof. induction l as [|a|a b l IH] using list_ind2; [reflexivity..|]. cbn [pair_up length]. rewrite IH, half_S_S. reflexivity. Qed.

Lemma pair_up_lookup l k a :
  l !! (k * 2)%nat = Some a → pair_up l !! k = Some (Hash2 a (default a (l !! (k * 2 + 1)%nat))).
Proof.
  revert k. induction l as [|x|x y l IH] using list_ind2; intros [|k] H; cbn in H; try done.
  - by injection H as ->.
  - by injection H as ->.
  - cbn [pair_up]. change (S k * 2 + 1)%nat with (S (S (k * 2 + 1))). cbn. by apply IH.
Qed.

Lemma pair_up_lookup_inv l k x :
  pair_up l !! k = Some x →
  ∃ a, l !! (k * 2)%nat = Some a ∧ x = Hash2 a (default a (l !! (k * 2 + 1)%nat)).
Proof.
  intros H. assert (k * 2 < length l)%nat as Hk.
  { apply lookup_lt_Some in H. rewrite length_pair_up in H.
    pose proof (Nat.div_mod_eq (length l + 1) 2). pose proof (Nat.mod_upper_bound (length l + 1) 2). lia. }
  destruct (lookup_lt_is_Some_2 l _ Hk) as [a Ha]. exists a. split; [done|].
  rewrite (pair_up_lookup l k a Ha) in H. congruence.
Qed.

Lemma half_smaller n : (2 ≤ n → (n + 1) / 2 < n)%nat.
Proof. intros. apply Nat.Div0.div_lt_upper_bound; lia. Qed.

(** ** The loops compute the levels *)

Lemma elem_app_at {A} (pre : list A) x post : elem (pre ++ x :: post) (length pre) = Ok x.
Proof. apply elem_some. by rewrite list_lookup_middle. Qed.

Lemma merkle_level_loop_spec fuel pre l1 l2 out mut :
  (length l2 ≤ fuel)%nat →
  merkle_level_loop fuel (length pre) (length l1 + length l2) (length l1) (pre ++ l1 ++ l2 ++ out) mut =
    Ok (pre ++ l1 ++ l2 ++ out ++ pair_up l2, mut || ends_in_pair l2).
Proof.
  revert l1 l2 out mut. induction fuel as [|fuel IH]; intros l1 l2 out mut Hf; cbn [merkle_level_loop].
  { destruct l2; [|simpl in Hf; lia]. rewrite (proj2 (Nat.leb_le _ _)) by (simpl; lia).
    cbn. by rewrite app_nil_r, orb_false_r. }
  destruct l2 as [|a [|b l2]].
  - rewrite (proj2 (Nat.leb_le _ _)) by (simpl; lia). cbn. by rewrite app_nil_r, orb_false_r.
  - rewrite (proj2 (Nat.leb_gt _ _)) by (simpl; lia). cbn [length].
    replace (Nat.min (length l1 + 1) (length l1 + 1 - 1)) with (length l1) by lia.
    rewrite <- length_app, app_assoc. change ([a] ++ out) with (a :: out). rewrite elem_app_at. cbn [mbind outcome_bind].
    rewrite (proj2 (Nat.eqb_neq _ _)) by lia. cbn [andb].
    assert (length l1 + 1 <= length l1 + 2)%nat as Hle by lia.
    assert (∀ v m, merkle_level_loop fuel (length pre) (length l1 + 1) (length l1 + 2) v m = Ok (v, m)) as Hend.
    { intros v m. destruct fuel; cbn [merkle_level_loop]; by rewrite (proj2 (Nat.leb_le _ _)) by lia. }
    rewrite Hend. cbn [ends_in_pair pair_up]. by rewrite orb_false_r, <- !app_assoc.
  - rewrite (proj2 (Nat.leb_gt _ _)) by (simpl; lia). cbn [length].
    replace (Nat.min (length l1 + 1) (length l1 + S (S (length l2)) - 1)) with (length l1 + 1)%nat by lia.
    assert (pre ++ l1 ++ (a :: b :: l2) ++ out = (pre ++ l1) ++ a :: b :: l2 ++ out) as E1 by (by rewrite <- app_assoc).
    assert (pre ++ l1 ++ (a :: b :: l2) ++ out = (pre ++ l1 ++ [a]) ++ b :: l2 ++ out) as E2 by (by rewrite <- !app_assoc).
    rewrite E1 at 1. rewrite <- (length_app pre l1), elem_app_at. cbn [mbind outcome_bind].
    rewrite E2 at 1. replace (length pre + (length l1 + 1))%nat with (length (pre ++ l1 ++ [a])) by (rewrite !length_app; simpl; lia).
    rewrite elem_app_at. cbn [mbind outcome_bind]. rewrite Nat.eqb_refl. cbn [andb].
    pose proof (IH (l1 ++ [a; b]) l2 (out ++ [Hash2 a b])
      (if (length l1 + 1 + 1 =? length l1 + S (S (length l2)))%nat && (a =? b) then true else mut)) as IH'.
    rewrite length_app in IH'. cbn [length] in IH'. replace (length l1 + 2 + length l2)%nat with (length l1 + S (S (length l2)))%nat in IH' by lia.
    replace ((pre ++ l1 ++ (a :: b :: l2) ++ out) ++ [Hash2 a b]) with (pre ++ (l1 ++ [a; b]) ++ l2 ++ out ++ [Hash2 a b])
      by (by rewrite <- !app_assoc).
    rewrite IH' by (simpl in Hf; lia). rewrite <- !app_assoc. cbn [app]. f_equal. f_equal.
    destruct l2 as [|c l2]; cbn [ends_in_pair length].
    + rewrite (proj2 (Nat.eqb_eq _ _)) by lia. cbn [andb]. rewrite orb_false_r. by destruct (a =? b), mut.
    + rewrite (proj2 (Nat.eqb_neq _ _)) by lia. done.
Qed.

Lemma merkle_loop_spec fuel pre l mut :
  (length l ≤ fuel)%nat →
  merkle_loop fuel (length pre) (length l) (pre ++ l) mut =
    Ok (pre ++ concat (levels fuel l), mut || existsb ends_in_pair (levels fuel l)).
Proof.
  assert (∀ l : list Z, (length l ≤ 1)%nat → ends_in_pair l = false) as Hshort.
  { intros [|? [|]] H; simpl in H; (done || lia). }
  revert pre l mut. induction fuel as [|fuel IH]; intros pre l mut Hf; cbn [merkle_loop levels].
  { rewrite (proj2 (Nat.leb_le _ _)) by lia. cbn. rewrite Hshort by lia. by rewrite app_nil_r, !orb_false_r. }
  destruct (Nat.leb_spec (length l) 1).
  { cbn. rewrite Hshort by lia. by rewrite app_nil_r, !orb_false_r. }
  pose proof (merkle_level_loop_spec (length l) pre [] l [] mut (le_n _)) as E. cbn [app length Nat.add] in E.
  rewrite app_nil_r in E. rewrite E. cbn [mbind outcome_bind].
  pose proof (half_smaller (length l)). rewrite <- length_pair_up in *.
  pose proof (IH (pre ++ l) (pair_up l) (mut || ends_in_pair l)) as IH'. rewrite length_app, <- app_assoc in IH'.
  rewrite IH' by lia. cbn [concat existsb]. by rewrite <- app_assoc, orb_assoc.
Qed.

Lemma BuildMerkleTree_eq vtx :
  BuildMerkleTree vtx = Ok (merkle_root vtx, existsb ends_in_pair (merkle_levels vtx), concat (merkle_levels vtx)).
Proof.
  unfold BuildMerkleTree. pose proof (merkle_loop_spec (length vtx) [] vtx false (le_n _)) as E.
  cbn [app length orb] in E. by rewrite E.
Qed.

(** ** Branches *)

(** The pairs of hashes [CheckMerkleBranch] combines, from the leaf up. *)
Fixpoint branch_pairs (hash : Z) (vMerkleBranch : list Z) (nIndex : nat) {struct vMerkleBranch} : list (Z * Z) :=
  match vMerkleBranch with
  | [] => []
  | h :: vMerkleBranch =>
      let p := if Nat.odd nIndex then (h, hash) else (hash, h) in
      p :: branch_pairs (Hash2 p.1 p.2) vMerkleBranch (nIndex / 2)
  end.

(** No two different pairs of the list have the same hash. *)
Definition collision_free (ps : list (Z * Z)) : Prop :=
  Forall (λ p, Forall (λ q, Hash2 p.1 p.2 = Hash2 q.1 q.2 → p = q) ps) ps.

#[export] Instance collision_free_dec ps : Decision (collision_free ps).
Proof. unfold collision_free. apply _. Defined.

Lemma collision_free_sub ps qs : (∀ p, p ∈ ps → p ∈ qs) → collision_free qs → collision_free ps.
Proof.
  unfold collision_free. rewrite !list.Forall_forall. intros Hsub H p Hp. apply list.Forall_forall. intros q Hq E.
  pose proof (H p (Hsub p Hp)) as H'. rewrite list.Forall_forall in H'. by apply H'; [apply Hsub|].
Qed.

Lemma levels_nonempty fuel l : l ≠ [] → concat (levels fuel l) ≠ [].
Proof. intros Hl. destruct fuel; cbn; [by rewrite app_nil_r|]. case_match; cbn; [by rewrite app_nil_r|]. destruct l; [congruence|]. cbn. congruence. Qed.

Definition root_of (fuel : nat) (l : list Z) : Z := default 0 (list.last (concat (levels fuel l))).

Lemma last_app_ne {A} (l1 l2 : list A) : l2 ≠ [] → list.last (l1 ++ l2) = list.last l2.
Proof. intros H. destruct l2 as [|x l2] using rev_ind; [done|]. by rewrite app_assoc, !last_snoc. Qed.

Lemma root_of_step fuel l : (2 ≤ length l)%nat → root_of (S fuel) l = root_of fuel (pair_up l).
Proof.
  intros Hl. unfold root_of. cbn [levels]. rewrite (proj2 (Nat.leb_gt _ _)) by lia. cbn [concat].
  rewrite last_app_ne; [done|]. apply levels_nonempty. destruct l as [|? [|]]; simpl in Hl; [lia..|]. cbn. congruence.
Qed.

Lemma root_of_single fuel x : root_of fuel [x] = x.
Proof. by destruct fuel. Qed.

Lemma lxor_one n : Nat.lxor n 1 = if Nat.odd n then (n - 1)%nat else (n + 1)%nat.
Proof.
  assert (∀ k, Nat.lxor (2 * k) 1 = (2 * k + 1)%nat ∧ Nat.lxor (2 * k + 1) 1 = (2 * k)%nat) as H.
  { intros k. split; apply Nat.bits_inj; intros [|i]; rewrite Nat.lxor_spec;
      rewrite ?Nat.testbit_odd_0, ?Nat.testbit_even_0; try reflexivity;
      rewrite ?Nat.testbit_odd_succ', ?Nat.testbit_even_succ', (Nat.bits_above_log2 1) by (cbn; lia); apply xorb_false_r. }
  destruct (Nat.Even_or_Odd n) as [[k ->]|[k ->]].
  - rewrite <- Nat.negb_even, Nat.even_even. cbn [negb]. apply H.
  - rewrite <- Nat.negb_even, Nat.even_odd. cbn [negb]. rewrite Nat.add_sub. apply H.
Qed.

(** One step up: the parent of position [i] is its hash and its sibling's, in order. *)
Lemma sibling_step l i x s :
  l !! i = Some x → l !! Nat.min (Nat.lxor i 1) (length l - 1) = Some s →
  pair_up l !! (i / 2)%nat = Some (if Nat.odd i then Hash2 s x else Hash2 x s).
Proof.
  intros Hx Hs. pose proof (lookup_lt_Some _ _ _ Hx) as Hi. rewrite lxor_one in Hs. destruct (Nat.odd i) eqn:E.
  - apply Nat.odd_spec in E as [k ->]. replace ((2 * k + 1) / 2)%nat with k
      by (apply (Nat.div_unique _ 2 k 1); lia).
    rewrite Nat.min_l in Hs by lia. replace (2 * k + 1 - 1)%nat with (k * 2)%nat in Hs by lia.
    rewrite (pair_up_lookup l k s Hs). replace (k * 2 + 1)%nat with (2 * k + 1)%nat by lia. by rewrite Hx.
  - assert (Nat.even i = true) as Ee by (by rewrite <- Nat.negb_odd, E). apply Nat.even_spec in Ee as [k ->].
    replace (2 * k / 2)%nat with k by (apply (Nat.div_unique _ 2 k 0); lia).
    replace (2 * k)%nat with (k * 2)%nat in Hx, Hi by lia. rewrite (pair_up_lookup l k x Hx).
    enough (default x (l !! (k * 2 + 1)%nat) = s) as -> by reflexivity.
    destruct (decide (k * 2 + 1 < length l)%nat).
    + rewrite Nat.min_l in Hs by lia. replace (2 * k + 1)%nat with (k * 2 + 1)%nat in Hs by lia. by rewrite Hs.
    + rewrite Nat.min_r in Hs by lia. rewrite lookup_ge_None_2 by lia. cbn.
      replace (length l - 1)%nat with (k * 2)%nat in Hs by lia. congruence.
Qed.

Lemma merkle_branch_loop_spec fuel pre l i x acc :
  (length l ≤ fuel)%nat → l !! i = Some x →
  ∃ br, merkle_branch_loop fuel (length pre) (length l) i (pre ++ concat (levels fuel l)) acc = Ok (acc ++ br) ∧
    CheckMerkleBranch x br i = root_of fuel l.
Proof.
  revert pre l i x acc. induction fuel as [|fuel IH]; intros pre l i x acc Hf Hx;
    pose proof (lookup_lt_Some _ _ _ Hx) as Hi; [lia|].
  cbn [merkle_branch_loop levels]. destruct (Nat.leb_spec (length l) 1).
  - destruct l as [|y [|]]; simpl in *; try lia. destruct i; [|lia]. injection Hx as ->.
    exists []. by rewrite app_nil_r.
  - assert (Nat.min (Nat.lxor i 1) (length l - 1) < length l)%nat as Hs by lia.
    destruct (lookup_lt_is_Some_2 l _ Hs) as [s Es].
    cbn [concat]. rewrite (elem_some _ _ s).
    2: { rewrite lookup_app_r by lia. rewrite lookup_app_l; [|lia]. rewrite <- Es. f_equal. lia. }
    cbn [mbind outcome_bind]. rewrite app_assoc, <- length_app, <- length_pair_up.
    pose proof (half_smaller (length l) ltac:(lia)) as Hh. rewrite <- length_pair_up in Hh.
    destruct (IH (pre ++ l) (pair_up l) (i / 2)%nat _ (acc ++ [s]) ltac:(lia) (sibling_step l i x s Hx Es)) as (br & Ebr & Hbr).
    exists (s :: br). rewrite Ebr, <- app_assoc. split; [done|]. cbn [CheckMerkleBranch].
    rewrite root_of_step by lia. exact Hbr.
Qed.

Lemma CheckMerkleBranch_step h s br i :
  CheckMerkleBranch h (s :: br) i =
    CheckMerkleBranch (Hash2 (if Nat.odd i then (s, h) else (h, s)).1 (if Nat.odd i then (s, h) else (h, s)).2) br (i / 2).
Proof. cbn [CheckMerkleBranch]. by destruct (Nat.odd i). Qed.

(** A branch of a given length binds the hash it authenticates. *)
Lemma CheckMerkleBranch_binds br br' h h' i :
  length br = length br' → collision_free (branch_pairs h br i ++ branch_pairs h' br' i) →
  CheckMerkleBranch h br i = CheckMerkleBranch h' br' i → h = h' ∧ br = br'.
Proof.
  revert br' h h' i. induction br as [|s br IH]; intros [|s' br'] h h' i Hl Hc E;
    [done|simpl in Hl; lia..|].
  rewrite !CheckMerkleBranch_step in E. injection Hl as Hl. cbn [branch_pairs] in Hc.
  set (p := if Nat.odd i then (s, h) else (h, s)) in *. set (q := if Nat.odd i then (s', h') else (h', s')) in *.
  destruct (IH br' (Hash2 p.1 p.2) (Hash2 q.1 q.2) (i / 2)%nat Hl) as [Epq ->]; [|done|].
  { eapply collision_free_sub; [|exact Hc]. intros r. rewrite !elem_of_app, !elem_of_cons. tauto. }
  unfold collision_free in Hc. rewrite list.Forall_forall in Hc.
  assert (p = q) as Hpq.
  { specialize (Hc p). rewrite list.Forall_forall in Hc. apply Hc; [by left| |done].
    rewrite elem_of_app, !elem_of_cons. tauto. }
  subst p q. destruct (Nat.odd i); injection Hpq as -> ->; done.
Qed.

(** ** Properties *)

(** C32: BuildMerkleTree never reads out of range and computes the merkle root by
    levels; the tree it keeps is the concatenation of the levels, and the
    mutation flag is set exactly when some level of an even number of hashes ends
    in two equal ones. *)
Theorem BuildMerkleTree_correct (vtx : list Z) :
  BuildMerkleTree vtx = Ok (merkle_root vtx, existsb ends_in_pair (merkle_levels vtx), concat (merkle_levels vtx)).
Proof. apply BuildMerkleTree_eq. Qed.

(** GetMerkleBranch returns a branch for every transaction of a block, and
    CheckMerkleBranch accepts it: it leads from the transaction's hash to the
    merkle root.  No other hash has a branch of the same length at that index
    to the root, unless two different pairs hashed along the two branches have
    the same hash. *)
Theorem merkle_branch_correct (vtx : list Z) (i : nat) (x : Z) :
  vtx !! i = Some x →
  ∃ br, GetMerkleBranch vtx [] i = Ok br ∧ GetMerkleBranch vtx (concat (merkle_levels vtx)) i = Ok br ∧
    CheckMerkleBranch x br i = merkle_root vtx ∧
    ∀ y br', length br' = length br → CheckMerkleBranch y br' i = merkle_root vtx →
      collision_free (branch_pairs x br i ++ branch_pairs y br' i) → y = x ∧ br' = br.
Proof.
  intros Hx. destruct (merkle_branch_loop_spec (length vtx) [] vtx i x [] (le_n _) Hx) as (br & Hbr & Hroot).
  cbn [app length] in Hbr. exists br. unfold GetMerkleBranch. rewrite BuildMerkleTree_eq. cbn [mbind outcome_bind].
  assert (concat (merkle_levels vtx) ≠ []) as Hne by (apply levels_nonempty; intros ->; discriminate Hx).
  split_and!; [exact Hbr| |exact Hroot|].
  - unfold merkle_levels in *. destruct (concat (levels (length vtx) vtx)); [done|]. exact Hbr.
  - intros y br' Hl Hy Hc. destruct (CheckMerkleBranch_binds br br' x y i) as [-> ->]; [done..| |done].
    rewrite Hroot, Hy. done.
Qed.

Lemma merkle_branch_correct_witness :
  collision_free (branch_pairs 2 [1] 1 ++ branch_pairs 2 [1] 1) ∧
  ∃ br, GetMerkleBranch [1; 2] [] 1 = Ok br ∧ CheckMerkleBranch 2 br 1 = merkle_root [1; 2].
Proof.
  split; [by_decision|]. destruct (merkle_branch_correct [1; 2] 1 2) as (br & H & _ & H' & _); [reflexivity|].
  exists br. split; assumption.
Defined.
