(* ===== verification/PartialMerkle.v ===== *)
(** * Partial merkle trees (merkleblock.h, merkleblock.cpp)

    The partial merkle trees of filtered blocks: construction, extraction and
    wire format.  Indices, heights and sizes are natural numbers: a block has
    fewer than 2^24 transactions and [ExtractMatches] refuses more than 16666, so
    none of the shifts of the code reaches 32 bits. *)
From stdpp Require Import base tactics list gmap numbers option.
From Stdlib Require Import ZArith Lia.
From S2P Require Import Prelude.
From S2P Require Import Serialize.
From S2P Require Import Transaction.
From S2P Require Import Merkle.

(** ** Partial trees *)

Record CPartialMerkleTree := PartialTree {
  nTransactions : nat;
  vBits : list bool;
  vHash : list Z;
  fBad : bool
}.

Definition CalcTreeWidth (n height : nat) : nat := (n + 2 ^ height - 1) / 2 ^ height.

Fixpoint CalcHash (n height pos : nat) (vTxid : list Z) : res Z :=
  match height with
  | O => elem vTxid pos
  | S h =>
      lhash ← CalcHash n h (pos * 2) vTxid;
      rhash ← (if (pos * 2 + 1 <? CalcTreeWidth n h)%nat then CalcHash n h (pos * 2 + 1) vTxid else Ok lhash);
      Ok (Hash2 lhash rhash)
  end.

(** [fParentOfMatch |= vMatch[p]] for [p] from [p] on, [count] times. *)
Fixpoint or_matches (count p : nat) (vMatch : list bool) (acc : bool) : res bool :=
  match count with
  | O => Ok acc
  | S count => b ← elem vMatch p; or_matches count (S p) vMatch (acc || b)
  end.

Definition parent_of_match (n height pos : nat) (vMatch : list bool) : res bool :=
  or_matches (Nat.min ((pos + 1) * 2 ^ height) n - pos * 2 ^ height) (pos * 2 ^ height) vMatch false.

(** [TraverseAndBuild]: the bits and hashes it appends. *)
Fixpoint TraverseAndBuild (n height pos : nat) (vTxid : list Z) (vMatch : list bool) : res (list bool * list Z) :=
  fParentOfMatch ← parent_of_match n height pos vMatch;
  match height with
  | O => h ← CalcHash n height pos vTxid; Ok ([fParentOfMatch], [h])
  | S h' =>
      if fParentOfMatch : bool then
        '(bl, hl) ← TraverseAndBuild n h' (pos * 2) vTxid vMatch;
        '(br, hr) ← (if (pos * 2 + 1 <? CalcTreeWidth n h')%nat
                     then TraverseAndBuild n h' (pos * 2 + 1) vTxid vMatch else Ok ([], []));
        Ok (fParentOfMatch :: bl ++ br, hl ++ hr)
      else h ← CalcHash n height pos vTxid; Ok ([fParentOfMatch], [h])
  end.

(** [while (CalcTreeWidth(nHeight) > 1) nHeight++] *)
Fixpoint tree_height_loop (fuel n nHeight : nat) : res nat :=
  if (CalcTreeWidth n nHeight <=? 1)%nat then Ok nHeight
  else match fuel with O => OutOfFuel | S fuel => tree_height_loop fuel n (S nHeight) end.
Definition tree_height (n : nat) : res nat := tree_height_loop n n 0.

Definition CPartialMerkleTree_new (vTxid : list Z) (vMatch : list bool) : res CPartialMerkleTree :=
  let n := length vTxid in
  nHeight ← tree_height n;
  '(bits, hashes) ← TraverseAndBuild n nHeight 0 vTxid vMatch;
  Ok (PartialTree n bits hashes false).

(** The state of an extraction. *)
Record extraction := Extraction { nBitsUsed : nat; nHashUsed : nat; vMatch : list Z; bad : bool }.

Fixpoint TraverseAndExtract (t : CPartialMerkleTree) (height pos : nat) (st : extraction) : Z * extraction :=
  match vBits t !! nBitsUsed st with
  | None => (0, Extraction (nBitsUsed st) (nHashUsed st) (vMatch st) true)
  | Some fParentOfMatch =>
      let st := Extraction (S (nBitsUsed st)) (nHashUsed st) (vMatch st) (bad st) in
      let leaf :=
        match vHash t !! nHashUsed st with
        | None => (0, Extraction (nBitsUsed st) (nHashUsed st) (vMatch st) true)
        | Some hash =>
            (hash, Extraction (nBitsUsed st) (S (nHashUsed st))
                     (if (height =? 0)%nat && fParentOfMatch then vMatch st ++ [hash] else vMatch st) (bad st))
        end in
      match height with
      | O => leaf
      | S h =>
          if negb fParentOfMatch then leaf
          else
            let '(lhash, st) := TraverseAndExtract t h (pos * 2) st in
            let '(rhash, st) :=
              if (pos * 2 + 1 <? CalcTreeWidth (nTransactions t) h)%nat
              then TraverseAndExtract t h (pos * 2 + 1) st else (lhash, st) in
            (Hash2 lhash rhash, st)
      end
  end.

(** [ExtractMatches]: the root (0 on failure) and the matched hashes. *)
Definition ExtractMatches (t : CPartialMerkleTree) : res (Z * list Z) :=
  if (nTransactions t =? 0)%nat then Ok (0, [])
  else if MAX_BLOCK_SIZE / 60 <? Z.of_nat (nTransactions t) then Ok (0, [])
  else if (nTransactions t <? length (vHash t))%nat then Ok (0, [])
  else if (length (vBits t) <? length (vHash t))%nat then Ok (0, [])
  else
    nHeight ← tree_height (nTransactions t);
    let '(hashMerkleRoot, st) := TraverseAndExtract t nHeight 0 (Extraction 0 0 [] (fBad t)) in
    if bad st then Ok (0, vMatch st)
    else if negb ((nBitsUsed st + 7) / 8 =? (length (vBits t) + 7) / 8)%nat then Ok (0, vMatch st)
    else if negb (nHashUsed st =? length (vHash t))%nat then Ok (0, vMatch st)
    else Ok (hashMerkleRoot, vMatch st).

(** The wire format packs the bits, least significant first. *)
Fixpoint byte_of_bits (bs : list bool) : Z :=
  match bs with [] => 0 | b :: bs => (if b then 1 else 0) + 2 * byte_of_bits bs end.
Fixpoint pack_bits (n : nat) (bs : list bool) : list Z :=
  match n with O => [] | S n => byte_of_bits (take 8 bs) :: pack_bits n (drop 8 bs) end.
Definition bits_of_byte (b : Z) : list bool := (λ p, negb (Z.land b (Z.shiftl 1 (Z.of_nat p)) =? 0)) <$> seq 0 8.

Definition ser_partial (t : CPartialMerkleTree) : list Z :=
  WRITEDATA 4 (Z.of_nat (nTransactions t)) ++ ser_vector ser_uint256 (vHash t) ++
  ser_blob (pack_bits ((length (vBits t) + 7) / 8) (vBits t)).
Definition unser_partial : reader CPartialMerkleTree := λ s,
  '(nTransactions, s) ← READDATA 4 s;
  '(vHash, s) ← unser_vector unser_uint256 s;
  '(vBytes, s) ← unser_blob s;
  Ok (PartialTree (Z.to_nat nTransactions) (concat (bits_of_byte <$> vBytes)) vHash false, s).

Example partial_small :
  (t ← CPartialMerkleTree_new [11; 12; 13; 14; 15] [false; true; false; false; true]; ExtractMatches t) =
    (r ← BuildMerkleTree [11; 12; 13; 14; 15]; Ok (r.1.1, [12; 15])).
Proof. vm_compute. reflexivity. Qed.


(** From here on no proof computes a hash. *)
Ltac done ::=
  solve
  [ repeat first
    [ fast_done | solve [trivial] | progress intros | solve [symmetry; trivial] | split | congruence ] ].

(** ** Widths and heights *)

Lemma CalcTreeWidth_0 n : CalcTreeWidth n 0 = n.
Proof. unfold CalcTreeWidth. cbn [Nat.pow]. rewrite Nat.div_1_r. lia. Qed.

Lemma CalcTreeWidth_S n h : CalcTreeWidth n (S h) = ((CalcTreeWidth n h + 1) / 2)%nat.
Proof.
  unfold CalcTreeWidth. rewrite Nat.pow_succ_r'. pose proof (Nat.pow_nonzero 2 h ltac:(lia)).
  replace ((n + 2 ^ h - 1) / 2 ^ h + 1)%nat with ((n + 2 ^ h - 1 + 1 * 2 ^ h) / 2 ^ h)%nat by (rewrite Nat.div_add; lia).
  rewrite Nat.Div0.div_div. f_equal; lia.
Qed.

Lemma length_level k l : length (level k l) = CalcTreeWidth (length l) k.
Proof.
  induction k as [|k IH]; [by rewrite CalcTreeWidth_0|].
  rewrite CalcTreeWidth_S, <- IH. apply length_pair_up.
Qed.

(** A position is within a level exactly when its first leaf is a leaf of the tree. *)
Lemma CalcTreeWidth_lt n h pos : (pos < CalcTreeWidth n h ↔ pos * 2 ^ h < n)%nat.
Proof.
  unfold CalcTreeWidth. pose proof (Nat.pow_nonzero 2 h ltac:(lia)) as Hp.
  pose proof (Nat.div_mod_eq (n + 2 ^ h - 1) (2 ^ h)). pose proof (Nat.mod_upper_bound (n + 2 ^ h - 1) (2 ^ h) Hp).
  split; intros; nia.
Qed.

Lemma tree_height_loop_spec fuel n h :
  (1 ≤ n → n ≤ 2 ^ (h + fuel) → ∀ h0, h0 ≤ h → (∀ j, j < h → 1 < CalcTreeWidth n j) →
  ∃ k, tree_height_loop fuel n h = Ok k ∧ CalcTreeWidth n k = 1 ∧ ∀ j, j < k → 1 < CalcTreeWidth n j)%nat.
Proof.
  intros Hn. revert h. induction fuel as [|fuel IH]; intros h Hf h0 Hh0 Hj; cbn [tree_height_loop];
    destruct (Nat.leb_spec (CalcTreeWidth n h) 1) as [Hw|Hw].
  - exists h. pose proof (proj2 (CalcTreeWidth_lt n h 0)). split_and!; [done|lia|done].
  - exfalso. pose proof (proj1 (CalcTreeWidth_lt n h 1)). rewrite Nat.add_0_r in Hf. lia.
  - exists h. pose proof (proj2 (CalcTreeWidth_lt n h 0)). split_and!; [done|lia|done].
  - apply (IH (S h)) with (h0 := h0); [|lia|].
    + by replace (S h + fuel)%nat with (h + S fuel)%nat by lia.
    + intros j Hlt. destruct (decide (j = h)) as [->|]; [lia|]. apply Hj. lia.
Qed.

Lemma tree_height_spec n :
  (1 ≤ n → ∃ k, tree_height n = Ok k ∧ CalcTreeWidth n k = 1 ∧ ∀ j, j < k → 1 < CalcTreeWidth n j)%nat.
Proof.
  intros Hn. apply (tree_height_loop_spec n n 0 Hn) with (h0 := 0%nat); [|lia..].
  apply Nat.lt_le_incl, Nat.pow_gt_lin_r. lia.
Qed.

(** At that height the only node is the merkle root. *)
Lemma level_top k l fuel x :
  (length l ≤ fuel)%nat → (∀ j, j < k → 1 < CalcTreeWidth (length l) j)%nat → level k l = [x] → root_of fuel l = x.
Proof.
  revert l fuel. induction k as [|k IH]; intros l fuel Hf Hj Hl.
  - cbn in Hl. rewrite Hl. apply root_of_single.
  - pose proof (Hj 0%nat ltac:(lia)) as H0. rewrite CalcTreeWidth_0 in H0.
    destruct fuel as [|fuel]; [lia|]. rewrite root_of_step by lia. pose proof (half_smaller (length l) H0) as Hh.
    rewrite <- length_pair_up in Hh. apply IH; [lia| |].
    + intros j Hlt. pose proof (Hj (S j) ltac:(lia)) as H. rewrite <- length_level in H |- *.
      unfold level in *. by rewrite Nat.iter_succ_r in H.
    + unfold level in *. by rewrite Nat.iter_succ_r in Hl.
Qed.

Lemma CalcHash_spec h l pos x : level h l !! pos = Some x → CalcHash (length l) h pos l = Ok x.
Proof.
  revert pos x. induction h as [|h IH]; intros pos x Hx; cbn [CalcHash]; [by apply elem_some|].
  change (pair_up (level h l) !! pos = Some x) in Hx.
  apply pair_up_lookup_inv in Hx as (a & Ha & ->). rewrite (IH _ _ Ha). cbn [mbind outcome_bind].
  rewrite <- length_level. destruct (Nat.ltb_spec (pos * 2 + 1) (length (level h l))) as [Hlt|Hge].
  - destruct (lookup_lt_is_Some_2 _ _ Hlt) as [b Hb]. rewrite (IH _ _ Hb). rewrite Hb. reflexivity.
  - rewrite lookup_ge_None_2 by done. reflexivity.
Qed.

(** ** The leaves below a node *)

Definition leaves {A} (h pos : nat) (l : list A) : list A := take (2 ^ h) (drop (pos * 2 ^ h) l).

Lemma leaves_S {A} h pos (l : list A) : leaves (S h) pos l = leaves h (pos * 2) l ++ leaves h (pos * 2 + 1) l.
Proof.
  unfold leaves. rewrite Nat.pow_succ_r'. replace (2 * 2 ^ h)%nat with (2 ^ h + 2 ^ h)%nat by lia.
  rewrite <- take_take_drop, drop_drop. do 3 f_equal; lia.
Qed.

Lemma leaves_0 {A} pos (l : list A) x : l !! pos = Some x → leaves 0 pos l = [x].
Proof. intros Hx. unfold leaves. rewrite Nat.mul_1_r, (drop_S _ _ _ Hx). reflexivity. Qed.

Lemma leaves_beyond {A} h pos (l : list A) : (CalcTreeWidth (length l) h ≤ pos)%nat → leaves h pos l = [].
Proof.
  intros Hw. unfold leaves. rewrite drop_ge, take_nil; [done|].
  apply Nat.nlt_ge. intros H%CalcTreeWidth_lt. lia.
Qed.

Lemma length_leaves {A B} h pos (l : list A) (m : list B) : length l = length m → length (leaves h pos l) = length (leaves h pos m).
Proof. intros H. unfold leaves. by rewrite !length_take, !length_drop, H. Qed.

Lemma or_matches_spec count p v acc :
  (p + count ≤ length v)%nat → or_matches count p v acc = Ok (acc || existsb id (take count (drop p v))).
Proof.
  revert p acc. induction count as [|count IH]; intros p acc Hl; cbn [or_matches].
  { rewrite take_0. by rewrite orb_false_r. }
  destruct (lookup_lt_is_Some_2 v p ltac:(lia)) as [b Hb]. rewrite (elem_some _ _ _ Hb). cbn [mbind outcome_bind].
  rewrite IH by lia. rewrite (drop_S _ _ _ Hb). cbn [take existsb]. by rewrite orb_assoc.
Qed.

Lemma parent_of_match_spec h pos m :
  (pos < CalcTreeWidth (length m) h)%nat → parent_of_match (length m) h pos m = Ok (existsb id (leaves h pos m)).
Proof.
  intros Hp%CalcTreeWidth_lt. unfold parent_of_match. rewrite or_matches_spec by lia. cbn [orb].
  unfold leaves. destruct (Nat.le_gt_cases ((pos + 1) * 2 ^ h) (length m)).
  - rewrite Nat.min_l by lia. repeat f_equal. lia.
  - rewrite Nat.min_r by lia. rewrite !(take_ge (drop _ _)) by (rewrite length_drop; lia). reflexivity.
Qed.

(** The elements of [l] whose flag in [m] is set. *)
Fixpoint selected (l : list Z) (m : list bool) : list Z :=
  match l, m with
  | x :: l, b :: m => if b : bool then x :: selected l m else selected l m
  | _, _ => []
  end.

Lemma selected_app l l' m m' : length l = length m → selected (l ++ l') (m ++ m') = selected l m ++ selected l' m'.
Proof.
  revert m. induction l as [|x l IH]; intros [|b m] Hl; simpl in Hl; try lia; [done|].
  cbn [app selected]. rewrite IH by lia. by destruct b.
Qed.

Lemma selected_none l m : existsb id m = false → selected l m = [].
Proof.
  revert m. induction l as [|x l IH]; intros [|b m] Hm; [done..|]. cbn in Hm. apply orb_false_iff in Hm as [-> Hm].
  by apply IH.
Qed.

(** ** What a traversal writes, a traversal reads *)

Section encoding.
Context (l : list Z) (m : list bool) (Hlm : length m = length l).

(** Whatever surrounds them, [bits] and [hashes] make the extraction at a node
    return its hash [x] and the matched leaves below it. *)
Definition encodes (h pos : nat) (x : Z) (bits : list bool) (hashes : list Z) : Prop :=
  (1 ≤ length hashes ≤ length bits ∧ length hashes ≤ length (leaves h pos l))%nat ∧
  ∀ t pre post pre' post' ms bd,
    nTransactions t = length l → vBits t = pre ++ bits ++ post → vHash t = pre' ++ hashes ++ post' →
    TraverseAndExtract t h pos (Extraction (length pre) (length pre') ms bd) =
      (x, Extraction (length (pre ++ bits)) (length (pre' ++ hashes)) (ms ++ selected (leaves h pos l) (leaves h pos m)) bd).

Lemma extract_bit t h pos pre b post nh ms bd :
  vBits t = pre ++ b :: post → (b : bool) = false ∨ h = 0%nat →
  ∀ x pre' post', vHash t = pre' ++ x :: post' → nh = length pre' →
  TraverseAndExtract t h pos (Extraction (length pre) nh ms bd) =
    (x, Extraction (S (length pre)) (S nh) (if b then ms ++ [x] else ms) bd).
Proof.
  intros Hb Hor x pre' post' Hx ->. destruct h as [|h]; cbn [TraverseAndExtract nBitsUsed nHashUsed vMatch bad];
    rewrite Hb, list_lookup_middle by done; rewrite Hx, list_lookup_middle by done.
  - by destruct b.
  - destruct Hor as [->|]; [reflexivity|lia].
Qed.

Lemma encodes_leaf h pos x b :
  level h l !! pos = Some x → existsb id (leaves h pos m) = b → b = false ∨ h = 0%nat → encodes h pos x [b] [x].
Proof.
  intros Hx Hb Hor. assert (1 ≤ length (leaves h pos l))%nat as Hlen.
  { apply lookup_lt_Some in Hx. rewrite length_level in Hx. apply CalcTreeWidth_lt in Hx.
    unfold leaves. rewrite length_take, length_drop. pose proof (Nat.pow_nonzero 2 h). lia. }
  split; [cbn; lia|]. intros t pre post pre' post' ms bd _ Eb Eh.
  rewrite (extract_bit t h pos pre b post (length pre') ms bd Eb Hor x pre' post' Eh eq_refl).
  rewrite !length_app, !Nat.add_1_r. cbn [length]. f_equal. f_equal.
  destruct b; [|by rewrite selected_none, app_nil_r].
  destruct Hor as [?| ->]; [done|]. change (l !! pos = Some x) in Hx. rewrite (leaves_0 _ _ _ Hx) in *.
  pose proof (lookup_lt_Some _ _ _ Hx) as Hlt. rewrite <- Hlm in Hlt.
  destruct (lookup_lt_is_Some_2 m pos Hlt) as [c Hc]. rewrite (leaves_0 _ _ _ Hc) in *. cbn in Hb. rewrite orb_false_r in Hb.
  unfold id in Hb. by subst c.
Qed.

Lemma extract_node t h pos pre post nh ms bd :
  vBits t = pre ++ true :: post →
  TraverseAndExtract t (S h) pos (Extraction (length pre) nh ms bd) =
    let '(lhash, st) := TraverseAndExtract t h (pos * 2) (Extraction (length (pre ++ [true])) nh ms bd) in
    let '(rhash, st) :=
      if (pos * 2 + 1 <? CalcTreeWidth (nTransactions t) h)%nat
      then TraverseAndExtract t h (pos * 2 + 1) st else (lhash, st) in
    (Hash2 lhash rhash, st).
Proof.
  intros Hb. cbn [TraverseAndExtract nBitsUsed nHashUsed vMatch bad]. rewrite Hb, list_lookup_middle by done.
  assert (length (pre ++ [true]) = S (length pre)) as -> by (rewrite length_app; cbn [length]; lia). reflexivity.
Qed.

Lemma encodes_two h pos a b bl br hl hr :
  (pos * 2 + 1 < CalcTreeWidth (length l) h)%nat →
  encodes h (pos * 2) a bl hl → encodes h (pos * 2 + 1) b br hr →
  encodes (S h) pos (Hash2 a b) (true :: bl ++ br) (hl ++ hr).
Proof.
  intros Hw [[[? ?] ?] Hl] [[[? ?] ?] Hr]. split.
  { rewrite leaves_S. cbn [length]. rewrite !length_app. lia. }
  intros t pre post pre' post' ms bd Hn Eb Eh. rewrite <- app_assoc in Eh. cbn [app] in Eb. rewrite <- app_assoc in Eb.
  rewrite (extract_node t h pos pre _ _ ms bd Eb), Hn, (proj2 (Nat.ltb_lt _ _) Hw).
  rewrite (Hl t (pre ++ [true]) (br ++ post) pre' (hr ++ post') ms bd Hn); [|by rewrite <- app_assoc|done].
  rewrite (Hr t ((pre ++ [true]) ++ bl) post (pre' ++ hl) post' _ bd Hn); [|by rewrite <- !app_assoc..].
  rewrite !leaves_S, selected_app by (by apply length_leaves). by rewrite <- !app_assoc.
Qed.

Lemma encodes_one h pos a bl hl :
  (CalcTreeWidth (length l) h ≤ pos * 2 + 1)%nat →
  encodes h (pos * 2) a bl hl → encodes (S h) pos (Hash2 a a) (true :: bl) hl.
Proof.
  intros Hw [[[? ?] ?] Hl]. split.
  { rewrite leaves_S. cbn [length]. rewrite !length_app. lia. }
  intros t pre post pre' post' ms bd Hn Eb Eh. cbn [app] in Eb.
  rewrite (extract_node t h pos pre _ _ ms bd Eb), Hn, (proj2 (Nat.ltb_ge _ _) Hw).
  rewrite (Hl t (pre ++ [true]) post pre' post' ms bd Hn); [|by rewrite <- app_assoc|done].
  rewrite !leaves_S, (leaves_beyond h (pos * 2 + 1) l), (leaves_beyond h (pos * 2 + 1) m) by (by rewrite ?Hlm).
  by rewrite !app_nil_r, <- !app_assoc.
Qed.

Lemma TraverseAndBuild_encodes h pos x :
  level h l !! pos = Some x →
  ∃ bits hashes, TraverseAndBuild (length l) h pos l m = Ok (bits, hashes) ∧ encodes h pos x bits hashes.
Proof.
  revert pos x. induction h as [|h IH]; intros pos x Hx; pose proof (lookup_lt_Some _ _ _ Hx) as Hlt;
    rewrite length_level, <- Hlm in Hlt; pose proof (parent_of_match_spec _ pos m Hlt) as Hp; rewrite Hlm in Hp;
    cbn [TraverseAndBuild]; rewrite Hp; cbn [mbind outcome_bind].
  { rewrite (CalcHash_spec 0 l pos x Hx). eexists _, _. split; [reflexivity|]. apply encodes_leaf; auto. }
  destruct (existsb id (leaves (S h) pos m)) eqn:Hb.
  2: { rewrite (CalcHash_spec (S h) l pos x Hx). eexists _, _. split; [reflexivity|]. apply encodes_leaf; auto. }
  change (pair_up (level h l) !! pos = Some x) in Hx. apply pair_up_lookup_inv in Hx as (a & Ha & ->).
  destruct (IH _ _ Ha) as (bl & hl & El & Hl). rewrite El. cbn [mbind outcome_bind].
  destruct (Nat.ltb_spec (pos * 2 + 1) (CalcTreeWidth (length l) h)) as [Hw|Hw].
  - rewrite <- length_level in Hw. destruct (lookup_lt_is_Some_2 _ _ Hw) as [b Eb].
    destruct (IH _ _ Eb) as (br & hr & Er & Hr). rewrite Er, Eb. eexists _, _. split; [reflexivity|].
    rewrite length_level in Hw. by apply encodes_two.
  - rewrite lookup_ge_None_2 by (by rewrite length_level). eexists _, _. cbn [mbind outcome_bind].
    rewrite !app_nil_r. split; [reflexivity|]. by apply encodes_one.
Qed.

(** The size of an encoding: at most one bit for each leaf and level, and only
    transaction hashes and hashes of pairs. *)
Lemma TraverseAndBuild_size h pos x bits hashes :
  level h l !! pos = Some x → Forall (is_u 256) l → TraverseAndBuild (length l) h pos l m = Ok (bits, hashes) →
  (length bits ≤ (h + 1) * length (leaves h pos l))%nat ∧ Forall (is_u 256) hashes.
Proof.
  intros Hx Hl. assert (∀ h pos x, level h l !! pos = Some x → is_u 256 x) as Hu.
  { intros [|h'] pos' x' H; [by eapply Forall_lookup_1|]. change (pair_up (level h' l) !! pos' = Some x') in H.
    apply pair_up_lookup_inv in H as (a & _ & ->). apply is_u_Hash2. }
  revert pos x bits hashes Hx. induction h as [|h IH]; intros pos x bits hashes Hx E;
    pose proof (lookup_lt_Some _ _ _ Hx) as Hlt; rewrite length_level in Hlt;
    pose proof (proj1 (CalcTreeWidth_lt _ _ _) Hlt) as Hlt'; cbn [TraverseAndBuild] in E;
    apply outcome_bind_ok in E as (b & _ & E).
  - rewrite (CalcHash_spec 0 l pos x Hx) in E. cbn [mbind outcome_bind] in E. assert (bits = [b] ∧ hashes = [x]) as [-> ->] by (split; congruence).
    change (l !! pos = Some x) in Hx. rewrite (leaves_0 _ _ _ Hx). split; [cbn; lia|]. constructor; [|done]. by eapply (Hu 0%nat).
  - assert (1 ≤ length (leaves (S h) pos l))%nat as H1.
    { unfold leaves. rewrite length_take, length_drop. pose proof (Nat.pow_nonzero 2 (S h)). lia. }
    destruct b.
    2: { rewrite (CalcHash_spec (S h) l pos x Hx) in E. cbn [mbind outcome_bind] in E.
         assert (bits = [false] ∧ hashes = [x]) as [-> ->] by (split; congruence). split; [cbn [length]; nia|].
         constructor; [|done]. by eapply Hu. }
    change (pair_up (level h l) !! pos = Some x) in Hx. apply pair_up_lookup_inv in Hx as (a & Ha & _).
    apply outcome_bind_ok in E as ([bl hl] & El & E). destruct (IH _ _ _ _ Ha El) as [Hbl Hhl].
    apply outcome_bind_ok in E as ([br hr] & Er & E).
    assert (bits = true :: bl ++ br ∧ hashes = hl ++ hr) as [-> ->] by (split; congruence).
    rewrite leaves_S, length_app in *. cbn [length]. rewrite length_app.
    destruct (Nat.ltb_spec (pos * 2 + 1) (CalcTreeWidth (length l) h)) as [Hw|Hw].
    + rewrite <- length_level in Hw. destruct (lookup_lt_is_Some_2 _ _ Hw) as [c Ec].
      destruct (IH _ _ _ _ Ec Er) as [Hbr Hhr]. split; [nia|]. by apply Forall_app.
    + assert (br = [] ∧ hr = []) as [-> ->] by (split; congruence). rewrite app_nil_r. split; [cbn [length] in *; nia|done].
Qed.
End encoding.

(** A tree that carries what the construction wrote, and some more bits that
    do not fill a byte, gives back the root and the matches. *)
Lemma ExtractMatches_built l m bits hashes k x pad :
  length m = length l → Z.of_nat (length l) ≤ MAX_BLOCK_SIZE / 60 → (1 ≤ length l)%nat →
  tree_height (length l) = Ok k → encodes l m k 0 x bits hashes →
  ((length bits + 7) / 8 = (length (bits ++ pad) + 7) / 8)%nat → CalcTreeWidth (length l) k = 1%nat →
  ExtractMatches (PartialTree (length l) (bits ++ pad) hashes false) = Ok (x, selected l m).
Proof.
  intros Hlm Hmax Hn Hk [[[? ?] Hle] Henc] Hpad Hw. unfold ExtractMatches. cbn [nTransactions vBits vHash fBad].
  assert (∀ A (v : list A), length v = length l → leaves k 0 v = v) as Hall.
  { intros A v Hv. unfold leaves. rewrite drop_0. apply take_ge. rewrite Hv.
    pose proof (proj2 (CalcTreeWidth_lt (length l) k 1)). lia. }
  rewrite Hall in Hle by done.
  rewrite (proj2 (Nat.eqb_neq _ _)) by lia. rewrite (proj2 (Z.ltb_ge _ _)) by lia.
  rewrite (proj2 (Nat.ltb_ge _ _)) by lia. rewrite (proj2 (Nat.ltb_ge _ _)) by (rewrite length_app; lia).
  rewrite Hk. cbn [mbind outcome_bind].
  pose proof (Henc (PartialTree (length l) (bits ++ pad) hashes false) [] pad [] [] [] false eq_refl eq_refl) as E.
  cbn [length app vHash] in E. rewrite E by (by rewrite app_nil_r). cbn [bad nBitsUsed nHashUsed vMatch].
  rewrite !Hall by done. rewrite Hpad, !Nat.eqb_refl. reflexivity.
Qed.

Lemma CPartialMerkleTree_new_spec l m :
  length m = length l → (1 ≤ length l)%nat → Forall (is_u 256) l →
  ∃ k bits hashes, CPartialMerkleTree_new l m = Ok (PartialTree (length l) bits hashes false) ∧
    tree_height (length l) = Ok k ∧ CalcTreeWidth (length l) k = 1%nat ∧ encodes l m k 0 (merkle_root l) bits hashes ∧
    (length bits ≤ (k + 1) * length l)%nat ∧ (∀ j, j < k → 1 < CalcTreeWidth (length l) j)%nat ∧ Forall (is_u 256) hashes.
Proof.
  intros Hlm Hn Hu. destruct (tree_height_spec (length l) Hn) as (k & Hk & Hw & Hj).
  assert (length (level k l) = 1%nat) as Hlen by (by rewrite length_level).
  destruct (level k l) as [|x [|]] eqn:Hl; [simpl in Hlen; lia| |simpl in Hlen; lia].
  pose proof (level_top k l (length l) x (le_n _) Hj Hl) as Hroot.
  change (merkle_root l) with (root_of (length l) l). rewrite Hroot.
  destruct (TraverseAndBuild_encodes l m Hlm k 0 x) as (bits & hashes & Hb & He); [by rewrite Hl|].
  destruct (TraverseAndBuild_size l m Hlm k 0 x bits hashes) as [Hs Hh]; [by rewrite Hl|done|done|].
  assert (length (leaves k 0 l) ≤ length l)%nat as Hle by (unfold leaves; rewrite length_take, length_drop; lia).
  exists k, bits, hashes. unfold CPartialMerkleTree_new. rewrite Hk. cbn [mbind outcome_bind].
  split_and!; [by rewrite Hb|done..|nia|done|done].
Qed.

(** ** The packed bits *)

Lemma bits_of_byte_of_bits bs : (length bs ≤ 8)%nat → bits_of_byte (byte_of_bits bs) = bs ++ replicate (8 - length bs) false.
Proof.
  intros H. do 9 (destruct bs as [|[] bs]; [reflexivity| |]). all: simpl in H; lia.
Qed.

Lemma unpack_pack n bs :
  (length bs ≤ 8 * n)%nat → concat (bits_of_byte <$> pack_bits n bs) = bs ++ replicate (8 * n - length bs) false.
Proof.
  revert bs. induction n as [|n IH]; intros bs Hl; cbn [pack_bits].
  { destruct bs; [reflexivity|simpl in Hl; lia]. }
  rewrite fmap_cons. cbn [concat]. rewrite bits_of_byte_of_bits by (rewrite length_take; lia).
  rewrite IH by (rewrite length_drop; lia). rewrite length_take, length_drop.
  destruct (Nat.le_gt_cases 8 (length bs)).
  - rewrite Nat.min_l by lia. cbn [Nat.sub replicate]. rewrite app_nil_r, app_assoc, take_drop.
    do 2 f_equal. lia.
  - rewrite Nat.min_r by lia. rewrite drop_ge, take_ge by lia. cbn [app].
    rewrite <- app_assoc, <- replicate_add. do 2 f_equal. lia.
Qed.

(** Serialisation adds only the bits that fill the last byte. *)
Lemma unser_partial_ser t rest :
  is_u 32 (Z.of_nat (nTransactions t)) → Forall (is_u 256) (vHash t) →
  Z.of_nat (length (vHash t)) ≤ MAX_SIZE → Z.of_nat (length (vBits t)) ≤ MAX_SIZE →
  ∃ pad, unser_partial (ser_partial t ++ rest) = Ok (PartialTree (nTransactions t) (vBits t ++ pad) (vHash t) false, rest) ∧
    ((length (vBits t) + 7) / 8 = (length (vBits t ++ pad) + 7) / 8)%nat.
Proof.
  intros Hn Hh Hlh Hlb. set (n := ((length (vBits t) + 7) / 8)%nat).
  pose proof (Nat.div_mod_eq (length (vBits t) + 7) 8) as Hdiv. pose proof (Nat.mod_upper_bound (length (vBits t) + 7) 8 ltac:(lia)).
  assert (∀ k bs, length (pack_bits k bs) = k) as Hpack by (intros k; induction k as [|k IH]; intros bs; cbn; auto).
  exists (replicate (8 * n - length (vBits t)) false). unfold unser_partial, ser_partial. rewrite <- !app_assoc.
  rewrite READDATA4_WRITE by done. cbn [mbind outcome_bind].
  rewrite (unser_vector_ser ser_uint256 unser_uint256 (is_u 256)); [|apply unser_uint256_ser|done|done].
  cbn [mbind outcome_bind]. fold n. rewrite unser_blob_ser by (rewrite Hpack; lia). cbn [mbind outcome_bind].
  rewrite Nat2Z.id, unpack_pack by lia. split; [reflexivity|]. rewrite length_app, length_replicate. fold n.
  replace (length (vBits t) + (8 * n - length (vBits t)) + 7)%nat with (7 + n * 8)%nat by lia.
  rewrite Nat.div_add by lia. reflexivity.
Qed.

(** ** What an extraction authenticates *)

Lemma CheckMerkleBranch_snoc y br s i :
  CheckMerkleBranch y (br ++ [s]) i =
    if Nat.odd (i / 2 ^ length br) then Hash2 s (CheckMerkleBranch y br i) else Hash2 (CheckMerkleBranch y br i) s.
Proof.
  revert y i. induction br as [|h br IH]; intros y i; cbn [app CheckMerkleBranch length].
  - rewrite Nat.div_1_r. reflexivity.
  - rewrite IH, Nat.Div0.div_div, <- Nat.pow_succ_r'. reflexivity.
Qed.

(** [y] is on a branch from a leaf below the node to the hash [x]. *)
Definition authentic (n h pos : nat) (x y : Z) : Prop :=
  ∃ i br, (i < n)%nat ∧ length br = h ∧ (i / 2 ^ h)%nat = pos ∧ CheckMerkleBranch y br i = x.

Lemma authentic_step n h pos q s x y :
  authentic n h q x y → (q / 2)%nat = pos →
  authentic n (S h) pos (if Nat.odd q then Hash2 s x else Hash2 x s) y.
Proof.
  intros (i & br & Hi & Hl & Hq & Hx) Hpos. exists i, (br ++ [s]). split_and!; [done| | |].
  - rewrite length_app, Hl. cbn [length]. lia.
  - by rewrite Nat.pow_succ_r', Nat.mul_comm, <- Nat.Div0.div_div, Hq.
  - rewrite CheckMerkleBranch_snoc, Hl, Hq, Hx. reflexivity.
Qed.

Lemma authentic_left n h pos s x y : authentic n h (pos * 2) x y → authentic n (S h) pos (Hash2 x s) y.
Proof.
  intros H. apply (authentic_step n h pos (pos * 2) s) in H; [|apply Nat.div_mul; lia].
  by rewrite Nat.mul_comm, Nat.odd_even in H.
Qed.

Lemma authentic_right n h pos s x y : authentic n h (pos * 2 + 1) x y → authentic n (S h) pos (Hash2 s x) y.
Proof.
  intros H. apply (authentic_step n h pos (pos * 2 + 1) s) in H.
  - by rewrite Nat.mul_comm, Nat.odd_odd in H.
  - rewrite Nat.div_add_l by lia. apply Nat.add_0_r.
Qed.

Lemma TraverseAndExtract_authentic t h pos st x st' :
  (pos < CalcTreeWidth (nTransactions t) h)%nat → TraverseAndExtract t h pos st = (x, st') → bad st' = false →
  bad st = false ∧ ∃ ms, vMatch st' = vMatch st ++ ms ∧ Forall (authentic (nTransactions t) h pos x) ms.
Proof.
  revert pos st x st'. induction h as [|h IH]; intros pos st x st' Hpos E Hbad; cbn [TraverseAndExtract] in E;
    (destruct (vBits t !! nBitsUsed st) as [b|]; [|injection E as <- <-; discriminate Hbad]); cbn [nHashUsed vMatch bad] in E.
  - destruct (vHash t !! nHashUsed st) as [y|]; [|injection E as <- <-; discriminate Hbad]. injection E as <- <-. split; [exact Hbad|].
    cbn [vMatch Nat.eqb andb]. destruct b; [exists [y]|exists []; by rewrite app_nil_r]. split; [done|].
    constructor; [|done]. exists pos, []. rewrite CalcTreeWidth_0 in Hpos. by rewrite Nat.div_1_r.
  - destruct b; cbn [negb] in E.
    2: { destruct (vHash t !! nHashUsed st) as [y|]; [|injection E as <- <-; discriminate Hbad]. injection E as <- <-.
         split; [exact Hbad|]. exists []. by rewrite app_nil_r. }
    destruct (TraverseAndExtract t h (pos * 2) _) as [a st1] eqn:E1.
    assert (pos * 2 < CalcTreeWidth (nTransactions t) h)%nat as Hp
      by (apply CalcTreeWidth_lt in Hpos; apply CalcTreeWidth_lt; rewrite Nat.pow_succ_r' in Hpos; lia).
    destruct (Nat.ltb_spec (pos * 2 + 1) (CalcTreeWidth (nTransactions t) h)) as [Hw|Hw].
    + destruct (TraverseAndExtract t h (pos * 2 + 1) st1) as [b st2] eqn:E2. apply pair_equal_spec in E as [<- <-].
      destruct (IH _ _ _ _ Hw E2 Hbad) as (Hb1 & ms2 & Hm2 & H2). destruct (IH _ _ _ _ Hp E1 Hb1) as (Hb & ms1 & Hm1 & H1).
      split; [done|]. exists (ms1 ++ ms2). rewrite Hm2, Hm1, app_assoc. split; [done|]. apply Forall_app.
      split; (eapply list.Forall_impl; [eassumption|]); intros y; [apply authentic_left|apply authentic_right].
    + apply pair_equal_spec in E as [<- <-]. destruct (IH _ _ _ _ Hp E1 Hbad) as (Hb & ms1 & Hm1 & H1). split; [done|].
      exists ms1. split; [done|]. eapply list.Forall_impl; [exact H1|]. intros y. apply authentic_left.
Qed.

Lemma CalcTreeWidth_half n h : CalcTreeWidth ((n + 1) / 2) h = CalcTreeWidth n (S h).
Proof.
  induction h as [|h IH]; [by rewrite CalcTreeWidth_S, !CalcTreeWidth_0|]. by rewrite CalcTreeWidth_S, IH, <- CalcTreeWidth_S.
Qed.

(** A branch has as many hashes as the tree is high. *)
Lemma merkle_branch_loop_length fuel k j n i T acc r :
  CalcTreeWidth n k = 1%nat → (∀ j, j < k → 1 < CalcTreeWidth n j)%nat →
  merkle_branch_loop fuel j n i T acc = Ok r → length r = (length acc + k)%nat.
Proof.
  revert k j n i acc. induction fuel as [|fuel IH]; intros k j n i acc Hk Hj E; cbn [merkle_branch_loop] in E;
    destruct (Nat.leb_spec n 1) as [Hn|Hn].
  1, 3: destruct k as [|k]; [injection E as <-; lia|]; pose proof (Hj 0%nat ltac:(lia)) as H; rewrite CalcTreeWidth_0 in H; lia.
  - discriminate E.
  - destruct k as [|k]; [rewrite CalcTreeWidth_0 in Hk; lia|]. invert_ok. apply (IH k) in E.
    + rewrite E, length_app. cbn [length]. lia.
    + by rewrite CalcTreeWidth_half.
    + intros q Hq. rewrite CalcTreeWidth_half. apply Hj. lia.
Qed.

Lemma GetMerkleBranch_length vtx i k br :
  vtx ≠ [] → tree_height (length vtx) = Ok k → GetMerkleBranch vtx [] i = Ok br → length br = k.
Proof.
  intros Hne Hk H. unfold GetMerkleBranch in H. rewrite BuildMerkleTree_eq in H. cbn [mbind outcome_bind] in H.
  destruct (tree_height_spec (length vtx)) as (k' & Hk' & Hw & Hj); [destruct vtx; [congruence|simpl; lia]|].
  assert (k' = k) as -> by congruence. by apply (merkle_branch_loop_length _ k) in H.
Qed.

Lemma height_bound n k : Z.of_nat n ≤ 16666 → (∀ j, j < k → 1 < CalcTreeWidth n j)%nat → (k ≤ 15)%nat.
Proof.
  intros Hn Hj. apply Nat.nlt_ge. intros Hk. specialize (Hj 15%nat Hk). apply CalcTreeWidth_lt in Hj.
  assert (Z.of_nat (2 ^ 15) = 32768) as E by reflexivity. lia.
Qed.

(** ** Properties *)

(** From a partial merkle tree built from transaction hashes and a mask,
    ExtractMatches returns the merkle root of the block and exactly the selected
    hashes in order; so it does after the tree went over the wire. *)
Theorem partial_tree_roundtrip (vTxid : list Z) (vMatch : list bool) (rest : list Z) :
  vTxid ≠ [] → length vMatch = length vTxid → Forall (is_u 256) vTxid →
  Z.of_nat (length vTxid) ≤ MAX_BLOCK_SIZE / 60 →
  ∃ t t', CPartialMerkleTree_new vTxid vMatch = Ok t ∧ unser_partial (ser_partial t ++ rest) = Ok (t', rest) ∧
    ExtractMatches t = Ok (merkle_root vTxid, selected vTxid vMatch) ∧
    ExtractMatches t' = Ok (merkle_root vTxid, selected vTxid vMatch).
Proof.
  intros Hne Hlm Hu Hmax. assert (1 ≤ length vTxid)%nat as Hn by (destruct vTxid; [congruence|simpl; lia]).
  destruct (CPartialMerkleTree_new_spec vTxid vMatch Hlm Hn Hu) as (k & bits & hashes & E & Hk & Hw & He & Hb & Hj & Hh).
  pose proof Hmax as Hmax'. unfold MAX_BLOCK_SIZE in Hmax'. change (1000000 / 60) with 16666 in Hmax'.
  pose proof (height_bound _ _ Hmax' Hj) as Hk15. unfold MAX_SIZE.
  destruct (unser_partial_ser (PartialTree (length vTxid) bits hashes false) rest) as (pad & Eu & Hpad);
    cbn [nTransactions vHash vBits] in *; [unfold is_u; lia|done| |unfold MAX_SIZE; nia|].
  { destruct He as [[[? ?] ?] _]. unfold MAX_SIZE. nia. }
  exists (PartialTree (length vTxid) bits hashes false). eexists. split_and!; [done|exact Eu| |].
  - rewrite <- (app_nil_r bits) at 1. apply (ExtractMatches_built _ _ _ _ k); [done..|by rewrite app_nil_r|done].
  - by apply (ExtractMatches_built _ _ _ _ k).
Qed.

Lemma partial_tree_roundtrip_witness :
  ∃ t t', CPartialMerkleTree_new [11; 12; 13] [false; true; false] = Ok t ∧
    unser_partial (ser_partial t ++ [7]) = Ok (t', [7]) ∧ ExtractMatches t' = Ok (merkle_root [11; 12; 13], [12]).
Proof.
  destruct (partial_tree_roundtrip [11; 12; 13] [false; true; false] [7]) as (t & t' & H & H' & _ & H'');
    [congruence|reflexivity|by_decision|vm_compute; congruence|]. exists t, t'. split_and!; assumption.
Defined.

(** C35: whatever the peer sends, each hash ExtractMatches returns with a nonzero
    root is at the end of a merkle branch to that root of the height of the tree;
    so when the root is the merkle root of a block of as many transactions, the
    hash is that of the transaction at the branch's index, unless two different
    pairs hashed along the two branches have the same hash. *)
Theorem ExtractMatches_authentic (t : CPartialMerkleTree) (root : Z) (matches : list Z) (y : Z) :
  ExtractMatches t = Ok (root, matches) → root ≠ 0 → y ∈ matches →
  ∃ i br, (i < nTransactions t)%nat ∧ CheckMerkleBranch y br i = root ∧
    ∀ vtx, length vtx = nTransactions t → merkle_root vtx = root →
      ∃ x br', vtx !! i = Some x ∧ GetMerkleBranch vtx [] i = Ok br' ∧
        (collision_free (branch_pairs y br i ++ branch_pairs x br' i) → y = x).
Proof.
  intros E Hroot Hy. unfold ExtractMatches in E.
  destruct (Nat.eqb_spec (nTransactions t) 0) as [|Hn]; [congruence|].
  do 3 (destruct (_ <? _) in E || destruct (_ <? _)%nat in E; [congruence|]).
  destruct (tree_height_spec (nTransactions t) ltac:(lia)) as (k & Hk & Hw & Hj). rewrite Hk in E. cbn [mbind outcome_bind] in E.
  destruct (TraverseAndExtract t k 0 _) as [x st] eqn:Ex. destruct (bad st) eqn:Hbad; [congruence|].
  do 2 (destruct (negb _) in E; [congruence|]). assert (root = x ∧ matches = vMatch st) as [-> ->] by (split; congruence).
  apply TraverseAndExtract_authentic in Ex as (_ & ms & Hms & Hall); [|lia|done]. cbn [vMatch app] in Hms.
  rewrite Hms in Hy. rewrite list.Forall_forall in Hall. destruct (Hall y Hy) as (i & br & Hi & Hl & _ & Hx).
  exists i, br. split_and!; [done..|]. intros vtx Hlen Hr.
  destruct (lookup_lt_is_Some_2 vtx i ltac:(lia)) as [z Hz].
  destruct (merkle_branch_loop_spec (length vtx) [] vtx i z [] (le_n _) Hz) as (br' & Hbr & Hroot').
  cbn [app length] in Hbr. exists z, br'. split; [done|].
  assert (GetMerkleBranch vtx [] i = Ok br') as Hg by (unfold GetMerkleBranch; by rewrite BuildMerkleTree_eq).
  split; [done|]. intros Hc. apply (CheckMerkleBranch_binds br br' y z i); [|done|].
  - rewrite Hl. symmetry. apply (GetMerkleBranch_length vtx i); [intros ->; discriminate Hz|by rewrite Hlen|done].
  - rewrite Hroot'. by rewrite Hx.
Qed.

Lemma ExtractMatches_authentic_witness :
  ∃ root, ExtractMatches (PartialTree 2 [true; true; false] [11; 12] false) = Ok (root, [11]) ∧
    ∃ i br, (i < 2)%nat ∧ CheckMerkleBranch 11 br i = root.
Proof.
  eexists. assert (ExtractMatches (PartialTree 2 [true; true; false] [11; 12] false) = Ok (Hash2 11 12, [11])) as E
    by (vm_compute; reflexivity).
  split; [exact E|].
  destruct (ExtractMatches_authentic (PartialTree 2 [true; true; false] [11; 12] false) (Hash2 11 12) [11] 11 E)
    as (i & br & Hi & Hbr & _); [apply Z.eqb_neq; vm_compute; reflexivity|by left|].
  exists i, br. split; assumption.
Defined.
