(* ===== verification/Block.v ===== *)
(** * Blocks and their context-free checks (primitives/block.h, block.cpp, main.cpp)

    The header and block records with their wire format, the header hash, block
    signatures, and the checks of a block: [CheckBlock], [ContextualCheckBlock]
    and their header counterparts.  The six hash functions of the header hash,
    elliptic-curve operations, the key store and the masternode payment rules are
    parameters. *)
From stdpp Require Import base tactics list gmap numbers option.
From Stdlib Require Import ZArith Lia.
From S2P Require Import Prelude.
From S2P Require Import Serialize.
From S2P Require Import BaseUint.
From S2P Require Import ScriptCode.
From S2P Require Import Transaction.
From S2P Require Import SigHash.
From S2P Require Import Standard.
From S2P Require Import Chain.
From S2P Require Import Pow.
From S2P Require Import Merkle.

(** ** Data *)

Record CBlockHeader := BlockHeader {
  h_nVersion : Z;       (** int32_t *)
  hashPrevBlock : Z;
  hashMerkleRoot : Z;
  h_nTime : Z;
  h_nBits : Z;
  nNonce : Z
}.

Record CBlock := Block {
  header : CBlockHeader;
  vtx : list CTransaction;
  vchBlockSig : list Z
}.

Definition header_CURRENT_VERSION : Z := 3.
Definition CBlockHeader_new : CBlockHeader := BlockHeader header_CURRENT_VERSION 0 0 0 0 0.
Definition CBlock_new : CBlock := Block CBlockHeader_new [] [].
Definition header_IsNull (h : CBlockHeader) : bool := h_nBits h =? 0.
Definition header_GetBlockTime (h : CBlockHeader) : Z := h_nTime h.

Definition block_IsProofOfStake (vtx : list CTransaction) : bool :=
  match vtx with _ :: tx :: _ => IsCoinStake tx | _ => false end.
Definition block_IsProofOfWork (vtx : list CTransaction) : bool := negb (block_IsProofOfStake vtx).

(** [vtx[1].vin[0]] is read only in a proof-of-stake block. *)
Definition GetProofOfStake (b : CBlock) : COutPoint * Z :=
  match vtx b with
  | _ :: tx :: _ =>
      if IsCoinStake tx then match vin tx with i :: _ => (prevout i, h_nTime (header b)) | [] => (COutPoint_null, 0) end
      else (COutPoint_null, 0)
  | _ => (COutPoint_null, 0)
  end.

(** ** Wire format *)

Definition ser_header (h : CBlockHeader) : list Z :=
  WRITEDATA 4 (h_nVersion h) ++ ser_uint256 (hashPrevBlock h) ++ ser_uint256 (hashMerkleRoot h) ++
  WRITEDATA 4 (h_nTime h) ++ WRITEDATA 4 (h_nBits h) ++ WRITEDATA 4 (nNonce h).
Definition unser_header : reader CBlockHeader := λ s,
  '(nVersion, s) ← READDATA_signed 4 s;
  '(hashPrevBlock, s) ← unser_uint256 s;
  '(hashMerkleRoot, s) ← unser_uint256 s;
  '(nTime, s) ← READDATA 4 s;
  '(nBits, s) ← READDATA 4 s;
  '(nNonce, s) ← READDATA 4 s;
  Ok (BlockHeader nVersion hashPrevBlock hashMerkleRoot nTime nBits nNonce, s).

(** The signature is on the wire only when the second transaction is a
    coinstake. *)
Definition ser_block (b : CBlock) : list Z :=
  ser_header (header b) ++ ser (vtx b) ++ (if block_IsProofOfStake (vtx b) then ser_blob (vchBlockSig b) else []).
Definition unser_block : reader CBlock := λ s,
  '(header, s) ← unser_header s;
  '(vtx, s) ← unser s;
  if block_IsProofOfStake vtx then '(sig, s) ← unser_blob s; Ok (Block header vtx sig, s)
  else Ok (Block header vtx [], s).

(** ** The header hash *)

Section Hash.
(** [sph_blake512] … [sph_skein512], of bytes, into 64 bytes. *)
Context (blake bmw groestl jh keccak skein : list Z → list Z).

(** [(hash & mask) != zero] with the mask 8, which is in the first byte. *)
Definition quark_bit (hash : list Z) : bool := negb (Z.land (nth 0 hash 0) 8 =? 0).

(** [HashQuark(pbegin, pend)]; [trim256] keeps the low half. *)
Definition HashQuark (data : list Z) : Z :=
  let hash0 := blake data in
  let hash1 := bmw hash0 in
  let hash2 := if quark_bit hash1 then groestl hash1 else skein hash1 in
  let hash3 := groestl hash2 in
  let hash4 := jh hash3 in
  let hash5 := if quark_bit hash4 then blake hash4 else bmw hash4 in
  let hash6 := keccak hash5 in
  let hash7 := skein hash6 in
  let hash8 := if quark_bit hash7 then keccak hash7 else jh hash7 in
  uint256_of_bytes (take 32 hash8).

(** [GetHash]: the bytes of the header's fields in memory are those on the wire. *)
Definition header_GetHash (h : CBlockHeader) : Z := HashQuark (ser_header h).
End Hash.

(** The limbs of a [uint256] given as a number. *)
Definition uint256_limbs (h : Z) : list Z := (λ i, (h / 2 ^ (32 * Z.of_nat i)) mod 2 ^ 32) <$> seq 0 UINT256_WIDTH.

(** ** Signatures *)

Section Signatures.
Context (GetHash : CBlockHeader → Z).
(** [CPubKey::Verify(hash, vchSig)]; [CKeyStore::GetKey]; [CKey::Sign]. *)
Context (Verify : list Z → Z → list Z → bool).
Context {key : Type} (GetKey : list Z → option key) (Sign : key → Z → option (list Z)).

(** [vtx[1].vout[1]], read in a proof-of-stake block. *)
Definition stake_output (b : CBlock) : result CTxOut :=
  match vtx b !! 1%nat with
  | Some tx => match vout tx !! 1%nat with Some o => Ok o | None => AssertFail end
  | None => AssertFail
  end.

(** The signing steps after a key identifier is known. *)
Definition sign_with (b : CBlock) (keyID : list Z) : bool * list Z :=
  match GetKey keyID with
  | None => (false, vchBlockSig b)
  | Some k => match Sign k (GetHash (header b)) with Some sig => (true, sig) | None => (false, vchBlockSig b) end
  end.

(** The loop over the outputs of the coinbase of a proof-of-work block. *)
Fixpoint sign_pow_loop (b : CBlock) (outs : list CTxOut) : result (bool * list Z) :=
  match outs with
  | [] => Ok (false, vchBlockSig b)
  | o :: outs =>
      '(ok, whichType, vSolutions) ← Solver (scriptPubKey o);
      if negb ok then sign_pow_loop b outs else
      match whichType with
      | TX_PUBKEY => s ← solution0 vSolutions; keyID ← uint160_of s; Ok (sign_with b keyID)
      | _ => sign_pow_loop b outs
      end
  end.

(** [SignBlock]: the result and [vchBlockSig] after it. *)
Definition SignBlock (b : CBlock) : result (bool * list Z) :=
  if negb (block_IsProofOfStake (vtx b)) then
    match vtx b !! 0%nat with Some tx => sign_pow_loop b (vout tx) | None => AssertFail end
  else
    o ← stake_output b;
    '(ok, whichType, vSolutions) ← Solver (scriptPubKey o);
    if negb ok then Ok (false, vchBlockSig b) else
    match whichType with
    | TX_PUBKEYHASH => s ← solution0 vSolutions; keyID ← uint160_of s; Ok (sign_with b keyID)
    | TX_PUBKEY => s ← solution0 vSolutions; Ok (sign_with b (GetID (CPubKey_of s)))
    | _ => Ok (false, vchBlockSig b)
    end.

(** The last steps of [CheckBlockSignature], for the key [vchPubKey]. *)
Definition check_key (b : CBlock) (vchPubKey : list Z) : bool :=
  let pubkey := CPubKey_of vchPubKey in
  if negb (CPubKey_IsValid pubkey) then false else
  match vchBlockSig b with
  | [] => false
  | sig => Verify pubkey (GetHash (header b)) sig
  end.

Definition CheckBlockSignature (b : CBlock) : result bool :=
  if block_IsProofOfWork (vtx b) then Ok (match vchBlockSig b with [] => true | _ => false end) else
  o ← stake_output b;
  '(ok, whichType, vSolutions) ← Solver (scriptPubKey o);
  if negb ok then Ok false else
  match whichType with
  | TX_PUBKEY => vchPubKey ← solution0 vSolutions; Ok (check_key b vchPubKey)
  | TX_PUBKEYHASH => vchPubKey ← solution0 vSolutions; _ ← uint160_of vchPubKey; Ok (check_key b vchPubKey)
  | _ => Ok false
  end.
End Signatures.

(** ** Checks independent of context *)

(** The ways [CheckBlock] refuses. *)
Inductive block_reject :=
| BadHeader | TimeTooNew | BadMerkleRoot | DuplicateTransaction | BadLength | CoinbaseMissing | CoinbaseMultiple
| CoinbaseNotEmpty | CoinstakeMissing | CoinstakeMultiple | ConflictingLock | BadPayee | BadTransaction (e : tx_reject) | TooManySigOps.

(** What the [CValidationState] has: the ban score (a bad header is scored
    twice), whether the block may only be corrupted, and whether the block is
    noted in [mapRejectedBlocks]. *)
Definition block_reject_dos (e : block_reject) : Z :=
  match e with
  | BadHeader => 50 + 100
  | TimeTooNew | ConflictingLock | BadPayee => 0
  | BadTransaction e => tx_reject_dos e
  | _ => 100
  end.
Definition block_reject_corruption (e : block_reject) : bool :=
  match e with BadHeader | BadMerkleRoot | DuplicateTransaction | TooManySigOps => true | _ => false end.
Definition block_reject_noted (e : block_reject) : bool := match e with ConflictingLock | BadPayee => true | _ => false end.

Definition MAX_BLOCK_SIGOPS : Z := MAX_BLOCK_SIZE / 50.

(** The program state and the other parts of the node the checks consult. *)
Record node_env := NodeEnv {
  adjusted_time : Z;                        (** [GetAdjustedTime()] *)
  mapBlockIndex : block_index;
  chainActive : CChain;
  swifttx_filtering : bool;                 (** [IsSporkActive(SPORK_3_SWIFTTX_BLOCK_FILTERING)] *)
  mapLockedInputs : gmap COutPoint Z;
  initial_download : bool;                  (** [IsInitialBlockDownload()] *)
  payee_valid : CBlock → Z → bool           (** [IsBlockPayeeValid(block, nHeight)] *)
}.

Section CheckBlock.
Context (params : CChainParams) (nMaxMoneyOut : Z) (GetHash : CBlockHeader → Z) (env : node_env).

Definition CheckBlockHeader (h : CBlockHeader) (fCheckPOW : bool) : outcome block_reject unit :=
  if fCheckPOW && negb (CheckProofOfWork params (uint256_limbs (GetHash h)) (h_nBits h)) then Err BadHeader else Ok tt.

(** The coinbase and coinstake rules. *)
Definition check_generation (vtx : list CTransaction) : outcome block_reject unit :=
  match vtx with
  | [] => Err CoinbaseMissing
  | cb :: rest =>
      if negb (IsCoinBase cb) then Err CoinbaseMissing else
      if existsb IsCoinBase rest then Err CoinbaseMultiple else
      if negb (block_IsProofOfStake vtx) then Ok tt else
      match vout cb with
      | [o] =>
          if negb (CTxOut_IsEmpty o) then Err CoinbaseNotEmpty else
          match rest with
          | [] => AssertFail
          | stake :: rest =>
              if negb (IsCoinStake stake) then Err CoinstakeMissing else
              if existsb IsCoinStake rest then Err CoinstakeMultiple else Ok tt
          end
      | _ => Err CoinbaseNotEmpty
      end
  end.

(** Some input is locked by another transaction. *)
Definition lock_conflict (tx : CTransaction) (i : CTxIn) : bool :=
  match mapLockedInputs env !! prevout i with Some h => negb (h =? tx_hash tx) | None => false end.
Definition check_locks (vtx : list CTransaction) : outcome block_reject unit :=
  if swifttx_filtering env then
    if existsb (λ tx, negb (IsCoinBase tx) && existsb (lock_conflict tx) (vin tx)) vtx then Err ConflictingLock else Ok tt
  else Ok tt.

(** The height of the block by its predecessor, 0 when that is unknown. *)
Definition height_by_prev (pindexPrev : Z) (tip : CBlockIndex) (prev : Z) : Z :=
  if pindexPrev =? prev then nHeight tip + 1
  else match mapBlockIndex env !! prev with Some b => nHeight b + 1 | None => 0 end.

Definition check_payee (b : CBlock) : outcome block_reject unit :=
  pindexPrev ← no_err (Tip (mapBlockIndex env) (chainActive env) false);
  match pindexPrev with
  | None => Ok tt
  | Some p =>
      tip ← deref (mapBlockIndex env) p;
      let nHeight := height_by_prev p tip (hashPrevBlock (header b)) in
      if negb (nHeight =? 0) && negb (initial_download env) then
        if negb (payee_valid env b nHeight) then Err BadPayee else Ok tt
      else Ok tt
  end.

Fixpoint check_transactions (vtx : list CTransaction) : outcome block_reject unit :=
  match vtx with
  | [] => Ok tt
  | tx :: vtx => _ ← map_err BadTransaction (CheckTransaction nMaxMoneyOut tx); check_transactions vtx
  end.

(** The running count is unsigned; the test comes after the loop. *)
Fixpoint block_sigops (vtx : list CTransaction) (nSigOps : Z) : outcome block_reject Z :=
  match vtx with
  | [] => Ok nSigOps
  | tx :: vtx => n ← GetLegacySigOpCount tx; block_sigops vtx (u32 (nSigOps + n))
  end.

Definition CheckBlock (b : CBlock) (fCheckMerkleRoot : bool) : outcome block_reject unit :=
  let stake := block_IsProofOfStake (vtx b) in
  _ ← CheckBlockHeader (header b) (negb stake);
  if adjusted_time env + (if stake then 180 else 7200) <? header_GetBlockTime (header b) then Err TimeTooNew else
  _ ← (if fCheckMerkleRoot then
         '(root, mutated, _) ← no_err (BuildMerkleTree (tx_hash <$> vtx b));
         if negb (hashMerkleRoot (header b) =? root) then Err BadMerkleRoot
         else if mutated : bool then Err DuplicateTransaction else Ok tt
       else Ok tt);
  if (Z.of_nat (length (vtx b)) =? 0) || (MAX_BLOCK_SIZE <? Z.of_nat (length (vtx b))) || (MAX_BLOCK_SIZE <? size (ser_block b))
  then Err BadLength else
  _ ← check_generation (vtx b);
  _ ← check_locks (vtx b);
  _ ← check_payee b;
  _ ← check_transactions (vtx b);
  nSigOps ← block_sigops (vtx b) 0;
  if MAX_BLOCK_SIGOPS <? nSigOps then Err TooManySigOps else Ok tt.

(** [mapRejectedBlocks] after the call; [GetTime()] is the time noted. *)
Definition note_rejected (rejected : gmap Z Z) (b : CBlock) (time : Z) (r : outcome block_reject unit) : gmap Z Z :=
  match r with
  | Err e => if block_reject_noted e && negb (bool_decide (is_Some (rejected !! GetHash (header b)))) then <[GetHash (header b) := time]> rejected else rejected
  | _ => rejected
  end.
End CheckBlock.

(** ** Checks against the chain *)

Inductive context_reject :=
| ReorgTooDeep | TimeTooOld | CheckpointMismatch | BeforeLastCheckpoint | BadVersion1 | BadVersion2 | NonFinal | BadCoinbaseHeight.
Definition context_reject_dos (e : context_reject) : Z :=
  match e with ReorgTooDeep => 1 | CheckpointMismatch | BadCoinbaseHeight => 100 | NonFinal => 10 | _ => 0 end.

(** The parameters of the network these checks read. *)
Record upgrade_params := UpgradeParams {
  HashGenesisBlock : Z;
  MaxReorganizationDepth : Z;
  EnforceBlockUpgradeMajority : Z;
  RejectBlockOutdatedMajority : Z;
  ToCheckBlockUpgradeMajority : nat;
  checkpoints_enabled : bool;               (** [Checkpoints::fEnabled] *)
  mapCheckpoints : list (Z * Z)             (** by increasing height *)
}.

Section Context_checks.
Context (up : upgrade_params) (GetHash : CBlockHeader → Z) (env : node_env).

(** [Checkpoints::CheckBlock] *)
Definition Checkpoints_CheckBlock (nHeight hash : Z) : bool :=
  if negb (checkpoints_enabled up) then true else
  match list_find (λ p, p.1 = nHeight) (mapCheckpoints up) with
  | None => true
  | Some (_, p) => hash =? p.2
  end.

(** [GetTotalBlocksEstimate]: [rbegin] of a non-empty map. *)
Definition GetTotalBlocksEstimate : res Z :=
  if negb (checkpoints_enabled up) then Ok 0 else
  match list.last (mapCheckpoints up) with Some p => Ok p.1 | None => AssertFail end.

(** [GetLastCheckpoint]: the last one whose block is in the index. *)
Definition GetLastCheckpoint : option Z :=
  if negb (checkpoints_enabled up) then None else
  match list_find (λ p, is_Some (mapBlockIndex env !! p.2)) (rev (mapCheckpoints up)) with
  | None => None
  | Some (_, p) => Some p.2
  end.

Definition ContextualCheckBlockHeader (h : CBlockHeader) (pindexPrev : option Z) : outcome context_reject unit :=
  let hash := GetHash h in
  if hash =? HashGenesisBlock up then Ok tt else
  match pindexPrev with
  | None => AssertFail
  | Some p =>
      prev ← deref (mapBlockIndex env) p;
      let nHeight := nHeight prev + 1 in
      if MaxReorganizationDepth up <=? Height (chainActive env) - nHeight then Err ReorgTooDeep else
      mtp ← no_err (GetMedianTimePast (mapBlockIndex env) p);
      if header_GetBlockTime h <=? mtp then Err TimeTooOld else
      if negb (Checkpoints_CheckBlock nHeight hash) then Err CheckpointMismatch else
      before ← match GetLastCheckpoint with
               | Some c => pcheckpoint ← deref (mapBlockIndex env) c; Ok (nHeight <? Chain.nHeight pcheckpoint)
               | None => Ok false
               end;
      if before : bool then Err BeforeLastCheckpoint else
      maj2 ← (if h_nVersion h <? 2
              then no_err (IsSuperMajority (ToCheckBlockUpgradeMajority up) (mapBlockIndex env) 2 pindexPrev (RejectBlockOutdatedMajority up))
              else Ok false);
      if maj2 : bool then Err BadVersion1 else
      maj3 ← (if h_nVersion h <? 3
              then no_err (IsSuperMajority (ToCheckBlockUpgradeMajority up) (mapBlockIndex env) 3 pindexPrev (RejectBlockOutdatedMajority up))
              else Ok false);
      if maj3 : bool then Err BadVersion2 else Ok tt
  end.

Definition ContextualCheckBlock (b : CBlock) (pindexPrev : option Z) : outcome context_reject unit :=
  nHeight ← match pindexPrev with
            | None => Ok 0
            | Some p => prev ← deref (mapBlockIndex env) p; Ok (nHeight prev + 1)
            end;
  if negb (forallb (λ tx, IsFinalTx (Height (chainActive env)) (adjusted_time env) tx nHeight (header_GetBlockTime (header b))) (vtx b))
  then Err NonFinal else
  enforce ← (if 2 <=? h_nVersion (header b)
             then no_err (IsSuperMajority (ToCheckBlockUpgradeMajority up) (mapBlockIndex env) 2 pindexPrev (EnforceBlockUpgradeMajority up))
             else Ok false);
  if enforce : bool then
    match vtx b with
    | cb :: _ =>
        match vin cb with
        | i :: _ =>
            let expect := push_int64 nHeight in
            if (size (scriptSig i) <? size expect) || negb (bool_decide (take (length expect) (scriptSig i) = expect))
            then Err BadCoinbaseHeight else Ok tt
        | [] => AssertFail
        end
    | [] => AssertFail
    end
  else Ok tt.
End Context_checks.

(** ** The genesis block of the main network *)

Definition genesis_timestamp : list Z :=
  [70; 97; 105; 114; 67; 111; 105; 110; 32; 103; 101; 110; 101; 115; 105; 115; 32; 45; 32; 97; 32; 110; 101; 119; 32; 98; 101; 103;
   105; 110; 110; 105; 110; 103; 32; 45; 32; 102; 97; 105; 114; 99; 111; 46; 105; 110].
Definition genesis_pubkey : list Z :=
  rev (le_bytes 65 0x04b3b954ef77dc284846839b7a4dbafb60729e75adbdb57d18e2caccca67faf670200594d443a5cf6cf559cc964acc7615c85a48fefee636899a466562bd97b64b).
Definition genesis_tx : CTransaction :=
  tx_of_mutable (MTx 1 [TxIn COutPoint_null (push_int64 486604799 ++ push_data (num_serialize 4) ++ push_data genesis_timestamp) UINT32_MAX []]
                       [TxOut (5000000 * COIN) (push_data genesis_pubkey ++ [OP_CHECKSIG]) (-10)] 0).
Definition genesis_block : CBlock :=
  Block (BlockHeader 1 0 0x9645f9761cc7212b2c8c79bcb2713a10d6e54623b24a8425b7bef2f16200a863 1744156800 0x1e0ffff0 1299007) [genesis_tx] [].

(** The merkle root the program asserts. *)
Example genesis_merkle_root : BuildMerkleTree (tx_hash <$> vtx genesis_block) = Ok (hashMerkleRoot (header genesis_block), false, [tx_hash genesis_tx]).
Proof. by vm_compute. Qed.

(** ** Block subsidy *)

Definition int64_shr {E} (a n : Z) : outcome E Z := if (0 <=? n) && (n <? 64) then Ok (Z.shiftr a n) else AssertFail.

(** [GetBlockValue]; the division truncates and a shift by 64 or more, or by
    less than zero, is undefined. *)
Definition GetBlockValue (nHeight : Z) : res Z :=
  if nHeight =? 1 then Ok (5000000 * COIN) else
  let halvings := nHeight ÷ 525600 in
  nSubsidy ← int64_shr (10 * COIN) halvings;
  Ok (if nSubsidy <? 125000000 then 125000000 else nSubsidy).

(** ** Signature operations of a block that fits *)

(** The number of signature operations of a script and of a transaction. *)
Definition sigops (script : list Z) : Z := match GetSigOpCount (E:=unit) script false with Ok n => n | _ => 0 end.
Definition legacy_sigops (tx : CTransaction) : Z :=
  sum_Z (λ i, sigops (scriptSig i)) (vin tx) + sum_Z (λ o, sigops (scriptPubKey o)) (vout tx).

(** The count does not depend on the error type it is run at. *)
Lemma GetSigOpCount_loop_err {E E'} fuel acc pc o n :
  GetSigOpCount_loop (E:=E') fuel acc pc o n = no_err (GetSigOpCount_loop (E:=E) fuel acc pc o n).
Proof.
  revert pc o n. induction fuel as [|fuel IH]; intros [|x pc] o n; try done. cbn [GetSigOpCount_loop].
  destruct (fRet (GetOp2 (x :: pc))); [|done].
  destruct (_ || _); [apply IH|]. destruct (_ || _); [|apply IH]. destruct (acc && _ && _); [|apply IH].
  unfold DecodeOP_N. destruct (o =? OP_0); [apply IH|]. destruct (assert_that _) as [[]| | |] eqn:Ea.
  all: unfold assert_that in *; destruct (_ && _); try done. apply IH.
Qed.

Lemma sigops_ok {E} script :
  size script < 2 ^ 27 → GetSigOpCount (E:=E) script false = Ok (sigops script) ∧ 0 ≤ sigops script ≤ 20 * size script.
Proof.
  intros Hs. unfold sigops, GetSigOpCount. rewrite (GetSigOpCount_loop_err (E:=unit) (E':=E)).
  destruct (GetSigOpCount_loop_ok (E:=unit) (length script) false script OP_INVALIDOPCODE 0) as (n & -> & Hb); [done|lia|unfold size in *; lia|].
  cbn. split; [done|lia].
Qed.

Lemma add_sigops_fold {E A} (get : A → list Z) l n :
  0 ≤ n → n + 20 * sum_Z (λ x, size (get x)) l < 2 ^ 31 →
  fold_left (add_sigops (E:=E) get) l (Ok n) = Ok (n + sum_Z (λ x, sigops (get x)) l) ∧
  0 ≤ sum_Z (λ x, sigops (get x)) l ≤ 20 * sum_Z (λ x, size (get x)) l.
Proof.
  revert n. induction l as [|x l IH]; intros n Hn Hs; cbn [fold_left sum_Z foldr] in *.
  { rewrite Z.add_0_r. split; [done|lia]. }
  fold (sum_Z (λ x, size (get x)) l) in *. fold (sum_Z (λ x, sigops (get x)) l).
  assert (0 ≤ sum_Z (λ x, size (get x)) l) as Hp by (apply (sum_Z_bounds _ (λ x, size (get x))); intros; unfold size; lia).
  assert (0 ≤ size (get x)) as Hx by (unfold size; lia).
  destruct (sigops_ok (E:=E) (get x)) as [E1 Hb]; [lia|]. cbn [add_sigops mbind outcome_bind]. rewrite E1. cbn [mbind outcome_bind].
  rewrite u32_id by (unfold is_u; lia). destruct (IH (n + sigops (get x))) as [-> Hb']; [lia|lia|]. split; [f_equal; lia|lia].
Qed.

(** All scripts of a transaction, and of the block, are in its serialization. *)
Definition script_bytes (tx : CTransaction) : Z :=
  sum_Z (λ i, size (scriptSig i)) (vin tx) + sum_Z (λ o, size (scriptPubKey o)) (vout tx).

Lemma size_nonneg (l : list Z) : 0 ≤ size l.
Proof. unfold size. lia. Qed.

Lemma size_ser_vector {A} (w : A → list Z) (f : A → Z) l : (∀ x, f x ≤ size (w x)) → sum_Z f l ≤ size (ser_vector w l).
Proof.
  intros H. unfold ser_vector. rewrite size_app. pose proof (size_nonneg (WriteCompactSize (Z.of_nat (length l)))).
  enough (sum_Z f l ≤ size (concat (map w l))) by lia. clear -H. induction l as [|x l IH]; [done|].
  cbn [map concat]. rewrite size_app. specialize (H x). unfold sum_Z in *. cbn [foldr]. lia.
Qed.

Lemma script_bytes_size tx : script_bytes tx ≤ size (ser tx).
Proof.
  change (ser tx) with (ser_tx tx). unfold script_bytes, ser_tx. rewrite !size_app.
  assert (sum_Z (λ i, size (scriptSig i)) (vin tx) ≤ size (ser (vin tx))).
  { apply size_ser_vector. intros i. change (size (scriptSig i) ≤ size (ser_txin i)). unfold ser_txin, ser_blob. rewrite !size_app. unfold size. lia. }
  assert (sum_Z (λ o, size (scriptPubKey o)) (vout tx) ≤ size (ser (vout tx))).
  { apply size_ser_vector. intros o. change (size (scriptPubKey o) ≤ size (ser_txout o)). unfold ser_txout, ser_blob. rewrite !size_app. unfold size. lia. }
  pose proof (size_nonneg (WRITEDATA 4 (nVersion tx))). pose proof (size_nonneg (WRITEDATA 4 (nLockTime tx))). lia.
Qed.
Lemma script_bytes_nonneg tx : 0 ≤ script_bytes tx.
Proof.
  unfold script_bytes. assert (∀ A (f : A → list Z) l, 0 ≤ sum_Z (λ x, size (f x)) l) as H.
  { intros A f l. apply (sum_Z_bounds _ (λ x, size (f x))). intros. unfold size. lia. }
  pose proof (H _ scriptSig (vin tx)). pose proof (H _ scriptPubKey (vout tx)). lia.
Qed.

Lemma block_script_bytes b : sum_Z script_bytes (vtx b) ≤ size (ser_block b).
Proof.
  unfold ser_block. rewrite !size_app. assert (sum_Z script_bytes (vtx b) ≤ size (ser (vtx b))).
  { apply size_ser_vector. intros tx. apply script_bytes_size. }
  pose proof (size_nonneg (ser_header (header b))).
  pose proof (size_nonneg (if block_IsProofOfStake (vtx b) then ser_blob (vchBlockSig b) else [])). lia.
Qed.

Lemma GetLegacySigOpCount_ok {E} tx :
  script_bytes tx < 2 ^ 26 → GetLegacySigOpCount (E:=E) tx = Ok (legacy_sigops tx) ∧ 0 ≤ legacy_sigops tx ≤ 20 * script_bytes tx.
Proof.
  unfold script_bytes. intros Hs. unfold GetLegacySigOpCount, legacy_sigops.
  assert (∀ A (f : A → list Z) l, 0 ≤ sum_Z (λ x, size (f x)) l) as Hp.
  { intros A f l. apply (sum_Z_bounds _ (λ x, size (f x))). intros. unfold size. lia. }
  pose proof (Hp _ scriptSig (vin tx)). pose proof (Hp _ scriptPubKey (vout tx)).
  destruct (add_sigops_fold (E:=E) scriptSig (vin tx) 0) as [-> H1]; [lia|lia|].
  destruct (add_sigops_fold (E:=E) scriptPubKey (vout tx) (0 + sum_Z (λ i, sigops (scriptSig i)) (vin tx))) as [-> H2]; [lia|lia|].
  split; [f_equal; lia|lia].
Qed.

Lemma block_sigops_ok txs n :
  0 ≤ n → n + 20 * sum_Z script_bytes txs < 2 ^ 30 → block_sigops txs n = Ok (n + sum_Z legacy_sigops txs) ∧ 0 ≤ sum_Z legacy_sigops txs.
Proof.
  revert n. induction txs as [|tx txs IH]; intros n Hn Hs; cbn [block_sigops sum_Z foldr] in *.
  { rewrite Z.add_0_r. split; [done|lia]. }
  fold (sum_Z script_bytes txs) in *. fold (sum_Z legacy_sigops txs).
  assert (0 ≤ sum_Z script_bytes txs) by (apply (sum_Z_bounds _ script_bytes); intros x; pose proof (script_bytes_nonneg x); lia).
  pose proof (script_bytes_nonneg tx). destruct (GetLegacySigOpCount_ok (E:=block_reject) tx) as [-> Hb]; [lia|]. cbn [mbind outcome_bind].
  rewrite u32_id by (unfold is_u; lia). destruct (IH (n + legacy_sigops tx)) as [-> ?]; [lia|lia|]. split; [f_equal; lia|lia].
Qed.

(** ** What [CheckBlock] accepts *)

(** The rules, as the program means them. *)
Definition generation_ok (txs : list CTransaction) : Prop :=
  ∃ cb rest, txs = cb :: rest ∧ IsCoinBase cb = true ∧ Forall (λ tx, IsCoinBase tx = false) rest ∧
    (block_IsProofOfStake txs = true →
     (∃ o, vout cb = [o] ∧ CTxOut_IsEmpty o = true) ∧ Forall (λ tx, IsCoinStake tx = false) (tail rest)).
Definition locks_ok (env : node_env) (txs : list CTransaction) : Prop :=
  swifttx_filtering env = true →
  ∀ tx i h, tx ∈ txs → IsCoinBase tx = false → i ∈ vin tx → mapLockedInputs env !! prevout i = Some h → h = tx_hash tx.
Definition payee_ok (env : node_env) (b : CBlock) : Prop :=
  ∀ p tip, list.last (chainActive env) = Some (Some p) → mapBlockIndex env !! p = Some tip → initial_download env = false →
    height_by_prev env p tip (hashPrevBlock (header b)) = 0 ∨
    payee_valid env b (height_by_prev env p tip (hashPrevBlock (header b))) = true.

Record block_valid (params : CChainParams) (maxm : Z) (GetHash : CBlockHeader → Z) (env : node_env) (merkle : bool) (b : CBlock) : Prop := {
  bv_work : block_IsProofOfStake (vtx b) = false → CheckProofOfWork params (uint256_limbs (GetHash (header b))) (h_nBits (header b)) = true;
  bv_time : h_nTime (header b) ≤ adjusted_time env + (if block_IsProofOfStake (vtx b) then 180 else 7200);
  bv_merkle : merkle = true → hashMerkleRoot (header b) = merkle_root (tx_hash <$> vtx b) ∧
                Forall (λ l, ends_in_pair l = false) (merkle_levels (tx_hash <$> vtx b));
  bv_size : size (ser_block b) ≤ MAX_BLOCK_SIZE ∧ Z.of_nat (length (vtx b)) ≤ MAX_BLOCK_SIZE;
  bv_generation : generation_ok (vtx b);
  bv_locks : locks_ok env (vtx b);
  bv_payee : payee_ok env b;
  bv_txs : Forall (tx_valid maxm) (vtx b);
  bv_sigops : sum_Z legacy_sigops (vtx b) ≤ MAX_BLOCK_SIGOPS
}.

(** The chain's tip is in the block index. *)
Definition env_ok (env : node_env) : Prop := ∀ p, list.last (chainActive env) = Some (Some p) → is_Some (mapBlockIndex env !! p).

Lemma check_generation_spec txs : returns (check_generation txs) ∧ (check_generation txs = Ok tt ↔ generation_ok txs).
Proof.
  unfold check_generation, generation_ok. destruct txs as [|cb rest].
  { split; [done|]. split; [done|]. by intros (? & ? & ? & _). }
  assert (∀ P : Prop, (∃ cb' rest', cb :: rest = cb' :: rest' ∧ IsCoinBase cb' = true ∧ Forall (λ tx, IsCoinBase tx = false) rest' ∧
    (P → (∃ o, vout cb' = [o] ∧ CTxOut_IsEmpty o = true) ∧ Forall (λ tx, IsCoinStake tx = false) (tail rest'))) ↔
    (IsCoinBase cb = true ∧ existsb IsCoinBase rest = false ∧ (P → (∃ o, vout cb = [o] ∧ CTxOut_IsEmpty o = true) ∧ existsb IsCoinStake (tail rest) = false))) as ->.
  { intros P. rewrite !existsb_false. split; [intros (? & ? & [= <- <-] & ?); done|eauto]. }
  destruct (IsCoinBase cb); cbn [negb]; [|split; [done|naive_solver]].
  destruct (existsb IsCoinBase rest); [split; [done|naive_solver]|].
  destruct (block_IsProofOfStake (cb :: rest)) eqn:Es; cbn [negb]; [|split; [done|naive_solver]].
  destruct (vout cb) as [|o [|]]; [split; [done|]; split; [done|naive_solver]| |split; [done|]; split; [done|naive_solver]].
  destruct (CTxOut_IsEmpty o) eqn:Eo; cbn [negb].
  2: { split; [done|]. split; [done|]. intros (_ & _ & H). destruct (H eq_refl) as [(? & [= <-] & ?) _]. congruence. }
  destruct rest as [|stake rest]; [discriminate Es|]. cbn [block_IsProofOfStake] in Es. rewrite Es. cbn [negb tail].
  destruct (existsb IsCoinStake rest); (split; [done|]); (split; [intros H|intros (_ & _ & H)]); try done.
  - by destruct (H eq_refl) as [_ ?].
  - split_and!; [done..|]. intros _. split; [by exists o|done].
Qed.

Lemma check_locks_spec env txs : returns (check_locks env txs) ∧ (check_locks env txs = Ok tt ↔ locks_ok env txs).
Proof.
  unfold check_locks, locks_ok. destruct (swifttx_filtering env); [|by split].
  destruct (existsb _ txs) eqn:Ex; (split; [done|]).
  - split; [done|]. intros H. apply existsb_exists in Ex as (tx & Hin & [Hcb (i & Hi & Hc)%existsb_exists]%andb_prop).
    apply list_elem_of_In in Hin, Hi. apply negb_true_iff in Hcb. unfold lock_conflict in Hc.
    destruct (mapLockedInputs env !! prevout i) as [h|] eqn:El; [|done]. 
    assert (h = tx_hash tx) as -> by (by eapply H). rewrite Z.eqb_refl in Hc. discriminate Hc.
  - split; [|done]. intros _ _ tx i h Hin Hcb Hi Hl. apply existsb_false in Ex. rewrite list.Forall_forall in Ex. specialize (Ex tx Hin).
    rewrite Hcb in Ex. cbn [negb andb] in Ex. apply existsb_false in Ex. rewrite list.Forall_forall in Ex. specialize (Ex i Hi).
    unfold lock_conflict in Ex. rewrite Hl in Ex. by apply negb_false_iff, Z.eqb_eq in Ex.
Qed.

Lemma check_payee_spec env b : env_ok env → returns (check_payee env b) ∧ (check_payee env b = Ok tt ↔ payee_ok env b).
Proof.
  intros He. unfold check_payee, payee_ok, Tip. destruct (list.last (chainActive env)) as [[p|]|] eqn:El; cbn [no_err mbind outcome_bind]; [|by split..].
  destruct (He p El) as [tip Et]. unfold deref. rewrite Et. cbn [mbind outcome_bind].
  assert (∀ P : Z → CBlockIndex → Prop, (∀ p' tip', Some (Some p) = Some (Some p') → mapBlockIndex env !! p' = Some tip' → P p' tip') ↔ P p tip) as ->
    by (intros P; split; [intros H; by apply H|intros HP p' tip' [= <-]; rewrite Et; by intros [= <-]]).
  destruct (initial_download env); cbn [negb]; [rewrite andb_false_r; by split|]. rewrite andb_true_r.
  destruct (Z.eqb_spec (height_by_prev env p tip (hashPrevBlock (header b))) 0); cbn [negb]; [split; [done|]; split; [by left|done]|].
  destruct (payee_valid env b _); cbn [negb]; split; try done; naive_solver.
Qed.

Lemma check_transactions_spec maxm txs :
  0 ≤ maxm < 2 ^ 62 → returns (check_transactions maxm txs) ∧ (check_transactions maxm txs = Ok tt ↔ Forall (tx_valid maxm) txs).
Proof.
  intros Hm. induction txs as [|tx txs [IHr IH]]; [by split|]. cbn [check_transactions]. pose proof (CheckTransaction_returns maxm tx Hm) as Hr.
  rewrite list.Forall_cons, <- (CheckTransaction_valid maxm tx Hm). apply returns_spec in Hr as [[[] ->]|[e ->]]; cbn [map_err mbind outcome_bind].
  - split; [done|]. rewrite IH. naive_solver.
  - split; [done|]. naive_solver.
Qed.

Lemma check_merkle_spec txs root (merkle : bool) (r : outcome block_reject unit) :
  r = (if merkle then
         '(root', mutated, _) ← no_err (BuildMerkleTree (tx_hash <$> txs));
         if negb (root =? root') then Err BadMerkleRoot else if mutated : bool then Err DuplicateTransaction else Ok tt
       else Ok tt) →
  returns r ∧ (r = Ok tt ↔ (merkle = true → root = merkle_root (tx_hash <$> txs) ∧ Forall (λ l, ends_in_pair l = false) (merkle_levels (tx_hash <$> txs)))).
Proof.
  intros ->. destruct merkle; [|by split]. rewrite BuildMerkleTree_eq. cbn [no_err mbind outcome_bind]. rewrite <- existsb_false.
  destruct (Z.eqb_spec root (merkle_root (tx_hash <$> txs))); cbn [negb]; [|split; [done|naive_solver]].
  destruct (existsb _ _); split; try done; naive_solver.
Qed.

(** A check passed, then the rest. *)
Lemma check_then (m m' : outcome block_reject unit) (P Q R : Prop) :
  returns m → (m = Ok tt ↔ P) → (P → returns m' ∧ (m' = Ok tt ↔ Q)) → (R ↔ P ∧ Q) → returns (_ ← m; m') ∧ ((_ ← m; m') = Ok tt ↔ R).
Proof.
  intros Hm HP H ->. apply returns_spec in Hm as [[[] ->]|[e ->]]; cbn [mbind outcome_bind].
  - pose proof (proj1 HP eq_refl) as p. destruct (H p) as [? ->]. naive_solver.
  - split; [done|]. naive_solver.
Qed.
Lemma check_test (c : bool) (m' : outcome block_reject unit) e (P Q R : Prop) :
  (c = false ↔ P) → (P → returns m' ∧ (m' = Ok tt ↔ Q)) → (R ↔ P ∧ Q) →
  returns (if c then Err e else m') ∧ ((if c then Err e else m') = Ok tt ↔ R).
Proof. intros HP H ->. destruct c; [split; [done|]; naive_solver|]. pose proof (proj1 HP eq_refl) as p. destruct (H p) as [? ->]. naive_solver. Qed.

Lemma CheckBlock_valid params maxm GetHash env b merkle :
  0 ≤ maxm < 2 ^ 62 → env_ok env →
  returns (CheckBlock params maxm GetHash env b merkle) ∧
  (CheckBlock params maxm GetHash env b merkle = Ok tt ↔ block_valid params maxm GetHash env merkle b).
Proof.
  intros Hm He. unfold CheckBlock.
  set (work := block_IsProofOfStake (vtx b) = false → CheckProofOfWork params (uint256_limbs (GetHash (header b))) (h_nBits (header b)) = true).
  set (time := h_nTime (header b) ≤ adjusted_time env + (if block_IsProofOfStake (vtx b) then 180 else 7200)).
  set (mrk := merkle = true → hashMerkleRoot (header b) = merkle_root (tx_hash <$> vtx b) ∧
                Forall (λ l, ends_in_pair l = false) (merkle_levels (tx_hash <$> vtx b))).
  set (len := vtx b ≠ [] ∧ size (ser_block b) ≤ MAX_BLOCK_SIZE ∧ Z.of_nat (length (vtx b)) ≤ MAX_BLOCK_SIZE).
  apply (check_then _ _ work (time ∧ mrk ∧ len ∧ generation_ok (vtx b) ∧ locks_ok env (vtx b) ∧ payee_ok env b ∧
    Forall (tx_valid maxm) (vtx b) ∧ sum_Z legacy_sigops (vtx b) ≤ MAX_BLOCK_SIGOPS)).
  - unfold CheckBlockHeader. by destruct (_ && _).
  - unfold CheckBlockHeader, work. destruct (block_IsProofOfStake (vtx b)); cbn [negb andb]; [done|]. destruct (CheckProofOfWork _ _ _); cbn [negb]; naive_solver.
  - intros _. eapply check_test; [unfold header_GetBlockTime; rewrite Z.ltb_ge; reflexivity| |reflexivity]. intros _.
    destruct (check_merkle_spec (vtx b) (hashMerkleRoot (header b)) merkle _ eq_refl) as [Hr Hiff].
    eapply check_then; [exact Hr|exact Hiff| |reflexivity]. intros _.
    eapply (check_test _ _ _ len); [|intros (_ & Hs & _)|reflexivity].
    { unfold len. rewrite !orb_false_iff, Z.eqb_neq, !Z.ltb_ge. destruct (vtx b); cbn [length]; naive_solver lia. }
    destruct (check_generation_spec (vtx b)) as [Hgr Hg]. eapply check_then; [exact Hgr|exact Hg| |reflexivity]. intros _.
    destruct (check_locks_spec env (vtx b)) as [Hlr Hl]. eapply check_then; [exact Hlr|exact Hl| |reflexivity]. intros _.
    destruct (check_payee_spec env b He) as [Hpr Hp]. eapply check_then; [exact Hpr|exact Hp| |reflexivity]. intros _.
    destruct (check_transactions_spec maxm (vtx b) Hm) as [Htr Ht]. eapply check_then; [exact Htr|exact Ht| |reflexivity]. intros _.
    pose proof (block_script_bytes b). destruct (block_sigops_ok (vtx b) 0) as [-> ?]; [lia|unfold MAX_BLOCK_SIZE in *; lia|]. cbn [mbind outcome_bind].
    rewrite Z.add_0_l. destruct (Z.ltb_spec MAX_BLOCK_SIGOPS (sum_Z legacy_sigops (vtx b))); (split; [done|]); split; done || lia.
  - unfold work, time, mrk, len. split.
    + intros [? ? ? [? ?] Hg ? ? ? ?]. split_and!; try done. by destruct Hg as (? & ? & -> & _).
    + intros (? & ? & ? & (? & ? & ?) & ? & ? & ? & ? & ?). by constructor.
Qed.

(** ** The wire format of blocks *)

Definition header_ok (h : CBlockHeader) : Prop :=
  is_s 32 (h_nVersion h) ∧ is_u 256 (hashPrevBlock h) ∧ is_u 256 (hashMerkleRoot h) ∧
  is_u 32 (h_nTime h) ∧ is_u 32 (h_nBits h) ∧ is_u 32 (nNonce h).
Definition block_ok (b : CBlock) : Prop :=
  header_ok (header b) ∧ ser_ok (vtx b) ∧ (if block_IsProofOfStake (vtx b) then script_ok (vchBlockSig b) else vchBlockSig b = []).

#[export] Program Instance serial_header : Serial CBlockHeader := {|
  ser := ser_header; unser := unser_header; ser_ok := header_ok |}.
Next Obligation.
  intros h (_ & Hp & Hm & _). unfold ser_header. rewrite !Forall_app. split_and!; apply bytes_ok_WRITEDATA.
Qed.
Next Obligation.
  intros [v p m t b n] rest (Hv & Hp & Hm & Ht & Hb & Hn). unfold ser_header, unser_header.
  cbn [h_nVersion hashPrevBlock hashMerkleRoot h_nTime h_nBits nNonce] in *. by do 6 unser_step.
Qed.

#[export] Program Instance serial_block : Serial CBlock := {|
  ser := ser_block; unser := unser_block; ser_ok := block_ok |}.
Next Obligation.
  intros b (Hh & Hv & Hs). unfold ser_block. rewrite !Forall_app. split_and!; [exact (ser_bytes (Serial:=serial_header) (header b) Hh)|by apply ser_bytes|].
  destruct (block_IsProofOfStake (vtx b)); [|done]. by apply bytes_ok_ser_blob, Hs.
Qed.
Next Obligation.
  intros [h v s] rest (Hh & Hv & Hs). unfold ser_block, unser_block. cbn [header vtx vchBlockSig] in *. rewrite <- !app_assoc.
  change (unser_header (ser_header h ++ ?r)) with (unser (A:=CBlockHeader) (ser h ++ r)).
  change unser_header with (unser (A:=CBlockHeader)). change (ser_header h) with (ser h). do 2 unser_step.
  destruct (block_IsProofOfStake v); [by unser_step|]. by subst.
Qed.

Lemma unser_ser_block b rest : block_ok b → unser_block (ser_block b ++ rest) = Ok (b, rest).
Proof. exact (unser_ser (A:=CBlock) b rest). Qed.

(** ** Signatures of proof-of-stake blocks *)

Lemma GetLen_values x : GetLen x = 0 ∨ GetLen x = 33 ∨ GetLen x = 65.
Proof. unfold GetLen. repeat case_match; auto. Qed.
Lemma hash_is_no_key h : size h = 20 → CPubKey_of h = [].
Proof.
  intros Hh. unfold CPubKey_of. destruct h as [|x h]; [done|]. rewrite Hh.
  destruct (GetLen_values x) as [->|[-> | ->]]; done.
Qed.

Lemma Solver_type script ok t sols :
  Solver script = Ok (ok, t, sols) → ok = true → standard script t sols.
Proof. intros E ->. destruct (Solver_spec script) as (ok' & t' & sols' & E' & H). rewrite E in E'. injection E' as <- <- <-. by apply H. Qed.

Section SignatureProofs.
Context (GetHash : CBlockHeader → Z) (Verify : list Z → Z → list Z → bool).

Lemma CheckBlockSignature_spec b :
  CheckBlockSignature GetHash Verify b = Ok true ↔
  (block_IsProofOfStake (vtx b) = false ∧ vchBlockSig b = []) ∨
  (block_IsProofOfStake (vtx b) = true ∧
   ∃ o k, stake_output b = Ok o ∧ standard (scriptPubKey o) TX_PUBKEY [k] ∧ check_key GetHash Verify b k = true).
Proof.
  unfold CheckBlockSignature, block_IsProofOfWork. destruct (block_IsProofOfStake (vtx b)); cbn [negb].
  2: { destruct (vchBlockSig b); naive_solver. }
  destruct (stake_output b) as [o| | |]; cbn [mbind outcome_bind]; [|naive_solver..].
  destruct (Solver_spec (scriptPubKey o)) as (ok & t & sols & -> & H). cbn [mbind outcome_bind]. destruct ok; cbn [negb]; cycle 1.
  { split; [done|]. intros [[]|(_ & o' & k & [= <-] & Hs & _)]; [done|]. by apply H in Hs as [? _]. }
  assert (∀ k, standard (scriptPubKey o) TX_PUBKEY [k] ↔ t = TX_PUBKEY ∧ sols = [k]) as Hk by (intros k; rewrite <- H; naive_solver).
  destruct (proj1 (H t sols) ltac:(done)) as [h Hh Eh|rest ops Er|o' k Hkey Hd|o' h Hh Hd|im m keys i n Hm Hn]; cbn [solution0 mbind outcome_bind].
  - split; [done|]. intros [[]|(_ & o1 & k & [= <-] & Hs%Hk & _)]; [done|]. by destruct Hs.
  - split; [done|]. intros [[]|(_ & o1 & k & [= <-] & Hs%Hk & _)]; [done|]. by destruct Hs.
  - split.
    + intros [= Hc]. right. split; [done|]. exists o, k. split_and!; [done|by apply Hk|done].
    + intros [[]|(_ & o1 & k1 & [= <-] & Hs%Hk & Hc)]; [done|]. destruct Hs as [_ [= <-]]. by rewrite Hc.
  - unfold uint160_of. rewrite Hh. cbn [negb Z.eqb mbind outcome_bind]. cbn. unfold check_key. rewrite (hash_is_no_key h Hh). change (CPubKey_IsValid []) with false. cbn [negb]. split; [done|].
    intros [[]|(_ & o1 & k1 & [= <-] & Hs%Hk & Hc)]; [done|]. by destruct Hs.
  - split; [done|]. intros [[]|(_ & o1 & k & [= <-] & Hs%Hk & _)]; [done|]. by destruct Hs.
Qed.
End SignatureProofs.

(** ** Subsidy *)

Lemma GetBlockValue_spec h :
  0 ≤ h → h ≠ 1 →
  GetBlockValue h = if h <? 64 * 525600 then Ok (Z.max 125000000 (10 * COIN / 2 ^ (h / 525600))) else AssertFail.
Proof.
  intros Hh H1. unfold GetBlockValue. rewrite (proj2 (Z.eqb_neq _ _)) by done. unfold int64_shr.
  rewrite Z.quot_div_nonneg by lia. rewrite (proj2 (Z.leb_le 0 _)) by (apply Z.div_pos; lia). cbn [andb].
  assert (h / 525600 < 64 ↔ h < 64 * 525600) as Hiff by (split; intros; [apply Z.nle_gt; intros Hc; apply (Z.div_le_mono _ _ 525600) in Hc; [rewrite Z.div_mul in Hc; lia|lia]|apply Z.div_lt_upper_bound; lia]).
  destruct (Z.ltb_spec (h / 525600) 64), (Z.ltb_spec h (64 * 525600)); try (exfalso; lia); [|done].
  cbn [mbind outcome_bind]. rewrite Z.shiftr_div_pow2 by (apply Z.div_pos; lia). f_equal.
  destruct (Z.ltb_spec (10 * COIN / 2 ^ (h / 525600)) 125000000); lia.
Qed.

(** ** Properties *)

(** C36: [CheckBlock] always returns, and accepts exactly the blocks that follow
    the rules: proof of work unless it is a proof-of-stake block, a time not too
    far ahead, the merkle root of its transactions and no level of the tree that
    ends in a repeated pair, the size limits, one coinbase in front (empty, with
    one coinstake behind it, in a proof-of-stake block), no conflict with a locked
    input, a valid payee, valid transactions, and at most [MAX_BLOCK_SIGOPS]
    signature operations -- counted without wrapping around. *)
Theorem CheckBlock_spec params maxm GetHash env b merkle :
  0 ≤ maxm < 2 ^ 62 → env_ok env →
  returns (CheckBlock params maxm GetHash env b merkle) ∧
  (CheckBlock params maxm GetHash env b merkle = Ok tt ↔ block_valid params maxm GetHash env merkle b).
Proof. apply CheckBlock_valid. Qed.

Definition empty_env : node_env := NodeEnv 1744156800 ∅ [] false ∅ false (λ _ _, true).

Lemma CheckBlock_spec_witness :
  let params := ChainParams uint256_max 10000 120 true in
  CheckBlock params (33000000 * COIN) (λ _, 0) empty_env genesis_block true = Ok tt ∧
  block_valid params (33000000 * COIN) (λ _, 0) empty_env true genesis_block.
Proof.
  cbn zeta.
  assert (CheckBlock (ChainParams uint256_max 10000 120 true) (33000000 * COIN) (λ _, 0) empty_env genesis_block true = Ok tt) as H
    by (vm_compute; reflexivity).
  split; [exact H|]. apply (CheckBlock_spec (ChainParams uint256_max 10000 120 true) (33000000 * COIN) (λ _, 0) empty_env genesis_block true).
  - unfold COIN; lia.
  - intros p Hp. discriminate Hp.
  - exact H.
Defined.

(** A block's signature is accepted exactly when it is a proof-of-work block
    without one, or a proof-of-stake block whose stake output pays to a public key
    that verifies it.  A stake output that pays to a key's hash is signed by
    [SignBlock], and the block that results is refused, whatever the signature. *)
Theorem stake_signature GetHash Verify {key} (GetKey : list Z → option key) Sign b :
  (CheckBlockSignature GetHash Verify b = Ok true ↔
    (block_IsProofOfStake (vtx b) = false ∧ vchBlockSig b = []) ∨
    (block_IsProofOfStake (vtx b) = true ∧
     ∃ o k, stake_output b = Ok o ∧ standard (scriptPubKey o) TX_PUBKEY [k] ∧ check_key GetHash Verify b k = true)) ∧
  (∀ o h k sig, block_IsProofOfStake (vtx b) = true → stake_output b = Ok o → standard (scriptPubKey o) TX_PUBKEYHASH [h] →
    GetKey h = Some k → Sign k (GetHash (header b)) = Some sig →
    SignBlock GetHash GetKey Sign b = Ok (true, sig) ∧
    ∀ sig', CheckBlockSignature GetHash Verify (Block (header b) (vtx b) sig') = Ok false).
Proof.
  split; [apply CheckBlockSignature_spec|]. intros o h k sig Hs Ho Hstd Hk Hsig. pose proof (Solver_standard _ _ _ Hstd) as Hsol.
  assert (size h = 20) as Hh by (by inversion Hstd). split.
  - unfold SignBlock. rewrite Hs. cbn [negb]. rewrite Ho. cbn [mbind outcome_bind]. rewrite Hsol. cbn [mbind outcome_bind negb solution0].
    unfold uint160_of. rewrite Hh. cbn. unfold sign_with. by rewrite Hk, Hsig.
  - intros sig'. unfold CheckBlockSignature, block_IsProofOfWork. cbn [vtx]. rewrite Hs. cbn [negb].
    change (stake_output (Block (header b) (vtx b) sig')) with (stake_output b). rewrite Ho. cbn [mbind outcome_bind]. rewrite Hsol.
    cbn [mbind outcome_bind negb solution0]. unfold uint160_of. rewrite Hh. cbn. unfold check_key. by rewrite hash_is_no_key.
Qed.

Definition stake_block (script : list Z) : CBlock :=
  Block CBlockHeader_new
    [Tx 1 1 [TxIn COutPoint_null [OP_0; OP_0] UINT32_MAX []] [TxOut 0 [] (-10)] 0;
     Tx 2 1 [TxIn (OutPoint 7 0) [] UINT32_MAX []] [TxOut 0 [] (-10); TxOut 5 script (-10)] 0] [].

Lemma stake_signature_witness :
  let b := stake_block (GetScriptForDestination (CKeyID (replicate 20 9))) in
  SignBlock (λ _, 4) (λ h, Some h) (λ k _, Some k) b = Ok (true, replicate 20 9) ∧
  CheckBlockSignature (λ _, 4) (λ _ _ _, true) (Block (header b) (vtx b) (replicate 20 9)) = Ok false.
Proof.
  cbn zeta.
  destruct (stake_signature (λ _, 4) (λ _ _ _, true) (λ h, Some h) (λ k _, Some k) (stake_block (GetScriptForDestination (CKeyID (replicate 20 9))))) as [_ H].
  destruct (H (TxOut 5 (GetScriptForDestination (CKeyID (replicate 20 9))) (-10)) (replicate 20 9) (replicate 20 9) (replicate 20 9)) as [H1 H2].
  - reflexivity.
  - reflexivity.
  - exact (destination_standard (CKeyID (replicate 20 9)) eq_refl).
  - reflexivity.
  - reflexivity.
  - split; [exact H1|apply H2].
Defined.

(** A block the wire can carry is read back from its bytes, whatever follows;
    its signature travels only with a proof-of-stake block. *)
Theorem block_roundtrip (b : CBlock) (rest : list Z) :
  block_ok b → unser_block (ser_block b ++ rest) = Ok (b, rest) ∧ bytes_ok (ser_block b).
Proof. intros Hb. split; [by apply unser_ser_block|by apply (ser_bytes (Serial:=serial_block))]. Qed.

Lemma block_roundtrip_witness : unser_block (ser_block genesis_block ++ [7]) = Ok (genesis_block, [7]).
Proof.
  apply (block_roundtrip genesis_block [7]). split; [unfold header_ok; by_decision|]. split; [|reflexivity].
  repeat constructor; by_decision.
Defined.

(** Below the height where the shift becomes undefined the subsidy of a block
    is defined and between 1.25 and 10 coins, block 1 apart, and never rises. *)
Theorem GetBlockValue_bounded (h h' : Z) :
  2 ≤ h ≤ h' → h' < 64 * 525600 →
  ∃ v v', GetBlockValue h = Ok v ∧ GetBlockValue h' = Ok v' ∧ 125000000 ≤ v' ≤ v ∧ v ≤ 10 * COIN.
Proof.
  intros Hh Hh'. rewrite !GetBlockValue_spec by lia. rewrite !(proj2 (Z.ltb_lt _ _)) by lia. do 2 eexists. split_and!; [done..| | |].
  - lia.
  - apply Z.max_le_compat_l, Z.div_le_compat_l; [unfold COIN; lia|]. pose proof (Z.div_pos h 525600).
    split; [apply Z.pow_pos_nonneg; lia|]. apply Z.pow_le_mono_r; [lia|]. apply Z.div_le_mono; lia.
  - assert (0 < 2 ^ (h / 525600)) by (apply Z.pow_pos_nonneg; [lia|apply Z.div_pos; lia]).
    apply Z.max_lub; [unfold COIN; lia|]. apply Z.div_le_upper_bound; [done|unfold COIN; lia].
Qed.

Lemma GetBlockValue_bounded_witness : ∃ v v', GetBlockValue 525599 = Ok v ∧ GetBlockValue 525600 = Ok v' ∧ 125000000 ≤ v' ≤ v ∧ v ≤ 10 * COIN.
Proof. apply (GetBlockValue_bounded 525599 525600); lia. Defined.
