(* ===== verification/Compressor.v ===== *)
(** * Compressed outputs (compressor.h, compressor.cpp)

    The compact form of amounts and scripts in the coin database and the undo
    files.  The elliptic-curve library is a parameter: [SetPubKey] says whether
    it accepts a key, [GetPubKey] gives the uncompressed form of the key set. *)
From stdpp Require Import base tactics list gmap numbers option.
From Stdlib Require Import ZArith Lia.
From S2P Require Import Prelude.
From S2P Require Import Serialize.
From S2P Require Import ScriptCode.
From S2P Require Import Transaction.
From S2P Require Import SigHash.

(** ** Amounts *)

(** [while (((n % 10) == 0) && e < 9)]: [room] is [9 - e]. *)
Fixpoint strip_zeros (room : nat) (n e : Z) : Z * Z :=
  match room with
  | O => (n, e)
  | S room => if n mod 10 =? 0 then strip_zeros room (n / 10) (e + 1) else (n, e)
  end.

Definition CompressAmount {E} (n : Z) : outcome E Z :=
  if n =? 0 then Ok 0
  else
    let '(n, e) := strip_zeros 9 n 0 in
    if e <? 9 then
      let d := n mod 10 in
      _ ← assert_that ((1 <=? d) && (d <=? 9));
      Ok (u64 (1 + u64 (u64 (u64 (n / 10 * 9) + d - 1) * 10) + e))
    else Ok (u64 (1 + u64 ((n - 1) * 10) + 9)).

Definition DecompressAmount (x : Z) : Z :=
  if x =? 0 then 0
  else
    let x := x - 1 in
    let e := x mod 10 in
    let x := x / 10 in
    let n := if e <? 9 then u64 (u64 (x / 9 * 10) + (x mod 9 + 1)) else u64 (x + 1) in
    Nat.iter (Z.to_nat e) (λ n, u64 (n * 10)) n.

(** ** Scripts *)

Definition IsToKeyID (script : list Z) : option (list Z) :=
  if (size script =? 25) && (byte_at script 0 =? OP_DUP) && (byte_at script 1 =? OP_HASH160) && (byte_at script 2 =? 20)
     && (byte_at script 23 =? OP_EQUALVERIFY) && (byte_at script 24 =? OP_CHECKSIG)
  then Some (take 20 (drop 3 script)) else None.

Definition IsToScriptID (script : list Z) : option (list Z) :=
  if (size script =? 23) && (byte_at script 0 =? OP_HASH160) && (byte_at script 1 =? 20) && (byte_at script 22 =? OP_EQUAL)
  then Some (take 20 (drop 2 script)) else None.

Definition nSpecialScripts : Z := 6.

Definition GetSpecialSize (nSize : Z) : nat :=
  if (nSize =? 0) || (nSize =? 1) then 20
  else if (nSize =? 2) || (nSize =? 3) || (nSize =? 4) || (nSize =? 5) then 32
  else 0.

(** [VARINT(n)], written and read at [w] bits. *)
Definition ser_varint {E} (w n : Z) : outcome E (list Z) :=
  match WriteVarInt w n with Some bs => Ok bs | None => AssertFail end.
Definition unser_varint (w : Z) : reader Z := ReadVarInt w.

Section Compressor.
(** [CECKey::SetPubKey], and [CECKey::GetPubKey(pubkey, false)] after it. *)
Context (SetPubKey : list Z → bool) (GetPubKey : list Z → list Z).

Definition IsFullyValid (pubkey : list Z) : bool := CPubKey_IsValid pubkey && SetPubKey pubkey.

(** [CPubKey::Decompress]: the new key, or [None] for [false]. *)
Definition CPubKey_Decompress (pubkey : list Z) : option (list Z) :=
  if negb (CPubKey_IsValid pubkey) then None
  else if negb (SetPubKey pubkey) then None
  else Some (CPubKey_of (GetPubKey pubkey)).

Definition IsToPubKey (script : list Z) : option (list Z) :=
  if (size script =? 35) && (byte_at script 0 =? 33) && (byte_at script 34 =? OP_CHECKSIG)
     && ((byte_at script 1 =? 0x02) || (byte_at script 1 =? 0x03))
  then Some (CPubKey_of (take 33 (drop 1 script)))
  else if (size script =? 67) && (byte_at script 0 =? 65) && (byte_at script 66 =? OP_CHECKSIG) && (byte_at script 1 =? 0x04)
  then
    let pubkey := CPubKey_of (take 65 (drop 1 script)) in
    if IsFullyValid pubkey then Some pubkey else None
  else None.

Definition Compress (script : list Z) : option (list Z) :=
  match IsToKeyID script with
  | Some keyID => Some (0x00 :: keyID)
  | None =>
      match IsToScriptID script with
      | Some scriptID => Some (0x01 :: scriptID)
      | None =>
          match IsToPubKey script with
          | Some pubkey =>
              if (byte_at pubkey 0 =? 0x02) || (byte_at pubkey 0 =? 0x03)
              then Some (byte_at pubkey 0 :: take 32 (drop 1 pubkey))
              else if byte_at pubkey 0 =? 0x04
              then Some (Z.lor 0x04 (Z.land (byte_at pubkey 64) 0x01) :: take 32 (drop 1 pubkey))
              else None
          | None => None
          end
      end
  end.

(** [Decompress]: the new script; [Ok None] for [false], which leaves the
    script as it was. *)
Definition Decompress {E} (nSize : Z) (vch : list Z) : outcome E (option (list Z)) :=
  if nSize =? 0 then Ok (Some ([OP_DUP; OP_HASH160; 20] ++ take 20 vch ++ [OP_EQUALVERIFY; OP_CHECKSIG]))
  else if nSize =? 1 then Ok (Some ([OP_HASH160; 20] ++ take 20 vch ++ [OP_EQUAL]))
  else if (nSize =? 2) || (nSize =? 3) then Ok (Some ([33; nSize] ++ take 32 vch ++ [OP_CHECKSIG]))
  else if (nSize =? 4) || (nSize =? 5) then
    match CPubKey_Decompress (CPubKey_of (nSize - 2 :: take 32 vch)) with
    | None => Ok None
    | Some pubkey => _ ← assert_that (size pubkey =? 65); Ok (Some (65 :: pubkey ++ [OP_CHECKSIG]))
    end
  else Ok None.

(** [CScriptCompressor]: writing, size, and reading over the script [script0]. *)
Definition ser_compressed_script {E} (script : list Z) : outcome E (list Z) :=
  match Compress script with
  | Some compr => Ok compr
  | None => bs ← ser_varint 32 (u32 (size script + nSpecialScripts)); Ok (bs ++ script)
  end.
Definition compressed_script_size (script : list Z) : Z :=
  match Compress script with
  | Some compr => size compr
  | None => size script + GetSizeOfVarInt 32 (u32 (size script + nSpecialScripts))
  end.
Definition unser_compressed_script (script0 : list Z) : reader (list Z) := λ s,
  '(nSize, s) ← unser_varint 32 s;
  if nSize <? nSpecialScripts then
    '(vch, s) ← stream_read (GetSpecialSize nSize) s;
    r ← Decompress nSize vch;
    Ok (default script0 r, s)
  else stream_read (Z.to_nat (nSize - nSpecialScripts)) s.

(** [CTxOutCompressor]; reading keeps [nRounds]. *)
Definition ser_compressed_txout {E} (o : CTxOut) : outcome E (list Z) :=
  nVal ← CompressAmount (u64 (nValue o));
  bs ← ser_varint 64 nVal;
  sc ← ser_compressed_script (scriptPubKey o);
  Ok (bs ++ sc).
Definition unser_compressed_txout (o : CTxOut) : reader CTxOut := λ s,
  '(nVal, s) ← unser_varint 64 s;
  '(script, s) ← unser_compressed_script (scriptPubKey o) s;
  Ok (TxOut (s64 (DecompressAmount nVal)) script (nRounds o), s).
End Compressor.

Example CompressAmount_coin : CompressAmount (E:=unit) COIN = Ok 9 ∧ DecompressAmount 9 = COIN.
Proof. vm_compute. split; reflexivity. Qed.
Example CompressAmount_fifty : CompressAmount (E:=unit) (50 * COIN) = Ok 0x32 ∧ DecompressAmount 0x32 = 50 * COIN.
Proof. vm_compute. split; reflexivity. Qed.
Example CompressAmount_cent : CompressAmount (E:=unit) CENT = Ok 7 ∧ CompressAmount (E:=unit) (21000000 * COIN) = Ok 0x1406f40.
Proof. vm_compute. split; reflexivity. Qed.

(** ** Amounts round trip *)

Lemma strip_zeros_spec room n e :
  0 < n → let r := strip_zeros room n e in
  0 < r.1 ≤ n ∧ e ≤ r.2 ≤ e + Z.of_nat room ∧ n = r.1 * 10 ^ (r.2 - e) ∧ (r.2 < e + Z.of_nat room → r.1 mod 10 ≠ 0).
Proof.
  revert n e. induction room as [|room IH]; intros n e Hn; cbn [strip_zeros].
  { cbn. rewrite Z.sub_diag. split_and!; lia. }
  destruct (Z.eqb_spec (n mod 10) 0) as [H|H].
  - pose proof (Z.div_mod n 10 ltac:(lia)) as Hd. rewrite H in Hd.
    destruct (IH (n / 10) (e + 1) ltac:(lia)) as (H1 & H2 & H3 & H4).
    set (r := strip_zeros room (n / 10) (e + 1)) in *. split_and!; try lia.
    replace (r.2 - e) with (Z.succ (r.2 - (e + 1))) by lia. rewrite Z.pow_succ_r by lia. nia.
  - cbn. rewrite Z.sub_diag. split_and!; lia.
Qed.

Lemma iter_times10 k n : 0 ≤ n → n * 10 ^ Z.of_nat k < 2 ^ 64 → Nat.iter k (λ n, u64 (n * 10)) n = n * 10 ^ Z.of_nat k.
Proof.
  intros Hn. induction k as [|k IH]; [cbn; lia|]. rewrite Nat2Z.inj_succ, Z.pow_succ_r by lia. intros H.
  pose proof (Z.pow_pos_nonneg 10 (Z.of_nat k) ltac:(lia) ltac:(lia)). change (Nat.iter (S k) ?f ?x) with (f (Nat.iter k f x)).
  rewrite IH by nia. rewrite u64_id; unfold is_u; nia.
Qed.

Lemma amount_roundtrip_gen {E} n :
  0 ≤ n → 9 * n + 9 < 2 ^ 64 → ∃ x, CompressAmount (E:=E) n = Ok x ∧ is_u 64 x ∧ DecompressAmount x = n.
Proof.
  intros Hn Hb. unfold CompressAmount. destruct (Z.eqb_spec n 0) as [->|H0]; [by exists 0|].
  pose proof (strip_zeros_spec 9 n 0 ltac:(lia)) as H. cbn zeta in H.
  destruct (strip_zeros 9 n 0) as [q e]. cbn [fst snd] in H. destruct H as (Hq & He & Hqe & Hd). rewrite Z.sub_0_r in Hqe.
  pose proof (Z.pow_pos_nonneg 10 e ltac:(lia) ltac:(lia)) as Hpow. unfold is_u.
  destruct (Z.ltb_spec e 9).
  - specialize (Hd ltac:(lia)). set (d := q mod 10) in *. assert (1 ≤ d ≤ 9) as Hd' by (pose proof (Z.mod_pos_bound q 10); lia).
    rewrite (proj2 (Z.leb_le 1 d)), (proj2 (Z.leb_le d 9)) by lia. cbn [andb assert_that mbind outcome_bind].
    assert (q = 10 * (q / 10) + d) as Hqd by (apply Z.div_mod; lia). set (m := q / 10) in *.
    rewrite !(u64_id (_ * 9)), !(u64_id (m * 9 + d - 1)), !(u64_id (_ * 10)), u64_id by (unfold is_u; nia).
    eexists. split; [reflexivity|]. split; [nia|]. unfold DecompressAmount.
    rewrite (proj2 (Z.eqb_neq _ _)) by lia. cbn zeta.
    replace (1 + (m * 9 + d - 1) * 10 + e - 1) with (e + (m * 9 + d - 1) * 10) by lia.
    rewrite Z.mod_add, (Z.mod_small e 10), Z.div_add, (Z.div_small e 10) by lia. rewrite (proj2 (Z.ltb_lt e 9)) by lia.
    replace (0 + (m * 9 + d - 1)) with (d - 1 + m * 9) by lia.
    rewrite Z.mod_add, (Z.mod_small (d - 1) 9), Z.div_add, (Z.div_small (d - 1) 9) by lia.
    rewrite (u64_id (_ * 10)), u64_id by (unfold is_u; nia). rewrite iter_times10; rewrite ?Z2Nat.id; nia.
  - assert (e = 9) as -> by lia. rewrite !(u64_id ((q - 1) * 10)), u64_id by (unfold is_u; nia).
    eexists. split; [reflexivity|]. split; [nia|]. unfold DecompressAmount.
    rewrite (proj2 (Z.eqb_neq _ _)) by lia. cbn zeta. replace (1 + (q - 1) * 10 + 9 - 1) with (9 + (q - 1) * 10) by lia.
    rewrite Z.mod_add, (Z.mod_small 9), Z.div_add, (Z.div_small 9) by lia. cbn [Z.ltb Z.compare].
    rewrite Z.ltb_irrefl. rewrite u64_id by (unfold is_u; nia). rewrite iter_times10; rewrite ?Z2Nat.id; nia.
Qed.

(** ** Scripts round trip *)

(** A byte string of known length, cut at a middle slice. *)
Lemma cut_list (l : list Z) a b c :
  length l = (a + b + c)%nat →
  l = (byte_at l <$> seq 0 a) ++ take b (drop a l) ++ (byte_at l <$> seq (a + b) c).
Proof.
  assert (∀ n i, (i + n ≤ length l)%nat → byte_at l <$> seq i n = take n (drop i l)) as Hs.
  { induction n as [|n IH]; intros i Hi; cbn [seq]; [done|].
    destruct (lookup_lt_is_Some_2 l i ltac:(lia)) as [x Hx]. rewrite fmap_cons, IH by lia.
    rewrite (drop_S _ _ _ Hx). unfold byte_at. by rewrite (nth_lookup_Some _ _ _ _ Hx). }
  intros Hl. rewrite !Hs by lia. rewrite drop_0, (take_ge (drop (a + b) l)) by (rewrite length_drop; lia).
  assert (drop (a + b) l = drop b (drop a l)) as -> by (rewrite drop_drop; f_equal; lia). by rewrite !take_drop.
Qed.

(** Splits the tests of a template into equations on the bytes. *)
Ltac template H :=
  repeat match type of H with
  | _ && _ = true => let H' := fresh "T" in apply andb_prop in H as [H H']; apply Z.eqb_eq in H' || idtac
  end.

Lemma IsToKeyID_inv script id :
  IsToKeyID script = Some id →
  length id = 20%nat ∧ script = [OP_DUP; OP_HASH160; 20] ++ id ++ [OP_EQUALVERIFY; OP_CHECKSIG].
Proof.
  unfold IsToKeyID. destruct (_ && _) eqn:H; [|done]. intros [= <-]. template H. apply Z.eqb_eq in H. unfold size in H.
  split; [rewrite length_take, length_drop; lia|]. rewrite (cut_list script 3 20 2) at 1 by lia. cbn. by repeat f_equal.
Qed.

Lemma IsToScriptID_inv script id :
  IsToScriptID script = Some id → length id = 20%nat ∧ script = [OP_HASH160; 20] ++ id ++ [OP_EQUAL].
Proof.
  unfold IsToScriptID. destruct (_ && _) eqn:H; [|done]. intros [= <-]. template H. apply Z.eqb_eq in H. unfold size in H.
  split; [rewrite length_take, length_drop; lia|]. rewrite (cut_list script 2 20 1) at 1 by lia. cbn. by repeat f_equal.
Qed.

(** The template of a pay-to-pubkey script. *)
Lemma IsToPubKey_inv SetPubKey script pubkey :
  IsToPubKey SetPubKey script = Some pubkey →
  (length pubkey = 33%nat ∧ (byte_at pubkey 0 = 2 ∨ byte_at pubkey 0 = 3) ∧ script = [33] ++ pubkey ++ [OP_CHECKSIG]) ∨
  (length pubkey = 65%nat ∧ byte_at pubkey 0 = 4 ∧ SetPubKey pubkey = true ∧ script = [65] ++ pubkey ++ [OP_CHECKSIG]).
Proof.
  assert (∀ n, length (take n (drop 1 script)) = n → (0 < n)%nat → byte_at (take n (drop 1 script)) 0 = byte_at script 1) as Hb.
  { intros n Hn H0. destruct n; [lia|]. destruct script as [|x [|y script]]; simpl in Hn; try lia. done. }
  unfold IsToPubKey. match goal with |- (if ?c then _ else if ?c' then _ else _) = _ → _ =>
    destruct c eqn:H; [|destruct c' eqn:H'; [|done]] end.
  - intros E. left. apply andb_prop in H as [H Hor]. template H. apply Z.eqb_eq in H. unfold size in H.
    set (k := take 33 (drop 1 script)) in *. assert (length k = 33%nat) as Hk by (unfold k; rewrite length_take, length_drop; lia).
    pose proof (Hb 33%nat Hk ltac:(lia)) as Hk0. fold k in Hk0.
    assert (CPubKey_of k = k) as Ek.
    { destruct k as [|b k'] eqn:Ekk; [done|]. unfold CPubKey_of. change (byte_at (b :: k') 0) with b in Hk0. unfold size. rewrite Hk.
      apply orb_true_iff in Hor. rewrite !Z.eqb_eq in Hor. rewrite <- Hk0 in Hor. by destruct Hor as [->| ->]. }
    rewrite Ek in E. injection E as <-. rewrite Hk0. apply orb_true_iff in Hor. rewrite !Z.eqb_eq in Hor.
    split_and!; [done|done|]. rewrite (cut_list script 1 33 1) by lia. cbn. by repeat f_equal.
  - intros E. right. template H'. apply Z.eqb_eq in H'. unfold size in H'.
    set (k := take 65 (drop 1 script)) in *. assert (length k = 65%nat) as Hk by (unfold k; rewrite length_take, length_drop; lia).
    pose proof (Hb 65%nat Hk ltac:(lia)) as Hk0. fold k in Hk0.
    assert (CPubKey_of k = k) as Ek.
    { destruct k as [|b k'] eqn:Ekk; [done|]. unfold CPubKey_of. change (byte_at (b :: k') 0) with b in Hk0. unfold size. rewrite Hk.
      replace b with 4 by congruence. done. }
    rewrite Ek in E. unfold IsFullyValid in E. destruct (CPubKey_IsValid k && SetPubKey k) eqn:Hv; [|done].
    injection E as <-. apply andb_prop in Hv as [_ Hv]. split_and!; [done|congruence|done|].
    rewrite (cut_list script 1 65 1) by lia. cbn. by repeat f_equal.
Qed.

(** The compressed form of an uncompressed key. *)
Definition compressed_key (pubkey : list Z) : list Z :=
  2 + Z.land (byte_at pubkey 64) 1 :: take 32 (drop 1 pubkey).

(** What the elliptic-curve library does: it accepts the compressed form of
    every uncompressed key it accepts, and decompresses it to that key. *)
Definition decompresses (SetPubKey : list Z → bool) (GetPubKey : list Z → list Z) : Prop :=
  ∀ pubkey, length pubkey = 65%nat → byte_at pubkey 0 = 4 → SetPubKey pubkey = true →
    SetPubKey (compressed_key pubkey) = true ∧ GetPubKey (compressed_key pubkey) = pubkey.

Section Script_roundtrip.
Context (SetPubKey : list Z → bool) (GetPubKey : list Z → list Z) (Hec : decompresses SetPubKey GetPubKey).

Lemma land_1_cases z : Z.land z 1 = 0 ∨ Z.land z 1 = 1.
Proof.
  pose proof (land_low z 1 ltac:(lia)) as H. change (2 ^ 1 - 1) with 1 in H. rewrite H.
  pose proof (Z.mod_pos_bound z (2 ^ 1)). lia.
Qed.

Lemma Decompress_Compress {E} script out :
  Compress SetPubKey script = Some out →
  ∃ code vch, out = code :: vch ∧ 0 ≤ code < nSpecialScripts ∧ length vch = GetSpecialSize code ∧
    Decompress (E:=E) SetPubKey GetPubKey code vch = Ok (Some script).
Proof.
  unfold Compress. destruct (IsToKeyID script) as [id|] eqn:E1.
  { intros [= <-]. apply IsToKeyID_inv in E1 as [Hl ->]. exists 0, id. split_and!; [done..|].
    unfold Decompress. cbn [Z.eqb]. by rewrite take_ge by lia. }
  clear E1. destruct (IsToScriptID script) as [id|] eqn:E1.
  { intros [= <-]. apply IsToScriptID_inv in E1 as [Hl ->]. exists 1, id. split_and!; [done..|].
    unfold Decompress. cbn [Z.eqb Pos.eqb]. by rewrite take_ge by lia. }
  clear E1. destruct (IsToPubKey SetPubKey script) as [k|] eqn:E1; [|done].
  apply IsToPubKey_inv in E1 as [(Hl & Hb & ->)|(Hl & Hb & Hv & ->)].
  - destruct k as [|b vch]; [done|]. change (byte_at (b :: vch) 0) with b in *. change (drop 1 (b :: vch)) with vch.
    assert (length vch = 32%nat) as Hlv by (cbn in Hl; lia). rewrite (take_ge vch 32) by lia.
    intros E'. exists b, vch. unfold Decompress, nSpecialScripts. rewrite (take_ge vch 32) by lia.
    destruct Hb as [-> | ->]; injection E' as <-; done.
  - intros E'. rewrite Hb in E'. cbn in E'. destruct (Hec k Hl Hb Hv) as [Hc1 Hc2].
    set (vch := take 32 (drop 1 k)) in *. assert (length vch = 32%nat) as Hlv by (unfold vch; rewrite length_take, length_drop; lia).
    exists (Z.lor 4 (Z.land (byte_at k 64) 1)), vch.
    assert (CPubKey_of (compressed_key k) = compressed_key k) as Hck.
    { unfold CPubKey_of, compressed_key, size. fold vch. cbn [length]. rewrite Hlv. by destruct (land_1_cases (byte_at k 64)) as [->| ->]. }
    assert (CPubKey_of k = k) as Hk2.
    { destruct k as [|b k']; [done|]. change (byte_at (b :: k') 0) with b in Hb. subst b. unfold CPubKey_of, size. by rewrite Hl. }
    assert (Decompress (E:=E) SetPubKey GetPubKey (Z.lor 4 (Z.land (byte_at k 64) 1)) vch = Ok (Some ([65] ++ k ++ [OP_CHECKSIG]))) as Hd.
    { unfold Decompress. rewrite (take_ge vch 32) by lia.
      assert (Z.lor 4 (Z.land (byte_at k 64) 1) - 2 :: vch = compressed_key k) as ->.
      { unfold compressed_key. fold vch. by destruct (land_1_cases (byte_at k 64)) as [->| ->]. }
      unfold CPubKey_Decompress, CPubKey_IsValid. rewrite Hck, Hc1, Hc2, Hk2. unfold size at 1. cbn [length compressed_key].
      rewrite (proj2 (Z.ltb_lt _ _)) by lia. cbn [negb]. unfold size. rewrite Hl.
      by destruct (land_1_cases (byte_at k 64)) as [->| ->]. }
    injection E' as <-. split_and!; [done| | | |exact Hd]; by destruct (land_1_cases (byte_at k 64)) as [->| ->].
Qed.

Lemma compressed_script_roundtrip {E} script script0 rest :
  size script + nSpecialScripts < 2 ^ 32 →
  ∃ bs, ser_compressed_script (E:=E) SetPubKey script = Ok bs ∧ size bs = compressed_script_size SetPubKey script ∧
    unser_compressed_script SetPubKey GetPubKey script0 (bs ++ rest) = Ok (script, rest).
Proof.
  intros Hs. unfold ser_compressed_script, compressed_script_size, unser_compressed_script, nSpecialScripts in *.
  destruct (Compress SetPubKey script) as [out|] eqn:Ec.
  - exists out. split_and!; [done..|]. apply (Decompress_Compress (E:=stream_error)) in Ec as (code & vch & -> & Hc & Hl & Hd).
    unfold nSpecialScripts in Hc. cbn [app]. unfold unser_varint, ReadVarInt. cbn [ReadVarInt_loop].
    assert (Z.lor (Z.shiftl 0 7 mod 2 ^ 32) (Z.land code 0x7F) = code ∧ Z.land code 0x80 = 0) as [-> ->].
    { assert (code = 0 ∨ code = 1 ∨ code = 2 ∨ code = 3 ∨ code = 4 ∨ code = 5) as Hcs by lia.
      by destruct Hcs as [->|[->|[->|[->|[->| ->]]]]]. }
    cbn [Z.eqb mbind outcome_bind]. rewrite (proj2 (Z.ltb_lt code 6)) by lia. rewrite <- Hl, stream_read_app.
    cbn [mbind outcome_bind]. by rewrite Hd.
  - rewrite u32_id by (unfold is_u, size in *; lia).
    destruct (varint_roundtrip_gen 32 (size script + 6) (script ++ rest)) as (bs & E1 & _ & E2 & E3); [lia|unfold is_u, size in *; lia|].
    unfold ser_varint. rewrite E1. cbn [mbind outcome_bind]. exists (bs ++ script). split_and!; [done| |].
    + unfold size in *. rewrite length_app. lia.
    + unfold unser_varint. rewrite <- app_assoc, E3. cbn [mbind outcome_bind].
      rewrite (proj2 (Z.ltb_ge _ _)) by (unfold size; lia). replace (size script + 6 - 6) with (size script) by lia.
      unfold size. by rewrite Nat2Z.id, stream_read_app.
Qed.
End Script_roundtrip.

Lemma compressed_txout_roundtrip {E} SetPubKey GetPubKey o o0 rest :
  decompresses SetPubKey GetPubKey → 0 ≤ nValue o < 2 ^ 60 → size (scriptPubKey o) + nSpecialScripts < 2 ^ 32 →
  ∃ bs, ser_compressed_txout (E:=E) SetPubKey o = Ok bs ∧
    unser_compressed_txout SetPubKey GetPubKey o0 (bs ++ rest) = Ok (TxOut (nValue o) (scriptPubKey o) (nRounds o0), rest).
Proof.
  intros Hec Hv Hs. unfold ser_compressed_txout, unser_compressed_txout. rewrite u64_id by (unfold is_u; lia).
  destruct (amount_roundtrip_gen (E:=E) (nValue o)) as (x & E1 & Hx & E2); [lia..|]. rewrite E1. cbn [mbind outcome_bind].
  destruct (compressed_script_roundtrip SetPubKey GetPubKey Hec (E:=E) (scriptPubKey o) (scriptPubKey o0) rest Hs) as (sc & E3 & _ & E4).
  destruct (varint_roundtrip_gen 64 x (sc ++ rest)) as (bs & E5 & _ & _ & E6); [lia|done|].
  unfold ser_varint, unser_varint. rewrite E5, E3. cbn [mbind outcome_bind]. exists (bs ++ sc). split; [done|].
  rewrite <- app_assoc, E6. cbn [mbind outcome_bind]. rewrite E4. cbn [mbind outcome_bind].
  rewrite E2, s64_id by (unfold is_s; lia). done.
Qed.

(** ** Properties *)

(** CompressAmount never fails its assertion, and DecompressAmount gives
    the amount back, for every amount up to a ninth of 2^64. *)
Theorem amount_roundtrip {E} (n : Z) :
  0 ≤ n → 9 * n + 9 < 2 ^ 64 → ∃ x, CompressAmount (E:=E) n = Ok x ∧ is_u 64 x ∧ DecompressAmount x = n.
Proof. apply amount_roundtrip_gen. Qed.

Lemma amount_roundtrip_witness : ∃ x, CompressAmount (E:=unit) (21000000 * COIN) = Ok x ∧ is_u 64 x ∧ DecompressAmount x = 21000000 * COIN.
Proof. apply (amount_roundtrip (21000000 * COIN)); unfold COIN; lia. Defined.

(** A compressed script never fails an assertion, takes as many bytes as
    GetSerializeSize says, and reading it gives the script back, whether it
    matches a special form or not. *)
Theorem script_roundtrip {E} SetPubKey GetPubKey (script script0 rest : list Z) :
  decompresses SetPubKey GetPubKey → size script + nSpecialScripts < 2 ^ 32 →
  ∃ bs, ser_compressed_script (E:=E) SetPubKey script = Ok bs ∧ size bs = compressed_script_size SetPubKey script ∧
    unser_compressed_script SetPubKey GetPubKey script0 (bs ++ rest) = Ok (script, rest).
Proof. intros Hec. by apply compressed_script_roundtrip. Qed.

(** A toy curve whose only points have a zero ordinate. *)
Definition toy_SetPubKey (k : list Z) : bool :=
  bool_decide (k = 2 :: take 32 (drop 1 k) ∨ k = 4 :: take 32 (drop 1 k) ++ replicate 32 0).
Definition toy_GetPubKey (k : list Z) : list Z := 4 :: drop 1 k ++ replicate 32 0.

Lemma toy_decompresses : decompresses toy_SetPubKey toy_GetPubKey.
Proof.
  intros k Hl Hb Hv. apply bool_decide_eq_true in Hv as [Hv|Hv].
  { rewrite Hv in Hb. discriminate Hb. }
  set (x := take 32 (drop 1 k)) in *. assert (length x = 32%nat) as Hx by (unfold x; rewrite length_take, length_drop; lia).
  assert (compressed_key k = 2 :: x) as ->.
  { unfold compressed_key. fold x. assert (byte_at k 64 = 0) as ->; [|done]. rewrite Hv. unfold byte_at.
    change 64%nat with (S 63). cbn [nth]. rewrite app_nth2, Hx by lia. done. }
  clearbody x. split; [|symmetry; exact Hv]. apply bool_decide_eq_true_2. left. change (drop 1 (2 :: x)) with x. by rewrite (take_ge x 32) by lia.
Qed.

Lemma script_roundtrip_witness :
  let script := 65 :: 4 :: seqZ 100 32 ++ replicate 32 0 ++ [OP_CHECKSIG] in
  Compress toy_SetPubKey script = Some (4 :: seqZ 100 32) ∧
  ∃ bs, ser_compressed_script (E:=unit) toy_SetPubKey script = Ok bs ∧ size bs = compressed_script_size toy_SetPubKey script ∧
    unser_compressed_script toy_SetPubKey toy_GetPubKey [] (bs ++ [1]) = Ok (script, [1]).
Proof.
  cbn zeta. split; [vm_compute; reflexivity|]. apply (script_roundtrip toy_SetPubKey toy_GetPubKey); [apply toy_decompresses|].
  vm_compute. reflexivity.
Defined.
