(* ===== verification/Coins.v ===== *)
(** * Unspent outputs of a transaction (coins.h, coins.cpp, undo.h)

    [CCoins]: the outputs of a transaction that are still unspent, with the
    operations of block connection, and the wire formats of the coin database
    and of the undo files. *)
From stdpp Require Import base tactics list gmap numbers option.
From Stdlib Require Import ZArith Lia.
From S2P Require Import Prelude.
From S2P Require Import Serialize.
From S2P Require Import ScriptCode.
From S2P Require Import Transaction.
From S2P Require Import Compressor.

(** ** Data *)

Record CCoins := Coins {
  fCoinBase : bool;
  fCoinStake : bool;
  c_vout : list CTxOut;
  c_nHeight : Z;       (** int *)
  c_nVersion : Z       (** int *)
}.

Record CTxInUndo := TxInUndo {
  u_txout : CTxOut;
  u_fCoinBase : bool;
  u_fCoinStake : bool;
  u_nHeight : Z;       (** unsigned int *)
  u_nVersion : Z
}.

#[export] Instance CCoins_eq_dec : EqDecision CCoins.
Proof. solve_decision. Defined.
#[export] Instance CTxInUndo_eq_dec : EqDecision CTxInUndo.
Proof. solve_decision. Defined.

Definition CCoins_empty : CCoins := Coins false false [] 0 0.
Definition CTxInUndo_of (txout : CTxOut) : CTxInUndo := TxInUndo txout false false 0 0.

Definition with_vout (c : CCoins) (v : list CTxOut) : CCoins :=
  Coins (fCoinBase c) (fCoinStake c) v (c_nHeight c) (c_nVersion c).

(** ** Operations *)

(** [while (vout.size() > 0 && vout.back().IsNull()) vout.pop_back()], on the
    outputs last one first. *)
Fixpoint pop_nulls (r : list CTxOut) : list CTxOut :=
  match r with
  | o :: r' => if CTxOut_IsNull o then pop_nulls r' else r
  | [] => []
  end.
Definition Cleanup_vout (v : list CTxOut) : list CTxOut := rev (pop_nulls (rev v)).
Definition Cleanup (c : CCoins) : CCoins := with_vout c (Cleanup_vout (c_vout c)).

Definition clear_unspendable (o : CTxOut) : CTxOut := if IsUnspendable (scriptPubKey o) then CTxOut_null else o.
Definition ClearUnspendable (c : CCoins) : CCoins := Cleanup (with_vout c (clear_unspendable <$> c_vout c)).

Definition FromTx (tx : CTransaction) (nHeightIn : Z) : CCoins :=
  ClearUnspendable (Coins (IsCoinBase tx) (IsCoinStake tx) (vout tx) nHeightIn (nVersion tx)).

Definition IsAvailable (c : CCoins) (nPos : nat) : bool :=
  match c_vout c !! nPos with Some o => negb (CTxOut_IsNull o) | None => false end.

Definition IsPruned (c : CCoins) : bool := forallb CTxOut_IsNull (c_vout c).

(** [operator==] *)
Definition CCoins_eq (a b : CCoins) : bool :=
  if IsPruned a && IsPruned b then true
  else eqb (fCoinBase a) (fCoinBase b) && eqb (fCoinStake a) (fCoinStake b) && (c_nHeight a =? c_nHeight b)
       && (c_nVersion a =? c_nVersion b) && bool_decide (c_vout a = c_vout b).

(** [Spend(out, undo)]: the undo record, or [None] for [false], and the coins
    after the call.  [undo.nHeight = nHeight] converts to unsigned. *)
Definition Spend (c : CCoins) (n : nat) : option CTxInUndo * CCoins :=
  match c_vout c !! n with
  | None => (None, c)
  | Some o =>
      if CTxOut_IsNull o then (None, c)
      else
        let c := Cleanup (with_vout c (<[n := CTxOut_null]> (c_vout c))) in
        (Some (match c_vout c with
               | [] => TxInUndo o (fCoinBase c) (fCoinStake c) (u32 (c_nHeight c)) (c_nVersion c)
               | _ => CTxInUndo_of o
               end), c)
  end.

(** ** Wire format of the coins *)

(** Byte [b] of the bit mask: outputs [2 + 8b] to [2 + 8b + 7]. *)
Definition byte_of (f : nat → bool) : Z :=
  fold_left (λ chAvail i, if f i then Z.lor chAvail (Z.shiftl 1 (Z.of_nat i)) else chAvail) (seq 0 8) 0.
Definition mask_byte (c : CCoins) (b : nat) : Z := byte_of (λ i, IsAvailable c (2 + b * 8 + i)).

(** [fZero] of byte [b]. *)
Definition mask_zero (c : CCoins) (b : nat) : bool := forallb (λ i, negb (IsAvailable c (2 + b * 8 + i))) (seq 0 8).

(** [CalcMaskSize] from byte [b] on: [nLastUsedByte] and [nNonzeroBytes]. *)
Fixpoint CalcMaskSize_loop (fuel b : nat) (c : CCoins) (nLastUsedByte nNonzeroBytes : Z) : outcome stream_error (Z * Z) :=
  if (2 + b * 8 <? length (c_vout c))%nat then
    match fuel with
    | O => OutOfFuel
    | S fuel =>
        if mask_zero c b then CalcMaskSize_loop fuel (S b) c nLastUsedByte nNonzeroBytes
        else CalcMaskSize_loop fuel (S b) c (Z.of_nat b + 1) (nNonzeroBytes + 1)
    end
  else Ok (nLastUsedByte, nNonzeroBytes).
Definition CalcMaskSize (c : CCoins) : outcome stream_error (Z * Z) := CalcMaskSize_loop (length (c_vout c)) 0 c 0 0.

Definition b2z (b : bool) (z : Z) : Z := if b then z else 0.

(** The header code, [mult] times the mask code and four flags. *)
Definition header_code (mult nMaskCode : Z) (c : CCoins) : Z :=
  let fFirst := IsAvailable c 0 in
  let fSecond := IsAvailable c 1 in
  u32 (u32 (mult * u32 (nMaskCode - (if fFirst || fSecond then 0 else 1)))
       + b2z (fCoinBase c) 1 + b2z (fCoinStake c) 2 + b2z fFirst 4 + b2z fSecond 8).

Section Format.
Context (SetPubKey : list Z → bool) (GetPubKey : list Z → list Z).

(** The outputs that are not null. *)
Fixpoint ser_outs (v : list CTxOut) : outcome stream_error (list Z) :=
  match v with
  | [] => Ok []
  | o :: v =>
      if CTxOut_IsNull o then ser_outs v
      else bs ← ser_compressed_txout SetPubKey o; r ← ser_outs v; Ok (bs ++ r)
  end.

Definition ser_coins (c : CCoins) : outcome stream_error (list Z) :=
  '(nMaskSize, nMaskCode) ← CalcMaskSize c;
  _ ← assert_that (IsAvailable c 0 || IsAvailable c 1 || negb (nMaskCode =? 0));
  ver ← ser_varint 32 (c_nVersion c);
  code ← ser_varint 32 (header_code 16 nMaskCode c);
  outs ← ser_outs (c_vout c);
  height ← ser_varint 32 (c_nHeight c);
  Ok (ver ++ code ++ (mask_byte c <$> seq 0 (Z.to_nat nMaskSize)) ++ outs ++ height).

(** [GetSerializeSize]. *)
Fixpoint outs_size (v : list CTxOut) : outcome stream_error Z :=
  match v with
  | [] => Ok 0
  | o :: v =>
      if CTxOut_IsNull o then outs_size v
      else
        n ← CompressAmount (u64 (nValue o));
        r ← outs_size v;
        Ok (GetSizeOfVarInt 64 n + compressed_script_size SetPubKey (scriptPubKey o) + r)
  end.
Definition coins_size (c : CCoins) : outcome stream_error Z :=
  '(nMaskSize, nMaskCode) ← CalcMaskSize c;
  _ ← assert_that (IsAvailable c 0 || IsAvailable c 1 || negb (nMaskCode =? 0));
  outs ← outs_size (c_vout c);
  Ok (GetSizeOfVarInt 32 (c_nVersion c) + GetSizeOfVarInt 32 (header_code 8 nMaskCode c) + nMaskSize + outs
      + GetSizeOfVarInt 32 (c_nHeight c)).

(** The bits of a mask byte. *)
Definition avail_bits (chAvail : Z) : list bool :=
  (λ p, negb (Z.land chAvail (Z.shiftl 1 (Z.of_nat p)) =? 0)) <$> seq 0 8.

(** [while (nMaskCode > 0)]: the availability of the outputs after the first two. *)
Fixpoint read_mask (nMaskCode : Z) (s : list Z) : outcome stream_error (list bool * list Z) :=
  if nMaskCode <=? 0 then Ok ([], s)
  else
    match s with
    | [] => Err EndOfData
    | chAvail :: s =>
        '(vAvail, s) ← read_mask (if chAvail =? 0 then nMaskCode else nMaskCode - 1) s;
        Ok (avail_bits chAvail ++ vAvail, s)
    end.

Fixpoint read_outs (vAvail : list bool) : reader (list CTxOut) := λ s,
  match vAvail with
  | [] => Ok ([], s)
  | a :: vAvail =>
      '(o, s) ← (if a : bool then unser_compressed_txout SetPubKey GetPubKey CTxOut_null s else Ok (CTxOut_null, s));
      '(v, s) ← read_outs vAvail s;
      Ok (o :: v, s)
  end.

(** A [VARINT] read into an [int]. *)
Definition unser_varint_int : reader Z := λ s, '(n, s) ← unser_varint 32 s; Ok (s32 n, s).

Definition unser_coins : reader CCoins := λ s,
  '(nVersion, s) ← unser_varint_int s;
  '(nCode, s) ← unser_varint 32 s;
  let nMaskCode := nCode / 16 + (if flag nCode 12 then 0 else 1) in
  '(vMask, s) ← read_mask nMaskCode s;
  '(vout, s) ← read_outs (flag nCode 4 :: flag nCode 8 :: vMask) s;
  '(nHeight, s) ← unser_varint_int s;
  Ok (Cleanup (Coins (flag nCode 1) (flag nCode 2) vout nHeight nVersion), s).

(** ** Wire format of the undo records *)

Definition undo_code (u : CTxInUndo) : Z :=
  u32 (u32 (u_nHeight u * 4) + b2z (u_fCoinBase u) 2 + b2z (u_fCoinStake u) 1).

Definition ser_undo (u : CTxInUndo) : outcome stream_error (list Z) :=
  code ← ser_varint 32 (undo_code u);
  ver ← (if 0 <? u_nHeight u then ser_varint 32 (u_nVersion u) else Ok []);
  out ← ser_compressed_txout SetPubKey (u_txout u);
  Ok (code ++ ver ++ out).

(** Reading into a default record. *)
Definition unser_undo : reader CTxInUndo := λ s,
  '(nCode, s) ← unser_varint 32 s;
  let nHeight := Z.shiftr nCode 2 in
  '(nVersion, s) ← (if 0 <? nHeight then unser_varint_int s else Ok (0, s));
  '(txout, s) ← unser_compressed_txout SetPubKey GetPubKey CTxOut_null s;
  Ok (TxInUndo txout (flag nCode 2) (flag nCode 1) nHeight nVersion, s).

(** [CTxUndo]: the vector of its records. *)
Fixpoint ser_undos (v : list CTxInUndo) : outcome stream_error (list Z) :=
  match v with
  | [] => Ok []
  | u :: v => bs ← ser_undo u; r ← ser_undos v; Ok (bs ++ r)
  end.
Definition ser_txundo (vprevout : list CTxInUndo) : outcome stream_error (list Z) :=
  bs ← ser_undos vprevout; Ok (WriteCompactSize (Z.of_nat (length vprevout)) ++ bs).
Definition unser_txundo : reader (list CTxInUndo) := unser_vector unser_undo.
End Format.

(** A transaction with 68 unspent outputs: [GetSerializeSize] multiplies the mask
    code by 8 where [Serialize] multiplies it by 16, and is one byte short. *)
Definition wide_coins : CCoins := Coins false false (replicate 68 (TxOut 1 [] (-10))) 7 1.
Example GetSerializeSize_short :
  (bs ← ser_coins (λ _, false) wide_coins; Ok (size bs)) = (n ← coins_size (λ _, false) wide_coins; Ok (n + 1)).
Proof. vm_compute. reflexivity. Qed.

(** ** Clean coins *)

Definition clean (c : CCoins) : Prop := Cleanup c = c.

Lemma clean_vout c : clean c ↔ Cleanup_vout (c_vout c) = c_vout c.
Proof.
  unfold clean, Cleanup, with_vout. destruct c as [cb cs v h ver]. cbn. split; [by intros [=]|by intros ->].
Qed.

Lemma Cleanup_vout_snoc v o : Cleanup_vout (v ++ [o]) = if CTxOut_IsNull o then Cleanup_vout v else v ++ [o].
Proof.
  unfold Cleanup_vout. rewrite rev_app_distr. cbn [rev app pop_nulls]. destruct (CTxOut_IsNull o); [done|].
  cbn [rev]. by rewrite rev_involutive.
Qed.

Lemma Cleanup_vout_nil v : Cleanup_vout v = [] ↔ forallb CTxOut_IsNull v = true.
Proof.
  induction v as [|o v IH] using rev_ind; [done|]. rewrite Cleanup_vout_snoc, forallb_app. cbn [forallb].
  rewrite andb_true_r. destruct (CTxOut_IsNull o); rewrite ?andb_true_r, ?andb_false_r; [done|].
  split; [|done]. intros H. by destruct v.
Qed.

Lemma Cleanup_vout_idem v : Cleanup_vout (Cleanup_vout v) = Cleanup_vout v.
Proof.
  induction v as [|o v IH] using rev_ind; [done|]. rewrite Cleanup_vout_snoc.
  destruct (CTxOut_IsNull o) eqn:E; [done|]. by rewrite Cleanup_vout_snoc, E.
Qed.

Lemma Cleanup_clean c : clean (Cleanup c).
Proof. apply clean_vout. apply Cleanup_vout_idem. Qed.

(** A clean pruned entry has no outputs at all. *)
Lemma clean_pruned c : clean c → IsPruned c = true ↔ c_vout c = [].
Proof. intros H%clean_vout. unfold IsPruned. by rewrite <- Cleanup_vout_nil, H. Qed.

(** Cleaning changes no availability. *)
Lemma IsAvailable_Cleanup c n : IsAvailable (Cleanup c) n = IsAvailable c n.
Proof.
  unfold IsAvailable, Cleanup. cbn [c_vout with_vout]. generalize (c_vout c) as v. clear c. intros v.
  induction v as [|o v IH] using rev_ind; [done|]. rewrite Cleanup_vout_snoc. destruct (CTxOut_IsNull o) eqn:Eo; [|done].
  rewrite IH. destruct (decide (n < length v)%nat).
  - by rewrite lookup_app_l.
  - rewrite (lookup_ge_None_2 v) by lia. rewrite lookup_app_r by lia. destruct (n - length v)%nat; cbn; by rewrite ?Eo.
Qed.

Lemma IsPruned_Cleanup c : IsPruned (Cleanup c) = IsPruned c.
Proof.
  unfold IsPruned, Cleanup. cbn [c_vout with_vout]. apply eq_true_iff_eq.
  by rewrite <- !Cleanup_vout_nil, Cleanup_vout_idem.
Qed.

(** ** The mask *)

Lemma byte_of_spec f :
  avail_bits (byte_of f) = f <$> seq 0 8 ∧ (byte_of f =? 0) = forallb (λ i, negb (f i)) (seq 0 8).
Proof.
  unfold byte_of. cbn [seq fold_left fmap list_fmap forallb].
  destruct (f 0%nat), (f 1%nat), (f 2%nat), (f 3%nat), (f 4%nat), (f 5%nat), (f 6%nat), (f 7%nat); vm_compute; split; reflexivity.
Qed.

Lemma avail_bits_mask c b : avail_bits (mask_byte c b) = (λ i, IsAvailable c (2 + b * 8 + i)) <$> seq 0 8.
Proof. apply byte_of_spec. Qed.

Lemma mask_byte_zero c b : (mask_byte c b =? 0) = mask_zero c b.
Proof. apply byte_of_spec. Qed.

(** The number of non-zero bytes among the [n] from [b] on. *)
Definition nonzero_bytes (c : CCoins) (b n : nat) : nat := length (filter (λ i, mask_zero c i = false) (seq b n)).

Lemma nonzero_bytes_S c b n :
  nonzero_bytes c b (S n) = ((if mask_zero c b then 0 else 1) + nonzero_bytes c (S b) n)%nat.
Proof. unfold nonzero_bytes. cbn [seq]. rewrite filter_cons. destruct (mask_zero c b) eqn:E; by case_decide. Qed.

(** The bytes of the mask: as many as the outputs after the second need. *)
Definition mask_bytes (c : CCoins) : nat := ((length (c_vout c) - 2 + 7) / 8)%nat.

Lemma mask_bytes_lt c b : (2 + b * 8 < length (c_vout c) ↔ b < mask_bytes c)%nat.
Proof.
  unfold mask_bytes. pose proof (Nat.div_mod_eq (length (c_vout c) - 2 + 7) 8).
  pose proof (Nat.mod_upper_bound (length (c_vout c) - 2 + 7) 8). lia.
Qed.

Lemma mask_bytes_length c : (c_vout c ≠ [] → length (c_vout c) ≤ 2 + 8 * mask_bytes c)%nat.
Proof. intros _. pose proof (mask_bytes_lt c (mask_bytes c)). lia. Qed.

Lemma clean_last c : clean c → c_vout c ≠ [] → IsAvailable c (length (c_vout c) - 1) = true.
Proof.
  intros H%clean_vout Hne. destruct (c_vout c) as [|o v _] eqn:E using rev_ind; [done|].
  rewrite Cleanup_vout_snoc in H. unfold IsAvailable. rewrite E, length_app. cbn [length]. rewrite Nat.add_sub.
  rewrite lookup_app_r, Nat.sub_diag by lia. cbn. destruct (CTxOut_IsNull o); [|done].
  assert (length (Cleanup_vout v) ≤ length v)%nat as Hl.
  { clear. induction v as [|o v IH] using rev_ind; [done|]. rewrite Cleanup_vout_snoc, length_app. destruct (CTxOut_IsNull o);
      rewrite ?length_app; lia. }
  rewrite H, length_app in Hl. cbn in Hl. lia.
Qed.

(** In clean coins the last byte of the mask is not zero. *)
Lemma mask_last c : clean c → (0 < mask_bytes c)%nat → mask_zero c (mask_bytes c - 1) = false.
Proof.
  intros Hc Hk. assert (2 + (mask_bytes c - 1) * 8 < length (c_vout c))%nat as H1 by (apply mask_bytes_lt; lia).
  pose proof (mask_bytes_length c) as H2. assert (c_vout c ≠ []) as Hne by (intros E; rewrite E in H1; simpl in H1; lia).
  specialize (H2 Hne). pose proof (clean_last c Hc Hne) as Hlast. unfold mask_zero. apply not_true_iff_false.
  rewrite forallb_forall. intros H. specialize (H (length (c_vout c) - 1 - (2 + (mask_bytes c - 1) * 8))%nat).
  replace (2 + (mask_bytes c - 1) * 8 + _)%nat with (length (c_vout c) - 1)%nat in H by lia.
  rewrite Hlast in H. discriminate H. apply in_seq. lia.
Qed.

Lemma CalcMaskSize_loop_spec c fuel b last nz :
  clean c → (b ≤ mask_bytes c)%nat → (mask_bytes c - b ≤ fuel)%nat →
  CalcMaskSize_loop fuel b c last nz =
    Ok (if (b <? mask_bytes c)%nat then Z.of_nat (mask_bytes c) else last, nz + Z.of_nat (nonzero_bytes c b (mask_bytes c - b))).
Proof.
  intros Hc. revert b last nz. induction fuel as [|fuel IH]; intros b last nz Hb Hf; cbn [CalcMaskSize_loop].
  - assert (b = mask_bytes c) as -> by lia. rewrite (proj2 (Nat.ltb_ge _ _)) by (pose proof (mask_bytes_lt c (mask_bytes c)); lia).
    rewrite Nat.ltb_irrefl, Nat.sub_diag. cbn. by rewrite Z.add_0_r.
  - destruct (Nat.ltb_spec (2 + b * 8) (length (c_vout c))) as [Hlt|Hge].
    + apply mask_bytes_lt in Hlt. rewrite (proj2 (Nat.ltb_lt _ _) Hlt). rewrite !IH by lia.
      replace (mask_bytes c - b)%nat with (S (mask_bytes c - S b)) by lia. rewrite nonzero_bytes_S.
      destruct (Nat.ltb_spec (S b) (mask_bytes c)); destruct (mask_zero c b) eqn:E; try (do 2 f_equal; lia).
      pose proof (mask_last c Hc ltac:(lia)) as Hl. replace (mask_bytes c - 1)%nat with b in Hl by lia. congruence.
    + assert (b = mask_bytes c) as -> by (pose proof (mask_bytes_lt c b); lia).
      rewrite Nat.ltb_irrefl, Nat.sub_diag. cbn. by rewrite Z.add_0_r.
Qed.

Lemma CalcMaskSize_spec c :
  clean c → CalcMaskSize c = Ok (Z.of_nat (mask_bytes c), Z.of_nat (nonzero_bytes c 0 (mask_bytes c))).
Proof.
  intros Hc. unfold CalcMaskSize. rewrite CalcMaskSize_loop_spec; [|done|lia|].
  - rewrite Nat.sub_0_r, Z.add_0_l. destruct (Nat.ltb_spec 0 (mask_bytes c)); [done|]. by replace (mask_bytes c) with 0%nat by lia.
  - unfold mask_bytes. pose proof (Nat.div_mod_eq (length (c_vout c) - 2 + 7) 8).
    pose proof (Nat.mod_upper_bound (length (c_vout c) - 2 + 7) 8). lia.
Qed.

Lemma read_mask_spec c n b rest :
  (0 < n → mask_zero c (b + n - 1) = false)%nat →
  read_mask (Z.of_nat (nonzero_bytes c b n)) ((mask_byte c <$> seq b n) ++ rest) =
    Ok ((λ i, IsAvailable c (2 + i)) <$> seq (b * 8) (8 * n), rest).
Proof.
  revert b. induction n as [|n IH]; intros b Hlast.
  { cbn. by destruct rest. }
  rewrite nonzero_bytes_S. cbn [seq fmap list_fmap app].
  assert (0 < (if mask_zero c b then 0 else 1) + nonzero_bytes c (S b) n)%nat as Hpos.
  { destruct (mask_zero c b) eqn:E; [|lia]. destruct n as [|n]; [rewrite Nat.add_sub in Hlast; rewrite Hlast in E by lia; done|].
    unfold nonzero_bytes. destruct (filter _ _) eqn:Ef; [|simpl; lia]. exfalso.
    assert ((b + S (S n) - 1)%nat ∈ filter (λ i, mask_zero c i = false) (seq (S b) (S n))) as Hin.
    { apply list_elem_of_filter. split; [apply Hlast; lia|]. apply elem_of_seq. lia. }
    rewrite Ef in Hin. by apply not_elem_of_nil in Hin. }
  cbn [read_mask]. rewrite (proj2 (Z.leb_gt _ _)) by lia. rewrite mask_byte_zero.
  replace (if mask_zero c b then _ else _) with (Z.of_nat (nonzero_bytes c (S b) n)) by (destruct (mask_zero c b); lia).
  rewrite IH by (intros; replace (S b + n - 1)%nat with (b + S n - 1)%nat by lia; apply Hlast; lia).
  cbn [mbind outcome_bind]. rewrite avail_bits_mask. do 2 f_equal. replace (8 * S n)%nat with (8 + 8 * n)%nat by lia.
  rewrite seq_app, fmap_app. f_equal; [|f_equal; f_equal; lia].
  replace (seq (b * 8) 8) with (Nat.add (b * 8) <$> seq 0 8) by (rewrite fmap_add_seq; f_equal; lia).
  rewrite <- list_fmap_compose. apply list_fmap_ext. intros i x _. cbn. by f_equal.
Qed.

(** ** Outputs, versions and headers *)

(** An output as the databases hold it: null, or an amount below 2^60 and a
    script whose size fits 32 bits. *)
Definition stored_out (o : CTxOut) : Prop :=
  o = CTxOut_null ∨ (0 ≤ nValue o < 2 ^ 60 ∧ size (scriptPubKey o) + nSpecialScripts < 2 ^ 32 ∧ nRounds o = -10).

#[export] Instance stored_out_dec o : Decision (stored_out o).
Proof. unfold stored_out. apply _. Defined.

(** A [VARINT] of a negative [int] keeps only its low seven bits. *)
Definition stored_int (z : Z) : Z := if z <? 0 then z mod 128 else z.

Lemma varint_reads w n :
  7 ≤ w → is_u w n → ∃ bs, WriteVarInt w n = Some bs ∧ ∀ rest, ReadVarInt w (bs ++ rest) = Ok (n, rest).
Proof.
  intros Hw Hn. destruct (varint_roundtrip_gen w n [] Hw Hn) as (bs & E & _). exists bs. split; [done|]. intros rest.
  destruct (varint_roundtrip_gen w n rest Hw Hn) as (bs' & E' & _ & _ & Hr). assert (bs' = bs) as -> by congruence. done.
Qed.

Lemma varint_u32_roundtrip {E} z :
  is_u 32 z → ∃ bs, ser_varint (E:=E) 32 z = Ok bs ∧ ∀ rest, unser_varint 32 (bs ++ rest) = Ok (z, rest).
Proof.
  intros Hz. destruct (varint_reads 32 z) as (bs & E1 & E2); [lia|done|]. exists bs. unfold ser_varint. by rewrite E1.
Qed.

Lemma varint_int_roundtrip {E} z :
  is_s 32 z → ∃ bs, ser_varint (E:=E) 32 z = Ok bs ∧ ∀ rest, unser_varint_int (bs ++ rest) = Ok (stored_int z, rest).
Proof.
  unfold is_s, unser_varint_int. intros Hz. assert (is_u 31 (stored_int z)) as Hs.
  { unfold stored_int, is_u. pose proof (Z.mod_pos_bound z 128). destruct (Z.ltb_spec z 0); lia. }
  unfold is_u in Hs. destruct (varint_u32_roundtrip (E:=E) (stored_int z)) as (bs & E1 & E2); [unfold is_u; lia|].
  exists bs. split.
  - rewrite <- E1. unfold stored_int. destruct (Z.ltb_spec z 0); [|done]. unfold ser_varint, WriteVarInt.
    change (varint_room 32) with 5%nat. cbn [varint_digits]. pose proof (Z.mod_pos_bound z 128).
    rewrite !(proj2 (Z.leb_le _ _)) by lia. by rewrite !land_7f, Z.mod_mod by lia.
  - intros rest. rewrite E2. cbn [mbind outcome_bind]. by rewrite s32_id by (unfold is_s; lia).
Qed.

(** The flags below a multiple of 16 (of 4). *)
Lemma flag_low w m k f : 0 ≤ w → 0 ≤ k < 2 ^ w → 0 ≤ f < 2 ^ w → flag (2 ^ w * m + k) f = flag k f.
Proof.
  intros Hw Hk Hf. unfold flag. f_equal. f_equal. rewrite <- (Z.mod_small f (2 ^ w)) by done.
  rewrite <- (land_low f w), !Z.land_assoc, <- !(Z.land_comm (2 ^ w - 1)), !Z.land_assoc by done.
  rewrite !(Z.land_comm (2 ^ w - 1)), !land_low by done. f_equal.
  rewrite (Z.mul_comm (2 ^ w)), Z.add_comm, Z.mod_add by lia. done.
Qed.

Lemma header_code_spec c n :
  0 ≤ n < 2 ^ 27 → IsAvailable c 0 || IsAvailable c 1 || negb (n =? 0) = true →
  let k := b2z (fCoinBase c) 1 + b2z (fCoinStake c) 2 + b2z (IsAvailable c 0) 4 + b2z (IsAvailable c 1) 8 in
  let m := n - (if IsAvailable c 0 || IsAvailable c 1 then 0 else 1) in
  header_code 16 n c = 2 ^ 4 * m + k ∧ 0 ≤ k < 2 ^ 4 ∧ 0 ≤ m < 2 ^ 27.
Proof.
  intros Hn Ha. cbn zeta. set (m := n - _).
  assert (0 ≤ m < 2 ^ 27) as Hm.
  { subst m. destruct (IsAvailable c 0), (IsAvailable c 1); cbn in Ha |- *; [lia..|].
    apply negb_true_iff, Z.eqb_neq in Ha. lia. }

  unfold header_code. fold m. rewrite (u32_id m), (u32_id (16 * m)) by (unfold is_u; lia).
  destruct (fCoinBase c), (fCoinStake c), (IsAvailable c 0), (IsAvailable c 1); cbn [b2z];
    rewrite u32_id by (unfold is_u; lia); lia.
Qed.

Section Roundtrip.
Context (SetPubKey : list Z → bool) (GetPubKey : list Z → list Z) (Hec : decompresses SetPubKey GetPubKey).

Lemma read_outs_ser v k :
  Forall stored_out v →
  ∃ bs, ser_outs SetPubKey v = Ok bs ∧ ∀ rest,
    read_outs SetPubKey GetPubKey (((λ o, negb (CTxOut_IsNull o)) <$> v) ++ replicate k false) (bs ++ rest) =
      Ok (v ++ replicate k CTxOut_null, rest).
Proof.
  induction 1 as [|o v Ho Hv IH].
  - exists []. split; [done|]. intros rest. cbn. induction k as [|k IH]; [done|]. cbn [replicate read_outs mbind outcome_bind].
    by rewrite IH.
  - destruct IH as (bs & E & Hr). cbn [ser_outs fmap list_fmap app read_outs]. destruct Ho as [->|(Hval & Hs & Hro)].
    + exists bs. split; [done|]. intros rest. cbn. by rewrite Hr.
    + assert (CTxOut_IsNull o = false) as -> by (apply Z.eqb_neq; lia). cbn [negb].
      assert (∀ rest, ∃ bo, ser_compressed_txout (E:=stream_error) SetPubKey o = Ok bo ∧
        unser_compressed_txout SetPubKey GetPubKey CTxOut_null (bo ++ rest) = Ok (o, rest)) as Hone.
      { intros rest. destruct (compressed_txout_roundtrip (E:=stream_error) SetPubKey GetPubKey o CTxOut_null rest Hec Hval Hs)
          as (bo & E1 & E2). exists bo. split; [done|]. rewrite E2. destruct o; cbn in *; subst; done. }
      destruct (Hone []) as (bo & E1 & _). rewrite E1, E. cbn [mbind outcome_bind]. exists (bo ++ bs). split; [done|].
      intros rest. destruct (Hone (bs ++ rest)) as (bo' & E1' & E2). assert (bo' = bo) as -> by congruence.
      rewrite <- app_assoc, E2. cbn [mbind outcome_bind]. by rewrite Hr.
Qed.

Lemma avail_list c n :
  (length (c_vout c) ≤ n)%nat →
  IsAvailable c <$> seq 0 n = ((λ o, negb (CTxOut_IsNull o)) <$> c_vout c) ++ replicate (n - length (c_vout c)) false.
Proof.
  intros Hn. apply list_eq. intros i. rewrite list_lookup_fmap, lookup_app, list_lookup_fmap. unfold IsAvailable.
  destruct (decide (i < n)%nat).
  - rewrite lookup_seq_lt by done. cbn. destruct (c_vout c !! i) eqn:E; [done|]. cbn. rewrite length_fmap.
    apply lookup_ge_None_1 in E. rewrite lookup_replicate_2 by lia. done.
  - rewrite lookup_seq_ge, (lookup_ge_None_2 (c_vout c)) by lia. cbn.
    rewrite length_fmap, lookup_ge_None_2 by (rewrite length_replicate; lia). done.
Qed.

Lemma Cleanup_vout_pad v k : Cleanup_vout (v ++ replicate k CTxOut_null) = Cleanup_vout v.
Proof.
  induction k as [|k IH]; [by rewrite app_nil_r|]. rewrite replicate_S_end, app_assoc, Cleanup_vout_snoc. exact IH.
Qed.

(** Coins the database can hold. *)
Definition coins_ok (c : CCoins) : Prop :=
  clean c ∧ c_vout c ≠ [] ∧ Forall stored_out (c_vout c) ∧ Z.of_nat (length (c_vout c)) < 2 ^ 20 ∧
  is_s 32 (c_nHeight c) ∧ is_s 32 (c_nVersion c).

(** What is read back: negative versions and heights are truncated. *)
Definition stored_coins (c : CCoins) : CCoins :=
  Coins (fCoinBase c) (fCoinStake c) (c_vout c) (stored_int (c_nHeight c)) (stored_int (c_nVersion c)).

Lemma nonzero_bytes_bound c b n : (nonzero_bytes c b n ≤ n)%nat.
Proof. unfold nonzero_bytes. etrans; [apply length_filter|]. by rewrite length_seq. Qed.

(** Coins that are not pruned have an output among the first two or a non-zero mask byte. *)
Lemma header_assert c :
  clean c → c_vout c ≠ [] → IsAvailable c 0 || IsAvailable c 1 || negb (Z.of_nat (nonzero_bytes c 0 (mask_bytes c)) =? 0) = true.
Proof.
  intros Hc Hne. destruct (decide (0 < mask_bytes c)%nat) as [Hk|Hk].
  - apply orb_true_iff. right. apply negb_true_iff, Z.eqb_neq. pose proof (mask_last c Hc Hk) as Hl.
    unfold nonzero_bytes. destruct (filter _ _) eqn:E; [|simpl; lia]. exfalso.
    assert ((mask_bytes c - 1)%nat ∈ filter (λ i, mask_zero c i = false) (seq 0 (mask_bytes c))) as Hin.
    { apply list_elem_of_filter. split; [done|]. apply elem_of_seq. lia. }
    rewrite E in Hin. by apply not_elem_of_nil in Hin.
  - pose proof (clean_last c Hc Hne) as Hl. pose proof (mask_bytes_length c Hne).
    assert (length (c_vout c) - 1 = 0 ∨ length (c_vout c) - 1 = 1)%nat as [E|E] by lia; rewrite E in Hl; rewrite Hl;
      by rewrite ?orb_true_r.
Qed.

Lemma coins_roundtrip_gen c :
  coins_ok c → ∃ bs, ser_coins SetPubKey c = Ok bs ∧
    ∀ rest, unser_coins SetPubKey GetPubKey (bs ++ rest) = Ok (stored_coins c, rest).
Proof.
  intros (Hc & Hne & Ho & Hlen & Hh & Hver). set (K := mask_bytes c).
  pose proof (header_assert c Hc Hne) as Hassert. fold K in Hassert.
  assert (Z.of_nat (nonzero_bytes c 0 K) < 2 ^ 27) as Hnz.
  { pose proof (nonzero_bytes_bound c 0 K). pose proof (mask_bytes_lt c (K - 1)) as Hk. fold K in Hk.
    lia. }
  destruct (header_code_spec c (Z.of_nat (nonzero_bytes c 0 K)) ltac:(lia) Hassert) as (Ehead & Hk & Hm).
  set (k := _ + _ + _ + _) in *. set (m := _ - _) in *.
  destruct (read_outs_ser (c_vout c) (2 + 8 * K - length (c_vout c)) Ho) as (outs & Eouts & Houts).
  unfold ser_coins, unser_coins. rewrite CalcMaskSize_spec by done. fold K. cbn [mbind outcome_bind].
  rewrite Hassert. cbn [assert_that mbind outcome_bind]. rewrite Ehead.
  destruct (varint_int_roundtrip (E:=stream_error) (c_nVersion c) Hver) as (bver & Ever & Rver). rewrite Ever.
  destruct (varint_u32_roundtrip (E:=stream_error) (2 ^ 4 * m + k) ltac:(unfold is_u; lia)) as (bcode & Ecode & Rcode). rewrite Ecode.
  destruct (varint_int_roundtrip (E:=stream_error) (c_nHeight c) Hh) as (bh & Eh & Rh). rewrite Eh.
  cbn [mbind outcome_bind]. rewrite Eouts. cbn [mbind outcome_bind]. eexists. split; [reflexivity|]. intros rest.
  rewrite <- !app_assoc, Rver. cbn [mbind outcome_bind]. rewrite Rcode. cbn [mbind outcome_bind]. cbn zeta.
  rewrite !(flag_low 4 m k) by lia. replace (2 ^ 4 * m + k) with (k + m * 16) by lia.
  rewrite Z.div_add, Z.div_small, Z.add_0_l, Nat2Z.id by lia.
  assert (m + (if flag k 12 then 0 else 1) = Z.of_nat (nonzero_bytes c 0 K)) as ->.
  { subst m k. generalize (Z.of_nat (nonzero_bytes c 0 K)) as nz. intros nz.
    destruct (fCoinBase c), (fCoinStake c), (IsAvailable c 0), (IsAvailable c 1); cbn [b2z orb];
      match goal with |- context [flag ?a 12] => let v := eval vm_compute in (flag a 12) in change (flag a 12) with v end;
      cbn match; lia. }
  rewrite read_mask_spec by (intros; apply mask_last; [done|lia]). cbn [mbind outcome_bind].
  assert (flag k 4 = IsAvailable c 0 ∧ flag k 8 = IsAvailable c 1 ∧ flag k 1 = fCoinBase c ∧ flag k 2 = fCoinStake c)
    as (-> & -> & -> & ->).
  { subst k. by destruct (fCoinBase c), (fCoinStake c), (IsAvailable c 0), (IsAvailable c 1). }
  assert (IsAvailable c 0 :: IsAvailable c 1 :: ((λ i, IsAvailable c (2 + i)) <$> seq (0 * 8) (8 * K)) = IsAvailable c <$> seq 0 (2 + 8 * K)) as ->.
  { cbn [seq Nat.add Nat.mul fmap list_fmap]. do 2 f_equal. rewrite <- (fmap_add_seq 2 0), <- list_fmap_compose. done. }
  rewrite avail_list by (apply mask_bytes_length; done). rewrite Houts. cbn [mbind outcome_bind]. rewrite Rh. cbn [mbind outcome_bind].
  unfold Cleanup. cbn [c_vout]. rewrite Cleanup_vout_pad. apply clean_vout in Hc. by rewrite Hc.
Qed.

(** Undo records the undo file can hold, and what is read back. *)
Definition undo_ok (u : CTxInUndo) : Prop :=
  stored_out (u_txout u) ∧ u_txout u ≠ CTxOut_null ∧ 0 ≤ u_nHeight u < 2 ^ 30 ∧ is_s 32 (u_nVersion u).
Definition stored_undo (u : CTxInUndo) : CTxInUndo :=
  TxInUndo (u_txout u) (u_fCoinBase u) (u_fCoinStake u) (u_nHeight u) (if 0 <? u_nHeight u then stored_int (u_nVersion u) else 0).

Lemma undo_roundtrip_one u :
  undo_ok u → ∃ bs, ser_undo SetPubKey u = Ok bs ∧
    ∀ rest, unser_undo SetPubKey GetPubKey (bs ++ rest) = Ok (stored_undo u, rest).
Proof.
  intros ([?|(Hval & Hs & Hro)] & Hnull & Hh & Hver); [done|]. set (k := b2z (u_fCoinBase u) 2 + b2z (u_fCoinStake u) 1).
  assert (0 ≤ k < 2 ^ 2) as Hk by (subst k; by destruct (u_fCoinBase u), (u_fCoinStake u)).
  assert (undo_code u = 2 ^ 2 * u_nHeight u + k) as Ecode.
  { unfold undo_code. rewrite (u32_id (_ * 4)) by (unfold is_u; lia). rewrite <- Z.add_assoc. fold k.
    rewrite u32_id by (unfold is_u; lia). lia. }
  destruct (varint_u32_roundtrip (E:=stream_error) (undo_code u) ltac:(unfold is_u; lia)) as (bc & Ec & Rc).
  destruct (varint_int_roundtrip (E:=stream_error) (u_nVersion u) Hver) as (bv & Ev & Rv).
  assert (∃ bo, ser_compressed_txout (E:=stream_error) SetPubKey (u_txout u) = Ok bo ∧ ∀ rest,
    unser_compressed_txout SetPubKey GetPubKey CTxOut_null (bo ++ rest) = Ok (u_txout u, rest)) as (bo & Eo & Ro).
  { destruct (read_outs_ser [u_txout u] 0) as (bs & E & R); [constructor; [by right|done]|].
    cbn [ser_outs] in E. assert (CTxOut_IsNull (u_txout u) = false) as Hn by (apply Z.eqb_neq; lia). rewrite Hn in E.
    apply outcome_bind_ok in E as (bo & Eo & E). cbn in E. rewrite app_nil_r in E. injection E as ->. exists bs. split; [done|].
    intros rest. specialize (R rest). cbn [fmap list_fmap app read_outs replicate] in R. rewrite Hn in R. cbn [negb] in R.
    apply outcome_bind_ok in R as ([o s] & Ho & R). cbn in R. rewrite Ho. congruence. }
  unfold ser_undo, unser_undo. rewrite Ec. cbn [mbind outcome_bind]. rewrite Ev, Eo.
  assert (Z.shiftr (undo_code u) 2 = u_nHeight u) as Esh.
  { rewrite Ecode, shiftr_div by lia. replace (2 ^ 2 * u_nHeight u + k) with (k + u_nHeight u * 2 ^ 2) by lia.
    rewrite Z.div_add, Z.div_small by lia. lia. }
  assert (flag (undo_code u) 2 = u_fCoinBase u ∧ flag (undo_code u) 1 = u_fCoinStake u) as [F2 F1].
  { rewrite Ecode, !(flag_low 2) by lia. subst k. by destruct (u_fCoinBase u), (u_fCoinStake u). }
  unfold stored_undo. destruct (0 <? u_nHeight u) eqn:Eh; cbn [mbind outcome_bind]; (eexists; split; [reflexivity|]); intros rest;
    rewrite <- !app_assoc, Rc; cbn [mbind outcome_bind]; rewrite Esh, Eh, F1, F2; cbn [app mbind outcome_bind].
  - rewrite Rv. cbn [mbind outcome_bind]. rewrite Ro. done.
  - rewrite Ro. done.
Qed.

Lemma undos_roundtrip v :
  Forall undo_ok v → ∃ bs, ser_undos SetPubKey v = Ok bs ∧
    ∀ rest, read_n (unser_undo SetPubKey GetPubKey) (length v) (bs ++ rest) = Ok (stored_undo <$> v, rest).
Proof.
  induction 1 as [|u v Hu Hv (bs & E & R)]; [by exists []|].
  destruct (undo_roundtrip_one u Hu) as (b & Eb & Rb). cbn [ser_undos length read_n fmap list_fmap]. rewrite Eb, E.
  cbn [mbind outcome_bind]. exists (b ++ bs). split; [done|]. intros rest.
  rewrite <- app_assoc, Rb. cbn [mbind outcome_bind]. rewrite R. done.
Qed.
End Roundtrip.

#[export] Instance coins_ok_dec c : Decision (coins_ok c).
Proof. unfold coins_ok, clean. apply _. Defined.
#[export] Instance undo_ok_dec u : Decision (undo_ok u).
Proof. unfold undo_ok, not. apply _. Defined.

(** ** Spending *)

(** [Spend] fails exactly on an output that is not available, and then changes
    nothing; otherwise the output is gone, the others stay, and the record holds
    it, with the metadata when nothing else is left. *)
Lemma Spend_spec c n :
  clean c →
  match Spend c n with
  | (None, c') => IsAvailable c n = false ∧ c' = c
  | (Some u, c') =>
      IsAvailable c n = true ∧ clean c' ∧ c_vout c !! n = Some (u_txout u) ∧
      (∀ i, IsAvailable c' i = if decide (i = n) then false else IsAvailable c i) ∧
      c_vout c' = Cleanup_vout (<[n := CTxOut_null]> (c_vout c)) ∧
      fCoinBase c' = fCoinBase c ∧ fCoinStake c' = fCoinStake c ∧ c_nHeight c' = c_nHeight c ∧ c_nVersion c' = c_nVersion c ∧
      u = (if IsPruned c' then TxInUndo (u_txout u) (fCoinBase c) (fCoinStake c) (u32 (c_nHeight c)) (c_nVersion c)
           else CTxInUndo_of (u_txout u))
  end.
Proof.
  intros Hc. unfold Spend. destruct (c_vout c !! n) as [o|] eqn:Eo; [destruct (CTxOut_IsNull o) eqn:En|].
  1, 3: unfold IsAvailable; rewrite Eo; by rewrite ?En.
  set (c1 := with_vout c (<[n := CTxOut_null]> (c_vout c))). cbn zeta.
  assert (IsPruned (Cleanup c1) = match c_vout (Cleanup c1) with [] => true | _ => false end) as Hp.
  { pose proof (clean_pruned _ (Cleanup_clean c1)) as H. destruct (c_vout (Cleanup c1)), (IsPruned (Cleanup c1)); try done.
    - by destruct H as [_ H]; specialize (H eq_refl).
    - by destruct H as [H _]; specialize (H eq_refl). }
  assert (∀ u, u = (match c_vout (Cleanup c1) with [] => TxInUndo o (fCoinBase (Cleanup c1)) (fCoinStake (Cleanup c1)) (u32 (c_nHeight (Cleanup c1))) (c_nVersion (Cleanup c1)) | _ => CTxInUndo_of o end) → u_txout u = o) as Hu
    by (intros u ->; by destruct (c_vout (Cleanup c1))).
  rewrite (Hu _ eq_refl). split_and!; [unfold IsAvailable; by rewrite Eo, En|apply Cleanup_clean|done| |done..|].
  - intros i. rewrite IsAvailable_Cleanup. unfold IsAvailable, c1. cbn [c_vout with_vout]. case_decide as Hi.
    + subst i. rewrite list_lookup_insert_eq by (by eapply lookup_lt_Some). done.
    + by rewrite list_lookup_insert_ne.
  - rewrite Hp. by destruct (c_vout (Cleanup c1)).
Qed.

(** ** Properties *)

(** Coins the database can hold are written without a failed assertion or
    an overrun, and reading them back gives them again, whatever follows in the
    stream; a negative version or height comes back truncated to seven bits. *)
Theorem coins_roundtrip SetPubKey GetPubKey (c : CCoins) :
  decompresses SetPubKey GetPubKey → coins_ok c →
  ∃ bs, ser_coins SetPubKey c = Ok bs ∧ ∀ rest, unser_coins SetPubKey GetPubKey (bs ++ rest) = Ok (stored_coins c, rest).
Proof. intros Hec. by apply coins_roundtrip_gen. Qed.

Lemma coins_roundtrip_witness :
  let c := Coins true false [TxOut 5 [OP_RETURN] (-10); CTxOut_null; CTxOut_null; TxOut 700000000 [1; 2; 3] (-10)] 77 1 in
  ∃ bs, ser_coins toy_SetPubKey c = Ok bs ∧ ∀ rest, unser_coins toy_SetPubKey toy_GetPubKey (bs ++ rest) = Ok (c, rest).
Proof.
  cbn zeta. refine (coins_roundtrip toy_SetPubKey toy_GetPubKey _ toy_decompresses _). by_decision.
Defined.

(** The undo records of a transaction are read back from the undo file as
    they were written; the version comes back only with a positive height. *)
Theorem txundo_roundtrip SetPubKey GetPubKey (v : list CTxInUndo) :
  decompresses SetPubKey GetPubKey → Forall undo_ok v → Z.of_nat (length v) ≤ MAX_SIZE →
  ∃ bs, ser_txundo SetPubKey v = Ok bs ∧ ∀ rest, unser_txundo SetPubKey GetPubKey (bs ++ rest) = Ok (stored_undo <$> v, rest).
Proof.
  intros Hec Hv Hl. destruct (undos_roundtrip SetPubKey GetPubKey Hec v Hv) as (bs & E & R).
  unfold ser_txundo, unser_txundo, unser_vector. rewrite E. cbn [mbind outcome_bind]. eexists. split; [done|]. intros rest.
  rewrite <- app_assoc, ReadCompactSize_Write by lia. cbn [mbind outcome_bind]. by rewrite Nat2Z.id.
Qed.

Lemma txundo_roundtrip_witness :
  let v := [TxInUndo (TxOut 5 [OP_RETURN] (-10)) false true 9 1; CTxInUndo_of (TxOut 0 [] (-10))] in
  ∃ bs, ser_txundo toy_SetPubKey v = Ok bs ∧ ∀ rest, unser_txundo toy_SetPubKey toy_GetPubKey (bs ++ rest) = Ok (v, rest).
Proof.
  cbn zeta. refine (txundo_roundtrip toy_SetPubKey toy_GetPubKey _ toy_decompresses _ _); [by_decision|vm_compute; congruence].
Defined.
