(* ===== verification/CoinsView.v ===== *)
(** * Views of the unspent outputs (coins.h, coins.cpp, txdb.cpp)

    The coin database and the caches stacked on it.  [CCoinsViewCache] fills
    itself even in reads, so every operation passes the whole stack on.  The
    contract is an abstract stack of maps, one per view, from transaction ids to
    their unspent outputs: caches, flags, pruned entries and lazy reads are
    invisible in it. *)
From stdpp Require Import base tactics list gmap numbers option.
From Stdlib Require Import ZArith Lia.
From S2P Require Import Prelude.
From S2P Require Import Transaction.
From S2P Require Import Coins.

Notation vres := (outcome unit).

(** ** Data *)

(** [CCoinsCacheEntry]: the two bits of [flags] are booleans. *)
Record CCoinsCacheEntry := Entry { e_coins : CCoins; e_dirty : bool; e_fresh : bool }.

Notation CCoinsMap := (gmap Z CCoinsCacheEntry).

(** A [CCoinsViewDB] (the records ['c'] and ['B'] of the database) or a
    [CCoinsViewCache] over another view. *)
Inductive view :=
| ViewDB (db : gmap Z CCoins) (best : Z)
| ViewCache (cacheCoins : CCoinsMap) (hashBlock : Z) (hasModifier : bool) (base : view).

Definition new_cache (base : view) : view := ViewCache ∅ 0 false base.

(** ** Reading *)

(** [GetCoins(txid, coins)]; for a cache, through [FetchCoins]. *)
Fixpoint GetCoins (v : view) (txid : Z) : option CCoins * view :=
  match v with
  | ViewDB db _ => (db !! txid, v)
  | ViewCache cacheCoins hashBlock m base =>
      match cacheCoins !! txid with
      | Some e => (Some (e_coins e), v)
      | None =>
          let '(tmp, base) := GetCoins base txid in
          match tmp with
          | None => (None, ViewCache cacheCoins hashBlock m base)
          | Some c => (Some c, ViewCache (<[txid := Entry c false (IsPruned c)]> cacheCoins) hashBlock m base)
          end
      end
  end.

(** [AccessCoins]: the pointer is to the entry [GetCoins] copies. *)
Definition AccessCoins (v : view) (txid : Z) : option CCoins * view := GetCoins v txid.

(** [HaveCoins]; a cache tests [vout.empty()]. *)
Definition HaveCoins (v : view) (txid : Z) : bool * view :=
  match v with
  | ViewDB db _ => (bool_decide (is_Some (db !! txid)), v)
  | ViewCache _ _ _ _ =>
      let '(it, v) := GetCoins v txid in
      (match it with Some c => match c_vout c with [] => false | _ => true end | None => false end, v)
  end.

Fixpoint GetBestBlock (v : view) : Z * view :=
  match v with
  | ViewDB _ best => (best, v)
  | ViewCache cacheCoins hashBlock m base =>
      if hashBlock =? 0 then
        let '(h, base) := GetBestBlock base in (h, ViewCache cacheCoins h m base)
      else (hashBlock, v)
  end.
Definition SetBestBlock (v : view) (h : Z) : vres view :=
  match v with
  | ViewDB _ _ => Err tt
  | ViewCache cacheCoins _ m base => Ok (ViewCache cacheCoins h m base)
  end.

(** ** Modifying *)

(** [ModifyCoins] and the constructor of [CCoinsModifier]. *)
Definition ModifyCoins (v : view) (txid : Z) : vres view :=
  match v with
  | ViewDB _ _ => Err tt
  | ViewCache cacheCoins hashBlock m base =>
      _ ← assert_that (negb m);
      let '(e, base) :=
        match cacheCoins !! txid with
        | Some e => (e, base)
        | None =>
            let '(r, base) := GetCoins base txid in
            (match r with
             | None => Entry CCoins_empty false true
             | Some c => Entry c false (IsPruned c)
             end, base)
        end in
      Ok (ViewCache (<[txid := Entry (e_coins e) true (e_fresh e)]> cacheCoins) hashBlock true base)
  end.

(** A use of the reference the modifier holds. *)
Definition modifier_update {A} (f : CCoins → A * CCoins) (v : view) (txid : Z) : vres (A * view) :=
  match v with
  | ViewDB _ _ => AssertFail
  | ViewCache cacheCoins hashBlock m base =>
      match cacheCoins !! txid with
      | None => AssertFail
      | Some e =>
          let '(a, c) := f (e_coins e) in
          Ok (a, ViewCache (<[txid := Entry c (e_dirty e) (e_fresh e)]> cacheCoins) hashBlock m base)
      end
  end.

(** [~CCoinsModifier] *)
Definition modifier_end (v : view) (txid : Z) : vres view :=
  match v with
  | ViewDB _ _ => AssertFail
  | ViewCache cacheCoins hashBlock m base =>
      _ ← assert_that m;
      match cacheCoins !! txid with
      | None => AssertFail
      | Some e =>
          let c := Cleanup (e_coins e) in
          Ok (ViewCache (if e_fresh e && IsPruned c then delete txid cacheCoins
                         else <[txid := Entry c (e_dirty e) (e_fresh e)]> cacheCoins) hashBlock false base)
      end
  end.

(** The life of one modifier: [view.ModifyCoins(txid)->f()]. *)
Definition modify {A} (v : view) (txid : Z) (f : CCoins → A * CCoins) : vres (A * view) :=
  v ← ModifyCoins v txid;
  '(a, v) ← modifier_update f v txid;
  v ← modifier_end v txid;
  Ok (a, v).

(** ** Writing to the base *)

(** One entry of the child's map, in [CCoinsViewCache::BatchWrite]. *)
Definition batch_one (cacheCoins : CCoinsMap) (txid : Z) (e : CCoinsCacheEntry) : vres CCoinsMap :=
  if e_dirty e then
    match cacheCoins !! txid with
    | None =>
        if negb (IsPruned (e_coins e)) then
          _ ← assert_that (e_fresh e);
          Ok (<[txid := Entry (e_coins e) true true]> cacheCoins)
        else Ok cacheCoins
    | Some us =>
        if e_fresh us && IsPruned (e_coins e) then Ok (delete txid cacheCoins)
        else Ok (<[txid := Entry (e_coins e) true (e_fresh us)]> cacheCoins)
    end
  else Ok cacheCoins.
Fixpoint batch_cache (mapCoins : list (Z * CCoinsCacheEntry)) (cacheCoins : CCoinsMap) : vres CCoinsMap :=
  match mapCoins with
  | [] => Ok cacheCoins
  | (txid, e) :: mapCoins => cacheCoins ← batch_one cacheCoins txid e; batch_cache mapCoins cacheCoins
  end.

(** [BatchWriteCoins], of the dirty entries, in [CCoinsViewDB::BatchWrite]. *)
Definition batch_db (mapCoins : list (Z * CCoinsCacheEntry)) (db : gmap Z CCoins) : gmap Z CCoins :=
  fold_left (λ db p, if e_dirty p.2 then if IsPruned (e_coins p.2) then delete p.1 db else <[p.1 := e_coins p.2]> db else db)
    mapCoins db.

(** [BatchWrite], the entries in the order of the map's iteration. *)
Definition BatchWrite (v : view) (mapCoins : list (Z * CCoinsCacheEntry)) (h : Z) : vres view :=
  match v with
  | ViewDB db best => Ok (ViewDB (batch_db mapCoins db) (if h =? 0 then best else h))
  | ViewCache cacheCoins _ m base =>
      _ ← assert_that (negb m);
      cacheCoins ← batch_cache mapCoins cacheCoins;
      Ok (ViewCache cacheCoins h m base)
  end.

Definition Flush (v : view) : vres view :=
  match v with
  | ViewDB _ _ => Err tt
  | ViewCache cacheCoins hashBlock m base =>
      base ← BatchWrite base (map_to_list cacheCoins) hashBlock;
      Ok (ViewCache ∅ hashBlock m base)
  end.

(** ** Operations on a stack *)

Inductive op :=
| OpAccess (t : Z)                    (** [AccessCoins] *)
| OpHave (t : Z)                      (** [HaveCoins] *)
| OpModify (t : Z) (f : CCoins → CCoins)  (** a [CCoinsModifier] used with [f] *)
| OpBest                              (** [GetBestBlock] *)
| OpSetBest (h : Z)                   (** [SetBestBlock] *)
| OpFlush                             (** [Flush] *)
| OpPush                              (** a new cache on top *)
| OpPop.                              (** the top cache destroyed *)

Inductive obs := Nothing | SawCoins (c : option CCoins) | SawBool (b : bool) | SawHash (h : Z).

Definition step_view (v : view) (o : op) : vres (obs * view) :=
  match o with
  | OpAccess t => let '(r, v) := AccessCoins v t in Ok (SawCoins r, v)
  | OpHave t => let '(b, v) := HaveCoins v t in Ok (SawBool b, v)
  | OpModify t f => '(_, v) ← modify v t (λ c, (tt, f c)); Ok (Nothing, v)
  | OpBest => let '(h, v) := GetBestBlock v in Ok (SawHash h, v)
  | OpSetBest h => v ← SetBestBlock v h; Ok (Nothing, v)
  | OpFlush => v ← Flush v; Ok (Nothing, v)
  | OpPush => Ok (Nothing, new_cache v)
  | OpPop => match v with ViewDB _ _ => Err tt | ViewCache _ _ m base => _ ← assert_that (negb m); Ok (Nothing, base) end
  end.
Fixpoint run_view (v : view) (ops : list op) : vres (list obs * view) :=
  match ops with
  | [] => Ok ([], v)
  | o :: ops => '(b, v) ← step_view v o; '(bs, v) ← run_view v ops; Ok (b :: bs, v)
  end.

(** ** What a view stands for *)

(** The coins a view gives for each transaction, the ones of a cache first. *)
Fixpoint view_coins (v : view) : gmap Z CCoins :=
  match v with
  | ViewDB db _ => db
  | ViewCache cacheCoins _ _ base => (e_coins <$> cacheCoins) ∪ view_coins base
  end.

(** Coins with an output left. *)
Definition unspent (oc : option CCoins) : option CCoins :=
  c ← oc; if IsPruned c then None else Some c.

(** The unspent outputs of a view, by transaction. *)
Definition utxo (v : view) : gmap Z CCoins := omap (λ c, unspent (Some c)) (view_coins v).

Lemma lookup_utxo v t : utxo v !! t = unspent (view_coins v !! t).
Proof. unfold utxo. rewrite lookup_omap. by destruct (view_coins v !! t). Qed.

(** The stack of views, top first. *)
Fixpoint utxos (v : view) : list (gmap Z CCoins) :=
  utxo v :: match v with ViewDB _ _ => [] | ViewCache _ _ _ base => utxos base end.

(** ** Well-formed stacks *)

(** The view below has been asked for the transaction. *)
Definition asked (v : view) (t : Z) : Prop :=
  match v with ViewDB _ _ => True | ViewCache cacheCoins _ _ _ => is_Some (cacheCoins !! t) end.

(** An entry over its base: a fresh one has nothing below it, another one was
    read from below, and a clean one is what is below. *)
Record entry_wf (base : view) (t : Z) (e : CCoinsCacheEntry) : Prop := {
  ew_clean : clean (e_coins e);
  ew_fresh : e_fresh e = true → unspent (view_coins base !! t) = None;
  ew_asked : e_fresh e = false → asked base t;
  ew_same : e_dirty e = false → view_coins base !! t = Some (e_coins e)
}.

Fixpoint view_wf (v : view) : Prop :=
  match v with
  | ViewDB db _ => ∀ t c, db !! t = Some c → clean c ∧ IsPruned c = false
  | ViewCache cacheCoins _ m base => view_wf base ∧ m = false ∧ ∀ t e, cacheCoins !! t = Some e → entry_wf base t e
  end.

Lemma view_coins_cache cache h m base t :
  view_coins (ViewCache cache h m base) !! t = match cache !! t with Some e => Some (e_coins e) | None => view_coins base !! t end.
Proof. cbn [view_coins]. rewrite lookup_union, lookup_fmap. destruct (cache !! t); cbn; [by rewrite union_Some_l|]. by rewrite left_id_L by apply _. Qed.

Lemma view_coins_clean v t c : view_wf v → view_coins v !! t = Some c → clean c.
Proof.
  revert t c. induction v as [db best|cache h m base IH]; intros t c Hwf Hc.
  - by apply Hwf in Hc as [? _].
  - rewrite view_coins_cache in Hc. destruct Hwf as (Hb & _ & He). destruct (cache !! t) as [e|] eqn:E.
    + injection Hc as <-. by apply (He t e E).
    + by apply (IH t c).
Qed.

(** A view that shows the same, and has been asked for no less. *)
Definition extends (v v' : view) : Prop :=
  (∀ t, view_coins v' !! t = view_coins v !! t) ∧ (∀ t, asked v t → asked v' t).

Lemma entry_wf_extends v v' t e : extends v v' → entry_wf v t e → entry_wf v' t e.
Proof. intros [Hv Ha] [? ? ? ?]. split; rewrite ?Hv; auto. Qed.

Lemma utxo_ext v v' : (∀ t, view_coins v' !! t = view_coins v !! t) → utxo v' = utxo v.
Proof. intros H. apply map_eq. intros t. by rewrite !lookup_utxo, H. Qed.

(** ** Reads fill the caches and show the same *)

Lemma GetCoins_spec v t :
  view_wf v → let r := GetCoins v t in
  r.1 = view_coins v !! t ∧ view_wf r.2 ∧ extends v r.2 ∧ utxos r.2 = utxos v ∧ (is_Some r.1 → asked r.2 t).
Proof.
  induction v as [db best|cache h m base IH]; intros Hwf; cbn zeta;
    [cbn [GetCoins fst snd]; split_and!; [done|exact Hwf|by split|done|done]|].
  destruct Hwf as (Hb & -> & He). cbn [GetCoins]. pose proof (view_coins_cache cache h false base t) as Ht.
  destruct (cache !! t) as [e|] eqn:E;
    [cbn [fst snd]; split_and!; [by rewrite Ht|done|by split|done|intros _; by exists e]|].
  specialize (IH Hb). cbn zeta in IH. destruct (GetCoins base t) as [r base']. cbn [fst snd] in *.
  destruct IH as (-> & Hb' & Hext & Hus & Hask). destruct Hext as [Hsame Hasked].
  destruct (view_coins base !! t) as [c|] eqn:Ec; cbn [fst snd].
  - assert (∀ s, view_coins (ViewCache (<[t:=Entry c false (IsPruned c)]> cache) h false base') !! s =
              view_coins (ViewCache cache h false base) !! s) as Hv.
    { intros s. rewrite !view_coins_cache, lookup_insert. case_decide as Hs; [|by rewrite Hsame].
      subst s. by rewrite E, Ec. }
    split_and!; [by rewrite Ht| |split| | ].
    + split_and!; [done|done|]. intros s e. rewrite lookup_insert. case_decide as Hs.
      * intros [= <-]. subst s. split; cbn [e_coins e_fresh e_dirty].
        -- by apply (view_coins_clean base t c).
        -- intros Hp. rewrite Hsame, Ec. cbn. by rewrite Hp.
        -- auto.
        -- intros _. by rewrite Hsame.
      * intros Hs'. apply (entry_wf_extends base); [done|]. by apply He.
    + exact Hv.
    + intros s. cbn [asked]. rewrite lookup_insert. by case_decide.
    + cbn [utxos]. rewrite (utxo_ext _ _ Hv). by rewrite Hus.
    + intros _. cbn. by rewrite lookup_insert_eq.
  - assert (∀ s, view_coins (ViewCache cache h false base') !! s = view_coins (ViewCache cache h false base) !! s) as Hv
      by (intros s; by rewrite !view_coins_cache, Hsame).
    split_and!; [by rewrite Ht| |split| | ].
    + split_and!; [done|done|]. intros s e Hs. apply (entry_wf_extends base); [done|]. by apply He.
    + exact Hv.
    + done.
    + cbn [utxos]. rewrite (utxo_ext _ _ Hv). by rewrite Hus.
    + by intros [? ?].
Qed.

Lemma unspent_None_pruned c : unspent (Some c) = None ↔ IsPruned c = true.
Proof. cbn. by destruct (IsPruned c). Qed.

(** ** Modification *)

Lemma ModifyCoins_spec cache h base t :
  view_wf (ViewCache cache h false base) →
  ∃ c fresh base', ModifyCoins (ViewCache cache h false base) t =
      Ok (ViewCache (<[t := Entry c true fresh]> cache) h true base') ∧
    c = default CCoins_empty (view_coins (ViewCache cache h false base) !! t) ∧
    view_wf base' ∧ extends base base' ∧ utxos base' = utxos base ∧ clean c ∧
    (fresh = true → unspent (view_coins base !! t) = None) ∧ (fresh = false → asked base' t).
Proof.
  intros (Hb & _ & He). cbn [ModifyCoins assert_that negb mbind outcome_bind]. rewrite view_coins_cache.
  destruct (cache !! t) as [e|] eqn:E.
  - exists (e_coins e), (e_fresh e), base. destruct (He t e E). by split_and!.
  - pose proof (GetCoins_spec base t Hb) as H. cbn zeta in H. destruct (GetCoins base t) as [r base']. cbn [fst snd] in H.
    destruct H as (-> & Hb' & Hext & Hus & Hask). destruct (view_coins base !! t) as [c|] eqn:Ec.
    + exists c, (IsPruned c), base'. split_and!; try done.
      * by apply (view_coins_clean base t c).
      * intros Hp. by apply unspent_None_pruned.
      * intros _. by apply Hask.
    + exists CCoins_empty, true, base'. by split_and!.
Qed.

(** The unspent outputs after those of one transaction are set. *)
Definition put (u : gmap Z CCoins) (t : Z) (oc : option CCoins) : gmap Z CCoins := partial_alter (λ _, oc) t u.

Lemma lookup_put u t oc s : put u t oc !! s = if decide (s = t) then oc else u !! s.
Proof. unfold put. rewrite lookup_partial_alter. repeat case_decide; congruence. Qed.

Definition is_cache (v : view) : Prop := match v with ViewDB _ _ => False | ViewCache _ _ _ _ => True end.
Definition view_base (v : view) : view := match v with ViewDB _ _ => v | ViewCache _ _ _ base => base end.

Lemma modify_spec {A} v t (f : CCoins → A * CCoins) :
  view_wf v → is_cache v →
  ∃ c v', modify v t f = Ok ((f c).1, v') ∧ clean c ∧ unspent (Some c) = utxo v !! t ∧
    view_wf v' ∧ is_cache v' ∧ utxos v' = put (utxo v) t (unspent (Some (Cleanup (f c).2))) :: utxos (view_base v).
Proof.
  destruct v as [|cache h m base]; [done|]. intros Hwf _. pose proof Hwf as (Hb0 & -> & He).
  destruct (ModifyCoins_spec cache h base t Hwf) as (c & fresh & base' & E & Hc & Hb & Hext & Hus & Hcl & Hf & Ha).
  exists c. unfold modify. rewrite E. cbn [mbind outcome_bind modifier_update]. rewrite lookup_insert_eq. cbn [e_coins e_dirty e_fresh].
  assert (unspent (Some c) = utxo (ViewCache cache h false base) !! t) as Hu.
  { rewrite lookup_utxo, Hc. by destruct (view_coins _ !! t). }
  destruct (f c) as [a c1]. cbn [fst snd]. rewrite insert_insert_eq. cbn [mbind outcome_bind modifier_end assert_that].
  rewrite lookup_insert_eq. cbn [e_coins e_dirty e_fresh]. set (c2 := Cleanup c1).
  assert (∀ s e, s ≠ t → cache !! s = Some e → entry_wf base' s e) as Hother
    by (intros s e _ Hs; apply (entry_wf_extends base); auto).
  destruct Hext as [Hsame _]. eexists. split; [reflexivity|]. split_and!; try done.
  - split_and!; [done|done|]. destruct (fresh && IsPruned c2) eqn:Ef; intros s e.
    + rewrite lookup_delete_Some, lookup_insert_Some. naive_solver.
    + rewrite insert_insert_eq, lookup_insert. case_decide as Hs; [|by apply Hother].
      intros [= <-]. subst s. split; cbn [e_coins e_fresh e_dirty]; [apply Cleanup_clean| |auto|done].
      intros ->. rewrite Hsame. by apply Hf.
  - cbn [utxos view_base]. rewrite Hus. f_equal. apply map_eq. intros s. rewrite lookup_put, !lookup_utxo, !view_coins_cache.
    destruct (fresh && IsPruned c2) eqn:Ef.
    + rewrite lookup_delete, lookup_insert. apply andb_prop in Ef as [-> Hp]. repeat case_decide; try congruence; [|by rewrite Hsame].
      subst s. rewrite Hsame, (Hf eq_refl). symmetry. by apply unspent_None_pruned.
    + rewrite insert_insert_eq, lookup_insert. repeat case_decide; try congruence; [done|]. by rewrite Hsame.
Qed.

(** ** Flushing *)

(** Being well-formed over a base depends on what the base shows of the
    transaction, and whether it was asked for it. *)
Lemma entry_wf_at v v' t e :
  view_coins v' !! t = view_coins v !! t → (asked v t → asked v' t) → entry_wf v t e → entry_wf v' t e.
Proof. intros Hv Ha [? ? ? ?]. split; rewrite ?Hv; auto. Qed.

Lemma batch_one_spec cache h base t e :
  view_wf (ViewCache cache h false base) → entry_wf (ViewCache cache h false base) t e →
  ∃ cache', batch_one cache t e = Ok cache' ∧ view_wf (ViewCache cache' h false base) ∧
    (∀ s, s ≠ t → cache' !! s = cache !! s) ∧
    unspent (view_coins (ViewCache cache' h false base) !! t) = unspent (Some (e_coins e)).
Proof.
  intros (Hb & _ & He) [Hcl Hf Ha Hs]. rewrite view_coins_cache in Hf, Hs. unfold batch_one.
  destruct (e_dirty e) eqn:Ed.
  2: { exists cache. split_and!; [done|by split_and!|done|]. rewrite view_coins_cache, Hs; done. }
  destruct (cache !! t) as [us|] eqn:E.
  - destruct (He t us E) as [Ucl Uf Ua Us]. destruct (e_fresh us && IsPruned (e_coins e)) eqn:Eb.
    + apply andb_prop in Eb as [Ef Ep]. eexists. split_and!; [done|split_and!; [done|done|]|..].
      * intros s x [_ Hx]%lookup_delete_Some. by apply He.
      * intros s Hne. by rewrite lookup_delete_ne.
      * rewrite view_coins_cache, lookup_delete_eq, (Uf Ef). symmetry. by apply unspent_None_pruned.
    + eexists. split_and!; [done|split_and!; [done|done|]|..].
      * intros s x. rewrite lookup_insert. case_decide as Hst; [|apply He]. intros [= <-]. subst s. by split.
      * intros s Hne. by rewrite lookup_insert_ne.
      * by rewrite view_coins_cache, lookup_insert_eq.
  - assert (e_fresh e = true) as Ef by (destruct (e_fresh e); [done|]; destruct (Ha eq_refl) as [x Hx]; cbn in Hx; congruence).
    specialize (Hf Ef). rewrite Ef. destruct (IsPruned (e_coins e)) eqn:Ep; cbn [negb assert_that mbind outcome_bind].
    + exists cache. split_and!; [done|by split_and!|done|]. rewrite view_coins_cache, E, Hf. symmetry. by apply unspent_None_pruned.
    + eexists. split_and!; [done|split_and!; [done|done|]|..].
      * intros s x. rewrite lookup_insert. case_decide as Hst; [|apply He]. intros [= <-]. subst s. by split.
      * intros s Hne. by rewrite lookup_insert_ne.
      * by rewrite view_coins_cache, lookup_insert_eq.
Qed.

(** The coins of the child where it has an entry, those of the base elsewhere. *)
Definition overlay (l : list (Z * CCoinsCacheEntry)) (v : view) (s : Z) : option CCoins :=
  match (list_to_map l : CCoinsMap) !! s with
  | Some e => unspent (Some (e_coins e))
  | None => unspent (view_coins v !! s)
  end.

Lemma batch_cache_spec l cache h base :
  NoDup l.*1 → view_wf (ViewCache cache h false base) →
  (∀ t e, (t, e) ∈ l → entry_wf (ViewCache cache h false base) t e) →
  ∃ cache', batch_cache l cache = Ok cache' ∧ view_wf (ViewCache cache' h false base) ∧
    ∀ s, unspent (view_coins (ViewCache cache' h false base) !! s) = overlay l (ViewCache cache h false base) s.
Proof.
  revert cache. induction l as [|[t e] l IH]; intros cache Hnd Hwf Hl; [by exists cache|].
  apply list.NoDup_cons in Hnd as [Hnin Hnd].
  destruct (batch_one_spec cache h base t e Hwf) as (cache1 & E1 & Hwf1 & Hne & Ht); [apply Hl; by left|].
  assert (∀ s, s ≠ t → view_coins (ViewCache cache1 h false base) !! s = view_coins (ViewCache cache h false base) !! s) as Hs
    by (intros s Hst; by rewrite !view_coins_cache, Hne).
  destruct (IH cache1 Hnd Hwf1) as (cache' & E & Hwf' & Hov).
  { intros s x Hx. assert (s ≠ t) as Hst by (intros ->; apply Hnin, list_elem_of_fmap; by exists (t, x)).
    apply (entry_wf_at (ViewCache cache h false base)); [by apply Hs| |apply Hl; by right]. cbn. by rewrite Hne. }
  exists cache'. cbn [batch_cache]. rewrite E1. cbn [mbind outcome_bind]. split_and!; [done|done|].
  intros s. rewrite Hov. unfold overlay. cbn [list_to_map foldr fst snd]. rewrite lookup_insert. case_decide as Hst.
  - subst s. rewrite not_elem_of_list_to_map_1 by done. exact Ht.
  - case_match; [done|]. by rewrite Hs.
Qed.

Lemma batch_db_spec l db best :
  NoDup l.*1 → view_wf (ViewDB db best) → (∀ t e, (t, e) ∈ l → entry_wf (ViewDB db best) t e) →
  view_wf (ViewDB (batch_db l db) best) ∧ ∀ s, unspent (batch_db l db !! s) = overlay l (ViewDB db best) s.
Proof.
  revert db. induction l as [|[t e] l IH]; intros db Hnd Hwf Hl; [done|]. apply list.NoDup_cons in Hnd as [Hnin Hnd].
  unfold batch_db. cbn [fold_left fst snd]. fold (batch_db l).
  set (db1 := if e_dirty e then if IsPruned (e_coins e) then delete t db else <[t := e_coins e]> db else db).
  destruct (Hl t e) as [Hcl Hf Ha Hs]; [by left|]. cbn [view_coins] in Hs.
  assert (∀ s, s ≠ t → db1 !! s = db !! s) as Hne.
  { intros s Hst. subst db1. destruct (e_dirty e), (IsPruned (e_coins e)); [by rewrite lookup_delete_ne|by rewrite lookup_insert_ne|done..]. }
  assert (unspent (db1 !! t) = unspent (Some (e_coins e))) as Ht.
  { subst db1. destruct (e_dirty e); [|by rewrite Hs]. destruct (IsPruned (e_coins e)) eqn:Ep.
    - rewrite lookup_delete_eq. symmetry. by apply unspent_None_pruned.
    - by rewrite lookup_insert_eq. }
  destruct (IH db1 Hnd) as [Hwf' Hov].
  - intros s c Hc. destruct (decide (s = t)) as [->|Hst]; [|rewrite Hne in Hc by done; exact (Hwf s c Hc)].
    subst db1. destruct (e_dirty e); [|exact (Hwf t c Hc)]. destruct (IsPruned (e_coins e)) eqn:Ep.
    + by rewrite lookup_delete_eq in Hc.
    + rewrite lookup_insert_eq in Hc. injection Hc as <-. done.
  - intros s x Hx. assert (s ≠ t) as Hst by (intros ->; apply Hnin, list_elem_of_fmap; by exists (t, x)).
    apply (entry_wf_at (ViewDB db best)); [by apply Hne|done|]. apply Hl. by right.
  - split; [done|]. intros s. rewrite Hov. unfold overlay. cbn [list_to_map foldr fst snd]. rewrite lookup_insert. case_decide as Hst.
    + subst s. rewrite not_elem_of_list_to_map_1 by done. exact Ht.
    + case_match; [done|]. cbn [view_coins]. by rewrite Hne.
Qed.

Lemma Flush_spec cache h m base :
  view_wf (ViewCache cache h m base) →
  ∃ base', Flush (ViewCache cache h m base) = Ok (ViewCache ∅ h false base') ∧ view_wf (ViewCache ∅ h false base') ∧
    utxos base' = utxo (ViewCache cache h m base) :: tail (utxos base) ∧ utxo (ViewCache ∅ h false base') = utxo base'.
Proof.
  intros (Hb & -> & He). pose proof (NoDup_fst_map_to_list cache) as Hnd.
  assert (∀ t e, (t, e) ∈ map_to_list cache → entry_wf base t e) as Hl by (intros t e Hte%elem_of_map_to_list; by apply He).
  assert (∀ base', (∀ s, unspent (view_coins base' !! s) = overlay (map_to_list cache) base s) →
    utxo base' = utxo (ViewCache cache h false base)) as Hu.
  { intros base' H. apply map_eq. intros s. rewrite !lookup_utxo, H. unfold overlay. rewrite list_to_map_to_list, view_coins_cache.
    by destruct (cache !! s). }
  assert (∀ base', utxo (ViewCache ∅ h false base') = utxo base') as Hempty.
  { intros base'. apply utxo_ext. intros s. rewrite view_coins_cache. done. }
  cbn [Flush]. destruct base as [db best|cb hb mb bb].
  - destruct (batch_db_spec (map_to_list cache) db best Hnd Hb Hl) as [Hwf' Hov]. cbn [BatchWrite mbind outcome_bind].
    eexists. split; [reflexivity|]. split_and!; [split_and!; [exact Hwf'|done|done]| |apply Hempty].
    cbn [utxos tail]. f_equal. by apply Hu.
  - pose proof Hb as (Hbb & -> & _). destruct (batch_cache_spec (map_to_list cache) cb hb bb Hnd Hb Hl) as (cb' & E & Hwf' & Hov).
    cbn [BatchWrite negb assert_that mbind outcome_bind]. rewrite E. cbn [mbind outcome_bind].
    eexists. split; [reflexivity|]. split_and!; [split_and!; [|done|done]| |apply Hempty].
    + destruct Hwf' as (? & ? & ?). by split_and!.
    + cbn [utxos tail]. f_equal. apply Hu. intros s. rewrite <- Hov. by rewrite !view_coins_cache.
Qed.

(** ** The contract: a stack of maps *)

(** What a read of a transaction may give when its unspent outputs are [u]. *)
Definition seen (u r : option CCoins) : Prop := unspent r = u.

Inductive spec_step : list (gmap Z CCoins) → op → obs → list (gmap Z CCoins) → Prop :=
| spec_access u us t r : seen (u !! t) r → spec_step (u :: us) (OpAccess t) (SawCoins r) (u :: us)
| spec_have u us t : spec_step (u :: us) (OpHave t) (SawBool (bool_decide (is_Some (u !! t)))) (u :: us)
| spec_modify u us t f c :
    clean c → seen (u !! t) (Some c) →
    spec_step (u :: us) (OpModify t f) Nothing (put u t (unspent (Some (Cleanup (f c)))) :: us)
| spec_best us h : spec_step us OpBest (SawHash h) us
| spec_set_best us h : spec_step us (OpSetBest h) Nothing us
| spec_flush u u0 us : spec_step (u :: u0 :: us) OpFlush Nothing (u :: u :: us)
| spec_push u us : spec_step (u :: us) OpPush Nothing (u :: u :: us)
| spec_pop u u0 us : spec_step (u :: u0 :: us) OpPop Nothing (u0 :: us).

Inductive spec_run : list (gmap Z CCoins) → list op → list obs → list (gmap Z CCoins) → Prop :=
| spec_done us : spec_run us [] [] us
| spec_next us o b us' ops bs us'' :
    spec_step us o b us' → spec_run us' ops bs us'' → spec_run us (o :: ops) (b :: bs) us''.

Lemma utxos_top v : utxos v = utxo v :: tail (utxos v).
Proof. by destruct v. Qed.

Lemma HaveCoins_spec v t :
  view_wf v → let r := HaveCoins v t in
  r.1 = bool_decide (is_Some (utxo v !! t)) ∧ view_wf r.2 ∧ utxos r.2 = utxos v.
Proof.
  intros Hwf. rewrite lookup_utxo. destruct v as [db best|cache h m base]; cbn zeta.
  - cbn [HaveCoins fst snd]. split_and!; [|done..]. apply bool_decide_ext. cbn [view_coins].
    destruct (db !! t) as [c|] eqn:E; [|done]. cbn. destruct (Hwf t c E) as [_ ->]. done.
  - pose proof (GetCoins_spec _ t Hwf) as H. cbn zeta in H. unfold HaveCoins. destruct (GetCoins _ t) as [r v']. cbn [fst snd] in *.
    destruct H as (-> & Hwf' & _ & Hus & _). split_and!; [|done..].
    destruct (view_coins (ViewCache cache h m base) !! t) as [c|] eqn:E; [|done].
    apply view_coins_clean in E; [|done]. pose proof (clean_pruned c E) as Hp. cbn. destruct (c_vout c), (IsPruned c); try done.
    + by destruct Hp as [_ Hp]; specialize (Hp eq_refl).
    + by destruct Hp as [Hp _]; specialize (Hp eq_refl).
Qed.

Lemma GetBestBlock_spec v : view_wf v → let r := GetBestBlock v in view_wf r.2 ∧ extends v r.2 ∧ utxos r.2 = utxos v.
Proof.
  induction v as [db best|cache h m base IH]; intros Hwf; cbn zeta; [by split_and!|]. cbn [GetBestBlock].
  destruct (h =? 0); [|by split_and!]. destruct Hwf as (Hb & -> & He). specialize (IH Hb). cbn zeta in IH.
  destruct (GetBestBlock base) as [h' base']. cbn [fst snd] in *. destruct IH as (Hb' & Hext & Hus).
  assert (∀ s, view_coins (ViewCache cache h' false base') !! s = view_coins (ViewCache cache h false base) !! s) as Hv
    by (intros s; rewrite !view_coins_cache; destruct Hext as [-> _]; done).
  split_and!; [split_and!; [done|done|]|by split|].
  - intros s e Hs. apply (entry_wf_extends base); [done|]. by apply He.
  - cbn [utxos]. rewrite (utxo_ext _ _ Hv). by rewrite Hus.
Qed.

Lemma GetBestBlock_again v : (GetBestBlock (GetBestBlock v).2).1 = (GetBestBlock v).1.
Proof.
  induction v as [db best|cache h m base IH]; [done|]. cbn [GetBestBlock]. destruct (Z.eqb_spec h 0) as [->|Hh].
  - destruct (GetBestBlock base) as [h b]. cbn [fst snd] in *. cbn [GetBestBlock]. destruct (h =? 0); [|done]. by destruct (GetBestBlock b).
  - cbn [snd GetBestBlock]. by rewrite (proj2 (Z.eqb_neq _ _)).
Qed.

Lemma GetBestBlock_cache cache h m base :
  (GetBestBlock (ViewCache cache h m base)).1 = if h =? 0 then (GetBestBlock base).1 else h.
Proof. cbn [GetBestBlock]. destruct (h =? 0); [|done]. by destruct (GetBestBlock base). Qed.
Lemma GetCoins_best v t : (GetBestBlock (GetCoins v t).2).1 = (GetBestBlock v).1.
Proof.
  induction v as [db best|cache h m base IH]; [done|]. cbn [GetCoins]. destruct (cache !! t); [done|].
  destruct (GetCoins base t) as [[c|] base']; cbn [snd] in *; by rewrite !GetBestBlock_cache, IH.
Qed.
Lemma modify_best {A} v t (f : CCoins → A * CCoins) a v' : modify v t f = Ok (a, v') → (GetBestBlock v').1 = (GetBestBlock v).1.
Proof.
  unfold modify. intros (v1 & E1 & ([a1 v2] & E2 & (v3 & E3 & [= -> ->])%outcome_bind_ok)%outcome_bind_ok)%outcome_bind_ok.
  trans (GetBestBlock v2).1; [|trans (GetBestBlock v1).1].
  - destruct v2 as [|cache h m base]; [done|]. cbn in E3. destruct m; [|done]. cbn in E3. destruct (cache !! t); [|done]. injection E3 as <-. by rewrite !GetBestBlock_cache.
  - destruct v1 as [|cache h m base]; [done|]. cbn in E2. destruct (cache !! t); [|done]. destruct (f _). injection E2 as _ <-. by rewrite !GetBestBlock_cache.
  - destruct v as [|cache h m base]; [done|]. cbn in E1. destruct m; [done|]. cbn in E1. pose proof (GetCoins_best base t) as Hb.
    destruct (cache !! t); [injection E1 as <-; by rewrite !GetBestBlock_cache|].
    destruct (GetCoins base t) as [[c|] base']; injection E1 as <-; cbn [snd] in Hb; by rewrite !GetBestBlock_cache, Hb.
Qed.

(** ** Refinement *)

Lemma step_refines v o :
  view_wf v → safe (λ r, view_wf r.2 ∧ spec_step (utxos v) o r.1 (utxos r.2)) (step_view v o).
Proof.
  intros Hwf. destruct o as [t|t|t f| |h| | |]; cbn [step_view].
  - pose proof (GetCoins_spec v t Hwf) as H. cbn zeta in H. unfold AccessCoins. destruct (GetCoins v t) as [r v']. cbn [fst snd] in H.
    destruct H as (-> & Hwf' & _ & Hus & _). cbn. rewrite Hus, utxos_top. split; [done|]. constructor. unfold seen. by rewrite lookup_utxo.
  - pose proof (HaveCoins_spec v t Hwf) as H. cbn zeta in H. destruct (HaveCoins v t) as [b v']. cbn [fst snd] in H.
    destruct H as (-> & Hwf' & Hus). cbn. rewrite Hus, utxos_top. split; [done|]. constructor.
  - destruct v as [db best|cache h m base]; [done|].
    destruct (modify_spec _ t (λ c, (tt, f c)) Hwf I) as (c & v' & E & Hc & Hu & Hwf' & _ & Hus). rewrite E.
    cbn [mbind outcome_bind safe fst snd] in *. rewrite Hus. cbn [view_base]. split; [done|].
    change (utxos (ViewCache cache h m base)) with (utxo (ViewCache cache h m base) :: utxos base). by constructor.
  - pose proof (GetBestBlock_spec v Hwf) as H. cbn zeta in H. destruct (GetBestBlock v) as [h v']. cbn [fst snd] in H.
    destruct H as (Hwf' & _ & Hus). cbn. rewrite Hus. split; [done|]. constructor.
  - destruct v as [db best|cache h' m base]; [done|].
    cbn [SetBestBlock mbind outcome_bind safe fst snd utxos]. split; [done|].
    rewrite (utxo_ext (ViewCache cache h' m base) (ViewCache cache h m base)) by (intros s; by rewrite !view_coins_cache). constructor.
  - destruct v as [db best|cache h m base]; [done|]. destruct (Flush_spec cache h m base Hwf) as (base' & E & Hwf' & Hus & Hu).
    rewrite E. cbn [mbind outcome_bind safe fst snd]. split; [done|].
    change (utxos (ViewCache ∅ h false base')) with (utxo (ViewCache ∅ h false base') :: utxos base').
    change (utxos (ViewCache cache h m base)) with (utxo (ViewCache cache h m base) :: utxos base).
    rewrite Hu, Hus. rewrite (utxos_top base') in Hus. injection Hus as -> _. rewrite (utxos_top base). constructor.
  - cbn [safe fst snd new_cache utxos]. split; [by split_and!|].
    rewrite (utxo_ext v (ViewCache ∅ 0 false v)) by (intros s; by rewrite !view_coins_cache). rewrite utxos_top. constructor.
  - destruct v as [db best|cache h m base]; [done|]. destruct Hwf as (Hb & -> & _). cbn. split; [done|].
    rewrite (utxos_top base). constructor.
Qed.

Lemma run_refines ops v :
  view_wf v → safe (λ r, view_wf r.2 ∧ spec_run (utxos v) ops r.1 (utxos r.2)) (run_view v ops).
Proof.
  revert v. induction ops as [|o ops IH]; intros v Hwf; cbn [run_view]; [cbn; split; [done|constructor]|].
  eapply safe_bind; [by apply step_refines|]. intros [b v1] [Hwf1 Hs1]. cbn [fst snd] in *.
  eapply safe_bind; [by apply IH|]. intros [bs v2] [Hwf2 Hs2]. cbn [fst snd] in *. cbn. split; [done|]. by econstructor.
Qed.

Lemma step_cache_total v o : view_wf v → is_cache v → ∃ r, step_view v o = Ok r.
Proof.
  intros Hwf Hc. pose proof (step_refines v o Hwf) as H. destruct v as [|cache h m base]; [done|].
  destruct (step_view _ o) as [r|e| |] eqn:E; [by exists r| |done..].
  destruct o as [t|t|t f| |h'| | |]; cbn [step_view] in E.
  - by destruct (AccessCoins _ t) in E.
  - by destruct (HaveCoins _ t) in E.
  - destruct (modify_spec _ t (λ c, (tt, f c)) Hwf I) as (c & v' & E' & _). by rewrite E' in E.
  - by destruct (GetBestBlock _) in E.
  - done.
  - destruct (Flush_spec cache h m base Hwf) as (base' & E' & _). by rewrite E' in E.
  - done.
  - destruct Hwf as (_ & -> & _). done.
Qed.

(** ** The interface to block connection *)

(** The bare map of unspent outputs. *)
Definition utxo_ok (u : gmap Z CCoins) : Prop := ∀ t c, u !! t = Some c → clean c ∧ IsPruned c = false.

(** A store of coins: reading and modifying, and what they do to the unspent
    outputs.  A modification may start from any coins that show the same. *)
Class CoinsStore (V : Type) := {
  cs_ok : V → Prop;
  cs_utxo : V → gmap Z CCoins;
  cs_access : V → Z → option CCoins * V;
  cs_modify : ∀ {A : Type}, V → Z → (CCoins → A * CCoins) → vres (A * V);
  cs_best : V → Z * V;
  cs_set_best : V → Z → vres V;
  cs_utxo_ok v : cs_ok v → utxo_ok (cs_utxo v);
  cs_access_spec v t :
    cs_ok v → let r := cs_access v t in cs_ok r.2 ∧ cs_utxo r.2 = cs_utxo v ∧ seen (cs_utxo v !! t) r.1;
  cs_modify_spec {A} v t (f : CCoins → A * CCoins) :
    cs_ok v → ∃ c v', cs_modify v t f = Ok ((f c).1, v') ∧ clean c ∧ seen (cs_utxo v !! t) (Some c) ∧ cs_ok v' ∧
      cs_utxo v' = put (cs_utxo v) t (unspent (Some (Cleanup (f c).2)));
  cs_best_spec v :
    cs_ok v → let r := cs_best v in cs_ok r.2 ∧ cs_utxo r.2 = cs_utxo v ∧ (cs_best r.2).1 = r.1;
  cs_set_best_spec v h :
    cs_ok v → ∃ v', cs_set_best v h = Ok v' ∧ cs_ok v' ∧ cs_utxo v' = cs_utxo v ∧ (h ≠ 0 → (cs_best v').1 = h);
  cs_access_best v t : (cs_best (cs_access v t).2).1 = (cs_best v).1;
  cs_modify_best {A} v t (f : CCoins → A * CCoins) a v' : cs_modify v t f = Ok (a, v') → (cs_best v').1 = (cs_best v).1
}.

(** A cache on a stack is such a store. *)
#[export] Program Instance view_store : CoinsStore view := {|
  cs_ok v := view_wf v ∧ is_cache v;
  cs_utxo := utxo;
  cs_access := AccessCoins;
  cs_modify A := modify (A:=A);
  cs_best := GetBestBlock;
  cs_set_best := SetBestBlock
|}.
Next Obligation.
  intros v [Hwf _] t c. rewrite lookup_utxo. destruct (view_coins v !! t) as [d|] eqn:E; [|done]. cbn.
  destruct (IsPruned d) eqn:Ep; [done|]. intros [= <-]. split; [by apply (view_coins_clean v t)|done].
Qed.
Next Obligation.
  intros v t [Hwf Hc]. pose proof (GetCoins_spec v t Hwf) as H. cbn zeta in *. unfold AccessCoins.
  destruct v as [|cache h m base]; [done|]. destruct (GetCoins _ t) as [r v'] eqn:E. cbn [fst snd] in *.
  destruct H as (-> & Hwf' & [Hv _] & _ & _). split_and!; [done| |by apply utxo_ext|].
  - cbn [GetCoins] in E. destruct (cache !! t); [injection E as _ <-; done|].
    destruct (GetCoins base t) as [[c|] b]; injection E as _ <-; done.
  - unfold seen. by rewrite lookup_utxo.
Qed.
Next Obligation.
  intros A v t f [Hwf Hc]. destruct (modify_spec v t f Hwf Hc) as (c & v' & E & Hcl & Hu & Hwf' & Hc' & Hus).
  exists c, v'. split_and!; [done..|]. rewrite (utxos_top v') in Hus. by injection Hus.
Qed.
Next Obligation.
  intros v [Hwf Hc]. pose proof (GetBestBlock_spec v Hwf) as H. cbn zeta in *. destruct v as [|cache h m base]; [done|].
  cbn [GetBestBlock] in *. destruct (Z.eqb_spec h 0) as [->|Hh]; cbn [fst snd] in *.
  - pose proof (GetBestBlock_again base) as Ha. destruct (GetBestBlock base) as [h b]. cbn [fst snd] in *. destruct H as (? & [Hv _] & _).
    split_and!; [done..|by apply utxo_ext|]. cbn [GetBestBlock]. destruct (h =? 0); [|done]. by destruct (GetBestBlock b).
  - split_and!; [done..|]. cbn [GetBestBlock]. by rewrite (proj2 (Z.eqb_neq _ _)).
Qed.
Next Obligation.
  intros v h [Hwf Hc]. destruct v as [|cache h' m base]; [done|]. eexists. split; [reflexivity|]. split_and!; [done..| |].
  - apply utxo_ext. intros s. by rewrite !view_coins_cache.
  - intros Hh. cbn [GetBestBlock]. by rewrite (proj2 (Z.eqb_neq _ _)).
Qed.
Next Obligation. apply GetCoins_best. Qed.
Next Obligation. intros A v t f a v' E. by apply modify_best in E. Qed.

(** So is a bare map with the best block. *)
Definition map_modify {A} (u : gmap Z CCoins * Z) (t : Z) (f : CCoins → A * CCoins) : vres (A * (gmap Z CCoins * Z)) :=
  let '(a, c) := f (default CCoins_empty (u.1 !! t)) in Ok (a, (put u.1 t (unspent (Some (Cleanup c))), u.2)).
#[export] Program Instance map_store : CoinsStore (gmap Z CCoins * Z) := {|
  cs_ok u := utxo_ok u.1;
  cs_utxo := fst;
  cs_access u t := (u.1 !! t, u);
  cs_modify A := map_modify (A:=A);
  cs_best u := (u.2, u);
  cs_set_best u h := Ok (u.1, h)
|}.
Next Obligation. done. Qed.
Next Obligation.
  intros [u b] t Hu. cbn in *. split_and!; [done..|]. unfold seen. destruct (u !! t) as [c|] eqn:E; [|done]. cbn. by destruct (Hu t c E) as [_ ->].
Qed.
Next Obligation.
  intros A [u b] t f Hu. cbn zeta in *. unfold map_modify. cbn [fst snd] in *. set (c := default CCoins_empty (u !! t)).
  assert (clean c ∧ seen (u !! t) (Some c)) as [Hcl Hs].
  { subst c. unfold seen. destruct (u !! t) as [c|] eqn:E; [|done]. destruct (Hu t c E) as [? Hp]. cbn. by rewrite Hp. }
  exists c. destruct (f c) as [a c1]. eexists. split_and!; [done..| |done]. intros s x. cbn [fst]. rewrite lookup_put. case_decide; [|apply Hu].
  unfold unspent. cbn [mbind option_bind snd]. destruct (IsPruned (Cleanup c1)) eqn:Ep; [done|]. intros [= <-]. split; [apply Cleanup_clean|done].
Qed.
Next Obligation. done. Qed.
Next Obligation. intros [u b] h Hu. by exists (u, h). Qed.
Next Obligation. done. Qed.
Next Obligation. intros A [u b] t f a v'. unfold map_modify. destruct (f _) as [a' c]. by intros [= _ <-]. Qed.

(** ** Inputs of a transaction *)

Section Inputs.
Context `{CoinsStore V}.

(** [GetOutputFor(input)] *)
Definition GetOutputFor (v : V) (i : CTxIn) : vres (CTxOut * V) :=
  let '(coins, v) := cs_access v (prevout_hash (prevout i)) in
  match coins with
  | Some c =>
      _ ← assert_that (IsAvailable c (Z.to_nat (prevout_n (prevout i))));
      match c_vout c !! Z.to_nat (prevout_n (prevout i)) with
      | Some o => Ok (o, v)
      | None => AssertFail
      end
  | None => AssertFail
  end.

Fixpoint GetValueIn_loop (v : V) (ins : list CTxIn) (nResult : Z) : vres (Z * V) :=
  match ins with
  | [] => Ok (nResult, v)
  | i :: ins =>
      '(o, v) ← GetOutputFor v i;
      nResult ← add64 nResult (nValue o);
      GetValueIn_loop v ins nResult
  end.
Definition GetValueIn (v : V) (tx : CTransaction) : vres (Z * V) :=
  if IsCoinBase tx then Ok (0, v) else GetValueIn_loop v (vin tx) 0.

Fixpoint HaveInputs_loop (v : V) (ins : list CTxIn) : bool * V :=
  match ins with
  | [] => (true, v)
  | i :: ins =>
      let '(coins, v) := cs_access v (prevout_hash (prevout i)) in
      match coins with
      | Some c => if IsAvailable c (Z.to_nat (prevout_n (prevout i))) then HaveInputs_loop v ins else (false, v)
      | None => (false, v)
      end
  end.
Definition HaveInputs (v : V) (tx : CTransaction) : bool * V :=
  if IsCoinBase tx then (true, v) else HaveInputs_loop v (vin tx).
End Inputs.

(** ** Properties *)

(** C6: from any well-formed stack, any sequence of reads, modifications,
    flushes, new and dropped caches runs without a failed assertion and keeps the
    stack well-formed; what it reads and leaves is what the abstract stack of maps
    allows.  With a cache on top no operation is refused. *)
Theorem coins_view_refines (v : view) (ops : list op) :
  view_wf v →
  safe (λ r, view_wf r.2 ∧ spec_run (utxos v) ops r.1 (utxos r.2)) (run_view v ops) ∧
  (is_cache v → ∀ o, ∃ r, step_view v o = Ok r).
Proof. intros Hwf. split; [by apply run_refines|]. intros Hc o. by apply step_cache_total. Qed.

Lemma coins_view_refines_witness :
  let v := new_cache (new_cache (ViewDB {[5 := Coins false false [TxOut 3 [] (-10)] 1 1]} 9)) in
  let ops := [OpAccess 5; OpModify 5 (λ c, (Spend c 0).2); OpHave 5; OpFlush; OpPop; OpFlush; OpHave 5] in
  view_wf v ∧ ∃ r, run_view v ops = Ok r ∧ spec_run (utxos v) ops r.1 (utxos r.2).
Proof.
  cbn zeta.
  assert (view_wf (new_cache (new_cache (ViewDB {[5 := Coins false false [TxOut 3 [] (-10)] 1 1]} 9)))) as Hwf.
  { split_and!; [|done..]. split_and!; [|done..]. intros t c [<- <-]%lookup_singleton_Some. split; reflexivity. }
  split; [exact Hwf|].
  destruct (coins_view_refines _ [OpAccess 5; OpModify 5 (λ c, (Spend c 0).2); OpHave 5; OpFlush; OpPop; OpFlush; OpHave 5] Hwf)
    as [H _].
  match goal with |- ∃ r, ?m = Ok r ∧ _ => destruct m as [r| | |] eqn:E end;
    [exists r; split; [reflexivity|apply H]|vm_compute in E; discriminate E..].
Defined.
