(* ===== verification/Utxo.v ===== *)
(** * Applying and undoing transactions (main.cpp: UpdateCoins, DisconnectBlock)

    What a transaction does to the unspent outputs, and how the undo data takes
    it back.  Every operation is written against the interface of a coin store,
    so it holds for a stack of caches; its effect is given by a pure function on
    the map of unspent outputs. *)
From stdpp Require Import base tactics list gmap numbers option.
From Stdlib Require Import ZArith Lia.
From S2P Require Import Prelude.
From S2P Require Import ScriptCode.
From S2P Require Import Transaction.
From S2P Require Import Coins.
From S2P Require Import CoinsView.

Notation utxo_map := (gmap Z CCoins).

Definition prevout_pos (i : CTxIn) : nat := Z.to_nat (prevout_n (prevout i)).

Section Operations.
Context `{CoinsStore V}.

(** ** UpdateCoins *)

(** The loop over the inputs; [vprevout] is what it has pushed. *)
Fixpoint spend_inputs (ins : list CTxIn) (v : V) (vprevout : list CTxInUndo) : vres (list CTxInUndo * V) :=
  match ins with
  | [] => Ok (vprevout, v)
  | i :: ins =>
      '(ret, v) ← cs_modify v (prevout_hash (prevout i)) (λ c, Spend c (prevout_pos i));
      match ret with
      | Some undo => spend_inputs ins v (vprevout ++ [undo])
      | None => AssertFail
      end
  end.

Definition UpdateCoins (tx : CTransaction) (v : V) (nHeight : Z) : vres (list CTxInUndo * V) :=
  '(txundo, v) ← (if negb (IsCoinBase tx) then spend_inputs (vin tx) v [] else Ok ([], v));
  '(_, v) ← cs_modify v (tx_hash tx) (λ _, (tt, FromTx tx nHeight));
  Ok (txundo, v).

(** ** Undoing a transaction *)

Definition Clear (c : CCoins) : CCoins := Coins false false [] 0 0.

(** The block that compares the outputs of a transaction with what the view
    holds and removes them; the boolean says they match. *)
Definition remove_outputs (tx : CTransaction) (nHeight : Z) (outs : CCoins) : bool * CCoins :=
  let outs := ClearUnspendable outs in
  let outsBlock := FromTx tx nHeight in
  let outs := if c_nVersion outsBlock <? 0
              then Coins (fCoinBase outs) (fCoinStake outs) (c_vout outs) (c_nHeight outs) (c_nVersion outsBlock) else outs in
  (CCoins_eq outs outsBlock, Clear outs).

(** [vout.resize(n + 1)] when it is shorter. *)
Definition grow (vout : list CTxOut) (n : nat) : list CTxOut :=
  if (length vout <? n + 1)%nat then vout ++ replicate (n + 1 - length vout) CTxOut_null else vout.

(** Restoring one input from its undo record; the boolean says that nothing was
    out of place. *)
Definition restore_coins (n : nat) (undo : CTxInUndo) (coins : CCoins) : bool * CCoins :=
  let '(ok, coins) :=
    if negb (u_nHeight undo =? 0) then
      let ok := IsPruned coins in
      let coins := Clear coins in
      (ok, Coins (u_fCoinBase undo) (fCoinStake coins) (c_vout coins) (s32 (u_nHeight undo)) (u_nVersion undo))
    else (negb (IsPruned coins), coins) in
  let ok := ok && negb (IsAvailable coins n) in
  (ok, with_vout coins (<[n := u_txout undo]> (grow (c_vout coins) n))).

Definition restore_input (v : V) (i : CTxIn) (undo : CTxInUndo) : vres (bool * V) :=
  cs_modify v (prevout_hash (prevout i)) (restore_coins (prevout_pos i) undo).

(** [for (unsigned int j = tx.vin.size(); j-- > 0;)] *)
Fixpoint restore_inputs (j : nat) (ins : list CTxIn) (vprevout : list CTxInUndo) (v : V) (fClean : bool) : vres (bool * V) :=
  match j with
  | O => Ok (fClean, v)
  | S j =>
      match ins !! j, vprevout !! j with
      | Some i, Some undo =>
          '(ok, v) ← restore_input v i undo;
          restore_inputs j ins vprevout v (fClean && ok)
      | _, _ => AssertFail
      end
  end.

(** The coins of one transaction of the block, [i] its place. *)
Definition undo_tx (i : nat) (tx : CTransaction) (nHeight : Z) (vtxundo : list (list CTxInUndo)) (v : V) (fClean : bool)
  : vres (bool * V) :=
  '(same, v) ← cs_modify v (tx_hash tx) (remove_outputs tx nHeight);
  let fClean := fClean && same in
  match i with
  | O => Ok (fClean, v)
  | S i' =>
      match vtxundo !! i' with
      | None => AssertFail
      | Some vprevout =>
          if negb (Nat.eqb (length vprevout) (length (vin tx))) then Err tt
          else restore_inputs (length (vin tx)) (vin tx) vprevout v fClean
      end
  end.

(** The transactions of the block below [i], last first. *)
Fixpoint undo_txs (i : nat) (vtx : list CTransaction) (nHeight : Z) (vtxundo : list (list CTxInUndo)) (v : V) (fClean : bool)
  : vres (bool * V) :=
  match i with
  | O => Ok (fClean, v)
  | S i =>
      match vtx !! i with
      | None => AssertFail
      | Some tx =>
          '(fClean, v) ← undo_tx i tx nHeight vtxundo v fClean;
          undo_txs i vtx nHeight vtxundo v fClean
      end
  end.

End Operations.

(** ** The effect on the map of unspent outputs *)

Definition spend1 (u : utxo_map) (i : CTxIn) : option (CTxInUndo * utxo_map) :=
  c ← u !! prevout_hash (prevout i);
  match Spend c (prevout_pos i) with
  | (Some undo, c') => Some (undo, put u (prevout_hash (prevout i)) (unspent (Some c')))
  | (None, _) => None
  end.

(** The records and the map after the inputs, in order. *)
Fixpoint spends (u : utxo_map) (ins : list CTxIn) : option (list CTxInUndo * utxo_map) :=
  match ins with
  | [] => Some ([], u)
  | i :: ins => '(x, u) ← spend1 u i; '(xs, u) ← spends u ins; Some (x :: xs, u)
  end.

Definition update (u : utxo_map) (tx : CTransaction) (nHeight : Z) : option (list CTxInUndo * utxo_map) :=
  '(xs, u) ← (if negb (IsCoinBase tx) then spends u (vin tx) else Some ([], u));
  Some (xs, put u (tx_hash tx) (unspent (Some (FromTx tx nHeight)))).

Fixpoint updates (u : utxo_map) (txs : list CTransaction) (nHeight : Z) : option (list (list CTxInUndo) * utxo_map) :=
  match txs with
  | [] => Some ([], u)
  | tx :: txs => '(xs, u) ← update u tx nHeight; '(xss, u) ← updates u txs nHeight; Some (xs :: xss, u)
  end.

Lemma spends_snoc u ins i :
  spends u (ins ++ [i]) = '(xs, u1) ← spends u ins; '(x, u2) ← spend1 u1 i; Some (xs ++ [x], u2).
Proof.
  revert u. induction ins as [|j ins IH]; intros u; cbn [spends app].
  - cbn. by destruct (spend1 u i) as [[x u2]|].
  - destruct (spend1 u j) as [[x u1]|]; [|done]. cbn. rewrite IH. destruct (spends u1 ins) as [[xs u2]|]; [|done]. cbn.
    by destruct (spend1 u2 i) as [[y u3]|].
Qed.
Lemma updates_snoc u txs tx h :
  updates u (txs ++ [tx]) h = '(xss, u1) ← updates u txs h; '(xs, u2) ← update u1 tx h; Some (xss ++ [xs], u2).
Proof.
  revert u. induction txs as [|t txs IH]; intros u; cbn [updates app].
  - cbn. by destruct (update u tx h) as [[x u2]|].
  - destruct (update u t h) as [[x u1]|]; [|done]. cbn. rewrite IH. destruct (updates u1 txs h) as [[xs u2]|]; [|done]. cbn.
    by destruct (update u2 tx h) as [[y u3]|].
Qed.

(** ** Coins that can be restored *)

(** Spent outputs are exactly the null output, and the height can tell a record
    with metadata from one without. *)
Definition canonical (v : list CTxOut) : Prop := ∀ n o, v !! n = Some o → CTxOut_IsNull o = true → o = CTxOut_null.
Definition restorable (c : CCoins) : Prop := canonical (c_vout c) ∧ 0 < c_nHeight c < 2 ^ 31.
Definition utxo_wf (u : utxo_map) : Prop := utxo_ok u ∧ ∀ t c, u !! t = Some c → restorable c.

Lemma Cleanup_split v : canonical v → v = Cleanup_vout v ++ replicate (length v - length (Cleanup_vout v)) CTxOut_null.
Proof.
  induction v as [|o v IH] using rev_ind; intros Hc; [done|]. rewrite Cleanup_vout_snoc.
  destruct (CTxOut_IsNull o) eqn:En; [|by rewrite Nat.sub_diag, app_nil_r].
  assert (o = CTxOut_null) as ->.
  { apply (Hc (length v)); [|done]. by rewrite lookup_app_r, Nat.sub_diag. }
  assert (canonical v) as Hv by (intros n o' Hn; apply (Hc n); by apply lookup_app_l_Some).
  specialize (IH Hv). assert (length (Cleanup_vout v) ≤ length v)%nat as Hl.
  { rewrite IH at 2. rewrite length_app. lia. }
  rewrite IH at 1. rewrite length_app. cbn [length].
  replace (length v + 1 - length (Cleanup_vout v))%nat with (S (length v - length (Cleanup_vout v))) by lia.
  by rewrite replicate_S_end, app_assoc.
Qed.

Lemma Cleanup_vout_take v m :
  canonical v → (length (Cleanup_vout v) ≤ m)%nat → Cleanup_vout (take m v) = Cleanup_vout v.
Proof.
  intros Hc Hm. rewrite (Cleanup_split v Hc) at 1. rewrite take_app, take_ge by done. rewrite take_replicate, Cleanup_vout_pad.
  apply Cleanup_vout_idem.
Qed.

Lemma canonical_insert v n : canonical v → canonical (<[n := CTxOut_null]> v).
Proof.
  intros Hc m o Hm Ho. destruct (decide (m = n)) as [->|Hne].
  - apply list_lookup_insert_Some in Hm as [(_ & <- & _)|[? _]]; done.
  - rewrite list_lookup_insert_ne in Hm by done. by apply (Hc m).
Qed.
Lemma canonical_Cleanup v : canonical v → canonical (Cleanup_vout v).
Proof. intros Hc n o Hn. apply (Hc n). rewrite (Cleanup_split v Hc). by apply lookup_app_l_Some. Qed.

(** Growing the cleaned list and putting the output back gives the list again. *)
Lemma grow_restores v n o :
  canonical v → Cleanup_vout v = v → v !! n = Some o → 
  Cleanup_vout (<[n := o]> (grow (Cleanup_vout (<[n := CTxOut_null]> v)) n)) = v.
Proof.
  intros Hc Hcl Hn. set (w := <[n := CTxOut_null]> v). pose proof (lookup_lt_Some _ _ _ Hn) as Hlt.
  assert (canonical w) as Hw by by apply canonical_insert. assert (length w = length v) as Hlw by apply length_insert.
  pose proof (Cleanup_split w Hw) as E. set (cl := Cleanup_vout w) in *.
  assert (length cl ≤ length w)%nat as Hl by (rewrite E, length_app; lia).
  assert (grow cl n = take (length cl `max` (n + 1)) w) as ->.
  { rewrite E at 1. rewrite take_app, take_ge, take_replicate by lia. unfold grow.
    destruct (Nat.ltb_spec (length cl) (n + 1)) as [Hs|Hs].
    - do 2 f_equal. lia.
    - rewrite (proj2 (Nat.sub_0_le _ _)) by lia. by rewrite Nat.min_0_l, app_nil_r. }
  rewrite <- take_insert_lt by lia. unfold w. rewrite list_insert_insert_eq, list_insert_id by done.
  rewrite <- Hcl at 2. rewrite <- (take_drop (length cl `max` (n + 1)) v) at 2.
  assert (drop (length cl `max` (n + 1)) v = replicate (length w - length cl - (n + 1 - length cl)) CTxOut_null) as ->.
  { transitivity (drop (length cl `max` (n + 1)) w); [unfold w; by rewrite drop_insert_lt by lia|].
    rewrite E at 1. rewrite drop_app, drop_ge, drop_replicate by lia. cbn [app]. f_equal. lia. }
  by rewrite Cleanup_vout_pad.
Qed.

Lemma unspent_Some c : unspent (Some c) = if IsPruned c then None else Some c.
Proof. done. Qed.

Lemma restorable_Spend c n x c' : clean c → restorable c → Spend c n = (Some x, c') → restorable c'.
Proof.
  intros Hcl [Hc Hh] E. pose proof (Spend_spec c n Hcl) as H. rewrite E in H. destruct H as (_ & _ & _ & _ & Hv & _ & _ & Hht & _).
  split; [|by rewrite Hht]. rewrite Hv. by apply canonical_Cleanup, canonical_insert.
Qed.

(** The flag that restoring loses: [DisconnectBlock] sets the fields of coins that were
    fully spent from the undo record, but not [fCoinStake]. *)
Definition drop_stake (c : CCoins) : CCoins := Coins (fCoinBase c) false (c_vout c) (c_nHeight c) (c_nVersion c).
Definition mark (lost : bool) (c : CCoins) : CCoins := if lost then drop_stake c else c.
Definition drop_stakes (lost : Z → bool) (u : utxo_map) : utxo_map := map_imap (λ t c, Some (mark (lost t) c)) u.

Lemma IsPruned_mark b c : IsPruned (mark b c) = IsPruned c.
Proof. by destruct b. Qed.
Lemma mark_id b c : fCoinStake c = false ∨ b = false → mark b c = c.
Proof. destruct b, c; cbn; [intros [->|[=]]|]; done. Qed.
Lemma unspent_mark b oc : unspent (mark b <$> oc) = mark b <$> unspent oc.
Proof. destruct oc as [c|]; [|done]. cbn. rewrite IsPruned_mark. by destruct (IsPruned c). Qed.
Lemma lookup_drop_stakes D u t : drop_stakes D u !! t = mark (D t) <$> u !! t.
Proof. unfold drop_stakes. rewrite map_lookup_imap. by destruct (u !! t). Qed.

(** An undo record gives the coins back, from anything that shows what spending left,
    whether or not the flag was lost before; it is lost when the record is the last
    output's. *)
Lemma restore_spent c n x c' d b :
  clean c → restorable c → Spend c n = (Some x, c') → (IsPruned c' = true → b = true) →
  unspent (Some d) = unspent (Some (mark b c')) → ∃ r, restore_coins n x d = (true, r) ∧ Cleanup r = mark b c.
Proof.
  intros Hcl [Hc Hh] E Hst Hd. pose proof (Spend_spec c n Hcl) as H. rewrite E in H.
  destruct H as (Hav & Hcl' & Hn & Hi & Hv & Hb & Hs & Hht & Hver & Hx).
  assert (∀ cb cs h ver, Cleanup (with_vout (Coins cb cs (c_vout c') h ver) (<[n := u_txout x]> (grow (c_vout c') n))) = Coins cb cs (c_vout c) h ver) as Hr.
  { intros. unfold Cleanup, with_vout. cbn [fCoinBase fCoinStake c_vout c_nHeight c_nVersion]. f_equal. rewrite Hv.
    apply grow_restores; [done|by apply clean_vout|done]. }
  rewrite !unspent_Some, IsPruned_mark in Hd. unfold restore_coins. destruct (IsPruned c') eqn:Ep.
  - assert (u32 (c_nHeight c) = c_nHeight c) as Hu by (apply u32_id; unfold is_u; lia).
    assert (s32 (c_nHeight c) = c_nHeight c) as Hs32 by (apply s32_id; unfold is_s; lia).
    rewrite (Hst eq_refl). assert (IsPruned d = true) as Hpd by (by destruct (IsPruned d)).
    assert (c_vout c' = []) as Hv0 by (by apply (clean_pruned c' Hcl')).
    set (o := u_txout x) in *. rewrite Hx. cbn [u_nHeight u_fCoinBase u_nVersion u_txout]. rewrite Hu, Hs32.
    rewrite (proj2 (Z.eqb_neq _ _)) by lia. cbn [negb]. rewrite Hpd. eexists. split; [reflexivity|].
    cbn [Clear c_vout fCoinStake]. specialize (Hr (fCoinBase c) false (c_nHeight c) (c_nVersion c)). rewrite Hv0 in Hr. by rewrite Hr.
  - assert (d = mark b c') as -> by (destruct (IsPruned d); congruence).
    assert (u_nHeight x = 0) as Hu by (by rewrite Hx). rewrite Hu. cbn [negb Z.eqb]. rewrite IsPruned_mark, Ep. cbn [negb andb].
    assert (IsAvailable (mark b c') n = false) as -> by (transitivity (IsAvailable c' n); [by destruct b|]; rewrite Hi; by rewrite decide_True).
    eexists. split; [reflexivity|].
    specialize (Hr (fCoinBase c') (if b then false else fCoinStake c') (c_nHeight c') (c_nVersion c')). destruct c' as [cb cs vo h ver].
    destruct c as [cb0 cs0 vo0 h0 ver0], b; unfold mark, drop_stake in *; cbn in *; rewrite Hr; by subst.
Qed.

Lemma Cleanup_vout_prefix v : Cleanup_vout v `prefix_of` v.
Proof.
  induction v as [|o v IH] using rev_ind; [done|]. rewrite Cleanup_vout_snoc. destruct (CTxOut_IsNull o); [|done].
  etrans; [exact IH|]. by apply prefix_app_r.
Qed.

Lemma ClearUnspendable_idem c : ClearUnspendable (ClearUnspendable c) = ClearUnspendable c.
Proof.
  assert (∀ v, clear_unspendable <$> Cleanup_vout (clear_unspendable <$> v) = Cleanup_vout (clear_unspendable <$> v)) as E.
  { intros v. apply list_eq. intros i. rewrite list_lookup_fmap. destruct (_ !! i) as [o|] eqn:Ho; [|done]. cbn. f_equal.
    pose proof (prefix_lookup_Some _ _ _ _ Ho (Cleanup_vout_prefix _)) as Hf. apply list_lookup_fmap_Some in Hf as (o' & -> & _).
    unfold clear_unspendable. destruct (IsUnspendable (scriptPubKey o')) eqn:E; [done|]. by rewrite E. }
  unfold ClearUnspendable, Cleanup, with_vout. cbn [c_vout fCoinBase fCoinStake c_nHeight c_nVersion].
  by rewrite E, Cleanup_vout_idem.
Qed.

Lemma FromTx_clean tx h : clean (FromTx tx h).
Proof. apply Cleanup_clean. Qed.

Lemma CCoins_eq_refl c : CCoins_eq c c = true.
Proof.
  unfold CCoins_eq. destruct (IsPruned c && IsPruned c); [done|]. rewrite !eqb_reflx, !Z.eqb_refl. cbn. by apply bool_decide_eq_true.
Qed.

(** Removing a transaction's outputs from coins that show just them. *)
Lemma remove_outputs_spec tx h d :
  unspent (Some d) = unspent (Some (FromTx tx h)) → clean d → remove_outputs tx h d = (true, CCoins_empty).
Proof.
  intros Hd Hcl. unfold remove_outputs, Clear. f_equal. rewrite !unspent_Some in Hd. destruct (IsPruned (FromTx tx h)) eqn:Ep.
  - assert (IsPruned (ClearUnspendable d) = true) as Hp.
    { assert (IsPruned d = true) as Hp by (by destruct (IsPruned d)). apply (clean_pruned d Hcl) in Hp. unfold ClearUnspendable. rewrite IsPruned_Cleanup.
      unfold IsPruned, with_vout. cbn [c_vout]. by rewrite Hp. }
    unfold CCoins_eq. rewrite Ep. replace (IsPruned _) with true; [done|]. by destruct (_ <? 0).
  - assert (d = FromTx tx h) as -> by (destruct (IsPruned d); congruence). 
    assert (ClearUnspendable (FromTx tx h) = FromTx tx h) as -> by apply ClearUnspendable_idem.
    destruct (c_nVersion (FromTx tx h) <? 0); [|apply CCoins_eq_refl].
    destruct (FromTx tx h); apply CCoins_eq_refl.
Qed.

(** ** The operations have that effect *)

Section Effects.
Context `{CoinsStore V}.

Lemma seen_Some u t c d : utxo_ok u → u !! t = Some c → seen (u !! t) (Some d) → d = c.
Proof. intros Hu Hc. unfold seen. rewrite Hc, unspent_Some. by destruct (IsPruned d); [|intros [= ->]]. Qed.

Lemma unspent_lookup u t c : utxo_ok u → u !! t = Some c → unspent (Some c) = Some c.
Proof. intros Hu Hc. rewrite unspent_Some. by destruct (Hu t c Hc) as [_ ->]. Qed.

Lemma Spend_clean c n x c' : clean c → Spend c n = (Some x, c') → clean c'.
Proof. intros Hc E. pose proof (Spend_spec c n Hc) as S. rewrite E in S. by destruct S as (_ & ? & _). Qed.

Lemma spend_input_spec v i :
  cs_ok v →
  match spend1 (cs_utxo v) i with
  | Some (x, u') => ∃ v', cs_modify v (prevout_hash (prevout i)) (λ c, Spend c (prevout_pos i)) = Ok (Some x, v') ∧ cs_ok v' ∧ cs_utxo v' = u'
  | None => ∃ v', cs_modify v (prevout_hash (prevout i)) (λ c, Spend c (prevout_pos i)) = Ok (None, v')
  end.
Proof.
  intros Hv. destruct (cs_modify_spec v (prevout_hash (prevout i)) (λ c, Spend c (prevout_pos i)) Hv) as (c & v' & -> & Hcl & Hs & Hv' & Hu').
  pose proof (cs_utxo_ok v Hv) as Hok. unfold spend1. destruct (cs_utxo v !! prevout_hash (prevout i)) as [c0|] eqn:E; cbn [mbind option_bind].
  - assert (c = c0) as -> by (apply (seen_Some (cs_utxo v) (prevout_hash (prevout i))); [done..|by rewrite E]).
    destruct (Spend c0 (prevout_pos i)) as [[x|] c'] eqn:Es; [|by eexists]. eexists. split_and!; [done..|]. rewrite Hu'. cbn [snd].
    by rewrite (Spend_clean _ _ _ _ Hcl Es).
  - assert (c_vout c = []) as Hn.
    { apply (clean_pruned c Hcl). unfold seen in Hs. rewrite unspent_Some in Hs. by destruct (IsPruned c). }
    exists v'. by unfold Spend; rewrite Hn.
Qed.

Lemma spend_inputs_spec ins v vprevout :
  cs_ok v →
  match spends (cs_utxo v) ins with
  | Some (xs, u') => ∃ v', spend_inputs ins v vprevout = Ok (vprevout ++ xs, v') ∧ cs_ok v' ∧ cs_utxo v' = u'
  | None => spend_inputs ins v vprevout = AssertFail
  end.
Proof.
  revert v vprevout. induction ins as [|i ins IH]; intros v vprevout Hv; cbn [spends spend_inputs].
  { exists v. by rewrite app_nil_r. }
  pose proof (spend_input_spec v i Hv) as H1. destruct (spend1 (cs_utxo v) i) as [[x u1]|]; cbn [mbind option_bind].
  - destruct H1 as (v1 & -> & Hv1 & <-). cbn [mbind outcome_bind]. specialize (IH v1 (vprevout ++ [x]) Hv1).
    destruct (spends (cs_utxo v1) ins) as [[xs u2]|]; cbn [mbind option_bind]; [|done]. by rewrite <- app_assoc in IH.
  - destruct H1 as (v1 & ->). done.
Qed.

Lemma UpdateCoins_spec tx v h :
  cs_ok v →
  match update (cs_utxo v) tx h with
  | Some (xs, u') => ∃ v', UpdateCoins tx v h = Ok (xs, v') ∧ cs_ok v' ∧ cs_utxo v' = u'
  | None => UpdateCoins tx v h = AssertFail
  end.
Proof.
  intros Hv. unfold update, UpdateCoins.
  assert (∀ (v : V) (xs : list CTxInUndo), cs_ok v → ∃ v', ('(_, v) ← cs_modify v (tx_hash tx) (λ _, (tt, FromTx tx h)); Ok (xs, v)) = Ok (xs, v') ∧ cs_ok v' ∧
    cs_utxo v' = put (cs_utxo v) (tx_hash tx) (unspent (Some (FromTx tx h)))) as Hput.
  { intros v1 xs Hv1. destruct (cs_modify_spec v1 (tx_hash tx) (λ _, (tt, FromTx tx h)) Hv1) as (c & v' & -> & _ & _ & Hv' & Hu').
    exists v'. split_and!; [done..|]. rewrite Hu'. cbn [snd]. by rewrite (FromTx_clean tx h). }
  destruct (negb (IsCoinBase tx)).
  - pose proof (spend_inputs_spec (vin tx) v [] Hv) as H1. destruct (spends (cs_utxo v) (vin tx)) as [[xs u1]|]; cbn [mbind option_bind].
    + destruct H1 as (v1 & -> & Hv1 & <-). cbn [mbind outcome_bind app]. by apply Hput.
    + by rewrite H1.
  - cbn [mbind option_bind outcome_bind]. by apply Hput.
Qed.

(** ** Undoing gives the map back *)

Lemma put_put u t a b : put (put u t a) t b = put u t b.
Proof. apply map_eq. intros s. rewrite !lookup_put. by destruct (decide (s = t)). Qed.
Lemma put_id u t a : u !! t = a → put u t a = u.
Proof. intros <-. apply map_eq. intros s. rewrite lookup_put. by destruct (decide (s = t)) as [->|]. Qed.

Lemma spend1_wf u i x u' : utxo_wf u → spend1 u i = Some (x, u') → utxo_wf u'.
Proof.
  intros [Hok Hr] E. unfold spend1 in E. destruct (u !! _) as [c|] eqn:Ec; [|done]. cbn in E.
  destruct (Spend c _) as [[y|] c'] eqn:Es; [|done]. injection E as -> <-. destruct (Hok _ _ Ec) as [Hcl _].
  assert (∀ t d, put u (prevout_hash (prevout i)) (unspent (Some c')) !! t = Some d → u !! t = Some d ∨ d = c' ∧ IsPruned c' = false) as Hd.
  { intros t d. rewrite lookup_put, unspent_Some. case_decide; [|by left]. destruct (IsPruned c') eqn:Ep; [done|]. intros [= ->]. by right. }
  split; intros t d [Ht|[-> Hp]]%Hd; [by apply (Hok t)|split; [by eapply Spend_clean|done]|by apply (Hr t)|].
  by eapply restorable_Spend; [|apply (Hr _ _ Ec)|].
Qed.
Lemma spends_wf u ins xs u' : utxo_wf u → spends u ins = Some (xs, u') → utxo_wf u'.
Proof.
  revert u xs. induction ins as [|i ins IH]; intros u xs Hu; cbn [spends]; [by intros [= _ <-]|].
  destruct (spend1 u i) as [[x u1]|] eqn:E1; [|done]. cbn. destruct (spends u1 ins) as [[ys u2]|] eqn:E2; [|done]. intros [= _ <-].
  eapply IH; [|exact E2]. by eapply spend1_wf.
Qed.
Lemma spends_length u ins xs u' : spends u ins = Some (xs, u') → length xs = length ins.
Proof.
  revert u xs. induction ins as [|i ins IH]; intros u xs; cbn [spends]; [by intros [= <- _]|].
  destruct (spend1 u i) as [[x u1]|] eqn:E1; [|done]. cbn. destruct (spends u1 ins) as [[ys u2]|] eqn:E2; [|done]. intros [= <- <-].
  cbn. f_equal. eapply IH, E2.
Qed.

Lemma spends_fresh ins u xs u' t : spends u ins = Some (xs, u') → u !! t = None → u' !! t = None.
Proof.
  revert u xs u'. induction ins as [|i ins IH]; intros u xs u'; cbn [spends]; [by intros [= _ <-]|].
  destruct (spend1 u i) as [[x u1]|] eqn:E1; [|done]. cbn. destruct (spends u1 ins) as [[ys u2]|] eqn:E2; [|done]. intros [= _ <-] Ht.
  eapply IH; [exact E2|]. unfold spend1 in E1. destruct (u !! _) as [c|] eqn:Ec; [|done]. cbn in E1.
  destruct (Spend c _) as [[z|] c']; [|done]. injection E1 as _ <-. rewrite lookup_put. case_decide; [congruence|done].
Qed.
Lemma spend1_fresh u i x u' t : spend1 u i = Some (x, u') → u !! t = None → u' !! t = None.
Proof. intros E. apply (spends_fresh [i] u [x] u'). cbn [spends]. by rewrite E. Qed.

Lemma drop_stakes_put D u t oc : drop_stakes D (put u t oc) = put (drop_stakes D u) t (mark (D t) <$> oc).
Proof. apply map_eq. intros s. rewrite lookup_drop_stakes, !lookup_put, lookup_drop_stakes. case_decide; [by subst|done]. Qed.

(** Undoing from [drop_stakes lost], where [lost] holds at least for what is spent up. *)
Lemma restore_input_spec lost v u1 i x u2 :
  utxo_wf u1 → spend1 u1 i = Some (x, u2) → cs_utxo v = drop_stakes lost u2 →
  (u2 !! prevout_hash (prevout i) = None → lost (prevout_hash (prevout i)) = true) → cs_ok v →
  ∃ v', restore_input v i x = Ok (true, v') ∧ cs_ok v' ∧ cs_utxo v' = drop_stakes lost u1.
Proof.
  intros [Hok Hr] E Hu Hl Hv. unfold spend1 in E. set (t := prevout_hash (prevout i)) in *. destruct (u1 !! t) as [c|] eqn:Ec; [|done]. cbn [mbind option_bind] in E.
  destruct (Spend c _) as [[y|] c'] eqn:Es; [|done]. injection E as -> <-. destruct (Hok _ _ Ec) as [Hcl Hnp].
  destruct (cs_modify_spec v t (restore_coins (prevout_pos i) x) Hv) as (d & v' & Em & Hcd & Hd & Hv' & Hu').
  change (if IsPruned c' then None else Some c') with (unspent (Some c')) in *. unfold seen in Hd. rewrite Hu, drop_stakes_put, <- unspent_mark, lookup_put, decide_True in Hd by done. rewrite lookup_put, decide_True in Hl by done.
  destruct (restore_spent c _ _ _ d (lost t) Hcl (Hr _ _ Ec) Es) as (r & Er & Hcr); [|done|].
  { intros Hp. apply Hl. by rewrite unspent_Some, Hp. }
  rewrite Er in *. exists v'. split_and!; [done..|]. rewrite Hu'. cbn [snd]. rewrite Hcr, Hu, drop_stakes_put, put_put.
  apply put_id. by rewrite lookup_drop_stakes, Ec, unspent_Some, IsPruned_mark, Hnp.
Qed.

Lemma restore_inputs_spec lost j ins xs u u' v b :
  utxo_wf u → spends u (take j ins) = Some (take j xs, u') → cs_utxo v = drop_stakes lost u' → (j ≤ length ins)%nat → length xs = length ins →
  (∀ t, is_Some (u !! t) → u' !! t = None → lost t = true) → cs_ok v →
  ∃ v', restore_inputs j ins xs v b = Ok (b, v') ∧ cs_ok v' ∧ cs_utxo v' = drop_stakes lost u.
Proof.
  revert v u' b. induction j as [|j IH]; intros v u' b Hu E Hvu Hj Hl HD Hv.
  { cbn in E. injection E as <-. by exists v. }
  destruct (lookup_lt_is_Some_2 ins j) as [i Hi]; [lia|]. destruct (lookup_lt_is_Some_2 xs j) as [x Hxj]; [lia|].
  rewrite (take_S_r ins j i Hi), (take_S_r xs j x Hxj), spends_snoc in E.
  destruct (spends u (take j ins)) as [[ys u1]|] eqn:E1; [|done]. cbn [mbind option_bind] in E.
  destruct (spend1 u1 i) as [[y u2]|] eqn:E2; [|done]. cbn in E. injection E as [-> [= ->]]%app_inj_tail ->.
  assert (utxo_wf u1) as Hu1 by by eapply spends_wf.
  destruct (restore_input_spec lost v u1 i x u' Hu1 E2 Hvu) as (v1 & Er & Hv1 & Hvu1); [|done|].
  { apply HD. destruct (u !! prevout_hash (prevout i)) eqn:En; [by eexists|]. apply (spends_fresh _ _ _ _ _ E1) in En.
    unfold spend1 in E2. by rewrite En in E2. }
  cbn [restore_inputs]. rewrite Hi, Hxj, Er. cbn [mbind outcome_bind]. rewrite andb_true_r. apply (IH v1 u1); [done|done|done|lia|done| |done].
  intros t Ht Hn. apply HD; [done|]. by apply (spend1_fresh _ _ _ _ _ E2).
Qed.

(** A transaction is its inputs, then its outputs. *)
Lemma update_inv u tx h xs u' :
  update u tx h = Some (xs, u') →
  ∃ u1, (if negb (IsCoinBase tx) then spends u (vin tx) else Some ([], u)) = Some (xs, u1) ∧
    u' = put u1 (tx_hash tx) (unspent (Some (FromTx tx h))) ∧ (utxo_wf u → utxo_wf u1) ∧ ∀ t, u !! t = None → u1 !! t = None.
Proof.
  unfold update. destruct (negb (IsCoinBase tx)); cbn.
  - destruct (spends u (vin tx)) as [[ys u1]|] eqn:E1; [|done]. intros [= -> <-]. exists u1. split_and!; [done..| |].
    + intros. by eapply spends_wf.
    + intros t. by apply spends_fresh with (1 := E1).
  - intros [= <- <-]. by exists u.
Qed.

Lemma update_fresh u tx h xs u' t : update u tx h = Some (xs, u') → u !! t = None → t ≠ tx_hash tx → u' !! t = None.
Proof. intros (u1 & _ & -> & _ & Hf)%update_inv Ht Hne. rewrite lookup_put, decide_False by done. by apply Hf. Qed.

(** What undoing needs to know of a transaction. *)
Definition tx_undoable (tx : CTransaction) : Prop := ∀ o, o ∈ vout tx → CTxOut_IsNull o = true → o = CTxOut_null.

Lemma update_wf u tx h xs u' :
  utxo_wf u → tx_undoable tx → 0 < h < 2 ^ 31 → update u tx h = Some (xs, u') → utxo_wf u'.
Proof.
  intros Hu Htx Hh (u1 & _ & -> & Hwf & _)%update_inv. destruct (Hwf Hu) as [Hok Hr].
  assert (restorable (FromTx tx h)) as Hft.
  { split; [|done]. apply canonical_Cleanup. intros n o Hn Ho. apply list_lookup_fmap_Some in Hn as (o' & -> & Hn).
    unfold clear_unspendable in *. destruct (IsUnspendable _); [done|]. apply Htx; [|done]. by eapply list_elem_of_lookup_2. }
  split; intros t c; rewrite lookup_put; (case_decide; [|by (apply Hok || apply Hr)]); rewrite unspent_Some;
    destruct (IsPruned _) eqn:Ep; try done; intros [= <-]; [|done]. split; [apply FromTx_clean|done].
Qed.

(** One transaction: [i] is [0] for the coinbase.  A coinstake whose outputs have lost
    the flag would not match the block. *)
Lemma undo_tx_spec lost i u tx h xs u' vtxundo v b :
  utxo_wf u → update u tx h = Some (xs, u') → cs_utxo v = drop_stakes lost u' → u !! tx_hash tx = None →
  (IsCoinBase tx = true ↔ i = O) → (∀ i', i = S i' → vtxundo !! i' = Some xs) →
  (∀ t, is_Some (u !! t) → u' !! t = None → lost t = true) → (lost (tx_hash tx) = true → IsCoinStake tx = true → IsPruned (FromTx tx h) = true) → cs_ok v →
  ∃ v', undo_tx i tx h vtxundo v b = Ok (b, v') ∧ cs_ok v' ∧ cs_utxo v' = drop_stakes lost u.
Proof.
  intros Hu (u1 & E1 & -> & Hwf & Hf)%update_inv Hvu Hfresh Hcb Hxs HD Hst Hv. unfold undo_tx.
  destruct (cs_modify_spec v (tx_hash tx) (remove_outputs tx h) Hv) as (d & v1 & -> & Hcd & Hd & Hv1 & Hu1). cbn [mbind outcome_bind].
  rewrite Hvu, drop_stakes_put, <- unspent_mark in Hd. unfold seen in Hd. rewrite lookup_put, decide_True in Hd by done.
  assert (unspent (Some d) = unspent (Some (FromTx tx h))) as Hd'.
  { rewrite Hd, !unspent_mark, unspent_Some. destruct (IsPruned (FromTx tx h)) eqn:Ep; [done|]. cbn. f_equal. apply mark_id.
    destruct (lost (tx_hash tx)); [|by right]. left. change (IsCoinStake tx = false). destruct (IsCoinStake tx); [|done]. by discriminate (Hst eq_refl eq_refl). }
  rewrite (remove_outputs_spec tx h d Hd' Hcd) in *. cbn [fst snd] in *. rewrite andb_true_r.
  assert (cs_utxo v1 = drop_stakes lost u1) as Hv1u.
  { rewrite Hu1, Hvu, drop_stakes_put, put_put. apply put_id. by rewrite lookup_drop_stakes, Hf. }
  destruct i as [|i'].
  - rewrite (proj2 Hcb) in E1 by done. injection E1 as _ <-. by exists v1.
  - destruct (IsCoinBase tx) eqn:Ecb; [by specialize (proj1 Hcb eq_refl)|]. cbn in E1. rewrite (Hxs i' eq_refl).
    pose proof (spends_length _ _ _ _ E1) as Hl. rewrite Hl, Nat.eqb_refl. cbn [negb].
    apply (restore_inputs_spec lost _ _ _ u u1); [done| |done..| |done]; [by rewrite !take_ge by lia|].
    intros t Ht Hn. apply HD; [done|]. rewrite lookup_put. case_decide as Et; [|done]. subst t. rewrite Hfresh in Ht. by destruct Ht.
Qed.

Lemma updates_wf u txs h xss u' :
  utxo_wf u → (∀ tx, tx ∈ txs → tx_undoable tx) → 0 < h < 2 ^ 31 → updates u txs h = Some (xss, u') → utxo_wf u'.
Proof.
  revert u xss. induction txs as [|tx txs IH]; intros u xss Hu Htx Hh; cbn [updates]; [by intros [= _ <-]|].
  destruct (update u tx h) as [[xs u1]|] eqn:E1; [|done]. cbn. destruct (updates u1 txs h) as [[yss u2]|] eqn:E2; [|done]. intros [= _ <-].
  eapply IH; [|by intros; apply Htx; right|done|exact E2]. eapply update_wf; [done|apply Htx; by left|done|exact E1].
Qed.
Lemma updates_fresh u txs h xss u' t :
  updates u txs h = Some (xss, u') → u !! t = None → t ∉ tx_hash <$> txs → u' !! t = None.
Proof.
  revert u xss. induction txs as [|tx txs IH]; intros u xss; cbn [updates]; [by intros [= _ <-]|].
  destruct (update u tx h) as [[xs u1]|] eqn:E1; [|done]. cbn. destruct (updates u1 txs h) as [[yss u2]|] eqn:E2; [|done]. intros [= _ <-] Ht.
  rewrite not_elem_of_cons. intros [Hne Hin]. eapply IH; [exact E2| |done]. by eapply update_fresh.
Qed.

(** A whole block: the first transaction is the coinbase, no transaction reuses an
    identifier that still has outputs or another of the block's, and [lost] holds of what
    the block leaves without unspent outputs. *)
Lemma undo_txs_spec lost k txs u u' h xss v b :
  utxo_wf u → 0 < h < 2 ^ 31 → updates u (take k txs) h = Some (take k xss, u') → cs_utxo v = drop_stakes lost u' → (k ≤ length txs)%nat → length xss = length txs →
  (∀ i tx, txs !! i = Some tx → tx_undoable tx ∧ u !! tx_hash tx = None ∧ (IsCoinBase tx = true ↔ i = O) ∧
    (lost (tx_hash tx) = true → IsCoinStake tx = true → IsPruned (FromTx tx h) = true)) →
  NoDup (tx_hash <$> txs) → (∀ t, u' !! t = None → t ∉ tx_hash <$> drop k txs → lost t = true) → cs_ok v →
  ∃ v', undo_txs k txs h (tail xss) v b = Ok (b, v') ∧ cs_ok v' ∧ cs_utxo v' = drop_stakes lost u.
Proof.
  intros Hu Hh. revert v u' b. induction k as [|k IH]; intros v u' b E Hvu Hk Hl Htxs Hnd HD Hv.
  { cbn in E. injection E as <-. by exists v. }
  destruct (lookup_lt_is_Some_2 txs k) as [tx Htx]; [lia|]. destruct (lookup_lt_is_Some_2 xss k) as [xs Hxs]; [lia|].
  rewrite (take_S_r txs k tx Htx), (take_S_r xss k xs Hxs), updates_snoc in E.
  destruct (updates u (take k txs) h) as [[yss u1]|] eqn:E1; [|done]. cbn [mbind option_bind] in E.
  destruct (update u1 tx h) as [[ys u2]|] eqn:E2; [|done]. cbn in E. injection E as [-> [= ->]]%app_inj_tail ->.
  destruct (Htxs k tx Htx) as (Hun & Hf & Hcb & Hst).
  assert (∀ i t, txs !! i = Some t → (k ≤ i)%nat → u1 !! tx_hash t = None) as Hnew.
  { intros i t Hi Hki. destruct (Htxs i t Hi) as (_ & Hfi & _). eapply updates_fresh; [exact E1|done|]. intros Hin.
    apply list_elem_of_fmap in Hin as (t' & Heq & [i' [Hi' Hlt]]%elem_of_take).
    assert (i' = i); [|lia]. eapply (NoDup_lookup _ i' i (tx_hash t)); [done| |]; rewrite list_lookup_fmap_Some; eauto. }
  destruct (undo_tx_spec lost k u1 tx h xs u' (tail xss) v b) as (v1 & Er & Hv1 & Hvu1).
  - eapply updates_wf; [done| |exact Hh|exact E1]. intros t [i [Hi _]]%elem_of_take. by eapply Htxs.
  - done.
  - done.
  - by apply (Hnew k).
  - done.
  - intros i' ->. rewrite lookup_tail. done.
  - intros t [c Hc] Hn. apply HD; [done|]. intros Hin. apply list_elem_of_fmap in Hin as (t' & -> & Hin).
    apply list_elem_of_lookup in Hin as [i Hi]. rewrite lookup_drop in Hi. rewrite (Hnew _ _ Hi) in Hc by lia. discriminate Hc.
  - done.
  - done.
  - cbn [undo_txs]. rewrite Htx, Er. cbn [mbind outcome_bind]. apply (IH v1 u1); [done|done|lia|done|done|done| |done].
    intros t Hn Hnin. rewrite (drop_S _ _ _ Htx), fmap_cons, not_elem_of_cons in Hnin. destruct Hnin as [Hne Hnin].
    apply HD; [|done]. by eapply update_fresh.
Qed.

End Effects.

(** ** The value of the unspent outputs *)

Definition out_value (o : CTxOut) : Z := if CTxOut_IsNull o then 0 else nValue o.
Definition coin_value (c : CCoins) : Z := sum_Z out_value (c_vout c).
Definition opt_value (oc : option CCoins) : Z := match oc with Some c => coin_value c | None => 0 end.
Definition total (u : utxo_map) : Z := map_fold (λ _ c acc, coin_value c + acc) 0 u.

Lemma total_insert u t c : u !! t = None → total (<[t := c]> u) = coin_value c + total u.
Proof. intros Hu. unfold total. rewrite map_fold_insert_L; [done| |done]. intros. lia. Qed.
Lemma total_delete u t : total u = opt_value (u !! t) + total (delete t u).
Proof.
  destruct (u !! t) as [c|] eqn:E; [|by rewrite delete_id]. rewrite <- (insert_delete_id u t c E) at 1. by rewrite total_insert by apply lookup_delete_eq.
Qed.
Lemma total_put u t oc : total (put u t oc) = total u - opt_value (u !! t) + opt_value oc.
Proof.
  rewrite (total_delete u t), (total_delete (put u t oc) t), lookup_put, decide_True by done.
  assert (delete t (put u t oc) = delete t u) as ->; [|lia].
  apply map_eq. intros s. rewrite !lookup_delete. case_decide; [done|]. rewrite lookup_put, decide_False; [done|congruence].
Qed.

Lemma sum_nulls v : forallb CTxOut_IsNull v = true → sum_Z out_value v = 0.
Proof. induction v as [|o v IH]; [done|]. cbn [forallb]. intros [Ho Hv]%andb_prop. rewrite sum_Z_cons, IH by done. unfold out_value. by rewrite Ho. Qed.
Lemma coin_value_pruned c : IsPruned c = true → coin_value c = 0.
Proof. apply sum_nulls. Qed.
Lemma opt_value_unspent c : opt_value (unspent (Some c)) = coin_value c.
Proof. rewrite unspent_Some. destruct (IsPruned c) eqn:E; [|done]. by rewrite coin_value_pruned. Qed.
Lemma sum_Cleanup v : sum_Z out_value (Cleanup_vout v) = sum_Z out_value v.
Proof.
  induction v as [|o v IH] using rev_ind; [done|]. rewrite Cleanup_vout_snoc. destruct (CTxOut_IsNull o) eqn:E; [|done].
  rewrite sum_Z_app, IH. cbn. unfold out_value. rewrite E. lia.
Qed.

Lemma spend1_inv u i x u' :
  utxo_ok u → spend1 u i = Some (x, u') →
  ∃ c c', u !! prevout_hash (prevout i) = Some c ∧ Spend c (prevout_pos i) = (Some x, c') ∧ clean c ∧
    u' = put u (prevout_hash (prevout i)) (unspent (Some c')).
Proof.
  intros Hu E. unfold spend1 in E. destruct (u !! _) as [c|] eqn:Ec; [|done]. cbn in E. destruct (Spend c _) as [[y|] c'] eqn:Es; [|done].
  injection E as -> <-. exists c, c'. by destruct (Hu _ _ Ec).
Qed.

Lemma total_spend1 u i x u' : utxo_ok u → spend1 u i = Some (x, u') → total u' = total u - nValue (u_txout x).
Proof.
  intros Hu (c & c' & Hc & Es & Hcl & ->)%spend1_inv; [|done]. rewrite total_put, Hc, opt_value_unspent. cbn [opt_value].
  pose proof (Spend_spec c (prevout_pos i) Hcl) as S. rewrite Es in S. destruct S as (Ha & _ & Hn & _ & Hv & _).
  unfold coin_value. rewrite Hv, sum_Cleanup, (sum_Z_insert _ _ _ _ _ Hn).
  unfold IsAvailable in Ha. rewrite Hn in Ha. change (out_value CTxOut_null) with 0. assert (out_value (u_txout x) = nValue (u_txout x)) as -> by (unfold out_value; by destruct (CTxOut_IsNull (u_txout x))). lia.
Qed.

Definition undo_value (xs : list CTxInUndo) : Z := sum_Z (λ x, nValue (u_txout x)) xs.

Lemma spend1_ok u i x u' : utxo_ok u → spend1 u i = Some (x, u') → utxo_ok u'.
Proof.
  intros Hu E. pose proof (spend1_inv _ _ _ _ Hu E) as (c & c' & _ & Es & Hcl & ->). intros t d. rewrite lookup_put, unspent_Some.
  case_decide; [|by apply Hu]. destruct (IsPruned c') eqn:Ep; [done|]. intros [= <-]. split; [by eapply Spend_clean|done].
Qed.

Lemma total_spends u ins xs u' : utxo_ok u → spends u ins = Some (xs, u') → total u' = total u - undo_value xs ∧ utxo_ok u'.
Proof.
  revert u xs. induction ins as [|i ins IH]; intros u xs Hu; cbn [spends]; [intros [= <- <-]; split; [cbn; lia|done]|].
  destruct (spend1 u i) as [[x u1]|] eqn:E1; [|done]. cbn. destruct (spends u1 ins) as [[ys u2]|] eqn:E2; [|done]. intros [= <- <-].
  destruct (IH u1 ys) as [Ht Hok]; [by eapply spend1_ok|done|]. rewrite Ht, (total_spend1 _ _ _ _ Hu E1). unfold undo_value. rewrite sum_Z_cons. split; [lia|done].
Qed.

(** What the outputs of a transaction that can never be spent are worth. *)
Definition burned (tx : CTransaction) : Z := sum_Z (λ o, if IsUnspendable (scriptPubKey o) then nValue o else 0) (vout tx).

Lemma FromTx_value tx h : Forall (λ o, 0 ≤ nValue o) (vout tx) → coin_value (FromTx tx h) = sum_values (vout tx) - burned tx.
Proof.
  intros Hv. unfold coin_value, FromTx, ClearUnspendable, Cleanup, with_vout, burned. cbn [c_vout]. rewrite sum_Cleanup.
  induction Hv as [|o outs Ho _ IH]; [done|]. rewrite fmap_cons, !sum_Z_cons, IH, sum_values_cons. unfold clear_unspendable.
  destruct (IsUnspendable (scriptPubKey o)); [cbn; lia|]. unfold out_value, CTxOut_IsNull. rewrite (proj2 (Z.eqb_neq _ _)) by lia. lia.
Qed.

Lemma total_update u tx h xs u' :
  utxo_ok u → u !! tx_hash tx = None → Forall (λ o, 0 ≤ nValue o) (vout tx) → update u tx h = Some (xs, u') →
  total u' = total u + sum_values (vout tx) - burned tx - undo_value xs ∧ utxo_ok u'.
Proof.
  intros Hu Hf Hv (u1 & E1 & -> & _ & Hfr)%update_inv.
  assert (total u1 = total u - undo_value xs ∧ utxo_ok u1) as [Ht Hok].
  { destruct (negb (IsCoinBase tx)); [by eapply total_spends|]. injection E1 as <- <-. split; [cbn; lia|done]. }
  split.
  - rewrite total_put, Hfr, opt_value_unspent, FromTx_value, Ht by done. cbn. lia.
  - intros t c. rewrite lookup_put, unspent_Some. case_decide; [|by apply Hok].
    destruct (IsPruned (FromTx tx h)) eqn:Ep; [done|]. intros [= <-]. split; [apply FromTx_clean|done].
Qed.

Lemma total_updates u txs h xss u' :
  utxo_ok u → NoDup (tx_hash <$> txs) → (∀ tx, tx ∈ txs → u !! tx_hash tx = None ∧ Forall (λ o, 0 ≤ nValue o) (vout tx)) →
  updates u txs h = Some (xss, u') →
  total u' = total u + sum_Z (λ tx, sum_values (vout tx) - burned tx) txs - sum_Z undo_value xss.
Proof.
  revert u xss. induction txs as [|tx txs IH]; intros u xss Hu Hnd Htx; cbn [updates]; [intros [= <- <-]; cbn; lia|].
  destruct (update u tx h) as [[xs u1]|] eqn:E1; [|done]. cbn. destruct (updates u1 txs h) as [[yss u2]|] eqn:E2; [|done]. intros [= <- <-].
  rewrite fmap_cons in Hnd. apply list.NoDup_cons in Hnd as [Hnin Hnd].
  destruct (Htx tx) as [Hf Hv]; [by left|]. destruct (total_update _ _ _ _ _ Hu Hf Hv E1) as [Ht1 Hu1].
  rewrite (IH u1 yss Hu1 Hnd); [|intros t Ht; split|done].
  - rewrite !sum_Z_cons, Ht1. unfold sum_Z. cbn [foldr]. fold (undo_value xs). lia.
  - eapply update_fresh; [exact E1|apply Htx; by right|]. intros Heq. apply Hnin. rewrite <- Heq. by apply list_elem_of_fmap_2.
  - apply Htx. by right.
Qed.
