(* ===== verification/AddressIndex.v ===== *)
(** * The address, unspent and spent indexes (addressindex.h, spentindex.h, txdb.cpp, main.cpp)

    Optional tables beside the coins: the activity of each address, its unspent
    outputs, and which input spent an output.  Connecting a block collects updates
    for them, disconnecting it collects others; the database applies them in one
    batch each. *)
From stdpp Require Import base tactics list gmap numbers option.
From Stdlib Require Import ZArith Lia.
From S2P Require Import Prelude.
From S2P Require Import Serialize.
From S2P Require Import ScriptCode.
From S2P Require Import Transaction.
From S2P Require Import Standard.
From S2P Require Import Coins.

Notation ires := (outcome unit).

(** ** Data *)

Record CAddressUnspentKey := AddressUnspentKey { uk_type : Z; uk_hashBytes : list Z; uk_txhash : Z; uk_index : Z }.
Record CAddressUnspentValue := AddressUnspentValue { satoshis : Z; uv_script : list Z; uv_blockHeight : Z }.
Record CAddressIndexKey := AddressIndexKey {
  ak_type : Z; ak_hashBytes : list Z; ak_blockHeight : Z; ak_txindex : Z; ak_txhash : Z; ak_index : Z; ak_spending : bool }.
Record CSpentIndexKey := SpentIndexKey { sk_txid : Z; sk_outputIndex : Z }.
Record CSpentIndexValue := SpentIndexValue {
  sv_txid : Z; sv_inputIndex : Z; sv_blockHeight : Z; sv_satoshis : Z; sv_addressType : Z; sv_addressHash : list Z }.

#[export] Instance CAddressUnspentKey_eq_dec : EqDecision CAddressUnspentKey.
Proof. solve_decision. Defined.
#[export] Instance CAddressIndexKey_eq_dec : EqDecision CAddressIndexKey.
Proof. solve_decision. Defined.
#[export] Instance CSpentIndexKey_eq_dec : EqDecision CSpentIndexKey.
Proof. solve_decision. Defined.
#[export] Instance CAddressUnspentKey_countable : Countable CAddressUnspentKey.
Proof.
  apply (inj_countable' (λ k, (uk_type k, uk_hashBytes k, uk_txhash k, uk_index k)) (λ '(t, h, x, i), AddressUnspentKey t h x i)). by intros [].
Defined.
#[export] Instance CAddressIndexKey_countable : Countable CAddressIndexKey.
Proof.
  apply (inj_countable' (λ k, (ak_type k, ak_hashBytes k, ak_blockHeight k, ak_txindex k, ak_txhash k, ak_index k, ak_spending k))
    (λ '(t, h, b, n, x, i, s), AddressIndexKey t h b n x i s)). by intros [].
Defined.
#[export] Instance CSpentIndexKey_countable : Countable CSpentIndexKey.
Proof. apply (inj_countable' (λ k, (sk_txid k, sk_outputIndex k)) (λ p, SpentIndexKey p.1 p.2)). by intros []. Defined.

(** The default values, and the tests for them. *)
Definition unspent_null : CAddressUnspentValue := AddressUnspentValue (-1) [] 0.
Definition unspent_IsNull (v : CAddressUnspentValue) : bool := satoshis v =? -1.
Definition spent_null : CSpentIndexValue := SpentIndexValue 0 0 0 0 0 (replicate 20 0).
Definition spent_IsNull (v : CSpentIndexValue) : bool := sv_txid v =? 0.

(** [CSpentIndexKeyCompare] *)
Definition CSpentIndexKeyCompare (a b : CSpentIndexKey) : bool :=
  if sk_txid a =? sk_txid b then sk_outputIndex a <? sk_outputIndex b else sk_txid a <? sk_txid b.

(** ** Wire format of the keys *)

Definition ser_unspent_key (k : CAddressUnspentKey) : list Z :=
  ser_writedata8 (u8 (uk_type k)) ++ uk_hashBytes k ++ ser_uint256 (uk_txhash k) ++ ser_writedata32 (u32 (uk_index k)).
(** Heights and positions are big-endian, so that the keys of an address sort by them. *)
Definition ser_address_key (k : CAddressIndexKey) : list Z :=
  ser_writedata8 (u8 (ak_type k)) ++ ak_hashBytes k ++ ser_writedata32be (u32 (ak_blockHeight k)) ++ ser_writedata32be (u32 (ak_txindex k)) ++
  ser_uint256 (ak_txhash k) ++ ser_writedata32 (u32 (ak_index k)) ++ ser_writedata8 (Z.b2z (ak_spending k)).
Definition ser_unspent_value (v : CAddressUnspentValue) : list Z :=
  WRITEDATA 8 (satoshis v) ++ ser_blob (uv_script v) ++ WRITEDATA 4 (uv_blockHeight v).
Definition ser_spent_key (k : CSpentIndexKey) : list Z := ser_uint256 (sk_txid k) ++ WRITEDATA 4 (sk_outputIndex k).
Definition ser_spent_value (v : CSpentIndexValue) : list Z :=
  ser_uint256 (sv_txid v) ++ WRITEDATA 4 (sv_inputIndex v) ++ WRITEDATA 4 (sv_blockHeight v) ++ WRITEDATA 8 (sv_satoshis v) ++
  WRITEDATA 4 (sv_addressType v) ++ sv_addressHash v.

(** ** The tables and their batches *)

Record index_db := IndexDB {
  db_address : gmap CAddressIndexKey Z;
  db_unspent : gmap CAddressUnspentKey CAddressUnspentValue;
  db_spent : gmap CSpentIndexKey CSpentIndexValue
}.

Definition WriteAddressIndex (vect : list (CAddressIndexKey * Z)) (db : gmap CAddressIndexKey Z) : gmap CAddressIndexKey Z :=
  fold_left (λ db p, <[p.1 := p.2]> db) vect db.
Definition EraseAddressIndex (vect : list (CAddressIndexKey * Z)) (db : gmap CAddressIndexKey Z) : gmap CAddressIndexKey Z :=
  fold_left (λ db p, delete p.1 db) vect db.
Definition UpdateAddressUnspentIndex (vect : list (CAddressUnspentKey * CAddressUnspentValue)) (db : gmap CAddressUnspentKey CAddressUnspentValue)
  : gmap CAddressUnspentKey CAddressUnspentValue :=
  fold_left (λ db p, if unspent_IsNull p.2 then delete p.1 db else <[p.1 := p.2]> db) vect db.
Definition UpdateSpentIndex (vect : list (CSpentIndexKey * CSpentIndexValue)) (db : gmap CSpentIndexKey CSpentIndexValue)
  : gmap CSpentIndexKey CSpentIndexValue :=
  fold_left (λ db p, if spent_IsNull p.2 then delete p.1 db else <[p.1 := p.2]> db) vect db.

(** The updates a block collects. *)
Record index_vecs := IndexVecs {
  addressIndex : list (CAddressIndexKey * Z);
  addressUnspentIndex : list (CAddressUnspentKey * CAddressUnspentValue);
  spentIndex : list (CSpentIndexKey * CSpentIndexValue)
}.
Definition no_updates : index_vecs := IndexVecs [] [] [].
Definition push_address (p : CAddressIndexKey * Z) (q : CAddressUnspentKey * CAddressUnspentValue) (x : index_vecs) : index_vecs :=
  IndexVecs (addressIndex x ++ [p]) (addressUnspentIndex x ++ [q]) (spentIndex x).
Definition push_spent (p : CSpentIndexKey * CSpentIndexValue) (x : index_vecs) : index_vecs :=
  IndexVecs (addressIndex x) (addressUnspentIndex x) (spentIndex x ++ [p]).

Section Collect.
Context (fAddressIndex fSpentIndex : bool).

(** ** Connecting *)

(** The index part of one input: [j] its place, [prevout] the output it spends;
    [i] the place of the transaction and [txhash] its hash. *)
Definition index_spend (nHeight i txhash j : Z) (input : CTxIn) (prev : CTxOut) (x : index_vecs) : ires index_vecs :=
  '(fIndexable, addrHash, addrType) ← GetAddressIndexKey (scriptPubKey prev);
  let x := if fAddressIndex && fIndexable then
             push_address (AddressIndexKey addrType addrHash nHeight i txhash j true, - nValue prev)
               (AddressUnspentKey addrType addrHash (prevout_hash (prevout input)) (prevout_n (prevout input)), unspent_null) x
           else x in
  Ok (if fSpentIndex then
        push_spent (SpentIndexKey (prevout_hash (prevout input)) (prevout_n (prevout input)),
                    SpentIndexValue txhash j nHeight (nValue prev) addrType addrHash) x
      else x).

(** The loop over the outputs from [k]. *)
Fixpoint index_receive (nHeight i txhash k : Z) (outs : list CTxOut) (x : index_vecs) : ires index_vecs :=
  match outs with
  | [] => Ok x
  | o :: outs =>
      '(fIndexable, addrHash, addrType) ← GetAddressIndexKey (scriptPubKey o);
      index_receive nHeight i txhash (k + 1) outs
        (if fIndexable : bool then
           push_address (AddressIndexKey addrType addrHash nHeight i txhash k false, nValue o)
             (AddressUnspentKey addrType addrHash txhash k, AddressUnspentValue (nValue o) (scriptPubKey o) nHeight) x
         else x)
  end.

(** ** Disconnecting *)

(** [for (unsigned int k = tx.vout.size(); k-- > 0;)] *)
Fixpoint unindex_receive (k : nat) (nHeight i txhash : Z) (outs : list CTxOut) (x : index_vecs) : ires index_vecs :=
  match k with
  | O => Ok x
  | S k =>
      match outs !! k with
      | None => AssertFail
      | Some o =>
          '(fIndexable, addrHash, addrType) ← GetAddressIndexKey (scriptPubKey o);
          unindex_receive k nHeight i txhash outs
            (if fIndexable : bool then
               push_address (AddressIndexKey addrType addrHash nHeight i txhash (Z.of_nat k) false, nValue o)
                 (AddressUnspentKey addrType addrHash txhash (Z.of_nat k), unspent_null) x
             else x)
      end
  end.

(** The inputs, last first, with their undo records. *)
Fixpoint unindex_spend (j : nat) (nHeight i txhash : Z) (ins : list CTxIn) (vprevout : list CTxInUndo) (x : index_vecs) : ires index_vecs :=
  match j with
  | O => Ok x
  | S j =>
      match ins !! j, vprevout !! j with
      | Some input, Some undo =>
          let out := prevout input in
          let prev := u_txout undo in
          '(fIndexable, addrHash, addrType) ← GetAddressIndexKey (scriptPubKey prev);
          let x := if fAddressIndex && fIndexable then
                     push_address (AddressIndexKey addrType addrHash nHeight i txhash (Z.of_nat j) true, nValue prev * -1)
                       (AddressUnspentKey addrType addrHash (prevout_hash out) (prevout_n out),
                        AddressUnspentValue (nValue prev) (scriptPubKey prev) (s32 (u_nHeight undo))) x
                   else x in
          let x := if fSpentIndex then push_spent (SpentIndexKey (prevout_hash out) (prevout_n out), spent_null) x else x in
          unindex_spend j nHeight i txhash ins vprevout x
      | _, _ => AssertFail
      end
  end.

(** The transactions of the block below [i], last first. *)
Fixpoint unindex_txs (i : nat) (nHeight : Z) (vtx : list CTransaction) (vtxundo : list (list CTxInUndo)) (x : index_vecs) : ires index_vecs :=
  match i with
  | O => Ok x
  | S i =>
      match vtx !! i with
      | None => AssertFail
      | Some tx =>
          x ← (if fAddressIndex then unindex_receive (length (vout tx)) nHeight (Z.of_nat i) (tx_hash tx) (vout tx) x else Ok x);
          x ← match i with
              | O => Ok x
              | S i' =>
                  match vtxundo !! i' with
                  | None => AssertFail
                  | Some vprevout => unindex_spend (length (vin tx)) nHeight (Z.of_nat i) (tx_hash tx) (vin tx) vprevout x
                  end
              end;
          unindex_txs i nHeight vtx vtxundo x
      end
  end.
End Collect.

(** ** The collecting loops always finish *)

Lemma GetAddressIndexKey_total script : ∃ r, GetAddressIndexKey script = Ok r.
Proof.
  unfold GetAddressIndexKey. destruct (IsPayToScriptHash script) eqn:Ep.
  { apply IsPayToScriptHash_spec in Ep as (h & Hh & ->).
    assert (take 20 (drop 2 ([OP_HASH160; 20] ++ h ++ [OP_EQUAL])) = h) as -> by (apply take_app_length'; unfold size in Hh; lia).
    unfold uint160_of. rewrite Hh. by eexists. }
  unfold ExtractDestination. destruct (Solver_spec script) as (ok & t & sols & -> & Hs). cbn [mbind outcome_bind].
  destruct ok; [|by eexists]. cbn [negb]. destruct (proj1 (Hs t sols) (conj eq_refl (conj eq_refl eq_refl))); cbn [solution0 mbind outcome_bind]; try by eexists.
  - unfold uint160_of. rewrite (proj2 (Z.eqb_eq _ _)) by done. by eexists.
  - destruct (negb _); by eexists.
  - unfold uint160_of. rewrite (proj2 (Z.eqb_eq _ _)) by done. by eexists.
Qed.

(** ** The updates as a sequence of events *)

(** Spending: the place of the transaction in the block, its hash, the place of
    the input, the input and its undo record.  Receiving: the place and hash, the
    place of the output and the output. *)
Inductive index_event :=
| EvSpend (i txhash j : Z) (input : CTxIn) (undo : CTxInUndo)
| EvReceive (i txhash k : Z) (o : CTxOut).

Fixpoint spend_events (i txhash j : Z) (ins : list CTxIn) (xs : list CTxInUndo) : list index_event :=
  match ins, xs with
  | a :: ins, x :: xs => EvSpend i txhash j a x :: spend_events i txhash (j + 1) ins xs
  | _, _ => []
  end.
Fixpoint receive_events (i txhash k : Z) (outs : list CTxOut) : list index_event :=
  match outs with
  | [] => []
  | o :: outs => EvReceive i txhash k o :: receive_events i txhash (k + 1) outs
  end.
Definition tx_events (i : Z) (tx : CTransaction) (xs : list CTxInUndo) : list index_event :=
  spend_events i (tx_hash tx) 0 (vin tx) xs ++ receive_events i (tx_hash tx) 0 (vout tx).
Fixpoint block_events (i : Z) (txs : list CTransaction) (xss : list (list CTxInUndo)) : list index_event :=
  match txs, xss with
  | tx :: txs, xs :: xss => tx_events i tx xs ++ block_events (i + 1) txs xss
  | _, _ => []
  end.

Definition address_of (script : list Z) : bool * list Z * Z :=
  match GetAddressIndexKey script with Ok r => r | _ => (false, [], 0) end.
Lemma GetAddressIndexKey_eq script : GetAddressIndexKey script = Ok (address_of script).
Proof. unfold address_of. destruct (GetAddressIndexKey_total script) as [r ->]. done. Qed.

Section Events.
Context (fAddressIndex fSpentIndex : bool) (nHeight : Z).

Definition vapp (x y : index_vecs) : index_vecs :=
  IndexVecs (addressIndex x ++ addressIndex y) (addressUnspentIndex x ++ addressUnspentIndex y) (spentIndex x ++ spentIndex y).
Definition collect (f : index_event → index_vecs) (l : list index_event) : index_vecs := foldr (λ e y, vapp (f e) y) no_updates l.

Definition when (b : bool) (x : index_vecs) : index_vecs := if b then x else no_updates.

(** What connecting and disconnecting collect for an event. *)
Definition con (e : index_event) : index_vecs :=
  match e with
  | EvSpend i t j input undo =>
      let prev := u_txout undo in
      let '(ok, h, ty) := address_of (scriptPubKey prev) in
      vapp (when (fAddressIndex && ok)
              (IndexVecs [(AddressIndexKey ty h nHeight i t j true, - nValue prev)]
                         [(AddressUnspentKey ty h (prevout_hash (prevout input)) (prevout_n (prevout input)), unspent_null)] []))
           (when fSpentIndex
              (IndexVecs [] [] [(SpentIndexKey (prevout_hash (prevout input)) (prevout_n (prevout input)), SpentIndexValue t j nHeight (nValue prev) ty h)]))
  | EvReceive i t k o =>
      let '(ok, h, ty) := address_of (scriptPubKey o) in
      when (fAddressIndex && ok)
        (IndexVecs [(AddressIndexKey ty h nHeight i t k false, nValue o)] [(AddressUnspentKey ty h t k, AddressUnspentValue (nValue o) (scriptPubKey o) nHeight)] [])
  end.
Definition dis (e : index_event) : index_vecs :=
  match e with
  | EvSpend i t j input undo =>
      let prev := u_txout undo in
      let '(ok, h, ty) := address_of (scriptPubKey prev) in
      vapp (when (fAddressIndex && ok)
              (IndexVecs [(AddressIndexKey ty h nHeight i t j true, nValue prev * -1)]
                         [(AddressUnspentKey ty h (prevout_hash (prevout input)) (prevout_n (prevout input)),
                           AddressUnspentValue (nValue prev) (scriptPubKey prev) (s32 (u_nHeight undo)))] []))
           (when fSpentIndex (IndexVecs [] [] [(SpentIndexKey (prevout_hash (prevout input)) (prevout_n (prevout input)), spent_null)]))
  | EvReceive i t k o =>
      let '(ok, h, ty) := address_of (scriptPubKey o) in
      when (fAddressIndex && ok) (IndexVecs [(AddressIndexKey ty h nHeight i t k false, nValue o)] [(AddressUnspentKey ty h t k, unspent_null)] [])
  end.

Lemma vapp_nil_r x : vapp x no_updates = x.
Proof. destruct x. unfold vapp. cbn. by rewrite !app_nil_r. Qed.
Lemma vapp_assoc x y z : vapp (vapp x y) z = vapp x (vapp y z).
Proof. unfold vapp. cbn. by rewrite !app_assoc. Qed.
Lemma vapp_nil_l x : vapp no_updates x = x.
Proof. by destruct x. Qed.
Lemma collect_app f l1 l2 : collect f (l1 ++ l2) = vapp (collect f l1) (collect f l2).
Proof. induction l1 as [|e l1 IH]; cbn [app]; [by rewrite vapp_nil_l|]. cbn [collect foldr]. fold (collect f (l1 ++ l2)). fold (collect f l1). by rewrite IH, vapp_assoc. Qed.
Lemma collect_one f e : collect f [e] = f e.
Proof. apply vapp_nil_r. Qed.
Lemma collect_cons f e l : collect f (e :: l) = vapp (f e) (collect f l).
Proof. done. Qed.

(** *** Connecting *)

Lemma index_spend_eq i t j input undo x :
  index_spend fAddressIndex fSpentIndex nHeight i t j input (u_txout undo) x = Ok (vapp x (con (EvSpend i t j input undo))).
Proof.
  unfold index_spend. rewrite GetAddressIndexKey_eq. cbn [mbind outcome_bind con]. destruct (address_of _) as [[ok h] ty]. f_equal.
  destruct (fAddressIndex && ok), fSpentIndex; unfold vapp, when, push_address, push_spent; destruct x; cbn; by rewrite ?app_nil_r.
Qed.
Lemma index_receive_eq i t k outs x :
  (if fAddressIndex then index_receive nHeight i t k outs x else Ok x) = Ok (vapp x (collect con (receive_events i t k outs))).
Proof.
  revert k x. induction outs as [|o outs IH]; intros k x; cbn [receive_events collect foldr index_receive].
  { rewrite vapp_nil_r. by destruct fAddressIndex. }
  rewrite GetAddressIndexKey_eq. cbn [mbind outcome_bind con]. destruct (address_of _) as [[ok h] ty]. fold (collect con (receive_events i t (k + 1) outs)).
  rewrite <- vapp_assoc, <- IH. destruct fAddressIndex; cbn [andb when]; [|by rewrite vapp_nil_r]. f_equal.
  destruct ok; cbn [when]; [|by rewrite vapp_nil_r]. destruct x. unfold vapp, push_address. cbn. by rewrite app_nil_r.
Qed.

Lemma spend_events_nil i t j ins : spend_events i t j ins [] = [].
Proof. by destruct ins. Qed.
Lemma collect_off l : fAddressIndex || fSpentIndex = false → collect con l = no_updates.
Proof.
  intros [EA ES]%orb_false_iff. induction l as [|e l IH]; [done|]. rewrite collect_cons, IH, vapp_nil_r.
  destruct e; cbn [con]; destruct (address_of _) as [[ok h] ty]; by rewrite EA, ?ES.
Qed.

(** *** Disconnecting *)

Lemma spend_events_snoc i t j ins xs a x :
  length ins = length xs → spend_events i t j (ins ++ [a]) (xs ++ [x]) = spend_events i t j ins xs ++ [EvSpend i t (j + Z.of_nat (length ins)) a x].
Proof.
  revert j xs. induction ins as [|b ins IH]; intros j [|y xs] Hl; try discriminate Hl; cbn [app spend_events length]; [by rewrite Z.add_0_r|].
  rewrite IH by (cbn in Hl; lia). by replace (j + 1 + Z.of_nat (length ins)) with (j + Z.of_nat (S (length ins))) by lia.
Qed.
Lemma receive_events_snoc i t k outs o : receive_events i t k (outs ++ [o]) = receive_events i t k outs ++ [EvReceive i t (k + Z.of_nat (length outs)) o].
Proof. revert k. induction outs as [|p outs IH]; intros k; cbn [app receive_events length]; [by rewrite Z.add_0_r|]. rewrite IH. by replace (k + 1 + Z.of_nat (length outs)) with (k + Z.of_nat (S (length outs))) by lia. Qed.

Lemma unindex_receive_eq n i t outs x :
  (n ≤ length outs)%nat →
  (if fAddressIndex then unindex_receive n nHeight i t outs x else Ok x) = Ok (vapp x (collect dis (rev (receive_events i t 0 (take n outs))))).
Proof.
  revert x. induction n as [|n IH]; intros x Hn; cbn [unindex_receive take].
  { rewrite take_0. cbn. rewrite vapp_nil_r. by destruct fAddressIndex. }
  destruct (lookup_lt_is_Some_2 outs n) as [o Ho]; [lia|]. rewrite Ho, (take_S_r _ _ _ Ho), receive_events_snoc, rev_app_distr, collect_app.
  cbn [rev app]. rewrite collect_one, length_take_le, <- vapp_assoc, <- IH by lia. rewrite GetAddressIndexKey_eq. cbn [mbind outcome_bind dis].
  destruct (address_of _) as [[ok h] ty]. destruct fAddressIndex; cbn [andb when]; [|by rewrite vapp_nil_r]. f_equal.
  destruct ok; cbn [when]; [|by rewrite vapp_nil_r]. destruct x. unfold vapp, push_address. cbn. by rewrite app_nil_r.
Qed.

Lemma unindex_spend_eq n i t ins xs x :
  (n ≤ length ins)%nat → length xs = length ins →
  unindex_spend fAddressIndex fSpentIndex n nHeight i t ins xs x = Ok (vapp x (collect dis (rev (spend_events i t 0 (take n ins) (take n xs))))).
Proof.
  intros Hn Hl. revert x Hn. induction n as [|n IH]; intros x Hn; cbn [unindex_spend].
  { rewrite !take_0. cbn. by rewrite vapp_nil_r. }
  destruct (lookup_lt_is_Some_2 ins n) as [a Ha]; [lia|]. destruct (lookup_lt_is_Some_2 xs n) as [u Hu]; [lia|].
  rewrite Ha, Hu, (take_S_r _ _ _ Ha), (take_S_r _ _ _ Hu), spend_events_snoc, rev_app_distr, collect_app by (rewrite !length_take; lia).
  cbn [rev app]. rewrite collect_one, length_take_le, <- vapp_assoc by lia. rewrite GetAddressIndexKey_eq. cbn [mbind outcome_bind dis].
  destruct (address_of _) as [[ok h] ty]. rewrite IH by lia. do 2 f_equal.
  destruct (fAddressIndex && ok), fSpentIndex; unfold vapp, when, push_address, push_spent; destruct x; cbn; by rewrite ?app_nil_r.
Qed.

Definition undo_fits (txs : list CTransaction) (xss : list (list CTxInUndo)) : Prop :=
  length xss = length txs ∧
  ∀ i tx xs, txs !! i = Some tx → xss !! i = Some xs → length xs = match i with O => O | S _ => length (vin tx) end.

Lemma block_events_snoc i txs xss tx xs :
  length txs = length xss → block_events i (txs ++ [tx]) (xss ++ [xs]) = block_events i txs xss ++ tx_events (i + Z.of_nat (length txs)) tx xs.
Proof.
  revert i xss. induction txs as [|t txs IH]; intros i [|ys xss] Hl; try discriminate Hl; cbn [app block_events length].
  { by rewrite Z.add_0_r, app_nil_r. }
  rewrite IH, <- app_assoc by (cbn in Hl; lia). by replace (i + 1 + Z.of_nat (length txs)) with (i + Z.of_nat (S (length txs))) by lia.
Qed.

Lemma unindex_txs_eq n txs xss x :
  undo_fits txs xss → (n ≤ length txs)%nat →
  unindex_txs fAddressIndex fSpentIndex n nHeight txs (tail xss) x = Ok (vapp x (collect dis (rev (block_events 0 (take n txs) (take n xss))))).
Proof.
  intros [Hl Hf] Hn. revert x Hn. induction n as [|n IH]; intros x Hn; cbn [unindex_txs].
  { rewrite !take_0. cbn. by rewrite vapp_nil_r. }
  destruct (lookup_lt_is_Some_2 txs n) as [tx Htx]; [lia|]. destruct (lookup_lt_is_Some_2 xss n) as [xs Hxs]; [lia|].
  rewrite Htx, (take_S_r _ _ _ Htx), (take_S_r _ _ _ Hxs), block_events_snoc, rev_app_distr, collect_app by (rewrite !length_take; lia).
  rewrite length_take_le, Z.add_0_l by lia. unfold tx_events. rewrite rev_app_distr, collect_app.
  rewrite unindex_receive_eq, firstn_all by lia. cbn [mbind outcome_bind].
  pose proof (Hf n tx xs Htx Hxs) as Hlen. destruct n as [|n].
  - destruct xs; [|discriminate Hlen]. replace (spend_events (Z.of_nat 0) (tx_hash tx) 0 (vin tx) []) with (@nil index_event) by (by destruct (vin tx)).
    cbn [mbind outcome_bind]. rewrite IH, !take_0 by lia. cbn [block_events rev]. change (collect dis []) with no_updates. by rewrite !vapp_nil_r.
  - assert (tail xss !! n = Some xs) as -> by (by destruct xss). rewrite unindex_spend_eq by lia. cbn [mbind outcome_bind].
    rewrite <- Hlen at 2. rewrite !firstn_all, IH by lia. by rewrite !vapp_assoc.
Qed.

(** *** The tables afterwards *)

Lemma addressIndex_collect f l : addressIndex (collect f l) = concat (addressIndex ∘ f <$> l).
Proof. induction l as [|e l IH]; [done|]. rewrite collect_cons. cbn [addressIndex vapp]. by rewrite IH. Qed.
Lemma spentIndex_collect f l : spentIndex (collect f l) = concat (spentIndex ∘ f <$> l).
Proof. induction l as [|e l IH]; [done|]. rewrite collect_cons. cbn [spentIndex vapp]. by rewrite IH. Qed.

Lemma addressIndex_dis e : addressIndex (dis e) = addressIndex (con e).
Proof.
  destruct e as [i t j input undo|i t k o]; cbn [con dis]; destruct (address_of _) as [[ok h] ty]; destruct (fAddressIndex && ok), fSpentIndex; try done; cbn;
    by replace (nValue (u_txout undo) * -1) with (- nValue (u_txout undo)) by lia.
Qed.
Lemma spentIndex_keys e : (spentIndex (dis e)).*1 = (spentIndex (con e)).*1.
Proof.
  destruct e as [i t j input undo|i t k o]; cbn [con dis]; destruct (address_of _) as [[ok h] ty]; by destruct (fAddressIndex && ok), fSpentIndex.
Qed.
Lemma spentIndex_null e p : p ∈ spentIndex (dis e) → spent_IsNull p.2 = true.
Proof.
  destruct e as [i t j input undo|i t k o]; cbn [con dis]; destruct (address_of _) as [[ok h] ty]; destruct (fAddressIndex && ok), fSpentIndex; cbn;
    rewrite ?list_elem_of_singleton; try (intros Hp; by inversion Hp); by intros ->.
Qed.
End Events.

(** A batch on a table leaves the keys it does not name, and one of deletions
    removes the ones it names. *)
Section Batch.
Context `{Countable K} {A W : Type} (step : gmap K W → K * A → gmap K W).

Lemma batch_other l db k : (∀ db p, p.1 ≠ k → step db p !! k = db !! k) → k ∉ l.*1 → fold_left step l db !! k = db !! k.
Proof.
  intros Hs. revert db. induction l as [|p l IH]; intros db Hk; [done|]. cbn [fold_left]. rewrite fmap_cons, not_elem_of_cons in Hk.
  rewrite IH by apply Hk. apply Hs. intros E. by apply (proj1 Hk).
Qed.
Lemma batch_deleted l db k : (∀ p, p ∈ l → ∀ db, step db p = delete p.1 db) → k ∈ l.*1 → fold_left step l db !! k = None.
Proof.
  revert db. induction l as [|p l IH] using rev_ind; intros db Hs Hk; [by inversion Hk|].
  rewrite fold_left_app. cbn [fold_left]. rewrite Hs by (apply elem_of_app; right; by left). rewrite lookup_delete. case_decide as Hp; [done|].
  apply IH; [intros; apply Hs, elem_of_app; by left|]. rewrite fmap_app, elem_of_app in Hk. destruct Hk as [?|Hk]; [done|].
  apply list_elem_of_singleton in Hk. by subst k.
Qed.
End Batch.

Lemma batch_restored `{Countable K} {A B W : Type} (s1 : gmap K W → K * A → gmap K W) (s2 : gmap K W → K * B → gmap K W) l1 l2 db :
  (∀ k db p, p.1 ≠ k → s1 db p !! k = db !! k) → (∀ k db p, p.1 ≠ k → s2 db p !! k = db !! k) → (∀ p, p ∈ l2 → ∀ db, s2 db p = delete p.1 db) →
  (∀ k, k ∈ l1.*1 ↔ k ∈ l2.*1) → (∀ k, k ∈ l1.*1 → db !! k = None) → fold_left s2 l2 (fold_left s1 l1 db) = db.
Proof.
  intros H1 H2 Hd Hk Hf. apply map_eq. intros k. destruct (decide (k ∈ l2.*1)) as [Hin|Hin].
  - rewrite (batch_deleted s2 l2 _ k Hd Hin). symmetry. by apply Hf, Hk.
  - rewrite (batch_other s2) by auto. apply batch_other; [auto|]. by rewrite Hk.
Qed.

Lemma elem_of_concat {A} (x : A) ls : x ∈ concat ls ↔ ∃ l, l ∈ ls ∧ x ∈ l.
Proof. rewrite list_elem_of_In, in_concat. by setoid_rewrite list_elem_of_In. Qed.
Lemma elem_of_rev {A} (x : A) l : x ∈ rev l ↔ x ∈ l.
Proof. rewrite !list_elem_of_In. symmetry. apply in_rev. Qed.

(** Disconnecting takes back the address and the spent index. *)
Lemma address_index_undone fA fS h evs db :
  (∀ p, p ∈ addressIndex (collect (con fA fS h) evs) → db !! p.1 = None) →
  EraseAddressIndex (addressIndex (collect (dis fA fS h) (rev evs))) (WriteAddressIndex (addressIndex (collect (con fA fS h) evs)) db) = db.
Proof.
  intros Hf. apply batch_restored.
  - intros. by apply lookup_insert_ne.
  - intros. by apply lookup_delete_ne.
  - done.
  - intros k. rewrite !addressIndex_collect, !list_elem_of_fmap. apply exist_proper. intros p.
    apply and_iff_compat_l. rewrite !elem_of_concat. setoid_rewrite list_elem_of_fmap. setoid_rewrite elem_of_rev. unfold compose. setoid_rewrite addressIndex_dis. done.
  - intros k (p & -> & Hp)%list_elem_of_fmap. by apply Hf.
Qed.
Lemma spent_index_undone fA fS h evs db :
  (∀ p, p ∈ spentIndex (collect (con fA fS h) evs) → db !! p.1 = None) →
  UpdateSpentIndex (spentIndex (collect (dis fA fS h) (rev evs))) (UpdateSpentIndex (spentIndex (collect (con fA fS h) evs)) db) = db.
Proof.
  intros Hf. apply batch_restored.
  - intros k d p Hp. cbn. destruct (spent_IsNull _); [by apply lookup_delete_ne|by apply lookup_insert_ne].
  - intros k d p Hp. cbn. destruct (spent_IsNull _); [by apply lookup_delete_ne|by apply lookup_insert_ne].
  - intros p Hp d. rewrite spentIndex_collect, elem_of_concat in Hp. destruct Hp as (l & (e & -> & _)%list_elem_of_fmap & Hp). cbn.
    by rewrite (spentIndex_null _ _ _ _ _ Hp).
  - intros k. rewrite !spentIndex_collect.
    assert (∀ (f : index_event → index_vecs) l, k ∈ (concat (spentIndex ∘ f <$> l)).*1 ↔ ∃ e, e ∈ l ∧ k ∈ (spentIndex (f e)).*1) as H.
    { intros f l. rewrite list_elem_of_fmap. setoid_rewrite elem_of_concat. setoid_rewrite list_elem_of_fmap. naive_solver. }
    rewrite !H. setoid_rewrite elem_of_rev. by setoid_rewrite spentIndex_keys.
  - intros k (p & -> & Hp)%list_elem_of_fmap. by apply Hf.
Qed.
