(* ===== verification/ConnectBlock.v ===== *)
(** * Connecting and disconnecting blocks (main.cpp)

    [CheckInputs], [ConnectBlock] and [DisconnectBlock], over any coin store.
    Files and the block tree database only store what is computed here: undo data
    is handed from one to the other, index updates are returned. *)
From stdpp Require Import base tactics list gmap numbers option.
From Stdlib Require Import ZArith Lia.
From S2P Require Import Prelude.
From S2P Require Import Serialize.
From S2P Require Import BaseUint.
From S2P Require Import ScriptCode.
From S2P Require Import Interpreter.
From S2P Require Import Transaction.
From S2P Require Import SigHash.
From S2P Require Import Standard.
From S2P Require Import Chain.
From S2P Require Import Pow.
From S2P Require Import Block.
From S2P Require Import Coins.
From S2P Require Import CoinsView.
From S2P Require Import Utxo.
From S2P Require Import AddressIndex.

(** ** Parameters *)

Definition MANDATORY_SCRIPT_VERIFY_FLAGS : Z := SCRIPT_VERIFY_P2SH.
Definition STANDARD_SCRIPT_VERIFY_FLAGS : Z :=
  Z.lor (Z.lor (Z.lor (Z.lor (Z.lor MANDATORY_SCRIPT_VERIFY_FLAGS SCRIPT_VERIFY_DERSIG) SCRIPT_VERIFY_STRICTENC)
    SCRIPT_VERIFY_MINIMALDATA) SCRIPT_VERIFY_NULLDUMMY) SCRIPT_VERIFY_DISCOURAGE_UPGRADABLE_NOPS.
Definition STANDARD_NOT_MANDATORY_VERIFY_FLAGS : Z :=
  Z.land STANDARD_SCRIPT_VERIFY_FLAGS (Z.lnot MANDATORY_SCRIPT_VERIFY_FLAGS).

(** The ways [CheckInputs] refuses, with the ban score of each. *)
Inductive input_reject :=
| InputsUnavailable | PrematureSpend | InputValuesOutOfRange | InBelowOut | FeeNegative | FeeOutOfRange
| NonMandatoryScript | MandatoryScript.
Definition input_reject_dos (e : input_reject) : Z :=
  match e with InputsUnavailable | PrematureSpend | NonMandatoryScript => 0 | _ => 100 end.

(** A [CScriptCheck] that has been set up. *)
Record CScriptCheck := ScriptCheck { sc_scriptPubKey : list Z; sc_ptxTo : CTransaction; sc_nIn : nat; sc_nFlags : Z }.

Section CheckInputs.
Context `{CoinsStore V} (Verify : list Z → Z → list Z → bool).
Context (nMaxMoneyOut COINBASE_MATURITY : Z) (m : block_index).

(** [CScriptCheck::operator()] *)
Definition run_check (c : CScriptCheck) : outcome input_reject bool :=
  match VerifyInput Verify (sc_nFlags c) (sc_ptxTo c) (sc_nIn c) (sc_scriptPubKey c) with
  | Ok _ => Ok true
  | Err _ => Ok false
  | AssertFail => AssertFail
  | OutOfFuel => OutOfFuel
  end.

(** The coins of an input: the pointer must not be [NULL]. *)
Definition access (v : V) (txid : Z) : outcome input_reject (CCoins * V) :=
  let '(coins, v) := cs_access v txid in
  match coins with Some c => Ok (c, v) | None => AssertFail end.

(** The inexpensive checks: values and maturity. *)
Fixpoint check_values (nSpendHeight : Z) (ins : list CTxIn) (v : V) (nValueIn : Z) : outcome input_reject (Z * V) :=
  match ins with
  | [] => Ok (nValueIn, v)
  | i :: ins =>
      '(coins, v) ← access v (prevout_hash (prevout i));
      if (fCoinBase coins || fCoinStake coins) && (nSpendHeight - c_nHeight coins <? COINBASE_MATURITY) then Err PrematureSpend else
      match c_vout coins !! prevout_pos i with
      | None => AssertFail
      | Some o =>
          nValueIn ← add64 nValueIn (nValue o);
          if negb (MoneyRange nMaxMoneyOut (nValue o)) || negb (MoneyRange nMaxMoneyOut nValueIn) then Err InputValuesOutOfRange
          else check_values nSpendHeight ins v nValueIn
      end
  end.

(** The fee rules; a coinstake has no fee. *)
Definition check_fee (tx : CTransaction) (nValueIn : Z) : outcome input_reject unit :=
  if IsCoinStake tx then Ok tt else
  valueOut ← no_err (GetValueOut tx);
  if nValueIn <? valueOut then Err InBelowOut else
  let nTxFee := nValueIn - valueOut in
  if nTxFee <? 0 then Err FeeNegative else
  if negb (MoneyRange nMaxMoneyOut nTxFee) then Err FeeOutOfRange else Ok tt.

(** The script checks from input [i]: collected when [pvChecks] is given, run at
    once otherwise. *)
Fixpoint check_scripts (tx : CTransaction) (flags : Z) (pvChecks : bool) (i : nat) (ins : list CTxIn) (v : V) (checks : list CScriptCheck)
  : outcome input_reject (list CScriptCheck * V) :=
  match ins with
  | [] => Ok (checks, v)
  | input :: ins =>
      '(coins, v) ← access v (prevout_hash (prevout input));
      match c_vout coins !! prevout_pos input with
      | None => AssertFail
      | Some o =>
          let check := ScriptCheck (scriptPubKey o) tx i flags in
          if pvChecks then check_scripts tx flags pvChecks (S i) ins v (checks ++ [check]) else
          ok ← run_check check;
          if ok : bool then check_scripts tx flags pvChecks (S i) ins v checks else
          if flag flags STANDARD_NOT_MANDATORY_VERIFY_FLAGS then
            ok ← run_check (ScriptCheck (scriptPubKey o) tx i (Z.land flags (Z.lnot STANDARD_NOT_MANDATORY_VERIFY_FLAGS)));
            if ok : bool then Err NonMandatoryScript else Err MandatoryScript
          else Err MandatoryScript
      end
  end.

Definition CheckInputs (tx : CTransaction) (v : V) (fScriptChecks : bool) (flags : Z) (pvChecks : bool)
  : outcome input_reject (list CScriptCheck * V) :=
  if IsCoinBase tx then Ok ([], v) else
  let '(have, v) := HaveInputs v tx in
  if negb have then Err InputsUnavailable else
  let '(best, v) := cs_best v in
  pindexPrev ← deref m best;
  '(nValueIn, v) ← check_values (nHeight pindexPrev + 1) (vin tx) v 0;
  _ ← check_fee tx nValueIn;
  if fScriptChecks then check_scripts tx flags pvChecks 0 (vin tx) v [] else Ok ([], v).
End CheckInputs.

(** ** ConnectBlock *)

Inductive connect_reject :=
| RejectBlock (e : block_reject) | PoSEarly | PoWEnded | OverwritesTransaction | TooManyBlockSigOps | InputsMissing
| RejectInputs (e : input_reject) | RewardTooHigh | SupplyTooHigh | ScriptsFailed.

(** What the node is configured with, beside the network parameters. *)
Record node_config := NodeConfig {
  fAddressIndex : bool;
  fSpentIndex : bool;
  script_threads : bool                     (** [nScriptCheckThreads] is not zero *)
}.

(** What [IsBlockValueValid] asks of the masternode modules. *)
Record budget_env := BudgetEnv {
  masternodes_synced : bool;                (** [masternodeSync.IsSynced()] *)
  superblocks_enabled : bool;               (** [IsSporkActive(SPORK_13_ENABLE_SUPERBLOCKS)] *)
  budget_cycle : Z;                         (** [GetBudgetPaymentCycleBlocks()] *)
  IsBudgetPaymentBlock : Z → bool           (** [budget.IsBudgetPaymentBlock] *)
}.

(** [IsBlockValueValid] (masternode-payments.cpp); C++'s [%] truncates. *)
Definition IsBlockValueValid {E} (env : node_env) (be : budget_env) (b : CBlock) (nExpectedValue nMinted : Z) : outcome E bool :=
  pindexPrev ← no_err (Tip (mapBlockIndex env) (chainActive env) false);
  match pindexPrev with
  | None => Ok true
  | Some p =>
      tip ← deref (mapBlockIndex env) p;
      let nHeight := height_by_prev env p tip (hashPrevBlock (header b)) in
      if negb (masternodes_synced be) then
        _ ← assert_that (negb (budget_cycle be =? 0));
        if Z.rem nHeight (budget_cycle be) <? 100 then Ok true else Ok (negb (nExpectedValue <? nMinted))
      else if negb (superblocks_enabled be) then Ok (nMinted <=? nExpectedValue)
      else if IsBudgetPaymentBlock be nHeight then Ok true else Ok (negb (nExpectedValue <? nMinted))
  end.

(** The locals of the loop over the transactions. *)
Record connect_state (V : Type) := ConnectState {
  st_view : V; nFees : Z; nSigOps : Z; nValueIn : Z; nValueOut : Z; vtxundo : list (list CTxInUndo);
  script_checks : list CScriptCheck; vecs : index_vecs; vPos : list (Z * Z); nTxOffset : Z }.
Arguments ConnectState {V}.
Arguments st_view {V}. Arguments nFees {V}. Arguments nSigOps {V}. Arguments nValueIn {V}. Arguments nValueOut {V}.
Arguments vtxundo {V}. Arguments script_checks {V}. Arguments vecs {V}. Arguments vPos {V}. Arguments nTxOffset {V}.

(** What a successful call leaves: the view, the money supply and mint of the
    block's index entry, the undo data, index updates and transaction positions. *)
Record connected (V : Type) := Connected {
  r_view : V; nMoneySupply : Z; nMint : Z; r_undo : list (list CTxInUndo); r_vecs : index_vecs; r_vPos : list (Z * Z) }.
Arguments Connected {V}.
Arguments r_view {V}. Arguments nMoneySupply {V}. Arguments nMint {V}. Arguments r_undo {V}. Arguments r_vecs {V}. Arguments r_vPos {V}.

Section ConnectBlock.
Context `{CoinsStore V} (Verify : list Z → Z → list Z → bool) (GetHash : CBlockHeader → Z).
Context (params : CChainParams) (up : upgrade_params) (nMaxMoneyOut COINBASE_MATURITY : Z).
Context (env : node_env) (be : budget_env) (cfg : node_config).

Notation cres := (outcome connect_reject).

(** [GetP2SHSigOpCount], from the first input on. *)
Fixpoint p2sh_sigops (ins : list CTxIn) (v : V) (n : Z) : cres (Z * V) :=
  match ins with
  | [] => Ok (n, v)
  | i :: ins =>
      '(o, v) ← no_err (GetOutputFor v i);
      if IsPayToScriptHash (scriptPubKey o) then
        k ← GetSigOpCount_P2SH (scriptPubKey o) (scriptSig i); p2sh_sigops ins v (u32 (n + k))
      else p2sh_sigops ins v n
  end.
Definition GetP2SHSigOpCount (tx : CTransaction) (v : V) : cres (Z * V) :=
  if IsCoinBase tx then Ok (0, v) else p2sh_sigops (vin tx) v 0.

(** The index updates of the inputs, from input [j]. *)
Fixpoint index_inputs (nHeight i txhash j : Z) (ins : list CTxIn) (v : V) (x : index_vecs) : cres (index_vecs * V) :=
  match ins with
  | [] => Ok (x, v)
  | input :: ins =>
      let '(coins, v) := cs_access v (prevout_hash (prevout input)) in
      match coins with
      | Some c =>
          if IsAvailable c (prevout_pos input) then
            match c_vout c !! prevout_pos input with
            | None => AssertFail
            | Some o =>
                x ← no_err (index_spend (fAddressIndex cfg) (fSpentIndex cfg) nHeight i txhash j input o x);
                index_inputs nHeight i txhash (j + 1) ins v x
            end
          else index_inputs nHeight i txhash (j + 1) ins v x
      | None => index_inputs nHeight i txhash (j + 1) ins v x
      end
  end.

(** What is done for a transaction that is not a coinbase. *)
Definition connect_inputs (nHeight : Z) (i : nat) (tx : CTransaction) (fScriptChecks fStrictPayToScriptHash : bool) (flags : Z)
    (st : connect_state V) : cres (connect_state V) :=
  let '(have, v) := HaveInputs (st_view st) tx in
  if negb have then Err InputsMissing else
  '(x, v) ← (if fAddressIndex cfg || fSpentIndex cfg then index_inputs nHeight (Z.of_nat i) (tx_hash tx) 0 (vin tx) v (vecs st) else Ok (vecs st, v));
  '(sigops, v) ← (if fStrictPayToScriptHash then '(k, v) ← GetP2SHSigOpCount tx v; Ok (u32 (nSigOps st + k), v) else Ok (nSigOps st, v));
  if fStrictPayToScriptHash && (MAX_BLOCK_SIGOPS <? sigops) then Err TooManyBlockSigOps else
  '(fees, v) ← (if negb (IsCoinStake tx) then
                  '(valueIn, v) ← no_err (GetValueIn v tx); valueOut ← no_err (GetValueOut tx);
                  fees ← add64 (nFees st) (valueIn - valueOut); Ok (fees, v)
                else Ok (nFees st, v));
  '(valueIn, v) ← no_err (GetValueIn v tx);
  total ← add64 (nValueIn st) valueIn;
  '(checks, v) ← map_err RejectInputs
    (CheckInputs Verify nMaxMoneyOut COINBASE_MATURITY (mapBlockIndex env) tx v fScriptChecks flags (script_threads cfg));
  Ok (ConnectState v fees sigops total (nValueOut st) (vtxundo st) (script_checks st ++ checks) x (vPos st) (nTxOffset st)).

(** One transaction of the block, [i] its place. *)
Definition connect_tx (nHeight : Z) (i : nat) (tx : CTransaction) (fScriptChecks fStrictPayToScriptHash : bool) (flags : Z)
    (st : connect_state V) : cres (connect_state V) :=
  n ← GetLegacySigOpCount tx;
  let sigops := u32 (nSigOps st + n) in
  if MAX_BLOCK_SIGOPS <? sigops then Err TooManyBlockSigOps else
  let st := ConnectState (st_view st) (nFees st) sigops (nValueIn st) (nValueOut st) (vtxundo st) (script_checks st) (vecs st) (vPos st) (nTxOffset st) in
  st ← (if negb (IsCoinBase tx) then connect_inputs nHeight i tx fScriptChecks fStrictPayToScriptHash flags st else Ok st);
  valueOut ← no_err (GetValueOut tx);
  total ← add64 (nValueOut st) valueOut;
  x ← (if fAddressIndex cfg then no_err (index_receive nHeight (Z.of_nat i) (tx_hash tx) 0 (vout tx) (vecs st)) else Ok (vecs st));
  '(txundo, v) ← no_err (UpdateCoins tx (st_view st) nHeight);
  Ok (ConnectState v (nFees st) (nSigOps st) (nValueIn st) total (match i with O => vtxundo st | S _ => vtxundo st ++ [txundo] end)
        (script_checks st) x (vPos st ++ [(tx_hash tx, nTxOffset st)]) (u32 (nTxOffset st + size (ser tx)))).

Fixpoint connect_txs (nHeight : Z) (i : nat) (txs : list CTransaction) (fScriptChecks fStrictPayToScriptHash : bool) (flags : Z)
    (st : connect_state V) : cres (connect_state V) :=
  match txs with
  | [] => Ok st
  | tx :: txs =>
      st ← connect_tx nHeight i tx fScriptChecks fStrictPayToScriptHash flags st;
      connect_txs nHeight (S i) txs fScriptChecks fStrictPayToScriptHash flags st
  end.

(** BIP30: no transaction of the block has unspent outputs. *)
Fixpoint check_overwrites (txs : list CTransaction) (v : V) : cres V :=
  match txs with
  | [] => Ok v
  | tx :: txs =>
      let '(coins, v) := cs_access v (tx_hash tx) in
      match coins with
      | Some c => if negb (IsPruned c) then Err OverwritesTransaction else check_overwrites txs v
      | None => check_overwrites txs v
      end
  end.
Definition fEnforceBIP30 (nHeight : Z) (phashBlock : option Z) : bool :=
  match phashBlock with
  | None => true
  | Some h =>
      negb (((nHeight =? 91842) && (h =? 0x00000000000a4d0a398161ffc163c503763b1f4360639393e0e4c8e300e0caec)) ||
            ((nHeight =? 91880) && (h =? 0x00000000000743f190a18c5577a3c2d2a1f610ae9601ac046a38084ccb7cd721)))
  end.

(** [control.Wait()]: the collected checks all succeed. *)
Fixpoint run_checks (checks : list CScriptCheck) : cres bool :=
  match checks with
  | [] => Ok true
  | c :: checks => ok ← map_err RejectInputs (run_check Verify c); if ok : bool then run_checks checks else Ok false
  end.

Definition nBIP16SwitchTime : Z := 1333238400.

(** [ConnectBlock]: [pindex] is the block's index entry and [phashBlock] its hash,
    absent for a block that is only tried; [supplyPrev] is the money supply of the
    previous block, 0 for none. *)
Definition ConnectBlock (b : CBlock) (pindex : CBlockIndex) (phashBlock : option Z) (supplyPrev : Z) (v : V) (fJustCheck : bool)
    : cres (connected V) :=
  _ ← map_err RejectBlock (CheckBlock params nMaxMoneyOut GetHash env b (negb fJustCheck));
  let '(best, v) := cs_best v in
  _ ← assert_that (default 0 (pprev pindex) =? best);
  if GetHash (header b) =? HashGenesisBlock up then
    match phashBlock with
    | None => AssertFail
    | Some h => v ← no_err (cs_set_best v h); Ok (Connected v 0 0 [] no_updates [])
    end
  else
  let height := Chain.nHeight pindex in
  if (height <=? LAST_POW_BLOCK params) && block_IsProofOfStake (vtx b) then Err PoSEarly else
  if (LAST_POW_BLOCK params <? height) && block_IsProofOfWork (vtx b) then Err PoWEnded else
  estimate ← no_err (GetTotalBlocksEstimate up);
  let fScriptChecks := estimate <=? height in
  v ← (if fEnforceBIP30 height phashBlock then check_overwrites (vtx b) v else Ok v);
  let fStrictPayToScriptHash := nBIP16SwitchTime <=? GetBlockTime pindex in
  let flags := if fStrictPayToScriptHash then SCRIPT_VERIFY_P2SH else SCRIPT_VERIFY_NONE in
  dersig ← (if 3 <=? h_nVersion (header b)
            then no_err (IsSuperMajority (ToCheckBlockUpgradeMajority up) (mapBlockIndex env) 3 (pprev pindex) (EnforceBlockUpgradeMajority up))
            else Ok false);
  let flags := if dersig : bool then Z.lor flags SCRIPT_VERIFY_DERSIG else flags in
  st ← connect_txs height 0 (vtx b) fScriptChecks fStrictPayToScriptHash flags
         (ConnectState v 0 0 0 0 [] [] no_updates [] (GetSizeOfCompactSize (Z.of_nat (length (vtx b)))));
  supply ← add64 supplyPrev (nValueOut st);
  supply ← add64 supply (- nValueIn st);
  let mint := supply - supplyPrev in
  subsidy ← no_err (GetBlockValue height);
  nExpectedMint ← (if block_IsProofOfWork (vtx b) then add64 subsidy (nFees st) else Ok subsidy);
  value_ok ← IsBlockValueValid env be b nExpectedMint mint;
  if negb value_ok then Err RewardTooHigh else
  if nMaxMoneyOut <? supply then Err SupplyTooHigh else
  ok ← run_checks (script_checks st);
  if negb ok then Err ScriptsFailed else
  if fJustCheck then Ok (Connected (st_view st) supply mint (vtxundo st) (vecs st) (vPos st)) else
  match phashBlock with
  | None => AssertFail
  | Some h => v ← no_err (cs_set_best (st_view st) h); Ok (Connected v supply mint (vtxundo st) (vecs st) (vPos st))
  end.

(** The status of the block's index entry after the undo data is written;
    [pos_null] says that it had no undo position. *)
Definition raise_scripts (pos_null : bool) (pindex : CBlockIndex) : res CBlockIndex :=
  valid ← IsValid BLOCK_VALID_SCRIPTS pindex;
  if pos_null || negb valid then
    let pindex := if pos_null then set_nStatus (Z.lor (nStatus pindex) BLOCK_HAVE_UNDO) pindex else pindex in
    '(_, pindex) ← RaiseValidity BLOCK_VALID_SCRIPTS pindex; Ok pindex
  else Ok pindex.

(** ** DisconnectBlock *)

Inductive disconnect_error := NoUndoData | InconsistentUndo.

(** [DisconnectBlock]: [undo] is what is read back from the undo file, [None] when
    there is no position or reading fails.  The result is [fClean], the view and
    the index updates; [pfClean] only decides how [fClean] is handed over. *)
Definition DisconnectBlock (b : CBlock) (pindex : CBlockIndex) (hash : Z) (undo : option (list (list CTxInUndo))) (v : V)
    : outcome disconnect_error (bool * V * index_vecs) :=
  let '(best, v) := cs_best v in
  _ ← assert_that (hash =? best);
  match undo with
  | None => Err NoUndoData
  | Some vtxundo =>
      if negb (Z.of_nat (length vtxundo) + 1 =? Z.of_nat (length (vtx b))) then Err InconsistentUndo else
      '(fClean, v) ← map_err (λ _, InconsistentUndo) (undo_txs (length (vtx b)) (vtx b) (Chain.nHeight pindex) vtxundo v true);
      x ← no_err (unindex_txs (fAddressIndex cfg) (fSpentIndex cfg) (length (vtx b)) (Chain.nHeight pindex) (vtx b) vtxundo no_updates);
      match pprev pindex with
      | None => AssertFail
      | Some p => v ← no_err (cs_set_best v p); Ok (fClean, v, x)
      end
  end.
Definition disconnect_result (pfClean : bool) (fClean : bool) : bool := if pfClean then true else fClean.

End ConnectBlock.
