(* ===== verification/Ledger.v ===== *)
(** * The ledger (main.cpp: what ConnectBlock and DisconnectBlock achieve)

    The abstract ledger is a map of unspent outputs and a relation that says when
    the transactions of a block may be applied to it.  [ConnectBlock] refines it,
    with the money supply it computes, and [DisconnectBlock] takes it back. *)
From stdpp Require Import base tactics list gmap numbers option.
From Stdlib Require Import ZArith Lia.
From S2P Require Import Prelude.
From S2P Require Import BaseUint.
From S2P Require Import ScriptCode.
From S2P Require Import Interpreter.
From S2P Require Import Transaction.
From S2P Require Import SigHash.
From S2P Require Import Chain.
From S2P Require Import Pow.
From S2P Require Import Merkle.
From S2P Require Import Block.
From S2P Require Import Coins.
From S2P Require Import CoinsView.
From S2P Require Import Utxo.
From S2P Require Import AddressIndex.
From S2P Require Import ConnectBlock.

(** ** The abstract ledger *)

(** The output an input spends. *)
Definition spent_output (u : utxo_map) (i : CTxIn) : option CTxOut :=
  c ← u !! prevout_hash (prevout i); if IsAvailable c (prevout_pos i) then c_vout c !! prevout_pos i else None.

(** The value of the outputs that inputs spend. *)
Definition value_in (u : utxo_map) (ins : list CTxIn) : Z := sum_Z (λ i, match spent_output u i with Some o => nValue o | None => 0 end) ins.

(** The script check of every input, from place [k]. *)
Fixpoint input_checks (u : utxo_map) (tx : CTransaction) (flags : Z) (k : nat) (ins : list CTxIn) : list CScriptCheck :=
  match ins with
  | [] => []
  | i :: ins =>
      match spent_output u i with
      | Some o => ScriptCheck (scriptPubKey o) tx k flags :: input_checks u tx flags (S k) ins
      | None => input_checks u tx flags (S k) ins
      end
  end.
Definition tx_checks (u : utxo_map) (flags : Z) (tx : CTransaction) : list CScriptCheck :=
  if IsCoinBase tx then [] else input_checks u tx flags 0 (vin tx).

(** The fee of a transaction with its undo data, and the fees of a block. *)
Definition tx_fee (tx : CTransaction) (spent : Z) : Z := if IsCoinBase tx || IsCoinStake tx then 0 else spent - sum_values (vout tx).
Fixpoint block_fees (txs : list CTransaction) (xss : list (list CTxInUndo)) : Z :=
  match txs, xss with
  | tx :: txs, xs :: xss => tx_fee tx (undo_value xs) + block_fees txs xss
  | _, _ => 0
  end.

Section Ledger.
Context (nMaxMoneyOut COINBASE_MATURITY : Z).

(** A generated output is spent no sooner than the maturity. *)
Definition mature (u : utxo_map) (height : Z) (i : CTxIn) : Prop :=
  ∀ c, u !! prevout_hash (prevout i) = Some c → fCoinBase c || fCoinStake c = true → COINBASE_MATURITY ≤ height - c_nHeight c.

Record spend_ok (u : utxo_map) (height : Z) (tx : CTransaction) : Prop := {
  sp_available : ∀ i, i ∈ vin tx → is_Some (spent_output u i);
  sp_mature : ∀ i, i ∈ vin tx → mature u height i;
  sp_values : ∀ i o, i ∈ vin tx → spent_output u i = Some o → 0 ≤ nValue o ≤ nMaxMoneyOut;
  sp_total : value_in u (vin tx) ≤ nMaxMoneyOut;
  sp_fee : IsCoinStake tx = false → sum_values (vout tx) ≤ value_in u (vin tx)
}.

(** [ledger height flags u txs undo checks u']: the transactions apply to [u] and
    give [u'], with the undo data and the script checks that must hold. *)
Inductive ledger (height flags : Z) :
  utxo_map → list CTransaction → list (list CTxInUndo) → list CScriptCheck → utxo_map → Prop :=
| ledger_nil u : ledger height flags u [] [] [] u
| ledger_tx u tx xs u1 txs xss checks u2 :
    (IsCoinBase tx = false → spend_ok u height tx) →
    update u tx height = Some (xs, u1) →
    ledger height flags u1 txs xss checks u2 →
    ledger height flags u (tx :: txs) (xs :: xss) (tx_checks u flags tx ++ checks) u2.
End Ledger.

(** ** Reads *)

Section Reads.
Context `{CoinsStore V}.

(** [v'] shows the same as [v]: only caches were filled. *)
Definition best (v : V) : Z := (cs_best v).1.
Definition reads (v v' : V) : Prop := cs_ok v' ∧ cs_utxo v' = cs_utxo v ∧ best v' = best v.

Lemma reads_refl v : cs_ok v → reads v v.
Proof. intros. by split_and!. Qed.
Lemma reads_trans v1 v2 v3 : reads v1 v2 → reads v2 v3 → reads v1 v3.
Proof. intros (_ & E1 & B1) (? & E2 & B2). split_and!; [done|congruence..]. Qed.

Lemma IsPruned_unavailable c n : IsPruned c = true → IsAvailable c n = false.
Proof.
  unfold IsPruned, IsAvailable. intros Hp. destruct (c_vout c !! n) as [o|] eqn:E; [|done].
  rewrite forallb_forall in Hp. apply list_elem_of_lookup_2, list_elem_of_In in E. by rewrite (Hp o E).
Qed.

Lemma access_utxo v t : cs_ok v → let r := cs_access v t in reads v r.2 ∧ unspent r.1 = cs_utxo v !! t.
Proof. intros Hv. destruct (cs_access_spec v t Hv) as (? & ? & Hs). pose proof (cs_access_best v t). done. Qed.

Lemma spent_output_Some u i o :
  spent_output u i = Some o ↔ ∃ c, u !! prevout_hash (prevout i) = Some c ∧ c_vout c !! prevout_pos i = Some o ∧ CTxOut_IsNull o = false.
Proof.
  unfold spent_output, IsAvailable. destruct (u !! prevout_hash (prevout i)) as [c|]; cbn [mbind option_bind]; [|naive_solver].
  destruct (c_vout c !! prevout_pos i) as [o'|] eqn:E; [|naive_solver]. destruct (CTxOut_IsNull o') eqn:En; cbn [negb]; split; naive_solver congruence.
Qed.

(** Reading the coins of an input that is available. *)
Lemma access_available v i o :
  cs_ok v → spent_output (cs_utxo v) i = Some o →
  ∃ c v', cs_access v (prevout_hash (prevout i)) = (Some c, v') ∧ reads v v' ∧ cs_utxo v !! prevout_hash (prevout i) = Some c ∧
    c_vout c !! prevout_pos i = Some o ∧ IsAvailable c (prevout_pos i) = true.
Proof.
  intros Hv Ho. destruct (access_utxo v (prevout_hash (prevout i)) Hv) as [Hr Hs].
  apply spent_output_Some in Ho as (c & Hc & Hn & Hnull). destruct (cs_access v _) as [r v']. cbn [fst snd] in *. exists c, v'.
  destruct r as [d|]; [|rewrite Hc in Hs; discriminate Hs]. rewrite Hc, unspent_Some in Hs. assert (d = c) as -> by (destruct (IsPruned d); congruence).
  split_and!; try done. unfold IsAvailable. by rewrite Hn, Hnull.
Qed.
Lemma access_unavailable v i :
  cs_ok v → spent_output (cs_utxo v) i = None →
  let r := cs_access v (prevout_hash (prevout i)) in reads v r.2 ∧ match r.1 with Some c => IsAvailable c (prevout_pos i) = false | None => True end.
Proof.
  intros Hv Ho. destruct (access_utxo v (prevout_hash (prevout i)) Hv) as [Hr Hs]. cbn zeta. split; [done|].
  destruct (cs_access v _) as [[d|] v']; cbn [fst snd] in *; [|done]. rewrite unspent_Some in Hs.
  destruct (IsPruned d) eqn:Ep; [by apply IsPruned_unavailable|]. unfold spent_output in Ho. rewrite <- Hs in Ho. cbn [mbind option_bind] in Ho.
  revert Ho. unfold IsAvailable. destruct (c_vout d !! prevout_pos i) as [o|]; [|done]. destruct (CTxOut_IsNull o); cbn; [done|discriminate].
Qed.

Definition available (u : utxo_map) (ins : list CTxIn) : bool := forallb (λ i, bool_decide (is_Some (spent_output u i))) ins.

Lemma HaveInputs_loop_spec v ins :
  cs_ok v → let r := HaveInputs_loop v ins in reads v r.2 ∧ r.1 = available (cs_utxo v) ins.
Proof.
  revert v. induction ins as [|i ins IH]; intros v Hv; cbn [HaveInputs_loop available forallb]; [by split; [apply reads_refl|]|].
  destruct (spent_output (cs_utxo v) i) as [o|] eqn:Eo.
  - destruct (access_available v i o Hv Eo) as (c & v' & -> & Hr & _ & _ & Ha). fold (prevout_pos i). rewrite Ha.
    destruct (IH v' (proj1 Hr)) as [Hr' E]. cbn zeta in *. split; [by eapply reads_trans|]. rewrite E. by rewrite (proj1 (proj2 Hr)).
  - destruct (access_unavailable v i Hv Eo) as [Hr Ha]. destruct (cs_access v _) as [[c|] v']; cbn [fst snd] in *; [|done].
    fold (prevout_pos i). by rewrite Ha.
Qed.

Lemma HaveInputs_utxo v tx : cs_ok v → IsCoinBase tx = false → let r := HaveInputs v tx in reads v r.2 ∧ r.1 = available (cs_utxo v) (vin tx).
Proof. intros Hv Hc. unfold HaveInputs. rewrite Hc. by apply HaveInputs_loop_spec. Qed.

Lemma available_lookup u ins : available u ins = true ↔ ∀ i, i ∈ ins → is_Some (spent_output u i).
Proof.
  unfold available. rewrite forallb_forall. split; intros Ha i Hi.
  - apply list_elem_of_In in Hi. specialize (Ha i Hi). by apply bool_decide_eq_true in Ha.
  - apply bool_decide_eq_true. apply Ha. by apply list_elem_of_In.
Qed.

Lemma GetOutputFor_available v i o :
  cs_ok v → spent_output (cs_utxo v) i = Some o → ∃ v', GetOutputFor v i = Ok (o, v') ∧ reads v v'.
Proof.
  intros Hv Ho. destruct (access_available v i o Hv Ho) as (c & v' & E & Hr & _ & Hn & Ha). exists v'. unfold GetOutputFor.
  rewrite E. fold (prevout_pos i). rewrite Ha, Hn. done.
Qed.

Lemma GetOutputFor_Ok v i o v' : cs_ok v → GetOutputFor v i = Ok (o, v') → reads v v' ∧ spent_output (cs_utxo v) i = Some o.
Proof.
  intros Hv E. destruct (spent_output (cs_utxo v) i) as [o'|] eqn:Eo.
  - destruct (GetOutputFor_available v i o' Hv Eo) as (v2 & E2 & Hr). rewrite E2 in E. injection E as -> ->. done.
  - destruct (access_unavailable v i Hv Eo) as [_ Ha]. revert E. unfold GetOutputFor. destruct (cs_access v _) as [[c|] v2]; cbn [fst] in Ha; [|done].
    fold (prevout_pos i). rewrite Ha. intros E. discriminate E.
Qed.

Lemma GetValueIn_loop_Ok ins v n r v' :
  cs_ok v → GetValueIn_loop v ins n = Ok (r, v') → reads v v' ∧ r = n + value_in (cs_utxo v) ins.
Proof.
  revert v n. induction ins as [|i ins IH]; intros v n Hv; cbn [GetValueIn_loop].
  - intros [= <- <-]. split; [by apply reads_refl|]. cbn. lia.
  - intros ([o v1] & E1 & (n1 & E2 & E3)%outcome_bind_ok)%outcome_bind_ok. destruct (GetOutputFor_Ok v i o v1 Hv E1) as [Hr Ho].
    apply IH in E3 as [Hr' ->]; [|apply Hr]. split; [by eapply reads_trans|]. unfold value_in. rewrite sum_Z_cons, Ho.
    destruct Hr as (_ & -> & _). unfold add64 in E2. case_match; [|done]. injection E2 as <-. lia.
Qed.

Lemma value_in_cons u i ins o : spent_output u i = Some o → value_in u (i :: ins) = nValue o + value_in u ins.
Proof. intros Ho. unfold value_in. by rewrite sum_Z_cons, Ho. Qed.

Lemma GetOutputFor_reads v i o v' : cs_ok v → no_err (E':=connect_reject) (GetOutputFor v i) = Ok (o, v') → reads v v'.
Proof. intros Hv E. destruct (GetOutputFor v i) as [[o' w]| | |] eqn:E1; [|discriminate E..]. injection E as -> ->. by apply GetOutputFor_Ok in E1 as [? _]. Qed.

Lemma p2sh_sigops_reads ins v n r v' : cs_ok v → p2sh_sigops ins v n = Ok (r, v') → reads v v'.
Proof.
  revert v n. induction ins as [|i ins IH]; intros v n Hv; cbn [p2sh_sigops]; [intros [= <- <-]; by apply reads_refl|].
  intros ([o w] & E1%GetOutputFor_reads & E)%outcome_bind_ok; [|done]. eapply reads_trans; [exact E1|].
  destruct (IsPayToScriptHash _); [apply outcome_bind_ok in E as (k & _ & E)|]; (eapply IH; [apply E1|exact E]).
Qed.
Lemma GetP2SHSigOpCount_reads tx v r v' : cs_ok v → GetP2SHSigOpCount tx v = Ok (r, v') → reads v v'.
Proof. intros Hv. unfold GetP2SHSigOpCount. destruct (IsCoinBase tx); [intros [= <- <-]; by apply reads_refl|by apply p2sh_sigops_reads]. Qed.

Lemma index_inputs_reads cfg h i t j ins v x r v' : cs_ok v → index_inputs cfg h i t j ins v x = Ok (r, v') → reads v v'.
Proof.
  revert v j x. induction ins as [|a ins IH]; intros v j x Hv; cbn [index_inputs]; [intros [= <- <-]; by apply reads_refl|].
  destruct (access_utxo v (prevout_hash (prevout a)) Hv) as [Hr _]. destruct (cs_access v _) as [c w]. cbn [snd] in Hr. intros E.
  eapply reads_trans; [exact Hr|]. destruct Hr as [Hw _].
  destruct c as [c|]; [|by eapply IH]. destruct (IsAvailable c _); [|by eapply IH]. destruct (c_vout c !! _); [|done].
  apply outcome_bind_ok in E as (y & _ & E). by eapply IH.
Qed.

Lemma check_overwrites_Ok txs v v' :
  cs_ok v → check_overwrites txs v = Ok v' → reads v v' ∧ ∀ tx, tx ∈ txs → cs_utxo v !! tx_hash tx = None.
Proof.
  revert v. induction txs as [|tx txs IH]; intros v Hv; cbn [check_overwrites].
  { intros [= <-]. split; [by apply reads_refl|]. intros tx Ht. by inversion Ht. }
  destruct (access_utxo v (tx_hash tx) Hv) as [Hr Hs]. destruct (cs_access v _) as [c w]. cbn [fst snd] in Hr, Hs. intros E.
  assert (unspent c = None ∧ check_overwrites txs w = Ok v') as [Hn E'].
  { destruct c as [c|]; [|by split]. rewrite unspent_Some. destruct (IsPruned c); [by split|discriminate E]. }
  apply IH in E' as [Hr' Hall]; [|apply Hr]. split; [by eapply reads_trans|]. rewrite (proj1 (proj2 Hr)) in Hall.
  intros t [->|Ht]%elem_of_cons; [congruence|by apply Hall].
Qed.

Lemma access_Ok v i c v' :
  cs_ok v → is_Some (spent_output (cs_utxo v) i) → access v (prevout_hash (prevout i)) = Ok (c, v') →
  reads v v' ∧ cs_utxo v !! prevout_hash (prevout i) = Some c ∧ spent_output (cs_utxo v) i = c_vout c !! prevout_pos i.
Proof.
  intros Hv [o Ho]. destruct (access_available v i o Hv Ho) as (d & w & E & Hr & Hc & Hn & _). unfold access. rewrite E.
  intros [= <- <-]. split_and!; [done..|congruence].
Qed.

Section Checks.
Context (Verify : list Z → Z → list Z → bool) (nMaxMoneyOut COINBASE_MATURITY : Z) (m : block_index).

Definition check_ok (c : CScriptCheck) : Prop := VerifyInput Verify (sc_nFlags c) (sc_ptxTo c) (sc_nIn c) (sc_scriptPubKey c) = Ok tt.

Lemma run_check_Ok c : run_check Verify c = Ok true ↔ check_ok c.
Proof. unfold run_check, check_ok. destruct (VerifyInput _ _ _ _ _) as [[]| | |]; by split. Qed.
Lemma run_checks_Ok cs : run_checks Verify cs = Ok true ↔ Forall check_ok cs.
Proof.
  induction cs as [|c cs IH]; [by split|]. cbn [run_checks]. rewrite list.Forall_cons, <- IH, <- run_check_Ok.
  destruct (run_check Verify c) as [[]| | |]; cbn; split; naive_solver.
Qed.

Definition all_available (u : utxo_map) (ins : list CTxIn) : Prop := ∀ i, i ∈ ins → is_Some (spent_output u i).
Definition in_range (u : utxo_map) (i : CTxIn) : Prop := ∀ o, spent_output u i = Some o → 0 ≤ nValue o ≤ nMaxMoneyOut.

Lemma all_available_cons u i ins : all_available u (i :: ins) ↔ is_Some (spent_output u i) ∧ all_available u ins.
Proof. unfold all_available. setoid_rewrite elem_of_cons. naive_solver. Qed.

Lemma check_values_Ok h ins v n r v' :
  cs_ok v → all_available (cs_utxo v) ins → check_values nMaxMoneyOut COINBASE_MATURITY h ins v n = Ok (r, v') →
  reads v v' ∧ r = n + value_in (cs_utxo v) ins ∧ (n ≤ nMaxMoneyOut → r ≤ nMaxMoneyOut) ∧
  ∀ i, i ∈ ins → mature COINBASE_MATURITY (cs_utxo v) h i ∧ in_range (cs_utxo v) i.
Proof.
  revert v n. induction ins as [|i ins IH]; intros v n Hv Ha; cbn [check_values].
  { intros [= <- <-]. split_and!; [by apply reads_refl|cbn; lia|done|]. intros i Hi. by inversion Hi. }
  apply all_available_cons in Ha as [Hi Ha].
  intros ([c w] & E1 & E)%outcome_bind_ok. destruct (access_Ok v i c w Hv Hi E1) as (Hr & Hc & Ho).
  destruct (_ && _) eqn:Em; [done|]. destruct (c_vout c !! _) as [o|]; [|done]. apply outcome_bind_ok in E as (n1 & En & E).
  destruct (negb (MoneyRange _ (nValue o)) || _) eqn:Eb; [discriminate E|]. apply orb_false_iff in Eb as [E2%negb_false_iff E3%negb_false_iff].
  unfold MoneyRange in E2, E3. apply andb_true_iff in E2 as [?%Z.leb_le ?%Z.leb_le], E3 as [_ ?%Z.leb_le].
  unfold add64 in En. destruct ((INT64_MIN <=? _) && _) in En; [|done]. injection En as <-.
  destruct Hr as (Hw & Hu & Hb). rewrite <- Hu in Ha. apply IH in E as (Hr' & -> & Hle & Hall); [|done..]. rewrite Hu in *.
  split_and!; [by eapply reads_trans| |lia|].
  - rewrite (value_in_cons _ _ _ _ Ho). lia.
  - intros j [->|Hj]%elem_of_cons; [|by apply Hall]. split; [|intros o' Ho'; rewrite Ho in Ho'; injection Ho' as <-; lia].
    intros c' Hc' Hg. rewrite Hc in Hc'. injection Hc' as <-. rewrite Hg in Em. cbn [andb] in Em. apply Z.ltb_ge in Em. lia.
Qed.

Lemma GetValueOut_Ok tx r : GetValueOut tx = Ok r → r = sum_values (vout tx) ∧ Forall (λ o, 0 ≤ nValue o) (vout tx).
Proof.
  unfold GetValueOut. assert (∀ outs acc, GetValueOut_loop outs acc = Ok r → r = acc + sum_values outs ∧ Forall (λ o, 0 ≤ nValue o) outs) as H0; [|apply H0].
  induction outs as [|o outs IH]; intros acc; cbn [GetValueOut_loop]; [intros [= <-]; split; [cbn; lia|constructor]|].
  destruct (Z.ltb_spec (nValue o) 0); [done|]. intros (n & En & E)%outcome_bind_ok. unfold add64 in En. destruct (_ && _) in En; [|done]. injection En as <-.
  destruct (_ <? _) in E; [discriminate E|]. apply IH in E as [-> ?]. rewrite sum_values_cons. split; [lia|by constructor].
Qed.

Lemma check_fee_Ok tx n : check_fee nMaxMoneyOut tx n = Ok tt → IsCoinStake tx = false → sum_values (vout tx) ≤ n.
Proof.
  unfold check_fee. intros E Hs. rewrite Hs in E. apply outcome_bind_ok in E as (r & Er & E).
  destruct (GetValueOut tx) as [r'| | |] eqn:Eo; try discriminate Er. injection Er as ->. apply GetValueOut_Ok in Eo as [-> _].
  destruct (Z.ltb_spec n (sum_values (vout tx))); [discriminate E|lia].
Qed.

Lemma check_scripts_Ok tx flags pv k ins v cs r v' :
  cs_ok v → all_available (cs_utxo v) ins → check_scripts Verify tx flags pv k ins v cs = Ok (r, v') →
  reads v v' ∧ r = cs ++ (if pv then input_checks (cs_utxo v) tx flags k ins else []) ∧
  (pv = false → Forall check_ok (input_checks (cs_utxo v) tx flags k ins)).
Proof.
  revert k v cs. induction ins as [|i ins IH]; intros k v cs Hv Ha; cbn [check_scripts input_checks].
  { intros [= <- <-]. split_and!; [by apply reads_refl| |constructor]. destruct pv; by rewrite app_nil_r. }
  apply all_available_cons in Ha as [Hi Ha]. intros ([c w] & E1 & E)%outcome_bind_ok. destruct (access_Ok v i c w Hv Hi E1) as (Hr & Hc & Ho).
  rewrite Ho. destruct (c_vout c !! _) as [o|]; [|done]. pose proof Hr as (Hw & Hu & _). rewrite <- Hu in Ha. destruct pv.
  - apply IH in E as (Hr' & -> & _); [|done..]. rewrite Hu. split_and!; [by eapply reads_trans|by rewrite <- app_assoc|done].
  - apply outcome_bind_ok in E as (ok & Eok & E). destruct ok.
    + apply IH in E as (Hr' & -> & Hall); [|done..]. rewrite Hu in Hall. split_and!; [by eapply reads_trans|done|]. intros _.
      constructor; [by apply run_check_Ok|by apply Hall].
    + destruct (flag _ _); [|discriminate E]. apply outcome_bind_ok in E as (ok & _ & E). by destruct ok.
Qed.

Lemma all_available_spec u ins : available u ins = true ↔ all_available u ins.
Proof. apply available_lookup. Qed.

(** A successful [CheckInputs]. *)
Lemma CheckInputs_Ok tx v fsc flags pv r v' :
  cs_ok v → IsCoinBase tx = false → CheckInputs Verify nMaxMoneyOut COINBASE_MATURITY m tx v fsc flags pv = Ok (r, v') → 0 ≤ nMaxMoneyOut →
  reads v v' ∧
  (∃ prev, m !! best v = Some prev ∧ spend_ok nMaxMoneyOut COINBASE_MATURITY (cs_utxo v) (nHeight prev + 1) tx) ∧
  r = (if fsc && pv then tx_checks (cs_utxo v) flags tx else []) ∧
  (fsc = true → pv = false → Forall check_ok (tx_checks (cs_utxo v) flags tx)).
Proof.
  intros Hv Hcb E Hm. unfold CheckInputs, tx_checks in *. rewrite Hcb in *.
  pose proof (HaveInputs_utxo v tx Hv Hcb) as Hhave. destruct (HaveInputs v tx) as [have v1]. cbn [fst snd] in Hhave. cbn zeta in Hhave. destruct Hhave as [Hr1 ->].
  destruct (available _ _) eqn:Ha; [|discriminate E]. apply all_available_spec in Ha. cbn [negb] in E.
  pose proof (cs_best_spec v1 (proj1 Hr1)) as Hb. cbn zeta in Hb. destruct (cs_best v1) as [b v2] eqn:Eb. cbn [fst snd] in Hb. destruct Hb as (Hv2 & Hu2 & Hb2).
  assert (b = best v) as Hbv by (rewrite <- (proj2 (proj2 Hr1)); unfold best; by rewrite Eb).
  assert (reads v v2) as Hr2. { eapply reads_trans; [exact Hr1|]. split_and!; [done..|]. unfold best. by rewrite Eb. }
  apply outcome_bind_ok in E as (prev & Ep & E). unfold deref in Ep. destruct (m !! b) as [prev'|] eqn:Em; [|discriminate Ep]. injection Ep as ->.
  apply outcome_bind_ok in E as ([n v3] & Ev & E). rewrite <- (proj1 (proj2 Hr2)) in Ha.
  apply check_values_Ok in Ev as (Hr3 & -> & Hle & Hall); [|done..]. rewrite (proj1 (proj2 Hr2)) in *.
  apply outcome_bind_ok in E as ([] & Ef & E). rewrite Z.add_0_l in *.
  assert (reads v v3) as Hv3 by (by eapply reads_trans).
  assert (spend_ok nMaxMoneyOut COINBASE_MATURITY (cs_utxo v) (nHeight prev + 1) tx) as Hsp.
  { split; [done|intros i Hi; by apply Hall|intros i o Hi; by apply Hall|by apply Hle|by apply check_fee_Ok]. }
  assert (∃ prev, m !! best v = Some prev ∧ spend_ok nMaxMoneyOut COINBASE_MATURITY (cs_utxo v) (nHeight prev + 1) tx) by (exists prev; by subst b).
  destruct fsc; [|injection E as <- <-; by split_and!]. rewrite <- (proj1 (proj2 Hv3)) in Ha.
  apply check_scripts_Ok in E as (Hr4 & -> & Hcs); [|apply Hv3|done]. rewrite (proj1 (proj2 Hv3)) in *.
  split_and!; [by eapply reads_trans|done..|by destruct pv|auto].
Qed.

(** *** When the checks refuse *)

(** What the spent outputs and the scripts must be for the checks to run at all. *)
Definition spendable (u : utxo_map) (ins : list CTxIn) : Prop :=
  ∀ i, i ∈ ins → bytes_ok (scriptSig i) ∧ ∀ o, spent_output u i = Some o → - 2 ^ 62 ≤ nValue o ≤ 2 ^ 62 ∧ bytes_ok (scriptPubKey o).

Lemma spendable_cons u i ins : spendable u (i :: ins) → spendable u ins.
Proof. intros Hs j Hj. apply Hs. by right. Qed.

Lemma check_values_refuses h ins v n :
  cs_ok v → all_available (cs_utxo v) ins → spendable (cs_utxo v) ins → 0 ≤ n ≤ nMaxMoneyOut → nMaxMoneyOut < 2 ^ 62 →
  match check_values nMaxMoneyOut COINBASE_MATURITY h ins v n with
  | Ok (r, _) => 0 ≤ r
  | Err e => ¬ ((∀ i, i ∈ ins → mature COINBASE_MATURITY (cs_utxo v) h i ∧ in_range (cs_utxo v) i) ∧ n + value_in (cs_utxo v) ins ≤ nMaxMoneyOut) ∧
             e ≠ FeeNegative ∧ e ≠ FeeOutOfRange
  | _ => False
  end.
Proof.
  revert v n. induction ins as [|i ins IH]; intros v n Hv Ha Hs Hn Hm; cbn [check_values]; [lia|].
  pose proof Ha as [[o Ho] Ha']%all_available_cons. destruct (access_available v i o Hv Ho) as (c & w & E & (Hw & Hu & _) & Hc & Hcn & _).
  unfold access. rewrite E. cbn [mbind outcome_bind]. destruct (proj2 (Hs i ltac:(by left)) o Ho) as [Hval _].
  destruct (_ && _) eqn:Em.
  { split; [|by split]. intros [Hall _]. destruct (Hall i) as [Hmat _]; [by left|]. apply andb_true_iff in Em as [Hg Hlt%Z.ltb_lt].
    specialize (Hmat c Hc Hg). lia. }
  rewrite Hcn, add64_ok by (unfold INT64_MIN, INT64_MAX; lia). cbn [mbind outcome_bind].
  assert (∀ r, 0 ≤ r → in_range (cs_utxo v) i → (∀ j, j ∈ ins → mature COINBASE_MATURITY (cs_utxo v) h j ∧ in_range (cs_utxo v) j) → r ≤ r + value_in (cs_utxo v) ins) as Hsum.
  { intros r Hr _ Hall. enough (0 ≤ value_in (cs_utxo v) ins) by lia. clear - Hall. unfold value_in. induction ins as [|j ins IHi]; [done|]. rewrite sum_Z_cons.
    specialize (IHi (λ k Hk, Hall k (list_elem_of_further _ _ _ Hk))). destruct (Hall j) as [_ Hr]; [by left|]. destruct (spent_output _ j) as [p|] eqn:Ep; [|lia].
    specialize (Hr p Ep). lia. }
  rewrite (value_in_cons _ _ _ _ Ho). destruct (negb (MoneyRange _ (nValue o)) || _) eqn:Eb.
  - split; [|by split]. intros [Hall Hle]. destruct (Hall i) as [_ Hr]; [by left|]. pose proof (Hr o Ho) as Hro.
    specialize (Hsum (n + nValue o) ltac:(lia) Hr (λ k Hk, Hall k (list_elem_of_further _ _ _ Hk))).
    unfold MoneyRange in Eb. rewrite !(proj2 (Z.leb_le _ _)) in Eb by lia. discriminate Eb.
  - apply orb_false_iff in Eb as [E2%negb_false_iff E3%negb_false_iff]. unfold MoneyRange in E2, E3.
    apply andb_true_iff in E2 as [?%Z.leb_le ?%Z.leb_le], E3 as [_ ?%Z.leb_le]. specialize (IH w (n + nValue o) Hw). rewrite Hu in IH.
    specialize (IH Ha' (spendable_cons _ _ _ Hs) ltac:(lia) Hm). destruct (check_values _ _ _ _ _ _) as [[r ?]|e| |]; [done| |done..].
    destruct IH as [Hno He]. split; [|done]. intros [Hall Hle]. apply Hno. split; [intros j Hj; apply Hall; by right|lia].
Qed.

Lemma GetValueOut_valid tx : tx_valid nMaxMoneyOut tx → nMaxMoneyOut < 2 ^ 62 → GetValueOut tx = Ok (sum_values (vout tx)).
Proof.
  intros Hv Hm. unfold GetValueOut. rewrite GetValueOut_loop_spec by (unfold INT64_MAX; lia). rewrite decide_True; [done|].
  pose proof (tv_total _ _ Hv). split; [|unfold INT64_MAX; lia]. eapply list.Forall_impl; [exact (tv_values _ _ Hv)|]. cbn. lia.
Qed.

Lemma check_fee_refuses tx n :
  tx_valid nMaxMoneyOut tx → 0 ≤ n ≤ nMaxMoneyOut → nMaxMoneyOut < 2 ^ 62 →
  match check_fee nMaxMoneyOut tx n with
  | Ok _ => True
  | Err e => e = InBelowOut ∧ IsCoinStake tx = false ∧ n < sum_values (vout tx)
  | _ => False
  end.
Proof.
  intros Hv Hn Hm. unfold check_fee. destruct (IsCoinStake tx); [done|]. rewrite GetValueOut_valid by done. cbn [no_err mbind outcome_bind].
  destruct (Z.ltb_spec n (sum_values (vout tx))); [done|]. rewrite (proj2 (Z.ltb_ge _ _)) by lia. cbn [negb]. unfold MoneyRange.
  assert (0 ≤ sum_values (vout tx)).
  { apply sum_values_nonneg. eapply list.Forall_impl; [exact (tv_values _ _ Hv)|]. cbn. lia. }
  by rewrite !(proj2 (Z.leb_le _ _)) by lia.
Qed.

Lemma run_check_returns c i : vin (sc_ptxTo c) !! sc_nIn c = Some i → bytes_ok (scriptSig i) → bytes_ok (sc_scriptPubKey c) → run_check Verify c = Ok true ∨ run_check Verify c = Ok false.
Proof.
  intros Hi H1 H2. unfold run_check, VerifyInput. rewrite Hi.
  pose proof (VerifyScript_total (sc_nFlags c) (tx_CheckSig Verify (sc_ptxTo c) (sc_nIn c)) _ _ H1 H2) as Hr.
  revert Hr. destruct (VerifyScript _ _ _ _); intros Hr; [by left|by right|destruct Hr..].
Qed.

Lemma check_scripts_refuses tx flags pv k ins v cs :
  cs_ok v → all_available (cs_utxo v) ins → spendable (cs_utxo v) ins → (∀ j i, ins !! j = Some i → vin tx !! (k + j)%nat = Some i) →
  match check_scripts Verify tx flags pv k ins v cs with
  | Ok _ => True
  | Err e => pv = false ∧ ¬ Forall check_ok (input_checks (cs_utxo v) tx flags k ins) ∧ e ≠ FeeNegative ∧ e ≠ FeeOutOfRange
  | _ => False
  end.
Proof.
  revert k v cs. induction ins as [|i ins IH]; intros k v cs Hv Ha Hs Hk; cbn [check_scripts input_checks]; [done|].
  pose proof Ha as [[o Ho] Ha']%all_available_cons. destruct (access_available v i o Hv Ho) as (c & w & E & (Hw & Hu & _) & Hc & Hcn & _).
  unfold access. rewrite E. cbn [mbind outcome_bind]. rewrite Hcn, Ho.
  assert (∀ k' cs', k' = S k → match check_scripts Verify tx flags pv k' ins w cs' with Ok _ => True
    | Err e => pv = false ∧ ¬ Forall check_ok (input_checks (cs_utxo v) tx flags k' ins) ∧ e ≠ FeeNegative ∧ e ≠ FeeOutOfRange | _ => False end) as IH'.
  { intros k' cs' ->. specialize (IH (S k) w cs' Hw). rewrite Hu in IH. apply IH; [done|by eapply spendable_cons|]. intros j a Hj. rewrite <- (Hk (S j) a Hj). f_equal. lia. }
  destruct pv; [specialize (IH' (S k) (cs ++ [ScriptCheck (scriptPubKey o) tx k flags]) eq_refl); destruct (check_scripts _ _ _ _ _ _ _ _); [done|by destruct IH'|done..]|].
  destruct (Hs i) as [Hb Hso]; [by left|]. destruct (Hso o Ho) as [_ Hbo]. assert (vin tx !! k = Some i) as Hi by (rewrite <- (Hk 0%nat i eq_refl); f_equal; lia).
  destruct (run_check_returns (ScriptCheck (scriptPubKey o) tx k flags) i Hi Hb Hbo) as [Er|Er]; rewrite Er; cbn [mbind outcome_bind].
  - specialize (IH' (S k) cs eq_refl). destruct (check_scripts _ _ _ _ _ _ _ _); [done| |done..]. destruct IH' as (? & Hn & ?). split; [done|]. split; [|done].
    rewrite list.Forall_cons. by intros [_ ?].
  - assert (¬ Forall check_ok (ScriptCheck (scriptPubKey o) tx k flags :: input_checks (cs_utxo v) tx flags (S k) ins)) as Hno.
    { rewrite list.Forall_cons, <- run_check_Ok, Er. by intros [? _]. }
    destruct (flag _ _); [|done].
    destruct (run_check_returns (ScriptCheck (scriptPubKey o) tx k (Z.land flags (Z.lnot STANDARD_NOT_MANDATORY_VERIFY_FLAGS))) i Hi Hb Hbo) as [-> | ->]; done.
Qed.

(** The rules of [CheckInputs]: the ledger's, and the scripts when they are run at once. *)
Definition inputs_valid (u : utxo_map) (height : Z) (run : bool) (flags : Z) (tx : CTransaction) : Prop :=
  spend_ok nMaxMoneyOut COINBASE_MATURITY u height tx ∧ (run = true → Forall check_ok (tx_checks u flags tx)).

Lemma CheckInputs_refuses tx v fsc flags pv prev :
  cs_ok v → IsCoinBase tx = false → tx_valid nMaxMoneyOut tx → spendable (cs_utxo v) (vin tx) → 0 ≤ nMaxMoneyOut < 2 ^ 62 →
  m !! best v = Some prev →
  match CheckInputs Verify nMaxMoneyOut COINBASE_MATURITY m tx v fsc flags pv with
  | Ok _ => True
  | Err e => ¬ inputs_valid (cs_utxo v) (nHeight prev + 1) (fsc && negb pv) flags tx ∧ e ≠ FeeNegative ∧ e ≠ FeeOutOfRange
  | _ => False
  end.
Proof.
  intros Hv Hcb Htx Hs Hm Hp. unfold CheckInputs. rewrite Hcb. pose proof (HaveInputs_utxo v tx Hv Hcb) as Hh.
  destruct (HaveInputs v tx) as [have v1]. cbn [fst snd] in Hh. cbn zeta in Hh. destruct Hh as [(Hv1 & Hu1 & Hb1) ->].
  destruct (available _ _) eqn:Ha; cbn [negb].
  2: { split; [|by split]. intros [[Hav _ _ _ _] _]. apply all_available_spec in Hav. congruence. }
  apply all_available_spec in Ha. pose proof (cs_best_spec v1 Hv1) as Hbs. cbn zeta in Hbs. unfold best in Hb1 at 1.
  destruct (cs_best v1) as [b v2]. cbn [fst snd] in *. destruct Hbs as (Hv2 & Hu2 & _). subst b.
  assert (cs_utxo v2 = cs_utxo v) as Hu by congruence. unfold deref. rewrite Hp. cbn [mbind outcome_bind].
  pose proof (check_values_refuses (nHeight prev + 1) (vin tx) v2 0 Hv2) as Hcv. rewrite Hu in Hcv. specialize (Hcv Ha Hs ltac:(lia) ltac:(lia)).
  destruct (check_values _ _ _ _ _ _) as [[n v3]|e| |] eqn:Ev; cbn [mbind outcome_bind]; try done.
  - apply check_values_Ok in Ev as ((Hv3 & Hu3 & _) & -> & Hle & Hall); [|done|by rewrite Hu]. rewrite Hu, Z.add_0_l in *.
    specialize (Hle (proj1 Hm)). pose proof (check_fee_refuses tx (value_in (cs_utxo v) (vin tx)) Htx (conj Hcv Hle) (proj2 Hm)) as Hf.
    destruct (check_fee _ _ _) as [[]|e| |]; cbn [mbind outcome_bind]; try done.
    + destruct fsc; [|done]. pose proof (check_scripts_refuses tx flags pv 0 (vin tx) v3 [] Hv3) as Hcs. rewrite Hu3 in Hcs.
      specialize (Hcs Ha Hs (λ j i Hj, Hj)). destruct (check_scripts _ _ _ _ _ _ _ _); try done. destruct Hcs as (-> & Hno & He). split; [|done]. intros [_ Hck]. apply Hno.
      specialize (Hck eq_refl). unfold tx_checks in Hck. by rewrite Hcb in Hck.
    + destruct Hf as (-> & Hns & Hlt). split; [|by split]. intros [[_ _ _ _ Hfee] _]. specialize (Hfee Hns). lia.
  - destruct Hcv as [Hno He]. split; [|done]. intros [[_ Hmat Hrange Htot _] _]. apply Hno. rewrite Z.add_0_l. split; [|done].
    intros i Hi. split; [by apply Hmat|]. intros o Ho. by eapply Hrange.
Qed.

(** C16: the inputs of a transaction that is itself valid are accepted exactly when
    they are unspent, mature, in range and worth at least the outputs (no rule for
    a coinstake) and, when the scripts are run at once, every script verifies;
    nothing but caches changes, and the checks that are handed out instead are one
    for each input.  It always returns, and of the refusals it can give the two
    about the fee itself are never given. *)
Theorem CheckInputs_exact tx v fsc flags pv prev :
  cs_ok v → IsCoinBase tx = false → tx_valid nMaxMoneyOut tx → spendable (cs_utxo v) (vin tx) → 0 ≤ nMaxMoneyOut < 2 ^ 62 →
  m !! best v = Some prev →
  match CheckInputs Verify nMaxMoneyOut COINBASE_MATURITY m tx v fsc flags pv with
  | Ok (checks, v') =>
      inputs_valid (cs_utxo v) (nHeight prev + 1) (fsc && negb pv) flags tx ∧ reads v v' ∧
      checks = (if fsc && pv then tx_checks (cs_utxo v) flags tx else [])
  | Err e => ¬ inputs_valid (cs_utxo v) (nHeight prev + 1) (fsc && negb pv) flags tx ∧ e ≠ FeeNegative ∧ e ≠ FeeOutOfRange
  | _ => False
  end.
Proof.
  intros Hv Hcb Htx Hs Hm Hp. pose proof (CheckInputs_refuses tx v fsc flags pv prev Hv Hcb Htx Hs Hm Hp) as Hr. revert Hr.
  destruct (CheckInputs _ _ _ _ _ _ _ _ _) as [[checks v']|e| |] eqn:E; intros Hr; try done.
  apply CheckInputs_Ok in E as (Hrd & (prev' & Hp' & Hsp) & -> & Hcs); [|done..|lia]. rewrite Hp in Hp'. injection Hp' as <-.
  split_and!; [|done..]. split; [done|]. destruct fsc, pv; naive_solver.
Qed.
End Checks.
End Reads.

(** ** Steps of ConnectBlock *)

Lemma spent_output_spend1 u i x u' j o :
  utxo_ok u → spend1 u i = Some (x, u') → spent_output u' j = Some o → spent_output u j = Some o.
Proof.
  intros Hu (c & c' & Hc & Es & Hcl & ->)%spend1_inv (d & Hd & Hn & Hnull)%spent_output_Some; [|done].
  apply spent_output_Some. rewrite lookup_put in Hd. case_decide as Ht; [|by exists d]. exists c. split; [by rewrite Ht|].
  rewrite unspent_Some in Hd. destruct (IsPruned c'); [done|]. injection Hd as ->.
  pose proof (Spend_spec c (prevout_pos i) Hcl) as S. rewrite Es in S. destruct S as (_ & _ & _ & Hav & Hv & _). split; [|done].
  specialize (Hav (prevout_pos j)). case_decide as Hj; [unfold IsAvailable in Hav; rewrite Hn, Hnull in Hav; discriminate Hav|].
  rewrite Hv in Hn. destruct (Cleanup_vout_prefix (<[prevout_pos i := CTxOut_null]> (c_vout c))) as [rest E].
  apply (lookup_app_l_Some _ rest) in Hn. rewrite <- E in Hn. by rewrite list_lookup_insert_ne in Hn by congruence.
Qed.

Lemma spend1_output u i x u' : utxo_ok u → spend1 u i = Some (x, u') → spent_output u i = Some (u_txout x).
Proof.
  intros Hu (c & c' & Hc & Es & Hcl & _)%spend1_inv; [|done]. pose proof (Spend_spec c (prevout_pos i) Hcl) as S. rewrite Es in S.
  destruct S as (Ha & _ & Hn & _). unfold spent_output. rewrite Hc. cbn. by rewrite Ha.
Qed.

Lemma spends_outputs u ins xs u' : utxo_ok u → spends u ins = Some (xs, u') → Forall2 (λ i x, spent_output u i = Some (u_txout x)) ins xs.
Proof.
  revert u xs. induction ins as [|i ins IH]; intros u xs Hu; cbn [spends]; [by intros [= <- _]|].
  destruct (spend1 u i) as [[x u1]|] eqn:E1; [|discriminate]. cbn. destruct (spends u1 ins) as [[ys u2]|] eqn:E2; [|discriminate]. intros [= <- <-].
  constructor; [by eapply spend1_output|]. eapply list.Forall2_impl; [eapply IH; [by eapply spend1_ok|exact E2]|].
  intros j y. by eapply spent_output_spend1.
Qed.

Lemma spends_value u ins xs u' : utxo_ok u → spends u ins = Some (xs, u') → undo_value xs = value_in u ins.
Proof.
  intros Hu E. apply spends_outputs in E; [|done]. induction E as [|i x ins xs Hi _ IH]; [done|].
  rewrite (value_in_cons _ _ _ _ Hi), <- IH. done.
Qed.

Section Connect.
Context `{CoinsStore V} (Verify : list Z → Z → list Z → bool) (nMaxMoneyOut COINBASE_MATURITY : Z) (env : node_env) (cfg : node_config).
Notation run_tx := (connect_tx (V:=V) Verify nMaxMoneyOut COINBASE_MATURITY env cfg).
Notation run_txs := (connect_txs (V:=V) Verify nMaxMoneyOut COINBASE_MATURITY env cfg).

Lemma spend_inputs_best ins v acc r v' : spend_inputs ins v acc = Ok (r, v') → best v' = best v.
Proof.
  revert v acc. induction ins as [|i ins IH]; intros v acc; cbn [spend_inputs]; [by intros [= _ <-]|].
  intros ([o w] & E1 & E)%outcome_bind_ok. apply cs_modify_best in E1. destruct o as [o|]; [|done]. apply IH in E. unfold best in *. congruence.
Qed.
Lemma UpdateCoins_best tx v h r v' : UpdateCoins tx v h = Ok (r, v') → best v' = best v.
Proof.
  unfold UpdateCoins. intros ([xs w] & E1 & ([[] w2] & E2 & [= _ <-])%outcome_bind_ok)%outcome_bind_ok. apply cs_modify_best in E2. unfold best in *. rewrite E2.
  destruct (negb _); [by apply spend_inputs_best in E1|]. by injection E1 as _ <-.
Qed.

Lemma GetValueIn_Ok v tx r v' :
  cs_ok v → IsCoinBase tx = false → no_err (E':=connect_reject) (GetValueIn v tx) = Ok (r, v') → reads v v' ∧ r = value_in (cs_utxo v) (vin tx).
Proof.
  intros Hv Hcb. unfold GetValueIn. rewrite Hcb. destruct (GetValueIn_loop v (vin tx) 0) as [[n w]| | |] eqn:E; [|intros E'; discriminate E'..].
  intros [= -> ->]. by apply GetValueIn_loop_Ok in E.
Qed.

Notation con := (con (fAddressIndex cfg) (fSpentIndex cfg)).

Lemma index_inputs_Ok h i t j ins xs v x r v' :
  cs_ok v → Forall2 (λ i x, spent_output (cs_utxo v) i = Some (u_txout x)) ins xs → index_inputs cfg h i t j ins v x = Ok (r, v') →
  r = vapp x (collect (con h) (spend_events i t j ins xs)).
Proof.
  intros Hv Ho. remember (cs_utxo v) as u eqn:Eu. revert v j x Hv Eu. induction Ho as [|a y ins xs Ha _ IH]; intros v j x Hv Eu; cbn [index_inputs spend_events].
  { intros [= <- _]. symmetry. apply vapp_nil_r. }
  subst u. destruct (access_available v a (u_txout y) Hv Ha) as (c & w & E & (Hw & Hu & _) & _ & Hn & Hav). rewrite E, Hav, Hn.
  rewrite index_spend_eq. cbn [no_err mbind outcome_bind]. intros Er. rewrite (IH w _ _ Hw (eq_sym Hu) Er). by rewrite collect_cons, vapp_assoc.
Qed.

(** What an accepted transaction adds to the checks that are still to be run, and
    what has been verified. *)
Definition checks_done (fsc : bool) (old new cs : list CScriptCheck) : Prop :=
  if fsc && script_threads cfg then new = old ++ cs else new = old ∧ (fsc = true → Forall (check_ok Verify) cs).

Lemma connect_inputs_Ok h i tx fsc p2sh flags st st' :
  cs_ok (st_view st) → IsCoinBase tx = false → 0 ≤ nMaxMoneyOut →
  connect_inputs Verify nMaxMoneyOut COINBASE_MATURITY env cfg h i tx fsc p2sh flags st = Ok st' →
  reads (st_view st) (st_view st') ∧ nValueIn st' = nValueIn st + value_in (cs_utxo (st_view st)) (vin tx) ∧ nValueOut st' = nValueOut st ∧ vtxundo st' = vtxundo st ∧
  nFees st' = nFees st + tx_fee tx (value_in (cs_utxo (st_view st)) (vin tx)) ∧
  (∀ xs, Forall2 (λ i x, spent_output (cs_utxo (st_view st)) i = Some (u_txout x)) (vin tx) xs →
    vecs st' = vapp (vecs st) (collect (con h) (spend_events (Z.of_nat i) (tx_hash tx) 0 (vin tx) xs))) ∧
  (∃ prev, mapBlockIndex env !! best (st_view st) = Some prev ∧ spend_ok nMaxMoneyOut COINBASE_MATURITY (cs_utxo (st_view st)) (nHeight prev + 1) tx) ∧
  checks_done fsc (script_checks st) (script_checks st') (tx_checks (cs_utxo (st_view st)) flags tx).
Proof.
  intros Hv Hcb Hm E. unfold connect_inputs in E. pose proof (HaveInputs_utxo (st_view st) tx Hv Hcb) as Hh. cbn zeta in Hh.
  destruct (HaveInputs _ tx) as [have v1]. cbn [fst snd] in Hh. destruct Hh as [H1 ->]. destruct (negb _); [discriminate E|].
  apply outcome_bind_ok in E as ([x v2] & E2 & E).
  assert (∀ xs, Forall2 (λ i x, spent_output (cs_utxo (st_view st)) i = Some (u_txout x)) (vin tx) xs →
    x = vapp (vecs st) (collect (con h) (spend_events (Z.of_nat i) (tx_hash tx) 0 (vin tx) xs))) as Hx.
  { intros xs Hxs. rewrite <- (proj1 (proj2 H1)) in Hxs. destruct (_ || _) eqn:Eo; [eapply index_inputs_Ok; [apply H1|done|done]|].
    injection E2 as <- _. by rewrite collect_off, vapp_nil_r. }
  assert (reads (st_view st) v2) as H2.
  { eapply reads_trans; [exact H1|]. destruct (_ || _); [apply index_inputs_reads in E2; [done|apply H1]|]. injection E2 as _ <-. apply reads_refl, H1. }
  apply outcome_bind_ok in E as ([so v3] & E3 & E). assert (reads (st_view st) v3) as H3.
  { eapply reads_trans; [exact H2|]. destruct p2sh; [|injection E3 as _ <-; apply reads_refl, H2].
    apply outcome_bind_ok in E3 as ([k w] & E3 & [= _ <-]). apply GetP2SHSigOpCount_reads in E3; [done|apply H2]. }
  destruct (p2sh && _); [discriminate E|].
  apply outcome_bind_ok in E as ([fees v4] & E4 & E).
  assert (reads (st_view st) v4 ∧ fees = nFees st + tx_fee tx (value_in (cs_utxo (st_view st)) (vin tx))) as [H4 Hfees].
  { unfold tx_fee. rewrite Hcb. cbn [orb]. destruct (IsCoinStake tx); cbn [negb] in E4; [injection E4 as <- <-; split; [exact H3|lia]|].
    apply outcome_bind_ok in E4 as ([vi w] & E4 & (vo & Eo & (fe & Ef & [= <- <-])%outcome_bind_ok)%outcome_bind_ok).
    apply GetValueIn_Ok in E4 as [Hr4 ->]; [|apply H3|done]. split; [by eapply reads_trans|]. rewrite (proj1 (proj2 H3)) in Ef.
    destruct (GetValueOut tx) as [vo'| | |] eqn:Eg; try discriminate Eo. injection Eo as ->. apply GetValueOut_Ok in Eg as [-> _].
    unfold add64 in Ef. destruct (_ && _) in Ef; [|discriminate Ef]. injection Ef as <-. lia. }
  apply outcome_bind_ok in E as ([vi v5] & E5 & E). apply GetValueIn_Ok in E5 as [H5 ->]; [|apply H4|done]. rewrite (proj1 (proj2 H4)) in *.
  assert (reads (st_view st) v5) as H5' by (by eapply reads_trans).
  apply outcome_bind_ok in E as (total & Et & E). unfold add64 in Et. destruct ((INT64_MIN <=? _) && _) in Et; [|discriminate Et]. injection Et as <-.
  apply outcome_bind_ok in E as ([cs v6] & E6 & [= <-]).
  destruct (CheckInputs _ _ _ _ _ _ _ _ _) as [[cs' v6']| | |] eqn:E7; try discriminate E6. injection E6 as -> ->.
  apply CheckInputs_Ok in E7 as (H6 & Hsp & -> & Hcs); [|apply H5'|done..]. pose proof H5' as (_ & Hu & Hb). rewrite Hu, Hb in *.
  cbn [st_view nFees nValueIn nValueOut vtxundo vecs script_checks]. split_and!; [by eapply reads_trans|done..|].
  unfold checks_done. destruct fsc; cbn [andb]; [|split; [by rewrite app_nil_r|done]].
  destruct (script_threads cfg); [done|]. split; [by rewrite app_nil_r|]. intros _. by apply Hcs.
Qed.

Definition outputs_ok (tx : CTransaction) : Prop := Forall (λ o, 0 ≤ nValue o) (vout tx).

Lemma checks_done_trans fsc c1 c2 c3 a b : checks_done fsc c1 c2 a → checks_done fsc c2 c3 b → checks_done fsc c1 c3 (a ++ b).
Proof.
  unfold checks_done. destruct (fsc && _); [intros -> ->; by rewrite app_assoc|].
  intros [-> Ha] [-> Hb]. split; [done|]. intros Hf. apply Forall_app. auto.
Qed.

Lemma connect_tx_Ok h i tx fsc p2sh flags st st' :
  cs_ok (st_view st) → 0 ≤ nMaxMoneyOut → run_tx h i tx fsc p2sh flags st = Ok st' →
  let u := cs_utxo (st_view st) in
  ∃ xs, update u tx h = Some (xs, cs_utxo (st_view st')) ∧ cs_ok (st_view st') ∧ best (st_view st') = best (st_view st) ∧
    nValueOut st' = nValueOut st + sum_values (vout tx) ∧ nValueIn st' = nValueIn st + undo_value xs ∧ outputs_ok tx ∧
    vtxundo st' = vtxundo st ++ (match i with O => [] | S _ => [xs] end) ∧ nFees st' = nFees st + tx_fee tx (undo_value xs) ∧
    vecs st' = vapp (vecs st) (collect (con h) (tx_events (Z.of_nat i) tx xs)) ∧ length xs = (if IsCoinBase tx then O else length (vin tx)) ∧
    (IsCoinBase tx = false → ∃ prev, mapBlockIndex env !! best (st_view st) = Some prev ∧ spend_ok nMaxMoneyOut COINBASE_MATURITY u (nHeight prev + 1) tx) ∧
    checks_done fsc (script_checks st) (script_checks st') (tx_checks u flags tx).
Proof.
  intros Hv Hm E. cbn zeta. unfold connect_tx in E. apply outcome_bind_ok in E as (n & _ & E). destruct (_ <? _) in E; [discriminate E|].
  apply outcome_bind_ok in E as (st1 & E1 & E).
  assert (reads (st_view st) (st_view st1) ∧ nValueIn st1 = nValueIn st + (if IsCoinBase tx then 0 else value_in (cs_utxo (st_view st)) (vin tx)) ∧
    nValueOut st1 = nValueOut st ∧ vtxundo st1 = vtxundo st ∧ nFees st1 = nFees st + tx_fee tx (value_in (cs_utxo (st_view st)) (vin tx)) ∧
    (∀ xs, (if IsCoinBase tx then xs = [] else Forall2 (λ i x, spent_output (cs_utxo (st_view st)) i = Some (u_txout x)) (vin tx) xs) →
      vecs st1 = vapp (vecs st) (collect (con h) (spend_events (Z.of_nat i) (tx_hash tx) 0 (vin tx) xs))) ∧
    (IsCoinBase tx = false → ∃ prev, mapBlockIndex env !! best (st_view st) = Some prev ∧
      spend_ok nMaxMoneyOut COINBASE_MATURITY (cs_utxo (st_view st)) (nHeight prev + 1) tx) ∧
    checks_done fsc (script_checks st) (script_checks st1) (tx_checks (cs_utxo (st_view st)) flags tx)) as (Hr & Hin & Hout & Hundo & Hfee & Hvecs & Hsp & Hcs).
  { unfold tx_checks. destruct (IsCoinBase tx) eqn:Hcb; cbn [negb] in E1.
    - injection E1 as <-. cbn [st_view nFees nValueIn nValueOut vtxundo vecs script_checks]. unfold tx_fee. rewrite Hcb. cbn [orb].
      split_and!; [by apply reads_refl|lia|done|done|lia|intros xs ->; by rewrite spend_events_nil, vapp_nil_r|done|].
      unfold checks_done. destruct (fsc && _); [by rewrite app_nil_r|]. split; [done|constructor].
    - apply connect_inputs_Ok in E1 as (? & ? & ? & ? & ? & ? & ? & Hcs); [|done..]. unfold tx_checks in Hcs. rewrite Hcb in Hcs. by split_and!. }
  apply outcome_bind_ok in E as (vo & Eo & E). destruct (GetValueOut tx) as [vo'| | |] eqn:Eg; try discriminate Eo. injection Eo as ->.
  apply GetValueOut_Ok in Eg as [-> Hnn]. apply outcome_bind_ok in E as (total & Et & E). unfold add64 in Et. destruct (_ && _) in Et; [|discriminate Et]. injection Et as <-.
  apply outcome_bind_ok in E as (x & Ex & E).
  assert (x = vapp (vecs st1) (collect (con h) (receive_events (Z.of_nat i) (tx_hash tx) 0 (vout tx)))) as ->.
  { pose proof (index_receive_eq (fAddressIndex cfg) (fSpentIndex cfg) h (Z.of_nat i) (tx_hash tx) 0 (vout tx) (vecs st1)) as Hx.
    destruct (fAddressIndex cfg); [rewrite Hx in Ex; by injection Ex|]. injection Ex as <-. by injection Hx. }
  apply outcome_bind_ok in E as ([xs v] & Eu & [= <-]).
  destruct (UpdateCoins tx (st_view st1) h) as [[xs' v']| | |] eqn:EU; try discriminate Eu. injection Eu as -> ->.
  pose proof (UpdateCoins_best _ _ _ _ _ EU) as Hb. destruct Hr as (Hok1 & Hu1 & Hb1). pose proof (UpdateCoins_spec tx (st_view st1) h Hok1) as S.
  rewrite Hu1 in S. destruct (update (cs_utxo (st_view st)) tx h) as [[ys u']|] eqn:Eup; [|rewrite S in EU; discriminate EU].
  destruct S as (w & EU' & Hokw & Huw). rewrite EU' in EU. injection EU as -> ->. cbn [st_view nFees nValueIn nValueOut vtxundo vecs script_checks].
  assert (undo_value xs = (if IsCoinBase tx then 0 else value_in (cs_utxo (st_view st)) (vin tx)) ∧
    (if IsCoinBase tx then xs = [] else Forall2 (λ i x, spent_output (cs_utxo (st_view st)) i = Some (u_txout x)) (vin tx) xs) ∧
    length xs = (if IsCoinBase tx then O else length (vin tx))) as (Hxs & Hxo & Hxl).
  { unfold update in Eup. destruct (IsCoinBase tx); cbn [negb] in Eup; [by injection Eup as <- _|].
    destruct (spends _ (vin tx)) as [[ys u1]|] eqn:Es; [|discriminate Eup]. injection Eup as <- _. pose proof (cs_utxo_ok _ Hv) as Hu.
    split_and!; [exact (spends_value _ _ _ _ Hu Es)|exact (spends_outputs _ _ _ _ Hu Es)|exact (spends_length _ _ _ _ Es)]. }
  exists xs. split_and!; [by rewrite Huw|done|by rewrite Hb|by rewrite Hout| |done| | | |done..].
  - by rewrite Hin, Hxs.
  - destruct i; by rewrite Hundo, ?app_nil_r.
  - rewrite Hfee, Hxs. unfold tx_fee. by destruct (IsCoinBase tx).
  - unfold tx_events. by rewrite (Hvecs xs Hxo), vapp_assoc, collect_app.
Qed.

Lemma connect_txs_Ok h i txs fsc p2sh flags st st' :
  cs_ok (st_view st) → 0 ≤ nMaxMoneyOut → (∀ prev, mapBlockIndex env !! best (st_view st) = Some prev → nHeight prev + 1 = h) →
  run_txs h i txs fsc p2sh flags st = Ok st' →
  ∃ xss cs, ledger nMaxMoneyOut COINBASE_MATURITY h flags (cs_utxo (st_view st)) txs xss cs (cs_utxo (st_view st')) ∧
    cs_ok (st_view st') ∧ best (st_view st') = best (st_view st) ∧
    nValueOut st' = nValueOut st + sum_Z (λ tx, sum_values (vout tx)) txs ∧ nValueIn st' = nValueIn st + sum_Z undo_value xss ∧
    Forall outputs_ok txs ∧ vtxundo st' = vtxundo st ++ (match i with O => tail xss | S _ => xss end) ∧
    nFees st' = nFees st + block_fees txs xss ∧ vecs st' = vapp (vecs st) (collect (con h) (block_events (Z.of_nat i) txs xss)) ∧
    Forall2 (λ tx (xs : list CTxInUndo), length xs = if IsCoinBase tx then O else length (vin tx)) txs xss ∧ checks_done fsc (script_checks st) (script_checks st') cs.
Proof.
  intros Hv Hm Hlink. revert i st Hv Hlink. induction txs as [|tx txs IH]; intros i st Hv Hlink; cbn [connect_txs].
  { intros [= <-]. exists [], []. split_and!; [constructor|done|done|cbn; lia|cbn; lia|constructor|destruct i; by rewrite app_nil_r|cbn; lia|symmetry; apply vapp_nil_r|constructor|].
    unfold checks_done. destruct (fsc && _); [by rewrite app_nil_r|]. split; [done|constructor]. }
  intros (st1 & E1 & E)%outcome_bind_ok. apply connect_tx_Ok in E1 as (xs & Hup & Hok1 & Hb1 & Hout & Hin & Hnn & Hundo & Hfee & Hvecs & Hxl & Hsp & Hcs); [|done..].
  apply IH in E as (xss & cs & Hl & Hok & Hb & Hout' & Hin' & Hnn' & Hundo' & Hfee' & Hvecs' & Hxl' & Hcs'); [|done|by rewrite Hb1].
  exists (xs :: xss), (tx_checks (cs_utxo (st_view st)) flags tx ++ cs). split_and!; [|done|congruence|..].
  - econstructor; [|exact Hup|exact Hl]. intros Hcb. destruct (Hsp Hcb) as (prev & Hp & Hs). by rewrite <- (Hlink prev Hp).
  - rewrite sum_Z_cons. lia.
  - rewrite sum_Z_cons. lia.
  - by constructor.
  - rewrite Hundo', Hundo, <- app_assoc. by destruct i.
  - cbn [block_fees]. lia.
  - cbn [block_events]. rewrite Hvecs', Hvecs, collect_app, vapp_assoc. by replace (Z.of_nat (S i)) with (Z.of_nat i + 1) by lia.
  - by constructor.
  - by eapply checks_done_trans.
Qed.

Lemma ledger_updates h flags u txs xss cs u' :
  ledger nMaxMoneyOut COINBASE_MATURITY h flags u txs xss cs u' → updates u txs h = Some (xss, u').
Proof. induction 1 as [|u tx xs u1 txs xss cs u2 _ Hup _ IH]; [done|]. cbn [updates]. rewrite Hup. cbn. by rewrite IH. Qed.
End Connect.

(** ** Blocks *)

Section Blocks.
Context `{CoinsStore V} (Verify : list Z → Z → list Z → bool) (GetHash : CBlockHeader → Z).
Context (params : CChainParams) (up : upgrade_params) (nMaxMoneyOut COINBASE_MATURITY : Z).
Context (env : node_env) (be : budget_env) (cfg : node_config).

Notation connect := (ConnectBlock (V:=V) Verify GetHash params up nMaxMoneyOut COINBASE_MATURITY env be cfg).
Notation disconnect := (DisconnectBlock (V:=V) cfg).

(** The block's index entry follows the one of the best block. *)
Definition follows (pindex : CBlockIndex) : Prop :=
  ∀ prev, mapBlockIndex env !! default 0 (pprev pindex) = Some prev → nHeight prev + 1 = nHeight pindex.

(** What an accepted block other than the genesis block is: valid, and a step of
    the ledger. *)
Record block_applied (b : CBlock) (pindex : CBlockIndex) (phashBlock : option Z) (supplyPrev : Z) (just : bool) (v : V) (r : connected V)
    (flags : Z) (xss : list (list CTxInUndo)) (checks : list CScriptCheck) : Prop := {
  ba_valid : block_valid params nMaxMoneyOut GetHash env (negb just) b;
  ba_parent : best v = default 0 (pprev pindex);
  ba_ledger : ledger nMaxMoneyOut COINBASE_MATURITY (nHeight pindex) flags (cs_utxo v) (vtx b) xss checks (cs_utxo (r_view r));
  ba_p2sh : flag flags SCRIPT_VERIFY_P2SH = (nBIP16SwitchTime <=? GetBlockTime pindex);
  ba_scripts : ∀ estimate, GetTotalBlocksEstimate up = Ok estimate → estimate ≤ nHeight pindex → Forall (check_ok Verify) checks;
  ba_fresh : fEnforceBIP30 (nHeight pindex) phashBlock = true → ∀ tx, tx ∈ vtx b → cs_utxo v !! tx_hash tx = None;
  ba_view : cs_ok (r_view r);
  ba_best : just = false → ∃ h, phashBlock = Some h ∧ (h ≠ 0 → best (r_view r) = h);
  ba_undo : r_undo r = tail xss;
  ba_lengths : Forall2 (λ tx (xs : list CTxInUndo), length xs = if IsCoinBase tx then O else length (vin tx)) (vtx b) xss;
  ba_indexes : r_vecs r = collect (con (fAddressIndex cfg) (fSpentIndex cfg) (nHeight pindex)) (block_events 0 (vtx b) xss);
  ba_outputs : Forall outputs_ok (vtx b);
  ba_mint : nMint r = sum_Z (λ tx, sum_values (vout tx)) (vtx b) - sum_Z undo_value xss;
  ba_reward : ∃ subsidy, GetBlockValue (nHeight pindex) = Ok subsidy ∧
    IsBlockValueValid (E:=connect_reject) env be b (subsidy + if block_IsProofOfWork (vtx b) then block_fees (vtx b) xss else 0) (nMint r) = Ok true;
  ba_supply : nMoneySupply r = supplyPrev + nMint r ∧ nMoneySupply r ≤ nMaxMoneyOut
}.

Lemma flag_lor_dersig (p2sh dersig : bool) :
  let f := if p2sh then SCRIPT_VERIFY_P2SH else SCRIPT_VERIFY_NONE in
  flag (if dersig then Z.lor f SCRIPT_VERIFY_DERSIG else f) SCRIPT_VERIFY_P2SH = p2sh.
Proof. by destruct p2sh, dersig. Qed.

(** A block that is accepted is applied; and the only thing that other rules for the
    rewards can change is the outcome of [IsBlockValueValid]. *)
Lemma ConnectBlock_budget be' b pindex phash supplyPrev v just r :
  cs_ok v → 0 ≤ nMaxMoneyOut < 2 ^ 62 → env_ok env → follows pindex → GetHash (header b) ≠ HashGenesisBlock up →
  connect b pindex phash supplyPrev v just = Ok r →
  ∃ flags xss checks subsidy, block_applied b pindex phash supplyPrev just v r flags xss checks ∧ GetBlockValue (nHeight pindex) = Ok subsidy ∧
    ConnectBlock (V:=V) Verify GetHash params up nMaxMoneyOut COINBASE_MATURITY env be' cfg b pindex phash supplyPrev v just =
      (value_ok ← IsBlockValueValid env be' b (subsidy + if block_IsProofOfWork (vtx b) then block_fees (vtx b) xss else 0) (nMint r);
       if negb value_ok then Err RewardTooHigh else Ok r).
Proof.
  intros Hv Hm He Hf Hg E. remember (ConnectBlock Verify GetHash params up nMaxMoneyOut COINBASE_MATURITY env be' cfg b pindex phash supplyPrev v just) as res' eqn:E'.
  unfold ConnectBlock in E, E'. apply outcome_bind_ok in E as ([] & Ec & E). rewrite Ec in E'. cbn [mbind outcome_bind] in E'.
  destruct (CheckBlock params nMaxMoneyOut GetHash env b (negb just)) as [[]| | |] eqn:Eb; try discriminate Ec. apply CheckBlock_valid in Eb; [|done..].
  pose proof (cs_best_spec v Hv) as Hb. cbn zeta in Hb. destruct (cs_best v) as [h0 v0] eqn:Ebest. cbn [fst snd] in Hb. destruct Hb as (Hv0 & Hu0 & Hb0).
  assert (h0 = best v) as -> by (unfold best; by rewrite Ebest).
  apply outcome_bind_ok in E as ([] & Ea & E). rewrite Ea in E'. cbn [mbind outcome_bind] in E'. unfold assert_that in Ea. destruct (Z.eqb_spec (default 0 (pprev pindex)) (best v)) as [Hp|]; [|discriminate Ea].
  rewrite (proj2 (Z.eqb_neq _ _) Hg) in E, E'.
  destruct ((nHeight pindex <=? _) && _); [discriminate E|]. destruct ((_ <? nHeight pindex) && _); [discriminate E|].
  apply outcome_bind_ok in E as (estimate & Eest & E). rewrite Eest in E'. cbn [mbind outcome_bind] in E'. destruct (GetTotalBlocksEstimate up) as [est| | |] eqn:Ee; try discriminate Eest. injection Eest as <-.
  apply outcome_bind_ok in E as (v1 & Eo & E). rewrite Eo in E'. cbn [mbind outcome_bind] in E'.
  assert (reads v0 v1 ∧ (fEnforceBIP30 (nHeight pindex) phash = true → ∀ tx, tx ∈ vtx b → cs_utxo v0 !! tx_hash tx = None)) as [Hr Hfresh].
  { destruct (fEnforceBIP30 _ _); [apply check_overwrites_Ok in Eo as [? ?]; done|]. injection Eo as <-. split; [by apply reads_refl|done]. }
  destruct Hr as (Hv1 & Hu1 & Hb1). rewrite Hu0 in *.
  apply outcome_bind_ok in E as (dersig & Eder & E). rewrite Eder in E'. cbn [mbind outcome_bind] in E'.
  apply outcome_bind_ok in E as (st & Est & E). rewrite Est in E'. cbn [mbind outcome_bind] in E'.
  apply connect_txs_Ok in Est as (xss & cs & Hl & Hok & Hbest & Hout & Hin & Hnn & Hundo & Hfees & Hvecs & Hxl & Hcs); [|done|lia|]; cbn [st_view nFees nValueIn nValueOut vtxundo vecs script_checks] in *.
  2: { rewrite Hb1. unfold best at 1. rewrite Hb0, <- Hp. exact Hf. }
  rewrite Hu1 in Hl. rewrite Z.add_0_l in Hout, Hin, Hfees.
  apply outcome_bind_ok in E as (s1 & Es1 & E). rewrite Es1 in E'. cbn [mbind outcome_bind] in E'. unfold add64 in Es1. destruct (_ && _) in Es1; [|discriminate Es1]. injection Es1 as <-.
  apply outcome_bind_ok in E as (s2 & Es2 & E). rewrite Es2 in E'. cbn [mbind outcome_bind] in E'. unfold add64 in Es2. destruct (_ && _) in Es2; [|discriminate Es2]. injection Es2 as <-.
  apply outcome_bind_ok in E as (subsidy & Esub & E). apply outcome_bind_ok in E as (expected & Eexp & E). apply outcome_bind_ok in E as (value_ok & Eval & E).
  rewrite Esub in E'. cbn [mbind outcome_bind] in E'. rewrite Eexp in E'. cbn [mbind outcome_bind] in E'.
  destruct value_ok; [|discriminate E]. cbn [negb] in E.
  assert (expected = subsidy + if block_IsProofOfWork (vtx b) then nFees st else 0) as ->.
  { destruct (block_IsProofOfWork (vtx b)); [|injection Eexp as <-; lia]. unfold add64 in Eexp. destruct (_ && _) in Eexp; [|discriminate Eexp]. by injection Eexp as <-. }
  rewrite Hfees in Eval, E'. destruct (Z.ltb_spec nMaxMoneyOut (supplyPrev + nValueOut st + - nValueIn st)); [discriminate E|].
  apply outcome_bind_ok in E as (ok & Eck & E). destruct ok; [|discriminate E]. cbn [negb] in E. rewrite Eck in E'. cbn [mbind outcome_bind negb] in E'.
  rewrite E in E'. apply run_checks_Ok in Eck.
  assert (cs_ok (r_view r) ∧ cs_utxo (r_view r) = cs_utxo (st_view st) ∧ nMoneySupply r = supplyPrev + nValueOut st + - nValueIn st ∧
    nMint r = nMoneySupply r - supplyPrev ∧ r_undo r = vtxundo st ∧ r_vecs r = vecs st ∧ (just = false → ∃ h, phash = Some h ∧ (h ≠ 0 → best (r_view r) = h))) as (Hokr & Hur & Hs & Hmint & Hru & Hrv & Hbr).
  { destruct just; [injection E as <-; by split_and!|]. destruct phash as [h|]; [|discriminate E]. apply outcome_bind_ok in E as (v2 & E2 & [= <-]).
    destruct (cs_set_best_spec (st_view st) h Hok) as (v2' & E3 & Hok' & Hu' & Hb'). rewrite E3 in E2. injection E2 as ->.
    cbn [r_view nMoneySupply nMint r_undo r_vecs]. split_and!; [done..|]. intros _. by exists h. }
  assert (GetBlockValue (nHeight pindex) = Ok subsidy) as Hsub by (destruct (GetBlockValue (nHeight pindex)); [by injection Esub as ->|discriminate Esub..]).
  assert (nMint r = supplyPrev + nValueOut st + - nValueIn st - supplyPrev) as Hmr by (by rewrite Hmint, Hs). rewrite <- Hmr in E', Eval.
  eexists _, xss, cs, subsidy. split; [|by split]. split; [done|done|rewrite Hur; exact Hl|apply flag_lor_dersig| |done|done|done|by rewrite Hru, Hundo|done|by rewrite Hrv, Hvecs, vapp_nil_l|done|lia| |lia].
  - intros e Hest Hle. rewrite Ee in Hest. injection Hest as <-. unfold checks_done in Hcs. rewrite (proj2 (Z.leb_le _ _) Hle) in Hcs. cbn [andb] in Hcs.
    destruct (script_threads cfg); [by rewrite Hcs in Eck|]. by apply Hcs.
  - by exists subsidy.
Qed.

Lemma ConnectBlock_Ok b pindex phash supplyPrev v just r :
  cs_ok v → 0 ≤ nMaxMoneyOut < 2 ^ 62 → env_ok env → follows pindex → GetHash (header b) ≠ HashGenesisBlock up →
  connect b pindex phash supplyPrev v just = Ok r →
  ∃ flags xss checks, block_applied b pindex phash supplyPrev just v r flags xss checks.
Proof.
  intros Hv Hm He Hf Hg E. destruct (ConnectBlock_budget be b pindex phash supplyPrev v just r Hv Hm He Hf Hg E) as (flags & xss & cs & _ & Ha & _).
  by exists flags, xss, cs.
Qed.

Lemma ledger_coinbase_undo h flags u txs xss cs u' :
  ledger nMaxMoneyOut COINBASE_MATURITY h flags u txs xss cs u' → generation_ok txs →
  (∀ i tx, txs !! i = Some tx → IsCoinBase tx = true ↔ i = O) ∧ ∃ xss', xss = [] :: xss'.
Proof.
  intros Hl (cb & rest & -> & Hcb & Hrest & _). split.
  - intros [|i] tx Htx; [by injection Htx as <-|]. rewrite list.Forall_forall in Hrest. cbn in Htx. apply list_elem_of_lookup_2 in Htx.
    by rewrite (Hrest tx Htx).
  - apply ledger_updates in Hl. cbn [updates] in Hl. unfold update in Hl. rewrite Hcb in Hl. cbn in Hl.
    destruct (updates _ rest h) as [[yss u2]|]; [|discriminate Hl]. injection Hl as <- _. by eexists.
Qed.

Lemma undo_fits_lengths txs xss :
  Forall2 (λ tx (xs : list CTxInUndo), length xs = if IsCoinBase tx then O else length (vin tx)) txs xss →
  (∀ i tx, txs !! i = Some tx → IsCoinBase tx = true ↔ i = O) → undo_fits txs xss.
Proof.
  intros Hf Hcb. split; [symmetry; by eapply Forall2_length|]. intros i tx xs Htx Hxs. pose proof (Forall2_lookup_lr _ _ _ _ _ _ Hf Htx Hxs) as Hl. cbn in Hl.
  rewrite Hl. destruct (Hcb i tx Htx) as [H1 H2]. destruct i; [by rewrite H2|]. destruct (IsCoinBase tx); [by specialize (H1 eq_refl)|done].
Qed.

Lemma outputs_undoable tx : outputs_ok tx → tx_undoable tx.
Proof.
  unfold outputs_ok, tx_undoable. rewrite list.Forall_forall. intros Hv o Ho Hn. specialize (Hv o Ho). unfold CTxOut_IsNull in Hn.
  apply Z.eqb_eq in Hn. lia.
Qed.

(** A generated output that is not mature stays: what a coinstake of the block creates
    is not spent by the block. *)
Lemma spends_other ins u xs u' t : spends u ins = Some (xs, u') → (∀ i, i ∈ ins → prevout_hash (prevout i) ≠ t) → u' !! t = u !! t.
Proof.
  revert u xs. induction ins as [|i ins IH]; intros u xs; cbn [spends]; [by intros [= _ <-]|].
  destruct (spend1 u i) as [[x u1]|] eqn:E1; cbn [mbind option_bind]; [|intros E; discriminate E].
  destruct (spends u1 ins) as [[ys u2]|] eqn:E2; cbn [mbind option_bind]; [|intros E; discriminate E]. intros [= _ <-] Hne.
  rewrite (IH u1 ys E2) by (intros; apply Hne; by right). unfold spend1 in E1. destruct (u !! _) as [c|]; [|discriminate E1]. cbn [mbind option_bind] in E1.
  destruct (Spend c _) as [[y|] c']; [|discriminate E1]. injection E1 as _ <-. rewrite lookup_put, decide_False; [reflexivity|].
  intros ->. apply (Hne i); [left|reflexivity].
Qed.

Lemma ledger_keeps_young h flags u txs xss cs u' t c :
  ledger nMaxMoneyOut COINBASE_MATURITY h flags u txs xss cs u' → 0 < COINBASE_MATURITY →
  u !! t = Some c → fCoinStake c = true → c_nHeight c = h → t ∉ tx_hash <$> txs → u' !! t = Some c.
Proof.
  intros Hl Hm Hc Hs Hh. induction Hl as [|u tx xs u1 txs xss cs u2 Hsp Hup _ IH]; [done|]. rewrite fmap_cons, not_elem_of_cons. intros [Hne Hnin].
  apply IH; [|done]. destruct (update_inv _ _ _ _ _ Hup) as (u3 & E & -> & _). rewrite lookup_put, decide_False by done.
  destruct (IsCoinBase tx); cbn [negb] in E; [injection E as _ <-; exact Hc|]. rewrite (spends_other _ _ _ _ t E); [done|].
  intros i Hi Heq. pose proof (sp_mature _ _ _ _ _ (Hsp eq_refl) i Hi c) as Hmat. rewrite Heq, Hs, orb_true_r in Hmat. specialize (Hmat Hc eq_refl). lia.
Qed.

Lemma ledger_stakes_kept h flags u txs xss cs u' tx :
  ledger nMaxMoneyOut COINBASE_MATURITY h flags u txs xss cs u' → 0 < COINBASE_MATURITY → NoDup (tx_hash <$> txs) →
  tx ∈ txs → IsCoinStake tx = true → u' !! tx_hash tx = None → IsPruned (FromTx tx h) = true.
Proof.
  intros Hl Hm Hnd Hin Hs Hn. induction Hl as [|u tx' xs u1 txs xss cs u2 _ Hup Hl IH]; [inversion Hin|].
  rewrite fmap_cons in Hnd. apply list.NoDup_cons in Hnd as [Hnin Hnd]. apply elem_of_cons in Hin as [->|Hin]; [|by apply IH].
  destruct (IsPruned (FromTx tx' h)) eqn:Ep; [done|]. apply update_inv in Hup as (u3 & _ & -> & _).
  rewrite (ledger_keeps_young _ _ _ _ _ _ _ (tx_hash tx') (FromTx tx' h) Hl Hm) in Hn; [discriminate Hn| |done|done|done].
  by rewrite lookup_put, decide_True, unspent_Some, Ep.
Qed.

(** What disconnecting gives back: the unspent outputs [u] from before the block, without
    the coinstake flag of the transactions that the block has fully spent, those that
    have nothing left in the map [u'] after it. *)
Definition restored (u u' : utxo_map) : utxo_map := drop_stakes (λ t, bool_decide (u' !! t = None)) u.

Lemma lookup_restored u u' t : restored u u' !! t = mark (bool_decide (u' !! t = None)) <$> u !! t.
Proof. apply lookup_drop_stakes. Qed.
Lemma restored_exact u u' :
  restored u u' = u ↔ ∀ t c, u !! t = Some c → fCoinStake c = true → is_Some (u' !! t).
Proof.
  split.
  - intros E t c Hc Hs. pose proof (lookup_restored u u' t) as Hl. rewrite E, Hc in Hl. injection Hl as Hl.
    destruct (u' !! t) eqn:Eu; [by eexists|]. cbn in Hl. rewrite Hl in Hs. discriminate Hs.
  - intros Hall. apply map_eq. intros t. rewrite lookup_restored. destruct (u !! t) as [c|] eqn:Ec; [|done]. cbn. f_equal. apply mark_id.
    destruct (fCoinStake c) eqn:Es; [|by left]. right. apply bool_decide_eq_false. destruct (Hall t c Ec Es) as [d ->]. done.
Qed.

Lemma disconnect_applied b pindex h supplyPrev v r flags xss checks p :
  cs_ok v → utxo_wf (cs_utxo v) → block_applied b pindex (Some h) supplyPrev false v r flags xss checks →
  fEnforceBIP30 (nHeight pindex) (Some h) = true → NoDup (tx_hash <$> vtx b) → 0 < nHeight pindex < 2 ^ 31 →
  pprev pindex = Some p → p ≠ 0 → h ≠ 0 → 0 < COINBASE_MATURITY →
  ∃ v', disconnect b pindex h (Some (r_undo r)) (r_view r) =
      Ok (true, v', collect (dis (fAddressIndex cfg) (fSpentIndex cfg) (nHeight pindex)) (rev (block_events 0 (vtx b) xss))) ∧
    cs_ok v' ∧ cs_utxo v' = restored (cs_utxo v) (cs_utxo (r_view r)) ∧ best v' = best v.
Proof.
  intros Hv Hwf [Hvalid Hparent Hl _ _ Hfresh Hok Hbest Hundo Hlen Hidx Hout _ _ _] Hbip Hnd Hh Hp Hp0 Hh0 Hmat.
  destruct (ledger_coinbase_undo _ _ _ _ _ _ _ Hl (bv_generation _ _ _ _ _ _ Hvalid)) as [Hcb (xss' & ->)]. cbn [tail] in Hundo.
  destruct (Hbest eq_refl) as (h' & [= <-] & Hb). unfold DisconnectBlock.
  pose proof (cs_best_spec (r_view r) Hok) as Hbs. cbn zeta in Hbs. unfold best in Hb at 1. specialize (Hb Hh0). destruct (cs_best (r_view r)) as [h0 w]. cbn [fst snd] in *.
  subst h0. destruct Hbs as (Hw & Hu & _). unfold assert_that. rewrite Z.eqb_refl. cbn [mbind outcome_bind]. rewrite Hundo in *.
  pose proof (list.Forall2_length _ _ _ Hlen) as Hlens. cbn [length] in Hlens. rewrite (proj2 (Z.eqb_eq _ _)) by lia. cbn [negb].
  set (lost := λ t, bool_decide (cs_utxo (r_view r) !! t = None)).
  assert (cs_utxo w = drop_stakes lost (cs_utxo (r_view r))) as Hw0.
  { rewrite Hu. apply map_eq. intros t. rewrite lookup_drop_stakes. destruct (cs_utxo (r_view r) !! t) eqn:Et; [|done]. unfold lost. by rewrite Et. }
  destruct (undo_txs_spec lost (length (vtx b)) (vtx b) (cs_utxo v) (cs_utxo (r_view r)) (nHeight pindex) ([] :: xss') w true) as (v1 & E1 & Hv1 & Hu1); try done.
  - rewrite firstn_all, Hlens. change (S (length xss')) with (length ([] :: xss')). rewrite firstn_all. by apply ledger_updates in Hl.
  - intros i tx Htx. pose proof (list_elem_of_lookup_2 _ _ _ Htx) as Hin. split_and!; [|by apply Hfresh|by apply Hcb|].
    + apply outputs_undoable. rewrite list.Forall_forall in Hout. by apply Hout.
    + intros Hlost%bool_decide_eq_true Hs. by eapply ledger_stakes_kept.
  - intros t Ht _. unfold lost. by apply bool_decide_eq_true.
  - cbn [tail] in E1. rewrite E1. cbn [map_err mbind outcome_bind].
    pose proof (unindex_txs_eq (fAddressIndex cfg) (fSpentIndex cfg) (nHeight pindex) (length (vtx b)) (vtx b) ([] :: xss') no_updates) as E2.
    cbn [tail] in E2. rewrite E2; [|by apply undo_fits_lengths|lia]. rewrite firstn_all, Hlens. change (S (length xss')) with (length ([] :: xss')). rewrite firstn_all, vapp_nil_l.
    cbn [no_err mbind outcome_bind]. rewrite Hp. destruct (cs_set_best_spec v1 p Hv1) as (v2 & -> & Hv2 & Hu2 & Hb2). cbn [no_err mbind outcome_bind].
    exists v2. split_and!; [done|done|exact (eq_trans Hu2 Hu1)|]. rewrite Hparent, Hp. cbn [default]. by apply Hb2.
Qed.

Lemma sum_burned_nonneg txs : Forall outputs_ok txs → 0 ≤ sum_Z burned txs.
Proof.
  induction 1 as [|tx txs Htx _ IH]; [done|]. rewrite sum_Z_cons. enough (0 ≤ burned tx) by lia. unfold burned.
  induction Htx as [|o outs Ho _ IHo]; [done|]. rewrite sum_Z_cons. destruct (IsUnspendable _); lia.
Qed.

(** ** Properties *)

(** C10: a block that [ConnectBlock] accepts follows the block rules and is a step
    of the ledger: every transaction's inputs are unspent and mature when its turn
    comes, in value ranges, worth at least its outputs unless it stakes, and above
    the last checkpoint every script verifies, whether at once or on the queue; its
    outputs then replace the ones it spends.  The undo data, the index updates, the
    supply and mint are those of that step, whatever stack of caches it runs on. *)
Theorem connect_refines_ledger b pindex phash supplyPrev v just r :
  cs_ok v → 0 ≤ nMaxMoneyOut < 2 ^ 62 → env_ok env → follows pindex → GetHash (header b) ≠ HashGenesisBlock up →
  connect b pindex phash supplyPrev v just = Ok r →
  ∃ flags xss checks, block_applied b pindex phash supplyPrev just v r flags xss checks.
Proof. apply ConnectBlock_Ok. Qed.

(** C12: disconnecting the block just connected is clean, gives back the best block and
    takes the address and spent index back when the block's keys were new.  The unspent
    outputs it gives back are exactly those from before the block, but for the coinstake
    flag of the transactions that the block has spent up, which is cleared
    ([DisconnectBlock] restores the other fields of such coins only); so they are the same
    if and only if the block spends the last output of no coinstake. *)
Theorem reorg_roundtrip b pindex h p supplyPrev v r :
  cs_ok v → utxo_wf (cs_utxo v) → 0 ≤ nMaxMoneyOut < 2 ^ 62 → 0 < COINBASE_MATURITY → env_ok env → follows pindex → GetHash (header b) ≠ HashGenesisBlock up →
  connect b pindex (Some h) supplyPrev v false = Ok r →
  pprev pindex = Some p → p ≠ 0 → h ≠ 0 → 0 < nHeight pindex < 2 ^ 31 →
  fEnforceBIP30 (nHeight pindex) (Some h) = true → NoDup (tx_hash <$> vtx b) →
  ∃ v' x, disconnect b pindex h (Some (r_undo r)) (r_view r) = Ok (true, v', x) ∧
    cs_ok v' ∧ best v' = best v ∧
    (∀ t, cs_utxo v' !! t = mark (bool_decide (cs_utxo (r_view r) !! t = None)) <$> cs_utxo v !! t) ∧
    (cs_utxo v' = cs_utxo v ↔ ∀ t c, cs_utxo v !! t = Some c → fCoinStake c = true → is_Some (cs_utxo (r_view r) !! t)) ∧
    (∀ db, (∀ k, k ∈ addressIndex (r_vecs r) → db !! k.1 = None) →
      EraseAddressIndex (addressIndex x) (WriteAddressIndex (addressIndex (r_vecs r)) db) = db) ∧
    (∀ db, (∀ k, k ∈ spentIndex (r_vecs r) → db !! k.1 = None) →
      UpdateSpentIndex (spentIndex x) (UpdateSpentIndex (spentIndex (r_vecs r)) db) = db).
Proof.
  intros Hv Hwf Hm Hmat He Hf Hg E Hp Hp0 Hh0 Hh Hbip Hnd. apply ConnectBlock_Ok in E as (flags & xss & checks & Ha); [|done..].
  destruct (disconnect_applied b pindex h supplyPrev v r flags xss checks p) as (v' & Ed & Hv' & Hu' & Hb'); [done..|].
  exists v'. eexists. rewrite (ba_indexes _ _ _ _ _ _ _ _ _ _ Ha), Hu'. split_and!; [exact Ed|done|done|intros t; apply lookup_restored|apply restored_exact| |]; intros db.
  - apply address_index_undone.
  - apply spent_index_undone.
Qed.

(** C14: the money supply of the block's entry is the one before plus what the block
    mints, never above the cap; the unspent outputs change by the mint less what
    is sent to scripts that can never be spent, so they never exceed the supply. *)
Theorem supply_covers_outputs b pindex phash supplyPrev v just r :
  cs_ok v → 0 ≤ nMaxMoneyOut < 2 ^ 62 → env_ok env → follows pindex → GetHash (header b) ≠ HashGenesisBlock up →
  connect b pindex phash supplyPrev v just = Ok r →
  fEnforceBIP30 (nHeight pindex) phash = true → NoDup (tx_hash <$> vtx b) →
  nMoneySupply r = supplyPrev + nMint r ∧ nMoneySupply r ≤ nMaxMoneyOut ∧
  total (cs_utxo (r_view r)) = total (cs_utxo v) + nMint r - sum_Z burned (vtx b) ∧
  (total (cs_utxo v) ≤ supplyPrev → total (cs_utxo (r_view r)) ≤ nMoneySupply r).
Proof.
  intros Hv Hm He Hf Hg E Hbip Hnd. apply ConnectBlock_Ok in E as (flags & xss & checks & Ha); [|done..].
  destruct Ha as [_ _ Hl _ _ Hfresh _ _ _ _ _ Hout Hmint _ [Hs Hle]]. apply ledger_updates in Hl.
  apply total_updates in Hl; [|by apply cs_utxo_ok|done|].
  2: { intros tx Htx. split; [by apply Hfresh|]. rewrite list.Forall_forall in Hout. by apply Hout. }
  pose proof (sum_burned_nonneg _ Hout).
  assert (sum_Z (λ tx, sum_values (vout tx) - burned tx) (vtx b) = sum_Z (λ tx, sum_values (vout tx)) (vtx b) - sum_Z burned (vtx b)) as Hd.
  { clear. induction (vtx b) as [|tx txs IH]; [done|]. rewrite !sum_Z_cons, IH. lia. }
  split_and!; lia.
Qed.

(** In the proof-of-work phase the mint is what the coinbase pays less the fees. *)
Lemma coinbase_mint b pindex phash supplyPrev just v r flags xss checks cb rest :
  block_applied b pindex phash supplyPrev just v r flags xss checks →
  vtx b = cb :: rest → Forall (λ tx, IsCoinStake tx = false) rest →
  block_IsProofOfWork (vtx b) = true ∧ nMint r = sum_values (vout cb) - block_fees (vtx b) xss.
Proof.
  intros [Hvalid _ _ _ _ _ _ _ _ Hlen _ _ Hmint _ _] Hvtx Hrest. split.
  { unfold block_IsProofOfWork, block_IsProofOfStake. rewrite Hvtx. destruct Hrest as [|t rest Ht _]; [done|]. by rewrite Ht. }
  destruct (bv_generation _ _ _ _ _ _ Hvalid) as (cb' & rest' & Heq & Hcb & Hnc & _).
  rewrite Hvtx in Heq. injection Heq as <- <-. rewrite Hvtx in *. apply list.Forall2_cons_inv_l in Hlen as (xs & xss' & Hxs & Hlen & ->).
  rewrite Hcb in Hxs. destruct xs; [|discriminate Hxs]. cbn [block_fees]. unfold tx_fee at 1. rewrite Hcb. cbn [orb].
  rewrite !sum_Z_cons in Hmint. change (undo_value []) with 0 in Hmint.
  assert (sum_Z undo_value xss' - sum_Z (λ tx, sum_values (vout tx)) rest = block_fees rest xss') as Hfees; [|lia].
  clear - Hlen Hnc Hrest. induction Hlen as [|t xs rest xss _ _ IH]; [done|]. apply list.Forall_cons in Hnc as [Hc Hnc], Hrest as [Hs Hrest].
  cbn [block_fees]. unfold tx_fee. rewrite Hc, Hs, !sum_Z_cons. cbn [orb]. specialize (IH Hrest Hnc). lia.
Qed.

(** What [IsBlockValueValid] says when rewards are enforced and there are no superblocks. *)
Lemma IsBlockValueValid_enforced {E} (be' : budget_env) b p e m :
  env_ok env → list.last (chainActive env) = Some (Some p) → masternodes_synced be' = true → superblocks_enabled be' = false →
  IsBlockValueValid (E:=E) env be' b e m = Ok (m <=? e).
Proof.
  intros He Htip Hsync Hsuper. unfold IsBlockValueValid, Tip. rewrite Htip. cbn [no_err mbind outcome_bind].
  destruct (He p Htip) as [tip Et]. unfold deref. by rewrite Et, Hsync, Hsuper.
Qed.

(** The rules of a block in which the budget pays: its value is not limited. *)
Definition unlimited_value (be' : budget_env) : budget_env := BudgetEnv true true (budget_cycle be') (λ _, true).
Lemma IsBlockValueValid_unlimited {E} (be' : budget_env) b p e m :
  env_ok env → list.last (chainActive env) = Some (Some p) → IsBlockValueValid (E:=E) env (unlimited_value be') b e m = Ok true.
Proof.
  intros He Htip. unfold IsBlockValueValid, Tip. rewrite Htip. cbn [no_err mbind outcome_bind]. destruct (He p Htip) as [tip Et].
  unfold deref. by rewrite Et.
Qed.
End Blocks.

(** C20: in the proof-of-work phase, on a node whose masternode data is synchronised while
    superblocks are disabled (that is when it enforces rewards), the limit on the coinbase
    is exactly the subsidy and *twice* the fees: a block that [ConnectBlock] would accept
    with no limit on its value is accepted, with the same result, if its coinbase pays at
    most that, and refused for its reward if it pays more; every block that is accepted is
    of this kind.  The code adds the fees to the subsidy, but the mint it compares with the
    sum is already net of them. *)
Theorem coinbase_bound `{CoinsStore V} (Verify : list Z → Z → list Z → bool) (GetHash : CBlockHeader → Z) (params : CChainParams)
    (up : upgrade_params) (nMaxMoneyOut COINBASE_MATURITY : Z) (env : node_env) (be : budget_env) (cfg : node_config)
    b pindex phash supplyPrev v just cb rest p :
  let connect be := ConnectBlock (V:=V) Verify GetHash params up nMaxMoneyOut COINBASE_MATURITY env be cfg b pindex phash supplyPrev v just in
  cs_ok v → 0 ≤ nMaxMoneyOut < 2 ^ 62 → env_ok env → follows env pindex → GetHash (header b) ≠ HashGenesisBlock up →
  vtx b = cb :: rest → Forall (λ tx, IsCoinStake tx = false) rest →
  list.last (chainActive env) = Some (Some p) → masternodes_synced be = true → superblocks_enabled be = false →
  (∀ r, connect be = Ok r → connect (unlimited_value be) = Ok r) ∧
  ∀ r, connect (unlimited_value be) = Ok r →
    ∃ subsidy xss u', GetBlockValue (nHeight pindex) = Ok subsidy ∧ updates (cs_utxo v) (vtx b) (nHeight pindex) = Some (xss, u') ∧
      connect be = if sum_values (vout cb) <=? subsidy + 2 * block_fees (vtx b) xss then Ok r else Err RewardTooHigh.
Proof.
  intros connect Hv Hm He Hf Hg Hvtx Hrest Htip Hsync Hsuper. split; intros r E.
  - destruct (ConnectBlock_budget Verify GetHash params up nMaxMoneyOut COINBASE_MATURITY env be cfg (unlimited_value be) b pindex phash
      supplyPrev v just r Hv Hm He Hf Hg E) as (flags & xss & checks & subsidy & _ & _ & E').
    unfold connect. rewrite E'. by rewrite (IsBlockValueValid_unlimited env be b p).
  - destruct (ConnectBlock_budget Verify GetHash params up nMaxMoneyOut COINBASE_MATURITY env (unlimited_value be) cfg be b pindex phash
      supplyPrev v just r Hv Hm He Hf Hg E) as (flags & xss & checks & subsidy & Ha & Hsub & E').
    edestruct coinbase_mint as [Hpow Hmint]; [exact Ha|exact Hvtx|exact Hrest|].
    exists subsidy, xss, (cs_utxo (r_view r)). split; [done|]. split; [eapply ledger_updates; apply Ha|].
    unfold connect. rewrite E', (IsBlockValueValid_enforced env be b p), Hpow, Hmint by done. cbn [mbind outcome_bind].
    assert ((sum_values (vout cb) - block_fees (vtx b) xss <=? subsidy + block_fees (vtx b) xss) =
      (sum_values (vout cb) <=? subsidy + 2 * block_fees (vtx b) xss)) as -> by (apply eq_true_iff_eq; rewrite !Z.leb_le; lia).
    by destruct (_ <=? _).
Qed.

(** ** A concrete block *)

(** Block 2 on top of block 7 of height 1: the coinbase pays the subsidy and twice
    the fee of the one transaction behind it. *)
Module Demo.
Definition spend_tx : CTransaction :=
  UpdateHash (Tx 0 1 [TxIn (OutPoint 100 0) [] 0xffffffff []] [TxOut 40 ([OP_DUP; OP_HASH160; 20] ++ replicate 20 9 ++ [OP_EQUALVERIFY; OP_CHECKSIG]) (-10)] 0).
Definition coinbase_tx : CTransaction :=
  UpdateHash (Tx 0 1 [TxIn (OutPoint 0 0xffffffff) [OP_2; OP_0] 0xffffffff []] [TxOut (10 * COIN + 20) [OP_1] (-10)] 0).
Definition txs : list CTransaction := [coinbase_tx; spend_tx].
Definition block : CBlock := Block (BlockHeader 1 7 (merkle_root (tx_hash <$> txs)) 1744156900 0 0) txs [].
Definition entry (h : Z) (prev : option Z) : CBlockIndex := index_entry prev None h [] [] 0 0 0 0 1 1744156900 0.
Definition params : CChainParams := ChainParams uint256_max 10000 120 true.
Definition up : upgrade_params := UpgradeParams 1 100 750 950 1000 false [].
Definition env : node_env := NodeEnv 1744156800 {[ 7 := entry 1 None ]} [Some 7] false ∅ true (λ _ _, true).
Definition be : budget_env := BudgetEnv true false 1 (λ _, false).
Definition cfg : node_config := NodeConfig true true true.
Definition coins : utxo_map := {[ 100 := Coins false false [TxOut 50 [OP_1] (-10)] 1 1 ]}.
Definition maxm : Z := 33000000 * COIN.
Definition result := ConnectBlock (V:=gmap Z CCoins * Z) (λ _ _ _, false) (λ _, 8) params up maxm 100 env be cfg block (entry 2 (Some 7)) (Some 8) 1000 (coins, 7) false.
Definition get (m : outcome connect_reject (connected (gmap Z CCoins * Z))) : connected (gmap Z CCoins * Z) :=
  match m with Ok r => r | _ => Connected (∅, 0) 0 0 [] no_updates [] end.
Definition r : connected (gmap Z CCoins * Z) := get result.

Lemma result_ok : result = Ok r.
Proof. assert (is_ok result = true) as H by (by vm_compute). unfold r. revert H. generalize result. intros [] H; [done|discriminate H..]. Qed.
Lemma view_ok : cs_ok (V:=gmap Z CCoins * Z) (coins, 7).
Proof. intros t c. cbn. unfold coins. rewrite lookup_singleton_Some. intros [_ <-]. split; by vm_compute. Qed.
Lemma env_is_ok : env_ok env.
Proof. intros p [= <-]. by eexists. Qed.
Lemma entry_follows : follows env (entry 2 (Some 7)).
Proof. intros prev. cbn. rewrite lookup_singleton_eq. by intros [= <-]. Qed.
Lemma coins_wf : utxo_wf coins.
Proof.
  split; [exact view_ok|]. intros t c. unfold coins. rewrite lookup_singleton_Some. intros [_ <-]. split; [|cbn; lia].
  intros [|n] o; [intros [= <-] Hn; discriminate Hn|intros Hn; discriminate Hn].
Qed.
Lemma distinct : NoDup (tx_hash <$> vtx block).
Proof. by_decision. Qed.

(** The same block with a coinbase that pays one unit more. *)
Definition greedy_coinbase : CTransaction :=
  UpdateHash (Tx 0 1 [TxIn (OutPoint 0 0xffffffff) [OP_2; OP_0] 0xffffffff []] [TxOut (10 * COIN + 21) [OP_1] (-10)] 0).
Definition greedy_txs : list CTransaction := [greedy_coinbase; spend_tx].
Definition greedy_block : CBlock := Block (BlockHeader 1 7 (merkle_root (tx_hash <$> greedy_txs)) 1744156900 0 0) greedy_txs [].
Definition connect_with (be : budget_env) (b : CBlock) :=
  ConnectBlock (V:=gmap Z CCoins * Z) (λ _ _ _, false) (λ _, 8) params up maxm 100 env be cfg b (entry 2 (Some 7)) (Some 8) 1000 (coins, 7) false.
Definition greedy_r : connected (gmap Z CCoins * Z) := get (connect_with (unlimited_value be) greedy_block).
Lemma greedy_ok : connect_with (unlimited_value be) greedy_block = Ok greedy_r.
Proof.
  assert (is_ok (connect_with (unlimited_value be) greedy_block) = true) as H by (by vm_compute). unfold greedy_r. revert H.
  generalize (connect_with (unlimited_value be) greedy_block). intros [] H; [done|discriminate H..].
Qed.
Lemma fees_are_10 xss u' : updates coins txs 2 = Some (xss, u') → block_fees txs xss = 10.
Proof.
  intros H. assert (option_map (λ p, block_fees txs p.1) (updates coins txs 2) = Some 10) as Hf by (by vm_compute).
  rewrite H in Hf. by injection Hf.
Qed.
Lemma greedy_fees_are_10 xss u' : updates coins greedy_txs 2 = Some (xss, u') → block_fees greedy_txs xss = 10.
Proof.
  intros H. assert (option_map (λ p, block_fees greedy_txs p.1) (updates coins greedy_txs 2) = Some 10) as Hf by (by vm_compute).
  rewrite H in Hf. by injection Hf.
Qed.
End Demo.

Lemma connect_refines_ledger_witness :
  ∃ flags xss checks, block_applied (λ _ _ _, false) (λ _, 8) Demo.params Demo.up Demo.maxm 100 Demo.env Demo.be Demo.cfg
    Demo.block (Demo.entry 2 (Some 7)) (Some 8) 1000 false (Demo.coins, 7) Demo.r flags xss checks.
Proof.
  apply connect_refines_ledger; [apply Demo.view_ok|by_decision|apply Demo.env_is_ok|apply Demo.entry_follows|by_decision|apply Demo.result_ok].
Defined.

Lemma reorg_roundtrip_witness :
  ∃ v' x, DisconnectBlock Demo.cfg Demo.block (Demo.entry 2 (Some 7)) 8 (Some (r_undo Demo.r)) (r_view Demo.r) = Ok (true, v', x) ∧
    cs_utxo v' = Demo.coins ∧ EraseAddressIndex (addressIndex x) (WriteAddressIndex (addressIndex (r_vecs Demo.r)) ∅) = ∅.
Proof.
  destruct (reorg_roundtrip (λ _ _ _, false) (λ _, 8) Demo.params Demo.up Demo.maxm 100 Demo.env Demo.be Demo.cfg
    Demo.block (Demo.entry 2 (Some 7)) 8 7 1000 (Demo.coins, 7) Demo.r) as (v' & x & E & _ & _ & _ & Hu & Hi & _).
  - apply Demo.view_ok.
  - apply Demo.coins_wf.
  - by_decision.
  - lia.
  - apply Demo.env_is_ok.
  - apply Demo.entry_follows.
  - by_decision.
  - apply Demo.result_ok.
  - done.
  - done.
  - done.
  - by_decision.
  - done.
  - apply Demo.distinct.
  - exists v', x. split_and!; [exact E| |apply Hi; intros k _; apply lookup_empty]. apply Hu. intros t c.
    change (cs_utxo (Demo.coins, 7)) with Demo.coins. unfold Demo.coins. intros [_ <-]%lookup_singleton_Some Hs. discriminate Hs.
Defined.

(** The block spends the only output of a coinstake: the flag does not come back. *)
Example stake_flag_lost :
  let coins : utxo_map := {[ 100 := Coins false true [TxOut 50 [OP_1] (-10)] 1 1 ]} in
  let r := Demo.get (ConnectBlock (V:=gmap Z CCoins * Z) (λ _ _ _, false) (λ _, 8) Demo.params Demo.up Demo.maxm 1 Demo.env Demo.be Demo.cfg
    Demo.block (Demo.entry 2 (Some 7)) (Some 8) 1000 (coins, 7) false) in
  match DisconnectBlock Demo.cfg Demo.block (Demo.entry 2 (Some 7)) 8 (Some (r_undo r)) (r_view r) with
  | Ok (true, v', _) => cs_utxo v' !! 100 = Some (Coins false false [TxOut 50 [OP_1] (-10)] 1 1)
  | _ => False
  end.
Proof. vm_compute. reflexivity. Qed.

Lemma supply_covers_outputs_witness :
  nMoneySupply Demo.r = 1000 + nMint Demo.r ∧ total (cs_utxo (r_view Demo.r)) ≤ nMoneySupply Demo.r.
Proof.
  destruct (supply_covers_outputs (λ _ _ _, false) (λ _, 8) Demo.params Demo.up Demo.maxm 100 Demo.env Demo.be Demo.cfg
    Demo.block (Demo.entry 2 (Some 7)) (Some 8) 1000 (Demo.coins, 7) false Demo.r) as (H1 & _ & _ & H2).
  - apply Demo.view_ok.
  - by_decision.
  - apply Demo.env_is_ok.
  - apply Demo.entry_follows.
  - by_decision.
  - apply Demo.result_ok.
  - done.
  - apply Demo.distinct.
  - split; [exact H1|]. apply H2. by vm_compute.
Defined.

(** The bound is reached. *)
(** Twice the fee of 10 above the subsidy is accepted, and one unit more refused. *)
Lemma coinbase_bound_witness :
  sum_values (vout Demo.coinbase_tx) = 10 * COIN + 20 ∧ Demo.connect_with Demo.be Demo.block = Ok Demo.r ∧
  sum_values (vout Demo.greedy_coinbase) = 10 * COIN + 21 ∧ Demo.connect_with Demo.be Demo.greedy_block = Err RewardTooHigh.
Proof.
  split; [reflexivity|]. split; [|split; [reflexivity|]].
  - destruct (coinbase_bound (λ _ _ _, false) (λ _, 8) Demo.params Demo.up Demo.maxm 100 Demo.env Demo.be Demo.cfg
      Demo.block (Demo.entry 2 (Some 7)) (Some 8) 1000 (Demo.coins, 7) false Demo.coinbase_tx [Demo.spend_tx] 7) as [H1 H2];
      [apply Demo.view_ok|by_decision|apply Demo.env_is_ok|apply Demo.entry_follows|by_decision|reflexivity|repeat constructor|reflexivity..|].
    destruct (H2 Demo.r (H1 _ Demo.result_ok)) as (subsidy & xss & u' & Hs & Hu & E). unfold Demo.connect_with. rewrite E.
    change (vtx Demo.block) with Demo.txs in *. cbn [nHeight Demo.entry cs_utxo map_store fst] in Hu, Hs. injection Hs as <-.
    rewrite (Demo.fees_are_10 xss u' Hu). reflexivity.
  - destruct (coinbase_bound (λ _ _ _, false) (λ _, 8) Demo.params Demo.up Demo.maxm 100 Demo.env Demo.be Demo.cfg
      Demo.greedy_block (Demo.entry 2 (Some 7)) (Some 8) 1000 (Demo.coins, 7) false Demo.greedy_coinbase [Demo.spend_tx] 7) as [_ H2];
      [apply Demo.view_ok|by_decision|apply Demo.env_is_ok|apply Demo.entry_follows|by_decision|reflexivity|repeat constructor|reflexivity..|].
    destruct (H2 Demo.greedy_r Demo.greedy_ok) as (subsidy & xss & u' & Hs & Hu & E). unfold Demo.connect_with. rewrite E.
    change (vtx Demo.greedy_block) with Demo.greedy_txs in *. cbn [nHeight Demo.entry cs_utxo map_store fst] in Hu, Hs. injection Hs as <-.
    rewrite (Demo.greedy_fees_are_10 xss u' Hu). reflexivity.
Defined.

Lemma CheckInputs_exact_witness :
  let r := CheckInputs (V:=gmap Z CCoins * Z) (λ _ _ _, false) Demo.maxm 100 (mapBlockIndex Demo.env) Demo.spend_tx (Demo.coins, 7) true 1 false in
  is_ok r = true ∧ inputs_valid (λ _ _ _, false) Demo.maxm 100 Demo.coins 2 true 1 Demo.spend_tx.
Proof.
  cbn zeta. pose proof (CheckInputs_exact (λ _ _ _, false) Demo.maxm 100 (mapBlockIndex Demo.env) Demo.spend_tx (Demo.coins, 7) true 1 false (Demo.entry 1 None)) as H.
  assert (is_ok (CheckInputs (V:=gmap Z CCoins * Z) (λ _ _ _, false) Demo.maxm 100 (mapBlockIndex Demo.env) Demo.spend_tx (Demo.coins, 7) true 1 false) = true) as Hok
    by (by vm_compute).
  split; [exact Hok|]. revert Hok H. generalize (CheckInputs (V:=gmap Z CCoins * Z) (λ _ _ _, false) Demo.maxm 100 (mapBlockIndex Demo.env) Demo.spend_tx (Demo.coins, 7) true 1 false).
  intros [[checks v']|e| |] Hok H; try discriminate Hok. apply H.
  - apply Demo.view_ok.
  - by_decision.
  - apply CheckTransaction_valid; [by_decision|]. by vm_compute.
  - intros i Hi. apply list_elem_of_singleton in Hi as ->. split; [by_decision|]. intros o (c & Hc & Hn & _)%spent_output_Some.
    cbn in Hc. unfold Demo.coins in Hc. apply lookup_singleton_Some in Hc as [_ <-]. injection Hn as <-. split; by_decision.
  - by_decision.
  - apply lookup_singleton_eq.
Defined.
