(* ===== verification/ChainSelect.v ===== *)
(** * Choosing the best chain (main.cpp: FindMostWorkChain and its set of candidates)

    The set of candidate tips with its order, the walk that finds the one with most
    work whose blocks can all be used, the pruning of the set, and how a block whose
    transactions arrive enters it.  The theorems: the walk terminates and finds the
    greatest candidate whose path to the active chain is usable, and the order that
    the set relies on is a strict weak order. *)
From stdpp Require Import base tactics list gmap numbers option.
From Stdlib Require Import ZArith Lia.
From S2P Require Import Prelude.
From S2P Require Import BaseUint.
From S2P Require Import Transaction.
From S2P Require Import Chain.
From S2P Require Import Block.

(** ** State *)

(** The globals of main.cpp that the choice reads and writes: [mapBlockIndex],
    [chainActive], [setBlockIndexCandidates], [mapBlocksUnlinked] (in the order of
    insertion), [pindexBestInvalid] and [nBlockSequenceId]. *)
Record selection := Selection {
  s_index : block_index;
  s_active : CChain;
  s_candidates : gset Z;
  s_unlinked : list (Z * Z);
  s_best_invalid : option Z;
  s_sequence : Z
}.
Definition set_index (m : block_index) (x : selection) : selection :=
  Selection m (s_active x) (s_candidates x) (s_unlinked x) (s_best_invalid x) (s_sequence x).
Definition set_active (v : CChain) (x : selection) : selection :=
  Selection (s_index x) v (s_candidates x) (s_unlinked x) (s_best_invalid x) (s_sequence x).
Definition set_candidates (c : gset Z) (x : selection) : selection :=
  Selection (s_index x) (s_active x) c (s_unlinked x) (s_best_invalid x) (s_sequence x).
Definition set_unlinked (u : list (Z * Z)) (x : selection) : selection :=
  Selection (s_index x) (s_active x) (s_candidates x) u (s_best_invalid x) (s_sequence x).
Definition set_best_invalid (b : option Z) (x : selection) : selection :=
  Selection (s_index x) (s_active x) (s_candidates x) (s_unlinked x) b (s_sequence x).
Definition set_sequence (n : Z) (x : selection) : selection :=
  Selection (s_index x) (s_active x) (s_candidates x) (s_unlinked x) (s_best_invalid x) n.

(** Raising flags in the status of an entry. *)
Definition add_status (bits p : Z) (x : selection) : res selection :=
  b ← deref (s_index x) p; Ok (set_index (<[p := set_nStatus (Z.lor (nStatus b) bits) b]> (s_index x)) x).

(** Other writes to an entry. *)
Definition set_nSequenceId (n : Z) (b : CBlockIndex) : CBlockIndex :=
  BlockIndex (pprev b) (pskip b) (nHeight b) (bnChainTrust b) (nChainWork b) (nChainTx b) (nStatus b) (nFlags b)
    n (bi_nVersion b) (nTime b) (nBits b) (bi_hashMerkleRoot b) (bi_nNonce b) (pnext b) (nTx b) (bi_disk b) (bi_stake b).
Definition set_nChainTx (n : Z) (b : CBlockIndex) : CBlockIndex :=
  BlockIndex (pprev b) (pskip b) (nHeight b) (bnChainTrust b) (nChainWork b) n (nStatus b) (nFlags b)
    (nSequenceId b) (bi_nVersion b) (nTime b) (nBits b) (bi_hashMerkleRoot b) (bi_nNonce b) (pnext b) (nTx b) (bi_disk b) (bi_stake b).
Definition set_received (flags ntx : Z) (d : disk_fields) (b : CBlockIndex) : CBlockIndex :=
  BlockIndex (pprev b) (pskip b) (nHeight b) (bnChainTrust b) (nChainWork b) (nChainTx b) (nStatus b) flags
    (nSequenceId b) (bi_nVersion b) (nTime b) (nBits b) (bi_hashMerkleRoot b) (bi_nNonce b) (pnext b) ntx d (bi_stake b).

Definition active_tip (x : selection) : option Z := mjoin (list.last (s_active x)).

Section Select.
(** The order of the entries in memory, the last criterion of the comparator. *)
Context (addr : Z → Z).

(** [CBlockIndexWorkComparator] *)
Definition entry_less (pa : Z) (a : CBlockIndex) (pb : Z) (b : CBlockIndex) : bool :=
  if uint_gt (nChainWork a) (nChainWork b) then false else
  if uint_gt (nChainWork b) (nChainWork a) then true else
  if nSequenceId a <? nSequenceId b then false else
  if nSequenceId b <? nSequenceId a then true else
  if addr pa <? addr pb then false else
  if addr pb <? addr pa then true else false.
Definition work_less (m : block_index) (pa pb : Z) : bool :=
  match m !! pa, m !! pb with Some a, Some b => entry_less pa a pb b | _, _ => false end.

(** [*setBlockIndexCandidates.rbegin()]: the greatest. *)
Definition best_of (m : block_index) (l : list Z) : option Z :=
  foldr (λ p best, match best with None => Some p | Some q => if work_less m q p then Some p else Some q end) None l.
Definition best_candidate (x : selection) : option Z := best_of (s_index x) (elements (s_candidates x)).

(** Comparing the work of two entries that are not [NULL]. *)
Definition more_work (m : block_index) (p q : Z) : res bool :=
  a ← deref m p; b ← deref m q; Ok (uint_gt (nChainWork a) (nChainWork b)).

(** ** FindMostWorkChain *)

(** The walk from a candidate to the active chain: the first block that failed or
    has no data, with whether it failed. *)
Fixpoint check_path (fuel : nat) (x : selection) (pindexTest : option Z) : res (option (bool * Z)) :=
  match pindexTest with
  | None => Ok None
  | Some p =>
      c ← Contains (s_index x) (s_active x) p;
      if c : bool then Ok None else
      b ← deref (s_index x) p;
      _ ← assert_that (negb (nChainTx b =? 0) || (nHeight b =? 0));
      let fFailedChain := flag (nStatus b) BLOCK_FAILED_MASK in
      let fMissingData := negb (flag (nStatus b) BLOCK_HAVE_DATA) in
      if fFailedChain || fMissingData then Ok (Some (fFailedChain, p)) else
      match fuel with O => OutOfFuel | S fuel => check_path fuel x (pprev b) end
  end.

(** Removing the chain from the candidate down to, but without, the block found. *)
Fixpoint remove_chain (fuel : nat) (x : selection) (fFailedChain : bool) (pindexTest : Z) (pindexFailed : option Z) : res selection :=
  match pindexFailed with
  | None => AssertFail
  | Some p =>
      if p =? pindexTest then Ok x else
      b ← deref (s_index x) p;
      x ← (if fFailedChain then add_status BLOCK_FAILED_CHILD p x
           else match pprev b with Some q => Ok (set_unlinked (s_unlinked x ++ [(q, p)]) x) | None => Ok x end);
      let x := set_candidates (s_candidates x ∖ {[ p ]}) x in
      match fuel with O => OutOfFuel | S fuel => remove_chain fuel x fFailedChain pindexTest (pprev b) end
  end.

(** [if (pindexBestInvalid == NULL || p->nChainWork > pindexBestInvalid->nChainWork)] *)
Definition note_invalid (p : Z) (x : selection) : res selection :=
  match s_best_invalid x with
  | None => Ok (set_best_invalid (Some p) x)
  | Some q => more ← more_work (s_index x) p q; Ok (if more : bool then set_best_invalid (Some p) x else x)
  end.

Definition height_of (x : selection) (p : Z) : nat :=
  match s_index x !! p with Some b => Z.to_nat (nHeight b) | None => O end.

Fixpoint FindMostWorkChain_loop (fuel : nat) (x : selection) : res (option Z * selection) :=
  match best_candidate x with
  | None => Ok (None, x)
  | Some pindexNew =>
      found ← check_path (S (height_of x pindexNew)) x (Some pindexNew);
      match found with
      | None => Ok (Some pindexNew, x)
      | Some (fFailedChain, pindexTest) =>
          x ← (if fFailedChain : bool then note_invalid pindexNew x else Ok x);
          x ← remove_chain (height_of x pindexNew) x fFailedChain pindexTest (Some pindexNew);
          let x := set_candidates (s_candidates x ∖ {[ pindexTest ]}) x in
          match fuel with O => OutOfFuel | S fuel => FindMostWorkChain_loop fuel x end
      end
  end.
Definition FindMostWorkChain (x : selection) : res (option Z * selection) := FindMostWorkChain_loop (size (s_candidates x)) x.

(** [PruneBlockIndexCandidates]: the candidates worse than the tip are at the
    front of the set. *)
Definition PruneBlockIndexCandidates (x : selection) : res selection :=
  match active_tip x with
  | None => AssertFail
  | Some tip =>
      let x := set_candidates (filter (λ p, work_less (s_index x) p tip = false) (s_candidates x)) x in
      _ ← assert_that (negb (bool_decide (s_candidates x = ∅)));
      Ok x
  end.

(** [InvalidChainFound], whose log line reads the tip, and [InvalidBlockFound] without
    the report to the peer. *)
Definition InvalidChainFound (p : Z) (x : selection) : res selection :=
  x ← note_invalid p x;
  match active_tip x with Some _ => Ok x | None => AssertFail end.
Definition InvalidBlockFound (p : Z) (corruption : bool) (x : selection) : res selection :=
  if corruption then Ok x else
  x ← add_status BLOCK_FAILED_VALID p x;
  InvalidChainFound p (set_candidates (s_candidates x ∖ {[ p ]}) x).

(** ** ReceivedBlockTransactions *)

(** The candidates get an entry unless the tip is better. *)
Definition offer_candidate (p : Z) (x : selection) : selection :=
  match active_tip x with
  | Some tip => if work_less (s_index x) p tip then x else set_candidates ({[ p ]} ∪ s_candidates x) x
  | None => set_candidates ({[ p ]} ∪ s_candidates x) x
  end.

(** The entries whose predecessors all have their transactions now, first in first out. *)
Fixpoint link_queue (fuel : nat) (queue : list Z) (x : selection) : res selection :=
  match queue with
  | [] => Ok x
  | pindex :: queue =>
      b ← deref (s_index x) pindex;
      before ← match pprev b with Some q => c ← deref (s_index x) q; Ok (nChainTx c) | None => Ok 0 end;
      let b := set_nSequenceId (s_sequence x) (set_nChainTx (u32 (before + nTx b)) b) in
      let x := set_sequence (u32 (s_sequence x + 1)) (set_index (<[pindex := b]> (s_index x)) x) in
      let x := offer_candidate pindex x in
      let range := filter (λ e, e.1 = pindex) (s_unlinked x) in
      let x := set_unlinked (filter (λ e, e.1 ≠ pindex) (s_unlinked x)) x in
      match fuel with O => OutOfFuel | S fuel => link_queue fuel (queue ++ (snd <$> range)) x end
  end.

Definition ReceivedBlockTransactions (vtx : list CTransaction) (pindexNew : Z) (file pos : Z) (x : selection) : res selection :=
  b ← deref (s_index x) pindexNew;
  let b := set_received (if block_IsProofOfStake vtx then Z.lor (nFlags b) BLOCK_PROOF_OF_STAKE else nFlags b)
             (u32 (Z.of_nat (length vtx))) (DiskFields file pos 0) b in
  let b := set_nStatus (Z.lor (nStatus b) BLOCK_HAVE_DATA) (set_nChainTx 0 b) in
  '(_, b) ← RaiseValidity BLOCK_VALID_TRANSACTIONS b;
  let x := set_index (<[pindexNew := b]> (s_index x)) x in
  parent ← match pprev b with Some q => c ← deref (s_index x) q; Ok (Some (q, c)) | None => Ok None end;
  match parent with
  | Some (q, c) =>
      if nChainTx c =? 0 then
        valid ← IsValid BLOCK_VALID_TREE c;
        Ok (if valid : bool then set_unlinked (s_unlinked x ++ [(q, pindexNew)]) x else x)
      else link_queue (S (length (s_unlinked x))) [pindexNew] x
  | None => link_queue (S (length (s_unlinked x))) [pindexNew] x
  end.
End Select.

(** ** The order of the candidates *)

Definition work (b : CBlockIndex) : Z := uval (nChainWork b).
(** Every entry's work is a number of 256 bits. *)
Definition works_ok (m : block_index) : Prop := ∀ p b, m !! p = Some b → limbs_ok 8 (nChainWork b).

(** The lexicographic order that the comparator computes. *)
Definition entry_before (addr : Z → Z) (pa : Z) (a : CBlockIndex) (pb : Z) (b : CBlockIndex) : Prop :=
  work a < work b ∨ work a = work b ∧
    (nSequenceId b < nSequenceId a ∨ nSequenceId a = nSequenceId b ∧ addr pb < addr pa).

Lemma entry_less_spec addr pa a pb b :
  limbs_ok 8 (nChainWork a) → limbs_ok 8 (nChainWork b) →
  entry_less addr pa a pb b = true ↔ entry_before addr pa a pb b.
Proof.
  intros Ha Hb. unfold entry_less, entry_before, work. rewrite !(uint_gt_spec 8) by done.
  repeat match goal with |- context [?x <? ?y] => destruct (Z.ltb_spec x y) end; (split; intros; try done; lia).
Qed.

Lemma work_less_spec addr m p q a b :
  works_ok m → m !! p = Some a → m !! q = Some b → work_less addr m p q = true ↔ entry_before addr p a q b.
Proof. intros Hm Hp Hq. unfold work_less. rewrite Hp, Hq. apply entry_less_spec; eauto. Qed.

Lemma work_less_false addr m p q a b :
  works_ok m → m !! p = Some a → m !! q = Some b → work_less addr m p q = false ↔ ¬ entry_before addr p a q b.
Proof. intros Hm Hp Hq. rewrite <- (work_less_spec addr m p q a b) by done. destruct (work_less _ _ _ _); naive_solver. Qed.

Lemma more_work_ok m p q a b :
  works_ok m → m !! p = Some a → m !! q = Some b → more_work m p q = Ok (work b <? work a).
Proof.
  intros Hm Hp Hq. unfold more_work. rewrite (deref_some m p a), (deref_some m q b) by done. cbn [mbind outcome_bind].
  by rewrite (uint_gt_spec 8) by eauto.
Qed.

(** The greatest element of a non-empty list exists and is one of its elements. *)
Lemma best_of_spec addr m l :
  works_ok m → (∀ p, p ∈ l → is_Some (m !! p)) →
  match best_of addr m l with
  | None => l = []
  | Some p => p ∈ l ∧ ∀ q, q ∈ l → work_less addr m p q = false
  end.
Proof.
  intros Hm. induction l as [|p l IH]; intros Hl; [done|].
  assert (∀ q, q ∈ l → is_Some (m !! q)) as Hl' by (intros q Hq; apply Hl; by right). specialize (IH Hl').
  destruct (Hl p) as [a Ha]; [by left|]. cbn [best_of foldr]. fold (best_of addr m l).
  destruct (best_of addr m l) as [q|].
  - destruct IH as [Hq IH]. destruct (Hl' q Hq) as [b Hb]. destruct (work_less addr m q p) eqn:E.
    + split; [by left|]. intros r [->|Hr]%elem_of_cons.
      * apply (work_less_false _ _ _ _ a a); [done..|]. unfold entry_before. lia.
      * specialize (IH r Hr). destruct (Hl' r Hr) as [c Hc]. apply (work_less_spec _ _ _ _ b a) in E; [|done..].
        apply (work_less_false _ _ _ _ b c) in IH; [|done..]. apply (work_less_false _ _ _ _ a c); [done..|].
        unfold entry_before in *. lia.
    + split; [by right|]. intros r [->|Hr]%elem_of_cons; auto.
  - subst l. split; [by left|]. intros r [->|Hr]%elem_of_cons; [|by inversion Hr].
    apply (work_less_false _ _ _ _ a a); [done..|]. unfold entry_before. lia.
Qed.

(** ** Indexes that differ in what the choice does not read *)

(** [b] with the links, height, work, transaction count and order of [b], and the
    other fields of [s]. *)
Definition with_core (s b : CBlockIndex) : CBlockIndex :=
  BlockIndex (pprev b) (pskip b) (nHeight b) (bnChainTrust s) (nChainWork b) (nChainTx b) (nStatus s) (nFlags s)
    (nSequenceId b) (bi_nVersion s) (nTime s) (nBits s) (bi_hashMerkleRoot s) (bi_nNonce s) (pnext s) (nTx s) (bi_disk s) (bi_stake s).
Definition core : CBlockIndex → CBlockIndex := with_core blank_entry.

Lemma core_eq b b' : core b' = core b → b' = with_core b' b.
Proof. destruct b, b'. intros H. injection H. intros. by subst. Qed.

Definition strip (m : block_index) : block_index := core <$> m.
Lemma lookup_strip m p : strip m !! p = core <$> m !! p.
Proof. apply lookup_fmap. Qed.
Definition same_shape (m m' : block_index) : Prop := strip m = strip m'.
#[export] Instance same_shape_equiv : Equivalence same_shape.
Proof. unfold same_shape. split; repeat intro; congruence. Qed.

Lemma shape_lookup m m' p b :
  same_shape m m' → m !! p = Some b → ∃ s, m' !! p = Some (with_core s b).
Proof.
  intros Hs Hp. assert (strip m' !! p = Some (core b)) as H.
  { by rewrite <- Hs, lookup_strip, Hp. }
  rewrite lookup_strip in H. destruct (m' !! p) as [b'|] eqn:E; [|discriminate H].
  apply (inj Some) in H. exists b'. f_equal. by apply core_eq.
Qed.
Lemma shape_is_Some m m' p : same_shape m m' → is_Some (m !! p) ↔ is_Some (m' !! p).
Proof.
  intros Hs. split; intros [b Hb].
  - destruct (shape_lookup m m' p b) as [s ?]; eauto.
  - destruct (shape_lookup m' m p b) as [s ?]; eauto. by symmetry.
Qed.

Lemma shape_insert m p b b' : m !! p = Some b → core b' = core b → same_shape m (<[p := b']> m).
Proof.
  intros Hp Hb. unfold same_shape, strip. rewrite fmap_insert. symmetry. apply insert_id.
  by rewrite lookup_fmap, Hp, Hb.
Qed.

Lemma walk_back_strip m n p : walk_back (strip m) n p = walk_back m n p.
Proof.
  revert p. induction n as [|n IH]; intros p; [done|]. cbn [walk_back]. rewrite lookup_strip.
  destruct (m !! p) as [b|]; [|done]. cbn. destruct (pprev b); [apply IH|done].
Qed.
Lemma ancestor_strip m p h : ancestor (strip m) p h = ancestor m p h.
Proof.
  unfold ancestor. rewrite lookup_strip. destruct (m !! p) as [b|]; [|done]. cbn.
  destruct (_ && _); [apply walk_back_strip|done].
Qed.
#[export] Instance ancestor_shape : Proper (same_shape ==> eq ==> eq ==> eq) ancestor.
Proof. intros m m' Hs p _ <- h _ <-. by rewrite <- (ancestor_strip m), Hs, ancestor_strip. Qed.

Lemma work_less_strip addr m p q : work_less addr (strip m) p q = work_less addr m p q.
Proof. unfold work_less. rewrite !lookup_strip. by destruct (m !! p), (m !! q). Qed.
#[export] Instance work_less_shape addr : Proper (same_shape ==> eq ==> eq ==> eq) (work_less addr).
Proof. intros m m' Hs p _ <- q _ <-. by rewrite <- (work_less_strip addr m), Hs, work_less_strip. Qed.

Lemma on_chain_strip m tip p : on_chain (strip m) tip p ↔ on_chain m tip p.
Proof.
  unfold on_chain. setoid_rewrite ancestor_strip. setoid_rewrite lookup_strip.
  split; intros (t & b & -> & Hp & Ha).
  - destruct (m !! p) as [b'|]; [|discriminate Hp]. injection Hp as <-. by exists t, b'.
  - exists t, (core b). by rewrite Hp.
Qed.
#[export] Instance on_chain_shape : Proper (same_shape ==> eq ==> eq ==> iff) on_chain.
Proof. intros m m' Hs t _ <- p _ <-. by rewrite <- (on_chain_strip m), Hs, on_chain_strip. Qed.

Lemma index_wf_strip m : index_wf m → index_wf (strip m).
Proof.
  assert (∀ p b, strip m !! p = Some b → ∃ b', m !! p = Some b' ∧ b = core b') as Hl.
  { intros p b. rewrite lookup_strip. destruct (m !! p) as [b'|]; [|discriminate]. intros [= <-]. by exists b'. }
  intros [H1 H2 H3 H4]. split.
  - intros p b (b' & Hb & ->)%Hl. by apply (H1 p b').
  - intros p b (b' & Hb & ->)%Hl. by apply (H2 p b').
  - intros p b q (b' & Hb & ->)%Hl Hq. destruct (H3 p b' q Hb Hq) as (c & Hc & Hh).
    exists (core c). by rewrite lookup_strip, Hc.
  - intros p b q (b' & Hb & ->)%Hl Hq. rewrite ancestor_strip. by apply (H4 p b').
Qed.
Lemma index_wf_unstrip m : index_wf (strip m) → index_wf m.
Proof.
  assert (∀ p b, m !! p = Some b → strip m !! p = Some (core b)) as Hl.
  { intros p b Hb. by rewrite lookup_strip, Hb. }
  intros [H1 H2 H3 H4]. split.
  - intros p b Hb%Hl. apply (H1 p _ Hb).
  - intros p b Hb%Hl Hq. apply (H2 p _ Hb Hq).
  - intros p b q Hb%Hl Hq. destruct (H3 p _ q Hb Hq) as (c & Hc & Hh). rewrite lookup_strip in Hc.
    destruct (m !! q) as [c'|] eqn:E; [|discriminate Hc]. exists c'. by injection Hc as <-.
  - intros p b q Hb%Hl Hq. rewrite <- ancestor_strip. by apply (H4 p _ q Hb Hq).
Qed.
#[export] Instance index_wf_shape : Proper (same_shape ==> iff) index_wf.
Proof. intros m m' Hs. split; intros H%index_wf_strip; apply index_wf_unstrip; [by rewrite <- Hs|by rewrite Hs]. Qed.

(** ** The invariant of the selection *)

Record sel_ok (x : selection) : Prop := {
  so_wf : index_wf (s_index x);
  so_works : works_ok (s_index x);
  so_chain : chain_ok (s_index x) (s_active x) (active_tip x);
  so_cand p : p ∈ s_candidates x → is_Some (s_index x !! p);
  so_tx p q b : p ∈ s_candidates x → s_index x !! q = Some b → ancestor (s_index x) p (nHeight b) = Some q →
    nChainTx b ≠ 0 ∨ nHeight b = 0;
  so_invalid q : s_best_invalid x = Some q → is_Some (s_index x !! q)
}.

Definition failed (b : CBlockIndex) : bool := flag (nStatus b) BLOCK_FAILED_MASK.
Definition have_data (b : CBlockIndex) : bool := flag (nStatus b) BLOCK_HAVE_DATA.
Definition usable (b : CBlockIndex) : Prop := failed b = false ∧ have_data b = true.

(** Every block from [p] down to the active chain is usable. *)
Definition path_usable (x : selection) (p : Z) : Prop :=
  ∀ q b, s_index x !! q = Some b → ancestor (s_index x) p (nHeight b) = Some q →
    ¬ on_chain (s_index x) (active_tip x) q → usable b.

Lemma flag_lor a b f : flag (Z.lor a b) f = flag a f || flag b f.
Proof.
  unfold flag. rewrite Z.land_lor_distr_l. destruct (Z.eqb_spec (Z.land a f) 0) as [->|Ha]; [done|].
  destruct (Z.eqb_spec (Z.lor (Z.land a f) (Z.land b f)) 0) as [E|]; [|done]. by apply Z.lor_eq_0_iff in E as [? _].
Qed.

Lemma usable_dec b : failed b || negb (have_data b) = false ↔ usable b.
Proof. unfold usable. destruct (failed b), (have_data b); naive_solver. Qed.

Section Paths.
Context (m : block_index) (Hwf : index_wf m).

(** An ancestor is the block itself or an ancestor of its predecessor. *)
Lemma ancestor_cases p b h q :
  m !! p = Some b → ancestor m p h = Some q →
  h = nHeight b ∧ q = p ∨ ∃ r, pprev b = Some r ∧ ancestor m r h = Some q.
Proof.
  intros Hp Hq. destruct (ancestor_some m Hwf p b h q Hp Hq) as [Hh _].
  destruct (decide (h = nHeight b)) as [->|Hne].
  - rewrite (ancestor_self m Hwf p b Hp) in Hq. injection Hq as <-. by left.
  - right. destruct (has_pprev m Hwf p b Hp) as [r Hr]; [lia|]. exists r. split; [done|].
    pose proof (ancestor_pprev m Hwf p b r Hp Hr) as Hpr.
    by rewrite (ancestor_trans m Hwf p b (nHeight b - 1) r h) by (done || lia).
Qed.

Lemma ancestor_step p b r h q : m !! p = Some b → pprev b = Some r → ancestor m r h = Some q → ancestor m p h = Some q.
Proof.
  intros Hp Hr Hq. destruct (wf_pprev m Hwf p b r Hp Hr) as (c & Hc & Hh).
  destruct (ancestor_some m Hwf r c h q Hc Hq) as [? _].
  rewrite <- Hq. symmetry. apply (ancestor_trans m Hwf p b (nHeight b - 1)); [done|by apply ancestor_pprev|lia].
Qed.

Lemma ancestor_chain p b q c r h :
  m !! p = Some b → m !! q = Some c → ancestor m p (nHeight c) = Some q → ancestor m q h = Some r → ancestor m p h = Some r.
Proof.
  intros Hp Hq Hpq Hr. destruct (ancestor_some m Hwf q c h r Hq Hr) as [? _].
  rewrite <- Hr. symmetry. apply (ancestor_trans m Hwf p b (nHeight c)); [done..|lia].
Qed.

End Paths.

#[export] Instance chain_ok_shape : Proper (same_shape ==> eq ==> eq ==> iff) chain_ok.
Proof.
  assert (∀ m m' v t, same_shape m m' → chain_ok m v t → chain_ok m' v t) as H.
  { intros m m' v [t|] Hs; [|done]. intros (b & Hb & Hl & Hk). destruct (shape_lookup m m' t b Hs Hb) as [s Hs'].
    exists (with_core s b). split_and!; [done..|]. intros k Hk'. rewrite Hk by done. by rewrite Hs. }
  intros m m' Hs v _ <- t _ <-. split; apply H; done || by symmetry.
Qed.

Lemma works_ok_shape m m' : same_shape m m' → works_ok m → works_ok m'.
Proof.
  intros Hs Hw p b Hp. destruct (shape_lookup m' m p b) as [s Hs']; [by symmetry|done|]. by specialize (Hw p _ Hs').
Qed.

(** ** Walking down to the active chain *)

Lemma on_chain_below x p q c :
  sel_ok x → is_Some (s_index x !! p) → s_index x !! q = Some c → ancestor (s_index x) p (nHeight c) = Some q →
  on_chain (s_index x) (active_tip x) p → on_chain (s_index x) (active_tip x) q.
Proof.
  intros Hx [b Hp] Hq Ha Hc. apply (on_chain_ancestor _ (so_wf x Hx) _ p b (nHeight c)); [|done..].
  intros t Ht. pose proof (so_chain x Hx) as Hok. rewrite Ht in Hok. destruct Hok as (bt & ? & _). by exists bt.
Qed.

Lemma check_path_spec x fuel p b :
  sel_ok x → s_index x !! p = Some b → nHeight b < Z.of_nat fuel →
  (∀ q c, s_index x !! q = Some c → ancestor (s_index x) p (nHeight c) = Some q → nChainTx c ≠ 0 ∨ nHeight c = 0) →
  ∃ r, check_path fuel x (Some p) = Ok r ∧
  match r with
  | None => path_usable x p
  | Some (f, q) => ∃ c, s_index x !! q = Some c ∧ ancestor (s_index x) p (nHeight c) = Some q ∧
      ¬ on_chain (s_index x) (active_tip x) q ∧ ¬ usable c ∧ f = failed c
  end.
Proof.
  intros Hx. pose proof (so_wf x Hx) as Hwf. revert p b. induction fuel as [|fuel IH]; intros p b Hp Hf Htx.
  { pose proof (wf_height _ Hwf p b Hp). lia. }
  cbn [check_path]. destruct (Contains_spec (s_index x) (s_active x) (active_tip x) p b (so_chain x Hx) Hp) as (c & -> & Hc).
  cbn [mbind outcome_bind]. destruct c.
  { exists None. split; [done|]. intros q d Hq Ha Hn. destruct Hn. apply (on_chain_below x p q d); [done|by exists b|done..|by apply Hc]. }
  assert (¬ on_chain (s_index x) (active_tip x) p) as Hoff by (intros H%Hc; done).
  pose proof (ancestor_self _ Hwf p b Hp) as Hself.
  rewrite (deref_some _ p b Hp). cbn [mbind outcome_bind].
  assert (negb (nChainTx b =? 0) || (nHeight b =? 0) = true) as ->.
  { destruct (Htx p b Hp Hself) as [H|H]; [by rewrite (proj2 (Z.eqb_neq _ _) H)|by rewrite H, orb_true_r]. }
  cbn [assert_that mbind outcome_bind]. fold (failed b) (have_data b).
  destruct (failed b || negb (have_data b)) eqn:Eu.
  { exists (Some (failed b, p)). split; [done|]. exists b. split_and!; try done. intros Hu%usable_dec. congruence. }
  apply usable_dec in Eu. destruct (pprev b) as [r|] eqn:Er.
  - destruct (wf_pprev _ Hwf p b r Hp Er) as (d & Hd & Hh).
    destruct (IH r d Hd ltac:(lia)) as (res & -> & Hres).
    { intros q c Hq Ha. apply (Htx q c Hq). by apply (ancestor_step _ Hwf p b r). }
    exists res. split; [done|]. destruct res as [[f q]|].
    + destruct Hres as (c & Hq & Ha & ? & ? & ?). exists c. split_and!; try done. by apply (ancestor_step _ Hwf p b r).
    + intros q c Hq Ha Hn. destruct (ancestor_cases _ Hwf p b _ q Hp Ha) as [[_ ->]|(r' & Hr' & Ha')].
      * by simplify_eq.
      * simplify_eq. by apply (Hres q c).
  - exists None. split; [by destruct fuel|]. intros q c Hq Ha Hn.
    destruct (ancestor_cases _ Hwf p b _ q Hp Ha) as [[_ ->]|(r' & Hr' & _)]; by simplify_eq.
Qed.

(** ** What the walk may change *)

(** The flags of failure grow, the data flags stay. *)
Definition fails_more (m m' : block_index) : Prop :=
  ∀ p b b', m !! p = Some b → m' !! p = Some b' → (failed b = true → failed b' = true) ∧ have_data b' = have_data b.

Record kept (x x' : selection) : Prop := {
  k_shape : same_shape (s_index x) (s_index x');
  k_fails : fails_more (s_index x) (s_index x');
  k_active : s_active x' = s_active x;
  k_sub p : p ∈ s_candidates x' → p ∈ s_candidates x;
  k_drop p : p ∈ s_candidates x → p ∉ s_candidates x' → ¬ path_usable x p;
  k_path p : is_Some (s_index x !! p) → path_usable x p ↔ path_usable x' p
}.

Lemma fails_more_refl m : fails_more m m.
Proof. intros p b b' Hb Hb'. simplify_eq. done. Qed.
Lemma fails_more_trans m1 m2 m3 : same_shape m1 m2 → fails_more m1 m2 → fails_more m2 m3 → fails_more m1 m3.
Proof.
  intros Hs H1 H2 p b b' Hb Hb'. destruct (shape_lookup m1 m2 p b Hs Hb) as [s Hs'].
  destruct (H1 p _ _ Hb Hs'), (H2 p _ _ Hs' Hb'). split; [auto|congruence].
Qed.

Lemma active_tip_eq x x' : s_active x' = s_active x → active_tip x' = active_tip x.
Proof. unfold active_tip. by intros ->. Qed.

#[export] Instance kept_refl : Reflexive kept.
Proof. intros x. split; (done || apply fails_more_refl). Qed.
#[export] Instance kept_trans : Transitive kept.
Proof.
  intros x1 x2 x3 H1 H2. split.
  - etransitivity; eapply k_shape; done.
  - eapply fails_more_trans; [apply (k_shape _ _ H1)|by apply k_fails..].
  - by rewrite (k_active _ _ H2), (k_active _ _ H1).
  - intros p Hp%(k_sub _ _ H2). by apply (k_sub _ _ H1).
  - intros p Hp Hn. destruct (decide (p ∈ s_candidates x2)) as [H|H]; [|by apply (k_drop _ _ H1)].
    pose proof (k_drop _ _ H2 p H Hn) as Hd. intros Hu. apply Hd. apply (k_path _ _ H1); [|done].
    destruct (decide (is_Some (s_index x1 !! p))) as [?|Hno]; [done|]. exfalso. apply Hd. intros q b Hq Ha.
    assert (s_index x2 !! p = None) as E.
    { apply eq_None_not_Some. by rewrite <- (shape_is_Some _ _ p (k_shape _ _ H1)). }
    unfold ancestor in Ha. rewrite E in Ha. discriminate Ha.
  - intros p Hp. rewrite (k_path _ _ H1 p Hp). refine (k_path _ _ H2 p _).
    by rewrite <- (shape_is_Some _ _ p (k_shape _ _ H1)).
Qed.

(** The invariant only looks at what [kept] keeps. *)
Lemma kept_ok x x' :
  kept x x' → sel_ok x → (∀ q, s_best_invalid x' = Some q → is_Some (s_index x !! q)) → sel_ok x'.
Proof.
  intros K H Hinv. pose proof (k_shape _ _ K) as Hs. split.
  - rewrite <- Hs. apply H.
  - eapply works_ok_shape; [done|apply H].
  - rewrite (k_active _ _ K), (active_tip_eq _ _ (k_active _ _ K)), <- Hs. apply H.
  - intros p Hp%(k_sub _ _ K). rewrite <- (shape_is_Some _ _ p Hs). by apply H.
  - intros p q b Hp%(k_sub _ _ K) Hq Ha. destruct (shape_lookup _ (s_index x) q b (symmetry Hs) Hq) as [s Hq'].
    apply (so_tx x H p q _ Hp Hq'). by rewrite Hs.
  - intros q Hq. rewrite <- (shape_is_Some _ _ q Hs). by apply Hinv.
Qed.

(** Removing from the index entries [r] above an unusable block, and raising
    failure flags of such entries, keeps everything. *)
Definition above (x : selection) (q : Z) (r : Z) : Prop :=
  ∃ c, s_index x !! q = Some c ∧ ancestor (s_index x) r (nHeight c) = Some q.

Lemma above_unusable x q c r :
  sel_ok x → s_index x !! q = Some c → ¬ on_chain (s_index x) (active_tip x) q → ¬ usable c → above x q r → ¬ path_usable x r.
Proof. intros Hx Hq Hn Hu (c' & Hq' & Ha) Hp. simplify_eq. by apply Hu, (Hp q c). Qed.

Lemma kept_above x x' q c :
  sel_ok x → s_index x !! q = Some c → ¬ on_chain (s_index x) (active_tip x) q → ¬ usable c →
  same_shape (s_index x) (s_index x') → fails_more (s_index x) (s_index x') → s_active x' = s_active x →
  (∀ r b, s_index x !! r = Some b → s_index x' !! r = Some b ∨ above x q r) →
  (∀ r, r ∈ s_candidates x' → r ∈ s_candidates x) →
  (∀ r, r ∈ s_candidates x → r ∉ s_candidates x' → above x q r) →
  kept x x'.
Proof.
  intros Hx Hq Hn Hu Hs Hf Ha Hch Hsub Hdrop. split; try done.
  { intros p Hp Hnp. apply (above_unusable x q c); eauto. }
  intros p [bp Hp]. unfold path_usable. rewrite (active_tip_eq _ _ Ha). split; intros H r b Hr Har Hoff.
  - destruct (shape_lookup _ (s_index x) r b (symmetry Hs) Hr) as [s Hr']. rewrite <- Hs in Har, Hoff.
    destruct (Hch r _ Hr') as [E|Hab]; [rewrite Hr in E; injection E as ->; by apply (H r _ Hr')|].
    destruct (above_unusable x q c p Hx Hq Hn Hu); [|done]. destruct Hab as (c' & Hq' & Hac).
    exists c'. split; [done|]. by apply (ancestor_chain _ (so_wf x Hx) p bp r _ q _ Hp Hr' Har).
  - destruct (shape_lookup _ (s_index x') r b Hs Hr) as [s Hr']. rewrite Hs in Har, Hoff.
    destruct (H r _ Hr' Har Hoff) as [Hfb Hdb]. destruct (Hf r _ _ Hr Hr') as [Hfm Hdm].
    split; [|congruence]. destruct (failed b); [|done]. by rewrite Hfm in Hfb.
Qed.

(** Entries above [q] were flagged or left the candidates. *)
Record chipped (x0 : selection) (q : Z) (x : selection) : Prop := {
  ch_shape : same_shape (s_index x0) (s_index x);
  ch_fails : fails_more (s_index x0) (s_index x);
  ch_active : s_active x = s_active x0;
  ch_invalid : s_best_invalid x = s_best_invalid x0;
  ch_index r b : s_index x0 !! r = Some b → s_index x !! r = Some b ∨ above x0 q r;
  ch_sub r : r ∈ s_candidates x → r ∈ s_candidates x0;
  ch_drop r : r ∈ s_candidates x0 → r ∉ s_candidates x → above x0 q r
}.

Lemma chipped_refl x q : chipped x q x.
Proof. split; (done || apply fails_more_refl || auto). Qed.

Lemma chipped_kept x0 x q c :
  sel_ok x0 → s_index x0 !! q = Some c → ¬ on_chain (s_index x0) (active_tip x0) q → ¬ usable c → chipped x0 q x → kept x0 x.
Proof. intros Hx Hq Hn Hu []. by apply (kept_above x0 x q c). Qed.

Lemma chipped_erase x0 q x p : chipped x0 q x → above x0 q p → chipped x0 q (set_candidates (s_candidates x ∖ {[ p ]}) x).
Proof.
  intros [H1 H2 H3 H4 H5 H6 H7] Hp. split; cbn; try done.
  - intros r [Hr _]%elem_of_difference. by apply H6.
  - intros r Hr Hn. destruct (decide (r = p)) as [->|Hne]; [done|]. apply H7; [done|].
    intros Hr'. apply Hn. apply elem_of_difference. split; [done|]. by intros ->%elem_of_singleton.
Qed.

Lemma add_status_ok bits p x b :
  s_index x !! p = Some b →
  add_status bits p x = Ok (set_index (<[p := set_nStatus (Z.lor (nStatus b) bits) b]> (s_index x)) x).
Proof. intros Hp. unfold add_status. by rewrite (deref_some _ p b). Qed.

Lemma chipped_flag x0 q x p b :
  chipped x0 q x → above x0 q p → s_index x !! p = Some b →
  chipped x0 q (set_index (<[p := set_nStatus (Z.lor (nStatus b) BLOCK_FAILED_CHILD) b]> (s_index x)) x).
Proof.
  intros [H1 H2 H3 H4 H5 H6 H7] Hp Hb. split; cbn [s_index s_active s_candidates s_best_invalid set_index]; try done.
  - etransitivity; [done|]. by eapply shape_insert.
  - apply (fails_more_trans _ (s_index x)); [done..|]. intros r d d' Hr Hr'.
    destruct (decide (r = p)) as [->|Hne].
    + rewrite lookup_insert_eq in Hr'. simplify_eq. unfold failed, have_data. cbn [nStatus set_nStatus].
      rewrite !flag_lor. change (flag BLOCK_FAILED_CHILD BLOCK_FAILED_MASK) with true.
      change (flag BLOCK_FAILED_CHILD BLOCK_HAVE_DATA) with false. by rewrite orb_true_r, orb_false_r.
    + rewrite lookup_insert_ne in Hr' by done. by simplify_eq.
  - intros r d Hr. destruct (decide (r = p)) as [->|Hne]; [by right|]. rewrite lookup_insert_ne by done. by apply H5.
Qed.

Lemma chipped_unlinked x0 q x u : chipped x0 q x → chipped x0 q (set_unlinked u x).
Proof. intros []. by split. Qed.

Lemma remove_chain_spec x0 fuel x f q c p b :
  sel_ok x0 → s_index x0 !! q = Some c → s_index x0 !! p = Some b → ancestor (s_index x0) p (nHeight c) = Some q →
  nHeight b - nHeight c ≤ Z.of_nat fuel → chipped x0 q x →
  ∃ x', remove_chain fuel x f q (Some p) = Ok x' ∧ chipped x0 q x' ∧ s_candidates x' ⊆ s_candidates x ∧
    (p ≠ q → p ∉ s_candidates x').
Proof.
  intros H0 Hq. pose proof (so_wf x0 H0) as Hwf. revert x p b.
  induction fuel as [|fuel IH]; intros x p b Hp Ha Hf Hch; cbn [remove_chain];
    (destruct (Z.eqb_spec p q) as [->|Hne]; [by exists x|]);
    (destruct (ancestor_cases _ Hwf p b _ q Hp Ha) as [[_ ?]|(r & Hr & Har)]; [congruence|]);
    destruct (wf_pprev _ Hwf p b r Hp Hr) as (d & Hd & Hh); destruct (ancestor_some _ Hwf r d _ q Hd Har) as [Hle _];
    [lia|].
  assert (above x0 q p) as Hab by (by exists c).
  destruct (shape_lookup _ _ p b (ch_shape _ _ _ Hch) Hp) as [s Hs].
  rewrite (deref_some _ p _ Hs). cbn [mbind outcome_bind pprev with_core]. rewrite Hr.
  assert (∃ x1, (if f then add_status BLOCK_FAILED_CHILD p x else Ok (set_unlinked (s_unlinked x ++ [(r, p)]) x)) = Ok x1 ∧
    chipped x0 q x1 ∧ s_candidates x1 = s_candidates x) as (x1 & -> & Hch1 & Hc1).
  { destruct f; [|eexists; split_and!; [done|by apply chipped_unlinked|done]].
    rewrite (add_status_ok _ p x _ Hs). eexists. split_and!; [done|by apply chipped_flag|done]. }
  cbn [mbind outcome_bind]. destruct (IH (set_candidates (s_candidates x1 ∖ {[ p ]}) x1) r d Hd Har) as (x' & -> & Hch' & Hsub & _);
    [lia|by apply chipped_erase|].
  exists x'. split_and!; [done..| |].
  - intros t Ht%Hsub. cbn in Ht. rewrite <- Hc1. set_solver.
  - intros _ Hin%Hsub. cbn in Hin. set_solver.
Qed.

(** ** The best usable candidate *)

Lemma note_invalid_spec p x :
  sel_ok x → is_Some (s_index x !! p) →
  ∃ o, note_invalid p x = Ok (set_best_invalid o x) ∧ ∀ q, o = Some q → is_Some (s_index x !! q).
Proof.
  intros Hx [b Hp]. unfold note_invalid. destruct (s_best_invalid x) as [q|] eqn:Eq.
  - destruct (so_invalid x Hx q Eq) as [c Hc]. rewrite (more_work_ok _ p q b c (so_works x Hx) Hp Hc). cbn [mbind outcome_bind].
    destruct (work c <? work b); [exists (Some p)|exists (Some q)]; (split; [|by intros ? [= <-]; eauto]); [done|].
    f_equal. destruct x. cbn in *. by subst.
  - exists (Some p). split; [done|]. intros ? [= <-]. by exists b.
Qed.

Lemma kept_invalid o x : kept x (set_best_invalid o x).
Proof. split; first [done|apply fails_more_refl|by intros p Hp []|by intros; unfold path_usable]. Qed.

(** One round: the best candidate is not usable, and leaves. *)
Lemma drop_candidate x p f q c :
  sel_ok x → p ∈ s_candidates x → s_index x !! q = Some c → ancestor (s_index x) p (nHeight c) = Some q →
  ¬ on_chain (s_index x) (active_tip x) q → ¬ usable c →
  ∃ x1 x2, (if f : bool then note_invalid p x else Ok x) = Ok x1 ∧
    remove_chain (height_of x1 p) x1 f q (Some p) = Ok x2 ∧
    let x3 := set_candidates (s_candidates x2 ∖ {[ q ]}) x2 in
    kept x x3 ∧ sel_ok x3 ∧ s_candidates x3 ⊆ s_candidates x ∖ {[ p ]}.
Proof.
  intros Hx Hp Hq Ha Hoff Hu. destruct (so_cand x Hx p Hp) as [b Hb].
  destruct (note_invalid_spec p x Hx ltac:(by exists b)) as (o & Hn & Ho).
  assert (∃ x1, (if f then note_invalid p x else Ok x) = Ok x1 ∧ kept x x1 ∧ sel_ok x1 ∧ s_candidates x1 = s_candidates x ∧
    s_index x1 = s_index x) as (x1 & E1 & K1 & Hx1 & Ec1 & Ei1).
  { destruct f; [|exists x; split_and!; done]. exists (set_best_invalid o x). split_and!; try done; [apply kept_invalid|].
    apply (kept_ok x); [apply kept_invalid|done|done]. }
  assert (active_tip x1 = active_tip x) as Et by (by apply active_tip_eq, K1).
  destruct (remove_chain_spec x1 (height_of x1 p) x1 f q c p b) as (x2 & E2 & Hch & Hsub & Hnp);
    [done|by rewrite Ei1..| |apply chipped_refl|].
  { unfold height_of. rewrite Ei1, Hb. pose proof (wf_height _ (so_wf x Hx) q c Hq).
    pose proof (wf_height _ (so_wf x Hx) p b Hb). lia. }
  exists x1, x2. split_and!; [done..|]. cbn zeta. set (x3 := set_candidates _ x2).
  assert (chipped x1 q x3) as Hch3.
  { apply chipped_erase; [done|]. exists c. rewrite Ei1. split; [done|]. by apply ancestor_self, Hq; apply Hx. }
  assert (kept x1 x3) as K3.
  { apply (chipped_kept x1 x3 q c); [done|by rewrite Ei1| |done|done]. by rewrite Ei1, Et. }
  split_and!.
  - by transitivity x1.
  - apply (kept_ok x1); [done..|]. intros r Hr. apply (so_invalid x1 Hx1). by rewrite <- (ch_invalid _ _ _ Hch3).
  - intros r Hr. cbn in Hr. apply elem_of_difference in Hr as [Hr Hrq]. rewrite <- Ec1. apply elem_of_difference.
    split; [by apply Hsub|]. intros ->%elem_of_singleton. destruct (decide (p = q)) as [->|Hne].
    + by apply Hrq, elem_of_singleton.
    + by apply Hnp.
Qed.

Definition best_usable addr (x : selection) (r : option Z) : Prop :=
  match r with
  | None => s_candidates x = ∅
  | Some p => p ∈ s_candidates x ∧ path_usable x p ∧ ∀ q, q ∈ s_candidates x → work_less addr (s_index x) p q = false
  end.

Lemma best_candidate_spec addr x :
  sel_ok x →
  match best_candidate addr x with
  | None => s_candidates x = ∅
  | Some p => p ∈ s_candidates x ∧ ∀ q, q ∈ s_candidates x → work_less addr (s_index x) p q = false
  end.
Proof.
  intros Hx. unfold best_candidate.
  pose proof (best_of_spec addr (s_index x) (elements (s_candidates x)) (so_works x Hx)) as H.
  destruct (best_of _ _ _) as [p|].
  - destruct H as [Hp H]; [by intros q Hq%elem_of_elements; apply Hx|]. apply elem_of_elements in Hp. split; [done|].
    intros q Hq. by apply H, elem_of_elements.
  - apply leibniz_equiv, elements_empty_iff, H. by intros q Hq%elem_of_elements; apply Hx.
Qed.

Lemma FindMostWorkChain_loop_spec addr fuel x :
  sel_ok x → (size (s_candidates x) ≤ fuel)%nat →
  ∃ r x', FindMostWorkChain_loop addr fuel x = Ok (r, x') ∧ kept x x' ∧ sel_ok x' ∧ best_usable addr x' r.
Proof.
  revert x. induction fuel as [|fuel IH]; intros x Hx Hf; cbn [FindMostWorkChain_loop];
    pose proof (best_candidate_spec addr x Hx) as Hb; destruct (best_candidate addr x) as [p|];
    try (by exists None, x).
  all: destruct Hb as [Hp Hb]; destruct (so_cand x Hx p Hp) as [b Hpb].
  { assert (s_candidates x ≡ ∅) by (apply size_empty_inv; lia). set_solver. }
  destruct (check_path_spec x (S (height_of x p)) p b Hx Hpb) as (found & -> & Hfound).
  { unfold height_of. rewrite Hpb. pose proof (wf_height _ (so_wf x Hx) p b Hpb). lia. }
  { intros q c Hq Ha. by apply (so_tx x Hx p q). }
  cbn [mbind outcome_bind]. destruct found as [[f q]|]; [|by exists (Some p), x].
  destruct Hfound as (c & Hq & Ha & Hoff & Hu & ->).
  destruct (drop_candidate x p (failed c) q c) as (x1 & x2 & -> & E2 & K & Hx3 & Hsub); [done..|].
  cbn [mbind outcome_bind]. rewrite E2. cbn [mbind outcome_bind].
  destruct (IH _ Hx3) as (r & x' & -> & K' & Hx' & Hr).
  { apply subseteq_size in Hsub. rewrite size_difference, size_singleton in Hsub by set_solver. 
    assert (size (s_candidates x) ≠ 0%nat) by (intros ?%size_empty_inv; set_solver). lia. }
  exists r, x'. split_and!; [done| |done|done]. by etransitivity.
Qed.

Lemma FindMostWorkChain_ok addr x :
  sel_ok x → ∃ r x', FindMostWorkChain addr x = Ok (r, x') ∧ kept x x' ∧ sel_ok x' ∧ best_usable addr x' r.
Proof. intros Hx. by apply FindMostWorkChain_loop_spec. Qed.

(** ** Deciding the invariant of a concrete index *)

Definition entry_wf (m : block_index) (b : CBlockIndex) : bool :=
  (0 <=? nHeight b) &&
  match pprev b with
  | None => nHeight b =? 0
  | Some q =>
      match m !! q with
      | Some c => (nHeight b =? nHeight c + 1) && bool_decide (pskip b = ancestor m q (GetSkipHeight (nHeight b)))
      | None => false
      end
  end.
Definition index_check (m : block_index) : bool := bool_decide (map_Forall (λ _ b, entry_wf m b = true) m).

Lemma index_check_wf m : index_check m = true → index_wf m.
Proof.
  intros H%bool_decide_eq_true.
  assert (∀ p b, m !! p = Some b → entry_wf m b = true) as Hb by (intros p b Hp; apply (H p b Hp)). clear H.
  split; intros p b; [..|intros q|intros q]; intros Hp; specialize (Hb p b Hp); unfold entry_wf in Hb;
    apply andb_true_iff in Hb as [H1%Z.leb_le H2]; [lia|intros Hq; rewrite Hq in H2; lia|..];
    intros Hq; rewrite Hq in H2; destruct (m !! q) as [c|]; try discriminate;
    apply andb_true_iff in H2 as [H2%Z.eqb_eq H3%bool_decide_eq_true]; [by exists c|done].
Qed.

Definition select_check (x : selection) : bool :=
  index_check (s_index x) &&
  bool_decide (map_Forall (λ _ b, length (nChainWork b) = 8%nat ∧ Forall (λ l, 0 ≤ l < LIMB) (nChainWork b)) (s_index x)) &&
  bool_decide (set_Forall (λ p, is_Some (s_index x !! p)) (s_candidates x)) &&
  bool_decide (set_Forall (λ p, map_Forall (λ q b, bool_decide (ancestor (s_index x) p (nHeight b) = Some q) = true →
    negb (nChainTx b =? 0) || (nHeight b =? 0) = true) (s_index x)) (s_candidates x)) &&
  match s_best_invalid x with Some q => bool_decide (is_Some (s_index x !! q)) | None => true end.

Lemma select_check_ok x :
  select_check x = true → chain_ok (s_index x) (s_active x) (active_tip x) → sel_ok x.
Proof.
  unfold select_check. rewrite !andb_true_iff. intros [[[[H1 H2] H3] H4] H5] Hc.
  apply bool_decide_eq_true in H2, H3, H4. split; [by apply index_check_wf| |done|done| |].
  - intros p b Hp. by destruct (H2 p b Hp).
  - intros p q b Hp Hq Ha. pose proof (H4 p Hp q b Hq) as H. specialize (H (bool_decide_eq_true_2 _ Ha)).
    apply orb_true_iff in H as [H|H]; [left|right]; lia.
  - intros q Hq. rewrite Hq in H5. by apply bool_decide_eq_true in H5.
Qed.

(** Two branches above block 1: block 2 is the tip, block 4 has failed and block 5
    has more work than the tip. *)
Module SelectDemo.
Definition node (prev skip : option Z) (h work status : Z) : CBlockIndex :=
  index_entry prev skip h [] (work :: replicate 7 0) (h + 1) status 0 0 3 0 0.
Definition good : Z := Z.lor BLOCK_VALID_SCRIPTS BLOCK_HAVE_DATA.
Definition index : block_index :=
  list_to_map [(0, node None None 0 1 good); (1, node (Some 0) (Some 0) 1 2 good); (2, node (Some 1) (Some 0) 2 3 good);
    (3, node (Some 1) (Some 0) 2 3 good); (4, node (Some 3) (Some 1) 3 9 (Z.lor good BLOCK_FAILED_VALID)); (5, node (Some 3) (Some 1) 3 4 good)].
Definition start : selection := Selection index [Some 0; Some 1; Some 2] {[ 2; 4; 5 ]} [] None 6.
Lemma start_ok : sel_ok start.
Proof.
  apply select_check_ok; [by vm_compute|]. change (active_tip start) with (Some 2).
  exists (node (Some 1) (Some 0) 2 3 good). split_and!; [done..|]. cbn [nHeight node index_entry].
  intros k Hk. assert (k = 0 ∨ k = 1 ∨ k = 2) as [Hk0|[Hk0|Hk0]] by lia; subst k; by vm_compute.
Qed.
End SelectDemo.

(** ** Properties *)

(** [FindMostWorkChain] always returns.  A block it returns is the greatest, in
    the order of the set, of the candidates whose path down to the active chain has
    neither a failed block nor one without data; it returns [NULL] only when no
    candidate is usable.  It keeps the active chain, every usable candidate and every
    entry but its flags of failure, and so the invariant. *)
Theorem FindMostWorkChain_best addr x :
  sel_ok x →
  ∃ r x', FindMostWorkChain addr x = Ok (r, x') ∧ sel_ok x' ∧
    s_active x' = s_active x ∧ same_shape (s_index x) (s_index x') ∧
    (∀ q, q ∈ s_candidates x → path_usable x q → q ∈ s_candidates x') ∧
    match r with
    | Some p => p ∈ s_candidates x ∧ path_usable x p ∧
        ∀ q, q ∈ s_candidates x → path_usable x q → work_less addr (s_index x) p q = false
    | None => ∀ q, q ∈ s_candidates x → ¬ path_usable x q
    end.
Proof.
  intros Hx. destruct (FindMostWorkChain_ok addr x Hx) as (r & x' & E & K & Hx' & Hr). exists r, x'.
  assert (∀ q, q ∈ s_candidates x → path_usable x q → q ∈ s_candidates x') as Hk.
  { intros q Hq Hu. destruct (decide (q ∈ s_candidates x')); [done|]. by destruct (k_drop _ _ K q). }
  split_and!; [done|done|apply K|apply K|done|]. destruct r as [p|].
  - destruct Hr as (Hp & Hu & Hb). apply (k_sub _ _ K) in Hp. split_and!; [done| |].
    + apply (k_path _ _ K); [by apply so_cand|done].
    + intros q Hq Hqu. rewrite (k_shape _ _ K). by apply Hb, Hk.
  - intros q Hq Hu%Hk; [|done]. unfold best_usable in Hr. set_solver.
Qed.

Lemma FindMostWorkChain_best_witness :
  ∃ r x', FindMostWorkChain id SelectDemo.start = Ok (r, x') ∧ r = Some 5 ∧ s_candidates x' = {[ 2; 5 ]} ∧ sel_ok x'.
Proof.
  destruct (FindMostWorkChain_best id SelectDemo.start SelectDemo.start_ok) as (r & x' & E & H & _).
  exists r, x'. split; [exact E|].
  assert (∀ y, FindMostWorkChain id SelectDemo.start = Ok y → y.1 = Some 5 ∧ s_candidates y.2 = {[ 2; 5 ]}) as Hv.
  { intros y Hy. vm_compute in Hy. injection Hy as <-. split; by vm_compute. }
  destruct (Hv _ E). done.
Defined.
