(* ===== verification/ActivateChain.v ===== *)
(** * Activating the best chain (main.cpp: ActivateBestChain, InvalidateBlock)

    The loops that disconnect blocks down to the fork and connect the blocks of the
    best chain, until the tip is the best candidate, and the manual invalidation and
    reconsideration of a block.  Connecting and disconnecting one block is the
    interface [TipOps]: the theorems about the loops hold for every implementation
    with its laws. *)
From stdpp Require Import base tactics list gmap numbers option.
From Stdlib Require Import ZArith Lia.
From S2P Require Import Prelude.
From S2P Require Import Chain.
From S2P Require Import ChainSelect.

(** ** The interface to connecting and disconnecting a block *)

(** How [ConnectTip] ends: the block is the new tip, a rule refused it (and it may
    only be a corrupted copy), or the system failed. *)
Inductive tip_result := TipConnected | TipInvalid (corruption : bool) | TipError.

(** Index updates that keep what the choice reads and the failure and data flags. *)
Definition index_same (m m' : block_index) : Prop :=
  same_shape m m' ∧
  ∀ p b b', m !! p = Some b → m' !! p = Some b' → failed b' = failed b ∧ have_data b' = have_data b.

(** A node's state [St] with a selection inside.  [tip_disconnect] is [DisconnectTip]
    and [tip_connect] is [ConnectTip], of a block given or to be read. *)
Class TipOps (St B : Type) := {
  sel : St → selection;
  with_sel : selection → St → St;
  tip_addr : Z → Z;
  tip_disconnect : St → res (bool * St);
  tip_connect : St → Z → option B → res (tip_result * St);
  sel_with x s : sel (with_sel x s) = x;
  tip_disconnect_spec s p s' :
    active_tip (sel s) = Some p → tip_disconnect s = Ok (true, s') →
    ∃ b v, s_index (sel s) !! p = Some b ∧ SetTip (s_index (sel s)) (s_active (sel s)) (pprev b) = Ok v ∧ sel s' = set_active v (sel s);
  tip_connect_spec s p blk r s' :
    tip_connect s p blk = Ok (r, s') →
    ∃ b, s_index (sel s) !! p = Some b ∧ pprev b = active_tip (sel s) ∧
    match r with
    | TipConnected => ∃ m v, index_same (s_index (sel s)) m ∧ SetTip m (s_active (sel s)) (Some p) = Ok v ∧ sel s' = set_active v (set_index m (sel s))
    | TipInvalid corruption => InvalidBlockFound p corruption (sel s) = Ok (sel s')
    | TipError => True
    end
}.

Section Activate.
Context `{Ops : TipOps St B} (block_hash : B → Z).

Definition lift {A} (f : selection → res (A * selection)) (s : St) : res (A * St) :=
  '(a, x) ← f (sel s); Ok (a, with_sel x s).
Definition lift_ (f : selection → res selection) (s : St) : res St := x ← f (sel s); Ok (with_sel x s).

(** ** ActivateBestChainStep *)

(** Disconnecting down to the fork; [false] is a failure. *)
Fixpoint disconnect_to (fuel : nat) (pindexFork : option Z) (s : St) : res (bool * St) :=
  match active_tip (sel s) with
  | None => Ok (true, s)
  | Some tip =>
      if bool_decide (Some tip = pindexFork) then Ok (true, s) else
      match fuel with
      | O => OutOfFuel
      | S fuel =>
          '(ok, s) ← tip_disconnect s;
          if ok : bool then disconnect_to fuel pindexFork s else Ok (false, s)
      end
  end.

(** The blocks from [pindexIter] down to, but without, the height given. *)
Fixpoint to_connect (fuel : nat) (m : block_index) (nHeight_ : Z) (pindexIter : option Z) : res (list Z) :=
  match pindexIter with
  | None => Ok []
  | Some p =>
      b ← deref m p;
      if nHeight b =? nHeight_ then Ok [] else
      match fuel with O => OutOfFuel | S fuel => l ← to_connect fuel m nHeight_ (pprev b); Ok (p :: l) end
  end.

(** What the loop over the blocks found: go on, stop at a better tip, stop at an
    invalid block, or fail. *)
Inductive progress := GoOn | Better | InvalidFound | Failed.

(** [BOOST_REVERSE_FOREACH]: [blocks] is in the order of connection and [last] is
    [vpindexToConnect.back()], the first of them. *)
Fixpoint connect_list (pindexOldTip : option Z) (pindexMostWork : Z) (pblock : option B) (last : Z) (blocks : list Z) (s : St) : res (progress * St) :=
  match blocks with
  | [] => Ok (GoOn, s)
  | p :: blocks =>
      '(r, s) ← tip_connect s p (if p =? pindexMostWork then pblock else None);
      match r with
      | TipInvalid corruption =>
          s ← (if negb corruption then lift_ (InvalidChainFound last) s else Ok s);
          Ok (InvalidFound, s)
      | TipError => Ok (Failed, s)
      | TipConnected =>
          s ← lift_ (PruneBlockIndexCandidates tip_addr) s;
          match active_tip (sel s), pindexOldTip with
          | Some tip, Some old =>
              more ← more_work (s_index (sel s)) tip old;
              if more : bool then Ok (Better, s) else connect_list pindexOldTip pindexMostWork pblock last blocks s
          | _, None => Ok (Better, s)
          | None, _ => AssertFail
          end
      end
  end.

(** Up to 32 blocks at a time. *)
Fixpoint connect_up (fuel : nat) (pindexOldTip : option Z) (pindexMostWork : Z) (pblock : option B) (nHeight_ : Z) (s : St) : res (bool * St) :=
  b ← deref (s_index (sel s)) pindexMostWork;
  if nHeight_ =? nHeight b then Ok (true, s) else
  let nTargetHeight := Z.min (nHeight_ + 32) (nHeight b) in
  pindexIter ← GetAncestor (s_index (sel s)) pindexMostWork nTargetHeight;
  l ← to_connect (Z.to_nat (nTargetHeight - nHeight_)) (s_index (sel s)) nHeight_ pindexIter;
  '(r, s) ← connect_list pindexOldTip pindexMostWork pblock (default 0 (list.last l)) (rev l) s;
  match r with
  | Failed => Ok (false, s)
  | Better | InvalidFound => Ok (true, s)
  | GoOn => match fuel with O => OutOfFuel | S fuel => connect_up fuel pindexOldTip pindexMostWork pblock nTargetHeight s end
  end.

Definition ActivateBestChainStep (pindexMostWork : Z) (pblock : option B) (s : St) : res (bool * St) :=
  let pindexOldTip := active_tip (sel s) in
  pindexFork ← FindFork (s_index (sel s)) (s_active (sel s)) pindexMostWork;
  '(ok, s) ← disconnect_to (length (s_active (sel s))) pindexFork s;
  if negb ok then Ok (false, s) else
  nHeight_ ← match pindexFork with Some f => b ← deref (s_index (sel s)) f; Ok (nHeight b) | None => Ok (-1) end;
  connect_up (S (height_of (sel s) pindexMostWork)) pindexOldTip pindexMostWork pblock nHeight_ s.

(** [ActivateBestChain] without relay and notifications; [fuel] bounds the rounds. *)
Fixpoint ActivateBestChain_loop (fuel : nat) (pblock : option B) (s : St) : res (bool * St) :=
  '(pindexMostWork, s) ← lift (FindMostWorkChain tip_addr) s;
  match pindexMostWork with
  | None => Ok (true, s)
  | Some p =>
      if bool_decide (Some p = active_tip (sel s)) then Ok (true, s) else
      '(ok, s) ← ActivateBestChainStep p (match pblock with Some b => if block_hash b =? p then Some b else None | None => None end) s;
      if negb ok then Ok (false, s) else
      if bool_decide (Some p = active_tip (sel s)) then Ok (true, s) else
      match fuel with O => OutOfFuel | S fuel => ActivateBestChain_loop fuel pblock s end
  end.

(** Every round that does not end either fails a block or gains work. *)
Definition ActivateBestChain (pblock : option B) (s : St) : res (bool * St) :=
  let n := size (s_index (sel s)) in ActivateBestChain_loop ((n + 1) * (n + 1)) pblock s.

(** ** Invalidating and reconsidering blocks *)

Fixpoint invalidate_loop (fuel : nat) (pindex : Z) (s : St) : res (bool * St) :=
  c ← Contains (s_index (sel s)) (s_active (sel s)) pindex;
  if negb c then Ok (true, s) else
  match active_tip (sel s) with
  | None => AssertFail
  | Some pindexWalk =>
      s ← lift_ (add_status BLOCK_FAILED_CHILD pindexWalk) s;
      let s := with_sel (set_candidates (s_candidates (sel s) ∖ {[ pindexWalk ]}) (sel s)) s in
      match fuel with
      | O => OutOfFuel
      | S fuel =>
          '(ok, s) ← tip_disconnect s;
          if ok : bool then invalidate_loop fuel pindex s else Ok (false, s)
      end
  end.

(** An entry that may be a tip: its transactions and its ancestors' are known. *)
Definition may_be_tip (b : CBlockIndex) : res bool :=
  valid ← IsValid BLOCK_VALID_TRANSACTIONS b; Ok (valid && negb (nChainTx b =? 0)).

Fixpoint readd_candidates (l : list Z) (x : selection) : res selection :=
  match l with
  | [] => Ok x
  | p :: l =>
      b ← deref (s_index x) p;
      ok ← may_be_tip b;
      x ← (if ok : bool then
             match active_tip x with
             | None => AssertFail
             | Some tip => Ok (if negb (work_less tip_addr (s_index x) p tip) then set_candidates ({[ p ]} ∪ s_candidates x) x else x)
             end
           else Ok x);
      readd_candidates l x
  end.

Definition InvalidateBlock (pindex : Z) (s : St) : res (bool * St) :=
  s ← lift_ (add_status BLOCK_FAILED_VALID pindex) s;
  let s := with_sel (set_candidates (s_candidates (sel s) ∖ {[ pindex ]}) (sel s)) s in
  '(ok, s) ← invalidate_loop (length (s_active (sel s))) pindex s;
  if negb ok then Ok (false, s) else
  s ← lift_ (λ x, readd_candidates (fst <$> map_to_list (s_index x)) x) s;
  s ← lift_ (InvalidChainFound pindex) s;
  Ok (true, s).

(** [ReconsiderBlock]: the entries are visited in some order, [l]. *)
Fixpoint reconsider_loop (nHeight_ : Z) (pindex : Z) (l : list Z) (x : selection) : res selection :=
  match l with
  | [] => Ok x
  | p :: l =>
      b ← deref (s_index x) p;
      valid ← IsValid BLOCK_VALID_TRANSACTIONS b;
      a ← (if valid : bool then Ok None else GetAncestor (s_index x) p nHeight_);
      x ← (if negb valid && bool_decide (a = Some pindex) then
             let b := set_nStatus (Z.land (nStatus b) (Z.lnot BLOCK_FAILED_MASK)) b in
             let x := set_index (<[p := b]> (s_index x)) x in
             ok ← may_be_tip b;
             x ← (if ok : bool then
                    match active_tip x with
                    | None => AssertFail
                    | Some tip => Ok (if work_less tip_addr (s_index x) tip p then set_candidates ({[ p ]} ∪ s_candidates x) x else x)
                    end
                  else Ok x);
             Ok (if bool_decide (s_best_invalid x = Some p) then set_best_invalid None x else x)
           else Ok x);
      reconsider_loop nHeight_ pindex l x
  end.

Fixpoint clear_ancestors (fuel : nat) (pindex : option Z) (x : selection) : res selection :=
  match pindex with
  | None => Ok x
  | Some p =>
      b ← deref (s_index x) p;
      let x := if flag (nStatus b) BLOCK_FAILED_MASK
               then set_index (<[p := set_nStatus (Z.land (nStatus b) (Z.lnot BLOCK_FAILED_MASK)) b]> (s_index x)) x else x in
      match fuel with O => OutOfFuel | S fuel => clear_ancestors fuel (pprev b) x end
  end.

Definition ReconsiderBlock (pindex : Z) (x : selection) : res selection :=
  b ← deref (s_index x) pindex;
  x ← reconsider_loop (nHeight b) pindex (fst <$> map_to_list (s_index x)) x;
  clear_ancestors (S (Z.to_nat (nHeight b))) (Some pindex) x.
End Activate.

(** ** Chains, links and work *)

Lemma chain_tip m v tip : index_wf m → chain_ok m v tip → mjoin (list.last v) = tip.
Proof.
  intros Hwf. destruct tip as [t|]; cbn [chain_ok]; [|by intros ->]. intros (b & Hb & Hl & Hk).
  pose proof (wf_height m Hwf t b Hb). rewrite list.last_lookup. replace (pred (length v)) with (Z.to_nat (nHeight b)) by lia.
  rewrite Hk by lia. by rewrite (ancestor_self m Hwf t b Hb).
Qed.

Lemma chain_ok_height m v t b : chain_ok m v (Some t) → m !! t = Some b → Z.of_nat (length v) = nHeight b + 1.
Proof. intros (b' & ? & ? & _) Hb. by simplify_eq. Qed.

Lemma index_same_refl m : index_same m m.
Proof. split; [done|]. intros p b b' Hb Hb'. by simplify_eq. Qed.
Lemma index_same_trans m1 m2 m3 : index_same m1 m2 → index_same m2 m3 → index_same m1 m3.
Proof.
  intros [S1 F1] [S2 F2]. split; [by transitivity m2|]. intros p b b' Hb Hb'.
  destruct (shape_lookup m1 m2 p b S1 Hb) as [s Hs]. destruct (F1 p _ _ Hb Hs), (F2 p _ _ Hs Hb'). split; congruence.
Qed.
Lemma index_same_fails m m' : index_same m m' → fails_more m m'.
Proof. intros [_ F] p b b' Hb Hb'. destruct (F p b b' Hb Hb') as [-> ->]. done. Qed.

(** Replacing the index by one of the same shape, and the chain by a chain of it. *)
Lemma sel_ok_chain x m v tip :
  sel_ok x → same_shape (s_index x) m → chain_ok m v tip → sel_ok (set_active v (set_index m x)) ∧ active_tip (set_active v (set_index m x)) = tip.
Proof.
  intros Hx Hs Hv. assert (index_wf m) as Hwf by (rewrite <- Hs; apply Hx).
  assert (active_tip (set_active v (set_index m x)) = tip) as Et by (by apply (chain_tip m)).
  split; [|done]. split; cbn [s_index s_active s_candidates s_best_invalid set_active set_index]; [done| | | | |].
  - eapply works_ok_shape; [done|apply Hx].
  - by rewrite Et.
  - intros p Hp. rewrite <- (shape_is_Some _ _ p Hs). by apply (so_cand x Hx).
  - intros p q b Hp Hq Ha. destruct (shape_lookup _ (s_index x) q b (symmetry Hs) Hq) as [s Hq'].
    apply (so_tx x Hx p q _ Hp Hq'). by rewrite Hs.
  - intros q Hq. rewrite <- (shape_is_Some _ _ q Hs). by apply (so_invalid x Hx).
Qed.

(** A block has more work than its predecessor. *)
Definition growing (m : block_index) : Prop :=
  ∀ p b q c, m !! p = Some b → pprev b = Some q → m !! q = Some c → work c < work b.

Lemma growing_shape m m' : same_shape m m' → growing m → growing m'.
Proof.
  intros Hs Hg p b q c Hp Hq Hc. destruct (shape_lookup m' m p b (symmetry Hs) Hp) as [s Hs'].
  destruct (shape_lookup m' m q c (symmetry Hs) Hc) as [s2 Hs2]. apply (Hg p _ q _ Hs' Hq Hs2).
Qed.

Lemma growing_ancestor m p b q c :
  index_wf m → growing m → m !! p = Some b → m !! q = Some c → ancestor m p (nHeight c) = Some q → p ≠ q → work c < work b.
Proof.
  intros Hwf Hg. remember (Z.to_nat (nHeight b)) as n eqn:En. revert p b En.
  induction n as [n IH] using lt_wf_ind. intros p b -> Hp Hq Ha Hne.
  destruct (ancestor_cases m Hwf p b _ q Hp Ha) as [[_ ?]|(r & Hr & Har)]; [congruence|].
  destruct (wf_pprev m Hwf p b r Hp Hr) as (d & Hd & Hh). pose proof (Hg p b r d Hp Hr Hd).
  destruct (decide (r = q)) as [->|Hrq]; [by simplify_eq|].
  pose proof (wf_height m Hwf r d Hd). enough (work c < work d) by lia.
  eapply (IH (Z.to_nat (nHeight d))); [lia|done..].
Qed.

Lemma ancestor_not_worse addr m p q c :
  index_wf m → works_ok m → growing m → is_Some (m !! p) → m !! q = Some c → ancestor m p (nHeight c) = Some q →
  work_less addr m p q = false.
Proof.
  intros Hwf Hw Hg [b Hp] Hq Ha. apply (work_less_false addr m p q b c); [done..|]. unfold entry_before.
  destruct (decide (p = q)) as [->|Hne]; [simplify_eq; lia|]. pose proof (growing_ancestor m p b q c Hwf Hg Hp Hq Ha Hne). lia.
Qed.

(** The candidates that stay when the set is pruned. *)
Lemma Prune_ok addr x t p :
  active_tip x = Some t → p ∈ s_candidates x → work_less addr (s_index x) p t = false →
  ∃ c, PruneBlockIndexCandidates addr x = Ok (set_candidates c x) ∧ c ⊆ s_candidates x ∧ p ∈ c.
Proof.
  intros Ht Hp Hw. unfold PruneBlockIndexCandidates. rewrite Ht. cbv zeta.
  set (c := filter _ _). assert (p ∈ c) as Hc by (by apply elem_of_filter). exists c.
  rewrite bool_decide_eq_false_2 by (cbn; set_solver). split_and!; [done| |done]. intros q [_ Hq]%elem_of_filter. done.
Qed.

Lemma sel_ok_candidates x c : sel_ok x → c ⊆ s_candidates x → sel_ok (set_candidates c x).
Proof.
  intros Hx Hc. split; cbn [s_index s_active s_candidates s_best_invalid set_candidates]; try apply Hx.
  - intros p Hp%Hc. by apply (so_cand x Hx).
  - intros p q b Hp%Hc. by apply (so_tx x Hx).
Qed.
Lemma sel_ok_invalid x o : sel_ok x → (∀ q, o = Some q → is_Some (s_index x !! q)) → sel_ok (set_best_invalid o x).
Proof. intros Hx Ho. split; try apply Hx. done. Qed.

Lemma sel_ok_active x v tip : sel_ok x → chain_ok (s_index x) v tip → sel_ok (set_active v x) ∧ active_tip (set_active v x) = tip.
Proof. intros Hx Hv. pose proof (sel_ok_chain x (s_index x) v tip Hx (reflexivity _) Hv) as H. by destruct x. Qed.

Lemma sel_ok_index x m : sel_ok x → same_shape (s_index x) m → sel_ok (set_index m x).
Proof.
  intros Hx Hs. destruct (sel_ok_chain x m (s_active x) (active_tip x) Hx Hs) as [H _]; [|by destruct x].
  rewrite <- Hs. apply Hx.
Qed.

Lemma tip_entry x t : sel_ok x → active_tip x = Some t → ∃ b, s_index x !! t = Some b ∧ Z.of_nat (length (s_active x)) = nHeight b + 1.
Proof. intros Hx Ht. pose proof (so_chain x Hx) as Hc. rewrite Ht in Hc. destruct Hc as (b & ? & ? & _). by exists b. Qed.

Lemma InvalidBlockFound_ok q x b x' :
  sel_ok x → s_index x !! q = Some b → InvalidBlockFound q false x = Ok x' →
  is_Some (active_tip x) ∧ sel_ok x' ∧ s_active x' = s_active x ∧ same_shape (s_index x) (s_index x') ∧
  fails_more (s_index x) (s_index x') ∧ s_candidates x' ⊆ s_candidates x ∧
  ∃ b', s_index x' !! q = Some b' ∧ failed b' = true.
Proof.
  intros Hx Hq. unfold InvalidBlockFound. rewrite (add_status_ok _ q x b Hq). cbn [mbind outcome_bind].
  set (b1 := set_nStatus _ b). set (x1 := set_index _ x).
  assert (same_shape (s_index x) (s_index x1)) as Hs1 by (by eapply shape_insert).
  assert (failed b1 = true) as Hf1.
  { unfold failed. cbn [b1 nStatus set_nStatus]. rewrite flag_lor. apply orb_true_r. }
  assert (sel_ok x1) as Hx1 by (by apply sel_ok_index). set (x2 := set_candidates _ x1).
  assert (sel_ok x2) as Hx2 by (apply sel_ok_candidates; [done|]; cbn; set_solver).
  unfold InvalidChainFound. destruct (note_invalid_spec q x2 Hx2) as (o & E & Ho).
  { exists b1. apply lookup_insert_eq. }
  rewrite E. cbn [mbind outcome_bind]. change (active_tip (set_best_invalid o x2)) with (active_tip x).
  destruct (active_tip x) as [t|]; [|discriminate]. intros [= <-]. split_and!; [done|by apply sel_ok_invalid|done|done| |cbn; set_solver|].
  - intros p c c' Hc Hc'. cbn [x2 x1 s_index set_best_invalid set_candidates set_index] in Hc'.
    destruct (decide (p = q)) as [->|Hne].
    + rewrite lookup_insert_eq in Hc'. rewrite Hq in Hc. apply (inj Some) in Hc, Hc'. rewrite <- Hc, <- Hc'.
      split; [done|]. unfold have_data. cbn [b1 nStatus set_nStatus].
      rewrite flag_lor. by rewrite orb_false_r.
    + rewrite lookup_insert_ne in Hc' by done. by simplify_eq.
  - exists b1. split; [apply lookup_insert_eq|done].
Qed.

(** ** One block at a time *)

Section Liveness.
Context {St B : Type} `{Ops : TipOps St B} (block_hash : B → Z).
(** The states in which the system does not fail: blocks can be read, undone and
    written, a block read back is the block that was checked, and the first block of
    a chain is valid. *)
Context (good : St → Prop).
Hypothesis good_with : ∀ s x,
  good s → sel_ok x → same_shape (s_index (sel s)) (s_index x) → s_active x = s_active (sel s) → good (with_sel x s).
Hypothesis good_disconnect : ∀ s p,
  good s → active_tip (sel s) = Some p → ∃ s', tip_disconnect s = Ok (true, s') ∧ good s'.
Hypothesis good_connect : ∀ s p b blk,
  good s → s_index (sel s) !! p = Some b → pprev b = active_tip (sel s) → usable b →
  ∃ r s', tip_connect s p blk = Ok (r, s') ∧ good s' ∧
  match r with TipConnected => True | TipInvalid corruption => corruption = false ∧ is_Some (pprev b) | TipError => False end.

Record st_ok (s : St) : Prop := {
  st_good : good s;
  st_sel : sel_ok (sel s);
  st_growing : growing (s_index (sel s))
}.

Lemma disconnect_step s t b :
  st_ok s → active_tip (sel s) = Some t → s_index (sel s) !! t = Some b →
  ∃ s' v, tip_disconnect s = Ok (true, s') ∧ st_ok s' ∧ sel s' = set_active v (sel s) ∧ active_tip (sel s') = pprev b.
Proof.
  intros [Hg Hs Hgr] Ht Hb. destruct (good_disconnect s t Hg Ht) as (s' & E & Hg').
  destruct (tip_disconnect_spec s t s' Ht E) as (b' & v & Hb' & Hv & Es). simplify_eq.
  assert (chain_ok (s_index (sel s)) v (pprev b)) as Hc.
  { destruct (pprev b) as [q|] eqn:Eq; [|by injection Hv as <-].
    destruct (wf_pprev _ (so_wf _ Hs) t b q Hb Eq) as (c & Hq & _).
    destruct (SetTip_chain _ (so_wf _ Hs) _ _ q c (so_chain _ Hs) Hq) as (v' & Hv' & ?). by simplify_eq. }
  destruct (sel_ok_active (sel s) v (pprev b) Hs Hc) as [Hok Et].
  exists s', v. rewrite Es. split_and!; try done. split; [done|by rewrite Es|by rewrite Es].
Qed.

Lemma disconnect_to_ok fuel s f :
  st_ok s → (∀ p, f = Some p → on_chain (s_index (sel s)) (active_tip (sel s)) p) → (length (s_active (sel s)) ≤ fuel)%nat →
  ∃ s' v, disconnect_to fuel f s = Ok (true, s') ∧ st_ok s' ∧ sel s' = set_active v (sel s) ∧ active_tip (sel s') = f.
Proof.
  revert s. induction fuel as [|fuel IH]; intros s Hs Hf Hl; cbn [disconnect_to];
    (destruct (active_tip (sel s)) as [t|] eqn:Et;
     [|exists s, (s_active (sel s)); split_and!; [done..|by destruct (sel s)|];
       destruct f as [p|]; [by destruct (Hf p eq_refl) as (? & ? & ? & _)|done]]);
    destruct (tip_entry _ t (st_sel s Hs) Et) as (b & Hb & Hlen);
    pose proof (wf_height _ (so_wf _ (st_sel s Hs)) t b Hb); [lia|].
  case_bool_decide as Ef; [exists s, (s_active (sel s)); split_and!; [done..|by destruct (sel s)|by rewrite Et]|].
  destruct (disconnect_step s t b Hs Et Hb) as (s1 & v1 & -> & Hs1 & E1 & Et1). cbn [mbind outcome_bind].
  assert (∀ p, f = Some p → on_chain (s_index (sel s1)) (active_tip (sel s1)) p) as Hf1.
  { intros p Hp. destruct (Hf p Hp) as (t' & c & Ht' & Hc & Ha). injection Ht' as <-.
    destruct (ancestor_cases _ (so_wf _ (st_sel s Hs)) t b _ p Hb Ha) as [[_ ?]|(r & Hr & Har)]; [congruence|].
    exists r, c. rewrite Et1, E1. done. }
  destruct (IH s1 Hs1 Hf1) as (s' & v & -> & Hs' & E' & Et').
  { destruct (pprev b) as [r|] eqn:Er.
    - destruct (tip_entry _ r (st_sel s1 Hs1) Et1) as (c & Hc & Hlen1). rewrite E1 in Hc. cbn in Hc.
      destruct (wf_pprev _ (so_wf _ (st_sel s Hs)) t b r Hb Er) as (c' & Hc' & ?). simplify_eq. lia.
    - pose proof (so_chain _ (st_sel s1 Hs1)) as Hc. rewrite Et1 in Hc. cbn in Hc. rewrite Hc. cbn. lia. }
  exists s', v. split_and!; [done..|by rewrite E', E1|done].
Qed.

Lemma Prune_step s t p :
  st_ok s → active_tip (sel s) = Some t → p ∈ s_candidates (sel s) → work_less tip_addr (s_index (sel s)) p t = false →
  ∃ s' c, lift_ (PruneBlockIndexCandidates tip_addr) s = Ok s' ∧ st_ok s' ∧ sel s' = set_candidates c (sel s) ∧
    c ⊆ s_candidates (sel s) ∧ p ∈ c.
Proof.
  intros [Hg Hs Hgr] Ht Hp Hw. destruct (Prune_ok tip_addr (sel s) t p Ht Hp Hw) as (c & E & Hc & Hpc).
  unfold lift_. rewrite E. cbn [mbind outcome_bind]. eexists _, c. rewrite sel_with. split_and!; [done| |done..].
  pose proof (sel_ok_candidates _ c Hs Hc). split; rewrite ?sel_with; [by apply good_with|done|done].
Qed.

Lemma InvalidChainFound_ok q s :
  st_ok s → is_Some (s_index (sel s) !! q) → is_Some (active_tip (sel s)) →
  ∃ s' o, lift_ (InvalidChainFound q) s = Ok s' ∧ st_ok s' ∧ sel s' = set_best_invalid o (sel s).
Proof.
  intros [Hg Hs Hgr] Hq [t Ht]. destruct (note_invalid_spec q (sel s) Hs Hq) as (o & E & Ho).
  unfold lift_, InvalidChainFound. rewrite E. cbn [mbind outcome_bind]. change (active_tip (set_best_invalid o _)) with (active_tip (sel s)).
  rewrite Ht. cbn [mbind outcome_bind]. eexists _, o. rewrite sel_with. split_and!; [done| |done].
  pose proof (sel_ok_invalid _ o Hs Ho). split; rewrite ?sel_with; [by apply good_with|done|done].
Qed.

Lemma connect_step s p q b blk :
  st_ok s → s_index (sel s) !! q = Some b → pprev b = active_tip (sel s) → usable b →
  p ∈ s_candidates (sel s) → ancestor (s_index (sel s)) p (nHeight b) = Some q →
  ∃ r s', tip_connect s q blk = Ok (r, s') ∧
  match r with
  | TipConnected => ∃ s'', lift_ (PruneBlockIndexCandidates tip_addr) s' = Ok s'' ∧ st_ok s'' ∧
      index_same (s_index (sel s)) (s_index (sel s'')) ∧ active_tip (sel s'') = Some q ∧
      s_candidates (sel s'') ⊆ s_candidates (sel s) ∧ p ∈ s_candidates (sel s'')
  | TipInvalid corruption => corruption = false ∧ is_Some (active_tip (sel s)) ∧ st_ok s' ∧
      same_shape (s_index (sel s)) (s_index (sel s')) ∧ fails_more (s_index (sel s)) (s_index (sel s')) ∧
      active_tip (sel s') = active_tip (sel s) ∧ s_candidates (sel s') ⊆ s_candidates (sel s) ∧
      ∃ b', s_index (sel s') !! q = Some b' ∧ failed b' = true
  | TipError => False
  end.
Proof.
  intros [Hg Hs Hgr] Hq Hprev Hu Hp Ha. destruct (good_connect s q b blk Hg Hq Hprev Hu) as (r & s1 & E & Hg1 & Hr).
  exists r, s1. split; [done|]. destruct (tip_connect_spec s q blk r s1 E) as (b' & Hb' & _ & Hlaw). simplify_eq.
  destruct r as [|corruption|]; [|destruct Hr as [-> Hroot]|done].
  - destruct Hlaw as (m & v & Hm & Hv & Es1).
    assert (chain_ok m v (Some q)) as Hc.
    { destruct (shape_lookup _ m q b (proj1 Hm) Hq) as [d Hd].
      assert (index_wf m) as Hwf by (rewrite <- (proj1 Hm); apply Hs).
      assert (chain_ok m (s_active (sel s)) (active_tip (sel s))) as Hold by (rewrite <- (proj1 Hm); apply Hs).
      destruct (SetTip_chain m Hwf _ _ q _ Hold Hd) as (v' & Hv' & ?). by simplify_eq. }
    destruct (sel_ok_chain (sel s) m v (Some q) Hs (proj1 Hm) Hc) as [Hok Et]. rewrite <- Es1 in Hok, Et.
    assert (st_ok s1) as Hs1. { split; [done..|]. rewrite Es1. apply (growing_shape (s_index (sel s))); [apply Hm|done]. }
    destruct (Prune_step s1 q p Hs1 Et) as (s2 & c & E2 & Hs2 & Es2 & Hsub & Hpc).
    { by rewrite Es1. }
    { rewrite Es1. cbn [s_index set_active set_index]. rewrite <- (proj1 Hm).
      exact (ancestor_not_worse _ _ p q b (so_wf _ Hs) (so_works _ Hs) Hgr (so_cand _ Hs p Hp) Hq Ha). }
    exists s2. split_and!; [done..| | | |].
    + rewrite Es2, Es1. exact Hm.
    + by rewrite Es2.
    + rewrite Es2. intros y Hy%Hsub. by rewrite Es1 in Hy.
    + by rewrite Es2.
  - destruct (InvalidBlockFound_ok q (sel s) b (sel s1) Hs Hq Hlaw) as (H1 & H2 & H3 & H4 & H5 & H6 & H7).
    split_and!; try done; [|by apply active_tip_eq]. split; [done..|]. by apply (growing_shape (s_index (sel s))).
Qed.

(** ** The blocks of one round *)

(** The round began with [x0] and works towards [p]. *)
Definition toward (x0 : selection) (p : Z) (s : St) : Prop :=
  ∀ t, active_tip (sel s) = Some t → ∃ b, s_index x0 !! t = Some b ∧ ancestor (s_index x0) p (nHeight b) = Some t.
Record during (x0 : selection) (p : Z) (s : St) : Prop := {
  du_ok : st_ok s;
  du_same : index_same (s_index x0) (s_index (sel s));
  du_cand : s_candidates (sel s) ⊆ s_candidates x0;
  du_p : p ∈ s_candidates (sel s);
  du_tip : toward x0 p s
}.
Record broken (x0 : selection) (p : Z) (s : St) : Prop := {
  br_ok : st_ok s;
  br_shape : same_shape (s_index x0) (s_index (sel s));
  br_fails : fails_more (s_index x0) (s_index (sel s));
  br_cand : s_candidates (sel s) ⊆ s_candidates x0;
  br_tip : toward x0 p s;
  br_short : active_tip (sel s) ≠ Some p;
  br_new : ∃ q b b', s_index x0 !! q = Some b ∧ failed b = false ∧ s_index (sel s) !! q = Some b' ∧ failed b' = true
}.
Definition gained (x0 : selection) (s : St) : Prop :=
  match active_tip x0 with
  | None => is_Some (active_tip (sel s))
  | Some o => ∃ bo t bt, s_index x0 !! o = Some bo ∧ active_tip (sel s) = Some t ∧ s_index x0 !! t = Some bt ∧ work bo < work bt
  end.

Definition on_way (x0 : selection) (p q : Z) : Prop :=
  ∃ b, s_index x0 !! q = Some b ∧ usable b ∧ ancestor (s_index x0) p (nHeight b) = Some q.
(** Each block follows the one before it in the list. *)
Fixpoint path_from (m : block_index) (tip : option Z) (l : list Z) : Prop :=
  match l with
  | [] => True
  | q :: l => (∃ b, m !! q = Some b ∧ pprev b = tip) ∧ path_from m (Some q) l
  end.

Lemma more_work_tip x0 s p o q :
  sel_ok x0 → during x0 p s → active_tip x0 = Some o → active_tip (sel s) = Some q →
  ∃ b : bool, more_work (s_index (sel s)) q o = Ok b ∧ (b = true → gained x0 s).
Proof.
  intros Hx [Hs Hsame _ _ Ht] Ho Hq. destruct (tip_entry x0 o Hx Ho) as (bo & Hbo & _).
  destruct (Ht q Hq) as (bq & Hbq & _).
  destruct (shape_lookup _ _ o bo (proj1 Hsame) Hbo) as [d Hd]. destruct (shape_lookup _ _ q bq (proj1 Hsame) Hbq) as [e He].
  rewrite (more_work_ok _ q o _ _ (so_works _ (st_sel s Hs)) He Hd). eexists. split; [done|].
  intros Hw%Z.ltb_lt. unfold gained. rewrite Ho. by exists bo, q, bq.
Qed.

Lemma connect_list_ok x0 p blk last_ l s :
  sel_ok x0 → is_Some (s_index x0 !! last_) → during x0 p s →
  path_from (s_index x0) (active_tip (sel s)) l → Forall (on_way x0 p) l →
  ∃ r s', connect_list (active_tip x0) p blk last_ l s = Ok (r, s') ∧
  match r with
  | GoOn => during x0 p s' ∧ active_tip (sel s') = from_option Some (active_tip (sel s)) (list.last l)
  | Better => during x0 p s' ∧ gained x0 s'
  | InvalidFound => broken x0 p s'
  | Failed => False
  end.
Proof.
  intros Hx Hlast. revert s. induction l as [|q l IH]; intros s Hd Hpath Hway; cbn [connect_list].
  { by exists GoOn, s. }
  apply list.Forall_cons in Hway as [(b & Hq & Hu & Ha) Hway]. destruct Hpath as [(b' & Hq' & Hprev) Hpath].
  assert (b' = b) as -> by congruence.
  destruct Hd as [Hs [Hsh Hfl] Hc Hp Ht]. destruct (shape_lookup _ _ q b Hsh Hq) as [d Hd].
  assert (usable (with_core d b)) as Hu'.
  { destruct (Hfl q _ _ Hq Hd) as [E1 E2]. unfold usable. by rewrite E1, E2. }
  destruct (connect_step s p q _ (if q =? p then blk else None) Hs Hd Hprev Hu' Hp) as (r & s1 & -> & Hr); [by rewrite <- Hsh|].
  cbn [mbind outcome_bind]. destruct r as [|corruption|]; [| |destruct Hr].
  - destruct Hr as (s2 & -> & Hs2 & Hm2 & Et2 & Hc2 & Hp2). cbn [mbind outcome_bind]. rewrite Et2.
    assert (during x0 p s2) as Hd2.
    { split; [done|by eapply index_same_trans|set_solver|done|]. intros t Ht2. rewrite Et2 in Ht2. injection Ht2 as <-. by exists b. }
    destruct (active_tip x0) as [o|] eqn:Eo.
    2: { exists Better, s2. split_and!; [done..|]. unfold gained. by rewrite Eo, Et2. }
    destruct (more_work_tip x0 s2 p o q Hx Hd2 Eo Et2) as (m & -> & Hm). cbn [mbind outcome_bind].
    destruct m; [exists Better, s2; split_and!; auto|].
    destruct (IH s2 Hd2) as (r & s' & -> & Hr); [by rewrite Et2|done|]. exists r, s'. split; [done|].
    destruct r; [|exact Hr..]. destruct Hr as [? ->]. split; [done|]. rewrite Et2, list.last_cons. by destruct (list.last l).
  - destruct Hr as (-> & [t Htip] & Hs1 & Hsh1 & Hf1 & Et1 & Hc1 & (b1 & Hb1 & Hfb1)). cbn [negb].
    assert (same_shape (s_index x0) (s_index (sel s1))) as Hsh' by (by transitivity (s_index (sel s))).
    destruct (InvalidChainFound_ok last_ s1 Hs1) as (s2 & o & -> & Hs2 & E2).
    { by rewrite <- (shape_is_Some _ _ last_ Hsh'). } { rewrite Et1, Htip. by eexists. }
    cbn [mbind outcome_bind]. exists InvalidFound, s2. split; [done|].
    assert (fails_more (s_index x0) (s_index (sel s1))) as Hf.
    { apply (fails_more_trans _ (s_index (sel s))); [done| |done]. by apply index_same_fails. }
    split; rewrite ?E2; try done.
    + cbn. set_solver.
    + intros u Hu2. rewrite E2 in Hu2. apply Ht. rewrite <- Et1. exact Hu2.
    + change (active_tip (sel s1) ≠ Some p). rewrite Et1, <- Hprev. intros Hbp.
      destruct (wf_pprev _ (so_wf _ Hx) q b p Hq Hbp) as (c & Hpc & Hh).
      destruct (ancestor_some _ (so_wf _ Hx) p c _ q Hpc Ha) as [? _]. lia.
    + exists q, b, b1. split_and!; try done. by destruct Hu.
Qed.

(** ** The list of blocks to connect *)

Lemma path_from_app m tip l q b :
  path_from m tip l → m !! q = Some b → pprev b = from_option Some tip (list.last l) → path_from m tip (l ++ [q]).
Proof.
  revert tip. induction l as [|r l IH]; intros tip; cbn [path_from app].
  - intros _ Hq Hb. split; [by exists b|done].
  - intros [Hr Hp] Hq Hb. split; [done|]. apply IH; [done..|]. rewrite Hb, list.last_cons. by destruct (list.last l).
Qed.
Lemma path_from_shape m m' tip l : same_shape m m' → path_from m tip l → path_from m' tip l.
Proof.
  intros Hs. revert tip. induction l as [|q l IH]; intros tip; [done|]. intros [(b & Hb & Hp) Hl]. split; [|by apply IH].
  destruct (shape_lookup m m' q b Hs Hb) as [s Hs']. by exists (with_core s b).
Qed.

Lemma to_connect_spec fuel m h q c :
  index_wf m → m !! q = Some c → -1 ≤ h ≤ nHeight c → nHeight c - h ≤ Z.of_nat fuel →
  ∃ l, to_connect fuel m h (Some q) = Ok l ∧ path_from m (ancestor m q h) (rev l) ∧
    from_option Some (ancestor m q h) (list.last (rev l)) = Some q ∧ (h < nHeight c → l ≠ []) ∧
    Forall (λ r, ∃ d, m !! r = Some d ∧ h < nHeight d ∧ ancestor m q (nHeight d) = Some r) l.
Proof.
  intros Hwf. revert q c. induction fuel as [|fuel IH]; intros q c Hq Hh Hf; cbn [to_connect];
    rewrite (deref_some m q c Hq); cbn [mbind outcome_bind]; destruct (Z.eqb_spec (nHeight c) h) as [<-|Hne];
    try (exists []; split_and!; [done..|by apply ancestor_self|lia|done]); [lia|].
  pose proof (ancestor_self m Hwf q c Hq) as Hself. pose proof (wf_height m Hwf q c Hq).
  destruct (pprev c) as [r|] eqn:Er.
  - destruct (wf_pprev m Hwf q c r Hq Er) as (d & Hd & Hhd). pose proof (wf_height m Hwf r d Hd).
    destruct (IH r d Hd) as (l & -> & Hpath & Hlast & _ & Hall); [lia..|]. cbn [mbind outcome_bind].
    assert (ancestor m r h = ancestor m q h) as Ea.
    { apply (ancestor_trans m Hwf q c (nHeight c - 1)); [done|by apply ancestor_pprev|lia]. }
    rewrite Ea in Hpath, Hlast. exists (q :: l). cbn [rev]. split_and!; [done|eapply path_from_app; [done..|congruence]| |done|].
    + by rewrite last_snoc.
    + apply list.Forall_cons. split; [exists c; split_and!; [done|lia|done]|]. eapply list.Forall_impl; [done|].
      intros u (e & He & Hhe & Hae). exists e. split_and!; [done..|]. by apply (ancestor_step m Hwf q c r).
  - pose proof (wf_root m Hwf q c Hq Er). exists [q]. assert (h = -1) as -> by lia.
    rewrite (ancestor_out m q c (-1)) by (done || lia).
    split_and!; [by destruct fuel|split; [by exists c|done]|done..|].
    apply list.Forall_singleton. exists c. split_and!; [done|lia|done].
Qed.

Lemma connect_up_ok x0 p b blk fuel h s :
  sel_ok x0 → s_index x0 !! p = Some b → during x0 p s → -1 ≤ h ≤ nHeight b →
  active_tip (sel s) = ancestor (s_index x0) p h →
  (∀ q c, s_index x0 !! q = Some c → h < nHeight c → ancestor (s_index x0) p (nHeight c) = Some q → usable c) →
  nHeight b - h ≤ Z.of_nat fuel →
  ∃ s', connect_up fuel (active_tip x0) p blk h s = Ok (true, s') ∧
    (during x0 p s' ∧ (active_tip (sel s') = Some p ∨ gained x0 s') ∨ broken x0 p s').
Proof.
  intros Hx Hp. pose proof (so_wf x0 Hx) as Hwf. revert h s.
  induction fuel as [|fuel IH]; intros h s Hd Hh Ht Hu Hf; cbn [connect_up];
    destruct (shape_lookup _ _ p b (proj1 (du_same _ _ _ Hd)) Hp) as [d Hpd]; rewrite (deref_some _ p _ Hpd);
    cbn [mbind outcome_bind nHeight with_core]; destruct (Z.eqb_spec h (nHeight b)) as [->|Hne];
    try (exists s; split; [done|]; left; split; [done|]; left; rewrite Ht; by apply ancestor_self); [lia|].
  set (target := Z.min (h + 32) (nHeight b)). pose proof (st_sel s (du_ok _ _ _ Hd)) as Hs.
  pose proof (proj1 (du_same _ _ _ Hd)) as Hsh.
  rewrite (GetAncestor_spec _ (so_wf _ Hs) p _ target Hpd). cbn [mbind outcome_bind].
  destruct (ancestor_ok _ (so_wf _ Hs) p _ target Hpd) as (q & c & Eq & Hq & Hhc); [cbn; lia|].
  destruct (to_connect_spec (Z.to_nat (target - h)) (s_index (sel s)) h q c) as (l & El & Hpath & Hlast & Hne' & Hall);
    [apply Hs|done|lia..|].
  rewrite Eq, El. cbn [mbind outcome_bind].
  assert (ancestor (s_index (sel s)) q h = active_tip (sel s)) as Ea.
  { rewrite Ht, Hsh. apply (ancestor_trans (s_index (sel s)) (so_wf _ Hs) p (with_core d b) target); [done..|lia]. }
  rewrite Ea in Hpath, Hlast.
  assert (Forall (on_way x0 p) (rev l)) as Hway.
  { apply List.Forall_rev. eapply list.Forall_impl; [done|]. intros u (e & He & Hhe & Hae).
    destruct (shape_lookup _ (s_index x0) u e (symmetry Hsh) He) as [e' He'].
    assert (ancestor (s_index x0) p (nHeight e) = Some u) as Hau.
    { rewrite Hsh. apply (ancestor_chain _ (so_wf _ Hs) p (with_core d b) q c); [done..| |done]. by rewrite Hhc. }
    exists (with_core e' e). split_and!; [done| |done]. by apply (Hu u). }
  destruct (list.last l) as [y|] eqn:Ey; [|by apply list.last_None in Ey; destruct (Hne' ltac:(lia))].
  assert (is_Some (s_index x0 !! y)) as Hy.
  { apply list.last_Some_elem_of in Ey. rewrite list.Forall_forall in Hall. destruct (Hall y Ey) as (e & He & _).
    rewrite (shape_is_Some _ _ y Hsh). by exists e. }
  destruct (connect_list_ok x0 p blk y (rev l) s Hx Hy Hd) as (r & s' & E & Hr);
    [by eapply path_from_shape; [symmetry|]|done|].
  cbn [default]. unfold from_option, id in E |- *. rewrite E. cbn [mbind outcome_bind].
  destruct r; [|by exists s'; split; [|left; destruct Hr; split; [|right]]|by exists s'; split; [|right]|destruct Hr].
  destruct Hr as [Hd' Et']. rewrite Hlast in Et'.
  apply (IH target s'); [done|lia| | |lia].
  - rewrite Et', <- Eq. by rewrite Hsh.
  - intros u e He Hhe. apply (Hu u e He). lia.
Qed.

(** ** One round *)

Definition round_end (x0 : selection) (p : Z) (s : St) : Prop :=
  during x0 p s ∧ (active_tip (sel s) = Some p ∨ gained x0 s) ∨ broken x0 p s.

Lemma step_ok p blk s :
  st_ok s → p ∈ s_candidates (sel s) → path_usable (sel s) p →
  ∃ s', ActivateBestChainStep p blk s = Ok (true, s') ∧ round_end (sel s) p s'.
Proof.
  intros Hs Hp Hu. pose proof (st_sel s Hs) as Hx. pose proof (so_wf _ Hx) as Hwf.
  destruct (so_cand _ Hx p Hp) as [b Hb]. pose proof (wf_height _ Hwf p b Hb) as Hh0. unfold ActivateBestChainStep.
  destruct (FindFork_chain _ Hwf (s_active (sel s)) (active_tip (sel s)) p b (so_chain _ Hx) Hb) as (f & -> & Hf).
  cbn [mbind outcome_bind].
  destruct (disconnect_to_ok (length (s_active (sel s))) s f Hs) as (s1 & v & -> & Hs1 & E1 & Et1); [|done|].
  { intros q ->. by destruct Hf. }
  cbn [mbind outcome_bind negb].
  assert (∃ h, match f with Some f => b ← deref (s_index (sel s1)) f; Ok (nHeight b) | None => Ok (-1) end = Ok (E:=unit) h ∧
    -1 ≤ h ≤ nHeight b ∧ active_tip (sel s1) = ancestor (s_index (sel s)) p h ∧
    (∀ q c, s_index (sel s) !! q = Some c → h < nHeight c → ancestor (s_index (sel s)) p (nHeight c) = Some q →
      ¬ on_chain (s_index (sel s)) (active_tip (sel s)) q) ∧ toward (sel s) p s1) as (h & -> & Hh & Eth & Hoff & Htw).
  { rewrite Et1. destruct f as [f|].
    - destruct Hf as (_ & bf & Hbf & Haf & Hmax). exists (nHeight bf). rewrite E1.
      rewrite (deref_some _ f bf) by done. destruct (ancestor_some _ Hwf p b _ f Hb Haf) as [? _]. split_and!; [done|lia|lia|done| |].
      + intros q c Hq Hlt Ha Hon. specialize (Hmax q c Hon Hq Ha). lia.
      + intros t Ht. rewrite Et1 in Ht. injection Ht as <-. by exists bf.
    - exists (-1). rewrite (ancestor_out _ p b) by (done || lia). split_and!; [done|lia|lia|done| |].
      + intros q c Hq _ Ha Hon. by apply (Hf q c).
      + intros t Ht. by rewrite Et1 in Ht. }
  cbn [mbind outcome_bind].
  assert (during (sel s) p s1) as Hd.
  { split; [done|rewrite E1; apply index_same_refl|by rewrite E1|by rewrite E1|done]. }
  destruct (connect_up_ok (sel s) p b blk (S (height_of (sel s1) p)) h s1) as (s' & E & Hr); [done..| | |].
  - intros q c Hq Hlt Ha. by apply (Hu q c Hq Ha), (Hoff q c).
  - unfold height_of. rewrite E1. cbn [s_index set_active]. rewrite Hb. lia.
  - exists s'. split; [exact E|done].
Qed.

(** A failed block that is not on the active chain. *)
Definition shut_out (x : selection) (q : Z) : Prop :=
  ∃ b, s_index x !! q = Some b ∧ failed b = true ∧ ¬ on_chain (s_index x) (active_tip x) q.

Lemma round_end_shape x0 p s : round_end x0 p s →
  st_ok s ∧ same_shape (s_index x0) (s_index (sel s)) ∧ fails_more (s_index x0) (s_index (sel s)) ∧
  s_candidates (sel s) ⊆ s_candidates x0 ∧ toward x0 p s.
Proof.
  intros [[[H1 H2 H3 H4 H5] _]|[H1 H2 H3 H4 H5 _ _]]; split_and!; try done; [apply H2|by apply index_same_fails].
Qed.

Lemma round_shut_out x0 p s q :
  sel_ok x0 → is_Some (s_index x0 !! p) → path_usable x0 p → round_end x0 p s → shut_out x0 q → shut_out (sel s) q.
Proof.
  intros Hx [bp Hp] Hu Hr (b & Hq & Hf & Hoff). destruct (round_end_shape x0 p s Hr) as (_ & Hsh & Hfl & _ & Ht).
  destruct (shape_lookup _ _ q b Hsh Hq) as [d Hd]. exists (with_core d b). split; [done|].
  split; [by apply (Hfl q b _ Hq Hd)|]. intros (t & c & Etip & Hc & Ha). rewrite <- Hsh in Ha.
  rewrite Hc in Hd. injection Hd as ->. cbn [nHeight with_core] in Ha. destruct (Ht t Etip) as (bt & Hbt & Hat).
  assert (ancestor (s_index x0) p (nHeight b) = Some q) as Hpq.
  { by apply (ancestor_chain _ (so_wf _ Hx) p bp t bt). }
  destruct (Hu q b Hq Hpq Hoff). congruence.
Qed.

(** ** Progress *)

Definition sound_at (m : block_index) (p : Z) : Prop := from_option (λ b, negb (failed b)) false (m !! p) = true.
Definition better_at (m : block_index) (t p : Z) : Prop :=
  match m !! t, m !! p with Some a, Some b => work a <? work b | _, _ => false end = true.
#[local] Instance sound_at_dec m p : Decision (sound_at m p).
Proof. unfold sound_at. apply _. Defined.
#[local] Instance better_at_dec m t p : Decision (better_at m t p).
Proof. unfold better_at. apply _. Defined.

(** The blocks that have not failed, and those with more work than the tip. *)
Definition sound_blocks (m : block_index) : gset Z := filter (sound_at m) (dom m).
Definition better_blocks (m : block_index) (tip : option Z) : gset Z :=
  match tip with Some t => filter (better_at m t) (dom m) | None => dom m end.
Definition rank (m : block_index) (tip : option Z) : nat :=
  size (sound_blocks m) * S (size (dom m : gset Z)) + size (better_blocks m tip).

Lemma dom_shape m m' : same_shape m m' → (dom m : gset Z) = dom m'.
Proof. intros Hs. apply set_eq. intros p. rewrite !elem_of_dom. by apply shape_is_Some. Qed.

Lemma sound_sub m m' : same_shape m m' → fails_more m m' → sound_blocks m' ⊆ sound_blocks m.
Proof.
  intros Hs Hf p. unfold sound_blocks. rewrite !elem_of_filter, <- (dom_shape m m' Hs). intros [H Hd]. split; [|done].
  apply elem_of_dom in Hd as [b Hb]. destruct (shape_lookup m m' p b Hs Hb) as [s Hs']. destruct (Hf p _ _ Hb Hs') as [H1 _].
  unfold sound_at in *. rewrite Hs' in H. rewrite Hb. cbn in *. destruct (failed b); [|done]. by rewrite H1 in H by done.
Qed.

Lemma better_shape m m' tip : same_shape m m' → better_blocks m' tip = better_blocks m tip.
Proof.
  intros Hs. unfold better_blocks. rewrite <- (dom_shape m m' Hs). destruct tip as [t|]; [|done]. apply set_eq. intros p.
  rewrite !elem_of_filter.
  assert (∀ m m', same_shape m m' → better_at m t p → better_at m' t p) as H.
  { clear. intros m m' Hs. unfold better_at. destruct (m !! t) as [a|] eqn:Ea; [|done]. destruct (m !! p) as [b|] eqn:Eb; [|done].
    destruct (shape_lookup m m' t a Hs Ea) as [s ->]. by destruct (shape_lookup m m' p b Hs Eb) as [s' ->]. }
  split; intros [? ?]; (split; [eapply H; [|done]; done || by symmetry|done]).
Qed.

Lemma better_bound m tip : (size (better_blocks m tip) ≤ size (dom m : gset Z))%nat.
Proof. apply subseteq_size. destruct tip; [|done]. intros p. by intros [_ ?]%elem_of_filter. Qed.

Lemma rank_mono m m' tip : same_shape m m' → fails_more m m' → (rank m' tip ≤ rank m tip)%nat.
Proof.
  intros Hs Hf. unfold rank. rewrite (better_shape m m' tip Hs), <- (dom_shape m m' Hs).
  pose proof (subseteq_size _ _ (sound_sub m m' Hs Hf)). nia.
Qed.

Lemma rank_broken x0 p s tip tip' : broken x0 p s → (rank (s_index (sel s)) tip' < rank (s_index x0) tip)%nat.
Proof.
  intros [_ Hs Hf _ _ _ (q & b & b' & Hb & Hfb & Hb' & Hfb')]. unfold rank. rewrite <- (dom_shape _ _ Hs).
  pose proof (better_bound (s_index (sel s)) tip') as Hbb. rewrite <- (dom_shape _ _ Hs) in Hbb.
  enough (size (sound_blocks (s_index (sel s))) < size (sound_blocks (s_index x0)))%nat by nia.
  apply subset_size. split; [by apply sound_sub|]. intros Hsub.
  assert (q ∈ sound_blocks (s_index (sel s))) as Hin.
  { apply Hsub, elem_of_filter. split; [unfold sound_at; by rewrite Hb; cbn; rewrite Hfb|]. apply elem_of_dom. by exists b. }
  apply elem_of_filter in Hin as [Hin _]. unfold sound_at in Hin. rewrite Hb' in Hin. cbn in Hin. rewrite Hfb' in Hin. discriminate Hin.
Qed.

Lemma rank_gained x0 p s :
  sel_ok x0 → during x0 p s → gained x0 s → (rank (s_index (sel s)) (active_tip (sel s)) < rank (s_index x0) (active_tip x0))%nat.
Proof.
  intros Hx Hd Hg. pose proof (du_same _ _ _ Hd) as Hsame. pose proof (proj1 Hsame) as Hs.
  pose proof (subseteq_size _ _ (sound_sub _ _ Hs (index_same_fails _ _ Hsame))) as Hsound.
  unfold rank. rewrite <- (dom_shape _ _ Hs), (better_shape _ _ _ Hs).
  enough (size (better_blocks (s_index x0) (active_tip (sel s))) < size (better_blocks (s_index x0) (active_tip x0)))%nat by nia.
  assert (∃ t bt, active_tip (sel s) = Some t ∧ s_index x0 !! t = Some bt) as (t & bt & Et & Hbt).
  { assert (is_Some (active_tip (sel s))) as [t Et].
    { unfold gained in Hg. destruct (active_tip x0); [|done]. destruct Hg as (? & t & ? & _ & -> & _). by exists t. }
    destruct (du_tip _ _ _ Hd t Et) as (bt & ? & _). by exists t, bt. }
  assert (¬ better_at (s_index x0) t t) as Hirr by (unfold better_at; rewrite Hbt, Z.ltb_irrefl; done).
  assert (t ∈ (dom (s_index x0) : gset Z)) as Hdom by (apply elem_of_dom; by exists bt).
  rewrite Et. apply subset_size. unfold gained in Hg. rewrite Et in Hg. cbn [better_blocks].
  destruct (active_tip x0) as [o|]; cbn [better_blocks].
  - destruct Hg as (bo & t' & bt' & Hbo & [= <-] & Hbt' & Hw). assert (bt' = bt) as -> by congruence. split.
    + intros p'. rewrite !elem_of_filter. intros [H Hp']. split; [|done]. unfold better_at in *. rewrite Hbt in H. rewrite Hbo.
      destruct (s_index x0 !! p'); [|done]. lia.
    + intros Hsub. assert (t ∈ filter (better_at (s_index x0) o) (dom (s_index x0))) as Hin.
      { apply elem_of_filter. split; [|done]. unfold better_at. rewrite Hbo, Hbt. lia. }
      apply Hsub, elem_of_filter in Hin as [? _]. done.
  - split; [by intros p' [_ ?]%elem_of_filter|]. intros Hsub. by apply Hsub, elem_of_filter in Hdom as [? _].
Qed.

(** ** All rounds *)

(** The tip is the best candidate, or there is none. *)
Definition settled (x : selection) : Prop :=
  s_candidates x = ∅ ∨
  ∃ p, active_tip x = Some p ∧ p ∈ s_candidates x ∧ ∀ q, q ∈ s_candidates x → work_less tip_addr (s_index x) p q = false.

Lemma settled_sub x x' p :
  same_shape (s_index x) (s_index x') → s_candidates x' ⊆ s_candidates x → p ∈ s_candidates x' → active_tip x' = Some p →
  (∀ q, q ∈ s_candidates x → work_less tip_addr (s_index x) p q = false) → settled x'.
Proof. intros Hs Hc Hp Ht Hb. right. exists p. split_and!; [done..|]. intros q Hq%Hc. rewrite <- Hs. by apply Hb. Qed.

Lemma find_ok s :
  st_ok s → ∃ r s', lift (FindMostWorkChain tip_addr) s = Ok (r, s') ∧ st_ok s' ∧ best_usable tip_addr (sel s') r ∧
    same_shape (s_index (sel s)) (s_index (sel s')) ∧ fails_more (s_index (sel s)) (s_index (sel s')) ∧
    active_tip (sel s') = active_tip (sel s) ∧ ∀ q, shut_out (sel s) q → shut_out (sel s') q.
Proof.
  intros [Hg Hs Hgr]. destruct (FindMostWorkChain_ok tip_addr (sel s) Hs) as (r & x' & E & K & Hx' & Hr).
  unfold lift. rewrite E. cbn [mbind outcome_bind]. exists r, (with_sel x' s). rewrite sel_with.
  pose proof (k_shape _ _ K) as Hsh. pose proof (active_tip_eq _ _ (k_active _ _ K)) as Et. split_and!; [done| |done|done|apply K|done|].
  - split; rewrite ?sel_with; [apply good_with; [done..|apply K]|done|by apply (growing_shape (s_index (sel s)))].
  - intros q (b & Hb & Hf & Hoff). destruct (shape_lookup _ _ q b Hsh Hb) as [d Hd]. exists (with_core d b).
    split; [done|]. split; [by apply (k_fails _ _ K q b _ Hb Hd)|]. by rewrite Et, <- Hsh.
Qed.

Lemma loop_ok fuel blk s :
  st_ok s → (rank (s_index (sel s)) (active_tip (sel s)) ≤ fuel)%nat →
  ∃ s', ActivateBestChain_loop block_hash fuel blk s = Ok (true, s') ∧ st_ok s' ∧ settled (sel s') ∧
    same_shape (s_index (sel s)) (s_index (sel s')) ∧ ∀ q, shut_out (sel s) q → shut_out (sel s') q.
Proof.
  revert s. induction fuel as [|fuel IH]; intros s Hs Hf; cbn [ActivateBestChain_loop];
    destruct (find_ok s Hs) as (r & s1 & -> & Hs1 & Hr & Hsh1 & Hf1 & Et1 & Hout1); cbn [mbind outcome_bind];
    (destruct r as [p|]; [|exists s1; split_and!; [done|done|by left|done|done]]);
    destruct Hr as (Hp & Hu & Hbest);
    (case_bool_decide as Etip; [exists s1; split_and!; [done|done|right; by exists p|done|done]|]);
    set (blk' := match blk with Some b => _ | None => _ end); clearbody blk';
    destruct (step_ok p blk' s1 Hs1 Hp Hu) as (s2 & -> & Hr2); cbn [mbind outcome_bind negb];
    destruct (round_end_shape _ _ _ Hr2) as (Hs2 & Hsh2 & Hfl2 & Hc2 & _);
    assert (same_shape (s_index (sel s)) (s_index (sel s2))) as Hsh by (by etransitivity);
    assert (∀ q, shut_out (sel s) q → shut_out (sel s2) q) as Hout by
      (intros q Hq%Hout1; apply (round_shut_out (sel s1) p); [apply Hs1|by apply (so_cand _ (st_sel s1 Hs1))|done..]);
    (case_bool_decide as Etip2;
     [exists s2; split_and!; try done;
      destruct Hr2 as [[Hd _]|Hb]; [apply (settled_sub (sel s1) _ p); [done|done|apply Hd|done|done]|by destruct (br_short _ _ _ Hb)]|]).
  all: assert (rank (s_index (sel s2)) (active_tip (sel s2)) < rank (s_index (sel s1)) (active_tip (sel s1)))%nat as Hlt by
    (destruct Hr2 as [[Hd [?|Hg]]|Hb]; [congruence|by eapply rank_gained; [apply Hs1|..]|by eapply rank_broken]);
    pose proof (rank_mono _ _ (active_tip (sel s1)) Hsh1 Hf1); rewrite Et1 in *.
  { lia. }
  destruct (IH s2 Hs2) as (s' & -> & Hs' & Hset & Hsh' & Hout'); [lia|]. exists s'.
  split_and!; [done..|by etransitivity|]. intros q Hq. by apply Hout', Hout.
Qed.

Lemma ActivateBestChain_ok blk s :
  st_ok s →
  ∃ s', ActivateBestChain block_hash blk s = Ok (true, s') ∧ st_ok s' ∧ settled (sel s') ∧
    same_shape (s_index (sel s)) (s_index (sel s')) ∧ ∀ q, shut_out (sel s) q → shut_out (sel s') q.
Proof.
  intros Hs. apply loop_ok; [done|]. unfold rank. pose proof (better_bound (s_index (sel s)) (active_tip (sel s))).
  assert (size (sound_blocks (s_index (sel s))) ≤ size (dom (s_index (sel s)) : gset Z))%nat.
  { apply subseteq_size. intros p. by intros [_ ?]%elem_of_filter. }
  rewrite size_dom in *. nia.
Qed.

(** ** Invalidating a block *)

Lemma flag_step bits p s b :
  st_ok s → s_index (sel s) !! p = Some b → flag bits BLOCK_FAILED_MASK = true → flag bits BLOCK_HAVE_DATA = false →
  ∃ s' m c, lift_ (add_status bits p) s = Ok s' ∧
    let s' := with_sel (set_candidates (s_candidates (sel s') ∖ {[ p ]}) (sel s')) s' in
    st_ok s' ∧ sel s' = set_candidates c (set_index m (sel s)) ∧ same_shape (s_index (sel s)) m ∧
    fails_more (s_index (sel s)) m ∧ (∃ b', m !! p = Some b' ∧ failed b' = true).
Proof.
  intros [Hg Hs Hgr] Hp Hb1 Hb2. unfold lift_. rewrite (add_status_ok bits p _ b Hp). cbn [mbind outcome_bind].
  set (m := <[p := _]> _). exists (with_sel (set_index m (sel s)) s), m, (s_candidates (sel s) ∖ {[ p ]}). split; [done|].
  rewrite !sel_with. cbv zeta.
  assert (same_shape (s_index (sel s)) m) as Hsh by (by eapply shape_insert).
  pose proof (sel_ok_index _ m Hs Hsh) as Hx1.
  assert (sel_ok (set_candidates (s_candidates (sel s) ∖ {[ p ]}) (set_index m (sel s)))) as Hx2.
  { apply sel_ok_candidates; [done|]. cbn. set_solver. }
  cbn [s_candidates set_index]. split_and!; [|done|done| |].
  - split; rewrite ?sel_with; [|done|by apply (growing_shape (s_index (sel s)))].
    apply good_with; rewrite ?sel_with; try done. by apply good_with.
  - intros q c c' Hc Hc'. destruct (decide (q = p)) as [->|Hne].
    + unfold m in Hc'. rewrite lookup_insert_eq in Hc'. simplify_eq. unfold failed, have_data. cbn [nStatus set_nStatus].
      by rewrite !flag_lor, Hb1, Hb2, orb_true_r, orb_false_r.
    + unfold m in Hc'. rewrite lookup_insert_ne in Hc' by done. by simplify_eq.
  - eexists. split; [apply lookup_insert_eq|]. unfold failed. cbn [nStatus set_nStatus]. by rewrite flag_lor, Hb1, orb_true_r.
Qed.

Lemma invalidate_loop_ok fuel q b s :
  st_ok s → s_index (sel s) !! q = Some b → is_Some (pprev b) → is_Some (active_tip (sel s)) →
  (length (s_active (sel s)) ≤ fuel)%nat →
  ∃ s', invalidate_loop fuel q s = Ok (true, s') ∧ st_ok s' ∧ same_shape (s_index (sel s)) (s_index (sel s')) ∧
    fails_more (s_index (sel s)) (s_index (sel s')) ∧ is_Some (active_tip (sel s')) ∧
    ¬ on_chain (s_index (sel s')) (active_tip (sel s')) q.
Proof.
  revert b s. induction fuel as [|fuel IH]; intros b s Hs Hq Hb [t Ht] Hl; cbn [invalidate_loop];
    pose proof (st_sel s Hs) as Hx; destruct (tip_entry _ t Hx Ht) as (bt & Hbt & Hlen);
    pose proof (wf_height _ (so_wf _ Hx) t bt Hbt);
    destruct (Contains_spec (s_index (sel s)) (s_active (sel s)) (active_tip (sel s)) q b (so_chain _ Hx) Hq) as (c & -> & Hc);
    cbn [mbind outcome_bind];
    (destruct c; cbn [negb]; [|exists s; split_and!; [done|done|done|apply index_same_fails, index_same_refl|by eexists|by intros ?%Hc]]);
    [lia|].
  rewrite Ht. destruct (flag_step BLOCK_FAILED_CHILD t s bt Hs Hbt) as (s1 & m & cs & -> & Hs2 & E2 & Hsh & Hf & _); [done..|].
  cbn [mbind outcome_bind]. revert Hs2 E2. set (s2 := with_sel _ s1). intros Hs2 E2. clearbody s2.
  destruct (shape_lookup _ m t bt Hsh Hbt) as [d Hd]. destruct (shape_lookup _ m q b Hsh Hq) as [e He].
  destruct (disconnect_step s2 t (with_core d bt) Hs2) as (s3 & v & -> & Hs3 & E3 & Et3); [by rewrite E2..|].
  cbn [mbind outcome_bind]. cbn [pprev with_core] in Et3.
  assert (is_Some (pprev bt)) as [r Hr].
  { destruct (proj1 Hc eq_refl) as (t' & b' & Ht' & Hb' & Ha). assert (t' = t) as -> by congruence.
    destruct (ancestor_cases _ (so_wf _ Hx) t bt _ q Hbt Ha) as [[_ ->]|(r & Hr & _)]; [by simplify_eq|by exists r]. }
  destruct (IH (with_core e b) s3 Hs3) as (s' & -> & Hs' & Hsh' & Hf' & Htip & Hoff).
  - by rewrite E3, E2.
  - done.
  - rewrite Et3, Hr. by eexists.
  - destruct (tip_entry _ r (st_sel s3 Hs3)) as (c3 & Hc3 & Hlen3); [by rewrite Et3|].
    rewrite E3, E2 in Hc3. cbn [s_index set_active set_candidates set_index] in Hc3.
    destruct (wf_pprev _ (so_wf _ Hx) t bt r Hbt Hr) as (cr & Hcr & ?).
    destruct (shape_lookup _ m r cr Hsh Hcr) as [g Hg]. rewrite Hg in Hc3. injection Hc3 as <-. cbn in Hlen3. lia.
  - rewrite E3, E2 in Hsh', Hf'. cbn [s_index set_active set_candidates set_index] in Hsh', Hf'.
    exists s'. split_and!; [done..|by etransitivity| |done|done]. by eapply fails_more_trans.
Qed.

(** Transactions are counted only above predecessors with counted transactions. *)
Definition tx_linked (m : block_index) : Prop :=
  ∀ p b q c, m !! p = Some b → pprev b = Some q → m !! q = Some c → nChainTx b ≠ 0 → nChainTx c ≠ 0.

Lemma tx_linked_shape m m' : same_shape m m' → tx_linked m → tx_linked m'.
Proof.
  intros Hs Hg p b q c Hp Hq Hc. destruct (shape_lookup m' m p b (symmetry Hs) Hp) as [s Hs'].
  destruct (shape_lookup m' m q c (symmetry Hs) Hc) as [s2 Hs2]. apply (Hg p _ q _ Hs' Hq Hs2).
Qed.

Lemma tx_linked_ancestor m p b q c :
  index_wf m → tx_linked m → m !! p = Some b → m !! q = Some c → ancestor m p (nHeight c) = Some q → nChainTx b ≠ 0 → nChainTx c ≠ 0.
Proof.
  intros Hwf Hl. remember (Z.to_nat (nHeight b)) as n eqn:En. revert p b En.
  induction n as [n IH] using lt_wf_ind. intros p b -> Hp Hq Ha Hb.
  destruct (ancestor_cases m Hwf p b _ q Hp Ha) as [[_ ->]|(r & Hr & Har)]; [congruence|].
  destruct (wf_pprev m Hwf p b r Hp Hr) as (d & Hd & Hh). pose proof (Hl p b r d Hp Hr Hd Hb). pose proof (wf_height m Hwf r d Hd).
  eapply (IH (Z.to_nat (nHeight d))); [lia|done..].
Qed.

Lemma may_be_tip_spec b : ∃ ok, may_be_tip b = Ok ok ∧ (ok = true → nChainTx b ≠ 0).
Proof.
  unfold may_be_tip, IsValid. change (flag BLOCK_VALID_TRANSACTIONS (Z.lnot BLOCK_VALID_MASK)) with false.
  destruct (flag _ _); cbn [mbind outcome_bind]; eexists; (split; [done|]); [intros H; discriminate H|]. intros [_ H]%andb_true_iff.
  by apply negb_true_iff, Z.eqb_neq in H.
Qed.

Lemma readd_ok l x :
  sel_ok x → tx_linked (s_index x) → is_Some (active_tip x) → Forall (λ p, is_Some (s_index x !! p)) l →
  ∃ c, readd_candidates l x = Ok (set_candidates c x) ∧ sel_ok (set_candidates c x).
Proof.
  revert x. induction l as [|p l IH]; intros x Hx Htx [t Ht] Hl; cbn [readd_candidates].
  { exists (s_candidates x). by destruct x. }
  apply list.Forall_cons in Hl as [[b Hb] Hl]. rewrite (deref_some _ p b Hb). cbn [mbind outcome_bind].
  destruct (may_be_tip_spec b) as (ok & -> & Hok). cbn [mbind outcome_bind]. rewrite Ht.
  assert (∃ c, (if ok then Ok (if negb (work_less tip_addr (s_index x) p t) then set_candidates ({[ p ]} ∪ s_candidates x) x else x)
                else Ok x) = Ok (E:=unit) (set_candidates c x) ∧ sel_ok (set_candidates c x)) as (c & -> & Hc).
  { assert (sel_ok (set_candidates (s_candidates x) x)) as Hx' by (by destruct x).
    destruct ok; [|exists (s_candidates x); by destruct x]. destruct (negb _); [|exists (s_candidates x); by destruct x].
    eexists. split; [done|]. split; try apply Hx; cbn [s_index s_candidates set_candidates].
    - intros q [->%elem_of_singleton|Hq]%elem_of_union; [by exists b|by apply (so_cand x Hx)].
    - intros q r d [->%elem_of_singleton|Hq]%elem_of_union Hr Ha; [|by apply (so_tx x Hx q r d)].
      left. eapply (tx_linked_ancestor (s_index x)); [apply Hx|done|apply Hb|done|done|by apply Hok]. }
  cbn [mbind outcome_bind]. destruct (IH (set_candidates c x) Hc Htx) as (c' & E & Hc'); [by exists t|done|].
  by exists c'.
Qed.

Lemma InvalidateBlock_ok q b s :
  st_ok s → tx_linked (s_index (sel s)) → s_index (sel s) !! q = Some b → is_Some (pprev b) → is_Some (active_tip (sel s)) →
  ∃ s', InvalidateBlock q s = Ok (true, s') ∧ st_ok s' ∧ shut_out (sel s') q ∧
    same_shape (s_index (sel s)) (s_index (sel s')) ∧ is_Some (active_tip (sel s')).
Proof.
  intros Hs Htx Hq Hb Ht. unfold InvalidateBlock.
  destruct (flag_step BLOCK_FAILED_VALID q s b Hs Hq) as (s1 & m & cs & -> & Hs2 & E2 & Hsh & Hf & (b' & Hb' & Hfb')); [done..|].
  cbn [mbind outcome_bind]. revert Hs2 E2. set (s2 := with_sel _ s1). intros Hs2 E2. clearbody s2.
  destruct (shape_lookup _ m q b Hsh Hq) as [d Hd]. assert (b' = with_core d b) as -> by congruence.
  destruct (invalidate_loop_ok (length (s_active (sel s2))) q (with_core d b) s2 Hs2) as (s3 & -> & Hs3 & Hsh3 & Hf3 & Ht3 & Hoff3);
    [by rewrite E2|done|by rewrite E2|done|].
  cbn [mbind outcome_bind negb]. rewrite E2 in Hsh3, Hf3. cbn [s_index set_candidates set_index] in Hsh3, Hf3.
  assert (same_shape (s_index (sel s)) (s_index (sel s3))) as Hsh3' by (by etransitivity).
  destruct (readd_ok (fst <$> map_to_list (s_index (sel s3))) (sel s3)) as (c & Er & Hc);
    [apply Hs3|by eapply tx_linked_shape|done| |].
  { apply list.Forall_forall. intros p ([p' e] & -> & Hp)%list_elem_of_fmap. apply elem_of_map_to_list in Hp. by exists e. }
  assert (∀ f, f (sel s3) = Ok (set_candidates c (sel s3)) → lift_ f s3 = Ok (with_sel (set_candidates c (sel s3)) s3)) as Hlift.
  { intros f Ef. unfold lift_. by rewrite Ef. }
  rewrite (Hlift (λ x, readd_candidates (fst <$> map_to_list (s_index x)) x) Er). cbn [mbind outcome_bind]. set (s4 := with_sel _ s3).
  assert (sel s4 = set_candidates c (sel s3)) as E4 by apply sel_with.
  assert (st_ok s4) as Hs4. { split; [apply good_with; try done; apply Hs3|by rewrite E4|rewrite E4; apply Hs3]. }
  destruct (InvalidChainFound_ok q s4 Hs4) as (s5 & o & -> & Hs5 & E5).
  { rewrite E4. rewrite <- (shape_is_Some _ _ q Hsh3'). by exists b. } { by rewrite E4. }
  cbn [mbind outcome_bind]. exists s5. rewrite E5, E4. split_and!; try done.
  destruct (shape_lookup _ _ q _ Hsh3 Hd) as [e He]. exists (with_core e (with_core d b)). split_and!; [done| |done].
  by apply (Hf3 q _ _ Hd He).
Qed.

End Liveness.

(** ** The calls that fail

    What the section above assumes of connecting and disconnecting is not assumed of an
    implementation: it is provided.  [guarded] runs on the operations of any
    implementation and, at the first call that fails, notes the call and from there on
    only moves the tip.  Its runs always end; and those that note nothing are runs of the
    implementation itself. *)

(** A call in the state in which it is made. *)
Inductive tip_call (St B : Type) := Disconnecting (s : St) | Connecting (s : St) (p : Z) (blk : option B).
Arguments Disconnecting {St B}.
Arguments Connecting {St B}.

Section Guarded.
Context `{Ops : TipOps St B}.
Notation gstate := (St * option (tip_call St B))%type.

(** The tip is not taken off; or the block, usable and on top of the tip, neither becomes
    the tip nor is refused for good: it cannot be read or written, an assertion fails, or
    it is reported as a corrupted copy. *)
Definition call_fails (c : tip_call St B) : Prop :=
  match c with
  | Disconnecting s => is_Some (active_tip (sel s)) ∧ ∀ s', tip_disconnect s ≠ Ok (true, s')
  | Connecting s p blk =>
      (∃ b, s_index (sel s) !! p = Some b ∧ pprev b = active_tip (sel s) ∧ usable b) ∧
      ∀ s', tip_connect s p blk ≠ Ok (TipConnected, s') ∧ tip_connect s p blk ≠ Ok (TipInvalid false, s')
  end.

Definition only_disconnect (s : St) : res St :=
  match active_tip (sel s) with
  | None => AssertFail
  | Some p => b ← deref (s_index (sel s)) p; v ← SetTip (s_index (sel s)) (s_active (sel s)) (pprev b); Ok (with_sel (set_active v (sel s)) s)
  end.
Definition only_connect (s : St) (p : Z) : res St :=
  b ← deref (s_index (sel s)) p;
  _ ← assert_that (bool_decide (pprev b = active_tip (sel s)));
  v ← SetTip (s_index (sel s)) (s_active (sel s)) (Some p); Ok (with_sel (set_active v (sel s)) s).

Definition guarded_disconnect (x : gstate) : res (bool * gstate) :=
  match x.2, tip_disconnect x.1 with
  | None, Ok (true, s) => Ok (true, (s, None))
  | c, _ => s ← only_disconnect x.1; Ok (true, (s, Some (default (Disconnecting x.1) c)))
  end.
Definition guarded_connect (x : gstate) (p : Z) (blk : option B) : res (tip_result * gstate) :=
  match x.2, tip_connect x.1 p blk with
  | None, Ok (TipConnected, s) => Ok (TipConnected, (s, None))
  | None, Ok (TipInvalid false, s) => Ok (TipInvalid false, (s, None))
  | c, _ => s ← only_connect x.1 p; Ok (TipConnected, (s, Some (default (Connecting x.1 p blk) c)))
  end.

(** The two cases of each call. *)
Lemma guarded_disconnect_cases x ok x' :
  guarded_disconnect x = Ok (ok, x') →
  ok = true ∧ ((x.2 = None ∧ x'.2 = None ∧ tip_disconnect x.1 = Ok (true, x'.1)) ∨
    (only_disconnect x.1 = Ok x'.1 ∧ x'.2 = Some (default (Disconnecting x.1) x.2) ∧ (x.2 = None → ∀ s', tip_disconnect x.1 ≠ Ok (true, s')))).
Proof.
  unfold guarded_disconnect. intros E.
  destruct (x.2) as [c|]; [|destruct (tip_disconnect x.1) as [[[] s]| | |] eqn:Ed].
  2: { injection E as <- <-. split; [done|]. by left. }
  all: apply outcome_bind_ok in E as (s1 & Es & E); injection E as <- <-; (split; [done|]); right; split_and!; [done..|].
  all: intros ? s' ?; congruence.
Qed.
Lemma guarded_connect_cases x p blk r x' :
  guarded_connect x p blk = Ok (r, x') →
  (x.2 = None ∧ x'.2 = None ∧ tip_connect x.1 p blk = Ok (r, x'.1) ∧ (r = TipConnected ∨ r = TipInvalid false)) ∨
  (r = TipConnected ∧ only_connect x.1 p = Ok x'.1 ∧ x'.2 = Some (default (Connecting x.1 p blk) x.2) ∧
    (x.2 = None → ∀ s', tip_connect x.1 p blk ≠ Ok (TipConnected, s') ∧ tip_connect x.1 p blk ≠ Ok (TipInvalid false, s'))).
Proof.
  unfold guarded_connect. intros E.
  destruct (x.2) as [c|]; [|destruct (tip_connect x.1 p blk) as [[[|[]|] s]| | |] eqn:Ec].
  2: { injection E as <- <-. left. by split_and!; [..|left]. }
  3: { injection E as <- <-. left. by split_and!; [..|right]. }
  all: apply outcome_bind_ok in E as (s1 & Es & E); injection E as <- <-; right; split_and!; [done..|].
  all: intros ? s'; split; congruence.
Qed.

#[local] Program Instance guarded : TipOps gstate B := {|
  sel x := sel x.1;
  with_sel y x := (with_sel y x.1, x.2);
  tip_addr := tip_addr;
  tip_disconnect := guarded_disconnect;
  tip_connect := guarded_connect
|}.
Next Obligation. intros y x. apply sel_with. Qed.
Next Obligation.
  intros x p x' Hp E. apply guarded_disconnect_cases in E as [_ [(_ & _ & E)|(E & _)]]; [by eapply tip_disconnect_spec|].
  cbn in Hp. unfold only_disconnect in E. rewrite Hp in E. apply outcome_bind_ok in E as (b & Eb & E). apply outcome_bind_ok in E as (v & Ev & E).
  injection E as <-. exists b, v. rewrite sel_with. unfold deref in Eb. destruct (s_index (sel x.1) !! p); [|discriminate Eb]. by injection Eb as ->.
Qed.
Next Obligation.
  intros x p blk r x' E. apply guarded_connect_cases in E as [(_ & _ & E & _)|(-> & E & _)]; [by eapply tip_connect_spec|].
  unfold only_connect in E. apply outcome_bind_ok in E as (b & Eb & E). apply outcome_bind_ok in E as (u & Ea & E). apply outcome_bind_ok in E as (v & Ev & E).
  injection E as <-. exists b. rewrite sel_with. unfold deref in Eb. destruct (s_index (sel x.1) !! p); [|discriminate Eb]. injection Eb as ->.
  unfold assert_that in Ea. case_bool_decide as Hp; [|discriminate Ea]. split_and!; [done|done|]. exists (s_index (sel x.1)), v.
  split_and!; [apply index_same_refl|done|by destruct (sel x.1)].
Qed.

(** The guarded operations never fail, whatever the implementation. *)
Definition noted (x : gstate) : Prop := sel_ok (sel x.1) ∧ ∀ c, x.2 = Some c → call_fails c.

Lemma noted_with x y : noted x → sel_ok y → same_shape (s_index (sel x)) (s_index y) → s_active y = s_active (sel x) → noted (with_sel y x).
Proof. intros [_ Hc] Hy _ _. split; [|done]. cbn. by rewrite sel_with. Qed.

Lemma noted_disconnect x p : noted x → active_tip (sel x) = Some p → ∃ x', tip_disconnect x = Ok (true, x') ∧ noted x'.
Proof.
  intros [Hx Hc] Hp. cbn in Hp. destruct (tip_entry _ p Hx Hp) as (b & Hb & _).
  assert (∃ v, SetTip (s_index (sel x.1)) (s_active (sel x.1)) (pprev b) = Ok v ∧ chain_ok (s_index (sel x.1)) v (pprev b)) as (v & Ev & Hv).
  { destruct (pprev b) as [q|] eqn:Eq; [|by eexists].
    destruct (wf_pprev _ (so_wf _ Hx) p b q Hb Eq) as (c & Hq & _). exact (SetTip_chain _ (so_wf _ Hx) _ _ q c (so_chain _ Hx) Hq). }
  destruct (sel_ok_active (sel x.1) v (pprev b) Hx Hv) as [Hok _].
  assert (∃ s1, only_disconnect x.1 = Ok s1) as [s1 E1].
  { unfold only_disconnect. rewrite Hp, (deref_some _ p b Hb). cbn [mbind outcome_bind]. rewrite Ev. by eexists. }
  assert (∃ x', guarded_disconnect x = Ok (true, x')) as [x' E].
  { unfold guarded_disconnect. rewrite E1. destruct x.2; [by eexists|]. destruct (tip_disconnect x.1) as [[[] s]| | |]; by eexists. }
  exists x'. split; [exact E|]. destruct (tip_disconnect_spec (TipOps:=guarded) x p x' Hp E) as (b' & v' & Hb' & Hv' & Es). cbn in Hb', Hv', Es. simplify_eq.
  rewrite Ev in Hv'. injection Hv' as <-. split; [rewrite Es; exact Hok|]. apply guarded_disconnect_cases in E as [_ [(_ & -> & _)|(_ & -> & Hf)]]; [done|]. intros c [= <-].
  destruct (x.2) as [c'|]; [by apply Hc|]. split; [by exists p|by apply Hf].
Qed.

Lemma noted_connect x p b blk :
  noted x → s_index (sel x) !! p = Some b → pprev b = active_tip (sel x) → usable b →
  ∃ r x', tip_connect x p blk = Ok (r, x') ∧ noted x' ∧
  match r with TipConnected => True | TipInvalid corruption => corruption = false ∧ is_Some (pprev b) | TipError => False end.
Proof.
  intros [Hx Hc] Hb Hprev Hu. cbn in Hb, Hprev.
  destruct (SetTip_chain _ (so_wf _ Hx) _ _ p b (so_chain _ Hx) Hb) as (v & Ev & Hv).
  assert (∃ s1, only_connect x.1 p = Ok s1) as [s1 E1].
  { unfold only_connect. rewrite (deref_some _ p b Hb). cbn [mbind outcome_bind]. rewrite bool_decide_eq_true_2 by done. cbn [assert_that mbind outcome_bind].
    rewrite Ev. by eexists. }
  assert (∃ r x', guarded_connect x p blk = Ok (r, x')) as (r & x' & E).
  { unfold guarded_connect. rewrite E1. destruct x.2; [by eexists _, _|]. destruct (tip_connect x.1 p blk) as [[[|[]|] s]| | |]; by eexists _, _. }
  exists r, x'. split; [exact E|]. destruct (tip_connect_spec (TipOps:=guarded) x p blk r x' E) as (b' & Hb' & _ & Hlaw). cbn in Hb', Hlaw. simplify_eq.
  apply guarded_connect_cases in E as [(_ & Hn & _ & [->| ->])|(-> & _ & Hn & Hf)].
  - split; [|done]. split; [|by rewrite Hn]. destruct Hlaw as (m & w & Hm & Hw & Es). rewrite Es.
    destruct (shape_lookup _ m p b (proj1 Hm) Hb) as [d Hd]. assert (index_wf m) as Hwf by (rewrite <- (proj1 Hm); apply Hx).
    assert (chain_ok m (s_active (sel x.1)) (active_tip (sel x.1))) as Hold by (rewrite <- (proj1 Hm); apply Hx).
    destruct (SetTip_chain m Hwf _ _ p _ Hold Hd) as (w' & Ew & Hw'). pose proof (eq_trans (eq_sym Ew) Hw) as Ew'. injection Ew' as ->. by apply (sel_ok_chain _ m w (Some p)); [|apply Hm|].
  - destruct (InvalidBlockFound_ok p _ b _ Hx Hb Hlaw) as (Ht & Hok & _). split; [|by rewrite Hprev]. split; [exact Hok|by rewrite Hn].
  - destruct Hlaw as (m & w & Hm & Hw & Es). split; [|done]. split.
    + rewrite Es. destruct (shape_lookup _ m p b (proj1 Hm) Hb) as [d Hd]. assert (index_wf m) as Hwf by (rewrite <- (proj1 Hm); apply Hx).
      assert (chain_ok m (s_active (sel x.1)) (active_tip (sel x.1))) as Hold by (rewrite <- (proj1 Hm); apply Hx).
      destruct (SetTip_chain m Hwf _ _ p _ Hold Hd) as (w' & Ew & Hw'). pose proof (eq_trans (eq_sym Ew) Hw) as Ew'. injection Ew' as ->. by apply (sel_ok_chain _ m w (Some p)); [|apply Hm|].
    + rewrite Hn. intros c [= <-]. destruct (x.2) as [c'|]; [by apply Hc|]. split; [by exists b|by apply Hf].
Qed.

(** A run [m] from [x] that notes nothing is the run [m'] of the implementation. *)
Definition quiet {A} (x : gstate) (m : res (A * gstate)) (m' : res (A * St)) : Prop :=
  ∀ a x', m = Ok (a, x') → x'.2 = None → x.2 = None ∧ m' = Ok (a, x'.1).

Lemma quiet_ret {A} x (a : A) : quiet x (Ok (a, x)) (Ok (a, x.1)).
Proof. by intros a' x' [= <- <-]. Qed.
Lemma quiet_bind {A C} x (m : res (A * gstate)) m' (f : A * gstate → res (C * gstate)) f' :
  quiet x m m' → (∀ a y, quiet y (f (a, y)) (f' (a, y.1))) → quiet x (m ≫= f) (m' ≫= f').
Proof.
  intros Hm Hf a x' ([b y] & E1 & E2)%outcome_bind_ok Hn. destruct (Hf _ _ _ _ E2 Hn) as [Hy E3]. destruct (Hm _ _ E1 Hy) as [Hx ->]. by split.
Qed.
Lemma quiet_pure {A C} x (m : res A) (f : A → res (C * gstate)) f' : (∀ a, quiet x (f a) (f' a)) → quiet x (m ≫= f) (m ≫= f').
Proof. intros Hf a x' (b & -> & E)%outcome_bind_ok Hn. by apply (Hf b). Qed.
Lemma quiet_lift {A} f x : quiet (A:=A) x (lift f x) (lift f x.1).
Proof. unfold lift. change (sel x) with (sel x.1). apply quiet_pure. intros [a y] a' x' [= <- <-] Hn. by split. Qed.
Lemma quiet_lift_ {C} g x (f : gstate → res (C * gstate)) f' :
  (∀ y, quiet y (f y) (f' y.1)) → quiet x (lift_ g x ≫= f) (lift_ g x.1 ≫= f').
Proof.
  intros Hf a x' (y & E1 & E2)%outcome_bind_ok Hn. destruct (Hf _ _ _ E2 Hn) as [Hy E3]. unfold lift_ in *. change (sel x) with (sel x.1) in E1.
  apply outcome_bind_ok in E1 as (z & -> & [= <-]). by split.
Qed.
Lemma quiet_disconnect x : quiet x (guarded_disconnect x) (tip_disconnect x.1).
Proof. intros ok x' [-> [(H1 & _ & H2)|(_ & H & _)]]%guarded_disconnect_cases Hn; [done|]. rewrite Hn in H. discriminate H. Qed.
Lemma quiet_connect x p blk : quiet x (guarded_connect x p blk) (tip_connect x.1 p blk).
Proof. intros r x' [(H1 & _ & H2 & _)|(_ & _ & H & _)]%guarded_connect_cases Hn; [done|]. rewrite Hn in H. discriminate H. Qed.
Lemma quiet_with {A} y x (m : res (A * gstate)) m' : quiet (with_sel y x.1, x.2) m m' → quiet x m m'.
Proof. intros Hm a x' E Hn. by apply (Hm a x' E). Qed.
Lemma quiet_fail {A} x m' : quiet (A:=A) x AssertFail m'.
Proof. intros ? ? [=]. Qed.
Lemma quiet_fuel {A} x m' : quiet (A:=A) x OutOfFuel m'.
Proof. intros ? ? [=]. Qed.

Lemma quiet_disconnect_to fuel f x : quiet x (disconnect_to fuel f x) (disconnect_to fuel f x.1).
Proof.
  revert x. induction fuel as [|fuel IH]; intros x; cbn [disconnect_to]; change (sel x) with (sel x.1);
    (destruct (active_tip (sel x.1)) as [t|]; [|apply quiet_ret]); (destruct (bool_decide _); [apply quiet_ret|]); [apply quiet_fuel|].
  apply quiet_bind; [apply quiet_disconnect|]. intros [] y; [apply IH|apply quiet_ret].
Qed.

Lemma quiet_connect_list old p blk last_ l x : quiet x (connect_list old p blk last_ l x) (connect_list old p blk last_ l x.1).
Proof.
  revert x. induction l as [|q l IH]; intros x; cbn [connect_list]; [apply quiet_ret|].
  apply quiet_bind; [apply quiet_connect|]. intros [|corruption|] y; [| |apply quiet_ret].
  - apply quiet_lift_. intros z. change (sel z) with (sel z.1). destruct (active_tip (sel z.1)) as [t|], old as [o|]; try apply quiet_ret; [|apply quiet_fail].
    apply quiet_pure. intros []; [apply quiet_ret|apply IH].
  - destruct corruption; cbn [negb]; [apply (quiet_ret y)|]. apply quiet_lift_. intros z. apply quiet_ret.
Qed.

Lemma quiet_connect_up fuel old p blk h x : quiet x (connect_up fuel old p blk h x) (connect_up fuel old p blk h x.1).
Proof.
  revert h x. induction fuel as [|fuel IH]; intros h x; cbn [connect_up]; change (sel x) with (sel x.1); apply quiet_pure; intros b;
    (destruct (_ =? _); [apply quiet_ret|]); apply quiet_pure; intros i; apply quiet_pure; intros l;
    (apply quiet_bind; [apply quiet_connect_list|]); intros [] y; try apply quiet_ret; [apply quiet_fuel|apply IH].
Qed.

Lemma quiet_step p blk x : quiet x (ActivateBestChainStep p blk x) (ActivateBestChainStep p blk x.1).
Proof.
  unfold ActivateBestChainStep. change (sel x) with (sel x.1). apply quiet_pure. intros f. apply quiet_bind; [apply quiet_disconnect_to|].
  intros ok y. destruct ok; cbn [negb]; [|apply quiet_ret]. change (sel y) with (sel y.1). apply quiet_pure. intros h. apply quiet_connect_up.
Qed.

Context (block_hash : B → Z).

Lemma quiet_activate blk x : quiet x (ActivateBestChain block_hash blk x) (ActivateBestChain block_hash blk x.1).
Proof.
  unfold ActivateBestChain. change (sel x) with (sel x.1). generalize ((base.size (s_index (sel x.1)) + 1) * (base.size (s_index (sel x.1)) + 1))%nat as fuel.
  intros fuel. revert x. induction fuel as [|fuel IH]; intros x; cbn [ActivateBestChain_loop];
    (apply quiet_bind; [apply (quiet_lift (FindMostWorkChain (tip_addr (TipOps:=Ops))))|]); intros [p|] y; try apply quiet_ret;
    change (sel y) with (sel y.1); (destruct (bool_decide _); [apply quiet_ret|]); (apply quiet_bind; [apply quiet_step|]);
    intros ok z; (destruct ok; cbn [negb]; [|apply quiet_ret]); change (sel z) with (sel z.1); (destruct (bool_decide _); [apply quiet_ret|]);
    [apply quiet_fuel|apply IH].
Qed.

Lemma quiet_invalidate_loop fuel p x : quiet x (invalidate_loop fuel p x) (invalidate_loop fuel p x.1).
Proof.
  revert x. induction fuel as [|fuel IH]; intros x; cbn [invalidate_loop]; change (sel x) with (sel x.1); apply quiet_pure; intros c;
    (destruct (negb c); [apply quiet_ret|]); (destruct (active_tip (sel x.1)) as [t|]; [|apply quiet_fail]); apply quiet_lift_; intros y; [apply quiet_fuel|].
  change (sel y) with (sel y.1). set (c' := set_candidates _ _). apply (quiet_with c').
  apply quiet_bind; [apply (quiet_disconnect (with_sel c' y.1, y.2))|]. intros [] z; [apply IH|apply quiet_ret].
Qed.

Lemma quiet_invalidate p x : quiet x (InvalidateBlock p x) (InvalidateBlock p x.1).
Proof.
  unfold InvalidateBlock. apply quiet_lift_. intros y. change (sel y) with (sel y.1). set (c' := set_candidates _ _).
  apply (quiet_with c'). change (sel (with_sel c' y)) with (sel (with_sel c' y.1)).
  apply quiet_bind; [apply (quiet_invalidate_loop _ p (with_sel c' y.1, y.2))|].
  intros ok z. destruct ok; cbn [negb]; [|apply quiet_ret]. apply quiet_lift_. intros u. apply quiet_lift_. intros w. apply quiet_ret.
Qed.
End Guarded.

(** The first call that fails, in the run of [ActivateBestChain] from [s] and in the one of
    [InvalidateBlock] followed by [ActivateBestChain]; [None] if every call succeeds. *)
Section First_failure.
Context `{Ops : TipOps St B} (block_hash : B → Z).
#[local] Existing Instance guarded.

Definition invalidate_and_activate `{TipOps St' B} (p : Z) (blk : option B) (s : St') : res (bool * St') :=
  '(ok, s) ← InvalidateBlock p s; if ok : bool then ActivateBestChain block_hash blk s else Ok (false, s).
Definition noted_by {A} (m : res (A * (St * option (tip_call St B)))) : option (tip_call St B) :=
  match m with Ok (_, (_, c)) => c | _ => None end.
Definition activate_failure (blk : option B) (s : St) : option (tip_call St B) :=
  noted_by (ActivateBestChain (Ops:=guarded (Ops:=Ops)) block_hash blk (s, None)).
Definition invalidate_failure (p : Z) (blk : option B) (s : St) : option (tip_call St B) :=
  noted_by (invalidate_and_activate (H:=guarded (Ops:=Ops)) p blk (s, None)).
End First_failure.

(** ** A small implementation *)

(** Connecting only moves the tip, and refuses the blocks of a given set. *)
Module ActivateDemo.
Definition connect (bad : gset Z) (x : selection) (p : Z) (blk : option unit) : res (tip_result * selection) :=
  b ← deref (s_index x) p;
  _ ← assert_that (bool_decide (pprev b = active_tip x));
  if bool_decide (p ∈ bad) && bool_decide (is_Some (pprev b))
  then x' ← InvalidBlockFound p false x; Ok (TipInvalid false, x')
  else v ← SetTip (s_index x) (s_active x) (Some p); Ok (TipConnected, set_active v x).
Definition disconnect (x : selection) : res (bool * selection) :=
  match active_tip x with
  | None => AssertFail
  | Some p => b ← deref (s_index x) p; v ← SetTip (s_index x) (s_active x) (pprev b); Ok (true, set_active v x)
  end.

Lemma disconnect_law x p x' :
  active_tip x = Some p → disconnect x = Ok (true, x') →
  ∃ b v, s_index x !! p = Some b ∧ SetTip (s_index x) (s_active x) (pprev b) = Ok v ∧ x' = set_active v x.
Proof.
  unfold disconnect, deref. intros ->. destruct (s_index x !! p) as [b|]; [|discriminate]. cbn [mbind outcome_bind].
  intros H. invert_ok. by exists b, v.
Qed.

Lemma connect_law bad x p blk r x' :
  connect bad x p blk = Ok (r, x') →
  ∃ b, s_index x !! p = Some b ∧ pprev b = active_tip x ∧
  match r with
  | TipConnected => ∃ m v, index_same (s_index x) m ∧ SetTip m (s_active x) (Some p) = Ok v ∧ x' = set_active v (set_index m x)
  | TipInvalid corruption => InvalidBlockFound p corruption x = Ok x'
  | TipError => True
  end.
Proof.
  unfold connect, deref. destruct (s_index x !! p) as [b|]; [|discriminate]. cbn [mbind outcome_bind].
  destruct (bool_decide (pprev b = active_tip x)) eqn:Hb; cbn [assert_that mbind outcome_bind]; [|discriminate].
  apply bool_decide_eq_true in Hb. intros H. exists b. split_and!; [done..|].
  destruct (_ && _); invert_ok; [done|]. exists (s_index x), v. split_and!; [apply index_same_refl|done|by destruct x].
Qed.

Definition ops (bad : gset Z) : TipOps selection unit :=
  Build_TipOps selection unit id (λ x _, x) id disconnect (connect bad) (λ _ _, eq_refl) disconnect_law (connect_law bad).
#[local] Existing Instance ops.

Definition linked_check (m : block_index) : bool :=
  bool_decide (map_Forall (λ _ b, from_option (λ q, from_option (λ c, work c <? work b) true (m !! q)) true (pprev b) = true ∧
    nChainTx b ≠ 0) m).
Lemma linked_check_ok m : linked_check m = true → growing m ∧ tx_linked m.
Proof.
  intros H%bool_decide_eq_true. split; intros p b q c Hp Hq Hc; destruct (H p b Hp) as [H1 H2].
  - rewrite Hq in H1. cbn in H1. rewrite Hc in H1. cbn in H1. lia.
  - intros _. by destruct (H q c Hc).
Qed.
End ActivateDemo.

(** An implementation that reports every block as a corrupted copy. *)
Module CorruptDemo.
Definition connect (x : selection) (p : Z) (blk : option unit) : res (tip_result * selection) :=
  b ← deref (s_index x) p; _ ← assert_that (bool_decide (pprev b = active_tip x)); Ok (TipInvalid true, x).
Lemma corrupt_law x p blk r x' :
  connect x p blk = Ok (r, x') →
  ∃ b, s_index x !! p = Some b ∧ pprev b = active_tip x ∧
  match r with
  | TipConnected => ∃ m v, index_same (s_index x) m ∧ SetTip m (s_active x) (Some p) = Ok v ∧ x' = set_active v (set_index m x)
  | TipInvalid corruption => InvalidBlockFound p corruption x = Ok x'
  | TipError => True
  end.
Proof.
  unfold connect, deref. destruct (s_index x !! p) as [b|]; [|discriminate]. cbn [mbind outcome_bind].
  case_bool_decide as Hb; cbn [assert_that mbind outcome_bind]; [|discriminate]. intros [= <- <-]. by exists b.
Qed.
Definition ops : TipOps selection unit :=
  Build_TipOps selection unit id (λ x _, x) id ActivateDemo.disconnect connect (λ _ _, eq_refl) ActivateDemo.disconnect_law corrupt_law.
Definition stuck : selection :=
  Selection {[ 0 := SelectDemo.node None None 0 1 SelectDemo.good; 1 := SelectDemo.node (Some 0) (Some 0) 1 2 SelectDemo.good ]}
    [Some 0] {[ 1 ]} [] None 2.
End CorruptDemo.

(** A block that is reported as possibly corrupted is neither marked nor removed
    from the candidates, so that the loop takes it again, without end. *)
Lemma ActivateBestChain_corrupt_loops fuel :
  ActivateBestChain_loop (Ops:=CorruptDemo.ops) (λ _, 0) fuel None CorruptDemo.stuck = OutOfFuel.
Proof.
  assert (lift (Ops:=CorruptDemo.ops) (FindMostWorkChain id) CorruptDemo.stuck = Ok (Some 1, CorruptDemo.stuck)) as E1 by (by vm_compute).
  assert (ActivateBestChainStep (Ops:=CorruptDemo.ops) 1 None CorruptDemo.stuck = Ok (true, CorruptDemo.stuck)) as E2 by (by vm_compute).
  assert (active_tip CorruptDemo.stuck = Some 0) as E3 by done.
  induction fuel as [|fuel IH]; cbn [ActivateBestChain_loop]; change (tip_addr (TipOps:=CorruptDemo.ops)) with (@id Z);
    rewrite E1; cbn [mbind outcome_bind]; change (sel (TipOps:=CorruptDemo.ops) CorruptDemo.stuck) with CorruptDemo.stuck;
    rewrite E3, bool_decide_eq_false_2 by done; rewrite E2; cbn [mbind outcome_bind negb];
    change (sel (TipOps:=CorruptDemo.ops) CorruptDemo.stuck) with CorruptDemo.stuck; rewrite E3, bool_decide_eq_false_2 by done; done.
Qed.

(** ** Properties *)

(** C9: [ActivateBestChain] comes to an end, for every implementation of connecting and
    disconnecting a block, the node's own among them, and from any consistent state in
    which every block has more work than its predecessor.  If no call of the two fails in
    its run, it returns [true] within its bound on the rounds, however many blocks turn
    out to be invalid, with the best of the remaining candidates as the tip unless no
    candidate is left.  Otherwise [activate_failure] gives the first call that fails: the
    tip could not be taken off; or a usable block on top of the tip could not be read or
    written, or failed an assertion, or was reported as a corrupted copy (with the last,
    [ActivateBestChain] need not end: [ActivateBestChain_corrupt_loops]). *)
Theorem ActivateBestChain_converges {St B : Type} `{Ops : TipOps St B} (block_hash : B → Z) (blk : option B) (s : St) :
  sel_ok (sel s) → growing (s_index (sel s)) →
  match activate_failure block_hash blk s with
  | Some c => call_fails c
  | None => ∃ s', ActivateBestChain block_hash blk s = Ok (true, s') ∧ sel_ok (sel s') ∧ settled (sel s') ∧
      same_shape (s_index (sel s)) (s_index (sel s'))
  end.
Proof.
  intros Hs Hgr. assert (st_ok (Ops:=guarded) noted (s, None)) as Hok by (split; [by split; [|intros c [=]]|exact Hs|exact Hgr]).
  destruct (ActivateBestChain_ok (Ops:=guarded) block_hash noted noted_with noted_disconnect noted_connect blk (s, None) Hok)
    as ([s' c] & E & [[Hs' Hc] _ _] & Hset & Hsh & _).
  unfold activate_failure, noted_by. rewrite E. destruct c as [c|]; [by apply Hc|]. exists s'.
  destruct (quiet_activate block_hash blk (s, None) _ _ E eq_refl) as [_ E']. by split_and!.
Qed.

(** C34: a block that is invalidated by hand leaves the active chain and stays out, for
    every implementation of connecting and disconnecting a block, the node's own among
    them: [InvalidateBlock] and the [ActivateBestChain] that follows both succeed, and no
    block of the resulting chain is the invalidated one or a descendant of it, even when
    that branch has the most work; unless a call of the two fails on the way
    ([invalidate_failure] gives the first, as in C9). *)
Theorem InvalidateBlock_shuts_out {St B : Type} `{Ops : TipOps St B} (block_hash : B → Z) (blk : option B) (s : St) (q : Z) (b : CBlockIndex) :
  sel_ok (sel s) → growing (s_index (sel s)) → tx_linked (s_index (sel s)) →
  s_index (sel s) !! q = Some b → is_Some (pprev b) → is_Some (active_tip (sel s)) →
  match invalidate_failure block_hash q blk s with
  | Some c => call_fails c
  | None => ∃ s1 s2, InvalidateBlock q s = Ok (true, s1) ∧ ActivateBestChain block_hash blk s1 = Ok (true, s2) ∧
      settled (sel s2) ∧
      ∀ p, is_Some (s_index (sel s2) !! p) → ancestor (s_index (sel s2)) p (nHeight b) = Some q →
        ¬ on_chain (s_index (sel s2)) (active_tip (sel s2)) p
  end.
Proof.
  intros Hs Hgr Htx Hq Hb Ht. assert (st_ok (Ops:=guarded) noted (s, None)) as Hok by (split; [by split; [|intros c [=]]|exact Hs|exact Hgr]).
  destruct (InvalidateBlock_ok (Ops:=guarded) noted noted_with noted_disconnect noted_connect q b (s, None) Hok Htx Hq Hb Ht)
    as (x1 & E1 & Hok1 & Hout1 & Hsh1 & _).
  destruct (ActivateBestChain_ok (Ops:=guarded) block_hash noted noted_with noted_disconnect noted_connect blk x1 Hok1)
    as (x2 & E2 & [[Hs2 Hc2] _ _] & Hset & Hsh2 & Hout2).
  assert (invalidate_failure block_hash q blk s = x2.2) as ->.
  { unfold invalidate_failure, noted_by, invalidate_and_activate. rewrite E1. cbn [mbind outcome_bind]. rewrite E2. by destruct x2 as [? ?]. }
  destruct (x2.2) as [c|] eqn:Ec; [by apply Hc2|]. exists x1.1, x2.1.
  destruct (quiet_activate block_hash blk _ _ _ E2 Ec) as [Hn1 E2']. destruct (quiet_invalidate q _ _ _ E1 Hn1) as [_ E1'].
  split_and!; [done..|]. intros p Hp Ha Hon. destruct (Hout2 q Hout1) as (b' & Hq' & _ & Hoff).
  destruct (shape_lookup _ _ q b Hsh1 Hq) as [d Hd]. destruct (shape_lookup _ _ q _ Hsh2 Hd) as [e He].
  apply Hoff. rewrite He in Hq'. injection Hq' as <-. by apply (on_chain_below (sel x2.1) p q _ Hs2 Hp He).
Qed.
