(* ===== verification/Mempool.v ===== *)
(** * The memory pool (txmempool.h, txmempool.cpp)

    Transactions that wait for a block, the map from each spent output to its
    spender, the optional address and spent indexes of the pool, and their sums.
    A pointer to a transaction of the pool is written as the hash under which the
    transaction is stored; following a pointer to an entry that has been removed is
    undefined ([AssertFail]), and the invariant of the pool excludes it.  The fee
    estimator is in [FeeEstimator], acceptance in [MempoolAccept]. *)
From stdpp Require Import base tactics list gmap numbers option sorting.
From Stdlib Require Import ZArith Lia.
From S2P Require Import Prelude.
From S2P Require Import Double.
From S2P Require Import Serialize.
From S2P Require Import ScriptCode.
From S2P Require Import Transaction.
From S2P Require Import Standard.
From S2P Require Import Coins.
From S2P Require Import CoinsView.
From S2P Require Import AddressIndex.

Notation mres := (outcome unit).

(** ** Data *)

Record CTxMemPoolEntry := PoolEntry {
  e_tx : CTransaction;
  e_nFee : Z;
  e_nTxSize : Z;
  e_nModSize : Z;
  e_nTime : Z;
  e_dPriority : double;
  e_nHeight : Z
}.

(** The constructor: the sizes are computed from the transaction. *)
Definition CTxMemPoolEntry_of (tx : CTransaction) (nFee nTime : Z) (dPriority : double) (nHeight : Z) : CTxMemPoolEntry :=
  let nTxSize := size (ser_tx tx) in
  PoolEntry tx nFee nTxSize (CalculateModifiedSize tx nTxSize) nTime dPriority nHeight.

(** [CTxMemPoolEntry::GetPriority] *)
Definition entry_GetPriority (e : CTxMemPoolEntry) (currentHeight : Z) : outcome value_error double :=
  nValueOut ← GetValueOut (e_tx e);
  nValueIn ← add64 nValueOut (e_nFee e);
  let deltaPriority := d_div (d_mul (d_of_Z (u32 (currentHeight - e_nHeight e))) (d_of_Z nValueIn)) (d_of_Z (e_nModSize e)) in
  Ok (d_add (e_dPriority e) deltaPriority).

Definition AllowFreeThreshold : double := d_of_Z (COIN * 576 / 250).
Definition AllowFree (dPriority : double) : bool := d_gt dPriority AllowFreeThreshold.
Definition MEMPOOL_HEIGHT : Z := 0x7FFFFFFF.

(** [CMempoolAddressDelta] and its key (spentindex.h). *)
Record CMempoolAddressDelta := AddressDelta { ad_time : Z; ad_amount : Z; ad_prevhash : Z; ad_prevout : Z }.
Record CMempoolAddressDeltaKey := AddressDeltaKey {
  dk_type : Z; dk_addressBytes : list Z; dk_txhash : Z; dk_index : Z; dk_spending : Z }.
#[export] Instance CMempoolAddressDeltaKey_eq_dec : EqDecision CMempoolAddressDeltaKey.
Proof. solve_decision. Defined.
#[export] Instance CMempoolAddressDeltaKey_countable : Countable CMempoolAddressDeltaKey.
Proof.
  apply (inj_countable' (λ k, (dk_type k, dk_addressBytes k, dk_txhash k, dk_index k, dk_spending k))
    (λ '(t, a, h, i, s), AddressDeltaKey t a h i s)). by intros [].
Defined.

(** A place among the inputs of a transaction of the pool: [CInPoint]. *)
Notation CInPoint := (Z * Z)%type.

Record CTxMemPool := Pool {
  mapTx : gmap Z CTxMemPoolEntry;
  mapNextTx : gmap COutPoint CInPoint;
  mapDeltas : gmap Z (double * Z);
  totalTxSize : Z;
  nTransactionsUpdated : Z;
  mapAddress : gmap CMempoolAddressDeltaKey CMempoolAddressDelta;
  mapAddressInserted : gmap Z (list CMempoolAddressDeltaKey);
  mapSpent : gmap CSpentIndexKey CSpentIndexValue;
  mapSpentInserted : gmap Z (list CSpentIndexKey)
}.

Definition CTxMemPool_empty : CTxMemPool := Pool ∅ ∅ ∅ 0 0 ∅ ∅ ∅ ∅.

Definition set_pool (tx : gmap Z CTxMemPoolEntry) (next : gmap COutPoint CInPoint) (total updated : Z) (p : CTxMemPool) : CTxMemPool :=
  Pool tx next (mapDeltas p) total updated (mapAddress p) (mapAddressInserted p) (mapSpent p) (mapSpentInserted p).
Definition set_deltas (d : gmap Z (double * Z)) (p : CTxMemPool) : CTxMemPool :=
  Pool (mapTx p) (mapNextTx p) d (totalTxSize p) (nTransactionsUpdated p) (mapAddress p) (mapAddressInserted p) (mapSpent p) (mapSpentInserted p).
Definition set_address (a : gmap CMempoolAddressDeltaKey CMempoolAddressDelta) (i : gmap Z (list CMempoolAddressDeltaKey)) (p : CTxMemPool) : CTxMemPool :=
  Pool (mapTx p) (mapNextTx p) (mapDeltas p) (totalTxSize p) (nTransactionsUpdated p) a i (mapSpent p) (mapSpentInserted p).
Definition set_spent (s : gmap CSpentIndexKey CSpentIndexValue) (i : gmap Z (list CSpentIndexKey)) (p : CTxMemPool) : CTxMemPool :=
  Pool (mapTx p) (mapNextTx p) (mapDeltas p) (totalTxSize p) (nTransactionsUpdated p) (mapAddress p) (mapAddressInserted p) s i.

(** [map::insert]: an existing entry stays. *)
Definition insert_new {K A} `{Countable K} (k : K) (a : A) (m : gmap K A) : gmap K A :=
  match m !! k with Some _ => m | None => <[k := a]> m end.

(** A [std::map] is iterated in the order of its keys. *)
Definition key_le {A} (a b : Z * A) : Prop := a.1 ≤ b.1.
#[export] Instance key_le_dec {A} : RelDecision (@key_le A).
Proof. intros a b. unfold key_le. apply _. Defined.
Definition in_order {A} (m : gmap Z A) : list (Z * A) := merge_sort key_le (map_to_list m).
Lemma elem_of_in_order {A} (m : gmap Z A) k a : (k, a) ∈ in_order m ↔ m !! k = Some a.
Proof. unfold in_order. by rewrite merge_sort_Permutation, elem_of_map_to_list. Qed.

(** ** Lookups *)

Definition exists_ (p : CTxMemPool) (hash : Z) : bool := bool_decide (is_Some (mapTx p !! hash)).
Definition lookup_tx (p : CTxMemPool) (hash : Z) : option CTransaction := e_tx <$> mapTx p !! hash.
Definition pool_size (p : CTxMemPool) : nat := map_size (mapTx p).
Definition queryHashes (p : CTxMemPool) : list Z := fst <$> in_order (mapTx p).

(** The outputs of a transaction that the pool spends, taken off its coins. *)
Definition pruneSpent (p : CTxMemPool) (hashTx : Z) (coins : CCoins) : CCoins :=
  fold_left (λ c (e : COutPoint * CInPoint), (Spend c (Z.to_nat (prevout_n e.1))).2)
    (filter (λ e : COutPoint * CInPoint, prevout_hash e.1 = hashTx) (map_to_list (mapNextTx p))) coins.

(** ** Priorities set by the user *)

Definition PrioritiseTransaction (hash : Z) (dPriorityDelta : double) (nFeeDelta : Z) (p : CTxMemPool) : mres CTxMemPool :=
  let '(d, f) := default (d_zero, 0) (mapDeltas p !! hash) in
  f ← add64 f nFeeDelta; Ok (set_deltas (<[hash := (d_add d dPriorityDelta, f)]> (mapDeltas p)) p).
Definition ApplyDeltas (hash : Z) (dPriorityDelta : double) (nFeeDelta : Z) (p : CTxMemPool) : mres (double * Z) :=
  match mapDeltas p !! hash with
  | None => Ok (dPriorityDelta, nFeeDelta)
  | Some (d, f) => n ← add64 nFeeDelta f; Ok (d_add dPriorityDelta d, n)
  end.
Definition ClearPrioritisation (hash : Z) (p : CTxMemPool) : CTxMemPool := set_deltas (delete hash (mapDeltas p)) p.

(** ** Adding *)

Definition GetTransactionsUpdated (p : CTxMemPool) : Z := nTransactionsUpdated p.
Definition AddTransactionsUpdated (n : Z) (p : CTxMemPool) : CTxMemPool :=
  set_pool (mapTx p) (mapNextTx p) (totalTxSize p) (u32 (nTransactionsUpdated p + n)) p.

(** [for (i...) mapNextTx[tx.vin[i].prevout] = CInPoint(&tx, i)] *)
Fixpoint mark_spent (hash i : Z) (ins : list CTxIn) (m : gmap COutPoint CInPoint) : gmap COutPoint CInPoint :=
  match ins with [] => m | t :: ins => mark_spent hash (i + 1) ins (<[prevout t := (hash, i)]> m) end.

Definition addUnchecked (hash : Z) (e : CTxMemPoolEntry) (p : CTxMemPool) : CTxMemPool :=
  set_pool (<[hash := e]> (mapTx p)) (mark_spent hash 0 (vin (e_tx e)) (mapNextTx p))
    (u64 (totalTxSize p + e_nTxSize e)) (u32 (nTransactionsUpdated p + 1)) p.

(** ** The indexes of the pool *)

Section Index.
Context `{CoinsStore V}.

Fixpoint index_vin (nTime txhash j : Z) (ins : list CTxIn) (v : V) (m : gmap CMempoolAddressDeltaKey CMempoolAddressDelta)
    (inserted : list CMempoolAddressDeltaKey) : mres (gmap CMempoolAddressDeltaKey CMempoolAddressDelta * list CMempoolAddressDeltaKey * V) :=
  match ins with
  | [] => Ok (m, inserted, v)
  | t :: ins =>
      '(o, v) ← GetOutputFor v t;
      '(ok, h, ty) ← GetAddressIndexKey (scriptPubKey o);
      if ok : bool then
        let key := AddressDeltaKey ty h txhash j 1 in
        let delta := AddressDelta nTime (nValue o * -1) (prevout_hash (prevout t)) (prevout_n (prevout t)) in
        index_vin nTime txhash (j + 1) ins v (insert_new key delta m) (inserted ++ [key])
      else index_vin nTime txhash (j + 1) ins v m inserted
  end.

Fixpoint index_vout (nTime txhash k : Z) (outs : list CTxOut) (m : gmap CMempoolAddressDeltaKey CMempoolAddressDelta)
    (inserted : list CMempoolAddressDeltaKey) : mres (gmap CMempoolAddressDeltaKey CMempoolAddressDelta * list CMempoolAddressDeltaKey) :=
  match outs with
  | [] => Ok (m, inserted)
  | o :: outs =>
      '(ok, h, ty) ← GetAddressIndexKey (scriptPubKey o);
      if ok : bool then
        let key := AddressDeltaKey ty h txhash k 0 in
        index_vout nTime txhash (k + 1) outs (insert_new key (AddressDelta nTime (nValue o) 0 0) m) (inserted ++ [key])
      else index_vout nTime txhash (k + 1) outs m inserted
  end.

Definition addAddressIndex (e : CTxMemPoolEntry) (v : V) (p : CTxMemPool) : mres (CTxMemPool * V) :=
  let tx := e_tx e in let txhash := tx_hash tx in
  '(m, inserted, v) ← index_vin (e_nTime e) txhash 0 (vin tx) v (mapAddress p) [];
  '(m, inserted) ← index_vout (e_nTime e) txhash 0 (vout tx) m inserted;
  Ok (set_address m (insert_new txhash inserted (mapAddressInserted p)) p, v).

Fixpoint spent_vin (txhash j : Z) (ins : list CTxIn) (v : V) (m : gmap CSpentIndexKey CSpentIndexValue) (inserted : list CSpentIndexKey)
    : mres (gmap CSpentIndexKey CSpentIndexValue * list CSpentIndexKey * V) :=
  match ins with
  | [] => Ok (m, inserted, v)
  | t :: ins =>
      '(o, v) ← GetOutputFor v t;
      '(_, h, ty) ← GetAddressIndexKey (scriptPubKey o);
      let key := SpentIndexKey (prevout_hash (prevout t)) (prevout_n (prevout t)) in
      spent_vin txhash (j + 1) ins v (insert_new key (SpentIndexValue txhash j (-1) (nValue o) ty h) m) (inserted ++ [key])
  end.
Definition addSpentIndex (e : CTxMemPoolEntry) (v : V) (p : CTxMemPool) : mres (CTxMemPool * V) :=
  let tx := e_tx e in let txhash := tx_hash tx in
  '(m, inserted, v) ← spent_vin txhash 0 (vin tx) v (mapSpent p) [];
  Ok (set_spent m (insert_new txhash inserted (mapSpentInserted p)) p, v).
End Index.

Definition removeAddressIndex (txhash : Z) (p : CTxMemPool) : CTxMemPool :=
  match mapAddressInserted p !! txhash with
  | None => p
  | Some keys => set_address (foldl (λ m k, delete k m) (mapAddress p) keys) (delete txhash (mapAddressInserted p)) p
  end.
Definition removeSpentIndex (txhash : Z) (p : CTxMemPool) : CTxMemPool :=
  match mapSpentInserted p !! txhash with
  | None => p
  | Some keys => set_spent (foldl (λ m k, delete k m) (mapSpent p) keys) (delete txhash (mapSpentInserted p)) p
  end.
Definition getSpentIndex (key : CSpentIndexKey) (p : CTxMemPool) : option CSpentIndexValue := mapSpent p !! key.
(** The entries of one address; a map is iterated in the order of its keys. *)
Definition of_address (addr : list Z * Z) (k : CMempoolAddressDeltaKey) : bool :=
  bool_decide (dk_addressBytes k = addr.1) && bool_decide (dk_type k = addr.2).

(** ** Removing *)

(** The spenders in the pool of the first [n] outputs from [i] on. *)
Fixpoint children (p : CTxMemPool) (hash i : Z) (n : nat) : mres (list Z) :=
  match n with
  | O => Ok []
  | S n =>
      match mapNextTx p !! OutPoint hash i with
      | None => children p hash (i + 1) n
      | Some (ptx, _) =>
          match mapTx p !! ptx with
          | None => AssertFail
          | Some e => l ← children p hash (i + 1) n; Ok (tx_hash (e_tx e) :: l)
          end
      end
  end.

Definition erase_inputs (ins : list CTxIn) (m : gmap COutPoint CInPoint) : gmap COutPoint CInPoint :=
  foldl (λ m t, delete (prevout t) m) m ins.

(** Taking one entry out, with its index entries. *)
Definition erase_entry (hash : Z) (e : CTxMemPoolEntry) (p : CTxMemPool) : CTxMemPool :=
  let p := set_pool (delete hash (mapTx p)) (erase_inputs (vin (e_tx e)) (mapNextTx p))
             (u64 (totalTxSize p - e_nTxSize e)) (u32 (nTransactionsUpdated p + 1)) p in
  removeSpentIndex hash (removeAddressIndex hash p).

Fixpoint remove_loop (fuel : nat) (fRecursive : bool) (txToRemove : list Z) (p : CTxMemPool) (removed : list CTransaction)
    : mres (CTxMemPool * list CTransaction) :=
  match txToRemove with
  | [] => Ok (p, removed)
  | hash :: rest =>
      match fuel with
      | O => OutOfFuel
      | S fuel =>
          match mapTx p !! hash with
          | None => remove_loop fuel fRecursive rest p removed
          | Some e =>
              more ← (if fRecursive then children p hash 0 (length (vout (e_tx e))) else Ok []);
              remove_loop fuel fRecursive (rest ++ more) (erase_entry hash e p) (removed ++ [e_tx e])
          end
      end
  end.

(** Every transaction is taken out once, and then adds its spenders to the queue. *)
Definition outputs_total (p : CTxMemPool) : nat := map_fold (λ _ e n, (length (vout (e_tx e)) + n)%nat) 0%nat (mapTx p).
Definition remove (origTx : CTransaction) (removed : list CTransaction) (fRecursive : bool) (p : CTxMemPool)
    : mres (CTxMemPool * list CTransaction) :=
  let hash := tx_hash origTx in
  orphans ← (if fRecursive && negb (exists_ p hash) then children p hash 0 (length (vout origTx)) else Ok []);
  let queue := hash :: orphans in
  remove_loop (length queue + outputs_total p) fRecursive queue p removed.

(** [txConflict != tx] compares the hashes. *)
Fixpoint removeConflicts_loop (tx : CTransaction) (ins : list CTxIn) (removed : list CTransaction) (p : CTxMemPool)
    : mres (CTxMemPool * list CTransaction) :=
  match ins with
  | [] => Ok (p, removed)
  | t :: ins =>
      match mapNextTx p !! prevout t with
      | None => removeConflicts_loop tx ins removed p
      | Some (ptx, _) =>
          match mapTx p !! ptx with
          | None => AssertFail
          | Some e =>
              if tx_hash (e_tx e) =? tx_hash tx then removeConflicts_loop tx ins removed p
              else '(p, removed) ← remove (e_tx e) removed true p; removeConflicts_loop tx ins removed p
          end
      end
  end.
Definition removeConflicts (tx : CTransaction) (removed : list CTransaction) (p : CTxMemPool) : mres (CTxMemPool * list CTransaction) :=
  removeConflicts_loop tx (vin tx) removed p.

(** The loop of [removeForBlock]; the entries that the fee estimator is told of come
    first. *)
Definition block_entries (vtx : list CTransaction) (p : CTxMemPool) : list CTxMemPoolEntry :=
  omap (λ tx, mapTx p !! tx_hash tx) vtx.
Fixpoint removeForBlock_loop (vtx : list CTransaction) (conflicts : list CTransaction) (p : CTxMemPool)
    : mres (CTxMemPool * list CTransaction) :=
  match vtx with
  | [] => Ok (p, conflicts)
  | tx :: vtx =>
      '(p, _) ← remove tx [] false p;
      '(p, conflicts) ← removeConflicts tx conflicts p;
      removeForBlock_loop vtx conflicts (ClearPrioritisation (tx_hash tx) p)
  end.

(** [clear] *)
Definition clear (p : CTxMemPool) : CTxMemPool :=
  Pool ∅ ∅ (mapDeltas p) 0 (u32 (nTransactionsUpdated p + 1)) ∅ ∅ ∅ ∅.

(** [removeCoinbaseSpends]: what it finds first and then removes. *)
Section Immature.
Context `{CoinsStore V} (COINBASE_MATURITY : Z) (fSanityCheck : bool).

Fixpoint spends_immature (p : CTxMemPool) (nMemPoolHeight : Z) (ins : list CTxIn) (v : V) : mres (bool * V) :=
  match ins with
  | [] => Ok (false, v)
  | t :: ins =>
      match mapTx p !! prevout_hash (prevout t) with
      | Some _ => spends_immature p nMemPoolHeight ins v
      | None =>
          let '(coins, v) := cs_access v (prevout_hash (prevout t)) in
          match coins with
          | None => if fSanityCheck then AssertFail else Ok (true, v)
          | Some c =>
              if (fCoinBase c || fCoinStake c) && (u32 (nMemPoolHeight - c_nHeight c) <? COINBASE_MATURITY)
              then Ok (true, v) else spends_immature p nMemPoolHeight ins v
          end
      end
  end.
Fixpoint find_immature (p : CTxMemPool) (nMemPoolHeight : Z) (entries : list CTxMemPoolEntry) (v : V) : mres (list CTransaction * V) :=
  match entries with
  | [] => Ok ([], v)
  | e :: entries =>
      '(bad, v) ← spends_immature p nMemPoolHeight (vin (e_tx e)) v;
      '(l, v) ← find_immature p nMemPoolHeight entries v;
      Ok (if bad : bool then e_tx e :: l else l, v)
  end.
Fixpoint remove_all (l : list CTransaction) (p : CTxMemPool) : mres CTxMemPool :=
  match l with [] => Ok p | tx :: l => '(p, _) ← remove tx [] true p; remove_all l p end.
Definition removeCoinbaseSpends (v : V) (nMemPoolHeight : Z) (p : CTxMemPool) : mres (CTxMemPool * V) :=
  '(l, v) ← find_immature p nMemPoolHeight (snd <$> in_order (mapTx p)) v;
  p ← remove_all l p; Ok (p, v).
End Immature.

(** ** The invariant *)

Definition spent_outpoint (k : CSpentIndexKey) : COutPoint := OutPoint (sk_txid k) (sk_outputIndex k).
Definition size_total (m : gmap Z CTxMemPoolEntry) : Z := map_fold (λ _ e n, e_nTxSize e + n) 0 m.

(** Entries are stored under their hash; an output is marked exactly when an input of
    an entry spends it, so no two entries spend the same; the size is the sum of the
    sizes; and the indexes describe only what is in the pool. *)
Record pool_ok (p : CTxMemPool) : Prop := {
  po_hash h e : mapTx p !! h = Some e → tx_hash (e_tx e) = h;
  po_next o h n : mapNextTx p !! o = Some (h, n) ↔
    ∃ e t, mapTx p !! h = Some e ∧ 0 ≤ n ∧ vin (e_tx e) !! Z.to_nat n = Some t ∧ prevout t = o;
  po_total : totalTxSize p = u64 (size_total (mapTx p));
  po_address k : is_Some (mapAddress p !! k) → ∃ ks, mapAddressInserted p !! dk_txhash k = Some ks ∧ k ∈ ks;
  po_address_keys h ks : mapAddressInserted p !! h = Some ks → is_Some (mapTx p !! h) ∧ ∀ k, k ∈ ks → dk_txhash k = h;
  po_spent k : is_Some (mapSpent p !! k) → ∃ h n ks, mapNextTx p !! spent_outpoint k = Some (h, n) ∧ mapSpentInserted p !! h = Some ks ∧ k ∈ ks;
  po_spent_keys h ks : mapSpentInserted p !! h = Some ks →
    ∃ e, mapTx p !! h = Some e ∧ ∀ k, k ∈ ks → ∃ t, t ∈ vin (e_tx e) ∧ prevout t = spent_outpoint k
}.

Lemma pool_ok_empty : pool_ok CTxMemPool_empty.
Proof.
  split; cbn; try (intros *; rewrite ?lookup_empty; try done; intros [? ?]; discriminate).
  intros o h n. rewrite lookup_empty. split; [done|]. intros (e & t & H & _). by rewrite lookup_empty in H.
Qed.

(** An input of an entry, by its place or as a member. *)
Lemma spender_of p h e t : pool_ok p → mapTx p !! h = Some e → t ∈ vin (e_tx e) → ∃ n, mapNextTx p !! prevout t = Some (h, n).
Proof.
  intros Hp He [i Hi]%list_elem_of_lookup. exists (Z.of_nat i). apply (po_next p Hp). exists e, t.
  rewrite Nat2Z.id. split_and!; (done || lia).
Qed.
Lemma spender_in p o h n : pool_ok p → mapNextTx p !! o = Some (h, n) → ∃ e t, mapTx p !! h = Some e ∧ t ∈ vin (e_tx e) ∧ prevout t = o.
Proof. intros Hp (e & t & He & _ & Ht & Ho)%(po_next p Hp). exists e, t. split_and!; [done|by eapply list_elem_of_lookup_2|done]. Qed.

(** No two entries spend the same output. *)
Lemma no_double_spend p h1 e1 t1 h2 e2 t2 :
  pool_ok p → mapTx p !! h1 = Some e1 → mapTx p !! h2 = Some e2 → t1 ∈ vin (e_tx e1) → t2 ∈ vin (e_tx e2) →
  prevout t1 = prevout t2 → h1 = h2.
Proof.
  intros Hp H1 H2 Ht1 Ht2 E. destruct (spender_of p h1 e1 t1 Hp H1 Ht1) as [n1 E1].
  destruct (spender_of p h2 e2 t2 Hp H2 Ht2) as [n2 E2]. congruence.
Qed.

Lemma size_total_delete m h e : m !! h = Some e → size_total m = e_nTxSize e + size_total (delete h m).
Proof. intros He. unfold size_total. rewrite (map_fold_delete_L _ _ h e m); [done|lia|done]. Qed.
Lemma size_total_insert m h e : m !! h = None → size_total (<[h := e]> m) = e_nTxSize e + size_total m.
Proof. intros He. unfold size_total. rewrite map_fold_insert_L; [done|lia|done]. Qed.

(** ** Taking an entry out *)

Lemma lookup_erase_inputs ins m o : erase_inputs ins m !! o = if decide (o ∈ prevout <$> ins) then None else m !! o.
Proof.
  unfold erase_inputs. revert m. induction ins as [|t ins IH]; intros m; [done|]. cbn [foldl]. rewrite IH.
  destruct (decide (o ∈ prevout <$> ins)) as [Hin|Hin].
  - rewrite decide_True; [done|]. cbn. by right.
  - destruct (decide (o = prevout t)) as [->|Hne].
    + rewrite lookup_delete_eq, decide_True; [done|]. cbn. by left.
    + rewrite lookup_delete_ne by done. rewrite decide_False; [done|]. cbn. by intros [?|?]%elem_of_cons.
Qed.

Lemma lookup_foldl_delete {K A} `{Countable K} (ks : list K) (m : gmap K A) k :
  foldl (λ m k, delete k m) m ks !! k = if decide (k ∈ ks) then None else m !! k.
Proof.
  revert m. induction ks as [|k' ks IH]; intros m; [done|]. cbn [foldl]. rewrite IH.
  destruct (decide (k ∈ ks)) as [Hin|Hin]; [rewrite decide_True; [done|by right]|].
  destruct (decide (k = k')) as [->|Hne].
  - rewrite lookup_delete_eq, decide_True; [done|by left].
  - rewrite lookup_delete_ne by done. rewrite decide_False; [done|]. by intros [?|?]%elem_of_cons.
Qed.

Lemma erase_entry_maps h e p :
  mapTx (erase_entry h e p) = delete h (mapTx p) ∧ mapNextTx (erase_entry h e p) = erase_inputs (vin (e_tx e)) (mapNextTx p) ∧
  mapDeltas (erase_entry h e p) = mapDeltas p ∧ totalTxSize (erase_entry h e p) = u64 (totalTxSize p - e_nTxSize e) ∧
  mapAddressInserted (erase_entry h e p) = delete h (mapAddressInserted p) ∧
  mapSpentInserted (erase_entry h e p) = delete h (mapSpentInserted p).
Proof.
  unfold erase_entry, removeSpentIndex, removeAddressIndex, set_address, set_spent, set_pool. cbn.
  destruct (mapAddressInserted p !! h) eqn:Ea; cbn; destruct (mapSpentInserted p !! h) eqn:Es; cbn; split_and!; try done;
    symmetry; by apply delete_id.
Qed.

Lemma erase_entry_indexes h e p :
  (∀ k, mapAddress (erase_entry h e p) !! k =
    match mapAddressInserted p !! h with Some ks => if decide (k ∈ ks) then None else mapAddress p !! k | None => mapAddress p !! k end) ∧
  (∀ k, mapSpent (erase_entry h e p) !! k =
    match mapSpentInserted p !! h with Some ks => if decide (k ∈ ks) then None else mapSpent p !! k | None => mapSpent p !! k end).
Proof.
  unfold erase_entry, removeSpentIndex, removeAddressIndex, set_address, set_spent, set_pool. cbn.
  destruct (mapAddressInserted p !! h) eqn:Ea; cbn; destruct (mapSpentInserted p !! h) eqn:Es; cbn; split; intros k;
    by rewrite ?lookup_foldl_delete.
Qed.

Lemma erase_entry_ok h e p : pool_ok p → mapTx p !! h = Some e → pool_ok (erase_entry h e p).
Proof.
  intros Hp He. destruct (erase_entry_maps h e p) as (E1 & E2 & E3 & E4 & E5 & E6).
  destruct (erase_entry_indexes h e p) as [A1 A2].
  assert (∀ o h' n, erase_inputs (vin (e_tx e)) (mapNextTx p) !! o = Some (h', n) ↔ mapNextTx p !! o = Some (h', n) ∧ h' ≠ h) as Hnext.
  { intros o h' n. rewrite lookup_erase_inputs. case_decide as Hin; split; try done.
    - intros [Hn Hne]. apply list_elem_of_fmap in Hin as (t & -> & Ht). destruct (spender_of p h e t Hp He Ht) as [n' Hn'].
      congruence.
    - intros Hn. split; [done|]. intros ->. destruct (spender_in p o h n Hp Hn) as (e' & t & He' & Ht & <-).
      apply Hin, list_elem_of_fmap_2. congruence.
    - by intros [? _]. }
  split; rewrite ?E1, ?E2, ?E4, ?E5, ?E6.
  - intros h' e' [_ Hl]%lookup_delete_Some. by apply (po_hash p Hp).
  - intros o h' n. rewrite Hnext, (po_next p Hp). split.
    + intros [(e' & t & He' & Hn & Ht & Ho) Hne]. exists e', t. by rewrite lookup_delete_ne.
    + intros (e' & t & [Hne He']%lookup_delete_Some & Hn & Ht & Ho). split; [by exists e', t|done].
  - rewrite (po_total p Hp), (size_total_delete _ h e He). unfold u64. rewrite Zminus_mod_idemp_l. f_equal. lia.
  - intros k. rewrite A1. destruct (mapAddressInserted p !! h) as [ks|] eqn:Ek.
    + case_decide as Hin; [by intros [? ?]|]. intros Hk. destruct (po_address p Hp k Hk) as (ks' & Hks' & Hin').
      exists ks'. split; [|done]. rewrite lookup_delete_ne; [done|]. intros E. rewrite <- E, Ek in Hks'. by injection Hks' as ->.
    + intros Hk. destruct (po_address p Hp k Hk) as (ks' & Hks' & Hin'). exists ks'. split; [|done].
      rewrite lookup_delete_ne; [done|]. intros E. by rewrite <- E, Ek in Hks'.
  - intros h' ks [Hne Hks]%lookup_delete_Some. rewrite lookup_delete_ne by done. by apply (po_address_keys p Hp).
  - intros k. rewrite A2. intros Hk. assert (is_Some (mapSpent p !! k)) as Hk'.
    { destruct (mapSpentInserted p !! h); [|done]. by case_decide; [destruct Hk|]. }
    destruct (po_spent p Hp k Hk') as (h' & n & ks & Hn & Hks & Hin). exists h', n, ks.
    assert (h' ≠ h) as Hne. { intros ->. rewrite Hks, decide_True in Hk by done. by destruct Hk. }
    split_and!; [by apply Hnext|by rewrite lookup_delete_ne|done].
  - intros h' ks [Hne Hks]%lookup_delete_Some. destruct (po_spent_keys p Hp h' ks Hks) as (e' & He' & Hk). exists e'.
    by rewrite lookup_delete_ne.
Qed.

(** ** Which entries leave the pool *)

(** [c] spends one of the first [k] outputs of the transaction [h]. *)
Definition spender (p : CTxMemPool) (h : Z) (k : nat) (c : Z) : Prop :=
  ∃ i n, 0 ≤ i < Z.of_nat k ∧ mapNextTx p !! OutPoint h i = Some (c, n).
(** [c] spends an output of the entry [h]. *)
Definition spends_entry (p : CTxMemPool) (h c : Z) : Prop := ∃ e, mapTx p !! h = Some e ∧ spender p h (length (vout (e_tx e))) c.

Lemma children_spec p hash i n :
  pool_ok p → 0 ≤ i →
  ∃ l, children p hash i n = Ok l ∧ (length l ≤ n)%nat ∧
    ∀ c, c ∈ l ↔ ∃ j k, i ≤ j < i + Z.of_nat n ∧ mapNextTx p !! OutPoint hash j = Some (c, k).
Proof.
  intros Hp. revert i. induction n as [|n IH]; intros i Hi; cbn [children].
  { exists []. split_and!; [done..|]. intros c. split; [by intros ?%elem_of_nil|]. intros (j & k & ? & _). lia. }
  destruct (IH (i + 1) ltac:(lia)) as (l & -> & Hlen & Hl). destruct (mapNextTx p !! OutPoint hash i) as [[ptx k]|] eqn:E.
  - destruct (spender_in p _ _ _ Hp E) as (e & t & He & _ & _). rewrite He. cbn [mbind outcome_bind].
    rewrite (po_hash p Hp ptx e He). eexists. split_and!; [done|cbn; lia|]. intros c. rewrite elem_of_cons, Hl. split.
    + intros [->|(j & k' & Hj & Hk')]; [exists i, k; split; [lia|done]|exists j, k'; split; [lia|done]].
    + intros (j & k' & Hj & Hk'). destruct (decide (j = i)) as [->|Hne]; [left; congruence|].
      right. exists j, k'. split; [lia|done].
  - exists l. split_and!; [done|lia|]. intros c. rewrite Hl. split; intros (j & k' & Hj & Hk'); exists j, k'; (split; [|done]); [lia|].
    destruct (decide (j = i)) as [->|Hne]; [congruence|lia].
Qed.

Lemma children_spender p hash n :
  pool_ok p → ∃ l, children p hash 0 n = Ok l ∧ (length l ≤ n)%nat ∧ ∀ c, c ∈ l ↔ spender p hash n c.
Proof. intros Hp. apply (children_spec p hash 0 n Hp). lia. Qed.

(** [p] is [p0] without the entries of [R]. *)
Record without (p0 : CTxMemPool) (R : gset Z) (p : CTxMemPool) : Prop := {
  wo_ok : pool_ok p;
  wo_tx h : mapTx p !! h = if decide (h ∈ R) then None else mapTx p0 !! h;
  wo_deltas : mapDeltas p = mapDeltas p0
}.

Lemma without_next p0 R p o h n :
  pool_ok p0 → without p0 R p → mapNextTx p !! o = Some (h, n) ↔ mapNextTx p0 !! o = Some (h, n) ∧ h ∉ R.
Proof.
  intros H0 [Hp Htx _]. rewrite (po_next p Hp), (po_next p0 H0). split.
  - intros (e & t & He & Hn). rewrite Htx in He. case_decide; [done|]. split; [by exists e, t|done].
  - intros [(e & t & He & Hn) Hr]. exists e, t. by rewrite Htx, decide_False.
Qed.

Lemma without_erase p0 R p h e :
  without p0 R p → mapTx p !! h = Some e → without p0 ({[ h ]} ∪ R) (erase_entry h e p).
Proof.
  intros [Hp Htx Hd] He. destruct (erase_entry_maps h e p) as (E1 & _ & E3 & _). split.
  - by apply erase_entry_ok.
  - intros h'. rewrite E1. destruct (decide (h' = h)) as [->|Hne].
    + rewrite lookup_delete_eq, decide_True; [done|set_solver].
    + rewrite lookup_delete_ne, Htx by done. apply decide_ext. set_solver.
  - by rewrite E3.
Qed.

Lemma outputs_total_delete p h e :
  mapTx p !! h = Some e → outputs_total p = (length (vout (e_tx e)) + outputs_total (erase_entry h e p))%nat.
Proof.
  intros He. destruct (erase_entry_maps h e p) as (E1 & _). unfold outputs_total. rewrite E1.
  rewrite (map_fold_delete_L _ _ h e (mapTx p)); [done|lia|done].
Qed.

Record removal (p0 : CTxMemPool) (rec : bool) (R R' : gset Z) (queue : list Z) (l : list CTransaction) : Prop := {
  rm_sub : R ⊆ R';
  rm_from h : h ∈ R' → h ∉ R → is_Some (mapTx p0 !! h) ∧ ∃ q, q ∈ queue ∧ (if rec then rtc (spends_entry p0) q h else q = h);
  rm_queue h : h ∈ queue → h ∈ R' ∨ mapTx p0 !! h = None;
  rm_closed h c : rec = true → h ∈ R' → h ∉ R → spends_entry p0 h c → c ∈ R';
  rm_list tx : tx ∈ l ↔ ∃ h e, h ∈ R' ∧ h ∉ R ∧ mapTx p0 !! h = Some e ∧ tx = e_tx e
}.

Lemma remove_loop_spec p0 rec fuel queue R p removed :
  pool_ok p0 → without p0 R p → (length queue + outputs_total p ≤ fuel)%nat →
  ∃ p' R' l, remove_loop fuel rec queue p removed = Ok (p', removed ++ l) ∧ without p0 R' p' ∧ removal p0 rec R R' queue l.
Proof.
  intros H0. revert queue R p removed. induction fuel as [|fuel IH]; intros [|hash rest] R p removed Hp Hf; cbn [remove_loop];
    try (exists p, R, []; rewrite app_nil_r; split_and!; [done..|]; split; [done|done|by intros h ?%elem_of_nil|done|];
      intros tx; split; [by intros ?%elem_of_nil|by intros (h & e & ? & ? & _)]); [cbn in Hf; lia|].
  destruct (mapTx p !! hash) as [e|] eqn:He.
  - assert (hash ∉ R ∧ mapTx p0 !! hash = Some e) as [HhR He0].
    { rewrite (wo_tx _ _ _ Hp) in He. by case_decide. }
    set (k := length (vout (e_tx e))).
    assert (∃ more, (if rec then children p hash 0 k else Ok []) = Ok (E:=unit) more ∧ (length more ≤ k)%nat ∧
      (∀ c, c ∈ more → rec = true ∧ spends_entry p0 hash c) ∧
      (rec = true → ∀ c, spends_entry p0 hash c → c ∈ R ∨ c ∈ more)) as (more & -> & Hlen & Hmore & Hall).
    { destruct rec; [|exists []; split_and!; [done|cbn; lia|by intros c ?%elem_of_nil|done]].
      destruct (children_spender p hash k (wo_ok _ _ _ Hp)) as (l & -> & Hlen & Hl). exists l. split_and!; [done|done| |].
      - intros c (i & n & Hi & Hn)%Hl. apply (without_next p0 R p _ _ _ H0 Hp) in Hn as [Hn _]. split; [done|].
        exists e. split; [done|]. by exists i, n.
      - intros _ c (e' & He' & i & n & Hi & Hn). assert (e' = e) as -> by congruence.
        destruct (decide (c ∈ R)); [by left|]. right. apply Hl. exists i, n. split; [done|]. by apply (without_next p0 R p _ _ _ H0 Hp). }
    cbn [mbind outcome_bind].
    destruct (IH (rest ++ more) ({[ hash ]} ∪ R) (erase_entry hash e p) (removed ++ [e_tx e])) as (p' & R' & l & -> & Hp' & Hrm).
    { by apply without_erase. }
    { rewrite length_app. rewrite (outputs_total_delete p hash e He) in Hf. cbn in Hf. fold k in Hf. lia. }
    exists p', R', (e_tx e :: l). rewrite <- app_assoc. split_and!; [done..|]. destruct Hrm as [S1 S2 S3 S4 S5].
    assert (hash ∈ R') as HhR' by set_solver. split.
    + set_solver.
    + intros h Hh HnR. destruct (decide (h = hash)) as [->|Hne].
      { split; [by exists e|]. exists hash. split; [by left|]. by destruct rec. }
      destruct (S2 h Hh ltac:(set_solver)) as [Hs (q & Hq & Hqh)]. split; [done|].
      apply elem_of_app in Hq as [Hq|Hq]; [exists q; split; [by right|done]|].
      destruct (Hmore q Hq) as [-> Hsp]. exists hash. split; [by left|]. by eapply rtc_l.
    + intros h [->|Hh]%elem_of_cons; [by left|]. apply S3, elem_of_app. by left.
    + intros h c -> Hh HnR Hsp. destruct (decide (h = hash)) as [->|Hne]; [|by apply (S4 h c); [done|done|set_solver|done]].
      destruct (Hall eq_refl c Hsp) as [Hc|Hc]; [set_solver|]. destruct (S3 c) as [?|Hno]; [apply elem_of_app; by right|done|].
      destruct Hsp as (_ & _ & i & n & _ & Hn). destruct (spender_in p0 _ _ _ H0 Hn) as (ec & _ & Hec & _). congruence.
    + intros tx. rewrite elem_of_cons, S5. split.
      * intros [->|(h & e' & Hh & HnR & He' & ->)]; [exists hash, e; split_and!; done|].
        exists h, e'. split_and!; [done|set_solver|done..].
      * intros (h & e' & Hh & HnR & He' & ->). destruct (decide (h = hash)) as [->|Hne]; [left; congruence|].
        right. exists h, e'. split_and!; [done|set_solver|done..].
  - destruct (IH rest R p removed Hp) as (p' & R' & l & -> & Hp' & Hrm); [cbn in Hf; lia|]. exists p', R', l. split_and!; [done..|].
    destruct Hrm as [S1 S2 S3 S4 S5]. split; [done| | |done|done].
    + intros h Hh HnR. destruct (S2 h Hh HnR) as [Hs (q & Hq & Hqh)]. split; [done|]. exists q. split; [by right|done].
    + intros h [->|Hh]%elem_of_cons; [|by apply S3]. rewrite (wo_tx _ _ _ Hp) in He. case_decide; [left; by apply S1|by right].
Qed.

(** [h] is the transaction itself or comes from it by a chain of spending entries. *)
Definition descends (p : CTxMemPool) (tx : CTransaction) (h : Z) : Prop :=
  rtc (spends_entry p) (tx_hash tx) h ∨
  mapTx p !! tx_hash tx = None ∧ ∃ c, spender p (tx_hash tx) (length (vout tx)) c ∧ rtc (spends_entry p) c h.
Definition doomed (p : CTxMemPool) (tx : CTransaction) (rec : bool) (h : Z) : Prop :=
  is_Some (mapTx p !! h) ∧ if rec then descends p tx h else h = tx_hash tx.

Lemma without_refl p : pool_ok p → without p ∅ p.
Proof. intros Hp. split; [done| |done]. intros h. by rewrite decide_False by set_solver. Qed.

Lemma rtc_in_pool p q h : rtc (spends_entry p) q h → is_Some (mapTx p !! h) → is_Some (mapTx p !! q).
Proof. intros [->|(c & (e & He & _) & _)]%rtc_inv Hh; [done|by exists e]. Qed.

Lemma remove_spec tx removed rec p :
  pool_ok p →
  ∃ p' l R, remove tx removed rec p = Ok (p', removed ++ l) ∧ without p R p' ∧ (∀ h, h ∈ R ↔ doomed p tx rec h) ∧
    (∀ t, t ∈ l ↔ ∃ h e, h ∈ R ∧ mapTx p !! h = Some e ∧ t = e_tx e).
Proof.
  intros Hp. unfold remove. set (hash := tx_hash tx).
  assert (∃ orphans, (if rec && negb (exists_ p hash) then children p hash 0 (length (vout tx)) else Ok []) = Ok (E:=unit) orphans ∧
    ∀ c, c ∈ orphans ↔ rec = true ∧ mapTx p !! hash = None ∧ spender p hash (length (vout tx)) c) as (orphans & -> & Horph).
  { unfold exists_. destruct rec; cbn [andb]; [|exists []; split; [done|intros c; split; [by intros ?%elem_of_nil|by intros [? _]]]].
    case_bool_decide as Hs; cbn [negb].
    - exists []. split; [done|]. intros c. split; [by intros ?%elem_of_nil|]. intros (_ & Hn & _). rewrite Hn in Hs. by destruct Hs.
    - destruct (children_spender p hash (length (vout tx)) Hp) as (l & -> & _ & Hl). exists l. split; [done|]. intros c.
      rewrite Hl. apply eq_None_not_Some in Hs. naive_solver. }
  cbn [mbind outcome_bind].
  destruct (remove_loop_spec p rec (length (hash :: orphans) + outputs_total p) (hash :: orphans) ∅ p removed Hp) as
    (p' & R & l & -> & Hw & Hrm); [by apply without_refl|lia|].
  exists p', l, R. destruct Hrm as [_ S2 S3 S4 S5]. split_and!; [done|done| |].
  - intros h. split.
    + intros Hh. destruct (S2 h Hh ltac:(set_solver)) as [Hs (q & Hq & Hqh)]. split; [done|].
      destruct rec; [|apply elem_of_cons in Hq as [->|Hq]; [done|by apply Horph in Hq as [? _]]].
      apply elem_of_cons in Hq as [->|Hq]; [by left|]. apply Horph in Hq as (_ & Hn & Hsp). right. split; [done|]. by exists q.
    + intros [Hs Hd].
      assert (∀ q, q ∈ hash :: orphans → is_Some (mapTx p !! q) → q ∈ R) as Hin.
      { intros q Hq [e He]. destruct (S3 q Hq) as [?|Hn]; [done|congruence]. }
      destruct rec; [|subst h; apply Hin; [by left|done]].
      assert (∀ q, q ∈ R → rtc (spends_entry p) q h → h ∈ R) as Hclo.
      { intros q Hq Hr. induction Hr as [|q c h Hqc Hr IH]; [done|]. apply IH; [done..|]. apply (S4 q c eq_refl); [done|set_solver|done]. }
      destruct Hd as [Hr|(Hn & c & Hc & Hr)].
      * apply (Hclo hash); [|done]. apply Hin; [by left|by eapply rtc_in_pool].
      * apply (Hclo c); [|done]. apply Hin; [right; by apply Horph|by eapply rtc_in_pool].
  - intros t. rewrite S5. split; intros (h & e & Hh & ?).
    + exists h, e. split; [done|]. naive_solver.
    + exists h, e. split; [done|]. split; [set_solver|done].
Qed.

Lemma spends_entry_in p h c : pool_ok p → spends_entry p h c → is_Some (mapTx p !! h) ∧ is_Some (mapTx p !! c).
Proof.
  intros Hp (e & He & i & n & _ & Hn). split; [by exists e|]. destruct (spender_in p _ _ _ Hp Hn) as (ec & _ & Hec & _). by exists ec.
Qed.
Lemma doomed_closed p tx h c : pool_ok p → doomed p tx true h → spends_entry p h c → doomed p tx true c.
Proof.
  intros Hp [_ Hd] Hc. split; [by apply (spends_entry_in p h c)|]. destruct Hd as [Hr|(Hn & c' & Hc' & Hr)]; [left|right; split; [done|exists c'; split; [done|]]];
    by eapply rtc_r.
Qed.

(** What every removal leaves: a consistent pool whose entries were there before.
    Unless it is one of [X], an entry takes along what spends its outputs. *)
Record smaller (X : gset Z) (p p' : CTxMemPool) : Prop := {
  sm_ok : pool_ok p';
  sm_sub h e : mapTx p' !! h = Some e → mapTx p !! h = Some e;
  sm_closed h c : spends_entry p h c → h ∉ X → mapTx p' !! h = None → mapTx p' !! c = None
}.
Lemma smaller_refl X p : pool_ok p → smaller X p p.
Proof. intros Hp. split; [done|done|]. intros h c [[e He] _]%spends_entry_in _ Hn; [congruence|done]. Qed.
Lemma smaller_spends X p p' h c :
  pool_ok p → smaller X p p' → spends_entry p h c → is_Some (mapTx p' !! h) → is_Some (mapTx p' !! c) → spends_entry p' h c.
Proof.
  intros Hp [Hp' Hs _] (e & He & i & n & Hi & (ec & t & Hec & Hn)%(po_next p Hp)) [e' He'] [ec' Hec'].
  pose proof (Hs _ _ He'). pose proof (Hs _ _ Hec'). exists e. split; [congruence|]. exists i, n. split; [done|].
  apply (po_next p' Hp'). exists ec, t. split; [congruence|done].
Qed.
Lemma smaller_trans X p1 p2 p3 : pool_ok p1 → smaller X p1 p2 → smaller X p2 p3 → smaller X p1 p3.
Proof.
  intros Hp H12 H23. split; [by apply H23|intros h e He; by apply (sm_sub X p1 p2 H12), (sm_sub X p2 p3 H23)|].
  intros h c Hsp HX Hn. destruct (mapTx p3 !! c) as [ec|] eqn:Ec; [|done]. apply (sm_sub X p2 p3 H23) in Ec as Ec2.
  destruct (mapTx p2 !! h) as [e|] eqn:E2.
  - rewrite (sm_closed X p2 p3 H23 h c) in Ec; [done| |done..].
    apply (smaller_spends X p1 p2); [done..| |]; rewrite ?E2, ?Ec2; by eexists.
  - rewrite (sm_closed X p1 p2 H12 h c) in Ec2; done.
Qed.
Lemma smaller_next X p p' o h n : pool_ok p → smaller X p p' → mapNextTx p' !! o = Some (h, n) → mapNextTx p !! o = Some (h, n).
Proof. intros Hp [Hp' Hs _] (e & t & He & Hn)%(po_next p' Hp'). apply (po_next p Hp). exists e, t. split; [by apply Hs|done]. Qed.
Lemma smaller_free X p p' o : pool_ok p → smaller X p p' → mapNextTx p !! o = None → mapNextTx p' !! o = None.
Proof.
  intros Hp Hs Ho. destruct (mapNextTx p' !! o) as [[h n]|] eqn:E; [|done].
  apply (smaller_next X p p' o h n Hp Hs) in E. congruence.
Qed.
Lemma smaller_gone X p p' h : smaller X p p' → mapTx p !! h = None → mapTx p' !! h = None.
Proof. intros Hs Hn. destruct (mapTx p' !! h) eqn:E; [|done]. apply (sm_sub X p p' Hs) in E. congruence. Qed.
Lemma without_smaller X p R p' :
  without p R p' → (∀ h c, h ∈ R → h ∉ X → spends_entry p h c → c ∈ R) → pool_ok p → smaller X p p'.
Proof.
  intros [Hp Htx _] HR Hp0. split; [done| |]; intros h e; rewrite Htx; [by case_decide|]. intros Hsp HX. rewrite Htx.
  destruct (decide (h ∈ R)) as [Hin|Hin]; [by rewrite decide_True by eauto|]. intros Hn.
  destruct (spends_entry_in p h e Hp0 Hsp) as [[? ?] _]. congruence.
Qed.

(** The recursive removal leaves such a pool, without the transaction. *)
Lemma remove_smaller X tx removed p :
  pool_ok p → ∃ p' l, remove tx removed true p = Ok (p', removed ++ l) ∧ smaller X p p' ∧ mapTx p' !! tx_hash tx = None.
Proof.
  intros Hp. destruct (remove_spec tx removed true p Hp) as (p' & l & R & -> & Hw & HR & _). exists p', l. split_and!; [done| |].
  - eapply without_smaller; [done| |done]. intros h c Hh _ Hsp. apply HR. apply HR in Hh. by eapply doomed_closed.
  - rewrite (wo_tx _ _ _ Hw). destruct (mapTx p !! tx_hash tx) as [e|] eqn:E; [|by case_decide].
    rewrite decide_True; [done|]. apply HR. split; [by exists e|]. left. apply rtc_refl.
Qed.
(** And the removal of only the transaction, when it is one of [X]. *)
Lemma remove_one X tx removed p :
  pool_ok p → tx_hash tx ∈ X →
  ∃ p' l, remove tx removed false p = Ok (p', removed ++ l) ∧ smaller X p p' ∧ mapTx p' !! tx_hash tx = None.
Proof.
  intros Hp HX. destruct (remove_spec tx removed false p Hp) as (p' & l & R & -> & Hw & HR & _). exists p', l. split_and!; [done| |].
  - eapply without_smaller; [done| |done]. intros h c [_ ->]%HR HnX. done.
  - rewrite (wo_tx _ _ _ Hw). destruct (mapTx p !! tx_hash tx) as [e|] eqn:E; [|by case_decide].
    rewrite decide_True; [done|]. apply HR. split; [by exists e|done].
Qed.

(** The entries that go are those that spend one of the inputs, other than the
    transaction itself, and their descendants. *)
Lemma removeConflicts_loop_spec X tx ins removed p :
  pool_ok p →
  ∃ p' l, removeConflicts_loop tx ins removed p = Ok (p', l) ∧ smaller X p p' ∧
    ∀ t h n, t ∈ ins → mapNextTx p' !! prevout t = Some (h, n) → h = tx_hash tx.
Proof.
  revert removed p. induction ins as [|t ins IH]; intros removed p Hp; cbn [removeConflicts_loop].
  { exists p, removed. split_and!; [done|by apply smaller_refl|]. by intros t h n ?%elem_of_nil. }
  destruct (mapNextTx p !! prevout t) as [[h n]|] eqn:En.
  - destruct (spender_in p _ _ _ Hp En) as (e & _ & He & _). rewrite He, (po_hash p Hp h e He).
    destruct (h =? tx_hash tx) eqn:E.
    + apply Z.eqb_eq in E as ->. destruct (IH removed p Hp) as (p' & l & -> & Hs & Hl). exists p', l. split_and!; [done..|].
      intros t' h' n' [->|Ht]%elem_of_cons Hn; [|by eapply Hl]. apply (smaller_next X p p' _ _ _ Hp Hs) in Hn. congruence.
    + destruct (remove_smaller X (e_tx e) removed p Hp) as (p1 & l1 & -> & H1 & Hgone). rewrite (po_hash p Hp h e He) in Hgone.
      cbn [mbind outcome_bind]. destruct (IH (removed ++ l1) p1 (sm_ok _ _ _ H1)) as (p' & l & -> & Hs & Hl). exists p', l.
      split_and!; [done|by eapply smaller_trans|].
      intros t' h' n' [->|Ht]%elem_of_cons Hn; [|by eapply Hl]. exfalso. apply (smaller_next X p1 p' _ _ _ (sm_ok _ _ _ H1) Hs) in Hn as Hn1.
      apply (smaller_next X p p1 _ _ _ Hp H1) in Hn1 as Hn0. assert (h' = h) as -> by congruence.
      destruct (spender_in p1 _ _ _ (sm_ok _ _ _ H1) Hn1) as (e' & _ & He' & _). congruence.
  - destruct (IH removed p Hp) as (p' & l & -> & Hs & Hl). exists p', l. split_and!; [done..|].
    intros t' h' n' [->|Ht]%elem_of_cons Hn; [|by eapply Hl]. apply (smaller_next X p p' _ _ _ Hp Hs) in Hn. congruence.
Qed.

Lemma smaller_ClearPrioritisation X p p' h : smaller X p p' → smaller X p (ClearPrioritisation h p').
Proof. intros [[? ? ? ? ? ? ?] ? ?]. done. Qed.

(** After a block, neither its transactions nor spenders of their inputs are left. *)
Lemma removeForBlock_loop_spec X vtx conflicts p :
  pool_ok p → (∀ tx, tx ∈ vtx → tx_hash tx ∈ X) →
  ∃ p' l, removeForBlock_loop vtx conflicts p = Ok (p', l) ∧ smaller X p p' ∧
    ∀ tx, tx ∈ vtx → mapTx p' !! tx_hash tx = None ∧ ∀ t, t ∈ vin tx → mapNextTx p' !! prevout t = None.
Proof.
  revert conflicts p. induction vtx as [|tx vtx IH]; intros conflicts p Hp HX; cbn [removeForBlock_loop].
  { exists p, conflicts. split_and!; [done|by apply smaller_refl|]. by intros tx ?%elem_of_nil. }
  destruct (remove_one X tx [] p Hp) as (p1 & l1 & -> & H1 & G1); [by apply HX; left|]. cbn [mbind outcome_bind]. unfold removeConflicts.
  destruct (removeConflicts_loop_spec X tx (vin tx) conflicts p1 (sm_ok _ _ _ H1)) as (p2 & l2 & -> & H2 & G2). cbn [mbind outcome_bind].
  pose proof (smaller_ClearPrioritisation X p1 p2 (tx_hash tx) H2) as H3. set (p3 := ClearPrioritisation _ p2) in *.
  destruct (IH l2 p3 (sm_ok _ _ _ H3)) as (p' & l & -> & H4 & G4); [intros; apply HX; by right|]. exists p', l.
  assert (smaller X p1 p') as H5 by (eapply smaller_trans; [apply H1|done..]). split_and!; [done|by eapply smaller_trans|].
  intros tx' [->|Htx]%elem_of_cons; [|by apply G4]. split; [by eapply smaller_gone|].
  intros t Ht. destruct (mapNextTx p' !! prevout t) as [[h n]|] eqn:En; [|done]. exfalso.
  apply (smaller_next X p3 p' _ _ _ (sm_ok _ _ _ H3) H4) in En as E3.
  assert (mapNextTx p2 !! prevout t = Some (h, n)) as E2 by done. pose proof (G2 t h n Ht E2) as ->.
  destruct (spender_in p2 _ _ _ (sm_ok _ _ _ H2) E2) as (e & _ & He & _). apply (sm_sub _ _ _ H2) in He. congruence.
Qed.

(** ** Adding an entry *)

Lemma lookup_mark_spent hash i ins m o :
  NoDup (prevout <$> ins) → 0 ≤ i →
  ∀ h n, mark_spent hash i ins m !! o = Some (h, n) ↔
    (h = hash ∧ i ≤ n ∧ ∃ t, ins !! Z.to_nat (n - i) = Some t ∧ prevout t = o) ∨ (o ∉ prevout <$> ins ∧ m !! o = Some (h, n)).
Proof.
  revert i m. induction ins as [|t ins IH]; intros i m Hnd Hi h n; cbn [mark_spent].
  { split; [intros E; right; split; [apply not_elem_of_nil|done]|]. by intros [(_ & _ & t & ? & _)|[_ ?]]. }
  rewrite fmap_cons in *. apply list.NoDup_cons in Hnd as [Hnin Hnd]. rewrite IH by (done || lia). rewrite not_elem_of_cons. split.
  - intros [(-> & Hn & t' & Ht' & Ho)|[Hnot E]].
    + left. split_and!; [done|lia|]. exists t'. split; [|done]. replace (Z.to_nat (n - i)) with (S (Z.to_nat (n - (i + 1)))) by lia. done.
    + destruct (decide (o = prevout t)) as [->|Hne].
      * rewrite lookup_insert_eq in E. injection E as <- <-. left. split_and!; [done|lia|]. exists t. by rewrite Z.sub_diag.
      * rewrite lookup_insert_ne in E by done. by right.
  - intros [(-> & Hn & t' & Ht' & Ho)|[[Hne Hnot] E]].
    + destruct (decide (n = i)) as [->|Hni].
      * rewrite Z.sub_diag in Ht'. injection Ht' as ->. right. subst o. split; [done|]. by rewrite lookup_insert_eq.
      * left. split_and!; [done|lia|]. exists t'. split; [|done]. by replace (Z.to_nat (n - i)) with (S (Z.to_nat (n - (i + 1)))) in Ht' by lia.
    + right. split; [done|]. by rewrite lookup_insert_ne.
Qed.

(** What acceptance makes sure of before it adds an entry. *)
Record addable (p : CTxMemPool) (hash : Z) (e : CTxMemPoolEntry) : Prop := {
  ad_hash : tx_hash (e_tx e) = hash;
  ad_new : mapTx p !! hash = None;
  ad_inputs : NoDup (prevout <$> vin (e_tx e));
  ad_free t : t ∈ vin (e_tx e) → mapNextTx p !! prevout t = None
}.

Lemma addUnchecked_ok hash e p : pool_ok p → addable p hash e → pool_ok (addUnchecked hash e p).
Proof.
  intros Hp [Hh Hnew Hnd Hfree].
  assert (∀ h e', mapTx p !! h = Some e' → h ≠ hash) as Hne by (intros h e' He ->; congruence).
  split; cbn [addUnchecked set_pool mapTx mapNextTx totalTxSize mapAddress mapAddressInserted mapSpent mapSpentInserted].
  - intros h e' [[<- <-]|[_ He]]%lookup_insert_Some; [done|by apply (po_hash p Hp)].
  - intros o h n. rewrite lookup_mark_spent by done. split.
    + intros [(-> & Hn & t & Ht & Ho)|[Hnot E]].
      * exists e, t. rewrite lookup_insert_eq, Z.sub_0_r in *. done.
      * apply (po_next p Hp) in E as (e' & t & He & Hr). exists e', t. by rewrite lookup_insert_ne by (symmetry; by eapply Hne).
    + intros (e' & t & [[<- <-]|[Hhne He]]%lookup_insert_Some & Hn & Ht & Ho).
      * left. split_and!; [done..|]. exists t. by rewrite Z.sub_0_r.
      * right. assert (mapNextTx p !! o = Some (h, n)) as E by (apply (po_next p Hp); by exists e', t). split; [|done].
        intros (t' & -> & Ht')%list_elem_of_fmap. rewrite Hfree in E by done. discriminate.
  - rewrite (po_total p Hp), size_total_insert by done. unfold u64. rewrite Zplus_mod_idemp_l. f_equal. lia.
  - apply (po_address p Hp).
  - intros h ks Hks. destruct (po_address_keys p Hp h ks Hks) as [[e' He] Hk]. split; [|done].
    exists e'. rewrite lookup_insert_ne; [done|]. symmetry. by eapply Hne.
  - intros k Hk. destruct (po_spent p Hp k Hk) as (h & n & ks & E & Hr). exists h, n, ks. split; [|done].
    apply lookup_mark_spent; [done..|]. right. split; [|done]. intros (t' & Ho & Ht')%list_elem_of_fmap.
    rewrite Ho, Hfree in E by done. discriminate.
  - intros h ks Hks. destruct (po_spent_keys p Hp h ks Hks) as (e' & He & Hk). exists e'. split; [|done].
    rewrite lookup_insert_ne; [done|]. symmetry. by eapply Hne.
Qed.

(** Checks [addable]. *)
Definition addable_b (p : CTxMemPool) (hash : Z) (e : CTxMemPoolEntry) : bool :=
  (tx_hash (e_tx e) =? hash) && negb (exists_ p hash) && bool_decide (NoDup (prevout <$> vin (e_tx e))) &&
  forallb (λ t, negb (bool_decide (is_Some (mapNextTx p !! prevout t)))) (vin (e_tx e)).
Lemma addable_check p hash e : addable_b p hash e = true → addable p hash e.
Proof.
  unfold addable_b, exists_. rewrite !andb_true_iff, !negb_true_iff, Z.eqb_eq, forallb_forall, bool_decide_eq_true, bool_decide_eq_false.
  intros [[[Hh Hn] Hnd] Hf]. split; [done|by apply eq_None_not_Some|done|]. intros t Ht%list_elem_of_In%Hf.
  apply negb_true_iff, bool_decide_eq_false in Ht. by apply eq_None_not_Some.
Qed.

(** ** Properties *)

(** C27: from a consistent pool, [remove] always succeeds and takes out exactly the
    given transaction and, when it is recursive, every entry that comes from it by
    a chain of spent outputs, also when the transaction itself is not in the pool;
    what it took out is appended to the list; everything else stays, the pool is
    consistent, and no output is marked as spent by what has left. *)
Theorem remove_takes_descendants (tx : CTransaction) (removed : list CTransaction) (rec : bool) (p : CTxMemPool) :
  pool_ok p →
  ∃ p' l, remove tx removed rec p = Ok (p', removed ++ l) ∧ pool_ok p' ∧ mapDeltas p' = mapDeltas p ∧
    (∀ h e, mapTx p' !! h = Some e ↔ mapTx p !! h = Some e ∧ ¬ doomed p tx rec h) ∧
    (∀ t, t ∈ l ↔ ∃ h e, mapTx p !! h = Some e ∧ doomed p tx rec h ∧ t = e_tx e) ∧
    (∀ o h n, mapNextTx p' !! o = Some (h, n) ↔ mapNextTx p !! o = Some (h, n) ∧ ¬ doomed p tx rec h).
Proof.
  intros Hp. destruct (remove_spec tx removed rec p Hp) as (p' & l & R & -> & Hw & HR & Hl). exists p', l.
  split_and!; [done|apply Hw|apply Hw| | |].
  - intros h e. rewrite (wo_tx _ _ _ Hw), <- HR. case_decide; naive_solver.
  - intros t. rewrite Hl. split; intros (h & e & H1 & H2 & H3); exists h, e; rewrite HR in *; done.
  - intros o h n. rewrite (without_next p R p' o h n Hp Hw), <- HR. done.
Qed.

(** A chain of two transactions and a third one beside it. *)
Module PoolDemo.
Definition pay (h : Z) (ins : list COutPoint) (outs : nat) : CTransaction :=
  Tx h 1 ((λ o, TxIn o [] 0xffffffff []) <$> ins) (replicate outs (TxOut 10 [OP_1] (-10))) 0.
Definition entry (tx : CTransaction) : CTxMemPoolEntry := PoolEntry tx 1 100 100 0 d_zero 7.
Definition add (tx : CTransaction) (p : CTxMemPool) : CTxMemPool := addUnchecked (tx_hash tx) (entry tx) p.
Definition a : CTransaction := pay 11 [OutPoint 5 0] 2.
Definition b : CTransaction := pay 12 [OutPoint 11 1] 1.
Definition c : CTransaction := pay 13 [OutPoint 6 0; OutPoint 6 1] 1.
Definition pool : CTxMemPool := add c (add b (add a CTxMemPool_empty)).
Lemma pool_consistent : pool_ok pool.
Proof. repeat (apply addUnchecked_ok; [|apply addable_check; by vm_compute]). apply pool_ok_empty. Qed.
End PoolDemo.

Lemma remove_takes_descendants_witness :
  let tx := PoolDemo.pay 5 [] 1 in
  pool_ok PoolDemo.pool ∧ (∃ p', remove tx [] true PoolDemo.pool = Ok (p', [PoolDemo.a; PoolDemo.b]) ∧ queryHashes p' = [13]) ∧
  ∃ p' l, remove tx [] true PoolDemo.pool = Ok (p', [] ++ l) ∧ pool_ok p'.
Proof.
  cbn zeta. split_and!; [exact PoolDemo.pool_consistent|eexists; split; vm_compute; reflexivity|].
  destruct (remove_takes_descendants (PoolDemo.pay 5 [] 1) [] true PoolDemo.pool PoolDemo.pool_consistent) as (p' & l & E & Hok & _).
  by exists p', l.
Defined.
