(* ===== verification/MempoolInputs.v ===== *)
(** * The memory pool and the unspent outputs (txmempool.cpp, removeForBlock)

    What every entry of the pool may spend: an output of another entry, or an
    unspent output of the chain.  Connecting a block changes the unspent outputs
    ([Utxo.updates]) and the pool ([removeForBlock]); together they keep every
    input of the pool available.  Adding an entry keeps the pool consistent. *)
From stdpp Require Import base tactics list gmap numbers option.
From Stdlib Require Import ZArith Lia.
From S2P Require Import Prelude.
From S2P Require Import Double.
From S2P Require Import ScriptCode.
From S2P Require Import Transaction.
From S2P Require Import Standard.
From S2P Require Import Coins.
From S2P Require Import CoinsView.
From S2P Require Import Utxo.
From S2P Require Import AddressIndex.
From S2P Require Import Mempool.

(** ** Available outputs *)

Definition avail (u : utxo_map) (h : Z) (n : nat) : bool :=
  match u !! h with Some c => IsAvailable c n | None => false end.
Definition place (i : CTxIn) : Z * nat := (prevout_hash (prevout i), prevout_pos i).

Lemma avail_put u t c h n :
  avail (put u t (unspent (Some c))) h n = if decide (h = t) then IsAvailable c n else avail u h n.
Proof.
  unfold avail. rewrite lookup_put. case_decide; [|done]. rewrite unspent_Some. destruct (IsPruned c) eqn:E; [|done].
  unfold IsAvailable, IsPruned in *. destruct (c_vout c !! n) as [o|] eqn:Eo; [|done].
  rewrite forallb_forall in E. rewrite (E o); [done|]. apply list_elem_of_In. by eapply list_elem_of_lookup_2.
Qed.

(** Spending another output leaves it. *)
Lemma avail_spend1 u i x u' h n :
  utxo_ok u → spend1 u i = Some (x, u') → place i ≠ (h, n) → avail u h n = true → avail u' h n = true.
Proof.
  intros Hu (c & c' & Hc & Es & Hcl & ->)%spend1_inv; [|done]. intros Hne Ha. rewrite avail_put. case_decide as Hh; [|done].
  subst h. unfold avail in Ha. rewrite Hc in Ha. pose proof (Spend_spec c (prevout_pos i) Hcl) as S. rewrite Es in S.
  destruct S as (_ & _ & _ & Hi & _). rewrite Hi, decide_False; [done|]. intros ->. done.
Qed.
Lemma avail_spends u ins xs u' h n :
  utxo_ok u → spends u ins = Some (xs, u') → (h, n) ∉ place <$> ins → avail u h n = true → avail u' h n = true.
Proof.
  revert u xs. induction ins as [|i ins IH]; intros u xs Hu; cbn [spends]; [by intros [= _ <-]|].
  destruct (spend1 u i) as [[x u1]|] eqn:E1; [|done]. cbn [mbind option_bind].
  destruct (spends u1 ins) as [[ys u2]|] eqn:E2; [|done]. cbn. intros [= _ <-] [Hne Hin]%not_elem_of_cons Ha.
  eapply IH; [by eapply spend1_ok|exact E2|done|]. eapply avail_spend1; [done|exact E1|congruence|done].
Qed.
Lemma FromTx_height tx h1 h2 n : IsAvailable (FromTx tx h1) n = IsAvailable (FromTx tx h2) n.
Proof. unfold FromTx, ClearUnspendable. by rewrite !IsAvailable_Cleanup. Qed.

Lemma avail_update u tx k xs u' h n :
  utxo_ok u → update u tx k = Some (xs, u') → u !! tx_hash tx = None → (h, n) ∉ place <$> vin tx →
  (avail u h n = true → avail u' h n = true) ∧
  (h = tx_hash tx → IsAvailable (FromTx tx k) n = true → avail u' h n = true).
Proof.
  intros Hu (u1 & E1 & -> & _ & _)%update_inv Hf Hin.
  split.
  - intros Ha. rewrite avail_put, decide_False.
    + destruct (negb (IsCoinBase tx)); [by eapply avail_spends|]. by injection E1 as _ <-.
    + intros ->. unfold avail in Ha. by rewrite Hf in Ha.
  - intros -> Ha. by rewrite avail_put, decide_True.
Qed.

Lemma update_ok u tx k xs u' : utxo_ok u → update u tx k = Some (xs, u') → utxo_ok u'.
Proof.
  intros Hu (u1 & E1 & -> & _ & _)%update_inv.
  assert (utxo_ok u1) as H1. { destruct (negb (IsCoinBase tx)); [by eapply total_spends|]. by injection E1 as _ <-. }
  intros t c. rewrite lookup_put, unspent_Some. case_decide; [|apply H1]. destruct (IsPruned _) eqn:Ep; [done|].
  intros [= <-]. split; [apply FromTx_clean|done].
Qed.

(** Through a block: an output that the block does not spend stays, one that the
    block creates and does not spend is there. *)
Lemma avail_updates u txs k xss u' h n :
  utxo_ok u → updates u txs k = Some (xss, u') → NoDup (tx_hash <$> txs) →
  (∀ tx, tx ∈ txs → u !! tx_hash tx = None ∧ (h, n) ∉ place <$> vin tx) →
  (avail u h n = true → avail u' h n = true) ∧
  (∀ tx, tx ∈ txs → h = tx_hash tx → IsAvailable (FromTx tx k) n = true → avail u' h n = true).
Proof.
  revert u xss. induction txs as [|tx txs IH]; intros u xss Hu; cbn [updates].
  { intros [= _ <-] _ _. split; [done|by intros tx ?%elem_of_nil]. }
  destruct (update u tx k) as [[xs u1]|] eqn:E1; [|done]. cbn [mbind option_bind].
  destruct (updates u1 txs k) as [[yss u2]|] eqn:E2; [|done]. cbn. intros [= _ <-] [Hnin Hnd]%list.NoDup_cons Htxs.
  destruct (Htxs tx (list_elem_of_here _ _)) as [Hf Hin].
  destruct (avail_update u tx k xs u1 h n Hu E1 Hf Hin) as [A1 A2].
  destruct (IH u1 yss) as [B1 B2]; [by eapply update_ok|done|done| |].
  { intros tx' Htx'. destruct (Htxs tx') as [Hf' Hin']; [by right|]. split; [|done]. eapply update_fresh; [exact E1|done|].
    intros Heq. apply Hnin. rewrite <- Heq. by apply list_elem_of_fmap_2. }
  split; [auto|]. intros tx' [->|Htx']%elem_of_cons; [auto|by apply B2].
Qed.

(** ** Inputs of the pool *)

(** What an input may spend. *)
Definition input_ok (p : CTxMemPool) (u : utxo_map) (i : CTxIn) : bool :=
  (0 <=? prevout_n (prevout i)) &&
  match mapTx p !! prevout_hash (prevout i) with
  | Some e => IsAvailable (FromTx (e_tx e) MEMPOOL_HEIGHT) (prevout_pos i)
  | None => avail u (prevout_hash (prevout i)) (prevout_pos i)
  end.
Definition inputs_ok (p : CTxMemPool) (u : utxo_map) : Prop :=
  ∀ h e i, mapTx p !! h = Some e → i ∈ vin (e_tx e) → input_ok p u i = true.

(** Both conditions are decidable. *)
Definition inputs_ok_b (p : CTxMemPool) (u : utxo_map) : bool :=
  forallb (λ he, forallb (input_ok p u) (vin (e_tx he.2))) (map_to_list (mapTx p)).
Lemma inputs_ok_check p u : inputs_ok_b p u = true → inputs_ok p u.
Proof.
  unfold inputs_ok_b. rewrite forallb_forall. intros Ha h e i He Hi. specialize (Ha (h, e)). rewrite forallb_forall in Ha.
  apply Ha; [by apply list_elem_of_In, elem_of_map_to_list|by apply list_elem_of_In].
Qed.
Definition utxo_ok_b (u : utxo_map) : bool := forallb (λ tc, bool_decide (clean tc.2) && negb (IsPruned tc.2)) (map_to_list u).
Lemma utxo_ok_check u : utxo_ok_b u = true → utxo_ok u.
Proof.
  unfold utxo_ok_b. rewrite forallb_forall. intros Ha t c Hc. specialize (Ha (t, c)). rewrite <- list_elem_of_In, elem_of_map_to_list in Ha.
  apply Ha in Hc as [H1 H2]%andb_true_iff. apply bool_decide_eq_true in H1. by apply negb_true_iff in H2.
Qed.

Lemma place_inj i j : 0 ≤ prevout_n (prevout i) → 0 ≤ prevout_n (prevout j) → place i = place j → prevout i = prevout j.
Proof.
  unfold place, prevout_pos. destruct (prevout i) as [h n], (prevout j) as [h' n']. cbn. intros ? ? [= -> ?]. f_equal. lia.
Qed.

(** An entry that spends an output of another entry. *)
Lemma input_spends p u h e i ep :
  pool_ok p → mapTx p !! h = Some e → i ∈ vin (e_tx e) → input_ok p u i = true →
  mapTx p !! prevout_hash (prevout i) = Some ep → spends_entry p (prevout_hash (prevout i)) h.
Proof.
  intros Hp He Hi Hok Hep. unfold input_ok in Hok. rewrite Hep in Hok. apply andb_true_iff in Hok as [Hn Ha]. apply Z.leb_le in Hn.
  destruct (spender_of p h e i Hp He Hi) as [n Hspent]. exists ep. split; [done|].
  exists (prevout_n (prevout i)), n. split.
  - split; [done|]. unfold FromTx, ClearUnspendable in Ha. rewrite IsAvailable_Cleanup in Ha. unfold IsAvailable in Ha.
    cbn [c_vout with_vout] in Ha. rewrite list_lookup_fmap in Ha. unfold prevout_pos in Ha.
    destruct (Cleanup_vout_prefix (vout (e_tx ep))) as [r Hr].
    destruct (vout (e_tx ep) !! Z.to_nat (prevout_n (prevout i))) as [o|] eqn:Eo; [|by rewrite ?Eo in Ha].
    apply lookup_lt_Some in Eo. lia.
  - by destruct (prevout i).
Qed.

Section Connected.
Context (X : gset Z) (p p' : CTxMemPool) (u u' : utxo_map) (vtx : list CTransaction) (k : Z) (xss : list (list CTxInUndo)).
Context (Hp : pool_ok p) (Hin : inputs_ok p u) (Hs : smaller X p p').
Context (Hgone : ∀ tx, tx ∈ vtx → mapTx p' !! tx_hash tx = None ∧ ∀ t, t ∈ vin tx → mapNextTx p' !! prevout t = None).
Context (Hu : utxo_ok u) (Hup : updates u vtx k = Some (xss, u')) (Hnd : NoDup (tx_hash <$> vtx)).
Context (Hfresh : ∀ tx, tx ∈ vtx → u !! tx_hash tx = None ∧ ∀ t, t ∈ vin tx → 0 ≤ prevout_n (prevout t)).
Context (HX : ∀ h, h ∈ X → ∃ tx, tx ∈ vtx ∧ tx_hash tx = h).
Context (Hsame : ∀ tx e, tx ∈ vtx → mapTx p !! tx_hash tx = Some e → e_tx e = tx).

Lemma smaller_inputs_ok : inputs_ok p' u'.
Proof.
  intros h e i He Hi. pose proof (sm_sub _ _ _ Hs h e He) as He0. pose proof (Hin h e i He0 Hi) as Hok.
  pose proof Hok as Hok'. unfold input_ok in Hok'. apply andb_true_iff in Hok' as [Hn Ha]. unfold input_ok. rewrite Hn. cbn [andb].
  apply Z.leb_le in Hn.
  assert (∀ tx, tx ∈ vtx → u !! tx_hash tx = None ∧ (prevout_hash (prevout i), prevout_pos i) ∉ place <$> vin tx) as Hfr.
  { intros tx Htx. destruct (Hfresh tx Htx) as [Hf Hpos]. split; [done|].
    intros (t & Ht & Htin)%list_elem_of_fmap. destruct (Hgone tx Htx) as [_ Hg]. specialize (Hg t Htin).
    destruct (spender_of p' h e i (sm_ok _ _ _ Hs) He Hi) as [n Hspent].
    rewrite (place_inj i t) in Hspent; [congruence|done|by apply Hpos|done]. }
  destruct (avail_updates u vtx k xss u' _ _ Hu Hup Hnd Hfr) as [B1 B2].
  destruct (mapTx p' !! prevout_hash (prevout i)) as [ep|] eqn:Ep'.
  - by rewrite (sm_sub _ _ _ Hs _ ep Ep') in Ha.
  - destruct (mapTx p !! prevout_hash (prevout i)) as [ep|] eqn:Ep; [|by apply B1].
    destruct (decide (prevout_hash (prevout i) ∈ X)) as [HinX|HnX].
    + destruct (HX _ HinX) as (tx & Htx & Heq). rewrite <- Heq in Ep. rewrite (Hsame tx ep Htx Ep) in Ha.
      apply (B2 tx); [done..|]. by rewrite (FromTx_height tx k MEMPOOL_HEIGHT).
    + pose proof (input_spends p u h e i ep Hp He0 Hi Hok Ep) as Hsp. by rewrite (sm_closed _ _ _ Hs _ _ Hsp HnX Ep') in He.
Qed.
End Connected.

(** ** Adding an entry *)

Lemma addUnchecked_inputs_ok hash e p u :
  pool_ok p → addable p hash e → inputs_ok p u → (∀ i, i ∈ vin (e_tx e) → input_ok p u i = true) →
  u !! hash = None → inputs_ok (addUnchecked hash e p) u.
Proof.
  intros Hp [Hh Hnew Hnd Hfree] Hin Hok Hu h e' i He Hi. change (<[hash := e]> (mapTx p) !! h = Some e') in He.
  assert (input_ok p u i = true) as Hold.
  { apply lookup_insert_Some in He as [[<- <-]|[_ He]]; [by apply Hok|by eapply Hin]. }
  unfold input_ok in *. apply andb_true_iff in Hold as [Hn Ha]. rewrite Hn. cbn [andb addUnchecked set_pool mapTx].
  destruct (decide (prevout_hash (prevout i) = hash)) as [Heq|Hne]; [|by rewrite lookup_insert_ne].
  rewrite Heq, Hnew in Ha. unfold avail in Ha. rewrite Hu in Ha. discriminate.
Qed.

Lemma lookup_insert_new {K A} `{Countable K} (k k' : K) (a : A) m : is_Some (insert_new k a m !! k') ↔ k' = k ∨ is_Some (m !! k').
Proof.
  unfold insert_new. destruct (m !! k) eqn:E.
  - split; [by right|]. intros [->|?]; [by eexists|done].
  - rewrite lookup_insert_is_Some. destruct (decide (k' = k)) as [->|]; naive_solver.
Qed.

(** The keys that a loop adds are all recorded. *)
Definition recorded {K A} `{Countable K} (P : K → Prop) (m0 m : gmap K A) (l : list K) : Prop :=
  (∀ k, is_Some (m !! k) → is_Some (m0 !! k) ∨ k ∈ l) ∧ ∀ k, k ∈ l → P k.
Lemma recorded_nil {K A} `{Countable K} (P : K → Prop) (m : gmap K A) : recorded P m m [].
Proof. split; [auto|]. by intros k ?%elem_of_nil. Qed.
Lemma recorded_insert {K A} `{Countable K} (P : K → Prop) (m0 m : gmap K A) l k a :
  recorded P m0 m l → P k → recorded P m0 (insert_new k a m) (l ++ [k]).
Proof.
  intros [Hm Hl] Hk. split; intros k'; [rewrite lookup_insert_new|]; rewrite elem_of_app, ?list_elem_of_singleton; naive_solver.
Qed.

Section Index.
Context `{CoinsStore V}.

Lemma index_vin_recorded m0 nTime h j ins v m l m' l' v' :
  index_vin nTime h j ins v m l = Ok (m', l', v') → recorded (λ k, dk_txhash k = h) m0 m l → recorded (λ k, dk_txhash k = h) m0 m' l'.
Proof.
  revert j v m l. induction ins as [|t ins IH]; intros j v m l; cbn [index_vin]; [by intros [= <- <- <-]|].
  destruct (GetOutputFor v t) as [[o w]| | |]; [|discriminate..]. cbn [mbind outcome_bind].
  destruct (GetAddressIndexKey _) as [[[[|] a] ty]| | |]; [| |discriminate..]; cbn [mbind outcome_bind]; intros E Hr; [|by eapply IH].
  eapply IH; [exact E|]. by apply recorded_insert.
Qed.
Lemma index_vout_recorded m0 nTime h k outs m l m' l' :
  index_vout nTime h k outs m l = Ok (m', l') → recorded (λ k, dk_txhash k = h) m0 m l → recorded (λ k, dk_txhash k = h) m0 m' l'.
Proof.
  revert k m l. induction outs as [|o outs IH]; intros k m l; cbn [index_vout]; [by intros [= <- <-]|].
  destruct (GetAddressIndexKey _) as [[[[|] a] ty]| | |]; [| |discriminate..]; cbn [mbind outcome_bind]; intros E Hr; [|by eapply IH].
  eapply IH; [exact E|]. by apply recorded_insert.
Qed.
Lemma spent_vin_recorded (all : list CTxIn) m0 h j ins v m l m' l' v' :
  let P k := ∃ t, t ∈ all ∧ prevout t = spent_outpoint k in
  spent_vin h j ins v m l = Ok (m', l', v') → (∀ t, t ∈ ins → t ∈ all) → recorded P m0 m l → recorded P m0 m' l'.
Proof.
  cbn zeta. revert j v m l. induction ins as [|t ins IH]; intros j v m l; cbn [spent_vin]; [by intros [= <- <- <-]|].
  destruct (GetOutputFor v t) as [[o w]| | |]; [|discriminate..]. cbn [mbind outcome_bind].
  destruct (GetAddressIndexKey _) as [[[b a] ty]| | |]; [|discriminate..]; cbn [mbind outcome_bind]; intros E Hsub Hr.
  eapply IH; [exact E|by intros; apply Hsub; right|]. apply recorded_insert; [done|]. exists t. split; [apply Hsub; by left|].
  unfold spent_outpoint. cbn. by destruct (prevout t).
Qed.

(** The indexes of an entry that is in the pool and has none yet. *)
Lemma addAddressIndex_ok e v p p' v' h :
  pool_ok p → mapTx p !! h = Some e → mapAddressInserted p !! h = None → addAddressIndex e v p = Ok (p', v') →
  pool_ok p' ∧ mapTx p' = mapTx p ∧ mapSpentInserted p' = mapSpentInserted p.
Proof.
  intros Hp He Hno. pose proof (po_hash p Hp h e He) as Hh. unfold addAddressIndex. cbn zeta. rewrite Hh.
  destruct (index_vin _ _ _ _ _ _ _) as [[[m l] w]| | |] eqn:E1; [|discriminate..]. cbn [mbind outcome_bind].
  destruct (index_vout _ _ _ _ _ _) as [[m1 l1]| | |] eqn:E2; [|discriminate..]. cbn [mbind outcome_bind]. intros [= <- _].
  eapply index_vin_recorded in E1; [|apply recorded_nil]. eapply index_vout_recorded in E2; [|exact E1]. destruct E2 as [Hm Hl].
  split; [|done]. destruct Hp as [P1 P2 P3 P4 P5 P6 P7]. split; cbn [set_address mapTx mapNextTx totalTxSize mapAddress mapAddressInserted mapSpent mapSpentInserted]; try done.
  - intros k [Hk|Hk]%Hm.
    + destruct (P4 k Hk) as (ks & Hks & Hin). exists ks. split; [|done]. unfold insert_new. rewrite Hno, lookup_insert_ne; [done|congruence].
    + exists l1. split; [|done]. unfold insert_new. by rewrite Hno, (Hl k Hk), lookup_insert_eq.
  - intros h' ks. unfold insert_new. rewrite Hno. intros [[<- <-]|[_ Hks]]%lookup_insert_Some; [by split; [exists e|]|by apply P5].
Qed.
Lemma addSpentIndex_ok e v p p' v' h :
  pool_ok p → mapTx p !! h = Some e → mapSpentInserted p !! h = None → addSpentIndex e v p = Ok (p', v') →
  pool_ok p' ∧ mapTx p' = mapTx p.
Proof.
  intros Hp He Hno. pose proof (po_hash p Hp h e He) as Hh. unfold addSpentIndex. cbn zeta. rewrite Hh.
  destruct (spent_vin _ _ _ _ _ _) as [[[m l] w]| | |] eqn:E; [|discriminate..]. cbn [mbind outcome_bind]. intros [= <- _].
  eapply (spent_vin_recorded (vin (e_tx e)) (mapSpent p)) in E; [|done|apply recorded_nil]. destruct E as [Hm Hl].
  split; [|done]. pose proof (spender_of p h e) as Hsp. destruct Hp as [P1 P2 P3 P4 P5 P6 P7].
  split; cbn [set_spent mapTx mapNextTx totalTxSize mapAddress mapAddressInserted mapSpent mapSpentInserted]; try done.
  - intros k [Hk|Hk]%Hm.
    + destruct (P6 k Hk) as (h' & n & ks & Hn & Hks & Hin). exists h', n, ks. split_and!; [done| |done].
      unfold insert_new. rewrite Hno, lookup_insert_ne; [done|congruence].
    + destruct (Hl k Hk) as (t & Ht & Ho). destruct (Hsp t) as [n Hn]; [by split|done|done|]. exists h, n, l. rewrite <- Ho.
      split_and!; [done| |done]. unfold insert_new. by rewrite Hno, lookup_insert_eq.
  - intros h' ks. unfold insert_new. rewrite Hno. intros [[<- <-]|[_ Hks]]%lookup_insert_Some; [by exists e|by apply P7].
Qed.
End Index.

(** ** Properties *)

(** C25: a block is connected to the chain and taken out of the pool.  If the pool
    was consistent and each of its inputs available, then all calls of
    [removeForBlock] succeed; the pool is consistent again; each input of what is
    left is available in the new pool and the new unspent outputs, so no entry is
    left that the block has made a double spend; and no transaction of the block
    is left.  The block reuses no hash of a transaction that still has outputs,
    and a transaction of the pool with the hash of one of the block is that
    transaction. *)
Theorem removeForBlock_keeps_inputs (p : CTxMemPool) (u u' : utxo_map) (vtx conflicts : list CTransaction) (nHeight : Z) (xss : list (list CTxInUndo)) :
  pool_ok p → inputs_ok p u → utxo_ok u → updates u vtx nHeight = Some (xss, u') → NoDup (tx_hash <$> vtx) →
  (∀ tx, tx ∈ vtx → u !! tx_hash tx = None ∧ ∀ t, t ∈ vin tx → 0 ≤ prevout_n (prevout t)) →
  (∀ tx e, tx ∈ vtx → mapTx p !! tx_hash tx = Some e → e_tx e = tx) →
  ∃ p' l, removeForBlock_loop vtx conflicts p = Ok (p', l) ∧ pool_ok p' ∧ inputs_ok p' u' ∧
    (∀ h e, mapTx p' !! h = Some e → mapTx p !! h = Some e) ∧
    ∀ tx, tx ∈ vtx → mapTx p' !! tx_hash tx = None ∧ ∀ t, t ∈ vin tx → mapNextTx p' !! prevout t = None.
Proof.
  intros Hp Hin Hu Hup Hnd Hfr Hsame. set (X := list_to_set (tx_hash <$> vtx) : gset Z).
  destruct (removeForBlock_loop_spec X vtx conflicts p Hp) as (p' & l & E & Hs & Hg).
  { intros tx Htx. apply elem_of_list_to_set. by apply list_elem_of_fmap_2. }
  exists p', l. split_and!; [done|apply Hs| |apply Hs|done].
  eapply (smaller_inputs_ok X p p' u u' vtx nHeight xss); try done.
  intros h (tx & -> & Htx)%elem_of_list_to_set%list_elem_of_fmap. by exists tx.
Qed.

Lemma removeForBlock_keeps_inputs_witness :
  let coins n := Coins false false (replicate n (TxOut 20 [OP_1] (-10))) 1 1 in
  let u : utxo_map := <[5 := coins 1%nat]> {[6 := coins 2%nat]} in
  let d := PoolDemo.pay 14 [OutPoint 6 1] 1 in
  let vtx := [PoolDemo.pay 15 [OutPoint 0 UINT32_MAX] 1; PoolDemo.a; d] in
  inputs_ok PoolDemo.pool u ∧
  ∃ xss u' p' l, updates u vtx 9 = Some (xss, u') ∧ removeForBlock_loop vtx [] PoolDemo.pool = Ok (p', l) ∧ inputs_ok p' u' ∧
    queryHashes p' = [12] ∧ l = [PoolDemo.c].
Proof.
  cbn zeta. set (u := <[5 := _]> _ : utxo_map). set (vtx := [_; _; _]).
  assert (inputs_ok PoolDemo.pool u) as Hin.
  { apply (inputs_ok_check PoolDemo.pool u). by vm_compute. }
  assert (utxo_ok u) as Hu by (apply utxo_ok_check; by vm_compute). split; [exact Hin|].
  destruct (updates u vtx 9) as [[xss u']|] eqn:E; [|by vm_compute in E].
  destruct (removeForBlock_keeps_inputs PoolDemo.pool u u' vtx [] 9 xss) as (p' & l & Er & _ & Hok & _).
  - exact PoolDemo.pool_consistent.
  - exact Hin.
  - exact Hu.
  - exact E.
  - by_decision.
  - intros tx Htx. repeat (apply elem_of_cons in Htx as [->|Htx]; [split; [by vm_compute|apply list.Forall_forall; by_decision]|]).
    by apply elem_of_nil in Htx.
  - intros tx e Htx. repeat (apply elem_of_cons in Htx as [->|Htx]; [vm_compute; first [discriminate|by intros [= <-]]|]).
    by apply elem_of_nil in Htx.
  - assert (match removeForBlock_loop vtx [] PoolDemo.pool with Ok (q, l) => queryHashes q = [12] ∧ l = [PoolDemo.c] | _ => False end) as Hq
      by (vm_compute; done).
    rewrite Er in Hq. exists xss, u', p', l. split_and!; [done|exact Er|exact Hok|apply Hq..].
Defined.
