(* ===== verification/MempoolAccept.v ===== *)
(** * Acceptance to the memory pool (main.cpp: IsStandardTx, AreInputsStandard,
    GetMinRelayFee, AcceptToMemoryPool, AcceptableInputs; txmempool.cpp:
    CCoinsViewMemPool; coins.cpp: GetPriority)

    The coins of [pcoinsTip] are any coin store.  The view that acceptance builds
    on [CCoinsViewMemPool] is the map of the coins it has fetched; once its backend
    is the dummy again it is such a map with the best block.  A rejection carries
    the state in which it leaves the program. *)
From stdpp Require Import base tactics list gmap numbers option.
From Stdlib Require Import ZArith Lia.
From S2P Require Import Prelude.
From S2P Require Import Double.
From S2P Require Import Serialize.
From S2P Require Import ScriptCode.
From S2P Require Import Interpreter.
From S2P Require Import Transaction.
From S2P Require Import Standard.
From S2P Require Import Chain.
From S2P Require Import Block.
From S2P Require Import Coins.
From S2P Require Import CoinsView.
From S2P Require Import Utxo.
From S2P Require Import AddressIndex.
From S2P Require Import ConnectBlock.
From S2P Require Import Ledger.
From S2P Require Import Mempool.
From S2P Require Import MempoolInputs.

Definition DEFAULT_BLOCK_PRIORITY_SIZE : Z := 50000.
Definition MAX_STANDARD_TX_SIZE : Z := 100000.
Definition MAX_P2SH_SIGOPS : Z := 15.
Definition MAX_TX_SIGOPS : Z := MAX_BLOCK_SIGOPS / 5.

(** [int64_t] multiplication: an overflow is undefined. *)
Definition mul64 {E} (a b : Z) : outcome E Z :=
  if (INT64_MIN <=? a * b) && (a * b <=? INT64_MAX) then Ok (a * b) else AssertFail.

(** ** Configuration and the state of other parts *)

Record accept_env := AcceptEnv {
  RequireStandard : bool;
  fIsBareMultisigStd : bool;
  datacarrier : bool;
  nMaxDatacarrierBytes : Z;
  minRelayTxFee : Z;
  nMaxMoneyOut : Z;
  COINBASE_MATURITY : Z;
  relaypriority : bool;                          (** -relaypriority *)
  limitfreerelay : Z;                            (** -limitfreerelay *)
  ae_fAddressIndex : bool;
  ae_fSpentIndex : bool;
  active_height : Z;                             (** chainActive.Height() *)
  adjusted_time : Z;                             (** GetAdjustedTime() *)
  entry_time : Z;                                (** GetTime() for the entry *)
  limiter_time : Z;                              (** GetTime() for the rate limiter *)
  mapLockedInputs : gmap COutPoint Z;
  mapObfuscationBroadcastTxes : gset Z;
  ae_blocks : block_index                        (** mapBlockIndex *)
}.

(** ** Standard transactions *)

Inductive standard_reject :=
| StdVersion | StdNonFinal | StdTxSize | StdScriptSigSize | StdScriptSigNotPushOnly | StdScriptPubKey
| StdBareMultisig | StdDust | StdMultiOpReturn.

Section Standard.
Context (env : accept_env).

Fixpoint std_inputs (ins : list CTxIn) : outcome standard_reject unit :=
  match ins with
  | [] => Ok tt
  | i :: ins =>
      if 1650 <? size (scriptSig i) then Err StdScriptSigSize else
      push_only ← IsPushOnly (scriptSig i);
      if push_only : bool then std_inputs ins else Err StdScriptSigNotPushOnly
  end.

Fixpoint std_outputs (outs : list CTxOut) (nDataOut : Z) : outcome standard_reject Z :=
  match outs with
  | [] => Ok nDataOut
  | o :: outs =>
      '(ok, whichType) ← no_err (IsStandard (datacarrier env) (nMaxDatacarrierBytes env) (scriptPubKey o));
      if negb ok then Err StdScriptPubKey else
      match whichType with
      | TX_NULL_DATA => std_outputs outs (nDataOut + 1)
      | _ =>
          if bool_decide (whichType = TX_MULTISIG) && negb (fIsBareMultisigStd env) then Err StdBareMultisig else
          if IsDust (minRelayTxFee env) o then Err StdDust else std_outputs outs nDataOut
      end
  end.

Definition IsStandardTx (tx : CTransaction) : outcome standard_reject unit :=
  if (CURRENT_VERSION <? nVersion tx) || (nVersion tx <? 1) then Err StdVersion else
  if negb (IsFinalTx (active_height env) (adjusted_time env) tx (active_height env + 1) 0) then Err StdNonFinal else
  if MAX_STANDARD_TX_SIZE <=? size (ser tx) then Err StdTxSize else
  _ ← std_inputs (vin tx);
  nDataOut ← std_outputs (vout tx) 0;
  if 1 <? nDataOut then Err StdMultiOpReturn else Ok tt.
End Standard.

(** ** Standard inputs *)

Section Inputs.
Context `{CoinsStore V}.

(** The number of arguments a script of type [whichType] takes from [stack],
    through a script hash; [inl b]: [AreInputsStandard] returns [b] at once. *)
Definition args_expected (whichType : txnouttype) (vSolutions : list valtype) (stack : list valtype) : outcome unit (bool + Z) :=
  let nArgsExpected := ScriptSigArgsExpected whichType vSolutions in
  if bool_decide (whichType = TX_SCRIPTHASH) then
    match stack with
    | [] => Ok (inl false)
    | subscript :: _ =>
        '(ok, whichType2, vSolutions2) ← no_err (Solver subscript);
        if ok : bool then
          let tmpExpected := ScriptSigArgsExpected whichType2 vSolutions2 in
          if tmpExpected <? 0 then Ok (inl false) else Ok (inr (nArgsExpected + tmpExpected))
        else sigops ← GetSigOpCount subscript true; Ok (inl (sigops <=? MAX_P2SH_SIGOPS))
    end
  else Ok (inr nArgsExpected).

Fixpoint AreInputsStandard_loop (ins : list CTxIn) (v : V) : outcome unit (bool * V) :=
  match ins with
  | [] => Ok (true, v)
  | i :: ins =>
      '(prev, v) ← no_err (GetOutputFor v i);
      '(ok, whichType, vSolutions) ← no_err (Solver (scriptPubKey prev));
      if negb ok then Ok (false, v) else
      if ScriptSigArgsExpected whichType vSolutions <? 0 then Ok (false, v) else
      match EvalScript 0 (λ _ _ _, false) [] (scriptSig i) with
      | Ok stack =>
          r ← args_expected whichType vSolutions stack;
          match r with
          | inl b => Ok (b, v)
          | inr nArgsExpected =>
              if Z.of_nat (length stack) =? nArgsExpected then AreInputsStandard_loop ins v else Ok (false, v)
          end
      | Err _ => Ok (false, v)
      | AssertFail => AssertFail
      | OutOfFuel => OutOfFuel
      end
  end.
Definition AreInputsStandard (tx : CTransaction) (v : V) : outcome unit (bool * V) :=
  if IsCoinBase tx then Ok (true, v) else AreInputsStandard_loop (vin tx) v.

(** [CCoinsViewCache::GetPriority] *)
Fixpoint priority_loop (nHeight : Z) (ins : list CTxIn) (dResult : double) (v : V) : outcome unit (double * V) :=
  match ins with
  | [] => Ok (dResult, v)
  | i :: ins =>
      let '(coins, v) := cs_access v (prevout_hash (prevout i)) in
      match coins with
      | None => AssertFail
      | Some c =>
          match c_vout c !! prevout_pos i with
          | Some o =>
              if negb (CTxOut_IsNull o) && (c_nHeight c <? nHeight) then
                n ← mul64 (nValue o) (nHeight - c_nHeight c); priority_loop nHeight ins (d_add dResult (d_of_Z n)) v
              else priority_loop nHeight ins dResult v
          | None => priority_loop nHeight ins dResult v
          end
      end
  end.
Definition ComputePriority (tx : CTransaction) (dPriorityInputs : double) (nTxSize : Z) : double :=
  let nTxSize := CalculateModifiedSize tx nTxSize in
  if nTxSize =? 0 then d_zero else d_div dPriorityInputs (d_of_Z nTxSize).
Definition GetPriority (tx : CTransaction) (nHeight : Z) (v : V) : outcome unit (double * V) :=
  if IsCoinBase tx || IsCoinStake tx then Ok (d_zero, v) else
  '(d, v) ← priority_loop nHeight (vin tx) d_zero v; Ok (ComputePriority tx d 0, v).
End Inputs.

(** ** The view over the pool *)

Section View.
Context `{CoinsStore V}.

(** [CCoinsViewMemPool::GetCoins] over [pcoinsTip] *)
Definition viewmem_GetCoins (p : CTxMemPool) (tip : V) (txid : Z) : option CCoins * V :=
  match lookup_tx p txid with
  | Some tx => (Some (FromTx tx MEMPOOL_HEIGHT), tip)
  | None => let '(c, tip) := cs_access tip txid in (unspent c, tip)
  end.

(** [FetchCoins] of a cache on it: what has been fetched stays. *)
Definition fetch (p : CTxMemPool) (f : gmap Z CCoins) (tip : V) (txid : Z) : option CCoins * gmap Z CCoins * V :=
  match f !! txid with
  | Some c => (Some c, f, tip)
  | None =>
      let '(c, tip) := viewmem_GetCoins p tip txid in
      match c with Some c => (Some c, <[txid := c]> f, tip) | None => (None, f, tip) end
  end.
Definition fetch_have (p : CTxMemPool) (f : gmap Z CCoins) (tip : V) (txid : Z) : bool * gmap Z CCoins * V :=
  let '(c, f, tip) := fetch p f tip txid in
  (match c with Some c => match c_vout c with [] => false | _ => true end | None => false end, f, tip).

(** Do all inputs exist? *)
Fixpoint fetch_inputs (p : CTxMemPool) (ins : list CTxIn) (f : gmap Z CCoins) (tip : V) : bool * gmap Z CCoins * V :=
  match ins with
  | [] => (true, f, tip)
  | i :: ins =>
      let '(have, f, tip) := fetch_have p f tip (prevout_hash (prevout i)) in
      if have : bool then fetch_inputs p ins f tip else (false, f, tip)
  end.
(** [view.HaveInputs(tx)], the transaction not being a coinbase *)
Fixpoint fetch_available (p : CTxMemPool) (ins : list CTxIn) (f : gmap Z CCoins) (tip : V) : bool * gmap Z CCoins * V :=
  match ins with
  | [] => (true, f, tip)
  | i :: ins =>
      let '(c, f, tip) := fetch p f tip (prevout_hash (prevout i)) in
      match c with
      | Some c => if IsAvailable c (prevout_pos i) then fetch_available p ins f tip else (false, f, tip)
      | None => (false, f, tip)
      end
  end.
End View.

(** ** Fees *)

Definition GetMinRelayFee (env : accept_env) (p : CTxMemPool) (tx : CTransaction) (nBytes : Z) (fAllowFree : bool) : outcome unit Z :=
  '(dPriorityDelta, nFeeDelta) ← ApplyDeltas (tx_hash tx) d_zero 0 p;
  if d_gt dPriorityDelta d_zero || (0 <? nFeeDelta) then Ok 0 else
  let nMinFee := GetFee (minRelayTxFee env) nBytes in
  let nMinFee := if fAllowFree && (nBytes <? DEFAULT_BLOCK_PRIORITY_SIZE - 1000) then 0 else nMinFee in
  Ok (if negb (MoneyRange (nMaxMoneyOut env) nMinFee) then nMaxMoneyOut env else nMinFee).

(** ** AcceptToMemoryPool *)

Inductive accept_reject :=
| AcceptInvalid (e : tx_reject) | AcceptCoinbase | AcceptCoinstake | AcceptNonstandard (e : standard_reject)
| AcceptKnown | AcceptLocked | AcceptConflict | AcceptHave | AcceptMissing | AcceptSpent | AcceptInputNonstandard
| AcceptSigOps | AcceptFee | AcceptPriority | AcceptRate | AcceptInsane
| AcceptInputs (e : input_reject) | AcceptMandatory (e : input_reject).

Record limiter := Limiter { dFreeCount : double; nLastTime : Z }.

Section Accept.
Context `{CoinsStore V}.

(** The pool, [pcoinsTip] and the rate limiters: each of the two functions has its
    own static variables, those of [AcceptableInputs] are [as_limiter true]. *)
Record accept_state := AcceptState { as_pool : CTxMemPool; as_tip : V; as_limiter : bool → limiter }.
Definition set_as_pool (p : CTxMemPool) (s : accept_state) : accept_state := AcceptState p (as_tip s) (as_limiter s).
Definition set_as_tip (t : V) (s : accept_state) : accept_state := AcceptState (as_pool s) t (as_limiter s).
Definition set_limiter (dry : bool) (l : limiter) (s : accept_state) : accept_state :=
  AcceptState (as_pool s) (as_tip s) (λ b, if Bool.eqb b dry then l else as_limiter s b).

Notation ares := (outcome (accept_reject * accept_state)).
(** A check that can refuse, in the state [s]. *)
Definition checked {E A} (f : E → accept_reject) (s : accept_state) (m : outcome E A) : ares A := map_err (λ e, (f e, s)) m.

Context (pow : double → double → double) (Verify : list Z → Z → list Z → bool) (env : accept_env).

(** An input that a transaction lock has given to another transaction. *)
Definition locked_elsewhere (tx : CTransaction) (i : CTxIn) : bool :=
  match mapLockedInputs env !! prevout i with Some h => negb (h =? tx_hash tx) | None => false end.
Definition conflicts_pool (p : CTxMemPool) (i : CTxIn) : bool := bool_decide (is_Some (mapNextTx p !! prevout i)).

(** The exponentially decaying window of about ten minutes. *)
Definition rate_limit (dry : bool) (nSize : Z) (s : accept_state) : ares accept_state :=
  let nNow := limiter_time env in
  let l := as_limiter s dry in
  let d := d_mul (dFreeCount l) (pow (d_sub (d_of_Z 1) (d_div (d_of_Z 1) (d_of_Z 600))) (d_of_Z (nNow - nLastTime l))) in
  if d_ge d (d_of_Z (limitfreerelay env * 10 * 1000)) then Err (AcceptRate, set_limiter dry (Limiter d nNow) s) else
  Ok (set_limiter dry (Limiter (d_add d (d_of_Z nSize)) nNow) s).

(** The fee rules of a transaction that is not exempt. *)
Definition check_relay_fee (dry : bool) (tx : CTransaction) (fLimitFree : bool) (nFees nSize : Z) (view : gmap Z CCoins * Z) (s : accept_state)
    : ares accept_state :=
  txMinFee ← no_err (GetMinRelayFee env (as_pool s) tx nSize true);
  if fLimitFree && (nFees <? txMinFee) then Err (AcceptFee, s) else
  let low := nFees <? GetFee (minRelayTxFee env) nSize in
  priority_ok ←
    (if relaypriority env && low then
       '(d, _) ← no_err (GetPriority tx (active_height env + 1) view); Ok (AllowFree d)
     else Ok true);
  if negb priority_ok then Err (AcceptPriority, s) else
  if fLimitFree && low then rate_limit dry nSize s else Ok s.

(** The view: what is fetched for [tx], and the best block. *)
Definition open_view (tx : CTransaction) (s : accept_state) : ares ((gmap Z CCoins * Z) * accept_state) :=
  let '(have, f, tip) := fetch_have (as_pool s) ∅ (as_tip s) (tx_hash tx) in
  if have : bool then Err (AcceptHave, set_as_tip tip s) else
  let '(found, f, tip) := fetch_inputs (as_pool s) (vin tx) f tip in
  if negb found then Err (AcceptMissing, set_as_tip tip s) else
  let '(available, f, tip) := fetch_available (as_pool s) (vin tx) f tip in
  if negb available then Err (AcceptSpent, set_as_tip tip s) else
  let '(best, tip) := cs_best tip in
  Ok ((f, best), set_as_tip tip s).

(** What both entry points do before they look at the coins. *)
Definition check_loose (tx : CTransaction) (fStandard fCoinStake : bool) (s : accept_state) : ares unit :=
  _ ← checked AcceptInvalid s (CheckTransaction (nMaxMoneyOut env) tx);
  if IsCoinBase tx then Err (AcceptCoinbase, s) else
  if fCoinStake && IsCoinStake tx then Err (AcceptCoinstake, s) else
  _ ← (if fStandard && RequireStandard env then checked AcceptNonstandard s (IsStandardTx env tx) else Ok tt);
  if exists_ (as_pool s) (tx_hash tx) then Err (AcceptKnown, s) else
  if existsb (locked_elsewhere tx) (vin tx) then Err (AcceptLocked, s) else
  if existsb (conflicts_pool (as_pool s)) (vin tx) then Err (AcceptConflict, s) else Ok tt.

(** Signature operations and the entry with its fee. *)
Definition make_entry (tx : CTransaction) (nValueIn : Z) (view : gmap Z CCoins * Z) (s : accept_state) : ares CTxMemPoolEntry :=
  n ← no_err (GetLegacySigOpCount (E:=unit) tx);
  '(k, _) ← no_err (GetP2SHSigOpCount tx view);
  if MAX_TX_SIGOPS <? u32 (n + k) then Err (AcceptSigOps, s) else
  nValueOut ← no_err (GetValueOut tx);
  nFees ← no_err (add64 (E:=unit) nValueIn (- nValueOut));
  '(dPriority, _) ← no_err (GetPriority tx (active_height env) view);
  Ok (CTxMemPoolEntry_of tx nFees (entry_time env) dPriority (active_height env)).

(** Fees: a transaction of the mixing queue is given priority instead. *)
Definition apply_fees (dry : bool) (tx : CTransaction) (exempt ignoreFees fLimitFree : bool) (e : CTxMemPoolEntry) (view : gmap Z CCoins * Z) (s : accept_state)
    : ares accept_state :=
  if exempt then
    p ← no_err (PrioritiseTransaction (tx_hash tx) (d_of_Z 1000) (COIN / 10) (as_pool s)); Ok (set_as_pool p s)
  else if negb ignoreFees then check_relay_fee dry tx fLimitFree (e_nFee e) (u32 (e_nTxSize e)) view s
  else Ok s.

Definition insane_fee (e : CTxMemPoolEntry) : outcome unit bool :=
  n ← mul64 (GetFee (minRelayTxFee env) (u32 (e_nTxSize e))) 10000; Ok (n <? e_nFee e).

(** Storing the entry, with the indexes that are on. *)
Definition store_entry (hash : Z) (e : CTxMemPoolEntry) (view : gmap Z CCoins * Z) (p : CTxMemPool) : outcome unit CTxMemPool :=
  let p := addUnchecked hash e p in
  p ← (if ae_fAddressIndex env then '(p, _) ← addAddressIndex e view p; Ok p else Ok p);
  if ae_fSpentIndex env then '(p, _) ← addSpentIndex e view p; Ok p else Ok p.

Definition check_inputs (tx : CTransaction) (fScriptChecks : bool) (flags : Z) (view : gmap Z CCoins * Z) : outcome input_reject unit :=
  _ ← CheckInputs Verify (nMaxMoneyOut env) (COINBASE_MATURITY env) (ae_blocks env) tx view fScriptChecks flags false; Ok tt.

Definition AcceptToMemoryPool (tx : CTransaction) (fLimitFree fRejectInsaneFee ignoreFees : bool) (s : accept_state) : ares accept_state :=
  _ ← check_loose tx true true s;
  '(view, s) ← open_view tx s;
  '(nValueIn, view) ← no_err (GetValueIn view tx);
  '(std, view) ← (if RequireStandard env then no_err (AreInputsStandard tx view) else Ok (true, view));
  if negb std then Err (AcceptInputNonstandard, s) else
  e ← make_entry tx nValueIn view s;
  s ← apply_fees false tx (bool_decide (tx_hash tx ∈ mapObfuscationBroadcastTxes env)) ignoreFees fLimitFree e view s;
  insane ← (if fRejectInsaneFee then no_err (insane_fee e) else Ok false);
  if insane : bool then Err (AcceptInsane, s) else
  _ ← checked AcceptInputs s (check_inputs tx true STANDARD_SCRIPT_VERIFY_FLAGS view);
  _ ← checked AcceptMandatory s (check_inputs tx true MANDATORY_SCRIPT_VERIFY_FLAGS view);
  p ← no_err (store_entry (tx_hash tx) e view (as_pool s));
  Ok (set_as_pool p s).

(** [AcceptableInputs]: no standardness, no scripts, and nothing is stored. *)
Definition AcceptableInputs (tx : CTransaction) (fLimitFree fRejectInsaneFee isDSTX : bool) (s : accept_state) : ares accept_state :=
  _ ← check_loose tx false false s;
  '(view, s) ← open_view tx s;
  '(nValueIn, view) ← no_err (GetValueIn view tx);
  e ← make_entry tx nValueIn view s;
  s ← apply_fees true tx isDSTX false fLimitFree e view s;
  insane ← (if fRejectInsaneFee then no_err (insane_fee e) else Ok false);
  if insane : bool then Err (AcceptInsane, s) else
  _ ← checked AcceptInputs s (check_inputs tx false STANDARD_SCRIPT_VERIFY_FLAGS view);
  Ok s.
End Accept.
Arguments accept_state V : clear implicits.

(** ** What the view offers *)

(** The coins of the pool hide those of the chain. *)
Definition pool_view (p : CTxMemPool) (u : utxo_map) : utxo_map := ((λ e, FromTx (e_tx e) MEMPOOL_HEIGHT) <$> mapTx p) ∪ u.

Lemma lookup_pool_view p u t :
  pool_view p u !! t = match mapTx p !! t with Some e => Some (FromTx (e_tx e) MEMPOOL_HEIGHT) | None => u !! t end.
Proof. unfold pool_view. rewrite lookup_union, lookup_fmap. destruct (mapTx p !! t); cbn; [by destruct (u !! t)|by destruct (u !! t)]. Qed.

Lemma pool_view_clean p u t c : utxo_ok u → pool_view p u !! t = Some c → clean c.
Proof.
  intros Hu. rewrite lookup_pool_view. destruct (mapTx p !! t); [intros [= <-]; apply FromTx_clean|]. by intros [? _]%Hu.
Qed.

Section ViewSpec.
Context `{CoinsStore V} (p : CTxMemPool).

Lemma viewmem_GetCoins_spec (v : V) t :
  cs_ok v → let r := viewmem_GetCoins p v t in r.1 = pool_view p (cs_utxo v) !! t ∧ reads v r.2.
Proof.
  intros Hv. unfold viewmem_GetCoins, lookup_tx. rewrite lookup_pool_view. destruct (mapTx p !! t) as [e|]; cbn; [done|].
  pose proof (cs_access_spec v t Hv) as S. cbn zeta in S. pose proof (cs_access_best v t) as Hb.
  destruct (cs_access v t) as [c w]. cbn in *. by destruct S as (? & ? & ->).
Qed.

(** What has been fetched is what the view offers, for the hashes of [K]. *)
Record fetched (K : gset Z) (u : utxo_map) (f : gmap Z CCoins) : Prop := {
  fe_view t c : f !! t = Some c → pool_view p u !! t = Some c;
  fe_dom t : is_Some (f !! t) → t ∈ K
}.

Lemma fetch_spec K f (v : V) t c f' v' :
  cs_ok v → fetched K (cs_utxo v) f → t ∈ K → fetch p f v t = (c, f', v') →
  c = pool_view p (cs_utxo v) !! t ∧ f' !! t = c ∧ f ⊆ f' ∧ fetched K (cs_utxo v) f' ∧ reads v v'.
Proof.
  intros Hv Hf Ht. unfold fetch. destruct (f !! t) as [d|] eqn:Ef.
  - intros [= <- <- <-]. split_and!; [by rewrite (fe_view _ _ _ Hf t d Ef)|done..].
  - pose proof (viewmem_GetCoins_spec v t Hv) as S. cbn zeta in S. destruct (viewmem_GetCoins p v t) as [d w]. cbn in S. destruct S as (-> & Hk).
    destruct (pool_view p (cs_utxo v) !! t) as [d|] eqn:E; intros [= <- <- <-].
    + split_and!; [done|apply lookup_insert_eq|by apply insert_subseteq| |by apply Hk..]. destruct Hf as [Hf1 Hf2]. split.
      * intros s b [[<- <-]|[_ Hs]]%lookup_insert_Some; [done|by apply Hf1].
      * intros s [b [[<- _]|[_ Hs]]%lookup_insert_Some]; [done|by apply Hf2; exists b].
    + split_and!; try done; apply Hk.
Qed.

Lemma fetch_have_spec K f (v : V) t b f' v' :
  cs_ok v → fetched K (cs_utxo v) f → t ∈ K → fetch_have p f v t = (b, f', v') →
  b = (match pool_view p (cs_utxo v) !! t with Some c => match c_vout c with [] => false | _ => true end | None => false end) ∧
  f ⊆ f' ∧ fetched K (cs_utxo v) f' ∧ reads v v'.
Proof.
  intros Hv Hf Ht. unfold fetch_have. destruct (fetch p f v t) as [[c g] w] eqn:E. intros [= <- <- <-].
  destruct (fetch_spec K f v t c g w Hv Hf Ht E) as (-> & _ & Hs & Hf' & Hk). done.
Qed.

Lemma fetch_inputs_spec K ins f (v : V) b f' v' :
  cs_ok v → fetched K (cs_utxo v) f → (∀ i, i ∈ ins → prevout_hash (prevout i) ∈ K) → fetch_inputs p ins f v = (b, f', v') →
  fetched K (cs_utxo v) f' ∧ reads v v'.
Proof.
  revert f v. induction ins as [|i ins IH]; intros f v Hv Hf HK; cbn [fetch_inputs]; [by intros [= <- <- <-]|].
  destruct (fetch_have p f v (prevout_hash (prevout i))) as [[have g] w] eqn:E.
  destruct (fetch_have_spec K f v _ have g w Hv Hf (HK i (list_elem_of_here _ _)) E) as (_ & _ & Hg & Hw & Hu & Hb).
  destruct have; [|by intros [= _ <- <-]]. intros E'. destruct (IH g w Hw) as (Hf' & Hok & Hu' & Hb'); [by rewrite Hu|by intros; apply HK; right|done|].
  rewrite Hu in *. split; [done|]. split_and!; congruence || done.
Qed.

Lemma fetch_available_spec K ins f (v : V) b f' v' :
  cs_ok v → fetched K (cs_utxo v) f → (∀ i, i ∈ ins → prevout_hash (prevout i) ∈ K) → fetch_available p ins f v = (b, f', v') →
  fetched K (cs_utxo v) f' ∧ reads v v' ∧ f ⊆ f' ∧
  (b = true → ∀ i, i ∈ ins → ∃ c, f' !! prevout_hash (prevout i) = Some c ∧ IsAvailable c (prevout_pos i) = true).
Proof.
  revert f v. induction ins as [|i ins IH]; intros f v Hv Hf HK; cbn [fetch_available].
  { intros [= <- <- <-]. split_and!; try done; intros _ i []%elem_of_nil. }
  destruct (fetch p f v (prevout_hash (prevout i))) as [[c g] w] eqn:E.
  destruct (fetch_spec K f v _ c g w Hv Hf (HK i (list_elem_of_here _ _)) E) as (_ & Hc & Hs & Hg & Hw & Hu & Hb).
  destruct c as [c|]; [|intros [= <- <- <-]; done]. destruct (IsAvailable c (prevout_pos i)) eqn:Ea; [|intros [= <- <- <-]; done].
  intros E'. destruct (IH g w Hw) as (Hf' & (Hok & Hu' & Hb') & Hs' & Hall); [by rewrite Hu|by intros; apply HK; right|done|].
  rewrite Hu in *. split_and!; [done|by split_and!; congruence|by etrans|]. intros Ht j [->|Hj]%elem_of_cons; [|by apply Hall].
  exists c. split; [|done]. by eapply lookup_weaken.
Qed.
End ViewSpec.

(** ** The view of a transaction *)

Section AcceptSpec.
Context `{CoinsStore V}.
Context (pow : double → double → double) (Verify : list Z → Z → list Z → bool) (env : accept_env).
Implicit Types s : accept_state V.

(** The coins that have been fetched show every input as the view does. *)
Record view_of (p : CTxMemPool) (u : utxo_map) (tx : CTransaction) (f : gmap Z CCoins) : Prop := {
  vo_ok : utxo_ok f;
  vo_input i : i ∈ vin tx → f !! prevout_hash (prevout i) = pool_view p u !! prevout_hash (prevout i);
  vo_available i : i ∈ vin tx → is_Some (spent_output f i)
}.

Lemma fetch_have_new p (v : V) t b f' v' :
  cs_ok v → mapTx p !! t = None → fetch_have p ∅ v t = (b, f', v') →
  reads v v' ∧ (b = false → cs_utxo v !! t = None ∧ f' = ∅).
Proof.
  intros Hv Hp. unfold fetch_have, fetch. rewrite lookup_empty. pose proof (viewmem_GetCoins_spec p v t Hv) as S. cbn zeta in S.
  destruct (viewmem_GetCoins p v t) as [c w]. cbn [fst snd] in S. destruct S as (-> & Hr). rewrite lookup_pool_view, Hp.
  destruct (cs_utxo v !! t) as [c|] eqn:E; intros [= <- <- <-]; (split; [done|]); [|done]. intros Hb. exfalso.
  destruct (cs_utxo_ok v Hv t c E) as [_ Hnp]. unfold IsPruned in Hnp. destruct (c_vout c); discriminate.
Qed.

Lemma open_view_spec tx s :
  cs_ok (as_tip s) → mapTx (as_pool s) !! tx_hash tx = None →
  match open_view tx s with
  | Ok ((f, b), s') =>
      reads (as_tip s) (as_tip s') ∧ s' = set_as_tip (as_tip s') s ∧ b = best (as_tip s) ∧
      view_of (as_pool s) (cs_utxo (as_tip s)) tx f ∧ cs_utxo (as_tip s) !! tx_hash tx = None
  | Err (_, s') => reads (as_tip s) (as_tip s') ∧ s' = set_as_tip (as_tip s') s
  | _ => False
  end.
Proof.
  intros Hv Hnew. unfold open_view. set (K := list_to_set ((prevout_hash ∘ prevout) <$> vin tx) : gset Z).
  assert (∀ i, i ∈ vin tx → prevout_hash (prevout i) ∈ K) as HK.
  { intros i Hi. apply elem_of_list_to_set. by apply (list_elem_of_fmap_2 (prevout_hash ∘ prevout)). }
  destruct (fetch_have (as_pool s) ∅ (as_tip s) (tx_hash tx)) as [[have f0] v0] eqn:E0.
  destruct (fetch_have_new _ _ _ _ _ _ Hv Hnew E0) as (R0 & Hno). destruct have; [done|]. destruct (Hno eq_refl) as [Hu ->].
  assert (fetched (as_pool s) K (cs_utxo v0) ∅) as F0 by (split; [intros t c Hc|intros t [c Hc]]; by rewrite lookup_empty in Hc).
  destruct (fetch_inputs (as_pool s) (vin tx) ∅ v0) as [[found f1] v1] eqn:E1.
  destruct (fetch_inputs_spec (as_pool s) K _ _ _ _ _ _ (proj1 R0) F0 HK E1) as [F1 R1'].
  assert (reads (as_tip s) v1) as R1 by (by eapply reads_trans). rewrite <- (proj1 (proj2 R1')) in F1.
  destruct found; cbn [negb]; [|done].
  destruct (fetch_available (as_pool s) (vin tx) f1 v1) as [[ok f2] v2] eqn:E2.
  destruct (fetch_available_spec (as_pool s) K _ _ _ _ _ _ (proj1 R1) F1 HK E2) as (F2 & R2' & _ & Hav).
  assert (reads (as_tip s) v2) as R2 by (by eapply reads_trans). rewrite (proj1 (proj2 R1)) in F2.
  destruct ok; cbn [negb]; [|done]. specialize (Hav eq_refl).
  pose proof (cs_best_spec v2 (proj1 R2)) as Hb. cbn zeta in Hb. destruct (cs_best v2) as [b v3] eqn:Eb. cbn [fst snd as_tip set_as_tip] in *.
  destruct Hb as (Hv3 & Hu3 & Hb3). assert (b = best (as_tip s)) as ->.
  { rewrite <- (proj2 (proj2 R2)). unfold best. by rewrite Eb. }
  split; [split_and!; [done|rewrite Hu3; apply R2|done]|]. split_and!; [done|done| |done]. split.
  - intros t c Hc. split; [eapply pool_view_clean; [apply (cs_utxo_ok _ Hv)|by apply (fe_view _ _ _ _ F2)]|].
    assert (t ∈ K) as Ht by (apply (fe_dom _ _ _ _ F2); by exists c). apply elem_of_list_to_set, list_elem_of_fmap in Ht as (i & -> & Hi).
    destruct (Hav i Hi) as (c' & Hc' & Ha). unfold compose in Hc. rewrite Hc' in Hc. injection Hc as ->.
    destruct (IsPruned c) eqn:Ep; [|done]. by rewrite (IsPruned_unavailable c _ Ep) in Ha.
  - intros i Hi. destruct (Hav i Hi) as (c & Hc & _). by rewrite Hc, (fe_view _ _ _ _ F2 _ c Hc).
  - intros i Hi. destruct (Hav i Hi) as (c & Hc & Ha). unfold IsAvailable in Ha. destruct (c_vout c !! prevout_pos i) as [o|] eqn:Eo; [|done].
    exists o. apply spent_output_Some. exists c. split_and!; [done|done|by apply negb_true_iff].
Qed.

(** *** The checks before the coins *)

Lemma checked_cases {E A} (f : E → accept_reject) s (m : outcome E A) :
  match checked f s m with Ok a => m = Ok a | Err (_, s') => s' = s | _ => True end.
Proof. by destruct m. Qed.

Record loose (tx : CTransaction) (fCoinStake : bool) (p : CTxMemPool) : Prop := {
  lo_valid : tx_valid (nMaxMoneyOut env) tx;
  lo_coinbase : IsCoinBase tx = false;
  lo_coinstake : fCoinStake = true → IsCoinStake tx = false;
  lo_new : mapTx p !! tx_hash tx = None;
  lo_unlocked i : i ∈ vin tx → locked_elsewhere env tx i = false;
  lo_free i : i ∈ vin tx → mapNextTx p !! prevout i = None
}.

Lemma check_loose_spec tx std cs s :
  0 ≤ nMaxMoneyOut env < 2 ^ 62 →
  match check_loose env tx std cs s with
  | Ok _ => loose tx cs (as_pool s)
  | Err (_, s') => s' = s
  | _ => True
  end.
Proof.
  intros Hm. unfold check_loose. pose proof (checked_cases AcceptInvalid s (CheckTransaction (nMaxMoneyOut env) tx)) as C.
  destruct (checked AcceptInvalid s _) as [[]|[]| |]; [|done..]. cbn [mbind outcome_bind]. destruct (IsCoinBase tx) eqn:Ecb; [done|].
  destruct (cs && IsCoinStake tx) eqn:Ecs; [done|].
  set (m := if std && RequireStandard env then _ else _). assert (match m with Err (_, s') => s' = s | _ => True end) as Hm'.
  { unfold m. destruct (std && RequireStandard env); [|done]. pose proof (checked_cases AcceptNonstandard s (IsStandardTx env tx)) as C'.
    by destruct (checked _ _ _) as [|[]| |]. }
  destruct m as [[]|[]| |]; [|done..]. cbn [mbind outcome_bind]. unfold exists_. case_bool_decide as Hex; [done|].
  destruct (existsb (locked_elsewhere env tx) (vin tx)) eqn:El; [done|]. destruct (existsb (conflicts_pool _) (vin tx)) eqn:Ef; [done|].
  apply existsb_false in El, Ef. rewrite list.Forall_forall in El, Ef. split.
  - by apply CheckTransaction_valid.
  - done.
  - intros ->. by destruct (IsCoinStake tx).
  - by apply eq_None_not_Some.
  - exact El.
  - intros i Hi. specialize (Ef i Hi). unfold conflicts_pool in Ef. apply bool_decide_eq_false in Ef. by apply eq_None_not_Some.
Qed.

(** *** Fees and the entry *)

(** Only priorities and the rate limiter have changed. *)
Definition calm s s' : Prop := as_tip s' = as_tip s ∧ ∃ d, as_pool s' = set_deltas d (as_pool s).
Lemma calm_refl s : calm s s.
Proof. split; [done|]. exists (mapDeltas (as_pool s)). by destruct (as_pool s). Qed.

Lemma rate_limit_calm dry n s : match rate_limit pow env dry n s with Ok s' | Err (_, s') => calm s s' | _ => True end.
Proof. unfold rate_limit. destruct (d_ge _ _); apply (calm_refl s). Qed.

Lemma apply_fees_calm dry tx ex ig lf e view s :
  match apply_fees pow env dry tx ex ig lf e view s with Ok s' | Err (_, s') => calm s s' | _ => True end.
Proof.
  unfold apply_fees. destruct ex.
  { unfold PrioritiseTransaction. destruct (default _ _) as [d f]. unfold add64. destruct (_ && _); [|done]. cbn. split; [done|by eexists]. }
  destruct ig; cbn [negb]; [apply calm_refl|]. unfold check_relay_fee.
  destruct (no_err (GetMinRelayFee _ _ _ _ _)) as [fee|[]| |] eqn:E1; [| |done..]; [|destruct (GetMinRelayFee _ _ _ _ _); discriminate E1].
  cbn [mbind outcome_bind]. destruct (lf && _); [apply calm_refl|].
  set (m := if relaypriority env && _ then _ else _). assert (match m with Err _ => False | _ => True end) as Hm.
  { unfold m. destruct (relaypriority env && _); [|done]. by destruct (GetPriority _ _ _) as [[]| | |]. }
  clearbody m. destruct m as [ok|?| |]; [|destruct Hm|done|done]. cbn [mbind outcome_bind]. destruct ok; cbn [negb]; [|apply calm_refl].
  destruct (lf && _); [apply rate_limit_calm|apply calm_refl].
Qed.

Lemma make_entry_spec tx n view s :
  match make_entry env tx n view s with
  | Ok e => e_tx e = tx ∧ e_nFee e = n - sum_values (vout tx) ∧ e_nTxSize e = size (ser_tx tx)
  | Err (_, s') => s' = s
  | _ => True
  end.
Proof.
  unfold make_entry. destruct (GetLegacySigOpCount tx) as [k| | |]; [|done..]. cbn [no_err mbind outcome_bind].
  destruct (GetP2SHSigOpCount tx view) as [[k' w]| | |]; [|done..]. cbn [no_err mbind outcome_bind]. destruct (_ <? _); [done|].
  destruct (GetValueOut tx) as [vo| | |] eqn:Ev; [|done..]. apply GetValueOut_Ok in Ev as [-> _]. cbn [no_err mbind outcome_bind].
  unfold add64. destruct (_ && _); [|done]. cbn [no_err mbind outcome_bind].
  destruct (GetPriority tx _ view) as [[d w']| | |]; [|done..]. cbn [no_err mbind outcome_bind]. done.
Qed.

(** *** Storing *)

Lemma store_entry_ok hash e view p p' :
  pool_ok p → addable p hash e → store_entry env hash e view p = Ok p' →
  pool_ok p' ∧ mapTx p' = <[hash := e]> (mapTx p).
Proof.
  intros Hp Ha. pose proof (addUnchecked_ok hash e p Hp Ha) as H1. unfold store_entry. set (p1 := addUnchecked hash e p) in *.
  assert (mapTx p1 !! hash = Some e) as He by apply lookup_insert_eq.
  assert (mapAddressInserted p1 !! hash = None) as Hna.
  { destruct (mapAddressInserted p !! hash) as [ks|] eqn:E; [|done]. apply (po_address_keys p Hp) in E as [[? E] _]. by rewrite (ad_new _ _ _ Ha) in E. }
  assert (mapSpentInserted p1 !! hash = None) as Hns.
  { destruct (mapSpentInserted p !! hash) as [ks|] eqn:E; [|done]. apply (po_spent_keys p Hp) in E as (? & E & _). by rewrite (ad_new _ _ _ Ha) in E. }
  intros (p2 & E2 & E)%outcome_bind_ok.
  assert (pool_ok p2 ∧ mapTx p2 = mapTx p1 ∧ mapSpentInserted p2 = mapSpentInserted p1) as (H2 & T2 & I2).
  { destruct (ae_fAddressIndex env); [|by injection E2 as <-]. apply outcome_bind_ok in E2 as ([q w] & Eq & [= <-]).
    by apply (addAddressIndex_ok e view p1 q w hash). }
  destruct (ae_fSpentIndex env); [|injection E as <-; by rewrite T2].
  apply outcome_bind_ok in E as ([q w] & Eq & [= <-]). rewrite <- T2 in He. rewrite <- I2 in Hns.
  destruct (addSpentIndex_ok e view p2 q w hash H2 He Hns Eq) as [Hq Tq]. by rewrite Tq, T2.
Qed.

(** *** Reading the view leaves it alone *)

Lemma map_reads (v v' : gmap Z CCoins * Z) : reads v v' → v' = v.
Proof. destruct v as [f b], v' as [f' b']. intros (_ & E1 & E2). cbn in E1. unfold best in E2. cbn in E2. by subst. Qed.

Lemma AreInputsStandard_loop_reads ins (v : gmap Z CCoins * Z) b v' :
  cs_ok v → AreInputsStandard_loop ins v = Ok (b, v') → v' = v.
Proof.
  revert b. induction ins as [|i ins IH]; intros b Hv; cbn [AreInputsStandard_loop]; [by intros [= _ <-]|].
  destruct (GetOutputFor v i) as [[o w]| | |] eqn:E; [|intros E'; discriminate E'..]. cbn [no_err mbind outcome_bind].
  destruct (GetOutputFor_Ok v i o w Hv E) as [->%map_reads _].
  destruct (Solver _) as [[[ok t] sols]| | |]; [|intros E'; discriminate E'..]. cbn [no_err mbind outcome_bind].
  destruct ok; cbn [negb]; [|by intros [= _ <-]]. destruct (_ <? 0); [by intros [= _ <-]|].
  destruct (EvalScript _ _ _ _) as [stack|e| |]; [|by intros [= _ <-]|intros E'; discriminate E'..].
  destruct (args_expected _ _ _) as [[b'|n]| | |]; [| |intros E'; discriminate E'..]; cbn [mbind outcome_bind]; [by intros [= _ <-]|].
  destruct (_ =? n); [by apply IH|by intros [= _ <-]].
Qed.

(** *** The view shows what the inputs spend *)

Section Agree.
Context (p : CTxMemPool) (u : utxo_map) (tx : CTransaction) (f : gmap Z CCoins) (Hf : view_of p u tx f).

Lemma agree_spent i : i ∈ vin tx → spent_output f i = spent_output (pool_view p u) i.
Proof. intros Hi. unfold spent_output. by rewrite (vo_input _ _ _ _ Hf i Hi). Qed.
Lemma agree_value ins : (∀ i, i ∈ ins → i ∈ vin tx) → value_in f ins = value_in (pool_view p u) ins.
Proof.
  unfold value_in. induction ins as [|i ins IH]; intros Hsub; [done|]. rewrite !sum_Z_cons, agree_spent by (apply Hsub; by left).
  by rewrite IH by (intros; apply Hsub; by right).
Qed.
Lemma agree_checks flags k ins : (∀ i, i ∈ ins → i ∈ vin tx) → input_checks f tx flags k ins = input_checks (pool_view p u) tx flags k ins.
Proof.
  revert k. induction ins as [|i ins IH]; intros k Hsub; cbn [input_checks]; [done|]. rewrite agree_spent by (apply Hsub; by left).
  by rewrite IH by (intros; apply Hsub; by right).
Qed.
Lemma agree_spend_ok maxm mat h : spend_ok maxm mat f h tx → spend_ok maxm mat (pool_view p u) h tx.
Proof.
  intros [S1 S2 S3 S4 S5]. rewrite agree_value in S4, S5 by done. split; [| | |done|done].
  - intros i Hi. rewrite <- agree_spent by done. by apply S1.
  - intros i Hi c. rewrite <- (vo_input _ _ _ _ Hf i Hi). by apply S2.
  - intros i o Hi. rewrite <- agree_spent by done. by apply S3.
Qed.
Lemma agree_input_ok i : 0 ≤ prevout_n (prevout i) → i ∈ vin tx → input_ok p u i = true.
Proof.
  intros Hn Hi. destruct (vo_available _ _ _ _ Hf i Hi) as [o Ho]. rewrite agree_spent in Ho by done.
  apply spent_output_Some in Ho as (c & Hc & Hcn & Hnull). rewrite lookup_pool_view in Hc. unfold input_ok.
  rewrite (proj2 (Z.leb_le _ _) Hn). cbn [andb]. destruct (mapTx p !! prevout_hash (prevout i)) as [e|].
  - injection Hc as ->. unfold IsAvailable. by rewrite Hcn, Hnull.
  - unfold avail. rewrite Hc. unfold IsAvailable. by rewrite Hcn, Hnull.
Qed.
End Agree.

Lemma check_inputs_Ok tx flags f b p u :
  view_of p u tx f → IsCoinBase tx = false → 0 ≤ nMaxMoneyOut env →
  match check_inputs Verify env tx true flags (f, b) with
  | Ok _ => (∃ prev, ae_blocks env !! b = Some prev ∧ spend_ok (nMaxMoneyOut env) (COINBASE_MATURITY env) (pool_view p u) (nHeight prev + 1) tx) ∧
            Forall (check_ok Verify) (tx_checks (pool_view p u) flags tx)
  | _ => True
  end.
Proof.
  intros Hf Hcb Hm. unfold check_inputs. destruct (CheckInputs _ _ _ _ _ _ _ _ _) as [[r v']| | |] eqn:E; [|done..]. cbn [mbind outcome_bind].
  apply CheckInputs_Ok in E as (_ & (prev & Hp & Hs) & _ & Hc); [|apply (vo_ok _ _ _ _ Hf)|done|done]. split.
  - exists prev. split; [done|]. by apply (agree_spend_ok p u tx f Hf).
  - specialize (Hc eq_refl eq_refl). unfold tx_checks in *. rewrite Hcb in *. by rewrite (agree_checks p u tx f Hf) in Hc.
Qed.

(** What acceptance leaves: the pool with [tx], which pays for itself and whose
    inputs the pool and the chain offer. *)
Record accepted (tx : CTransaction) s s' : Prop := {
  ac_tip : cs_utxo (as_tip s') = cs_utxo (as_tip s);
  ac_pool : pool_ok (as_pool s');
  ac_inputs : inputs_ok (as_pool s') (cs_utxo (as_tip s));
  ac_loose : loose tx true (as_pool s);
  ac_entry : ∃ e, mapTx (as_pool s') = <[tx_hash tx := e]> (mapTx (as_pool s)) ∧ e_tx e = tx ∧ 0 ≤ e_nFee e ∧
    e_nFee e = value_in (pool_view (as_pool s) (cs_utxo (as_tip s))) (vin tx) - sum_values (vout tx);
  ac_spend : ∃ prev, ae_blocks env !! best (as_tip s) = Some prev ∧
    spend_ok (nMaxMoneyOut env) (COINBASE_MATURITY env) (pool_view (as_pool s) (cs_utxo (as_tip s))) (nHeight prev + 1) tx;
  ac_scripts : Forall (check_ok Verify) (tx_checks (pool_view (as_pool s) (cs_utxo (as_tip s))) STANDARD_SCRIPT_VERIFY_FLAGS tx);
  ac_mandatory : Forall (check_ok Verify) (tx_checks (pool_view (as_pool s) (cs_utxo (as_tip s))) MANDATORY_SCRIPT_VERIFY_FLAGS tx)
}.
(** What a rejection leaves. *)
Definition untouched s s' : Prop := cs_utxo (as_tip s') = cs_utxo (as_tip s) ∧ ∃ d, as_pool s' = set_deltas d (as_pool s).

Lemma untouched_calm s s1 s' : reads (as_tip s) (as_tip s1) → as_pool s1 = as_pool s → calm s1 s' → untouched s s'.
Proof. intros (_ & Hu & _) Hp [Ht [d Hd]]. split; [by rewrite Ht|]. exists d. by rewrite Hd, Hp. Qed.

Lemma set_deltas_ok d q : pool_ok q → pool_ok (set_deltas d q).
Proof. by intros [? ? ? ? ? ? ?]. Qed.

Lemma accept_tail tx e view f b s s1 s2 :
  view = (f, b) → cs_ok (as_tip s) → pool_ok (as_pool s) → inputs_ok (as_pool s) (cs_utxo (as_tip s)) →
  (∀ i, i ∈ vin tx → 0 ≤ prevout_n (prevout i)) → 0 ≤ nMaxMoneyOut env →
  reads (as_tip s) (as_tip s1) → as_pool s1 = as_pool s → calm s1 s2 → b = best (as_tip s) →
  loose tx true (as_pool s) → view_of (as_pool s) (cs_utxo (as_tip s)) tx f → cs_utxo (as_tip s) !! tx_hash tx = None →
  e_tx e = tx → e_nFee e = value_in f (vin tx) - sum_values (vout tx) →
  match (_ ← checked AcceptInputs s2 (check_inputs Verify env tx true STANDARD_SCRIPT_VERIFY_FLAGS view);
         _ ← checked AcceptMandatory s2 (check_inputs Verify env tx true MANDATORY_SCRIPT_VERIFY_FLAGS view);
         p ← no_err (store_entry env (tx_hash tx) e view (as_pool s2));
         Ok (set_as_pool p s2)) with
  | Ok s' => accepted tx s s'
  | Err (_, s') => untouched s s'
  | _ => True
  end.
Proof.
  intros -> Hv Hp Hin Hn Hm Hr Hp1 Hc -> Hl Hf Hu Het Hfee. pose proof (untouched_calm s s1 s2 Hr Hp1 Hc) as Hun. destruct Hun as [Hu2 [d Hd]].
  pose proof (check_inputs_Ok tx STANDARD_SCRIPT_VERIFY_FLAGS f (best (as_tip s)) _ _ Hf (lo_coinbase _ _ _ Hl) Hm) as C1.
  pose proof (check_inputs_Ok tx MANDATORY_SCRIPT_VERIFY_FLAGS f (best (as_tip s)) _ _ Hf (lo_coinbase _ _ _ Hl) Hm) as C2.
  destruct (check_inputs Verify env tx true STANDARD_SCRIPT_VERIFY_FLAGS _) as [[]|e1| |]; [|by split; [|exists d]|done..]. cbn [checked map_err mbind outcome_bind].
  destruct (check_inputs Verify env tx true MANDATORY_SCRIPT_VERIFY_FLAGS _) as [[]|e1| |]; [|by split; [|exists d]|done..]. cbn [checked map_err mbind outcome_bind].
  destruct C1 as [Hsp Hs1], C2 as [_ Hs2].
  assert (addable (as_pool s) (tx_hash tx) e) as Ha.
  { split; [by rewrite Het|apply Hl|rewrite Het; apply (lo_valid _ _ _ Hl)|]. rewrite Het. apply Hl. }
  destruct (store_entry env (tx_hash tx) e _ (as_pool s2)) as [p'|[]| |] eqn:Es; [|done..]. cbn [no_err mbind outcome_bind].
  rewrite Hd in Es. apply store_entry_ok in Es as [Hok Htx]; [|by apply set_deltas_ok|by destruct Ha]. cbn [mapTx set_deltas] in Htx.
  split; cbn [as_tip as_pool set_as_pool]; [done|done| |done| |done|done|done].
  - pose proof (addUnchecked_inputs_ok (tx_hash tx) e (as_pool s) (cs_utxo (as_tip s)) Hp Ha Hin) as Hadd.
    rewrite Het in Hadd. specialize (Hadd (λ i Hi, agree_input_ok _ _ _ _ Hf i (Hn i Hi) Hi) Hu).
    intros h e' i He Hi. rewrite Htx in He. specialize (Hadd h e' i He Hi). unfold input_ok in *. by rewrite Htx.
  - exists e. split_and!; [done|done| |].
    + destruct Hsp as (prev & _ & Hsp). rewrite Hfee, (agree_value _ _ _ _ Hf) by done.
      pose proof (sp_fee _ _ _ _ _ Hsp (lo_coinstake _ _ _ Hl eq_refl)). lia.
    + by rewrite Hfee, (agree_value _ _ _ _ Hf).
Qed.

(** ** Properties *)

(** C22: from a consistent pool whose inputs are available, [AcceptToMemoryPool]
    either accepts or refuses.  An accepted transaction satisfies the context-free
    rules, is neither in the pool nor in conflict with it, pays a fee that is the
    value of its inputs less its outputs and not negative; every input is an
    unspent output of the pool or the chain, mature, in range, and its script
    verifies under the standard and under the mandatory flags; the pool is the old
    one with the transaction, consistent, and every input of it is available.  A
    refusal changes neither the entries nor the marked outputs nor the unspent
    outputs of the chain; only priorities and the rate limiter may change. *)
Theorem AcceptToMemoryPool_sound (tx : CTransaction) (fLimitFree fRejectInsaneFee ignoreFees : bool) (s : accept_state V) :
  cs_ok (as_tip s) → pool_ok (as_pool s) → inputs_ok (as_pool s) (cs_utxo (as_tip s)) →
  (∀ i, i ∈ vin tx → 0 ≤ prevout_n (prevout i)) → 0 ≤ nMaxMoneyOut env < 2 ^ 62 →
  match AcceptToMemoryPool pow Verify env tx fLimitFree fRejectInsaneFee ignoreFees s with
  | Ok s' => accepted tx s s'
  | Err (_, s') => untouched s s'
  | _ => True
  end.
Proof.
  intros Hv Hp Hin Hn Hm. assert (untouched s s) as Hself by (split; [done|apply (calm_refl s)]). unfold AcceptToMemoryPool.
  pose proof (check_loose_spec tx true true s Hm) as L. destruct (check_loose _ _ _ _ _) as [[]|[]| |]; [|by subst|done..].
  cbn [mbind outcome_bind]. pose proof (open_view_spec tx s Hv (lo_new _ _ _ L)) as O.
  destruct (open_view tx s) as [[[f b] s1]|[r s1]| |]; [|destruct O as [O ->]|done..].
  2: { by apply (untouched_calm s (set_as_tip (as_tip s1) s)); [|done|apply calm_refl]. }
  cbn [mbind outcome_bind]. destruct O as (R & E1 & Hb & Hf & Hu).
  assert (as_pool s1 = as_pool s) as Hp1 by (by rewrite E1).
  assert (∀ s', s' = s1 → untouched s s') as Hs1 by (intros s' ->; by apply (untouched_calm s s1); [| |apply calm_refl]).
  destruct (GetValueIn _ tx) as [[n view]| | |] eqn:En; [|done..]. cbn [no_err mbind outcome_bind].
  unfold GetValueIn in En. rewrite (lo_coinbase _ _ _ L) in En.
  apply GetValueIn_loop_Ok in En as [->%map_reads ->]; [|apply (vo_ok _ _ _ _ Hf)]. rewrite Z.add_0_l. cbn [cs_utxo map_store fst].
  set (m := if RequireStandard env then _ else _).
  assert (match m with Ok (_, view) => view = (f, b) | Err _ => False | _ => True end) as Hst.
  { unfold m. destruct (RequireStandard env); [|done]. destruct (AreInputsStandard tx (f, b)) as [[ok w]| | |] eqn:Ea; [|done..].
    unfold AreInputsStandard in Ea. rewrite (lo_coinbase _ _ _ L) in Ea. apply AreInputsStandard_loop_reads in Ea; [done|apply (vo_ok _ _ _ _ Hf)]. }
  clearbody m. destruct m as [[std view]|?| |]; [|destruct Hst|done..]. subst view. cbn [mbind outcome_bind]. destruct std; cbn [negb]; [|by apply Hs1].
  pose proof (make_entry_spec tx (value_in f (vin tx)) (f, b) s1) as Me.
  destruct (make_entry _ _ _ _ _) as [e|[]| |]; [|by apply Hs1|done..]. cbn [mbind outcome_bind]. destruct Me as (Het & Hfee & _).
  pose proof (apply_fees_calm false tx (bool_decide (tx_hash tx ∈ mapObfuscationBroadcastTxes env)) ignoreFees fLimitFree e (f, b) s1) as Mf.
  destruct (apply_fees _ _ _ _ _ _ _ _ _ _) as [s2|[r s2]| |]; [|by apply (untouched_calm s s1)|done..]. cbn [mbind outcome_bind].
  assert (∀ m : outcome unit bool, match no_err (E':=accept_reject * accept_state V) m with Err _ => False | _ => True end) as Hne by (by intros []).
  set (m := if fRejectInsaneFee then _ else _). assert (match m with Err _ => False | _ => True end) as Hi by (unfold m; destruct fRejectInsaneFee; [apply Hne|done]).
  clearbody m. destruct m as [insane|?| |]; [|destruct Hi|done..]. cbn [mbind outcome_bind]. destruct insane; [by apply (untouched_calm s s1)|].
  apply (accept_tail tx e (f, b) f b s s1 s2); done || lia.
Qed.
End AcceptSpec.

(** A transaction that spends an output of another one in the pool. *)
Module AcceptDemo.
Definition out (v : Z) : CTxOut := TxOut v [OP_1] (-10).
Definition parent : CTransaction := UpdateHash (Tx 0 1 [TxIn (OutPoint 100 0) [] 0xffffffff []] [out 50; out 40] 0).
Definition child : CTransaction := UpdateHash (Tx 0 1 [TxIn (OutPoint (tx_hash parent) 1) [] 0xffffffff []; TxIn (OutPoint 101 0) [] 0xffffffff []] [out 30] 0).
Definition coins : utxo_map := <[100 := Coins false false [out 100] 1 1]> {[101 := Coins true false [out 7] 1 1]}.
Definition env : accept_env :=
  AcceptEnv false true true 80 10000 Demo.maxm 1 false 15 true true 1 1744156800 1744156800 1744156800 ∅ ∅ (mapBlockIndex Demo.env).
Definition tip : gmap Z CCoins * Z := (coins, 7).
Definition start : accept_state (gmap Z CCoins * Z) := AcceptState CTxMemPool_empty tip (λ _, Limiter d_zero 0).
Definition accept (tx : CTransaction) (s : accept_state (gmap Z CCoins * Z)) := AcceptToMemoryPool (λ a _, a) (λ _ _ _, false) env tx true true false s.
Definition after (m : outcome (accept_reject * accept_state (gmap Z CCoins * Z)) (accept_state (gmap Z CCoins * Z))) :=
  match m with Ok s => s | _ => start end.
(** The pool with the parent. *)
Definition middle : accept_state (gmap Z CCoins * Z) := after (accept parent start).
Lemma tip_ok : utxo_ok coins.
Proof. apply utxo_ok_check. by vm_compute. Qed.
Lemma prevouts_ok tx : Forall (λ i, 0 ≤ prevout_n (prevout i)) (vin tx) → ∀ i, i ∈ vin tx → 0 ≤ prevout_n (prevout i).
Proof. by rewrite list.Forall_forall. Qed.
End AcceptDemo.

Lemma AcceptToMemoryPool_sound_witness :
  (∃ s1 s2, AcceptDemo.accept AcceptDemo.parent AcceptDemo.start = Ok s1 ∧ AcceptDemo.accept AcceptDemo.child s1 = Ok s2 ∧
    pool_size (as_pool s2) = 2%nat ∧ pool_ok (as_pool s2)) ∧
  is_ok (AcceptDemo.accept AcceptDemo.child AcceptDemo.start) = false.
Proof.
  split; [|by vm_compute].
  assert (is_ok (AcceptDemo.accept AcceptDemo.parent AcceptDemo.start) = true) as O1 by (by vm_compute).
  assert (is_ok (AcceptDemo.accept AcceptDemo.child AcceptDemo.middle) = true) as O2 by (by vm_compute).
  assert (pool_size (as_pool (AcceptDemo.after (AcceptDemo.accept AcceptDemo.child AcceptDemo.middle))) = 2%nat) as O3 by (by vm_compute).
  assert (0 ≤ nMaxMoneyOut AcceptDemo.env < 2 ^ 62) as Hm by by_decision.
  assert (inputs_ok CTxMemPool_empty AcceptDemo.coins) as Hi by (apply inputs_ok_check; by vm_compute).
  pose proof (AcceptToMemoryPool_sound (λ a _, a) (λ _ _ _, false) AcceptDemo.env AcceptDemo.parent true true false AcceptDemo.start
    AcceptDemo.tip_ok pool_ok_empty Hi (AcceptDemo.prevouts_ok AcceptDemo.parent ltac:(by_decision)) Hm) as T1.
  fold (AcceptDemo.accept AcceptDemo.parent AcceptDemo.start) in T1. unfold AcceptDemo.middle in O2, O3.
  destruct (AcceptDemo.accept AcceptDemo.parent AcceptDemo.start) as [s1| | |] eqn:E1; [|discriminate O1..]. cbn [AcceptDemo.after] in O2, O3.
  exists s1. destruct T1 as [A1 A2 A3 _ _ _ _ _].
  assert (cs_ok (as_tip s1)) as Hs1 by (intros t c; cbn in A1; cbn; rewrite A1; apply AcceptDemo.tip_ok).
  pose proof (AcceptToMemoryPool_sound (λ a _, a) (λ _ _ _, false) AcceptDemo.env AcceptDemo.child true true false s1 Hs1 A2) as T2.
  rewrite A1 in T2. specialize (T2 A3 (AcceptDemo.prevouts_ok AcceptDemo.child ltac:(by_decision)) Hm).
  fold (AcceptDemo.accept AcceptDemo.child s1) in T2.
  destruct (AcceptDemo.accept AcceptDemo.child s1) as [s2| | |]; [|discriminate O2..].
  exists s2. split_and!; [done|done|exact O3|by destruct T2].
Defined.

(** [AreInputsStandard] stops at the first script hash whose script it does not
    know and does not look at the inputs after it: the second input alone is
    refused, behind the first it is not. *)
Lemma AreInputsStandard_skips :
  let p2sh := TxOut 50 ([OP_HASH160; 20] ++ replicate 20 7 ++ [OP_EQUAL]) (-10) in
  let odd := TxOut 50 [OP_2; OP_EQUAL] (-10) in
  let coins : utxo_map := <[1 := Coins false false [p2sh] 1 1]> {[2 := Coins false false [odd] 1 1]} in
  let i1 := TxIn (OutPoint 1 0) [2; OP_1; OP_1ADD] 0 [] in
  let i2 := TxIn (OutPoint 2 0) [] 0 [] in
  AreInputsStandard (V:=gmap Z CCoins * Z) (Tx 0 1 [i2] [] 0) (coins, 0) = Ok (false, (coins, 0)) ∧
  AreInputsStandard (V:=gmap Z CCoins * Z) (Tx 0 1 [i1; i2] [] 0) (coins, 0) = Ok (true, (coins, 0)).
Proof. split; vm_compute; reflexivity. Qed.

(** The priority multiplies a value by an age in 64 bits: an old enough output of a
    large value overflows. *)
Lemma GetPriority_overflows :
  let coins : utxo_map := {[1 := Coins false false [TxOut (10000000 * COIN) [OP_1] (-10)] 1 1]} in
  GetPriority (V:=gmap Z CCoins * Z) (Tx 0 1 [TxIn (OutPoint 1 0) [] 0 []] [TxOut 1 [] (-10)] 0) 10000 (coins, 0) = AssertFail.
Proof. vm_compute. reflexivity. Qed.
