(* ===== verification/Kernel.v ===== *)
(** * The stake kernel (kernel.h, kernel.cpp; the stake fields of chain.h)

    How a proof-of-stake block is tied to a coin: the stake modifier collects one
    bit from each of up to 64 blocks that are selected by hash, and a coinstake is
    valid when the hash of the modifier, the coin and the time is below the target
    times the value of the coin.  Hashes are numbers; a block index entry is named
    by its block hash. *)
From stdpp Require Import base tactics list gmap numbers option sorting.
From Stdlib Require Import ZArith Lia.
From S2P Require Import Prelude.
From S2P Require Import Serialize.
From S2P Require Import BaseUint.
From S2P Require Import Crypto.
From S2P Require Import Interpreter.
From S2P Require Import Transaction.
From S2P Require Import SigHash.
From S2P Require Import Chain.
From S2P Require Import Pow.
From S2P Require Import Block.
From S2P Require Import ConnectBlock.
From S2P Require Import ChainSelect.

(** ** Constants and flags *)

Definition MODIFIER_INTERVAL : Z := 60.
Definition MODIFIER_INTERVAL_TESTNET : Z := 60.
Definition MODIFIER_INTERVAL_RATIO : Z := 3.
Definition nStakeMinAge : Z := 7200.
Definition BLOCK_STAKE_ENTROPY : Z := Z.shiftl 1 1.
Definition BLOCK_STAKE_MODIFIER : Z := Z.shiftl 1 2.

Definition getIntervalVersion (fTestNet : bool) : Z := if fTestNet then MODIFIER_INTERVAL_TESTNET else MODIFIER_INTERVAL.
(** [fTestNet] is a variable of this file that is never set. *)
Definition fTestNet : bool := false.
Definition interval : Z := getIntervalVersion fTestNet.

Definition GeneratedStakeModifier (b : CBlockIndex) : bool := flag (nFlags b) BLOCK_STAKE_MODIFIER.
(** The entry's hash is [p]. *)
Definition GetStakeEntropyBit (p : Z) : Z := Z.land (p mod 2 ^ 64) 1.

Definition with_stake (flags : Z) (s : stake_fields) (b : CBlockIndex) : CBlockIndex :=
  BlockIndex (pprev b) (pskip b) (nHeight b) (bnChainTrust b) (nChainWork b) (nChainTx b) (nStatus b) flags
    (nSequenceId b) (bi_nVersion b) (nTime b) (nBits b) (bi_hashMerkleRoot b) (bi_nNonce b) (pnext b) (nTx b) (bi_disk b) s.
Definition modifier_of (b : CBlockIndex) : Z := nStakeModifier (bi_stake b).

Definition SetStakeEntropyBit (nEntropyBit : Z) (b : CBlockIndex) : bool * CBlockIndex :=
  if 1 <? nEntropyBit then (false, b)
  else (true, with_stake (Z.lor (nFlags b) (if nEntropyBit =? 0 then 0 else BLOCK_STAKE_ENTROPY)) (bi_stake b) b).
Definition set_modifier (n : Z) (s : stake_fields) : stake_fields :=
  StakeFields n (nStakeModifierChecksum s) (prevoutStake s) (nStakeTime s) (hashProofOfStake s) (Chain.nMint s) (Chain.nMoneySupply s).
Definition SetStakeModifier (nModifier : Z) (fGenerated : bool) (b : CBlockIndex) : CBlockIndex :=
  with_stake (if fGenerated then Z.lor (nFlags b) BLOCK_STAKE_MODIFIER else nFlags b) (set_modifier nModifier (bi_stake b)) b.

Definition GetWeight (nIntervalBeginning nIntervalEnd : Z) : Z := nIntervalEnd - nIntervalBeginning - nStakeMinAge.

(** ** The selection interval *)

Definition GetStakeModifierSelectionIntervalSection (nSection : Z) : res Z :=
  if negb ((0 <=? nSection) && (nSection <? 64)) then AssertFail
  else Ok (u32 (interval * 63) / u32 (63 + (63 - nSection) * (MODIFIER_INTERVAL_RATIO - 1))).

Fixpoint sum_sections (n : nat) (nSection : Z) (nSelectionInterval : Z) : res Z :=
  match n with
  | O => Ok nSelectionInterval
  | S n => a ← GetStakeModifierSelectionIntervalSection nSection; sum_sections n (nSection + 1) (nSelectionInterval + a)
  end.
Definition GetStakeModifierSelectionInterval : res Z := sum_sections 64 0 0.

(** ** The last modifier *)

(** [while (pindex && pindex->pprev && !pindex->GeneratedStakeModifier())] *)
Fixpoint last_generated (fuel : nat) (m : block_index) (p : Z) : res Z :=
  b ← deref m p;
  match pprev b with
  | Some q =>
      if GeneratedStakeModifier b then Ok p
      else match fuel with O => OutOfFuel | S fuel => last_generated fuel m q end
  | None => Ok p
  end.
(** [None]: an error was reported. *)
Definition GetLastStakeModifier (m : block_index) (pindex : option Z) : res (option (Z * Z)) :=
  match pindex with
  | None => Ok None
  | Some p =>
      b ← deref m p;
      q ← last_generated (Z.to_nat (nHeight b)) m p;
      c ← deref m q;
      if GeneratedStakeModifier c then Ok (Some (modifier_of c, GetBlockTime c)) else Ok None
  end.

(** ** Selecting a block *)

(** [ss << hashProof << nStakeModifierPrev], hashed; divided by [2 ** 32] for a
    proof-of-stake block. *)
Definition selection_hash (v2 : bool) (p : Z) (b : CBlockIndex) (nStakeModifierPrev : Z) : Z :=
  let hashProof := if v2 then p else if IsProofOfStake b then 0 else p in
  let h := uint256_of_bytes (Hash256 (ser_uint256 hashProof ++ WRITEDATA 8 nStakeModifierPrev)) in
  if IsProofOfStake b then Z.shiftr h 32 else h.

Section Select.
Context (ModifierUpgradeBlock : Z) (m : block_index).

(** [best]: the best hash and the entry selected so far; [None] before the first. *)
Fixpoint select_loop (fModifierV2 : bool) (items : list (Z * Z)) (mapSelectedBlocks : gset Z)
    (nSelectionIntervalStop nStakeModifierPrev : Z) (best : option (Z * Z)) : option Z :=
  match items with
  | [] => snd <$> best
  | (_, p) :: items =>
      match m !! p with
      | None => None
      | Some b =>
          if bool_decide (is_Some best) && (nSelectionIntervalStop <? GetBlockTime b) then snd <$> best else
          let next := select_loop fModifierV2 items mapSelectedBlocks nSelectionIntervalStop nStakeModifierPrev in
          if bool_decide (p ∈ mapSelectedBlocks) then next best else
          let hashSelection := selection_hash fModifierV2 p b nStakeModifierPrev in
          match best with
          | Some (hashBest, _) => if hashSelection <? hashBest then next (Some (hashSelection, p)) else next best
          | None => next (Some (hashSelection, p))
          end
      end
  end.

(** The new hash is used when the first candidate is past the switch height. *)
Definition modifier_v2 (vSortedByTimestamp : list (Z * Z)) : bool :=
  match vSortedByTimestamp with
  | (_, p) :: _ => match m !! p with Some b => ModifierUpgradeBlock <=? nHeight b | None => false end
  | [] => false
  end.
Definition SelectBlockFromCandidates (vSortedByTimestamp : list (Z * Z)) (mapSelectedBlocks : gset Z)
    (nSelectionIntervalStop nStakeModifierPrev : Z) : option Z :=
  select_loop (modifier_v2 vSortedByTimestamp) vSortedByTimestamp mapSelectedBlocks nSelectionIntervalStop nStakeModifierPrev None.

(** ** The next modifier *)

(** [while (pindex && pindex->GetBlockTime() >= nSelectionIntervalStart)] *)
Fixpoint candidates (fuel : nat) (nSelectionIntervalStart : Z) (pindex : option Z) : res (list (Z * Z)) :=
  match pindex with
  | None => Ok []
  | Some p =>
      b ← deref m p;
      if GetBlockTime b <? nSelectionIntervalStart then Ok [] else
      match fuel with
      | O => OutOfFuel
      | S fuel => l ← candidates fuel nSelectionIntervalStart (pprev b); Ok ((GetBlockTime b, p) :: l)
      end
  end.

(** [std::pair]'s order *)
Definition pair_le (a b : Z * Z) : Prop := a.1 < b.1 ∨ a.1 = b.1 ∧ a.2 ≤ b.2.
#[export] Instance pair_le_dec : RelDecision pair_le.
Proof. intros a b. unfold pair_le. apply _. Defined.

(** [nRound] of the rounds left; [None]: no block could be selected. *)
Fixpoint rounds (n : nat) (nRound : Z) (vSorted : list (Z * Z)) (nSelectionIntervalStop nStakeModifierPrev : Z)
    (mapSelectedBlocks : gset Z) (nStakeModifierNew : Z) : res (option Z) :=
  match n with
  | O => Ok (Some nStakeModifierNew)
  | S n =>
      a ← GetStakeModifierSelectionIntervalSection nRound;
      let stop := nSelectionIntervalStop + a in
      match SelectBlockFromCandidates vSorted mapSelectedBlocks stop nStakeModifierPrev with
      | None => Ok None
      | Some p =>
          rounds n (nRound + 1) vSorted stop nStakeModifierPrev ({[ p ]} ∪ mapSelectedBlocks)
            (Z.lor nStakeModifierNew (u64 (Z.shiftl (GetStakeEntropyBit p) nRound)))
      end
  end.

(** The result, [nStakeModifier] and [fGeneratedStakeModifier]; the modifier of the
    first block is the address of a string literal. *)
Definition ComputeNextStakeModifier (literal_address : Z) (pindexPrev : option Z) : res (bool * Z * bool) :=
  match pindexPrev with
  | None => Ok (true, 0, true)
  | Some p =>
      b ← deref m p;
      if nHeight b =? 0 then Ok (true, u64 literal_address, true) else
      last ← GetLastStakeModifier m pindexPrev;
      match last with
      | None => Ok (false, 0, false)
      | Some (nStakeModifier, nModifierTime) =>
          if GetBlockTime b / interval <=? nModifierTime / interval then Ok (true, nStakeModifier, false) else
          nSelectionInterval ← GetStakeModifierSelectionInterval;
          let nSelectionIntervalStart := GetBlockTime b / interval * interval - nSelectionInterval in
          l ← candidates (S (Z.to_nat (nHeight b))) nSelectionIntervalStart pindexPrev;
          let vSortedByTimestamp := merge_sort pair_le (rev l) in
          new ← rounds (Nat.min 64 (length vSortedByTimestamp)) 0 vSortedByTimestamp nSelectionIntervalStart nStakeModifier ∅ 0;
          match new with
          | None => Ok (false, nStakeModifier, false)
          | Some nStakeModifierNew => Ok (true, nStakeModifierNew, true)
          end
      end
  end.
End Select.

(** ** The modifier of a kernel *)

(** [pindex] and [pindexNext] of the loop; [None]: an error was reported. *)
Fixpoint kernel_loop (fuel : nat) (m : block_index) (v : CChain) (nUntil : Z) (pindex : Z) (pindexNext : option Z) (nStakeModifierTime : Z)
    : res (option Z) :=
  if nUntil <=? nStakeModifierTime then b ← deref m pindex; Ok (Some (modifier_of b)) else
  match pindexNext with
  | None => Ok None
  | Some p =>
      match fuel with
      | O => OutOfFuel
      | S fuel =>
          b ← deref m p;
          kernel_loop fuel m v nUntil p (chain_at v (nHeight b + 1))
            (if GeneratedStakeModifier b then GetBlockTime b else nStakeModifierTime)
      end
  end.
Definition GetKernelStakeModifier (m : block_index) (v : CChain) (hashBlockFrom : Z) : res (option Z) :=
  match m !! hashBlockFrom with
  | None => Ok None
  | Some from =>
      i ← GetStakeModifierSelectionInterval;
      kernel_loop (length v) m v (GetBlockTime from + i) hashBlockFrom (chain_at v (nHeight from + 1)) (GetBlockTime from)
  end.

(** ** The kernel *)

Definition stakeHash (nTimeTx : Z) (ss : list Z) (prevoutIndex prevoutHash nTimeBlockFrom : Z) : Z :=
  uint256_of_bytes (Hash256 (ss ++ WRITEDATA 4 nTimeBlockFrom ++ WRITEDATA 4 prevoutIndex ++ ser_uint256 prevoutHash ++ WRITEDATA 4 nTimeTx)).

(** The product is taken modulo [2 ** 256]. *)
Definition stakeTargetHit (hash : Z) (nValueIn : Z) (bnTargetPerCoinDay : list Z) : uresult bool :=
  bnCoinDayWeight ← uint_div UINT256_WIDTH (uint256_of_u64 (u64 nValueIn)) (uint256_of_u64 100);
  Ok (uint_lt (uint256_limbs hash) (uint_mul UINT256_WIDTH bnCoinDayWeight bnTargetPerCoinDay)).

(** The search from [i] on: the latest time that hits comes first. *)
Fixpoint search_kernel (n : nat) (i : Z) (nTimeTx nHashDrift : Z) (ss : list Z) (prevout : COutPoint) (nTimeBlockFrom nValueIn : Z)
    (target : list Z) (hash : Z) : uresult (option Z * Z) :=
  match n with
  | O => Ok (None, hash)
  | S n =>
      let nTryTime := u32 (nTimeTx + nHashDrift - i) in
      let hash := stakeHash nTryTime ss (prevout_n prevout) (prevout_hash prevout) nTimeBlockFrom in
      hit ← stakeTargetHit hash nValueIn target;
      if hit : bool then Ok (Some nTryTime, hash)
      else search_kernel n (i + 1) nTimeTx nHashDrift ss prevout nTimeBlockFrom nValueIn target hash
  end.

(** The result, [nTimeTx] and [hashProofOfStake]; [hashFrom] is the hash of
    [blockFrom] and [hash] what [hashProofOfStake] holds at the call.  The time
    stamp that the search leaves in [mapHashedBlocks] only paces the miner. *)
Definition CheckStakeKernelHash (m : block_index) (v : CChain) (nBits : Z) (blockFrom : CBlock) (hashFrom : Z) (txPrev : CTransaction)
    (prevout : COutPoint) (nTimeTx nHashDrift : Z) (fCheck : bool) (hash : Z) : outcome unit (bool * Z * Z) :=
  match vout txPrev !! Z.to_nat (prevout_n prevout) with
  | None => AssertFail
  | Some o =>
      let nTimeBlockFrom := h_nTime (header blockFrom) in
      if nTimeTx <? nTimeBlockFrom then Ok (false, nTimeTx, hash) else
      if nTimeTx <? u32 (nTimeBlockFrom + nStakeMinAge) then Ok (false, nTimeTx, hash) else
      let '(target, _, _) := SetCompact nBits in
      md ← GetKernelStakeModifier m v hashFrom;
      match md with
      | None => Ok (false, nTimeTx, hash)
      | Some nStakeModifier =>
          let ss := WRITEDATA 8 nStakeModifier in
          if fCheck then
            let hash := stakeHash nTimeTx ss (prevout_n prevout) (prevout_hash prevout) nTimeBlockFrom in
            hit ← no_err (stakeTargetHit hash (nValue o) target); Ok (hit, nTimeTx, hash)
          else
            '(t, hash) ← no_err (search_kernel (Z.to_nat nHashDrift) 0 nTimeTx nHashDrift ss prevout nTimeBlockFrom (nValue o) target hash);
            match t with Some t => Ok (true, t, hash) | None => Ok (false, nTimeTx, hash) end
      end
  end.

(** ** What is selected *)

Lemma pair_le_trans x y z : pair_le x y → pair_le y z → pair_le x z.
Proof. unfold pair_le. lia. Qed.
Lemma pair_le_refl x : pair_le x x.
Proof. unfold pair_le. lia. Qed.
Lemma pair_le_total x y : pair_le x y ∨ pair_le y x.
Proof. unfold pair_le. lia. Qed.
#[export] Instance pair_le_Total : Total pair_le.
Proof. intros x y. apply pair_le_total. Qed.
#[export] Instance pair_le_Transitive : Transitive pair_le.
Proof. intros x y z. apply pair_le_trans. Qed.

Section Selected.
Context (ModifierUpgradeBlock : Z) (m : block_index).

(** A block that a round may select: one that has not been selected, up to the
    round's time, or the first one when all are later. *)
Definition eligible (vs : list (Z * Z)) (chosen : gset Z) (stop : Z) (x : Z * Z) : Prop :=
  x ∈ vs ∧ x.2 ∉ chosen ∧ (x.1 ≤ stop ∨ ∀ y, y ∈ vs → y.2 ∉ chosen → pair_le x y).
Definition select_key (v2 : bool) (prev p : Z) : Z := match m !! p with Some b => selection_hash v2 p b prev | None => 0 end.
(** The smallest hash among these, the earliest of equals. *)
Definition selected (key : Z → Z) (vs : list (Z * Z)) (chosen : gset Z) (stop p : Z) : Prop :=
  ∃ t, eligible vs chosen stop (t, p) ∧
    ∀ y, eligible vs chosen stop y → key p < key y.2 ∨ key p = key y.2 ∧ pair_le (t, p) y.

Definition timed (vs : list (Z * Z)) : Prop := ∀ t p, (t, p) ∈ vs → ∃ b, m !! p = Some b ∧ GetBlockTime b = t.

Lemma timed_cons x vs : timed (x :: vs) → timed vs.
Proof. intros Ht t p Hin. apply Ht. by right. Qed.

Section Loop.
Context (v2 : bool) (chosen : gset Z) (stop prev : Z) (key : Z → Z).
Context (Hkey : ∀ p b, m !! p = Some b → selection_hash v2 p b prev = key p).
Notation late x := (x.2 ∉ chosen ∧ x.1 ≤ stop).

(** With a block [q] selected, the rest is searched up to the time. *)
Lemma select_loop_some vs q :
  timed vs → StronglySorted pair_le vs →
  ∃ r, select_loop m v2 vs chosen stop prev (Some (key q, q)) = Some r ∧
    ((r = q ∧ ∀ x, x ∈ vs → late x → key q ≤ key x.2) ∨
     (∃ t, (t, r) ∈ vs ∧ late (t, r) ∧ key r < key q ∧
       ∀ x, x ∈ vs → late x → key r < key x.2 ∨ key r = key x.2 ∧ pair_le (t, r) x)).
Proof.
  revert q. induction vs as [|[t p] vs IH]; intros q Ht Hs; cbn [select_loop].
  { exists q. split; [done|]. left. split; [done|]. intros x []%elem_of_nil. }
  destruct (Ht t p) as (b & Hp & Hb); [by left|]. rewrite Hp. apply StronglySorted_inv in Hs as [Hs Hall].
  rewrite list.Forall_forall in Hall. rewrite bool_decide_eq_true_2 by (by eexists). cbn [andb].
  destruct (Z.ltb_spec stop (GetBlockTime b)) as [Hlt|Hle].
  { exists q. split; [done|]. left. split; [done|]. intros x Hx [_ Hxs]. exfalso.
    apply elem_of_cons in Hx as [->|Hx]; [cbn in Hxs; lia|]. specialize (Hall x Hx). unfold pair_le in Hall. cbn in Hall. lia. }
  apply timed_cons in Ht. case_bool_decide as Hin.
  { destruct (IH q Ht Hs) as (r & -> & Hr). exists r. split; [done|]. destruct Hr as [(-> & Hmin)|(t' & Hr & Hl & Hk & Hmin)].
    - left. split; [done|]. intros x [->|Hx]%elem_of_cons Hlx; [by destruct (proj1 Hlx)|by apply Hmin].
    - right. exists t'. split_and!; [by right|by apply Hl..|done|]. intros x [->|Hx]%elem_of_cons Hlx; [by destruct (proj1 Hlx)|by apply Hmin]. }
  rewrite (Hkey p b Hp).
  destruct (Z.ltb_spec (key p) (key q)) as [Hk|Hk].
  - destruct (IH p Ht Hs) as (r & -> & Hr). exists r. split; [done|]. right.
    destruct Hr as [(-> & Hmin)|(t' & Hr & Hl & Hk' & Hmin)].
    + exists t. split_and!; [by left|done|cbn; lia|done|]. intros x [->|Hx]%elem_of_cons Hlx; [right; split; [done|apply pair_le_refl]|].
      specialize (Hmin x Hx Hlx). destruct (decide (key p = key x.2)); [right; split; [done|by apply Hall]|left; lia].
    + exists t'. split_and!; [by right|by apply Hl..|lia|]. intros x [->|Hx]%elem_of_cons Hlx; [left; cbn; lia|by apply Hmin].
  - destruct (IH q Ht Hs) as (r & -> & Hr). exists r. split; [done|]. destruct Hr as [(-> & Hmin)|(t' & Hr & Hl & Hk' & Hmin)].
    + left. split; [done|]. intros x [->|Hx]%elem_of_cons Hlx; [done|by apply Hmin].
    + right. exists t'. split_and!; [by right|by apply Hl..|done|]. intros x [->|Hx]%elem_of_cons Hlx; [left; cbn; lia|by apply Hmin].
Qed.

Lemma eligible_cons x vs y :
  StronglySorted pair_le (x :: vs) → x.2 ∈ chosen → eligible (x :: vs) chosen stop y ↔ eligible vs chosen stop y.
Proof.
  intros Hs Hx. unfold eligible. rewrite elem_of_cons. split.
  - intros ([->|Hy] & Hn & Ho); [done|]. split_and!; [done|done|]. destruct Ho as [?|Ho]; [by left|right]. intros z Hz. apply Ho. by right.
  - intros (Hy & Hn & Ho). split_and!; [by right|done|]. destruct Ho as [?|Ho]; [by left|right]. intros z [->|Hz]%elem_of_cons Hzn; [done|by apply Ho].
Qed.

(** Before that, the first block that is left is taken. *)
Lemma select_loop_none vs :
  timed vs → StronglySorted pair_le vs → (∃ x, x ∈ vs ∧ x.2 ∉ chosen) →
  ∃ r, select_loop m v2 vs chosen stop prev None = Some r ∧ selected key vs chosen stop r.
Proof.
  induction vs as [|[t p] vs IH]; intros Ht Hs (x0 & Hx0 & Hn0); [apply elem_of_nil in Hx0 as []|]. cbn [select_loop].
  destruct (Ht t p) as (b & Hp & Hb); [by left|]. rewrite Hp. pose proof (timed_cons _ _ Ht) as Ht'.
  apply StronglySorted_inv in Hs as Hs'. destruct Hs' as [Hs' Hall]. rewrite list.Forall_forall in Hall.
  rewrite bool_decide_eq_false_2 by (by intros [? ?]). cbn [andb]. case_bool_decide as Hin.
  - destruct IH as (r & -> & Hr); [done|done| |].
    { exists x0. split; [|done]. apply elem_of_cons in Hx0 as [->|?]; [destruct (Hn0 Hin)|done]. }
    exists r. split; [done|]. destruct Hr as (t' & He & Hmin). exists t'. split; [by apply eligible_cons|].
    intros y Hy. apply Hmin. by apply (eligible_cons (t, p) vs y Hs Hin).
  - rewrite (Hkey p b Hp).
    assert (eligible ((t, p) :: vs) chosen stop (t, p)) as He.
    { split_and!; [by left|done|]. right. intros y [->|Hy]%elem_of_cons _; [apply pair_le_refl|by apply Hall]. }
    assert (∀ y, eligible ((t, p) :: vs) chosen stop y → y = (t, p) ∨ y ∈ vs ∧ late y) as Hcase.
    { intros y (Hy & Hyn & Ho). apply elem_of_cons in Hy as [->|Hy]; [by left|]. destruct Ho as [Ho|Ho]; [by right|].
      left. specialize (Ho (t, p) (list_elem_of_here _ _) Hin). specialize (Hall y Hy). unfold pair_le in *. destruct y as [a c]. cbn in *. f_equal; lia. }
    destruct (select_loop_some vs p Ht' Hs') as (r & -> & Hr). exists r. split; [done|].
    destruct Hr as [(-> & Hmin)|(t' & Hr & Hl & Hk & Hmin)].
    + exists t. split; [done|]. intros y [->|[Hy Hly]]%Hcase; [right; split; [done|apply pair_le_refl]|].
      specialize (Hmin y Hy Hly). destruct (decide (key p = key y.2)); [right; split; [done|by apply Hall]|left; lia].
    + exists t'. split; [split_and!; [by right|apply Hl|left; apply Hl]|].
      intros y [->|[Hy Hly]]%Hcase; [by left|by apply Hmin].
Qed.
End Loop.

(** *** The rounds *)

Definition section_length (nSection : Z) : Z := 3780 / (63 + (63 - nSection) * 2).
Lemma section_ok n : 0 ≤ n < 64 → GetStakeModifierSelectionIntervalSection n = Ok (section_length n).
Proof.
  intros Hn. unfold GetStakeModifierSelectionIntervalSection. rewrite (proj2 (Z.leb_le _ _)), (proj2 (Z.ltb_lt _ _)) by lia.
  cbn [andb negb]. unfold section_length, MODIFIER_INTERVAL_RATIO. rewrite (u32_id (63 + _)) by (unfold is_u; lia). done.
Qed.
Lemma interval_ok : GetStakeModifierSelectionInterval = Ok 2087.
Proof. by vm_compute. Qed.

Lemma entropy_bit p i : 0 ≤ i → Z.testbit (GetStakeEntropyBit p) i = (i =? 0) && Z.odd p.
Proof.
  intros Hi. unfold GetStakeEntropyBit. rewrite Z.land_spec. destruct (Z.eqb_spec i 0) as [->|Hne].
  - rewrite Z.mod_pow2_bits_low by lia. rewrite Z.bit0_odd. by destruct (Z.odd p).
  - change 1 with (Z.ones 1). rewrite Z.ones_spec_high by lia. apply andb_false_r.
Qed.
Lemma entropy_range p : 0 ≤ GetStakeEntropyBit p ≤ 1.
Proof.
  unfold GetStakeEntropyBit. assert (Z.land (p mod 2 ^ 64) 1 = (p mod 2 ^ 64) mod 2) as -> by (apply (Z.land_ones _ 1); lia).
  pose proof (Z.mod_pos_bound (p mod 2 ^ 64) 2). lia.
Qed.

Lemma shifted_bit p r i : 0 ≤ r < 64 → 0 ≤ i → Z.testbit (u64 (Z.shiftl (GetStakeEntropyBit p) r)) i = (i =? r) && Z.odd p.
Proof.
  intros Hr Hi. pose proof (entropy_range p). rewrite u64_id.
  - rewrite Z.shiftl_spec by lia. destruct (Z.ltb_spec i r) as [Hlt|Hge].
    + rewrite Z.testbit_neg_r by lia. by rewrite (proj2 (Z.eqb_neq _ _)) by lia.
    + rewrite entropy_bit by lia. f_equal. destruct (Z.eqb_spec i r); destruct (Z.eqb_spec (i - r) 0); (done || lia).
  - rewrite Z.shiftl_mul_pow2 by lia. split; [apply Z.mul_nonneg_nonneg; lia|].
    assert (2 ^ r ≤ 2 ^ 63) by (apply Z.pow_le_mono_r; lia). assert (GetStakeEntropyBit p * 2 ^ r ≤ 1 * 2 ^ r) by (apply Z.mul_le_mono_nonneg_r; lia). lia.
Qed.

(** The end of the selection interval of round [r + i]. *)
Fixpoint stop_time (start : Z) (r : Z) (i : nat) : Z :=
  match i with O => start + section_length r | S i => stop_time (start + section_length r) (r + 1) i end.

(** There is a block left as long as not all are chosen. *)
Lemma block_left (vs : list (Z * Z)) (chosen : gset Z) :
  NoDup (snd <$> vs) → (size chosen < length vs)%nat → ∃ x, x ∈ vs ∧ x.2 ∉ chosen.
Proof.
  intros Hnd Hlt. destruct (decide (Exists (λ x, x.2 ∉ chosen) vs)) as [Hex|Hno]; [by apply list.Exists_exists in Hex|].
  exfalso. assert (list_to_set (snd <$> vs) ⊆ chosen) as Hsub.
  { intros p (x & -> & Hx)%elem_of_list_to_set%list_elem_of_fmap. destruct (decide (x.2 ∈ chosen)) as [|Hn]; [done|].
    destruct Hno. apply list.Exists_exists. by exists x. }
  apply subseteq_size in Hsub. rewrite size_list_to_set in Hsub by done. rewrite length_fmap in Hsub. lia.
Qed.

Lemma rounds_spec n r vs stop prev chosen new key :
  (∀ p b, m !! p = Some b → selection_hash (modifier_v2 ModifierUpgradeBlock m vs) p b prev = key p) →
  timed vs → StronglySorted pair_le vs → NoDup (snd <$> vs) → (size chosen + n ≤ length vs)%nat → 0 ≤ r → r + Z.of_nat n ≤ 64 →
  ∃ ps md, rounds ModifierUpgradeBlock m n r vs stop prev chosen new = Ok (Some md) ∧ length ps = n ∧
    (∀ i p, ps !! i = Some p → selected key vs (chosen ∪ list_to_set (take i ps)) (stop_time stop r i) p) ∧
    ∀ i, 0 ≤ i → Z.testbit md i = Z.testbit new i || ((r <=? i) && match ps !! Z.to_nat (i - r) with Some p => Z.odd p | None => false end).
Proof.
  intros Hkey Ht Hs Hnd. revert r stop chosen new. induction n as [|n IH]; intros r stop chosen new Hsz Hr Hr64; cbn [rounds].
  { exists [], new. split_and!; [done|done|intros i p; by rewrite lookup_nil|]. intros i _. by rewrite lookup_nil, andb_false_r, orb_false_r. }
  rewrite section_ok by lia. cbn [mbind outcome_bind].
  destruct (block_left vs chosen Hnd) as (x & Hx & Hxn); [lia|].
  destruct (select_loop_none (modifier_v2 ModifierUpgradeBlock m vs) chosen (stop + section_length r) prev key Hkey vs Ht Hs) as (p & Ep & Hp); [by exists x|].
  unfold SelectBlockFromCandidates. rewrite Ep.
  assert (p ∉ chosen) as Hpn by (destruct Hp as (t & (_ & ? & _) & _); done).
  destruct (IH (r + 1) (stop + section_length r) ({[ p ]} ∪ chosen) (Z.lor new (u64 (Z.shiftl (GetStakeEntropyBit p) r)))) as (ps & md & -> & Hl & Hsel & Hbits);
    [rewrite size_union, size_singleton by set_solver; lia|lia|lia|].
  exists (p :: ps), md. split_and!; [done|cbn; lia| |].
  - intros [|i] q Hq; cbn in Hq.
    + injection Hq as <-. cbn [take stop_time list_to_set]. by rewrite (right_id_L ∅ (∪)).
    + cbn [take stop_time]. change (list_to_set (p :: take i ps)) with ({[ p ]} ∪ list_to_set (take i ps) : gset Z).
      replace (chosen ∪ ({[p]} ∪ list_to_set (take i ps))) with ({[p]} ∪ chosen ∪ list_to_set (take i ps)) by set_solver. by apply Hsel.
  - intros i Hi. rewrite Hbits, Z.lor_spec, shifted_bit by lia. rewrite <- orb_assoc. f_equal.
    destruct (Z.lt_trichotomy i r) as [Hlt|[->|Hgt]].
    + rewrite (proj2 (Z.eqb_neq _ _)), (proj2 (Z.leb_gt (r + 1) i)), (proj2 (Z.leb_gt r i)) by lia. done.
    + rewrite Z.eqb_refl, (proj2 (Z.leb_gt (r + 1) r)), Z.leb_refl, Z.sub_diag by lia. cbn. by rewrite orb_false_r.
    + rewrite (proj2 (Z.eqb_neq _ _)), (proj2 (Z.leb_le (r + 1) i)), (proj2 (Z.leb_le r i)) by lia. cbn [andb orb].
      replace (Z.to_nat (i - r)) with (S (Z.to_nat (i - (r + 1)))) by lia. done.
Qed.
End Selected.

(** ** Walking back *)

Section Walks.
Context (m : block_index) (Hwf : index_wf m).

(** [q] is the nearest block at or before [p] that generated a modifier. *)
Definition last_modifier (p q : Z) (c : CBlockIndex) : Prop :=
  ∃ k, walk_back m k p = Some q ∧ m !! q = Some c ∧ GeneratedStakeModifier c = true ∧
    ∀ j q' c', (j < k)%nat → walk_back m j p = Some q' → m !! q' = Some c' → GeneratedStakeModifier c' = false.
(** The first block after the genesis block gets a modifier. *)
Definition modifier_started : Prop := ∀ q c, m !! q = Some c → nHeight c = 1 → GeneratedStakeModifier c = true.

Lemma last_generated_spec fuel p b :
  modifier_started → m !! p = Some b → 1 ≤ nHeight b → (Z.to_nat (nHeight b) ≤ fuel)%nat →
  ∃ q c, last_generated fuel m p = Ok q ∧ last_modifier p q c.
Proof.
  intros Hst. revert p b. induction fuel as [|fuel IH]; intros p b Hp Hh Hf; [lia|]. cbn [last_generated].
  rewrite (deref_some _ p b Hp). cbn [mbind outcome_bind]. destruct (pprev b) as [q|] eqn:Eq.
  - destruct (GeneratedStakeModifier b) eqn:Eg; [exists p, b; split; [done|]; exists 0%nat; split_and!; [done..|lia]|].
    destruct (wf_pprev m Hwf p b q Hp Eq) as (d & Hq & Hd).
    assert (nHeight b ≠ 1) as Hne by (intros E1; rewrite (Hst p b Hp E1) in Eg; discriminate).
    destruct (IH q d Hq) as (r & c & -> & k & Hk & Hc & Hg & Hno); [lia|lia|]. exists r, c. split; [done|]. exists (S k).
    split_and!; [cbn; by rewrite Hp; cbn; rewrite Eq|done|done|].
    intros [|j] q' c' Hj; cbn [walk_back]; [intros [= <-] Hc'; congruence|]. rewrite Hp. cbn. rewrite Eq. cbn. intros. eapply Hno; [|done..]. lia.
  - pose proof (wf_root m Hwf p b Hp Eq). lia.
Qed.

(** The blocks back from [p] whose times are all in the selection interval. *)
Definition in_window (start p q : Z) : Prop :=
  ∃ k, walk_back m k p = Some q ∧ ∀ j, (j ≤ k)%nat → ∃ q' c, walk_back m j p = Some q' ∧ m !! q' = Some c ∧ start ≤ GetBlockTime c.

Lemma in_window_step start p b q r :
  m !! p = Some b → pprev b = Some q → start ≤ GetBlockTime b → in_window start p r ↔ r = p ∨ in_window start q r.
Proof.
  intros Hp Hq Ht. split.
  - intros ([|k] & Hk & Hall); [left; by injection Hk|right]. cbn [walk_back] in Hk. rewrite Hp in Hk. cbn in Hk. rewrite Hq in Hk. cbn in Hk.
    exists k. split; [done|]. intros j Hj. destruct (Hall (S j)) as (q' & c & Hw & Hr); [lia|]. cbn [walk_back] in Hw. rewrite Hp in Hw. cbn in Hw.
    rewrite Hq in Hw. by exists q', c.
  - intros [->|(k & Hk & Hall)].
    + exists 0%nat. split; [done|]. intros j Hj. exists p, b. by replace j with 0%nat by lia.
    + exists (S k). split; [cbn; by rewrite Hp; cbn; rewrite Hq|]. intros [|j] Hj; [by exists p, b|].
      destruct (Hall j) as (q' & c & Hw & Hr); [lia|]. exists q', c. split; [cbn; by rewrite Hp; cbn; rewrite Hq|done].
Qed.

Lemma candidates_spec fuel start p b :
  m !! p = Some b → (Z.to_nat (nHeight b) < fuel)%nat →
  ∃ l, candidates m fuel start (Some p) = Ok l ∧ timed m l ∧ (∀ q, q ∈ snd <$> l ↔ in_window start p q) ∧ NoDup (snd <$> l) ∧
    ∀ t q c, (t, q) ∈ l → m !! q = Some c → nHeight c ≤ nHeight b.
Proof.
  revert p b. induction fuel as [|fuel IH]; intros p b Hp Hf; [lia|]. cbn [candidates]. rewrite (deref_some _ p b Hp). cbn [mbind outcome_bind].
  destruct (Z.ltb_spec (GetBlockTime b) start) as [Hlt|Hle].
  { exists []. split_and!; [done|intros t q []%elem_of_nil| |constructor|intros t q c []%elem_of_nil].
    intros q. split; [intros []%elem_of_nil|]. intros (k & _ & Hall). destruct (Hall 0%nat) as (q' & c & [= <-] & Hc & Ht); [lia|].
    rewrite Hp in Hc. injection Hc as <-. lia. }
  pose proof (wf_height m Hwf p b Hp) as Hh0. destruct (pprev b) as [q|] eqn:Eq.
  - destruct (wf_pprev m Hwf p b q Hp Eq) as (d & Hq & Hd). pose proof (wf_height m Hwf q d Hq).
    destruct (IH q d Hq) as (l & -> & Ht & Hw & Hnd & Hhs); [lia|]. cbn [mbind outcome_bind]. exists ((GetBlockTime b, p) :: l).
    split_and!; [done| | | |].
    + intros t r [[= -> ->]|Hr]%elem_of_cons; [by exists b|by apply Ht].
    + intros r. rewrite fmap_cons, elem_of_cons, Hw. by rewrite (in_window_step start p b q r Hp Eq Hle).
    + rewrite fmap_cons. apply list.NoDup_cons. split; [|done]. intros ([t r] & Hr & Hin)%list_elem_of_fmap. cbn in Hr. subst r.
      pose proof (Hhs t p b Hin Hp). lia.
    + intros t r c [[= -> ->]|Hr]%elem_of_cons Hc; [rewrite Hp in Hc; injection Hc as <-; lia|]. pose proof (Hhs t r c Hr Hc). lia.
  - replace (candidates m fuel start None) with (Ok (E:=unit) ([] : list (Z * Z))) by (by destruct fuel). cbn [mbind outcome_bind].
    exists [(GetBlockTime b, p)]. split_and!; [done| | | |].
    + intros t r [= -> ->]%list_elem_of_singleton. by exists b.
    + intros r. cbn. rewrite list_elem_of_singleton. split.
      * intros ->. exists 0%nat. split; [done|]. intros j Hj. exists p, b. by replace j with 0%nat by lia.
      * intros ([|k] & Hk & _); [by injection Hk|]. cbn in Hk. rewrite Hp in Hk. cbn in Hk. rewrite Eq in Hk. discriminate.
    + apply list.NoDup_singleton.
    + intros t r c [= -> ->]%list_elem_of_singleton Hc. rewrite Hp in Hc. injection Hc as <-. lia.
Qed.
End Walks.

(** ** The modifier of a kernel *)

Section KernelModifier.
Context (m : block_index) (Hwf : index_wf m) (v : CChain) (tip : option Z) (Hv : chain_ok m v tip).

(** The entries of the active chain from height [h] on, lowest first. *)
Fixpoint chain_entries (n : nat) (h : Z) : list CBlockIndex :=
  match n with
  | O => []
  | S n => match chain_at v h ≫= (λ p, m !! p) with Some b => b :: chain_entries n (h + 1) | None => [] end
  end.
Definition entries_above (h : Z) : list CBlockIndex := chain_entries (length v) (h + 1).

Lemma chain_at_entry h p : chain_at v h = Some p → ∃ b, m !! p = Some b ∧ nHeight b = h ∧ 0 ≤ h < Z.of_nat (length v).
Proof.
  intros E. pose proof E as E'. rewrite (chain_at_spec m v tip h Hv) in E. destruct tip as [t|]; [|discriminate]. cbn in E.
  destruct Hv as (bt & Ht & _). destruct (ancestor_some m Hwf t bt h p Ht E) as (_ & b & Hb & Hh). exists b. split_and!; [done|done| |];
    unfold chain_at in E'; destruct (Z.ltb_spec h 0); cbn in E'; try discriminate; [done|]; destruct (Z.leb_spec (Z.of_nat (length v)) h); [discriminate|lia].
Qed.

Lemma kernel_loop_spec fuel until pindex b h time :
  m !! pindex = Some b → time < until → (Z.to_nat (Z.of_nat (length v) - (h + 1)) ≤ fuel)%nat →
  kernel_loop fuel m v until pindex (chain_at v (h + 1)) time =
    Ok (modifier_of <$> head (filter (λ c, GeneratedStakeModifier c = true ∧ until ≤ GetBlockTime c) (chain_entries fuel (h + 1)))).
Proof.
  revert pindex b h time. induction fuel as [|fuel IH]; intros pindex b h time Hp Ht Hf; cbn [kernel_loop chain_entries];
    rewrite (proj2 (Z.leb_gt _ _)) by lia.
  { destruct (chain_at v (h + 1)) as [p|] eqn:E; [|done]. apply chain_at_entry in E as (_ & _ & _ & ?). lia. }
  destruct (chain_at v (h + 1)) as [p|] eqn:E; [|done]. apply chain_at_entry in E as (c & Hc & Hh & Hr). cbn. rewrite Hc.
  rewrite (deref_some _ p c Hc). cbn [mbind outcome_bind]. rewrite Hh, filter_cons.
  destruct (GeneratedStakeModifier c) eqn:Eg.
  - destruct (Z.leb_spec until (GetBlockTime c)) as [Hle|Hgt].
    + rewrite decide_True by done. cbn [head fmap option_fmap option_map].
      destruct fuel; cbn [kernel_loop]; by rewrite (proj2 (Z.leb_le _ _)), (deref_some _ p c Hc) by done.
    + rewrite decide_False by lia. apply (IH p c (h + 1)); [done|lia|lia].
  - rewrite decide_False by (intros [? _]; done). apply (IH p c (h + 1)); [done|lia|lia].
Qed.

Lemma GetKernelStakeModifier_spec p b :
  m !! p = Some b → 0 ≤ nHeight b →
  GetKernelStakeModifier m v p =
    Ok (modifier_of <$> head (filter (λ c, GeneratedStakeModifier c = true ∧ GetBlockTime b + 2087 ≤ GetBlockTime c) (entries_above (nHeight b)))).
Proof.
  intros Hp Hh. unfold GetKernelStakeModifier. rewrite Hp, interval_ok. cbn [mbind outcome_bind].
  rewrite (kernel_loop_spec (length v) _ p b (nHeight b)) by (done || lia). done.
Qed.
End KernelModifier.

(** ** The target *)

Lemma uint_lt_spec W a b : limbs_ok W a → limbs_ok W b → uint_lt a b = (uval a <? uval b).
Proof.
  intros Ha Hb. unfold uint_lt. rewrite (uint_compare_spec W a b Ha Hb). unfold Z.ltb at 2. by destruct (uval a ?= uval b).
Qed.

Lemma limbs_of_spec h n k :
  0 ≤ h → limbs_ok n ((λ i, (h / 2 ^ (32 * Z.of_nat i)) mod 2 ^ 32) <$> seq k n) ∧
  uval ((λ i, (h / 2 ^ (32 * Z.of_nat i)) mod 2 ^ 32) <$> seq k n) = (h / 2 ^ (32 * Z.of_nat k)) mod 2 ^ (32 * Z.of_nat n).
Proof.
  intros Hh. revert k. induction n as [|n IH]; intros k; cbn [seq fmap list_fmap uval].
  { split; [by split|]. by rewrite Z.mod_1_r. }
  destruct (IH (S k)) as [[Hl Hf] Hv]. split.
  - split; [cbn; f_equal; exact Hl|]. constructor; [|exact Hf]. apply Z.mod_pos_bound. lia.
  - rewrite Hv. change LIMB with (2 ^ 32). set (x := h / 2 ^ (32 * Z.of_nat k)).
    assert (h / 2 ^ (32 * Z.of_nat (S k)) = x / 2 ^ 32) as ->.
    { unfold x. rewrite Z.div_div by lia. f_equal. rewrite <- Z.pow_add_r by lia. f_equal. lia. }
    replace (32 * Z.of_nat (S n)) with (32 + 32 * Z.of_nat n) by lia. rewrite Z.pow_add_r by lia.
    rewrite Z.rem_mul_r by lia. lia.
Qed.
Lemma uint256_limbs_spec h : 0 ≤ h < 2 ^ 256 → limbs_ok 8 (uint256_limbs h) ∧ uval (uint256_limbs h) = h.
Proof.
  intros Hh. destruct (limbs_of_spec h 8 0) as [Hl Hv]; [lia|]. split; [exact Hl|]. unfold uint256_limbs, UINT256_WIDTH. rewrite Hv.
  rewrite Z.mul_0_r, Z.pow_0_r, Z.div_1_r. apply Z.mod_small. exact Hh.
Qed.

Lemma stakeHash_range t ss n h tf : 0 ≤ stakeHash t ss n h tf < 2 ^ 256.
Proof. apply uint256_of_bytes_range; [apply bytes_ok_Hash256|apply length_Hash256]. Qed.

(** A hundredth of the value times the target, in 256 bits. *)
Definition stake_bound (value : Z) (nBits : Z) : Z := (value / 100 * compact_value nBits) mod 2 ^ 256.

Lemma stakeTargetHit_spec hash value nBits :
  0 ≤ hash < 2 ^ 256 → 0 ≤ value < 2 ^ 63 → is_u 32 nBits →
  stakeTargetHit hash value (SetCompact nBits).1.1 = Ok (hash <? stake_bound value nBits).
Proof.
  intros Hh Hv Hn. unfold stakeTargetHit. rewrite u64_id by (unfold is_u; lia).
  destruct (uval_uint_of_u64 8 value) as [Hl1 Hv1]; [lia|unfold is_u; lia|].
  destruct (uval_uint_of_u64 8 100) as [Hl2 Hv2]; [lia|unfold is_u; lia|].
  destruct (uint_div_spec 8 _ _ Hl1 Hl2) as (q & Eq & Hlq & Hq); [rewrite Hv2; lia|]. change (uint256_of_u64 ?x) with (uint_of_u64 8 x).
  change UINT256_WIDTH with 8%nat. rewrite Eq. cbn [mbind outcome_bind].
  pose proof (SetCompact_spec nBits Hn) as Hc. destruct (SetCompact nBits) as [[target neg] ovf]. cbn [fst]. destruct Hc as (Hlt & Hvt & _).
  destruct (uint_mul_spec 8 q target Hlq Hlt) as [Hlm Hvm]. destruct (uint256_limbs_spec hash Hh) as [Hlh Hvh].
  rewrite (uint_lt_spec 8 _ _ Hlh Hlm), Hvh, Hvm, Hvt, Hq, Hv1, Hv2. unfold stake_bound. do 2 f_equal.
  change (32 * Z.of_nat 8) with 256. by rewrite Zmult_mod_idemp_r.
Qed.

(** ** Properties *)

(** What a new modifier is made of. *)
Definition modifier_from (ModifierUpgradeBlock : Z) (m : block_index) (p start prev md : Z) : Prop :=
  ∃ vs ps v2, timed m vs ∧ StronglySorted pair_le vs ∧ (∀ q, q ∈ snd <$> vs ↔ in_window m start p q) ∧ NoDup (snd <$> vs) ∧
    v2 = modifier_v2 ModifierUpgradeBlock m vs ∧ length ps = Nat.min 64 (length vs) ∧
    (∀ i q, ps !! i = Some q → selected (select_key m v2 prev) vs (list_to_set (take i ps)) (stop_time start 0 i) q) ∧
    ∀ i, 0 ≤ i → Z.testbit md i = match ps !! Z.to_nat i with Some q => Z.odd q | None => false end.

Lemma next_modifier (ModifierUpgradeBlock a : Z) (m : block_index) (p : Z) (b : CBlockIndex) :
  index_wf m → modifier_started m → m !! p = Some b → 1 ≤ nHeight b →
  ∃ q c, last_modifier m p q c ∧
    if GetBlockTime b / 60 <=? GetBlockTime c / 60
    then ComputeNextStakeModifier ModifierUpgradeBlock m a (Some p) = Ok (true, modifier_of c, false)
    else ∃ md, ComputeNextStakeModifier ModifierUpgradeBlock m a (Some p) = Ok (true, md, true) ∧
           modifier_from ModifierUpgradeBlock m p (GetBlockTime b / 60 * 60 - 2087) (modifier_of c) md.
Proof.
  intros Hwf Hst Hp Hh. destruct (last_generated_spec m Hwf (Z.to_nat (nHeight b)) p b Hst Hp Hh ltac:(lia)) as (q & c & El & Hl).
  exists q, c. split; [done|]. unfold ComputeNextStakeModifier, GetLastStakeModifier.
  rewrite (deref_some _ p b Hp). cbn [mbind outcome_bind]. rewrite (proj2 (Z.eqb_neq _ _)) by lia. rewrite El. cbn [mbind outcome_bind].
  destruct Hl as (k & _ & Hq & Hg & _). rewrite (deref_some _ q c Hq). cbn [mbind outcome_bind]. rewrite Hg.
  change interval with 60. cbn [mbind outcome_bind]. destruct (_ <=? _); [done|]. rewrite interval_ok. cbn [mbind outcome_bind].
  set (start := GetBlockTime b / 60 * 60 - 2087).
  destruct (candidates_spec m Hwf (S (Z.to_nat (nHeight b))) start p b Hp ltac:(lia)) as (l & -> & Ht & Hw & Hnd & _). cbn [mbind outcome_bind].
  set (vs := merge_sort pair_le (rev l)).
  assert (vs ≡ₚ l) as Hperm by (unfold vs; rewrite merge_sort_Permutation; symmetry; apply Permutation_rev).
  assert (StronglySorted pair_le vs) as Hsort by (apply StronglySorted_merge_sort; apply _).
  assert (timed m vs) as Htv by (intros t r Hr; apply Ht; by rewrite <- Hperm).
  assert (NoDup (snd <$> vs)) as Hndv by (by rewrite Hperm).
  destruct (rounds_spec ModifierUpgradeBlock m (Nat.min 64 (length vs)) 0 vs start (modifier_of c) ∅ 0 (select_key m (modifier_v2 ModifierUpgradeBlock m vs) (modifier_of c)))
    as (ps & md & -> & Hlen & Hsel & Hbits); [|done|done|done|rewrite size_empty; lia|lia|lia|].
  { intros r d Hr. unfold select_key. by rewrite Hr. }
  cbn [mbind outcome_bind]. exists md. split; [done|]. exists vs, ps, (modifier_v2 ModifierUpgradeBlock m vs). split_and!; try done.
  - intros r. rewrite <- Hw. by rewrite Hperm.
  - intros i r Hi. specialize (Hsel i r Hi). by rewrite (left_id_L ∅ (∪)) in Hsel.
  - intros i Hi. rewrite Hbits, Z.testbit_0_l, Z.sub_0_r, (proj2 (Z.leb_le _ _)) by done. done.
Qed.

Section Search.
Context (m : block_index) (v : CChain) (nBits : Z) (blockFrom : CBlock) (hashFrom : Z) (txPrev : CTransaction) (prevout : COutPoint) (o : CTxOut).
Context (Ho : vout txPrev !! Z.to_nat (prevout_n prevout) = Some o) (Hval : 0 ≤ nValue o < 2 ^ 63) (Hbits : is_u 32 nBits).

Notation tfrom := (h_nTime (header blockFrom)).
Notation check t hash := (CheckStakeKernelHash m v nBits blockFrom hashFrom txPrev prevout t 0 true hash).
Notation kernel_hash md t := (stakeHash t (WRITEDATA 8 md) (prevout_n prevout) (prevout_hash prevout) tfrom).

(** The coin is old enough at [t]. *)
Definition old_enough (t : Z) : Prop := tfrom ≤ t ∧ u32 (tfrom + nStakeMinAge) ≤ t.

Lemma check_eq t hash md :
  old_enough t → GetKernelStakeModifier m v hashFrom = Ok (Some md) →
  check t hash = Ok (kernel_hash md t <? stake_bound (nValue o) nBits, t, kernel_hash md t).
Proof.
  intros [H1 H2] Hmd. unfold CheckStakeKernelHash. rewrite Ho, !(proj2 (Z.ltb_ge _ _)) by done.
  pose proof (stakeTargetHit_spec (kernel_hash md t) (nValue o) nBits (stakeHash_range _ _ _ _ _) Hval Hbits) as Hs.
  destruct (SetCompact nBits) as [[target neg] ovf]. cbn [fst] in Hs. rewrite Hmd. cbn [mbind outcome_bind]. rewrite Hs. done.
Qed.

Lemma search_kernel_spec n i t drift md target hash :
  target = (SetCompact nBits).1.1 → 0 ≤ i → i + Z.of_nat n = drift → 0 ≤ t → t + drift < 2 ^ 32 →
  ∃ r h, search_kernel n i t drift (WRITEDATA 8 md) prevout tfrom (nValue o) target hash = Ok (r, h) ∧
    match r with
    | Some t' => t < t' ≤ t + drift - i ∧ h = kernel_hash md t' ∧ h < stake_bound (nValue o) nBits ∧
        ∀ t2, t' < t2 ≤ t + drift - i → stake_bound (nValue o) nBits ≤ kernel_hash md t2
    | None => ∀ t2, t < t2 ≤ t + drift - i → stake_bound (nValue o) nBits ≤ kernel_hash md t2
    end.
Proof.
  intros -> Hi Hd Ht Ht32. revert i hash Hi Hd. induction n as [|n IH]; intros i hash Hi Hd; cbn [search_kernel].
  { exists None, hash. split; [done|]. intros t2 Hr. lia. }
  rewrite u32_id by (unfold is_u; lia).
  rewrite stakeTargetHit_spec by (done || apply stakeHash_range). cbn [mbind outcome_bind].
  destruct (Z.ltb_spec (kernel_hash md (t + drift - i)) (stake_bound (nValue o) nBits)) as [Hlt|Hge].
  - eexists _, _. split; [reflexivity|]. cbn. split_and!; [lia|lia|done|done|]. intros t2 Hr. lia.
  - destruct (IH (i + 1) (kernel_hash md (t + drift - i))) as (r & h & -> & Hr); [lia|lia|]. exists r, h. split; [done|].
    destruct r as [t'|].
    + destruct Hr as (Hr1 & Hr2 & Hr3 & Hr4). split_and!; [lia|lia|done|done|]. intros t2 Ht2. destruct (decide (t2 = t + drift - i)) as [->|]; [done|apply Hr4; lia].
    + intros t2 Ht2. destruct (decide (t2 = t + drift - i)) as [->|]; [done|apply Hr; lia].
Qed.

Context (Hwf : index_wf m) (tip : option Z) (Hv : chain_ok m v tip) (b : CBlockIndex) (Hb : m !! hashFrom = Some b).

(** The modifier of the kernel, if there is one yet. *)
Definition kernel_modifier : option Z :=
  modifier_of <$> head (filter (λ c, GeneratedStakeModifier c = true ∧ GetBlockTime b + 2087 ≤ GetBlockTime c) (entries_above m v (nHeight b))).

Lemma modifier_found : GetKernelStakeModifier m v hashFrom = Ok kernel_modifier.
Proof. apply (GetKernelStakeModifier_spec m Hwf v tip Hv hashFrom b Hb). by apply (wf_height m Hwf hashFrom). Qed.

Lemma check_false t hash :
  ¬ (old_enough t ∧ is_Some kernel_modifier) → check t hash = Ok (false, t, hash).
Proof.
  intros Hno. unfold CheckStakeKernelHash. rewrite Ho. destruct (Z.ltb_spec t tfrom); [done|]. destruct (Z.ltb_spec t (u32 (tfrom + nStakeMinAge))); [done|].
  destruct (SetCompact nBits) as [[target neg] ovf]. rewrite modifier_found. cbn [mbind outcome_bind].
  destruct kernel_modifier as [md|]; [|done]. destruct Hno. split; [by split|by eexists].
Qed.

Lemma kernel_exact (t hash : Z) :
  ∃ ok h, check t hash = Ok (ok, t, h) ∧
    (ok = true ↔ old_enough t ∧ ∃ md, kernel_modifier = Some md ∧ kernel_hash md t < stake_bound (nValue o) nBits).
Proof.
  destruct (decide (old_enough t ∧ is_Some kernel_modifier)) as [[Ha [md Hmd]]|Hno].
  - rewrite (check_eq t hash md Ha) by (by rewrite modifier_found, Hmd). eexists _, _. split; [reflexivity|]. rewrite Hmd.
    rewrite Z.ltb_lt. split; [by eauto|]. by intros (_ & md' & [= <-] & ?).
  - rewrite check_false by done. eexists _, _. split; [reflexivity|]. split; [done|]. intros (Ha & md & Hmd & _).
    destruct Hno. split; [done|by eexists].
Qed.

Lemma search_checked (nTimeTx nHashDrift hash : Z) :
  0 ≤ nTimeTx → 0 ≤ nHashDrift → nTimeTx + nHashDrift < 2 ^ 32 →
  ∃ found t h, CheckStakeKernelHash m v nBits blockFrom hashFrom txPrev prevout nTimeTx nHashDrift false hash = Ok (found, t, h) ∧
    if found : bool
    then old_enough nTimeTx ∧ nTimeTx < t ≤ nTimeTx + nHashDrift ∧ check t hash = Ok (true, t, h) ∧
         ∀ t2, t < t2 ≤ nTimeTx + nHashDrift → ∃ h2, check t2 hash = Ok (false, t2, h2)
    else t = nTimeTx ∧ (¬ old_enough nTimeTx ∨ ∀ t2, nTimeTx < t2 ≤ nTimeTx + nHashDrift → ∃ h2, check t2 hash = Ok (false, t2, h2)).
Proof.
  intros Ht Hd H32.
  assert (∀ t2, old_enough nTimeTx → nTimeTx < t2 → old_enough t2) as Hlater by (unfold old_enough; lia).
  unfold CheckStakeKernelHash at 1. rewrite Ho.
  destruct (Z.ltb_spec nTimeTx tfrom); [eexists _, _, _; split; [reflexivity|]; split; [done|]; left; unfold old_enough; lia|].
  destruct (Z.ltb_spec nTimeTx (u32 (tfrom + nStakeMinAge))); [eexists _, _, _; split; [reflexivity|]; split; [done|]; left; unfold old_enough; lia|].
  destruct (SetCompact nBits) as [[target neg] ovf] eqn:Es. rewrite modifier_found. cbn [mbind outcome_bind].
  destruct kernel_modifier as [md|] eqn:Ek.
  2: { eexists _, _, _. split; [reflexivity|]. split; [done|]. right. intros t2 _. exists hash. apply check_false. rewrite Ek. by intros [_ [? ?]]. }
  assert (old_enough nTimeTx) as Hold by (by split).
  assert (GetKernelStakeModifier m v hashFrom = Ok (Some md)) as Hmd by (by rewrite modifier_found, Ek).
  assert (∀ t2, nTimeTx < t2 → stake_bound (nValue o) nBits ≤ kernel_hash md t2 → ∃ h2, check t2 hash = Ok (false, t2, h2)) as Hmiss.
  { intros t2 H2 Hge. rewrite (check_eq t2 hash md) by auto. rewrite (proj2 (Z.ltb_ge _ _)) by done. by eexists. }
  destruct (search_kernel_spec (Z.to_nat nHashDrift) 0 nTimeTx nHashDrift md target hash) as (r & h & -> & Hr); [by rewrite Es|lia|lia|lia|lia|].
  cbn [no_err mbind outcome_bind]. rewrite Z.sub_0_r in Hr. destruct r as [t|].
  - destruct Hr as (Hr1 & -> & Hlt & Hr2). eexists _, _, _. split; [reflexivity|]. split_and!; [done|lia|lia| |].
    + rewrite (check_eq t hash md) by (apply Hlater || done; (done || lia)). by rewrite (proj2 (Z.ltb_lt _ _)).
    + intros t2 H2. apply Hmiss; [lia|by apply Hr2].
  - eexists _, _, _. split; [reflexivity|]. split; [done|]. right. intros t2 H2. apply Hmiss; [lia|by apply Hr].
Qed.
End Search.

(** A chain of five blocks: the coin of the kernel is in block 11, block 14 generates
    a modifier more than a selection interval later. *)
Module KernelDemo.
Definition entry (prev skip : option Z) (h time flags modifier : Z) : CBlockIndex :=
  with_stake flags (set_modifier modifier stake_null) (index_entry prev skip h [] [] 0 0 flags 0 3 time 0).
Definition index : block_index :=
  list_to_map [(10, entry None None 0 900 0 0); (11, entry (Some 10) (Some 10) 1 1000 BLOCK_STAKE_MODIFIER 77);
    (12, entry (Some 11) (Some 10) 2 1070 BLOCK_PROOF_OF_STAKE 77); (13, entry (Some 12) (Some 11) 3 1130 BLOCK_STAKE_MODIFIER 5);
    (14, entry (Some 13) (Some 10) 4 4000 BLOCK_STAKE_MODIFIER 6)].
Definition chain : CChain := [Some 10; Some 11; Some 12; Some 13; Some 14].
Lemma index_ok : index_wf index.
Proof. apply index_check_wf. by vm_compute. Qed.
Lemma started : modifier_started index.
Proof.
  assert (map_Forall (λ _ c, nHeight c = 1 → GeneratedStakeModifier c = true) index) as H by (by_decision).
  intros q c Hq. by apply (H q c).
Qed.
Lemma chain_whole : chain_ok index chain (Some 14).
Proof.
  exists (entry (Some 13) (Some 10) 4 4000 BLOCK_STAKE_MODIFIER 6). split_and!; [done..|]. cbn [nHeight entry with_stake index_entry].
  intros k Hk. assert (k = 0 ∨ k = 1 ∨ k = 2 ∨ k = 3 ∨ k = 4) as [Hk0|[Hk0|[Hk0|[Hk0|Hk0]]]] by lia; subst k; by vm_compute.
Qed.
Definition coin_tx : CTransaction := Tx 3 1 [] [TxOut 150 [] 0] 0.
Definition coin_block : CBlock := Block (BlockHeader 3 0 0 1000 0 0) [coin_tx] [].
Definition coin : COutPoint := OutPoint 3 0.
End KernelDemo.

(** The target of a kernel is multiplied by its weight modulo [2 ** 256]: at the
    easiest bits of the main network an output of 1.048578 coins has a smaller bound
    than one of a millionth of a coin. *)
Lemma stake_bound_wraps : stake_bound 104857800 504365055 < stake_bound 100 504365055.
Proof. by vm_compute. Qed.

(** The modifier of the first block is the address of a string literal: it is
    whatever the loader chose, not a constant of the protocol. *)
Lemma first_modifier_is_address up (m : block_index) (p a : Z) (b : CBlockIndex) :
  m !! p = Some b → nHeight b = 0 → is_u 64 a → ComputeNextStakeModifier up m a (Some p) = Ok (true, a, true).
Proof.
  intros Hp Hh Ha. unfold ComputeNextStakeModifier. rewrite (deref_some m p b Hp). cbn [mbind outcome_bind].
  by rewrite Hh, u64_id.
Qed.

(** ** Properties *)

(** C29: the stake modifier of a block whose predecessor is [p]: the computation
    always succeeds.  While the predecessor is in the same interval as the last
    modifier, that modifier is kept.  Otherwise a new one is generated: over the
    blocks back from [p] in the selection interval, ordered by time, up to 64 rounds
    each select the block with the smallest selection hash among those not yet
    selected and not later than the round's stop (the earliest when all are later),
    and the round's bit of the modifier is the lowest bit of that block's hash. *)
Theorem ComputeNextStakeModifier_exact (ModifierUpgradeBlock a : Z) (m : block_index) (p : Z) (b : CBlockIndex) :
  index_wf m → modifier_started m → m !! p = Some b → 1 ≤ nHeight b →
  ∃ q c, last_modifier m p q c ∧
    if GetBlockTime b / 60 <=? GetBlockTime c / 60
    then ComputeNextStakeModifier ModifierUpgradeBlock m a (Some p) = Ok (true, modifier_of c, false)
    else ∃ md, ComputeNextStakeModifier ModifierUpgradeBlock m a (Some p) = Ok (true, md, true) ∧
           modifier_from ModifierUpgradeBlock m p (GetBlockTime b / 60 * 60 - 2087) (modifier_of c) md.
Proof. apply next_modifier. Qed.

Lemma ComputeNextStakeModifier_exact_witness :
  ∃ q c, last_modifier KernelDemo.index 12 q c ∧
    if 1070 / 60 <=? GetBlockTime c / 60
    then ComputeNextStakeModifier 1 KernelDemo.index 9 (Some 12) = Ok (true, modifier_of c, false)
    else ∃ md, ComputeNextStakeModifier 1 KernelDemo.index 9 (Some 12) = Ok (true, md, true) ∧
           modifier_from 1 KernelDemo.index 12 (1070 / 60 * 60 - 2087) (modifier_of c) md.
Proof.
  apply (ComputeNextStakeModifier_exact 1 9 KernelDemo.index 12 (KernelDemo.entry (Some 11) (Some 10) 2 1070 BLOCK_PROOF_OF_STAKE 77));
    [apply KernelDemo.index_ok|apply KernelDemo.started|by vm_compute|cbn; lia].
Defined.

(** The check of a stake kernel always returns, and accepts the time [t] exactly
    when the coin is old enough, the active chain has a block above the coin's that
    generated a modifier at least one selection interval later, and the hash of the
    first such modifier, the coin and [t] is below a hundredth of the coin's value
    times the target, modulo [2 ** 256]. *)
Theorem CheckStakeKernelHash_exact (m : block_index) (v : CChain) (nBits : Z) (blockFrom : CBlock) (hashFrom : Z) (txPrev : CTransaction) (prevout : COutPoint)
    (o : CTxOut) (tip : option Z) (b : CBlockIndex) (t hash : Z) :
  vout txPrev !! Z.to_nat (prevout_n prevout) = Some o → 0 ≤ nValue o < 2 ^ 63 → is_u 32 nBits →
  index_wf m → chain_ok m v tip → m !! hashFrom = Some b →
  ∃ ok h, CheckStakeKernelHash m v nBits blockFrom hashFrom txPrev prevout t 0 true hash = Ok (ok, t, h) ∧
    (ok = true ↔ old_enough blockFrom t ∧ ∃ md, kernel_modifier m v b = Some md ∧ stakeHash t (WRITEDATA 8 md) (prevout_n prevout) (prevout_hash prevout) (h_nTime (header blockFrom)) < stake_bound (nValue o) nBits).
Proof. intros Ho Hval Hbits Hwf Hv Hb. by apply (kernel_exact m v nBits blockFrom hashFrom txPrev prevout o Ho Hval Hbits Hwf tip Hv b Hb). Qed.

Lemma CheckStakeKernelHash_exact_witness :
  ∃ ok h, CheckStakeKernelHash KernelDemo.index KernelDemo.chain 545259519 KernelDemo.coin_block 11 KernelDemo.coin_tx KernelDemo.coin 8300 0 true 0 = Ok (ok, 8300, h) ∧
    (ok = true ↔ old_enough KernelDemo.coin_block 8300 ∧
       ∃ md, kernel_modifier KernelDemo.index KernelDemo.chain (KernelDemo.entry (Some 10) (Some 10) 1 1000 BLOCK_STAKE_MODIFIER 77) = Some md ∧
         stakeHash 8300 (WRITEDATA 8 md) 0 3 1000 < stake_bound 150 545259519).
Proof.
  apply (CheckStakeKernelHash_exact KernelDemo.index KernelDemo.chain 545259519 KernelDemo.coin_block 11 KernelDemo.coin_tx KernelDemo.coin
    (TxOut 150 [] 0) (Some 14) (KernelDemo.entry (Some 10) (Some 10) 1 1000 BLOCK_STAKE_MODIFIER 77) 8300 0);
    [done|cbn; lia|unfold is_u; lia|apply KernelDemo.index_ok|apply KernelDemo.chain_whole|by vm_compute].
Defined.

(** C30: the search that stakes a coin and the check that validates it agree.  The search
    always returns.  It succeeds exactly when the coin is already old enough at [nTimeTx],
    the start of the window, and the check accepts some time of the window; the time it
    returns then is the latest of the window that passes the check, with the same hash.
    A coin that only becomes old enough inside the window is not searched, although the
    check may accept it there ([young_coin_not_searched]). *)
Theorem kernel_search_checked (m : block_index) (v : CChain) (nBits : Z) (blockFrom : CBlock) (hashFrom : Z) (txPrev : CTransaction) (prevout : COutPoint)
    (o : CTxOut) (tip : option Z) (b : CBlockIndex) (nTimeTx nHashDrift hash : Z) :
  vout txPrev !! Z.to_nat (prevout_n prevout) = Some o → 0 ≤ nValue o < 2 ^ 63 → is_u 32 nBits →
  index_wf m → chain_ok m v tip → m !! hashFrom = Some b →
  0 ≤ nTimeTx → 0 ≤ nHashDrift → nTimeTx + nHashDrift < 2 ^ 32 →
  ∃ found t h, CheckStakeKernelHash m v nBits blockFrom hashFrom txPrev prevout nTimeTx nHashDrift false hash = Ok (found, t, h) ∧
    (found = true ↔ old_enough blockFrom nTimeTx ∧ ∃ t2 h2, nTimeTx < t2 ≤ nTimeTx + nHashDrift ∧
       CheckStakeKernelHash m v nBits blockFrom hashFrom txPrev prevout t2 0 true hash = Ok (true, t2, h2)) ∧
    if found : bool
    then nTimeTx < t ≤ nTimeTx + nHashDrift ∧ CheckStakeKernelHash m v nBits blockFrom hashFrom txPrev prevout t 0 true hash = Ok (true, t, h) ∧
         ∀ t2, t < t2 ≤ nTimeTx + nHashDrift → ∃ h2, CheckStakeKernelHash m v nBits blockFrom hashFrom txPrev prevout t2 0 true hash = Ok (false, t2, h2)
    else t = nTimeTx.
Proof.
  intros Ho Hval Hbits Hwf Hv Hb Ht Hd H32.
  destruct (search_checked m v nBits blockFrom hashFrom txPrev prevout o Ho Hval Hbits Hwf tip Hv b Hb nTimeTx nHashDrift hash Ht Hd H32)
    as (found & t & h & E & Hr). exists found, t, h. split; [done|]. destruct found.
  - destruct Hr as (Hold & Hwin & Hc & Hlater). split; [|exact (conj Hwin (conj Hc Hlater))]. split; [|done]. intros _. split; [done|]. by exists t, h.
  - destruct Hr as [-> Hno]. split; [|done]. split; [done|]. intros (Hold & t2 & h2 & Hwin & Hc).
    destruct Hno as [Hy|Hno]; [done|]. destruct (Hno t2 Hwin) as [h3 Hc']. rewrite Hc in Hc'. discriminate Hc'.
Qed.

Lemma kernel_search_checked_witness :
  ∃ found t h, CheckStakeKernelHash KernelDemo.index KernelDemo.chain 545259519 KernelDemo.coin_block 11 KernelDemo.coin_tx KernelDemo.coin 8300 5 false 0 = Ok (found, t, h) ∧
    (found = true ↔ old_enough KernelDemo.coin_block 8300 ∧ ∃ t2 h2, 8300 < t2 ≤ 8300 + 5 ∧
       CheckStakeKernelHash KernelDemo.index KernelDemo.chain 545259519 KernelDemo.coin_block 11 KernelDemo.coin_tx KernelDemo.coin t2 0 true 0 = Ok (true, t2, h2)) ∧
    if found : bool
    then 8300 < t ≤ 8300 + 5 ∧
         CheckStakeKernelHash KernelDemo.index KernelDemo.chain 545259519 KernelDemo.coin_block 11 KernelDemo.coin_tx KernelDemo.coin t 0 true 0 = Ok (true, t, h) ∧
         ∀ t2, t < t2 ≤ 8300 + 5 → ∃ h2,
           CheckStakeKernelHash KernelDemo.index KernelDemo.chain 545259519 KernelDemo.coin_block 11 KernelDemo.coin_tx KernelDemo.coin t2 0 true 0 = Ok (false, t2, h2)
    else t = 8300.
Proof.
  apply (kernel_search_checked KernelDemo.index KernelDemo.chain 545259519 KernelDemo.coin_block 11 KernelDemo.coin_tx KernelDemo.coin
    (TxOut 150 [] 0) (Some 14) (KernelDemo.entry (Some 10) (Some 10) 1 1000 BLOCK_STAKE_MODIFIER 77) 8300 5 0);
    [done|cbn; lia|unfold is_u; lia|apply KernelDemo.index_ok|apply KernelDemo.chain_whole|by vm_compute|lia|lia|lia].
Defined.

(** The coin becomes old enough at 8200: the search over 8200 to 8204 fails because it
    starts at 8199, although the check accepts 8204. *)
Example young_coin_not_searched :
  (∃ h, CheckStakeKernelHash KernelDemo.index KernelDemo.chain 545259519 KernelDemo.coin_block 11 KernelDemo.coin_tx KernelDemo.coin 8199 5 false 0 = Ok (false, 8199, h)) ∧
  ∃ h, CheckStakeKernelHash KernelDemo.index KernelDemo.chain 545259519 KernelDemo.coin_block 11 KernelDemo.coin_tx KernelDemo.coin 8204 0 true 0 = Ok (true, 8204, h).
Proof. split; eexists; vm_compute; reflexivity. Qed.
