(* ===== verification/BlockFiles.v ===== *)
(** * The block and undo files (main.cpp: FindBlockPos, WriteBlockToDisk and the rest;
      chain.h: CDiskBlockPos; main.h: CBlockFileInfo, CBlockUndo)

    Where a block and its undo data go in the numbered files, what is written there
    and what is read back.  A file is its list of bytes; opening a file and the free
    disk space are up to the environment.  The theorems: space handed out once is
    never handed out again, so every block that was stored is read back, whatever was
    stored after it. *)
From stdpp Require Import base tactics list gmap numbers option.
From Stdlib Require Import ZArith Lia.
From S2P Require Import Prelude.
From S2P Require Import Serialize.
From S2P Require Import BaseUint.
From S2P Require Import Crypto.
From S2P Require Import ScriptCode.
From S2P Require Import Interpreter.
From S2P Require Import Transaction.
From S2P Require Import SigHash.
From S2P Require Import Chain.
From S2P Require Import Pow.
From S2P Require Import Block.
From S2P Require Import Compressor.
From S2P Require Import Coins.

(** ** Positions and statistics *)

Record CDiskBlockPos := DiskBlockPos { p_file : Z; p_pos : Z }.
Definition DiskBlockPos_null : CDiskBlockPos := DiskBlockPos (-1) 0.
Definition pos_IsNull (p : CDiskBlockPos) : bool := p_file p =? -1.
Definition GetBlockPos (b : CBlockIndex) : CDiskBlockPos :=
  if flag (nStatus b) BLOCK_HAVE_DATA then DiskBlockPos (nFile (bi_disk b)) (nDataPos (bi_disk b)) else DiskBlockPos_null.
Definition GetUndoPos (b : CBlockIndex) : CDiskBlockPos :=
  if flag (nStatus b) BLOCK_HAVE_UNDO then DiskBlockPos (nFile (bi_disk b)) (nUndoPos (bi_disk b)) else DiskBlockPos_null.

Record CBlockFileInfo := BlockFileInfo {
  f_nBlocks : Z;
  f_nSize : Z;
  f_nUndoSize : Z;
  f_nHeightFirst : Z;
  f_nHeightLast : Z;
  f_nTimeFirst : Z;
  f_nTimeLast : Z
}.
Definition BlockFileInfo_null : CBlockFileInfo := BlockFileInfo 0 0 0 0 0 0 0.

Definition AddBlock (nHeightIn nTimeIn : Z) (f : CBlockFileInfo) : CBlockFileInfo :=
  BlockFileInfo (u32 (f_nBlocks f + 1)) (f_nSize f) (f_nUndoSize f)
    (if (f_nBlocks f =? 0) || (nHeightIn <? f_nHeightFirst f) then nHeightIn else f_nHeightFirst f)
    (if f_nHeightLast f <? nHeightIn then nHeightIn else f_nHeightLast f)
    (if (f_nBlocks f =? 0) || (nTimeIn <? f_nTimeFirst f) then nTimeIn else f_nTimeFirst f)
    (if f_nTimeLast f <? nTimeIn then nTimeIn else f_nTimeLast f).
Definition set_nSize (n : Z) (f : CBlockFileInfo) : CBlockFileInfo :=
  BlockFileInfo (f_nBlocks f) n (f_nUndoSize f) (f_nHeightFirst f) (f_nHeightLast f) (f_nTimeFirst f) (f_nTimeLast f).
Definition set_nUndoSize (n : Z) (f : CBlockFileInfo) : CBlockFileInfo :=
  BlockFileInfo (f_nBlocks f) (f_nSize f) n (f_nHeightFirst f) (f_nHeightLast f) (f_nTimeFirst f) (f_nTimeLast f).

Definition ser_file_info (f : CBlockFileInfo) : outcome stream_error (list Z) :=
  a ← ser_varint 32 (f_nBlocks f); b ← ser_varint 32 (f_nSize f); c ← ser_varint 32 (f_nUndoSize f);
  d ← ser_varint 32 (f_nHeightFirst f); e ← ser_varint 32 (f_nHeightLast f);
  g ← ser_varint 64 (f_nTimeFirst f); h ← ser_varint 64 (f_nTimeLast f);
  Ok (a ++ b ++ c ++ d ++ e ++ g ++ h).
Definition unser_file_info : reader CBlockFileInfo := λ s,
  '(a, s) ← unser_varint 32 s; '(b, s) ← unser_varint 32 s; '(c, s) ← unser_varint 32 s;
  '(d, s) ← unser_varint 32 s; '(e, s) ← unser_varint 32 s;
  '(g, s) ← unser_varint 64 s; '(h, s) ← unser_varint 64 s;
  Ok (BlockFileInfo a b c d e g h, s).

(** ** State *)

Definition MAX_BLOCKFILE_SIZE : Z := 0x8000000.
Definition BLOCKFILE_CHUNK_SIZE : Z := 0x1000000.
Definition UNDOFILE_CHUNK_SIZE : Z := 0x100000.

(** [vinfoBlockFile], [nLastBlockFile], [setDirtyFileInfo], and the files
    [blk?????.dat] and [rev?????.dat]. *)
Record block_files := BlockFiles {
  vinfoBlockFile : list CBlockFileInfo;
  nLastBlockFile : Z;
  setDirtyFileInfo : gset Z;
  blk_files : gmap Z (list Z);
  rev_files : gmap Z (list Z)
}.

(** Bytes written at an offset; a gap before it reads as zeros. *)
Definition write_at (o : Z) (bs : list Z) (file : list Z) : list Z :=
  take (Z.to_nat o) (file ++ replicate (Z.to_nat o - length file) 0) ++ bs ++ drop (Z.to_nat o + length bs) file.
(** [AllocateFileRange]: the file reaches at least to the end of the range. *)
Definition AllocateFileRange (offset len : Z) (file : list Z) : list Z :=
  file ++ replicate (Z.to_nat (offset + len) - length file) 0.
(** [TruncateFile]: the file gets exactly this length, cut or filled with zeros. *)
Definition TruncateFile (len : Z) (file : list Z) : list Z :=
  take (Z.to_nat len) (file ++ replicate (Z.to_nat len - length file) 0).

Section Files.
(** Whether the system opens the file of a number, and [CheckDiskSpace]. *)
Context (fopen_ok : Z → bool) (CheckDiskSpace : Z → bool).

(** [OpenDiskFile]: the file's bytes; the position is where the reading or writing starts. *)
Definition OpenDiskFile (files : gmap Z (list Z)) (p : CDiskBlockPos) (fReadOnly : bool) : option (list Z) :=
  if pos_IsNull p then None else
  if negb (fopen_ok (p_file p)) then None else
  match files !! p_file p with
  | Some file => Some file
  | None => if fReadOnly then None else Some []
  end.

(** ** Finding a position *)

Definition resize_files (n : nat) (v : list CBlockFileInfo) : list CBlockFileInfo := v ++ replicate (n - length v) BlockFileInfo_null.

Definition set_vinfo (v : list CBlockFileInfo) (s : block_files) : block_files :=
  BlockFiles v (nLastBlockFile s) (setDirtyFileInfo s) (blk_files s) (rev_files s).

(** One file of [FlushBlockFile]: opening it creates it; when a file is left it is
    cut to the length [n]. *)
Definition flush_file (files : gmap Z (list Z)) (p : CDiskBlockPos) (n : option Z) : gmap Z (list Z) :=
  match OpenDiskFile files p false with
  | Some file => <[p_file p := match n with Some n => TruncateFile n file | None => file end]> files
  | None => files
  end.
Definition FlushBlockFile (fFinalize : bool) (s : block_files) : res block_files :=
  let posOld := DiskBlockPos (nLastBlockFile s) 0 in
  '(n, u) ← (if fFinalize then
      match vinfoBlockFile s !! Z.to_nat (nLastBlockFile s) with
      | Some f => Ok (Some (f_nSize f), Some (f_nUndoSize f))
      | None => AssertFail
      end
    else Ok (None, None));
  Ok (BlockFiles (vinfoBlockFile s) (nLastBlockFile s) (setDirtyFileInfo s)
        (flush_file (blk_files s) posOld n) (flush_file (rev_files s) posOld u)).

(** [while (vinfoBlockFile[nFile].nSize + nAddSize >= MAX_BLOCKFILE_SIZE)]; what is
    cut is the last file used, whichever file is being left. *)
Fixpoint find_file (fuel : nat) (nFile : nat) (nAddSize : Z) (s : block_files) : res (nat * block_files) :=
  match vinfoBlockFile s !! nFile with
  | None => AssertFail
  | Some f =>
      if MAX_BLOCKFILE_SIZE <=? u32 (f_nSize f + nAddSize) then
        match fuel with
        | O => OutOfFuel
        | S fuel =>
            s ← FlushBlockFile true s;
            find_file fuel (S nFile) nAddSize (set_vinfo (resize_files (S (S nFile)) (vinfoBlockFile s)) s)
        end
      else Ok (nFile, s)
  end.

(** The space set aside in whole chunks; [None]: out of disk space. *)
Definition preallocate (chunk : Z) (files : gmap Z (list Z)) (p : CDiskBlockPos) (nNewSize : Z) : option (gmap Z (list Z)) :=
  let nOldChunks := u32 (p_pos p + chunk - 1) / chunk in
  let nNewChunks := u32 (nNewSize + chunk - 1) / chunk in
  if nOldChunks <? nNewChunks then
    let n := u32 (nNewChunks * chunk - p_pos p) in
    if CheckDiskSpace n then
      match OpenDiskFile files p false with
      | Some file => Some (<[p_file p := AllocateFileRange (p_pos p) n file]> files)
      | None => Some files
      end
    else None
  else Some files.

(** [known]: the position of a block that is on disk already. *)
Definition FindBlockPos (known : option CDiskBlockPos) (nAddSize nHeight nTime : Z) (s : block_files) : res (option CDiskBlockPos * block_files) :=
  let number := match known with Some p => p_file p | None => nLastBlockFile s end in
  if number <? 0 then AssertFail else
  let nFile := Z.to_nat number in
  let s := set_vinfo (resize_files (S nFile) (vinfoBlockFile s)) s in
  '(nFile, s) ← match known with Some _ => Ok (nFile, s) | None => find_file (S (length (vinfoBlockFile s))) nFile nAddSize s end;
  match vinfoBlockFile s !! nFile with
  | None => AssertFail
  | Some f =>
      let p := match known with Some p => p | None => DiskBlockPos (Z.of_nat nFile) (f_nSize f) end in
      let f := AddBlock nHeight nTime f in
      let f := set_nSize (match known with Some p => Z.max (u32 (p_pos p + nAddSize)) (f_nSize f) | None => u32 (f_nSize f + nAddSize) end) f in
      let s := BlockFiles (<[nFile := f]> (vinfoBlockFile s)) (Z.of_nat nFile) (setDirtyFileInfo s) (blk_files s) (rev_files s) in
      let files := match known with Some _ => Some (blk_files s) | None => preallocate BLOCKFILE_CHUNK_SIZE (blk_files s) p (f_nSize f) end in
      match files with
      | None => Ok (None, s)
      | Some files => Ok (Some p, BlockFiles (vinfoBlockFile s) (nLastBlockFile s) ({[ Z.of_nat nFile ]} ∪ setDirtyFileInfo s) files (rev_files s))
      end
  end.

Definition FindUndoPos (nFile nAddSize : Z) (s : block_files) : res (option CDiskBlockPos * block_files) :=
  if nFile <? 0 then AssertFail else
  match vinfoBlockFile s !! Z.to_nat nFile with
  | None => AssertFail
  | Some f =>
      let p := DiskBlockPos nFile (f_nUndoSize f) in
      let nNewSize := u32 (f_nUndoSize f + nAddSize) in
      let s := BlockFiles (<[Z.to_nat nFile := set_nUndoSize nNewSize f]> (vinfoBlockFile s)) (nLastBlockFile s) ({[ nFile ]} ∪ setDirtyFileInfo s)
                 (blk_files s) (rev_files s) in
      match preallocate UNDOFILE_CHUNK_SIZE (rev_files s) p nNewSize with
      | None => Ok (None, s)
      | Some files => Ok (Some p, BlockFiles (vinfoBlockFile s) (nLastBlockFile s) (setDirtyFileInfo s) (blk_files s) files)
      end
  end.

(** ** Writing and reading *)

(** [Params().MessageStart()] *)
Context (MessageStart : list Z) (params : CChainParams) (GetHash : CBlockHeader → Z).
Context (SetPubKey : list Z → bool) (GetPubKey : list Z → list Z).

(** Four bytes of magic and the size go before the data; the position moves past them. *)
Definition WriteBlockToDisk (b : CBlock) (p : CDiskBlockPos) (s : block_files) : option (CDiskBlockPos * block_files) :=
  file ← OpenDiskFile (blk_files s) p false;
  let head := MessageStart ++ WRITEDATA 4 (u32 (size (ser_block b))) in
  let p' := DiskBlockPos (p_file p) (u32 (p_pos p + size head)) in
  Some (p', BlockFiles (vinfoBlockFile s) (nLastBlockFile s) (setDirtyFileInfo s)
              (<[p_file p := write_at (p_pos p) (head ++ ser_block b) file]> (blk_files s)) (rev_files s)).

(** An exception of the stream is an error. *)
Definition caught {A} (m : outcome stream_error A) : option A := match m with Ok a => Some a | _ => None end.

Definition ReadBlockFromDisk (p : CDiskBlockPos) (s : block_files) : option CBlock :=
  file ← OpenDiskFile (blk_files s) p true;
  '(b, _) ← caught (unser_block (drop (Z.to_nat (p_pos p)) file));
  if block_IsProofOfWork (vtx b) && negb (CheckProofOfWork params (uint256_limbs (GetHash (header b))) (h_nBits (header b))) then None
  else Some b.
(** The overload for the index entry [pindex]. *)
Definition ReadBlockFromDisk_index (m : block_index) (pindex : Z) (s : block_files) : res (option CBlock) :=
  e ← deref m pindex;
  match ReadBlockFromDisk (GetBlockPos e) s with
  | None => Ok None
  | Some b => if GetHash (header b) =? pindex then Ok (Some b) else Ok None
  end.

(** [CBlockUndo]: the undo records of all transactions but the first. *)
Fixpoint ser_txundos (v : list (list CTxInUndo)) : outcome stream_error (list Z) :=
  match v with
  | [] => Ok []
  | u :: v => bs ← ser_txundo SetPubKey u; r ← ser_txundos v; Ok (bs ++ r)
  end.
Definition ser_blockundo (v : list (list CTxInUndo)) : outcome stream_error (list Z) :=
  bs ← ser_txundos v; Ok (WriteCompactSize (Z.of_nat (length v)) ++ bs).
Definition unser_blockundo : reader (list (list CTxInUndo)) := unser_vector (unser_txundo SetPubKey GetPubKey).

(** [CHashWriter]: the block's hash and the records. *)
Definition undo_checksum (hashBlock : Z) (bs : list Z) : list Z := Hash256 (ser_uint256 hashBlock ++ bs).

Definition UndoWriteToDisk (v : list (list CTxInUndo)) (p : CDiskBlockPos) (hashBlock : Z) (s : block_files)
    : outcome stream_error (option (CDiskBlockPos * block_files)) :=
  match OpenDiskFile (rev_files s) p false with
  | None => Ok None
  | Some file =>
      bs ← ser_blockundo v;
      let head := MessageStart ++ WRITEDATA 4 (u32 (size bs)) in
      let p' := DiskBlockPos (p_file p) (u32 (p_pos p + size head)) in
      Ok (Some (p', BlockFiles (vinfoBlockFile s) (nLastBlockFile s) (setDirtyFileInfo s) (blk_files s)
                      (<[p_file p := write_at (p_pos p) (head ++ bs ++ undo_checksum hashBlock bs) file]> (rev_files s))))
  end.
(** The records and their checksum, from the bytes at the position. *)
Definition read_undo (checksum : list Z → list Z) (bytes : list Z) : outcome stream_error (option (list (list CTxInUndo))) :=
  match caught ('(v, r) ← unser_blockundo bytes; '(h, _) ← unser_uint256 r; Ok (v, h)) with
  | None => Ok None
  | Some (v, h) => bs ← ser_blockundo v; Ok (if h =? uint256_of_bytes (checksum bs) then Some v else None)
  end.
Definition UndoReadFromDisk (p : CDiskBlockPos) (hashBlock : Z) (s : block_files) : outcome stream_error (option (list (list CTxInUndo))) :=
  match OpenDiskFile (rev_files s) p true with
  | None => Ok None
  | Some file => read_undo (undo_checksum hashBlock) (drop (Z.to_nat (p_pos p)) file)
  end.

(** ** Storing a block and its undo data *)

(** [AcceptBlock]: a position is found and, unless the block is on disk, it is
    written there. *)
Definition store_block (dbp : option CDiskBlockPos) (b : CBlock) (nHeight : Z) (s : block_files) : res (option CDiskBlockPos * block_files) :=
  let nBlockSize := u32 (size (ser_block b)) in
  '(p, s) ← FindBlockPos dbp (u32 (nBlockSize + 8)) nHeight (header_GetBlockTime (header b)) s;
  match p, dbp with
  | None, _ => Ok (None, s)
  | Some p, Some _ => Ok (Some p, s)
  | Some p, None =>
      match WriteBlockToDisk b p s with
      | Some (p, s) => Ok (Some p, s)
      | None => Ok (None, s)
      end
  end.

(** [ConnectBlock]: the undo data goes into the file of the same number. *)
Definition store_undo (nFile : Z) (v : list (list CTxInUndo)) (hashPrev : Z) (s : block_files)
    : outcome stream_error (option CDiskBlockPos * block_files) :=
  bs ← ser_blockundo v;
  '(p, s) ← no_err (FindUndoPos nFile (u32 (size bs + 40)) s);
  match p with
  | None => Ok (None, s)
  | Some p =>
      w ← UndoWriteToDisk v p hashPrev s;
      match w with
      | Some (p, s) => Ok (Some p, s)
      | None => Ok (None, s)
      end
  end.
End Files.

(** ** Bytes on disk *)

(** The bytes are in the file from an offset on. *)
Definition on_disk (file : list Z) (o : Z) (bs : list Z) : Prop := ∀ i x, bs !! i = Some x → file !! (Z.to_nat o + i)%nat = Some x.

Lemma on_disk_split file o bs : on_disk file o bs → drop (Z.to_nat o) file = bs ++ drop (length bs) (drop (Z.to_nat o) file).
Proof.
  intros H. rewrite <- (take_drop (length bs) (drop (Z.to_nat o) file)) at 1. f_equal.
  apply list_eq. intros i. destruct (decide (i < length bs)%nat) as [Hi|Hi].
  - rewrite lookup_take_lt, lookup_drop by done. destruct (lookup_lt_is_Some_2 bs i Hi) as [x Hx]. rewrite Hx. by apply H.
  - rewrite lookup_take_ge by lia. symmetry. apply lookup_ge_None_2. lia.
Qed.

Lemma on_disk_drop file o bs : on_disk file o bs → ∃ rest, drop (Z.to_nat o) file = bs ++ rest.
Proof. intros H%on_disk_split. by eexists. Qed.

Lemma on_disk_more file z o bs : on_disk file o bs → on_disk (file ++ z) o bs.
Proof. intros H i x Hi. by apply lookup_app_l_Some, H. Qed.

Lemma on_disk_app file o a b : 0 ≤ o → on_disk file o (a ++ b) → on_disk file (o + size a) b.
Proof.
  intros Ho H i x Hi. unfold size. rewrite Z2Nat.inj_add by lia. rewrite Nat2Z.id, <- Nat.add_assoc. apply H.
  rewrite lookup_app_r by lia. by replace (length a + i - length a)%nat with i by lia.
Qed.

Lemma write_at_here o bs file : on_disk (write_at o bs file) o bs.
Proof.
  intros i x Hi. unfold write_at. rewrite lookup_app_r; rewrite length_take, length_app, length_replicate; [|lia].
  replace (Z.to_nat o + i - _)%nat with i by lia. by apply lookup_app_l_Some.
Qed.

Lemma write_at_below o ws file p bs : 0 ≤ p → p + size bs ≤ o → on_disk file p bs → on_disk (write_at o ws file) p bs.
Proof.
  intros Hp Ho H i x Hi. pose proof (H i x Hi) as Hf. pose proof (lookup_lt_Some _ _ _ Hi). unfold size in Ho. unfold write_at.
  apply lookup_app_l_Some. rewrite lookup_take_lt by lia. by apply lookup_app_l_Some.
Qed.

(** ** Where a block goes *)

Lemma resize_same n v : (n ≤ length v)%nat → resize_files n v = v.
Proof. intros. unfold resize_files. replace (n - length v)%nat with 0%nat by lia. apply app_nil_r. Qed.
Lemma resize_length n v : length (resize_files n v) = Nat.max n (length v).
Proof. unfold resize_files. rewrite length_app, length_replicate. lia. Qed.
Lemma resize_old n v i f : v !! i = Some f → resize_files n v !! i = Some f.
Proof. intros. by apply lookup_app_l_Some. Qed.
Lemma resize_new n v i f : resize_files n v !! i = Some f → v !! i = Some f ∨ v !! i = None ∧ f = BlockFileInfo_null.
Proof.
  unfold resize_files. intros [Hi|[Hl Hi]]%lookup_app_Some; [by left|]. right. split; [by apply lookup_ge_None_2|].
  by apply lookup_replicate in Hi as [-> _].
Qed.
Lemma resize_resize n k v : (k ≤ n)%nat → resize_files n (resize_files k v) = resize_files n v.
Proof.
  intros. unfold resize_files. rewrite length_app, length_replicate, <- app_assoc, <- replicate_add. do 2 f_equal. lia.
Qed.

(** The sizes are far from wrapping. *)
Definition sizes_ok (v : list CBlockFileInfo) : Prop := ∀ i f, v !! i = Some f → 0 ≤ f_nSize f < 2 ^ 31.
Lemma sizes_resize n v : sizes_ok v → sizes_ok (resize_files n v).
Proof. intros H i f [Hi|[_ ->]]%resize_new; [by eapply H|done]. Qed.

(** The files only grow. *)
Definition grown (files files' : gmap Z (list Z)) : Prop := ∀ i file, files !! i = Some file → ∃ z, files' !! i = Some (file ++ z).
Lemma grown_refl files : grown files files.
Proof. intros i file Hi. exists []. by rewrite app_nil_r. Qed.

Section Store.
Context (fopen_ok : Z → bool) (CheckDiskSpace : Z → bool).

Lemma open_file files p file : OpenDiskFile fopen_ok files p false = Some file → p_file p ≠ -1 ∧ file = default [] (files !! p_file p).
Proof.
  unfold OpenDiskFile, pos_IsNull. destruct (Z.eqb_spec (p_file p) (-1)); [done|]. destruct (fopen_ok (p_file p)); cbn [negb]; [|done].
  destruct (files !! p_file p); by intros [= ->].
Qed.

Lemma preallocate_spec chunk files p n :
  match preallocate fopen_ok CheckDiskSpace chunk files p n with
  | Some files' => grown files files'
  | None => ∃ k, CheckDiskSpace k = false
  end.
Proof.
  unfold preallocate. destruct (_ <? _); [|apply grown_refl]. destruct (CheckDiskSpace _) eqn:E; [|by eexists].
  destruct (OpenDiskFile _ _ _ _) as [file|] eqn:Ef; [|apply grown_refl]. apply open_file in Ef as [_ ->].
  intros i f Hi. destruct (decide (i = p_file p)) as [->|]; [rewrite lookup_insert_eq, Hi; by eexists|].
  rewrite lookup_insert_ne by done. exists []. by rewrite app_nil_r.
Qed.

End Store.

(** ** What was stored stays *)

(** Data within the used part of its file. *)
Definition stored_in (files : gmap Z (list Z)) (used : CBlockFileInfo → Z) (v : list CBlockFileInfo) (p : CDiskBlockPos) (bs : list Z) : Prop :=
  0 ≤ p_file p ∧ 0 ≤ p_pos p ∧ ∃ f file,
    v !! Z.to_nat (p_file p) = Some f ∧ p_pos p + size bs ≤ used f ∧ files !! p_file p = Some file ∧ on_disk file (p_pos p) bs.
Definition used_more (used : CBlockFileInfo → Z) (v v' : list CBlockFileInfo) : Prop :=
  ∀ i f, v !! i = Some f → ∃ f', v' !! i = Some f' ∧ used f ≤ used f'.

Lemma stored_mono files files' used v v' p bs :
  grown files files' → used_more used v v' → stored_in files used v p bs → stored_in files' used v' p bs.
Proof.
  intros Hg Hv (H0 & Hp & f & file & Hf & Hs & Hfile & Hd). split_and!; [done..|].
  destruct (Hg _ _ Hfile) as [z Hz], (Hv _ _ Hf) as (f' & Hf' & Hle). exists f', (file ++ z). split_and!; [done|lia|done|by apply on_disk_more].
Qed.

Lemma used_more_insert used v k g g' :
  v !! k = Some g → used g ≤ used g' → used_more used v (<[k := g']> v).
Proof.
  intros Hk Hle i f Hi. destruct (decide (i = k)) as [->|].
  - rewrite list_lookup_insert_eq by (by eapply lookup_lt_Some). rewrite Hk in Hi. injection Hi as <-. by eexists.
  - rewrite list_lookup_insert_ne by done. by eexists.
Qed.
Lemma used_more_resize used n v : used_more used v (resize_files n v).
Proof. intros i f Hi. exists f. split; [by apply resize_old|lia]. Qed.
Lemma used_more_trans used v1 v2 v3 : used_more used v1 v2 → used_more used v2 v3 → used_more used v1 v3.
Proof. intros H1 H2 i f Hi. destruct (H1 i f Hi) as (g & Hg & ?), (H2 i g Hg) as (h & Hh & ?). exists h. split; [done|lia]. Qed.

(** Writing above the used part keeps what is below. *)
Lemma stored_written files used v p bs o n ws f :
  stored_in files used v p bs → v !! Z.to_nat n = Some f → 0 ≤ n → used f ≤ o →
  stored_in (<[n := write_at o ws (default [] (files !! n))]> files) used v p bs.
Proof.
  intros (H0 & Hp & g & file & Hg & Hs & Hfile & Hd) Hf Hn Ho. split_and!; [done..|]. destruct (decide (p_file p = n)) as [<-|Ep].
  - rewrite Hf in Hg. injection Hg as ->. exists g, (write_at o ws file). rewrite lookup_insert_eq, Hfile.
    split_and!; [done..|]. apply write_at_below; [done|lia|done].
  - exists g, file. by rewrite lookup_insert_ne.
Qed.

(** What is written at the end of the used part is stored. *)
Lemma stored_new files used v o n a b f old :
  v !! Z.to_nat n = Some f → 0 ≤ n → 0 ≤ o → o + size a + size b ≤ used f →
  stored_in (<[n := write_at o (a ++ b) old]> files) used v (DiskBlockPos n (o + size a)) b.
Proof.
  intros Hf Hn Ho Hs. split_and!; [done|cbn; unfold size; lia|]. exists f, (write_at o (a ++ b) old). cbn [p_file p_pos].
  rewrite lookup_insert_eq. split_and!; [done|lia|done|]. apply on_disk_app; [done|]. apply write_at_here.
Qed.

(** What is in the used part of the files is still there. *)
Definition kept (used : CBlockFileInfo → Z) (files : gmap Z (list Z)) (v : list CBlockFileInfo) (files' : gmap Z (list Z)) (v' : list CBlockFileInfo) : Prop :=
  ∀ p bs, stored_in files used v p bs → stored_in files' used v' p bs.
Lemma kept_mono files files' used v v' : grown files files' → used_more used v v' → kept used files v files' v'.
Proof. intros Hg Hv p bs. by apply stored_mono. Qed.
Lemma kept_trans used f1 v1 f2 v2 f3 v3 : kept used f1 v1 f2 v2 → kept used f2 v2 f3 v3 → kept used f1 v1 f3 v3.
Proof. intros H1 H2 p bs H. by apply H2, H1. Qed.

Lemma on_disk_truncate file n p bs : 0 ≤ p → p + size bs ≤ n → on_disk file p bs → on_disk (TruncateFile n file) p bs.
Proof.
  intros Hp Hn H i x Hi. pose proof (lookup_lt_Some _ _ _ Hi). unfold size in Hn. unfold TruncateFile.
  rewrite lookup_take_lt by lia. by apply lookup_app_l_Some, H.
Qed.

(** ** Finding the file *)

Section Find.
Context (fopen_ok : Z → bool) (CheckDiskSpace : Z → bool).

(** Cutting a file to its used size keeps what is stored. *)
Lemma flush_file_kept used files v n f :
  v !! Z.to_nat n = Some f → 0 ≤ n →
  kept used files v (flush_file fopen_ok files (DiskBlockPos n 0) (Some (used f))) v.
Proof.
  intros Hf Hn p bs (H0 & Hp & g & file & Hg & Hs & Hfile & Hd). unfold flush_file.
  destruct (OpenDiskFile _ _ _ _) as [old|] eqn:Eo; [|split_and!; [done..|]; by exists g, file].
  apply open_file in Eo as [_ ->]. cbn [p_file]. split_and!; [done..|]. destruct (decide (p_file p = n)) as [<-|Ep].
  - rewrite Hf in Hg. injection Hg as <-. exists f, (TruncateFile (used f) file). rewrite lookup_insert_eq, Hfile.
    split_and!; [done..|]. by apply on_disk_truncate.
  - exists g, file. by rewrite lookup_insert_ne.
Qed.

Definition state_kept (s s' : block_files) : Prop :=
  kept f_nSize (blk_files s) (vinfoBlockFile s) (blk_files s') (vinfoBlockFile s') ∧
  kept f_nUndoSize (rev_files s) (vinfoBlockFile s) (rev_files s') (vinfoBlockFile s').
Lemma state_kept_refl s : state_kept s s.
Proof. split; by intros p bs. Qed.
Lemma state_kept_trans s1 s2 s3 : state_kept s1 s2 → state_kept s2 s3 → state_kept s1 s3.
Proof. intros [A B] [C D]. split; by eapply kept_trans. Qed.
Lemma set_vinfo_kept n s : state_kept s (set_vinfo (resize_files n (vinfoBlockFile s)) s).
Proof. split; apply kept_mono; (apply grown_refl || apply used_more_resize). Qed.

Lemma FlushBlockFile_spec s f :
  vinfoBlockFile s !! Z.to_nat (nLastBlockFile s) = Some f → 0 ≤ nLastBlockFile s →
  ∃ s', FlushBlockFile fopen_ok true s = Ok s' ∧ vinfoBlockFile s' = vinfoBlockFile s ∧ nLastBlockFile s' = nLastBlockFile s ∧ state_kept s s'.
Proof.
  intros Hf Hl. unfold FlushBlockFile. rewrite Hf. cbn [mbind outcome_bind]. eexists. split; [reflexivity|]. split_and!; [done..|].
  split; by apply flush_file_kept.
Qed.

Lemma find_file_spec fuel s n nAdd f fl :
  sizes_ok (vinfoBlockFile s) → 0 ≤ nAdd < MAX_BLOCKFILE_SIZE → vinfoBlockFile s !! n = Some f →
  vinfoBlockFile s !! Z.to_nat (nLastBlockFile s) = Some fl → 0 ≤ nLastBlockFile s →
  (length (vinfoBlockFile s) ≤ n + fuel)%nat ∨ f_nSize f = 0 →
  ∃ k g s', find_file fopen_ok fuel n nAdd s = Ok (k, s') ∧ (n ≤ k)%nat ∧ vinfoBlockFile s' = resize_files (S k) (vinfoBlockFile s) ∧
    vinfoBlockFile s' !! k = Some g ∧ f_nSize g + nAdd < MAX_BLOCKFILE_SIZE ∧ state_kept s s'.
Proof.
  unfold MAX_BLOCKFILE_SIZE. intros Hv Ha. revert s n f Hv. induction fuel as [|fuel IH]; intros s n f Hv Hn Hlast Hl Hm; pose proof (lookup_lt_Some _ _ _ Hn);
    cbn [find_file]; rewrite Hn; pose proof (Hv n f Hn); unfold MAX_BLOCKFILE_SIZE; rewrite u32_id by (unfold is_u; lia).
  - destruct Hm as [Hm|Hm]; [lia|]. rewrite (proj2 (Z.leb_gt _ _)) by lia. exists n, f, s. rewrite resize_same by lia. split_and!; [done|lia|done|done|lia|apply state_kept_refl].
  - destruct (Z.leb_spec 0x8000000 (f_nSize f + nAdd)) as [Hfull|Hfit].
    2: { exists n, f, s. rewrite resize_same by lia. split_and!; [done|lia|done|done|lia|apply state_kept_refl]. }
    destruct Hm as [Hm|Hm]; [|lia]. destruct (FlushBlockFile_spec s fl Hlast Hl) as (s1 & -> & Hv1 & Hl1 & Hk1). cbn [mbind outcome_bind]. rewrite Hv1.
    destruct (lookup_lt_is_Some_2 (resize_files (S (S n)) (vinfoBlockFile s)) (S n)) as [g Hg]; [rewrite resize_length; lia|].
    destruct (IH (set_vinfo (resize_files (S (S n)) (vinfoBlockFile s)) s1) (S n) g) as (k & h & s' & -> & Hk & Ev & Hh & Hs & Hk2);
      [by apply sizes_resize|done|cbn; rewrite Hl1; by apply resize_old|cbn; by rewrite Hl1| |].
    + cbn [vinfoBlockFile set_vinfo]. destruct (resize_new _ _ _ _ Hg) as [Hold|[_ ->]]; [|by right]. left. apply lookup_lt_Some in Hold. rewrite resize_same by lia. lia.
    + cbn [vinfoBlockFile set_vinfo] in Ev. rewrite resize_resize in Ev by lia. exists k, h, s'. split_and!; [done|lia|done..|].
      eapply state_kept_trans; [exact Hk1|]. eapply state_kept_trans; [|exact Hk2]. rewrite <- Hv1. apply set_vinfo_kept.
Qed.

Lemma FindBlockPos_spec n h t s :
  sizes_ok (vinfoBlockFile s) → 0 ≤ nLastBlockFile s → 0 ≤ n < MAX_BLOCKFILE_SIZE →
  ∃ k f r s', FindBlockPos fopen_ok CheckDiskSpace None n h t s = Ok (r, s') ∧
    resize_files (S k) (vinfoBlockFile s) !! k = Some f ∧ f_nSize f + n < MAX_BLOCKFILE_SIZE ∧
    vinfoBlockFile s' = <[k := set_nSize (f_nSize f + n) (AddBlock h t f)]> (resize_files (S k) (vinfoBlockFile s)) ∧
    nLastBlockFile s' = Z.of_nat k ∧
    kept f_nSize (blk_files s) (vinfoBlockFile s) (blk_files s') (resize_files (S k) (vinfoBlockFile s)) ∧
    kept f_nUndoSize (rev_files s) (vinfoBlockFile s) (rev_files s') (resize_files (S k) (vinfoBlockFile s)) ∧
    match r with Some p => p = DiskBlockPos (Z.of_nat k) (f_nSize f) | None => ∃ j, CheckDiskSpace j = false end.
Proof.
  intros Hs Hl Hn. unfold FindBlockPos. rewrite (proj2 (Z.ltb_ge _ _)) by done. set (l := Z.to_nat (nLastBlockFile s)).
  set (s0 := set_vinfo (resize_files (S l) (vinfoBlockFile s)) s).
  destruct (lookup_lt_is_Some_2 (vinfoBlockFile s0) l) as [f0 Hf0]; [cbn; rewrite resize_length; lia|].
  destruct (find_file_spec (S (length (vinfoBlockFile s0))) s0 l n f0 f0) as (k & f & s1 & -> & Hk & Ev & Hf & Hfit & Hkept);
    [by apply sizes_resize|done|done|done|done|lia|].
  cbn [mbind outcome_bind]. rewrite Hf. apply (state_kept_trans s s0 s1 (set_vinfo_kept (S l) s)) in Hkept as [Hkb Hku].
  cbn [s0 vinfoBlockFile set_vinfo] in Ev. rewrite resize_resize in Ev by lia. rewrite Ev in *.
  pose proof (sizes_resize (S k) _ Hs k f Hf) as Hsz. change (f_nSize (AddBlock h t f)) with (f_nSize f).
  assert (u32 (f_nSize f + n) = f_nSize f + n) as -> by (apply u32_id; unfold is_u, MAX_BLOCKFILE_SIZE in *; lia). cbn [blk_files].
  match goal with |- context [preallocate ?a ?b ?c ?d ?e ?g] => pose proof (preallocate_spec a b c d e g) as Hp; destruct (preallocate a b c d e g) as [files'|] end;
    eexists k, f, _, _; (split; [reflexivity|]); split_and!; try done.
  eapply kept_trans; [exact Hkb|]. apply kept_mono; [exact Hp|]. intros i g Hi. by exists g.
Qed.
End Find.

Section Kept.
Context (SetPubKey : list Z → bool) (GetPubKey : list Z → list Z).

(** A block of the files, and undo data with the hash it was written under. *)
Definition block_at (s : block_files) (e : CDiskBlockPos * CBlock) : Prop :=
  block_ok e.2 ∧ stored_in (blk_files s) f_nSize (vinfoBlockFile s) e.1 (ser_block e.2).
Definition undo_at (s : block_files) (e : CDiskBlockPos * Z * list (list CTxInUndo)) : Prop :=
  Forall (λ u, Forall undo_ok u ∧ Z.of_nat (length u) ≤ MAX_SIZE) e.2 ∧ Z.of_nat (length e.2) ≤ MAX_SIZE ∧
  ∃ bs, ser_blockundo SetPubKey e.2 = Ok bs ∧
    stored_in (rev_files s) f_nUndoSize (vinfoBlockFile s) e.1.1 (bs ++ undo_checksum e.1.2 bs).
Record files_ok (s : block_files) (lb : list (CDiskBlockPos * CBlock)) (lu : list (CDiskBlockPos * Z * list (list CTxInUndo))) : Prop := {
  fo_last : 0 ≤ nLastBlockFile s;
  fo_sizes : sizes_ok (vinfoBlockFile s);
  fo_blocks : Forall (block_at s) lb;
  fo_undos : Forall (undo_at s) lu
}.

(** Undo data is read back, and written again the same. *)
Lemma ser_stored_int {E} n : is_s 32 n → ser_varint (E:=E) 32 (stored_int n) = ser_varint 32 n.
Proof.
  intros Hn. unfold stored_int. destruct (Z.ltb_spec n 0) as [Hneg|]; [|done]. unfold ser_varint, WriteVarInt. change (varint_room 32) with 5%nat.
  cbn [varint_digits]. pose proof (Z.mod_pos_bound n 128). rewrite !land_7f, Z.mod_mod, !(proj2 (Z.leb_le _ _)) by lia. done.
Qed.

Lemma ser_stored_undo u : undo_ok u → ser_undo SetPubKey (stored_undo u) = ser_undo SetPubKey u.
Proof.
  intros (_ & _ & _ & Hv). unfold ser_undo, undo_code, stored_undo. cbn [u_nHeight u_fCoinBase u_fCoinStake u_nVersion u_txout].
  destruct (0 <? u_nHeight u); [by rewrite ser_stored_int|done].
Qed.

Lemma ser_stored_undos v : Forall undo_ok v → ser_undos SetPubKey (stored_undo <$> v) = ser_undos SetPubKey v.
Proof. induction 1 as [|u v Hu _ IH]; [done|]. rewrite fmap_cons. cbn [ser_undos]. by rewrite ser_stored_undo, IH. Qed.

Context (Hec : decompresses SetPubKey GetPubKey).

(** What is read back. *)
Definition stored_undos (v : list (list CTxInUndo)) : list (list CTxInUndo) := map (λ u, stored_undo <$> u) v.

Lemma txundos_roundtrip v :
  Forall (λ u, Forall undo_ok u ∧ Z.of_nat (length u) ≤ MAX_SIZE) v →
  ∃ bs, ser_txundos SetPubKey v = Ok bs ∧ ser_txundos SetPubKey (stored_undos v) = Ok bs ∧
    ∀ rest, read_n (unser_txundo SetPubKey GetPubKey) (length v) (bs ++ rest) = Ok (stored_undos v, rest).
Proof.
  induction 1 as [|u v [Hu Hl] _ (bs & E & E' & R)]; [by exists []|].
  destruct (txundo_roundtrip SetPubKey GetPubKey u Hec Hu Hl) as (b & Eb & Rb). exists (b ++ bs).
  cbn [stored_undos map ser_txundos length read_n]. fold (stored_undos v). split_and!.
  - by rewrite Eb, E.
  - assert (ser_txundo SetPubKey (stored_undo <$> u) = Ok b) as -> by (rewrite <- Eb; unfold ser_txundo; rewrite ser_stored_undos, length_fmap by done; done).
    by rewrite E'.
  - intros rest. rewrite <- app_assoc, Rb. cbn [mbind outcome_bind]. by rewrite R.
Qed.

Lemma blockundo_roundtrip v :
  Forall (λ u, Forall undo_ok u ∧ Z.of_nat (length u) ≤ MAX_SIZE) v → Z.of_nat (length v) ≤ MAX_SIZE →
  ∃ bs, ser_blockundo SetPubKey v = Ok bs ∧ ser_blockundo SetPubKey (stored_undos v) = Ok bs ∧
    ∀ rest, unser_blockundo SetPubKey GetPubKey (bs ++ rest) = Ok (stored_undos v, rest).
Proof.
  intros Hv Hl. destruct (txundos_roundtrip v Hv) as (bs & E & E' & R). unfold ser_blockundo. rewrite E, E'. unfold stored_undos at 1. rewrite length_map.
  cbn [mbind outcome_bind]. eexists. split_and!; [done..|]. intros rest. unfold unser_blockundo, unser_vector.
  rewrite <- app_assoc, ReadCompactSize_Write by lia. cbn [mbind outcome_bind]. by rewrite Nat2Z.id.
Qed.

Lemma read_uint256 l rest : bytes_ok l → length l = 32%nat → unser_uint256 (l ++ rest) = Ok (uint256_of_bytes l, rest).
Proof.
  intros Hb Hl. assert (l = ser_uint256 (uint256_of_bytes l)) as El.
  { unfold ser_uint256, uint256_of_bytes, WRITEDATA. rewrite <- (le_bytes_le_value l Hb) at 1. by rewrite Hl. }
  rewrite El at 1. apply unser_uint256_ser. by apply uint256_of_bytes_range.
Qed.
Lemma read_undo_ok (checksum : list Z → list Z) v rest :
  Forall (λ u, Forall undo_ok u ∧ Z.of_nat (length u) ≤ MAX_SIZE) v → Z.of_nat (length v) ≤ MAX_SIZE →
  (∀ l, bytes_ok (checksum l) ∧ length (checksum l) = 32%nat) →
  ∃ bs, ser_blockundo SetPubKey v = Ok bs ∧ read_undo SetPubKey GetPubKey checksum ((bs ++ checksum bs) ++ rest) = Ok (Some (stored_undos v)).
Proof.
  intros Hv Hl Hc. destruct (blockundo_roundtrip v Hv Hl) as (bs & Eb & Es & R). exists bs. split; [done|]. unfold read_undo.
  rewrite <- app_assoc, R. cbn [mbind outcome_bind]. rewrite read_uint256 by apply Hc. cbn [mbind outcome_bind caught]. rewrite Es.
  cbn [mbind outcome_bind]. by rewrite Z.eqb_refl.
Qed.

Section Read.
Context (fopen_ok : Z → bool) (params : CChainParams) (GetHash : CBlockHeader → Z) (s : block_files).

Lemma block_read e :
  block_at s e → fopen_ok (p_file e.1) = true →
  (block_IsProofOfWork (vtx e.2) = true → CheckProofOfWork params (uint256_limbs (GetHash (header e.2))) (h_nBits (header e.2)) = true) →
  ReadBlockFromDisk fopen_ok params GetHash e.1 s = Some e.2.
Proof.
  intros (Hb & H0 & Hp & f & file & Hf & Hsz & Hfile & Hd) Ho Hw. unfold ReadBlockFromDisk, OpenDiskFile, pos_IsNull.
  rewrite (proj2 (Z.eqb_neq _ _)), Ho by lia. cbn [negb]. rewrite Hfile. cbn [mbind option_bind].
  destruct (on_disk_drop _ _ _ Hd) as [rest ->]. rewrite unser_ser_block by done. cbn [caught mbind option_bind].
  destruct (block_IsProofOfWork (vtx e.2)); [by rewrite Hw|done].
Qed.

Lemma undo_read e :
  undo_at s e → fopen_ok (p_file e.1.1) = true →
  UndoReadFromDisk fopen_ok SetPubKey GetPubKey e.1.1 e.1.2 s = Ok (Some (stored_undos e.2)).
Proof.
  intros (Hv & Hl & bs & Eb & H0 & Hp & f & file & Hf & Hsz & Hfile & Hd) Ho. unfold UndoReadFromDisk, OpenDiskFile, pos_IsNull.
  rewrite (proj2 (Z.eqb_neq _ _)), Ho by lia. cbn [negb]. rewrite Hfile.
  destruct (read_undo_ok (undo_checksum e.1.2) e.2 (drop (length (bs ++ undo_checksum e.1.2 bs)) (drop (Z.to_nat (p_pos e.1.1)) file)) Hv Hl) as (bs' & Eb' & R);
    [intros l; split; [apply bytes_ok_Hash256|apply length_Hash256]|].
  rewrite Eb in Eb'. injection Eb' as <-. rewrite <- R. f_equal. by apply on_disk_split.
Qed.
End Read.
End Kept.

Section Storing.
Context (fopen_ok : Z → bool) (CheckDiskSpace : Z → bool) (MessageStart : list Z) (Hmagic : length MessageStart = 4%nat).
Context (SetPubKey : list Z → bool) (GetPubKey : list Z → list Z) (Hec : decompresses SetPubKey GetPubKey).
Context (s : block_files) (lb : list (CDiskBlockPos * CBlock)) (lu : list (CDiskBlockPos * Z * list (list CTxInUndo))).
Context (Hok : files_ok SetPubKey s lb lu).

Lemma head_size n : size (MessageStart ++ WRITEDATA 4 n) = 8.
Proof. unfold size, WRITEDATA. rewrite length_app, length_le_bytes, Hmagic. done. Qed.

Lemma open_result files p :
  p_file p ≠ -1 →
  OpenDiskFile fopen_ok files p false = Some (default [] (files !! p_file p)) ∨
  OpenDiskFile fopen_ok files p false = None ∧ fopen_ok (p_file p) = false.
Proof.
  intros Hp. unfold OpenDiskFile, pos_IsNull. rewrite (proj2 (Z.eqb_neq _ _)) by done. destruct (fopen_ok (p_file p)); [left|by right].
  cbn [negb]. by destruct (files !! p_file p).
Qed.

Lemma blocks_mono s' l :
  Forall (block_at s) l → kept f_nSize (blk_files s) (vinfoBlockFile s) (blk_files s') (vinfoBlockFile s') → Forall (block_at s') l.
Proof. intros H Hg. eapply list.Forall_impl; [exact H|]. intros e [Hb He]. split; [done|by apply Hg]. Qed.
Lemma undos_mono s' l :
  Forall (undo_at SetPubKey s) l → kept f_nUndoSize (rev_files s) (vinfoBlockFile s) (rev_files s') (vinfoBlockFile s') → Forall (undo_at SetPubKey s') l.
Proof. intros H Hg. eapply list.Forall_impl; [exact H|]. intros e (Hu & Hl & bs & Eb & He). split_and!; [done..|]. exists bs. split; [done|by apply Hg]. Qed.

Lemma store_block_ok b h :
  block_ok b → size (ser_block b) + 8 < MAX_BLOCKFILE_SIZE →
  ∃ r s', store_block fopen_ok CheckDiskSpace MessageStart None b h s = Ok (r, s') ∧
    match r with
    | Some p => files_ok SetPubKey s' ((p, b) :: lb) lu
    | None => files_ok SetPubKey s' lb lu ∧ ((∃ j, CheckDiskSpace j = false) ∨ ∃ i, fopen_ok i = false)
    end.
Proof.
  intros Hb Hsz. assert (0 ≤ size (ser_block b)) as H0 by (unfold size; lia). pose proof Hok as [Hl Hs Hlb Hlu]. unfold store_block.
  unfold MAX_BLOCKFILE_SIZE in Hsz. rewrite (u32_id (size _)) by (unfold is_u; lia). rewrite u32_id by (unfold is_u; lia).
  destruct (FindBlockPos_spec fopen_ok CheckDiskSpace (size (ser_block b) + 8) h (header_GetBlockTime (header b)) s Hs Hl)
    as (k & f & r & s1 & -> & Hf & Hfit & Hv & Hlast & Hkb & Hku & Hr); [unfold MAX_BLOCKFILE_SIZE; lia|]. cbn [mbind outcome_bind].
  set (n := size (ser_block b) + 8) in *. set (g := set_nSize (f_nSize f + n) (AddBlock h (header_GetBlockTime (header b)) f)) in *.
  pose proof (sizes_resize (S k) _ Hs) as Hs'. pose proof (Hs' k f Hf) as Hf0.
  assert (sizes_ok (vinfoBlockFile s1)) as Hs1.
  { rewrite Hv. unfold MAX_BLOCKFILE_SIZE in Hfit. intros i x. rewrite list_lookup_insert_Some. intros [(<- & <- & _)|[_ Hx]]; [cbn; lia|by eapply Hs']. }
  assert (files_ok SetPubKey s1 lb lu) as Hok1.
  { constructor; [lia|done|eapply blocks_mono; [done|]|eapply undos_mono; [done|]]; rewrite Hv;
      (eapply kept_trans; [eassumption|]); (apply kept_mono; [apply grown_refl|]); (eapply used_more_insert; [exact Hf|cbn; lia]). }
  destruct r as [p|]; [subst p|by eexists _, _; split; [done|split; [done|by left]]]. unfold WriteBlockToDisk.
  assert (vinfoBlockFile s1 !! k = Some g) as Hg by (rewrite Hv; apply list_lookup_insert_eq; by eapply lookup_lt_Some).
  destruct (open_result (blk_files s1) (DiskBlockPos (Z.of_nat k) (f_nSize f))) as [->|[-> Hopen]]; [cbn; lia| |].
  2: { eexists _, _. split; [done|]. split; [done|]. right. by eexists. }
  cbn [mbind option_bind p_file p_pos]. eexists _, _. split; [reflexivity|].
  rewrite head_size, (u32_id (f_nSize f + 8)) by (unfold is_u; lia). destruct Hok1 as [Hl1 _ Hlb1 Hlu1].
  constructor; [done|done| |]; [constructor|].
  - split; [done|]. cbn [fst snd blk_files vinfoBlockFile]. rewrite <- (head_size (u32 (size (ser_block b)))).
    eapply stored_new; [rewrite Nat2Z.id; exact Hg|lia|lia|]. rewrite head_size. change (f_nSize g) with (f_nSize f + n). unfold n. lia.
  - eapply list.Forall_impl; [exact Hlb|]. intros e [Hbe He]. split; [done|].
    pose proof (Hkb _ _ He) as He'.
    pose proof (stored_written _ _ _ _ _ (f_nSize f) (Z.of_nat k) ((MessageStart ++ WRITEDATA 4 (u32 (size (ser_block b)))) ++ ser_block b) f He') as Hw.
    eapply stored_mono; [apply grown_refl| |apply Hw; [by rewrite Nat2Z.id|lia|lia]]. cbn [vinfoBlockFile]. rewrite Hv. eapply used_more_insert; [exact Hf|cbn; lia].
  - eapply list.Forall_impl; [exact Hlu1|]. intros e He. exact He.
Qed.

Lemma store_undo_ok nFile f v h :
  vinfoBlockFile s !! Z.to_nat nFile = Some f → 0 ≤ nFile → 0 ≤ f_nUndoSize f →
  Forall (λ u, Forall undo_ok u ∧ Z.of_nat (length u) ≤ MAX_SIZE) v → Z.of_nat (length v) ≤ MAX_SIZE →
  (∀ bs, ser_blockundo SetPubKey v = Ok bs → f_nUndoSize f + size bs + 40 < 2 ^ 32) →
  ∃ r s', store_undo fopen_ok CheckDiskSpace MessageStart SetPubKey nFile v h s = Ok (r, s') ∧
    match r with
    | Some p => files_ok SetPubKey s' lb ((p, h, v) :: lu)
    | None => files_ok SetPubKey s' lb lu ∧ ((∃ j, CheckDiskSpace j = false) ∨ ∃ i, fopen_ok i = false)
    end.
Proof.
  intros Hf Hn Hu0 Hv Hlv Hfit. destruct (blockundo_roundtrip SetPubKey GetPubKey Hec v Hv Hlv) as (bs & Eb & _ & _). specialize (Hfit bs Eb).
  pose proof Hok as [Hl Hs Hlb Hlu]. unfold store_undo. rewrite Eb. cbn [mbind outcome_bind]. assert (0 ≤ size bs) as H0 by (unfold size; lia).
  rewrite (u32_id (size bs + 40)) by (unfold is_u; lia). unfold FindUndoPos. rewrite (proj2 (Z.ltb_ge _ _)), Hf by done.
  rewrite u32_id by (unfold is_u; lia). set (n := f_nUndoSize f + (size bs + 40)). set (g := set_nUndoSize n f).
  set (v1 := <[Z.to_nat nFile := g]> (vinfoBlockFile s)). set (d := {[ nFile ]} ∪ setDirtyFileInfo s). cbn [rev_files blk_files vinfoBlockFile nLastBlockFile setDirtyFileInfo].
  assert (sizes_ok v1) as Hs1.
  { intros i x. subst v1. rewrite list_lookup_insert_Some. intros [(<- & <- & _)|[_ Hx]]; [exact (Hs _ f Hf)|by eapply Hs]. }
  assert (used_more f_nSize (vinfoBlockFile s) v1) as Hu1 by (eapply used_more_insert; [exact Hf|cbn; lia]).
  assert (used_more f_nUndoSize (vinfoBlockFile s) v1) as Hu2 by (eapply used_more_insert; [exact Hf|cbn; lia]).
  match goal with |- context [preallocate ?a ?b ?c ?d ?e ?g] => pose proof (preallocate_spec a b c d e g) as Hp; destruct (preallocate a b c d e g) as [files'|] end.
  2: { eexists _, _. split; [reflexivity|]. split; [|by left]. constructor; [done|done|eapply blocks_mono; [done|by apply kept_mono; [apply grown_refl|]]|eapply undos_mono; [done|by apply kept_mono; [apply grown_refl|]]]. }
  cbn [no_err mbind outcome_bind]. unfold UndoWriteToDisk. cbn [rev_files].
  destruct (open_result files' (DiskBlockPos nFile (f_nUndoSize f))) as [->|[-> Hopen]]; [cbn; lia| |].
  2: { eexists _, _. split; [reflexivity|]. split; [|right; by eexists].
    constructor; [done|done|eapply blocks_mono; [done|by apply kept_mono; [apply grown_refl|]]|eapply undos_mono; [done|by apply kept_mono]]. }
  rewrite Eb. cbn [mbind outcome_bind p_file p_pos]. eexists _, _. split; [reflexivity|].
  rewrite head_size, (u32_id (f_nUndoSize f + 8)) by (unfold is_u; lia). constructor; [done|done|eapply blocks_mono; [done|by apply kept_mono; [apply grown_refl|]]|]. constructor.
  - split_and!; [done..|]. exists bs. split; [done|]. cbn [fst snd rev_files vinfoBlockFile]. rewrite <- (head_size (u32 (size bs))).
    eapply stored_new; [apply list_lookup_insert_eq; by eapply lookup_lt_Some|done|done|]. rewrite head_size. change (f_nUndoSize g) with n. unfold n.
    assert (size (bs ++ undo_checksum h bs) = size bs + 32) as -> by (unfold size; rewrite length_app; unfold undo_checksum; rewrite length_Hash256; lia). lia.
  - eapply list.Forall_impl; [exact Hlu|]. intros e (Hv' & Hl' & bs' & Eb' & He). split_and!; [done..|]. exists bs'. split; [done|].
    pose proof (stored_mono _ _ _ _ _ _ _ Hp (λ i x Hx, ex_intro _ x (conj Hx (Z.le_refl _))) He) as He'.
    pose proof (stored_written _ _ _ _ _ (f_nUndoSize f) nFile ((MessageStart ++ WRITEDATA 4 (u32 (size bs))) ++ bs ++ undo_checksum h bs) f He' Hf Hn (Z.le_refl _)) as Hw.
    by eapply stored_mono; [apply grown_refl|exact Hu2|exact Hw].
Qed.
End Storing.

(** ** The statistics of a file on disk *)

Definition info_ok (f : CBlockFileInfo) : Prop :=
  is_u 32 (f_nBlocks f) ∧ is_u 32 (f_nSize f) ∧ is_u 32 (f_nUndoSize f) ∧ is_u 32 (f_nHeightFirst f) ∧ is_u 32 (f_nHeightLast f) ∧
  is_u 64 (f_nTimeFirst f) ∧ is_u 64 (f_nTimeLast f).

Lemma varint_step {E} w n : 7 ≤ w → is_u w n → ∃ bs, ser_varint (E:=E) w n = Ok bs ∧ ∀ rest, unser_varint w (bs ++ rest) = Ok (n, rest).
Proof.
  intros Hw Hn. destruct (varint_roundtrip_gen w n [] Hw Hn) as (bs & E1 & _ & _ & _). exists bs. unfold ser_varint. rewrite E1. split; [done|].
  intros rest. destruct (varint_roundtrip_gen w n rest Hw Hn) as (bs' & E2 & _ & _ & R). rewrite E1 in E2. by injection E2 as <-.
Qed.

(** The record is read back from the block database. *)
Lemma file_info_roundtrip f : info_ok f → ∃ bs, ser_file_info f = Ok bs ∧ ∀ rest, unser_file_info (bs ++ rest) = Ok (f, rest).
Proof.
  destruct f as [a b c d e g h]. intros (Ha & Hb & Hc & Hd & He & Hg & Hh). unfold ser_file_info, unser_file_info.
  cbn [f_nBlocks f_nSize f_nUndoSize f_nHeightFirst f_nHeightLast f_nTimeFirst f_nTimeLast] in *.
  destruct (varint_step (E:=stream_error) 32 a) as (ba & -> & Ra); [lia|done|]. destruct (varint_step (E:=stream_error) 32 b) as (bb & -> & Rb); [lia|done|].
  destruct (varint_step (E:=stream_error) 32 c) as (bc & -> & Rc); [lia|done|]. destruct (varint_step (E:=stream_error) 32 d) as (bd & -> & Rd); [lia|done|].
  destruct (varint_step (E:=stream_error) 32 e) as (be & -> & Re); [lia|done|]. destruct (varint_step (E:=stream_error) 64 g) as (bg & -> & Rg); [lia|done|].
  destruct (varint_step (E:=stream_error) 64 h) as (bh & -> & Rh); [lia|done|]. cbn [mbind outcome_bind]. eexists. split; [done|]. intros rest.
  rewrite <- !app_assoc, Ra. cbn [mbind outcome_bind]. rewrite Rb. cbn [mbind outcome_bind]. rewrite Rc. cbn [mbind outcome_bind].
  rewrite Rd. cbn [mbind outcome_bind]. rewrite Re. cbn [mbind outcome_bind]. rewrite Rg. cbn [mbind outcome_bind]. rewrite Rh. done.
Qed.

(** Every block recorded in a file lies within its ranges of heights and times. *)
Definition spans (f : CBlockFileInfo) (blocks : list (Z * Z)) : Prop :=
  f_nBlocks f = Z.of_nat (length blocks) ∧ 0 ≤ f_nHeightLast f ∧ 0 ≤ f_nTimeLast f ∧
  ∀ h t, (h, t) ∈ blocks → f_nHeightFirst f ≤ h ≤ f_nHeightLast f ∧ f_nTimeFirst f ≤ t ≤ f_nTimeLast f.
Lemma AddBlock_spans f blocks h t :
  spans f blocks → 0 ≤ h → 0 ≤ t → Z.of_nat (length blocks) + 1 < 2 ^ 32 → spans (AddBlock h t f) ((h, t) :: blocks).
Proof.
  intros (Hn & Hh & Ht & Hin) H0 T0 Hlen. unfold AddBlock. split_and!; cbn [f_nBlocks f_nHeightLast f_nTimeLast].
  - rewrite u32_id by (unfold is_u; lia). cbn [length]. lia.
  - destruct (Z.ltb_spec (f_nHeightLast f) h); lia.
  - destruct (Z.ltb_spec (f_nTimeLast f) t); lia.
  - intros h' t' Hx. cbn [f_nHeightFirst f_nHeightLast f_nTimeFirst f_nTimeLast].
    apply elem_of_cons in Hx as [[= -> ->]|Hx].
    + destruct (_ =? 0), (Z.ltb_spec h (f_nHeightFirst f)), (Z.ltb_spec (f_nHeightLast f) h), (Z.ltb_spec t (f_nTimeFirst f)), (Z.ltb_spec (f_nTimeLast f) t); cbn [orb]; lia.
    + pose proof (Hin h' t' Hx). assert (f_nBlocks f =? 0 = false) as -> by (apply Z.eqb_neq; destruct blocks; [by apply elem_of_nil in Hx|cbn in Hn; lia]).
      cbn [orb]. destruct (Z.ltb_spec h (f_nHeightFirst f)), (Z.ltb_spec (f_nHeightLast f) h), (Z.ltb_spec t (f_nTimeFirst f)), (Z.ltb_spec (f_nTimeLast f) t); lia.
Qed.

(** ** Properties *)


(** The first file is all but full; the next block leaves it. *)
Module FilesDemo.
Definition first : CBlock := Block (BlockHeader 1 0 0 1744156800 0x1d00ffff 1) [] [].
Definition second : CBlock := Block (BlockHeader 1 1 0 1744156900 0x1d00ffff 2) [] [].
Definition undo : list (list CTxInUndo) := [[TxInUndo (TxOut 5 [] (-10)) true false 1 1]].
Definition undo_bytes : list Z := match ser_blockundo toy_SetPubKey undo with Ok bs => bs ++ undo_checksum 0 bs | _ => [] end.
Definition full : block_files :=
  BlockFiles [BlockFileInfo 1 (MAX_BLOCKFILE_SIZE - 50) 100 0 0 0 1744156800] 0 ∅
    {[ 0 := replicate 8 0 ++ ser_block first ]} {[ 0 := replicate 8 0 ++ undo_bytes ]}.
Lemma full_ok : files_ok toy_SetPubKey full [(DiskBlockPos 0 8, first)] [(DiskBlockPos 0 8, 0, undo)].
Proof.
  split; [done| | |].
  - intros [|i] f; [intros [= <-]; by_decision|intros Hi; discriminate Hi].
  - constructor; [|constructor]. split; [split; [unfold header_ok; by_decision|split; [by_decision|reflexivity]]|]. split; [by_decision|]. split; [by_decision|]. eexists _, _. split; [reflexivity|]. split; [by_decision|]. split; [reflexivity|].
    apply (on_disk_app _ 0 (replicate 8 0)); [done|]. intros i x Hi. exact Hi.
  - constructor; [|constructor]. split; [by_decision|]. split; [by_decision|]. exists (take (length undo_bytes - 32) undo_bytes). split; [by vm_compute|].
    assert (take (length undo_bytes - 32) undo_bytes ++ undo_checksum 0 (take (length undo_bytes - 32) undo_bytes) = undo_bytes) as Eb by (by vm_compute).
    cbn [fst snd]. rewrite Eb. split; [by_decision|]. split; [by_decision|]. eexists _, _. split; [reflexivity|]. split; [by_decision|]. split; [reflexivity|].
    apply (on_disk_app _ 0 (replicate 8 0)); [done|]. intros i x Hi. exact Hi.
Qed.
End FilesDemo.

