(* ===== verification/ChainLink.v ===== *)
(** * Linking received blocks (ReceivedBlockTransactions, main.cpp)

    A block whose transactions arrive before those of its predecessor waits in
    [mapBlocksUnlinked]; when the predecessor is complete, it and the blocks waiting
    for it are linked, counted and offered as candidates.  The theorem: this always
    ends, the counts are the numbers of transactions up to each block, and afterwards
    a received block waits exactly as long as one of its predecessors is missing. *)
From stdpp Require Import base tactics list gmap numbers option.
From Stdlib Require Import ZArith Lia.
From S2P Require Import Prelude.
From S2P Require Import BaseUint.
From S2P Require Import Transaction.
From S2P Require Import Chain.
From S2P Require Import Block.
From S2P Require Import ChainSelect.
From S2P Require Import ActivateChain.

(** ** Indexes with the same links *)

(** The links, the height and the number of transactions of an entry. *)
Definition bare (b : CBlockIndex) : CBlockIndex :=
  BlockIndex (pprev b) (pskip b) (nHeight b) [] [] 0 0 0 0 0 0 0 0 0 None (nTx b) (DiskFields 0 0 0) stake_null.
Definition links_eq (m m' : block_index) : Prop := bare <$> m = bare <$> m'.
#[export] Instance links_eq_equiv : Equivalence links_eq.
Proof. unfold links_eq. split; repeat intro; congruence. Qed.

Lemma links_insert m p b b' : m !! p = Some b → bare b' = bare b → links_eq m (<[p := b']> m).
Proof.
  intros Hp Hb. unfold links_eq. rewrite fmap_insert. symmetry. apply insert_id. by rewrite lookup_fmap, Hp, Hb.
Qed.
Lemma links_lookup m m' p b : links_eq m m' → m !! p = Some b → ∃ b', m' !! p = Some b' ∧ bare b' = bare b.
Proof.
  intros Hs Hp. assert ((bare <$> m') !! p = Some (bare b)) as H by (by rewrite <- Hs, lookup_fmap, Hp).
  rewrite lookup_fmap in H. destruct (m' !! p) as [b'|]; [|discriminate H]. exists b'. split; [done|]. by apply (inj Some) in H.
Qed.
Lemma bare_eq b b' : bare b' = bare b → pprev b' = pprev b ∧ pskip b' = pskip b ∧ nHeight b' = nHeight b ∧ nTx b' = nTx b.
Proof. destruct b, b'. intros H. injection H. intros. by subst. Qed.

Lemma walk_back_bare m n p : walk_back (bare <$> m) n p = walk_back m n p.
Proof.
  revert p. induction n as [|n IH]; intros p; [done|]. cbn [walk_back]. rewrite lookup_fmap.
  destruct (m !! p) as [b|]; [|done]. cbn. destruct (pprev b); [apply IH|done].
Qed.
Lemma ancestor_bare m p h : ancestor (bare <$> m) p h = ancestor m p h.
Proof.
  unfold ancestor. rewrite lookup_fmap. destruct (m !! p) as [b|]; [|done]. cbn.
  destruct (_ && _); [apply walk_back_bare|done].
Qed.
#[export] Instance ancestor_links : Proper (links_eq ==> eq ==> eq ==> eq) ancestor.
Proof. intros m m' Hs p _ <- h _ <-. by rewrite <- (ancestor_bare m), Hs, ancestor_bare. Qed.

Lemma index_wf_links m m' : links_eq m m' → index_wf m → index_wf m'.
Proof.
  intros Hs [H1 H2 H3 H4]. assert (∀ p b', m' !! p = Some b' → ∃ b, m !! p = Some b ∧ bare b = bare b') as Hl
    by (intros p b'; by apply links_lookup). split.
  - intros p b' (b & Hb & (_ & _ & <- & _)%bare_eq)%Hl. by apply (H1 p b).
  - intros p b' (b & Hb & (Ep & _ & Eh & _)%bare_eq)%Hl. rewrite <- Ep, <- Eh. by apply (H2 p b).
  - intros p b' q (b & Hb & (Ep & _ & Eh & _)%bare_eq)%Hl. rewrite <- Ep, <- Eh. intros Hq. destruct (H3 p b q Hb Hq) as (c & Hc & Hh).
    destruct (links_lookup m m' q c Hs Hc) as (c' & Hc' & (_ & _ & Ec & _)%bare_eq). exists c'. by rewrite Ec.
  - intros p b' q (b & Hb & (Ep & Ek & Eh & _)%bare_eq)%Hl. rewrite <- Ep, <- Eh, <- Ek. intros Hq.
    rewrite <- (ancestor_links m m' Hs q q eq_refl _ _ eq_refl). by apply (H4 p b).
Qed.

Lemma chain_ok_links m m' v tip : links_eq m m' → chain_ok m v tip → chain_ok m' v tip.
Proof.
  intros Hs. destruct tip as [t|]; [|done]. intros (b & Hb & Hl & Hv). destruct (links_lookup m m' t b Hs Hb) as (b' & Hb' & (_ & _ & Eh & _)%bare_eq).
  exists b'. rewrite Eh. split_and!; [done..|]. intros k Hk. rewrite <- (ancestor_links m m' Hs t t eq_refl k k eq_refl). by apply Hv.
Qed.

(** ** The transactions up to a block *)

Fixpoint path_txs_at (n : nat) (m : block_index) (p : Z) : Z :=
  match m !! p with
  | None => 0
  | Some b => nTx b + match pprev b, n with Some q, S n => path_txs_at n m q | _, _ => 0 end
  end.
Definition path_txs (m : block_index) (p : Z) : Z := match m !! p with Some b => path_txs_at (Z.to_nat (nHeight b)) m p | None => 0 end.

Lemma path_txs_links m m' p : links_eq m m' → path_txs m' p = path_txs m p.
Proof.
  intros Hs. assert (∀ n q, path_txs_at n m' q = path_txs_at n m q) as Hat.
  { induction n as [|n IH]; intros q; cbn [path_txs_at];
      (destruct (m !! q) as [b|] eqn:E; [destruct (links_lookup m m' q b Hs E) as (b' & -> & (-> & _ & _ & ->)%bare_eq)|
       destruct (m' !! q) as [b'|] eqn:E'; [destruct (links_lookup m' m q b' (symmetry Hs) E') as (b & Hb & _); congruence|done]]); [done|].
    destruct (pprev b); [by rewrite IH|done]. }
  unfold path_txs. destruct (m !! p) as [b|] eqn:E; [destruct (links_lookup m m' p b Hs E) as (b' & -> & (_ & _ & -> & _)%bare_eq); apply Hat|].
  destruct (m' !! p) as [b'|] eqn:E'; [destruct (links_lookup m' m p b' (symmetry Hs) E') as (b & Hb & _); congruence|done].
Qed.

Lemma path_txs_step m p b :
  index_wf m → m !! p = Some b → path_txs m p = nTx b + match pprev b with Some q => path_txs m q | None => 0 end.
Proof.
  intros Hwf Hp. unfold path_txs. rewrite Hp. destruct (pprev b) as [q|] eqn:Eq.
  - destruct (wf_pprev m Hwf p b q Hp Eq) as (c & Hc & Hh). pose proof (wf_height m Hwf q c Hc). rewrite Hc.
    replace (Z.to_nat (nHeight b)) with (S (Z.to_nat (nHeight c))) by lia. cbn [path_txs_at]. by rewrite Hp, Eq.
  - destruct (Z.to_nat (nHeight b)); cbn [path_txs_at]; by rewrite Hp, Eq.
Qed.

(** ** The invariant *)

(** Every waiting block has an entry with transactions under the predecessor it
    waits for, which is not linked. *)
Definition waiting_ok (x : selection) : Prop :=
  ∀ q p, (q, p) ∈ s_unlinked x → ∃ b, s_index x !! p = Some b ∧ pprev b = Some q ∧ 0 < nTx b ∧
    ∀ c, s_index x !! q = Some c → nChainTx c = 0.
(** The counts of linked blocks. *)
Definition counts_ok (m : block_index) : Prop :=
  ∀ p b, m !! p = Some b → 0 ≤ nTx b ∧ (nChainTx b ≠ 0 → nTx b ≠ 0 ∧ nChainTx b = path_txs m p).
Definition txs_fit (m : block_index) : Prop := ∀ p, path_txs m p < 2 ^ 32.
(** A block with transactions that is not linked is in [queue] or waits, unless its
    predecessor is not valid. *)
Definition none_lost (queue : list Z) (x : selection) : Prop :=
  ∀ p b, s_index x !! p = Some b → nTx b ≠ 0 → nChainTx b = 0 →
    p ∈ queue ∨ ∃ q c, pprev b = Some q ∧ s_index x !! q = Some c ∧ ((q, p) ∈ s_unlinked x ∨ IsValid BLOCK_VALID_TREE c ≠ Ok true).

Record link_ok (x : selection) : Prop := {
  lo_sel : sel_ok x;
  lo_linked : tx_linked (s_index x);
  lo_counts : counts_ok (s_index x);
  lo_waiting : waiting_ok x
}.

Lemma path_txs_nonneg m p : counts_ok m → 0 ≤ path_txs m p.
Proof.
  intros Hc. unfold path_txs. destruct (m !! p) as [b|]; [|done]. generalize (Z.to_nat (nHeight b)). intros n. revert p.
  induction n as [|n IH]; intros p; cbn [path_txs_at]; (destruct (m !! p) as [d|] eqn:E; [|done]); destruct (Hc p d E) as [H0 _];
    destruct (pprev d) as [q|]; try lia. specialize (IH q). lia.
Qed.

(** ** Linking one block *)

(** The entry after its count and order were set. *)
Definition relinked (b b' : CBlockIndex) : Prop := ∃ n k, b' = set_nSequenceId n (set_nChainTx k b).
Lemma relinked_refl b : relinked b b.
Proof. exists (nSequenceId b), (nChainTx b). by destruct b. Qed.
Lemma relinked_trans b1 b2 b3 : relinked b1 b2 → relinked b2 b3 → relinked b1 b3.
Proof. intros (n & k & ->) (n' & k' & ->). by exists n', k'. Qed.
Lemma relinked_bare b b' : relinked b b' → bare b' = bare b ∧ nStatus b' = nStatus b ∧ nChainWork b' = nChainWork b ∧ bi_disk b' = bi_disk b ∧ nFlags b' = nFlags b.
Proof. intros (n & k & ->). by destruct b. Qed.

(** Some blocks of [x] were linked. *)
Record links_more (x x' : selection) : Prop := {
  lm_entries p b : s_index x !! p = Some b → ∃ b', s_index x' !! p = Some b' ∧ relinked b b' ∧ (nChainTx b ≠ 0 → nChainTx b' ≠ 0);
  lm_links : links_eq (s_index x) (s_index x');
  lm_active : s_active x' = s_active x;
  lm_invalid : s_best_invalid x' = s_best_invalid x;
  lm_cand : s_candidates x ⊆ s_candidates x';
  lm_unlinked : s_unlinked x' ⊆ s_unlinked x
}.
Lemma links_more_refl x : links_more x x.
Proof. split; try done. intros p b Hp. exists b. by split_and!; [|apply relinked_refl|]. Qed.
Lemma links_more_trans x1 x2 x3 : links_more x1 x2 → links_more x2 x3 → links_more x1 x3.
Proof.
  intros [E1 L1 A1 I1 C1 U1] [E2 L2 A2 I2 C2 U2]. split; [|by etransitivity|congruence|congruence|set_solver|by etransitivity].
  intros p b Hp. destruct (E1 p b Hp) as (b2 & H2 & R2 & N2), (E2 p b2 H2) as (b3 & H3 & R3 & N3).
  exists b3. split_and!; [done|by eapply relinked_trans|auto].
Qed.

(** A candidate, unless the tip has at least its work. *)
Definition offered (x : selection) (p : Z) : Prop :=
  p ∈ s_candidates x ∨ ∃ t b c, active_tip x = Some t ∧ s_index x !! p = Some b ∧ s_index x !! t = Some c ∧ work b ≤ work c.
Lemma offered_more x x' p : links_more x x' → offered x p → offered x' p.
Proof.
  intros [E _ A _ C _] [Hp|(t & b & c & Ht & Hb & Hc & Hw)]; [left; by apply C|]. right.
  destruct (E p b Hb) as (b' & Hb' & (_ & _ & Wb & _ & _)%relinked_bare & _), (E t c Hc) as (c' & Hc' & (_ & _ & Wc & _ & _)%relinked_bare & _).
  exists t, b', c'. unfold active_tip in *. rewrite A. split_and!; [done..|]. unfold work in *. by rewrite Wb, Wc.
Qed.

Definition ready (x : selection) (p : Z) : Prop :=
  ∃ b, s_index x !! p = Some b ∧ 0 < nTx b ∧ ∀ q c, pprev b = Some q → s_index x !! q = Some c → nChainTx c ≠ 0.
Lemma ready_more x x' p : links_more x x' → ready x p → ready x' p.
Proof.
  intros Hm (b & Hb & Hn & Hq). destruct (lm_entries _ _ Hm p b Hb) as (b' & Hb' & [(Ep & _ & _ & Et)%bare_eq _]%relinked_bare & _).
  exists b'. rewrite Ep, Et. split_and!; [done..|]. intros q c' Hpq Hc'.
  destruct (links_lookup _ _ q c' (symmetry (lm_links _ _ Hm)) Hc') as (c & Hc & _).
  destruct (lm_entries _ _ Hm q c Hc) as (c2 & Hc2 & _ & Hnz). assert (c2 = c') as -> by congruence. by apply Hnz, (Hq q).
Qed.

Section Loop.
Context (addr : Z → Z).

(** The body of the loop, without the queue. *)
Definition link_one (p : Z) (b : CBlockIndex) (before : Z) (x : selection) : selection :=
  let b := set_nSequenceId (s_sequence x) (set_nChainTx (u32 (before + nTx b)) b) in
  let x := set_sequence (u32 (s_sequence x + 1)) (set_index (<[p := b]> (s_index x)) x) in
  let x := offer_candidate addr p x in
  set_unlinked (filter (λ e, e.1 ≠ p) (s_unlinked x)) x.

Lemma offer_fields p x :
  s_index (offer_candidate addr p x) = s_index x ∧ s_active (offer_candidate addr p x) = s_active x ∧
  s_best_invalid (offer_candidate addr p x) = s_best_invalid x ∧ s_unlinked (offer_candidate addr p x) = s_unlinked x ∧
  s_candidates x ⊆ s_candidates (offer_candidate addr p x) ∧ s_candidates (offer_candidate addr p x) ⊆ {[ p ]} ∪ s_candidates x ∧
  (p ∈ s_candidates (offer_candidate addr p x) ∨ ∃ t, active_tip x = Some t ∧ work_less addr (s_index x) p t = true).
Proof.
  unfold offer_candidate. destruct (active_tip x) as [t|]; [destruct (work_less _ _ _ _) eqn:E|]; cbn; split_and!; try done; set_solver.
Qed.

Lemma link_one_ok p b before x :
  link_ok x → txs_fit (s_index x) → s_index x !! p = Some b → 0 < nTx b →
  (match pprev b with Some q => ∃ c, s_index x !! q = Some c ∧ nChainTx c = before ∧ before ≠ 0 | None => before = 0 end) →
  let x' := link_one p b before x in
  link_ok x' ∧ links_more x x' ∧ offered x' p ∧
  (∃ b', s_index x' !! p = Some b' ∧ nChainTx b' ≠ 0) ∧
  (∀ r, r ≠ p → s_index x' !! r = s_index x !! r) ∧ s_unlinked x' = filter (λ e, e.1 ≠ p) (s_unlinked x).
Proof.
  intros [Hsel Htl Hcn Hwt] Hfit Hp Hn Hbefore x'. pose proof (so_wf _ Hsel) as Hwf.
  set (b1 := set_nSequenceId (s_sequence x) (set_nChainTx (u32 (before + nTx b)) b)).
  set (x1 := set_sequence (u32 (s_sequence x + 1)) (set_index (<[p := b1]> (s_index x)) x)).
  assert (x' = set_unlinked (filter (λ e, e.1 ≠ p) (s_unlinked (offer_candidate addr p x1))) (offer_candidate addr p x1)) as Ex by done.
  destruct (offer_fields p x1) as (F1 & F2 & F3 & F4 & F5 & F6 & F7). set (x2 := offer_candidate addr p x1) in *.
  assert (s_index x' = <[p := b1]> (s_index x)) as Ei by (rewrite Ex; exact F1).
  assert (s_unlinked x' = filter (λ e, e.1 ≠ p) (s_unlinked x)) as Eu by (rewrite Ex; cbn; by rewrite F4).
  assert (bare b1 = bare b) as Hbare by done.
  assert (links_eq (s_index x) (s_index x')) as Hlk by (rewrite Ei; by eapply links_insert).
  assert (u32 (before + nTx b) = path_txs (s_index x) p) as Esum.
  { pose proof (path_txs_step _ p b Hwf Hp) as Hst. pose proof (Hfit p). pose proof (path_txs_nonneg _ p Hcn).
    assert (before + nTx b = path_txs (s_index x) p) as ->; [|apply u32_id; by split].
    rewrite Hst. destruct (pprev b) as [q|]; [|lia]. destruct Hbefore as (c & Hc & Ec & Hnz). destruct (Hcn q c Hc) as [_ Hcq]. destruct Hcq as [_ <-]; [congruence|]. lia. }
  assert (path_txs (s_index x) p ≠ 0) as Hnz.
  { rewrite (path_txs_step _ p b Hwf Hp). destruct (pprev b) as [q|]; [|lia]. pose proof (path_txs_nonneg _ q Hcn). lia. }
  assert (nChainTx b1 ≠ 0) as Hnz1 by (cbn; by rewrite Esum).
  assert (links_more x x') as Hmore.
  { split; [|done|by rewrite Ex; cbn; rewrite F2|by rewrite Ex; cbn; rewrite F3|rewrite Ex; cbn; exact F5|].
    - intros r d Hr. rewrite Ei. destruct (decide (r = p)) as [->|Hrp].
      + exists b1. rewrite lookup_insert_eq. split_and!; [done| |done]. rewrite Hp in Hr. injection Hr as <-. by eexists _, _.
      + exists d. rewrite lookup_insert_ne by done. split_and!; [done|apply relinked_refl|done].
    - rewrite Eu. intros e He. by apply list_elem_of_filter in He as [_ He]. }
  assert (tx_linked (s_index x')) as Htl'.
  { intros r d q c Hr Hq Hc Hd. rewrite Ei in Hr, Hc. assert (nChainTx c ≠ 0 ∨ q ≠ p ∧ s_index x !! q = Some c) as [?|[Hqp Hc']]; [|done|].
    { apply lookup_insert_Some in Hc as [[-> <-]|[? ?]]; [by left|right; by split]. }
    apply lookup_insert_Some in Hr as [[<- <-]|[_ Hr]]; [|by apply (Htl r d q c)].
    change (pprev b = Some q) in Hq. rewrite Hq in Hbefore. destruct Hbefore as (c' & Hc'' & <- & ?). congruence. }
  split_and!; [split|done| | |intros r Hr; rewrite Ei; by rewrite lookup_insert_ne|done].
  - assert (index_wf (s_index x')) as Hwf' by (by eapply index_wf_links). split; [done| | | | |].
    + intros r d. rewrite Ei, lookup_insert_Some. intros [[<- <-]|[_ Hr]]; [exact (so_works _ Hsel p b Hp)|by apply (so_works _ Hsel r)].
    + assert (active_tip x' = active_tip x) as -> by (unfold active_tip; by rewrite (lm_active _ _ Hmore)). rewrite (lm_active _ _ Hmore).
      eapply chain_ok_links; [done|apply Hsel].
    + intros r Hr. rewrite Ei. apply lookup_insert_is_Some'. rewrite Ex in Hr. cbn in Hr. apply F6 in Hr. cbn in Hr.
      apply elem_of_union in Hr as [->%elem_of_singleton|Hr]; [by left|right; by apply (so_cand _ Hsel)].
    + intros r q d Hr Hq Ha. rewrite <- (ancestor_links _ _ Hlk r r eq_refl _ _ eq_refl) in Ha.
      rewrite Ei in Hq. apply lookup_insert_Some in Hq as [[<- <-]|[Hqp Hq]]; [by left|].
      rewrite Ex in Hr. cbn in Hr. apply F6 in Hr. cbn in Hr. apply elem_of_union in Hr as [->%elem_of_singleton|Hr].
      * left. assert (s_index x' !! p = Some b1) as Hp1 by (by rewrite Ei, lookup_insert_eq).
        eapply (tx_linked_ancestor (s_index x') p b1 q d Hwf' Htl' Hp1); [rewrite Ei; by rewrite lookup_insert_ne| |done].
        by rewrite <- (ancestor_links _ _ Hlk p p eq_refl _ _ eq_refl).
      * by apply (so_tx _ Hsel r q d).
    + intros q Hq. rewrite (lm_invalid _ _ Hmore) in Hq. destruct (so_invalid _ Hsel q Hq) as [d Hd]. rewrite Ei. apply lookup_insert_is_Some'. right. by exists d.
  - done.
  - intros r d. rewrite (path_txs_links _ _ r Hlk), Ei, lookup_insert_Some. intros [[<- <-]|[_ Hr]].
    + split; [by apply (Hcn p b)|]. intros _. split; [cbn; lia|exact Esum].
    + by apply Hcn.
  - intros q r Hin. rewrite Eu in Hin. apply list_elem_of_filter in Hin as [Hqp Hin]. cbn in Hqp. destruct (Hwt q r Hin) as (d & Hd & Hpd & Hnd & Hz).
    destruct (lm_entries _ _ Hmore r d Hd) as (d' & Hd' & [(Ep & _ & _ & Et)%bare_eq _]%relinked_bare & _). exists d'. rewrite Ep, Et.
    split_and!; [done..|]. intros c. rewrite Ei, lookup_insert_ne by done. by apply Hz.
  - assert (s_index x' !! p = Some b1) as Hp1 by (by rewrite Ei, lookup_insert_eq). destruct F7 as [Hin|(t & Ht & Hless)].
    + left. rewrite Ex. exact Hin.
    + assert (active_tip x = Some t) as Ht' by exact Ht. right. change (s_index x1) with (<[p := b1]> (s_index x)) in Hless.
      rewrite <- Ei in Hless. unfold work_less in Hless. rewrite Hp1 in Hless. destruct (s_index x' !! t) as [c|] eqn:Ec; [|discriminate Hless].
      exists t, b1, c. split_and!; [unfold active_tip in *; by rewrite (lm_active _ _ Hmore)|done..|]. unfold entry_less in Hless.
      assert (limbs_ok 8 (nChainWork b1)) as Hl1 by exact (so_works _ Hsel p b Hp).
      assert (limbs_ok 8 (nChainWork c)) as Hlc.
      { rewrite Ei in Ec. apply lookup_insert_Some in Ec as [[_ <-]|[_ Ec]]; [done|by apply (so_works _ Hsel t)]. }
      rewrite (uint_gt_spec 8) in Hless by done. unfold work. destruct (Z.ltb_spec (uval (nChainWork c)) (uval (nChainWork b1))); [discriminate Hless|lia].
  - exists b1. by rewrite Ei, lookup_insert_eq.
Qed.

Lemma link_queue_step fuel p queue x b before :
  s_index x !! p = Some b →
  (match pprev b with Some q => ∃ c, s_index x !! q = Some c ∧ nChainTx c = before | None => before = 0 end) →
  link_queue addr (S fuel) (p :: queue) x =
    link_queue addr fuel (queue ++ (snd <$> filter (λ e, e.1 = p) (s_unlinked x))) (link_one p b before x).
Proof.
  intros Hp Hb. cbn [link_queue]. rewrite (deref_some _ p b Hp). cbn [mbind outcome_bind].
  assert ((match pprev b with Some q => c ← deref (s_index x) q; Ok (nChainTx c) | None => Ok 0 end) = Ok (E:=unit) before) as ->.
  { destruct (pprev b) as [q|]; [|by subst]. destruct Hb as (c & Hc & <-). by rewrite (deref_some _ q c Hc). }
  cbn [mbind outcome_bind]. unfold link_one.
  set (x1 := set_sequence _ (set_index _ x)). destruct (offer_fields p x1) as (_ & _ & _ & F & _). by rewrite F.
Qed.

Lemma filter_split_length (p : Z) (l : list (Z * Z)) :
  (length (filter (λ e, e.1 = p) l) + length (filter (λ e, e.1 ≠ p) l) = length l)%nat.
Proof.
  induction l as [|e l IH]; [done|]. rewrite !filter_cons. destruct (decide (e.1 = p)), (decide (e.1 ≠ p)); cbn [length]; (congruence || lia).
Qed.

Lemma IsValid_status n b b' : nStatus b' = nStatus b → IsValid n b' = IsValid n b.
Proof. intros H. unfold IsValid. by rewrite H. Qed.

Lemma link_queue_ok fuel queue x :
  link_ok x → txs_fit (s_index x) → Forall (ready x) queue → none_lost queue x → (length queue + length (s_unlinked x) ≤ fuel)%nat →
  ∃ x', link_queue addr fuel queue x = Ok x' ∧ link_ok x' ∧ links_more x x' ∧ none_lost [] x' ∧
    Forall (λ p, ∃ b, s_index x' !! p = Some b ∧ nChainTx b ≠ 0) queue ∧
    (∀ p b b', s_index x !! p = Some b → s_index x' !! p = Some b' → nChainTx b = 0 → nChainTx b' ≠ 0 → offered x' p).
Proof.
  revert queue x. induction fuel as [|fuel IH]; intros queue x Hok Hfit Hr Hlost Hm.
  { destruct queue as [|p queue]; [|cbn in Hm; lia]. exists x. split_and!; [done|done|apply links_more_refl|done|constructor|].
    intros p b b' Hp Hp' ? ?. congruence. }
  destruct queue as [|p queue].
  { exists x. split_and!; [done|done|apply links_more_refl|done|constructor|]. intros p b b' Hp Hp' ? ?. congruence. }
  apply list.Forall_cons in Hr as [(b & Hb & Hn & Hq) Hr].
  assert (∃ before, (match pprev b with Some q => ∃ c, s_index x !! q = Some c ∧ nChainTx c = before ∧ before ≠ 0 | None => before = 0 end)) as [before Hbefore].
  { destruct (pprev b) as [q|] eqn:Eq; [|by exists 0]. destruct (wf_pprev _ (so_wf _ (lo_sel _ Hok)) p b q Hb Eq) as (c & Hc & _).
    exists (nChainTx c), c. split_and!; [done|done|by apply (Hq q)]. }
  rewrite (link_queue_step fuel p queue x b before Hb); [|destruct (pprev b); [by destruct Hbefore as (c & ? & ? & _); exists c|done]].
  destruct (link_one_ok p b before x Hok Hfit Hb Hn Hbefore) as (Hok1 & Hmore1 & Hoff1 & Hlinked1 & Hother1 & Eu1). set (x1 := link_one p b before x) in *.
  set (range := snd <$> filter (λ e, e.1 = p) (s_unlinked x)).
  assert (∀ r, r ∈ range ↔ (p, r) ∈ s_unlinked x) as Hrange.
  { intros r. unfold range. rewrite list_elem_of_fmap. split.
    - intros ([q r'] & -> & [Hq' Hin]%list_elem_of_filter). cbn in Hq'. by subst q.
    - intros Hin. exists (p, r). split; [done|]. by apply list_elem_of_filter. }
  destruct (IH (queue ++ range) x1) as (x' & E & Hok' & Hmore & Hlost' & Hall & Hnew).
  - done.
  - intros r. rewrite (path_txs_links _ _ r (lm_links _ _ Hmore1)). apply Hfit.
  - apply Forall_app. split; [eapply list.Forall_impl; [exact Hr|]; intros r; by apply ready_more|].
    apply list.Forall_forall. intros r Hin%Hrange. destruct (lo_waiting _ Hok p r Hin) as (d & Hd & Hpd & Hnd & _).
    destruct (lm_entries _ _ Hmore1 r d Hd) as (d' & Hd' & [(Ep & _ & _ & Et)%bare_eq _]%relinked_bare & _).
    exists d'. rewrite Ep, Et. split_and!; [done..|]. intros q c Hqc Hc. destruct Hlinked1 as (b1 & Hb1 & ?). congruence.
  - intros r d1 Hd1 Hn1 Hz1. assert (r ≠ p) as Hrp by (intros ->; destruct Hlinked1 as (b1 & Hb1 & ?); congruence).
    rewrite Hother1 in Hd1 by done. destruct (Hlost r d1 Hd1 Hn1 Hz1) as [Hin|(q & c & Hqr & Hc & Hw)].
    + left. apply elem_of_app. left. by apply elem_of_cons in Hin as [?|?].
    + destruct Hw as [Hin|Hiv].
      * destruct (decide (q = p)) as [->|Hqp]; [left; apply elem_of_app; right; by apply Hrange|]. right.
        destruct (lm_entries _ _ Hmore1 q c Hc) as (c' & Hc' & _). exists q, c'. split_and!; [done|done|]. left. rewrite Eu1.
        apply list_elem_of_filter. by split.
      * right. destruct (lm_entries _ _ Hmore1 q c Hc) as (c' & Hc' & (_ & Hst & _)%relinked_bare & _). exists q, c'. split_and!; [done|done|].
        right. by rewrite (IsValid_status _ c c' Hst).
  - rewrite length_app, Eu1. unfold range. rewrite length_fmap. pose proof (filter_split_length p (s_unlinked x)). cbn [length] in Hm. lia.
  - exists x'. split_and!; [done|done|by eapply links_more_trans|done| |].
    + apply Forall_app in Hall as [Hall _]. constructor; [|done]. destruct Hlinked1 as (b1 & Hb1 & Hnz).
      destruct (lm_entries _ _ Hmore p b1 Hb1) as (b2 & Hb2 & _ & Hnz2). exists b2. split; [done|by apply Hnz2].
    + intros r d d' Hd Hd' Hz Hnz. destruct (decide (r = p)) as [->|Hrp]; [by eapply offered_more|].
      apply (Hnew r d d'); [by rewrite Hother1|done..].
Qed.
End Loop.

(** ** A block's transactions arrive *)

(** The entry once its transactions are there. *)
Definition received (vtx : list CTransaction) (file pos : Z) (b b' : CBlockIndex) : Prop :=
  core b' = core b ∧ have_data b' = true ∧ IsValid BLOCK_VALID_TRANSACTIONS b' = Ok true ∧ ∃ s, b' = set_nStatus s (set_nChainTx 0 (set_received
    (if block_IsProofOfStake vtx then Z.lor (nFlags b) BLOCK_PROOF_OF_STAKE else nFlags b) (Z.of_nat (length vtx)) (DiskFields file pos 0) b)).

Lemma raise_valid n b : n = BLOCK_VALID_TREE ∨ n = BLOCK_VALID_TRANSACTIONS ∨ n = BLOCK_VALID_SCRIPTS → failed b = false → ∃ r s, RaiseValidity n b = Ok (r, set_nStatus s b) ∧
  IsValid n (set_nStatus s b) = Ok true ∧ flag s BLOCK_HAVE_DATA = flag (nStatus b) BLOCK_HAVE_DATA ∧ flag s BLOCK_FAILED_MASK = false ∧
  Z.land (nStatus b) BLOCK_VALID_MASK ≤ Z.land s BLOCK_VALID_MASK.
Proof.
  intros Hn Hf. unfold failed in Hf. unfold RaiseValidity, IsValid. rewrite Hf. cbn [nStatus set_nStatus].
  assert (flag n (Z.lnot BLOCK_VALID_MASK) = false) as -> by (by destruct Hn as [->|[->| ->]]).
  destruct (Z.ltb_spec (Z.land (nStatus b) BLOCK_VALID_MASK) n) as [Hlt|Hge].
  - exists true, (Z.lor (Z.land (nStatus b) (Z.lnot BLOCK_VALID_MASK)) n).
    assert (∀ f, Z.land f BLOCK_VALID_MASK = 0 → flag (Z.lor (Z.land (nStatus b) (Z.lnot BLOCK_VALID_MASK)) n) f = flag (nStatus b) f || flag n f) as Hflag.
    { intros f Hm. rewrite flag_lor. f_equal. unfold flag. do 2 f_equal. rewrite <- Z.land_assoc. f_equal.
      apply Z.bits_inj'. intros i Hi. rewrite Z.land_spec, Z.lnot_spec by done.
      destruct (Z.testbit f i) eqn:Ef; [|by rewrite andb_false_r].
      assert (Z.testbit BLOCK_VALID_MASK i = false) as ->; [|done].
      pose proof (f_equal (λ z, Z.testbit z i) Hm) as Hb. cbn beta in Hb. rewrite Z.land_spec, Ef, Z.bits_0 in Hb. exact Hb. }
    assert (Z.land (Z.lor (Z.land (nStatus b) (Z.lnot BLOCK_VALID_MASK)) n) BLOCK_VALID_MASK = n) as Hmask.
    { rewrite Z.land_lor_distr_l, <- Z.land_assoc, (Z.land_comm (Z.lnot _)), Z.land_lnot_diag, Z.land_0_r, Z.lor_0_l.
      by destruct Hn as [->|[->| ->]]. }
    assert (flag n BLOCK_HAVE_DATA = false ∧ flag n BLOCK_FAILED_MASK = false) as [H1 H2]
      by (by destruct Hn as [->|[->| ->]]).
    rewrite !Hflag, Hmask, Hf, H1, H2 by done. split_and!; [done|by rewrite Z.leb_refl|by rewrite orb_false_r|done|lia].
  - exists false, (nStatus b). rewrite (proj2 (Z.leb_le _ _)), Hf by done. split_and!; try done. by destruct b.
Qed.

Section Receive.
Context (addr : Z → Z) (vtx : list CTransaction) (p file pos : Z) (x : selection) (b : CBlockIndex).
Context (Hok : link_ok x) (Hlost : none_lost [] x) (Hb : s_index x !! p = Some b) (Hn0 : nTx b = 0) (Hc0 : nChainTx b = 0).
Context (Hvalid : IsValid BLOCK_VALID_TREE b = Ok true) (Hvtx : vtx ≠ []) (Hlen : Z.of_nat (length vtx) < 2 ^ 32).

Lemma not_failed : failed b = false.
Proof. unfold IsValid in Hvalid. change (flag BLOCK_VALID_TREE (Z.lnot BLOCK_VALID_MASK)) with false in Hvalid. unfold failed. by destruct (flag _ _). Qed.

(** The first writes. *)
Lemma receive_entry :
  ∃ b1, received vtx file pos b b1 ∧ nSequenceId b1 = nSequenceId b ∧ nChainTx b1 = 0 ∧ IsValid BLOCK_VALID_TREE b1 = Ok true ∧
  ReceivedBlockTransactions addr vtx p file pos x =
    (let x := set_index (<[p := b1]> (s_index x)) x in
     parent ← match pprev b with Some q => c ← deref (s_index x) q; Ok (Some (q, c)) | None => Ok None end;
     match parent with
     | Some (q, c) =>
         if nChainTx c =? 0 then
           valid ← IsValid BLOCK_VALID_TREE c;
           Ok (if valid : bool then set_unlinked (s_unlinked x ++ [(q, p)]) x else x)
         else link_queue addr (S (length (s_unlinked x))) [p] x
     | None => link_queue addr (S (length (s_unlinked x))) [p] x
     end).
Proof.
  unfold ReceivedBlockTransactions. rewrite (deref_some _ p b Hb). cbn [mbind outcome_bind].
  rewrite (u32_id (Z.of_nat (length vtx))) by (unfold is_u; lia).
  set (f := if block_IsProofOfStake vtx then Z.lor (nFlags b) BLOCK_PROOF_OF_STAKE else nFlags b).
  set (b0 := set_nStatus (Z.lor (nStatus (set_received f (Z.of_nat (length vtx)) (DiskFields file pos 0) b)) BLOCK_HAVE_DATA)
               (set_nChainTx 0 (set_received f (Z.of_nat (length vtx)) (DiskFields file pos 0) b))).
  assert (failed b0 = false) as Hf0.
  { unfold failed. cbn [b0 nStatus set_nStatus set_received set_nChainTx]. rewrite flag_lor. pose proof not_failed as Hnf. unfold failed in Hnf. by rewrite Hnf. }
  destruct (raise_valid BLOCK_VALID_TRANSACTIONS b0) as (r & s & -> & Hiv & Hd & Hfl & Hle); [by right; left|done|]. cbn [mbind outcome_bind].
  exists (set_nStatus s b0). split_and!; try done.
  - split_and!; [by destruct b; cbn in *; subst| |done|by exists s].
    unfold have_data. cbn [nStatus set_nStatus]. rewrite Hd. cbn [b0 nStatus set_nStatus]. rewrite flag_lor. apply orb_true_r.
  - revert Hiv. unfold IsValid. change (flag BLOCK_VALID_TREE (Z.lnot BLOCK_VALID_MASK)) with false. change (flag BLOCK_VALID_TRANSACTIONS (Z.lnot BLOCK_VALID_MASK)) with false.
    cbn [nStatus set_nStatus]. rewrite Hfl. intros [= H]. f_equal. apply Z.leb_le in H. apply Z.leb_le. unfold BLOCK_VALID_TREE, BLOCK_VALID_TRANSACTIONS in *. lia.
Qed.

(** The index with the entry as it was received. *)
Lemma received_index b1 :
  received vtx file pos b b1 → nChainTx b1 = 0 → nSequenceId b1 = nSequenceId b → IsValid BLOCK_VALID_TREE b1 = Ok true →
  let x1 := set_index (<[p := b1]> (s_index x)) x in
  link_ok x1 ∧ same_shape (s_index x) (s_index x1) ∧ none_lost [p] x1.
Proof.
  intros (Hcore & Hdata & Hv & st & Hb1) Hc1 Hs1 Hv1 x1. assert (nTx b1 = Z.of_nat (length vtx)) as Hn by (by subst b1). destruct Hok as [Hsel Htl Hcn Hwt]. pose proof (so_wf _ Hsel) as Hwf.
  assert (same_shape (s_index x) (s_index x1)) as Hsh by (by eapply shape_insert).
  assert (pprev b1 = pprev b ∧ nHeight b1 = nHeight b) as [Ep Eh] by (clear -Hcore; destruct b, b1; by injection Hcore).
  assert (0 < Z.of_nat (length vtx)) as Hpos0 by (destruct vtx; [done|cbn; lia]).
  assert (tx_linked (s_index x1)) as Htl1 by (by eapply tx_linked_shape).
  assert (index_wf (s_index x1)) as Hwf1 by (by rewrite <- Hsh).
  assert (∀ r d, s_index x !! r = Some d → nChainTx d ≠ 0 → path_txs (s_index x1) r = path_txs (s_index x) r) as Hpath.
  { intros r d. remember (Z.to_nat (nHeight d)) as n eqn:En. revert r d En. induction n as [n IH] using lt_wf_ind. intros r d -> Hr Hd0.
    assert (r ≠ p) as Hrp by congruence. assert (s_index x1 !! r = Some d) as Hr1 by (cbn; by rewrite lookup_insert_ne).
    rewrite (path_txs_step _ r d Hwf Hr), (path_txs_step _ r d Hwf1 Hr1). f_equal. destruct (pprev d) as [q|] eqn:Eq; [|done].
    destruct (wf_pprev _ Hwf r d q Hr Eq) as (c & Hc & Hhc). pose proof (wf_height _ Hwf q c Hc).
    eapply (IH (Z.to_nat (nHeight c))); [lia|done|done|]. by apply (Htl r d q c). }
  split_and!; [split|done|].
  - by apply sel_ok_index.
  - done.
  - intros r d. cbn [x1 s_index set_index]. rewrite lookup_insert_Some. intros [[<- <-]|[Hrp Hr]]; [split; [lia|done]|].
    split; [by apply (Hcn r d)|]. intros Hd0. destruct (Hcn r d Hr) as [_ Hcr]. destruct (Hcr Hd0) as [Hnz ->]. split; [done|]. symmetry.
    by apply (Hpath r d).
  - intros q r Hin. destruct (Hwt q r Hin) as (d & Hr & Hq & Hnd & Hz). assert (r ≠ p) as Hrp by (intros ->; simplify_eq; lia).
    exists d. cbn [x1 s_index set_index]. rewrite lookup_insert_ne by done. split_and!; [done..|]. intros c. rewrite lookup_insert_Some.
    intros [[<- <-]|[_ Hc]]; [done|by apply Hz].
  - intros r d. cbn [x1 s_index set_index]. rewrite lookup_insert_Some. intros [[<- <-]|[Hrp Hr]] Hnd Hzd; [left; by apply list_elem_of_singleton|].
    destruct (Hlost r d Hr Hnd Hzd) as [Hin|(q & c & Hq & Hc & Hw)]; [apply elem_of_nil in Hin; destruct Hin|]. right.
    destruct (decide (q = p)) as [->|Hqp].
    + exists p, b1. rewrite lookup_insert_eq. split_and!; [done|done|]. destruct Hw as [?|Hw]; [by left|]. by simplify_eq.
    + exists q, c. rewrite lookup_insert_ne by done. by split_and!.
Qed.

(** What holds afterwards. *)
Record linked_in (x' : selection) : Prop := {
  li_ok : link_ok x';
  li_none_lost : none_lost [] x';
  li_entry : ∃ b1 b', received vtx file pos b b1 ∧ relinked b1 b' ∧ s_index x' !! p = Some b' ∧ failed b' = false;
  li_offered q d d' : s_index x !! q = Some d → s_index x' !! q = Some d' → nChainTx d = 0 → nChainTx d' ≠ 0 → offered x' q;
  li_others q d : q ≠ p → s_index x !! q = Some d → ∃ d', s_index x' !! q = Some d' ∧ relinked d d';
  li_known q d' : s_index x' !! q = Some d' → is_Some (s_index x !! q);
  li_growing : growing (s_index x) → growing (s_index x');
  li_active : s_active x' = s_active x
}.

Lemma growing_more x1 x2 : links_more x1 x2 → growing (s_index x1) → growing (s_index x2).
Proof.
  intros Hm Hg r d q c Hr Hq Hc. destruct (links_lookup _ _ r d (symmetry (lm_links _ _ Hm)) Hr) as (d0 & Hd0 & (Ep & _)%bare_eq).
  destruct (links_lookup _ _ q c (symmetry (lm_links _ _ Hm)) Hc) as (c0 & Hcc & _).
  destruct (lm_entries _ _ Hm r d0 Hd0) as (d1 & Hd1 & (_ & _ & W1 & _)%relinked_bare & _), (lm_entries _ _ Hm q c0 Hcc) as (c1 & Hc1 & (_ & _ & W2 & _)%relinked_bare & _).
  simplify_eq. unfold growing, work in *. rewrite W1, W2. apply (Hg r d0 q c0); [done|congruence|done].
Qed.

Lemma receive_links :
  txs_fit (<[p := set_received (nFlags b) (Z.of_nat (length vtx)) (bi_disk b) b]> (s_index x)) →
  ∃ x', ReceivedBlockTransactions addr vtx p file pos x = Ok x' ∧ linked_in x'.
Proof.
  intros Hfit. destruct receive_entry as (b1 & Hrec & Hs1 & Hc1 & Hv1 & ->). pose proof Hrec as (Hcore & Hdata & Hv & st & Hb1).
  assert (nTx b1 = Z.of_nat (length vtx)) as Hn by (by subst b1).
  destruct (received_index b1 Hrec Hc1 Hs1 Hv1) as (Hok1 & Hsh & Hlost1). cbv zeta in *. set (x1 := set_index (<[p := b1]> (s_index x)) x) in *.
  assert (s_index x1 !! p = Some b1) as Hp1 by apply lookup_insert_eq. pose proof (so_wf _ (lo_sel _ Hok)) as Hwf.
  assert (pprev b1 = pprev b ∧ nHeight b1 = nHeight b ∧ pskip b1 = pskip b) as (Ep & Eh & Ek) by (clear -Hcore; destruct b, b1; by injection Hcore).
  assert (failed b1 = false) as Hf1.
  { revert Hv1. unfold IsValid. change (flag BLOCK_VALID_TREE (Z.lnot BLOCK_VALID_MASK)) with false. unfold failed. by destruct (flag _ _). }
  assert (0 < nTx b1) as Hn1 by (rewrite Hn; destruct vtx; [done|cbn; lia]).
  assert (txs_fit (s_index x1)) as Hfit1.
  { intros r. specialize (Hfit r). erewrite path_txs_links in Hfit; [exact Hfit|].
    replace (<[p:=set_received (nFlags b) (Z.of_nat (length vtx)) (bi_disk b) b]> (s_index x)) with
      (<[p:=set_received (nFlags b) (Z.of_nat (length vtx)) (bi_disk b) b]> (s_index x1)) by (cbn; by rewrite insert_insert_eq).
    apply (links_insert _ p b1); [done|]. unfold bare. cbn [pprev pskip nHeight nTx set_received]. by rewrite Ep, Eh, Ek, Hn. }
  assert (∀ q d, q ≠ p → s_index x !! q = Some d → s_index x1 !! q = Some d) as Hother by (intros q d Hq Hqd; cbn; by rewrite lookup_insert_ne).
  assert (∀ q d, s_index x1 !! q = Some d → is_Some (s_index x !! q)) as Hback.
  { intros q d. cbn. rewrite lookup_insert_Some. intros [[<- _]|[_ ?]]; by eexists. }
  assert (growing (s_index x) → growing (s_index x1)) as Hgrow by (intros; by eapply growing_shape).
  assert (ready x1 p → ∃ x', link_queue addr (S (length (s_unlinked x1))) [p] x1 = Ok x' ∧ linked_in x') as Hqueue.
  { intros Hready. destruct (link_queue_ok addr (S (length (s_unlinked x1))) [p] x1) as (x' & -> & Hok' & Hmore & Hlost' & _ & Hnew);
      [done|done|by constructor|done|cbn; lia|]. exists x'. split; [done|]. split.
    - done.
    - done.
    - destruct (lm_entries _ _ Hmore p b1 Hp1) as (b2 & Hb2 & (n & k & ->) & _). exists b1, (set_nSequenceId n (set_nChainTx k b1)). split_and!; [done|by eexists _, _|done|done].
    - intros q d d' Hq Hq' Hz Hnz. destruct (decide (q = p)) as [->|Hqp]; [by apply (Hnew p b1 d')|]. by apply (Hnew q d d'); [apply Hother|..].
    - intros q d Hq Hqd. destruct (lm_entries _ _ Hmore q d (Hother q d Hq Hqd)) as (d' & ? & ? & _). by exists d'.
    - intros q d' Hq'. destruct (links_lookup _ _ q d' (symmetry (lm_links _ _ Hmore)) Hq') as (d & Hd & _). by apply (Hback q d).
    - intros Hg. eapply growing_more; [done|by apply Hgrow].
    - exact (lm_active _ _ Hmore). }
  destruct (pprev b) as [q|] eqn:Eq.
  2: { apply Hqueue. exists b1. split_and!; [done|done|]. intros q c Hq. rewrite Ep in Hq. discriminate Hq. }
  destruct (wf_pprev _ Hwf p b q Hb Eq) as (c & Hc & Hhc). assert (q ≠ p) as Hqp by (intros ->; simplify_eq; lia).
  rewrite (deref_some _ q c (Hother q c Hqp Hc)). cbn [mbind outcome_bind]. destruct (Z.eqb_spec (nChainTx c) 0) as [Hz|Hnz].
  2: { apply Hqueue. exists b1. split_and!; [done|done|]. intros q' c' Hq' Hc'. rewrite Ep in Hq'. assert (q' = q) as -> by congruence.
       rewrite (Hother q c Hqp Hc) in Hc'. congruence. }
  assert (∃ v, IsValid BLOCK_VALID_TREE c = Ok v) as [v Ev].
  { unfold IsValid. change (flag BLOCK_VALID_TREE (Z.lnot BLOCK_VALID_MASK)) with false. destruct (flag _ _); by eexists. }
  rewrite Ev. cbn [mbind outcome_bind]. eexists. split; [done|]. destruct Hok1 as [Hsel1 Htl1 Hcn1 Hwt1].
  assert (∀ x', s_index x' = s_index x1 → s_active x' = s_active x1 → s_candidates x' = s_candidates x1 → s_best_invalid x' = s_best_invalid x1 →
    waiting_ok x' → none_lost [] x' → linked_in x') as Hdone.
  { intros x' E1 E2 E3 E4 Hw' Hl'. split; [split; [|by rewrite E1|by rewrite E1|done]|done| | | | |by rewrite E1|by rewrite E2].
    - destruct Hsel1 as [A1 A2 A3 A4 A5 A6]. split; unfold active_tip; rewrite ?E1, ?E2, ?E3, ?E4; done.
    - exists b1, b1. rewrite E1. split_and!; [done|apply relinked_refl|done|done].
    - intros r d d' Hr Hr' Hzr Hnzr. rewrite E1 in Hr'. destruct (decide (r = p)) as [->|Hrp]; [congruence|]. rewrite (Hother r d Hrp Hr) in Hr'. congruence.
    - intros r d Hr Hrd. exists d. rewrite E1. split; [by apply Hother|apply relinked_refl].
    - intros r d'. rewrite E1. apply Hback. }
  destruct v; apply Hdone; try done.
  - intros q' r Hin. cbn in Hin. apply elem_of_app in Hin as [Hin|[= -> ->]%list_elem_of_singleton]; [by apply Hwt1|].
    exists b1. rewrite Ep. split_and!; [done..|]. intros c'. cbn [s_index set_unlinked]. rewrite (Hother q c Hqp Hc). congruence.
  - intros r d Hr Hnd Hzd. destruct (Hlost1 r d Hr Hnd Hzd) as [->%list_elem_of_singleton|(q' & c' & ? & ? & Hw)]; right.
    + exists q, c. assert (d = b1) as -> by (cbn [s_index set_unlinked] in Hr; congruence). rewrite Ep. cbn [s_index s_unlinked set_unlinked].
      split_and!; [done|by apply Hother|]. left. apply elem_of_app. right. by apply list_elem_of_singleton.
    + exists q', c'. split_and!; [done..|]. destruct Hw as [Hw|Hw]; [left; apply elem_of_app; by left|by right].
  - intros r d Hr Hnd Hzd. destruct (Hlost1 r d Hr Hnd Hzd) as [->%list_elem_of_singleton|(q' & c' & ? & ? & Hw)]; right; [|by exists q', c'].
    exists q, c. assert (d = b1) as -> by congruence. rewrite Ep. split_and!; [done|by apply Hother|]. right. by rewrite Ev.
Qed.
End Receive.

(** A received block is linked exactly when all of its predecessors are received. *)
Lemma linked_iff x p b :
  link_ok x → none_lost [] x → s_index x !! p = Some b →
  (∀ q c, ancestor (s_index x) p (nHeight c) = Some q → s_index x !! q = Some c → IsValid BLOCK_VALID_TREE c = Ok true) →
  nChainTx b ≠ 0 ↔ ∀ q c, ancestor (s_index x) p (nHeight c) = Some q → s_index x !! q = Some c → nTx c ≠ 0.
Proof.
  intros [Hsel Htl Hcn Hwt] Hlost. pose proof (so_wf _ Hsel) as Hwf. intros Hp Hv. split.
  - intros Hnz q c Ha Hq. apply (Hcn q c Hq). by eapply (tx_linked_ancestor _ p b q c).
  - remember (Z.to_nat (nHeight b)) as n eqn:En. revert p b En Hp Hv. induction n as [n IH] using lt_wf_ind. intros p b -> Hp Hv Hall Hz.
    assert (nTx b ≠ 0) as Hnb.
    { apply (Hall p b); [|done]. destruct (ancestor_ok _ Hwf p b (nHeight b) Hp) as (q & c & Ha & _); [pose proof (wf_height _ Hwf p b Hp); lia|].
      destruct (ancestor_cases _ Hwf p b _ q Hp Ha) as [[_ ->]|(r & Hr & Har)]; [done|].
      destruct (wf_pprev _ Hwf p b r Hp Hr) as (d & Hd & Hh). destruct (ancestor_some _ Hwf r d _ q Hd Har). lia. }
    destruct (Hlost p b Hp Hnb Hz) as [Hin|(q & c & Hq & Hc & Hw)]; [apply elem_of_nil in Hin; destruct Hin|].
    destruct (wf_pprev _ Hwf p b q Hp Hq) as (c' & Hc' & Hh). simplify_eq. pose proof (wf_height _ Hwf q c Hc).
    assert (∀ r h, ancestor (s_index x) q h = Some r → ancestor (s_index x) p h = Some r) as Hup by (intros r h; by apply (ancestor_step _ Hwf p b q h r)).
    assert (ancestor (s_index x) q (nHeight c) = Some q) as Hqq.
    { destruct (ancestor_ok _ Hwf q c (nHeight c) Hc) as (r & d & Ha & _); [lia|]. destruct (ancestor_cases _ Hwf q c _ r Hc Ha) as [[_ ->]|(t & Ht & Hat)]; [done|].
      destruct (wf_pprev _ Hwf q c t Hc Ht) as (e & He & ?). destruct (ancestor_some _ Hwf t e _ r He Hat). lia. }
    destruct Hw as [Hw|Hw].
    + destruct (Hwt q p Hw) as (b' & _ & _ & _ & Hzc). pose proof (Hzc c Hc) as Hzc'. revert Hzc'.
      eapply (IH (Z.to_nat (nHeight c))); [lia|done|done| |]; intros r d Ha Hr; [eapply Hv|eapply Hall]; eauto.
    + apply Hw. eapply Hv; [by apply Hup|done].
Qed.

(** ** Deciding the invariant of a concrete state *)

Definition linked_entry (m : block_index) (b : CBlockIndex) : bool :=
  match pprev b with
  | Some q => match m !! q with Some c => (nChainTx b =? 0) || negb (nChainTx c =? 0) | None => true end
  | None => true
  end.
Definition counted_entry (m : block_index) (p : Z) (b : CBlockIndex) : bool :=
  (0 <=? nTx b) && ((nChainTx b =? 0) || negb (nTx b =? 0) && (nChainTx b =? path_txs m p)).
Definition waiting_entry (m : block_index) (e : Z * Z) : bool :=
  match m !! e.2 with
  | Some b => bool_decide (pprev b = Some e.1) && (0 <? nTx b) && match m !! e.1 with Some c => nChainTx c =? 0 | None => true end
  | None => false
  end.
Definition kept_entry (x : selection) (p : Z) (b : CBlockIndex) : bool :=
  (nTx b =? 0) || negb (nChainTx b =? 0) ||
  match pprev b with Some q => bool_decide (is_Some (s_index x !! q)) && bool_decide ((q, p) ∈ s_unlinked x) | None => false end.
Definition link_check (x : selection) : bool :=
  bool_decide (map_Forall (λ p b, linked_entry (s_index x) b && counted_entry (s_index x) p b && kept_entry x p b = true) (s_index x)) &&
  forallb (waiting_entry (s_index x)) (s_unlinked x).

Lemma link_check_ok x : link_check x = true → sel_ok x → link_ok x ∧ none_lost [] x.
Proof.
  unfold link_check. intros [H1%bool_decide_eq_true H2]%andb_true_iff Hsel.
  assert (∀ p b, s_index x !! p = Some b → linked_entry (s_index x) b = true ∧ counted_entry (s_index x) p b = true ∧ kept_entry x p b = true) as Hall.
  { intros p b Hp. pose proof (H1 p b Hp) as H. cbn beta in H. apply andb_true_iff in H as [[? ?]%andb_true_iff ?]. done. }
  split; [split; [done| | |]|].
  - intros p b q c Hp Hq Hc Hnz. destruct (Hall p b Hp) as (H & _ & _). unfold linked_entry in H. rewrite Hq, Hc in H. lia.
  - intros p b Hp. destruct (Hall p b Hp) as (_ & H & _). unfold counted_entry in H. lia.
  - intros q p Hin. rewrite forallb_forall in H2. apply list_elem_of_In in Hin. specialize (H2 _ Hin). unfold waiting_entry in H2. cbn [fst snd] in H2.
    destruct (s_index x !! p) as [b|] eqn:Eb; [|discriminate H2]. exists b. apply andb_true_iff in H2 as [[Hq%bool_decide_eq_true Hn]%andb_true_iff Hz].
    split_and!; [done|done|lia|]. intros c Hc. rewrite Hc in Hz. lia.
  - intros p b Hp Hn Hz. destruct (Hall p b Hp) as (_ & _ & H). unfold kept_entry in H. right.
    rewrite (proj2 (Z.eqb_neq _ _) Hn), (proj2 (Z.eqb_eq _ _) Hz) in H. cbn [orb negb] in H. destruct (pprev b) as [q|]; [|discriminate H].
    apply andb_true_iff in H as [[c Hc]%bool_decide_eq_true Hin%bool_decide_eq_true]. exists q, c. split_and!; [done|done|by left].
Qed.

Lemma txs_fit_check m : bool_decide (map_Forall (λ p _, path_txs m p < 2 ^ 32) m) = true → txs_fit m.
Proof.
  intros H%bool_decide_eq_true p. destruct (m !! p) as [b|] eqn:E; [by apply (H p b)|]. unfold path_txs. by rewrite E.
Qed.

(** Block 1 is known by its header; block 2, above it, has its transactions and waits. *)
Module LinkDemo.
Definition node (prev skip : option Z) (h work chaintx ntx status : Z) : CBlockIndex :=
  BlockIndex prev skip h [] (work :: replicate 7 0) chaintx status 0 0 3 0 0 0 0 None ntx (DiskFields 0 0 0) stake_null.
Definition header1 : CBlockIndex := node (Some 0) (Some 0) 1 2 0 0 BLOCK_VALID_TREE.
Definition index : block_index :=
  list_to_map [(0, node None None 0 1 1 1 SelectDemo.good); (1, header1); (2, node (Some 1) (Some 0) 2 3 0 4 (Z.lor BLOCK_VALID_TRANSACTIONS BLOCK_HAVE_DATA))].
Definition start : selection := Selection index [Some 0] {[ 0 ]} [(1, 2)] None 3.
Definition txs : list CTransaction := [genesis_tx; genesis_tx].
Lemma start_sel : sel_ok start.
Proof.
  apply select_check_ok; [by vm_compute|]. change (active_tip start) with (Some 0).
  exists (node None None 0 1 1 1 SelectDemo.good). split_and!; [done..|]. cbn [nHeight node]. intros k Hk. assert (k = 0) as -> by lia. by vm_compute.
Qed.
End LinkDemo.

(** ** Properties *)

(** C33: when the transactions of a block arrive that is known only by its header,
    [ReceivedBlockTransactions] always ends, also when blocks were waiting for it:
    the block has its data, count and place on disk; every linked block counts the
    transactions up to it, nothing that is linked stops being linked, no waiting block
    is lost, and each newly linked block is a candidate unless the tip has at least
    its work.  Afterwards a block whose predecessors are not invalid is linked exactly
    when it and all of its predecessors are received. *)
Theorem ReceivedBlockTransactions_links (addr : Z → Z) (vtx : list CTransaction) (p file pos : Z) (x : selection) (b : CBlockIndex) :
  link_ok x → none_lost [] x → s_index x !! p = Some b → nTx b = 0 → nChainTx b = 0 → IsValid BLOCK_VALID_TREE b = Ok true →
  vtx ≠ [] → Z.of_nat (length vtx) < 2 ^ 32 →
  txs_fit (<[p := set_received (nFlags b) (Z.of_nat (length vtx)) (bi_disk b) b]> (s_index x)) →
  ∃ x', ReceivedBlockTransactions addr vtx p file pos x = Ok x' ∧ linked_in vtx p file pos x b x' ∧
    ∀ q c, s_index x' !! q = Some c →
      (∀ r d, ancestor (s_index x') q (nHeight d) = Some r → s_index x' !! r = Some d → IsValid BLOCK_VALID_TREE d = Ok true) →
      nChainTx c ≠ 0 ↔ ∀ r d, ancestor (s_index x') q (nHeight d) = Some r → s_index x' !! r = Some d → nTx d ≠ 0.
Proof.
  intros Hok Hlost Hb Hn Hc Hv Hvtx Hlen Hfit. destruct (receive_links addr vtx p file pos x b Hok Hlost Hb Hn Hc Hv Hvtx Hlen Hfit) as (x' & E & Hl).
  exists x'. split_and!; [done..|]. intros q c Hq Hpath. apply (linked_iff x' q c); [apply Hl|apply Hl|done|done].
Qed.

Lemma ReceivedBlockTransactions_links_witness :
  ∃ x', ReceivedBlockTransactions (λ p, p) LinkDemo.txs 1 0 8 LinkDemo.start = Ok x' ∧ linked_in LinkDemo.txs 1 0 8 LinkDemo.start LinkDemo.header1 x' ∧
    ∀ q c, s_index x' !! q = Some c →
      (∀ r d, ancestor (s_index x') q (nHeight d) = Some r → s_index x' !! r = Some d → IsValid BLOCK_VALID_TREE d = Ok true) →
      nChainTx c ≠ 0 ↔ ∀ r d, ancestor (s_index x') q (nHeight d) = Some r → s_index x' !! r = Some d → nTx d ≠ 0.
Proof.
  destruct (link_check_ok LinkDemo.start ltac:(by vm_compute) LinkDemo.start_sel) as [Hok Hlost].
  apply (ReceivedBlockTransactions_links (λ p, p) LinkDemo.txs 1 0 8 LinkDemo.start LinkDemo.header1 Hok Hlost);
    [by vm_compute|done|done|done|discriminate|cbn; lia|apply txs_fit_check; by vm_compute].
Defined.
