(* ===== verification/IndexAdd.v ===== *)
(** * Adding a block to the block index (AddToBlockIndex, main.cpp; the checksum of
      the stake modifiers, kernel.cpp)

    A header that passed its checks gets an entry: its links and height, its trust
    and work, its stake modifier and the checksum of the modifiers so far, and the
    best header known.  The theorem: this always succeeds on a well-formed index and
    gives a well-formed index, in which the other entries keep all but the forward
    link of the predecessor. *)
From stdpp Require Import base tactics list gmap numbers option.
From Stdlib Require Import ZArith Lia.
From S2P Require Import Prelude.
From S2P Require Import Serialize.
From S2P Require Import BaseUint.
From S2P Require Import Crypto.
From S2P Require Import Transaction.
From S2P Require Import Chain.
From S2P Require Import Pow.
From S2P Require Import Block.
From S2P Require Import Kernel.
From S2P Require Import ChainSelect.
From S2P Require Import ActivateChain.

(** ** The checksum of the modifiers *)

(** The last 32 bits, those most significant, of the hash of the previous checksum
    and the entry's flags, proof hash and modifier. *)
Definition GetStakeModifierChecksum (hashGenesisBlock : Z) (m : block_index) (pindex : Z) : res Z :=
  b ← deref m pindex;
  previous ← match pprev b with
             | Some q => c ← deref m q; Ok (WRITEDATA 4 (nStakeModifierChecksum (bi_stake c)))
             | None => _ ← assert_that (pindex =? hashGenesisBlock); Ok []
             end;
  let s := bi_stake b in
  let hashChecksum := uint256_of_bytes (Hash256 (previous ++ WRITEDATA 4 (nFlags b) ++ ser_uint256 (hashProofOfStake s) ++ WRITEDATA 8 (nStakeModifier s))) in
  Ok (u32 (Z.shiftr hashChecksum (256 - 32))).

Definition mapStakeModifierCheckpoints : gmap Z Z := {[ 0 := 0xfd11f4e7 ]}.
(** Only logged by [AddToBlockIndex]. *)
Definition CheckStakeModifierCheckpoints (nHeight nStakeModifierChecksum : Z) : bool :=
  if fTestNet then true else
  match mapStakeModifierCheckpoints !! nHeight with
  | Some n => nStakeModifierChecksum =? n
  | None => true
  end.

Definition CheckCoinStakeTimestamp (nTimeBlock nTimeTx : Z) : bool := nTimeBlock =? nTimeTx.

(** ** State *)

(** The globals that grow with the index: [mapBlockIndex] and the other state of the
    choice of a chain, [setStakeSeen], [mapProofOfStake], [pindexBestHeader] and
    [setDirtyBlockIndex]. *)
Record tree := Tree {
  t_sel : selection;
  setStakeSeen : gset (COutPoint * Z);
  mapProofOfStake : gmap Z Z;
  pindexBestHeader : option Z;
  setDirtyBlockIndex : gset Z
}.
Definition t_index (x : tree) : block_index := s_index (t_sel x).

(** ** Writes to an entry *)

Definition set_pnext (n : option Z) (b : CBlockIndex) : CBlockIndex :=
  BlockIndex (pprev b) (pskip b) (nHeight b) (bnChainTrust b) (nChainWork b) (nChainTx b) (nStatus b) (nFlags b)
    (nSequenceId b) (bi_nVersion b) (nTime b) (nBits b) (bi_hashMerkleRoot b) (bi_nNonce b) n (nTx b) (bi_disk b) (bi_stake b).
Definition set_trust (t : list Z) (b : CBlockIndex) : CBlockIndex :=
  BlockIndex (pprev b) (pskip b) (nHeight b) t (nChainWork b) (nChainTx b) (nStatus b) (nFlags b)
    (nSequenceId b) (bi_nVersion b) (nTime b) (nBits b) (bi_hashMerkleRoot b) (bi_nNonce b) (pnext b) (nTx b) (bi_disk b) (bi_stake b).
Definition set_work (w : list Z) (b : CBlockIndex) : CBlockIndex :=
  BlockIndex (pprev b) (pskip b) (nHeight b) (bnChainTrust b) w (nChainTx b) (nStatus b) (nFlags b)
    (nSequenceId b) (bi_nVersion b) (nTime b) (nBits b) (bi_hashMerkleRoot b) (bi_nNonce b) (pnext b) (nTx b) (bi_disk b) (bi_stake b).
Definition set_hashProofOfStake (h : Z) (b : CBlockIndex) : CBlockIndex :=
  let s := bi_stake b in
  with_stake (nFlags b) (StakeFields (nStakeModifier s) (nStakeModifierChecksum s) (prevoutStake s) (nStakeTime s) h (Chain.nMint s) (Chain.nMoneySupply s)) b.
Definition set_checksum (n : Z) (b : CBlockIndex) : CBlockIndex :=
  let s := bi_stake b in
  with_stake (nFlags b) (StakeFields (nStakeModifier s) n (prevoutStake s) (nStakeTime s) (hashProofOfStake s) (Chain.nMint s) (Chain.nMoneySupply s)) b.

(** The entry of [p] is replaced by [f] of it. *)
Definition update (m : block_index) (p : Z) (f : CBlockIndex → CBlockIndex) : res block_index :=
  b ← deref m p; Ok (<[p := f b]> m).

(** The constructor of an entry for a block; [vtx[1].vin[0]] is there in a
    proof-of-stake block. *)
Definition CBlockIndex_of (b : CBlock) : CBlockIndex :=
  let h := header b in
  let '(prevout, time) := if block_IsProofOfStake (vtx b) then (match vtx b with _ :: t :: _ => match vin t with i :: _ => prevout i | [] => COutPoint_null end | _ => COutPoint_null end, h_nTime h)
                          else (COutPoint_null, 0) in
  BlockIndex None None 0 (uint256_of_u64 0) (uint256_of_u64 0) 0 0 (if block_IsProofOfStake (vtx b) then BLOCK_PROOF_OF_STAKE else 0)
    0 (h_nVersion h) (h_nTime h) (h_nBits h) (hashMerkleRoot h) (nNonce h) None 0 (DiskFields 0 0 0) (StakeFields 0 0 prevout time 0 0 0).

(** ** AddToBlockIndex *)

Section Add.
Context (hashGenesisBlock ModifierUpgradeBlock literal_address : Z).

(** The part for a known predecessor, after the links. *)
Definition add_stake (hash prev : Z) (m : block_index) (proofs : gmap Z Z) : res (block_index * gmap Z Z) :=
  m ← update m prev (set_pnext (Some hash));
  parent ← deref m prev;
  e ← deref m hash;
  trust ← no_err (GetBlockTrust (nBits e) (IsProofOfStake e));
  m ← update m hash (set_trust (uint_add (bnChainTrust parent) trust));
  m ← update m hash (λ e, (SetStakeEntropyBit (GetStakeEntropyBit hash) e).2);
  '(m, proofs) ← (if IsProofOfStake e
                  then let h := default 0 (proofs !! hash) in m ← update m hash (set_hashProofOfStake h); Ok (m, <[hash := h]> proofs)
                  else Ok (m, proofs));
  '(_, nStakeModifier, fGenerated) ← ComputeNextStakeModifier ModifierUpgradeBlock m literal_address (Some prev);
  m ← update m hash (SetStakeModifier nStakeModifier fGenerated);
  sum ← GetStakeModifierChecksum hashGenesisBlock m hash;
  m ← update m hash (set_checksum sum);
  Ok (m, proofs).

(** The work up to the entry and its validity. *)
Definition add_work (hash : Z) (m : block_index) : res block_index :=
  e ← deref m hash;
  before ← match pprev e with Some q => c ← deref m q; Ok (nChainWork c) | None => Ok (uint256_of_u64 0) end;
  proof ← no_err (GetBlockProof (nBits e));
  '(_, e) ← RaiseValidity BLOCK_VALID_TREE (set_work (uint_add before proof) e);
  Ok (<[hash := e]> m).

(** The parts that read and write the index, together. *)
Definition add_entry (hash : Z) (b : CBlock) (m : block_index) (proofs : gmap Z Z) : res (block_index * gmap Z Z) :=
  m ← AddToBlockIndex_link m hash (hashPrevBlock (header b)) (CBlockIndex_of b);
  '(m, proofs) ← (if bool_decide (is_Some (m !! hashPrevBlock (header b)))
                  then add_stake hash (hashPrevBlock (header b)) m proofs else Ok (m, proofs));
  m ← add_work hash m; Ok (m, proofs).

Definition better_header (m : block_index) (best : option Z) (hash : Z) : res (option Z) :=
  match best with
  | None => Ok (Some hash)
  | Some t => b ← deref m t; e ← deref m hash; Ok (if uint_lt (nChainWork b) (nChainWork e) then Some hash else best)
  end.

(** [if (pindexNew->nHeight) pindexNew->pprev->pnext = pindexNew] *)
Definition link_forward (hash : Z) (m : block_index) : res block_index :=
  e ← deref m hash;
  if nHeight e =? 0 then Ok m else
  match pprev e with Some q => update m q (set_pnext (Some hash)) | None => AssertFail end.

(** The hash of the block is [hash]. *)
Definition AddToBlockIndex (hash : Z) (b : CBlock) (x : tree) : res tree :=
  match t_index x !! hash with
  | Some _ => Ok x
  | None =>
      let entry := CBlockIndex_of b in
      let seen := if IsProofOfStake entry then {[ (prevoutStake (bi_stake entry), nStakeTime (bi_stake entry)) ]} ∪ setStakeSeen x else setStakeSeen x in
      '(m, proofs) ← add_entry hash b (t_index x) (mapProofOfStake x);
      best ← better_header m (pindexBestHeader x) hash;
      m ← link_forward hash m;
      Ok (Tree (set_index m (t_sel x)) seen proofs best ({[ hash ]} ∪ setDirtyBlockIndex x))
  end.
End Add.

(** ** Steps on an index with a new entry *)

Lemma deref_here m h e : deref (E:=unit) (<[h := e]> m) h = Ok e.
Proof. apply deref_some, lookup_insert_eq. Qed.
Lemma deref_there m h e p c : p ≠ h → m !! p = Some c → deref (E:=unit) (<[h := e]> m) p = Ok c.
Proof. intros Hp Hc. apply deref_some. by rewrite lookup_insert_ne. Qed.
Lemma update_here m h e f : update (<[h := e]> m) h f = Ok (<[h := f e]> m).
Proof. unfold update. rewrite deref_here. cbn [mbind outcome_bind]. by rewrite insert_insert_eq. Qed.

Lemma update_there m h e p c f : p ≠ h → m !! p = Some c → update (<[h := e]> m) p f = Ok (<[h := e]> (<[p := f c]> m)).
Proof. intros Hp Hc. unfold update. rewrite (deref_there m h e p c Hp Hc). cbn [mbind outcome_bind]. by rewrite insert_insert_ne. Qed.

(** Only the stake fields, the trust and the flags but the proof-of-stake one change. *)
Definition dressed (e e' : CBlockIndex) : Prop :=
  core e' = core e ∧ nStatus e' = nStatus e ∧ bi_nVersion e' = bi_nVersion e ∧ nTime e' = nTime e ∧ nBits e' = nBits e ∧
  bi_hashMerkleRoot e' = bi_hashMerkleRoot e ∧ bi_nNonce e' = bi_nNonce e ∧ pnext e' = pnext e ∧ nTx e' = nTx e ∧ bi_disk e' = bi_disk e.

Lemma dressed_refl e : dressed e e.
Proof. by repeat split. Qed.
Lemma dressed_stake f s e e' : dressed e e' → dressed e (with_stake f s e').
Proof. unfold dressed. destruct e, e'. done. Qed.
Lemma dressed_trust t e e' : dressed e e' → dressed e (set_trust t e').
Proof. unfold dressed. destruct e, e'. done. Qed.
Lemma dressed_links e e' : dressed e e' → pprev e' = pprev e ∧ pskip e' = pskip e ∧ nHeight e' = nHeight e ∧ nChainWork e' = nChainWork e.
Proof. intros [H _]. destruct e, e'. cbn in *. injection H. intros. by subst. Qed.

Lemma next_total up a m p c :
  index_wf m → m !! p = Some c → (1 ≤ nHeight c → modifier_started m) →
  ∃ md gen, ComputeNextStakeModifier up m a (Some p) = Ok (true, md, gen) ∧ (nHeight c = 0 → gen = true).
Proof.
  intros Hwf Hp Hst. pose proof (wf_height m Hwf p c Hp). destruct (decide (nHeight c = 0)) as [H0|H0].
  - unfold ComputeNextStakeModifier. rewrite (deref_some m p c Hp). cbn [mbind outcome_bind]. rewrite H0. by eexists _, _.
  - destruct (next_modifier up a m p c Hwf (Hst ltac:(lia)) Hp ltac:(lia)) as (q & d & _ & Hd).
    destruct (_ <=? _); [by eexists _, _|]. destruct Hd as (md & E & _). by eexists _, _.
Qed.

Section Spec.
Context (hashGenesisBlock ModifierUpgradeBlock literal_address : Z).

(** Linking a new block to a known predecessor. *)
Lemma link_eq m hash prev c entry :
  index_wf m → m !! hash = None → m !! prev = Some c →
  AddToBlockIndex_link m hash prev entry =
    Ok (<[hash := set_pskip (ancestor m prev (GetSkipHeight (nHeight c + 1))) (set_link (Some prev) (nHeight c + 1) (set_pskip None (set_link None 0 entry)))]> m).
Proof.
  intros Hwf Hh Hp. assert (hash ≠ prev) as Hne by congruence. unfold AddToBlockIndex_link. rewrite Hh, lookup_insert_ne, Hp, deref_here by done.
  cbn [mbind outcome_bind]. rewrite insert_insert_eq. unfold BuildSkip. rewrite deref_here. cbn [mbind outcome_bind].
  cbn [pprev nHeight set_link set_pskip]. match goal with |- context [<[hash := ?e]> m] => set (e1 := e) end.
  assert (m ⊆ <[hash := e1]> m) as Hm by (by apply insert_subseteq).
  rewrite (GetAncestor_mono m _ _ _ _ Hm (GetAncestor_spec m Hwf prev c _ Hp)). cbn [mbind outcome_bind]. by rewrite insert_insert_eq.
Qed.

(** An index where only a forward link changed. *)
Lemma shape_forward m p c n : m !! p = Some c → same_shape m (<[p := set_pnext n c]> m).
Proof. intros Hc. apply (shape_insert m p c); [done|by destruct c]. Qed.

Lemma add_stake_ok m hash prev c e proofs :
  index_wf (<[hash := e]> m) → modifier_started m → m !! hash = None → m !! prev = Some c → pprev e = Some prev → is_u 32 (nBits e) →
  ∃ e' proofs', add_stake hashGenesisBlock ModifierUpgradeBlock literal_address hash prev (<[hash := e]> m) proofs =
      Ok (<[hash := e']> (<[prev := set_pnext (Some hash) c]> m), proofs') ∧
    dressed e e' ∧ IsProofOfStake e' = IsProofOfStake e ∧ (nHeight c = 0 → GeneratedStakeModifier e' = true) ∧
    proofs' = (if IsProofOfStake e then <[hash := default 0 (proofs !! hash)]> proofs else proofs).
Proof.
  intros Hwf Hst Hh Hp Hpp Hbits. assert (prev ≠ hash) as Hne by congruence. set (M := <[prev := set_pnext (Some hash) c]> m).
  assert (M !! prev = Some (set_pnext (Some hash) c)) as HM by apply lookup_insert_eq.
  assert (nHeight e = nHeight c + 1) as Hhe.
  { destruct (wf_pprev _ Hwf hash e prev) as (d & Hd & ->); [apply lookup_insert_eq|done|]. rewrite lookup_insert_ne in Hd by done. congruence. }
  assert (∀ e', core e' = core e → index_wf (<[hash := e']> M)) as HwfM.
  { intros e' He. subst M. rewrite insert_insert_ne by done. eapply index_wf_shape; [|exact Hwf]. symmetry.
    transitivity (<[hash := e']> m).
    - replace (<[hash := e']> m) with (<[hash := e']> (<[hash := e]> m)) by apply insert_insert_eq. apply (shape_insert _ hash e); [apply lookup_insert_eq|done].
    - apply (shape_forward _ prev c). by rewrite lookup_insert_ne. }
  assert (1 ≤ nHeight c → ∀ e', core e' = core e → modifier_started (<[hash := e']> M)) as HstM.
  { intros H1 e' He q d. rewrite lookup_insert_Some. intros [[<- <-]|[_ Hd]] Hd1.
    - assert (nHeight e' = nHeight e) by (destruct e, e'; by injection He). lia.
    - subst M. apply lookup_insert_Some in Hd as [[<- <-]|[_ Hd]]; [by apply (Hst prev c)|by apply (Hst q d)]. }
  unfold add_stake. rewrite (update_there m hash e prev c _ Hne Hp). cbn [mbind outcome_bind]. fold M.
  rewrite (deref_there M hash e prev _ Hne HM). cbn [mbind outcome_bind]. rewrite deref_here. cbn [mbind outcome_bind].
  destruct (GetBlockTrust_exact (nBits e) (IsProofOfStake e) Hbits) as (t & -> & _). cbn [no_err mbind outcome_bind].
  rewrite update_here. cbn [mbind outcome_bind]. rewrite update_here. cbn [mbind outcome_bind]. set (e1 := set_trust _ e). set (e2 := (SetStakeEntropyBit _ e1).2).
  assert (dressed e e2 ∧ IsProofOfStake e2 = IsProofOfStake e) as [D2 P2].
  { assert (dressed e e1) as D1 by apply dressed_trust, dressed_refl. subst e2. unfold SetStakeEntropyBit. destruct (1 <? _); [by split|]. cbn [snd]. split.
    - by apply dressed_stake.
    - unfold IsProofOfStake, with_stake. cbn [nFlags]. rewrite flag_lor. change (nFlags e1) with (nFlags e).
      destruct (_ =? 0); [|change (flag BLOCK_STAKE_ENTROPY BLOCK_PROOF_OF_STAKE) with false]; cbn; apply orb_false_r. }
  set (h := default 0 (proofs !! hash)). set (proofs' := if IsProofOfStake e then <[hash := h]> proofs else proofs).
  set (e3 := if IsProofOfStake e then set_hashProofOfStake h e2 else e2).
  assert (dressed e e3 ∧ IsProofOfStake e3 = IsProofOfStake e) as [D3 P3].
  { subst e3. destruct (IsProofOfStake e); [split; [by apply dressed_stake|done]|done]. }
  assert ((if IsProofOfStake e
     then m0 ← update (<[hash:=e2]> M) hash (set_hashProofOfStake h); Ok (m0, <[hash:=h]> proofs)
     else Ok (<[hash:=e2]> M, proofs)) = Ok (E:=unit) (<[hash := e3]> M, proofs')) as ->.
  { subst e3 proofs'. destruct (IsProofOfStake e); [|done]. by rewrite update_here. }
  cbn [mbind outcome_bind].
  destruct (next_total ModifierUpgradeBlock literal_address (<[hash := e3]> M) prev (set_pnext (Some hash) c)) as (md & gen & -> & Hgen);
    [apply HwfM, D3|by rewrite lookup_insert_ne|intros H1; apply HstM; [exact H1|apply D3]|].
  cbn [mbind outcome_bind]. rewrite update_here. cbn [mbind outcome_bind]. set (e4 := SetStakeModifier md gen e3).
  assert (dressed e e4 ∧ IsProofOfStake e4 = IsProofOfStake e) as [D4 P4].
  { split; [by apply dressed_stake|]. rewrite <- P3. unfold IsProofOfStake, e4, SetStakeModifier, with_stake. cbn [nFlags]. destruct gen; [|done].
    rewrite flag_lor. apply orb_false_r. }
  unfold GetStakeModifierChecksum. rewrite deref_here. cbn [mbind outcome_bind].
  assert (pprev e4 = Some prev) as -> by (rewrite <- Hpp; by apply dressed_links). rewrite (deref_there M hash e4 prev _ Hne HM). cbn [mbind outcome_bind].
  rewrite update_here. cbn [mbind outcome_bind]. eexists _, proofs'. split; [reflexivity|]. split_and!; [by apply dressed_stake|exact P4| |done].
  intros H0. unfold GeneratedStakeModifier, set_checksum, with_stake. cbn [nFlags]. unfold e4, SetStakeModifier. rewrite (Hgen H0). cbn [nFlags with_stake].
  rewrite flag_lor. apply orb_true_r.
Qed.

(** The work that a block's bits prove. *)
Definition block_work (nBits : Z) : Z :=
  let v := compact_value nBits in if Z.testbit nBits 23 || (v =? 0) || (2 ^ 256 <=? v) then 0 else 2 ^ 256 / (v + 1).

Lemma raise_tree e : nStatus e = 0 → RaiseValidity BLOCK_VALID_TREE e = Ok (true, set_nStatus BLOCK_VALID_TREE e).
Proof. intros H. unfold RaiseValidity. by rewrite H. Qed.

Lemma add_work_ok hash e M before :
  nStatus e = 0 → is_u 32 (nBits e) → limbs_ok 8 before →
  (match pprev e with Some q => q ≠ hash ∧ ∃ c, M !! q = Some c ∧ nChainWork c = before | None => before = uint256_of_u64 0 end) →
  ∃ w, add_work hash (<[hash := e]> M) = Ok (<[hash := set_nStatus BLOCK_VALID_TREE (set_work w e)]> M) ∧
    limbs_ok 8 w ∧ uval w = (uval before + block_work (nBits e)) mod 2 ^ 256.
Proof.
  intros Hs Hbits Hl Hp. unfold add_work. rewrite deref_here. cbn [mbind outcome_bind].
  assert ((match pprev e with Some q => c ← deref (<[hash:=e]> M) q; Ok (nChainWork c) | None => Ok (uint256_of_u64 0) end) = Ok (E:=unit) before) as ->.
  { destruct (pprev e) as [q|]; [|by subst]. destruct Hp as (Hq & c & Hc & <-). by rewrite (deref_there M hash e q c). }
  cbn [mbind outcome_bind]. destruct (GetBlockProof_exact (nBits e) Hbits) as (r & -> & Hr & Vr). cbn [no_err mbind outcome_bind].
  rewrite raise_tree by done. cbn [mbind outcome_bind]. rewrite insert_insert_eq. exists (uint_add before r). split; [done|].
  destruct (uint_add_spec 8 before r Hl Hr) as [Ha Va]. split; [done|]. rewrite Va, Vr. done.
Qed.

(** What an index gains: the entry of the block under its hash. *)
Record added (m m' : block_index) (hash : Z) (b : CBlock) (e : CBlockIndex) : Prop := {
  ad_here : m' !! hash = Some e;
  ad_others q : q ≠ hash → m' !! q = if bool_decide (q = hashPrevBlock (header b)) then set_pnext (Some hash) <$> m !! q else m !! q;
  ad_links : match m !! hashPrevBlock (header b) with
             | Some c => pprev e = Some (hashPrevBlock (header b)) ∧ nHeight e = nHeight c + 1
             | None => pprev e = None ∧ nHeight e = 0
             end;
  ad_work : limbs_ok 8 (nChainWork e) ∧
            work e = (from_option work 0 (m !! hashPrevBlock (header b)) + block_work (h_nBits (header b))) mod 2 ^ 256;
  ad_header : bi_nVersion e = h_nVersion (header b) ∧ nTime e = h_nTime (header b) ∧ nBits e = h_nBits (header b) ∧
              bi_hashMerkleRoot e = hashMerkleRoot (header b) ∧ bi_nNonce e = nNonce (header b);
  ad_state : nStatus e = BLOCK_VALID_TREE ∧ nTx e = 0 ∧ nChainTx e = 0 ∧ nSequenceId e = 0 ∧ pnext e = None ∧ IsProofOfStake e = block_IsProofOfStake (vtx b)
}.

Lemma fresh_fields b :
  let e := CBlockIndex_of b in
  nStatus e = 0 ∧ bi_nVersion e = h_nVersion (header b) ∧ nTime e = h_nTime (header b) ∧ nBits e = h_nBits (header b) ∧
  bi_hashMerkleRoot e = hashMerkleRoot (header b) ∧ bi_nNonce e = nNonce (header b) ∧ nTx e = 0 ∧ nChainTx e = 0 ∧ nSequenceId e = 0 ∧ pnext e = None ∧
  IsProofOfStake e = block_IsProofOfStake (vtx b).
Proof. unfold CBlockIndex_of, IsProofOfStake. destruct (block_IsProofOfStake (vtx b)); by repeat split. Qed.

Lemma add_entry_ok hash b m proofs :
  index_wf m → modifier_started m → works_ok m → m !! hash = None → hash ≠ hashPrevBlock (header b) → is_u 32 (h_nBits (header b)) →
  ∃ m' e proofs', add_entry hashGenesisBlock ModifierUpgradeBlock literal_address hash b m proofs = Ok (m', proofs') ∧ added m m' hash b e ∧ index_wf m' ∧ modifier_started m' ∧ works_ok m'.
Proof.
  intros Hwf Hst Hw Hh Hne Hbits. destruct (fresh_fields b) as (S0 & V0 & T0 & B0 & R0 & N0 & X0 & C0 & Q0 & F0 & P0).
  unfold add_entry. set (prev := hashPrevBlock (header b)) in *. destruct (m !! prev) as [c|] eqn:Hp.
  - rewrite (link_eq m hash prev c _ Hwf Hh Hp). cbn [mbind outcome_bind].
    match goal with |- context [<[hash := ?x]> m] => set (e := x) end.
    assert (index_wf (<[hash := e]> m)) as Hwf1.
    { apply index_wf_insert; [done|done| |intros H; discriminate H|intros q [= <-]; by exists c]. pose proof (wf_height m Hwf prev c Hp). cbn. lia. }
    rewrite bool_decide_eq_true_2 by (rewrite lookup_insert_ne by done; by exists c).
    destruct (add_stake_ok m hash prev c e proofs Hwf1 Hst Hh Hp eq_refl) as (e' & proofs' & -> & D & P & G & _); [by rewrite <- B0 in Hbits|].
    cbn [mbind outcome_bind]. pose proof D as (Hcore & Ds & Dv & Dt & Db & Dr & Dn & Df & Dx & _). destruct (dressed_links e e' D) as (Lp & Ls & Lh & _).
    destruct (add_work_ok hash e' (<[prev := set_pnext (Some hash) c]> m) (nChainWork c)) as (w & -> & Hlw & Vw);
      [by rewrite Ds|rewrite Db; by rewrite <- B0 in Hbits|by apply (Hw prev)|rewrite Lp; split; [done|]; exists (set_pnext (Some hash) c); by rewrite lookup_insert_eq|].
    cbn [mbind outcome_bind]. set (e2 := set_nStatus BLOCK_VALID_TREE (set_work w e')). eexists _, e2, proofs'. split; [reflexivity|].
    assert (same_shape m (<[prev := set_pnext (Some hash) c]> m)) as Hsh by (by apply shape_forward).
    split_and!.
    + constructor; fold prev; rewrite ?Hp.
      * apply lookup_insert_eq.
      * intros q Hq. rewrite lookup_insert_ne by done. case_bool_decide as Hqp; [subst q; by rewrite lookup_insert_eq, Hp|by rewrite lookup_insert_ne].
      * split; [exact Lp|exact Lh].
      * split; [exact Hlw|]. unfold work at 1. change (nChainWork e2) with w. rewrite Vw, Db. change (nBits e) with (nBits (CBlockIndex_of b)). by rewrite B0.
      * change (bi_nVersion e' = h_nVersion (header b) ∧ nTime e' = h_nTime (header b) ∧ nBits e' = h_nBits (header b) ∧
          bi_hashMerkleRoot e' = hashMerkleRoot (header b) ∧ bi_nNonce e' = nNonce (header b)). by rewrite Dv, Dt, Db, Dr, Dn.
      * assert (nChainTx e' = nChainTx e ∧ nSequenceId e' = nSequenceId e) as [Ec Eq] by (clear -Hcore; clearbody e; destruct e, e'; by injection Hcore).
        change (BLOCK_VALID_TREE = BLOCK_VALID_TREE ∧ nTx e' = 0 ∧ nChainTx e' = 0 ∧ nSequenceId e' = 0 ∧ pnext e' = None ∧ IsProofOfStake e' = block_IsProofOfStake (vtx b)).
        rewrite Dx, Ec, Eq, Df, P. done.
    + apply index_wf_insert; [by rewrite <- Hsh|by rewrite lookup_insert_ne| | |].
      * change (0 ≤ nHeight e'). rewrite Lh. pose proof (wf_height m Hwf prev c Hp). cbn. lia.
      * change (pprev e' = None → nHeight e' = 0). rewrite Lp. intros H. discriminate H.
      * intros q. change (pprev e' = Some q → ∃ d, <[prev := set_pnext (Some hash) c]> m !! q = Some d ∧ nHeight e' = nHeight d + 1 ∧
          pskip e' = ancestor (<[prev := set_pnext (Some hash) c]> m) q (GetSkipHeight (nHeight e'))).
        rewrite Lp, Ls, Lh. intros [= <-]. exists (set_pnext (Some hash) c). rewrite lookup_insert_eq. split_and!; [done..|].
        exact (ancestor_shape _ _ Hsh prev prev eq_refl _ _ eq_refl).
    + intros q d. rewrite lookup_insert_Some. intros [[<- <-]|[_ Hd]] H1.
      * change (GeneratedStakeModifier e' = true). apply G. change (nHeight e' = 1) in H1. rewrite Lh in H1. cbn in H1. lia.
      * apply lookup_insert_Some in Hd as [[<- <-]|[_ Hd]]; [by apply (Hst prev c)|by apply (Hst q d)].
    + intros q d. rewrite lookup_insert_Some. intros [[<- <-]|[_ Hd]]; [exact Hlw|].
      apply lookup_insert_Some in Hd as [[<- <-]|[_ Hd]]; [by apply (Hw prev c)|by apply (Hw q d)].
  - unfold AddToBlockIndex_link. rewrite Hh, lookup_insert_ne, Hp by done. cbn [mbind outcome_bind].
    rewrite bool_decide_eq_false_2 by (rewrite lookup_insert_ne, Hp by done; by intros [? ?]). cbn [mbind outcome_bind].
    match goal with |- context [<[hash := ?x]> m] => set (e := x) end.
    destruct (uval_uint256 0) as [Hl0 Hv0]; [by_decision|].
    destruct (add_work_ok hash e m (uint256_of_u64 0)) as (w & -> & Hlw & Vw); [exact S0|by rewrite <- B0 in Hbits|done|done|].
    cbn [mbind outcome_bind]. eexists _, _, proofs. split; [reflexivity|]. split_and!.
    + constructor; fold prev; rewrite ?Hp.
      * apply lookup_insert_eq.
      * intros q Hq. rewrite lookup_insert_ne by done. case_bool_decide as Hqp; [subst q; by rewrite Hp|done].
      * done.
      * split; [exact Hlw|]. unfold work. cbn [from_option]. cbn [nChainWork set_nStatus set_work]. rewrite Vw, Hv0.
        change (nBits e) with (nBits (CBlockIndex_of b)). by rewrite B0.
      * by split_and!.
      * by split_and!.
    + apply index_wf_insert; [done|done|done|done|intros q H; discriminate H].
    + intros q d. rewrite lookup_insert_Some. intros [[<- <-]|[_ Hd]] H1; [discriminate H1|by apply (Hst q d)].
    + intros q d. rewrite lookup_insert_Some. intros [[<- <-]|[_ Hd]]; [exact Hlw|by apply (Hw q d)].
Qed.
End Spec.

(** ** What the other parts rely on stays true *)

Section Added.
Context (m m' : block_index) (hash : Z) (b : CBlock) (e : CBlockIndex).
Context (Hwf : index_wf m) (Hwf' : index_wf m') (Hh : m !! hash = None) (Ha : added m m' hash b e).

Lemma added_shape : same_shape m (delete hash m').
Proof.
  apply map_eq. intros q. rewrite !lookup_strip. destruct (decide (q = hash)) as [->|Hq].
  - by rewrite lookup_delete_eq, Hh.
  - rewrite lookup_delete_ne by done. rewrite (ad_others _ _ _ _ _ Ha) by done. case_bool_decide; [|done]. by destruct (m !! q) as [[]|].
Qed.

Lemma added_old q c : m !! q = Some c → q ≠ hash ∧ ∃ s, m' !! q = Some (with_core s c).
Proof.
  intros Hq. assert (q ≠ hash) as Hne by congruence. split; [done|].
  destruct (shape_lookup _ _ q c added_shape Hq) as [s Hs]. exists s. by rewrite lookup_delete_ne in Hs.
Qed.
Lemma added_back q d : q ≠ hash → m' !! q = Some d → ∃ s, m !! q = Some (with_core s d).
Proof. intros Hq Hd. apply (shape_lookup (delete hash m')); [symmetry; apply added_shape|by rewrite lookup_delete_ne]. Qed.

Lemma added_ancestor p c h : m !! p = Some c → ancestor m' p h = ancestor m p h.
Proof.
  intros Hp. destruct (added_old p c Hp) as (Hne & s & Hs). destruct (decide (0 ≤ h ≤ nHeight c)) as [Hr|Hr].
  - destruct (ancestor_ok m Hwf p c h Hp Hr) as (q & d & Eq & _). rewrite Eq.
    assert (ancestor (delete hash m') p h = Some q) as Ed by (rewrite <- Eq; symmetry; exact (ancestor_shape _ _ added_shape p p eq_refl h h eq_refl)).
    apply (ancestor_mono (delete hash m')); [apply delete_subseteq|done].
  - destruct (ancestor m p h) as [q|] eqn:E1; [by destruct (ancestor_some m Hwf p c h q Hp E1)|].
    destruct (ancestor m' p h) as [q|] eqn:E2; [|done]. destruct (ancestor_some m' Hwf' p _ h q Hs E2) as [Hb _]. cbn in Hb. lia.
Qed.

Lemma added_chain_ok v tip : chain_ok m v tip → chain_ok m' v tip.
Proof.
  destruct tip as [t|]; [|done]. intros (c & Hc & Hl & Hv). destruct (added_old t c Hc) as (_ & s & Hs).
  exists (with_core s c). split_and!; [done..|]. intros k Hk. rewrite (added_ancestor t c k Hc). by apply Hv.
Qed.

Lemma added_sel_ok x : s_index x = m → works_ok m' → sel_ok x → sel_ok (set_index m' x).
Proof.
  destruct x as [mi v cs u bi sq]. cbn [s_index]. intros Hx Hw [_ _ Hc Hcand Htx Hinv]. cbn [s_index s_active s_candidates s_best_invalid] in *. subst mi. split; cbn [s_index s_active s_candidates s_best_invalid set_index].
  - exact Hwf'.
  - exact Hw.
  - by apply added_chain_ok.
  - intros p Hp. destruct (Hcand p Hp) as [c Hcp]. destruct (added_old p c Hcp) as (_ & s & ?). by eexists.
  - intros p q d Hp Hq Hanc. destruct (Hcand p Hp) as [c Hcp]. rewrite (added_ancestor p c _ Hcp) in Hanc.
    destruct (ancestor_some m Hwf p c _ q Hcp Hanc) as (_ & d0 & Hd0 & _).
    destruct (added_old q d0 Hd0) as (Hne & _). destruct (added_back q d Hne Hq) as [s Hs]. by apply (Htx p q _ Hp Hs).
  - intros q Hq. destruct (Hinv q Hq) as [c Hcq]. destruct (added_old q c Hcq) as (_ & s & ?). by eexists.
Qed.

Lemma added_growing :
  growing m → 0 < block_work (h_nBits (header b)) →
  from_option work 0 (m !! hashPrevBlock (header b)) + block_work (h_nBits (header b)) < 2 ^ 256 → works_ok m → growing m'.
Proof.
  intros Hg Hpos Hmax Hw p d q c Hp Hq Hc. pose proof (ad_links _ _ _ _ _ Ha) as Hl. destruct (decide (p = hash)) as [->|Hne].
  - rewrite (ad_here _ _ _ _ _ Ha) in Hp. injection Hp as <-. destruct (ad_work _ _ _ _ _ Ha) as [_ Hwk].
    destruct (m !! hashPrevBlock (header b)) as [c0|] eqn:E0; destruct Hl as [Hl _]; [|congruence].
    assert (q = hashPrevBlock (header b)) as -> by congruence. destruct (added_old _ c0 E0) as (_ & s & Hs). assert (c = with_core s c0) as -> by congruence.
    cbn [from_option] in *. change (work (with_core s c0)) with (work c0). rewrite Hwk. rewrite Z.mod_small; [lia|].
    pose proof (uval_256 _ (Hw _ _ E0)). unfold work in *. lia.
  - destruct (added_back p d Hne Hp) as [s Hs]. destruct (wf_pprev m Hwf p _ q Hs) as (c0 & Hc0 & _); [exact Hq|].
    destruct (added_old q c0 Hc0) as (_ & s' & Hs'). assert (c = with_core s' c0) as -> by congruence.
    apply (Hg p (with_core s d) q c0 Hs Hq Hc0).
Qed.

Lemma added_tx_linked : tx_linked m → tx_linked m'.
Proof.
  intros Ht p d q c Hp Hq Hc Hd. destruct (decide (p = hash)) as [->|Hne].
  - rewrite (ad_here _ _ _ _ _ Ha) in Hp. injection Hp as <-. destruct (ad_state _ _ _ _ _ Ha) as (_ & _ & H0 & _). done.
  - destruct (added_back p d Hne Hp) as [s Hs]. destruct (wf_pprev m Hwf p _ q Hs) as (c0 & Hc0 & _); [exact Hq|].
    destruct (added_old q c0 Hc0) as (_ & s' & Hs'). assert (c = with_core s' c0) as -> by congruence.
    apply (Ht p (with_core s d) q c0 Hs Hq Hc0 Hd).
Qed.

Lemma link_forward_same : hash ≠ hashPrevBlock (header b) → link_forward hash m' = Ok m'.
Proof.
  intros Hne. unfold link_forward. rewrite (deref_some _ _ _ (ad_here _ _ _ _ _ Ha)). cbn [mbind outcome_bind]. pose proof (ad_links _ _ _ _ _ Ha) as Hl.
  destruct (m !! hashPrevBlock (header b)) as [c|] eqn:E; destruct Hl as [Hl H0]; [|by rewrite H0].
  destruct (_ =? 0); [done|]. rewrite Hl. assert (m' !! hashPrevBlock (header b) = Some (set_pnext (Some hash) c)) as Hp.
  { rewrite (ad_others _ _ _ _ _ Ha) by done. by rewrite bool_decide_eq_true_2, E. }
  unfold update. rewrite (deref_some _ _ _ Hp). cbn [mbind outcome_bind]. by rewrite insert_id.
Qed.
End Added.

(** What the chain selection and the stake kernel need of the tree. *)
Record tree_ok (x : tree) : Prop := {
  to_sel : sel_ok (t_sel x);
  to_started : modifier_started (t_index x);
  to_growing : growing (t_index x);
  to_linked : tx_linked (t_index x);
  to_best t : pindexBestHeader x = Some t → is_Some (t_index x !! t)
}.

Lemma add_ok hashGenesisBlock ModifierUpgradeBlock literal_address (hash : Z) (b : CBlock) (x : tree) :
  tree_ok x → t_index x !! hash = None → hash ≠ hashPrevBlock (header b) → is_u 32 (h_nBits (header b)) →
  0 < block_work (h_nBits (header b)) →
  from_option work 0 (t_index x !! hashPrevBlock (header b)) + block_work (h_nBits (header b)) < 2 ^ 256 →
  ∃ x' e, AddToBlockIndex hashGenesisBlock ModifierUpgradeBlock literal_address hash b x = Ok x' ∧ tree_ok x' ∧
    added (t_index x) (t_index x') hash b e ∧ t_sel x' = set_index (t_index x') (t_sel x) ∧ setDirtyBlockIndex x' = {[ hash ]} ∪ setDirtyBlockIndex x ∧
    pindexBestHeader x' = Some (match pindexBestHeader x with
                                | Some t => if from_option work 0 (t_index x !! t) <? work e then hash else t
                                | None => hash end).
Proof.
  intros [Hsel Hst Hg Htx Hbest] Hh Hne Hbits Hpos Hmax. pose proof (so_wf _ Hsel) as Hwf. pose proof (so_works _ Hsel) as Hw.
  change (s_index (t_sel x)) with (t_index x) in Hwf, Hw.
  destruct (add_entry_ok hashGenesisBlock ModifierUpgradeBlock literal_address hash b (t_index x) (mapProofOfStake x) Hwf Hst Hw Hh Hne Hbits)
    as (m' & e & proofs' & E & Ha & Hwf' & Hst' & Hw').
  unfold AddToBlockIndex. rewrite Hh, E. cbn [mbind outcome_bind].
  set (best' := match pindexBestHeader x with Some t => if from_option work 0 (t_index x !! t) <? work e then hash else t | None => hash end).
  assert (better_header m' (pindexBestHeader x) hash = Ok (Some best') ∧ is_Some (m' !! best')) as [-> Hb'].
  { subst best'. destruct (pindexBestHeader x) as [t|]; [|split; [done|]; by exists e; apply (ad_here _ _ _ _ _ Ha)].
    destruct (Hbest t eq_refl) as [c Hc]. destruct (added_old _ _ _ _ _ Hh Ha t c Hc) as (Htn & s & Hs). unfold better_header.
    rewrite (deref_some _ _ _ Hs), (deref_some _ _ _ (ad_here _ _ _ _ _ Ha)). cbn [mbind outcome_bind]. rewrite Hc. cbn [from_option].
    rewrite (uint_lt_spec 8) by (apply (Hw' _ _ Hs) || apply (Hw' _ _ (ad_here _ _ _ _ _ Ha))).
    change (uval (nChainWork (with_core s c))) with (work c). change (uval (nChainWork e)) with (work e).
    destruct (_ <? _); (split; [done|]); [by exists e; apply (ad_here _ _ _ _ _ Ha)|by eexists]. }
  cbn [mbind outcome_bind]. rewrite (link_forward_same (t_index x) m' hash b e Ha Hne). cbn [mbind outcome_bind].
  eexists _, e. split; [reflexivity|]. unfold t_index in *. cbn [t_sel set_index s_index pindexBestHeader setDirtyBlockIndex]. split_and!; [|done..].
  constructor; unfold t_index; cbn [t_sel set_index s_index pindexBestHeader].
  - eapply (added_sel_ok _ m'); [exact Hwf|exact Hwf'|exact Hh|exact Ha|done|done|done].
  - done.
  - eapply (added_growing _ m'); [exact Hwf|exact Hh|exact Ha|done..].
  - eapply (added_tx_linked _ m'); [exact Hwf|exact Hh|exact Ha|done].
  - by intros t [= <-].
Qed.

(** A chain of two blocks, with one to come. *)
Module IndexDemo.
Definition index : block_index :=
  list_to_map [(10, SelectDemo.node None None 0 1 SelectDemo.good);
    (11, with_stake BLOCK_STAKE_MODIFIER stake_null (SelectDemo.node (Some 10) (Some 10) 1 2 SelectDemo.good))].
Definition start : tree := Tree (Selection index [Some 10; Some 11] {[ 11 ]} [] None 2) ∅ ∅ (Some 11) ∅.
Definition next : CBlock := Block (BlockHeader 3 11 0 1000 545259519 0) [] [].
Lemma start_tree_ok : tree_ok start.
Proof.
  assert (growing index ∧ tx_linked index) as [Hg Ht] by (apply ActivateDemo.linked_check_ok; by vm_compute).
  assert (map_Forall (λ _ c, nHeight c = 1 → GeneratedStakeModifier c = true) index) as Hst by (by_decision).
  split; [|intros q c Hq; by apply (Hst q c)|exact Hg|exact Ht|].
  - apply select_check_ok; [by vm_compute|]. change (active_tip (t_sel start)) with (Some 11).
    exists (with_stake BLOCK_STAKE_MODIFIER stake_null (SelectDemo.node (Some 10) (Some 10) 1 2 SelectDemo.good)). split_and!; [done..|].
    cbn [nHeight with_stake SelectDemo.node index_entry]. intros k Hk. assert (k = 0 ∨ k = 1) as [Hk0|Hk0] by lia; subst k; by vm_compute.
  - intros t [= <-]. by eexists.
Qed.
End IndexDemo.

(** ** Properties *)

(** C28: adding a block that is not in the index yet, whose bits prove some work:
    [AddToBlockIndex] always succeeds.  The new entry has the block's fields, is linked
    to the predecessor when that is known, one higher, and its work is the
    predecessor's plus what the bits prove; every other entry keeps everything but the
    forward link of the predecessor; the active chain and its candidates stay, and the
    best header is replaced exactly by more work.  All that the chain selection, the
    chain activation and the stake kernel rely on holds for the new index: heights,
    predecessors, skip pointers, growing work, generated modifiers. *)
Theorem AddToBlockIndex_keeps_tree (hashGenesisBlock ModifierUpgradeBlock literal_address hash : Z) (b : CBlock) (x : tree) :
  tree_ok x → t_index x !! hash = None → hash ≠ hashPrevBlock (header b) → is_u 32 (h_nBits (header b)) →
  0 < block_work (h_nBits (header b)) →
  from_option work 0 (t_index x !! hashPrevBlock (header b)) + block_work (h_nBits (header b)) < 2 ^ 256 →
  ∃ x' e, AddToBlockIndex hashGenesisBlock ModifierUpgradeBlock literal_address hash b x = Ok x' ∧ tree_ok x' ∧
    added (t_index x) (t_index x') hash b e ∧ t_sel x' = set_index (t_index x') (t_sel x) ∧ setDirtyBlockIndex x' = {[ hash ]} ∪ setDirtyBlockIndex x ∧
    pindexBestHeader x' = Some (match pindexBestHeader x with
                                | Some t => if from_option work 0 (t_index x !! t) <? work e then hash else t
                                | None => hash end).
Proof. apply add_ok. Qed.

Lemma AddToBlockIndex_keeps_tree_witness :
  ∃ x' e, AddToBlockIndex 10 1 7 12 IndexDemo.next IndexDemo.start = Ok x' ∧ tree_ok x' ∧
    added IndexDemo.index (t_index x') 12 IndexDemo.next e ∧ t_sel x' = set_index (t_index x') (t_sel IndexDemo.start) ∧ setDirtyBlockIndex x' = {[ 12 ]} ∪ ∅ ∧
    pindexBestHeader x' = Some (if from_option work 0 (IndexDemo.index !! 11) <? work e then 12 else 11).
Proof.
  apply (AddToBlockIndex_keeps_tree 10 1 7 12 IndexDemo.next IndexDemo.start);
    [apply IndexDemo.start_tree_ok|by vm_compute|by_decision|by_decision|by vm_compute|by vm_compute].
Defined.
