(* ===== verification/AcceptBlock.v ===== *)
(** * Accepting a block (GetTransaction, CheckWork, AcceptBlockHeader, AcceptBlock,
      ProcessNewBlock, main.cpp; CheckProofOfStake, kernel.cpp)

    A block from a peer is checked, gets an entry in the index, is written to the
    block files and enters the choice of the best chain.  The theorems: what is known
    of a block that was accepted, that a block is never half accepted, and that the
    tree and the files stay in order. *)
From stdpp Require Import base tactics list gmap numbers option.
From Stdlib Require Import ZArith Lia Floats.SpecFloat.
From S2P Require Import Prelude.
From S2P Require Import Double.
From S2P Require Import Serialize.
From S2P Require Import BaseUint.
From S2P Require Import ScriptCode.
From S2P Require Import Interpreter.
From S2P Require Import Transaction.
From S2P Require Import SigHash.
From S2P Require Import Chain.
From S2P Require Import Pow.
From S2P Require Import Block.
From S2P Require Import Coins.
From S2P Require Import CoinsView.
From S2P Require Import ConnectBlock.
From S2P Require Import ChainSelect.
From S2P Require Import ActivateChain.
From S2P Require Import Mempool.
From S2P Require Import Kernel.
From S2P Require Import BlockFiles.
From S2P Require Import IndexAdd.

(** ** State *)

Record CDiskTxPos := DiskTxPos { dt_pos : CDiskBlockPos; nTxOffset : Z }.

(** The tree, the block files, the coins ([pcoinsTip]), the pool, the index of
    transactions ([fTxIndex], [pblocktree]) and [mapRejectedBlocks]. *)
Record node_state (V : Type) := NodeState {
  n_tree : tree;
  n_files : block_files;
  n_coins : V;
  n_pool : CTxMemPool;
  n_fTxIndex : bool;
  n_txindex : gmap Z CDiskTxPos;
  n_rejected : gmap Z Z
}.
Arguments NodeState {_}. Arguments n_tree {_}. Arguments n_files {_}. Arguments n_coins {_}. Arguments n_pool {_}.
Arguments n_fTxIndex {_}. Arguments n_txindex {_}. Arguments n_rejected {_}.

(** Why a block is not accepted. *)
Inductive accept_reject :=
| NoPrevBlock | PrevInvalid | BadWork | DuplicateInvalid | HeaderReject (e : block_reject) | ContextReject (e : context_reject)
| BlockReject (e : block_reject) | NoSpace | BadSignature | Unconnected | NotChecked.

Section Accept.
Context `{CoinsStore V} (Verify : list Z → Z → list Z → bool).
Context (params : CChainParams) (nMaxMoneyOut : Z) (GetHash : CBlockHeader → Z) (up : upgrade_params).
Context (ModifierUpgradeBlock literal_address now : Z) (MessageStart : list Z).
Context (fopen_ok : Z → bool) (CheckDiskSpace : Z → bool).
Notation node := (node_state V).
Notation hash_of b := (GetHash (header b)).

Definition n_index (x : node) : block_index := t_index (n_tree x).
Definition n_active (x : node) : CChain := s_active (t_sel (n_tree x)).
Definition set_tree (t : tree) (x : node) : node := NodeState t (n_files x) (n_coins x) (n_pool x) (n_fTxIndex x) (n_txindex x) (n_rejected x).
Definition set_files (f : block_files) (x : node) : node := NodeState (n_tree x) f (n_coins x) (n_pool x) (n_fTxIndex x) (n_txindex x) (n_rejected x).
Definition set_coins (v : V) (x : node) : node := NodeState (n_tree x) (n_files x) v (n_pool x) (n_fTxIndex x) (n_txindex x) (n_rejected x).

Definition set_rejected (r : gmap Z Z) (x : node) : node := NodeState (n_tree x) (n_files x) (n_coins x) (n_pool x) (n_fTxIndex x) (n_txindex x) r.

(** What the checks of a block consult, at the node's index and chain. *)
Definition env_at (env : node_env) (x : node) : node_env :=
  NodeEnv (adjusted_time env) (n_index x) (n_active x) (swifttx_filtering env) (mapLockedInputs env) (initial_download env) (payee_valid env).

(** ** GetTransaction *)

(** The transaction at a position of the index: the header, then the offset. *)
Definition read_tx_at (p : CDiskTxPos) (x : node) : option (CTransaction * CBlockHeader) :=
  file ← OpenDiskFile fopen_ok (blk_files (n_files x)) (dt_pos p) true;
  '(h, r) ← caught (unser_header (drop (Z.to_nat (p_pos (dt_pos p))) file));
  '(tx, _) ← caught (unser (A:=CTransaction) (drop (Z.to_nat (nTxOffset p)) r));
  Some (tx, h).

(** The block of the active chain that holds the unspent outputs is scanned; the
    look at the coins may fill the cache. *)
Definition GetTransaction_slow (hash : Z) (x : node) : res (option (CTransaction * Z) * node) :=
  let '(coins, v) := cs_access (n_coins x) hash in
  let x := set_coins v x in
  match coins with
  | Some c =>
      if c_nHeight c <=? 0 then Ok (None, x) else
      match chain_at (n_active x) (c_nHeight c) with
      | None => Ok (None, x)
      | Some p =>
          b ← ReadBlockFromDisk_index fopen_ok params GetHash (n_index x) p (n_files x);
          match b with
          | None => Ok (None, x)
          | Some b => Ok ((λ tx, (tx, p)) <$> (snd <$> list_find (λ tx, tx_hash tx = hash) (vtx b)), x)
          end
      end
  | None => Ok (None, x)
  end.

(** [hashBlock] is what the caller passed unless it is found. *)
Definition GetTransaction (hash hashBlock : Z) (fAllowSlow : bool) (x : node) : res (option (CTransaction * Z) * node) :=
  match lookup_tx (n_pool x) hash with
  | Some tx => Ok (Some (tx, hashBlock), x)
  | None =>
      match (if n_fTxIndex x then n_txindex x !! hash else None) with
      | Some p =>
          match read_tx_at p x with
          | Some (tx, h) => Ok (if tx_hash tx =? hash then Some (tx, GetHash h) else None, x)
          | None => Ok (None, x)
          end
      | None => if fAllowSlow then GetTransaction_slow hash x else Ok (None, x)
      end
  end.

(** ** CheckProofOfStake *)

(** [None]: an error was reported; else [hashProofOfStake]. *)
Definition CheckProofOfStake (b : CBlock) (x : node) : res (option Z * node) :=
  match vtx b !! 1%nat with
  | None => AssertFail
  | Some tx =>
      if negb (IsCoinStake tx) then Ok (None, x) else
      match vin tx with
      | [] => AssertFail
      | txin :: _ =>
          '(found, x) ← GetTransaction (prevout_hash (prevout txin)) 0 true x;
          match found with
          | None => Ok (None, x)
          | Some (txPrev, hashBlock) =>
              match vout txPrev !! Z.to_nat (prevout_n (prevout txin)) with
              | None => AssertFail
              | Some o =>
                  match VerifyInput Verify STANDARD_SCRIPT_VERIFY_FLAGS tx 0 (scriptPubKey o) with
                  | Ok _ =>
                      match n_index x !! hashBlock with
                      | None => Ok (None, x)
                      | Some pindex =>
                          match ReadBlockFromDisk fopen_ok params GetHash (GetBlockPos pindex) (n_files x) with
                          | None => Ok (None, x)
                          | Some blockprev =>
                              '(ok, _, h) ← CheckStakeKernelHash (n_index x) (n_active x) (h_nBits (header b)) blockprev (hash_of blockprev)
                                              txPrev (prevout txin) (h_nTime (header b)) 0 true 0;
                              Ok (if ok : bool then Some h else None, x)
                          end
                      end
                  | Err _ => Ok (None, x)
                  | AssertFail => AssertFail
                  | OutOfFuel => OutOfFuel
                  end
              end
          end
      end
  end.

(** ** CheckWork *)

Fixpoint mul_256 (n : nat) (d : double) : double := match n with O => d | S n => mul_256 n (d_mul d (d_of_Z 256)) end.
Fixpoint div_256 (n : nat) (d : double) : double := match n with O => d | S n => div_256 n (d_div d (d_of_Z 256)) end.
Definition ConvertBitsToDouble (nBits : Z) : double :=
  let nShift := Z.land (Z.shiftr nBits 24) 0xff in
  let dDiff := d_div (d_of_Z 0x0000ffff) (d_of_Z (Z.land nBits 0x00ffffff)) in
  div_256 (Z.to_nat (nShift - 29)) (mul_256 (Z.to_nat (29 - nShift)) dDiff).

(** The bits of an early proof-of-work block need only be near the required ones. *)
Definition near_bits (nBits nBitsRequired : Z) : bool :=
  let n1 := ConvertBitsToDouble nBits in
  let n2 := ConvertBitsToDouble nBitsRequired in
  negb (d_gt (SFabs (d_sub n1 n2)) (d_mul n1 (d_div (d_of_Z 1) (d_of_Z 2)))).

Definition last_near_height : Z := 68589.

Definition CheckWork (b : CBlock) (pindexPrev : option Z) (x : node) : res (bool * node) :=
  match pindexPrev with
  | None => Ok (false, x)
  | Some p =>
      prev ← deref (n_index x) p;
      nBitsRequired ← no_err (GetNextWorkRequired params (n_index x) pindexPrev);
      if block_IsProofOfWork (vtx b) && (nHeight prev + 1 <=? last_near_height) then
        Ok (near_bits (h_nBits (header b)) nBitsRequired, x)
      else if negb (h_nBits (header b) =? nBitsRequired) then Ok (false, x)
      else if block_IsProofOfStake (vtx b) then
        '(found, x) ← CheckProofOfStake b x;
        match found with
        | None => Ok (false, x)
        | Some hashProofOfStake =>
            let t := n_tree x in
            let proofs := match mapProofOfStake t !! hash_of b with
                          | Some _ => mapProofOfStake t
                          | None => <[hash_of b := hashProofOfStake]> (mapProofOfStake t)
                          end in
            Ok (true, set_tree (Tree (t_sel t) (setStakeSeen t) proofs (pindexBestHeader t) (setDirtyBlockIndex t)) x)
        end
      else Ok (true, x)
  end.

(** ** The header *)

(** The predecessor of a block other than the genesis block, which must be known and
    not failed. *)
Definition find_prev (b : CBlock) (x : node) : outcome accept_reject (option Z) :=
  if hash_of b =? HashGenesisBlock up then Ok None else
  match n_index x !! hashPrevBlock (header b) with
  | None => Err NoPrevBlock
  | Some prev => if flag (nStatus prev) BLOCK_FAILED_MASK then Err PrevInvalid else Ok (Some (hashPrevBlock (header b)))
  end.

Definition AcceptBlockHeader (env : node_env) (b : CBlock) (x : node) : outcome accept_reject node :=
  match n_index x !! hash_of b with
  | Some pindex => if flag (nStatus pindex) BLOCK_FAILED_MASK then Err DuplicateInvalid else Ok x
  | None =>
      _ ← map_err HeaderReject (CheckBlockHeader params GetHash (header b) false);
      prev ← find_prev b x;
      _ ← map_err ContextReject (ContextualCheckBlockHeader up GetHash (env_at env x) (header b) prev);
      t ← no_err (AddToBlockIndex (HashGenesisBlock up) ModifierUpgradeBlock literal_address (hash_of b) b (n_tree x));
      Ok (set_tree t x)
  end.

(** ** The block *)

(** The result, and the node; the entry of the block is [hash_of b] from
    [AcceptBlockHeader] on. *)
Definition outcome_of {A B} (m : outcome accept_reject A) (x : B) (k : A → res (option accept_reject * B)) : res (option accept_reject * B) :=
  match m with Ok a => k a | Err e => Ok (Some e, x) | AssertFail => AssertFail | OutOfFuel => OutOfFuel end.

(** [CheckBlock] and [ContextualCheckBlock], with [CorruptionPossible]. *)
Definition check_block (env : node_env) (b : CBlock) (pprev : option Z) (x : node) : outcome (accept_reject * bool) unit :=
  _ ← map_err (λ e, (BlockReject e, block_reject_corruption e)) (CheckBlock params nMaxMoneyOut GetHash (env_at env x) b true);
  map_err (λ e, (ContextReject e, false)) (ContextualCheckBlock up (env_at env x) b pprev).

(** [CheckBlock] notes some refused blocks in [mapRejectedBlocks]. *)
Definition note_block (env : node_env) (b : CBlock) (x : node) : node :=
  set_rejected (note_rejected GetHash (n_rejected x) b now (CheckBlock params nMaxMoneyOut GetHash (env_at env x) b true)) x.

Definition mark_failed (p : Z) (x : node) : res node :=
  let t := n_tree x in
  s ← add_status BLOCK_FAILED_VALID p (t_sel t);
  Ok (set_tree (Tree s (setStakeSeen t) (mapProofOfStake t) (pindexBestHeader t) ({[ p ]} ∪ setDirtyBlockIndex t)) x).

(** The data goes to the block files and the entry to the choice of the chain. *)
Definition store_data (addr : Z → Z) (b : CBlock) (p nHeight : Z) (dbp : option CDiskBlockPos) (x : node) : res (option accept_reject * node) :=
  '(pos, f) ← store_block fopen_ok CheckDiskSpace MessageStart dbp b nHeight (n_files x);
  let x := set_files f x in
  match pos with
  | None => Ok (Some NoSpace, x)
  | Some pos =>
      let t := n_tree x in
      s ← ReceivedBlockTransactions addr (vtx b) p (p_file pos) (p_pos pos) (t_sel t);
      Ok (None, set_tree (Tree s (setStakeSeen t) (mapProofOfStake t) (pindexBestHeader t) ({[ p ]} ∪ setDirtyBlockIndex t)) x)
  end.

Definition AcceptBlock (addr : Z → Z) (env : node_env) (b : CBlock) (dbp : option CDiskBlockPos) (x : node) : res (option accept_reject * node) :=
  outcome_of (find_prev b x) x (λ prev,
  '(work, x) ← (if hash_of b =? HashGenesisBlock up then Ok (true, x) else CheckWork b prev x);
  if negb work then Ok (Some BadWork, x) else
  outcome_of (AcceptBlockHeader env b x) x (λ x,
  pindex ← deref (n_index x) (hash_of b);
  if flag (nStatus pindex) BLOCK_HAVE_DATA then Ok (None, x) else
  let x := note_block env b x in
  match check_block env b (pprev pindex) x with
  | Ok _ => store_data addr b (hash_of b) (nHeight pindex) dbp x
  | Err (e, corruption) => if corruption : bool then Ok (Some e, x) else x ← mark_failed (hash_of b) x; Ok (Some e, x)
  | AssertFail => AssertFail
  | OutOfFuel => OutOfFuel
  end)).

(** ** ProcessNewBlock *)

(** Up to [ActivateBestChain]; [known_peer]: the block came from a peer, which is
    asked for the blocks before it when the predecessor is unknown. *)
Definition ProcessNewBlock (addr : Z → Z) (env : node_env) (b : CBlock) (known_peer : bool) (dbp : option CDiskBlockPos) (x : node)
    : res (option accept_reject * node) :=
  let checked := CheckBlock params nMaxMoneyOut GetHash (env_at env x) b true in
  let x := note_block env b x in
  sig ← no_err (CheckBlockSignature GetHash Verify b);
  if negb sig then Ok (Some BadSignature, x) else
  if negb (hash_of b =? HashGenesisBlock up) && known_peer && bool_decide (n_index x !! hashPrevBlock (header b) = None)
  then Ok (Some Unconnected, x) else
  match checked with
  | Ok _ => AcceptBlock addr env b dbp x
  | Err _ => Ok (Some NotChecked, x)
  | AssertFail => AssertFail
  | OutOfFuel => OutOfFuel
  end.
End Accept.
