(* ===== verification/Accepted.v ===== *)
(** * What accepting a block keeps and shows (about AcceptBlock)

    The invariant of the node between blocks: the tree is in order, every entry that
    has data is backed by a block in the files, and received blocks are linked.  The
    theorem: [AcceptBlock] returns, but for the coinstakes that name an output that is
    not there, keeps the invariant, and accepts a new block only when it passed every
    check and is on disk. *)
From stdpp Require Import base tactics list gmap numbers option.
From Stdlib Require Import ZArith Lia.
From S2P Require Import Prelude.
From S2P Require Import Serialize.
From S2P Require Import BaseUint.
From S2P Require Import ScriptCode.
From S2P Require Import Interpreter.
From S2P Require Import Transaction.
From S2P Require Import SigHash.
From S2P Require Import Chain.
From S2P Require Import Pow.
From S2P Require Import Block.
From S2P Require Import Compressor.
From S2P Require Import Coins.
From S2P Require Import CoinsView.
From S2P Require Import ConnectBlock.
From S2P Require Import ChainSelect.
From S2P Require Import ActivateChain.
From S2P Require Import Mempool.
From S2P Require Import Kernel.
From S2P Require Import BlockFiles.
From S2P Require Import ChainLink.
From S2P Require Import IndexAdd.
From S2P Require Import AcceptBlock.

(** ** Checks that always return *)

Lemma majority_returns n m v req p f : index_wf m → match p with Some q => is_Some (m !! q) | None => True end →
  ∃ r, IsSuperMajority_loop n m v req p f = Ok r.
Proof.
  intros Hwf. revert p f. induction n as [|n IH]; intros p f Hp; cbn [IsSuperMajority_loop]; [by eexists|].
  destruct p as [q|]; [|by eexists]. destruct Hp as [b Hb]. destruct (_ <=? _); [by eexists|]. rewrite (deref_some m q b Hb). cbn [mbind outcome_bind]. apply IH.
  destruct (pprev b) as [r|] eqn:Er; [|done]. destruct (wf_pprev m Hwf q b r Hb Er) as (c & Hc & _). by exists c.
Qed.

Section Context_checks.
Context (up : upgrade_params) (GetHash : CBlockHeader → Z) (env : node_env) (Hwf : index_wf (mapBlockIndex env)).

Lemma header_context_returns h p :
  GetHash h = HashGenesisBlock up ∨ (∃ q, p = Some q ∧ is_Some (mapBlockIndex env !! q)) →
  returns (ContextualCheckBlockHeader up GetHash env h p).
Proof.
  intros Hp. unfold ContextualCheckBlockHeader. destruct (Z.eqb_spec (GetHash h) (HashGenesisBlock up)); [done|].
  destruct Hp as [?|(q & -> & b & Hb)]; [done|]. rewrite (deref_some _ q b Hb). cbn [mbind outcome_bind]. destruct (_ <=? _); [done|].
  destruct (GetMedianTimePast_correct _ q b Hwf Hb) as (t & -> & _). cbn [no_err mbind outcome_bind]. destruct (_ <=? _); [done|].
  destruct (negb _); [done|].
  assert (∃ before, match GetLastCheckpoint up env with Some c => pcheckpoint ← deref (E:=context_reject) (mapBlockIndex env) c; Ok (nHeight b + 1 <? Chain.nHeight pcheckpoint) | None => Ok false end = Ok before) as [before ->].
  { unfold GetLastCheckpoint. destruct (negb _); [by eexists|]. destruct (list_find _ _) as [[i [k c]]|] eqn:E; [|by eexists].
    apply list_find_Some in E as (_ & [d Hd] & _). cbn in *. rewrite (deref_some _ c d Hd). by eexists. }
  cbn [mbind outcome_bind]. destruct before; [done|].
  destruct (majority_returns (ToCheckBlockUpgradeMajority up) (mapBlockIndex env) 2 (RejectBlockOutdatedMajority up) (Some q) 0 Hwf) as [r2 E2]; [by eexists|].
  destruct (majority_returns (ToCheckBlockUpgradeMajority up) (mapBlockIndex env) 3 (RejectBlockOutdatedMajority up) (Some q) 0 Hwf) as [r3 E3]; [by eexists|].
  unfold IsSuperMajority. rewrite E2, E3. destruct (_ <? 2), (_ <? 3), r2, r3; done.
Qed.

Lemma block_context_returns b p :
  match p with Some q => is_Some (mapBlockIndex env !! q) | None => True end → generation_ok (vtx b) →
  returns (ContextualCheckBlock up env b p).
Proof.
  intros Hp (cb & rest & Eb & Hcb & _). unfold ContextualCheckBlock.
  assert (∃ h, match p with None => Ok 0 | Some p => prev ← deref (E:=context_reject) (mapBlockIndex env) p; Ok (nHeight prev + 1) end = Ok h) as [h ->].
  { destruct p as [q|]; [|by eexists]. destruct Hp as [c Hc]. rewrite (deref_some _ q c Hc). by eexists. }
  cbn [mbind outcome_bind]. destruct (negb _); [done|].
  destruct (majority_returns (ToCheckBlockUpgradeMajority up) (mapBlockIndex env) 2 (EnforceBlockUpgradeMajority up) p 0 Hwf Hp) as [r Er].
  unfold IsSuperMajority. rewrite Er. assert (∃ i l, vin cb = i :: l) as (i & l & Ei).
  { unfold IsCoinBase in Hcb. destruct (vin cb) as [|i l]; [discriminate Hcb|by eexists _, _]. }
  rewrite Eb, Ei. destruct (2 <=? _); cbn [no_err mbind outcome_bind]; [|done]. destruct r; [|done]. by destruct (_ || _).
Qed.
End Context_checks.

(** ** The invariant *)

Section Node.
Context `{CoinsStore V} (Verify : list Z → Z → list Z → bool).
Context (params : CChainParams) (nMaxMoneyOut : Z) (GetHash : CBlockHeader → Z) (up : upgrade_params).
Context (ModifierUpgradeBlock literal_address now : Z) (MessageStart : list Z).
Context (fopen_ok : Z → bool) (CheckDiskSpace : Z → bool).
Context (SetPubKey : list Z → bool) (GetPubKey : list Z → list Z).
Notation node := (node_state V).
Notation hash_of b := (GetHash (header b)).

(** The work of a proof-of-work block holds. *)
Definition work_holds (b : CBlock) : Prop :=
  block_IsProofOfWork (vtx b) = true → CheckProofOfWork params (uint256_limbs (hash_of b)) (h_nBits (header b)) = true.

(** The entries with data are backed by the blocks of the list. *)
Definition backed (m : block_index) (lb : list (CDiskBlockPos * CBlock)) : Prop :=
  ∀ p b, m !! p = Some b → have_data b = true → ∃ c, (GetBlockPos b, c) ∈ lb ∧ hash_of c = p ∧ work_holds c.

Record node_ok (x : node) : Prop := {
  no_tree : tree_ok (n_tree x);
  no_link : link_ok (t_sel (n_tree x));
  no_lost : none_lost [] (t_sel (n_tree x));
  no_bits p b : n_index x !! p = Some b → is_u 32 (nBits b);
  no_valid p b : n_index x !! p = Some b → failed b = true ∨ IsValid BLOCK_VALID_TREE b = Ok true;
  no_fresh p b : n_index x !! p = Some b → have_data b = false → nTx b = 0 ∧ nChainTx b = 0;
  no_coins : cs_ok (n_coins x);
  no_files : ∃ lb lu, files_ok SetPubKey (n_files x) lb lu ∧ backed (n_index x) lb
}.

(** Changes outside of what the invariant is about. *)
Definition quiet (x x' : node) : Prop :=
  t_sel (n_tree x') = t_sel (n_tree x) ∧ pindexBestHeader (n_tree x') = pindexBestHeader (n_tree x) ∧
  setDirtyBlockIndex (n_tree x') = setDirtyBlockIndex (n_tree x) ∧ n_files x' = n_files x ∧
  cs_ok (n_coins x') ∧ cs_utxo (n_coins x') = cs_utxo (n_coins x).
Lemma quiet_refl x : cs_ok (n_coins x) → quiet x x.
Proof. by repeat split. Qed.
Lemma quiet_trans x y z : quiet x y → quiet y z → quiet x z.
Proof. unfold quiet. intros (? & ? & ? & ? & ? & ?) (? & ? & ? & ? & ? & ?). split_and!; congruence. Qed.
Lemma quiet_index x x' : quiet x x' → n_index x' = n_index x.
Proof. intros (E & _). unfold n_index, t_index. by rewrite E. Qed.
Lemma node_ok_quiet x x' : quiet x x' → node_ok x → node_ok x'.
Proof.
  intros (E1 & E2 & E3 & E4 & Hc & _) [[T1 T2 T3 T4 T5] L1 L2 B1 B2 B3 _ F]. unfold n_index, t_index in *.
  split; unfold n_index, t_index; rewrite ?E1, ?E4; try done. split; unfold t_index; rewrite ?E1; try done. intros t Ht. rewrite E2 in Ht. by apply T5.
Qed.

Lemma node_wf x : node_ok x → index_wf (n_index x).
Proof. intros Hx. exact (so_wf _ (to_sel _ (no_tree _ Hx))). Qed.
Lemma node_chain x : node_ok x → chain_ok (n_index x) (n_active x) (active_tip (t_sel (n_tree x))).
Proof. intros Hx. exact (so_chain _ (to_sel _ (no_tree _ Hx))). Qed.

(** ** Reading *)

Lemma read_entry x p b c :
  node_ok x → n_index x !! p = Some b → ReadBlockFromDisk fopen_ok params GetHash (GetBlockPos b) (n_files x) = Some c →
  have_data b = true ∧ hash_of c = p.
Proof.
  intros Hx Hp Hr. destruct (have_data b) eqn:Ed.
  - split; [done|]. destruct (no_files _ Hx) as (lb & lu & Hf & Hb). destruct (Hb p b Hp Ed) as (d & Hin & Hh & Hw).
    assert (fopen_ok (p_file (GetBlockPos b)) = true) as Ho.
    { unfold ReadBlockFromDisk, OpenDiskFile in Hr. destruct (pos_IsNull _); [discriminate Hr|]. destruct (fopen_ok _); [done|discriminate Hr]. }
    pose proof (fo_blocks _ _ _ _ Hf) as Hall.
    pose proof (block_read fopen_ok params GetHash (n_files x) (GetBlockPos b, d) (proj1 (list.Forall_forall _ _) Hall _ Hin) Ho Hw) as Hd. cbn [fst snd] in Hd.
    rewrite Hd in Hr. by injection Hr as <-.
  - exfalso. unfold GetBlockPos in Hr. unfold have_data in Ed. rewrite Ed in Hr. discriminate Hr.
Qed.

Lemma GetTransaction_ok h hb slow x :
  node_ok x → ∃ r x', GetTransaction params GetHash fopen_ok h hb slow x = Ok (r, x') ∧ quiet x x'.
Proof.
  intros Hx. pose proof (no_coins _ Hx) as Hc. unfold GetTransaction. destruct (lookup_tx _ _); [by eexists _, x; split; [|apply quiet_refl]|].
  destruct (if n_fTxIndex x then n_txindex x !! h else None) as [p|].
  { destruct (read_tx_at _ _ _) as [[tx hd]|]; eexists _, x; (split; [reflexivity|by apply quiet_refl]). }
  destruct slow; [|by eexists _, x; split; [|apply quiet_refl]]. unfold GetTransaction_slow.
  pose proof (cs_access_spec (n_coins x) h Hc) as Hs. destruct (cs_access (n_coins x) h) as [coins v]. cbn in Hs. destruct Hs as (Hv & Hu & _).
  assert (quiet x (set_coins v x)) as Hq by (by repeat split).
  destruct coins as [c|]; [|by eexists _, _]. destruct (_ <=? 0); [by eexists _, _|].
  destruct (chain_at (n_active (set_coins v x)) (c_nHeight c)) as [p|] eqn:Ep; [|by eexists _, _].
  destruct (chain_at_entry (n_index x) (node_wf x Hx) (n_active x) _ (node_chain x Hx) (c_nHeight c) p Ep) as (b & Hb & _).
  unfold ReadBlockFromDisk_index. change (n_index (set_coins v x)) with (n_index x). rewrite (deref_some _ p b Hb). cbn [mbind outcome_bind].
  destruct (ReadBlockFromDisk _ _ _ _ _) as [blk|]; [|by eexists _, _]. destruct (_ =? p); cbn [mbind outcome_bind]; by eexists _, _.
Qed.
(** ** The proof of stake *)

Definition coinstake_input (b : CBlock) (tx : CTransaction) (i : CTxIn) : Prop :=
  vtx b !! 1%nat = Some tx ∧ IsCoinStake tx = true ∧ head (vin tx) = Some i.

(** The kernel: an output that the coinstake can spend, in a block of the index that
    is old enough and has a modifier, whose hash is below the bound. *)
Definition staked (x : node) (b : CBlock) (h : Z) : Prop :=
  ∃ tx i txPrev hb x' o e prev md, coinstake_input b tx i ∧
    GetTransaction params GetHash fopen_ok (prevout_hash (prevout i)) 0 true x = Ok (Some (txPrev, hb), x') ∧
    vout txPrev !! Z.to_nat (prevout_n (prevout i)) = Some o ∧
    VerifyInput Verify STANDARD_SCRIPT_VERIFY_FLAGS tx 0 (scriptPubKey o) = Ok tt ∧
    n_index x !! hb = Some e ∧ ReadBlockFromDisk fopen_ok params GetHash (GetBlockPos e) (n_files x) = Some prev ∧ hash_of prev = hb ∧
    old_enough prev (h_nTime (header b)) ∧ kernel_modifier (n_index x) (n_active x) e = Some md ∧
    h = stakeHash (h_nTime (header b)) (WRITEDATA 8 md) (prevout_n (prevout i)) (prevout_hash (prevout i)) (h_nTime (header prev)) ∧
    h < stake_bound (nValue o) (h_nBits (header b)).

(** The outputs of the transaction that is found have scripts of bytes and amounts,
    as those of every transaction that passed [CheckTransaction] do. *)
Definition found_outputs_ok (x : node) (b : CBlock) : Prop :=
  ∀ tx i txPrev hb x', coinstake_input b tx i →
    GetTransaction params GetHash fopen_ok (prevout_hash (prevout i)) 0 true x = Ok (Some (txPrev, hb), x') →
    ∀ n o, vout txPrev !! n = Some o → bytes_ok (scriptPubKey o) ∧ 0 ≤ nValue o < 2 ^ 63.

(** The coinstake names an output that the transaction it spends does not have: the
    code reads [txPrev.vout[n]] without a test. *)
Definition stake_out_of_range (x : node) (b : CBlock) : Prop :=
  ∃ tx i txPrev hb x', coinstake_input b tx i ∧
    GetTransaction params GetHash fopen_ok (prevout_hash (prevout i)) 0 true x = Ok (Some (txPrev, hb), x') ∧
    vout txPrev !! Z.to_nat (prevout_n (prevout i)) = None.

Lemma VerifyInput_returns flags b tx i script :
  block_ok b → coinstake_input b tx i → bytes_ok script → returns (VerifyInput Verify flags tx 0 script).
Proof.
  intros (_ & [Htx _] & _) (Ht & _ & Hi) Hs. unfold VerifyInput. destruct (vin tx) as [|j l] eqn:El; [discriminate Hi|]. injection Hi as ->.
  apply VerifyScript_total; [|done]. rewrite list.Forall_forall in Htx.
  destruct (Htx tx (list_elem_of_lookup_2 _ _ _ Ht)) as (_ & [Hin _] & _). rewrite El in Hin. apply list.Forall_cons in Hin as [Hin _]. apply Hin.
Qed.

Lemma CheckProofOfStake_ok x b :
  node_ok x → block_ok b → block_IsProofOfStake (vtx b) = true → found_outputs_ok x b →
  (stake_out_of_range x b ∧ CheckProofOfStake Verify params GetHash fopen_ok b x = AssertFail) ∨
  (¬ stake_out_of_range x b ∧ ∃ r x', CheckProofOfStake Verify params GetHash fopen_ok b x = Ok (r, x') ∧ quiet x x' ∧ ∀ h, r = Some h ↔ staked x b h).
Proof.
  intros Hx Hb Hpos Hin. assert (∃ tx, vtx b !! 1%nat = Some tx ∧ IsCoinStake tx = true) as (tx & Htx & Hcs).
  { destruct (vtx b) as [|t0 [|t1 l]]; [discriminate Hpos..|]. by exists t1. }
  assert (∃ i l, vin tx = i :: l) as (i & l & Ei) by (unfold IsCoinStake in Hcs; destruct (vin tx) as [|i l]; [discriminate Hcs|by eexists _, _]).
  assert (coinstake_input b tx i) as Hci by (split_and!; [done|done|by rewrite Ei]).
  unfold CheckProofOfStake. rewrite Htx, Hcs. cbn [negb]. rewrite Ei.
  destruct (GetTransaction_ok (prevout_hash (prevout i)) 0 true x Hx) as (r & x' & E & Hq). rewrite E. cbn [mbind outcome_bind].
  pose proof Hq as (Q1 & _ & _ & Q4 & _ & _). pose proof (quiet_index x x' Hq) as Qi. assert (n_active x' = n_active x) as Qa by (unfold n_active; by rewrite Q1).
  assert (∀ h, staked x b h → ∃ txPrev hb o e prev md, r = Some (txPrev, hb) ∧ vout txPrev !! Z.to_nat (prevout_n (prevout i)) = Some o ∧
    VerifyInput Verify STANDARD_SCRIPT_VERIFY_FLAGS tx 0 (scriptPubKey o) = Ok tt ∧
    n_index x !! hb = Some e ∧ ReadBlockFromDisk fopen_ok params GetHash (GetBlockPos e) (n_files x) = Some prev ∧ hash_of prev = hb ∧
    old_enough prev (h_nTime (header b)) ∧ kernel_modifier (n_index x) (n_active x) e = Some md ∧
    h = stakeHash (h_nTime (header b)) (WRITEDATA 8 md) (prevout_n (prevout i)) (prevout_hash (prevout i)) (h_nTime (header prev)) ∧
    h < stake_bound (nValue o) (h_nBits (header b))) as Hst.
  { intros h (tx2 & i2 & txPrev & hb & x2 & o & e & prev & md & (T & _ & I) & G & Hrest). rewrite Htx in T. injection T as <-.
    rewrite Ei in I. injection I as <-. rewrite E in G. injection G as -> ->. by exists txPrev, hb, o, e, prev, md. }
  assert (stake_out_of_range x b → ∃ txPrev hb, r = Some (txPrev, hb) ∧ vout txPrev !! Z.to_nat (prevout_n (prevout i)) = None) as Hrange.
  { intros (tx2 & i2 & txPrev & hb & x2 & (T & _ & I) & G & Hn). rewrite Htx in T. injection T as <-. rewrite Ei in I. injection I as <-.
    rewrite E in G. injection G as -> ->. by eexists _, _. }
  destruct r as [[txPrev hb]|].
  2: { right. split; [intros (? & ? & [=] & _)%Hrange|]. eexists _, _. split; [reflexivity|]. split; [done|]. intros h. split; [intros [=]|]. intros (? & ? & ? & ? & ? & ? & [=] & _)%Hst. }
  destruct (vout txPrev !! Z.to_nat (prevout_n (prevout i))) as [o|] eqn:Ho; [right|left; split; [by exists tx, i, txPrev, hb, x'|done]].
  split; [intros (? & ? & [= <- <-] & Hn)%Hrange; congruence|].
  destruct (Hin tx i txPrev hb x' Hci E _ o Ho) as (Hbytes & Hval).
  pose proof (VerifyInput_returns STANDARD_SCRIPT_VERIFY_FLAGS b tx i (scriptPubKey o) Hb Hci Hbytes) as Hv. apply returns_spec in Hv as [[[] Ev]|[e Ev]]; rewrite Ev.
  2: { eexists _, _. split; [reflexivity|]. split; [done|]. intros h. split; [intros [=]|]. intros (? & ? & ? & ? & ? & ? & [= <- <-] & Ho' & Hv' & _)%Hst. congruence. }
  rewrite Qi. destruct (n_index x !! hb) as [e|] eqn:Ee.
  2: { eexists _, _. split; [reflexivity|]. split; [done|]. intros h. split; [intros [=]|]. intros (? & ? & ? & ? & ? & ? & [= <- <-] & _ & _ & He & _)%Hst. congruence. }
  rewrite Q4. destruct (ReadBlockFromDisk fopen_ok params GetHash (GetBlockPos e) (n_files x)) as [prev|] eqn:Er.
  2: { eexists _, _. split; [reflexivity|]. split; [done|]. intros h. split; [intros [=]|]. intros (? & ? & ? & ? & ? & ? & [= <- <-] & _ & _ & He & Hr & _)%Hst. congruence. }
  destruct (read_entry x hb e prev Hx Ee Er) as [_ Hh]. rewrite Qa, Hh. assert (is_u 32 (h_nBits (header b))) as Hbits by apply Hb.
  destruct (kernel_exact (n_index x) (n_active x) (h_nBits (header b)) prev hb txPrev (prevout i) o Ho Hval Hbits (node_wf x Hx) _ (node_chain x Hx) e Ee (h_nTime (header b)) 0)
    as (ok & k & Ek & Hok). rewrite Ek. cbn [mbind outcome_bind]. eexists _, _. split; [reflexivity|]. split; [done|].
  assert (∀ md, old_enough prev (h_nTime (header b)) → kernel_modifier (n_index x) (n_active x) e = Some md →
    k = stakeHash (h_nTime (header b)) (WRITEDATA 8 md) (prevout_n (prevout i)) (prevout_hash (prevout i)) (h_nTime (header prev))) as Hk.
  { intros md Hold Hmd. pose proof (modifier_found (n_index x) (n_active x) hb (node_wf x Hx) _ (node_chain x Hx) e Ee) as Hf. rewrite Hmd in Hf.
    pose proof (check_eq (n_index x) (n_active x) (h_nBits (header b)) prev hb txPrev (prevout i) o Ho Hval Hbits _ 0 md Hold Hf) as Hc. congruence. }
  intros h. split.
  - destruct ok; [|intros [=]]. intros [= <-]. destruct (proj1 Hok eq_refl) as (Hold & md & Hmd & Hlt). pose proof (Hk md Hold Hmd) as ->.
    by exists tx, i, txPrev, hb, x', o, e, prev, md.
  - intros (? & ? & o' & e' & prev' & md & [= <- <-] & Ho' & _ & He' & Hr' & _ & Hold & Hmd & -> & Hlt)%Hst.
    assert (o' = o ∧ e' = e) as [-> ->] by (split; congruence). assert (prev' = prev) as -> by congruence.
    rewrite (proj2 Hok) by (split; [done|]; by exists md). by rewrite (Hk md Hold Hmd).
Qed.

(** ** CheckWork *)

(** The bits are those required (early blocks: near them), and a proof-of-stake block
    has its kernel. *)
Definition work_checked (x : node) (b : CBlock) (p : Z) (prev : CBlockIndex) : Prop :=
  ∃ req, GetNextWorkRequired params (n_index x) (Some p) = Ok req ∧
    if block_IsProofOfWork (vtx b) && (nHeight prev + 1 <=? last_near_height) then near_bits (h_nBits (header b)) req = true
    else h_nBits (header b) = req ∧ (block_IsProofOfStake (vtx b) = true → ∃ h, staked x b h).

(** The kernel of a proof-of-stake block is only looked for when its bits are right. *)
Definition work_reads_past (x : node) (b : CBlock) (p : Z) : Prop :=
  GetNextWorkRequired params (n_index x) (Some p) = Ok (h_nBits (header b)) ∧ block_IsProofOfStake (vtx b) = true ∧ stake_out_of_range x b.

Context (Hlim : limbs_ok 8 (ProofOfWorkLimit params)) (Hspacing : 0 < TargetSpacing params < 2 ^ 20).

Lemma CheckWork_ok x b p prev :
  node_ok x → n_index x !! p = Some prev → block_ok b → found_outputs_ok x b →
  (work_reads_past x b p ∧ CheckWork Verify params GetHash fopen_ok b (Some p) x = AssertFail) ∨
  (¬ work_reads_past x b p ∧ ∃ r x', CheckWork Verify params GetHash fopen_ok b (Some p) x = Ok (r, x') ∧ quiet x x' ∧ (r = true ↔ work_checked x b p prev)).
Proof.
  intros Hx Hp Hb Hin. pose proof (quiet_refl x (no_coins _ Hx)) as Hq0. unfold CheckWork. rewrite (deref_some _ p prev Hp). cbn [mbind outcome_bind].
  destruct (next_work_bounded params (n_index x) p prev (node_wf x Hx) (no_bits _ Hx) Hp Hlim Hspacing) as (req & rr & Er & _). rewrite Er. cbn [no_err mbind outcome_bind].
  assert (∀ P : Prop, ((if block_IsProofOfWork (vtx b) && (nHeight prev + 1 <=? last_near_height) then near_bits (h_nBits (header b)) req = true
    else h_nBits (header b) = req ∧ (block_IsProofOfStake (vtx b) = true → ∃ h, staked x b h)) ↔ P) → (work_checked x b p prev ↔ P)) as Hiff.
  { intros P <-. unfold work_checked. rewrite Er. split; [by intros (? & [= <-] & ?)|by eauto]. }
  unfold work_reads_past. rewrite Er. destruct (block_IsProofOfWork (vtx b) && _) eqn:Enear.
  { right. split; [intros (_ & Hs & _); unfold block_IsProofOfWork in Enear; rewrite Hs in Enear; discriminate Enear|]. eexists _, x. split; [reflexivity|]. split; [done|]. symmetry. by apply Hiff. }
  destruct (Z.eqb_spec (h_nBits (header b)) req) as [Heq|Hne]; cbn [negb].
  2: { right. split; [intros ([= ->] & _); done|]. eexists _, x. split; [reflexivity|]. split; [done|]. symmetry. apply Hiff. split; [by intros [? _]|by intros ?]. }
  destruct (block_IsProofOfStake (vtx b)) eqn:Epos.
  2: { right. split; [intros (_ & [=] & _)|]. eexists _, x. split; [reflexivity|]. split; [done|]. symmetry. apply Hiff. by split. }
  destruct (CheckProofOfStake_ok x b Hx Hb Epos Hin) as [[Hout ->]|(Hout & r & x1 & -> & Hq & Hr)]; [left; by rewrite Heq|right].
  split; [by intros (_ & _ & ?)|]. cbn [mbind outcome_bind].
  destruct r as [h|]; eexists _, _; (split; [reflexivity|]).
  - split; [exact Hq|]. symmetry. apply Hiff. split; [done|]. intros _. split; [done|]. intros _. exists h. by apply Hr.
  - split; [done|]. symmetry. apply Hiff. split; [|by intros ?]. intros [_ H1]. destruct (H1 eq_refl) as [h Hh]. by apply Hr in Hh.
Qed.

(** ** The header *)

Lemma path_txs_added m m' hash b e p c :
  index_wf m → index_wf m' → m !! hash = None → added m m' hash b e → m !! p = Some c → path_txs m' p = path_txs m p.
Proof.
  intros Hwf Hwf' Hh Ha. remember (Z.to_nat (nHeight c)) as n eqn:En. revert p c En. induction n as [n IH] using lt_wf_ind. intros p c -> Hp.
  assert (∃ c', m' !! p = Some c' ∧ bare c' = bare c) as (c' & Hc' & (Ep & _ & _ & Et)%bare_eq).
  { rewrite (ad_others _ _ _ _ _ Ha) by congruence. rewrite Hp. case_bool_decide; by eexists. }
  rewrite (path_txs_step m p c Hwf Hp), (path_txs_step m' p c' Hwf' Hc'), Ep, Et. f_equal. destruct (pprev c) as [q|] eqn:Eq; [|done].
  destruct (wf_pprev m Hwf p c q Hp Eq) as (d & Hd & Hhd). pose proof (wf_height m Hwf q d Hd). eapply (IH (Z.to_nat (nHeight d))); [lia|done|done].
Qed.

(** An entry of the new index is the block's, or an old one up to its forward link. *)
Lemma added_entry m m' hash b e p c :
  added m m' hash b e → m' !! p = Some c → p = hash ∧ c = e ∨ p ≠ hash ∧ ∃ d, m !! p = Some d ∧ (c = d ∨ c = set_pnext (Some hash) d).
Proof.
  intros Ha Hc. destruct (decide (p = hash)) as [->|Hne]; [left; split; [done|]; pose proof (ad_here _ _ _ _ _ Ha); congruence|]. right. split; [done|].
  rewrite (ad_others _ _ _ _ _ Ha) in Hc by done. case_bool_decide; [|by exists c; auto].
  destruct (m !! p) as [d|]; [|discriminate Hc]. injection Hc as <-. exists d. auto.
Qed.

Lemma added_link m m' hash b e x :
  index_wf m → index_wf m' → m !! hash = None → added m m' hash b e → s_index x = m → sel_ok (set_index m' x) → tx_linked m' →
  link_ok x → none_lost [] x → link_ok (set_index m' x) ∧ none_lost [] (set_index m' x).
Proof.
  intros Hwf Hwf' Hh Ha <- Hsel Htl [_ _ Hcn Hwt] Hlost. destruct (ad_state _ _ _ _ _ Ha) as (_ & Hn0 & Hc0 & _).
  assert (∀ p d, s_index x !! p = Some d → ∃ d', m' !! p = Some d' ∧ pprev d' = pprev d ∧ nTx d' = nTx d ∧ nChainTx d' = nChainTx d ∧ nStatus d' = nStatus d) as Hold.
  { intros p d Hp. rewrite (ad_others _ _ _ _ _ Ha) by congruence. rewrite Hp. case_bool_decide; by eexists. }
  split; [split; [done|done| |]|]; cbn [s_index s_unlinked set_index].
  - intros p c Hp. destruct (added_entry _ _ _ _ _ p c Ha Hp) as [[-> ->]|(Hne & d & Hd & Hcd)]; [by rewrite Hn0, Hc0|].
    rewrite (path_txs_added _ _ _ _ _ p d Hwf Hwf' Hh Ha Hd). destruct Hcd as [->| ->]; by apply (Hcn p d).
  - intros q p Hin. destruct (Hwt q p Hin) as (d & Hd & Hpd & Hnd & Hz). destruct (Hold p d Hd) as (d' & Hd' & Ep & Et & _). exists d'. rewrite Ep, Et.
    split_and!; [done..|]. intros c Hc. destruct (added_entry _ _ _ _ _ q c Ha Hc) as [[-> ->]|(Hne & d2 & Hd2 & Hcd)]; [done|].
    destruct Hcd as [->| ->]; by apply (Hz d2).
  - intros p c Hp Hn Hz. destruct (added_entry _ _ _ _ _ p c Ha Hp) as [[-> ->]|(Hne & d & Hd & Hcd)]; [done|]. right.
    assert (pprev c = pprev d ∧ nTx c = nTx d ∧ nChainTx c = nChainTx d) as (Ep & Et & Ec) by (by destruct Hcd as [->| ->]). rewrite Et in Hn. rewrite Ec in Hz. rewrite Ep.
    destruct (Hlost p d Hd Hn Hz) as [Hin|(q & c2 & Hq & Hc2 & Hw)]; [apply elem_of_nil in Hin; destruct Hin|].
    destruct (Hold q c2 Hc2) as (c3 & Hc3 & _ & _ & _ & Es). exists q, c3. split_and!; [done|done|]. by rewrite (IsValid_status _ c2 c3 Es).
Qed.

(** What is asked of a block: it can be serialized, its hash is not its predecessor's,
    its bits prove some work, which does not overflow the chain's. *)
Record offer_ok (x : node) (b : CBlock) : Prop := {
  of_block : block_ok b;
  of_hash : hash_of b ≠ hashPrevBlock (header b);
  of_work : 0 < block_work (h_nBits (header b));
  of_fits : from_option work 0 (n_index x !! hashPrevBlock (header b)) + block_work (h_nBits (header b)) < 2 ^ 256;
  of_txs p : path_txs (n_index x) p + Z.of_nat (length (vtx b)) < 2 ^ 32
}.
Lemma offer_ok_quiet x x' b : quiet x x' → offer_ok x b → offer_ok x' b.
Proof. intros Hq [? ? ? Hf Ht]. pose proof (quiet_index x x' Hq) as E. by split; rewrite ?E. Qed.

Lemma add_header_ok x b :
  node_ok x → offer_ok x b → n_index x !! hash_of b = None →
  ∃ t e, AddToBlockIndex (HashGenesisBlock up) ModifierUpgradeBlock literal_address (hash_of b) b (n_tree x) = Ok t ∧
    node_ok (set_tree t x) ∧ added (n_index x) (t_index t) (hash_of b) b e ∧ s_active (t_sel t) = n_active x.
Proof.
  intros Hx Ho Hh. destruct Ho as [Hb Hhash Hw Hf _]. assert (is_u 32 (h_nBits (header b))) as Hbits by apply Hb.
  destruct (add_ok (HashGenesisBlock up) ModifierUpgradeBlock literal_address (hash_of b) b (n_tree x) (no_tree _ Hx) Hh Hhash Hbits Hw Hf)
    as (t & e & E & Ht & Ha & Es & _). exists t, e. split_and!; [done| |done|by rewrite Es]. destruct (ad_state _ _ _ _ _ Ha) as (S0 & T0 & C0 & _).
  destruct (added_link (n_index x) (t_index t) (hash_of b) b e (t_sel (n_tree x)) (node_wf x Hx) (so_wf _ (to_sel _ Ht)) Hh Ha) as [Hl Hlost];
    [done|by rewrite <- Es; apply Ht|apply Ht|apply Hx|apply Hx|]. rewrite <- Es in Hl, Hlost.
  assert (∀ P : CBlockIndex → Prop, P e → (∀ d, (∃ p, n_index x !! p = Some d) → P d ∧ P (set_pnext (Some (hash_of b)) d)) → ∀ p c, t_index t !! p = Some c → P c) as Hall.
  { intros P He Hd p c Hc. destruct (added_entry _ _ _ _ _ p c Ha Hc) as [[-> ->]|(_ & d & Hpd & Hcd)]; [done|].
    destruct (Hd d) as [? ?]; [by eexists|]. by destruct Hcd as [->| ->]. }
  split; unfold n_index; cbn [n_tree n_files n_coins set_tree]; [done|done|done| | | |apply Hx|].
  - apply Hall; [destruct (ad_header _ _ _ _ _ Ha) as (_ & _ & -> & _); done|]. intros d [p Hp]. split; by apply (no_bits _ Hx p d).
  - apply (Hall (λ c, failed c = true ∨ IsValid BLOCK_VALID_TREE c = Ok true)); [cbn beta; right; unfold IsValid; by rewrite S0|].
    intros d [p Hp]. split; by apply (no_valid _ Hx p d).
  - apply (Hall (λ c, have_data c = false → nTx c = 0 ∧ nChainTx c = 0)); [done|]. intros d [p Hp]. split; by apply (no_fresh _ Hx p d).
  - destruct (no_files _ Hx) as (lb & lu & Hfiles & Hback). exists lb, lu. split; [done|]. intros p c Hc Hd.
    destruct (added_entry _ _ _ _ _ p c Ha Hc) as [[-> ->]|(_ & d & Hpd & Hcd)]; [unfold have_data in Hd; rewrite S0 in Hd; discriminate Hd|].
    assert (have_data d = true) as Hdd by (by destruct Hcd as [->| ->]). destruct (Hback p d Hpd Hdd) as (blk & Hin & ?). exists blk.
    assert (GetBlockPos c = GetBlockPos d) as -> by (by destruct Hcd as [->| ->]). done.
Qed.

(** ** What changes on the way *)

(** The chain and the unspent outputs stay, and no entry gains data. *)
Definition same_chain (x x' : node) : Prop := n_active x' = n_active x ∧ cs_utxo (n_coins x') = cs_utxo (n_coins x).
Definition data_from (x x' : node) : Prop :=
  ∀ p e', n_index x' !! p = Some e' → have_data e' = true → ∃ e, n_index x !! p = Some e ∧ have_data e = true ∧ bi_disk e' = bi_disk e.
Definition settled (x x' : node) : Prop := node_ok x' ∧ same_chain x x' ∧ data_from x x'.
Lemma settled_refl x : node_ok x → settled x x.
Proof. intros Hx. split_and!; [done|done|]. intros p e He Hd. by exists e. Qed.
Lemma same_chain_trans x y z : same_chain x y → same_chain y z → same_chain x z.
Proof. intros [? ?] [? ?]. split; congruence. Qed.
Lemma settled_trans x y z : settled x y → settled y z → settled x z.
Proof.
  intros (_ & S1 & D1) (Hz & S2 & D2). split_and!; [done|by eapply same_chain_trans|]. intros p e He Hd.
  destruct (D2 p e He Hd) as (e1 & He1 & Hd1 & E1), (D1 p e1 He1 Hd1) as (e0 & He0 & Hd0 & E0). exists e0. split_and!; congruence.
Qed.
Lemma settled_quiet x x' : node_ok x → quiet x x' → settled x x'.
Proof.
  intros Hx Hq. split_and!; [by eapply node_ok_quiet|split; [unfold n_active; by rewrite (proj1 Hq)|apply Hq]|].
  intros p e. rewrite (quiet_index x x' Hq). intros He Hd. by exists e.
Qed.

Lemma add_header_settled x b t e :
  node_ok (set_tree t x) → added (n_index x) (t_index t) (hash_of b) b e → s_active (t_sel t) = n_active x → settled x (set_tree t x).
Proof.
  intros Hn Ha Hs. split_and!; [done|by split|]. intros p c Hc Hd.
  destruct (added_entry _ _ _ _ _ p c Ha Hc) as [[-> ->]|(_ & d & Hpd & Hcd)].
  - destruct (ad_state _ _ _ _ _ Ha) as (S0 & _). unfold have_data in Hd. rewrite S0 in Hd. discriminate Hd.
  - exists d. split; [done|]. by destruct Hcd as [->| ->].
Qed.

(** The predecessor is known, or the block is the first one. *)
Lemma find_prev_ok (x : node) b :
  (find_prev GetHash up b x = Ok None ∧ hash_of b = HashGenesisBlock up) ∨
  (find_prev GetHash up b x = Ok (Some (hashPrevBlock (header b))) ∧ hash_of b ≠ HashGenesisBlock up ∧
    ∃ c, n_index x !! hashPrevBlock (header b) = Some c ∧ failed c = false) ∨
  ∃ e, find_prev GetHash up b x = Err e.
Proof.
  unfold find_prev. destruct (Z.eqb_spec (hash_of b) (HashGenesisBlock up)); [by left|]. right.
  destruct (n_index x !! _) as [c|] eqn:E; [|right; by eexists]. fold (failed c). destruct (failed c) eqn:Ef; [right; by eexists|]. left. eauto.
Qed.

Lemma path_txs_bound x t e b :
  node_ok x → node_ok (set_tree t x) → offer_ok x b → n_index x !! hash_of b = None → added (n_index x) (t_index t) (hash_of b) b e →
  ∀ p, path_txs (t_index t) p + Z.of_nat (length (vtx b)) < 2 ^ 32.
Proof.
  intros Hx Hn Ho Hh Ha p. pose proof (node_wf x Hx) as Hwf. pose proof (node_wf _ Hn) as Hwf'. change (n_index (set_tree t x)) with (t_index t) in Hwf'.
  pose proof (of_txs _ _ Ho) as Hfit. destruct (ad_state _ _ _ _ _ Ha) as (_ & T0 & _).
  destruct (t_index t !! p) as [c|] eqn:Ec; [|unfold path_txs in *; rewrite Ec; specialize (Hfit (hash_of b)); unfold path_txs in Hfit; by rewrite Hh in Hfit].
  destruct (added_entry _ _ _ _ _ p c Ha Ec) as [[-> ->]|(_ & d & Hd & _)]; [|by rewrite (path_txs_added _ _ _ _ _ p d Hwf Hwf' Hh Ha Hd)].
  rewrite (path_txs_step _ _ _ Hwf' Ec), T0. pose proof (ad_links _ _ _ _ _ Ha) as Hl. destruct (n_index x !! hashPrevBlock (header b)) as [c0|] eqn:E0.
  - destruct Hl as [-> _]. rewrite (path_txs_added _ _ _ _ _ _ c0 Hwf Hwf' Hh Ha E0). apply Hfit.
  - destruct Hl as [-> _]. specialize (Hfit (hash_of b)). unfold path_txs in Hfit. rewrite Hh in Hfit. lia.
Qed.

Lemma AcceptBlockHeader_ok (env : node_env) x b :
  node_ok x → offer_ok x b →
  (∃ e, AcceptBlockHeader params GetHash up ModifierUpgradeBlock literal_address env b x = Err e) ∨
  ∃ x' e, AcceptBlockHeader params GetHash up ModifierUpgradeBlock literal_address env b x = Ok x' ∧ settled x x' ∧
    n_index x' !! hash_of b = Some e ∧ failed e = false ∧ n_files x' = n_files x ∧ ∀ p, path_txs (n_index x') p + Z.of_nat (length (vtx b)) < 2 ^ 32.
Proof.
  intros Hx Ho. unfold AcceptBlockHeader. destruct (n_index x !! hash_of b) as [e|] eqn:Eh.
  { fold (failed e). destruct (failed e) eqn:Ef; [left; by eexists|]. right. exists x, e. split_and!; [done|by apply settled_refl|done|done|done|apply Ho]. }
  unfold CheckBlockHeader. cbn [andb map_err mbind outcome_bind].
  assert ((∃ e, find_prev GetHash up b x = Err e) ∨ ∃ prev, find_prev GetHash up b x = Ok prev ∧ returns (ContextualCheckBlockHeader up GetHash (env_at env x) (header b) prev))
    as [[e ->]|(prev & -> & Hr)]; [|left; by eexists|].
  { destruct (find_prev_ok x b) as [[E Hg]|[(E & Hg & c & Hc & _)|He]]; [right|right|by left]; (eexists; split; [exact E|]);
      (apply header_context_returns; [exact (node_wf x Hx)|]); [by left|right; eexists; split; [reflexivity|by exists c]]. }
  cbn [mbind outcome_bind]. apply returns_spec in Hr as [[[] ->]|[e ->]]; cbn [map_err mbind outcome_bind]; [|left; by eexists].
  right. destruct (add_header_ok x b Hx Ho Eh) as (t & e & -> & Hn & Ha & Hs). cbn [no_err mbind outcome_bind]. exists (set_tree t x), e.
  destruct (ad_state _ _ _ _ _ Ha) as (S0 & T0 & _).
  split_and!; [done|by eapply add_header_settled|exact (ad_here _ _ _ _ _ Ha)|unfold failed; by rewrite S0|done|exact (path_txs_bound x t e b Hx Hn Ho Eh Ha)].
Qed.

(** ** The block *)

Context (Hmoney : 0 ≤ nMaxMoneyOut < 2 ^ 62).

Lemma env_at_ok env x : node_ok x → env_ok (env_at env x).
Proof.
  intros Hx p Hp. change (is_Some (n_index x !! p)). change (list.last (n_active x) = Some (Some p)) in Hp.
  pose proof (node_chain x Hx) as Hc. unfold active_tip in Hc. change (s_active (t_sel (n_tree x))) with (n_active x) in Hc.
  rewrite Hp in Hc. destruct Hc as (c & Hc & _). by exists c.
Qed.

Lemma check_block_ok env x b e :
  node_ok x → n_index x !! hash_of b = Some e →
  (check_block params nMaxMoneyOut GetHash up env b (pprev e) x = Ok tt ∧
     block_valid params nMaxMoneyOut GetHash (env_at env x) true b ∧ ContextualCheckBlock up (env_at env x) b (pprev e) = Ok tt) ∨
  ∃ r, check_block params nMaxMoneyOut GetHash up env b (pprev e) x = Err r.
Proof.
  intros Hx He. unfold check_block. destruct (CheckBlock_valid params nMaxMoneyOut GetHash (env_at env x) b true Hmoney (env_at_ok env x Hx)) as [Hr Hv].
  apply returns_spec in Hr as [[[] E]|[r E]]; rewrite E; cbn [map_err mbind outcome_bind]; [|right; by eexists].
  pose proof (proj1 Hv E) as Hval. assert (returns (ContextualCheckBlock up (env_at env x) b (pprev e))) as Hc.
  { apply block_context_returns; [exact (node_wf x Hx)| |apply Hval]. change (mapBlockIndex (env_at env x)) with (n_index x).
    destruct (pprev e) as [q|] eqn:Eq; [|done]. destruct (wf_pprev _ (node_wf x Hx) _ e q He Eq) as (c & Hc & _). by exists c. }
  apply returns_spec in Hc as [[[] Ec]|[r Ec]]; rewrite Ec; cbn [map_err]; [left|right; by eexists]. done.
Qed.

Lemma valid_work_holds env b : block_valid params nMaxMoneyOut GetHash env true b → work_holds b.
Proof.
  intros Hv Hw. apply Hv. unfold block_IsProofOfWork in Hw. by destruct (block_IsProofOfStake (vtx b)).
Qed.

Lemma flag_failed s : flag (Z.lor s BLOCK_FAILED_VALID) BLOCK_FAILED_MASK = true.
Proof. rewrite flag_lor. apply orb_true_r. Qed.

Lemma mark_failed_ok x p e :
  node_ok x → n_index x !! p = Some e → ∃ x', mark_failed p x = Ok x' ∧ settled x x'.
Proof.
  intros Hx He. unfold mark_failed. rewrite (add_status_ok _ p _ e He). cbn [mbind outcome_bind]. eexists. split; [reflexivity|].
  set (e' := set_nStatus (Z.lor (nStatus e) BLOCK_FAILED_VALID) e). pose proof (node_wf x Hx) as Hwf. destruct Hx as [[T1 T2 T3 T4 T5] [L1 L2 L3 L4] Hlost B1 B2 B3 Hco (lb & lu & Hf & Hback)].
  assert (have_data e' = have_data e) as Hdata by (unfold have_data, e'; cbn [nStatus set_nStatus]; rewrite flag_lor; apply orb_false_r).
  assert (failed e' = true) as Hfail by apply flag_failed.
  unfold n_index, n_active, t_index in *. cbn [n_tree t_sel set_tree] in *. set (m := s_index (t_sel (n_tree x))) in *.
  assert (same_shape m (<[p := e']> m)) as Hsh by (by eapply shape_insert). assert (links_eq m (<[p := e']> m)) as Hlk by (by eapply links_insert).
  assert (∀ P : Z → CBlockIndex → Prop, (∀ q c, m !! q = Some c → P q c) → (P p e → P p e') → ∀ q c, <[p := e']> m !! q = Some c → P q c) as Hall.
  { intros P HP Hpe q c. rewrite lookup_insert_Some. intros [[<- <-]|[_ Hq]]; [by apply Hpe, HP|by apply HP]. }
  split_and!; [|done|].
  2: { intros q c. unfold n_index, t_index. cbn [n_tree t_sel set_tree s_index set_index]. fold m. rewrite lookup_insert_Some.
       intros [[<- <-]|[_ Hq]] Hd; [exists e|by exists c]. split_and!; [done|by rewrite <- Hdata|done]. }
  split; unfold n_index, t_index; cbn [n_tree t_sel set_tree s_index set_index n_coins n_files]; fold m.
  - split; unfold t_index; cbn [t_sel s_index set_index pindexBestHeader]; fold m.
    + by apply sel_ok_index.
    + unfold modifier_started. apply (Hall (λ _ c, nHeight c = 1 → GeneratedStakeModifier c = true)); [exact T2|done].
    + by eapply growing_shape.
    + by eapply tx_linked_shape.
    + intros t Ht. apply lookup_insert_is_Some'. right. by apply T5.
  - split; cbn [s_index s_unlinked set_index]; fold m; [by apply sel_ok_index|by eapply tx_linked_shape| |].
    + intros q c Hq. rewrite (path_txs_links m _ q Hlk). revert q c Hq. apply (Hall (λ q c, 0 ≤ nTx c ∧ (nChainTx c ≠ 0 → nTx c ≠ 0 ∧ nChainTx c = path_txs m q))); [exact L3|done].
    + intros q r Hin. cbn [s_index s_unlinked set_index] in *. fold m. destruct (L4 q r Hin) as (d & Hd & Hpd & Hnd & Hz).
      assert (∃ d', <[p := e']> m !! r = Some d' ∧ pprev d' = pprev d ∧ nTx d' = nTx d) as (d' & Hd' & Ep & Et).
      { destruct (decide (r = p)) as [Erp|]; [|exists d; by rewrite lookup_insert_ne]. subst r. fold m in Hd. exists e'. rewrite lookup_insert_eq. rewrite He in Hd. by injection Hd as <-. }
      exists d'. rewrite Ep, Et. split_and!; [done..|]. intros c Hc.
      refine (Hall (λ q' c', q' = q → nChainTx c' = 0) _ _ q c Hc eq_refl); [|done]. intros q' c' Hc' ->. by apply Hz.
  - intros q c Hq Hn Hz. right. cbn [s_index s_unlinked set_index] in *. fold m in Hq |- *.
    assert (∃ c0, m !! q = Some c0 ∧ pprev c0 = pprev c ∧ nTx c0 = nTx c ∧ nChainTx c0 = nChainTx c) as (c0 & Hc0 & Ep & Et & Ec).
    { apply lookup_insert_Some in Hq as [[<- <-]|[_ Hq]]; [by exists e|by exists c]. }
    destruct (Hlost q c0 Hc0) as [Hin|(r & d & Hr & Hd & Hw)]; [congruence|congruence|apply elem_of_nil in Hin; destruct Hin|]. rewrite <- Ep. cbn [s_index] in Hd. fold m in Hd.
    destruct (decide (r = p)) as [->|Hrp].
    + exists p, e'. rewrite lookup_insert_eq. split_and!; [done|done|]. right. unfold IsValid. fold (failed e'). rewrite Hfail.
      change (flag BLOCK_VALID_TREE (Z.lnot BLOCK_VALID_MASK)) with false. discriminate.
    + exists r, d. rewrite lookup_insert_ne by done. done.
  - apply (Hall (λ _ c, is_u 32 (nBits c))); [exact B1|done].
  - apply (Hall (λ _ c, failed c = true ∨ IsValid BLOCK_VALID_TREE c = Ok true)); [exact B2|by left].
  - apply (Hall (λ _ c, have_data c = false → nTx c = 0 ∧ nChainTx c = 0)); [exact B3|]. by rewrite Hdata.
  - exact Hco.
  - exists lb, lu. split; [done|]. unfold backed. apply (Hall (λ q c, have_data c = true → ∃ blk, (GetBlockPos c, blk) ∈ lb ∧ hash_of blk = q ∧ work_holds blk)); [exact Hback|].
    rewrite Hdata. intros H1 H2. destruct (H1 H2) as (blk & Hin & ?). exists blk. split; [|done].
    assert (GetBlockPos e' = GetBlockPos e) as ->; [|done]. unfold GetBlockPos. fold (have_data e) (have_data e'). rewrite Hdata, H2. done.
Qed.

(** Transactions of one block are counted at most once on a path. *)
Lemma path_txs_grow m p b b' n :
  index_wf m → m !! p = Some b → core b' = core b → nTx b' = nTx b + n → 0 ≤ n →
  ∀ r c, m !! r = Some c →
    path_txs (<[p := b']> m) r ≤ path_txs m r + n ∧ (nHeight c < nHeight b → path_txs (<[p := b']> m) r = path_txs m r).
Proof.
  intros Hwf Hp Hcore Hn H0 r c. assert (same_shape m (<[p := b']> m)) as Hsh by (by eapply shape_insert).
  assert (index_wf (<[p := b']> m)) as Hwf' by (by rewrite <- Hsh).
  assert (pprev b' = pprev b ∧ nHeight b' = nHeight b) as [Ep Eh] by (clear -Hcore; destruct b, b'; by injection Hcore).
  remember (Z.to_nat (nHeight c)) as k eqn:Ek. revert r c Ek. induction k as [k IH] using lt_wf_ind. intros r c -> Hr. rewrite (path_txs_step m r c Hwf Hr).
  assert (∀ q, pprev c = Some q → ∃ d, m !! q = Some d ∧ nHeight c = nHeight d + 1 ∧ 0 ≤ nHeight d) as Hq.
  { intros q Hq. destruct (wf_pprev m Hwf r c q Hr Hq) as (d & Hd & Hh). exists d. split_and!; [done|lia|by apply (wf_height m Hwf q)]. }
  destruct (decide (r = p)) as [->|Hne].
  - assert (c = b) as -> by congruence. split; [|lia]. rewrite (path_txs_step _ p b' Hwf' (lookup_insert_eq m p b')), Ep, Hn.
    destruct (pprev b) as [q|] eqn:Eq; [|lia]. destruct (Hq q eq_refl) as (d & Hd & Hh & Hd0).
    destruct (IH (Z.to_nat (nHeight d)) ltac:(lia) q d eq_refl Hd) as [_ ->]; lia.
  - assert (<[p := b']> m !! r = Some c) as Hr' by (by rewrite lookup_insert_ne). rewrite (path_txs_step _ r c Hwf' Hr').
    destruct (pprev c) as [q|] eqn:Eq; [|lia]. destruct (Hq q eq_refl) as (d & Hd & Hh & Hd0).
    destruct (IH (Z.to_nat (nHeight d)) ltac:(lia) q d eq_refl Hd) as [Hle Heq]. split; [lia|]. intros Hc. rewrite Heq; lia.
Qed.

(** The transactions of a stored block arrive. *)
Lemma receive_ok (addr : Z → Z) x b e file pos lb lu :
  node_ok x → n_index x !! hash_of b = Some e → have_data e = false → failed e = false → vtx b ≠ [] →
  (∀ p, path_txs (n_index x) p + Z.of_nat (length (vtx b)) < 2 ^ 32) →
  files_ok SetPubKey (n_files x) lb lu → backed (n_index x) lb → (DiskBlockPos file pos, b) ∈ lb → work_holds b →
  ∃ s, ReceivedBlockTransactions addr (vtx b) (hash_of b) file pos (t_sel (n_tree x)) = Ok s ∧
    let x' := set_tree (Tree s (setStakeSeen (n_tree x)) (mapProofOfStake (n_tree x)) (pindexBestHeader (n_tree x)) ({[ hash_of b ]} ∪ setDirtyBlockIndex (n_tree x))) x in
    node_ok x' ∧ same_chain x x' ∧
    ∃ e', n_index x' !! hash_of b = Some e' ∧ GetBlockPos e' = DiskBlockPos file pos ∧ failed e' = false ∧ nTx e' = Z.of_nat (length (vtx b)).
Proof.
  intros Hx He Hnd Hnf Hvtx Hfit Hfiles Hback Hin Hwork. destruct (no_fresh _ Hx _ e He Hnd) as [Hn0 Hc0].
  assert (IsValid BLOCK_VALID_TREE e = Ok true) as Hv by (destruct (no_valid _ Hx _ e He); [congruence|done]).
  destruct (receive_links addr (vtx b) (hash_of b) file pos (t_sel (n_tree x)) e (no_link _ Hx) (no_lost _ Hx) He Hn0 Hc0 Hv Hvtx) as (s & -> & Hli).
  { specialize (Hfit (hash_of b)). pose proof (path_txs_nonneg _ (hash_of b) (lo_counts _ (no_link _ Hx))). unfold n_index, t_index in Hfit. lia. }
  { intros r. change (s_index (t_sel (n_tree x))) with (n_index x).
    set (m' := <[hash_of b := _]> (n_index x)). destruct (n_index x !! r) as [c|] eqn:Er.
    - destruct (path_txs_grow (n_index x) (hash_of b) e (set_received (nFlags e) (Z.of_nat (length (vtx b))) (bi_disk e) e) (Z.of_nat (length (vtx b)))
        (node_wf x Hx) He eq_refl ltac:(cbn [nTx set_received]; lia) ltac:(lia) r c Er) as [Hle _]. specialize (Hfit r). unfold m'. lia.
    - unfold path_txs. assert (m' !! r = None) as ->; [|done]. unfold m'. rewrite lookup_insert_ne; [done|congruence]. }
  exists s. split; [done|]. cbv zeta. destruct Hli as [Hlok Hllost (b1 & e' & (Hcore & Hdata & Hval & st & Hb1) & Hrel & He' & Hfe') _ Hothers Hknown Hgrow Hact].
  destruct (relinked_bare _ _ Hrel) as ((Ep & _ & Eh & Et)%bare_eq & Es & _ & Ed & Ef).
  assert (∀ q c, s_index s !! q = Some c → q = hash_of b ∧ c = e' ∨ q ≠ hash_of b ∧ ∃ d, n_index x !! q = Some d ∧ relinked d c) as Hcases.
  { intros q c Hq. destruct (decide (q = hash_of b)) as [->|Hne]; [left; split; [done|congruence]|right]. split; [done|].
    destruct (Hknown q c Hq) as [d Hd]. destruct (Hothers q d Hne Hd) as (d' & Hd' & Hr). exists d. split; [done|]. by assert (d' = c) as <- by congruence. }
  assert (GetBlockPos e' = DiskBlockPos file pos) as Hpos'.
  { unfold GetBlockPos. fold (have_data e'). assert (have_data e' = true) as -> by (unfold have_data; rewrite Es; exact Hdata). rewrite Ed, Hb1. done. }
  split_and!; [|split; [exact Hact|done]|exists e'; split_and!; [done|done|done|]; by rewrite Et, Hb1].
  assert (nBits b1 = nBits e ∧ nFlags b1 = (if block_IsProofOfStake (vtx b) then Z.lor (nFlags e) BLOCK_PROOF_OF_STAKE else nFlags e) ∧ nHeight b1 = nHeight e) as (Kb & Kf & Kh) by (by rewrite Hb1).
  assert (∀ d c, relinked d c → nBits c = nBits d) as Hrb by (by intros d c (n & k & ->)).
  destruct Hx as [[T1 T2 T3 T4 T5] _ _ B1 B2 B3 Hco _]. split; unfold n_index, t_index; cbn [n_tree t_sel set_tree n_coins n_files].
  - split; unfold t_index; cbn [t_sel pindexBestHeader].
    + apply Hlok.
    + intros q c Hq H1. destruct (Hcases q c Hq) as [[-> ->]|(Hne & d & Hd & Hr)].
      * specialize (T2 (hash_of b) e He). rewrite Eh, Kh in H1. specialize (T2 H1). unfold GeneratedStakeModifier in *. rewrite Ef, Kf.
        destruct (block_IsProofOfStake _); [|done]. by rewrite flag_lor, T2.
      * destruct (relinked_bare _ _ Hr) as ((_ & _ & Hhd & _)%bare_eq & _ & _ & _ & Hfd). unfold GeneratedStakeModifier. rewrite Hfd. apply (T2 q d Hd). congruence.
    + apply Hgrow, T3.
    + apply Hlok.
    + intros t Ht. destruct (T5 t Ht) as [c Hc]. destruct (decide (t = hash_of b)) as [->|Hne]; [by exists e'|]. destruct (Hothers t c Hne Hc) as (c' & ? & _). by exists c'.
  - done.
  - done.
  - intros q c Hq. destruct (Hcases q c Hq) as [[-> ->]|(Hne & d & Hd & Hr)].
    + rewrite (Hrb _ _ Hrel), Kb. exact (B1 _ e He).
    + rewrite (Hrb _ _ Hr). exact (B1 q d Hd).
  - intros q c Hq. destruct (Hcases q c Hq) as [[-> ->]|(Hne & d & Hd & Hr)].
    + right. rewrite (IsValid_status _ b1 e' Es). revert Hval. unfold IsValid. change (flag BLOCK_VALID_TREE (Z.lnot BLOCK_VALID_MASK)) with false. change (flag BLOCK_VALID_TRANSACTIONS (Z.lnot BLOCK_VALID_MASK)) with false.
      destruct (flag (nStatus b1) BLOCK_FAILED_MASK); [intros [=]|]. intros [= Hle]. f_equal. apply Z.leb_le in Hle. apply Z.leb_le. unfold BLOCK_VALID_TREE, BLOCK_VALID_TRANSACTIONS in *. lia.
    + destruct (relinked_bare _ _ Hr) as (_ & Hs & _). unfold failed. rewrite Hs, (IsValid_status _ d c Hs). by apply (B2 q).
  - intros q c Hq Hd0. destruct (Hcases q c Hq) as [[-> ->]|(Hne & d & Hd & Hr)].
    + unfold have_data in Hd0, Hdata. rewrite Es in Hd0. congruence.
    + destruct (relinked_bare _ _ Hr) as ((_ & _ & _ & Htd)%bare_eq & Hs & _). destruct (B3 q d Hd) as [Z1 _]; [unfold have_data in *; by rewrite <- Hs|].
      assert (nTx c = 0) as Hc by congruence. split; [done|]. destruct (lo_counts _ Hlok q c Hq) as [_ Hnz]. destruct (decide (nChainTx c = 0)) as [|Hnc]; [done|]. by destruct (Hnz Hnc).
  - exact Hco.
  - exists lb, lu. split; [done|]. intros q c Hq Hd0. destruct (Hcases q c Hq) as [[-> ->]|(Hne & d & Hd & Hr)].
    + exists b. by rewrite Hpos'.
    + destruct (relinked_bare _ _ Hr) as (_ & Hs & _ & Hdd & _). assert (have_data d = true) as Hdt by (unfold have_data in *; by rewrite <- Hs).
      destruct (Hback q d Hd Hdt) as (blk & ? & ?). exists blk. assert (GetBlockPos c = GetBlockPos d) as ->; [|done]. unfold GetBlockPos. by rewrite Hs, Hdd.
Qed.

Context (Hmagic : length MessageStart = 4%nat).

(** The block is on disk under its entry. *)
Definition stored (x : node) (b : CBlock) : Prop :=
  ∃ e, n_index x !! hash_of b = Some e ∧ failed e = false ∧ have_data e = true ∧ nTx e = Z.of_nat (length (vtx b)) ∧
    (fopen_ok (p_file (GetBlockPos e)) = true → ReadBlockFromDisk fopen_ok params GetHash (GetBlockPos e) (n_files x) = Some b).

Lemma store_data_ok addr env x b e h :
  node_ok x → n_index x !! hash_of b = Some e → have_data e = false → failed e = false → block_ok b →
  block_valid params nMaxMoneyOut GetHash env true b → (∀ p, path_txs (n_index x) p + Z.of_nat (length (vtx b)) < 2 ^ 32) →
  ∃ r x', store_data MessageStart fopen_ok CheckDiskSpace addr b (hash_of b) h None x = Ok (r, x') ∧ node_ok x' ∧ same_chain x x' ∧
    match r with
    | None => stored x' b
    | Some w => w = NoSpace ∧ data_from x x' ∧ ((∃ j, CheckDiskSpace j = false) ∨ ∃ i, fopen_ok i = false)
    end.
Proof.
  intros Hx He Hnd Hnf Hb Hval Hfit. destruct (no_files _ Hx) as (lb & lu & Hfiles & Hback). unfold store_data.
  destruct (store_block_ok fopen_ok CheckDiskSpace MessageStart Hmagic SetPubKey (n_files x) lb lu Hfiles b h Hb) as (r & f & -> & Hr).
  { destruct (bv_size _ _ _ _ _ _ Hval) as [Hsz _]. unfold MAX_BLOCK_SIZE in Hsz. unfold MAX_BLOCKFILE_SIZE. lia. }
  cbn [mbind outcome_bind]. assert (∀ lb', files_ok SetPubKey f lb' lu → backed (n_index x) lb' → node_ok (set_files f x)) as Hnode.
  { intros lb' Hf' Hb'. destruct Hx as [N1 N2 N3 N4 N5 N6 N7 _]. split; try done. by exists lb', lu. }
  destruct r as [pos|].
  2: { destruct Hr as [Hf' Hwhy]. eexists _, _. split; [reflexivity|]. split_and!; [by apply (Hnode lb)|done|done|by intros p c Hc Hd; exists c|done]. }
  assert (node_ok (set_files f x)) as Hx1.
  { apply (Hnode ((pos, b) :: lb)); [done|]. intros p c Hc Hd. destruct (Hback p c Hc Hd) as (blk & ? & ?). exists blk. split; [by apply elem_of_cons; right|done]. }
  assert (vtx b ≠ []) as Hvtx by (destruct (bv_generation _ _ _ _ _ _ Hval) as (cb & rest & -> & _); discriminate). pose proof (valid_work_holds env b Hval) as Hwork.
  destruct (receive_ok addr (set_files f x) b e (p_file pos) (p_pos pos) ((pos, b) :: lb) lu Hx1 He Hnd Hnf Hvtx Hfit Hr) as (s & E & Hx' & Hch & e' & He' & Hp' & Hf' & Hn').
  - intros p c Hc Hd. destruct (Hback p c Hc Hd) as (blk & ? & ?). exists blk. split; [by apply elem_of_cons; right|done].
  - apply elem_of_cons. left. by destruct pos.
  - done.
  - cbv zeta in *. change (t_sel (n_tree (set_files f x))) with (t_sel (n_tree x)) in E. cbn [n_tree set_files]. rewrite E. cbn [mbind outcome_bind].
    eexists _, _. split; [reflexivity|]. split_and!; [exact Hx'|exact Hch|]. exists e'. split_and!; [exact He'|done| |done|].
    + destruct (have_data e') eqn:Ed; [done|]. exfalso. unfold GetBlockPos in Hp'. fold (have_data e') in Hp'. rewrite Ed in Hp'.
      pose proof (fo_blocks _ _ _ _ Hr) as Hfb. apply list.Forall_cons in Hfb as [(_ & H0 & _) _]. cbn [fst] in H0. injection Hp' as H1 H2. lia.
    + rewrite Hp'. cbn [p_file]. intros Ho. apply (block_read fopen_ok params GetHash f (DiskBlockPos (p_file pos) (p_pos pos), b)); [|exact Ho|exact Hwork].
      pose proof (fo_blocks _ _ _ _ Hr) as Hfb. apply list.Forall_cons in Hfb as [Hfb _]. by destruct pos.
Qed.

(** What an accepted block passed: [x1] is the node with its header. *)
Definition passed (x x1 : node) (b : CBlock) (e : CBlockIndex) : Prop :=
  settled x x1 ∧ n_index x1 !! hash_of b = Some e ∧ failed e = false ∧
  (hash_of b = HashGenesisBlock up ∨
   ∃ prev, n_index x !! hashPrevBlock (header b) = Some prev ∧ failed prev = false ∧ work_checked x b (hashPrevBlock (header b)) prev).

(** A refused block gives no entry data; an accepted one had its data already, or it
    passed the checks and is on disk. *)
Definition outcome_holds (env : node_env) (x : node) (b : CBlock) (r : option accept_reject) (x' : node) : Prop :=
  match r with
  | Some _ => data_from x x'
  | None => ∃ x1 e, passed x x1 b e ∧
      (have_data e = true ∧ x' = x1 ∨
       block_valid params nMaxMoneyOut GetHash (env_at env x1) true b ∧ ContextualCheckBlock up (env_at env x1) b (pprev e) = Ok tt ∧ stored x' b)
  end.

(** After the work was checked. *)
Definition accept_header (addr : Z → Z) (env : node_env) (b : CBlock) (x : node) : res (option accept_reject * node) :=
  outcome_of (AcceptBlockHeader params GetHash up ModifierUpgradeBlock literal_address env b x) x (λ x,
  pindex ← deref (n_index x) (hash_of b);
  if flag (nStatus pindex) BLOCK_HAVE_DATA then Ok (None, x) else
  let x := note_block params nMaxMoneyOut GetHash now env b x in
  match check_block params nMaxMoneyOut GetHash up env b (pprev pindex) x with
  | Ok _ => store_data MessageStart fopen_ok CheckDiskSpace addr b (hash_of b) (nHeight pindex) None x
  | Err (e, corruption) => if corruption : bool then Ok (Some e, x) else x ← mark_failed (hash_of b) x; Ok (Some e, x)
  | AssertFail => AssertFail
  | OutOfFuel => OutOfFuel
  end).

Lemma accept_header_ok addr env x xw b :
  node_ok x → offer_ok x b → quiet x xw →
  (hash_of b = HashGenesisBlock up ∨
   ∃ prev, n_index x !! hashPrevBlock (header b) = Some prev ∧ failed prev = false ∧ work_checked x b (hashPrevBlock (header b)) prev) →
  ∃ r x', accept_header addr env b xw = Ok (r, x') ∧ node_ok x' ∧ same_chain x x' ∧ outcome_holds env x b r x'.
Proof.
  intros Hx Ho Hq Hwork. unfold accept_header. pose proof (settled_quiet x xw Hx Hq) as Hset.
  assert (∀ w x', settled x x' → ∃ r x2, Ok (E:=unit) (Some w, x') = Ok (r, x2) ∧ node_ok x2 ∧ same_chain x x2 ∧ outcome_holds env x b r x2) as Hreject by (intros w x' (? & ? & ?); by exists (Some w), x').
  destruct (AcceptBlockHeader_ok env xw b (proj1 Hset) (offer_ok_quiet _ _ _ Hq Ho)) as [[w ->]|(x1 & e & -> & Hs1 & He & Hfe & Hf1 & Hfit)]; cbn [outcome_of]; [by apply Hreject|].
  pose proof (settled_trans _ _ _ Hset Hs1) as Hset1. rewrite (deref_some _ _ e He). cbn [mbind outcome_bind]. fold (have_data e).
  assert (passed x x1 b e) as Hpass by (split_and!; [exact Hset1|done|done|exact Hwork]).
  destruct (have_data e) eqn:Ed.
  { eexists None, x1. split_and!; [done|apply Hset1|apply Hset1|]. exists x1, e. split; [done|by left]. }
  set (x2 := note_block params nMaxMoneyOut GetHash now env b x1). assert (settled x1 x2) as Hs2.
  { apply settled_quiet; [apply Hs1|]. split_and!; [done..|apply (proj1 Hs1)|done]. }
  pose proof (settled_trans _ _ _ Hset1 Hs2) as Hset2. assert (node_ok x2) as Hx2 by apply Hs2. assert (n_index x2 !! hash_of b = Some e) as He2 by exact He.
  destruct (check_block_ok env x2 b e Hx2 He2) as [(-> & Hval & Hctx)|[[w corrupt] ->]].
  - destruct (store_data_ok addr (env_at env x2) x2 b e (nHeight e) Hx2 He2 Ed Hfe (of_block _ _ Ho) Hval Hfit) as (r & x' & -> & Hx' & Hch & Hr).
    exists r, x'. split_and!; [done|done|eapply same_chain_trans; [apply Hset2|done]|]. destruct r as [w|].
    + destruct Hr as (_ & Hd & _). intros p c Hc Hdc. destruct (Hd p c Hc Hdc) as (c2 & Hc2 & Hd2 & E2), (proj2 (proj2 Hset2) p c2 Hc2 Hd2) as (c0 & ? & ? & ?).
      exists c0. split_and!; congruence.
    + exists x1, e. split; [done|]. right. by split_and!.
  - destruct corrupt; [by apply Hreject|]. destruct (mark_failed_ok x2 _ e Hx2 He2) as (x3 & -> & Hs3). cbn [mbind outcome_bind].
    apply Hreject. by eapply settled_trans.
Qed.
(** The blocks for which the code reads past the outputs of the staked transaction. *)
Definition reads_past (x : node) (b : CBlock) : Prop :=
  hash_of b ≠ HashGenesisBlock up ∧
  ∃ prev, n_index x !! hashPrevBlock (header b) = Some prev ∧ failed prev = false ∧ work_reads_past x b (hashPrevBlock (header b)).

Lemma AcceptBlock_ok addr (env : node_env) (x : node) (b : CBlock) :
  node_ok x → offer_ok x b → found_outputs_ok x b →
  (reads_past x b ∧
    AcceptBlock Verify params nMaxMoneyOut GetHash up ModifierUpgradeBlock literal_address now MessageStart fopen_ok CheckDiskSpace addr env b None x = AssertFail) ∨
  (¬ reads_past x b ∧ ∃ r x',
    AcceptBlock Verify params nMaxMoneyOut GetHash up ModifierUpgradeBlock literal_address now MessageStart fopen_ok CheckDiskSpace addr env b None x = Ok (r, x') ∧
    node_ok x' ∧ same_chain x x' ∧ outcome_holds env x b r x').
Proof.
  intros Hx Ho Hin. unfold AcceptBlock, reads_past. destruct (find_prev_ok x b) as [[E Hg]|[(E & Hg & c & Hc & Hfc)|[e Ee]]].
  - right. split; [by intros [? _]|]. rewrite E, (proj2 (Z.eqb_eq _ _) Hg). cbn [outcome_of mbind outcome_bind negb]. apply (accept_header_ok addr env x x b Hx Ho); [apply quiet_refl, Hx|by left].
  - rewrite E, (proj2 (Z.eqb_neq _ _)) by done.
    destruct (CheckWork_ok x b _ c Hx Hc (of_block _ _ Ho) Hin) as [[Hpast Ew]|(Hpast & r & xw & Ew & Hq & Hr)]; cbn [outcome_of]; rewrite Ew.
    + left. split; [|done]. split; [done|]. by exists c.
    + right. split; [intros (_ & d & Hd & _ & Hw); done|]. cbn [mbind outcome_bind]. destruct r; cbn [negb].
      * apply (accept_header_ok addr env x xw b Hx Ho Hq). right. exists c. split_and!; [done|done|by apply Hr].
      * eexists _, _. split; [reflexivity|]. exact (settled_quiet x xw Hx Hq).
  - right. split; [|rewrite Ee; eexists _, _; split; [reflexivity|by apply settled_refl]].
    intros (Hg & d & Hd & Hf & _). unfold find_prev in Ee. rewrite (proj2 (Z.eqb_neq _ _)), Hd in Ee by done. unfold failed in Hf. rewrite Hf in Ee. discriminate Ee.
Qed.
End Node.

(** ** Two observations *)

(** A proof-of-stake block that names an output the previous transaction does not have
    makes the code read past the end of [txPrev.vout]. *)
Lemma stake_output_unchecked `{CoinsStore V} Verify params GetHash fopen_ok (b : CBlock) (x x' : node_state V) tx i txPrev hb :
  coinstake_input b tx i →
  GetTransaction params GetHash fopen_ok (prevout_hash (prevout i)) 0 true x = Ok (Some (txPrev, hb), x') →
  vout txPrev !! Z.to_nat (prevout_n (prevout i)) = None →
  CheckProofOfStake Verify params GetHash fopen_ok b x = AssertFail.
Proof.
  intros (Ht & Hc & Hi) E Ho. unfold CheckProofOfStake. rewrite Ht, Hc. cbn [negb]. destruct (vin tx) as [|j l]; [discriminate Hi|]. injection Hi as ->.
  rewrite E. cbn [mbind outcome_bind]. by rewrite Ho.
Qed.

(** Bits without a mantissa have an infinite difficulty, and are near any others. *)
Lemma zero_mantissa_is_near : near_bits 0x1f000000 0x1e0fffff = true ∧ near_bits 0x1f000001 0x1e0fffff = false.
Proof. by vm_compute. Qed.

(** A new node, and the first block. *)
Module AcceptDemo.
Definition params : CChainParams := ChainParams uint256_max 10000 120 true.
Definition up : upgrade_params := UpgradeParams 1 100 750 950 1000 true [].
Definition GetHash (h : CBlockHeader) : Z := if nNonce h =? 1299007 then 1 else 2.
Definition start : node_state (gmap Z CCoins * Z) :=
  NodeState (Tree (Selection ∅ [] ∅ [] None 1) ∅ ∅ None ∅) (BlockFiles [] 0 ∅ ∅ ∅) (∅, 0) CTxMemPool_empty false ∅ ∅.
Definition offer (x : node_state (gmap Z CCoins * Z)) (b : CBlock) : res (option accept_reject * node_state (gmap Z CCoins * Z)) :=
  AcceptBlock (λ _ _ _, true) params (33000000 * COIN) GetHash up 1 7 1744156800 [250; 206; 3; 10] (λ _, true) (λ _, true) (λ p, p) empty_env b None x.

(** A node with the first block, and in the pool a transaction of one output; a block
    whose coinstake spends the output of number 5 of it. *)
Definition first : CBlockIndex :=
  BlockIndex None None 0 (replicate 8 0) (1048592 :: replicate 7 0) 1 (Z.lor BLOCK_VALID_TRANSACTIONS BLOCK_HAVE_DATA) 0 1 1 1744156800 0x1e0ffff0
    (hashMerkleRoot (header genesis_block)) 1299007 None 1 (DiskFields 0 8 0) stake_null.
Definition funds : CTransaction := PoolDemo.pay 9 [OutPoint 7 0] 1.
Definition second : node_state (gmap Z CCoins * Z) :=
  NodeState (Tree (Selection {[ 1 := first ]} [] {[ 1 ]} [] None 2) ∅ ∅ None ∅)
    (BlockFiles [BlockFileInfo 1 2000 0 0 0 0 0] 0 ∅ {[ 0 := replicate 8 0 ++ ser_block genesis_block ]} ∅) (∅, 0)
    (PoolDemo.add funds CTxMemPool_empty) false ∅ ∅.
Definition coinstake : CTransaction :=
  tx_of_mutable (MTx 1 [TxIn (OutPoint 9 5) [] 0 []] [TxOut 0 [] (-10); TxOut 10 [OP_1] (-10)] 0).
Definition stake_block : CBlock := Block (BlockHeader 3 1 0 1744156900 0x2100ffff 1) [genesis_tx; coinstake] [].

Lemma no_entry p b : (∅ : block_index) !! p = Some b → False.
Proof. by rewrite lookup_empty. Qed.
Ltac empty_index := repeat intro; exfalso; eapply no_entry; eassumption.
Lemma start_node_ok : node_ok params GetHash (λ _, true) start.
Proof.
  assert (sel_ok (t_sel (n_tree start))) as Hsel by (apply select_check_ok; by vm_compute).
  assert (tx_linked ∅) as Hl by (by empty_index).
  split.
  - split; [exact Hsel|by empty_index|by empty_index|exact Hl|intros t H; discriminate H].
  - split; [exact Hsel|exact Hl|by empty_index|intros q p Hin; apply elem_of_nil in Hin; destruct Hin].
  - by empty_index.
  - by empty_index.
  - by empty_index.
  - by empty_index.
  - by vm_compute.
  - exists [], []. split; [split; [done|intros i f Hi; destruct i; discriminate Hi|constructor|constructor]|]. by empty_index.
Qed.
Lemma genesis_ok : block_ok genesis_block.
Proof. split; [unfold header_ok; by_decision|]. split; [|reflexivity]. by_decision. Qed.
Lemma genesis_offered : offer_ok GetHash start genesis_block.
Proof.
  split.
  - exact genesis_ok.
  - intros H. vm_compute in H. discriminate H.
  - by vm_compute.
  - by vm_compute.
  - intros p. unfold path_txs. change (n_index start) with (∅ : block_index). rewrite lookup_empty. by vm_compute.
Qed.

Lemma second_index p b : n_index second !! p = Some b → p = 1 ∧ b = first.
Proof. change (n_index second) with ({[ 1 := first ]} : block_index). by intros [<- <-]%lookup_singleton_Some. Qed.
Lemma second_node_ok : node_ok params GetHash (λ _, true) second.
Proof.
  assert (sel_ok (t_sel (n_tree second))) as Hsel by (apply select_check_ok; by vm_compute).
  assert (growing (n_index second) ∧ tx_linked (n_index second)) as [Hg Hl] by (apply ActivateDemo.linked_check_ok; by vm_compute).
  split.
  - split; [exact Hsel| |exact Hg|exact Hl|intros t H; discriminate H]. intros p b [-> ->]%second_index H. discriminate H.
  - split; [exact Hsel|exact Hl| |intros q p Hin; apply elem_of_nil in Hin; destruct Hin].
    intros p b [-> ->]%second_index. cbn [first nTx nChainTx]. split; [lia|]. intros _. split; [lia|by vm_compute].
  - intros p b [-> ->]%second_index Hn H. discriminate H.
  - intros p b [-> ->]%second_index. by_decision.
  - intros p b [-> ->]%second_index. right. by vm_compute.
  - intros p b [-> ->]%second_index H. discriminate H.
  - by vm_compute.
  - exists [(DiskBlockPos 0 8, genesis_block)], []. split.
    + split; [done| | |constructor].
      * intros [|i] f; [intros [= <-]; by_decision|intros Hi; discriminate Hi].
      * constructor; [|constructor]. split; [exact genesis_ok|]. split; [by_decision|]. split; [by_decision|]. eexists _, _. split; [reflexivity|].
        split; [by_decision|]. split; [reflexivity|]. apply (on_disk_app _ 0 (replicate 8 0)); [done|]. intros i x Hi. exact Hi.
    + intros p b [-> ->]%second_index _. exists genesis_block. split; [by left|]. split; [reflexivity|]. intros _. by vm_compute.
Qed.
Lemma stake_offered : offer_ok GetHash second stake_block.
Proof.
  split.
  - split; [unfold header_ok; by_decision|]. split; [by_decision|]. assert (block_IsProofOfStake (vtx stake_block) = true) as -> by (vm_compute; reflexivity). by_decision.
  - intros H. vm_compute in H. discriminate H.
  - by vm_compute.
  - by vm_compute.
  - intros p. unfold path_txs. destruct (n_index second !! p) as [b|] eqn:E; [apply second_index in E as [-> ->]|]; by vm_compute.
Qed.
Lemma funds_found tx i : coinstake_input stake_block tx i →
  tx = coinstake ∧ i = TxIn (OutPoint 9 5) [] 0 [] ∧
  GetTransaction params GetHash (λ _, true) (prevout_hash (prevout i)) 0 true second = Ok (Some (funds, 0), second).
Proof. intros ([= <-] & _ & [= <-]). split; [done|]. split; [done|]. by vm_compute. Qed.
Lemma funds_ok : found_outputs_ok params GetHash (λ _, true) second stake_block.
Proof.
  intros tx i txPrev hb x' (-> & -> & E)%funds_found G. rewrite E in G. injection G as <- <- <-.
  intros [|n] o; [intros [= <-]; split; by_decision|intros H; discriminate H].
Qed.
End AcceptDemo.

(** ** Properties *)

(** C4: accepting a block on a node in order.  [AcceptBlock] returns -- no check, walk,
    kernel or file operation of it fails to -- except in one case, and exactly then: the
    block extends an unfailed one with the required bits, and its coinstake names an
    output that the transaction it spends does not have, which the code reads without a
    test.  When it returns the node is in order afterwards, with the same active chain
    and the same unspent outputs.  A refused block leaves no entry with data that had
    none, so nothing of it is half accepted.  An accepted block had an unfailed
    predecessor and the required bits (and, with proof of stake, a kernel that meets its
    target), its entry is in the index, and either it had its data already or it is valid
    in itself and in its place and can be read back from the block files as it was
    sent.  Asked of the block is that it can be serialized and its bits prove some work;
    of the transaction that is staked, that its outputs have scripts and amounts. *)
Theorem AcceptBlock_sound `{CoinsStore V} (Verify : list Z → Z → list Z → bool) (params : CChainParams) (nMaxMoneyOut : Z) (GetHash : CBlockHeader → Z)
    (up : upgrade_params) (ModifierUpgradeBlock literal_address now : Z) (MessageStart : list Z) (fopen_ok CheckDiskSpace : Z → bool) (SetPubKey : list Z → bool)
    (addr : Z → Z) (env : node_env) (x : node_state V) (b : CBlock) :
  limbs_ok 8 (ProofOfWorkLimit params) → 0 < TargetSpacing params < 2 ^ 20 → 0 ≤ nMaxMoneyOut < 2 ^ 62 → length MessageStart = 4%nat →
  node_ok params GetHash SetPubKey x → offer_ok GetHash x b → found_outputs_ok params GetHash fopen_ok x b →
  let accept := AcceptBlock Verify params nMaxMoneyOut GetHash up ModifierUpgradeBlock literal_address now MessageStart fopen_ok CheckDiskSpace addr env b None x in
  (reads_past params GetHash up fopen_ok x b ∧ accept = AssertFail) ∨
  (¬ reads_past params GetHash up fopen_ok x b ∧ ∃ r x', accept = Ok (r, x') ∧
    node_ok params GetHash SetPubKey x' ∧ same_chain x x' ∧
    match r with
    | Some _ => data_from x x'
    | None => ∃ x1 e, passed Verify params GetHash up fopen_ok SetPubKey x x1 b e ∧
        (have_data e = true ∧ x' = x1 ∨
         block_valid params nMaxMoneyOut GetHash (env_at env x1) true b ∧ ContextualCheckBlock up (env_at env x1) b (pprev e) = Ok tt ∧
         stored params GetHash fopen_ok x' b)
    end).
Proof. intros. by apply AcceptBlock_ok. Qed.

Lemma AcceptBlock_sound_witness :
  (∃ r x', AcceptDemo.offer AcceptDemo.start genesis_block = Ok (r, x') ∧ node_ok AcceptDemo.params AcceptDemo.GetHash (λ _, true) x' ∧ same_chain AcceptDemo.start x' ∧
    (r = None → ∃ x1 e, passed (λ _ _ _, true) AcceptDemo.params AcceptDemo.GetHash AcceptDemo.up (λ _, true) (λ _, true) AcceptDemo.start x1 genesis_block e)) ∧
  AcceptDemo.offer AcceptDemo.second AcceptDemo.stake_block = AssertFail.
Proof.
  split.
  - destruct (AcceptBlock_sound (λ _ _ _, true) AcceptDemo.params (33000000 * COIN) AcceptDemo.GetHash AcceptDemo.up 1 7 1744156800 [250; 206; 3; 10]
      (λ _, true) (λ _, true) (λ _, true) (λ p, p) empty_env AcceptDemo.start genesis_block) as [[(Hg & _) _]|(_ & r & x' & E & Hx' & Hc & Hr)];
      [by_decision|by_decision|by_decision|done|apply AcceptDemo.start_node_ok|apply AcceptDemo.genesis_offered|intros tx i t hb x' (Ht & _); discriminate Ht|by destruct Hg|].
    exists r, x'. split; [exact E|]. split; [exact Hx'|]. split; [exact Hc|]. intros ->. destruct Hr as (x1 & e & Hp & _). exists x1, e. exact Hp.
  - destruct (AcceptBlock_sound (λ _ _ _, true) AcceptDemo.params (33000000 * COIN) AcceptDemo.GetHash AcceptDemo.up 1 7 1744156800 [250; 206; 3; 10]
      (λ _, true) (λ _, true) (λ _, true) (λ p, p) empty_env AcceptDemo.second AcceptDemo.stake_block) as [[_ E]|[Hno _]];
      [by_decision|by_decision|by_decision|done|apply AcceptDemo.second_node_ok|apply AcceptDemo.stake_offered|apply AcceptDemo.funds_ok|exact E|].
    exfalso. apply Hno. split; [intros H; discriminate H|]. exists AcceptDemo.first. split; [reflexivity|]. split; [reflexivity|].
    split; [by vm_compute|]. split; [reflexivity|].
    assert (coinstake_input AcceptDemo.stake_block AcceptDemo.coinstake (TxIn (OutPoint 9 5) [] 0 [])) as Hi by done.
    destruct (AcceptDemo.funds_found _ _ Hi) as (_ & _ & G). exists AcceptDemo.coinstake, (TxIn (OutPoint 9 5) [] 0 []), AcceptDemo.funds, 0, AcceptDemo.second.
    split; [exact Hi|]. split; [exact G|reflexivity].
Defined.
