(* ===== verification/Node.v ===== *)
(** * Connecting and disconnecting the tip (ConnectTip, DisconnectTip, UpdateTip,
      FlushStateToDisk and the writes of ConnectBlock, main.cpp)

    What [ActivateBestChain] is proved against ([TipOps]) is here built from the parts:
    the block from the files, [ConnectBlock] and [DisconnectBlock] on a cache over
    [pcoinsTip], undo data to and from the files, the indexes, the pool and the tip.
    The theorem: disconnecting the block just connected, with its undo data read back
    from disk, restores the chain and the unspent outputs. *)
From stdpp Require Import base tactics list gmap numbers option.
From Stdlib Require Import ZArith Lia.
From S2P Require Import Prelude.
From S2P Require Import Double.
From S2P Require Import Serialize.
From S2P Require Import BaseUint.
From S2P Require Import ScriptCode.
From S2P Require Import Interpreter.
From S2P Require Import Transaction.
From S2P Require Import SigHash.
From S2P Require Import Chain.
From S2P Require Import Pow.
From S2P Require Import Block.
From S2P Require Import Compressor.
From S2P Require Import Coins.
From S2P Require Import CoinsView.
From S2P Require Import Utxo.
From S2P Require Import AddressIndex.
From S2P Require Import ConnectBlock.
From S2P Require Import Ledger.
From S2P Require Import ChainSelect.
From S2P Require Import ActivateChain.
From S2P Require Import Mempool.
From S2P Require Import MempoolAccept.
From S2P Require Import Kernel.
From S2P Require Import BlockFiles.
From S2P Require Import ChainLink.
From S2P Require Import IndexAdd.
From S2P Require Import AcceptBlock.

(** ** State *)

(** The node with its coins in caches over the database, the address, spent and
    timestamp indexes of [pblocktree], and the counters of the free-relay limiter. *)
Record chain_state := ChainState {
  c_node : node_state view;
  c_indexes : index_db;
  c_timestamps : gset (Z * Z);
  c_limiter : bool → limiter
}.
Definition on_node (f : node_state view → node_state view) (s : chain_state) : chain_state :=
  ChainState (f (c_node s)) (c_indexes s) (c_timestamps s) (c_limiter s).
Definition set_pool_of {V} (p : CTxMemPool) (x : node_state V) : node_state V :=
  NodeState (n_tree x) (n_files x) (n_coins x) p (n_fTxIndex x) (n_txindex x) (n_rejected x).
Definition set_txindex {V} (m : gmap Z CDiskTxPos) (x : node_state V) : node_state V :=
  NodeState (n_tree x) (n_files x) (n_coins x) (n_pool x) (n_fTxIndex x) m (n_rejected x).
Definition set_sel (x : selection) (t : tree) : tree :=
  Tree x (setStakeSeen t) (mapProofOfStake t) (pindexBestHeader t) (setDirtyBlockIndex t).
Definition set_dirty (d : gset Z) (t : tree) : tree := Tree (t_sel t) (setStakeSeen t) (mapProofOfStake t) (pindexBestHeader t) d.
Definition c_sel (s : chain_state) : selection := t_sel (n_tree (c_node s)).
Definition with_c_sel (x : selection) (s : chain_state) : chain_state := on_node (λ n, set_tree (set_sel x (n_tree n)) n) s.

Definition set_undo_pos (pos : Z) (b : CBlockIndex) : CBlockIndex :=
  BlockIndex (pprev b) (pskip b) (nHeight b) (bnChainTrust b) (nChainWork b) (nChainTx b) (nStatus b) (nFlags b)
    (nSequenceId b) (bi_nVersion b) (nTime b) (nBits b) (bi_hashMerkleRoot b) (bi_nNonce b) (pnext b) (nTx b)
    (DiskFields (nFile (bi_disk b)) (nDataPos (bi_disk b)) pos) (bi_stake b).
Definition set_supply (mint supply : Z) (b : CBlockIndex) : CBlockIndex :=
  let s := bi_stake b in
  with_stake (nFlags b) (StakeFields (nStakeModifier s) (nStakeModifierChecksum s) (prevoutStake s) (nStakeTime s) (hashProofOfStake s) mint supply) b.

(** ** A cache over a cache *)

(** The kind of the base, which no operation changes. *)
Definition child_wf (v : view) : Prop := view_wf v ∧ is_cache v ∧ is_cache (view_base v).

Lemma GetCoins_is_cache v t : is_cache v → is_cache (GetCoins v t).2.
Proof. destruct v as [|cache h m base]; [done|]. intros _. cbn [GetCoins]. destruct (cache !! t); [done|]. by destruct (GetCoins base t) as [[?|] ?]. Qed.
Lemma GetCoins_base v t : is_cache (view_base v) → is_cache v → is_cache (view_base (GetCoins v t).2).
Proof.
  intros Hb Hv. destruct v as [|cache h m base]; [destruct Hv|]. cbn [GetCoins]. destruct (cache !! t); [done|]. pose proof (GetCoins_is_cache base t Hb) as Hc.
  by destruct (GetCoins base t) as [[?|] ?].
Qed.
Lemma GetBestBlock_base v : is_cache (view_base v) → is_cache v → is_cache (view_base (GetBestBlock v).2).
Proof.
  intros Hb Hv. destruct v as [|cache h m base]; [destruct Hv|]. cbn [GetBestBlock]. destruct (h =? 0); [|done].
  destruct base as [|cache' h' m' base']; [destruct Hb|]. cbn [GetBestBlock]. destruct (h' =? 0); [|done]. by destruct (GetBestBlock base').
Qed.
Lemma modify_base {A} v t (f : CCoins → A * CCoins) a v' : modify v t f = Ok (a, v') → is_cache (view_base v) → is_cache (view_base v').
Proof.
  unfold modify. intros (v1 & E1 & ([a1 v2] & E2 & (v3 & E3 & [= -> ->])%outcome_bind_ok)%outcome_bind_ok)%outcome_bind_ok Hv.
  assert (is_cache (view_base v1)) as H1.
  { destruct v as [|cache h m base]; [destruct Hv|]. cbn in E1. destruct m; [discriminate E1|]. cbn in E1. pose proof (GetCoins_is_cache base t Hv) as Hc.
    destruct (cache !! t); [injection E1 as <-; done|]. destruct (GetCoins base t) as [[c|] base']; injection E1 as <-; done. }
  assert (is_cache (view_base v2)) as H2.
  { destruct v1 as [|cache h m base]; [destruct H1|]. cbn in E2. destruct (cache !! t); [|discriminate E2]. destruct (f _). injection E2 as _ <-. done. }
  destruct v2 as [|cache h m base]; [destruct H2|]. cbn in E3. destruct m; [|discriminate E3]. cbn in E3. destruct (cache !! t); [|discriminate E3]. injection E3 as <-. done.
Qed.

Program Definition child_store : CoinsStore view := {|
  cs_ok := child_wf;
  cs_utxo := utxo;
  cs_access := AccessCoins;
  cs_modify A := modify (A:=A);
  cs_best := GetBestBlock;
  cs_set_best := SetBestBlock
|}.
Next Obligation. intros v (H1 & H2 & _). by apply (cs_utxo_ok (CoinsStore:=view_store) v). Qed.
Next Obligation.
  intros v t (H1 & H2 & H3). destruct (cs_access_spec (CoinsStore:=view_store) v t (conj H1 H2)) as ((? & ?) & ? & ?). split_and!; [|done..].
  split_and!; [done..|by apply GetCoins_base].
Qed.
Next Obligation.
  intros A v t f (H1 & H2 & H3). destruct (cs_modify_spec (CoinsStore:=view_store) v t f (conj H1 H2)) as (c & v' & E & ? & ? & (? & ?) & ?). exists c, v'.
  split_and!; [done..| |done]. split_and!; [done..|by eapply modify_base].
Qed.
Next Obligation.
  intros v (H1 & H2 & H3). destruct (cs_best_spec (CoinsStore:=view_store) v (conj H1 H2)) as ((? & ?) & ? & ?). split_and!; [|done..].
  split_and!; [done..|by apply GetBestBlock_base].
Qed.
Next Obligation.
  intros v h (H1 & H2 & H3). destruct (cs_set_best_spec (CoinsStore:=view_store) v h (conj H1 H2)) as (v' & E & (? & ?) & ? & ?). exists v'.
  split_and!; [done..| |done|done]. split_and!; [done..|]. destruct v as [|? ? ? ?]; [destruct H2|]. cbn in E. by injection E as <-.
Qed.
Next Obligation. apply (cs_access_best (CoinsStore:=view_store)). Qed.
Next Obligation. intros A. apply (cs_modify_best (CoinsStore:=view_store)). Qed.

(** [view.Flush()] of a cache over [pcoinsTip], which becomes its base. *)
Definition flush_into (v : view) : res view :=
  v ← no_err (E':=unit) (Flush v);
  match v with ViewCache _ _ _ base => Ok base | ViewDB _ _ => AssertFail end.
Definition GetCacheSize (v : view) : Z := match v with ViewCache cache _ _ _ => Z.of_nat (base.size cache) | ViewDB _ _ => 0 end.

Section Node.
Context (pow : double → double → double) (Verify : list Z → Z → list Z → bool) (GetHash : CBlockHeader → Z).
Context (params : CChainParams) (up : upgrade_params) (nMaxMoneyOut COINBASE_MATURITY nCoinCacheSize : Z).
Context (env : node_env) (be : budget_env) (cfg : node_config) (aenv : accept_env) (fTimestampIndex fSanityCheck : bool).
Context (MessageStart : list Z) (fopen_ok CheckDiskSpace : Z → bool) (SetPubKey : list Z → bool) (GetPubKey : list Z → list Z).
Notation hash_of b := (GetHash (header b)).

(** ** FlushStateToDisk *)

(** Without the timer of the periodic mode.  The database of the index and file
    records is write-only here: the sets of what is still to be written are emptied. *)
Definition FlushStateToDisk (always : bool) (x : node_state view) : res (bool * node_state view) :=
  if always || (nCoinCacheSize <? GetCacheSize (n_coins x)) then
    if CheckDiskSpace (100 * 2 * 2 * GetCacheSize (n_coins x)) then
      let f := n_files x in
      let x := set_files (BlockFiles (vinfoBlockFile f) (nLastBlockFile f) ∅ (blk_files f) (rev_files f)) x in
      let x := set_tree (set_dirty ∅ (n_tree x)) x in
      v ← no_err (E':=unit) (Flush (n_coins x));
      Ok (true, set_coins v x)
    else Ok (false, x)
  else Ok (true, x).

(** ** UpdateTip *)

(** [AddTransactionsUpdated(1)]; the new tip is named in the log, so there is one. *)
Definition UpdateTip (pindexNew : option Z) (s : chain_state) : res chain_state :=
  match pindexNew with
  | None => AssertFail
  | Some _ =>
      v ← SetTip (s_index (c_sel s)) (s_active (c_sel s)) pindexNew;
      let s := with_c_sel (set_active v (c_sel s)) s in
      let p := n_pool (c_node s) in
      Ok (on_node (set_pool_of (Pool (mapTx p) (mapNextTx p) (mapDeltas p) (totalTxSize p) (u32 (nTransactionsUpdated p + 1))
            (mapAddress p) (mapAddressInserted p) (mapSpent p) (mapSpentInserted p))) s)
  end.

(** ** The writes at the end of ConnectBlock *)

(** The undo data goes behind what is in the file; [None] when there is no room or no
    file. *)
Definition place_undo (b : CBlockIndex) (undo : list (list CTxInUndo)) (x : node_state view) : res (option CBlockIndex * node_state view) :=
  match pprev b with
  | None => AssertFail
  | Some q =>
      '(pos, f) ← no_err (store_undo fopen_ok CheckDiskSpace MessageStart SetPubKey (nFile (bi_disk b)) undo q (n_files x));
      Ok (match pos with Some pos => Some (set_undo_pos (p_pos pos) b) | None => None end, set_files f x)
  end.
Definition write_undo (p : Z) (b : CBlockIndex) (undo : list (list CTxInUndo)) (x : node_state view) : res (option CBlockIndex * node_state view) :=
  let pos_null := pos_IsNull (GetUndoPos b) in
  valid ← IsValid BLOCK_VALID_SCRIPTS b;
  '(placed, x) ← (if pos_null then place_undo b undo x else Ok (Some b, x));
  match placed with
  | None => Ok (None, x)
  | Some b =>
      e ← raise_scripts pos_null b;
      let t := n_tree x in
      let t := if pos_null || negb valid then set_dirty ({[ p ]} ∪ setDirtyBlockIndex t) t else t in
      Ok (Some e, set_tree t x)
  end.

Definition write_vecs (v : index_vecs) (d : index_db) : index_db :=
  let d := if fAddressIndex cfg
           then IndexDB (WriteAddressIndex (addressIndex v) (db_address d)) (UpdateAddressUnspentIndex (addressUnspentIndex v) (db_unspent d)) (db_spent d)
           else d in
  if fSpentIndex cfg then IndexDB (db_address d) (db_unspent d) (UpdateSpentIndex (spentIndex v) (db_spent d)) else d.
Definition write_indexes (p : Z) (b : CBlockIndex) (r : connected view) (s : chain_state) : chain_state :=
  let x := c_node s in
  let x := if n_fTxIndex x then set_txindex (fold_left (λ m i, <[i.1 := DiskTxPos (GetBlockPos b) i.2]> m) (r_vPos r) (n_txindex x)) x else x in
  let ts := if fTimestampIndex then {[ (nTime b, p) ]} ∪ c_timestamps s else c_timestamps s in
  ChainState x (write_vecs (r_vecs r) (c_indexes s)) ts (c_limiter s).

(** ** ConnectTip *)

Definition connect_corruption (e : connect_reject) : bool := match e with RejectBlock e => block_reject_corruption e | _ => false end.

(** [pblock], or the block read back. *)
Definition tip_block (p : Z) (blk : option CBlock) (x : node_state view) : res (option CBlock) :=
  match blk with
  | Some b => Ok (Some b)
  | None => ReadBlockFromDisk_index fopen_ok params GetHash (n_index x) p (n_files x)
  end.

Definition set_entry (p : Z) (e : CBlockIndex) (s : chain_state) : chain_state :=
  with_c_sel (set_index (<[p := e]> (s_index (c_sel s))) (c_sel s)) s.

(** What [ConnectBlock] writes when it succeeds; the genesis block returns before. *)
Definition connect_writes (p : Z) (b : CBlockIndex) (blk : CBlock) (r : connected view) (s : chain_state) : res (bool * chain_state) :=
  if hash_of blk =? HashGenesisBlock up then Ok (true, s) else
  let b := set_supply (ConnectBlock.nMint r) (ConnectBlock.nMoneySupply r) b in
  '(w, x) ← write_undo p b (r_undo r) (c_node s);
  let s := on_node (λ _, x) s in
  match w with
  | None => Ok (false, set_entry p b s)
  | Some e => Ok (true, set_entry p e (write_indexes p e r s))
  end.

(** The block as it was connected, the cache is flushed into [pcoinsTip]; then the
    state may be written, the pool drops the block's transactions, and the tip moves.
    When [ConnectBlock] refuses the block, the reads it made through the cache are
    not kept, nor the supply it noted in the entry of the refused block. *)
Definition ConnectTip (s : chain_state) (pindexNew : Z) (pblock : option CBlock) : res (tip_result * chain_state) :=
  b ← deref (s_index (c_sel s)) pindexNew;
  _ ← assert_that (bool_decide (pprev b = active_tip (c_sel s)));
  blk ← tip_block pindexNew pblock (c_node s);
  match blk with
  | None => Ok (TipError, s)
  | Some blk =>
      prev ← match pprev b with Some q => c ← deref (s_index (c_sel s)) q; Ok (Some c) | None => Ok None end;
      let supplyPrev := match prev with Some c => Chain.nMoneySupply (bi_stake c) | None => 0 end in
      match ConnectBlock (H:=child_store) Verify GetHash params up nMaxMoneyOut COINBASE_MATURITY (env_at env (c_node s)) be cfg
              blk b (Some pindexNew) supplyPrev (new_cache (n_coins (c_node s))) false with
      | Err e => x ← InvalidBlockFound pindexNew (connect_corruption e) (c_sel s); Ok (TipInvalid (connect_corruption e), with_c_sel x s)
      | AssertFail => AssertFail
      | OutOfFuel => OutOfFuel
      | Ok r =>
          '(ok, s) ← connect_writes pindexNew b blk r s;
          if negb ok then Ok (TipError, s) else
          v ← flush_into (r_view r);
          let s := on_node (set_coins v) s in
          let always := match prev with Some c => negb (p_file (GetBlockPos b) =? p_file (GetBlockPos c)) | None => false end in
          '(ok, x) ← FlushStateToDisk always (c_node s);
          let s := on_node (λ _, x) s in
          if negb ok then Ok (TipError, s) else
          '(pool, _) ← removeForBlock_loop (vtx blk) [] (n_pool (c_node s));
          s ← UpdateTip (Some pindexNew) (on_node (set_pool_of pool) s);
          Ok (TipConnected, s)
      end
  end.

(** ** DisconnectTip *)

(** The undo data of an entry, read under the hash of the predecessor. *)
Definition read_undo_of (b : CBlockIndex) (x : node_state view) : res (option (list (list CTxInUndo))) :=
  if pos_IsNull (GetUndoPos b) then Ok None else
  match pprev b with
  | None => AssertFail
  | Some q => no_err (UndoReadFromDisk fopen_ok SetPubKey GetPubKey (GetUndoPos b) q (n_files x))
  end.

Definition unwrite_indexes (v : index_vecs) (d : index_db) : index_db :=
  let d := if fAddressIndex cfg
           then IndexDB (EraseAddressIndex (addressIndex v) (db_address d)) (UpdateAddressUnspentIndex (addressUnspentIndex v) (db_unspent d)) (db_spent d)
           else d in
  if fSpentIndex cfg then IndexDB (db_address d) (db_unspent d) (UpdateSpentIndex (spentIndex v) (db_spent d)) else d.

(** The block leaves the coins and the indexes; [None] is a failure.  [error]s of
    [DisconnectBlock] and an unclean result leave [pcoinsTip] alone. *)
Definition disconnect_coins (tip : Z) (b : CBlockIndex) (s : chain_state) : res (option CBlock * chain_state) :=
  blk ← ReadBlockFromDisk_index fopen_ok params GetHash (s_index (c_sel s)) tip (n_files (c_node s));
  match blk with
  | None => Ok (None, s)
  | Some blk =>
      undo ← read_undo_of b (c_node s);
      match DisconnectBlock (H:=child_store) cfg blk b tip undo (new_cache (n_coins (c_node s))) with
      | Err _ => Ok (None, s)
      | AssertFail => AssertFail
      | OutOfFuel => OutOfFuel
      | Ok (fClean, v, x) =>
          let s := ChainState (c_node s) (unwrite_indexes x (c_indexes s)) (c_timestamps s) (c_limiter s) in
          if negb fClean then Ok (None, s) else
          v ← flush_into v;
          '(ok, x) ← FlushStateToDisk true (set_coins v (c_node s));
          Ok (if ok : bool then Some blk else None, on_node (λ _, x) s)
      end
  end.

(** The transactions of the block go back to the pool when it takes them. *)
Definition accept_env_at (s : chain_state) : accept_env :=
  AcceptEnv (RequireStandard aenv) (fIsBareMultisigStd aenv) (datacarrier aenv) (nMaxDatacarrierBytes aenv) (minRelayTxFee aenv)
    (MempoolAccept.nMaxMoneyOut aenv) (MempoolAccept.COINBASE_MATURITY aenv) (relaypriority aenv) (limitfreerelay aenv)
    (ae_fAddressIndex aenv) (ae_fSpentIndex aenv) (Z.of_nat (length (s_active (c_sel s))) - 1) (MempoolAccept.adjusted_time aenv)
    (entry_time aenv) (limiter_time aenv) (MempoolAccept.mapLockedInputs aenv) (mapObfuscationBroadcastTxes aenv) (s_index (c_sel s)).

Definition accept_again (e : accept_env) (tx : CTransaction) (a : accept_state view) : res (accept_state view) :=
  let drop (a : accept_state view) : res (accept_state view) :=
    '(p, _) ← Mempool.remove tx [] true (as_pool a); Ok (set_as_pool p a) in
  if IsCoinBase tx || IsCoinStake tx then drop a else
  match AcceptToMemoryPool pow Verify e tx false false false a with
  | Ok a => Ok a
  | Err (_, a) => drop a
  | AssertFail => AssertFail
  | OutOfFuel => OutOfFuel
  end.
Fixpoint resurrect (e : accept_env) (txs : list CTransaction) (a : accept_state view) : res (accept_state view) :=
  match txs with [] => Ok a | tx :: txs => a ← accept_again e tx a; resurrect e txs a end.

(** The pool after a block of this height was disconnected. *)
Definition disconnect_pool (txs : list CTransaction) (nHeight : Z) (s : chain_state) : res chain_state :=
  let x := c_node s in
  a ← resurrect (accept_env_at s) txs (AcceptState (n_pool x) (n_coins x) (c_limiter s));
  '(p, v) ← removeCoinbaseSpends COINBASE_MATURITY fSanityCheck (as_tip a) nHeight (as_pool a);
  Ok (ChainState (set_coins v (set_pool_of p x)) (c_indexes s) (c_timestamps s) (as_limiter a)).

Definition DisconnectTip (s : chain_state) : res (bool * chain_state) :=
  match active_tip (c_sel s) with
  | None => AssertFail
  | Some tip =>
      b ← deref (s_index (c_sel s)) tip;
      '(blk, s) ← disconnect_coins tip b s;
      match blk with
      | None => Ok (false, s)
      | Some blk =>
          s ← disconnect_pool (vtx blk) (nHeight b) s;
          s ← UpdateTip (pprev b) s;
          Ok (true, s)
      end
  end.

(** ** The laws of [TipOps] *)

Lemma FlushStateToDisk_sel always x r : FlushStateToDisk always x = Ok r → t_sel (n_tree r.2) = t_sel (n_tree x) ∧ n_pool r.2 = n_pool x.
Proof.
  unfold FlushStateToDisk. destruct (_ || _); [|by intros [= <-]]. destruct (CheckDiskSpace _); [|by intros [= <-]].
  intros (v & _ & [= <-])%outcome_bind_ok. done.
Qed.

Lemma disconnect_coins_sel tip b s r : disconnect_coins tip b s = Ok r → c_sel r.2 = c_sel s.
Proof.
  unfold disconnect_coins. intros (blk & _ & E)%outcome_bind_ok. destruct blk as [blk|]; [|by injection E as <-].
  apply outcome_bind_ok in E as (undo & _ & E). destruct (DisconnectBlock _ _ _ _ _ _) as [[[fClean v] x]| | |]; try discriminate E; [|by injection E as <-].
  destruct fClean; cbn [negb] in E; [|by injection E as <-]. apply outcome_bind_ok in E as (w & _ & E). apply outcome_bind_ok in E as ([ok y] & Ef & E).
  injection E as <-. apply FlushStateToDisk_sel in Ef as [Ef _]. exact Ef.
Qed.

Lemma disconnect_pool_sel txs h s s' : disconnect_pool txs h s = Ok s' → c_sel s' = c_sel s.
Proof. unfold disconnect_pool. intros (a & _ & ([p v] & _ & [= <-])%outcome_bind_ok)%outcome_bind_ok. done. Qed.

Lemma UpdateTip_sel p s s' :
  UpdateTip p s = Ok s' → ∃ v, SetTip (s_index (c_sel s)) (s_active (c_sel s)) p = Ok v ∧ c_sel s' = set_active v (c_sel s) ∧
    n_coins (c_node s') = n_coins (c_node s) ∧ n_files (c_node s') = n_files (c_node s) ∧ c_indexes s' = c_indexes s.
Proof. unfold UpdateTip. destruct p as [p|]; [|discriminate]. intros (v & E & [= <-])%outcome_bind_ok. by exists v. Qed.

Lemma DisconnectTip_law s p s' :
  active_tip (c_sel s) = Some p → DisconnectTip s = Ok (true, s') →
  ∃ b v, s_index (c_sel s) !! p = Some b ∧ SetTip (s_index (c_sel s)) (s_active (c_sel s)) (pprev b) = Ok v ∧ c_sel s' = set_active v (c_sel s).
Proof.
  intros Ht. unfold DisconnectTip. rewrite Ht. intros (b & Eb & E)%outcome_bind_ok. unfold deref in Eb. destruct (s_index (c_sel s) !! p) as [b0|]; [|discriminate Eb].
  injection Eb as <-. apply outcome_bind_ok in E as ([blk s1] & E1 & E). apply disconnect_coins_sel in E1. cbn [snd] in E1. destruct blk as [blk|]; [|discriminate E].
  apply outcome_bind_ok in E as (s2 & E2 & E). apply disconnect_pool_sel in E2. apply outcome_bind_ok in E as (s3 & E3 & [= <-]).
  apply UpdateTip_sel in E3 as (v & Ev & Es & _). rewrite E2, E1 in Ev, Es. by exists b0, v.
Qed.

Lemma write_undo_spec p b undo x o x' :
  write_undo p b undo x = Ok (o, x') → t_sel (n_tree x') = t_sel (n_tree x) ∧ n_pool x' = n_pool x ∧ n_coins x' = n_coins x ∧
    ∀ e, o = Some e → ∃ n st, e = set_nStatus st (set_undo_pos n b) ∧ flag st BLOCK_FAILED_MASK = failed b ∧ flag st BLOCK_HAVE_DATA = have_data b ∧
      (flag (nStatus b) BLOCK_HAVE_UNDO = false → flag st BLOCK_HAVE_UNDO = true ∧ ∃ q pos, pprev b = Some q ∧ n = p_pos pos ∧
         store_undo fopen_ok CheckDiskSpace MessageStart SetPubKey (nFile (bi_disk b)) undo q (n_files x) = Ok (Some pos, n_files x')).
Proof.
  unfold write_undo. intros (valid & Hvalid & ([placed x1] & E1 & E)%outcome_bind_ok)%outcome_bind_ok.
  assert (pos_IsNull (GetUndoPos b) = false → flag (nStatus b) BLOCK_HAVE_UNDO = true) as Hnull.
  { unfold GetUndoPos. by destruct (flag (nStatus b) BLOCK_HAVE_UNDO). }
  assert (t_sel (n_tree x1) = t_sel (n_tree x) ∧ n_pool x1 = n_pool x ∧ n_coins x1 = n_coins x ∧ ∀ b1, placed = Some b1 → ∃ n, b1 = set_undo_pos n b ∧
    (pos_IsNull (GetUndoPos b) = true → ∃ q pos, pprev b = Some q ∧ n = p_pos pos ∧
       store_undo fopen_ok CheckDiskSpace MessageStart SetPubKey (nFile (bi_disk b)) undo q (n_files x) = Ok (Some pos, n_files x1))) as (H1 & H2 & H3 & Hb).
  { destruct (pos_IsNull (GetUndoPos b)).
    - unfold place_undo in E1. destruct (pprev b) as [q|]; [|discriminate E1]. apply outcome_bind_ok in E1 as ([pos f] & Es & [= <- <-]). split_and!; [done..|].
      destruct (store_undo _ _ _ _ _ _ _ _) as [[pos' f']| | |] eqn:Est; try discriminate Es. injection Es as -> ->.
      destruct pos as [pos|]; intros b1 [=]. eexists. split; [done|]. intros _. by exists q, pos.
    - injection E1 as <- <-. split_and!; [done..|]. intros b1 [= <-]. exists (nUndoPos (bi_disk b)). split; [by destruct b as [? ? ? ? ? ? ? ? ? ? ? ? ? ? ? ? [] ?]|done]. }
  destruct placed as [b1|]; [|injection E as <- <-; by split_and!]. destruct (Hb b1 eq_refl) as (n & -> & Hplace).
  apply outcome_bind_ok in E as (e & Ee & [= <- <-]). split_and!; [by destruct (_ || _)|done|done|]. intros e' [= <-].
  assert (∃ st, e = set_nStatus st (set_undo_pos n b) ∧ flag st BLOCK_FAILED_MASK = failed b ∧ flag st BLOCK_HAVE_DATA = have_data b ∧
    (pos_IsNull (GetUndoPos b) = true → flag st BLOCK_HAVE_UNDO = true)) as (st & -> & Hf & Hd & Hu).
  { unfold raise_scripts in Ee. apply outcome_bind_ok in Ee as (valid' & _ & Ee). set (pn := pos_IsNull (GetUndoPos b)) in *. clearbody pn.
    set (b2 := if pn then _ else _) in Ee. assert (∃ st, b2 = set_nStatus st (set_undo_pos n b) ∧ flag st BLOCK_FAILED_MASK = failed b ∧
      flag st BLOCK_HAVE_DATA = have_data b ∧ (pn = true → flag st BLOCK_HAVE_UNDO = true)) as (st & E2 & Hf & Hd & Hu).
    { unfold b2. destruct pn; [exists (Z.lor (nStatus b) BLOCK_HAVE_UNDO)|by exists (nStatus b)].
      split_and!; [done|by rewrite flag_lor, orb_false_r|by rewrite flag_lor, orb_false_r|intros _; by rewrite flag_lor, orb_true_r]. }
    destruct (pn || negb valid') eqn:Epv; [|apply orb_false_iff in Epv as [-> _]; injection Ee as <-; by exists (nStatus b)]. clearbody b2. subst b2.
    unfold RaiseValidity in Ee. change (flag BLOCK_VALID_SCRIPTS (Z.lnot BLOCK_VALID_MASK)) with false in Ee. cbn [nStatus set_nStatus] in Ee.
    destruct (flag st BLOCK_FAILED_MASK) eqn:Efb; [injection Ee as <-; exists st; split_and!; [done|congruence|done|done]|].
    destruct (_ <? _); injection Ee as <-; [|exists st; split_and!; [done|congruence|done|done]]. eexists. split; [done|].
    assert (∀ f, Z.land (Z.lnot BLOCK_VALID_MASK) f = f → Z.land BLOCK_VALID_SCRIPTS f = 0 → flag (Z.lor (Z.land st (Z.lnot BLOCK_VALID_MASK)) BLOCK_VALID_SCRIPTS) f = flag st f) as Hkeep.
    { intros f Hm Hs. unfold flag. by rewrite Z.land_lor_distr_l, <- Z.land_assoc, Hm, Hs, Z.lor_0_r. }
    rewrite !Hkeep by done. by rewrite Efb. }
  exists n, st. split_and!; [done..|]. intros Hno. assert (pos_IsNull (GetUndoPos b) = true) as Hpn by (destruct (pos_IsNull _); [done|]; specialize (Hnull eq_refl); congruence).
  split; [by apply Hu|]. destruct (Hplace Hpn) as (q & pos & ? & ? & ?). exists q, pos. split_and!; [done..|]. by destruct (_ || _).
Qed.

Lemma index_same_insert m p b e : m !! p = Some b → core e = core b → failed e = failed b → have_data e = have_data b → index_same m (<[p := e]> m).
Proof.
  intros Hp Hc Hf Hd. split; [by eapply shape_insert|]. intros q c c' Hq. rewrite lookup_insert_Some. intros [[<- <-]|[_ Hq']]; by simplify_eq.
Qed.

Lemma connect_writes_spec p b blk r s ok s' :
  connect_writes p b blk r s = Ok (ok, s') → s_index (c_sel s) !! p = Some b →
  n_pool (c_node s') = n_pool (c_node s) ∧
  ∃ m, index_same (s_index (c_sel s)) m ∧ c_sel s' = set_index m (c_sel s).
Proof.
  unfold connect_writes. intros E Hp. destruct (_ =? _).
  { injection E as _ <-. split; [done|]. exists (s_index (c_sel s)). split; [apply index_same_refl|]. by destruct (c_sel s). }
  set (b1 := set_supply _ _ b) in E. apply outcome_bind_ok in E as ([w x] & E1 & E). apply write_undo_spec in E1 as (Hs & Hpool & _ & Hw).
  assert (c_sel (on_node (λ _, x) s) = c_sel s) as Hsel by exact Hs. destruct w as [e|]; injection E as _ <-.
  - destruct (Hw e eq_refl) as (n & st & -> & Hf & Hd & _). split; [cbn; by destruct (n_fTxIndex x)|]. exists (<[p := set_nStatus st (set_undo_pos n b1)]> (s_index (c_sel s))). split.
    + apply (index_same_insert _ p b); [exact Hp| | |]; [by destruct b|exact Hf|exact Hd].
    + unfold set_entry, c_sel at 1. cbn [c_node with_c_sel on_node set_tree n_tree set_sel t_sel]. unfold write_indexes. cbn [c_node on_node].
      assert (c_sel (ChainState (if n_fTxIndex x then set_txindex (fold_left (λ m i, <[i.1 := DiskTxPos (GetBlockPos (set_nStatus st (set_undo_pos n b1))) i.2]> m) (r_vPos r) (n_txindex x)) x else x)
        (c_indexes s) (c_timestamps s) (c_limiter s)) = c_sel s) as Hx by (rewrite <- Hsel; unfold c_sel; cbn; by destruct (n_fTxIndex x)).
      unfold c_sel in Hx |- *. cbn [c_node] in Hx |- *. by rewrite Hx.
  - split; [exact Hpool|]. exists (<[p := b1]> (s_index (c_sel s))). split.
    + apply (index_same_insert _ p b); [exact Hp|by destruct b|done|done].
    + unfold set_entry. by rewrite Hsel.
Qed.

Lemma ConnectTip_law s p blk r s' :
  ConnectTip s p blk = Ok (r, s') →
  ∃ b, s_index (c_sel s) !! p = Some b ∧ pprev b = active_tip (c_sel s) ∧
  match r with
  | TipConnected => ∃ m v, index_same (s_index (c_sel s)) m ∧ SetTip m (s_active (c_sel s)) (Some p) = Ok v ∧ c_sel s' = set_active v (set_index m (c_sel s))
  | TipInvalid corruption => InvalidBlockFound p corruption (c_sel s) = Ok (c_sel s')
  | TipError => True
  end.
Proof.
  unfold ConnectTip. intros (b & Eb & E)%outcome_bind_ok. unfold deref in Eb. destruct (s_index (c_sel s) !! p) as [b0|] eqn:Hp; [|discriminate Eb].
  injection Eb as ->. exists b. split; [done|]. apply outcome_bind_ok in E as ([] & Ea & E). unfold assert_that in Ea. case_bool_decide as Hpp; [|discriminate Ea].
  split; [done|]. apply outcome_bind_ok in E as (ob & _ & E). destruct ob as [blk'|]; [|injection E as <- <-; done].
  apply outcome_bind_ok in E as (prev & _ & E). destruct (ConnectBlock _ _ _ _ _ _ _ _ _ _ _ _ _ _ _) as [rc|e| |]; [|apply outcome_bind_ok in E as (x & Ex & [= <- <-]); exact Ex|discriminate E..].
  apply outcome_bind_ok in E as ([ok s1] & E1 & E). apply connect_writes_spec in E1 as (_ & m & Hm & Es1); [|done].
  destruct ok; cbn [negb] in E; [|injection E as <- <-; done]. apply outcome_bind_ok in E as (v & _ & E). apply outcome_bind_ok in E as ([ok x] & Ef & E).
  apply FlushStateToDisk_sel in Ef as [Ef _]. destruct ok; cbn [negb] in E; [|injection E as <- <-; done].
  apply outcome_bind_ok in E as ([pool l] & _ & E). apply outcome_bind_ok in E as (s2 & E2 & [= <- <-]). apply UpdateTip_sel in E2 as (v' & Ev & Es2 & _).
  assert (c_sel (on_node (set_pool_of pool) (on_node (λ _, x) (on_node (set_coins v) s1))) = c_sel s1) as Hs by exact Ef.
  rewrite Hs, Es1 in Ev, Es2. exists m, v'. done.
Qed.

Context (addr : Z → Z).

(** So the choice and activation of the best chain runs on this node, and what is
    proved of it against [TipOps] holds here. *)
#[local] Program Instance node_ops : TipOps chain_state CBlock := {|
  sel := c_sel;
  with_sel := with_c_sel;
  tip_addr := addr;
  tip_disconnect := DisconnectTip;
  tip_connect := ConnectTip
|}.
Next Obligation. done. Qed.
Next Obligation. exact DisconnectTip_law. Qed.
Next Obligation. exact ConnectTip_law. Qed.

(** [ProcessNewBlock] with the activation of the best chain, up to the hooks of the
    masternodes and the wallet; [InvalidateBlock] and [ReconsiderBlock] on the node. *)
Context (ModifierUpgradeBlock literal_address now : Z).
Definition ProcessBlock (b : CBlock) (known_peer : bool) (dbp : option CDiskBlockPos) (s : chain_state) : res ((option accept_reject + bool) * chain_state) :=
  '(r, x) ← ProcessNewBlock Verify params nMaxMoneyOut GetHash up ModifierUpgradeBlock literal_address now MessageStart fopen_ok CheckDiskSpace addr
             env b known_peer dbp (c_node s);
  let s := on_node (λ _, x) s in
  match r with
  | Some e => Ok (inl (Some e), s)
  | None => '(ok, s) ← ActivateBestChain (λ b, hash_of b) (Some b) s; Ok (inr ok, s)
  end.
Definition NodeInvalidateBlock (p : Z) (s : chain_state) : res (bool * chain_state) := InvalidateBlock p s.
Definition NodeReconsiderBlock (p : Z) (s : chain_state) : res chain_state := lift_ (ReconsiderBlock p) s.
End Node.
