(* ===== verification/Reorg.v ===== *)
(** * A tip connected and disconnected on the whole node (ConnectTip, DisconnectTip,
      main.cpp)

    [ConnectTip] of [Node] takes a block through the files, the cache over [pcoinsTip],
    the undo file, the indexes, the flush and the active chain.  Here what it leaves is
    followed through all of them, and [DisconnectTip] is shown to undo it: the undo data
    it reads back from disk is what was written, so the best block, the address and spent
    indexes and the active chain are those from before, and so are the unspent outputs
    but for the coinstake flag of what the block has fully spent. *)
From stdpp Require Import base tactics list gmap numbers option.
From Stdlib Require Import ZArith Lia.
From S2P Require Import Prelude.
From S2P Require Import Double.
From S2P Require Import Serialize.
From S2P Require Import BaseUint.
From S2P Require Import ScriptCode.
From S2P Require Import Interpreter.
From S2P Require Import Transaction.
From S2P Require Import SigHash.
From S2P Require Import Chain.
From S2P Require Import Pow.
From S2P Require Import Merkle.
From S2P Require Import Block.
From S2P Require Import Compressor.
From S2P Require Import Coins.
From S2P Require Import CoinsView.
From S2P Require Import Utxo.
From S2P Require Import AddressIndex.
From S2P Require Import ConnectBlock.
From S2P Require Import Ledger.
From S2P Require Import ChainSelect.
From S2P Require Import ActivateChain.
From S2P Require Import Mempool.
From S2P Require Import MempoolAccept.
From S2P Require Import BlockFiles.
From S2P Require Import ChainLink.
From S2P Require Import IndexAdd.
From S2P Require Import AcceptBlock.
From S2P Require Import Accepted.
From S2P Require Import Node.

(** ** Caches that hold the best block themselves *)

Definition tipped (v : view) (h : Z) : Prop := ∃ cache m base, v = ViewCache cache h m base.

Lemma tipped_best v h : tipped v h → h ≠ 0 → (GetBestBlock v).1 = h.
Proof. intros (c & m & b & ->) Hh. rewrite GetBestBlock_cache. by rewrite (proj2 (Z.eqb_neq _ _)). Qed.
Lemma SetBestBlock_tipped v h v' : SetBestBlock v h = Ok v' → tipped v' h.
Proof. destruct v as [|c h' m b]; [discriminate|]. intros [= <-]. by eexists _, _, _. Qed.

Lemma BatchWrite_tipped v l h v' : is_cache v → BatchWrite v l h = Ok v' → tipped v' h.
Proof.
  destruct v as [|c h' m b]; [intros []|intros _]. cbn [BatchWrite]. intros (? & _ & (c' & _ & [= <-])%outcome_bind_ok)%outcome_bind_ok. by eexists _, _, _.
Qed.

(** Flushing keeps the unspent outputs and hands the best block down. *)
Lemma Flush_down v h : view_wf v → tipped v h →
  ∃ base, Flush v = Ok (ViewCache ∅ h false base) ∧ view_wf (ViewCache ∅ h false base) ∧ utxo base = utxo v ∧ utxo (ViewCache ∅ h false base) = utxo v ∧
    (is_cache (view_base v) → tipped base h).
Proof.
  intros Hwf (c & m & b & ->). destruct (Flush_spec c h m b Hwf) as (b' & E & Hwf' & Hu & Hu'). exists b'.
  rewrite (utxos_top b') in Hu. injection Hu as Hu _. split_and!; [done|done|done|congruence|].
  intros Hb. cbn [Flush] in E. apply outcome_bind_ok in E as (b2 & E & [= -> ->]). by eapply BatchWrite_tipped.
Qed.

Lemma flush_into_ok v h : child_wf v → tipped v h →
  ∃ base, flush_into v = Ok base ∧ view_wf base ∧ tipped base h ∧ utxo base = utxo v.
Proof.
  intros (Hwf & _ & Hb) Ht. destruct (Flush_down v h Hwf Ht) as (b & E & (Hwb & _) & Hu & _ & Htb). exists b. unfold flush_into. rewrite E.
  split_and!; [done|done|by apply Htb|done].
Qed.

Lemma new_cache_ok v : view_wf v → is_cache v → child_wf (new_cache v) ∧ utxo (new_cache v) = utxo v.
Proof.
  intros Hwf Hc. split; [split_and!; [|done|done]|].
  - split_and!; [done|done|]. intros t e He. by rewrite lookup_empty in He.
  - apply utxo_ext. intros t. unfold new_cache. by rewrite view_coins_cache, lookup_empty.
Qed.
Lemma new_cache_best v : (GetBestBlock (new_cache v)).1 = (GetBestBlock v).1.
Proof. unfold new_cache. by rewrite GetBestBlock_cache. Qed.

(** ** The last step of connecting and of disconnecting *)

Lemma set_best_tipped {E'} v h v' : no_err (E':=E') (cs_set_best (CoinsStore:=child_store) v h) = Ok v' → tipped v' h.
Proof. cbn. destruct (SetBestBlock v h) eqn:Es; [|discriminate..]. intros [= <-]. by eapply SetBestBlock_tipped. Qed.

Section Last.
Context (Verify : list Z → Z → list Z → bool) (GetHash : CBlockHeader → Z) (params : CChainParams) (up : upgrade_params).
Context (nMaxMoneyOut COINBASE_MATURITY : Z) (env : node_env) (be : budget_env) (cfg : node_config).

Lemma ConnectBlock_tipped blk b h supply v r :
  GetHash (header blk) ≠ HashGenesisBlock up →
  ConnectBlock (H:=child_store) Verify GetHash params up nMaxMoneyOut COINBASE_MATURITY env be cfg blk b (Some h) supply v false = Ok r →
  tipped (r_view r) h.
Proof.
  intros Hg E. unfold ConnectBlock in E. apply outcome_bind_ok in E as (u & _ & E). destruct (cs_best v) as [best w].
  apply outcome_bind_ok in E as (u' & _ & E). rewrite (proj2 (Z.eqb_neq _ _) Hg) in E.
  destruct (_ && _) in E; [discriminate E|]. destruct (_ && _) in E; [discriminate E|].
  do 9 apply outcome_bind_ok in E as (? & _ & E). destruct (negb _) in E; [discriminate E|]. destruct (_ <? _); [discriminate E|].
  apply outcome_bind_ok in E as (ok' & _ & E). destruct (negb ok'); [discriminate E|]. apply outcome_bind_ok in E as (v' & E' & [= <-]).
  by apply set_best_tipped in E'.
Qed.

Lemma DisconnectBlock_tipped blk b h undo v q c v' x :
  pprev b = Some q → DisconnectBlock (H:=child_store) cfg blk b h undo v = Ok (c, v', x) → tipped v' q.
Proof.
  intros Hq E. unfold DisconnectBlock in E. destruct (cs_best v) as [best w]. apply outcome_bind_ok in E as (? & _ & E).
  destruct undo as [l|]; [|discriminate E]. destruct (negb _) in E; [discriminate E|]. apply outcome_bind_ok in E as ([c' w'] & _ & E).
  apply outcome_bind_ok in E as (? & _ & E). rewrite Hq in E. apply outcome_bind_ok in E as (v2 & E' & [= _ <- _]).
  by apply set_best_tipped in E'.
Qed.

(** Only the height and the predecessor of the entry are read. *)
Lemma DisconnectBlock_entry blk b e h undo (v : view) :
  nHeight e = nHeight b → pprev e = pprev b → DisconnectBlock (H:=child_store) cfg blk e h undo v = DisconnectBlock (H:=child_store) cfg blk b h undo v.
Proof. intros Hh Hp. unfold DisconnectBlock. by rewrite Hh, Hp. Qed.

(** What was applied may be looked at through any store of the same contents. *)
Lemma block_applied_store blk b h supply v (r : connected view) (w : view) flags xss checks :
  block_applied (H:=child_store) Verify GetHash params up nMaxMoneyOut COINBASE_MATURITY env be cfg blk b (Some h) supply false v r flags xss checks →
  child_wf w → utxo w = utxo (r_view r) → (h ≠ 0 → (GetBestBlock w).1 = h) →
  block_applied (H:=child_store) Verify GetHash params up nMaxMoneyOut COINBASE_MATURITY env be cfg blk b (Some h) supply false v
    (Connected w (ConnectBlock.nMoneySupply r) (ConnectBlock.nMint r) (r_undo r) (r_vecs r) (r_vPos r)) flags xss checks.
Proof.
  intros [A1 A2 A3 A4 A5 A6 A7 A8 A9 A10 A11 A12 A13 A14 A15] Hw Hu Hb.
  split; try assumption; cbn [r_view r_undo r_vecs ConnectBlock.nMint ConnectBlock.nMoneySupply].
  - change (cs_utxo w) with (utxo w). rewrite Hu. exact A3.
  - intros _. by exists h.
Qed.
End Last.

(** ** What a flush and the undo file keep *)

Definition same_files (f f' : block_files) : Prop :=
  vinfoBlockFile f' = vinfoBlockFile f ∧ nLastBlockFile f' = nLastBlockFile f ∧ blk_files f' = blk_files f ∧ rev_files f' = rev_files f.
Lemma same_files_refl f : same_files f f.
Proof. done. Qed.
Lemma files_ok_same SetPubKey f f' lb lu : same_files f f' → files_ok SetPubKey f lb lu → files_ok SetPubKey f' lb lu.
Proof.
  destruct f, f'. intros (E1 & E2 & E3 & E4) [F1 F2 F3 F4]. cbn in *. subst. by split.
Qed.

(** ** The pool only reads the coins *)

Section Pool_reads.
Context `{CoinsStore V} (pow : double → double → double) (Verify : list Z → Z → list Z → bool) (env : accept_env).
Context (Hmoney : 0 ≤ MempoolAccept.nMaxMoneyOut env < 2 ^ 62).

Lemma accept_reads tx fl fr ig (a : accept_state V) :
  cs_ok (as_tip a) →
  match AcceptToMemoryPool pow Verify env tx fl fr ig a with Ok a' | Err (_, a') => reads (as_tip a) (as_tip a') | _ => True end.
Proof.
  intros Hv. pose proof (reads_refl _ Hv) as Hself. unfold AcceptToMemoryPool.
  pose proof (check_loose_spec env tx true true a Hmoney) as L. destruct (check_loose _ _ _ _ _) as [[]|[]| |]; [|by subst|done..].
  cbn [mbind outcome_bind]. pose proof (open_view_spec tx a Hv (lo_new _ _ _ _ L)) as O.
  destruct (open_view tx a) as [[[f b] a1]|[r a1]| |]; [|apply O|done..]. cbn [mbind outcome_bind]. destruct O as (R & _).
  destruct (GetValueIn _ tx) as [[n view]| | |]; [|done..]. cbn [no_err mbind outcome_bind].
  set (m := if RequireStandard env then _ else _).
  assert (match m with Err _ => False | _ => True end) as Hm by (unfold m; destruct (RequireStandard env); [by destruct (AreInputsStandard _ _) as [[]| | |]|done]).
  clearbody m. destruct m as [[std view']|?| |]; [|destruct Hm|done..]. cbn [mbind outcome_bind]. destruct std; cbn [negb]; [|exact R].
  pose proof (make_entry_spec env tx n view' a1) as Me. destruct (make_entry _ _ _ _ _) as [e|[]| |]; [|by subst|done..]. cbn [mbind outcome_bind].
  match goal with |- context [apply_fees _ _ ?d ?t ?x ?i ?l ?e ?v ?s] => pose proof (apply_fees_calm pow env d t x i l e v s) as Mf end.
  destruct (apply_fees _ _ _ _ _ _ _ _ _ _) as [a2|[r a2]| |]; [|destruct Mf as [Mf _]; cbn; by rewrite Mf|done..]. destruct Mf as [Ha2 _]. cbn [mbind outcome_bind].
  rewrite <- Ha2 in R. set (i := if fr then _ else _). assert (match i with Err _ => False | _ => True end) as Hi by (unfold i; destruct fr; [by destruct (insane_fee _ _)|done]).
  clearbody i. destruct i as [insane|?| |]; [|destruct Hi|done..]. cbn [mbind outcome_bind]. destruct insane; [exact R|].
  destruct (check_inputs _ _ _ _ STANDARD_SCRIPT_VERIFY_FLAGS view') as [[]|?| |]; cbn [checked map_err mbind outcome_bind]; [|exact R|done..].
  destruct (check_inputs _ _ _ _ MANDATORY_SCRIPT_VERIFY_FLAGS view') as [[]|?| |]; cbn [checked map_err mbind outcome_bind]; [|exact R|done..].
  by destruct (store_entry _ _ _ _ _) as [p| | |].
Qed.

Lemma spends_immature_reads mat sane p h ins (v : V) r v' : cs_ok v → spends_immature mat sane p h ins v = Ok (r, v') → reads v v'.
Proof.
  revert v. induction ins as [|t ins IH]; intros v Hv; cbn [spends_immature]; [by intros [= _ <-]; apply reads_refl|].
  destruct (mapTx p !! _); [by apply IH|]. destruct (access_utxo v (prevout_hash (prevout t)) Hv) as [R _]. destruct (cs_access v _) as [c w]. cbn [snd] in R.
  destruct c as [c|]; [|destruct sane; [done|]; by intros [= _ <-]]. destruct (_ && _); [by intros [= _ <-]|]. intros E.
  eapply reads_trans; [exact R|]. apply (IH w); [apply R|exact E].
Qed.
Lemma find_immature_reads mat sane p h es (v : V) l v' : cs_ok v → find_immature mat sane p h es v = Ok (l, v') → reads v v'.
Proof.
  revert v l. induction es as [|e es IH]; intros v l Hv; cbn [find_immature]; [by intros [= _ <-]; apply reads_refl|].
  intros ([bad w] & E1%spends_immature_reads & ([l2 w2] & E2 & [= _ <-])%outcome_bind_ok)%outcome_bind_ok; [|done].
  eapply reads_trans; [exact E1|]. apply (IH w l2); [apply E1|exact E2].
Qed.
Lemma removeCoinbaseSpends_reads mat sane (v : V) h p p' v' : cs_ok v → removeCoinbaseSpends mat sane v h p = Ok (p', v') → reads v v'.
Proof.
  intros Hv. unfold removeCoinbaseSpends. intros ([l w] & E & (q & _ & [= _ <-])%outcome_bind_ok)%outcome_bind_ok. by eapply find_immature_reads.
Qed.
End Pool_reads.

Lemma accept_again_reads pow Verify e tx (a a' : accept_state view) :
  0 ≤ MempoolAccept.nMaxMoneyOut e < 2 ^ 62 → cs_ok (as_tip a) → accept_again pow Verify e tx a = Ok a' → reads (as_tip a) (as_tip a').
Proof.
  intros Hm Hv E. unfold accept_again in E.
  assert (∀ b b' : accept_state view, reads (as_tip a) (as_tip b) → ('(p, _) ← Mempool.remove tx [] true (as_pool b); Ok (set_as_pool p b)) = Ok b' → reads (as_tip a) (as_tip b')) as Hdrop.
  { intros b b' Hb ([p l] & _ & [= <-])%outcome_bind_ok. exact Hb. }
  destruct (_ || _); [by eapply Hdrop; [apply reads_refl|]|].
  pose proof (accept_reads pow Verify e Hm tx false false false a Hv) as R.
  destruct (AcceptToMemoryPool _ _ _ _ _ _ _ _) as [b|[r b]| |]; [by injection E as <-|by eapply Hdrop|discriminate E..].
Qed.
Lemma resurrect_reads pow Verify e txs (a a' : accept_state view) :
  0 ≤ MempoolAccept.nMaxMoneyOut e < 2 ^ 62 → cs_ok (as_tip a) → resurrect pow Verify e txs a = Ok a' → reads (as_tip a) (as_tip a').
Proof.
  intros Hm. revert a. induction txs as [|tx txs IH]; intros a Hv; cbn [resurrect]; [by intros [= <-]; apply reads_refl|].
  intros (b & E1 & E2)%outcome_bind_ok. apply accept_again_reads in E1; [|done..]. eapply reads_trans; [exact E1|]. apply IH; [apply E1|exact E2].
Qed.
Lemma disconnect_pool_reads pow Verify mat aenv sane txs h s s' :
  0 ≤ MempoolAccept.nMaxMoneyOut aenv < 2 ^ 62 → cs_ok (n_coins (c_node s)) → disconnect_pool pow Verify mat aenv sane txs h s = Ok s' →
  reads (n_coins (c_node s)) (n_coins (c_node s')) ∧ c_indexes s' = c_indexes s.
Proof.
  intros Hm Hv. unfold disconnect_pool. intros (a & E1 & ([p v] & E2 & [= <-])%outcome_bind_ok)%outcome_bind_ok. split; [|done].
  apply resurrect_reads in E1; [|done|done]. cbn [as_tip] in E1. apply removeCoinbaseSpends_reads in E2; [|apply E1]. by eapply reads_trans.
Qed.

Section Reorg.
Context (pow : double → double → double) (Verify : list Z → Z → list Z → bool) (GetHash : CBlockHeader → Z).
Context (params : CChainParams) (up : upgrade_params) (nMaxMoneyOut COINBASE_MATURITY nCoinCacheSize : Z).
Context (env : node_env) (be : budget_env) (cfg : node_config) (aenv : accept_env) (fTimestampIndex fSanityCheck : bool).
Context (MessageStart : list Z) (fopen_ok CheckDiskSpace : Z → bool) (SetPubKey : list Z → bool) (GetPubKey : list Z → list Z).
Context (Hspace : ∀ n, CheckDiskSpace n = true).
Notation hash_of b := (GetHash (header b)).
Notation undo_stored := (store_undo fopen_ok CheckDiskSpace MessageStart SetPubKey).

Lemma FlushStateToDisk_ok always x h :
  view_wf (n_coins x) → tipped (n_coins x) h →
  ∃ x', FlushStateToDisk nCoinCacheSize CheckDiskSpace always x = Ok (true, x') ∧
    view_wf (n_coins x') ∧ tipped (n_coins x') h ∧ utxo (n_coins x') = utxo (n_coins x) ∧ same_files (n_files x) (n_files x').
Proof.
  intros Hwf Ht. unfold FlushStateToDisk. destruct (_ || _); [|by exists x]. rewrite Hspace.
  destruct (Flush_down _ _ Hwf Ht) as (b & E & Hwf' & _ & Hu & _). cbn [n_coins set_files set_tree]. rewrite E. cbn [no_err mbind outcome_bind].
  eexists. split; [reflexivity|]. split_and!; [exact Hwf'|by eexists _, _, _|exact Hu|done].
Qed.

Lemma store_undo_file nFile v h f pos f' : undo_stored nFile v h f = Ok (Some pos, f') → p_file pos = nFile ∧ blk_files f' = blk_files f ∧ 0 ≤ nFile.
Proof.
  unfold store_undo. intros (bs & Eb & ([o f1] & E1 & E)%outcome_bind_ok)%outcome_bind_ok. unfold FindUndoPos in E1. destruct (Z.ltb_spec nFile 0); [discriminate E1|].
  destruct (vinfoBlockFile f !! _) as [i|]; [|discriminate E1]. destruct (preallocate _ _ _ _ _ _) as [l|]; injection E1 as <- <-; [|discriminate E].
  apply outcome_bind_ok in E as (w & Ew & E). unfold UndoWriteToDisk in Ew. destruct (OpenDiskFile _ _ _ _) as [file|]; [|by injection Ew as <-].
  rewrite Eb in Ew. injection Ew as <-. injection E as <- <-. done.
Qed.

(** ** What ConnectTip leaves *)

Record tip_connected (p q : Z) (b : CBlockIndex) (blk : CBlock) (r : connected view) (e : CBlockIndex) (pos : CDiskBlockPos) (s s1 : chain_state) : Prop := {
  tc_entry : s_index (c_sel s1) !! p = Some e;
  tc_same : nHeight e = nHeight b ∧ pprev e = pprev b ∧ GetBlockPos e = GetBlockPos b ∧ GetUndoPos e = pos;
  tc_undo : ∃ f, undo_stored (nFile (bi_disk b)) (r_undo r) q (n_files (c_node s)) = Ok (Some pos, f) ∧ same_files f (n_files (c_node s1));
  tc_coins : view_wf (n_coins (c_node s1)) ∧ tipped (n_coins (c_node s1)) p ∧ utxo (n_coins (c_node s1)) = utxo (r_view r);
  tc_indexes : c_indexes s1 = write_vecs cfg (r_vecs r) (c_indexes s)
}.

Lemma set_undo_pos_entry n st b mint supply pos f undo q s :
  flag st BLOCK_HAVE_DATA = have_data b → flag st BLOCK_HAVE_UNDO = true → n = p_pos pos → undo_stored (nFile (bi_disk b)) undo q s = Ok (Some pos, f) →
  let e := set_nStatus st (set_undo_pos n (set_supply mint supply b)) in
  nHeight e = nHeight b ∧ pprev e = pprev b ∧ GetBlockPos e = GetBlockPos b ∧ GetUndoPos e = pos.
Proof.
  intros Hd Hu -> Hs. apply store_undo_file in Hs as (Hf & _). destruct pos as [pf pp]. cbn in Hf. subst pf. cbn zeta.
  split_and!; [by destruct b|by destruct b| |].
  - unfold GetBlockPos, have_data in *. destruct b. cbn in *. by rewrite Hd.
  - unfold GetUndoPos. destruct b. cbn in *. by rewrite Hu.
Qed.

Lemma connect_writes_ok p b blk r s s' :
  hash_of blk ≠ HashGenesisBlock up → flag (nStatus b) BLOCK_HAVE_UNDO = false →
  connect_writes GetHash up cfg fTimestampIndex MessageStart fopen_ok CheckDiskSpace SetPubKey p b blk r s = Ok (true, s') →
  ∃ q pos e, pprev b = Some q ∧ s_index (c_sel s') !! p = Some e ∧
    (nHeight e = nHeight b ∧ pprev e = pprev b ∧ GetBlockPos e = GetBlockPos b ∧ GetUndoPos e = pos) ∧
    undo_stored (nFile (bi_disk b)) (r_undo r) q (n_files (c_node s)) = Ok (Some pos, n_files (c_node s')) ∧
    c_indexes s' = write_vecs cfg (r_vecs r) (c_indexes s).
Proof.
  intros Hg Hno E. unfold connect_writes in E. rewrite (proj2 (Z.eqb_neq _ _) Hg) in E. apply outcome_bind_ok in E as ([w x] & E1 & E).
  destruct w as [e|]; [|discriminate E]. injection E as <-. apply write_undo_spec in E1 as (Hs & _ & _ & Hw).
  destruct (Hw e eq_refl) as (n & st & -> & _ & Hd & Hu). destruct (Hu Hno) as (Hst & q & pos & Hq & Hn & Hst').
  exists q, pos, (set_nStatus st (set_undo_pos n (set_supply (ConnectBlock.nMint r) (ConnectBlock.nMoneySupply r) b))).
  split; [exact Hq|]. split; [unfold set_entry, c_sel, with_c_sel; cbn; apply lookup_insert_eq|].
  split; [by eapply (set_undo_pos_entry n st b _ _ pos)|]. split; [|done]. etrans; [exact Hst'|]. cbn. by destruct (n_fTxIndex x).
Qed.

Notation connect_tip := (ConnectTip Verify GetHash params up nMaxMoneyOut COINBASE_MATURITY nCoinCacheSize env be cfg fTimestampIndex MessageStart fopen_ok CheckDiskSpace SetPubKey).
Notation connect_block x := (ConnectBlock (H:=child_store) Verify GetHash params up nMaxMoneyOut COINBASE_MATURITY (env_at env x) be cfg).
Notation read_block := (ReadBlockFromDisk_index fopen_ok params GetHash).

Lemma read_block_hash m p f blk : read_block m p f = Ok (Some blk) → hash_of blk = p.
Proof.
  unfold ReadBlockFromDisk_index. intros (e & _ & E)%outcome_bind_ok. destruct (ReadBlockFromDisk _ _ _ _ _) as [b|]; [|discriminate E].
  destruct (Z.eqb_spec (hash_of b) p) as [Hh|]; [|discriminate E]. injection E as <-. exact Hh.
Qed.

(** What of the node's order ([node_ok]) matters here. *)
Record steady (s : chain_state) : Prop := {
  st_sel : sel_ok (c_sel s);
  st_coins : view_wf (n_coins (c_node s)) ∧ is_cache (n_coins (c_node s));
  st_files : ∃ lb lu, files_ok SetPubKey (n_files (c_node s)) lb lu ∧ backed params GetHash (s_index (c_sel s)) lb
}.
Lemma node_ok_steady s : node_ok params GetHash SetPubKey (c_node s) → steady s.
Proof. intros [[H1 _ _ _ _] _ _ _ _ _ H2 H3]. by split. Qed.

Lemma steady_env s : steady s → env_ok (env_at env (c_node s)).
Proof.
  intros [[_ _ Hc _ _ _] _ _] p Hp. change (list.last (s_active (c_sel s)) = Some (Some p)) in Hp. change (is_Some (s_index (c_sel s) !! p)).
  unfold active_tip in Hc. rewrite Hp in Hc. destruct Hc as (c & Hc & _). by exists c.
Qed.
Lemma steady_follows s p b q : steady s → s_index (c_sel s) !! p = Some b → pprev b = Some q → follows (env_at env (c_node s)) b.
Proof.
  intros [[Hwf _ _ _ _ _] _ _] Hp Hq prev. rewrite Hq. cbn [default]. intros Hprev. change (s_index (c_sel s) !! q = Some prev) in Hprev.
  destruct (wf_pprev _ Hwf p b q Hp Hq) as (c & Hc & Hh). simplify_eq. done.
Qed.
Context (Hmoney : 0 ≤ nMaxMoneyOut < 2 ^ 62).

Lemma ConnectTip_left s p q pblock blk b s1 :
  steady s → pprev b = Some q →
  s_index (c_sel s) !! p = Some b → flag (nStatus b) BLOCK_HAVE_UNDO = false → p ≠ HashGenesisBlock up →
  read_block (s_index (c_sel s)) p (n_files (c_node s)) = Ok (Some blk) → pblock = None ∨ pblock = Some blk →
  connect_tip s p pblock = Ok (TipConnected, s1) →
  ∃ supply r e pos, connect_block (c_node s) blk b (Some p) supply (new_cache (n_coins (c_node s))) false = Ok r ∧
    tip_connected p q b blk r e pos s s1 ∧ ∃ flags xss checks,
    block_applied (H:=child_store) Verify GetHash params up nMaxMoneyOut COINBASE_MATURITY (env_at env (c_node s)) be cfg blk b (Some p) supply false
      (new_cache (n_coins (c_node s))) r flags xss checks.
Proof.
  intros Hst Hq Hp Hno Hg Hread Hpb E. destruct (st_coins _ Hst) as [Hwf Hc]. pose proof (read_block_hash _ _ _ _ Hread) as Hh. rewrite <- Hh in Hg. unfold ConnectTip in E.
  rewrite (deref_some _ p b Hp) in E. cbn [mbind outcome_bind] in E. apply outcome_bind_ok in E as ([] & _ & E).
  assert (tip_block GetHash params fopen_ok p pblock (c_node s) = Ok (Some blk)) as Eblk by (destruct Hpb as [->| ->]; [exact Hread|done]).
  rewrite Eblk in E. cbn [mbind outcome_bind] in E. apply outcome_bind_ok in E as (prev & _ & E).
  destruct (ConnectBlock _ _ _ _ _ _ _ _ _ _ _ _ _ _ _) as [r|e| |] eqn:Ec; [|apply outcome_bind_ok in E as (x & _ & E); discriminate E|discriminate E..].
  apply outcome_bind_ok in E as ([ok s2] & Ew & E). destruct ok; cbn [negb] in E; [|discriminate E].
  pose proof (connect_writes_ok p b blk r s s2 Hg Hno Ew) as (q' & pos & e & Hq' & He & Hsame & Hundo & Hidx). rewrite Hq in Hq'. injection Hq' as <-.
  destruct (ConnectBlock_Ok (H:=child_store) _ _ _ _ _ _ _ _ _ _ _ _ _ _ _ _ (proj1 (new_cache_ok _ Hwf Hc)) Hmoney (steady_env s Hst)
    (steady_follows s p b q Hst Hp Hq) Hg Ec) as (flags & xss & checks & Ha). pose proof (ba_view _ _ _ _ _ _ _ _ _ _ _ _ _ _ _ _ _ _ _ Ha) as Hrw.
  destruct (flush_into_ok (r_view r) p Hrw) as (w & Ev & Hww & Hwt & Hwu); [by eapply ConnectBlock_tipped|].
  rewrite Ev in E. cbn [mbind outcome_bind] in E. apply outcome_bind_ok in E as ([ok x] & Ef & E).
  match type of Ef with FlushStateToDisk _ _ ?a _ = _ => destruct (FlushStateToDisk_ok a (c_node (on_node (set_coins w) s2)) p Hww Hwt) as (x' & Ef' & Hx1 & Hx2 & Hx3 & Hx4) end.
  pose proof (FlushStateToDisk_sel _ _ _ _ _ Ef) as [Hsel _]. rewrite Ef' in Ef. injection Ef as <- <-. cbn [negb] in E.
  apply outcome_bind_ok in E as ([pool l] & _ & E). apply outcome_bind_ok in E as (s3 & Eu & [= <-]).
  apply UpdateTip_sel in Eu as (v & _ & Hs3 & Hc3 & Hf3 & Hi3).
  eexists _, r, e, pos. split; [exact Ec|]. split; [|by eexists _, _, _]. split; [|exact Hsame| | |].
  - rewrite Hs3. exact (eq_trans (f_equal (λ z, s_index z !! p) Hsel) He).
  - eexists. split; [exact Hundo|]. rewrite Hf3. exact Hx4.
  - rewrite Hc3. split_and!; [exact Hx1|exact Hx2|]. exact (eq_trans Hx3 Hwu).
  - by rewrite Hi3.
Qed.

(** ** What DisconnectTip finds *)

(** Undo data that the format of the undo file keeps as it is, and that fits the file. *)
Definition undo_fits (v : list (list CTxInUndo)) (b : CBlockIndex) (f : block_files) : Prop :=
  Forall (λ u, Forall undo_ok u ∧ Z.of_nat (length u) ≤ MAX_SIZE) v ∧ Z.of_nat (length v) ≤ MAX_SIZE ∧
  stored_undos v = v ∧
  ∃ i, vinfoBlockFile f !! Z.to_nat (nFile (bi_disk b)) = Some i ∧ 0 ≤ f_nUndoSize i ∧
    ∀ bs, ser_blockundo SetPubKey v = Ok bs → f_nUndoSize i + size bs + 40 < 2 ^ 32.
Context (Hmagic : length MessageStart = 4%nat) (Hec : decompresses SetPubKey GetPubKey).

(** The block read from disk is the one that backs the entry. *)
Lemma read_block_backed m p b blk f lb lu :
  files_ok SetPubKey f lb lu → backed params GetHash m lb → m !! p = Some b → read_block m p f = Ok (Some blk) →
  (GetBlockPos b, blk) ∈ lb ∧ have_data b = true ∧ fopen_ok (nFile (bi_disk b)) = true ∧ work_holds params GetHash blk.
Proof.
  intros Hf Hb Hp E. unfold ReadBlockFromDisk_index in E. rewrite (deref_some m p b Hp) in E. cbn [mbind outcome_bind] in E.
  destruct (ReadBlockFromDisk _ _ _ _ _) as [c|] eqn:Er; [|discriminate E]. destruct (_ =? p); [|discriminate E]. injection E as ->.
  assert (fopen_ok (p_file (GetBlockPos b)) = true ∧ pos_IsNull (GetBlockPos b) = false) as [Ho Hnull].
  { unfold ReadBlockFromDisk, OpenDiskFile in Er. destruct (pos_IsNull _); [discriminate Er|]. destruct (fopen_ok _); [done|discriminate Er]. }
  assert (have_data b = true ∧ p_file (GetBlockPos b) = nFile (bi_disk b)) as [Hd Hn].
  { unfold GetBlockPos, have_data in *. destruct (flag _ _); [done|discriminate Hnull]. }
  destruct (Hb p b Hp Hd) as (d & Hin & _ & Hw).
  pose proof (block_read fopen_ok params GetHash f (GetBlockPos b, d) (proj1 (list.Forall_forall _ _) (fo_blocks _ _ _ _ Hf) _ Hin) Ho Hw) as Hrd.
  cbn [fst snd] in Hrd. rewrite Hrd in Er. injection Er as <-. split_and!; [done|done|by rewrite <- Hn|done].
Qed.
Lemma read_block_again m p e blk f lb lu :
  files_ok SetPubKey f lb lu → (GetBlockPos e, blk) ∈ lb → fopen_ok (p_file (GetBlockPos e)) = true → work_holds params GetHash blk →
  m !! p = Some e → hash_of blk = p → read_block m p f = Ok (Some blk).
Proof.
  intros Hf Hin Ho Hw Hp Hh. unfold ReadBlockFromDisk_index. rewrite (deref_some m p e Hp). cbn [mbind outcome_bind].
  pose proof (block_read fopen_ok params GetHash f (GetBlockPos e, blk) (proj1 (list.Forall_forall _ _) (fo_blocks _ _ _ _ Hf) _ Hin) Ho Hw) as Hrd.
  cbn [fst snd] in Hrd. by rewrite Hrd, Hh, Z.eqb_refl.
Qed.
Lemma read_undo_again e q v pos x lb lu :
  files_ok SetPubKey (n_files x) lb ((pos, q, v) :: lu) → GetUndoPos e = pos → pprev e = Some q → 0 ≤ p_file pos → fopen_ok (p_file pos) = true →
  read_undo_of fopen_ok SetPubKey GetPubKey e x = Ok (Some (stored_undos v)).
Proof.
  intros Hf Hpos Hq H0 Ho. unfold read_undo_of. rewrite Hpos, Hq. unfold pos_IsNull. rewrite (proj2 (Z.eqb_neq _ _)) by lia.
  pose proof (undo_read SetPubKey GetPubKey Hec fopen_ok (n_files x) (pos, q, v) (List.Forall_inv (fo_undos _ _ _ _ Hf)) Ho) as Hr.
  cbn [fst snd] in Hr. by rewrite Hr.
Qed.

Lemma disconnect_after p q b blk r e pos s s1 supply flags xss checks :
  steady s → s_index (c_sel s) !! p = Some b → pprev b = Some q → q ≠ 0 → p ≠ 0 → 0 < nHeight b < 2 ^ 31 →
  utxo_wf (utxo (n_coins (c_node s))) → NoDup (tx_hash <$> vtx blk) → fEnforceBIP30 (nHeight b) (Some p) = true →
  read_block (s_index (c_sel s)) p (n_files (c_node s)) = Ok (Some blk) →
  tip_connected p q b blk r e pos s s1 → undo_fits (r_undo r) b (n_files (c_node s)) → 0 < COINBASE_MATURITY →
  block_applied (H:=child_store) Verify GetHash params up nMaxMoneyOut COINBASE_MATURITY (env_at env (c_node s)) be cfg blk b (Some p) supply false
    (new_cache (n_coins (c_node s))) r flags xss checks →
  ∃ s2, disconnect_coins GetHash params nCoinCacheSize cfg fopen_ok CheckDiskSpace SetPubKey GetPubKey p e s1 = Ok (Some blk, s2) ∧
    view_wf (n_coins (c_node s2)) ∧ tipped (n_coins (c_node s2)) q ∧
    utxo (n_coins (c_node s2)) = restored (utxo (n_coins (c_node s))) (utxo (n_coins (c_node s1))) ∧ c_sel s2 = c_sel s1 ∧
    c_indexes s2 = unwrite_indexes cfg (collect (dis (fAddressIndex cfg) (fSpentIndex cfg) (nHeight b)) (rev (block_events 0 (vtx blk) xss))) (c_indexes s1).
Proof.
  intros Hst Hp Hq Hq0 Hp0 Hh Hwf Hnd Hbip Hread [He (Eh & Ep & Eb & Eu) (f & Hundo & Hfiles) (Hw1 & Ht1 & Hu1) Hidx] (Hv & Hlv & Hsu & i & Hi & Hi0 & Hfit) Hmat Ha.
  destruct (st_coins _ Hst) as [Hcw Hcc]. destruct (st_files _ Hst) as (lb & lu & Hf & Hb).
  pose proof (store_undo_file _ _ _ _ _ _ Hundo) as (Hpf & Hblk & Hn0).
  destruct (store_undo_ok fopen_ok CheckDiskSpace MessageStart Hmagic SetPubKey GetPubKey Hec _ lb lu Hf (nFile (bi_disk b)) i (r_undo r) q Hi Hn0 Hi0 Hv Hlv Hfit)
    as (o & f' & Hundo' & Hok). rewrite Hundo in Hundo'. injection Hundo' as <- <-. apply (files_ok_same _ _ _ _ _ Hfiles) in Hok.
  destruct (read_block_backed _ p b blk _ lb lu Hf Hb Hp Hread) as (Hin & Hd & Ho & Hwk). pose proof (read_block_hash _ _ _ _ Hread) as Hhash.
  unfold disconnect_coins. rewrite (read_block_again _ p e blk _ lb _ Hok); [|by rewrite Eb|rewrite Eb; unfold GetBlockPos, have_data in *; by rewrite Hd|done|done|done].
  cbn [mbind outcome_bind]. rewrite (read_undo_again e q (r_undo r) pos _ lb lu Hok Eu); [|congruence|lia|by rewrite Hpf]. cbn [mbind outcome_bind].
  rewrite Hsu, (DisconnectBlock_entry _ _ b e) by done.
  assert (is_cache (n_coins (c_node s1))) as Hc1 by (destruct Ht1 as (? & ? & ? & ->); done).
  destruct (new_cache_ok _ Hw1 Hc1) as [Hn1 Hn2]. set (w := new_cache (n_coins (c_node s1))) in *.
  assert ((GetBestBlock w).1 = p) as Hbest by (unfold w; rewrite new_cache_best; by apply tipped_best).
  pose proof (block_applied_store _ _ _ _ _ _ _ _ _ _ _ _ _ _ r w _ _ _ Ha Hn1 (eq_trans Hn2 Hu1) (λ _, Hbest)) as Ha'.
  destruct (new_cache_ok _ Hcw Hcc) as [Hm1 Hm2].
  destruct (disconnect_applied (H:=child_store) _ _ _ _ _ _ _ _ _ blk b p supply _ _ flags xss checks q Hm1 (eq_ind_r utxo_wf Hwf Hm2) Ha' Hbip Hnd Hh Hq Hq0 Hp0 Hmat)
    as (v' & Ed & Hv' & Hu' & _).
  cbn [r_view r_undo] in Ed. rewrite Ed. cbn [negb]. pose proof (DisconnectBlock_tipped _ _ _ _ _ _ _ _ _ _ Hq Ed) as Hvt.
  destruct (flush_into_ok v' q Hv' Hvt) as (w2 & Ew2 & Hw21 & Hw22 & Hw23). rewrite Ew2. cbn [mbind outcome_bind].
  destruct (FlushStateToDisk_ok true (set_coins w2 (c_node s1)) q Hw21 Hw22) as (x' & Ef & Hx1 & Hx2 & Hx3 & _).
  pose proof (FlushStateToDisk_sel _ _ _ _ _ Ef) as [Hsel _]. cbn [c_node]. rewrite Ef. cbn [mbind outcome_bind]. eexists. split; [reflexivity|].
  split_and!; [exact Hx1|exact Hx2| |exact Hsel|done]. etrans; [exact Hx3|]. etrans; [exact Hw23|]. etrans; [exact Hu'|].
  change (restored (utxo (new_cache (n_coins (c_node s)))) (utxo w) = restored (utxo (n_coins (c_node s))) (utxo (n_coins (c_node s1)))).
  by rewrite Hn2, Hm2.
Qed.

(** ** The active chain *)

Lemma chain_unique m v v' t : chain_ok m v (Some t) → chain_ok m v' (Some t) → v = v'.
Proof.
  intros (b & Hb & Hl & Hk) (b' & Hb' & Hl' & Hk'). simplify_eq. apply list_eq. intros i.
  destruct (decide (i < length v)%nat) as [Hi|Hi]; [|rewrite !lookup_ge_None_2 by lia; done].
  rewrite <- (Nat2Z.id i), Hk, Hk' by lia. done.
Qed.

Lemma ConnectTip_chain s p q pblock b s1 :
  steady s → s_index (c_sel s) !! p = Some b → pprev b = Some q → connect_tip s p pblock = Ok (TipConnected, s1) →
  active_tip (c_sel s1) = Some p ∧ SetTip (s_index (c_sel s1)) (s_active (c_sel s1)) (Some q) = Ok (s_active (c_sel s)).
Proof.
  intros [Hsel _ _] Hp Hq E. apply ConnectTip_law in E as (b' & Hp' & Htip & m & v & Hm & Ev & Es). simplify_eq.
  pose proof (so_wf _ Hsel) as Hwf. pose proof (so_chain _ Hsel) as Hc. rewrite <- Htip in Hc. destruct Hm as [Hsh _].
  assert (index_wf m) as Hwm by (by rewrite <- Hsh). assert (chain_ok m (s_active (c_sel s)) (Some q)) as Hcm by (by rewrite <- Hsh).
  destruct (proj1 (shape_is_Some _ _ p Hsh)) as [e He]; [by exists b|].
  destruct (SetTip_chain m Hwm _ _ p e Hcm He) as (v1 & Ev1 & Hv1). rewrite Ev in Ev1. injection Ev1 as <-.
  rewrite Es. unfold active_tip. cbn [s_active s_index set_active set_index]. split; [by apply (chain_tip m)|].
  destruct Hcm as (c & Hcq & Hrest). destruct (SetTip_chain m Hwm _ _ q c Hv1 Hcq) as (v2 & Ev2 & Hv2). rewrite Ev2. f_equal.
  eapply chain_unique; [exact Hv2|]. exists c. exact (conj Hcq Hrest).
Qed.

(** [DisconnectTip] on what was found: all that is left is what the pool makes of the
    transactions, which only reads the coins, and the move of the tip. *)
Notation pool_step := (disconnect_pool pow Verify COINBASE_MATURITY aenv fSanityCheck).

Lemma DisconnectTip_after s1 p q e blk s2 v :
  0 ≤ MempoolAccept.nMaxMoneyOut aenv < 2 ^ 62 → active_tip (c_sel s1) = Some p → s_index (c_sel s1) !! p = Some e → pprev e = Some q →
  disconnect_coins GetHash params nCoinCacheSize cfg fopen_ok CheckDiskSpace SetPubKey GetPubKey p e s1 = Ok (Some blk, s2) →
  view_wf (n_coins (c_node s2)) → is_cache (n_coins (c_node s2)) → SetTip (s_index (c_sel s1)) (s_active (c_sel s1)) (Some q) = Ok v →
  match pool_step (vtx blk) (nHeight e) s2 with
  | Ok s4 => ∃ s3, DisconnectTip pow Verify GetHash params COINBASE_MATURITY nCoinCacheSize cfg aenv fSanityCheck fopen_ok CheckDiskSpace SetPubKey GetPubKey s1 = Ok (true, s3) ∧
      reads (n_coins (c_node s2)) (n_coins (c_node s3)) ∧ c_indexes s3 = c_indexes s2 ∧ s_active (c_sel s3) = v
  | _ => is_ok (DisconnectTip pow Verify GetHash params COINBASE_MATURITY nCoinCacheSize cfg aenv fSanityCheck fopen_ok CheckDiskSpace SetPubKey GetPubKey s1) = false
  end.
Proof.
  intros Hm Ht He Hq Ed Hw Hc Ev. unfold DisconnectTip. rewrite Ht, (deref_some _ p e He). cbn [mbind outcome_bind].
  rewrite Ed. cbn [mbind outcome_bind]. apply disconnect_coins_sel in Ed. cbn [snd] in Ed.
  destruct (disconnect_pool _ _ _ _ _ _ _ s2) as [s4|[]| |] eqn:E4; cbn [mbind outcome_bind]; [|done..].
  pose proof (disconnect_pool_sel _ _ _ _ _ _ _ _ _ E4) as Hs4. apply disconnect_pool_reads in E4 as [R4 I4]; [|done|done].
  unfold UpdateTip. rewrite Hq, Hs4, Ed, Ev. cbn [mbind outcome_bind]. eexists. split; [reflexivity|]. split; [exact R4|]. by split.
Qed.

Notation disconnect_tip := (DisconnectTip pow Verify GetHash params COINBASE_MATURITY nCoinCacheSize cfg aenv fSanityCheck fopen_ok CheckDiskSpace SetPubKey GetPubKey).
Notation coins s := (n_coins (c_node s)).

(** ** Properties *)

(** C7: a block that [ConnectTip] has made the tip can be taken off again from what is
    on disk.  The conditions: the node is in order and has disk space; the block is on
    disk, has a predecessor and a height above zero, and has no undo data yet; its
    transactions have distinct identifiers and duplicates are refused at its height; and
    the file format keeps its undo records exactly and they fit into the undo file
    ([undo_fits]).  Then the block becomes the active tip, and [DisconnectTip] reads it and
    its undo data back, and its changes to the coins and indexes succeed: they give back
    the best block and, where the block's keys were new, the address and the spent index;
    and exactly the unspent outputs from before, but for the coinstake flag of what the
    block has fully spent, so the same if and only if it fully spends no coinstake.
    What is left of [DisconnectTip] is to offer the transactions to the pool:
    [DisconnectTip] has a result exactly if that step has one, and then it succeeds, with
    the active chain from before and these coins and indexes. *)
Theorem ConnectTip_undone (s s1 : chain_state) (p q : Z) (pblock : option CBlock) (blk : CBlock) (b : CBlockIndex) :
  0 ≤ MempoolAccept.nMaxMoneyOut aenv < 2 ^ 62 → 0 < COINBASE_MATURITY → steady s → utxo_wf (utxo (coins s)) →
  s_index (c_sel s) !! p = Some b → pprev b = Some q → p ≠ 0 → q ≠ 0 → p ≠ HashGenesisBlock up →
  0 < nHeight b < 2 ^ 31 → flag (nStatus b) BLOCK_HAVE_UNDO = false →
  read_block (s_index (c_sel s)) p (n_files (c_node s)) = Ok (Some blk) → pblock = None ∨ pblock = Some blk →
  NoDup (tx_hash <$> vtx blk) → fEnforceBIP30 (nHeight b) (Some p) = true →
  (∀ xss u, updates (utxo (coins s)) (vtx blk) (nHeight b) = Some (xss, u) → undo_fits (tail xss) b (n_files (c_node s))) →
  connect_tip s p pblock = Ok (TipConnected, s1) →
  active_tip (c_sel s1) = Some p ∧
  ∃ e s2 x, s_index (c_sel s1) !! p = Some e ∧
    disconnect_coins GetHash params nCoinCacheSize cfg fopen_ok CheckDiskSpace SetPubKey GetPubKey p e s1 = Ok (Some blk, s2) ∧
    (∀ t, utxo (coins s2) !! t = mark (bool_decide (utxo (coins s1) !! t = None)) <$> utxo (coins s) !! t) ∧
    (utxo (coins s2) = utxo (coins s) ↔ ∀ t c, utxo (coins s) !! t = Some c → fCoinStake c = true → is_Some (utxo (coins s1) !! t)) ∧
    (GetBestBlock (coins s2)).1 = q ∧
    c_indexes s1 = write_vecs cfg x (c_indexes s) ∧
    ((∀ k, k ∈ addressIndex x → db_address (c_indexes s) !! k.1 = None) → db_address (c_indexes s2) = db_address (c_indexes s)) ∧
    ((∀ k, k ∈ spentIndex x → db_spent (c_indexes s) !! k.1 = None) → db_spent (c_indexes s2) = db_spent (c_indexes s)) ∧
    match pool_step (vtx blk) (nHeight e) s2 with
    | Ok _ => ∃ s3, disconnect_tip s1 = Ok (true, s3) ∧ s_active (c_sel s3) = s_active (c_sel s) ∧ utxo (coins s3) = utxo (coins s2) ∧
        (GetBestBlock (coins s3)).1 = q ∧ c_indexes s3 = c_indexes s2
    | _ => is_ok (disconnect_tip s1) = false
    end.
Proof.
  intros Hm Hmat Hst Hwf Hp Hq Hp0 Hq0 Hg Hh Hno Hread Hpb Hnd Hbip Hfits E.
  destruct (ConnectTip_chain s p q pblock b s1 Hst Hp Hq E) as [Htip Hchain].
  destruct (ConnectTip_left s p q pblock blk b s1 Hst Hq Hp Hno Hg Hread Hpb E) as (supply & r & e & pos & _ & Hc & flags & xss & checks & Ha).
  pose proof (ba_ledger _ _ _ _ _ _ _ _ _ _ _ _ _ _ _ _ _ _ _ Ha) as Hl. apply ledger_updates in Hl.
  destruct (st_coins _ Hst) as [Hcw Hcc]. change (cs_utxo (new_cache (coins s))) with (utxo (new_cache (coins s))) in Hl.
  rewrite (proj2 (new_cache_ok _ Hcw Hcc)) in Hl. specialize (Hfits _ _ Hl). rewrite <- (ba_undo _ _ _ _ _ _ _ _ _ _ _ _ _ _ _ _ _ _ _ Ha) in Hfits.
  destruct (disconnect_after p q b blk r e pos s s1 supply flags xss checks) as (s2 & Ed & Hw2 & Ht2 & Hu2 & _ & Hi2); [done..|].
  pose proof (tc_indexes _ _ _ _ _ _ _ _ _ Hc) as Hi1. rewrite (ba_indexes _ _ _ _ _ _ _ _ _ _ _ _ _ _ _ _ _ _ _ Ha) in Hi1.
  pose proof (tc_entry _ _ _ _ _ _ _ _ _ Hc) as He. pose proof (tc_same _ _ _ _ _ _ _ _ _ Hc) as (_ & Ep & _).
  assert (is_cache (coins s2)) as Hc2 by (destruct Ht2 as (? & ? & ? & ->); done).
  split; [exact Htip|]. eexists e, s2, _. split; [exact He|]. split; [exact Ed|]. rewrite Hu2.
  split; [intros t; apply lookup_restored|]. split; [apply restored_exact|]. split; [by apply tipped_best|]. split; [exact Hi1|].
  split; [|split].
  - intros Hf. rewrite Hi2, Hi1. unfold unwrite_indexes, write_vecs. destruct (fAddressIndex cfg) eqn:EA, (fSpentIndex cfg) eqn:ES; cbn [db_address]; try done; by apply address_index_undone.
  - intros Hf. rewrite Hi2, Hi1. unfold unwrite_indexes, write_vecs. destruct (fAddressIndex cfg) eqn:EA, (fSpentIndex cfg) eqn:ES; cbn [db_spent]; try done; by apply spent_index_undone.
  - rewrite Hq in Ep. pose proof (DisconnectTip_after s1 p q e blk s2 _ Hm Htip He Ep Ed Hw2 Hc2 Hchain) as Hd.
    destruct (disconnect_pool _ _ _ _ _ _ _ s2) as [s4| | |]; [|exact Hd..]. destruct Hd as (s3 & E3 & (_ & Ru & Rb) & I & Hv). exists s3.
    split; [exact E3|]. split; [exact Hv|]. split; [exact (eq_trans Ru Hu2)|]. split; [|exact I]. exact (eq_trans Rb (tipped_best _ _ Ht2 Hq0)).
Qed.
End Reorg.

(** ** A concrete reorganisation *)

(** Block 8 on top of block 7, as in [Demo] but with the block and its undo data in
    files and the coins in a cache over the database. *)
Module ReorgDemo.
Definition GetHash (h : CBlockHeader) : Z := nNonce h.
Definition block : CBlock := Block (BlockHeader 1 7 (merkle_root (tx_hash <$> Demo.txs)) 1744156900 0 8) Demo.txs [].
Definition parent : CBlockIndex := index_entry None None 0 (replicate 8 0) (replicate 8 0) 1 BLOCK_VALID_TRANSACTIONS 0 0 1 1744156800 0.
Definition entry : CBlockIndex :=
  BlockIndex (Some 7) (Some 7) 1 (replicate 8 0) (1 :: replicate 7 0) 2 (Z.lor BLOCK_VALID_TRANSACTIONS BLOCK_HAVE_DATA) 0 0 1 1744156900 0 0 8 None 2 (DiskFields 0 8 0) stake_null.
Definition files : block_files :=
  BlockFiles [BlockFileInfo 2 2000 1 0 1 0 1744156900] 0 ∅ {[ 0 := replicate 8 0 ++ ser_block block ]} ∅.
Definition sel : selection := Selection (<[8 := entry]> {[ 7 := parent ]}) [Some 7] {[ 8 ]} [] None 1.
Definition node : node_state view :=
  NodeState (Tree sel ∅ ∅ None ∅) files (ViewCache ∅ 7 false (ViewDB Demo.coins 7)) CTxMemPool_empty true ∅ ∅.
Definition start : chain_state := ChainState node (IndexDB ∅ ∅ ∅) ∅ (λ _, Limiter d_zero 0).
Definition connect (s : chain_state) : res (tip_result * chain_state) :=
  ConnectTip (λ _ _ _, false) GetHash Demo.params Demo.up Demo.maxm 100 1000 Demo.env Demo.be Demo.cfg true [250; 206; 3; 10] (λ _, true) (λ _, true) toy_SetPubKey s 8 None.
Definition get (m : res (tip_result * chain_state)) : chain_state := match m with Ok (_, s) => s | _ => start end.
Definition after : chain_state := get (connect start).
Definition undo_of (o : option (list (list CTxInUndo) * utxo_map)) : list (list CTxInUndo) := match o with Some (xss, _) => tail xss | None => [] end.
Definition undo : list (list CTxInUndo) := undo_of (updates (utxo (n_coins node)) (vtx block) 1).

Lemma connected : connect start = Ok (TipConnected, after).
Proof.
  assert (match connect start with Ok (TipConnected, _) => true | _ => false end = true) as H by (by vm_compute).
  unfold after. revert H. generalize (connect start). intros [[[]]| | |] H; [done|discriminate H..].
Qed.
Lemma block_fits : block_ok block.
Proof. split; [unfold header_ok; by_decision|]. split; [|reflexivity]. cbn [vtx block]. by_decision. Qed.
Lemma in_order : steady GetHash Demo.params toy_SetPubKey start.
Proof.
  split.
  - apply select_check_ok; [by vm_compute|]. exists parent. split_and!; [done|done|]. intros k Hk. cbn in Hk. assert (k = 0) as -> by lia. by vm_compute.
  - split; [|done]. split_and!; [|done|]; [|intros t e He; by rewrite lookup_empty in He].
    intros t c. unfold Demo.coins. intros [_ <-]%lookup_singleton_Some. by vm_compute.
  - exists [(DiskBlockPos 0 8, block)], []. split.
    + split; [done| | |constructor].
      * intros [|i] f; [intros [= <-]; by_decision|intros Hi; discriminate Hi].
      * constructor; [|constructor]. split; [exact block_fits|]. split; [by_decision|]. split; [by_decision|]. eexists _, _. split; [reflexivity|]. split; [by_decision|]. split; [reflexivity|].
        apply (on_disk_app _ 0 (replicate 8 0)); [done|]. intros i x Hi. exact Hi.
    + intros p b. unfold start, node, c_sel. cbn. rewrite lookup_insert_Some. intros [[<- <-]|[_ [<- <-]%lookup_singleton_Some]] Hd; [|discriminate Hd].
      exists block. split_and!; [by left|done|]. intros _. by vm_compute.
Qed.
Lemma undo_size bs : ser_blockundo toy_SetPubKey undo = Ok bs → size bs < 100.
Proof.
  assert (match ser_blockundo toy_SetPubKey undo with Ok bs => size bs <? 100 | _ => true end = true) as H by (by vm_compute).
  intros E. rewrite E in H. lia.
Qed.
Lemma fits xss u : updates (utxo (n_coins node)) (vtx block) 1 = Some (xss, u) → undo_fits toy_SetPubKey (tail xss) entry files.
Proof.
  intros E. assert (tail xss = undo) as -> by (unfold undo; by rewrite E). clear E xss u.
  split; [by_decision|]. split; [by_decision|]. split; [by vm_compute|].
  eexists. split; [reflexivity|]. split; [by_decision|]. intros bs Hbs%undo_size. cbn. lia.
Qed.
Lemma new_coins : utxo_wf (utxo (n_coins node)).
Proof.
  assert (utxo (n_coins node) = Demo.coins) as -> by (by vm_compute). apply Demo.coins_wf.
Qed.
Lemma no_stakes t c : utxo (n_coins node) !! t = Some c → fCoinStake c = false.
Proof. assert (utxo (n_coins node) = Demo.coins) as -> by (by vm_compute). unfold Demo.coins. by intros [_ <-]%lookup_singleton_Some. Qed.

Definition disconnect_pool_at := disconnect_pool (λ a _, a) (λ _ _ _, false) 100 MempoolAccept.AcceptDemo.env true.
Lemma pool_returns e s2 :
  s_index (c_sel after) !! 8 = Some e →
  disconnect_coins GetHash Demo.params 1000 Demo.cfg (λ _, true) (λ _, true) toy_SetPubKey toy_GetPubKey 8 e after = Ok (Some block, s2) →
  is_ok (disconnect_pool_at (vtx block) (nHeight e) s2) = true.
Proof.
  intros He Ed.
  assert (match s_index (c_sel after) !! 8 with
    | Some e => match disconnect_coins GetHash Demo.params 1000 Demo.cfg (λ _, true) (λ _, true) toy_SetPubKey toy_GetPubKey 8 e after with
                | Ok (_, s2) => is_ok (disconnect_pool_at (vtx block) (nHeight e) s2) | _ => false end
    | None => false end = true) as H by (by vm_compute).
  by rewrite He, Ed in H.
Qed.
End ReorgDemo.

Lemma ConnectTip_undone_witness :
  ∃ e s2 s3, s_index (c_sel ReorgDemo.after) !! 8 = Some e ∧
    disconnect_coins ReorgDemo.GetHash Demo.params 1000 Demo.cfg (λ _, true) (λ _, true) toy_SetPubKey toy_GetPubKey 8 e ReorgDemo.after = Ok (Some ReorgDemo.block, s2) ∧
    utxo (n_coins (c_node s2)) = utxo (n_coins (c_node ReorgDemo.start)) ∧ db_address (c_indexes s2) = ∅ ∧ db_spent (c_indexes s2) = ∅ ∧
    DisconnectTip (λ a _, a) (λ _ _ _, false) ReorgDemo.GetHash Demo.params 100 1000 Demo.cfg MempoolAccept.AcceptDemo.env true (λ _, true) (λ _, true)
      toy_SetPubKey toy_GetPubKey ReorgDemo.after = Ok (true, s3) ∧
    s_active (c_sel s3) = [Some 7] ∧ utxo (n_coins (c_node s3)) = utxo (n_coins (c_node ReorgDemo.start)).
Proof.
  destruct (ConnectTip_undone (λ a _, a) (λ _ _ _, false) ReorgDemo.GetHash Demo.params Demo.up Demo.maxm 100 1000 Demo.env Demo.be Demo.cfg MempoolAccept.AcceptDemo.env
    true true [250; 206; 3; 10] (λ _, true) (λ _, true) toy_SetPubKey toy_GetPubKey ltac:(done) ltac:(by_decision) eq_refl toy_decompresses
    ReorgDemo.start ReorgDemo.after 8 7 None ReorgDemo.block ReorgDemo.entry) as (_ & e & s2 & x & He & Ed & _ & Hu & _ & _ & Ha & Hs & Hd).
  - by_decision.
  - lia.
  - apply ReorgDemo.in_order.
  - apply ReorgDemo.new_coins.
  - reflexivity.
  - reflexivity.
  - done.
  - done.
  - by_decision.
  - by_decision.
  - reflexivity.
  - by vm_compute.
  - by left.
  - apply Demo.distinct.
  - reflexivity.
  - apply ReorgDemo.fits.
  - apply ReorgDemo.connected.
  - assert (utxo (n_coins (c_node s2)) = utxo (n_coins (c_node ReorgDemo.start))) as Hu2.
    { apply Hu. intros t c Hc Hst. pose proof (ReorgDemo.no_stakes t c Hc) as Hn. rewrite Hn in Hst. discriminate Hst. }
    pose proof (ReorgDemo.pool_returns e s2 He Ed) as Hp. unfold ReorgDemo.disconnect_pool_at in Hp.
    destruct (disconnect_pool _ _ _ _ _ _ _ s2) as [s4| | |]; [|discriminate Hp..]. destruct Hd as (s3 & E3 & Hv & Hu3 & _).
    exists e, s2, s3. split; [exact He|]. split; [exact Ed|]. split; [exact Hu2|]. split; [apply Ha; intros k _; apply lookup_empty|].
    split; [apply Hs; intros k _; apply lookup_empty|]. split; [exact E3|]. split; [exact Hv|]. by rewrite Hu3.
Defined.

(** ** Activation on the whole node

    The theorems of [ActivateChain] on the operations of [Node]: block 8 is found as the
    best candidate and connected through files, coins, indexes and pool; invalidated by
    hand, it is disconnected again.  No call fails, unless there is no disk space. *)
Module ActivateNode.
Definition ops (space : bool) : TipOps chain_state CBlock :=
  node_ops (λ a _, a) (λ _ _ _, false) ReorgDemo.GetHash Demo.params Demo.up Demo.maxm 100 1000 Demo.env Demo.be Demo.cfg MempoolAccept.AcceptDemo.env
    true true [250; 206; 3; 10] (λ _, true) (λ _, space) toy_SetPubKey toy_GetPubKey id.
Definition block_hash (b : CBlock) : Z := ReorgDemo.GetHash (header b).
Lemma start_grows : growing (s_index (c_sel ReorgDemo.start)).
Proof. by apply ActivateDemo.linked_check_ok. Qed.
Lemma after_grows : growing (s_index (c_sel ReorgDemo.after)) ∧ tx_linked (s_index (c_sel ReorgDemo.after)).
Proof. apply ActivateDemo.linked_check_ok. by vm_compute. Qed.
Lemma after_ok : sel_ok (c_sel ReorgDemo.after).
Proof.
  apply select_check_ok; [by vm_compute|].
  assert (active_tip (c_sel ReorgDemo.after) = Some 8) as -> by (by vm_compute).
  assert (∃ e, s_index (c_sel ReorgDemo.after) !! 8 = Some e ∧ nHeight e = 1) as (e & He & Hh).
  { assert (option_map nHeight (s_index (c_sel ReorgDemo.after) !! 8) = Some 1) as H by (by vm_compute).
    destruct (s_index (c_sel ReorgDemo.after) !! 8) as [e|]; [|discriminate H]. exists e. by injection H. }
  exists e. rewrite Hh. split; [done|]. split; [by vm_compute|]. intros k Hk. assert (k = 0 ∨ k = 1) as [-> | ->] by lia; by vm_compute.
Qed.
End ActivateNode.

(** What is evaluated of the runs below. *)
Definition no_failure {St B} (c : option (tip_call St B)) : bool := match c with None => true | Some _ => false end.
Lemma no_failure_none {St B} (c : option (tip_call St B)) : no_failure c = true → c = None.
Proof. destruct c; [intros H; discriminate H|reflexivity]. Qed.
Lemma mapped_some {A B} (f : A → B) o y : option_map f o = Some y → is_Some o.
Proof. destruct o; [by eexists|intros H; discriminate H]. Qed.

Lemma ActivateBestChain_converges_witness :
  (∃ s', ActivateBestChain (Ops:=ActivateNode.ops true) ActivateNode.block_hash None ReorgDemo.start = Ok (true, s') ∧
    ActivateChain.settled (Ops:=ActivateNode.ops true) (c_sel s') ∧ active_tip (c_sel s') = Some 8) ∧
  (∃ c, activate_failure (Ops:=ActivateNode.ops false) ActivateNode.block_hash None ReorgDemo.start = Some c ∧ call_fails (Ops:=ActivateNode.ops false) c) ∧
  ∃ s', ActivateBestChain (Ops:=ActivateDemo.ops {[ 5 ]}) (λ _, 0) None SelectDemo.start = Ok (true, s') ∧
    ActivateChain.settled (Ops:=ActivateDemo.ops {[ 5 ]}) s' ∧ active_tip s' = Some 2 ∧ s_candidates s' = {[ 2 ]}.
Proof.
  pose proof (st_sel _ _ _ _ ReorgDemo.in_order) as Hs. split; [|split].
  - pose proof (ActivateBestChain_converges (Ops:=ActivateNode.ops true) ActivateNode.block_hash None ReorgDemo.start Hs ActivateNode.start_grows) as H.
    rewrite (no_failure_none (activate_failure (Ops:=ActivateNode.ops true) ActivateNode.block_hash None ReorgDemo.start)) in H by (vm_compute; reflexivity).
    destruct H as (s' & E & _ & Hset & _). exists s'. split; [exact E|]. split; [exact Hset|].
    assert (match ActivateBestChain (Ops:=ActivateNode.ops true) ActivateNode.block_hash None ReorgDemo.start with
      | Ok (_, s) => active_tip (c_sel s) | _ => None end = Some 8) as Hv by (vm_compute; reflexivity).
    rewrite E in Hv. exact Hv.
  - pose proof (ActivateBestChain_converges (Ops:=ActivateNode.ops false) ActivateNode.block_hash None ReorgDemo.start Hs ActivateNode.start_grows) as H.
    assert (no_failure (activate_failure (Ops:=ActivateNode.ops false) ActivateNode.block_hash None ReorgDemo.start) = false) as Ef by (vm_compute; reflexivity).
    destruct (activate_failure _ _ _) as [c|]; [|discriminate Ef]. exists c. split; [reflexivity|exact H].
  - pose proof (ActivateBestChain_converges (Ops:=ActivateDemo.ops {[ 5 ]}) (λ _, 0) None SelectDemo.start SelectDemo.start_ok) as H.
    rewrite (no_failure_none (activate_failure (Ops:=ActivateDemo.ops {[ 5 ]}) (λ _, 0) None SelectDemo.start)) in H by (vm_compute; reflexivity).
    destruct H as (s' & E & _ & Hset & _); [by apply ActivateDemo.linked_check_ok|]. exists s'. split; [exact E|]. split; [exact Hset|].
    assert (match ActivateBestChain (Ops:=ActivateDemo.ops {[ 5 ]}) (λ _, 0) None SelectDemo.start with
      | Ok (_, s) => (active_tip s, s_candidates s) | _ => (None, ∅) end = (Some 2, {[ 2 ]})) as Hv by (vm_compute; reflexivity).
    rewrite E in Hv. injection Hv as H1 H2. by split.
Defined.

Lemma InvalidateBlock_shuts_out_witness :
  ∃ s1 s2, InvalidateBlock (Ops:=ActivateNode.ops true) 8 ReorgDemo.after = Ok (true, s1) ∧
    ActivateBestChain (Ops:=ActivateNode.ops true) ActivateNode.block_hash None s1 = Ok (true, s2) ∧
    ¬ on_chain (s_index (c_sel s2)) (active_tip (c_sel s2)) 8.
Proof.
  assert (option_map (λ e, (pprev e, nHeight e)) (s_index (c_sel ReorgDemo.after) !! 8) = Some (Some 7, 1)) as He by (vm_compute; reflexivity).
  destruct (s_index (c_sel ReorgDemo.after) !! 8) as [e|] eqn:Ee; [|discriminate He]. cbn in He. injection He as Hp Hh.
  pose proof (InvalidateBlock_shuts_out (Ops:=ActivateNode.ops true) ActivateNode.block_hash None ReorgDemo.after 8 e
    ActivateNode.after_ok (proj1 ActivateNode.after_grows) (proj2 ActivateNode.after_grows) Ee) as H.
  rewrite (no_failure_none (invalidate_failure (Ops:=ActivateNode.ops true) ActivateNode.block_hash 8 None ReorgDemo.after)) in H by (vm_compute; reflexivity).
  destruct H as (s1 & s2 & E1 & E2 & _ & Hoff).
  - rewrite Hp. by eexists.
  - assert (active_tip (c_sel ReorgDemo.after) = Some 8) as Ht by (vm_compute; reflexivity). exists 8. exact Ht.
  - exists s1, s2. split; [exact E1|]. split; [exact E2|].
    assert (match InvalidateBlock (Ops:=ActivateNode.ops true) 8 ReorgDemo.after with
      | Ok (_, s1) => match ActivateBestChain (Ops:=ActivateNode.ops true) ActivateNode.block_hash None s1 with
          | Ok (_, s2) => (option_map pprev (s_index (c_sel s2) !! 8), ancestor (s_index (c_sel s2)) 8 1) | _ => (None, None) end
      | _ => (None, None) end = (Some (Some 7), Some 8)) as Hv by (vm_compute; reflexivity).
    rewrite E1, E2 in Hv. injection Hv as Hv1 Hv2. apply Hoff; [|by rewrite Hh].
    exact (mapped_some _ _ _ Hv1).
Defined.
