(* ===== verification/CheckQueue.v ===== *)
(** * The parallel script checks (checkqueue.h)

    One master pushes batches of checks onto a queue that worker threads empty; then it
    joins them until nothing is left.  A thread holds the mutex for a whole critical
    section, so a section is one step; between sections threads run in any order, and a
    wait may end without a notification.  The theorem: whatever the order, the master is
    never stuck, and what it returns is what checking everything in sequence gives,
    which is how [ConnectBlock] is modelled. *)
From stdpp Require Import base tactics list gmap numbers option.
From Stdlib Require Import ZArith Lia.
From S2P Require Import Prelude.
From S2P Require Import Double.
From S2P Require Import Serialize.
From S2P Require Import BaseUint.
From S2P Require Import ScriptCode.
From S2P Require Import Interpreter.
From S2P Require Import Transaction.
From S2P Require Import SigHash.
From S2P Require Import Chain.
From S2P Require Import Block.
From S2P Require Import Coins.
From S2P Require Import CoinsView.
From S2P Require Import ConnectBlock.
From S2P Require Import Ledger.

Section Queue.
Context {T : Type} (check : T → bool).

(** ** State *)

(** What the mutex protects; the back of the vector is the end of the list. *)
Record shared := Shared {
  queue : list T; nIdle : Z; nTotal : Z; fAllOk : bool; nTodo : Z; fQuit : bool; nBatchSize : Z }.
Definition CCheckQueue (nBatchSizeIn : Z) : shared := Shared [] 0 0 true 0 false nBatchSizeIn.

(** Where a thread is: not in [Loop]; before the critical section, with [nNow] and
    [fOk]; in [cond.wait]; out of the wait and before the mutex; working on its batch;
    or [Loop] has returned. *)
Inductive pc :=
| Outside
| AtLock (nNow : Z) (fOk : bool)
| Waiting
| Woken
| Working (vChecks : list T) (nNow : Z) (fOk : bool)
| Done (fRet : bool).

(** The master waits on [condMaster], the workers on [condWorker]. *)
Record system := System { sh : shared; master : pc; workers : list pc }.

(** ** The critical sections of Loop *)

(** The size of the next batch, in unsigned arithmetic. *)
Definition batch_size (q : shared) : Z :=
  Z.max 1 (Z.min (nBatchSize q) (u32 (Z.of_nat (length (queue q))) / u32 (nTotal q + nIdle q + 1))).
Definition take_batch (q : shared) : pc * shared :=
  let nNow := batch_size q in
  let left := (length (queue q) - Z.to_nat nNow)%nat in
  (Working (rev (drop left (queue q))) nNow (fAllOk q),
   Shared (take left (queue q)) (nIdle q) (nTotal q) (fAllOk q) (nTodo q) (fQuit q) (nBatchSize q)).

(** [while (queue.empty())], from where the mutex is held to where it is given up. *)
Definition loop_wait (fMaster : bool) (q : shared) : pc * shared :=
  match queue q with
  | [] =>
      if (fMaster || fQuit q) && (nTodo q =? 0) then
        (Done (fAllOk q), Shared [] (nIdle q) (nTotal q - 1) (if fMaster then true else fAllOk q) (nTodo q) (fQuit q) (nBatchSize q))
      else (Waiting, Shared [] (nIdle q + 1) (nTotal q) (fAllOk q) (nTodo q) (fQuit q) (nBatchSize q))
  | _ => take_batch q
  end.

(** The clean-up of the previous run; whether the master is notified. *)
Definition clean_up (fMaster : bool) (nNow : Z) (fOk : bool) (q : shared) : bool * shared :=
  if negb (nNow =? 0) then
    let todo := u32 (nTodo q - nNow) in
    ((todo =? 0) && negb fMaster, Shared (queue q) (nIdle q) (nTotal q) (fAllOk q && fOk) todo (fQuit q) (nBatchSize q))
  else (false, Shared (queue q) (nIdle q) (nTotal q + 1) (fAllOk q) (nTodo q) (fQuit q) (nBatchSize q)).

(** One step of a thread in [Loop]: where it is then, the shared state, and whether it
    notified the master. *)
Definition thread_step (fMaster : bool) (p : pc) (q : shared) : option (pc * shared * bool) :=
  match p with
  | Outside => if fMaster then None else Some (AtLock 0 true, q, false)
  | AtLock nNow fOk => let '(notify, q) := clean_up fMaster nNow fOk q in let '(p, q) := loop_wait fMaster q in Some (p, q, notify)
  | Waiting => None
  | Woken =>
      let '(p, q) := loop_wait fMaster (Shared (queue q) (nIdle q - 1) (nTotal q) (fAllOk q) (nTodo q) (fQuit q) (nBatchSize q)) in Some (p, q, false)
  | Working [] nNow fOk => Some (AtLock nNow fOk, q, false)
  | Working (c :: l) nNow fOk => Some (Working l nNow (if fOk then check c else fOk), q, false)
  | Done _ => None
  end.

(** ** Interleaving *)

Definition wake (p : pc) : pc := match p with Waiting => Woken | _ => p end.

Inductive step : system → system → Prop :=
| step_master s p q b : thread_step true (master s) (sh s) = Some (p, q, b) → step s (System q p (workers s))
| step_worker s l1 l2 w p q notify :
    workers s = l1 ++ w :: l2 → thread_step false w (sh s) = Some (p, q, notify) →
    step s (System q (if notify : bool then wake (master s) else master s) (l1 ++ p :: l2)).

(** A wait that ends on its own. *)
Inductive spurious : system → system → Prop :=
| spurious_master s : master s = Waiting → spurious s (System (sh s) Woken (workers s))
| spurious_worker s l1 l2 : workers s = l1 ++ Waiting :: l2 → spurious s (System (sh s) (master s) (l1 ++ Woken :: l2)).

(** [notify_one] wakes one of those that wait. *)
Inductive notify_one : list pc → list pc → Prop :=
| notify_some l1 l2 : notify_one (l1 ++ Waiting :: l2) (l1 ++ Woken :: l2)
| notify_none l : Waiting ∉ l → notify_one l l.

(** [Add], by the master. *)
Definition add_checks (vChecks : list T) (q : shared) : shared :=
  Shared (queue q ++ vChecks) (nIdle q) (nTotal q) (fAllOk q) (u32 (nTodo q + Z.of_nat (length vChecks))) (fQuit q) (nBatchSize q).
Inductive Add (vChecks : list T) : system → system → Prop :=
| add_one s ws : length vChecks = 1%nat → notify_one (workers s) ws → Add vChecks s (System (add_checks vChecks (sh s)) (master s) ws)
| add_many s : length vChecks ≠ 1%nat →
    Add vChecks s (System (add_checks vChecks (sh s)) (master s) (if (1 <? length vChecks)%nat then wake <$> workers s else workers s)).

(** The call of [Wait], and its return. *)
Definition begin_wait (s : system) : system := System (sh s) (AtLock 0 true) (workers s).
Definition end_wait (s : system) : system := System (sh s) Outside (workers s).

Definition IsIdle (q : shared) : bool := (nTotal q =? nIdle q) && (nTodo q =? 0) && eqb (fAllOk q) true.
(** The controller of a block's checks takes over a queue nobody uses. *)
Definition CCheckQueueControl (pqueue : option shared) : outcome unit unit :=
  match pqueue with Some q => assert_that (IsIdle q) | None => Ok tt end.

(** What can happen with [n] workers; the list is of the checks added since [Wait] last
    returned, never more than the counter holds. *)
Inductive runs (nBatchSizeIn : Z) (n : nat) : list T → system → Prop :=
| runs_start : runs nBatchSizeIn n [] (System (CCheckQueue nBatchSizeIn) Outside (replicate n Outside))
| runs_step A s s' : runs nBatchSizeIn n A s → step s s' → runs nBatchSizeIn n A s'
| runs_spurious A s s' : runs nBatchSizeIn n A s → spurious s s' → runs nBatchSizeIn n A s'
| runs_add A s l s' : runs nBatchSizeIn n A s → master s = Outside → Add l s s' → Z.of_nat (length (A ++ l)) < 2 ^ 32 → runs nBatchSizeIn n (A ++ l) s'
| runs_wait A s : runs nBatchSizeIn n A s → master s = Outside → runs nBatchSizeIn n A (begin_wait s)
| runs_return A s b : runs nBatchSizeIn n A s → master s = Done b → runs nBatchSizeIn n [] (end_wait s).

(** A schedule: the thread of each step, [None] for the master. *)
Definition run_thread (t : option nat) (s : system) : option system :=
  match t with
  | None => '(p, q, _) ← thread_step true (master s) (sh s); Some (System q p (workers s))
  | Some i =>
      w ← workers s !! i;
      '(p, q, notify) ← thread_step false w (sh s);
      Some (System q (if notify : bool then wake (master s) else master s) (<[i := p]> (workers s)))
  end.
Fixpoint schedule (l : list (option nat)) (s : system) : option system :=
  match l with [] => Some s | t :: l => s ← run_thread t s; schedule l s end.

(** Every order of steps leads to a state with [P]. *)
Inductive inevitable (P : system → Prop) (s : system) : Prop :=
| inevitable_now : P s → inevitable P s
| inevitable_next : (∃ s', step s s') → (∀ s', step s s' → inevitable P s') → inevitable P s.

(** ** The invariant *)

(** How a thread counts: checks taken from the queue, presence, idleness, and the
    conjunction it still has to deliver. *)
Definition held (p : pc) : Z := match p with AtLock n _ | Working _ n _ => n | _ => 0 end.
Definition inside (p : pc) : Z := match p with AtLock n _ => if n =? 0 then 0 else 1 | Waiting | Woken | Working _ _ _ => 1 | _ => 0 end.
Definition idle (p : pc) : Z := match p with Waiting | Woken => 1 | _ => 0 end.
Definition value (p : pc) : bool := match p with AtLock _ ok => ok | Working l _ ok => ok && forallb check l | _ => true end.
Definition pc_ok (p : pc) : Prop := match p with AtLock n ok => 0 ≤ n ∧ (n = 0 → ok = true) | Working _ n _ => 1 ≤ n | _ => True end.

Record counts (A : list T) (q : shared) (ps : list pc) : Prop := {
  cn_pc : Forall pc_ok ps;
  cn_quit : fQuit q = false;
  cn_total : nTotal q = sum_Z inside ps;
  cn_idle : nIdle q = sum_Z idle ps;
  cn_todo : nTodo q = Z.of_nat (length (queue q)) + sum_Z held ps;
  cn_len : nTodo q ≤ Z.of_nat (length A);
  cn_value : forallb check A = fAllOk q && forallb check (queue q) && forallb value ps
}.

Lemma held_nonneg p : pc_ok p → 0 ≤ held p.
Proof. destruct p; cbn; lia. Qed.
Lemma held_sum_nonneg ps : Forall pc_ok ps → 0 ≤ sum_Z held ps.
Proof. induction 1 as [|p ps Hp _ IH]; [done|]. rewrite sum_Z_cons. pose proof (held_nonneg p Hp). lia. Qed.

Lemma forallb_perm {B} (f : B → bool) l l' : l ≡ₚ l' → forallb f l = forallb f l'.
Proof. induction 1; cbn; [done|by f_equal|by rewrite !andb_assoc, (andb_comm (f y))|congruence]. Qed.
Lemma sum_Z_perm {B} (f : B → Z) l l' : l ≡ₚ l' → sum_Z f l = sum_Z f l'.
Proof. induction 1; rewrite ?sum_Z_cons; [done|lia|lia|lia]. Qed.
Lemma counts_perm A q ps ps' : ps ≡ₚ ps' → counts A q ps → counts A q ps'.
Proof.
  intros Hp [H1 H2 H3 H4 H5 H6 H7]. split; [by rewrite <- Hp|done|..].
  - by rewrite <- (sum_Z_perm inside _ _ Hp).
  - by rewrite <- (sum_Z_perm idle _ _ Hp).
  - by rewrite <- (sum_Z_perm held _ _ Hp).
  - done.
  - by rewrite <- (forallb_perm value _ _ Hp).
Qed.
Lemma counts_same A q p p' rest :
  held p' = held p → inside p' = inside p → idle p' = idle p → value p' = value p → (pc_ok p → pc_ok p') → counts A q (p :: rest) → counts A q (p' :: rest).
Proof.
  intros E1 E2 E3 E4 Hok [H1 H2 H3 H4 H5 H6 H7]. apply list.Forall_cons in H1 as [Hp Hr]. rewrite !sum_Z_cons in *. cbn [forallb] in H7.
  split; rewrite ?sum_Z_cons; cbn [forallb]; rewrite ?E1, ?E2, ?E3, ?E4; try done. apply list.Forall_cons. split; [by apply Hok|done].
Qed.
Lemma counts_wake A q p rest : counts A q (p :: rest) → counts A q (wake p :: rest).
Proof. apply counts_same; by destruct p. Qed.

(** With nothing to do, nobody has a batch. *)
Lemma held_none p : pc_ok p → held p = 0 → value p = true ∧ inside p = idle p.
Proof. destruct p; cbn; try done; [|lia]. intros [_ Ho] ->. by rewrite Ho. Qed.
Lemma quiet_all ps : Forall pc_ok ps → sum_Z held ps = 0 → forallb value ps = true ∧ sum_Z inside ps = sum_Z idle ps.
Proof.
  induction 1 as [|p ps Hp Hps IH]; [done|]. rewrite !sum_Z_cons. cbn [forallb]. pose proof (held_nonneg p Hp). pose proof (held_sum_nonneg ps Hps).
  intros Hz. destruct (held_none p Hp) as [-> ->]; [lia|]. destruct IH as [-> ->]; [lia|done].
Qed.
Lemma counts_quiet A q ps : counts A q ps → nTodo q = 0 → forallb value ps = true ∧ sum_Z inside ps = sum_Z idle ps ∧ queue q = [].
Proof.
  intros [H1 _ _ _ H5 _ _] Hz. pose proof (held_sum_nonneg ps H1). destruct (quiet_all ps H1) as [? ?]; [lia|]. split_and!; [done..|].
  destruct (queue q); [done|cbn in H5; lia].
Qed.
Lemma counts_busy A q ps : counts A q ps → queue q = [] → nTodo q ≠ 0 → ∃ p, p ∈ ps ∧ held p ≠ 0.
Proof.
  intros [H1 _ _ _ H5 _ _] Hq Hz. rewrite Hq in H5. cbn in H5. clear -H5 Hz. induction ps as [|p ps IH]; [cbn in H5; lia|].
  rewrite sum_Z_cons in H5. destruct (decide (held p = 0)) as [E|E]; [|exists p; split; [by left|done]].
  destruct IH as (p' & Hp & Hh); [lia|]. exists p'. split; [by right|done].
Qed.

(** A thread that holds the mutex, before it looks at the queue. *)
Record ready (A : list T) (q : shared) (rest : list pc) : Prop := {
  rd_pc : Forall pc_ok rest;
  rd_quit : fQuit q = false;
  rd_total : nTotal q = 1 + sum_Z inside rest;
  rd_idle : nIdle q = sum_Z idle rest;
  rd_todo : nTodo q = Z.of_nat (length (queue q)) + sum_Z held rest;
  rd_len : nTodo q ≤ Z.of_nat (length A);
  rd_value : forallb check A = fAllOk q && forallb check (queue q) && forallb value rest
}.

Lemma clean_up_ready A fM n ok q rest notify q' :
  counts A q (AtLock n ok :: rest) → Z.of_nat (length A) < 2 ^ 32 → clean_up fM n ok q = (notify, q') →
  ready A q' rest ∧ queue q' = queue q ∧ (notify = true → nTodo q' = 0) ∧ (fM = false → nTodo q ≠ 0 → nTodo q' = 0 → notify = true).
Proof.
  intros [H1 H2 H3 H4 H5 H6 H7] HA. apply list.Forall_cons in H1 as [[Hn Hok] Hr]. rewrite !sum_Z_cons in *. cbn [held inside idle value forallb] in *.
  pose proof (held_sum_nonneg _ Hr). unfold clean_up. destruct (Z.eqb_spec n 0) as [->|Hn0]; cbn [negb]; intros [= <- <-].
  - rewrite Hok in H7 by done. split; [|split_and!; [done|done|intros _ Hz Hz'; by destruct (Hz Hz')]]. split; cbn [fQuit nTotal nIdle nTodo queue fAllOk]; try done; lia.
  - rewrite u32_id by (unfold is_u; lia). split; [|split_and!; [done|cbn [nTodo]; lia|intros -> _; cbn [nTodo negb]; lia]].
    split; cbn [fQuit nTotal nIdle nTodo queue fAllOk]; try done; try lia.
    rewrite H7. destruct (fAllOk q), ok, (forallb check (queue q)); done.
Qed.
Lemma woken_ready A q rest :
  counts A q (Woken :: rest) → ready A (Shared (queue q) (nIdle q - 1) (nTotal q) (fAllOk q) (nTodo q) (fQuit q) (nBatchSize q)) rest.
Proof.
  intros [H1 H2 H3 H4 H5 H6 H7]. apply list.Forall_cons in H1 as [_ Hr]. rewrite !sum_Z_cons in *. cbn [held inside idle value forallb] in *.
  split; cbn [fQuit nTotal nIdle nTodo queue fAllOk]; done || lia.
Qed.

(** A measure that every step lowers. *)
Definition weight (p : pc) : Z :=
  match p with Outside => 4 | AtLock _ _ => 3 | Waiting => 0 | Woken => 2 | Working l _ _ => Z.of_nat (length l) + 4 | Done _ => 0 end.
Definition potential_of (q : shared) (ps : list pc) : Z := 6 * Z.of_nat (length (queue q)) + sum_Z weight ps.

Lemma batch_bounds q : queue q ≠ [] → 1 ≤ batch_size q ≤ Z.of_nat (length (queue q)).
Proof.
  intros Hq. assert (1 ≤ Z.of_nat (length (queue q))) as Hl by (destruct (queue q); [done|cbn; lia]). unfold batch_size.
  pose proof (Z.mod_pos_bound (nTotal q + nIdle q + 1) (2 ^ 32) ltac:(lia)) as Hd. pose proof (Z.mod_pos_bound (Z.of_nat (length (queue q))) (2 ^ 32) ltac:(lia)) as Hu.
  pose proof (Z.mod_le (Z.of_nat (length (queue q))) (2 ^ 32) ltac:(lia) ltac:(lia)) as Hm. unfold u32.
  set (a := Z.of_nat _ mod 2 ^ 32) in *. set (d := (_ + _) mod 2 ^ 32) in *.
  assert (a / d ≤ a) as Hq'. { destruct (Z.eq_dec d 0) as [->|]; [rewrite Z.div_0_r; lia|]. apply Z.div_le_upper_bound; nia. }
  lia.
Qed.

Lemma take_batch_ok A q rest p q' :
  queue q ≠ [] → ready A q rest → take_batch q = (p, q') →
  counts A q' (p :: rest) ∧ (∃ l n ok, p = Working l n ok) ∧ potential_of q' [p] ≤ potential_of q [] - 1.
Proof.
  intros Hq [H1 H2 H3 H4 H5 H6 H7] E. pose proof (batch_bounds q Hq) as Hb. unfold take_batch in E. injection E as <- <-. set (k := (length (queue q) - Z.to_nat (batch_size q))%nat).
  assert (length (take k (queue q)) = k) as Hk by (rewrite length_take; lia).
  assert (length (drop k (queue q)) = Z.to_nat (batch_size q)) as Hd by (rewrite length_drop; lia).
  split; [|split; [by eexists _, _, _|]].
  - split; rewrite ?sum_Z_cons; cbn [fQuit nTotal nIdle nTodo queue fAllOk held inside idle value forallb pc_ok]; try done; try lia.
    + apply list.Forall_cons. split; [|done]. cbn. lia.
    + rewrite H7. rewrite <- (take_drop k (queue q)) at 1. rewrite forallb_app, (forallb_perm check (rev (drop k (queue q))) (drop k (queue q))) by (symmetry; apply Permutation_rev).
      destruct (fAllOk q), (forallb check (take k (queue q))), (forallb check (drop k (queue q))); done.
  - unfold potential_of. cbn [queue sum_Z foldr weight]. rewrite Hk, length_rev, Hd. lia.
Qed.

(** Where a critical section ends. *)
Definition lands (fMaster : bool) (A : list T) (q' : shared) (p : pc) (rest : list pc) : Prop :=
  match p with
  | Outside => False
  | Done b => fMaster = true ∧ b = forallb check A ∧ counts [] q' (Done b :: rest)
  | Waiting => counts A q' (Waiting :: rest) ∧ queue q' = [] ∧ (fMaster = true → nTodo q' ≠ 0)
  | _ => counts A q' (p :: rest)
  end.

Lemma loop_wait_ok fM A q rest p q' :
  ready A q rest → loop_wait fM q = (p, q') →
  lands fM A q' p rest ∧ potential_of q' [p] ≤ potential_of q [] ∧ (queue q = [] → queue q' = [] ∧ nTodo q' = nTodo q).
Proof.
  intros Hr E. unfold loop_wait in E. destruct (queue q) as [|c l] eqn:Hq.
  - pose proof Hr as [H1 H2 H3 H4 H5 H6 H7]. rewrite Hq in *. cbn [length] in *. rewrite H2, orb_false_r in E.
    destruct (fM && (nTodo q =? 0)) eqn:Eb; injection E as <- <-.
    + apply andb_true_iff in Eb as [-> Hz%Z.eqb_eq]. destruct (quiet_all rest H1) as [Hv Hs]; [lia|].
      split; [|by unfold potential_of; rewrite Hq; split]. split; [done|]. split; [by rewrite H7, Hv, !andb_true_r|].
      split; rewrite ?sum_Z_cons; cbn [fQuit nTotal nIdle nTodo queue fAllOk held inside idle value forallb pc_ok length]; try done; try lia.
      by apply list.Forall_cons.
    + split; [|by unfold potential_of; rewrite Hq; split]. split; [|split; [done|intros ->; cbn [nTodo andb] in *; lia]].
      split; rewrite ?sum_Z_cons; cbn [fQuit nTotal nIdle nTodo queue fAllOk held inside idle value forallb pc_ok length]; try done; try lia.
      by apply list.Forall_cons.
  - destruct (take_batch_ok A q rest p q') as (Hc & (l' & n & ok & ->) & Hp); [by rewrite Hq|done|done|]. split; [exact Hc|]. split; [lia|done].
Qed.

(** A step of one thread among the [rest]. *)
Lemma thread_ok fM A q rest p p' q' notify :
  counts A q (p :: rest) → Z.of_nat (length A) < 2 ^ 32 → thread_step fM p q = Some (p', q', notify) →
  lands fM A q' p' rest ∧ potential_of q' [p'] + (if notify then 2 else 0) < potential_of q [p] ∧
  (fM = false → queue q = [] → nTodo q ≠ 0 → queue q' = [] ∧ (nTodo q' = 0 → notify = true)).
Proof.
  intros Hc HA E. destruct p as [|n ok| | |l n ok|b]; cbn [thread_step] in E; try discriminate E.
  - destruct fM; [discriminate E|]. injection E as <- <- <-. split; [|split; [unfold potential_of; cbn; lia|done]].
    by apply (counts_same A q Outside); [| | | |cbn; lia|].
  - destruct (clean_up fM n ok q) as [nt q1] eqn:Ec. destruct (clean_up_ready A fM n ok q rest nt q1 Hc HA Ec) as (Hr & Hq & _ & Hn).
    destruct (loop_wait fM q1) as [p1 q2] eqn:El. injection E as <- <- <-. destruct (loop_wait_ok fM A q1 rest p1 q2 Hr El) as (Hl & Hp & Hk).
    split; [exact Hl|]. split.
    + unfold potential_of in *. rewrite Hq in Hp. cbn [sum_Z foldr weight] in *. destruct nt; lia.
    + intros -> Hq0 Hz. rewrite Hq in Hk. destruct (Hk Hq0) as [-> ->]. split; [done|]. by apply Hn.
  - destruct (loop_wait fM _) as [p1 q2] eqn:El. injection E as <- <- <-. destruct (loop_wait_ok fM A _ rest p1 q2 (woken_ready A q rest Hc) El) as (Hl & Hp & Hk).
    split; [exact Hl|]. split; [unfold potential_of in *; cbn [sum_Z foldr weight queue] in *; lia|].
    intros _ Hq0 Hz. cbn [queue nTodo] in Hk. destruct (Hk Hq0) as [-> ->]. split; [done|]. intros ?. by destruct Hz.
  - destruct l as [|c l]; injection E as <- <- <-.
    + split; [|split; [unfold potential_of; cbn; lia|done]]. eapply counts_same; [..|exact Hc]; cbn; try done; [|by rewrite andb_true_r|lia].
      pose proof (cn_pc _ _ _ Hc) as H1. apply list.Forall_cons in H1 as [H1 _]. cbn in H1. by rewrite (proj2 (Z.eqb_neq _ _)) by lia.
    + split; [|split; [unfold potential_of; cbn; lia|done]]. eapply counts_same; [..|exact Hc]; cbn; try done. by destruct ok, (check c).
Qed.

(** *** Reachable states *)

Record reachable (n : nat) (A : list T) (s : system) : Prop := {
  re_counts : counts (match master s with Done _ => [] | _ => A end) (sh s) (master s :: workers s);
  re_done b : master s = Done b → b = forallb check A;
  re_wait : master s = Waiting → queue (sh s) = [] ∧ nTodo (sh s) ≠ 0;
  re_workers : Forall (λ p, ∀ b, p ≠ Done b) (workers s);
  re_len : Z.of_nat (length A) < 2 ^ 32
}.
Definition potential (s : system) : Z := potential_of (sh s) (master s :: workers s).

Lemma potential_split q p rest : potential_of q (p :: rest) = potential_of q [p] + sum_Z weight rest.
Proof. unfold potential_of. rewrite !sum_Z_cons. cbn [sum_Z foldr]. lia. Qed.
Lemma potential_perm q ps ps' : ps ≡ₚ ps' → potential_of q ps = potential_of q ps'.
Proof. intros Hp. unfold potential_of. by rewrite (sum_Z_perm weight _ _ Hp). Qed.

Lemma lands_counts fM A q p rest : lands fM A q p rest → (∀ b, p ≠ Done b) → counts A q (p :: rest).
Proof. intros HL H. destruct p as [| | | | |b]; [destruct HL|exact HL|apply HL|exact HL|exact HL|by destruct (H b)]. Qed.

Lemma wake_done p b : wake p = Done b ↔ p = Done b.
Proof. destruct p; cbn; split; congruence. Qed.
Lemma worker_swap (m w : pc) l1 l2 : m :: l1 ++ w :: l2 ≡ₚ w :: m :: l1 ++ l2.
Proof. rewrite <- Permutation_middle. apply Permutation_swap. Qed.

Lemma reach_master n A s p q b :
  reachable n A s → thread_step true (master s) (sh s) = Some (p, q, b) → reachable n A (System q p (workers s)) ∧ potential (System q p (workers s)) < potential s ∧ p ≠ Outside.
Proof.
  intros [H1 H2 H3 H4 H5] E. assert (counts A (sh s) (master s :: workers s)) as Hc by (destruct (master s); try exact H1; discriminate E).
  destruct (thread_ok true A (sh s) (workers s) (master s) p q b Hc H5 E) as (Hl & Hp & _). split; [|split].
  - split; cbn [sh master workers]; try done.
    + destruct p as [| | | | |b']; [destruct Hl|exact Hl|apply Hl|exact Hl|exact Hl|apply Hl].
    + intros b' ->. by destruct Hl as (_ & ? & _).
    + intros ->. destruct Hl as (_ & Hq & Hz). split; [done|by apply Hz].
  - unfold potential. cbn [sh master workers]. rewrite (potential_split q), (potential_split (sh s)). destruct b; lia.
  - intros ->. destruct Hl.
Qed.

Lemma reach_worker n A s l1 l2 w p q notify :
  reachable n A s → workers s = l1 ++ w :: l2 → thread_step false w (sh s) = Some (p, q, notify) →
  let s' := System q (if notify : bool then wake (master s) else master s) (l1 ++ p :: l2) in reachable n A s' ∧ potential s' < potential s.
Proof.
  destruct s as [q0 m ws]. intros [H1 H2 H3 H4 H5] Hw E s'. cbn [sh master workers] in *. subst ws.
  set (X := match m with Done _ => [] | _ => A end) in *.
  assert (Z.of_nat (length X) < 2 ^ 32) as HX by (unfold X; destruct m; try exact H5; done).
  apply (counts_perm _ _ _ _ (worker_swap m w l1 l2)) in H1.
  destruct (thread_ok false X q0 (m :: l1 ++ l2) w p q notify H1 HX E) as (Hl & Hp & Hk).
  assert (∀ b, p ≠ Done b) as Hnd by (intros b ->; by destruct Hl as [? _]).
  pose proof (lands_counts _ _ _ _ _ Hl Hnd) as Hc. apply (counts_perm _ _ _ _ (symmetry (worker_swap m p l1 l2))) in Hc.
  assert (counts X q ((if notify then wake m else m) :: l1 ++ p :: l2)) as Hc' by (destruct notify; [by apply counts_wake|exact Hc]).
  split.
  - split; unfold s'; cbn [sh master workers]; try done.
    + assert (X = match (if notify then wake m else m) with Done _ => [] | _ => A end) as <-; [|exact Hc']. unfold X. by destruct notify, m.
    + intros b Hb. apply H2. destruct notify; [by apply wake_done|done].
    + intros Hm. assert (notify = false ∧ m = Waiting) as [-> Hmw] by (destruct notify, m; cbn in Hm; first [discriminate Hm|by split]). destruct (H3 Hmw) as [Hq Hz].
      destruct (Hk eq_refl Hq Hz) as [-> Hn]. split; [done|]. intros Hz'. by apply Hn in Hz'.
    + apply list.Forall_app in H4 as [Ha Hb]. apply list.Forall_app. split; [done|]. apply list.Forall_cons in Hb as [_ Hb]. by apply list.Forall_cons.
  - unfold potential, s'. cbn [sh master workers]. rewrite (potential_perm q0 _ _ (worker_swap m w l1 l2)), (potential_perm q _ _ (worker_swap _ p l1 l2)).
    rewrite (potential_split q p), (potential_split q0 w), !sum_Z_cons. assert (weight (wake m) ≤ weight m + 2) as Hwk by (destruct m; cbn; lia). destruct notify; lia.
Qed.

Lemma reach_step n A s s' : reachable n A s → step s s' → reachable n A s' ∧ potential s' < potential s ∧ (master s ≠ Outside → master s' ≠ Outside).
Proof.
  intros Hr Hs. revert Hr. destruct Hs as [s p q b E|s l1 l2 w p q notify Hw E]; intros Hr.
  - destruct (reach_master n A s p q b Hr E) as (? & ? & ?). by split_and!.
  - destruct (reach_worker n A s l1 l2 w p q notify Hr Hw E) as (? & ?). split_and!; [done..|]. cbn [master]. destruct notify, (master s); cbn; congruence.
Qed.

Lemma wake_some X q m l1 l2 : counts X q (m :: l1 ++ Waiting :: l2) → counts X q (m :: l1 ++ Woken :: l2).
Proof.
  intros H. apply (counts_perm _ _ _ _ (symmetry (worker_swap m Woken l1 l2))). apply (counts_perm _ _ _ _ (worker_swap m Waiting l1 l2)) in H.
  by apply counts_wake in H.
Qed.
Lemma wake_all X q m ws : counts X q (m :: ws) → counts X q (m :: (wake <$> ws)).
Proof.
  assert (∀ l, counts X q (m :: l ++ ws) → counts X q (m :: l ++ (wake <$> ws))) as H; [|apply (H [])]. induction ws as [|w ws IH]; intros l Hc; [done|].
  rewrite fmap_cons. apply (counts_perm _ _ _ _ (worker_swap m w l ws)), counts_wake, (counts_perm _ _ _ _ (symmetry (worker_swap m (wake w) l ws))) in Hc.
  rewrite cons_middle, app_assoc in Hc |- *. by apply IH.
Qed.
Lemma not_done_wake ws : Forall (λ p, ∀ b, p ≠ Done b) ws → Forall (λ p, ∀ b, p ≠ Done b) (wake <$> ws).
Proof. intros H. apply list.Forall_fmap. eapply list.Forall_impl; [exact H|]. intros p Hp b Hb. apply (proj1 (wake_done p b)) in Hb. exact (Hp b Hb). Qed.

Lemma reach_spurious n A s s' : reachable n A s → spurious s s' → reachable n A s'.
Proof.
  intros Hr Hs. revert Hr. destruct Hs as [s Hm|s l1 l2 Hw]; intros [H1 H2 H3 H4 H5].
  - rewrite Hm in H1. split; cbn [sh master workers]; try done. by apply counts_wake in H1.
  - rewrite Hw in H1, H4. split; cbn [sh master workers]; try done; [by apply wake_some|].
    apply list.Forall_app in H4 as [Ha Hb]. apply list.Forall_app. split; [done|]. apply list.Forall_cons in Hb as [_ Hb]. by apply list.Forall_cons.
Qed.

Lemma add_counts A l q ps : counts A q ps → Z.of_nat (length (A ++ l)) < 2 ^ 32 → counts (A ++ l) (add_checks l q) ps.
Proof.
  intros [H1 H2 H3 H4 H5 H6 H7] Hl. rewrite length_app in Hl. pose proof (held_sum_nonneg ps H1).
  split; cbn [add_checks fQuit nTotal nIdle nTodo queue fAllOk]; rewrite ?length_app; try done; rewrite ?u32_id by (unfold is_u; lia); try lia.
  rewrite !forallb_app, H7. destruct (fAllOk q), (forallb check (queue q)), (forallb check l), (forallb value ps); done.
Qed.
Lemma reach_add n A l s s' :
  reachable n A s → master s = Outside → Add l s s' → Z.of_nat (length (A ++ l)) < 2 ^ 32 → reachable n (A ++ l) s'.
Proof.
  intros Hr Hm Ha Hl. revert Hr Hm. destruct Ha as [s ws Hone Hn|s _]; intros [H1 H2 H3 H4 H5] Hm; rewrite Hm in H1; apply (λ H, add_counts _ l _ _ H Hl) in H1;
    split; cbn [sh master workers]; rewrite ?Hm; try done.
  - revert H1. destruct Hn as [l1 l2|ws Hn]; [apply wake_some|done].
  - revert H4. destruct Hn as [l1 l2|ws Hn]; [|done]. intros [Ha Hb]%list.Forall_app. apply list.Forall_app. split; [done|]. apply list.Forall_cons in Hb as [_ Hb]. by apply list.Forall_cons.
  - destruct (1 <? length l)%nat; [by apply wake_all|done].
  - destruct (1 <? length l)%nat; [by apply not_done_wake|done].
Qed.

Lemma reach_wait n A s : reachable n A s → master s = Outside → reachable n A (begin_wait s).
Proof.
  intros [H1 H2 H3 H4 H5] Hm. rewrite Hm in H1. split; cbn [begin_wait sh master workers]; try done.
  eapply counts_same; [..|exact H1]; cbn; done || lia.
Qed.
Lemma reach_return n A s b : reachable n A s → master s = Done b → reachable n [] (end_wait s).
Proof.
  intros [H1 H2 H3 H4 H5] Hm. rewrite Hm in H1. split; cbn [end_wait sh master workers]; try done. by eapply counts_same; [..|exact H1].
Qed.

Lemma runs_reachable nb n A s : runs nb n A s → reachable n A s.
Proof.
  induction 1 as [|A s s' _ IH Hs|A s s' _ IH Hs|A s l s' _ IH Hm Ha Hl|A s _ IH Hm|A s b _ IH Hm].
  - split; cbn [sh master workers]; try done; [|by apply list.Forall_replicate].
    assert (∀ f : pc → Z, f Outside = 0 → sum_Z f (Outside :: replicate n Outside) = 0) as Hs.
    { intros f Hf. rewrite sum_Z_cons, Hf. induction n as [|k IH]; [done|]. cbn [replicate]. rewrite sum_Z_cons, Hf. lia. }
    split; cbn [CCheckQueue fQuit nTotal nIdle nTodo queue fAllOk]; rewrite ?Hs; try done.
    + apply list.Forall_cons. split; [done|by apply list.Forall_replicate].
    + cbn. clear. by induction n.
  - by eapply reach_step.
  - by eapply reach_spurious.
  - by eapply reach_add.
  - by apply reach_wait.
  - by eapply reach_return.
Qed.

(** *** Progress *)

Lemma thread_moves fM p q : fM = false ∨ p ≠ Outside → p ≠ Waiting → (∀ b, p ≠ Done b) → ∃ p' q' b, thread_step fM p q = Some (p', q', b).
Proof.
  intros Hf Hw Hd. destruct p as [|m ok| | |[|c l] m ok|b]; cbn [thread_step]; [destruct fM; [by destruct Hf|by eexists _, _, _]| | |..].
  - destruct (clean_up _ _ _ _) as [? q1]. destruct (loop_wait _ q1). by eexists _, _, _.
  - done.
  - destruct (loop_wait _ _). by eexists _, _, _.
  - by eexists _, _, _.
  - by eexists _, _, _.
  - by destruct (Hd b).
Qed.

Lemma reach_moves n A s : reachable n A s → master s ≠ Outside → (∀ b, master s ≠ Done b) → ∃ s', step s s'.
Proof.
  intros [H1 H2 H3 H4 H5] Ho Hd. assert (master s = Waiting ∨ master s ≠ Waiting) as [Hm|Hm] by (destruct (master s); [right..|left|right|right|right]; done).
  - destruct (H3 Hm) as [Hq Hz]. rewrite Hm in H1. destruct (counts_busy _ _ _ H1 Hq Hz) as (p & Hp & Hh). apply elem_of_cons in Hp as [->|Hp]; [by destruct Hh|].
    apply list_elem_of_split in Hp as (l1 & l2 & Hw). rewrite Hw in H4. apply list.Forall_app in H4 as [_ Hb]. apply list.Forall_cons in Hb as [Hb _].
    destruct (thread_moves false p (sh s)) as (p' & q' & b & E); [by left|intros ->; by destruct Hh|done|]. eexists. by eapply step_worker.
  - destruct (thread_moves true (master s) (sh s)) as (p' & q' & b & E); [by right|done|done|]. eexists. by eapply step_master.
Qed.

Lemma wait_inevitable n A s : reachable n A s → master s ≠ Outside → inevitable (λ s', master s' = Done (forallb check A)) s.
Proof.
  remember (Z.to_nat (potential s)) as k eqn:Hk. revert s Hk. induction (lt_wf k) as [k _ IH]. intros s Hk Hr Ho.
  assert ((∃ b, master s = Done b) ∨ ∀ b, master s ≠ Done b) as [[b Hb]|Hd] by (destruct (master s); [right..|left]; by eauto).
  - apply inevitable_now. rewrite Hb. f_equal. by apply (re_done _ _ _ Hr).
  - apply inevitable_next; [by eapply reach_moves|]. intros s' Hs. destruct (reach_step n A s s' Hr Hs) as (Hr' & Hp & Ho').
    apply (IH (Z.to_nat (potential s'))); [|done|done|by apply Ho']. subst k.
    assert (0 ≤ potential s') as H0; [|lia]. unfold potential, potential_of. assert (∀ ps, 0 ≤ sum_Z weight ps) as Hw; [|pose proof (Hw (master s' :: workers s')); lia].
    intros ps. induction ps as [|p ps IHp]; [done|]. rewrite sum_Z_cons. assert (0 ≤ weight p) by (destruct p; cbn; lia). lia.
Qed.

Lemma idle_between n A s : reachable n A s → master s = Outside → A = [] → IsIdle (sh s) = true.
Proof.
  intros [H1 H2 H3 H4 H5] Hm ->. rewrite Hm in H1. pose proof (cn_len _ _ _ H1) as Hl. cbn in Hl.
  assert (nTodo (sh s) = 0) as Hz. { pose proof (cn_todo _ _ _ H1). pose proof (held_sum_nonneg _ (cn_pc _ _ _ H1)). lia. }
  destruct (counts_quiet _ _ _ H1 Hz) as (Hv & Hs & Hq). pose proof (cn_value _ _ _ H1) as Hval. rewrite Hv, Hq in Hval. cbn in Hval. rewrite !andb_true_r in Hval.
  unfold IsIdle. rewrite (cn_total _ _ _ H1), (cn_idle _ _ _ H1), Hs, Hz, <- Hval, !Z.eqb_refl. done.
Qed.

Lemma run_thread_step t s s' : run_thread t s = Some s' → step s s'.
Proof.
  destruct t as [i|]; cbn [run_thread].
  - destruct (workers s !! i) as [w|] eqn:Hw; [|discriminate]. cbn [mbind option_bind]. destruct (thread_step false w (sh s)) as [[[p q] nt]|] eqn:E; [|discriminate].
    intros [= <-]. pose proof (lookup_lt_Some _ _ _ Hw). rewrite (insert_take_drop _ i p) by done.
    eapply (step_worker s (take i (workers s)) (drop (S i) (workers s)) w p q nt); [|done]. by rewrite take_drop_middle.
  - destruct (thread_step true (master s) (sh s)) as [[[p q] nt]|] eqn:E; [|discriminate]. intros [= <-]. by eapply step_master.
Qed.
Lemma schedule_runs nb n l A s s' : runs nb n A s → schedule l s = Some s' → runs nb n A s'.
Proof.
  revert s. induction l as [|t l IH]; intros s Hr; cbn [schedule]; [by intros [= <-]|]. destruct (run_thread t s) as [s1|] eqn:E; [|discriminate].
  apply IH. eapply runs_step; [exact Hr|]. by eapply run_thread_step.
Qed.
End Queue.

(** ** Script checks *)

Section Scripts.
Context (Verify : list Z → Z → list Z → bool).

(** [check()] *)
Definition script_check (c : CScriptCheck) : bool := match run_check Verify c with Ok b => b | _ => false end.

Lemma run_checks_all cs : (∀ c, c ∈ cs → ∃ b, run_check Verify c = Ok b) → run_checks Verify cs = Ok (forallb script_check cs).
Proof.
  induction cs as [|c cs IH]; intros Hc; [done|]. cbn [run_checks forallb]. destruct (Hc c) as [b Hb]; [by left|].
  unfold script_check at 1. rewrite Hb. cbn [map_err mbind outcome_bind]. destruct b; [|done]. apply IH. intros c' Hc'. apply Hc. by right.
Qed.

(** C11: verifying scripts in parallel is verifying them in sequence.  With any number
    of workers, any batch size and any interleaving of the threads, spurious wake-ups
    included, the value [Wait] returns for the checks added since the last call is what
    [run_checks] of [ConnectBlock] gives for them; a master in [Wait] is never stuck and
    every order of steps brings it to return; and between two blocks the queue is idle,
    so that the controller of the next one can take it over. *)
Theorem Wait_checks_all (nBatchSizeIn : Z) (n : nat) (A : list CScriptCheck) (s : system) :
  (∀ c, c ∈ A → ∃ b, run_check Verify c = Ok b) → runs script_check nBatchSizeIn n A s →
  (∀ b, master s = Done b → run_checks Verify A = Ok b) ∧
  (master s ≠ Outside → inevitable script_check (λ s', ∃ b, master s' = Done b ∧ run_checks Verify A = Ok b) s) ∧
  (master s = Outside → A = [] → CCheckQueueControl (Some (sh s)) = Ok tt).
Proof.
  intros Hc Hr%runs_reachable. rewrite (run_checks_all A Hc). split_and!.
  - intros b Hb. f_equal. symmetry. by apply (re_done _ _ _ _ Hr).
  - intros Ho. pose proof (wait_inevitable script_check n A s Hr Ho) as Hi. clear Hr Ho.
    induction Hi as [s Hs|s Hm _ IH]; [apply inevitable_now; by eexists|by apply inevitable_next].
  - intros Hm ->. cbn. by rewrite (idle_between script_check n [] s Hr Hm eq_refl).
Qed.
End Scripts.

(** Two workers and three checks, of which the second fails. *)
Module QueueDemo.
Notation system := (system (T:=CScriptCheck)).
Definition Verify (_ : list Z) (_ : Z) (_ : list Z) : bool := false.
Definition good : CScriptCheck := ScriptCheck [OP_1] Demo.spend_tx 0 0.
Definition bad : CScriptCheck := ScriptCheck [OP_0] Demo.spend_tx 0 0.
Definition checks : list CScriptCheck := [good; bad; good].
Definition s0 : system := System (CCheckQueue 128) Outside (replicate 2 Outside).
Definition from (o : option system) : system := default s0 o.
Definition s1 : system := from (schedule (script_check Verify) [Some 0; Some 1; Some 0; Some 1]%nat s0).
Definition s2 : system := System (add_checks checks (sh s1)) (master s1) (wake <$> workers s1).
Definition s3 : system := from (schedule (script_check Verify) [Some 1; Some 1; Some 0; Some 0]%nat s2).
Definition s4 : system := begin_wait s3.
Definition s5 : system := from (schedule (script_check Verify) [None; None; None; None; Some 0; Some 0; Some 1; Some 1; None]%nat s4).

Lemma from_schedule l s : (match schedule (script_check Verify) l s with Some _ => true | None => false end) = true →
  schedule (script_check Verify) l s = Some (from (schedule (script_check Verify) l s)).
Proof. by destruct (schedule _ l s). Qed.
Lemma run : runs (script_check Verify) 128 2 checks s5.
Proof.
  eapply schedule_runs; [|apply from_schedule; by vm_compute].
  apply runs_wait; [|by vm_compute]. eapply schedule_runs; [|apply from_schedule; by vm_compute].
  apply (runs_add (script_check Verify) 128 2 [] s1 checks); [|by vm_compute| |by vm_compute].
  - eapply schedule_runs; [apply runs_start|apply from_schedule; by vm_compute].
  - unfold s2. apply (add_many checks s1). intros H. discriminate H.
Qed.
Lemma returns_all c : c ∈ checks → ∃ b, run_check Verify c = Ok b.
Proof. unfold checks. rewrite !elem_of_cons, elem_of_nil. intros [->|[->|[->|[]]]]; by eexists. Qed.
End QueueDemo.

Lemma Wait_checks_all_witness : master QueueDemo.s5 = Done false ∧ run_checks QueueDemo.Verify QueueDemo.checks = Ok false.
Proof.
  assert (master QueueDemo.s5 = Done false) as H by (by vm_compute). split; [exact H|].
  by apply (proj1 (Wait_checks_all QueueDemo.Verify 128 2 QueueDemo.checks QueueDemo.s5 QueueDemo.returns_all QueueDemo.run)).
Defined.
