(* ===== verification/NetAddr.v ===== *)
(** * Network addresses (netbase.h, netbase.cpp; CAddress in protocol.h)

    An address is sixteen bytes, an IPv4 address being mapped into IPv6.  This file has
    the address classes, the group of an address by which peers are spread over the
    network, services (an address and a port), their wire format, and subnets.  Names
    are resolved outside the program: what [LookupHost] answers is an argument. *)
From stdpp Require Import base tactics list gmap numbers option.
From Stdlib Require Import ZArith Lia.
From S2P Require Import Prelude.
From S2P Require Import Serialize.

(** ** CNetAddr *)

(** [unsigned char ip[16]], in network byte order. *)
Definition CNetAddr : Type := list Z.
Definition netaddr_ok (ip : CNetAddr) : Prop := length ip = 16%nat ∧ bytes_ok ip.
Definition CNetAddr_Init : CNetAddr := replicate 16 0.

Inductive Network := NET_UNROUTABLE | NET_IPV4 | NET_IPV6 | NET_TOR.
#[export] Instance Network_eq_dec : EqDecision Network.
Proof. solve_decision. Defined.
Definition network_code (n : Network) : Z :=
  match n with NET_UNROUTABLE => 0 | NET_IPV4 => 1 | NET_IPV6 => 2 | NET_TOR => 3 end.

Definition pchIPv4 : list Z := [0; 0; 0; 0; 0; 0; 0; 0; 0; 0; 0xff; 0xff].
Definition pchOnionCat : list Z := [0xFD; 0x87; 0xD8; 0x7E; 0xEB; 0x43].

(** [memcmp(ip, p, sizeof(p)) == 0]. *)
Definition has_prefix (ip p : list Z) : bool := bool_decide (take (length p) ip = p).

(** The two networks [SetRaw] accepts; any other fails its assertion. *)
Definition SetRaw {E} (network : Network) (ip_in : list Z) : outcome E CNetAddr :=
  match network with
  | NET_IPV4 => Ok (pchIPv4 ++ take 4 ip_in)
  | NET_IPV6 => Ok (take 16 ip_in)
  | _ => AssertFail
  end.

Definition GetByte (ip : CNetAddr) (n : nat) : Z := nth (15 - n) ip 0.

Definition IsIPv4 (ip : CNetAddr) : bool := has_prefix ip pchIPv4.
Definition IsTor (ip : CNetAddr) : bool := has_prefix ip pchOnionCat.
Definition IsIPv6 (ip : CNetAddr) : bool := negb (IsIPv4 ip) && negb (IsTor ip).

Section Classes.
Variable ip : CNetAddr.
Notation B := (GetByte ip).

Definition IsRFC1918 : bool :=
  IsIPv4 ip && ((B 3 =? 10) || (B 3 =? 192) && (B 2 =? 168) || (B 3 =? 172) && ((16 <=? B 2) && (B 2 <=? 31))).
Definition IsRFC2544 : bool := IsIPv4 ip && (B 3 =? 198) && ((B 2 =? 18) || (B 2 =? 19)).
Definition IsRFC3927 : bool := IsIPv4 ip && ((B 3 =? 169) && (B 2 =? 254)).
Definition IsRFC6598 : bool := IsIPv4 ip && (B 3 =? 100) && (64 <=? B 2) && (B 2 <=? 127).
Definition IsRFC5737 : bool :=
  IsIPv4 ip && ((B 3 =? 192) && (B 2 =? 0) && (B 1 =? 2) || (B 3 =? 198) && (B 2 =? 51) && (B 1 =? 100)
                || (B 3 =? 203) && (B 2 =? 0) && (B 1 =? 113)).
Definition IsRFC3849 : bool := (B 15 =? 0x20) && (B 14 =? 0x01) && (B 13 =? 0x0D) && (B 12 =? 0xB8).
Definition IsRFC3964 : bool := (B 15 =? 0x20) && (B 14 =? 0x02).
Definition IsRFC6052 : bool := has_prefix ip [0; 0x64; 0xFF; 0x9B; 0; 0; 0; 0; 0; 0; 0; 0].
Definition IsRFC4380 : bool := (B 15 =? 0x20) && (B 14 =? 0x01) && (B 13 =? 0) && (B 12 =? 0).
Definition IsRFC4862 : bool := has_prefix ip [0xFE; 0x80; 0; 0; 0; 0; 0; 0].
Definition IsRFC4193 : bool := Z.land (B 15) 0xFE =? 0xFC.
Definition IsRFC6145 : bool := has_prefix ip [0; 0; 0; 0; 0; 0; 0; 0; 0xFF; 0xFF; 0; 0].
Definition IsRFC4843 : bool := (B 15 =? 0x20) && (B 14 =? 0x01) && (B 13 =? 0x00) && (Z.land (B 12) 0xF0 =? 0x10).

Definition IsLocal : bool :=
  if IsIPv4 ip && ((B 3 =? 127) || (B 3 =? 0)) then true
  else has_prefix ip [0; 0; 0; 0; 0; 0; 0; 0; 0; 0; 0; 0; 0; 0; 0; 1].

Definition IsMulticast : bool := IsIPv4 ip && (Z.land (B 3) 0xF0 =? 0xE0) || (B 15 =? 0xFF).

(** The comparison with [pchIPv4 + 3] finds addresses shifted by three bytes;
    [INADDR_NONE] is 255.255.255.255. *)
Definition IsValid : bool :=
  if has_prefix ip (drop 3 pchIPv4) then false
  else if has_prefix ip (replicate 16 0) then false
  else if IsRFC3849 then false
  else negb (IsIPv4 ip && (has_prefix (drop 12 ip) [255; 255; 255; 255] || has_prefix (drop 12 ip) [0; 0; 0; 0])).

Definition IsRoutable : bool :=
  IsValid && negb (IsRFC1918 || IsRFC2544 || IsRFC3927 || IsRFC4862 || IsRFC6598 || IsRFC5737
                   || (IsRFC4193 && negb (IsTor ip)) || IsRFC4843 || IsLocal).

Definition GetNetwork : Network :=
  if negb IsRoutable then NET_UNROUTABLE
  else if IsIPv4 ip then NET_IPV4
  else if IsTor ip then NET_TOR
  else NET_IPV6.

(** The loop of [GetGroup] that copies whole bytes, and the rest of the bits. *)
Fixpoint group_bytes (n : nat) (nStartByte : nat) : list Z :=
  match n with O => [] | S n => B (15 - nStartByte) :: group_bytes n (S nStartByte) end.
Definition group_of (nClass : Z) (nStartByte : nat) (nBits : Z) : list Z :=
  let n := Z.to_nat (nBits / 8) in
  nClass :: group_bytes n nStartByte ++
  (if 0 <? nBits mod 8 then [Z.lor (B (15 - (nStartByte + n))) (2 ^ (nBits mod 8) - 1)] else []).

(** The class and the bits that [GetGroup] starts with for a local address are
    overwritten, as no local address is routable ([local_group_unused]). *)
Definition GetGroup : list Z :=
  let '(nClass, nBits) := if IsLocal then (255, 0) else (network_code NET_IPV6, 16) in
  if negb IsRoutable then group_of (network_code NET_UNROUTABLE) 0 0
  else if IsIPv4 ip || IsRFC6145 || IsRFC6052 then group_of (network_code NET_IPV4) 12 nBits
  else if IsRFC3964 then group_of (network_code NET_IPV4) 2 nBits
  else if IsRFC4380 then [network_code NET_IPV4; Z.lxor (B 3) 0xFF; Z.lxor (B 2) 0xFF]
  else if IsTor ip then group_of (network_code NET_TOR) 6 4
  else if (B 15 =? 0x20) && (B 14 =? 0x01) && (B 13 =? 0x04) && (B 12 =? 0x70) then group_of nClass 0 36
  else group_of nClass 0 32.
End Classes.

(** [GetExtNetwork] with its two private values, and [GetReachabilityFrom]. *)
Inductive ExtNetwork := ExtNet (n : Network) | NET_UNKNOWN | NET_TEREDO.
Definition GetExtNetwork (addr : option CNetAddr) : ExtNetwork :=
  match addr with
  | None => NET_UNKNOWN
  | Some ip => if IsRFC4380 ip then NET_TEREDO else ExtNet (GetNetwork ip)
  end.

Inductive Reachability :=
| REACH_UNREACHABLE | REACH_DEFAULT | REACH_TEREDO | REACH_IPV6_WEAK | REACH_IPV4 | REACH_IPV6_STRONG | REACH_PRIVATE.
Definition GetReachabilityFrom (ip : CNetAddr) (paddrPartner : option CNetAddr) : Reachability :=
  if negb (IsRoutable ip) then REACH_UNREACHABLE
  else
    let ourNet := GetExtNetwork (Some ip) in
    let fTunnel := IsRFC3964 ip || IsRFC6052 ip || IsRFC6145 ip in
    match GetExtNetwork paddrPartner with
    | ExtNet NET_IPV4 => match ourNet with ExtNet NET_IPV4 => REACH_IPV4 | _ => REACH_DEFAULT end
    | ExtNet NET_IPV6 =>
        match ourNet with
        | NET_TEREDO => REACH_TEREDO
        | ExtNet NET_IPV4 => REACH_IPV4
        | ExtNet NET_IPV6 => if fTunnel then REACH_IPV6_WEAK else REACH_IPV6_STRONG
        | _ => REACH_DEFAULT
        end
    | ExtNet NET_TOR =>
        match ourNet with ExtNet NET_IPV4 => REACH_IPV4 | ExtNet NET_TOR => REACH_PRIVATE | _ => REACH_DEFAULT end
    | NET_TEREDO =>
        match ourNet with
        | NET_TEREDO => REACH_TEREDO
        | ExtNet NET_IPV6 => REACH_IPV6_WEAK
        | ExtNet NET_IPV4 => REACH_IPV4
        | _ => REACH_DEFAULT
        end
    | NET_UNKNOWN | ExtNet NET_UNROUTABLE =>
        match ourNet with
        | NET_TEREDO => REACH_TEREDO
        | ExtNet NET_IPV6 => REACH_IPV6_WEAK
        | ExtNet NET_IPV4 => REACH_IPV4
        | ExtNet NET_TOR => REACH_PRIVATE
        | _ => REACH_DEFAULT
        end
    end.

(** ** CService and CAddress *)

Record CService := Service { s_ip : CNetAddr; port : Z (** unsigned short *) }.
#[export] Instance CService_eq_dec : EqDecision CService.
Proof. solve_decision. Defined.
Definition CService_Init : CService := Service CNetAddr_Init 0.
Definition service_ok (a : CService) : Prop := netaddr_ok (s_ip a) ∧ is_u 16 (port a).

(** [memcmp(a.ip, b.ip, 16) < 0], and [operator<] on services. *)
Fixpoint netaddr_lt (a b : CNetAddr) : bool :=
  match a, b with
  | x :: a, y :: b => if x <? y then true else if y <? x then false else netaddr_lt a b
  | _, _ => false
  end.
Definition service_lt (a b : CService) : bool :=
  netaddr_lt (s_ip a) (s_ip b) || bool_decide (s_ip a = s_ip b) && (port a <? port b).

Definition GetKey (a : CService) : list Z := s_ip a ++ [port a / 0x100; Z.land (port a) 0x0FF].

(** The port goes out in network byte order: [htons] and the little-endian writer. *)
Definition htons (p : Z) : Z := p mod 256 * 256 + p / 256.
Definition ser_service (a : CService) : list Z := s_ip a ++ WRITEDATA 2 (htons (port a)).
Definition unser_service : reader CService := λ s,
  '(ip, s) ← stream_read 16 s; '(portN, s) ← READDATA 2 s; Ok (Service ip (htons portN), s).

Definition NODE_NETWORK : Z := 1.
Record CAddress := Address {
  a_service : CService;
  nServices : Z;   (** uint64_t *)
  a_nTime : Z;     (** unsigned int *)
  nLastTry : Z     (** int64_t, memory only *)
}.
#[export] Instance CAddress_eq_dec : EqDecision CAddress.
Proof. solve_decision. Defined.
Definition CAddress_of (a : CService) (nServicesIn : Z) : CAddress := Address a nServicesIn 100000000 0.
Definition CAddress_Init : CAddress := CAddress_of CService_Init NODE_NETWORK.

(** On disk the version and the time come first; on the network the time is there
    from version 31402 on ([CADDR_TIME_VERSION]). *)
Definition CADDR_TIME_VERSION : Z := 31402.
Definition ser_caddress (fDisk fGetHash : bool) (nVersion : Z) (a : CAddress) : list Z :=
  (if fDisk then WRITEDATA 4 nVersion else []) ++
  (if fDisk || (CADDR_TIME_VERSION <=? nVersion) && negb fGetHash then WRITEDATA 4 (a_nTime a) else []) ++
  WRITEDATA 8 (nServices a) ++ ser_service (a_service a).
(** Reading starts from [Init]; a version on disk replaces the stream's (it is an
    argument by value, so only for this object). *)
Definition unser_caddress (fDisk fGetHash : bool) (nVersion : Z) : reader CAddress := λ s,
  '(nVersion, s) ← (if fDisk then READDATA_signed 4 s else Ok (nVersion, s));
  '(nTime, s) ← (if fDisk || (CADDR_TIME_VERSION <=? nVersion) && negb fGetHash then READDATA 4 s else Ok (100000000, s));
  '(nServices, s) ← READDATA 8 s;
  '(a, s) ← unser_service s;
  Ok (Address a nServices nTime 0, s).

(** ** CSubNet *)

Record CSubNet := SubNet { network : CNetAddr; netmask : list Z; valid : bool }.
Definition CSubNet_Init : CSubNet := SubNet CNetAddr_Init (replicate 16 0) false.

(** [netmask[n >> 3] &= ~(1 << (7 - (n & 7)))], for each [n] up to 127. *)
Definition clear_bit (mask : list Z) (n : Z) : list Z :=
  let x := Z.to_nat (Z.shiftr n 3) in
  <[x := Z.land (nth x mask 0) (Z.lnot (Z.shiftl 1 (7 - Z.land n 7)))]> mask.
Definition clear_bits (mask : list Z) (n : Z) : list Z := foldl clear_bit mask (seqZ n (128 - n)).

(** What follows the slash: nothing, a number ([ParseInt32]) or a mask that is
    looked up as an address. *)
Inductive subnet_suffix := NoSuffix | PrefixLength (n : Z) | MaskAddress (a : option CNetAddr).

Definition set_netmask (base : CNetAddr) (suffix : subnet_suffix) : list Z * bool :=
  let full := replicate 16 255 in
  let astartofs := if IsIPv4 base then 12 else 0 in
  match suffix with
  | NoSuffix => (full, true)
  | PrefixLength n =>
      if (0 <=? n) && (n <=? 128 - astartofs * 8) then (clear_bits full (n + astartofs * 8), true) else (full, false)
  | MaskAddress (Some m) => (take (Z.to_nat astartofs) full ++ drop (Z.to_nat astartofs) m, true)
  | MaskAddress None => (full, false)
  end.

(** [strAddress] is what [LookupHost] found before the slash. *)
Definition CSubNet_of (strAddress : option CNetAddr) (suffix : subnet_suffix) : CSubNet :=
  let '(base, (mask, ok)) :=
    match strAddress with
    | Some base => (base, set_netmask base suffix)
    | None => (CNetAddr_Init, (replicate 16 255, false))
    end in
  SubNet (zip_with Z.land base mask) mask ok.

Definition Match (n : CSubNet) (addr : CNetAddr) : bool :=
  if negb (valid n) || negb (IsValid addr) then false
  else forallb (λ x, Z.land (nth x addr 0) (nth x (netmask n) 0) =? nth x (network n) 0) (seq 0 16).

(** ** Bytes and groups *)

Lemma GetByte_byte ip n : netaddr_ok ip → is_byte (GetByte ip n).
Proof.
  intros [Hl Hb]. unfold GetByte. apply (proj1 (List.Forall_nth _ ip) Hb). lia.
Qed.
#[export] Hint Resolve GetByte_byte : fc.

Lemma byte_log2 z : 0 ≤ z → is_byte z ↔ Z.log2 z < 8.
Proof.
  intros H. unfold is_byte. destruct (Z.eq_dec z 0) as [->|]; [split; [intros _; reflexivity|lia]|].
  change 256 with (2 ^ 8). rewrite (Z.log2_lt_pow2 z 8) by lia. lia.
Qed.

Lemma lor_byte a b : is_byte a → is_byte b → is_byte (Z.lor a b).
Proof.
  intros Ha Hb. pose proof Ha as [? _]. pose proof Hb as [? _]. apply byte_log2 in Ha, Hb; [|done..].
  apply byte_log2; [by apply Z.lor_nonneg|]. rewrite Z.log2_lor by done. lia.
Qed.

Lemma lxor_ff_byte a : is_byte a → is_byte (Z.lxor a 0xFF).
Proof.
  intros Ha. pose proof Ha as [? _]. apply byte_log2 in Ha; [|done].
  apply byte_log2; [apply Z.lxor_nonneg; lia|].
  eapply Z.le_lt_trans; [apply Z.log2_lxor; lia|]. change (Z.log2 255) with 7. lia.
Qed.

Lemma bytes_ok_group_bytes ip n k : netaddr_ok ip → bytes_ok (group_bytes ip n k).
Proof. intros H. revert k. induction n; intros k; cbn [group_bytes]; constructor; [by apply GetByte_byte|apply IHn]. Qed.

Lemma group_of_ok ip c k b : netaddr_ok ip → is_byte c → 0 ≤ b → bytes_ok (group_of ip c k b).
Proof.
  intros H Hc Hb. unfold group_of. constructor; [done|]. apply Forall_app. split; [by apply bytes_ok_group_bytes|].
  case_match; constructor; [|constructor]. apply lor_byte; [by apply GetByte_byte|].
  pose proof (Z.mod_pos_bound b 8). pose proof (Z.pow_lt_mono_r 2 (b mod 8) 8 ltac:(lia) ltac:(lia) ltac:(lia)).
  pose proof (Z.pow_pos_nonneg 2 (b mod 8)). unfold is_byte. lia.
Qed.

Lemma bytes_ok_GetGroup ip : netaddr_ok ip → bytes_ok (GetGroup ip).
Proof.
  intros H. pose proof (GetByte_byte ip 3 H). pose proof (GetByte_byte ip 2 H). unfold GetGroup.
  destruct (IsLocal ip); cbn [fst snd]; repeat case_match;
    first [apply group_of_ok; [done|unfold is_byte; cbn; lia|lia]
          |repeat constructor; try (unfold is_byte; cbn; lia); by apply lxor_ff_byte].
Qed.

Lemma local_unroutable ip : IsLocal ip = true → IsRoutable ip = false.
Proof. intros H. unfold IsRoutable. rewrite H. destruct (IsValid ip); [|done]. cbn. by rewrite orb_true_r. Qed.

(** All unroutable addresses are one group; a local address is one of them, so the
    separate class 255 that [GetGroup] prepares for local addresses is never returned. *)
Lemma local_group_unused ip : IsLocal ip = true → GetGroup ip = [network_code NET_UNROUTABLE].
Proof. intros H. unfold GetGroup. by rewrite (local_unroutable ip H), H. Qed.

(** An IPv4 address belongs to the group of its upper sixteen bits, as the comment in
    [GetGroup] says. *)
Lemma GetGroup_IPv4 ip :
  IsRoutable ip = true → IsIPv4 ip = true → GetGroup ip = [network_code NET_IPV4; GetByte ip 3; GetByte ip 2].
Proof.
  intros Hr H4. unfold GetGroup. destruct (IsLocal ip) eqn:E; [by rewrite (local_unroutable ip E) in Hr|].
  by rewrite Hr, H4.
Qed.

Lemma GetNetwork_unroutable ip : GetNetwork ip = NET_UNROUTABLE ↔ IsRoutable ip = false.
Proof. unfold GetNetwork. destruct (IsRoutable ip), (IsIPv4 ip), (IsTor ip); cbn; naive_solver. Qed.

(** ** Services *)

Lemma GetKey_inj a b : service_ok a → service_ok b → GetKey a = GetKey b → a = b.
Proof.
  intros [[Hla _] Ha] [[Hlb _] Hb] H. unfold GetKey in H. apply app_inj_1 in H as [Hi Hp]; [|by rewrite Hla, Hlb].
  rewrite !land_ff in Hp. injection Hp as H1 H2. destruct a as [ia pa], b as [ib pb]. cbn in *. subst. f_equal.
  rewrite (Z_div_mod_eq_full pa 256), (Z_div_mod_eq_full pb 256). unfold is_u in *. congruence.
Qed.

Lemma htons_involutive p : is_u 16 p → is_u 16 (htons p) ∧ htons (htons p) = p.
Proof. unfold is_u, htons. intros H. change (2 ^ 16) with 65536 in *. Z.to_euclidean_division_equations. lia. Qed.

#[export] Program Instance serial_service : Serial CService := {|
  ser := ser_service;
  unser := unser_service;
  ser_ok := service_ok |}.
Next Obligation. intros a [[_ Hb] _]. apply Forall_app. split; [done|apply bytes_ok_WRITEDATA]. Qed.
Next Obligation.
  intros [ip p] rest [[Hl Hb] Hp]. cbn [s_ip port] in *. unfold unser_service, ser_service. cbn [s_ip port].
  destruct (htons_involutive p Hp) as [Hh He].
  rewrite <- app_assoc, <- Hl, stream_read_app. cbn [mbind outcome_bind].
  rewrite READDATA_WRITEDATA by done. cbn [mbind outcome_bind]. by rewrite He.
Qed.

Definition caddress_ok (a : CAddress) : Prop :=
  service_ok (a_service a) ∧ is_u 64 (nServices a) ∧ is_u 32 (a_nTime a).

(** What is written is read back, except what is in memory only, and the time where
    the format has none. *)
Lemma unser_ser_caddress fDisk fGetHash v a rest :
  caddress_ok a → is_s 32 v →
  unser_caddress fDisk fGetHash v (ser_caddress fDisk fGetHash v a ++ rest) =
  Ok (Address (a_service a) (nServices a)
        (if fDisk || (CADDR_TIME_VERSION <=? v) && negb fGetHash then a_nTime a else 100000000) 0, rest).
Proof.
  intros (Hs & Hn & Ht) Hv. unfold unser_caddress, ser_caddress. rewrite <- !app_assoc.
  destruct fDisk; cbn [orb].
  - rewrite READDATA_signed_WRITEDATA by (done || lia). cbn [mbind outcome_bind].
    rewrite READDATA_WRITEDATA by done. cbn [mbind outcome_bind].
    rewrite READDATA_WRITEDATA by done. cbn [mbind outcome_bind].
    change unser_service with (unser (A:=CService)). change (ser_service ?x) with (ser (A:=CService) x).
    rewrite (unser_ser (a_service a)) by done. done.
  - cbn [app mbind outcome_bind]. destruct ((CADDR_TIME_VERSION <=? v) && negb fGetHash).
    + rewrite READDATA_WRITEDATA by done. cbn [mbind outcome_bind].
      rewrite READDATA_WRITEDATA by done. cbn [mbind outcome_bind].
      change unser_service with (unser (A:=CService)). change (ser_service ?x) with (ser (A:=CService) x).
      rewrite (unser_ser (a_service a)) by done. done.
    + cbn [app mbind outcome_bind]. rewrite READDATA_WRITEDATA by done. cbn [mbind outcome_bind].
      change unser_service with (unser (A:=CService)). change (ser_service ?x) with (ser (A:=CService) x).
      rewrite (unser_ser (a_service a)) by done. done.
Qed.

(** ** Subnets *)

(** Bit [i] of an address, from the most significant bit of the first byte on. *)
Definition addr_bit (ip : list Z) (i : Z) : bool := Z.testbit (nth (Z.to_nat (i / 8)) ip 0) (7 - i mod 8).

Lemma clear_bit_ok mask n i :
  length mask = 16%nat → 0 ≤ n < 128 → 0 ≤ i < 128 →
  length (clear_bit mask n) = 16%nat ∧ addr_bit (clear_bit mask n) i = addr_bit mask i && negb (i =? n).
Proof.
  intros Hl Hn Hi. unfold clear_bit. rewrite shiftr_div by lia. change (2 ^ 3) with 8. split; [by rewrite length_insert|].
  change 7 with (2 ^ 3 - 1) at 2. rewrite land_low by lia. change (2 ^ 3) with 8.
  unfold addr_bit. destruct (decide (i / 8 = n / 8)) as [E|E].
  - rewrite E. rewrite (nth_lookup (<[_ := _]> mask)), list_lookup_insert_eq by (rewrite Hl; apply Nat2Z.inj_lt; Z.to_euclidean_division_equations; lia).
    cbn [default from_option id]. rewrite Z.land_spec, Z.lnot_spec by (Z.to_euclidean_division_equations; lia).
    f_equal. f_equal. rewrite Z.shiftl_spec by (Z.to_euclidean_division_equations; lia).
    destruct (Z.eqb_spec i n) as [->|Hne].
    + by replace (7 - n mod 8 - (7 - n mod 8)) with 0 by lia.
    + rewrite <- (Z.testbit_0_l 0) at 1. destruct (Z.testbit 1 (7 - i mod 8 - (7 - n mod 8))) eqn:Hb; [|by rewrite Z.testbit_0_l].
      exfalso. destruct (Z.ltb_spec (7 - i mod 8 - (7 - n mod 8)) 0); [by rewrite Z.testbit_neg_r in Hb by lia|].
      change 1 with (2 ^ 0) in Hb. rewrite Z.pow2_bits_eqb in Hb by lia. apply Z.eqb_eq in Hb.
      Z.to_euclidean_division_equations. lia.
  - rewrite (nth_lookup (<[_ := _]> mask)), list_lookup_insert_ne by (Z.to_euclidean_division_equations; lia).
    rewrite <- nth_lookup. destruct (Z.eqb_spec i n) as [->|]; [lia|]. by rewrite andb_true_r.
Qed.

Lemma clear_bits_gen l mask i :
  length mask = 16%nat → Forall (λ n, 0 ≤ n < 128) l → 0 ≤ i < 128 →
  length (foldl clear_bit mask l) = 16%nat ∧
  addr_bit (foldl clear_bit mask l) i = addr_bit mask i && negb (bool_decide (i ∈ l)).
Proof.
  revert mask. induction l as [|n l IH]; intros mask Hl Hf Hi; cbn [foldl].
  { rewrite bool_decide_eq_false_2 by (apply not_elem_of_nil). by rewrite andb_true_r. }
  apply list.Forall_cons in Hf as [Hn Hf]. destruct (clear_bit_ok mask n i Hl Hn Hi) as [Hl' Hb].
  destruct (IH (clear_bit mask n) Hl' Hf Hi) as [? ->]. split; [done|]. rewrite Hb, <- andb_assoc. f_equal.
  rewrite <- negb_orb. f_equal. destruct (Z.eqb_spec i n) as [->|Hne]; cbn [orb].
  - symmetry. apply bool_decide_eq_true_2, elem_of_cons. by left.
  - apply bool_decide_ext. rewrite elem_of_cons. naive_solver.
Qed.

(** The mask of a prefix length has exactly the first [n] bits set. *)
Lemma clear_bits_spec n i :
  0 ≤ n ≤ 128 → 0 ≤ i < 128 →
  length (clear_bits (replicate 16 255) n) = 16%nat ∧ addr_bit (clear_bits (replicate 16 255) n) i = (i <? n).
Proof.
  intros Hn Hi. unfold clear_bits.
  destruct (clear_bits_gen (seqZ n (128 - n)) (replicate 16 255) i) as [Hl Hb].
  { by rewrite length_replicate. }
  { apply list.Forall_forall. intros x [? ?]%elem_of_seqZ. lia. }
  { done. }
  split; [done|]. rewrite Hb.
  assert (addr_bit (replicate 16 255) i = true) as ->.
  { unfold addr_bit. rewrite nth_lookup, lookup_replicate_2 by (apply Nat2Z.inj_lt; Z.to_euclidean_division_equations; lia).
    cbn [default from_option]. change 255 with (Z.ones 8). apply Z.ones_spec_low. Z.to_euclidean_division_equations. lia. }
  cbn [andb]. destruct (Z.ltb_spec i n).
  - rewrite bool_decide_eq_false_2; [done|]. rewrite elem_of_seqZ. lia.
  - rewrite bool_decide_eq_true_2; [done|]. rewrite elem_of_seqZ. lia.
Qed.

Lemma byte_high_bit b j : is_byte b → 8 ≤ j → Z.testbit b j = false.
Proof.
  intros H Hj. pose proof H as [? _]. apply byte_log2 in H; [|done]. apply Z.bits_above_log2; [done|lia].
Qed.

(** Equal under the mask, byte by byte, is equal on the bits of the mask. *)
Lemma masked_bits addr base mask x :
  (x < 16)%nat → netaddr_ok addr → netaddr_ok base →
  Z.land (nth x addr 0) (nth x mask 0) = Z.land (nth x base 0) (nth x mask 0) ↔
  ∀ i, i / 8 = Z.of_nat x → addr_bit mask i = true → addr_bit addr i = addr_bit base i.
Proof.
  intros Hx Ha Hb.
  assert (∀ ip, netaddr_ok ip → is_byte (nth x ip 0)) as Hbyte.
  { intros ip [Hl Hok]. apply (proj1 (List.Forall_nth _ ip) Hok). lia. }
  split.
  - intros H i Hi Hm. unfold addr_bit in *. rewrite Hi, Nat2Z.id in *.
    pose proof (f_equal (λ z, Z.testbit z (7 - i mod 8)) H) as H'. cbn beta in H'.
    rewrite !Z.land_spec, Hm, !andb_true_r in H'. done.
  - intros H. apply Z.bits_inj'. intros j Hj. rewrite !Z.land_spec.
    destruct (Z.ltb_spec j 8) as [Hj8|Hj8].
    + specialize (H (8 * Z.of_nat x + (7 - j))).
      assert ((8 * Z.of_nat x + (7 - j)) / 8 = Z.of_nat x) as Hd by (Z.to_euclidean_division_equations; lia).
      assert ((8 * Z.of_nat x + (7 - j)) mod 8 = 7 - j) as Hm by (Z.to_euclidean_division_equations; lia).
      unfold addr_bit in H. rewrite Hd, Hm, Nat2Z.id in H. replace (7 - (7 - j)) with j in H by lia.
      destruct (Z.testbit (nth x mask 0) j); [|by rewrite !andb_false_r]. by rewrite (H eq_refl eq_refl).
    + by rewrite (byte_high_bit _ j (Hbyte _ Ha) Hj8), (byte_high_bit _ j (Hbyte _ Hb) Hj8).
Qed.

Lemma nth_zip_land (a b : list Z) x : length a = length b → nth x (zip_with Z.land a b) 0 = Z.land (nth x a 0) (nth x b 0).
Proof. revert b x. induction a as [|y a IH]; intros [|z b] x H; try done; destruct x; try done. cbn. apply IH. by injection H. Qed.

(** A subnet given as an address and a prefix length matches exactly the valid
    addresses that agree with it on that many leading bits, counted from the IPv4 part
    for an IPv4 subnet; a prefix longer than the address makes the subnet invalid, and
    it then matches nothing. *)
Theorem Match_prefix (base addr : CNetAddr) (n : Z) :
  netaddr_ok base → netaddr_ok addr →
  let n' := n + (if IsIPv4 base then 96 else 0) in
  Match (CSubNet_of (Some base) (PrefixLength n)) addr = true ↔
  0 ≤ n ∧ n' ≤ 128 ∧ IsValid addr = true ∧ ∀ i, 0 ≤ i < n' → addr_bit addr i = addr_bit base i.
Proof.
  intros Hb Ha n'. unfold Match, CSubNet_of, set_netmask.
  set (ofs := if IsIPv4 base then 12 else 0).
  assert (n + ofs * 8 = n') as En by (unfold ofs, n'; destruct (IsIPv4 base); lia).
  assert (0 <= ofs) as Hofs by (unfold ofs; destruct (IsIPv4 base); lia).
  destruct ((0 <=? n) && (n <=? 128 - ofs * 8)) eqn:Er; cycle 1.
  { cbn. split; [done|]. intros (? & ? & _). apply andb_false_iff in Er. rewrite !Z.leb_gt in Er. lia. }
  apply andb_true_iff in Er. rewrite !Z.leb_le in Er. cbn [valid netmask network]. rewrite En.
  destruct (IsValid addr); cbn [negb orb]; [|naive_solver].
  rewrite forallb_forall. transitivity (∀ i, 0 ≤ i < n' → addr_bit addr i = addr_bit base i); [|naive_solver lia].
  assert (∀ i, 0 ≤ i < 128 → length (clear_bits (replicate 16 255) n') = 16%nat ∧ addr_bit (clear_bits (replicate 16 255) n') i = (i <? n')) as Hm.
  { intros. apply clear_bits_spec; lia. }
  assert (length (clear_bits (replicate 16 255) n') = 16%nat) as Hl by (apply (Hm 0); lia).
  assert (∀ x, nth x (zip_with Z.land base (clear_bits (replicate 16 255) n')) 0 = Z.land (nth x base 0) (nth x (clear_bits (replicate 16 255) n') 0)) as Hz.
  { intros x. apply nth_zip_land. destruct Hb. lia. }
  split.
  - intros H i Hi. specialize (H (Z.to_nat (i / 8))). rewrite Z.eqb_eq, Hz in H.
    assert (0 ≤ i / 8 < 16) by (Z.to_euclidean_division_equations; lia).
    apply (masked_bits addr base _ (Z.to_nat (i / 8))) with (i := i) in H; try done; [lia|apply in_seq; lia|lia|].
    rewrite (proj2 (Hm i ltac:(lia))). lia.
  - intros H x Hx%in_seq. apply Z.eqb_eq. rewrite Hz. apply masked_bits; [lia|done..|].
    intros i Hi. rewrite (proj2 (Hm i ltac:(Z.to_euclidean_division_equations; lia))). intros Hlt%Z.ltb_lt.
    apply H. Z.to_euclidean_division_equations; lia.
Qed.

Definition ipv4_addr (a b c d : Z) : CNetAddr := pchIPv4 ++ [a; b; c; d].
Lemma Match_prefix_witness :
  netaddr_ok (ipv4_addr 10 1 2 3) ∧ netaddr_ok (ipv4_addr 10 9 9 9) ∧
  Match (CSubNet_of (Some (ipv4_addr 10 1 2 3)) (PrefixLength 8)) (ipv4_addr 10 9 9 9) = true.
Proof.
  assert (netaddr_ok (ipv4_addr 10 1 2 3)) as H1 by (split; [done|by_decision]).
  assert (netaddr_ok (ipv4_addr 10 9 9 9)) as H2 by (split; [done|by_decision]).
  split_and!; [done|done|]. apply (Match_prefix _ _ 8 H1 H2). split_and!; [lia|by_decision|reflexivity|].
  assert (Forall (λ i, addr_bit (ipv4_addr 10 9 9 9) i = addr_bit (ipv4_addr 10 1 2 3) i) (seqZ 0 104)) as HF by by_decision.
  intros i Hi. change (0 ≤ i < 8 + 96) in Hi. apply (proj1 (list.Forall_forall _ _) HF). rewrite elem_of_seqZ. lia.
Defined.
