(* ===== verification/AddrMan.v ===== *)
(** * The address manager (addrman.h, addrman.cpp)

    The node remembers the addresses of its peers in two tables of buckets: "new" for
    addresses it has heard of, where an address may sit in up to eight buckets, and
    "tried" for those it has reached.  Buckets and positions come from hashes with a
    secret key.  The tables, the two maps, the shuffled vector of identifiers and the
    counters say the same thing several times over; the theorems show that every
    operation keeps them in agreement, that no assertion of the code fails, and that
    the code's own check ([Check_]) never finds an error. *)
From stdpp Require Import base tactics list gmap numbers option.
From Stdlib Require Import ZArith Lia.
From S2P Require Import Prelude.
From S2P Require Import Double.
From S2P Require Import Serialize.
From S2P Require Import Crypto.
From S2P Require Import Transaction.
From S2P Require Import NetAddr.

Definition ADDRMAN_TRIED_BUCKET_COUNT : Z := 256.
Definition ADDRMAN_NEW_BUCKET_COUNT : Z := 1024.
Definition ADDRMAN_BUCKET_SIZE : Z := 64.
Definition ADDRMAN_TRIED_BUCKETS_PER_GROUP : Z := 8.
Definition ADDRMAN_NEW_BUCKETS_PER_SOURCE_GROUP : Z := 64.
Definition ADDRMAN_NEW_BUCKETS_PER_ADDRESS : Z := 8.
Definition ADDRMAN_HORIZON_DAYS : Z := 30.
Definition ADDRMAN_RETRIES : Z := 3.
Definition ADDRMAN_MAX_FAILURES : Z := 10.
Definition ADDRMAN_MIN_FAIL_DAYS : Z := 7.
Definition ADDRMAN_GETADDR_MAX_PCT : Z := 23.
Definition ADDRMAN_GETADDR_MAX : Z := 2500.

(** ** CAddrInfo *)

Record CAddrInfo := AddrInfo {
  i_addr : CAddress;
  source : CNetAddr;
  nLastSuccess : Z;   (** int64_t *)
  nAttempts : Z;      (** int *)
  nRefCount : Z;      (** int *)
  fInTried : bool;
  nRandomPos : Z      (** int *)
}.
#[export] Instance CAddrInfo_eq_dec : EqDecision CAddrInfo.
Proof. solve_decision. Defined.

(** The constructors: [Init] also resets the time of the last try. *)
Definition CAddrInfo_of (addr : CAddress) (addrSource : CNetAddr) : CAddrInfo :=
  AddrInfo (Address (a_service addr) (nServices addr) (a_nTime addr) 0) addrSource 0 0 0 false (-1).
Definition CAddrInfo_Init : CAddrInfo := CAddrInfo_of CAddress_Init CNetAddr_Init.

Definition i_service (i : CAddrInfo) : CService := a_service (i_addr i).
Definition i_ip (i : CAddrInfo) : CNetAddr := s_ip (i_service i).
Definition i_nTime (i : CAddrInfo) : Z := a_nTime (i_addr i).
Definition i_nLastTry (i : CAddrInfo) : Z := nLastTry (i_addr i).

Definition set_refs (r : Z) (i : CAddrInfo) : CAddrInfo :=
  AddrInfo (i_addr i) (source i) (nLastSuccess i) (nAttempts i) r (fInTried i) (nRandomPos i).
Definition set_tried (b : bool) (i : CAddrInfo) : CAddrInfo :=
  AddrInfo (i_addr i) (source i) (nLastSuccess i) (nAttempts i) (nRefCount i) b (nRandomPos i).
Definition set_pos (p : Z) (i : CAddrInfo) : CAddrInfo :=
  AddrInfo (i_addr i) (source i) (nLastSuccess i) (nAttempts i) (nRefCount i) (fInTried i) p.
Definition set_nTime (t : Z) (i : CAddrInfo) : CAddrInfo :=
  AddrInfo (Address (i_service i) (nServices (i_addr i)) t (i_nLastTry i)) (source i) (nLastSuccess i) (nAttempts i)
    (nRefCount i) (fInTried i) (nRandomPos i).
Definition set_nServices (v : Z) (i : CAddrInfo) : CAddrInfo :=
  AddrInfo (Address (i_service i) v (i_nTime i) (i_nLastTry i)) (source i) (nLastSuccess i) (nAttempts i)
    (nRefCount i) (fInTried i) (nRandomPos i).
(** The three counters of connection attempts. *)
Definition set_attempts (lastSuccess lastTry attempts : Z) (i : CAddrInfo) : CAddrInfo :=
  AddrInfo (Address (i_service i) (nServices (i_addr i)) (i_nTime i) lastTry) (source i) lastSuccess attempts
    (nRefCount i) (fInTried i) (nRandomPos i).

(** [GetHash().GetLow64()] of what was written to a [CHashWriter]. *)
Definition hash_low64 (bs : list Z) : Z := uint256_of_bytes (Hash256 bs) mod 2 ^ 64.

Definition GetTriedBucket (nKey : Z) (i : CAddrInfo) : Z :=
  let hash1 := hash_low64 (ser_uint256 nKey ++ ser_blob (GetKey (i_service i))) in
  let hash2 := hash_low64 (ser_uint256 nKey ++ ser_blob (GetGroup (i_ip i))
                           ++ WRITEDATA 8 (hash1 mod ADDRMAN_TRIED_BUCKETS_PER_GROUP)) in
  hash2 mod ADDRMAN_TRIED_BUCKET_COUNT.

Definition GetNewBucket (nKey : Z) (src : CNetAddr) (i : CAddrInfo) : Z :=
  let vchSourceGroupKey := GetGroup src in
  let hash1 := hash_low64 (ser_uint256 nKey ++ ser_blob (GetGroup (i_ip i)) ++ ser_blob vchSourceGroupKey) in
  let hash2 := hash_low64 (ser_uint256 nKey ++ ser_blob vchSourceGroupKey
                           ++ WRITEDATA 8 (hash1 mod ADDRMAN_NEW_BUCKETS_PER_SOURCE_GROUP)) in
  hash2 mod ADDRMAN_NEW_BUCKET_COUNT.

(** ['N'] is 78 and ['K'] is 75. *)
Definition GetBucketPosition (nKey : Z) (fNew : bool) (nBucket : Z) (i : CAddrInfo) : Z :=
  let hash1 := hash_low64 (ser_uint256 nKey ++ [if fNew then 78 else 75] ++ WRITEDATA 4 nBucket
                           ++ ser_blob (GetKey (i_service i))) in
  hash1 mod ADDRMAN_BUCKET_SIZE.

Definition IsTerrible (nNow : Z) (i : CAddrInfo) : bool :=
  if negb (i_nLastTry i =? 0) && (nNow - 60 <=? i_nLastTry i) then false
  else if nNow + 10 * 60 <? i_nTime i then true
  else if (i_nTime i =? 0) || (ADDRMAN_HORIZON_DAYS * 24 * 60 * 60 <? nNow - i_nTime i) then true
  else if (nLastSuccess i =? 0) && (ADDRMAN_RETRIES <=? nAttempts i) then true
  else (ADDRMAN_MIN_FAIL_DAYS * 24 * 60 * 60 <? nNow - nLastSuccess i) && (ADDRMAN_MAX_FAILURES <=? nAttempts i).

(** The decimal constants are the doubles next to them; [pow] is the C library's. *)
Definition GetChance (pow : double → Z → double) (nNow : Z) (i : CAddrInfo) : double :=
  let nSinceLastTry := Z.max 0 (nNow - i_nLastTry i) in
  let fChance := d_of_Z 1 in
  let fChance := if nSinceLastTry <? 60 * 10 then d_mul fChance (d_div (d_of_Z 1) (d_of_Z 100)) else fChance in
  d_mul fChance (pow (d_div (d_of_Z 66) (d_of_Z 100)) (Z.min (nAttempts i) 8)).

(** ** CAddrMan *)

(** The tables are arrays of integers where -1 means empty; here a table holds the
    cells that are not empty. *)
Notation table := (gmap (Z * Z) Z).
Definition cell (vv : table) (nBucket nPos : Z) : Z := default (-1) (vv !! (nBucket, nPos)).
Definition set_cell (nBucket nPos v : Z) (vv : table) : table :=
  if v =? -1 then delete (nBucket, nPos) vv else <[(nBucket, nPos) := v]> vv.

Record CAddrMan := AddrMan {
  nKey : Z;
  nIdCount : Z;
  mapInfo : gmap Z CAddrInfo;
  mapAddr : gmap CNetAddr Z;
  vRandom : list Z;
  nTried : Z;
  vvTried : table;
  nNew : Z;
  vvNew : table
}.

Definition with_info (m : gmap Z CAddrInfo) (s : CAddrMan) : CAddrMan :=
  AddrMan (nKey s) (nIdCount s) m (mapAddr s) (vRandom s) (nTried s) (vvTried s) (nNew s) (vvNew s).
Definition with_random (v : list Z) (s : CAddrMan) : CAddrMan :=
  AddrMan (nKey s) (nIdCount s) (mapInfo s) (mapAddr s) v (nTried s) (vvTried s) (nNew s) (vvNew s).
Definition with_new (n : Z) (vv : table) (s : CAddrMan) : CAddrMan :=
  AddrMan (nKey s) (nIdCount s) (mapInfo s) (mapAddr s) (vRandom s) (nTried s) (vvTried s) n vv.
Definition with_tried (n : Z) (vv : table) (s : CAddrMan) : CAddrMan :=
  AddrMan (nKey s) (nIdCount s) (mapInfo s) (mapAddr s) (vRandom s) n vv (nNew s) (vvNew s).
Definition update_info (id : Z) (i : CAddrInfo) (s : CAddrMan) : CAddrMan := with_info (<[id := i]> (mapInfo s)) s.

(** [Clear], which the constructor and [Unserialize] call; it leaves the two maps. *)
Definition Clear (GetRandHash : Z) (s : CAddrMan) : CAddrMan :=
  AddrMan GetRandHash 0 (mapInfo s) (mapAddr s) [] 0 ∅ 0 ∅.
Definition CAddrMan_new (GetRandHash : Z) : CAddrMan := Clear GetRandHash (AddrMan 0 0 ∅ ∅ [] 0 ∅ 0 ∅).

Definition size (s : CAddrMan) : Z := Z.of_nat (length (vRandom s)).

(** A reference or pointer to an entry; it dangles when the entry is gone. *)
Definition deref {E} (id : Z) (s : CAddrMan) : outcome E CAddrInfo :=
  match mapInfo s !! id with Some i => Ok i | None => AssertFail end.

(** [mapInfo[id]], which adds an entry when there is none. *)
Definition map_at (id : Z) (s : CAddrMan) : CAddrInfo * CAddrMan :=
  match mapInfo s !! id with
  | Some i => (i, s)
  | None => (CAddrInfo_Init, update_info id CAddrInfo_Init s)
  end.

(** The identifier stands for the pointer that [Find] returns. *)
Definition Find (addr : CNetAddr) (s : CAddrMan) : option Z :=
  match mapAddr s !! addr with
  | Some nId => if decide (is_Some (mapInfo s !! nId)) then Some nId else None
  | None => None
  end.

(** Counting an identifier too many overflows an [int]. *)
Definition Create {E} (addr : CAddress) (addrSource : CNetAddr) (s : CAddrMan) : outcome E (Z * CAddrMan) :=
  let nId := nIdCount s in
  assert_that (nId <? INT32_MAX);;
  Ok (nId, AddrMan (nKey s) (nIdCount s + 1)
    (<[nId := set_pos (s32 (size s)) (CAddrInfo_of addr addrSource)]> (mapInfo s))
    (<[s_ip (a_service addr) := nId]> (mapAddr s)) (vRandom s ++ [nId]) (nTried s) (vvTried s) (nNew s) (vvNew s)).

Definition SwapRandom {E} (nRndPos1 nRndPos2 : Z) (s : CAddrMan) : outcome E CAddrMan :=
  if nRndPos1 =? nRndPos2 then Ok s
  else
    match vRandom s !! Z.to_nat nRndPos1, vRandom s !! Z.to_nat nRndPos2 with
    | Some nId1, Some nId2 =>
        match mapInfo s !! nId1, mapInfo s !! nId2 with
        | Some i1, Some _ =>
            let s := update_info nId1 (set_pos (s32 nRndPos2) i1) s in
            i2 ← deref nId2 s;
            let s := update_info nId2 (set_pos (s32 nRndPos1) i2) s in
            Ok (with_random (<[Z.to_nat nRndPos2 := nId1]> (<[Z.to_nat nRndPos1 := nId2]> (vRandom s))) s)
        | _, _ => AssertFail
        end
    | _, _ => AssertFail
    end.

Definition Delete {E} (nId : Z) (s : CAddrMan) : outcome E CAddrMan :=
  info ← deref nId s;
  assert_that (negb (fInTried info));;
  assert_that (nRefCount info =? 0);;
  s ← SwapRandom (u32 (nRandomPos info)) (u32 (size s - 1)) s;
  Ok (AddrMan (nKey s) (nIdCount s) (delete nId (mapInfo s)) (delete (i_ip info) (mapAddr s))
    (take (length (vRandom s) - 1) (vRandom s)) (nTried s) (vvTried s) (nNew s - 1) (vvNew s)).

Definition ClearNew {E} (nUBucket nUBucketPos : Z) (s : CAddrMan) : outcome E CAddrMan :=
  let nIdDelete := cell (vvNew s) nUBucket nUBucketPos in
  if nIdDelete =? -1 then Ok s
  else
    let '(infoDelete, s) := map_at nIdDelete s in
    assert_that (0 <? nRefCount infoDelete);;
    let infoDelete := set_refs (nRefCount infoDelete - 1) infoDelete in
    let s := with_new (nNew s) (set_cell nUBucket nUBucketPos (-1) (vvNew s)) (update_info nIdDelete infoDelete s) in
    if nRefCount infoDelete =? 0 then Delete nIdDelete s else Ok s.

(** The loop of [MakeTried] over the buckets that are left. *)
Fixpoint clear_buckets {E} (nId : Z) (buckets : list Z) (s : CAddrMan) : outcome E CAddrMan :=
  match buckets with
  | [] => Ok s
  | bucket :: buckets =>
      info ← deref nId s;
      let pos := GetBucketPosition (nKey s) true bucket info in
      if cell (vvNew s) bucket pos =? nId
      then clear_buckets nId buckets
             (with_new (nNew s) (set_cell bucket pos (-1) (vvNew s)) (update_info nId (set_refs (nRefCount info - 1) info) s))
      else clear_buckets nId buckets s
  end.

(** Making room: the tried entry in the cell goes back to a new bucket. *)
Definition evict_tried {E} (nKBucket nKBucketPos : Z) (s : CAddrMan) : outcome E CAddrMan :=
  let nIdEvict := cell (vvTried s) nKBucket nKBucketPos in
  if nIdEvict =? -1 then Ok s
  else
    infoOld ← deref nIdEvict s;
    let s := with_tried (nTried s - 1) (set_cell nKBucket nKBucketPos (-1) (vvTried s))
               (update_info nIdEvict (set_tried false infoOld) s) in
    let nUBucket := GetNewBucket (nKey s) (source infoOld) infoOld in
    let nUBucketPos := GetBucketPosition (nKey s) true nUBucket infoOld in
    s ← ClearNew nUBucket nUBucketPos s;
    assert_that (cell (vvNew s) nUBucket nUBucketPos =? -1);;
    infoOld ← deref nIdEvict s;
    Ok (with_new (nNew s + 1) (set_cell nUBucket nUBucketPos nIdEvict (vvNew s)) (update_info nIdEvict (set_refs 1 infoOld) s)).

Definition MakeTried {E} (nId : Z) (s : CAddrMan) : outcome E CAddrMan :=
  s ← clear_buckets nId (seqZ 0 ADDRMAN_NEW_BUCKET_COUNT) s;
  let s := with_new (nNew s - 1) (vvNew s) s in
  info ← deref nId s;
  assert_that (nRefCount info =? 0);;
  let nKBucket := GetTriedBucket (nKey s) info in
  let nKBucketPos := GetBucketPosition (nKey s) false nKBucket info in
  s ← evict_tried nKBucket nKBucketPos s;
  assert_that (cell (vvTried s) nKBucket nKBucketPos =? -1);;
  let s := with_tried (nTried s + 1) (set_cell nKBucket nKBucketPos nId (vvTried s)) s in
  info ← deref nId s;
  Ok (update_info nId (set_tried true info) s).

(** The search of [Good_] for a bucket that holds the entry. *)
Fixpoint find_new_bucket (nId nRnd : Z) (info : CAddrInfo) (ns : list Z) (s : CAddrMan) : option Z :=
  match ns with
  | [] => None
  | n :: ns =>
      let nB := u32 (n + nRnd) mod ADDRMAN_NEW_BUCKET_COUNT in
      if cell (vvNew s) nB (GetBucketPosition (nKey s) true nB info) =? nId then Some nB
      else find_new_bucket nId nRnd info ns s
  end.

(** The random numbers a call draws: the n-th, given its bound. *)
Definition draws : Type := nat → Z → Z.

Definition Good_ {E} (GetRandInt : draws) (addr : CService) (nTime : Z) (s : CAddrMan) : outcome E CAddrMan :=
  match Find (s_ip addr) s with
  | None => Ok s
  | Some nId =>
      info ← deref nId s;
      if bool_decide (i_service info ≠ addr) then Ok s
      else
        let info := set_attempts nTime nTime 0 info in
        let s := update_info nId info s in
        if fInTried info then Ok s
        else
          let nRnd := GetRandInt 0%nat ADDRMAN_NEW_BUCKET_COUNT in
          match find_new_bucket nId nRnd info (seqZ 0 ADDRMAN_NEW_BUCKET_COUNT) s with
          | None => Ok s
          | Some _ => MakeTried nId s
          end
  end.

(** [Add_] on an address that is known: the new entry, and whether another bucket
    may take it.  [nNow] is the adjusted time, read once. *)
Definition refresh (nNow : Z) (addr : CAddress) (nTimePenalty : Z) (info : CAddrInfo) : CAddrInfo :=
  let nTime := a_nTime addr in
  let fCurrentlyOnline := nNow - nTime <? 24 * 60 * 60 in
  let nUpdateInterval := if fCurrentlyOnline then 60 * 60 else 24 * 60 * 60 in
  let info :=
    if negb (nTime =? 0) && ((i_nTime info =? 0) || (i_nTime info <? nTime - nUpdateInterval - nTimePenalty))
    then set_nTime (u32 (Z.max 0 (nTime - nTimePenalty))) info else info in
  set_nServices (Z.lor (nServices (i_addr info)) (nServices addr)) info.
Definition may_add (GetRandInt : draws) (addr : CAddress) (info : CAddrInfo) : bool :=
  let nTime := a_nTime addr in
  if (nTime =? 0) || negb (i_nTime info =? 0) && (nTime <=? i_nTime info) then false
  else if fInTried info then false
  else if nRefCount info =? ADDRMAN_NEW_BUCKETS_PER_ADDRESS then false
  else
    let nFactor := 2 ^ nRefCount info in
    negb ((1 <? nFactor) && negb (GetRandInt 0%nat nFactor =? 0)).

(** The last part of [Add_]: into the new bucket that the source selects. *)
Definition add_to_new {E} (nNow : Z) (src : CNetAddr) (nId : Z) (s : CAddrMan) : outcome E CAddrMan :=
  pinfo ← deref nId s;
  let nUBucket := GetNewBucket (nKey s) src pinfo in
  let nUBucketPos := GetBucketPosition (nKey s) true nUBucket pinfo in
  let c := cell (vvNew s) nUBucket nUBucketPos in
  if c =? nId then Ok s
  else
    let '(fInsert, s) :=
      if c =? -1 then (true, s)
      else
        let '(infoExisting, s) := map_at c s in
        (IsTerrible nNow infoExisting || (1 <? nRefCount infoExisting) && (nRefCount pinfo =? 0), s) in
    if fInsert then
      s ← ClearNew nUBucket nUBucketPos s;
      pinfo ← deref nId s;
      Ok (with_new (nNew s) (set_cell nUBucket nUBucketPos nId (vvNew s)) (update_info nId (set_refs (nRefCount pinfo + 1) pinfo) s))
    else if nRefCount pinfo =? 0 then Delete nId s
    else Ok s.

Definition Add_ {E} (GetRandInt : draws) (nNow : Z) (addr : CAddress) (src : CNetAddr) (nTimePenalty : Z) (s : CAddrMan)
    : outcome E (bool * CAddrMan) :=
  if negb (IsRoutable (s_ip (a_service addr))) then Ok (false, s)
  else
    match Find (s_ip (a_service addr)) s with
    | Some nId =>
        info ← deref nId s;
        let info := refresh nNow addr nTimePenalty info in
        let s := update_info nId info s in
        if may_add GetRandInt addr info then s ← add_to_new nNow src nId s; Ok (false, s) else Ok (false, s)
    | None =>
        '(nId, s) ← Create addr src s;
        info ← deref nId s;
        let s := update_info nId (set_nTime (u32 (Z.max 0 (i_nTime info - nTimePenalty))) info) s in
        s ← add_to_new nNow src nId (with_new (nNew s + 1) (vvNew s) s);
        Ok (true, s)
    end.

(** [Add] of several addresses: each with draws of its own. *)
Fixpoint Add_all {E} (GetRandInt : nat → draws) (nNow : Z) (vAddr : list CAddress) (src : CNetAddr) (nTimePenalty nAdd : Z)
    (s : CAddrMan) : outcome E (Z * CAddrMan) :=
  match vAddr with
  | [] => Ok (nAdd, s)
  | addr :: vAddr =>
      '(b, s) ← Add_ (GetRandInt O) nNow addr src nTimePenalty s;
      Add_all (λ n, GetRandInt (S n)) nNow vAddr src nTimePenalty (nAdd + Z.b2z b) s
  end.
Definition Add {E} (GetRandInt : nat → draws) (nNow : Z) (vAddr : list CAddress) (src : CNetAddr) (nTimePenalty : Z)
    (s : CAddrMan) : outcome E (bool * CAddrMan) :=
  '(nAdd, s) ← Add_all GetRandInt nNow vAddr src nTimePenalty 0 s; Ok (0 <? nAdd, s).

(** The entry that [Attempt_] and [Connected_] change: it must be the same service. *)
Definition find_service (addr : CService) (s : CAddrMan) : option (Z * CAddrInfo) :=
  match Find (s_ip addr) s with
  | None => None
  | Some nId =>
      match mapInfo s !! nId with
      | Some info => if bool_decide (i_service info ≠ addr) then None else Some (nId, info)
      | None => None
      end
  end.

Definition Attempt_ {E} (addr : CService) (nTime : Z) (s : CAddrMan) : outcome E CAddrMan :=
  match find_service addr s with
  | None => Ok s
  | Some (nId, info) =>
      assert_that (nAttempts info <? INT32_MAX);;
      Ok (update_info nId (set_attempts (nLastSuccess info) nTime (nAttempts info + 1) info) s)
  end.

Definition Connected_ (addr : CService) (nTime : Z) (s : CAddrMan) : CAddrMan :=
  match find_service addr s with
  | None => s
  | Some (nId, info) =>
      if 20 * 60 <? nTime - i_nTime info then update_info nId (set_nTime (u32 nTime) info) s else s
  end.

(** One of the two loops of [Select_]: [k] counts the draws. *)
Fixpoint select_loop {E : Type} (fuel : nat) (pow : double → Z → double) (GetRandInt : draws) (k : nat) (nNow nBuckets : Z)
    (vv : table) (fChanceFactor : double) (s : CAddrMan) : outcome E CAddress :=
  match fuel with
  | O => OutOfFuel
  | S fuel =>
      let nBucket := GetRandInt k nBuckets in
      let nBucketPos := GetRandInt (S k) ADDRMAN_BUCKET_SIZE in
      let nId := cell vv nBucket nBucketPos in
      if nId =? -1 then select_loop fuel pow GetRandInt (S (S k)) nNow nBuckets vv fChanceFactor s
      else
        info ← deref nId s;
        if d_lt (d_of_Z (GetRandInt (S (S k)) (2 ^ 30)))
             (d_mul (d_mul fChanceFactor (GetChance pow nNow info)) (d_of_Z (2 ^ 30)))
        then Ok (i_addr info)
        else select_loop fuel pow GetRandInt (S (S (S k))) nNow nBuckets vv
               (d_mul fChanceFactor (d_div (d_of_Z 12) (d_of_Z 10))) s
  end.
Definition Select_ {E} (fuel : nat) (pow : double → Z → double) (GetRandInt : draws) (nNow : Z) (s : CAddrMan)
    : outcome E CAddress :=
  if size s =? 0 then Ok CAddress_Init
  else if (0 <? nTried s) && ((nNew s =? 0) || (GetRandInt 0%nat 2 =? 0))
  then select_loop fuel pow GetRandInt 1 nNow ADDRMAN_TRIED_BUCKET_COUNT (vvTried s) (d_of_Z 1) s
  else select_loop fuel pow GetRandInt 1 nNow ADDRMAN_NEW_BUCKET_COUNT (vvNew s) (d_of_Z 1) s.

(** The loop of [GetAddr_] from position [n] on; [fuel] is what is left of the vector. *)
Fixpoint getaddr_loop {E} (fuel : nat) (GetRandInt : draws) (nNow nNodes : Z) (n : nat) (vAddr : list CAddress) (s : CAddrMan)
    : outcome E (list CAddress * CAddrMan) :=
  match fuel with
  | O => Ok (vAddr, s)
  | S fuel =>
      if nNodes <=? Z.of_nat (length vAddr) then Ok (vAddr, s)
      else
        let nRndPos := GetRandInt n (size s - Z.of_nat n) + Z.of_nat n in
        s ← SwapRandom (Z.of_nat n) nRndPos s;
        match vRandom s !! n with
        | None => AssertFail
        | Some nId =>
            ai ← deref nId s;
            getaddr_loop fuel GetRandInt nNow nNodes (S n) (if IsTerrible nNow ai then vAddr else vAddr ++ [i_addr ai]) s
        end
  end.
Definition GetAddr_ {E} (GetRandInt : draws) (nNow : Z) (vAddr : list CAddress) (s : CAddrMan)
    : outcome E (list CAddress * CAddrMan) :=
  let nNodes := Z.min (u32 (ADDRMAN_GETADDR_MAX_PCT * size s / 100)) ADDRMAN_GETADDR_MAX in
  getaddr_loop (length (vRandom s)) GetRandInt nNow nNodes 0 vAddr s.

(** ** Check_ *)

(** The loop over the entries: the first error, or the identifiers in tried and the
    reference counts of the others. *)
Fixpoint check_infos (l : list (Z * CAddrInfo)) (s : CAddrMan) (setTried : gset Z) (mapNew : gmap Z Z)
    : Z + gset Z * gmap Z Z :=
  match l with
  | [] => inr (setTried, mapNew)
  | (n, info) :: l =>
      if fInTried info && (nLastSuccess info =? 0) then inl (-1)
      else if fInTried info && negb (nRefCount info =? 0) then inl (-2)
      else if negb (fInTried info) && ((nRefCount info <? 0) || (ADDRMAN_NEW_BUCKETS_PER_ADDRESS <? nRefCount info)) then inl (-3)
      else if negb (fInTried info) && (nRefCount info =? 0) then inl (-4)
      else if negb (default 0 (mapAddr s !! i_ip info) =? n) then inl (-5)
      else if (nRandomPos info <? 0) || (size s <=? nRandomPos info)
              || bool_decide (vRandom s !! Z.to_nat (nRandomPos info) ≠ Some n) then inl (-14)
      else if i_nLastTry info <? 0 then inl (-6)
      else if nLastSuccess info <? 0 then inl (-8)
      else if fInTried info then check_infos l s ({[n]} ∪ setTried) mapNew
      else check_infos l s setTried (<[n := nRefCount info]> mapNew)
  end.

(** All cells of a table, bucket by bucket. *)
Definition all_cells (nBuckets : Z) : list (Z * Z) :=
  n ← seqZ 0 nBuckets; i ← seqZ 0 ADDRMAN_BUCKET_SIZE; [(n, i)].

Fixpoint check_tried (l : list (Z * Z)) (s : CAddrMan) (setTried : gset Z) : Z + gset Z :=
  match l with
  | [] => inr setTried
  | (n, i) :: l =>
      let c := cell (vvTried s) n i in
      if c =? -1 then check_tried l s setTried
      else if negb (bool_decide (c ∈ setTried)) then inl (-11)
      else
        let info := (map_at c s).1 in
        if negb (GetTriedBucket (nKey s) info =? n) then inl (-17)
        else if negb (GetBucketPosition (nKey s) false n info =? i) then inl (-18)
        else check_tried l s (setTried ∖ {[c]})
  end.

Fixpoint check_new (l : list (Z * Z)) (s : CAddrMan) (mapNew : gmap Z Z) : Z + gmap Z Z :=
  match l with
  | [] => inr mapNew
  | (n, i) :: l =>
      let c := cell (vvNew s) n i in
      if c =? -1 then check_new l s mapNew
      else
        match mapNew !! c with
        | None => inl (-12)
        | Some r =>
            if negb (GetBucketPosition (nKey s) true n (map_at c s).1 =? i) then inl (-19)
            else check_new l s (if r - 1 =? 0 then delete c mapNew else <[c := r - 1]> mapNew)
        end
  end.

(** The result is the error code, 0 for none.  (An entry whose address is not in
    [mapAddr] would be added there with identifier 0, which the lookup stands for.) *)
Definition Check_ (s : CAddrMan) : Z :=
  if negb (size s =? nTried s + nNew s) then -7
  else
    match check_infos (map_to_list (mapInfo s)) s ∅ ∅ with
    | inl e => e
    | inr (setTried, mapNew) =>
        if negb (Z.of_nat (base.size setTried) =? nTried s) then -9
        else if negb (Z.of_nat (base.size mapNew) =? nNew s) then -10
        else
          match check_tried (all_cells ADDRMAN_TRIED_BUCKET_COUNT) s setTried with
          | inl e => e
          | inr setTried =>
              match check_new (all_cells ADDRMAN_NEW_BUCKET_COUNT) s mapNew with
              | inl e => e
              | inr mapNew =>
                  if negb (bool_decide (setTried = ∅)) then -13
                  else if negb (bool_decide (mapNew = ∅)) then -15
                  else if nKey s =? 0 then -16
                  else 0
              end
          end
    end.

(** ** Counting the values of a map *)

Section Count.
Context {K V : Type} `{Countable K}.
Implicit Types (m : gmap K V) (P : V → bool).

Definition count P m : Z := Z.of_nat (base.size (filter (λ kv, P kv.2 = true) m)).

Lemma count_nonneg P m : 0 ≤ count P m.
Proof. unfold count. lia. Qed.
Lemma count_empty P : count P ∅ = 0.
Proof. unfold count. by rewrite map_filter_empty, map_size_empty. Qed.

Lemma count_insert_new P m k v : m !! k = None → count P (<[k := v]> m) = count P m + Z.b2z (P v).
Proof.
  intros Hk. unfold count. destruct (P v) eqn:E.
  - rewrite map_filter_insert_True by done. rewrite map_size_insert_None by (apply map_lookup_filter_None; by left).
    cbn [Z.b2z]. lia.
  - rewrite map_filter_insert_False by (cbn; congruence). rewrite delete_id by done. cbn [Z.b2z]. lia.
Qed.

Lemma count_delete P m k v : m !! k = Some v → count P (delete k m) = count P m - Z.b2z (P v).
Proof.
  intros Hk. rewrite <- (insert_delete_id m k v Hk) at 2. rewrite count_insert_new by apply lookup_delete_eq. lia.
Qed.

Lemma count_insert P m k v v' : m !! k = Some v → count P (<[k := v']> m) = count P m - Z.b2z (P v) + Z.b2z (P v').
Proof.
  intros Hk. rewrite <- insert_delete_eq, count_insert_new by apply lookup_delete_eq. by rewrite (count_delete P m k v Hk).
Qed.

Lemma count_pos P m k v : m !! k = Some v → P v = true → 0 < count P m.
Proof.
  intros Hk Hv. pose proof (count_delete P m k v Hk) as E. pose proof (count_nonneg P (delete k m)). rewrite Hv in E. cbn in E. lia.
Qed.
Lemma count_ex P m : 0 < count P m → ∃ k v, m !! k = Some v ∧ P v = true.
Proof.
  unfold count. intros Hc. destruct (map_choose (filter (λ kv, P kv.2 = true) m)) as (k & v & Hkv).
  { intros E. rewrite E, map_size_empty in Hc. lia. }
  apply map_lookup_filter_Some in Hkv as [? ?]. eauto.
Qed.
Lemma count_zero P m : (∀ k v, m !! k = Some v → P v = false) → count P m = 0.
Proof.
  intros Hf. pose proof (count_nonneg P m). destruct (Z.eq_dec (count P m) 0) as [|Hne]; [done|].
  destruct (count_ex P m) as (k & v & Hk & Hv); [lia|]. by rewrite (Hf k v Hk) in Hv.
Qed.
Lemma count_compl P m : count P m + count (λ v, negb (P v)) m = Z.of_nat (base.size m).
Proof.
  induction m as [|k v m Hk IH] using map_ind.
  - by rewrite !count_empty, map_size_empty.
  - rewrite !count_insert_new, map_size_insert_None by done. destruct (P v); cbn [negb Z.b2z]; lia.
Qed.
End Count.

Lemma count_fmap {K V W} `{Countable K} (f : V → W) (P : W → bool) (m : gmap K V) :
  count P (f <$> m) = count (λ v, P (f v)) m.
Proof.
  induction m as [|k v m Hk IH] using map_ind.
  - by rewrite fmap_empty, !count_empty.
  - rewrite fmap_insert, !count_insert_new by (rewrite ?lookup_fmap, ?Hk; done). by rewrite IH.
Qed.

(** Changing a value in a way a projection does not see. *)
Lemma fmap_insert_same {K V W} `{Countable K} (f : V → W) (m : gmap K V) k v v' :
  m !! k = Some v → f v' = f v → f <$> <[k := v']> m = f <$> m.
Proof. intros Hk Hf. rewrite fmap_insert, Hf. apply insert_id. by rewrite lookup_fmap, Hk. Qed.

(** ** What the parts of the state promise each other *)

(** [vRandom] lists the identifiers, each at the position its entry has. *)
Definition random_ok (pos : gmap Z Z) (v : list Z) : Prop :=
  ∀ id p, pos !! id = Some p ↔ 0 ≤ p ∧ v !! Z.to_nat p = Some id.
(** [mapAddr] is the inverse of the entries' addresses. *)
Definition addr_ok (ips : gmap Z CNetAddr) (ma : gmap CNetAddr Z) : Prop :=
  ∀ id a, ips !! id = Some a ↔ ma !! a = Some id.

Lemma random_ok_push pos v id :
  random_ok pos v → pos !! id = None → random_ok (<[id := Z.of_nat (length v)]> pos) (v ++ [id]).
Proof.
  intros H Hn id' p. destruct (decide (id = id')) as [<-|Hne].
  - rewrite lookup_insert_eq. split; [intros [= <-]|intros [Hp Hv]].
    + split; [lia|]. by rewrite Nat2Z.id, lookup_app_r, Nat.sub_diag by lia.
    + destruct (decide (Z.to_nat p < length v)%nat) as [Hlt|Hge].
      * rewrite lookup_app_l in Hv by done. apply (conj Hp), H in Hv. congruence.
      * pose proof (lookup_lt_Some _ _ _ Hv) as Hl. rewrite length_app in Hl. cbn in Hl. f_equal. lia.
  - rewrite lookup_insert_ne, (H id' p) by done. split; intros [Hp Hv]; (split; [done|]).
    + rewrite lookup_app_l; [done|]. by eapply lookup_lt_Some.
    + destruct (decide (Z.to_nat p < length v)%nat) as [Hlt|Hge]; [by rewrite lookup_app_l in Hv|].
      rewrite lookup_app_r in Hv by lia. apply list_lookup_singleton_Some in Hv as [_ ?]. congruence.
Qed.

Lemma random_ok_pop pos v id : random_ok pos (v ++ [id]) → random_ok (delete id pos) v.
Proof.
  intros H id' p. assert (pos !! id = Some (Z.of_nat (length v))) as Hid.
  { apply H. split; [lia|]. by rewrite Nat2Z.id, lookup_app_r, Nat.sub_diag by lia. }
  destruct (decide (id = id')) as [<-|Hne].
  - rewrite lookup_delete_eq. split; [done|]. intros [Hp Hv]. pose proof (lookup_lt_Some _ _ _ Hv).
    assert (pos !! id = Some p) as Hp' by (apply H; split; [done|by apply lookup_app_l_Some]). rewrite Hid in Hp'.
    injection Hp' as <-. lia.
  - rewrite lookup_delete_ne, (H id' p) by done. split; intros [Hp Hv]; (split; [done|]).
    + apply lookup_app_Some in Hv as [|[? Hv]]; [done|]. apply list_lookup_singleton_Some in Hv as [_ ?]. congruence.
    + by apply lookup_app_l_Some.
Qed.

Lemma random_ok_inj pos v i j id : random_ok pos v → v !! i = Some id → v !! j = Some id → i = j.
Proof.
  intros H Hi Hj. assert (pos !! id = Some (Z.of_nat i)) by (apply H; by rewrite Nat2Z.id; split; [lia|]).
  assert (pos !! id = Some (Z.of_nat j)) by (apply H; by rewrite Nat2Z.id; split; [lia|]). simplify_eq. lia.
Qed.

Lemma random_ok_swap pos v i j a b :
  random_ok pos v → v !! i = Some a → v !! j = Some b → i ≠ j →
  random_ok (<[b := Z.of_nat i]> (<[a := Z.of_nat j]> pos)) (<[j := a]> (<[i := b]> v)).
Proof.
  intros H Hi Hj Hij. assert (a ≠ b) as Hab by (intros ->; by apply Hij, (random_ok_inj pos v _ _ b)).
  pose proof (lookup_lt_Some _ _ _ Hi). pose proof (lookup_lt_Some _ _ _ Hj).
  assert (∀ n, <[j := a]> (<[i := b]> v) !! n = if decide (n = j) then Some a else if decide (n = i) then Some b else v !! n) as Hv.
  { intros n. case_decide as E1; [subst; by rewrite list_lookup_insert_eq by (rewrite length_insert; lia)|].
    rewrite list_lookup_insert_ne by done. case_decide as E2; [subst; by rewrite list_lookup_insert_eq by lia|].
    by rewrite list_lookup_insert_ne by done. }
  intros id p. rewrite Hv. destruct (decide (id = b)) as [->|Hb]; [|destruct (decide (id = a)) as [->|Ha]].
  - rewrite lookup_insert_eq. split; [intros [= <-]|].
    + rewrite Nat2Z.id, decide_False, decide_True by done. split; [lia|done].
    + intros [Hp E]. destruct (decide (Z.to_nat p = j)) as [|Hn]; [simplify_eq|].
      destruct (decide (Z.to_nat p = i)); [f_equal; lia|]. exfalso. by apply Hn, (random_ok_inj pos v _ _ b H).
  - rewrite lookup_insert_ne, lookup_insert_eq by done. split; [intros [= <-]|].
    + rewrite Nat2Z.id, decide_True by done. split; [lia|done].
    + intros [Hp E]. destruct (decide (Z.to_nat p = j)); [f_equal; lia|].
      destruct (decide (Z.to_nat p = i)) as [|Hn]; [simplify_eq|].
      exfalso. by apply Hn, (random_ok_inj pos v _ _ a H).
  - rewrite !lookup_insert_ne, (H id p) by done. split; intros [Hp E]; (split; [done|]).
    + rewrite decide_False, decide_False by (intros E'; rewrite E' in E; congruence). done.
    + destruct (decide (Z.to_nat p = j)), (decide (Z.to_nat p = i)); congruence.
Qed.

Lemma addr_ok_insert ips ma id a :
  addr_ok ips ma → ips !! id = None → ma !! a = None → addr_ok (<[id := a]> ips) (<[a := id]> ma).
Proof.
  intros H Hi Ha id' a'. destruct (decide (id = id')) as [<-|Hn], (decide (a = a')) as [<-|Ha'];
    rewrite ?lookup_insert_eq, ?lookup_insert_ne by done.
  - done.
  - rewrite <- (H id a'), Hi. split; congruence.
  - rewrite (H id' a), Ha. split; congruence.
  - apply H.
Qed.
Lemma addr_ok_delete ips ma id a : addr_ok ips ma → ips !! id = Some a → addr_ok (delete id ips) (delete a ma).
Proof.
  intros H Hi id' a'. pose proof (proj1 (H id a) Hi).
  destruct (decide (id = id')) as [<-|Hn], (decide (a = a')) as [<-|Ha'];
    rewrite ?lookup_delete_eq, ?lookup_delete_ne by done.
  - done.
  - rewrite <- (H id a'), Hi. split; congruence.
  - rewrite (H id' a). split; congruence.
  - apply H.
Qed.

(** What the tables depend on: the service, whether it is in tried, and the references. *)
Notation core := (CService * bool * Z)%type.
Definition i_core (i : CAddrInfo) : core := (i_service i, fInTried i, nRefCount i).
Definition service_info (a : CService) : CAddrInfo := CAddrInfo_of (CAddress_of a 0) [].
Definition tried_bucket (k : Z) (a : CService) : Z := GetTriedBucket k (service_info a).
Definition bucket_pos (k : Z) (fNew : bool) (b : Z) (a : CService) : Z := GetBucketPosition k fNew b (service_info a).

Lemma GetTriedBucket_service k i : GetTriedBucket k i = tried_bucket k (i_service i).
Proof. reflexivity. Qed.
Lemma GetBucketPosition_service k f b i : GetBucketPosition k f b i = bucket_pos k f b (i_service i).
Proof. reflexivity. Qed.
Lemma tried_bucket_range k a : 0 ≤ tried_bucket k a < ADDRMAN_TRIED_BUCKET_COUNT.
Proof. unfold tried_bucket, GetTriedBucket. apply Z.mod_pos_bound. unfold ADDRMAN_TRIED_BUCKET_COUNT. lia. Qed.
Lemma bucket_pos_range k f b a : 0 ≤ bucket_pos k f b a < ADDRMAN_BUCKET_SIZE.
Proof. unfold bucket_pos, GetBucketPosition. apply Z.mod_pos_bound. unfold ADDRMAN_BUCKET_SIZE. lia. Qed.
Lemma GetNewBucket_range k src i : 0 ≤ GetNewBucket k src i < ADDRMAN_NEW_BUCKET_COUNT.
Proof. unfold GetNewBucket. apply Z.mod_pos_bound. unfold ADDRMAN_NEW_BUCKET_COUNT. lia. Qed.

#[local] Opaque tried_bucket bucket_pos GetNewBucket GetTriedBucket GetBucketPosition.

(** The tables agree with the entries, except that the entries of [X] may be in no
    bucket for the moment. *)
Record tables_ok (k : Z) (X : gset Z) (c : gmap Z core) (vn vt : table) : Prop := {
  t_new b p id : vn !! (b, p) = Some id →
    0 ≤ b < ADDRMAN_NEW_BUCKET_COUNT ∧ ∃ a r, c !! id = Some (a, false, r) ∧ p = bucket_pos k true b a;
  t_refs id a t r : c !! id = Some (a, t, r) → r = count (λ v, v =? id) vn;
  t_float id a r : c !! id = Some (a, false, r) → id ∉ X → 0 < r;
  t_max id a t r : c !! id = Some (a, t, r) → r ≤ ADDRMAN_NEW_BUCKETS_PER_ADDRESS;
  t_tried b p id : vt !! (b, p) = Some id →
    ∃ a r, c !! id = Some (a, true, r) ∧ b = tried_bucket k a ∧ p = bucket_pos k false b a;
  t_intried id a r : c !! id = Some (a, true, r) →
    vt !! (tried_bucket k a, bucket_pos k false (tried_bucket k a) a) = Some id;
  t_ids id x : c !! id = Some x → 0 ≤ id
}.

Lemma tables_mono k X Y c vn vt : X ⊆ Y → tables_ok k X c vn vt → tables_ok k Y c vn vt.
Proof. intros HXY [H1 H2 H3 H4 H5 H6 H7]. split; try done. intros id a r Hc Hn. apply (H3 id a r Hc). set_solver. Qed.

(** An entry in tried, or with a reference, need not be excepted. *)
Lemma tables_settle k X c vn vt id a t r :
  tables_ok k X c vn vt → c !! id = Some (a, t, r) → t = true ∨ 0 < r → tables_ok k (X ∖ {[id]}) c vn vt.
Proof.
  intros [H1 H2 H3 H4 H5 H6 H7] Hid Ht. split; try done. intros id' a' r' Hc Hn.
  destruct (decide (id' = id)) as [->|]; [|by apply (H3 id' a' r' Hc); set_solver].
  rewrite Hid in Hc. simplify_eq. by destruct Ht.
Qed.

Section Tables.
Context (k : Z) (X : gset Z) (c : gmap Z core) (vn vt : table).
Hypothesis H : tables_ok k X c vn vt.

Lemma refs_nonneg id a t r : c !! id = Some (a, t, r) → 0 ≤ r.
Proof. intros Hc. rewrite (t_refs _ _ _ _ _ H _ _ _ _ Hc). apply count_nonneg. Qed.

Lemma no_cell id a t : c !! id = Some (a, t, 0) → ∀ q, vn !! q ≠ Some id.
Proof.
  intros Hc q Hq. pose proof (t_refs _ _ _ _ _ H _ _ _ _ Hc) as E.
  pose proof (count_pos (λ v, v =? id) vn q id Hq (Z.eqb_refl id)). lia.
Qed.

Lemma tried_refs id a r : c !! id = Some (a, true, r) → r = 0.
Proof.
  intros Hc. rewrite (t_refs _ _ _ _ _ H _ _ _ _ Hc). apply count_zero. intros [b p] v Hv.
  apply (t_new _ _ _ _ _ H) in Hv as [_ (a' & r' & Hv & _)]. apply Z.eqb_neq. intros ->. congruence.
Qed.

Lemma tables_clear b p id a t r :
  vn !! (b, p) = Some id → c !! id = Some (a, t, r) →
  t = false ∧ 0 < r ∧ tables_ok k ({[id]} ∪ X) (<[id := (a, t, r - 1)]> c) (delete (b, p) vn) vt.
Proof.
  intros Hb Hid. destruct (t_new _ _ _ _ _ H _ _ _ Hb) as [_ (a' & r' & Hid' & _)].
  rewrite Hid in Hid'. simplify_eq.
  pose proof (t_refs _ _ _ _ _ H _ _ _ _ Hid) as Er.
  pose proof (count_pos (λ v, v =? id) vn (b, p) id Hb (Z.eqb_refl id)).
  split; [done|]. split; [lia|]. destruct H as [H1 H2 H3 H4 H5 H6 H7]. split.
  - intros b1 p1 id1 [Hne Hv]%lookup_delete_Some. apply H1 in Hv as [? (a1 & r1 & Hv & ->)]. split; [done|].
    destruct (decide (id = id1)) as [<-|]; [|rewrite lookup_insert_ne by done; by eauto].
    rewrite lookup_insert_eq. rewrite Hid in Hv. simplify_eq. by eauto.
  - intros id1 a1 t1 r1 Hv. rewrite (count_delete _ vn (b, p) id Hb).
    destruct (decide (id = id1)) as [<-|Hne].
    + rewrite lookup_insert_eq in Hv. simplify_eq. rewrite Z.eqb_refl. cbn [Z.b2z]. lia.
    + rewrite lookup_insert_ne in Hv by done. apply H2 in Hv. apply Z.eqb_neq in Hne. rewrite Hne. cbn [Z.b2z]. lia.
  - intros id1 a1 r1 Hv Hn. rewrite lookup_insert_ne in Hv by set_solver. apply (H3 id1 a1 r1 Hv). set_solver.
  - intros id1 a1 t1 r1 Hv. apply lookup_insert_Some in Hv as [[<- [= <- <- <-]]|[_ Hv]]; [|by eapply H4].
    apply H4 in Hid. lia.
  - intros b1 p1 id1 Hv. apply H5 in Hv as (a1 & r1 & Hv & ?). rewrite lookup_insert_ne by congruence. by eauto.
  - intros id1 a1 r1 Hv. apply lookup_insert_Some in Hv as [[<- ?]|[_ Hv]]; [simplify_eq|by eapply H6].
  - intros id1 x Hv. apply lookup_insert_Some in Hv as [[<- _]|[_ Hv]]; by eapply H7.
Qed.

Lemma tables_enter b p id a r :
  vn !! (b, p) = None → c !! id = Some (a, false, r) → r < ADDRMAN_NEW_BUCKETS_PER_ADDRESS →
  0 ≤ b < ADDRMAN_NEW_BUCKET_COUNT → p = bucket_pos k true b a →
  tables_ok k (X ∖ {[id]}) (<[id := (a, false, r + 1)]> c) (<[(b, p) := id]> vn) vt.
Proof.
  intros Hb Hid Hr Hbr Hp. pose proof (refs_nonneg _ _ _ _ Hid). destruct H as [H1 H2 H3 H4 H5 H6 H7]. split.
  - intros b1 p1 id1 Hv. apply lookup_insert_Some in Hv as [[E <-]|[_ Hv]].
    + simplify_eq. split; [done|]. rewrite lookup_insert_eq. eauto.
    + apply H1 in Hv as [? (a1 & r1 & Hv & ->)]. split; [done|].
      destruct (decide (id = id1)) as [<-|]; [|rewrite lookup_insert_ne by done; by eauto].
      rewrite lookup_insert_eq. rewrite Hid in Hv. simplify_eq. by eauto.
  - intros id1 a1 t1 r1 Hv. rewrite (count_insert_new _ vn (b, p) id Hb).
    destruct (decide (id = id1)) as [<-|Hne].
    + rewrite lookup_insert_eq in Hv. simplify_eq. apply H2 in Hid. rewrite Z.eqb_refl. cbn [Z.b2z]. lia.
    + rewrite lookup_insert_ne in Hv by done. apply H2 in Hv. apply Z.eqb_neq in Hne. rewrite Hne. cbn [Z.b2z]. lia.
  - intros id1 a1 r1 Hv Hn. apply lookup_insert_Some in Hv as [[<- ?]|[Hne Hv]]; [simplify_eq; lia|].
    apply (H3 id1 a1 r1 Hv). set_solver.
  - intros id1 a1 t1 r1 Hv. apply lookup_insert_Some in Hv as [[<- [= <- <- <-]]|[_ Hv]]; [lia|by eapply H4].
  - intros b1 p1 id1 Hv. apply H5 in Hv as (a1 & r1 & Hv & ?). rewrite lookup_insert_ne by congruence. by eauto.
  - intros id1 a1 r1 Hv. apply lookup_insert_Some in Hv as [[<- ?]|[_ Hv]]; [simplify_eq|by eapply H6].
  - intros id1 x Hv. apply lookup_insert_Some in Hv as [[<- _]|[_ Hv]]; by eapply H7.
Qed.

Lemma tables_remove id a : c !! id = Some (a, false, 0) → tables_ok k (X ∖ {[id]}) (delete id c) vn vt.
Proof.
  intros Hid. pose proof (no_cell _ _ _ Hid) as Hno. destruct H as [H1 H2 H3 H4 H5 H6 H7]. split.
  - intros b1 p1 id1 Hv. destruct (decide (id = id1)) as [<-|]; [by apply Hno in Hv|].
    rewrite lookup_delete_ne by done. by apply H1.
  - intros id1 a1 t1 r1 [_ Hv]%lookup_delete_Some. by eapply H2.
  - intros id1 a1 r1 [Hne Hv]%lookup_delete_Some Hn. apply (H3 id1 a1 r1 Hv). set_solver.
  - intros id1 a1 t1 r1 [_ Hv]%lookup_delete_Some. by eapply H4.
  - intros b1 p1 id1 Hv. apply H5 in Hv as (a1 & r1 & Hv & ?). rewrite lookup_delete_ne by congruence. by eauto.
  - intros id1 a1 r1 [_ Hv]%lookup_delete_Some. by eapply H6.
  - intros id1 x [_ Hv]%lookup_delete_Some. by eapply H7.
Qed.

Lemma tables_untry b p id a r :
  vt !! (b, p) = Some id → c !! id = Some (a, true, r) →
  tables_ok k ({[id]} ∪ X) (<[id := (a, false, r)]> c) vn (delete (b, p) vt).
Proof.
  intros Hb Hid. destruct (t_tried _ _ _ _ _ H _ _ _ Hb) as (a0 & r0 & Hid0 & -> & ->). rewrite Hid in Hid0. simplify_eq.
  assert (r0 = 0) as -> by (by eapply tried_refs). pose proof (no_cell id a0 true Hid) as Hno.
  destruct H as [H1 H2 H3 H4 H5 H6 H7]. split.
  - intros b1 p1 id1 Hv. destruct (decide (id = id1)) as [<-|]; [by apply Hno in Hv|]. rewrite lookup_insert_ne by done. by apply H1.
  - intros id1 a1 t1 r1 Hv. apply lookup_insert_Some in Hv as [[<- [= <- <- <-]]|[_ Hv]]; by eapply H2.
  - intros id1 a1 r1 Hv Hn. rewrite lookup_insert_ne in Hv by set_solver. apply (H3 id1 a1 r1 Hv). set_solver.
  - intros id1 a1 t1 r1 Hv. apply lookup_insert_Some in Hv as [[<- [= <- <- <-]]|[_ Hv]]; by eapply H4.
  - intros b1 p1 id1 [Hne Hv]%lookup_delete_Some. apply H5 in Hv as (a1 & r1 & Hv & -> & ->).
    destruct (decide (id = id1)) as [<-|]; [rewrite Hid in Hv; by simplify_eq|]. rewrite lookup_insert_ne by done. eauto.
  - intros id1 a1 r1 Hv. apply lookup_insert_Some in Hv as [[<- ?]|[Hne Hv]]; [simplify_eq|].
    pose proof (H6 _ _ _ Hv) as E. rewrite lookup_delete_ne; [done|]. intros Eq. rewrite <- Eq, Hb in E. by simplify_eq.
  - intros id1 x Hv. apply lookup_insert_Some in Hv as [[<- _]|[_ Hv]]; by eapply H7.
Qed.

Lemma tables_try id a :
  c !! id = Some (a, false, 0) → vt !! (tried_bucket k a, bucket_pos k false (tried_bucket k a) a) = None →
  tables_ok k (X ∖ {[id]}) (<[id := (a, true, 0)]> c) vn (<[(tried_bucket k a, bucket_pos k false (tried_bucket k a) a) := id]> vt).
Proof.
  intros Hid Hb. pose proof (no_cell _ _ _ Hid) as Hno. destruct H as [H1 H2 H3 H4 H5 H6 H7]. split.
  - intros b1 p1 id1 Hv. destruct (decide (id = id1)) as [<-|]; [by apply Hno in Hv|]. rewrite lookup_insert_ne by done. by apply H1.
  - intros id1 a1 t1 r1 Hv. apply lookup_insert_Some in Hv as [[<- [= <- <- <-]]|[_ Hv]]; by eapply H2.
  - intros id1 a1 r1 Hv Hn. apply lookup_insert_Some in Hv as [[<- ?]|[Hne Hv]]; [simplify_eq|].
    apply (H3 id1 a1 r1 Hv). set_solver.
  - intros id1 a1 t1 r1 Hv. apply lookup_insert_Some in Hv as [[<- [= <- <- <-]]|[_ Hv]]; by eapply H4.
  - intros b1 p1 id1 Hv. apply lookup_insert_Some in Hv as [[E <-]|[_ Hv]].
    + simplify_eq. exists a, 0. by rewrite lookup_insert_eq.
    + apply H5 in Hv as (a1 & r1 & Hv & ?). rewrite lookup_insert_ne by congruence. eauto.
  - intros id1 a1 r1 Hv. apply lookup_insert_Some in Hv as [[<- [= <- <-]]|[Hne Hv]]; [apply lookup_insert_eq|].
    pose proof (H6 _ _ _ Hv) as E. rewrite lookup_insert_ne; [done|]. intros Eq. congruence.
  - intros id1 x Hv. apply lookup_insert_Some in Hv as [[<- _]|[_ Hv]]; by eapply H7.
Qed.

Lemma tables_add id a : c !! id = None → 0 ≤ id → tables_ok k ({[id]} ∪ X) (<[id := (a, false, 0)]> c) vn vt.
Proof.
  intros Hid Hpos. destruct H as [H1 H2 H3 H4 H5 H6 H7]. split.
  - intros b1 p1 id1 Hv. apply H1 in Hv as [? (a1 & r1 & Hv & ->)]. rewrite lookup_insert_ne by congruence. eauto.
  - intros id1 a1 t1 r1 Hv. apply lookup_insert_Some in Hv as [[<- [= <- <- <-]]|[_ Hv]]; [|by eapply H2].
    symmetry. apply count_zero. intros [b p] v Hv. apply H1 in Hv as [_ (? & ? & Hv & _)]. apply Z.eqb_neq. congruence.
  - intros id1 a1 r1 Hv Hn. rewrite lookup_insert_ne in Hv by set_solver. apply (H3 id1 a1 r1 Hv). set_solver.
  - intros id1 a1 t1 r1 Hv. apply lookup_insert_Some in Hv as [[<- [= <- <- <-]]|[_ Hv]]; [|by eapply H4].
    unfold ADDRMAN_NEW_BUCKETS_PER_ADDRESS. lia.
  - intros b1 p1 id1 Hv. apply H5 in Hv as (a1 & r1 & Hv & ?). rewrite lookup_insert_ne by congruence. eauto.
  - intros id1 a1 r1 Hv. apply lookup_insert_Some in Hv as [[<- ?]|[Hne Hv]]; [simplify_eq|by eapply H6].
  - intros id1 x Hv. apply lookup_insert_Some in Hv as [[<- _]|[_ Hv]]; [done|by eapply H7].
Qed.
End Tables.

(** ** The invariant *)

Section Manager.
(** A bound on the attempts, which an [int] counts. *)
Context (N : Z).

Definition stats_ok (i : CAddrInfo) : Prop :=
  (fInTried i = true → nLastSuccess i ≠ 0) ∧ 0 ≤ i_nLastTry i ∧ 0 ≤ nLastSuccess i ∧ nAttempts i ≤ N.

Definition cores (s : CAddrMan) : gmap Z core := i_core <$> mapInfo s.

(** The state is consistent, but for the entries in [X] and a count of new entries
    that is behind by [d]. *)
Record inv (X : gset Z) (d : Z) (s : CAddrMan) : Prop := {
  v_random : random_ok (nRandomPos <$> mapInfo s) (vRandom s);
  v_addr : addr_ok ((λ x, s_ip x.1.1) <$> cores s) (mapAddr s);
  v_tables : tables_ok (nKey s) X (cores s) (vvNew s) (vvTried s);
  v_tried : nTried s = count (λ x, x.1.2) (cores s);
  v_new : nNew s + d = count (λ x, negb x.1.2) (cores s);
  v_ids id x : cores s !! id = Some x → id < nIdCount s;
  v_max : 0 ≤ nIdCount s ≤ INT32_MAX;
  v_stats id i : mapInfo s !! id = Some i → stats_ok i;
  v_key : nKey s ≠ 0
}.
Definition consistent (s : CAddrMan) : Prop := inv ∅ 0 s.

Lemma cores_lookup s id i : mapInfo s !! id = Some i → cores s !! id = Some (i_service i, fInTried i, nRefCount i).
Proof. intros H. unfold cores. by rewrite lookup_fmap, H. Qed.
Lemma cores_inv s id a t r : cores s !! id = Some (a, t, r) →
  ∃ i, mapInfo s !! id = Some i ∧ i_service i = a ∧ fInTried i = t ∧ nRefCount i = r.
Proof. unfold cores. rewrite lookup_fmap_Some. intros (i & [= <- <- <-] & H). eauto. Qed.

Lemma inv_mono X Y d s : X ⊆ Y → inv X d s → inv Y d s.
Proof. intros HXY []. split; try done. by eapply tables_mono. Qed.

Section Invariant.
Context (X : gset Z) (d : Z) (s : CAddrMan).
Hypothesis H : inv X d s.

Lemma info_pos id i : mapInfo s !! id = Some i → 0 ≤ nRandomPos i ∧ vRandom s !! Z.to_nat (nRandomPos i) = Some id.
Proof. intros Hi. apply (v_random _ _ _ H). by rewrite lookup_fmap, Hi. Qed.
Lemma random_info n id : vRandom s !! n = Some id → ∃ i, mapInfo s !! id = Some i ∧ nRandomPos i = Z.of_nat n.
Proof.
  intros Hn. assert ((nRandomPos <$> mapInfo s) !! id = Some (Z.of_nat n)) as E.
  { apply (v_random _ _ _ H). rewrite Nat2Z.id. split; [lia|done]. }
  rewrite lookup_fmap_Some in E. destruct E as (i & E & Hi). by exists i.
Qed.
Lemma info_id id i : mapInfo s !! id = Some i → 0 ≤ id < nIdCount s.
Proof.
  intros Hi%cores_lookup. split; [by eapply t_ids; [apply (v_tables _ _ _ H)|]|by eapply (v_ids _ _ _ H)].
Qed.

Lemma size_bound : 0 ≤ size s ≤ nIdCount s.
Proof.
  unfold size. split; [lia|].
  assert (NoDup (vRandom s)) as Hnd.
  { apply NoDup_alt. intros i j id. apply (random_ok_inj _ _ i j id (v_random _ _ _ H)). }
  assert (vRandom s ⊆ seqZ 0 (nIdCount s)) as Hsub.
  { intros id [n Hn]%list_elem_of_lookup. apply random_info in Hn as (i & Hi & _). apply elem_of_seqZ.
    pose proof (info_id id i Hi). lia. }
  pose proof (submseteq_length _ _ (NoDup_submseteq _ _ Hnd Hsub)) as Hl. rewrite length_seqZ in Hl.
  pose proof (v_max _ _ _ H). lia.
Qed.

Lemma info_ip id i : mapInfo s !! id = Some i → mapAddr s !! i_ip i = Some id.
Proof. intros Hi. apply (v_addr _ _ _ H). by rewrite lookup_fmap, (cores_lookup _ _ _ Hi). Qed.

Lemma Find_spec a id : Find a s = Some id ↔ ∃ i, mapInfo s !! id = Some i ∧ i_ip i = a.
Proof.
  unfold Find. split.
  - destruct (mapAddr s !! a) as [id'|] eqn:E; [|done]. case_decide as Hi; [|done]. intros [= <-].
    destruct Hi as [i Hi]. exists i. split; [done|]. apply (v_addr _ _ _ H) in E.
    rewrite lookup_fmap, (cores_lookup _ _ _ Hi) in E. by injection E.
  - intros (i & Hi & <-). rewrite (info_ip _ _ Hi). rewrite decide_True by eauto. done.
Qed.

Lemma new_cell b p : vvNew s !! (b, p) = None ∧ cell (vvNew s) b p = -1 ∨
  ∃ id i, vvNew s !! (b, p) = Some id ∧ cell (vvNew s) b p = id ∧ 0 ≤ id ∧ mapInfo s !! id = Some i ∧ fInTried i = false.
Proof.
  unfold cell. destruct (vvNew s !! (b, p)) as [id|] eqn:E; [right|by left].
  destruct (t_new _ _ _ _ _ (v_tables _ _ _ H) _ _ _ E) as [_ (a & r & Hc & _)].
  apply cores_inv in Hc as (i & Hi & _ & Ht & _). exists id, i. split_and!; try done. apply (info_id id i Hi).
Qed.
Lemma tried_cell b p : vvTried s !! (b, p) = None ∧ cell (vvTried s) b p = -1 ∨
  ∃ id i, vvTried s !! (b, p) = Some id ∧ cell (vvTried s) b p = id ∧ 0 ≤ id ∧ mapInfo s !! id = Some i ∧ fInTried i = true.
Proof.
  unfold cell. destruct (vvTried s !! (b, p)) as [id|] eqn:E; [right|by left].
  destruct (t_tried _ _ _ _ _ (v_tables _ _ _ H) _ _ _ E) as (a & r & Hc & _ & _).
  apply cores_inv in Hc as (i & Hi & _ & Ht & _). exists id, i. split_and!; try done. apply (info_id id i Hi).
Qed.

(** The entries may change in what the rest of the state does not mention. *)
Lemma inv_same_cores m' v' :
  i_core <$> m' = cores s → random_ok (nRandomPos <$> m') v' → (∀ id i, m' !! id = Some i → stats_ok i) →
  inv X d (with_random v' (with_info m' s)).
Proof. intros Hc Hr Hs. destruct H. split; unfold cores; cbn; rewrite ?Hc; done. Qed.

Lemma inv_update id i i' :
  mapInfo s !! id = Some i → i_core i' = i_core i → nRandomPos i' = nRandomPos i → stats_ok i' →
  inv X d (update_info id i' s).
Proof.
  intros Hi Hc Hp Hs. change (inv X d (with_random (vRandom s) (with_info (<[id := i']> (mapInfo s)) s))).
  apply inv_same_cores.
  - by apply (fmap_insert_same _ _ id i).
  - rewrite (fmap_insert_same _ _ id i) by done. apply (v_random _ _ _ H).
  - intros id1 i1 [[<- <-]|[_ Hi1]]%lookup_insert_Some; [done|by eapply (v_stats _ _ _ H)].
Qed.
End Invariant.

(** The parts that shuffling leaves alone. *)
Record frame (D : gset Z) (s s' : CAddrMan) : Prop := {
  f_info id : id ∉ D → set_pos 0 <$> mapInfo s' !! id = set_pos 0 <$> mapInfo s !! id;
  f_key : nKey s' = nKey s;
  f_count : nIdCount s' = nIdCount s;
  f_nTried : nTried s' = nTried s;
  f_tried : vvTried s' = vvTried s
}.

Lemma frame_refl D s : frame D s s.
Proof. by split. Qed.
Lemma frame_trans D s1 s2 s3 : frame D s1 s2 → frame D s2 s3 → frame D s1 s3.
Proof. intros [] []. split; [|congruence..]. intros id Hid. rewrite f_info1 by done. auto. Qed.

(** What is known of an entry outside the frame, except its position. *)
Lemma frame_info D s s' id i :
  frame D s s' → id ∉ D → mapInfo s !! id = Some i → ∃ p, mapInfo s' !! id = Some (set_pos p i).
Proof.
  intros Hf Hid Hi. pose proof (f_info _ _ _ Hf id Hid) as E. rewrite Hi in E. cbn in E.
  destruct (mapInfo s' !! id) as [i'|]; [|done]. cbn in E. exists (nRandomPos i'). f_equal.
  destruct i, i'. unfold set_pos in *. cbn in *. congruence.
Qed.

Lemma SwapRandom_ok {E} X d s p q :
  inv X d s → (p < length (vRandom s))%nat → (q < length (vRandom s))%nat →
  ∃ s', SwapRandom (E:=E) (Z.of_nat p) (Z.of_nat q) s = Ok s' ∧ inv X d s' ∧ frame ∅ s s' ∧
    length (vRandom s') = length (vRandom s) ∧ vRandom s' !! q = vRandom s !! p ∧
    (∀ n, n ≠ p → n ≠ q → vRandom s' !! n = vRandom s !! n) ∧
    mapAddr s' = mapAddr s ∧ nNew s' = nNew s ∧ vvNew s' = vvNew s ∧ cores s' = cores s.
Proof.
  intros H Hp Hq. unfold SwapRandom. destruct (Z.eqb_spec (Z.of_nat p) (Z.of_nat q)) as [Epq|Hpq].
  { assert (p = q) as -> by lia. exists s. split_and!; try done; apply frame_refl. }
  destruct (lookup_lt_is_Some_2 _ _ Hp) as [a Ha]. destruct (lookup_lt_is_Some_2 _ _ Hq) as [b Hb].
  destruct (random_info _ _ _ H _ _ Ha) as (ia & Hia & Epa). destruct (random_info _ _ _ H _ _ Hb) as (ib & Hib & Epb).
  rewrite !Nat2Z.id, Ha, Hb, Hia, Hib.
  assert (a ≠ b) as Hab by (intros ->; assert (p = q) by (by eapply (random_ok_inj _ _ p q b (v_random _ _ _ H))); lia).
  unfold deref, update_info. cbn [mapInfo with_info]. rewrite lookup_insert_ne, Hib by done. cbn [mbind outcome_bind].
  pose proof (size_bound _ _ _ H) as Hsz. pose proof (v_max _ _ _ H) as Hmax. unfold size, INT32_MAX in *.
  rewrite !s32_id by (unfold is_s; lia). eexists. split; [reflexivity|].
  set (m' := <[b := set_pos (Z.of_nat p) ib]> (<[a := set_pos (Z.of_nat q) ia]> (mapInfo s))).
  assert (i_core <$> m' = cores s) as Hc.
  { unfold m'. rewrite (fmap_insert_same i_core _ b ib) by (rewrite ?lookup_insert_ne by done; done).
    by rewrite (fmap_insert_same i_core _ a ia). }
  split_and!; cbn; try done.
  - apply (inv_same_cores X d s H m'); [done| |].
    + unfold m'. rewrite !fmap_insert. cbn. apply random_ok_swap; [apply (v_random _ _ _ H)|done|done|lia].
    + intros id i [[<- <-]|[_ [[<- <-]|[_ Hi]]%lookup_insert_Some]]%lookup_insert_Some;
        [apply (v_stats _ _ _ H b ib Hib)|apply (v_stats _ _ _ H a ia Hia)|by apply (v_stats _ _ _ H id)].
  - split; try done. intros id _. cbn. unfold m'.
    destruct (decide (b = id)) as [<-|]; [by rewrite lookup_insert_eq, Hib|].
    destruct (decide (a = id)) as [<-|]; [by rewrite lookup_insert_ne, lookup_insert_eq, Hia by done|].
    by rewrite !lookup_insert_ne by done.
  - by rewrite !length_insert.
  - by rewrite list_lookup_insert_eq by (rewrite length_insert; lia).
  - intros n Hn1 Hn2. by rewrite !list_lookup_insert_ne by done.
Qed.

(** ** Removing entries *)

Lemma set_pos_0 i i' : set_pos 0 i = set_pos 0 i' → i_core i = i_core i' ∧ stats_ok i = stats_ok i' ∧ i' = set_pos (nRandomPos i') i.
Proof. destruct i, i'. unfold set_pos. cbn. intros [= -> -> -> -> -> ->]. done. Qed.

Lemma Delete_ok {E} X d s id i :
  inv X d s → mapInfo s !! id = Some i → fInTried i = false → nRefCount i = 0 →
  ∃ s', Delete (E:=E) id s = Ok s' ∧ inv (X ∖ {[id]}) d s' ∧ frame {[id]} s s' ∧ vvNew s' = vvNew s.
Proof.
  intros H Hi Ht Hr. unfold Delete, deref. rewrite Hi. cbn [mbind outcome_bind]. rewrite Ht, Hr. cbn [mbind outcome_bind assert_that negb Z.eqb].
  destruct (info_pos _ _ _ H _ _ Hi) as [Hp Hv]. pose proof (lookup_lt_Some _ _ _ Hv) as Hlt.
  pose proof (size_bound _ _ _ H) as Hsz. pose proof (v_max _ _ _ H) as Hmax. unfold size, INT32_MAX in *.
  rewrite !u32_id by (unfold is_u; lia). replace (nRandomPos i) with (Z.of_nat (Z.to_nat (nRandomPos i))) by lia.
  replace (Z.of_nat (length (vRandom s)) - 1) with (Z.of_nat (length (vRandom s) - 1)) by lia.
  destruct (SwapRandom_ok (E:=E) X d s (Z.to_nat (nRandomPos i)) (length (vRandom s) - 1) H) as
    (s1 & -> & H1 & Hf & Hlen & Hlast & _ & Hma & Hnew & Hvn & Hc); [lia..|].
  cbn [mbind outcome_bind]. eexists. split; [reflexivity|].
  assert (cores s1 !! id = Some (i_service i, false, 0)) as Hcid by (rewrite Hc, (cores_lookup _ _ _ Hi); by rewrite Ht, Hr).
  assert (vRandom s1 = take (length (vRandom s1) - 1) (vRandom s1) ++ [id]) as Ev.
  { rewrite <- (take_drop (length (vRandom s1) - 1) (vRandom s1)) at 1. f_equal.
    rewrite Hv in Hlast. rewrite <- Hlen in Hlast. rewrite (drop_S _ id) by done. f_equal. apply drop_ge. lia. }
  destruct Hf as [Hfi Hk Hcnt Hnt Hvt]. destruct H1 as [R A T NT NN I M S K].
  split_and!; [|split; cbn; try done|cbn; done].
  - split; unfold cores; cbn; rewrite ?fmap_delete; fold (cores s1).
    + apply random_ok_pop. by rewrite <- Ev.
    + apply addr_ok_delete; [done|]. by rewrite lookup_fmap, Hcid.
    + by apply (tables_remove _ _ _ _ _ T id (i_service i)).
    + rewrite (count_delete _ _ _ _ Hcid). cbn. lia.
    + rewrite (count_delete _ _ _ _ Hcid). cbn. lia.
    + intros id1 x [_ Hx]%lookup_delete_Some. by eapply I.
    + done.
    + intros id1 i1 [_ Hi1]%lookup_delete_Some. by eapply S.
    + done.
  - intros id1 Hid1. rewrite lookup_delete_ne by set_solver. apply Hfi. set_solver.
Qed.

(** The entry in a cell of the new table, if there is one. *)
Definition cell_ids (s : CAddrMan) (b p : Z) : gset Z := match vvNew s !! (b, p) with Some id => {[id]} | None => ∅ end.

Lemma set_cell_clear b p vv : set_cell b p (-1) vv = delete (b, p) vv.
Proof. reflexivity. Qed.
Lemma set_cell_enter b p id vv : 0 ≤ id → set_cell b p id vv = <[(b, p) := id]> vv.
Proof. intros. unfold set_cell. by destruct (Z.eqb_spec id (-1)); [lia|]. Qed.

(** The entry changes to [i'], and the tables to what fits. *)
Lemma inv_retable X Y d s id i i' vn vt nt nn :
  inv X d s → mapInfo s !! id = Some i →
  i_service i' = i_service i → nRandomPos i' = nRandomPos i → stats_ok i' →
  tables_ok (nKey s) Y (<[id := i_core i']> (cores s)) vn vt →
  nt - nTried s = Z.b2z (fInTried i') - Z.b2z (fInTried i) →
  inv Y (d + (nNew s - nn) + Z.b2z (negb (fInTried i')) - Z.b2z (negb (fInTried i)))
    (with_tried nt vt (with_new nn vn (update_info id i' s))).
Proof.
  intros H Hi Hsv Hpos Hst Htab Hnt. pose proof (cores_lookup _ _ _ Hi) as Hci.
  destruct H as [R A T NT NN I M S K]. split; unfold cores; cbn; rewrite ?fmap_insert; fold (cores s).
  - rewrite Hpos, insert_id; [done|]. by rewrite lookup_fmap, Hi.
  - cbn. rewrite Hsv, insert_id; [done|]. by rewrite lookup_fmap, Hci.
  - done.
  - rewrite (count_insert _ _ _ _ _ Hci). cbn. lia.
  - rewrite (count_insert _ _ _ _ _ Hci). cbn. lia.
  - intros id1 x [[<- _]|[_ Hx]]%lookup_insert_Some; by eapply I.
  - done.
  - intros id1 i1 [[<- <-]|[_ Hi1]]%lookup_insert_Some; [done|by eapply S].
  - done.
Qed.

Lemma ClearNew_ok {E} X d s b p :
  inv X d s →
  ∃ s', ClearNew (E:=E) b p s = Ok s' ∧ inv X d s' ∧ frame (cell_ids s b p) s s' ∧ vvNew s' = delete (b, p) (vvNew s).
Proof.
  intros H. unfold ClearNew, cell_ids.
  destruct (new_cell _ _ _ H b p) as [[E0 ->]|(id & i & E0 & -> & Hid & Hi & Ht)]; rewrite E0.
  { exists s. split_and!; [done|done|apply frame_refl|by rewrite delete_id]. }
  destruct (Z.eqb_spec id (-1)); [lia|]. unfold map_at. rewrite Hi.
  pose proof (cores_lookup _ _ _ Hi) as Hci.
  destruct (tables_clear _ _ _ _ _ (v_tables _ _ _ H) _ _ _ _ _ _ E0 Hci) as (_ & Hr & Htab).
  unfold assert_that. rewrite (proj2 (Z.ltb_lt _ _) Hr). cbn [mbind outcome_bind nRefCount set_refs].
  rewrite set_cell_clear. cbn [update_info with_info vvNew nNew].
  set (i' := set_refs (nRefCount i - 1) i).
  assert (inv ({[id]} ∪ X) d (with_new (nNew s) (delete (b, p) (vvNew s)) (update_info id i' s))) as H'.
  { pose proof (inv_retable X _ d s id i i' _ _ (nTried s) (nNew s) H Hi eq_refl eq_refl (v_stats _ _ _ H id i Hi) Htab) as H'.
    cbn in H'. replace d with (d + (nNew s - nNew s) + Z.b2z (negb (fInTried i)) - Z.b2z (negb (fInTried i))) by lia.
    apply H'. lia. }
  assert (frame {[id]} s (with_new (nNew s) (delete (b, p) (vvNew s)) (update_info id i' s))) as Hf.
  { split; cbn; try done. intros id1 Hid1. by rewrite lookup_insert_ne by set_solver. }
  destruct (Z.eqb_spec (nRefCount i - 1) 0) as [Er|Er].
  - destruct (Delete_ok (E:=E) _ _ _ id i' H') as (s' & -> & H2 & Hf2 & Hvn).
    { cbn. apply lookup_insert_eq. } { done. } { done. }
    exists s'. split_and!; [done|eapply inv_mono; [|done]; set_solver|by eapply frame_trans|done].
  - eexists. split_and!; [reflexivity| |done|done]. destruct H' as [R A T NT NN I M S K]. split; try done.
    eapply tables_mono; [|eapply tables_settle; [exact T| |right]].
    + instantiate (1 := id). set_solver.
    + unfold cores. cbn. rewrite fmap_insert. apply lookup_insert_eq.
    + cbn. lia.
Qed.

(** The loop of [MakeTried]: the entry leaves the buckets of the list. *)
Lemma clear_buckets_ok {E} X d id l s i :
  inv X d s → mapInfo s !! id = Some i → id ∈ X → fInTried i = false →
  ∃ s' r, clear_buckets (E:=E) id l s = Ok s' ∧ inv X d s' ∧ frame {[id]} s s' ∧
    mapInfo s' !! id = Some (set_refs r i) ∧ nNew s' = nNew s ∧
    (∀ b p, b ∈ l → vvNew s' !! (b, p) ≠ Some id) ∧ (∀ q id', vvNew s' !! q = Some id' → vvNew s !! q = Some id').
Proof.
  revert s i. induction l as [|b l IH]; intros s i H Hi HX Ht; cbn [clear_buckets].
  { exists s, (nRefCount i). split_and!; [done|done|apply frame_refl|by destruct i|done| |done]. intros b p []%elem_of_nil. }
  unfold deref. rewrite Hi. cbn [mbind outcome_bind]. pose proof (cores_lookup _ _ _ Hi) as Hci.
  rewrite GetBucketPosition_service. set (p := bucket_pos (nKey s) true b (i_service i)).
  assert (∀ p', vvNew s !! (b, p') = Some id → p' = p) as Hp.
  { intros p' Hb. destruct (t_new _ _ _ _ _ (v_tables _ _ _ H) _ _ _ Hb) as [_ (a & r & Hc & ->)].
    rewrite Hci in Hc. by injection Hc as <- _ _. }
  destruct (Z.eqb_spec (cell (vvNew s) b p) id) as [Ec|Ec].
  - destruct (new_cell _ _ _ H b p) as [[E0 E1]|(id' & i0 & E0 & E1 & _)].
    { pose proof (info_id _ _ _ H _ _ Hi). lia. }
    assert (id' = id) as -> by congruence.
    destruct (tables_clear _ _ _ _ _ (v_tables _ _ _ H) _ _ _ _ _ _ E0 Hci) as (_ & Hr & Htab).
    rewrite set_cell_clear. set (i' := set_refs (nRefCount i - 1) i).
    assert (inv X d (with_new (nNew s) (delete (b, p) (vvNew s)) (update_info id i' s))) as H'.
    { pose proof (inv_retable X _ d s id i i' _ _ (nTried s) (nNew s) H Hi eq_refl eq_refl (v_stats _ _ _ H id i Hi) Htab) as H'.
      cbn in H'. replace d with (d + (nNew s - nNew s) + Z.b2z (negb (fInTried i)) - Z.b2z (negb (fInTried i))) by lia.
      eapply inv_mono; [|apply H'; lia]. set_solver. }
    destruct (IH _ i' H') as (s' & r & -> & H2 & Hf & Hi2 & Hn & Hl & Hsub); [cbn; apply lookup_insert_eq|done|done|].
    exists s', r. split_and!; try done.
    + eapply frame_trans; [|done]. split; cbn; try done. intros id1 Hid1. by rewrite lookup_insert_ne by set_solver.
    + intros b1 p1 [->|Hb1]%elem_of_cons; [|by apply Hl]. intros Hc. pose proof (Hsub _ _ Hc) as Hc'. cbn in Hc'.
      apply lookup_delete_Some in Hc' as [Hne Hc']. apply Hp in Hc'. congruence.
    + intros q id1 Hq. apply Hsub in Hq. cbn in Hq. by apply lookup_delete_Some in Hq as [_ ?].
  - destruct (IH s i H Hi HX Ht) as (s' & r & -> & H2 & Hf & Hi2 & Hn & Hl & Hsub). exists s', r. split_and!; try done.
    intros b1 p1 [->|Hb1]%elem_of_cons; [|by apply Hl]. intros Hc. apply Hsub in Hc. pose proof (Hp _ Hc) as ->.
    apply Ec. unfold cell. by rewrite Hc.
Qed.

(** ** Into the tried table *)

Lemma evict_tried_ok {E} X d s kb kp :
  inv X d s →
  ∃ s', evict_tried (E:=E) kb kp s = Ok s' ∧ inv X d s' ∧ nKey s' = nKey s ∧ nIdCount s' = nIdCount s ∧
    vvTried s' = delete (kb, kp) (vvTried s) ∧
    ∀ id i, mapInfo s !! id = Some i → fInTried i = false → nRefCount i = 0 → ∃ p, mapInfo s' !! id = Some (set_pos p i).
Proof.
  intros H. unfold evict_tried.
  destruct (tried_cell _ _ _ H kb kp) as [[E0 ->]|(ev & io & E0 & -> & Hev & Hio & Hto)].
  { exists s. split_and!; [done|done|done|done|by rewrite delete_id|]. intros id i Hi _ _. exists (nRandomPos i). by destruct i. }
  destruct (Z.eqb_spec ev (-1)); [lia|]. unfold deref. rewrite Hio. cbn [mbind outcome_bind]. rewrite set_cell_clear.
  pose proof (cores_lookup _ _ _ Hio) as Hco. rewrite Hto in Hco.
  pose proof (tried_refs _ _ _ _ _ (v_tables _ _ _ H) _ _ _ Hco) as Hr0.
  pose proof (no_cell _ _ _ _ _ (v_tables _ _ _ H) ev (i_service io) true) as Hno. rewrite Hr0 in Hco. specialize (Hno Hco).
  pose proof (tables_untry _ _ _ _ _ (v_tables _ _ _ H) _ _ _ _ _ E0 Hco) as Htab.
  set (s1 := with_tried (nTried s - 1) (delete (kb, kp) (vvTried s)) (update_info ev (set_tried false io) s)).
  assert (inv ({[ev]} ∪ X) (d + 1) s1) as H1.
  { destruct (v_stats _ _ _ H _ _ Hio) as (_ & ? & ? & ?).
    pose proof (inv_retable X ({[ev]} ∪ X) d s ev io (set_tried false io) (vvNew s) (delete (kb, kp) (vvTried s)) (nTried s - 1) (nNew s)) as H'.
    cbn in H'. rewrite Hto in H'. cbn in H'. replace (d + 1) with (d + (nNew s - nNew s) + 1 - 0) by lia.
    apply H'; try done; [|lia]. by unfold i_core; cbn; rewrite Hr0. }
  set (nb := GetNewBucket (nKey s1) (source io) io). set (np := GetBucketPosition (nKey s1) true nb io).
  assert (ev ∉ cell_ids s1 nb np) as Hnc.
  { unfold cell_ids. cbn. destruct (vvNew s !! (nb, np)) as [x|] eqn:Ex; [|set_solver]. intros ->%elem_of_singleton. by apply Hno in Ex. }
  destruct (ClearNew_ok (E:=E) _ _ s1 nb np H1) as (s2 & -> & H2 & Hf & Hvn). cbn [mbind outcome_bind].
  assert (cell (vvNew s2) nb np = -1) as -> by (unfold cell; by rewrite Hvn, lookup_delete_eq).
  cbn [Z.eqb assert_that]. change (-1 =? -1) with true. cbn [assert_that mbind outcome_bind].
  destruct (frame_info _ _ _ ev (set_tried false io) Hf Hnc) as [p Hi2]; [cbn; apply lookup_insert_eq|].
  rewrite Hi2. cbn [mbind outcome_bind]. eexists. split; [reflexivity|].
  pose proof (cores_lookup _ _ _ Hi2) as Hc2. cbn in Hc2. rewrite Hr0 in Hc2.
  rewrite set_cell_enter by done. destruct Hf as [Hfi Hk Hcnt Hnt Hvt].
  split_and!.
  - assert (inv (({[ev]} ∪ X) ∖ {[ev]}) d (with_tried (nTried s2) (vvTried s2) (with_new (nNew s2 + 1) (<[(nb, np) := ev]> (vvNew s2))
        (update_info ev (set_refs 1 (set_pos p (set_tried false io))) s2)))) as H3.
    { pose proof (inv_retable _ (({[ev]} ∪ X) ∖ {[ev]}) _ s2 ev _ (set_refs 1 (set_pos p (set_tried false io)))
        (<[(nb, np) := ev]> (vvNew s2)) (vvTried s2) (nTried s2) (nNew s2 + 1) H2 Hi2) as H'.
      cbn in H'. replace d with (d + 1 + (nNew s2 - (nNew s2 + 1)) + 1 - 1) by lia.
      assert (np = bucket_pos (nKey s2) true nb (i_service io)) as Hnp by (unfold np; by rewrite GetBucketPosition_service, Hk).
      pose proof (tables_enter _ _ _ _ _ (v_tables _ _ _ H2) nb np ev (i_service io) 0) as Htab2.
      apply H'; [done|done|by apply (v_stats _ _ _ H2 ev _ Hi2)| |lia]. change (0 + 1) with 1 in Htab2.
      apply Htab2; [by rewrite Hvn, lookup_delete_eq|done|unfold ADDRMAN_NEW_BUCKETS_PER_ADDRESS; lia|apply GetNewBucket_range|done]. }
    eapply inv_mono; [|exact H3]. set_solver.
  - cbn. by rewrite Hk.
  - cbn. by rewrite Hcnt.
  - cbn. by rewrite Hvt.
  - intros id i Hi Ht Hr. assert (id ≠ ev) by congruence. cbn. rewrite lookup_insert_ne by done.
    apply (frame_info (cell_ids s1 nb np) s1 s2 id i).
    + by split.
    + unfold cell_ids. cbn. destruct (vvNew s !! (nb, np)) as [x|] eqn:Ex; [|set_solver]. intros ->%elem_of_singleton.
      apply cores_lookup in Hi. rewrite Hr in Hi. by apply (no_cell _ _ _ _ _ (v_tables _ _ _ H) _ _ _ Hi) in Ex.
    + cbn. by rewrite lookup_insert_ne.
Qed.

Lemma inv_recount X d nn d' s : inv X d s → nn + d' = nNew s + d → inv X d' (with_new nn (vvNew s) s).
Proof. intros [] Hn. split; try done. change (cores (with_new nn (vvNew s) s)) with (cores s). cbn. lia. Qed.

Lemma MakeTried_ok {E} s id i :
  consistent s → mapInfo s !! id = Some i → fInTried i = false → nLastSuccess i ≠ 0 →
  ∃ s', MakeTried (E:=E) id s = Ok s' ∧ consistent s' ∧ nIdCount s' = nIdCount s ∧
    ∃ p, mapInfo s' !! id = Some (set_tried true (set_pos p (set_refs 0 i))).
Proof.
  intros H Hi Ht Hls. unfold MakeTried. pose proof (info_id _ _ _ H _ _ Hi) as [Hid _].
  destruct (clear_buckets_ok (E:=E) {[id]} 0 id (seqZ 0 ADDRMAN_NEW_BUCKET_COUNT) s i) as
    (s1 & r & -> & H1 & Hf1 & Hi1 & Hn1 & Hl & _).
  { eapply inv_mono; [|exact H]. set_solver. } { done. } { set_solver. } { done. }
  cbn [mbind outcome_bind]. pose proof (cores_lookup _ _ _ Hi1) as Hc1. cbn in Hc1.
  assert (r = 0) as ->.
  { rewrite (t_refs _ _ _ _ _ (v_tables _ _ _ H1) _ _ _ _ Hc1). apply count_zero. intros [b p] v Hv.
    apply Z.eqb_neq. intros ->. destruct (t_new _ _ _ _ _ (v_tables _ _ _ H1) _ _ _ Hv) as [Hb _].
    eapply Hl; [|exact Hv]. apply elem_of_seqZ. lia. }
  pose proof (inv_recount _ _ (nNew s1 - 1) 1 _ H1 ltac:(lia)) as H2. set (s2 := with_new (nNew s1 - 1) (vvNew s1) s1) in *.
  assert (mapInfo s2 !! id = Some (set_refs 0 i)) as Hi2 by exact Hi1.
  unfold deref. rewrite Hi2. cbn [mbind outcome_bind nRefCount set_refs]. change (0 =? 0) with true.
  cbn [assert_that mbind outcome_bind]. rewrite GetTriedBucket_service.
  rewrite GetBucketPosition_service. change (i_service (set_refs 0 i)) with (i_service i).
  set (kb := tried_bucket (nKey s2) (i_service i)). set (kp := bucket_pos (nKey s2) false kb (i_service i)).
  destruct (evict_tried_ok (E:=E) _ _ s2 kb kp H2) as (s3 & -> & H3 & Hk3 & Hc3 & Hv3 & Hi3).
  cbn [mbind outcome_bind]. destruct (Hi3 id (set_refs 0 i) Hi2 Ht eq_refl) as [p Hip].
  assert (cell (vvTried s3) kb kp = -1) as -> by (unfold cell; by rewrite Hv3, lookup_delete_eq).
  change (-1 =? -1) with true. cbn [assert_that mbind outcome_bind]. rewrite set_cell_enter by done.
  cbn [mapInfo with_tried]. rewrite Hip. cbn [mbind outcome_bind]. eexists. split; [reflexivity|].
  pose proof (cores_lookup _ _ _ Hip) as Hcp. cbn in Hcp. rewrite Ht in Hcp.
  split_and!.
  - pose proof (inv_retable _ ({[id]} ∖ {[id]}) _ s3 id _ (set_tried true (set_pos p (set_refs 0 i))) (vvNew s3)
      (<[(kb, kp) := id]> (vvTried s3)) (nTried s3 + 1) (nNew s3) H3 Hip eq_refl eq_refl) as H'.
    cbn in H'. rewrite Ht in H'. cbn in H'. rewrite Z.sub_diag in H'. change (1 + 0 + 0 - 1) with 0 in H'. eapply inv_mono; [|apply H'].
    + set_solver.
    + destruct (v_stats _ _ _ H _ _ Hi) as (_ & ? & ? & ?). by split_and!.
    + pose proof (tables_try _ _ _ _ _ (v_tables _ _ _ H3) id (i_service i) Hcp) as Htab.
      rewrite Hk3 in Htab |- *. apply Htab. by rewrite Hv3, lookup_delete_eq.
    + lia.
  - cbn. rewrite Hc3. apply (f_count _ _ _ Hf1).
  - exists p. cbn. apply lookup_insert_eq.
Qed.

(** ** Adding entries *)

Lemma Find_None X d s a : inv X d s → Find a s = None → mapAddr s !! a = None.
Proof.
  intros H Hf. unfold Find in Hf. destruct (mapAddr s !! a) as [id|] eqn:E; [|done]. exfalso.
  apply (v_addr _ _ _ H) in E. apply lookup_fmap_Some in E as ([[b t] r] & _ & E). apply cores_inv in E as (i & Hi & _).
  rewrite decide_True in Hf by eauto. done.
Qed.

Lemma Create_ok {E} s addr src :
  0 ≤ N → consistent s → Find (s_ip (a_service addr)) s = None → nIdCount s < INT32_MAX →
  ∃ s', Create (E:=E) addr src s = Ok (nIdCount s, s') ∧ inv {[nIdCount s]} 1 s' ∧ nIdCount s' = nIdCount s + 1 ∧
    ∃ p, mapInfo s' !! nIdCount s = Some (set_pos p (CAddrInfo_of addr src)).
Proof.
  intros HN H Hf Hlt. pose proof (Find_None _ _ _ _ H Hf) as Hma. unfold Create, assert_that.
  rewrite (proj2 (Z.ltb_lt _ _) Hlt). cbn [mbind outcome_bind]. eexists. split; [reflexivity|].
  pose proof (size_bound _ _ _ H) as Hsz. pose proof (v_max _ _ _ H) as Hmax.
  assert (mapInfo s !! nIdCount s = None) as Hno.
  { destruct (mapInfo s !! nIdCount s) as [i|] eqn:Ei; [|done]. pose proof (info_id _ _ _ H _ _ Ei). lia. }
  assert (cores s !! nIdCount s = None) as Hnc by (unfold cores; by rewrite lookup_fmap, Hno).
  rewrite s32_id by (unfold is_s, INT32_MAX, size in *; lia).
  destruct H as [R A T NT NN I M S K]. split_and!; [|done|eexists; apply lookup_insert_eq].
  split; unfold cores; cbn; rewrite ?fmap_insert; fold (cores s).
  - cbn. apply random_ok_push; [done|]. by rewrite lookup_fmap, Hno.
  - apply addr_ok_insert; [done| |done]. by rewrite lookup_fmap, Hnc.
  - eapply tables_mono; [|apply (tables_add _ _ _ _ _ T _ (a_service addr)); [done|lia]]. set_solver.
  - rewrite count_insert_new by done. cbn. lia.
  - rewrite count_insert_new by done. cbn. lia.
  - intros id x [[<- _]|[_ Hx]]%lookup_insert_Some; [lia|]. pose proof (I _ _ Hx). lia.
  - lia.
  - intros id i [[<- <-]|[_ Hi]]%lookup_insert_Some; [|by eapply S]. by split_and!.
  - done.
Qed.

Lemma inv_settle X d s id i :
  inv X d s → mapInfo s !! id = Some i → fInTried i = true ∨ 0 < nRefCount i → inv (X ∖ {[id]}) d s.
Proof.
  intros H Hi Ht. pose proof (cores_lookup _ _ _ Hi). destruct H as [R A T NT NN I M S K]. split; try done. by eapply tables_settle.
Qed.

Lemma add_to_new_ok {E} nNow src s id i :
  inv {[id]} 0 s → mapInfo s !! id = Some i → fInTried i = false → nRefCount i ≠ ADDRMAN_NEW_BUCKETS_PER_ADDRESS →
  ∃ s', add_to_new (E:=E) nNow src id s = Ok s' ∧ consistent s' ∧ nIdCount s' = nIdCount s.
Proof.
  intros H Hi Ht Hr. unfold add_to_new, deref. rewrite Hi. cbn [mbind outcome_bind].
  pose proof (info_id _ _ _ H _ _ Hi) as [Hid _]. pose proof (cores_lookup _ _ _ Hi) as Hci.
  pose proof (refs_nonneg _ _ _ _ _ (v_tables _ _ _ H) _ _ _ _ Hci) as Hr0.
  assert (∀ Y, Y ∖ {[id]} ⊆ (∅ : gset Z) → ∀ s', inv (Y ∖ {[id]}) 0 s' → consistent s') as Hset.
  { intros Y HY s' Hs'. by eapply inv_mono. }
  assert (0 < nRefCount i → consistent s) as Hdone.
  { intros Hpos. apply (Hset {[id]}); [set_solver|]. eapply inv_settle; [done|done|by right]. }
  set (b := GetNewBucket (nKey s) src i). rewrite GetBucketPosition_service. set (p := bucket_pos (nKey s) true b (i_service i)).
  destruct (Z.eqb_spec (cell (vvNew s) b p) id) as [Ec|Ec].
  { exists s. split_and!; [done| |done]. apply Hdone.
    destruct (new_cell _ _ _ H b p) as [[_ E1]|(id' & i' & E0 & E1 & _)]; [lia|].
    rewrite (t_refs _ _ _ _ _ (v_tables _ _ _ H) _ _ _ _ Hci). eapply count_pos; [exact E0|]. apply Z.eqb_eq. lia. }
  assert (∃ fInsert, (if cell (vvNew s) b p =? -1 then (true, s)
      else let '(infoExisting, s0) := map_at (cell (vvNew s) b p) s in
           (IsTerrible nNow infoExisting || (1 <? nRefCount infoExisting) && (nRefCount i =? 0), s0)) = (fInsert, s)) as [fInsert ->].
  { destruct (Z.eqb_spec (cell (vvNew s) b p) (-1)) as [|Hne]; [by exists true|].
    destruct (new_cell _ _ _ H b p) as [[_ E1]|(id' & i' & E0 & E1 & _ & Hi' & _)]; [lia|].
    unfold map_at. rewrite E1, Hi'. by eexists. }
  destruct fInsert; cycle 1.
  { destruct (Z.eqb_spec (nRefCount i) 0) as [E0|E0]; [|exists s; split_and!; [done|apply Hdone; lia|done]].
    destruct (Delete_ok (E:=E) _ _ _ id i H Hi Ht E0) as (s' & -> & H' & Hf & _). exists s'.
    split_and!; [done|by apply (Hset {[id]}); [set_solver|]|apply (f_count _ _ _ Hf)]. }
  destruct (ClearNew_ok (E:=E) _ _ s b p H) as (s1 & -> & H1 & Hf & Hvn). cbn [mbind outcome_bind].
  destruct (frame_info _ _ _ id i Hf) as [q Hi1]; [|done|].
  { unfold cell_ids. unfold cell in Ec. destruct (vvNew s !! (b, p)) as [x|]; [|set_solver]. cbn in Ec. set_solver. }
  rewrite Hi1. cbn [mbind outcome_bind]. rewrite set_cell_enter by done. eexists. split; [reflexivity|].
  pose proof (cores_lookup _ _ _ Hi1) as Hc1. cbn in Hc1. rewrite Ht in Hc1.
  split; [|cbn; apply (f_count _ _ _ Hf)]. apply (Hset {[id]}); [set_solver|].
  pose proof (inv_retable _ ({[id]} ∖ {[id]}) _ s1 id _ (set_refs (nRefCount i + 1) (set_pos q i))
      (<[(b, p) := id]> (vvNew s1)) (vvTried s1) (nTried s1) (nNew s1) H1 Hi1 eq_refl eq_refl (v_stats _ _ _ H id i Hi)) as H'.
  cbn in H'. rewrite Ht in H'. cbn in H'.
  replace 0 with (0 + (nNew s1 - nNew s1) + 1 - 1) by lia. apply H'; [|lia].
  unfold i_core. cbn. rewrite Ht.
  apply (tables_enter _ _ _ _ _ (v_tables _ _ _ H1) b p id (i_service i) (nRefCount i));
    [by rewrite Hvn, lookup_delete_eq|done| |apply GetNewBucket_range|by rewrite (f_key _ _ _ Hf)].
  pose proof (t_max _ _ _ _ _ (v_tables _ _ _ H) _ _ _ _ Hci). lia.
Qed.

Lemma Add_ok {E} GetRandInt nNow addr src pen s :
  0 ≤ N → consistent s → nIdCount s < INT32_MAX →
  ∃ b s', Add_ (E:=E) GetRandInt nNow addr src pen s = Ok (b, s') ∧ consistent s' ∧ nIdCount s' ≤ nIdCount s + 1.
Proof.
  intros HN H Hlt. unfold Add_. destruct (IsRoutable _); cbn [negb]; [|exists false, s; split_and!; [done|done|lia]].
  destruct (Find _ s) as [id|] eqn:Ef.
  - apply (Find_spec _ _ _ H) in Ef as (i & Hi & _). unfold deref. rewrite Hi. cbn [mbind outcome_bind].
    assert (i_core (refresh nNow addr pen i) = i_core i ∧ nRandomPos (refresh nNow addr pen i) = nRandomPos i ∧
            stats_ok (refresh nNow addr pen i)) as (Ec & Ep & Es).
    { pose proof (v_stats _ _ _ H _ _ Hi). unfold refresh. destruct (_ && _); done. }
    pose proof (inv_update _ _ _ H id i _ Hi Ec Ep Es) as H'.
    set (i' := refresh nNow addr pen i) in *. destruct (may_add GetRandInt addr i') eqn:Em; cycle 1.
    { eexists false, _. split_and!; [done|done|cbn; lia]. }
    assert (fInTried i' = false ∧ nRefCount i' ≠ ADDRMAN_NEW_BUCKETS_PER_ADDRESS) as [Ht Hr].
    { unfold may_add in Em. repeat case_match; try done. apply Z.eqb_neq in H2. done. }
    destruct (add_to_new_ok (E:=E) nNow src (update_info id i' s) id i') as (s' & -> & Hs' & Hc); try done.
    { eapply inv_mono; [|exact H']. set_solver. } { cbn. apply lookup_insert_eq. }
    cbn [mbind outcome_bind]. exists false, s'. split_and!; [done|done|]. rewrite Hc. cbn. lia.
  - destruct (Create_ok (E:=E) s addr src HN H Ef Hlt) as (s1 & -> & H1 & Hc1 & p & Hi1). cbn [mbind outcome_bind].
    unfold deref. rewrite Hi1. cbn [mbind outcome_bind].
    set (i' := set_nTime _ (set_pos p (CAddrInfo_of addr src))).
    pose proof (inv_update _ _ _ H1 _ _ i' Hi1 eq_refl eq_refl (v_stats _ _ _ H1 _ _ Hi1)) as H2.
    pose proof (inv_recount _ _ (nNew s1 + 1) 0 _ H2 ltac:(cbn; lia)) as H3.
    destruct (add_to_new_ok (E:=E) nNow src _ (nIdCount s) i' H3) as (s' & Es & Hs' & Hc); [cbn; apply lookup_insert_eq|done|done|].
    change (nNew (update_info (nIdCount s) i' s1)) with (nNew s1). change (vvNew (update_info (nIdCount s) i' s1)) with (vvNew s1) in Es |- *.
    rewrite Es. cbn [mbind outcome_bind]. exists true, s'. split_and!; [done|done|]. rewrite Hc. cbn. lia.
Qed.

(** ** Good, Connected *)

Lemma find_new_bucket_None id nRnd info l s :
  find_new_bucket id nRnd info l s = None →
  ∀ n, n ∈ l → let nB := u32 (n + nRnd) mod ADDRMAN_NEW_BUCKET_COUNT in
    cell (vvNew s) nB (GetBucketPosition (nKey s) true nB info) ≠ id.
Proof.
  induction l as [|m l IH]; intros Hf n Hn; [by apply elem_of_nil in Hn|]. cbn [find_new_bucket] in Hf. revert Hf.
  destruct (Z.eqb_spec (cell (vvNew s) (u32 (m + nRnd) mod ADDRMAN_NEW_BUCKET_COUNT)
    (GetBucketPosition (nKey s) true (u32 (m + nRnd) mod ADDRMAN_NEW_BUCKET_COUNT) info)) id) as [|Hne]; [done|].
  intros Hf. apply elem_of_cons in Hn as [->|Hn]; [exact Hne|by apply IH].
Qed.

(** From wherever the search starts, it passes every bucket. *)
Lemma search_hits b nRnd : 0 ≤ b < 1024 → ∃ n, 0 ≤ n < 1024 ∧ u32 (n + nRnd) mod 1024 = b.
Proof.
  intros Hb. exists ((b - nRnd) mod 1024). split; [apply Z.mod_pos_bound; lia|].
  unfold u32. rewrite Z.mod_mod_divide by (by exists 4194304).
  rewrite Zplus_mod_idemp_l. replace (b - nRnd + nRnd) with b by lia. apply Z.mod_small. lia.
Qed.

Lemma find_new_bucket_found X d s id i info nRnd :
  inv X d s → mapInfo s !! id = Some i → 0 < nRefCount i → i_service info = i_service i →
  find_new_bucket id nRnd info (seqZ 0 ADDRMAN_NEW_BUCKET_COUNT) s ≠ None.
Proof.
  intros H Hi Hr Hsv Hf. pose proof (cores_lookup _ _ _ Hi) as Hc.
  rewrite (t_refs _ _ _ _ _ (v_tables _ _ _ H) _ _ _ _ Hc) in Hr. apply count_ex in Hr as ([b p] & v & Hv & ->%Z.eqb_eq).
  destruct (t_new _ _ _ _ _ (v_tables _ _ _ H) _ _ _ Hv) as [Hb (a & r & Hc' & ->)]. rewrite Hc in Hc'. injection Hc' as <- _ _.
  destruct (search_hits b nRnd Hb) as (n & Hn & En).
  refine (find_new_bucket_None _ _ _ _ _ Hf n _ _); [apply elem_of_seqZ; unfold ADDRMAN_NEW_BUCKET_COUNT; lia|].
  unfold ADDRMAN_NEW_BUCKET_COUNT. rewrite En, GetBucketPosition_service, Hsv. unfold cell. by rewrite Hv.
Qed.

(** What [Good_] makes of an entry. *)
Definition made_good (addr : CService) (nTime : Z) (i : CAddrInfo) : Prop :=
  i_service i = addr ∧ fInTried i = true ∧ nLastSuccess i = nTime ∧ i_nLastTry i = nTime ∧ nAttempts i = 0.

Lemma Good_ok {E} GetRandInt addr nTime s :
  0 ≤ N → 0 < nTime → consistent s →
  ∃ s', Good_ (E:=E) GetRandInt addr nTime s = Ok s' ∧ consistent s' ∧ nIdCount s' = nIdCount s ∧
    ∀ id i, mapInfo s !! id = Some i → i_service i = addr → ∃ i', mapInfo s' !! id = Some i' ∧ made_good addr nTime i'.
Proof.
  intros HN Hnt H. unfold Good_. destruct (Find (s_ip addr) s) as [id|] eqn:Ef; cycle 1.
  { exists s. split_and!; [done|done|done|]. intros id i Hi <-. exfalso.
    assert (Find (s_ip (i_service i)) s = Some id) as E' by (apply (Find_spec _ _ _ H); eauto). congruence. }
  pose proof Ef as Ef'. apply (Find_spec _ _ _ H) in Ef as (i & Hi & Hip). unfold deref. rewrite Hi. cbn [mbind outcome_bind].
  assert (∀ id' i', mapInfo s !! id' = Some i' → i_service i' = addr → id' = id ∧ i' = i) as Huniq.
  { intros id' i' Hi' <-. assert (Find (s_ip (i_service i')) s = Some id') by (apply (Find_spec _ _ _ H); eauto). split; congruence. }
  case_bool_decide as Hsv.
  { exists s. split_and!; [done|done|done|]. intros id' i' Hi' Hs'. destruct (Huniq _ _ Hi' Hs') as [-> ->]. done. }
  assert (i_service i = addr) as Hsv'.
  { destruct (decide (i_service i = addr)); [done|]. by exfalso. } clear Hsv.
  set (i1 := set_attempts nTime nTime 0 i).
  assert (stats_ok i1) as Hst by (split_and!; cbn; lia).
  pose proof (inv_update _ _ _ H id i i1 Hi eq_refl eq_refl Hst) as H1.
  assert (mapInfo (update_info id i1 s) !! id = Some i1) as Hi1 by apply lookup_insert_eq.
  destruct (fInTried i1) eqn:Ht.
  { eexists. split_and!; [reflexivity|done|done|]. intros id' i' Hi' Hs'. destruct (Huniq _ _ Hi' Hs') as [-> ->].
    exists i1. split; [done|]. by split_and!. }
  destruct (find_new_bucket _ _ _ _ _) as [nb|] eqn:En; cycle 1.
  { exfalso. eapply (find_new_bucket_found _ _ _ id i1 i1); [exact H1|exact Hi1| |reflexivity|exact En].
    pose proof (cores_lookup _ _ _ Hi1) as Hc. rewrite Ht in Hc.
    apply (t_float _ _ _ _ _ (v_tables _ _ _ H1) _ _ _ Hc). apply not_elem_of_empty. }
  destruct (MakeTried_ok (E:=E) _ id i1 H1 Hi1 Ht) as (s' & -> & H' & Hc & p & Hi'); [cbn; lia|].
  exists s'. split_and!; [done|done|by rewrite Hc|]. intros id' i' Hid' Hs'. destruct (Huniq _ _ Hid' Hs') as [-> ->].
  eexists. split; [exact Hi'|]. by split_and!.
Qed.

Lemma find_service_spec X d s addr id i :
  inv X d s → find_service addr s = Some (id, i) → mapInfo s !! id = Some i ∧ i_service i = addr.
Proof.
  intros H. unfold find_service. destruct (Find (s_ip addr) s) as [id'|]; [|done].
  destruct (mapInfo s !! id') as [i'|] eqn:E; [|done]. case_bool_decide as Hsv; [done|]. intros [= <- <-].
  split; [done|]. destruct (decide (i_service i' = addr)); [done|by exfalso].
Qed.

Lemma Connected_ok addr nTime s : consistent s → consistent (Connected_ addr nTime s) ∧ nIdCount (Connected_ addr nTime s) = nIdCount s.
Proof.
  intros H. unfold Connected_. destruct (find_service addr s) as [[id i]|] eqn:E; [|done].
  apply (find_service_spec _ _ _ _ _ _ H) in E as [Hi _]. case_match; [|done]. split; [|done].
  apply (inv_update _ _ _ H id i _ Hi); try done. apply (v_stats _ _ _ H id i Hi).
Qed.

(** ** Drawing addresses *)

(** A draw is below its bound, as long as the bound is positive. *)
Definition draws_ok (GetRandInt : draws) : Prop := ∀ n m, 0 < m → 0 ≤ GetRandInt n m < m.

Definition pick (nNow : Z) (s : CAddrMan) (id : Z) : option CAddress :=
  match mapInfo s !! id with Some i => if IsTerrible nNow i then None else Some (i_addr i) | None => None end.

Lemma pick_frame nNow s s' id : frame ∅ s s' → pick nNow s' id = pick nNow s id.
Proof.
  intros Hf. unfold pick. destruct (mapInfo s !! id) as [i|] eqn:E.
  - destruct (frame_info _ _ _ _ _ Hf (not_elem_of_empty id) E) as [p ->]. done.
  - pose proof (f_info _ _ _ Hf id (not_elem_of_empty id)) as E'. rewrite E in E'. by destruct (mapInfo s' !! id).
Qed.

Lemma omap_same {A B} (f g : A → option B) (l : list A) : (∀ x, f x = g x) → omap f l = omap g l.
Proof. intros Hfg. induction l as [|x l IH]; [done|]. cbn. by rewrite Hfg, IH. Qed.
Lemma length_omap {A B} (f : A → option B) (l : list A) : (length (omap f l) ≤ length l)%nat.
Proof. induction l as [|x l IH]; [done|]. cbn. destruct (f x); cbn; lia. Qed.

(** Positions below [n] stay, and the rest of the vector is what the next draws see:
    the result is what [pick] takes of a prefix of the final vector. *)
Lemma getaddr_loop_ok {E} GetRandInt nNow nNodes fuel n vAddr s :
  draws_ok GetRandInt → consistent s → (n + fuel)%nat = length (vRandom s) →
  ∃ k s', getaddr_loop (E:=E) fuel GetRandInt nNow nNodes n vAddr s =
      Ok (vAddr ++ omap (pick nNow s) (take k (drop n (vRandom s'))), s') ∧
    consistent s' ∧ frame ∅ s s' ∧ take n (vRandom s') = take n (vRandom s) ∧ length (vRandom s') = length (vRandom s) ∧
    let out := Z.of_nat (length (vAddr ++ omap (pick nNow s) (take k (drop n (vRandom s'))))) in
    out ≤ Z.max (Z.of_nat (length vAddr)) nNodes ∧ ((n + k)%nat = length (vRandom s) ∨ nNodes ≤ out).
Proof.
  intros Hd. revert n vAddr s. induction fuel as [|fuel IH]; intros n vAddr s H Hn; cbn [getaddr_loop].
  { exists 0%nat, s. rewrite take_0, app_nil_r. split_and!; try done; [lia|left; lia]. }
  destruct (Z.leb_spec nNodes (Z.of_nat (length vAddr))) as [Hge|Hlt].
  { exists 0%nat, s. rewrite take_0, app_nil_r. split_and!; try done; [lia|by right]. }
  unfold size. specialize (Hd n (Z.of_nat (length (vRandom s)) - Z.of_nat n)) as Hdn.
  set (r := GetRandInt n _ + Z.of_nat n). assert (r = Z.of_nat (Z.to_nat r)) as -> by (unfold r; lia).
  destruct (SwapRandom_ok (E:=E) ∅ 0 s n (Z.to_nat r) H) as (s1 & -> & H1 & Hf1 & Hl1 & Hq & Hsame & _); [lia|unfold r; lia|].
  cbn [mbind outcome_bind]. assert (n < length (vRandom s1))%nat as Hn1 by lia.
  destruct (lookup_lt_is_Some_2 _ _ Hn1) as [id Hid]. rewrite Hid.
  destruct (random_info _ _ _ H1 _ _ Hid) as (i & Hi & _). unfold deref. rewrite Hi. cbn [mbind outcome_bind].
  set (vAddr1 := if IsTerrible nNow i then vAddr else vAddr ++ [i_addr i]).
  assert (vAddr1 = vAddr ++ omap (pick nNow s) [id]) as Ev.
  { unfold vAddr1. cbn. rewrite <- (pick_frame nNow s s1 id Hf1). unfold pick. rewrite Hi. by destruct (IsTerrible nNow i); rewrite ?app_nil_r. }
  destruct (IH (S n) vAddr1 s1 H1 ltac:(lia)) as (k & s' & Es & H' & Hf' & Ht & Hl & Hout).
  assert (vRandom s' !! n = Some id) as Hid'.
  { rewrite <- (lookup_take_lt _ (S n)) by lia. rewrite Ht, lookup_take_lt by lia. done. }
  assert (take (S k) (drop n (vRandom s')) = id :: take k (drop (S n) (vRandom s'))) as Etk by (by rewrite (drop_S _ id) by done).
  assert (omap (pick nNow s) (take (S k) (drop n (vRandom s'))) =
          omap (pick nNow s) [id] ++ omap (pick nNow s1) (take k (drop (S n) (vRandom s')))) as Eo.
  { rewrite Etk. change (id :: take k (drop (S n) (vRandom s'))) with ([id] ++ take k (drop (S n) (vRandom s'))). rewrite omap_app. f_equal.
    apply omap_same. intros x. symmetry. by apply pick_frame. }
  exists (S k), s'. rewrite Es, Eo, app_assoc, <- Ev. split_and!; [done|done|by eapply frame_trans| | |..].
  - apply list_eq. intros j. destruct (decide (j < n)%nat); [|rewrite !lookup_take_ge by lia; done].
    rewrite !lookup_take_lt by done. rewrite <- (lookup_take_lt _ (S n)) by lia. rewrite Ht, lookup_take_lt by lia.
    apply Hsame; [lia|]. unfold r. lia.
  - by rewrite Hl.
  - destruct Hout as [Ho _]. rewrite Ho. rewrite Ev, length_app. pose proof (length_omap (pick nNow s) [id]) as Hle. cbn [length] in Hle. lia.
  - destruct Hout as [_ [Ho|Ho]]; [left; lia|by right].
Qed.

(** ** The code's own check *)

Lemma elem_of_all_cells nb b p : (b, p) ∈ all_cells nb ↔ 0 ≤ b < nb ∧ 0 ≤ p < ADDRMAN_BUCKET_SIZE.
Proof.
  unfold all_cells. rewrite list_elem_of_bind. setoid_rewrite list_elem_of_bind.
  setoid_rewrite list_elem_of_singleton. setoid_rewrite elem_of_seqZ. split.
  - intros (x & (y & [= -> ->] & ?) & ?). lia.
  - intros [? ?]. exists b. split; [exists p; split; [done|lia]|lia].
Qed.
Lemma NoDup_all_cells nb : NoDup (all_cells nb).
Proof.
  unfold all_cells. apply NoDup_bind.
  - intros x1 x2 q _ _ Hx Hy. apply list_elem_of_bind in Hx as (y1 & Hx & _). apply list_elem_of_bind in Hy as (y2 & Hy & _).
    apply list_elem_of_singleton in Hx, Hy. congruence.
  - intros x _. apply NoDup_bind.
    + intros y1 y2 q _ _ Hx Hy. apply list_elem_of_singleton in Hx, Hy. congruence.
    + intros y _. apply NoDup_singleton.
    + apply NoDup_seqZ.
  - apply NoDup_seqZ.
Qed.

Section Check.
Context (s : CAddrMan).
Hypothesis H : consistent s.

Lemma check_infos_ok l T M :
  (∀ n i, (n, i) ∈ l → mapInfo s !! n = Some i) → NoDup l.*1 → (∀ n, n ∈ l.*1 → M !! n = None) →
  ∃ T' M', check_infos l s T M = inr (T', M') ∧
    (∀ id, id ∈ T' ↔ id ∈ T ∨ ∃ i, (id, i) ∈ l ∧ fInTried i = true) ∧
    (∀ id r, M' !! id = Some r ↔ M !! id = Some r ∨ ∃ i, (id, i) ∈ l ∧ fInTried i = false ∧ nRefCount i = r).
Proof.
  revert T M. induction l as [|[n i] l IH]; intros T M Hl Hnd HM; cbn [check_infos].
  { exists T, M. split_and!; [done|..]; intros; split; auto; intros [|(? & []%elem_of_nil & _)]; done. }
  assert (mapInfo s !! n = Some i) as Hi by (apply Hl; left). pose proof (cores_lookup _ _ _ Hi) as Hc.
  destruct (v_stats _ _ _ H _ _ Hi) as (Hs1 & Hs2 & Hs3 & _).
  pose proof (refs_nonneg _ _ _ _ _ (v_tables _ _ _ H) _ _ _ _ Hc) as Hr.
  pose proof (t_max _ _ _ _ _ (v_tables _ _ _ H) _ _ _ _ Hc) as Hr8.
  destruct (info_pos _ _ _ H _ _ Hi) as [Hp Hv]. pose proof (lookup_lt_Some _ _ _ Hv).
  rewrite (info_ip _ _ _ H _ _ Hi). cbn [default from_option id]. rewrite Z.eqb_refl. cbn [negb].
  rewrite (proj2 (Z.ltb_ge (nRandomPos i) 0)), (proj2 (Z.leb_gt (size s) (nRandomPos i))) by (unfold size; lia).
  rewrite (bool_decide_eq_false_2 _ (λ E, E Hv)). cbn [orb].
  rewrite (proj2 (Z.ltb_ge (i_nLastTry i) 0)), (proj2 (Z.ltb_ge (nLastSuccess i) 0)) by done.
  cbn [fmap list_fmap fst] in Hnd, HM. apply list.NoDup_cons in Hnd as [Hn Hnd].
  destruct (fInTried i) eqn:Ht; cbn [andb negb].
  - rewrite (tried_refs _ _ _ _ _ (v_tables _ _ _ H) _ _ _ Hc). rewrite (proj2 (Z.eqb_neq _ 0)) by auto. cbn.
    destruct (IH ({[n]} ∪ T) M) as (T' & M' & -> & HT & HM'); [intros; apply Hl; by right|done|intros; apply HM; by right|].
    exists T', M'. split_and!; [done|..].
    + intros x. rewrite HT, elem_of_union, elem_of_singleton. setoid_rewrite elem_of_cons. split.
      * intros [[->|?]|(i0 & ? & ?)]; eauto 6.
      * intros [?|(i0 & [[= -> ->]|?] & ?)]; eauto 6.
    + intros x r. rewrite HM'. setoid_rewrite elem_of_cons. split.
      * intros [?|(i0 & ? & ?)]; eauto 6.
      * intros [?|(i0 & [[= -> ->]|?] & ? & ?)]; [by left|congruence|eauto 6].
  - pose proof (t_float _ _ _ _ _ (v_tables _ _ _ H) _ _ _ Hc (not_elem_of_empty n)) as Hpos.
    unfold ADDRMAN_NEW_BUCKETS_PER_ADDRESS in *.
    rewrite (proj2 (Z.ltb_ge (nRefCount i) 0)), (proj2 (Z.ltb_ge 8 (nRefCount i))), (proj2 (Z.eqb_neq (nRefCount i) 0)) by (done || lia).
    cbn [orb].
    destruct (IH T (<[n := nRefCount i]> M)) as (T' & M' & -> & HT & HM').
    { intros; apply Hl; by right. } { done. }
    { intros x Hx. rewrite lookup_insert_ne by (intros ->; done). apply HM. by right. }
    exists T', M'. split_and!; [done|..].
    + intros x. rewrite HT. setoid_rewrite elem_of_cons. split.
      * intros [?|(i0 & ? & ?)]; eauto 6.
      * intros [?|(i0 & [[= -> ->]|?] & ?)]; [by left|congruence|eauto 6].
    + intros x r. rewrite HM'. setoid_rewrite elem_of_cons. destruct (decide (n = x)) as [<-|Hne].
      * rewrite lookup_insert_eq, (HM n) by left. split.
        { intros [[= <-]|(i0 & ? & ?)]; eauto 8. }
        { intros [?|(i0 & [[= ->]|?] & ? & <-)]; [done|by left|eauto 6]. }
      * rewrite lookup_insert_ne by done. split.
        { intros [?|(i0 & ? & ?)]; eauto 6. }
        { intros [?|(i0 & [[= -> ->]|?] & ? & ?)]; [by left|done|eauto 6]. }
Qed.

Lemma check_tried_ok l T :
  NoDup l → (∀ id, id ∈ T ↔ ∃ q, q ∈ l ∧ vvTried s !! q = Some id) → check_tried l s T = inr ∅.
Proof.
  revert T. induction l as [|[n i] l IH]; intros T Hnd HT; cbn [check_tried].
  { f_equal. apply set_eq. intros id. rewrite HT. split; [|set_solver]. intros (q & []%elem_of_nil & _). }
  apply list.NoDup_cons in Hnd as [Hn Hnd].
  destruct (tried_cell _ _ _ H n i) as [[E0 ->]|(c & info & E0 & -> & Hc & Hi & _)].
  - apply IH; [done|]. intros id. rewrite HT. setoid_rewrite elem_of_cons. naive_solver.
  - destruct (Z.eqb_spec c (-1)); [lia|]. rewrite bool_decide_eq_true_2 by (apply HT; exists (n, i); split; [left|done]).
    unfold map_at. rewrite Hi. cbn [negb fst].
    destruct (t_tried _ _ _ _ _ (v_tables _ _ _ H) _ _ _ E0) as (a & r & Hco & En & Ei).
    rewrite (cores_lookup _ _ _ Hi) in Hco. injection Hco as <- _ _.
    rewrite GetTriedBucket_service, GetBucketPosition_service, <- En, <- Ei, !Z.eqb_refl. cbn [negb].
    apply IH; [done|]. intros id. rewrite elem_of_difference, elem_of_singleton, HT. setoid_rewrite elem_of_cons. split.
    + intros [(q & [->|Hq] & Hv) Hne]; [congruence|eauto].
    + intros ([n' i'] & Hq & Hv). split; [eauto|]. intros ->.
      destruct (t_tried _ _ _ _ _ (v_tables _ _ _ H) _ _ _ Hv) as (a & r' & Hco & En' & Ei').
      rewrite (cores_lookup _ _ _ Hi) in Hco. injection Hco as <- _ _.
      assert (n' = n) as -> by congruence. assert (i' = i) as -> by congruence. done.
Qed.

Definition cells_left (id : Z) (l : list (Z * Z)) : list (Z * Z) := filter (λ q, vvNew s !! q = Some id) l.

Lemma check_new_ok l M :
  (∀ id r, M !! id = Some r ↔ r = Z.of_nat (length (cells_left id l)) ∧ 0 < r) → check_new l s M = inr ∅.
Proof.
  revert M. induction l as [|[n i] l IH]; intros M HM; cbn [check_new].
  { f_equal. apply map_eq. intros id. rewrite lookup_empty. destruct (M !! id) as [r|] eqn:E; [|done]. apply HM in E as [-> E].
    cbn in E. lia. }
  destruct (new_cell _ _ _ H n i) as [[E0 ->]|(c & info & E0 & -> & Hc & Hi & _)].
  - change (-1 =? -1) with true. cbn iota. apply IH. intros id r. rewrite HM. unfold cells_left. by rewrite filter_cons_False by congruence.
  - destruct (Z.eqb_spec c (-1)); [lia|].
    assert (cells_left c ((n, i) :: l) = (n, i) :: cells_left c l) as Ecl by (unfold cells_left; by rewrite filter_cons_True).
    assert (M !! c = Some (1 + Z.of_nat (length (cells_left c l)))) as Hmc.
    { apply HM. rewrite Ecl. cbn [length]. lia. }
    rewrite Hmc. unfold map_at. rewrite Hi. cbn [fst].
    destruct (t_new _ _ _ _ _ (v_tables _ _ _ H) _ _ _ E0) as [_ (a & r & Hco & Ei)].
    rewrite (cores_lookup _ _ _ Hi) in Hco. injection Hco as <- _ _.
    rewrite GetBucketPosition_service, <- Ei, Z.eqb_refl. cbn [negb].
    apply IH. intros id r0. destruct (decide (c = id)) as [<-|Hne].
    + destruct (Z.eqb_spec (1 + Z.of_nat (length (cells_left c l)) - 1) 0) as [E|E].
      * rewrite lookup_delete_eq. split; [done|lia].
      * rewrite lookup_insert_eq. split; [intros [= <-]; lia|intros [-> ?]; f_equal; lia].
    + assert (cells_left id ((n, i) :: l) = cells_left id l) as El by (unfold cells_left; rewrite filter_cons_False by congruence; done).
      rewrite <- El, <- HM. case_match; [by rewrite lookup_delete_ne|by rewrite lookup_insert_ne].
Qed.

Lemma cells_left_all id : Z.of_nat (length (cells_left id (all_cells ADDRMAN_NEW_BUCKET_COUNT))) = count (λ v, v =? id) (vvNew s).
Proof.
  unfold count. f_equal. rewrite <- size_dom.
  assert (dom (filter (λ kv : (Z * Z) * Z, (kv.2 =? id) = true) (vvNew s)) =
          (list_to_set (cells_left id (all_cells ADDRMAN_NEW_BUCKET_COUNT)) : gset (Z * Z))) as ->.
  { apply set_eq. intros [b p]. rewrite elem_of_dom, elem_of_list_to_set. unfold cells_left. rewrite list_elem_of_filter, elem_of_all_cells.
    split.
    - intros [v [Hv E]%map_lookup_filter_Some]. cbn in E. apply Z.eqb_eq in E as ->.
      destruct (t_new _ _ _ _ _ (v_tables _ _ _ H) _ _ _ Hv) as [Hb (a & r & _ & ->)]. split; [done|]. split; [done|apply bucket_pos_range].
    - intros [Hv _]. exists id. apply map_lookup_filter_Some. split; [done|apply Z.eqb_refl]. }
  rewrite size_list_to_set; [done|]. apply list.NoDup_filter, NoDup_all_cells.
Qed.

Lemma vRandom_size : size s = Z.of_nat (base.size (mapInfo s)).
Proof.
  unfold size. f_equal. rewrite <- size_dom.
  assert (dom (mapInfo s) = (list_to_set (vRandom s) : gset Z)) as ->.
  { apply set_eq. intros id. rewrite elem_of_dom, elem_of_list_to_set, list_elem_of_lookup. split.
    - intros [i Hi]. eexists. apply (info_pos _ _ _ H _ _ Hi).
    - intros [n Hn]. apply (random_info _ _ _ H) in Hn as (i & Hi & _). eauto. }
  symmetry. apply size_list_to_set, list.NoDup_alt. intros i j id. apply (random_ok_inj _ _ i j id (v_random _ _ _ H)).
Qed.

(** A consistent state passes. *)
Lemma Check_ok : Check_ s = 0.
Proof.
  unfold Check_.
  pose proof (v_tried _ _ _ H) as Hnt. pose proof (v_new _ _ _ H) as Hnn. unfold cores in Hnt, Hnn.
  rewrite count_fmap in Hnt, Hnn. cbn in Hnt, Hnn. rewrite Z.add_0_r in Hnn.
  rewrite vRandom_size, Hnt, Hnn, count_compl, Z.eqb_refl. cbn [negb].
  destruct (check_infos_ok (map_to_list (mapInfo s)) ∅ ∅) as (T & M & -> & HT & HM).
  { intros n i. apply elem_of_map_to_list. } { apply NoDup_fst_map_to_list. } { intros. apply lookup_empty. }
  setoid_rewrite elem_of_map_to_list in HT. setoid_rewrite elem_of_map_to_list in HM.
  assert (T = dom (filter (λ kv : Z * CAddrInfo, fInTried kv.2 = true) (mapInfo s))) as ET.
  { apply set_eq. intros id. rewrite HT, elem_of_dom. unfold is_Some. setoid_rewrite map_lookup_filter_Some. set_solver. }
  assert (M = nRefCount <$> filter (λ kv : Z * CAddrInfo, negb (fInTried kv.2) = true) (mapInfo s)) as EM.
  { apply map_eq. intros id. apply option_eq. intros r. rewrite HM, lookup_empty, lookup_fmap_Some. setoid_rewrite map_lookup_filter_Some.
    setoid_rewrite negb_true_iff. cbn. naive_solver. }
  assert (base.size T = base.size (filter (λ kv : Z * CAddrInfo, fInTried kv.2 = true) (mapInfo s))) as -> by (by rewrite ET, size_dom).
  assert (base.size M = base.size (filter (λ kv : Z * CAddrInfo, negb (fInTried kv.2) = true) (mapInfo s))) as -> by (by rewrite EM, map_size_fmap).
  unfold count. rewrite !Z.eqb_refl. cbn [negb].
  rewrite check_tried_ok; [|apply NoDup_all_cells|]; cycle 1.
  { intros id. rewrite HT. split.
    - intros [|(i & Hi & Ht)]; [set_solver|]. pose proof (cores_lookup _ _ _ Hi) as Hc. rewrite Ht in Hc.
      eexists. split; [|apply (t_intried _ _ _ _ _ (v_tables _ _ _ H) _ _ _ Hc)].
      apply elem_of_all_cells. split; [apply tried_bucket_range|apply bucket_pos_range].
    - intros ([b p] & _ & Hv). right. destruct (t_tried _ _ _ _ _ (v_tables _ _ _ H) _ _ _ Hv) as (a & r & Hc & _).
      apply cores_inv in Hc as (i & Hi & _ & Ht & _). eauto. }
  rewrite check_new_ok; cycle 1.
  { intros id r. rewrite HM, cells_left_all, lookup_empty. split.
    - intros [|(i & Hi & Ht & <-)]; [done|]. pose proof (cores_lookup _ _ _ Hi) as Hc. rewrite Ht in Hc. split.
      + apply (t_refs _ _ _ _ _ (v_tables _ _ _ H) _ _ _ _ Hc).
      + apply (t_float _ _ _ _ _ (v_tables _ _ _ H) _ _ _ Hc), not_elem_of_empty.
    - intros [-> Hr]. right. apply count_ex in Hr as ([b p] & v & Hv & ->%Z.eqb_eq).
      destruct (t_new _ _ _ _ _ (v_tables _ _ _ H) _ _ _ Hv) as [_ (a & r & Hc & _)]. pose proof Hc as Hc'.
      apply cores_inv in Hc as (i & Hi & _ & Ht & <-). exists i. split_and!; [done|done|].
      apply (t_refs _ _ _ _ _ (v_tables _ _ _ H) _ _ _ _ Hc'). }
  rewrite !bool_decide_eq_true_2 by done. cbn [negb]. destruct (Z.eqb_spec (nKey s) 0); [|done]. by destruct (v_key _ _ _ H).
Qed.
End Check.
End Manager.

(** ** Every sequence of operations *)

Lemma consistent_mono N N' s : N ≤ N' → consistent N s → consistent N' s.
Proof. intros HN []. split; try done. intros id i Hi. destruct (v_stats0 id i Hi) as (? & ? & ? & ?). split_and!; [done..|lia]. Qed.

Lemma consistent_new N k : k ≠ 0 → consistent N (CAddrMan_new k).
Proof.
  intros Hk. split; unfold cores; cbn; rewrite ?fmap_empty, ?count_empty; try done.
  - intros id p. rewrite lookup_nil. split; [done|]. by intros [_ ?].
Qed.

Lemma Attempt_ok {E} N addr nTime s :
  N < INT32_MAX → 0 ≤ nTime → consistent N s →
  ∃ s', Attempt_ (E:=E) addr nTime s = Ok s' ∧ consistent (N + 1) s' ∧ nIdCount s' = nIdCount s.
Proof.
  intros HN Ht H. pose proof (consistent_mono N (N + 1) s ltac:(lia) H) as H1. unfold Attempt_.
  destruct (find_service addr s) as [[id i]|] eqn:Ef; [|eauto].
  apply (find_service_spec _ _ _ _ _ _ _ H) in Ef as [Hi _]. destruct (v_stats _ _ _ _ H _ _ Hi) as (Hs & ? & ? & Ha).
  unfold assert_that. rewrite (proj2 (Z.ltb_lt _ _)) by lia. cbn [mbind outcome_bind]. eexists. split_and!; [reflexivity| |done].
  apply (inv_update _ _ _ _ H1 id i _ Hi); [done|done|]. split_and!; [done|done|done|cbn; lia].
Qed.

Inductive op :=
| OpAdd (GetRandInt : nat → draws) (nNow : Z) (vAddr : list CAddress) (src : CNetAddr) (nTimePenalty : Z)
| OpGood (GetRandInt : draws) (addr : CService) (nTime : Z)
| OpAttempt (addr : CService) (nTime : Z)
| OpConnected (addr : CService) (nTime : Z)
| OpGetAddr (GetRandInt : draws) (nNow : Z).

Definition exec {E} (o : op) (s : CAddrMan) : outcome E CAddrMan :=
  match o with
  | OpAdd r nNow vAddr src pen => '(_, s) ← Add r nNow vAddr src pen s; Ok s
  | OpGood r addr nTime => Good_ r addr nTime s
  | OpAttempt addr nTime => Attempt_ addr nTime s
  | OpConnected addr nTime => Ok (Connected_ addr nTime s)
  | OpGetAddr r nNow => '(_, s) ← GetAddr_ r nNow [] s; Ok s
  end.
Fixpoint exec_all {E} (l : list op) (s : CAddrMan) : outcome E CAddrMan :=
  match l with [] => Ok s | o :: l => s ← exec o s; exec_all l s end.

(** The clock is past the epoch, and draws are below their bounds. *)
Definition op_ok (o : op) : Prop :=
  match o with
  | OpGood _ _ nTime => 0 < nTime
  | OpAttempt _ nTime => 0 ≤ nTime
  | OpGetAddr r _ => draws_ok r
  | _ => True
  end.
(** What an operation can take from the range of an [int]. *)
Definition op_cost (o : op) : Z :=
  match o with OpAdd _ _ vAddr _ _ => Z.of_nat (length vAddr) | OpAttempt _ _ => 1 | _ => 0 end.

Lemma Add_all_ok {E} N r nNow vAddr src pen nAdd s :
  0 ≤ N → consistent N s → nIdCount s + Z.of_nat (length vAddr) ≤ INT32_MAX →
  ∃ n s', Add_all (E:=E) r nNow vAddr src pen nAdd s = Ok (n, s') ∧ consistent N s' ∧
    nIdCount s' ≤ nIdCount s + Z.of_nat (length vAddr).
Proof.
  intros HN. revert r nAdd s. induction vAddr as [|a l IH]; intros r nAdd s H Hlt; cbn [Add_all length] in *.
  { exists nAdd, s. split_and!; [done|done|lia]. }
  destruct (Add_ok (E:=E) N (r O) nNow a src pen s HN H) as (b & s1 & -> & H1 & Hc); [lia|]. cbn [mbind outcome_bind].
  destruct (IH (λ n, r (S n)) (nAdd + Z.b2z b) s1 H1) as (n & s' & -> & H' & Hc'); [lia|]. exists n, s'. split_and!; [done|done|lia].
Qed.

(** How many addresses [GetAddr_] wants. *)
Definition getaddr_limit (s : CAddrMan) : Z := Z.min (ADDRMAN_GETADDR_MAX_PCT * size s / 100) ADDRMAN_GETADDR_MAX.

Lemma GetAddr_ok {E} N r nNow s :
  draws_ok r → consistent N s →
  ∃ k s', GetAddr_ (E:=E) r nNow [] s = Ok (omap (pick nNow s) (take k (vRandom s')), s') ∧
    consistent N s' ∧ frame ∅ s s' ∧ length (vRandom s') = length (vRandom s) ∧
    let out := Z.of_nat (length (omap (pick nNow s) (take k (vRandom s')))) in
    out ≤ getaddr_limit s ∧ (k = length (vRandom s) ∨ getaddr_limit s ≤ out).
Proof.
  intros Hd H. unfold GetAddr_, getaddr_limit. pose proof (size_bound _ _ _ _ H) as Hsz. pose proof (v_max _ _ _ _ H) as Hmax.
  unfold ADDRMAN_GETADDR_MAX_PCT, INT32_MAX in *.
  rewrite u32_id by (unfold is_u; Z.to_euclidean_division_equations; lia).
  destruct (getaddr_loop_ok (E:=E) N r nNow (Z.min (23 * size s / 100) ADDRMAN_GETADDR_MAX) (length (vRandom s)) 0 [] s Hd H eq_refl) as
    (k & s' & -> & H' & Hf & _ & Hl & Hout). rewrite drop_0 in *. cbn [app length Nat.add] in *.
  exists k, s'. split_and!; [done|done|done|done| |by destruct Hout].
  destruct Hout as [Ho _]. unfold ADDRMAN_GETADDR_MAX in *. Z.to_euclidean_division_equations. lia.
Qed.

Lemma exec_ok {E} N o s :
  0 ≤ N → consistent N s → nIdCount s ≤ N → op_ok o → N + op_cost o ≤ INT32_MAX →
  ∃ s', exec (E:=E) o s = Ok s' ∧ consistent (N + op_cost o) s' ∧ nIdCount s' ≤ N + op_cost o.
Proof.
  intros HN H Hc Ho Hm. destruct o as [r nNow vAddr src pen|r addr t|addr t|addr t|r nNow]; cbn [exec op_ok op_cost] in *.
  - unfold Add. destruct (Add_all_ok (E:=E) N r nNow vAddr src pen 0 s HN H) as (n & s' & -> & H' & Hc'); [lia|].
    cbn [mbind outcome_bind]. exists s'. split_and!; [done|eapply consistent_mono; [|done]; lia|lia].
  - destruct (Good_ok (E:=E) N r addr t s HN Ho H) as (s' & -> & H' & Hc' & _). exists s'. rewrite Z.add_0_r. split_and!; [done..|lia].
  - destruct (Attempt_ok (E:=E) N addr t s) as (s' & -> & H' & Hc'); [lia|done|done|]. exists s'. split_and!; [done..|lia].
  - destruct (Connected_ok N addr t s H) as [H' Hc']. eexists. rewrite Z.add_0_r. split_and!; [done..|lia].
  - destruct (GetAddr_ok (E:=E) N r nNow s Ho H) as (k & s' & -> & H' & Hf & _). cbn [mbind outcome_bind].
    exists s'. rewrite Z.add_0_r. split_and!; [done..|]. rewrite (f_count _ _ _ Hf). lia.
Qed.

Lemma exec_all_ok {E} N l s :
  0 ≤ N → consistent N s → nIdCount s ≤ N → Forall op_ok l → N + sum_Z op_cost l ≤ INT32_MAX →
  ∃ s', exec_all (E:=E) l s = Ok s' ∧ consistent (N + sum_Z op_cost l) s'.
Proof.
  revert N s. induction l as [|o l IH]; intros N s HN H Hc Hl Hm; cbn [exec_all].
  { exists s. split; [done|]. by rewrite Z.add_0_r. }
  apply list.Forall_cons in Hl as [Ho Hl]. rewrite sum_Z_cons in *.
  assert (∀ l', 0 ≤ sum_Z op_cost l') as Hnn.
  { intros l'. apply (sum_Z_bounds op_cost op_cost). intros []; cbn; lia. }
  assert (0 ≤ op_cost o) as Hco by (destruct o; cbn; lia). specialize (Hnn l).
  destruct (exec_ok (E:=E) N o s HN H Hc Ho) as (s1 & -> & H1 & Hc1); [lia|]. cbn [mbind outcome_bind].
  destruct (IH (N + op_cost o) s1) as (s' & -> & H'); [lia|done|done|done|lia|]. exists s'. split; [done|]. by rewrite Z.add_assoc.
Qed.

(** C13: the address manager starts empty, and then any sequence of operations, adding
    addresses, marking them good, attempted or connected, and drawing some of them,
    completes without a failed assertion and leaves a state in which the maps, the
    shuffled vector, both tables and the counters agree, so that the code's own
    consistency check returns 0; this for as long as fewer than 2^31 addresses and
    attempts have been counted. *)
Theorem operations_consistent {E} (GetRandHash : Z) (l : list op) :
  GetRandHash ≠ 0 → Forall op_ok l → sum_Z op_cost l ≤ INT32_MAX →
  ∃ s, exec_all (E:=E) l (CAddrMan_new GetRandHash) = Ok s ∧ Check_ s = 0.
Proof.
  intros Hk Hl Hm. destruct (exec_all_ok (E:=E) 0 l (CAddrMan_new GetRandHash)) as (s & -> & H); [lia|by apply consistent_new|done|done|lia|].
  exists s. split; [done|]. by eapply Check_ok.
Qed.

Definition demo_service (d : Z) : CService := Service (ipv4_addr 8 8 4 d) 46392.
Definition demo_ops : list op :=
  [OpAdd (λ _ _ _, 0) 1500000000 [CAddress_of (demo_service 4) 1; CAddress_of (demo_service 8) 1] (ipv4_addr 9 9 9 9) 7200;
   OpGood (λ _ _, 0) (demo_service 4) 1500000000; OpAttempt (demo_service 8) 1500000001; OpGetAddr (λ _ _, 0) 1500000002].
Lemma operations_consistent_witness :
  ∃ s, exec_all (E:=Empty_set) demo_ops (CAddrMan_new 7) = Ok s ∧ Check_ s = 0.
Proof.
  apply operations_consistent; [done| |by_decision]. unfold demo_ops. repeat (apply list.Forall_cons; split); cbn; try lia; done.
Defined.

(** Marking the service of a known entry good always succeeds: wherever the search
    for one of its new buckets starts, it finds one, and the entry ends in the tried
    table with the time as its last success and last try and no failed attempts; the
    entry it pushes out is still known, and the state stays consistent. *)
Theorem Good_moves_to_tried {E} (N : Z) (GetRandInt : draws) (nTime : Z) (s : CAddrMan) (id : Z) (i : CAddrInfo) :
  0 ≤ N → 0 < nTime → consistent N s → mapInfo s !! id = Some i →
  ∃ s' i', Good_ (E:=E) GetRandInt (i_service i) nTime s = Ok s' ∧ Check_ s' = 0 ∧
    mapInfo s' !! id = Some i' ∧ made_good (i_service i) nTime i' ∧
    cell (vvTried s') (GetTriedBucket (nKey s') i') (GetBucketPosition (nKey s') false (GetTriedBucket (nKey s') i') i') = id.
Proof.
  intros HN Ht H Hi. destruct (Good_ok (E:=E) N GetRandInt (i_service i) nTime s HN Ht H) as (s' & Es & H' & _ & Hg).
  destruct (Hg id i Hi eq_refl) as (i' & Hi' & Hm). exists s', i'. split_and!; [done|by eapply Check_ok|done|done|].
  pose proof Hm as (_ & Htr & _). pose proof (cores_lookup _ _ _ Hi') as Hc. rewrite Htr in Hc.
  rewrite GetTriedBucket_service, GetBucketPosition_service. unfold cell.
  by rewrite (t_intried _ _ _ _ _ (v_tables _ _ _ _ H') _ _ _ Hc).
Qed.

(** What is drawn for a peer: [NoDup] addresses out of those that are not terrible. *)
Lemma NoDup_omap {A B C} (f : A → option B) (g : B → C) (l : list A) :
  NoDup l → (∀ x y a b, f x = Some a → f y = Some b → g a = g b → x = y) → NoDup (g <$> omap f l).
Proof.
  intros Hl Hinj. induction Hl as [|x l Hx Hl IH]; [constructor|]. cbn. destruct (f x) as [a|] eqn:E; [|done].
  cbn. constructor; [|done]. rewrite list_elem_of_fmap. intros (b & Eb & (y & Hy & Ey)%list_elem_of_omap).
  by rewrite (Hinj x y a b E Ey Eb) in Hx.
Qed.

(** C38: [GetAddr_] answers with distinct addresses of known entries that are not
    terrible, at most 2500 and at most 23 percent of them all; and when it answers
    with fewer, it leaves out no entry that is not terrible. *)
Theorem GetAddr_sound {E} (N : Z) (GetRandInt : draws) (nNow : Z) (s : CAddrMan) :
  draws_ok GetRandInt → consistent N s →
  ∃ l s', GetAddr_ (E:=E) GetRandInt nNow [] s = Ok (l, s') ∧ Check_ s' = 0 ∧
    NoDup ((λ a, s_ip (a_service a)) <$> l) ∧
    Forall (λ a, ∃ id i, mapInfo s !! id = Some i ∧ i_addr i = a ∧ IsTerrible nNow i = false) l ∧
    Z.of_nat (length l) ≤ getaddr_limit s ∧
    (Z.of_nat (length l) < getaddr_limit s → ∀ id i, mapInfo s !! id = Some i → IsTerrible nNow i = false → i_addr i ∈ l).
Proof.
  intros Hd H. destruct (GetAddr_ok (E:=E) N GetRandInt nNow s Hd H) as (k & s' & Es & H' & Hf & Hl & Hle & Hall).
  assert (∀ id a, pick nNow s id = Some a ↔ ∃ i, mapInfo s !! id = Some i ∧ i_addr i = a ∧ IsTerrible nNow i = false) as Hpick.
  { intros id a. unfold pick. destruct (mapInfo s !! id) as [i|]; [|split; [done|by intros (? & ? & _)]].
    destruct (IsTerrible nNow i) eqn:Et; split; [done|intros (? & [= <-] & _ & ?); congruence|intros [= <-]; eauto|intros (? & [= <-] & <- & _); done]. }
  exists (omap (pick nNow s) (take k (vRandom s'))), s'. split_and!; [done|by eapply Check_ok| | |done|].
  - apply NoDup_omap.
    + apply (sublist_NoDup _ (vRandom s')); [|apply sublist_take]. apply list.NoDup_alt. intros x y id.
      apply (random_ok_inj _ _ x y id (v_random _ _ _ _ H')).
    + intros x y a b (i & Hi & <- & _)%Hpick (j & Hj & <- & _)%Hpick Eab.
      pose proof (info_ip _ _ _ _ H _ _ Hi) as E1. pose proof (info_ip _ _ _ _ H _ _ Hj) as E2.
      unfold i_ip, i_service in E1, E2. congruence.
  - apply list.Forall_forall. intros a (id & _ & Ha)%list_elem_of_omap. exists id. by apply Hpick.
  - intros Hlt id i Hi Ht. apply list_elem_of_omap. destruct Hall as [->|Hge]; [|lia].
    destruct (frame_info _ _ _ _ _ Hf (not_elem_of_empty id) Hi) as [p Hi'].
    exists id. split; [|apply Hpick; eauto]. rewrite take_ge by lia. apply list_elem_of_lookup.
    eexists. apply (info_pos _ _ _ _ H' _ _ Hi').
Qed.

(** A manager that was told one address. *)
Definition demo_add {E} : outcome E (bool * CAddrMan) :=
  Add_ (λ _ _, 0) 1500000000 (CAddress_of (demo_service 4) 1) (ipv4_addr 9 9 9 9) 0 (CAddrMan_new 7).
Definition demo_entry (m : outcome Empty_set (bool * CAddrMan)) : option CService :=
  match m with Ok (_, s) => i_service <$> mapInfo s !! 0 | _ => None end.
Lemma demo_known : demo_entry demo_add = Some (demo_service 4).
Proof. by_decision. Qed.
Lemma demo_state : ∃ s i, demo_add (E:=Empty_set) = Ok (true, s) ∧ consistent 0 s ∧ mapInfo s !! 0 = Some i ∧ i_service i = demo_service 4.
Proof.
  destruct (Add_ok (E:=Empty_set) 0 (λ _ _, 0) 1500000000 (CAddress_of (demo_service 4) 1) (ipv4_addr 9 9 9 9) 0 (CAddrMan_new 7))
    as (b & s & E & H & _); [done|by apply consistent_new|done|].
  pose proof demo_known as K. unfold demo_add in *. rewrite E in K |- *. cbn [demo_entry] in K.
  destruct (mapInfo s !! 0) as [i|] eqn:Hi; [|done]. exists s, i. split_and!; [|done|done|by injection K].
  destruct b; [done|]. exfalso. apply (f_equal (λ m, match m with Ok (b, _) => b | _ => true end)) in E. vm_compute in E. done.
Qed.

Lemma Good_moves_to_tried_witness :
  ∃ s s' i', Good_ (E:=Empty_set) (λ _ _, 1000) (demo_service 4) 1500000001 s = Ok s' ∧ mapInfo s' !! 0 = Some i' ∧ fInTried i' = true.
Proof.
  destruct demo_state as (s & i & _ & H & Hi & Es).
  destruct (Good_moves_to_tried (E:=Empty_set) 0 (λ _ _, 1000) 1500000001 s 0 i ltac:(lia) ltac:(lia) H Hi)
    as (s' & i' & E & _ & Hi' & (_ & Ht & _) & _).
  exists s, s', i'. rewrite <- Es. split_and!; [exact E|exact Hi'|exact Ht].
Defined.

Lemma GetAddr_sound_witness :
  ∃ s l s', GetAddr_ (E:=Empty_set) (λ _ _, 0) 1500000001 [] s = Ok (l, s') ∧ size s = 1 ∧ Z.of_nat (length l) ≤ getaddr_limit s.
Proof.
  destruct demo_state as (s & i & E & H & Hi & Es).
  assert (draws_ok (λ _ _, 0)) as Hd by (intros n m Hm; lia).
  destruct (GetAddr_sound (E:=Empty_set) 0 (λ _ _, 0) 1500000001 s Hd H) as (l & s' & Eg & _ & _ & _ & Hl & _).
  exists s, l, s'. split; [exact Eg|]. split; [|exact Hl].
  apply (f_equal (λ m, match m with Ok (_, s) => size s | _ => 0 end)) in E. rewrite <- E. by_decision.
Defined.

(** ** Select_ *)

(** The occupied cells of a table name entries. *)
Lemma select_loop_safe {E} N fuel pow r k nNow nb vv f s :
  consistent N s → (∀ q id, vv !! q = Some id → is_Some (mapInfo s !! id)) →
  match select_loop (E:=E) fuel pow r k nNow nb vv f s with
  | Ok a => ∃ q id i, vv !! q = Some id ∧ mapInfo s !! id = Some i ∧ a = i_addr i
  | OutOfFuel => True
  | _ => False
  end.
Proof.
  intros H Hvv. revert k f. induction fuel as [|fuel IH]; intros k f; cbn [select_loop]; [done|].
  unfold cell. destruct (vv !! (r k nb, r (S k) ADDRMAN_BUCKET_SIZE)) as [x|] eqn:E0; cbn [default from_option id]; [|apply IH].
  destruct (Hvv _ _ E0) as [i Hi]. pose proof (info_id _ _ _ _ H _ _ Hi).
  destruct (Z.eqb_spec x (-1)); [lia|]. unfold deref. rewrite Hi. cbn [mbind outcome_bind].
  destruct (d_lt _ _); [eauto 6|apply IH].
Qed.

Lemma tried_table_known N s q id : consistent N s → vvTried s !! q = Some id → ∃ i, mapInfo s !! id = Some i ∧ fInTried i = true.
Proof.
  intros H Hq. destruct q as [b p]. destruct (t_tried _ _ _ _ _ (v_tables _ _ _ _ H) _ _ _ Hq) as (a & r & Hc & _).
  apply cores_inv in Hc as (i & Hi & _ & Ht & _). eauto.
Qed.
Lemma new_table_known N s q id : consistent N s → vvNew s !! q = Some id → ∃ i, mapInfo s !! id = Some i ∧ fInTried i = false.
Proof.
  intros H Hq. destruct q as [b p]. destruct (t_new _ _ _ _ _ (v_tables _ _ _ _ H) _ _ _ Hq) as (_ & a & r & Hc & _).
  apply cores_inv in Hc as (i & Hi & _ & Ht & _). eauto.
Qed.

(** [Select_] never fails its assertion; what it returns is a known address, or the
    default one when there is none. *)
Lemma Select_safe {E} N fuel pow r nNow s :
  consistent N s →
  match Select_ (E:=E) fuel pow r nNow s with
  | Ok a => size s = 0 ∧ a = CAddress_Init ∨ ∃ id i, mapInfo s !! id = Some i ∧ a = i_addr i
  | OutOfFuel => True
  | _ => False
  end.
Proof.
  intros H. unfold Select_. destruct (Z.eqb_spec (size s) 0); [by left|].
  assert (∀ nb vv, (∀ q id, vv !! q = Some id → is_Some (mapInfo s !! id)) →
    match select_loop (E:=E) fuel pow r 1 nNow nb vv (d_of_Z 1) s with
    | Ok a => size s = 0 ∧ a = CAddress_Init ∨ ∃ id i, mapInfo s !! id = Some i ∧ a = i_addr i
    | OutOfFuel => True
    | _ => False
    end) as Hloop.
  { intros nb vv Hk. pose proof (select_loop_safe (E:=E) N fuel pow r 1 nNow nb vv (d_of_Z 1) s H Hk) as Hs.
    destruct (select_loop _ _ _ _ _ _ _ _ _); try done. destruct Hs as (q & id & i & _ & Hi & ->). right. eauto. }
  destruct ((0 <? nTried s) && _); apply Hloop; intros q id Hq.
  - destruct (tried_table_known _ _ _ _ H Hq) as (i & -> & _). eauto.
  - destruct (new_table_known _ _ _ _ H Hq) as (i & -> & _). eauto.
Qed.

(** The table that [Select_] looks in has an occupied cell, so some draws end the
    loop: the counters do not send it into an empty table. *)
Lemma Select_not_stuck N r s :
  consistent N s → size s ≠ 0 →
  ∃ b p, let vv := if (0 <? nTried s) && ((nNew s =? 0) || (r 0%nat 2 =? 0)) then vvTried s else vvNew s in cell vv b p ≠ -1.
Proof.
  intros H Hsz. pose proof (v_tried _ _ _ _ H) as Hnt. pose proof (v_new _ _ _ _ H) as Hnn. rewrite Z.add_0_r in Hnn.
  destruct ((0 <? nTried s) && ((nNew s =? 0) || (r 0%nat 2 =? 0))) eqn:Eb.
  - apply andb_true_iff in Eb as [Eb%Z.ltb_lt _]. rewrite Hnt in Eb. apply count_ex in Eb as (id & [[a t] rf] & Hc & Ht). cbn in Ht. subst t.
    pose proof (t_intried _ _ _ _ _ (v_tables _ _ _ _ H) _ _ _ Hc) as Hv. pose proof (t_ids _ _ _ _ _ (v_tables _ _ _ _ H) _ _ Hc).
    do 2 eexists. cbn. unfold cell. rewrite Hv. cbn. lia.
  - assert (0 < nNew s) as Hpos.
    { pose proof (count_nonneg (λ x : core, x.1.2) (cores s)). pose proof (count_nonneg (λ x : core, negb x.1.2) (cores s)).
      pose proof (count_compl (λ x : core, x.1.2) (cores s)) as Hsum. unfold cores in Hsum. rewrite map_size_fmap in Hsum.
      fold (cores s) in Hsum. rewrite <- (vRandom_size _ _ H) in Hsum.
      destruct (Z.eq_dec (nNew s) 0) as [E0|]; [|lia]. rewrite E0 in Eb. cbn in Eb. rewrite andb_true_r in Eb. apply Z.ltb_ge in Eb. lia. }
    rewrite Hnn in Hpos. apply count_ex in Hpos as (id & [[a t] rf] & Hc & Ht). apply negb_true_iff in Ht. cbn in Ht. subst t.
    pose proof (t_float _ _ _ _ _ (v_tables _ _ _ _ H) _ _ _ Hc (not_elem_of_empty id)) as Hr.
    rewrite (t_refs _ _ _ _ _ (v_tables _ _ _ _ H) _ _ _ _ Hc) in Hr. apply count_ex in Hr as ([b p] & v & Hv & ->%Z.eqb_eq).
    pose proof (t_ids _ _ _ _ _ (v_tables _ _ _ _ H) _ _ Hc). exists b, p. cbn. unfold cell. rewrite Hv. cbn. lia.
Qed.

Lemma check_infos_cleared s n i l : size s = 0 → ∃ e, check_infos ((n, i) :: l) s ∅ ∅ = inl e ∧ e ≠ 0.
Proof.
  intros Hs. cbn [check_infos]. rewrite Hs.
  assert ((nRandomPos i <? 0) || (0 <=? nRandomPos i) = true) as ->.
  { destruct (Z.ltb_spec (nRandomPos i) 0), (Z.leb_spec 0 (nRandomPos i)); cbn; lia. }
  cbn [orb]. repeat match goal with |- context [if ?b then inl _ else _] => destruct b; [eexists; split; [reflexivity|lia]|] end.
  eexists. split; [reflexivity|lia].
Qed.

(** [Clear] empties the tables and the vector but not the maps, so on a manager that
    knows an address it leaves a state that the consistency check refuses. *)
Lemma Clear_keeps_entries k s : mapInfo s ≠ ∅ → Check_ (Clear k s) ≠ 0.
Proof.
  intros Hne. unfold Check_. change (size (Clear k s)) with 0. change (nTried (Clear k s) + nNew (Clear k s)) with 0.
  rewrite Z.eqb_refl. cbn [negb]. change (mapInfo (Clear k s)) with (mapInfo s).
  destruct (map_to_list (mapInfo s)) as [|[n i] l] eqn:El.
  { exfalso. apply Hne. apply map_to_list_empty_iff. exact El. }
  destruct (check_infos_cleared (Clear k s) n i l eq_refl) as (e & -> & He). exact He.
Qed.
