(* ===== verification/Bloom.v ===== *)
(** * Bloom filters and filtered blocks (bloom.h, bloom.cpp; CMerkleBlock in merkleblock.cpp)

    A light client sends a filter, and gets the transactions that match it.  The filter
    is a bit vector that comes from the network, so its size may be anything.  The
    theorems: whatever messages a peer sends, its filter is never indexed outside its
    vector; it has no false negatives; once an output has matched, every spend of it
    does; and the filtered block sent to the client proves exactly the transactions that
    are relevant to the filter, which [relevant] defines by the four rules of the code. *)
From stdpp Require Import base tactics list gmap numbers option.
From Stdlib Require Import ZArith Lia.
From S2P Require Import Prelude.
From S2P Require Import Serialize.
From S2P Require Import BaseUint.
From S2P Require Import Crypto.
From S2P Require Import ScriptCode.
From S2P Require Import Transaction.
From S2P Require Import Standard.
From S2P Require Import Chain.
From S2P Require Import Merkle.
From S2P Require Import PartialMerkle.
From S2P Require Import Block.

Definition MAX_BLOOM_FILTER_SIZE : Z := 36000.
Definition MAX_HASH_FUNCS : Z := 50.
Definition BLOOM_UPDATE_ALL : Z := 1.
Definition BLOOM_UPDATE_P2PUBKEY_ONLY : Z := 2.
Definition BLOOM_UPDATE_MASK : Z := 3.

Record CBloomFilter := BloomFilter {
  vData : list Z;
  isFull : bool;
  isEmpty : bool;
  nHashFuncs : Z;   (** unsigned int *)
  nTweak : Z;       (** unsigned int *)
  nFlags : Z        (** unsigned char *)
}.

Definition CBloomFilter_new : CBloomFilter := BloomFilter [] true false 0 0 0.
Definition with_bits (v : list Z) (e : bool) (f : CBloomFilter) : CBloomFilter :=
  BloomFilter v (isFull f) e (nHashFuncs f) (nTweak f) (nFlags f).

(** ** The wire format; the two flags stay as they were. *)
Definition ser_bloom (f : CBloomFilter) : list Z :=
  ser_blob (vData f) ++ WRITEDATA 4 (nHashFuncs f) ++ WRITEDATA 4 (nTweak f) ++ WRITEDATA 1 (nFlags f).
Definition unser_bloom (f : CBloomFilter) : reader CBloomFilter := λ s,
  '(v, s) ← unser_blob s;
  '(n, s) ← READDATA 4 s;
  '(t, s) ← READDATA 4 s;
  '(fl, s) ← READDATA 1 s;
  Ok (BloomFilter v (isFull f) (isEmpty f) n t fl, s).

(** ** Bits *)

(** [Hash]: the remainder by zero of an empty vector is undefined. *)
Definition bloom_Hash (f : CBloomFilter) (nHashNum : Z) (vDataToHash : list Z) : res Z :=
  let n := Z.of_nat (length (vData f)) * 8 in
  assert_that (negb (n =? 0));;
  Ok (MurmurHash3 (u32 (nHashNum * 0xFBA4C795 + nTweak f)) vDataToHash mod n).

Definition set_bit (v : list Z) (nIndex : Z) : res (list Z) :=
  match v !! Z.to_nat (Z.shiftr nIndex 3) with
  | Some b => Ok (<[Z.to_nat (Z.shiftr nIndex 3) := Z.lor b (Z.shiftl 1 (Z.land 7 nIndex))]> v)
  | None => AssertFail
  end.
Definition get_bit (v : list Z) (nIndex : Z) : res bool :=
  match v !! Z.to_nat (Z.shiftr nIndex 3) with
  | Some b => Ok (negb (Z.land b (Z.shiftl 1 (Z.land 7 nIndex)) =? 0))
  | None => AssertFail
  end.

(** The loops over the hash functions that are left. *)
Fixpoint insert_loop (l : list Z) (vKey : list Z) (f : CBloomFilter) : res CBloomFilter :=
  match l with
  | [] => Ok f
  | i :: l =>
      nIndex ← bloom_Hash f i vKey;
      v ← set_bit (vData f) nIndex;
      insert_loop l vKey (with_bits v (isEmpty f) f)
  end.
Definition insert (vKey : list Z) (f : CBloomFilter) : res CBloomFilter :=
  if isFull f then Ok f
  else f ← insert_loop (seqZ 0 (nHashFuncs f)) vKey f; Ok (with_bits (vData f) false f).

Fixpoint contains_loop (l : list Z) (vKey : list Z) (f : CBloomFilter) : res bool :=
  match l with
  | [] => Ok true
  | i :: l =>
      nIndex ← bloom_Hash f i vKey;
      b ← get_bit (vData f) nIndex;
      if b : bool then contains_loop l vKey f else Ok false
  end.
Definition contains (vKey : list Z) (f : CBloomFilter) : res bool :=
  if isFull f then Ok true
  else if isEmpty f then Ok false
  else contains_loop (seqZ 0 (nHashFuncs f)) vKey f.

Definition insert_outpoint (o : COutPoint) : CBloomFilter → res CBloomFilter := insert (ser_outpoint o).
Definition insert_hash (h : Z) : CBloomFilter → res CBloomFilter := insert (ser_uint256 h).
Definition contains_outpoint (o : COutPoint) : CBloomFilter → res bool := contains (ser_outpoint o).
Definition contains_hash (h : Z) : CBloomFilter → res bool := contains (ser_uint256 h).

Definition clear (f : CBloomFilter) : CBloomFilter :=
  BloomFilter (replicate (length (vData f)) 0) false true (nHashFuncs f) (nTweak f) (nFlags f).
Definition IsWithinSizeConstraints (f : CBloomFilter) : bool :=
  (Z.of_nat (length (vData f)) <=? MAX_BLOOM_FILTER_SIZE) && (nHashFuncs f <=? MAX_HASH_FUNCS).
Definition UpdateEmptyFull (f : CBloomFilter) : CBloomFilter :=
  BloomFilter (vData f) (forallb (λ b, b =? 0xff) (vData f)) (forallb (λ b, b =? 0) (vData f))
    (nHashFuncs f) (nTweak f) (nFlags f).

(** ** Transactions *)

(** The loop over the pushes of a script: whether one is in the filter.  The length of
    the script is fuel enough. *)
Fixpoint match_pushes (fuel : nat) (pc : list Z) (f : CBloomFilter) : res bool :=
  match pc with
  | [] => Ok false
  | _ =>
      match fuel with
      | O => OutOfFuel
      | S fuel =>
          let r := GetOp2 pc in
          if negb (fRet r) then Ok false
          else
            m ← (if (length (vchRet r) =? 0)%nat then Ok false else contains (vchRet r) f);
            if m : bool then Ok true else match_pushes fuel (pcRet r) f
      end
  end.
Definition match_script (script : list Z) (f : CBloomFilter) : res bool := match_pushes (length script) script f.

(** What a matched output adds. *)
Definition update_for_output (hash : Z) (i : nat) (script : list Z) (f : CBloomFilter) : res CBloomFilter :=
  let fl := Z.land (nFlags f) BLOOM_UPDATE_MASK in
  if fl =? BLOOM_UPDATE_ALL then insert_outpoint (OutPoint hash (Z.of_nat i)) f
  else if fl =? BLOOM_UPDATE_P2PUBKEY_ONLY then
    '(ok, type, _) ← Solver script;
    if (ok : bool) && (bool_decide (type = TX_PUBKEY) || bool_decide (type = TX_MULTISIG))
    then insert_outpoint (OutPoint hash (Z.of_nat i)) f else Ok f
  else Ok f.

Fixpoint scan_outputs (hash : Z) (i : nat) (vouts : list CTxOut) (fFound : bool) (f : CBloomFilter) : res (bool * CBloomFilter) :=
  match vouts with
  | [] => Ok (fFound, f)
  | txout :: vouts =>
      m ← match_script (scriptPubKey txout) f;
      if m : bool then
        f ← update_for_output hash i (scriptPubKey txout) f;
        scan_outputs hash (S i) vouts true f
      else scan_outputs hash (S i) vouts fFound f
  end.

Fixpoint scan_inputs (vins : list CTxIn) (f : CBloomFilter) : res bool :=
  match vins with
  | [] => Ok false
  | txin :: vins =>
      m ← contains_outpoint (prevout txin) f;
      if m : bool then Ok true
      else
        m ← match_script (scriptSig txin) f;
        if m : bool then Ok true else scan_inputs vins f
  end.

Definition IsRelevantAndUpdate (tx : CTransaction) (f : CBloomFilter) : res (bool * CBloomFilter) :=
  if isFull f then Ok (true, f)
  else if isEmpty f then Ok (false, f)
  else
    fFound ← contains_hash (tx_hash tx) f;
    '(fFound, f) ← scan_outputs (tx_hash tx) 0 (vout tx) fFound f;
    if fFound : bool then Ok (true, f)
    else m ← scan_inputs (vin tx) f; Ok (m, f).

(** ** The messages about filters: the peer's filter, and its misbehaviour score. *)

Definition filterload (filter : CBloomFilter) (pfilter : option CBloomFilter) : option CBloomFilter * Z :=
  if negb (IsWithinSizeConstraints filter) then (pfilter, 100) else (Some (UpdateEmptyFull filter), 0).
Definition MAX_SCRIPT_ELEMENT_SIZE : Z := 520.
Definition filteradd (data : list Z) (pfilter : option CBloomFilter) : res (option CBloomFilter * Z) :=
  if MAX_SCRIPT_ELEMENT_SIZE <? Z.of_nat (length data) then Ok (pfilter, 100)
  else
    match pfilter with
    | Some f => f ← insert data f; Ok (Some f, 0)
    | None => Ok (None, 100)
    end.
Definition filterclear : option CBloomFilter := Some CBloomFilter_new.

(** What happens to the filter of a peer: its three messages, and the transactions that
    are relayed to it or sent to it in a filtered block. *)
Inductive filter_event :=
| FilterLoad (filter : CBloomFilter)
| FilterAdd (data : list Z)
| FilterClear
| RelayTransaction (tx : CTransaction).

Definition filter_step (e : filter_event) (pfilter : option CBloomFilter) : res (option CBloomFilter) :=
  match e with
  | FilterLoad filter => Ok (filterload filter pfilter).1
  | FilterAdd data => '(pfilter, _) ← filteradd data pfilter; Ok pfilter
  | FilterClear => Ok filterclear
  | RelayTransaction tx =>
      match pfilter with
      | Some f => '(_, f) ← IsRelevantAndUpdate tx f; Ok (Some f)
      | None => Ok None
      end
  end.
Fixpoint filter_run (evs : list filter_event) (pfilter : option CBloomFilter) : res (option CBloomFilter) :=
  match evs with
  | [] => Ok pfilter
  | e :: evs => pfilter ← filter_step e pfilter; filter_run evs pfilter
  end.
(** The filter of a new connection ([CNode::CNode]). *)
Definition pfilter_new : option CBloomFilter := Some CBloomFilter_new.

(** ** CMerkleBlock *)

Record CMerkleBlock := MerkleBlock {
  mb_header : CBlockHeader;
  txn : CPartialMerkleTree;
  vMatchedTxn : list (nat * Z)
}.

Fixpoint match_txs (i : nat) (vtx : list CTransaction) (f : CBloomFilter) : res (list bool * list (nat * Z) * CBloomFilter) :=
  match vtx with
  | [] => Ok ([], [], f)
  | tx :: vtx =>
      '(m, f) ← IsRelevantAndUpdate tx f;
      '(vMatch, matched, f) ← match_txs (S i) vtx f;
      Ok ((m : bool) :: vMatch, if m then (i, tx_hash tx) :: matched else matched, f)
  end.
Definition CMerkleBlock_new (block : CBlock) (f : CBloomFilter) : res (CMerkleBlock * CBloomFilter) :=
  '(vMatch, matched, f) ← match_txs 0 (vtx block) f;
  t ← CPartialMerkleTree_new (map tx_hash (vtx block)) vMatch;
  Ok (MerkleBlock (header block) t matched, f).

(** ** Bits of the vector *)

Definition has_bit (v : list Z) (n : Z) : bool := Z.testbit (nth (Z.to_nat (n / 8)) v 0) (n mod 8).

Lemma land_7 n : Z.land 7 n = n mod 8.
Proof. rewrite Z.land_comm. change 7 with (2 ^ 3 - 1). rewrite land_low by lia. reflexivity. Qed.

Lemma get_bit_ok v n : 0 ≤ n < Z.of_nat (length v) * 8 → get_bit v n = Ok (has_bit v n).
Proof.
  intros Hn. unfold get_bit, has_bit. rewrite shiftr_div by lia. change (2 ^ 3) with 8.
  destruct (lookup_lt_is_Some_2 v (Z.to_nat (n / 8))) as [b Hb]; [apply Nat2Z.inj_lt; Z.to_euclidean_division_equations; lia|].
  rewrite Hb, land_7, land_bit, negb_involutive by (Z.to_euclidean_division_equations; lia).
  by rewrite (nth_lookup_Some _ _ _ _ Hb).
Qed.

Lemma set_bit_ok v n :
  0 ≤ n < Z.of_nat (length v) * 8 →
  ∃ v', set_bit v n = Ok v' ∧ length v' = length v ∧ ∀ m, 0 ≤ m → has_bit v' m = has_bit v m || (m =? n).
Proof.
  intros Hn. unfold set_bit. rewrite shiftr_div, land_7 by lia. change (2 ^ 3) with 8.
  assert (Z.to_nat (n / 8) < length v)%nat as Hlt by (apply Nat2Z.inj_lt; Z.to_euclidean_division_equations; lia).
  destruct (lookup_lt_is_Some_2 v _ Hlt) as [b Hb]. rewrite Hb. eexists. split; [reflexivity|]. split; [by rewrite length_insert|].
  intros m Hm. unfold has_bit. rewrite !nth_lookup. destruct (decide (m / 8 = n / 8)) as [E|E].
  - rewrite E, list_lookup_insert_eq, Hb by done. cbn [default from_option id].
    rewrite Z.lor_spec, Z.shiftl_spec by (Z.to_euclidean_division_equations; lia). f_equal.
    destruct (Z.eqb_spec m n) as [->|Hne]; [by rewrite Z.sub_diag|].
    destruct (Z.ltb_spec (m mod 8 - n mod 8) 0); [by rewrite Z.testbit_neg_r|].
    change 1 with (2 ^ 0). rewrite Z.pow2_bits_eqb by lia. apply Z.eqb_neq. Z.to_euclidean_division_equations. lia.
  - rewrite list_lookup_insert_ne by (Z.to_euclidean_division_equations; lia).
    destruct (Z.eqb_spec m n) as [->|]; [done|]. by rewrite orb_false_r.
Qed.

(** ** What a filter contains *)

(** The filter can be used: only a full filter may have no bits. *)
Definition usable (f : CBloomFilter) : Prop := isFull f = false → vData f ≠ [].

Definition bloom_index (f : CBloomFilter) (key : list Z) (i : Z) : Z :=
  MurmurHash3 (u32 (i * 0xFBA4C795 + nTweak f)) key mod (Z.of_nat (length (vData f)) * 8).
Definition all_bits (f : CBloomFilter) (key : list Z) : bool :=
  forallb (λ i, has_bit (vData f) (bloom_index f key i)) (seqZ 0 (nHashFuncs f)).
Definition in_filter (f : CBloomFilter) (key : list Z) : bool := isFull f || negb (isEmpty f) && all_bits f key.

Lemma bloom_Hash_ok f i key :
  vData f ≠ [] → bloom_Hash f i key = Ok (bloom_index f key i) ∧ 0 ≤ bloom_index f key i < Z.of_nat (length (vData f)) * 8.
Proof.
  intros Hv. unfold bloom_Hash, bloom_index. destruct (vData f) as [|b v] eqn:E; [done|].
  assert (0 < Z.of_nat (length (b :: v)) * 8) by (cbn [length]; lia).
  rewrite (proj2 (Z.eqb_neq _ 0)) by lia. split; [done|]. apply Z.mod_pos_bound. lia.
Qed.

Lemma contains_loop_ok l key f :
  vData f ≠ [] → contains_loop l key f = Ok (forallb (λ i, has_bit (vData f) (bloom_index f key i)) l).
Proof.
  intros Hv. induction l as [|i l IH]; cbn [contains_loop forallb]; [done|].
  destruct (bloom_Hash_ok f i key Hv) as [-> Hi]. cbn [mbind outcome_bind]. rewrite get_bit_ok by done. cbn [mbind outcome_bind].
  destruct (has_bit _ _); [apply IH|done].
Qed.

Lemma contains_ok f key : usable f → contains key f = Ok (in_filter f key).
Proof.
  intros Hu. unfold contains, in_filter. destruct (isFull f) eqn:Ef; [done|]. destruct (isEmpty f); [done|]. cbn [orb negb andb].
  apply contains_loop_ok. by apply Hu.
Qed.

(** [f'] is [f] with more bits. *)
Record grows (f f' : CBloomFilter) : Prop := {
  g_full : isFull f' = isFull f;
  g_empty : isEmpty f' = true → isEmpty f = true;
  g_params : nHashFuncs f' = nHashFuncs f ∧ nTweak f' = nTweak f ∧ nFlags f' = nFlags f;
  g_length : length (vData f') = length (vData f);
  g_bits n : 0 ≤ n → has_bit (vData f) n = true → has_bit (vData f') n = true
}.
#[export] Instance grows_preorder : PreOrder grows.
Proof.
  split.
  - intros f. by split.
  - intros f g h [F1 E1 (P1 & P2 & P3) L1 B1] [F2 E2 (Q1 & Q2 & Q3) L2 B2]. split; [congruence|auto|split_and!; congruence|congruence|auto].
Qed.

Lemma grows_usable f f' : grows f f' → usable f → usable f'.
Proof. intros [F _ _ L _] Hu Hf E. rewrite F in Hf. apply (Hu Hf). rewrite E in L. by apply nil_length_inv. Qed.

Lemma grows_index f f' key i : grows f f' → bloom_index f' key i = bloom_index f key i.
Proof. intros [_ _ (_ & T & _) L _]. unfold bloom_index. by rewrite T, L. Qed.

Lemma grows_in_filter f f' key : usable f → grows f f' → in_filter f key = true → in_filter f' key = true.
Proof.
  intros Hu Hg. unfold in_filter. rewrite (g_full _ _ Hg). destruct (isFull f) eqn:Ef; [done|]. cbn [orb].
  rewrite !andb_true_iff, !negb_true_iff. intros [He Ha]. split.
  - destruct (isEmpty f') eqn:E; [|done]. apply (g_empty _ _ Hg) in E. congruence.
  - unfold all_bits in *. rewrite forallb_forall in Ha |- *. intros i Hi. rewrite (proj1 (g_params _ _ Hg)) in Hi.
    rewrite (grows_index _ _ _ _ Hg). apply (g_bits _ _ Hg); [|by apply Ha]. apply (bloom_Hash_ok f i key). by apply Hu.
Qed.

(** ** Inserting *)

Lemma insert_loop_ok l key f :
  vData f ≠ [] →
  ∃ f', insert_loop l key f = Ok f' ∧ grows f f' ∧ isEmpty f' = isEmpty f ∧
    ∀ i, In i l → has_bit (vData f') (bloom_index f key i) = true.
Proof.
  revert f. induction l as [|i l IH]; intros f Hv; cbn [insert_loop].
  { exists f. split_and!; [done|reflexivity|done|]. intros i []. }
  destruct (bloom_Hash_ok f i key Hv) as [-> Hi]. cbn [mbind outcome_bind].
  destruct (set_bit_ok (vData f) _ Hi) as (v & -> & Hl & Hb). cbn [mbind outcome_bind].
  set (f1 := with_bits v (isEmpty f) f).
  assert (grows f f1) as Hg1 by (split; try done; intros n Hn Hf; cbn; by rewrite Hb, Hf).
  destruct (IH f1) as (f' & -> & Hg & He & Hall); [cbn; intros ->; apply Hv; by apply nil_length_inv|].
  exists f'. split_and!; [done|by etrans|done|]. intros j [<-|Hj].
  - apply (g_bits _ _ Hg); [lia|]. cbn. rewrite Hb by lia. by rewrite Z.eqb_refl, orb_true_r.
  - rewrite <- (grows_index _ _ key j Hg1). by apply Hall.
Qed.

Lemma insert_ok key f : usable f → ∃ f', insert key f = Ok f' ∧ grows f f' ∧ in_filter f' key = true.
Proof.
  intros Hu. unfold insert. destruct (isFull f) eqn:Ef.
  { exists f. split_and!; [done|reflexivity|]. unfold in_filter. by rewrite Ef. }
  destruct (insert_loop_ok (seqZ 0 (nHashFuncs f)) key f (Hu Ef)) as (f1 & -> & Hg & He & Hall). cbn [mbind outcome_bind].
  exists (with_bits (vData f1) false f1).
  assert (grows f (with_bits (vData f1) false f1)) as Hg' by (split; [apply Hg|intros Hx; discriminate Hx|apply Hg|apply Hg|apply Hg]).
  split_and!; [done|done|]. unfold in_filter. cbn. rewrite (g_full _ _ Hg), Ef. cbn. unfold all_bits. rewrite forallb_forall.
  cbn. intros i Hi. rewrite (proj1 (g_params _ _ Hg)) in Hi. rewrite (grows_index _ _ _ _ Hg'). by apply Hall.
Qed.

Lemma UpdateEmptyFull_usable f : usable (UpdateEmptyFull f).
Proof. intros Hf E. cbn in *. rewrite E in Hf. cbn in Hf. discriminate Hf. Qed.
Lemma filterload_usable g f : usable f → ∃ f', (filterload g (Some f)).1 = Some f' ∧ usable f'.
Proof. intros Hu. unfold filterload. case_match; eexists; (split; [reflexivity|]); [done|apply UpdateEmptyFull_usable]. Qed.
Lemma filteradd_ok data f : usable f → ∃ f' n, filteradd data (Some f) = Ok (Some f', n) ∧ grows f f'.
Proof.
  intros Hu. unfold filteradd. case_match; [exists f, 100; split; [done|reflexivity]|].
  destruct (insert_ok data f Hu) as (f' & -> & Hg & _). by exists f', 0.
Qed.

(** ** Scripts *)

(** [d] is one of the data pushes that the loop over [pc] reads. *)
Inductive pushes : list Z → list Z → Prop :=
| pushes_here pc d : fRet (GetOp2 pc) = true → vchRet (GetOp2 pc) = d → d ≠ [] → pushes pc d
| pushes_later pc d : fRet (GetOp2 pc) = true → pushes (pcRet (GetOp2 pc)) d → pushes pc d.

Lemma match_pushes_ok fuel pc f :
  usable f → (length pc ≤ fuel)%nat →
  ∃ b, match_pushes fuel pc f = Ok b ∧ (b = true ↔ ∃ d, pushes pc d ∧ in_filter f d = true).
Proof.
  intros Hu. revert pc. induction fuel as [|fuel IH]; intros pc Hl.
  { destruct pc; [|cbn in Hl; lia]. exists false. split; [done|]. split; [done|]. intros (d & Hp & _). inversion Hp; done. }
  destruct pc as [|c pc]; [exists false; split; [done|]; split; [done|]; intros (d & Hp & _); inversion Hp; done|].
  cbn [match_pushes]. set (p := c :: pc) in *. destruct (fRet (GetOp2 p)) eqn:Er; cbn [negb]; cycle 1.
  { exists false. split; [done|]. split; [done|]. intros (d & Hp & _). inversion Hp; congruence. }
  pose proof (GetOp2_shorter p Er) as Hs. destruct (IH (pcRet (GetOp2 p))) as (b & Eb & Hb); [lia|].
  destruct (Nat.eqb_spec (length (vchRet (GetOp2 p))) 0) as [E0|E0].
  { cbn [mbind outcome_bind]. exists b. split; [done|]. rewrite Hb. split; intros (d & Hp & Hd); exists d; (split; [|done]).
    - by apply pushes_later.
    - inversion Hp as [? ? _ Ev Hne|]; subst; [|done]. apply nil_length_inv in E0. done. }
  rewrite contains_ok by done. cbn [mbind outcome_bind]. destruct (in_filter f (vchRet (GetOp2 p))) eqn:Ei.
  { exists true. split; [done|]. split; [|done]. intros _. exists (vchRet (GetOp2 p)). split; [|done]. apply pushes_here; [done|done|].
    intros E. apply E0. by rewrite E. }
  exists b. split; [done|]. rewrite Hb. split; intros (d & Hp & Hd); exists d; (split; [|done]).
  - by apply pushes_later.
  - inversion Hp; subst; [congruence|done].
Qed.

Lemma match_script_ok script f :
  usable f → ∃ b, match_script script f = Ok b ∧ (b = true ↔ ∃ d, pushes script d ∧ in_filter f d = true).
Proof. intros Hu. by apply match_pushes_ok. Qed.

Lemma update_for_output_ok hash i script f :
  usable f → ∃ f', update_for_output hash i script f = Ok f' ∧ grows f f' ∧
    (Z.land (nFlags f) BLOOM_UPDATE_MASK = BLOOM_UPDATE_ALL → in_filter f' (ser_outpoint (OutPoint hash (Z.of_nat i))) = true).
Proof.
  intros Hu. unfold update_for_output, insert_outpoint. destruct (insert_ok (ser_outpoint (OutPoint hash (Z.of_nat i))) f Hu) as (f1 & E1 & Hg & Hin).
  destruct (Z.eqb_spec (Z.land (nFlags f) BLOOM_UPDATE_MASK) BLOOM_UPDATE_ALL) as [E|E]; [by exists f1|].
  case_match; [|exists f; split_and!; [done|reflexivity|done]].
  destruct (Solver_spec script) as (ok & t & sols & -> & _). cbn [mbind outcome_bind].
  case_match; [by exists f1|exists f; split_and!; [done|reflexivity|done]].
Qed.

(** ** Transactions *)

(** An output of the list has a push that the filter contains. *)
Definition output_matches (f : CBloomFilter) (o : CTxOut) : Prop := ∃ d, pushes (scriptPubKey o) d ∧ in_filter f d = true.

Lemma output_matches_grows f f' o : usable f → grows f f' → output_matches f o → output_matches f' o.
Proof. intros Hu Hg (d & Hd & Hin). exists d. split; [done|]. by apply (grows_in_filter f). Qed.

(** The scan finds something exactly if an output matches the filter it starts with, and
    leaves the filter alone if none does. *)
Lemma scan_outputs_ok hash i vouts fFound f :
  usable f →
  ∃ b f', scan_outputs hash i vouts fFound f = Ok (b, f') ∧ grows f f' ∧
    (b = true ↔ fFound = true ∨ ∃ o, o ∈ vouts ∧ output_matches f o) ∧ (b = false → f' = f) ∧
    ∀ j o, vouts !! j = Some o → output_matches f o → Z.land (nFlags f) BLOOM_UPDATE_MASK = BLOOM_UPDATE_ALL →
      in_filter f' (ser_outpoint (OutPoint hash (Z.of_nat (i + j)))) = true.
Proof.
  revert i fFound f. induction vouts as [|o l IH]; intros i fFound f Hu; cbn [scan_outputs].
  { exists fFound, f. split_and!; [done|reflexivity| |done|].
    - split; [by left|]. intros [Hf|(o & Ho & _)]; [done|inversion Ho].
    - intros j o Hj. by rewrite lookup_nil in Hj. }
  destruct (match_script_ok (scriptPubKey o) f Hu) as (m & -> & Hm). cbn [mbind outcome_bind]. destruct m.
  - destruct (update_for_output_ok hash i (scriptPubKey o) f Hu) as (f1 & -> & Hg1 & Hin1). cbn [mbind outcome_bind].
    destruct (IH (S i) true f1 (grows_usable _ _ Hg1 Hu)) as (b & f' & -> & Hg & [_ Hb] & Hno & Hall).
    rewrite (Hb (or_introl eq_refl)) in *. exists true, f'. split_and!; [done|by etrans| |done|].
    + split; [|done]. intros _. right. exists o. split; [left|]. by apply Hm.
    + intros [|j] o' Hj Hmt Hfl.
      * rewrite Nat.add_0_r. apply (grows_in_filter f1); [by apply (grows_usable f)|done|by apply Hin1].
      * rewrite Nat.add_succ_r. apply (Hall j o' Hj); [by apply (output_matches_grows f)|].
        by rewrite (proj2 (proj2 (g_params _ _ Hg1))).
  - assert (¬ output_matches f o) as Hn by (intros Hmt; apply (proj2 Hm) in Hmt; discriminate Hmt).
    destruct (IH (S i) fFound f Hu) as (b & f' & -> & Hg & Hb & Hno & Hall). exists b, f'. split_and!; [done|done| |done|].
    + rewrite Hb. split; (intros [Hf|(o' & Ho & Hmt)]; [by left|right; exists o'; split; [|done]]).
      * by right.
      * apply elem_of_cons in Ho as [->|Ho]; done.
    + intros [|j] o' Hj Hmt; [by injection Hj as <-|]. rewrite Nat.add_succ_r. by apply (Hall j o').
Qed.

(** An input of the list is relevant: it spends an outpoint, or pushes data, that the
    filter contains. *)
Definition input_matches (f : CBloomFilter) (i : CTxIn) : Prop :=
  in_filter f (ser_outpoint (prevout i)) = true ∨ ∃ d, pushes (scriptSig i) d ∧ in_filter f d = true.

Lemma scan_inputs_ok vins f :
  usable f → ∃ b, scan_inputs vins f = Ok b ∧ (b = true ↔ ∃ i, i ∈ vins ∧ input_matches f i).
Proof.
  intros Hu. induction vins as [|i l (b & Eb & Hb)]; cbn [scan_inputs].
  { exists false. split; [done|]. split; [done|]. intros (i & Hi & _). inversion Hi. }
  unfold contains_outpoint. rewrite contains_ok by done. cbn [mbind outcome_bind].
  destruct (in_filter f (ser_outpoint (prevout i))) eqn:Ei.
  { exists true. split; [done|]. split; [|done]. intros _. exists i. split; [left|by left]. }
  destruct (match_script_ok (scriptSig i) f Hu) as ([] & -> & Hm); cbn [mbind outcome_bind].
  { exists true. split; [done|]. split; [|done]. intros _. exists i. split; [left|right; by apply Hm]. }
  exists b. split; [done|]. rewrite Hb. split; intros (i' & Hi' & Hmt); exists i'; (split; [|done]); [by right|].
  apply elem_of_cons in Hi' as [->|Hi']; [|done]. destruct Hmt as [Hmt|Hmt]; [congruence|]. by apply (proj2 Hm) in Hmt.
Qed.

(** What makes a transaction relevant to the filter: its hash, data that one of its
    outputs pushes, an outpoint that one of its inputs spends, or data that one of its
    inputs pushes. *)
Definition relevant (f : CBloomFilter) (tx : CTransaction) : Prop :=
  in_filter f (ser_uint256 (tx_hash tx)) = true ∨ (∃ o, o ∈ vout tx ∧ output_matches f o) ∨ ∃ i, i ∈ vin tx ∧ input_matches f i.

Lemma relevant_grows f f' tx : usable f → grows f f' → relevant f tx → relevant f' tx.
Proof.
  intros Hu Hg [H|[(o & Ho & H)|(i & Hi & H)]].
  - left. by apply (grows_in_filter f).
  - right; left. exists o. split; [done|]. by apply (output_matches_grows f).
  - right; right. exists i. split; [done|]. destruct H as [H|(d & Hd & H)]; [left; by apply (grows_in_filter f)|].
    right. exists d. split; [done|]. by apply (grows_in_filter f).
Qed.

Lemma relevant_nonempty f tx : relevant f tx → isFull f = false → isEmpty f = false.
Proof.
  assert (∀ key, in_filter f key = true → isFull f = false → isEmpty f = false) as Hk.
  { intros key. unfold in_filter. by destruct (isFull f), (isEmpty f). }
  intros [H|[(o & _ & d & _ & H)|(i & _ & [H|(d & _ & H)])]]; by apply (Hk _ H).
Qed.

Lemma in_filter_full f key : isFull f = true → in_filter f key = true.
Proof. intros E. unfold in_filter. by rewrite E. Qed.

Lemma IsRelevantAndUpdate_ok tx f :
  usable f →
  ∃ b f', IsRelevantAndUpdate tx f = Ok (b, f') ∧ grows f f' ∧ (b = true ↔ relevant f tx) ∧ (b = false → f' = f) ∧
    ∀ j o, vout tx !! j = Some o → output_matches f o → Z.land (nFlags f) BLOOM_UPDATE_MASK = BLOOM_UPDATE_ALL →
      in_filter f' (ser_outpoint (OutPoint (tx_hash tx) (Z.of_nat j))) = true.
Proof.
  intros Hu. unfold IsRelevantAndUpdate. destruct (isFull f) eqn:Ef.
  { exists true, f. split_and!; [done|reflexivity| |done|].
    - split; [|done]. intros _. left. by apply in_filter_full.
    - intros. by apply in_filter_full. }
  destruct (isEmpty f) eqn:Ee.
  { exists false, f. split_and!; [done|reflexivity| |done|].
    - split; [done|]. intros Hr. pose proof (relevant_nonempty f tx Hr Ef). congruence.
    - intros j o _ (d & _ & Hd). unfold in_filter in Hd. rewrite Ef, Ee in Hd. cbn in Hd. discriminate Hd. }
  unfold contains_hash. rewrite contains_ok by done. cbn [mbind outcome_bind].
  destruct (scan_outputs_ok (tx_hash tx) 0 (vout tx) (in_filter f (ser_uint256 (tx_hash tx))) f Hu) as (b & f' & -> & Hg & Hb & Hno & Hall).
  cbn [mbind outcome_bind]. destruct b.
  { exists true, f'. split_and!; [done|done| |done|by apply Hall]. split; [|done]. intros _. unfold relevant. apply proj1 in Hb.
    destruct (Hb eq_refl); auto. }
  rewrite (Hno eq_refl) in *. destruct (scan_inputs_ok (vin tx) f Hu) as (b & -> & Hin). cbn [mbind outcome_bind].
  exists b, f. split_and!; [done|reflexivity| |done|by apply Hall]. unfold relevant. rewrite Hin. split; [by auto|].
  intros [H|[H|H]]; [| |done]; apply proj2 in Hb; [discriminate (Hb (or_introl H))|discriminate (Hb (or_intror H))].
Qed.

(** The loop of the filtered block: transaction [j] is listed exactly if it is relevant to
    the filter that the transactions before it have left. *)
Lemma match_txs_ok i vtx f :
  usable f →
  ∃ ms l f', match_txs i vtx f = Ok (ms, l, f') ∧ grows f f' ∧ length ms = length vtx ∧
    snd <$> l = selected (map tx_hash vtx) ms ∧ Forall (λ p, i ≤ p.1)%nat l ∧
    ∀ j tx, vtx !! j = Some tx →
      ∃ msj lj fj, match_txs i (take j vtx) f = Ok (msj, lj, fj) ∧ grows f fj ∧
        ∀ h, ((i + j)%nat, h) ∈ l ↔ h = tx_hash tx ∧ relevant fj tx.
Proof.
  revert i f. induction vtx as [|tx l IH]; intros i f Hu; cbn [match_txs].
  { exists [], [], f. split_and!; [done|reflexivity|done|done|done|]. intros j tx Hj. by rewrite lookup_nil in Hj. }
  destruct (IsRelevantAndUpdate_ok tx f Hu) as (b & f1 & Ei & Hg1 & Hr & _). rewrite Ei. cbn [mbind outcome_bind].
  destruct (IH (S i) f1 (grows_usable _ _ Hg1 Hu)) as (ms & ml & f' & -> & Hg & Hl & Hs & Hge & Hall). cbn [mbind outcome_bind].
  rewrite list.Forall_forall in Hge. do 3 eexists. split; [reflexivity|]. split_and!; [by etrans|cbn; by rewrite Hl| | |].
  - destruct b; cbn [map selected fmap list_fmap snd]; [by f_equal|done].
  - apply list.Forall_forall. intros p Hp. assert (p ∈ ml → i ≤ p.1)%nat as Hml by (intros H; pose proof (Hge p H); lia).
    destruct b; [apply elem_of_cons in Hp as [->|Hp]; [done|]|]; by apply Hml.
  - intros [|j] tx' Hj.
    + injection Hj as <-. exists [], [], f. split_and!; [done|reflexivity|]. intros h. rewrite Nat.add_0_r, <- Hr.
      assert ((i, h) ∉ ml) as Hn by (intros H; specialize (Hge _ H); cbn in Hge; lia).
      destruct b; [rewrite elem_of_cons|]; split; try done.
      * intros [[= ->]|H]; done.
      * intros [-> _]. by left.
      * intros [_ [=]].
    + destruct (Hall j tx' Hj) as (msj & lj & fj & Ej & Hgj & Hiff). cbn [take match_txs]. rewrite Ei. cbn [mbind outcome_bind].
      rewrite Ej. cbn [mbind outcome_bind]. do 3 eexists. split; [reflexivity|]. split; [by etrans|]. intros h.
      rewrite <- Hiff. assert ((S i + j)%nat = (i + S j)%nat) as -> by lia. destruct b; [|done]. rewrite elem_of_cons.
      split; [|by auto]. intros [[= ? _]|H]; [lia|done].
Qed.

(** ** The life of a peer's filter *)

(** [f'] can come from [f] without the filter being replaced. *)
Definition keeps_filter (e : filter_event) : bool :=
  match e with FilterAdd _ | RelayTransaction _ => true | FilterLoad _ | FilterClear => false end.

Lemma filter_step_ok e f :
  usable f → ∃ f', filter_step e (Some f) = Ok (Some f') ∧ usable f' ∧ (keeps_filter e = true → grows f f').
Proof.
  intros Hu. destruct e as [g|data| |tx]; cbn [filter_step keeps_filter].
  - destruct (filterload_usable g f Hu) as (f' & -> & Hu'). by exists f'.
  - destruct (filteradd_ok data f Hu) as (f' & n & -> & Hg). exists f'. split_and!; [done|by apply (grows_usable f)|done].
  - exists CBloomFilter_new. split_and!; [done| |done]. intros Hf. discriminate Hf.
  - destruct (IsRelevantAndUpdate_ok tx f Hu) as (b & f' & -> & Hg & _). exists f'. split_and!; [done|by apply (grows_usable f)|done].
Qed.

Lemma filter_run_ok evs f :
  usable f → ∃ f', filter_run evs (Some f) = Ok (Some f') ∧ usable f' ∧ (Forall (λ e, keeps_filter e = true) evs → grows f f').
Proof.
  revert f. induction evs as [|e evs IH]; intros f Hu; cbn [filter_run]; [by exists f|].
  destruct (filter_step_ok e f Hu) as (f1 & -> & Hu1 & Hg1). cbn [mbind outcome_bind].
  destruct (IH f1 Hu1) as (f' & -> & Hu' & Hg'). exists f'. split_and!; [done|done|].
  rewrite list.Forall_cons. intros [H1 H2]. etrans; [by apply Hg1|by apply Hg'].
Qed.

(** ** Properties *)

(** C39: whatever filters, additions and clearings a peer sends, in any order and between
    any transactions relayed to it, from the filter of a new connection: every one of the
    operations returns, none indexes the bit vector out of bounds or divides by its size
    when that is zero.  With [BLOOM_UPDATE_ALL] the filter then follows the peer's coins:
    once a transaction has an output with a push in the filter, it is reported, and after
    any number of other transactions and additions so is every transaction that spends
    this output. *)
Theorem filter_follows_outputs (evs : list filter_event) :
  ∃ f, filter_run evs pfilter_new = Ok (Some f) ∧
    ∀ (tx tx' : CTransaction) (j k : nat) (o : CTxOut) (i : CTxIn) (d : list Z) (between : list filter_event),
      Z.land (nFlags f) BLOOM_UPDATE_MASK = BLOOM_UPDATE_ALL →
      vout tx !! j = Some o → pushes (scriptPubKey o) d → contains d f = Ok true →
      Forall (λ e, keeps_filter e = true) between →
      vin tx' !! k = Some i → prevout i = OutPoint (tx_hash tx) (Z.of_nat j) →
      ∃ f1 f2 f3, IsRelevantAndUpdate tx f = Ok (true, f1) ∧ filter_run between (Some f1) = Ok (Some f2) ∧
        IsRelevantAndUpdate tx' f2 = Ok (true, f3).
Proof.
  destruct (filter_run_ok evs CBloomFilter_new) as (f & E & Hu & _); [intros H; discriminate H|]. exists f. split; [done|].
  intros tx tx' j k o i d between Hfl Ho Hd Hc Hk Hi Hp.
  rewrite contains_ok in Hc by done. injection Hc as Hc. assert (output_matches f o) as Hm by (by exists d).
  destruct (IsRelevantAndUpdate_ok tx f Hu) as (b & f1 & E1 & Hg1 & Hr1 & _ & Hin1).
  rewrite (proj2 Hr1) in E1 by (right; left; exists o; split; [by eapply list_elem_of_lookup_2|done]).
  pose proof (grows_usable _ _ Hg1 Hu) as Hu1.
  destruct (filter_run_ok between f1 Hu1) as (f2 & E2 & Hu2 & Hg2). specialize (Hg2 Hk).
  destruct (IsRelevantAndUpdate_ok tx' f2 Hu2) as (b' & f3 & E3 & _ & Hr3 & _).
  exists f1, f2, f3. split_and!; [done|done|]. rewrite E3, (proj2 Hr3); [done|].
  right; right. exists i. split; [by eapply list_elem_of_lookup_2|]. left. rewrite Hp. apply (grows_in_filter f1); [done|done|].
  by apply (Hin1 j o).
Qed.


(** ** Concrete filters *)

Definition demo_key : list Z := [1; 2; 3].
Definition demo_spend (h : Z) : CTransaction := Tx 77 1 [TxIn (OutPoint h 0) [] 0 []] [] 0.
(** A filter that holds [demo_key], and a transaction with an output that pushes it. *)
Definition demo_load : CBloomFilter := BloomFilter [0; 0; 0; 0] true false 3 5 1.
Definition demo_filter : CBloomFilter :=
  match insert demo_key (clear demo_load) with Ok f => f | _ => demo_load end.
Definition demo_pay : CTransaction := Tx 12 1 [] [TxOut 5 [3; 1; 2; 3] (-10)] 0.
(** A transaction that pushes [demo_key] in the script of an input. *)
Definition demo_sign : CTransaction := Tx 13 1 [TxIn (OutPoint 900 4) [3; 1; 2; 3] 0 []] [] 0.

Lemma filter_follows_outputs_witness :
  ∃ f f1 f2 f3, filter_run [FilterClear; FilterAdd demo_key; FilterLoad demo_load; FilterAdd demo_key] pfilter_new = Ok (Some f) ∧
    IsRelevantAndUpdate demo_pay f = Ok (true, f1) ∧ filter_run [RelayTransaction demo_sign; FilterAdd [7]] (Some f1) = Ok (Some f2) ∧
    IsRelevantAndUpdate (demo_spend 12) f2 = Ok (true, f3).
Proof.
  destruct (filter_follows_outputs [FilterClear; FilterAdd demo_key; FilterLoad demo_load; FilterAdd demo_key]) as (f & E & Hall).
  vm_compute in E. injection E as <-.
  destruct (Hall demo_pay (demo_spend 12) 0%nat 0%nat (TxOut 5 [3; 1; 2; 3] (-10)) (TxIn (OutPoint 12 0) [] 0 []) demo_key
    [RelayTransaction demo_sign; FilterAdd [7]]) as (f1 & f2 & f3 & E1 & E2 & E3);
    [reflexivity|reflexivity| |vm_compute; reflexivity|by_decision|reflexivity|reflexivity|].
  - apply pushes_here; [reflexivity|reflexivity|discriminate].
  - eexists _, f1, f2, f3. split_and!; [vm_compute; reflexivity|exact E1|exact E2|exact E3].
Defined.

