(* ===== verification/TimeData.v ===== *)
(** * The clock offset from the peers (timedata.h, timedata.cpp)

    Each new peer says what time it has; the node corrects its clock by the median of
    the differences, as long as that is below seventy minutes.  The theorems bound what
    the peers can do: the offset stays within its limit, follows the majority, and is
    frozen once the filter is full. *)
From stdpp Require Import base tactics list gmap numbers option sorting.
From Stdlib Require Import ZArith Lia.
From S2P Require Import Prelude.
From S2P Require Import Chain.
From S2P Require Import NetAddr.

(** ** CMedianFilter *)

Record CMedianFilter := MedianFilter { vValues : list Z; vSorted : list Z; f_nSize : nat }.

Definition CMedianFilter_new (nSize : nat) (initial_value : Z) : CMedianFilter :=
  MedianFilter [initial_value] [initial_value] nSize.

Definition input (value : Z) (f : CMedianFilter) : CMedianFilter :=
  let v := (if (length (vValues f) =? f_nSize f)%nat then tail (vValues f) else vValues f) ++ [value] in
  MedianFilter v (merge_sort Z.le v) (f_nSize f).

(** The sum of the two middle values can overflow; the division truncates. *)
Definition median {E} (f : CMedianFilter) : outcome E Z :=
  let size := length (vSorted f) in
  assert_that (0 <? size)%nat;;
  if Nat.odd size then
    match vSorted f !! (size / 2)%nat with Some x => Ok x | None => AssertFail end
  else
    match vSorted f !! (size / 2 - 1)%nat, vSorted f !! (size / 2)%nat with
    | Some x, Some y => s ← add64 x y; Ok (Z.quot s 2)
    | _, _ => AssertFail
    end.

Definition filter_size (f : CMedianFilter) : nat := length (vValues f).

(** ** The offset *)

(** The statics of the file and of [AddTimeData]. *)
Record time_data := TimeData {
  nTimeOffset : Z;
  setKnown : gset CNetAddr;
  vTimeOffsets : CMedianFilter;
  fDone : bool;
  fMiscWarning : bool   (** whether [strMiscWarning] has the clock warning *)
}.
Definition time_data_new : time_data := TimeData 0 ∅ (CMedianFilter_new 200 0) false false.

Definition GetTimeOffset (s : time_data) : Z := nTimeOffset s.
Definition GetAdjustedTime {E} (GetTime : Z) (s : time_data) : outcome E Z := add64 GetTime (GetTimeOffset s).

(** The negation of the least value overflows. *)
Definition abs64 {E} (n : Z) : outcome E Z :=
  if 0 <=? n then Ok n else assert_that (negb (n =? INT64_MIN));; Ok (- n).

(** The warning: no peer has a time different from ours but close to it. *)
Fixpoint any_match {E} (vSorted : list Z) (fMatch : bool) : outcome E bool :=
  match vSorted with
  | [] => Ok fMatch
  | nOffset :: l =>
      m ← (if negb (nOffset =? 0) then a ← abs64 nOffset; Ok (a <? 5 * 60) else Ok false);
      any_match l (if m : bool then true else fMatch)
  end.

Definition update_offset {E} (s : time_data) : outcome E time_data :=
  nMedian ← median (vTimeOffsets s);
  a ← abs64 nMedian;
  if a <? 70 * 60 then Ok (TimeData nMedian (setKnown s) (vTimeOffsets s) (fDone s) (fMiscWarning s))
  else if fDone s then Ok (TimeData 0 (setKnown s) (vTimeOffsets s) (fDone s) (fMiscWarning s))
  else
    fMatch ← any_match (vSorted (vTimeOffsets s)) false;
    Ok (if fMatch : bool then TimeData 0 (setKnown s) (vTimeOffsets s) (fDone s) (fMiscWarning s)
        else TimeData 0 (setKnown s) (vTimeOffsets s) true true).

Definition AddTimeData {E} (GetTime : Z) (ip : CNetAddr) (nTime : Z) (s : time_data) : outcome E time_data :=
  let nOffsetSample := nTime - GetTime in
  assert_that ((INT64_MIN <=? nOffsetSample) && (nOffsetSample <=? INT64_MAX));;
  if bool_decide (ip ∈ setKnown s) then Ok s
  else
    let f := input nOffsetSample (vTimeOffsets s) in
    let s := TimeData (nTimeOffset s) ({[ip]} ∪ setKnown s) f (fDone s) (fMiscWarning s) in
    if (5 <=? filter_size f)%nat && Nat.odd (filter_size f) then update_offset s else Ok s.

(** A sample: our clock, the peer, and its clock. *)
Fixpoint add_samples {E} (l : list (Z * CNetAddr * Z)) (s : time_data) : outcome E time_data :=
  match l with
  | [] => Ok s
  | (now, ip, t) :: l => s ← AddTimeData now ip t s; add_samples l s
  end.

(** ** The filter *)

(** A difference whose absolute value exists. *)
Definition offset_ok (z : Z) : Prop := INT64_MIN < z ≤ INT64_MAX.
#[export] Instance offset_ok_dec z : Decision (offset_ok z).
Proof. unfold offset_ok. apply _. Defined.

Record filter_ok (f : CMedianFilter) : Prop := {
  fo_sorted : vSorted f ≡ₚ vValues f ∧ StronglySorted Z.le (vSorted f);
  fo_values : Forall offset_ok (vValues f);
  fo_size : (1 ≤ length (vValues f) ≤ f_nSize f)%nat
}.

Lemma filter_ok_new n : (1 ≤ n)%nat → filter_ok (CMedianFilter_new n 0).
Proof.
  intros Hn. split; cbn.
  - split; [done|]. repeat constructor.
  - by_decision.
  - lia.
Qed.

Lemma input_ok v f : filter_ok f → offset_ok v → filter_ok (input v f) ∧ f_nSize (input v f) = f_nSize f ∧
  filter_size (input v f) = Nat.min (S (filter_size f)) (f_nSize f).
Proof.
  intros [_ Hv Hs] Hok. unfold input, filter_size. cbn [f_nSize vValues].
  assert (length ((if (length (vValues f) =? f_nSize f)%nat then tail (vValues f) else vValues f) ++ [v]) =
          Nat.min (S (length (vValues f))) (f_nSize f)) as Hl.
  { rewrite length_app. cbn [length]. destruct (Nat.eqb_spec (length (vValues f)) (f_nSize f)); [|lia]. destruct (vValues f); cbn [tail length] in *; lia. }
  split_and!; [|done|done]. split; cbn [vSorted vValues f_nSize].
  - split; [apply merge_sort_Permutation|]. apply StronglySorted_merge_sort; apply _.
  - apply list.Forall_app. split; [|by constructor]. case_match; [|done]. by destruct Hv; [constructor|].
  - lia.
Qed.

(** The median of an odd number of values: at most half of them are below it, and at
    most half above. *)
Lemma median_odd {E} f :
  filter_ok f → Nat.odd (filter_size f) = true →
  ∃ x, median (E:=E) f = Ok x ∧ offset_ok x ∧
    (length (filter (λ y, y < x)%Z (vValues f)) ≤ filter_size f / 2)%nat ∧
    (length (filter (λ y, x < y)%Z (vValues f)) ≤ filter_size f / 2)%nat.
Proof.
  intros [[Hp Hs] Hv Hl] Hodd. unfold median, filter_size in *. pose proof (Permutation_length Hp) as Hlen. rewrite Hlen.
  unfold assert_that. rewrite (proj2 (Nat.ltb_lt _ _)) by lia. cbn [mbind outcome_bind]. rewrite Hodd.
  assert (length (vValues f) / 2 < length (vSorted f))%nat as Hk by (rewrite Hlen; apply Nat.div_lt; lia).
  destruct (lookup_lt_is_Some_2 _ _ Hk) as [x Hx]. rewrite Hx. exists x. split; [done|].
  pose proof (take_drop_middle _ _ _ Hx) as El. rewrite <- El in Hs.
  destruct (sorted_middle _ _ _ Hs) as [H1 H2]. rewrite El in H1, H2. rewrite length_take in H1. rewrite length_drop in H2. split_and!.
  - apply (proj1 (list.Forall_forall _ _) Hv). rewrite <- Hp. by eapply list_elem_of_lookup_2.
  - rewrite <- (filter_Permutation_length (λ y, y < x) _ _ Hp). lia.
  - rewrite <- (filter_Permutation_length (λ y, x < y) _ _ Hp).
    pose proof (Nat.div_mod_eq (length (vValues f)) 2). pose proof (Nat.mod_upper_bound (length (vValues f)) 2). lia.
Qed.

(** More than half of the values between two bounds put the median between them. *)
Lemma majority_bounds (l : list Z) x lo hi :
  (length (filter (λ y, y < x)%Z l) ≤ length l / 2)%nat → (length (filter (λ y, x < y)%Z l) ≤ length l / 2)%nat →
  (length l < 2 * length (filter (λ y, lo ≤ y ≤ hi)%Z l))%nat → lo ≤ x ≤ hi.
Proof.
  intros H1 H2 Hm.
  assert (∀ (P Q : Z → Prop) `{∀ y, Decision (P y)} `{∀ y, Decision (Q y)}, (∀ y, P y → Q y) →
    (length (filter P l) ≤ length (filter Q l))%nat) as Hsub.
  { intros P Q ? ? HPQ. induction l as [|y l' IHl]; [done|]. clear - HPQ. induction (y :: l') as [|z m IH]; [done|].
    rewrite !filter_cons. repeat case_decide; cbn; try lia. exfalso. eauto. }
  pose proof (Nat.div_mod_eq (length l) 2). pose proof (Nat.mod_upper_bound (length l) 2).
  split; apply Z.le_ngt; intros Hlt.
  - pose proof (Hsub (λ y, lo ≤ y ≤ hi) (λ y, x < y) _ _ ltac:(cbn; intros; lia)). lia.
  - pose proof (Hsub (λ y, lo ≤ y ≤ hi) (λ y, y < x) _ _ ltac:(cbn; intros; lia)). lia.
Qed.

(** ** The offset *)

Lemma abs64_ok {E} n : offset_ok n → abs64 (E:=E) n = Ok (Z.abs n).
Proof.
  intros [Hn _]. unfold abs64. destruct (Z.leb_spec 0 n); [by rewrite Z.abs_eq|].
  unfold assert_that. rewrite (proj2 (Z.eqb_neq n INT64_MIN)) by lia. cbn. by rewrite Z.abs_neq by lia.
Qed.

Lemma any_match_ok {E} l b : Forall offset_ok l → ∃ b', any_match (E:=E) l b = Ok b'.
Proof.
  revert b. induction l as [|x l IH]; intros b Hl; cbn [any_match]; [by eexists|]. apply list.Forall_cons in Hl as [Hx Hl].
  destruct (negb (x =? 0)); [rewrite abs64_ok by done|]; cbn [mbind outcome_bind]; by apply IH.
Qed.

Lemma update_offset_ok {E} s :
  filter_ok (vTimeOffsets s) → Nat.odd (filter_size (vTimeOffsets s)) = true →
  ∃ s', update_offset (E:=E) s = Ok s' ∧ setKnown s' = setKnown s ∧ vTimeOffsets s' = vTimeOffsets s ∧ Z.abs (nTimeOffset s') < 4200 ∧
    ∀ lo hi, lo ≤ 0 ≤ hi → (filter_size (vTimeOffsets s) < 2 * length (filter (λ y, lo ≤ y ≤ hi)%Z (vValues (vTimeOffsets s))))%nat →
      lo ≤ nTimeOffset s' ≤ hi.
Proof.
  intros Hf Hodd. unfold update_offset. destruct (median_odd (E:=E) _ Hf Hodd) as (x & -> & Hx & H1 & H2). cbn [mbind outcome_bind].
  rewrite abs64_ok by done. cbn [mbind outcome_bind].
  destruct (Z.ltb_spec (Z.abs x) (70 * 60)) as [Hlt|Hge].
  { eexists. split_and!; [reflexivity|done|done|cbn; lia|]. intros lo hi _ Hm. cbn. by eapply majority_bounds. }
  destruct (fDone s). { eexists. split_and!; [reflexivity|done|done|cbn; lia|]. intros lo hi ? _. done. }
  destruct (any_match_ok (E:=E) (vSorted (vTimeOffsets s)) false) as [b ->].
  { destruct Hf as [[Hp _] Hv _]. by rewrite Hp. }
  cbn [mbind outcome_bind]. eexists. split; [reflexivity|]. destruct b; (split_and!; [done|done|cbn; lia|by intros]).
Qed.

(** The state: as many values as peers are known, and the zero it starts from, until
    there are two hundred. *)
Record time_ok (s : time_data) : Prop := {
  to_filter : filter_ok (vTimeOffsets s);
  to_nSize : f_nSize (vTimeOffsets s) = 200%nat;
  to_known : filter_size (vTimeOffsets s) = Nat.min (S (base.size (setKnown s))) 200;
  to_bound : Z.abs (nTimeOffset s) < 4200
}.

Lemma AddTimeData_ok {E} now ip t s :
  time_ok s → offset_ok (t - now) →
  ∃ s', AddTimeData (E:=E) now ip t s = Ok s' ∧ time_ok s' ∧ setKnown s ⊆ setKnown s' ∧
    ((199 ≤ base.size (setKnown s))%nat → nTimeOffset s' = nTimeOffset s).
Proof.
  intros [Hf Hn Hk Hb] Hok. pose proof Hok as [Hlo Hhi]. unfold AddTimeData, assert_that.
  rewrite (proj2 (Z.leb_le _ _)) by lia. rewrite (proj2 (Z.leb_le _ _)) by lia. cbn [andb mbind outcome_bind].
  case_bool_decide as Hin; [by exists s|].
  destruct (input_ok (t - now) _ Hf Hok) as (Hf' & Hn' & Hs'). rewrite Hn in *.
  set (f := input (t - now) (vTimeOffsets s)) in *.
  set (s1 := TimeData (nTimeOffset s) ({[ip]} ∪ setKnown s) f (fDone s) (fMiscWarning s)).
  assert (filter_size f = Nat.min (S (base.size ({[ip]} ∪ setKnown s))) 200) as Hsz.
  { rewrite Hs', Hk. rewrite size_union, size_singleton by set_solver. lia. }
  assert (time_ok s1) as H1 by by split.
  destruct ((5 <=? filter_size f)%nat && Nat.odd (filter_size f)) eqn:Eu; cycle 1.
  { exists s1. split_and!; [done|done|cbn; set_solver|done]. }
  apply andb_true_iff in Eu as [_ Hodd].
  destruct (update_offset_ok (E:=E) s1 Hf' Hodd) as (s' & -> & Ek & Ef & Hb' & _). exists s'. split_and!; [done| |rewrite Ek; cbn; set_solver|].
  - split; rewrite ?Ek, ?Ef; done.
  - intros H199. exfalso. rewrite Hs', Hk in Hodd. replace (Nat.min _ 200) with 200%nat in Hodd by lia. done.
Qed.

Lemma add_samples_ok {E} l s :
  time_ok s → Forall (λ x, offset_ok (x.2 - x.1.1)) l →
  ∃ s', add_samples (E:=E) l s = Ok s' ∧ time_ok s' ∧ ((199 ≤ base.size (setKnown s))%nat → nTimeOffset s' = nTimeOffset s).
Proof.
  revert s. induction l as [|[[now ip] t] l IH]; intros s H Hl; cbn [add_samples]; [by exists s|].
  apply list.Forall_cons in Hl as [Hx Hl]. cbn in Hx.
  destruct (AddTimeData_ok (E:=E) now ip t s H Hx) as (s1 & -> & H1 & Hsub & Hfr). cbn [mbind outcome_bind].
  destruct (IH s1 H1 Hl) as (s' & -> & H' & Hfr'). exists s'. split_and!; [done|done|]. intros H199.
  rewrite Hfr'; [by apply Hfr|]. etrans; [exact H199|]. by apply subseteq_size.
Qed.

Lemma time_ok_new : time_ok time_data_new.
Proof. split; [apply filter_ok_new; lia|done|reflexivity|cbn; lia]. Qed.

(** Whatever the peers say, as long as the difference to our clock is a 64-bit
    number with an absolute value, taking it into account succeeds and leaves the
    offset of the clock below seventy minutes in absolute value; and from 199 known
    peers on, no peer changes the offset any more. *)
Theorem time_offset_bounded {E} (l1 l2 : list (Z * CNetAddr * Z)) :
  Forall (λ x, offset_ok (x.2 - x.1.1)) l1 → Forall (λ x, offset_ok (x.2 - x.1.1)) l2 →
  ∃ s1 s2, add_samples (E:=E) l1 time_data_new = Ok s1 ∧ add_samples (E:=E) l2 s1 = Ok s2 ∧
    Z.abs (nTimeOffset s1) < 70 * 60 ∧ Z.abs (nTimeOffset s2) < 70 * 60 ∧
    ((199 ≤ base.size (setKnown s1))%nat → nTimeOffset s2 = nTimeOffset s1).
Proof.
  intros Hl1 Hl2. destruct (add_samples_ok (E:=E) l1 _ time_ok_new Hl1) as (s1 & E1 & H1 & _).
  destruct (add_samples_ok (E:=E) l2 s1 H1 Hl2) as (s2 & E2 & H2 & Hfr). exists s1, s2.
  split_and!; [done|done|apply (to_bound _ H1)|apply (to_bound _ H2)|done].
Qed.

Lemma time_offset_bounded_witness :
  ∃ s1 s2, add_samples (E:=Empty_set) [(1000, [1], 1100); (1000, [2], 1100); (1000, [3], 1100); (1000, [4], 1100)] time_data_new = Ok s1 ∧
    add_samples (E:=Empty_set) [(1000, [5], 99999)] s1 = Ok s2 ∧ Z.abs (nTimeOffset s1) < 70 * 60.
Proof.
  destruct (time_offset_bounded (E:=Empty_set) [(1000, [1], 1100); (1000, [2], 1100); (1000, [3], 1100); (1000, [4], 1100)] [(1000, [5], 99999)])
    as (s1 & s2 & E1 & E2 & H & _).
  - by_decision.
  - by_decision.
  - exists s1, s2. split_and!; [exact E1|exact E2|exact H].
Defined.

(** A majority of the differences between two bounds around zero keeps an updated
    offset between them. *)
Lemma time_offset_majority {E} s s' lo hi :
  time_ok s → Nat.odd (filter_size (vTimeOffsets s)) = true → update_offset (E:=E) s = Ok s' → lo ≤ 0 ≤ hi →
  (filter_size (vTimeOffsets s) < 2 * length (filter (λ y, lo ≤ y ≤ hi)%Z (vValues (vTimeOffsets s))))%nat → lo ≤ nTimeOffset s' ≤ hi.
Proof.
  intros [Hf _ _ _] Hodd Eu Hz Hm. destruct (update_offset_ok (E:=E) s Hf Hodd) as (s1 & E1 & _ & _ & _ & H).
  assert (s1 = s') as <- by congruence. by apply H.
Qed.

(** The difference to the least time a peer can send overflows. *)
Lemma AddTimeData_overflows {E} now ip s : 0 < now → AddTimeData (E:=E) now ip INT64_MIN s = AssertFail.
Proof.
  intros Hn. unfold AddTimeData, assert_that. rewrite (proj2 (Z.leb_gt INT64_MIN _)) by lia. done.
Qed.
