(* ===== verification/Containers.v ===== *)
(** * Bounded containers (limitedmap.h, mruset.h)

    What a node remembers of its peers is bounded by two containers: a map that drops
    the entry with the least value, and a set that drops the oldest element.  The
    theorems show that the two structures inside each stay in agreement, so that no
    assertion fails, and what exactly is kept. *)
From stdpp Require Import base tactics list gmap numbers option sorting.
From Stdlib Require Import ZArith Lia.
From S2P Require Import Prelude.

(** ** limitedmap *)

Section LimitedMap.
Context {K : Type} `{Countable K}.

(** [rmap] is the multimap from values to entries, in the order of its iteration; an
    iterator into [map] is the key of its entry. *)
Record limitedmap := LimitedMap { lm_map : gmap K Z; lm_rmap : list (Z * K); lm_nMaxSize : nat }.
Definition limitedmap_new (nMaxSizeIn : nat) : limitedmap := LimitedMap ∅ [] nMaxSizeIn.

(** [multimap::insert] puts an element after those with the same key. *)
Fixpoint rmap_insert (v : Z) (k : K) (l : list (Z * K)) : list (Z * K) :=
  match l with
  | [] => [(v, k)]
  | (v', k') :: l' => if v <? v' then (v, k) :: l else (v', k') :: rmap_insert v k l'
  end.
(** The loop over [equal_range] that erases the element of an entry. *)
Fixpoint rmap_erase (v : Z) (k : K) (l : list (Z * K)) : option (list (Z * K)) :=
  match l with
  | [] => None
  | (v', k') :: l' =>
      if decide (v' = v ∧ k' = k) then Some l' else match rmap_erase v k l' with Some r => Some ((v', k') :: r) | None => None end
  end.

(** [map.erase(rmap.begin()->second); rmap.erase(rmap.begin())]: [begin] must not be
    the end. *)
Definition drop_least {E} (m : limitedmap) : outcome E limitedmap :=
  match lm_rmap m with
  | [] => AssertFail
  | (_, k) :: r => Ok (LimitedMap (delete k (lm_map m)) r (lm_nMaxSize m))
  end.

Definition lm_insert {E} (k : K) (v : Z) (m : limitedmap) : outcome E limitedmap :=
  match lm_map m !! k with
  | Some _ => Ok m
  | None =>
      let m := LimitedMap (<[k := v]> (lm_map m)) (lm_rmap m) (lm_nMaxSize m) in
      m ← (if negb (lm_nMaxSize m =? 0)%nat && (base.size (lm_map m) =? lm_nMaxSize m)%nat then drop_least m else Ok m);
      Ok (LimitedMap (lm_map m) (rmap_insert v k (lm_rmap m)) (lm_nMaxSize m))
  end.

Definition lm_erase {E} (k : K) (m : limitedmap) : outcome E limitedmap :=
  match lm_map m !! k with
  | None => Ok m
  | Some v =>
      match rmap_erase v k (lm_rmap m) with
      | Some r => Ok (LimitedMap (delete k (lm_map m)) r (lm_nMaxSize m))
      | None => AssertFail
      end
  end.

Definition lm_update {E} (k : K) (v : Z) (m : limitedmap) : outcome E limitedmap :=
  match lm_map m !! k with
  | None => Ok m
  | Some v0 =>
      match rmap_erase v0 k (lm_rmap m) with
      | Some r => Ok (LimitedMap (<[k := v]> (lm_map m)) (rmap_insert v k r) (lm_nMaxSize m))
      | None => AssertFail
      end
  end.

(** The loop of [max_size]; the size of the map is fuel enough. *)
Fixpoint shrink {E} (fuel s : nat) (m : limitedmap) : outcome E limitedmap :=
  if (base.size (lm_map m) <=? s)%nat then Ok m
  else match fuel with O => OutOfFuel | S fuel => m ← drop_least m; shrink fuel s m end.
Definition lm_max_size {E} (s : nat) (m : limitedmap) : outcome E limitedmap :=
  m ← (if negb (s =? 0)%nat then shrink (base.size (lm_map m)) s m else Ok m);
  Ok (LimitedMap (lm_map m) (lm_rmap m) s).

(** *** The two maps agree *)

Definition sorted (l : list (Z * K)) : Prop := StronglySorted (λ x y, x.1 ≤ y.1) l.

Record lm_ok (m : limitedmap) : Prop := {
  lm_agree k v : (v, k) ∈ lm_rmap m ↔ lm_map m !! k = Some v;
  lm_nodup : NoDup (lm_rmap m).*2;
  lm_sorted : sorted (lm_rmap m)
}.

Lemma elem_of_rmap_insert v k l x : x ∈ rmap_insert v k l ↔ x = (v, k) ∨ x ∈ l.
Proof.
  induction l as [|[v' k'] l IH]; cbn; [by rewrite list_elem_of_singleton; split; [auto|intros [|[]%elem_of_nil]]|].
  destruct (v <? v'); rewrite !elem_of_cons, ?IH; tauto.
Qed.
Lemma NoDup_rmap_insert v k l : NoDup l.*2 → k ∉ l.*2 → NoDup (rmap_insert v k l).*2.
Proof.
  intros Hl Hk. induction l as [|[v' k'] l IH]; cbn in *; [by repeat constructor; apply not_elem_of_nil|].
  destruct (v <? v'); [by constructor|]. apply list.NoDup_cons in Hl as [Hk' Hl]. cbn. constructor; [|apply IH; set_solver].
  rewrite list_elem_of_fmap. intros ([v1 k1] & E & [[= -> ->]|Hin]%elem_of_rmap_insert); cbn in E; [set_solver|].
  apply Hk', list_elem_of_fmap. by exists (v1, k1).
Qed.
Lemma sorted_rmap_insert v k l : sorted l → sorted (rmap_insert v k l).
Proof.
  unfold sorted. induction 1 as [|[v' k'] l Hs IH Hf]; cbn; [repeat constructor|].
  destruct (Z.ltb_spec v v').
  - constructor; [by constructor|]. constructor; [cbn; lia|]. eapply list.Forall_impl; [exact Hf|]. cbn. intros; lia.
  - constructor; [done|]. apply list.Forall_forall. intros x [->|Hx]%elem_of_rmap_insert; [done|].
    by apply (proj1 (list.Forall_forall _ _) Hf).
Qed.

Lemma rmap_erase_ok v k l :
  NoDup l.*2 → sorted l → (v, k) ∈ l →
  ∃ r, rmap_erase v k l = Some r ∧ NoDup r.*2 ∧ sorted r ∧ k ∉ r.*2 ∧ ∀ x, x ∈ l ↔ x = (v, k) ∨ x ∈ r.
Proof.
  induction l as [|[v' k'] l IH]; intros Hn Hs Hin; [by apply elem_of_nil in Hin|]. cbn in *.
  apply list.NoDup_cons in Hn as [Hk Hn]. apply StronglySorted_inv in Hs as [Hs Hf].
  case_decide as Hd.
  { destruct Hd as [-> ->]. exists l. split_and!; [done..|]. intros x. by rewrite elem_of_cons. }
  apply elem_of_cons in Hin as [[= -> ->]|Hin]; [by destruct Hd|].
  destruct (IH Hn Hs Hin) as (r & -> & Hnr & Hsr & Hkr & Hx). exists ((v', k') :: r). split_and!; [done| | | |].
  - cbn. constructor; [|done]. intros Hin'. apply Hk. apply list_elem_of_fmap in Hin' as ([v1 k1] & E & Hin'). apply list_elem_of_fmap.
    exists (v1, k1). split; [done|]. apply Hx. by right.
  - constructor; [done|]. apply list.Forall_forall. intros x Hxr. apply (proj1 (list.Forall_forall _ _) Hf). apply Hx. by right.
  - cbn. rewrite elem_of_cons. intros [->|]; [|done]. apply Hk, list_elem_of_fmap. exists (v, k'). done.
  - intros x. rewrite !elem_of_cons, Hx. tauto.
Qed.

Lemma lm_keys m k : lm_ok m → k ∈ (lm_rmap m).*2 ↔ is_Some (lm_map m !! k).
Proof.
  intros [Ha _ _]. rewrite list_elem_of_fmap. split.
  - intros ([v k'] & -> & Hin). exists v. by apply Ha.
  - intros [v Hv]. exists (v, k). split; [done|]. by apply Ha.
Qed.

Lemma drop_least_ok {E} m :
  lm_ok m → lm_map m ≠ ∅ →
  ∃ k v m', drop_least (E:=E) m = Ok m' ∧ lm_ok m' ∧ lm_map m !! k = Some v ∧ lm_map m' = delete k (lm_map m) ∧
    lm_nMaxSize m' = lm_nMaxSize m ∧ ∀ k' v', lm_map m !! k' = Some v' → v ≤ v'.
Proof.
  intros [Ha Hn Hs] Hne. unfold drop_least. destruct (lm_rmap m) as [|[v k] r] eqn:Er.
  { exfalso. apply Hne, map_eq. intros k. rewrite lookup_empty. destruct (lm_map m !! k) as [v|] eqn:Ek; [|done].
    apply Ha in Ek. by apply elem_of_nil in Ek. }
  cbn in Hn. apply list.NoDup_cons in Hn as [Hk Hn]. apply StronglySorted_inv in Hs as [Hs Hf].
  exists k, v. eexists. split; [reflexivity|]. split_and!; try done.
  - split; cbn; [|done|done]. intros k' v'. destruct (decide (k = k')) as [<-|Hne'].
    + rewrite lookup_delete_eq. split; [|done]. intros Hin. exfalso. apply Hk, list_elem_of_fmap. by exists (v', k).
    + rewrite lookup_delete_ne by done. rewrite <- Ha, elem_of_cons. split; [by right|]. intros [[= -> ->]|]; done.
  - apply Ha. left.
  - intros k' v' Hin%Ha. apply elem_of_cons in Hin as [[= -> ->]|Hin]; [lia|].
    by apply (proj1 (list.Forall_forall _ _) Hf (v', k')).
Qed.

Lemma lm_add m k v :
  lm_ok m → lm_map m !! k = None → lm_ok (LimitedMap (<[k := v]> (lm_map m)) (rmap_insert v k (lm_rmap m)) (lm_nMaxSize m)).
Proof.
  intros Hm Hk. pose proof Hm as [Ha Hn Hs]. split; cbn.
  - intros k' v'. rewrite elem_of_rmap_insert, Ha. destruct (decide (k = k')) as [<-|Hne].
    + rewrite lookup_insert_eq, Hk. split; [intros [[= ->]|]; done|]. intros [= ->]. by left.
    + rewrite lookup_insert_ne by done. split; [intros [[= -> ->]|]; done|]. by right.
  - apply NoDup_rmap_insert; [done|]. rewrite lm_keys by done. rewrite Hk. by intros [].
  - by apply sorted_rmap_insert.
Qed.

(** Erasing and updating find the element they look for: their [assert(0)] is not
    reached. *)
Lemma lm_erase_ok {E} k m :
  lm_ok m → ∃ m', lm_erase (E:=E) k m = Ok m' ∧ lm_ok m' ∧ lm_map m' = delete k (lm_map m) ∧ lm_nMaxSize m' = lm_nMaxSize m.
Proof.
  intros Hm. pose proof Hm as [Ha Hn Hs]. unfold lm_erase. destruct (lm_map m !! k) as [v|] eqn:Ek; cycle 1.
  { exists m. split_and!; [done|done|by rewrite delete_id|done]. }
  destruct (rmap_erase_ok v k (lm_rmap m) Hn Hs) as (r & -> & Hnr & Hsr & Hkr & Hx); [by apply Ha|].
  eexists. split; [reflexivity|]. split; [|done]. split; cbn; [|done|done]. intros k' v'.
  destruct (decide (k = k')) as [<-|Hne].
  - rewrite lookup_delete_eq. split; [|done]. intros Hin. exfalso. apply Hkr, list_elem_of_fmap. by exists (v', k).
  - rewrite lookup_delete_ne by done. rewrite <- Ha, Hx. split; [by right|]. intros [[= -> ->]|]; done.
Qed.
Lemma lm_update_ok {E} k v m :
  lm_ok m → ∃ m', lm_update (E:=E) k v m = Ok m' ∧ lm_ok m' ∧
    lm_map m' = (if decide (is_Some (lm_map m !! k)) then <[k := v]> (lm_map m) else lm_map m).
Proof.
  intros Hm. pose proof Hm as [Ha Hn Hs]. unfold lm_update. destruct (lm_map m !! k) as [v0|] eqn:Ek; cycle 1.
  { exists m. split_and!; [done|done|]. rewrite decide_False; [done|]. by intros []. }
  rewrite decide_True by eauto.
  destruct (lm_erase_ok (E:=E) k m Hm) as (m1 & E1 & Hm1 & Hmap & Hmx). unfold lm_erase in E1. rewrite Ek in E1.
  destruct (rmap_erase v0 k (lm_rmap m)) as [r|]; [|done]. injection E1 as <-. cbn in *.
  eexists. split; [reflexivity|]. split; [|done].
  pose proof (lm_add _ k v Hm1) as Hadd. cbn in Hadd. rewrite insert_delete_eq in Hadd. apply Hadd. apply lookup_delete_eq.
Qed.

(** Inserting, for a bound other than 1: the new entry is in; when that makes as many
    entries as the bound, the one with the least value among the others goes. *)
Lemma lm_insert_ok {E} k v m :
  lm_ok m → lm_nMaxSize m ≠ 1%nat → (lm_nMaxSize m ≠ 0 → base.size (lm_map m) < lm_nMaxSize m)%nat →
  ∃ m', lm_insert (E:=E) k v m = Ok m' ∧ lm_ok m' ∧ is_Some (lm_map m' !! k) ∧ lm_nMaxSize m' = lm_nMaxSize m ∧
    (lm_nMaxSize m' ≠ 0 → base.size (lm_map m') < lm_nMaxSize m')%nat ∧
    ∀ k' v', lm_map m !! k' = Some v' → lm_map m' !! k' = Some v' ∨
      (lm_map m' !! k' = None ∧ ∀ k2 v2, lm_map m !! k2 = Some v2 → v' ≤ v2).
Proof.
  intros Hm H1 Hmax. unfold lm_insert. destruct (lm_map m !! k) as [v0|] eqn:Ek.
  { exists m. split_and!; [done|done|rewrite Ek; by eexists|done|done|by left]. }
  cbn [lm_nMaxSize lm_map lm_rmap]. rewrite map_size_insert_None by done.
  destruct (Nat.eqb_spec (lm_nMaxSize m) 0) as [E0|E0]; cbn [negb andb mbind outcome_bind].
  { eexists. split; [reflexivity|]. cbn. split_and!; [by apply lm_add|rewrite lookup_insert_eq; by eexists|done|done|].
    intros k' v' Hk'. left. rewrite lookup_insert_ne by congruence. done. }
  destruct (Nat.eqb_spec (S (base.size (lm_map m))) (lm_nMaxSize m)) as [Ef|Ef]; cbn [mbind outcome_bind].
  - destruct (drop_least_ok (E:=E) m Hm) as (kd & vd & m1 & Ed & Hm1 & Hkd & Hmap & Hmx & Hleast).
    { intros Ee. rewrite Ee, map_size_empty in Ef. lia. }
    unfold drop_least in *. cbn [lm_rmap lm_map lm_nMaxSize] in *. destruct (lm_rmap m) as [|[v1 k1] r] eqn:Er; [done|].
    injection Ed as <-. cbn in Hmap, Hm1 |- *. eexists. split; [reflexivity|].
    assert (k1 = kd) as ->.
    { pose proof (f_equal (λ x, x !! kd) Hmap) as Ex. cbn in Ex. rewrite lookup_delete_eq in Ex.
      destruct (decide (k1 = kd)); [done|]. rewrite lookup_delete_ne in Ex by done. congruence. }
    assert (kd ≠ k) as Hne by congruence. rewrite delete_insert_ne by done. cbn. split_and!.
    + pose proof (lm_add _ k v Hm1) as Hadd. cbn in Hadd. apply Hadd. rewrite lookup_delete_ne by done. done.
    + rewrite lookup_insert_eq. by eexists.
    + done.
    + intros _. rewrite map_size_insert_None by (rewrite lookup_delete_ne by done; done). rewrite map_size_delete_Some by eauto. lia.
    + intros k' v' Hk'. assert (k ≠ k') by congruence. rewrite lookup_insert_ne by done.
      destruct (decide (kd = k')) as [<-|]; [right|left; by rewrite lookup_delete_ne].
      rewrite lookup_delete_eq. split; [done|]. intros k2 v2 Hk2. assert (v' = vd) as -> by congruence. by eapply Hleast.
  - eexists. split; [reflexivity|]. cbn. split_and!; [by apply lm_add|rewrite lookup_insert_eq; by eexists|done| |].
    + intros _. rewrite map_size_insert_None by done. specialize (Hmax E0). lia.
    + intros k' v' Hk'. left. rewrite lookup_insert_ne by congruence. done.
Qed.

(** With the bound 1 the first insertion looks for the least of no entries. *)
Lemma lm_insert_bound_1 {E} k v : lm_insert (E:=E) k v (limitedmap_new 1) = AssertFail.
Proof. unfold lm_insert. cbn. rewrite lookup_empty, map_size_insert_None, map_size_empty by apply lookup_empty. done. Qed.

(** Lowering the bound drops least entries until the size fits. *)
Lemma shrink_ok {E} fuel s m :
  lm_ok m → (base.size (lm_map m) ≤ fuel + s)%nat →
  ∃ m', shrink (E:=E) fuel s m = Ok m' ∧ lm_ok m' ∧ base.size (lm_map m') = Nat.min s (base.size (lm_map m)) ∧ lm_map m' ⊆ lm_map m.
Proof.
  revert m. induction fuel as [|fuel IH]; intros m Hm Hl; cbn [shrink].
  { rewrite (proj2 (Nat.leb_le _ _)) by lia. exists m. split_and!; [done|done|lia|done]. }
  destruct (Nat.leb_spec (base.size (lm_map m)) s) as [Hle|Hgt]; [exists m; split_and!; [done|done|lia|done]|].
  destruct (drop_least_ok (E:=E) m Hm) as (k & v & m1 & -> & Hm1 & Hk & Emap & _ & _).
  { intros Ee. rewrite Ee, map_size_empty in Hgt. lia. }
  cbn [mbind outcome_bind]. assert (base.size (lm_map m1) = (base.size (lm_map m) - 1)%nat) as Hsz.
  { rewrite Emap, map_size_delete_Some by eauto. lia. }
  destruct (IH m1 Hm1) as (m' & -> & Hm' & Hs' & Hsub); [lia|]. exists m'. split_and!; [done|done|lia|].
  etrans; [exact Hsub|]. rewrite Emap. apply delete_subseteq.
Qed.
Lemma lm_max_size_ok {E} s m :
  lm_ok m → ∃ m', lm_max_size (E:=E) s m = Ok m' ∧ lm_ok m' ∧ lm_nMaxSize m' = s ∧ lm_map m' ⊆ lm_map m ∧
    (s ≠ 0 → base.size (lm_map m') ≤ s)%nat.
Proof.
  intros Hm. unfold lm_max_size. destruct (Nat.eqb_spec s 0) as [->|Hs]; cbn [negb].
  { cbn [mbind outcome_bind]. eexists. split; [reflexivity|]. split_and!; [by destruct Hm|done|done|lia]. }
  destruct (shrink_ok (E:=E) (base.size (lm_map m)) s m Hm) as (m' & -> & Hm' & Hsz & Hsub); [lia|]. cbn [mbind outcome_bind].
  eexists. split; [reflexivity|]. split_and!; [by destruct Hm'|done|done|cbn; lia].
Qed.
End LimitedMap.

(** ** mruset *)

Section MruSet.
Context {T : Type} `{Countable T}.

Record mruset := MruSet { mr_set : gset T; mr_queue : list T; mr_nMaxSize : nat }.
Definition mruset_new (nMaxSizeIn : nat) : mruset := MruSet ∅ [] nMaxSizeIn.
Definition mr_clear (m : mruset) : mruset := MruSet ∅ [] (mr_nMaxSize m).

(** [set.erase(queue.front()); queue.pop_front()] *)
Definition drop_oldest {E} (m : mruset) : outcome E mruset :=
  match mr_queue m with
  | [] => AssertFail
  | x :: q => Ok (MruSet (mr_set m ∖ {[x]}) q (mr_nMaxSize m))
  end.

Definition mr_insert {E} (x : T) (m : mruset) : outcome E (bool * mruset) :=
  if decide (x ∈ mr_set m) then Ok (false, m)
  else
    let m := MruSet ({[x]} ∪ mr_set m) (mr_queue m) (mr_nMaxSize m) in
    m ← (if negb (mr_nMaxSize m =? 0)%nat && (length (mr_queue m) =? mr_nMaxSize m)%nat then drop_oldest m else Ok m);
    Ok (true, MruSet (mr_set m) (mr_queue m ++ [x]) (mr_nMaxSize m)).

(** The loop of [max_size]. *)
Fixpoint mr_shrink {E} (fuel s : nat) (m : mruset) : outcome E mruset :=
  if (length (mr_queue m) <=? s)%nat then Ok m
  else match fuel with O => OutOfFuel | S fuel => m ← drop_oldest m; mr_shrink fuel s m end.
Definition mr_max_size {E} (s : nat) (m : mruset) : outcome E mruset :=
  m ← (if negb (s =? 0)%nat then mr_shrink (length (mr_queue m)) s m else Ok m);
  Ok (MruSet (mr_set m) (mr_queue m) s).

Fixpoint mr_insert_all {E} (l : list T) (m : mruset) : outcome E mruset :=
  match l with [] => Ok m | x :: l => '(_, m) ← mr_insert x m; mr_insert_all l m end.

(** The set holds what the queue holds, once each, within the bound. *)
Record mr_ok (m : mruset) : Prop := {
  mr_same : mr_set m = list_to_set (mr_queue m);
  mr_nodup : NoDup (mr_queue m);
  mr_bound : (mr_nMaxSize m ≠ 0 → length (mr_queue m) ≤ mr_nMaxSize m)%nat
}.

Lemma mr_ok_new n : mr_ok (mruset_new n).
Proof. split; cbn; [done|constructor|lia]. Qed.

Lemma mr_insert_ok {E} x m :
  mr_ok m →
  ∃ m', mr_insert (E:=E) x m = Ok (bool_decide (x ∉ mr_queue m), m') ∧ mr_ok m' ∧ mr_nMaxSize m' = mr_nMaxSize m ∧ x ∈ mr_set m' ∧
    mr_queue m' = (if decide (x ∈ mr_queue m) then mr_queue m
                   else if decide (mr_nMaxSize m ≠ 0%nat ∧ length (mr_queue m) = mr_nMaxSize m) then tail (mr_queue m) ++ [x]
                   else mr_queue m ++ [x]).
Proof.
  intros [Hs Hn Hb]. unfold mr_insert. rewrite Hs. destruct (decide (x ∈ list_to_set (C:=gset T) (mr_queue m))) as [Hx|Hx];
    rewrite elem_of_list_to_set in Hx.
  { exists m. rewrite decide_True, bool_decide_eq_false_2 by auto. split_and!; [done|done|done|rewrite Hs; by apply elem_of_list_to_set|done]. }
  rewrite (decide_False (P := x ∈ mr_queue m)), bool_decide_eq_true_2 by done. cbn [mr_nMaxSize mr_queue].
  destruct (Nat.eqb_spec (mr_nMaxSize m) 0) as [E0|E0], (Nat.eqb_spec (length (mr_queue m)) (mr_nMaxSize m)) as [Ef|Ef];
    cbn [negb andb mbind outcome_bind].
  1, 2, 4: rewrite decide_False by tauto; eexists; split; [reflexivity|]; split_and!; [split; cbn|done|cbn; set_solver|done];
    [rewrite list_to_set_app_L; set_solver|apply list.NoDup_app; split_and!; [done|set_solver|apply NoDup_singleton]|rewrite length_app; cbn; lia].
  rewrite decide_True by done. unfold drop_oldest. cbn [mr_queue mr_set mr_nMaxSize].
  destruct (mr_queue m) as [|y q] eqn:Eq; [cbn in Ef; lia|]. cbn [mbind outcome_bind tail mr_set mr_queue mr_nMaxSize].
  apply list.NoDup_cons in Hn as [Hy Hn]. eexists. split; [reflexivity|].
  assert (x ≠ y) by set_solver. split_and!; [split; cbn|done|cbn; set_solver|done].
  - rewrite list_to_set_app_L. cbn. set_solver.
  - apply list.NoDup_app. split_and!; [done|set_solver|apply NoDup_singleton].
  - intros _. rewrite length_app. cbn in *. lia.
Qed.

Lemma tail_drop (l : list T) a : tail (drop a l) = drop (S a) l.
Proof. revert a. induction l as [|x l IH]; intros [|a]; cbn; [done..|apply IH]. Qed.

(** Elements that differ from each other: the set is the window of the last ones. *)
Lemma mruset_window {E} (l : list T) n :
  n ≠ 0%nat → NoDup l →
  ∃ m, mr_insert_all (E:=E) l (mruset_new n) = Ok m ∧ mr_queue m = drop (length l - n) l ∧ mr_set m = list_to_set (drop (length l - n) l).
Proof.
  intros Hn Hl.
  assert (∀ l2 l1 m, NoDup (l1 ++ l2) → mr_ok m → mr_nMaxSize m = n → mr_queue m = drop (length l1 - n) l1 →
    ∃ m', mr_insert_all (E:=E) l2 m = Ok m' ∧ mr_ok m' ∧ mr_queue m' = drop (length (l1 ++ l2) - n) (l1 ++ l2)) as Hgen.
  { intros l2. induction l2 as [|x l2 IH]; intros l1 m Hnd Hm Hmx Hq; cbn [mr_insert_all].
    { exists m. rewrite app_nil_r. done. }
    destruct (mr_insert_ok (E:=E) x m Hm) as (m1 & -> & Hm1 & Hmx1 & _ & Hq1). cbn [mbind outcome_bind].
    assert (x ∉ mr_queue m) as Hx.
    { rewrite Hq. intros Hin. apply list.NoDup_app in Hnd as (_ & Hd & _). apply (Hd x); [|left]. rewrite <- (take_drop (length l1 - n) l1). apply elem_of_app. by right. }
    rewrite decide_False in Hq1 by done.
    destruct (IH (l1 ++ [x]) m1) as (m' & -> & Hm' & Hq'); [by rewrite <- app_assoc|done|congruence| |].
    - rewrite Hq1, Hmx, Hq, length_app, length_drop. cbn [length].
      destruct (decide (n ≠ 0%nat ∧ (length l1 - (length l1 - n))%nat = n)) as [[_ E1]|E1].
      + rewrite drop_app_le by lia. f_equal. rewrite tail_drop. f_equal. lia.
      + rewrite drop_app_le by lia. f_equal. f_equal. lia.
    - exists m'. split_and!; [done|done|]. by rewrite Hq', <- app_assoc. }
  destruct (Hgen l [] (mruset_new n)) as (m & E1 & Hm & Hq); [done|apply mr_ok_new|done|done|].
  exists m. split_and!; [done|done|]. by rewrite (mr_same _ Hm), Hq.
Qed.

Lemma mr_max_size_ok {E} s m :
  mr_ok m → s ≠ 0%nat → ∃ m', mr_max_size (E:=E) s m = Ok m' ∧ mr_ok m' ∧ mr_queue m' = drop (length (mr_queue m) - s) (mr_queue m).
Proof.
  intros Hm Hs. unfold mr_max_size. rewrite (proj2 (Nat.eqb_neq _ _)) by done. cbn [negb].
  assert (∀ fuel m, mr_ok m → (length (mr_queue m) ≤ fuel + s)%nat →
    ∃ m', mr_shrink (E:=E) fuel s m = Ok m' ∧ mr_ok m' ∧ mr_queue m' = drop (length (mr_queue m) - s) (mr_queue m)) as Hgen.
  { clear m Hm. intros fuel. induction fuel as [|fuel IH]; intros m Hm Hl; cbn [mr_shrink].
    { rewrite (proj2 (Nat.leb_le _ _)) by lia. exists m. split_and!; [done|done|]. by replace (length (mr_queue m) - s)%nat with 0%nat by lia. }
    destruct (Nat.leb_spec (length (mr_queue m)) s).
    { exists m. split_and!; [done|done|]. by replace (length (mr_queue m) - s)%nat with 0%nat by lia. }
    unfold drop_oldest. destruct m as [st [|x q] mx]; [cbn in *; lia|]. cbn [mr_queue mr_set mr_nMaxSize mbind outcome_bind] in *.
    destruct Hm as [Hsame Hn Hb]. cbn in Hsame, Hn, Hb. apply list.NoDup_cons in Hn as [Hx Hn].
    destruct (IH (MruSet (st ∖ {[x]}) q mx)) as (m' & -> & Hm' & Hq).
    - split; cbn; [set_solver|done|lia].
    - cbn in *. lia.
    - exists m'. split_and!; [done|done|]. rewrite Hq. cbn [length mr_queue]. destruct (S (length q) - s)%nat as [|d] eqn:Ed; [cbn in *; lia|].
      cbn [drop]. f_equal. lia. }
  destruct (Hgen (length (mr_queue m)) m Hm) as (m' & -> & Hm' & Hq); [lia|]. cbn [mbind outcome_bind].
  eexists. split; [reflexivity|]. split; [|done]. destruct Hm' as [Hsame Hn _]. split; cbn; [done|done|]. rewrite Hq, length_drop. lia.
Qed.
End MruSet.
