(* ===== verification/Signing.v ===== *)
(** * Keys of the wallet and signing (keystore.h, keystore.cpp, script/sign.cpp,
      wallet_ismine.cpp)

    The basic key store, the signing of an input for a standard output, and the question
    whether an output is ours.  The theorem: an
    output of a form that the program builds, if the store says that it can be spent,
    is signed, and what is signed passes the script verification.  Keys and the curve
    are outside the program: a key has a public key and signs hashes. *)
From stdpp Require Import base tactics list gmap numbers option sorting.
From Stdlib Require Import ZArith Lia.
From S2P Require Import Prelude.
From S2P Require Import Serialize.
From S2P Require Import Crypto.
From S2P Require Import ScriptCode.
From S2P Require Import Interpreter.
From S2P Require Import Transaction.
From S2P Require Import SigHash.
From S2P Require Import Standard.
From S2P Require Import ConnectBlock.

Notation sres := (outcome unit).

(** A call that has no error of its own. *)
Definition no_error {E A} (m : outcome E A) : sres A := map_err (λ _, tt) m.

(** ** The key store *)

(** A [CKey] with [GetPubKey] and [Sign]; [CPubKey::Verify]. *)
Class KeyOps (CKey : Type) := {
  GetPubKey : CKey → list Z;
  Sign : CKey → Z → option (list Z);
  PubKey_Verify : list Z → Z → list Z → bool
}.

(** An address is the 20 bytes of a [CKeyID] or [CScriptID]. *)
Record CBasicKeyStore (CKey : Type) := KeyStore {
  mapKeys : gmap (list Z) CKey;
  mapScripts : gmap (list Z) (list Z);
  setWatchOnly : gset (list Z)
}.
Arguments KeyStore {CKey}.
Arguments mapKeys {CKey}.
Arguments mapScripts {CKey}.
Arguments setWatchOnly {CKey}.

Section Store.
Context {CKey : Type} `{!KeyOps CKey}.
Notation store := (CBasicKeyStore CKey).

Definition KeyStore_new : store := KeyStore ∅ ∅ ∅.
Definition AddKeyPubKey (key : CKey) (pubkey : list Z) (ks : store) : store :=
  KeyStore (<[GetID pubkey := key]> (mapKeys ks)) (mapScripts ks) (setWatchOnly ks).
Definition AddKey (key : CKey) : store → store := AddKeyPubKey key (GetPubKey key).
Definition HaveKey (address : list Z) (ks : store) : bool := bool_decide (is_Some (mapKeys ks !! address)).
Definition GetKey (address : list Z) (ks : store) : option CKey := mapKeys ks !! address.
Definition GetKeys (ks : store) : gset (list Z) := dom (mapKeys ks).
Definition ks_GetPubKey (address : list Z) (ks : store) : option (list Z) :=
  match GetKey address ks with Some key => Some (GetPubKey key) | None => None end.

Definition AddCScript (redeemScript : list Z) (ks : store) : bool * store :=
  if MAX_SCRIPT_ELEMENT_SIZE <? size redeemScript then (false, ks)
  else (true, KeyStore (mapKeys ks) (<[CScriptID_of redeemScript := redeemScript]> (mapScripts ks)) (setWatchOnly ks)).
Definition HaveCScript (hash : list Z) (ks : store) : bool := bool_decide (is_Some (mapScripts ks !! hash)).
Definition GetCScript (hash : list Z) (ks : store) : option (list Z) := mapScripts ks !! hash.

Definition AddWatchOnly (dest : list Z) (ks : store) : store := KeyStore (mapKeys ks) (mapScripts ks) ({[dest]} ∪ setWatchOnly ks).
Definition RemoveWatchOnly (dest : list Z) (ks : store) : store := KeyStore (mapKeys ks) (mapScripts ks) (setWatchOnly ks ∖ {[dest]}).
Definition HaveWatchOnly (dest : list Z) (ks : store) : bool := bool_decide (dest ∈ setWatchOnly ks).
Definition HaveAnyWatchOnly (ks : store) : bool := negb (bool_decide (setWatchOnly ks = ∅)).

(** ** Signing *)

(** A call that appends to [scriptSigRet] returns it with its answer. *)
Definition Sign1 (address : list Z) (ks : store) (hash nHashType : Z) (scriptSigRet : list Z) : bool * list Z :=
  match GetKey address ks with
  | None => (false, scriptSigRet)
  | Some key =>
      match Sign key hash with
      | None => (false, scriptSigRet)
      | Some vchSig => (true, scriptSigRet ++ push_data (vchSig ++ [u8 nHashType]))
      end
  end.

Fixpoint SignN_loop (pubkeys : list valtype) (ks : store) (hash nHashType nRequired nSigned : Z) (scriptSigRet : list Z) : Z * list Z :=
  match pubkeys with
  | [] => (nSigned, scriptSigRet)
  | pubkey :: pubkeys =>
      if negb (nSigned <? nRequired) then (nSigned, scriptSigRet)
      else
        let '(ok, scriptSigRet) := Sign1 (GetID (CPubKey_of pubkey)) ks hash nHashType scriptSigRet in
        SignN_loop pubkeys ks hash nHashType nRequired (if ok : bool then nSigned + 1 else nSigned) scriptSigRet
  end.
Definition SignN (multisigdata : list valtype) (ks : store) (hash nHashType : Z) (scriptSigRet : list Z) : sres (bool * list Z) :=
  nRequired ← front0 multisigdata;
  let '(nSigned, scriptSigRet) := SignN_loop (take (length multisigdata - 2) (drop 1 multisigdata)) ks hash nHashType nRequired 0 scriptSigRet in
  Ok (nSigned =? nRequired, scriptSigRet).

(** [Solver] with a key store. *)
Definition SignSolver (ks : store) (scriptPubKey : list Z) (hash nHashType : Z) : sres (bool * list Z * txnouttype) :=
  '(ok, whichType, vSolutions) ← Solver scriptPubKey;
  if negb ok then Ok (false, [], whichType)
  else
    match whichType with
    | TX_NONSTANDARD | TX_NULL_DATA => Ok (false, [], whichType)
    | TX_PUBKEY =>
        s ← solution0 vSolutions;
        let '(ok, sig) := Sign1 (GetID (CPubKey_of s)) ks hash nHashType [] in
        Ok (ok, sig, whichType)
    | TX_PUBKEYHASH =>
        s ← solution0 vSolutions;
        keyID ← uint160_of s;
        let '(ok, sig) := Sign1 keyID ks hash nHashType [] in
        if negb ok then Ok (false, sig, whichType)
        else Ok (true, sig ++ push_data (default [] (ks_GetPubKey keyID ks)), whichType)
    | TX_SCRIPTHASH =>
        s ← solution0 vSolutions;
        scriptID ← uint160_of s;
        match GetCScript scriptID ks with
        | Some script => Ok (true, script, whichType)
        | None => Ok (false, [], whichType)
        end
    | TX_MULTISIG =>
        '(ok, sig) ← SignN vSolutions ks hash nHashType [OP_0];
        Ok (ok, sig, whichType)
    end.

(** [txTo.vin[nIn].scriptSig = script] *)
Definition set_scriptSig (nIn : nat) (script : list Z) (tx : CTransaction) : CTransaction :=
  Tx (tx_hash tx) (nVersion tx)
    (alter (λ i, TxIn (prevout i) script (nSequence i) (prevPubKey i)) nIn (vin tx)) (vout tx) (nLockTime tx).

(** [SignSignature] for a given output script: the answer, and the transaction with
    its new input script. *)
Definition SignSignature (ks : store) (fromPubKey : list Z) (txTo : CTransaction) (nIn : nat) (nHashType : Z) : sres (bool * CTransaction) :=
  assert_that (bool_decide (nIn < length (vin txTo))%nat);;
  hash ← no_error (SignatureHash txTo fromPubKey nIn nHashType);
  '(ok, sig, whichType) ← SignSolver ks fromPubKey hash nHashType;
  if negb ok then Ok (false, set_scriptSig nIn sig txTo)
  else
    '(fSolved, sig) ←
      (if bool_decide (whichType = TX_SCRIPTHASH) then
         let subscript := sig in
         hash2 ← no_error (SignatureHash (set_scriptSig nIn sig txTo) subscript nIn nHashType);
         '(ok, sig, subType) ← SignSolver ks subscript hash2 nHashType;
         Ok (ok && negb (bool_decide (subType = TX_SCRIPTHASH)), sig ++ push_data subscript)
       else Ok (true, sig));
    let txTo := set_scriptSig nIn sig txTo in
    if negb fSolved then Ok (false, txTo)
    else
      match VerifyScript STANDARD_SCRIPT_VERIFY_FLAGS (tx_CheckSig PubKey_Verify txTo nIn) sig fromPubKey with
      | Ok _ => Ok (true, txTo)
      | Err _ => Ok (false, txTo)
      | AssertFail => AssertFail
      | OutOfFuel => OutOfFuel
      end.

(** [SignSignature] for an output of [txFrom]. *)
Definition SignSignature_from (ks : store) (txFrom txTo : CTransaction) (nIn : nat) (nHashType : Z) : sres (bool * CTransaction) :=
  match vin txTo !! nIn with
  | None => AssertFail
  | Some txin =>
      match vout txFrom !! Z.to_nat (prevout_n (prevout txin)) with
      | None => AssertFail
      | Some txout => SignSignature ks (scriptPubKey txout) txTo nIn nHashType
      end
  end.

(** ** Whose output *)

Definition isminetype : Type := Z.
Definition ISMINE_NO : isminetype := 0.
Definition ISMINE_WATCH_UNSOLVABLE : isminetype := 1.
Definition ISMINE_WATCH_SOLVABLE : isminetype := 2.
Definition ISMINE_WATCH_ONLY : isminetype := Z.lor ISMINE_WATCH_SOLVABLE ISMINE_WATCH_UNSOLVABLE.
Definition ISMINE_SPENDABLE : isminetype := 4.

Definition HaveKeys (pubkeys : list valtype) (ks : store) : nat :=
  length (filter (λ pubkey, HaveKey (GetID (CPubKey_of pubkey)) ks = true) pubkeys).

(** A script in the store may name another one: the fuel bounds how deep. *)
Fixpoint IsMine (fuel : nat) (ks : store) (scriptPubKey : list Z) : sres isminetype :=
  let otherwise := if HaveWatchOnly scriptPubKey ks then ISMINE_WATCH_ONLY else ISMINE_NO in
  '(ok, whichType, vSolutions) ← Solver scriptPubKey;
  if negb ok then Ok otherwise
  else
    match whichType with
    | TX_NONSTANDARD | TX_NULL_DATA => Ok otherwise
    | TX_PUBKEY =>
        s ← solution0 vSolutions;
        Ok (if HaveKey (GetID (CPubKey_of s)) ks then ISMINE_SPENDABLE else otherwise)
    | TX_PUBKEYHASH =>
        s ← solution0 vSolutions;
        keyID ← uint160_of s;
        Ok (if HaveKey keyID ks then ISMINE_SPENDABLE else otherwise)
    | TX_SCRIPTHASH =>
        s ← solution0 vSolutions;
        scriptID ← uint160_of s;
        match GetCScript scriptID ks with
        | Some subscript =>
            match fuel with
            | O => OutOfFuel
            | S fuel =>
                ret ← IsMine fuel ks subscript;
                Ok (if ret =? ISMINE_SPENDABLE then ret else otherwise)
            end
        | None => Ok otherwise
        end
    | TX_MULTISIG =>
        let keys := take (length vSolutions - 2) (drop 1 vSolutions) in
        Ok (if (HaveKeys keys ks =? length keys)%nat then ISMINE_SPENDABLE else otherwise)
    end.
Definition IsMine_dest (fuel : nat) (ks : store) (dest : CTxDestination) : sres isminetype :=
  IsMine fuel ks (GetScriptForDestination dest).
End Store.

(** ** Scripts of pushes *)

(** What a script of the program pushes: nothing, or more than one byte. *)
Definition pushable (v : valtype) : Prop := v = [] ∨ script_elem v.
Lemma pushable_minimal v : pushable v → size v ≤ MAX_SCRIPT_ELEMENT_SIZE ∧ CheckMinimalPush v (push_op (size v)) = true.
Proof.
  intros [->|Hv]; [by split; vm_compute|]. split; [apply Hv|]. by apply CheckMinimalPush_push_op.
Qed.

Definition push_all (l : list valtype) : list Z := concat (push_data <$> l).
Lemma push_all_app l l' : push_all (l ++ l') = push_all l ++ push_all l'.
Proof. unfold push_all. by rewrite fmap_app, concat_app. Qed.
Lemma push_all_size l : Forall pushable l → size (push_all l) ≤ 523 * Z.of_nat (length l).
Proof.
  induction 1 as [|v l Hv _ IH]; [done|]. unfold push_all in *. cbn [fmap list_fmap concat length]. rewrite size_app.
  apply pushable_minimal in Hv as [Hv _]. pose proof (size_push_data v Hv). unfold MAX_SCRIPT_ELEMENT_SIZE in *. lia.
Qed.

Section Pushes.
Variable flags : Z.
Variable CheckSig : valtype → valtype → list Z → bool.

Lemma run_pushes l rest s :
  Forall pushable l → 523 * Z.of_nat (length l) + size rest < 2 ^ 32 → fExec s = true → nOpCount s ≤ 201 →
  (length l + length (stack s) + length (altstack s) ≤ 1000)%nat →
  run flags CheckSig (push_all l ++ rest) s = run flags CheckSig rest (set_stack s (rev l ++ stack s)).
Proof.
  intros Hl. revert s. induction Hl as [|v l Hv Hl IH]; intros s Hs He Hn Hlen; [by destruct s|].
  unfold push_all in *. cbn [fmap list_fmap concat]. rewrite <- app_assoc. cbn [length] in *.
  pose proof (pushable_minimal _ Hv) as [Hv1 Hv2].
  rewrite run_push_minimal; [|pose proof (push_all_size l Hl) as Hsz; pose proof (size_push_data v Hv1); unfold push_all, MAX_SCRIPT_ELEMENT_SIZE in *; rewrite !size_app; lia|done..|lia].
  rewrite IH by (cbn; done || lia). cbn [stack set_stack rev]. by rewrite <- app_assoc.
Qed.

(** [OP_1] to [OP_16]. *)
Lemma run_small n rest s :
  1 ≤ n ≤ 16 → fExec s = true → nOpCount s ≤ 201 → (length (stack s) + length (altstack s) < 1000)%nat →
  run flags CheckSig (OP_1 + n - 1 :: rest) s = run flags CheckSig rest (set_stack s (num_serialize n :: stack s)).
Proof.
  intros Hn He Hc Hl. rewrite run_step by done. unfold EvalScript_step. rewrite GetOp2_plain by (unfold OP_1, OP_PUSHDATA4; lia).
  cbn [fRet opcodeRet vchRet pcRet negb]. cbv zeta. change (MAX_SCRIPT_ELEMENT_SIZE <? size []) with false. cbv iota.
  rewrite (proj2 (Z.ltb_ge OP_16 _)) by (unfold OP_1, OP_16; lia). cbn [andb].
  assert (∀ k, (1 ≤ k < 17)%nat → disabled_opcode (OP_1 + Z.of_nat k - 1) = false ∧
    exec_opcode flags CheckSig (OP_1 + Z.of_nat k - 1) rest (set_nOpCount s (nOpCount s)) = op_push_small (OP_1 + Z.of_nat k - 1) (set_nOpCount s (nOpCount s))) as H.
  { intros k Hk. do 17 (destruct k as [|k]; [first [lia|done]|]). lia. }
  specialize (H (Z.to_nat n) ltac:(lia)). rewrite Z2Nat.id in H by lia. destruct H as [-> ->].
  rewrite He, (proj2 (Z.leb_gt _ OP_PUSHDATA4)), andb_false_r by (unfold OP_1, OP_PUSHDATA4; lia). cbn [orb].
  unfold op_push_small. cbn [mbind outcome_bind stack altstack set_stack set_nOpCount length].
  rewrite (proj2 (Z.ltb_ge 1000 _)) by lia. replace (OP_1 + n - 1 - (OP_1 - 1)) with n by lia. by destruct s.
Qed.

Lemma EvalScript_push_all l st :
  Forall pushable l → (length l ≤ 18)%nat → (length st ≤ 100)%nat → EvalScript flags CheckSig st (push_all l) = Ok (rev l ++ st).
Proof.
  intros Hl Hn Hst. rewrite run_EvalScript. pose proof (push_all_size l Hl). rewrite (proj2 (Z.ltb_ge 10000 _)) by lia.
  rewrite <- (app_nil_r (push_all l)) at 1. rewrite run_pushes by first [done | cbn; lia | unfold size; cbn [length]; lia].
  cbn [set_stack stack]. rewrite run_nil. done.
Qed.

Lemma IsPushOnly_push_all {E} l : Forall pushable l → (length l ≤ 18)%nat → IsPushOnly (E:=E) (push_all l) = Ok true.
Proof.
  induction 1 as [|v l Hv Hl IH]; intros Hn; [done|]. unfold push_all in *. cbn [fmap list_fmap concat length] in *.
  rewrite IsPushOnly_push; [apply IH; lia|]. rewrite size_app. pose proof (push_all_size l Hl).
  pose proof (size_push_data v (proj1 (pushable_minimal _ Hv))). pose proof (pushable_minimal _ Hv) as [Hv1 _].
  unfold push_all, MAX_SCRIPT_ELEMENT_SIZE in *. lia.
Qed.

(** ** Verifying a script of pushes *)

Lemma VerifyScript_direct l script top st :
  Forall pushable l → (length l ≤ 18)%nat → EvalScript flags CheckSig (rev l) script = Ok (top :: st) → CastToBool top = true →
  IsPayToScriptHash script = false → VerifyScript flags CheckSig (push_all l) script = Ok tt.
Proof.
  intros Hl Hn He Ht Hp. unfold VerifyScript. rewrite IsPushOnly_push_all by done. cbn [mbind outcome_bind negb]. rewrite andb_false_r.
  rewrite EvalScript_push_all by (done || cbn; lia). rewrite app_nil_r. cbn [mbind outcome_bind]. rewrite He. cbn [mbind outcome_bind].
  rewrite Ht, Hp, andb_false_r. done.
Qed.

Definition p2sh_script (h : list Z) : list Z := [OP_HASH160] ++ push_data h ++ [OP_EQUAL].

Lemma run_p2sh sub h st :
  Hash160 sub = h → size h = 20 → (length st ≤ 100)%nat → EvalScript flags CheckSig (sub :: st) (p2sh_script h) = Ok (vchTrue :: st).
Proof.
  intros Hsub Hh Hst.
  rewrite run_EvalScript. unfold p2sh_script. rewrite push_data_20 by done.
  rewrite (proj2 (Z.ltb_ge 10000 _)) by (rewrite size_app, size_app, !size_cons, Hh; unfold size; cbn; lia).
  cbn [app]. rewrite run_opcode by done. change (exec_opcode flags CheckSig OP_HASH160 ?p ?s) with (op_hash OP_HASH160 s).
  cbn [op_hash stack set_nOpCount set_stack mbind outcome_bind altstack nOpCount vfExec pbegincodehash].
  change (OP_HASH160 =? OP_RIPEMD160) with false. change (OP_HASH160 =? OP_SHA1) with false.
  change (OP_HASH160 =? OP_SHA256) with false. change (OP_HASH160 =? OP_HASH160) with true. cbv iota.
  rewrite (proj2 (Z.ltb_ge 1000 _)) by (cbn [length]; lia).
  change (20 :: h ++ [OP_EQUAL]) with ((20 :: h) ++ [OP_EQUAL]). rewrite <- (push_data_20 h) at 1 by done.
  rewrite run_push; [|rewrite push_data_20 by done; rewrite size_app, size_cons, Hh; reflexivity
    |unfold MAX_SCRIPT_ELEMENT_SIZE; lia|done|cbn; lia|cbn; lia].
  cbn [stack set_nOpCount set_stack altstack nOpCount vfExec pbegincodehash].
  rewrite run_opcode by done. change (exec_opcode flags CheckSig OP_EQUAL ?p ?s) with (op_equal OP_EQUAL s).
  cbn [op_equal stack set_nOpCount set_stack altstack nOpCount vfExec pbegincodehash].
  change (OP_EQUAL =? OP_EQUALVERIFY) with false. cbv iota zeta. rewrite bool_decide_eq_true_2 by (by rewrite Hsub).
  cbn [mbind outcome_bind stack altstack set_stack set_nOpCount nOpCount vfExec pbegincodehash bool_vch].
  rewrite (proj2 (Z.ltb_ge 1000 _)) by (cbn [length]; lia). done.
Qed.

Lemma VerifyScript_scripthash l sub script top st :
  Forall pushable l → (length l ≤ 17)%nat → script_elem sub → EvalScript flags CheckSig (sub :: rev l) script = Ok (vchTrue :: rev l) →
  EvalScript flags CheckSig (rev l) sub = Ok (top :: st) → CastToBool top = true →
  VerifyScript flags CheckSig (push_all (l ++ [sub])) script = Ok tt.
Proof.
  intros Hl Hn Hs Hsc He Ht. unfold VerifyScript.
  assert (Forall pushable (l ++ [sub])) as Hl' by (apply list.Forall_app; split; [done|constructor; [by right|done]]).
  assert (length (l ++ [sub]) ≤ 18)%nat as Hn' by (rewrite length_app; cbn; lia).
  rewrite IsPushOnly_push_all by done. cbn [mbind outcome_bind negb]. rewrite andb_false_r.
  rewrite EvalScript_push_all by (done || cbn; lia). rewrite app_nil_r, rev_app_distr. cbn [mbind outcome_bind rev app].
  rewrite Hsc. cbn [mbind outcome_bind]. assert (CastToBool vchTrue = true) as -> by reflexivity. cbn [negb].
  destruct (flag flags SCRIPT_VERIFY_P2SH); [|reflexivity]. cbn [andb].
  destruct (IsPayToScriptHash script); [|reflexivity]. rewrite He. cbn [mbind outcome_bind]. by rewrite Ht.
Qed.

Lemma VerifyScript_p2sh l sub h top st :
  Hash160 sub = h → size h = 20 →
  Forall pushable l → (length l ≤ 17)%nat → script_elem sub → EvalScript flags CheckSig (rev l) sub = Ok (top :: st) → CastToBool top = true →
  VerifyScript flags CheckSig (push_all (l ++ [sub])) (p2sh_script h) = Ok tt.
Proof.
  intros Hsub Hh Hl Hn Hs He Ht. apply (VerifyScript_scripthash l sub _ top st); try assumption. apply run_p2sh; [done|done|]. rewrite length_rev. lia.
Qed.
End Pushes.

(** ** Spending the forms of the program *)

Lemma FindAndDelete_absent {E} script ops sig :
  decodes script ops [] → size script < 2 ^ 32 → script_elem sig → Forall (.≠ push_data sig) ops →
  FindAndDelete (E:=E) script (push_data sig) = Ok (script, 0).
Proof.
  intros Hd Hsz Hs Hne. unfold FindAndDelete. pose proof (size_push_data sig (proj2 Hs)) as Hp.
  assert (is_instr (push_data sig)) as Hi.
  { unfold is_instr. rewrite <- (app_nil_r (push_data sig)), GetOp2_push_data; [done|].
    rewrite app_nil_r. unfold script_elem, MAX_SCRIPT_ELEMENT_SIZE in *. lia. }
  destruct (push_data sig) as [|x b] eqn:Eb; [by destruct Hi|]. rewrite <- Eb in *. clear x b Eb.
  rewrite (FindAndDelete_loop_spec _ _ _ _ Hi Hsz Hd) by (pose proof (decodes_length _ _ _ Hd); lia).
  rewrite filter_all by done. rewrite filter_none by (apply (list.Forall_impl _ _ _ Hne); auto).
  pose proof (decodes_concat _ _ _ Hd) as ->. done.
Qed.

Lemma is_key_size pk : IsCompressedOrUncompressedPubKey pk = true →
  key_sized pk = true ∧ script_elem pk ∧ CPubKey_of pk = pk ∧ (nth 0 pk 0 = 2 ∨ nth 0 pk 0 = 3 ∨ nth 0 pk 0 = 4).
Proof.
  unfold IsCompressedOrUncompressedPubKey, key_sized, script_elem, MAX_SCRIPT_ELEMENT_SIZE, CPubKey_of, GetLen.
  destruct pk as [|b pk]; [intros H; discriminate H|]. cbn [nth]. intros H. destruct (Z.ltb_spec (size (b :: pk)) 33); [done|].
  assert ((b = 4 ∧ size (b :: pk) = 65) ∨ ((b = 2 ∨ b = 3) ∧ size (b :: pk) = 33)) as Hb.
  { destruct (Z.eqb_spec b 4); [left; by apply Z.eqb_eq in H|]. destruct (_ || _) eqn:Eo; [|done]. right. apply Z.eqb_eq in H.
    apply orb_true_iff in Eo. lia. }
  split_and!; [apply andb_true_iff; split; apply Z.leb_le; lia|lia|lia| |lia].
  destruct Hb as [[-> E]|[[-> | ->] E]]; rewrite E; done.
Qed.

(** A signature with its hash type that the encoding rules accept. *)
Record good_sig (flags : Z) (g : valtype) : Prop := {
  gs_size : 9 ≤ size g ≤ 73;
  gs_head : nth 0 g 0 = 0x30;
  gs_not_hash : size g ≠ 20;
  gs_enc : CheckSignatureEncoding g flags = Ok tt
}.

Lemma good_sig_elem flags g : good_sig flags g → script_elem g.
Proof. intros [H _ _ _]. unfold script_elem, MAX_SCRIPT_ELEMENT_SIZE. lia. Qed.

Lemma sig_not_key flags g pk : good_sig flags g → IsCompressedOrUncompressedPubKey pk = true → push_data pk ≠ push_data g.
Proof.
  intros Hg Hk E. pose proof (gs_head _ _ Hg) as Hh. pose proof (gs_size _ _ Hg). apply is_key_size in Hk as (_ & Hs & _ & Hn).
  unfold script_elem, MAX_SCRIPT_ELEMENT_SIZE in *. apply push_data_inj in E; [|lia..]. subst. lia.
Qed.
Lemma sig_not_byte flags g b : good_sig flags g → [b] ≠ push_data g.
Proof.
  intros [Hs _ _ _] E. apply (f_equal length) in E. unfold push_data, size in *. rewrite length_app in E. cbn [length] in E.
  repeat case_match; cbn [length] in E; lia.
Qed.

Lemma decodes_plain o rest ops : OP_PUSHDATA4 < o → decodes rest ops [] → decodes (o :: rest) ([o] :: ops) [].
Proof.
  intros Ho Hd. apply (decodes_op [o] rest); [..|done]; cbn [app]; by rewrite GetOp2_plain.
Qed.
Lemma decodes_push v rest ops : size (push_data v ++ rest) < 2 ^ 32 → decodes rest ops [] → decodes (push_data v ++ rest) (push_data v :: ops) [].
Proof. intros Hs Hd. apply (decodes_op (push_data v) rest); [..|done]; by rewrite GetOp2_push_data. Qed.
Lemma decodes_push_all l rest ops :
  Forall pushable l → 523 * Z.of_nat (length l) + size rest < 2 ^ 32 → decodes rest ops [] →
  decodes (push_all l ++ rest) ((push_data <$> l) ++ ops) [].
Proof.
  intros Hl Hs Hd. induction Hl as [|v l Hv Hl IH]; [done|]. unfold push_all in *. cbn [fmap list_fmap concat app length] in *.
  rewrite <- app_assoc. apply decodes_push; [|apply IH; lia].
  pose proof (push_all_size l Hl). pose proof (pushable_minimal _ Hv) as [Hv1 _]. pose proof (size_push_data v Hv1).
  unfold push_all, MAX_SCRIPT_ELEMENT_SIZE in *. rewrite !size_app. lia.
Qed.

Section Forms.
Variable flags : Z.
Variable CheckSig : valtype → valtype → list Z → bool.

Definition p2pk_script (pk : valtype) : list Z := push_data pk ++ [OP_CHECKSIG].

Lemma CheckPubKeyEncoding_key pk : IsCompressedOrUncompressedPubKey pk = true → CheckPubKeyEncoding pk flags = Ok tt.
Proof. intros H. unfold CheckPubKeyEncoding. rewrite H. by rewrite andb_false_r. Qed.

Lemma run_p2pk pk g :
  IsCompressedOrUncompressedPubKey pk = true → good_sig flags g → CheckSig g pk (p2pk_script pk) = true →
  EvalScript flags CheckSig [g] (p2pk_script pk) = Ok [vchTrue].
Proof.
  intros Hk Hg Hc. pose proof (is_key_size pk Hk) as (Hsz & Hel & _ & _). pose proof (push_data_size pk Hsz) as Hp.
  assert (size (p2pk_script pk) ≤ 67) as Hl.
  { unfold p2pk_script. rewrite size_app, Hp. unfold key_sized in Hsz. apply andb_true_iff in Hsz as [_ Hsz%Z.leb_le]. unfold size at 2. cbn [length]. lia. }
  rewrite run_EvalScript. rewrite (proj2 (Z.ltb_ge 10000 _)) by lia. set (code := p2pk_script pk) at 2. unfold p2pk_script at 1.
  rewrite run_push; [|unfold p2pk_script in Hl; lia|exact Hel|done|cbn; lia|cbn; lia].
  cbn [stack set_stack altstack nOpCount vfExec pbegincodehash].
  rewrite run_opcode by done. change (exec_opcode flags CheckSig OP_CHECKSIG ?p ?s) with (op_checksig flags CheckSig OP_CHECKSIG s).
  cbn [op_checksig stack set_nOpCount set_stack altstack nOpCount vfExec pbegincodehash]. unfold code.
  rewrite (FindAndDelete_absent _ [push_data pk; [OP_CHECKSIG]]); [|apply decodes_push; [unfold p2pk_script in Hl; lia|apply decodes_plain; [done|by constructor]]|lia|by eapply good_sig_elem|].
  2: { repeat constructor; [by eapply sig_not_key|by eapply sig_not_byte]. }
  cbn [mbind outcome_bind]. rewrite (gs_enc _ _ Hg), CheckPubKeyEncoding_key by done. cbn [mbind outcome_bind]. rewrite Hc. done.
Qed.

Lemma run_address pk h g :
  IsCompressedOrUncompressedPubKey pk = true → size h = 20 → Hash160 pk = h → good_sig flags g → CheckSig g pk (p2pkh_script h) = true →
  EvalScript flags CheckSig [pk; g] (p2pkh_script h) = Ok [vchTrue].
Proof.
  intros Hk Hsz Hh Hg Hc. pose proof (is_key_size pk Hk) as (_ & Hel & _ & _).
  rewrite run_p2pkh; [|done|by eapply good_sig_elem|apply (gs_not_hash _ _ Hg)|done].
  rewrite bool_decide_eq_true_2 by exact Hh. rewrite (gs_enc _ _ Hg), CheckPubKeyEncoding_key by done. cbn [mbind outcome_bind].
  by rewrite Hc.
Qed.

Lemma drop_sigs_absent gs script ops :
  decodes script ops [] → size script < 2 ^ 32 → Forall (λ g, script_elem g ∧ Forall (.≠ push_data g) ops) gs → drop_sigs gs script = Ok script.
Proof.
  intros Hd Hs. induction 1 as [|g gs [He Hg] _ IH]; [done|]. cbn [drop_sigs]. rewrite (FindAndDelete_absent _ ops) by done.
  cbn [mbind outcome_bind]. done.
Qed.

Definition multisig_script (m : Z) (keys : list valtype) : list Z :=
  (OP_1 + m - 1) :: push_all keys ++ [OP_1 + Z.of_nat (length keys) - 1; OP_CHECKMULTISIG].
Lemma GetScriptForMultisig_form m keys :
  1 ≤ m ≤ Z.of_nat (length keys) → Z.of_nat (length keys) ≤ 16 → GetScriptForMultisig m keys = Ok (multisig_script m keys).
Proof.
  intros Hm Hn. unfold GetScriptForMultisig. rewrite !EncodeOP_N_small by lia. cbn [mbind outcome_bind].
  rewrite (proj2 (Z.eqb_neq m 0)), (proj2 (Z.eqb_neq (Z.of_nat (length keys)) 0)) by lia. done.
Qed.

Definition multisig_ops (m : Z) (keys : list valtype) : list (list Z) :=
  [OP_1 + m - 1] :: (push_data <$> keys) ++ [[OP_1 + Z.of_nat (length keys) - 1]; [OP_CHECKMULTISIG]].

Lemma keys_pushable keys : Forall (λ k, IsCompressedOrUncompressedPubKey k = true) keys → Forall pushable keys.
Proof. intros H. apply (list.Forall_impl _ _ _ H). intros k Hk. right. by apply is_key_size in Hk as (_ & ? & _). Qed.

Lemma multisig_size m keys :
  Z.of_nat (length keys) ≤ 16 → Forall (λ k, IsCompressedOrUncompressedPubKey k = true) keys → size (multisig_script m keys) < 10000.
Proof.
  intros Hn Hk. pose proof (push_all_size keys (keys_pushable _ Hk)). unfold multisig_script. rewrite size_cons, size_app.
  unfold size at 2. cbn [length]. lia.
Qed.
Lemma multisig_decodes m keys :
  1 ≤ m ≤ Z.of_nat (length keys) → Z.of_nat (length keys) ≤ 16 → Forall (λ k, IsCompressedOrUncompressedPubKey k = true) keys →
  decodes (multisig_script m keys) (multisig_ops m keys) [].
Proof.
  intros Hm Hn Hk. unfold multisig_script, multisig_ops. apply decodes_plain; [unfold OP_1, OP_PUSHDATA4; lia|].
  apply decodes_push_all; [by apply keys_pushable|unfold size; cbn [length]; lia|].
  apply decodes_plain; [unfold OP_1, OP_PUSHDATA4; lia|]. apply decodes_plain; [done|]. by constructor.
Qed.

Lemma match_sigs_first V gs keys m :
  Forall2 (λ g k, V g k = true) gs (take m keys) → match_sigs V (rev gs) (rev keys) = true.
Proof.
  intros H. apply match_sigs_spec. exists (rev (take m keys)). split.
  - rewrite <- (take_drop m keys) at 2. rewrite rev_app_distr. by apply sublist_inserts_l.
  - rewrite !rev_alt. by apply Forall2_reverse.
Qed.

Lemma run_multisig m keys gs :
  1 ≤ m ≤ Z.of_nat (length keys) → Z.of_nat (length keys) ≤ 16 → Forall (λ k, IsCompressedOrUncompressedPubKey k = true) keys →
  Forall (good_sig flags) gs → Forall2 (λ g k, CheckSig g k (multisig_script m keys) = true) gs (take (Z.to_nat m) keys) →
  EvalScript flags CheckSig (rev gs ++ [[]]) (multisig_script m keys) = Ok [vchTrue].
Proof.
  intros Hm Hn Hk Hg Hv. pose proof (multisig_size m keys Hn Hk) as Hsz. pose proof (multisig_decodes m keys Hm Hn Hk) as Hd.
  pose proof (Forall2_length _ _ _ Hv) as Hlen. rewrite length_take, Nat.min_l in Hlen by lia.
  assert (Z.of_nat (length gs) = m) as Hgm by lia.
  rewrite run_EvalScript. rewrite (proj2 (Z.ltb_ge 10000 _)) by lia. set (code := multisig_script m keys) in *. unfold code at 1, multisig_script.
  rewrite run_small; [|lia|done|cbn; lia|cbn [stack altstack]; rewrite length_app, length_rev; cbn [length]; lia].
  rewrite run_pushes; [|by apply keys_pushable|unfold size; cbn [length]; lia|done|cbn; lia|cbn [stack set_stack altstack length]; rewrite length_app, length_rev; cbn [length]; lia].
  cbn [stack set_stack altstack nOpCount vfExec pbegincodehash].
  rewrite run_small; [|lia|done|cbn; lia|cbn [stack set_stack altstack length]; rewrite !length_app, !length_rev; cbn [length]; rewrite length_app, length_rev; cbn [length]; lia].
  cbn [stack set_stack altstack nOpCount vfExec pbegincodehash].
  rewrite run_opcode by done. change (exec_opcode flags CheckSig OP_CHECKMULTISIG ?p ?s) with (op_checkmultisig flags CheckSig OP_CHECKMULTISIG s).
  cbn [set_nOpCount stack altstack nOpCount vfExec pbegincodehash].
  edestruct (op_checkmultisig_ok flags CheckSig) as (sc & Esc & Eop); [..|rewrite Eop].
  - cbn [stack]. rewrite <- (length_rev keys), <- Hgm, <- (length_rev gs). reflexivity.
  - rewrite !length_rev. lia.
  - rewrite length_rev. cbn [nOpCount set_stack set_nOpCount]. lia.
  - apply Forall_rev. apply (list.Forall_impl _ _ _ Hg). apply gs_enc.
  - apply Forall_rev. apply (list.Forall_impl _ _ _ Hk). apply CheckPubKeyEncoding_key.
  - done.
  - cbn [pbegincodehash] in Esc. rewrite (drop_sigs_absent _ code (multisig_ops m keys)) in Esc; [|done|lia|].
    2: { apply Forall_rev. apply (list.Forall_impl _ _ _ Hg). intros g Hgg. split; [by eapply good_sig_elem|].
         unfold multisig_ops. constructor; [by eapply sig_not_byte|]. apply list.Forall_app. split.
         - rewrite Forall_fmap. apply (list.Forall_impl _ _ _ Hk). intros k Hkk. by eapply sig_not_key.
         - repeat constructor; by eapply sig_not_byte. }
    injection Esc as <-. rewrite (match_sigs_first _ gs keys (Z.to_nat m)) by done.
    cbn [mbind outcome_bind stack altstack set_stack set_nOpCount length vfExec]. done.
Qed.
End Forms.

(** ** What is ours can be signed *)

Lemma at_ok_nth v b i : at_ v i = Ok b → 0 ≤ i ∧ b = nth (Z.to_nat i) v 0.
Proof.
  unfold at_. destruct (Z.ltb_spec i 0); [done|]. destruct (v !! Z.to_nat i) as [x|] eqn:E; [|done]. intros [= <-].
  split; [done|]. symmetry. by apply nth_lookup_Some.
Qed.
Lemma valid_encoding_bounds g : IsValidSignatureEncoding g = Ok true → 9 ≤ size g ≤ 73 ∧ nth 0 g 0 = 0x30.
Proof.
  unfold IsValidSignatureEncoding. destruct (Z.ltb_spec (size g) 9); [discriminate|]. destruct (Z.ltb_spec 73 (size g)); [discriminate|].
  intros H'. apply outcome_bind_ok in H' as (b & Hb & H'). apply at_ok_nth in Hb as [_ ->]. change (Z.to_nat 0) with 0%nat in H'.
  destruct (Z.eqb_spec (nth 0 g 0) 0x30); [lia|discriminate H'].
Qed.

Definition hashtypes : list Z := [SIGHASH_ALL; SIGHASH_NONE; SIGHASH_SINGLE; 0x81; 0x82; 0x83].

Lemma good_sig_der sig ht :
  ht ∈ hashtypes → IsValidSignatureEncoding (sig ++ [ht]) = Ok true → size sig ≠ 19 → good_sig STANDARD_SCRIPT_VERIFY_FLAGS (sig ++ [ht]).
Proof.
  intros Hht Hv Hne. pose proof (valid_encoding_bounds _ Hv) as [Hs Hh]. split; [done|done|rewrite size_app; unfold size in *; cbn [length]; lia|].
  unfold CheckSignatureEncoding. rewrite (proj2 (Z.eqb_neq _ 0)) by lia.
  change (flag STANDARD_SCRIPT_VERIFY_FLAGS (Z.lor (Z.lor SCRIPT_VERIFY_DERSIG SCRIPT_VERIFY_LOW_S) SCRIPT_VERIFY_STRICTENC)) with true.
  rewrite Hv. cbn [mbind outcome_bind negb].
  change (flag STANDARD_SCRIPT_VERIFY_FLAGS SCRIPT_VERIFY_LOW_S) with false. cbn [mbind outcome_bind].
  assert (IsDefinedHashtypeSignature (sig ++ [ht]) = true) as ->; [|by rewrite andb_false_r].
  unfold IsDefinedHashtypeSignature. rewrite (proj2 (Z.eqb_neq _ 0)), back_snoc by lia.
  assert (Forall (λ ht, negb ((Z.land ht (u8 (Z.lnot SIGHASH_ANYONECANPAY)) <? SIGHASH_ALL) || (SIGHASH_SINGLE <? Z.land ht (u8 (Z.lnot SIGHASH_ANYONECANPAY)))) = true) hashtypes) as Ha by by_decision.
  by apply (proj1 (list.Forall_forall _ _) Ha).
Qed.

Section Ours.
Context {CKey : Type} `{!KeyOps CKey}.

(** What signing relies on: a key has a compressed or uncompressed public key; it signs
    every hash, and what it signs verifies, is encoded in DER, and is not so short as to
    look like a key hash. *)
Record signer_ok : Prop := {
  so_key (k : CKey) : IsCompressedOrUncompressedPubKey (GetPubKey k) = true;
  so_sign (k : CKey) hash : ∃ sig, Sign k hash = Some sig ∧ PubKey_Verify (GetPubKey k) hash sig = true ∧ size sig ≠ 19 ∧
    ∀ ht, ht ∈ hashtypes → IsValidSignatureEncoding (sig ++ [ht]) = Ok true
}.

Notation store := (CBasicKeyStore CKey).

(** Keys and scripts are kept under their own hashes. *)
Record store_ok (ks : store) : Prop := {
  sk_keys a k : mapKeys ks !! a = Some k → a = GetID (GetPubKey k);
  sk_scripts h s : mapScripts ks !! h = Some s → h = CScriptID_of s ∧ size s ≤ MAX_SCRIPT_ELEMENT_SIZE
}.

Lemma store_ok_new : store_ok KeyStore_new.
Proof. split; intros ? ?; cbn; by rewrite lookup_empty. Qed.
Lemma store_ok_AddKey k ks : store_ok ks → store_ok (AddKey k ks).
Proof.
  intros [Hk Hs]. split; [|done]. intros a k'. unfold AddKey, AddKeyPubKey. cbn [mapKeys]. rewrite lookup_insert_Some.
  intros [[<- <-]|[_ Ha]]; [reflexivity|by apply Hk].
Qed.
Lemma store_ok_AddCScript s ks : store_ok ks → store_ok (AddCScript s ks).2.
Proof.
  intros [Hk Hs]. unfold AddCScript. destruct (Z.ltb_spec MAX_SCRIPT_ELEMENT_SIZE (size s)); [by split|]. split; [done|].
  intros h s'. cbn [snd mapScripts]. rewrite lookup_insert_Some. intros [[<- <-]|[_ Ha]]; [by split|by apply Hs].
Qed.
Lemma store_ok_watch s ks : store_ok ks → store_ok (AddWatchOnly s ks) ∧ store_ok (RemoveWatchOnly s ks).
Proof. intros [Hk Hs]. split; by split. Qed.

(** The key that the store has for the hash of a public key is that key's. *)
Definition matching (ks : store) (pk : valtype) : Prop := ∀ k, mapKeys ks !! GetID pk = Some k → GetPubKey k = pk.

(** The scripts that the program builds to pay to keys. *)
Inductive built (ks : store) : list Z → Prop :=
| built_key pk : IsCompressedOrUncompressedPubKey pk = true → matching ks pk → built ks (p2pk_script pk)
| built_address h : size h = 20 → built ks (GetScriptForDestination (CKeyID h))
| built_multisig m keys script :
    GetScriptForMultisig m keys = Ok script → 1 ≤ m ≤ Z.of_nat (length keys) → Z.of_nat (length keys) ≤ 16 →
    Forall (λ pk, IsCompressedOrUncompressedPubKey pk = true ∧ matching ks pk) keys → built ks script.
(** … or to the hash of such a script that the store has. *)
Definition payable (ks : store) (script : list Z) : Prop :=
  built ks script ∨
  ∃ h sub, script = GetScriptForDestination (CScriptID h) ∧ mapScripts ks !! h = Some sub ∧ built ks sub.

Lemma p2pk_standard pk : IsCompressedOrUncompressedPubKey pk = true → standard (p2pk_script pk) TX_PUBKEY [pk].
Proof.
  intros Hk. apply is_key_size in Hk as (Hs & _ & _). apply (std_pubkey _ (push_op (size pk))); [done|]. unfold p2pk_script.
  apply decoded_push; [|apply decoded_plain; [done|constructor]]. rewrite size_app, push_data_size by done.
  unfold key_sized in Hs. apply andb_true_iff in Hs as [_ Hs%Z.leb_le]. unfold size at 2. cbn [length]. lia.
Qed.
Lemma multisig_standard_form m keys :
  1 ≤ m ≤ Z.of_nat (length keys) → Z.of_nat (length keys) ≤ 16 → Forall (λ k, IsCompressedOrUncompressedPubKey k = true) keys →
  standard (multisig_script m keys) TX_MULTISIG ([m] :: keys ++ [[Z.of_nat (length keys)]]).
Proof.
  intros Hm Hn Hk. destruct (multisig_standard m keys Hm Hn) as (s & E & Hs).
  { apply (list.Forall_impl _ _ _ Hk). intros k Hkk. by apply is_key_size in Hkk as (? & _). }
  rewrite GetScriptForMultisig_form in E by done. by injection E as <-.
Qed.

(** The kinds of scripts as [Solver] sees them. *)
Lemma built_solved ks script :
  built ks script → ∃ t sols, Solver script = Ok (true, t, sols) ∧ t ≠ TX_SCRIPTHASH.
Proof.
  intros [pk Hk _|h Hh|m keys s E Hm Hn Hk].
  - do 2 eexists. split; [by apply Solver_standard, p2pk_standard|done].
  - do 2 eexists. split; [apply Solver_standard, (destination_standard (CKeyID h)), Hh|done].
  - rewrite GetScriptForMultisig_form in E by done. injection E as <-. do 2 eexists.
    split; [apply Solver_standard, (multisig_standard_form m keys)|]; [done|done| |done]. apply (list.Forall_impl _ _ _ Hk). by intros ? [].
Qed.
Lemma built_not_p2sh ks script : built ks script → IsPayToScriptHash script = false.
Proof.
  intros Hb. destruct (built_solved _ _ Hb) as (t & sols & E & Ht). unfold Solver in E.
  destruct (IsPayToScriptHash script); [|reflexivity]. injection E as <- _. by destruct Ht.
Qed.
Lemma built_shape ks script : built ks script → (∃ ops, decodes script ops []) ∧ 2 ≤ size script < 10000.
Proof.
  intros [pk Hk _|h Hh|m keys s E Hm Hn Hk].
  - apply is_key_size in Hk as (Hs & _ & _). pose proof (push_data_size pk Hs) as Hp. unfold key_sized in Hs.
    apply andb_true_iff in Hs as [Hs1%Z.leb_le Hs2%Z.leb_le]. unfold p2pk_script. split; [|rewrite size_app, Hp; unfold size at 2 4; cbn [length]; lia].
    eexists. apply decodes_push; [rewrite size_app, Hp; unfold size at 2; cbn [length]; lia|]. apply decodes_plain; [done|by constructor].
  - split; [eexists; by apply decodes_p2pkh|]. pose proof (size_p2pkh h Hh) as E. cbn [GetScriptForDestination]. unfold p2pkh_script in E. lia.
  - rewrite GetScriptForMultisig_form in E by done. injection E as <-.
    assert (Forall (λ k, IsCompressedOrUncompressedPubKey k = true) keys) as Hk' by (apply (list.Forall_impl _ _ _ Hk); by intros ? []).
    split; [eexists; by apply multisig_decodes|]. split; [|by apply multisig_size].
    unfold multisig_script. rewrite size_cons, size_app. unfold size. cbn [length]. lia.
Qed.

(** ** Signature hashes do not see the input scripts *)

Lemma SignatureHash_set_scriptSig n s tx sc ht : SignatureHash (set_scriptSig n s tx) sc n ht = SignatureHash tx sc n ht.
Proof.
  unfold SignatureHash, SerializeForSig.
  assert (length (vin (set_scriptSig n s tx)) = length (vin tx)) as -> by (cbn; by rewrite length_alter).
  rewrite (write_each_ext (SerializeInput (set_scriptSig n s tx) sc n ht) (SerializeInput tx sc n ht)); [done|].
  intros j. unfold SerializeInput, set_scriptSig. cbn [vin]. set (i := if fAnyoneCanPay ht then n else j). clearbody i.
  destruct (decide (i = n)) as [->|Hne]; [|by rewrite list_lookup_alter_ne].
  rewrite list_lookup_alter_eq. by destruct (vin tx !! n).
Qed.
Lemma SignatureHash_ok tx sc ops n ht : decodes sc ops [] → size sc < 2 ^ 32 → ∃ h, SignatureHash tx sc n ht = Ok h.
Proof.
  intros Hd Hs. destruct (SignatureHash_agrees tx sc ops n ht Hd Hs) as [_ H]. destruct (SignatureHash tx sc n ht) as [h| | |]; try discriminate H.
  by exists h.
Qed.

Lemma hashtype_byte ht : ht ∈ hashtypes → u8 ht = ht.
Proof. intros H. assert (Forall (λ x, u8 x = x) hashtypes) as Ha by by_decision. by apply (proj1 (list.Forall_forall _ _) Ha). Qed.

Lemma tx_CheckSig_signed tx n ht h pk sig sc :
  SignatureHash tx sc n ht = Ok h → IsCompressedOrUncompressedPubKey pk = true → PubKey_Verify pk h sig = true →
  tx_CheckSig PubKey_Verify tx n (sig ++ [ht]) pk sc = true.
Proof.
  intros Hh Hk Hv. apply is_key_size in Hk as (Hsz & _ & Hpk & _). unfold tx_CheckSig, TransactionCheckSig. rewrite Hpk.
  unfold CPubKey_IsValid. rewrite (proj2 (Z.ltb_lt 0 _)) by (unfold key_sized in Hsz; apply andb_true_iff in Hsz as [Hsz%Z.leb_le _]; lia).
  cbn [negb]. destruct (sig ++ [ht]) as [|b g] eqn:Eg; [by apply app_nil in Eg as [_ ?]|]. rewrite <- Eg. clear b g Eg.
  rewrite back_snoc, length_app, Nat.add_sub, take_app_length. rewrite Hh. cbn [mbind outcome_bind]. done.
Qed.

Section Signed.
Context (Hsigner : signer_ok) (ks : store) (Hstore : store_ok ks) (hash ht : Z) (Hht : ht ∈ hashtypes).

(** A signature of [hash] for the key [pk]. *)
Definition signs (sig : list Z) (pk : valtype) : Prop :=
  PubKey_Verify pk hash sig = true ∧ good_sig STANDARD_SCRIPT_VERIFY_FLAGS (sig ++ [ht]).
(** A check that accepts every signature of [hash]. *)
Definition accepts (CheckSig : valtype → valtype → list Z → bool) (script : list Z) : Prop :=
  ∀ pk sig, IsCompressedOrUncompressedPubKey pk = true → PubKey_Verify pk hash sig = true → CheckSig (sig ++ [ht]) pk script = true.

Lemma Sign1_held a k s : mapKeys ks !! a = Some k → ∃ sig, Sign1 a ks hash ht s = (true, s ++ push_data (sig ++ [ht])) ∧ signs sig (GetPubKey k).
Proof.
  intros Ha. unfold Sign1, GetKey. rewrite Ha. destruct (so_sign Hsigner k hash) as (sig & -> & Hv & Hne & He).
  rewrite hashtype_byte by done. exists sig. split; [done|]. split; [done|]. apply good_sig_der; [done|by apply He|done].
Qed.

Lemma HaveKey_true a : HaveKey a ks = true → ∃ k, mapKeys ks !! a = Some k.
Proof. unfold HaveKey. intros H. apply bool_decide_eq_true in H as [k Hk]. by exists k. Qed.

Lemma HaveKeys_all pks : HaveKeys pks ks = length pks → Forall (λ pk, HaveKey (GetID (CPubKey_of pk)) ks = true) pks.
Proof.
  unfold HaveKeys. induction pks as [|pk pks IH]; intros H; [constructor|]. rewrite filter_cons in H. cbn [length] in H.
  pose proof (length_filter (λ pubkey, HaveKey (GetID (CPubKey_of pubkey)) ks = true) pks).
  case_decide as Hd; cbn [length] in H; [|lia]. constructor; [done|]. apply IH. lia.
Qed.

Lemma SignN_loop_held pks m n s :
  Forall (λ pk, IsCompressedOrUncompressedPubKey pk = true ∧ matching ks pk ∧ HaveKey (GetID (CPubKey_of pk)) ks = true) pks →
  0 ≤ n ≤ m → m - n ≤ Z.of_nat (length pks) →
  ∃ sigs, SignN_loop pks ks hash ht m n s = (m, s ++ push_all ((λ sig, sig ++ [ht]) <$> sigs)) ∧
    Forall2 signs sigs (take (Z.to_nat (m - n)) pks).
Proof.
  intros Hp. revert n s. induction Hp as [|pk pks (Hk & Hm & Hh) Hp IH]; intros n s Hn Hl; cbn [length] in Hl.
  { exists []. cbn [SignN_loop]. rewrite take_nil, app_nil_r. split; [f_equal; lia|constructor]. }
  cbn [SignN_loop]. destruct (Z.ltb_spec n m) as [Hlt|Hge]; cbn [negb]; cycle 1.
  { exists []. replace (m - n) with 0 by lia. cbn. rewrite app_nil_r. split; [f_equal; lia|constructor]. }
  pose proof (is_key_size pk Hk) as (_ & _ & Hof & _). rewrite Hof in *. destruct (HaveKey_true _ Hh) as [k Ek].
  destruct (Sign1_held _ k s Ek) as (sig & -> & Hsig). rewrite (Hm k Ek) in Hsig.
  destruct (IH (n + 1) (s ++ push_data (sig ++ [ht]))) as (sigs & -> & Hs); [lia..|]. exists (sig :: sigs). split.
  - unfold push_all. cbn [fmap list_fmap concat]. by rewrite <- app_assoc.
  - replace (Z.to_nat (m - n)) with (S (Z.to_nat (m - (n + 1)))) by lia. by constructor.
Qed.

(** The result of the solver for a script of the program: pushes that satisfy it. *)
Definition solved (script : list Z) : Prop :=
  ∃ l t, SignSolver ks script hash ht = Ok (true, push_all l, t) ∧ t ≠ TX_SCRIPTHASH ∧ Forall pushable l ∧ (length l ≤ 17)%nat ∧
    ∀ CheckSig, accepts CheckSig script → EvalScript STANDARD_SCRIPT_VERIFY_FLAGS CheckSig (rev l) script = Ok [vchTrue].

Lemma good_sig_pushable sig : good_sig STANDARD_SCRIPT_VERIFY_FLAGS (sig ++ [ht]) → pushable (sig ++ [ht]).
Proof. intros Hg. right. by eapply good_sig_elem. Qed.

Lemma solve_key pk fuel :
  IsCompressedOrUncompressedPubKey pk = true → matching ks pk → IsMine fuel ks (p2pk_script pk) = Ok ISMINE_SPENDABLE → solved (p2pk_script pk).
Proof.
  intros Hk Hm Hmine. pose proof (Solver_standard _ _ _ (p2pk_standard pk Hk)) as Es.
  pose proof (is_key_size pk Hk) as (_ & _ & Hof & _).
  destruct (HaveKey (GetID pk) ks) eqn:Eh; cycle 1.
  { exfalso. destruct fuel; cbn [IsMine] in Hmine; rewrite Es in Hmine; cbn [mbind outcome_bind negb solution0] in Hmine;
      rewrite Hof, Eh in Hmine; destruct (HaveWatchOnly _ _); discriminate Hmine. }
  destruct (HaveKey_true _ Eh) as [k Ek]. destruct (Sign1_held _ k [] Ek) as (sig & E1 & Hv & Hg). rewrite (Hm k Ek) in Hv.
  exists [sig ++ [ht]], TX_PUBKEY. split_and!; [|done|by constructor; [apply good_sig_pushable|]|cbn; lia|].
  - unfold SignSolver. rewrite Es. cbn [mbind outcome_bind negb solution0]. rewrite Hof, E1. unfold push_all. cbn [fmap list_fmap concat app]. by rewrite app_nil_r.
  - intros CheckSig Hc. apply run_p2pk; [done|done|by apply Hc].
Qed.

Lemma solve_address h fuel :
  size h = 20 → IsMine fuel ks (GetScriptForDestination (CKeyID h)) = Ok ISMINE_SPENDABLE → solved (GetScriptForDestination (CKeyID h)).
Proof.
  intros Hh Hmine. pose proof (Solver_standard _ _ _ (destination_standard (CKeyID h) Hh)) as Es.
  set (script := GetScriptForDestination (CKeyID h)) in *.
  assert (uint160_of h = Ok h) as Eu by (unfold uint160_of; by rewrite Hh).
  destruct (HaveKey h ks) eqn:Eh; cycle 1.
  { exfalso. destruct fuel; cbn [IsMine] in Hmine; rewrite Es in Hmine; cbn [mbind outcome_bind negb solution0] in Hmine;
      rewrite Eu in Hmine; cbn [mbind outcome_bind] in Hmine; rewrite Eh in Hmine; destruct (HaveWatchOnly _ _); discriminate Hmine. }
  destruct (HaveKey_true _ Eh) as [k Ek]. pose proof (sk_keys _ Hstore _ _ Ek) as Ehash.
  pose proof (so_key Hsigner k) as Hk. pose proof (is_key_size _ Hk) as (_ & Hel & _ & _).
  destruct (Sign1_held _ k [] Ek) as (sig & E1 & Hv & Hg).
  exists [sig ++ [ht]; GetPubKey k], TX_PUBKEYHASH.
  split_and!; [|done|constructor; [by apply good_sig_pushable|constructor; [by right|done]]|cbn; lia|].
  - unfold SignSolver. rewrite Es. cbn [mbind outcome_bind negb solution0]. rewrite Eu. cbn [mbind outcome_bind]. rewrite E1. cbn [negb].
    unfold ks_GetPubKey, GetKey. rewrite Ek. unfold push_all. cbn [fmap list_fmap concat app default from_option id]. by rewrite app_nil_r.
  - intros CheckSig Hc. apply run_address; [exact Hk|exact Hh|by symmetry|exact Hg|by apply Hc].
Qed.

Lemma solve_multisig m keys fuel :
  1 ≤ m ≤ Z.of_nat (length keys) → Z.of_nat (length keys) ≤ 16 →
  Forall (λ pk, IsCompressedOrUncompressedPubKey pk = true ∧ matching ks pk) keys →
  IsMine fuel ks (multisig_script m keys) = Ok ISMINE_SPENDABLE → solved (multisig_script m keys).
Proof.
  intros Hm Hn Hk Hmine.
  assert (Forall (λ k, IsCompressedOrUncompressedPubKey k = true) keys) as Hk' by (apply (list.Forall_impl _ _ _ Hk); by intros ? []).
  pose proof (Solver_standard _ _ _ (multisig_standard_form m keys Hm Hn Hk')) as Es.
  assert (take (length ([m] :: keys ++ [[Z.of_nat (length keys)]]) - 2) (drop 1 ([m] :: keys ++ [[Z.of_nat (length keys)]])) = keys) as Ek.
  { cbn [length drop]. rewrite length_app. cbn [length]. replace (S (length keys + 1) - 2)%nat with (length keys) by lia. apply take_app_length. }
  destruct (Nat.eqb_spec (HaveKeys keys ks) (length keys)) as [Ea|Ea]; cycle 1.
  { exfalso. destruct fuel; cbn [IsMine] in Hmine; rewrite Es in Hmine; cbn [mbind outcome_bind negb] in Hmine; rewrite Ek in Hmine;
      rewrite (proj2 (Nat.eqb_neq _ _) Ea) in Hmine; destruct (HaveWatchOnly _ _); discriminate Hmine. }
  pose proof (HaveKeys_all _ Ea) as Hall.
  assert (Forall (λ pk, IsCompressedOrUncompressedPubKey pk = true ∧ matching ks pk ∧ HaveKey (GetID (CPubKey_of pk)) ks = true) keys) as Hheld.
  { apply list.Forall_forall. intros pk Hpk. pose proof (proj1 (list.Forall_forall _ _) Hk _ Hpk) as []. pose proof (proj1 (list.Forall_forall _ _) Hall _ Hpk). done. }
  destruct (SignN_loop_held keys m 0 [OP_0] Hheld) as (sigs & El & Hs); [lia..|]. rewrite Z.sub_0_r in Hs.
  pose proof (Forall2_length _ _ _ Hs) as Hlen. rewrite length_take, Nat.min_l in Hlen by lia.
  exists ([] :: ((λ sig, sig ++ [ht]) <$> sigs)), TX_MULTISIG. split_and!; [|done| | |].
  - unfold SignSolver. rewrite Es. cbn [mbind outcome_bind negb]. unfold SignN. cbn [front0 mbind outcome_bind]. rewrite Ek, El, Z.eqb_refl. done.
  - constructor; [by left|]. rewrite Forall_fmap. apply list.Forall_forall. intros sig Hsig.
    apply list_elem_of_lookup in Hsig as [j Hj]. destruct (Forall2_lookup_l _ _ _ _ _ Hs Hj) as (pk & _ & _ & Hg). by apply good_sig_pushable.
  - cbn [length]. rewrite length_fmap. lia.
  - intros CheckSig Hc. cbn [rev]. apply run_multisig; [done..| |].
    + rewrite Forall_fmap. apply list.Forall_forall. intros sig Hsig.
      apply list_elem_of_lookup in Hsig as [j Hj]. by destruct (Forall2_lookup_l _ _ _ _ _ Hs Hj) as (pk & _ & _ & Hg).
    + apply Forall2_fmap_l. apply Forall2_same_length_lookup. split; [rewrite length_take; lia|]. intros j sig pk Hj Hpk.
      destruct (Forall2_lookup_lr _ _ _ _ _ _ Hs Hj Hpk) as [Hv _]. apply Hc; [|done].
      apply lookup_take_Some in Hpk as [Hpk _]. by apply (Forall_lookup_1 _ _ _ _ Hk' Hpk).
Qed.

Lemma solve_built script fuel : built ks script → IsMine fuel ks script = Ok ISMINE_SPENDABLE → solved script.
Proof.
  intros [pk Hk Hm|h Hh|m keys s E Hm Hn Hk] Hmine; [by eapply solve_key|by eapply solve_address|].
  rewrite GetScriptForMultisig_form in E by done. injection E as <-. by eapply solve_multisig.
Qed.
End Signed.

Lemma vin_set_scriptSig n s tx : (n < length (vin tx))%nat → ∃ i, vin (set_scriptSig n s tx) !! n = Some i ∧ scriptSig i = s.
Proof.
  intros Hn. destruct (lookup_lt_is_Some_2 _ _ Hn) as [i Hi]. cbn [set_scriptSig vin]. rewrite list_lookup_alter_eq, Hi. by eexists.
Qed.
Lemma VerifyInput_set_scriptSig n s tx script :
  (n < length (vin tx))%nat →
  VerifyInput PubKey_Verify STANDARD_SCRIPT_VERIFY_FLAGS (set_scriptSig n s tx) n script =
    VerifyScript STANDARD_SCRIPT_VERIFY_FLAGS (tx_CheckSig PubKey_Verify (set_scriptSig n s tx) n) s script.
Proof. intros Hn. unfold VerifyInput. destruct (vin_set_scriptSig n s tx Hn) as (i & -> & ->). done. Qed.

Lemma accepts_tx tx n s script hash ht :
  SignatureHash tx script n ht = Ok hash → accepts hash ht (tx_CheckSig PubKey_Verify (set_scriptSig n s tx) n) script.
Proof. intros Hh pk sig Hk Hv. apply (tx_CheckSig_signed _ _ _ hash); [by rewrite SignatureHash_set_scriptSig|done|done]. Qed.

(** What [SignSignature] does once the solver succeeded. *)
Lemma sign_direct ks script tx n ht hash l t :
  (n < length (vin tx))%nat → SignatureHash tx script n ht = Ok hash → SignSolver ks script hash ht = Ok (true, push_all l, t) → t ≠ TX_SCRIPTHASH →
  VerifyScript STANDARD_SCRIPT_VERIFY_FLAGS (tx_CheckSig PubKey_Verify (set_scriptSig n (push_all l) tx) n) (push_all l) script = Ok tt →
  SignSignature ks script tx n ht = Ok (true, set_scriptSig n (push_all l) tx).
Proof.
  intros Hn Hh Hs Ht Hv. unfold SignSignature. rewrite bool_decide_eq_true_2 by done. cbn [assert_that mbind outcome_bind].
  rewrite Hh. cbn [no_error map_err mbind outcome_bind]. rewrite Hs. cbn [mbind outcome_bind negb].
  rewrite bool_decide_eq_false_2 by done. cbn [mbind outcome_bind negb]. by rewrite Hv.
Qed.
Lemma sign_scripthash ks script sub tx n ht hash hash2 l t :
  (n < length (vin tx))%nat → SignatureHash tx script n ht = Ok hash → SignSolver ks script hash ht = Ok (true, sub, TX_SCRIPTHASH) →
  SignatureHash tx sub n ht = Ok hash2 → SignSolver ks sub hash2 ht = Ok (true, push_all l, t) → t ≠ TX_SCRIPTHASH →
  VerifyScript STANDARD_SCRIPT_VERIFY_FLAGS (tx_CheckSig PubKey_Verify (set_scriptSig n (push_all (l ++ [sub])) tx) n) (push_all (l ++ [sub])) script = Ok tt →
  SignSignature ks script tx n ht = Ok (true, set_scriptSig n (push_all (l ++ [sub])) tx).
Proof.
  intros Hn Hh Hs Hh2 Hs2 Ht Hv. unfold SignSignature. rewrite bool_decide_eq_true_2 by done. cbn [assert_that mbind outcome_bind].
  rewrite Hh. cbn [no_error map_err mbind outcome_bind]. rewrite Hs. cbn [mbind outcome_bind negb].
  rewrite bool_decide_eq_true_2 by done. rewrite SignatureHash_set_scriptSig, Hh2. cbn [no_error map_err mbind outcome_bind].
  rewrite Hs2. cbn [mbind outcome_bind]. rewrite bool_decide_eq_false_2 by done. cbn [andb negb].
  assert (push_all l ++ push_data sub = push_all (l ++ [sub])) as ->.
  { rewrite push_all_app. f_equal. unfold push_all. cbn. by rewrite app_nil_r. }
  by rewrite Hv.
Qed.

(** An output that is ours by a script hash: the store has the script, and it is ours. *)
Lemma IsMine_scripthash fuel (ks : store) h sub :
  size h = 20 → mapScripts ks !! h = Some sub → IsMine fuel ks (GetScriptForDestination (CScriptID h)) = Ok ISMINE_SPENDABLE →
  ∃ fuel', IsMine fuel' ks sub = Ok ISMINE_SPENDABLE.
Proof.
  intros Hh Hsub Hmine. pose proof (Solver_standard _ _ _ (destination_standard (CScriptID h) Hh)) as Es.
  assert (uint160_of h = Ok h) as Eu by (unfold uint160_of; by rewrite Hh).
  destruct fuel as [|fuel]; cbn [IsMine] in Hmine; rewrite Es in Hmine; cbn [mbind outcome_bind negb solution0] in Hmine;
    rewrite Eu in Hmine; cbn [mbind outcome_bind] in Hmine; unfold GetCScript in Hmine; rewrite Hsub in Hmine; [discriminate Hmine|].
  exists fuel. destruct (IsMine fuel ks sub) as [r| | |]; try discriminate Hmine. cbn [mbind outcome_bind] in Hmine.
  destruct (r =? ISMINE_SPENDABLE) eqn:E; [apply Z.eqb_eq in E; by rewrite E|]. destruct (HaveWatchOnly _ _); discriminate Hmine.
Qed.

(** C15: an output in one of the forms that the program builds (to a public key, to its
    hash, to [m] of [n] public keys, or to the hash of such a script in the store), when
    the store says that it can be spent, is signed for any input and any hash type:
    [SignSignature] succeeds, changes only the script of that input, and the input then
    passes script verification with the standard flags. *)
Theorem spendable_is_signed (ks : store) (fuel nIn : nat) (script : list Z) (tx : CTransaction) (ht : Z) :
  signer_ok → store_ok ks → payable ks script → IsMine fuel ks script = Ok ISMINE_SPENDABLE →
  (nIn < length (vin tx))%nat → ht ∈ hashtypes →
  ∃ s, SignSignature ks script tx nIn ht = Ok (true, set_scriptSig nIn s tx) ∧
    VerifyInput PubKey_Verify STANDARD_SCRIPT_VERIFY_FLAGS (set_scriptSig nIn s tx) nIn script = Ok tt.
Proof.
  intros Hsg Hst [Hb|(h & sub & -> & Hsub & Hb)] Hmine Hn Hht.
  - destruct (built_shape ks script Hb) as [[ops Hd] Hsz].
    destruct (SignatureHash_ok tx script ops nIn ht Hd) as [hash Hh]; [lia|].
    destruct (solve_built Hsg ks Hst hash ht Hht script fuel Hb Hmine) as (l & t & Hs & Ht & Hl & Hlen & Hrun).
    exists (push_all l). assert (VerifyScript STANDARD_SCRIPT_VERIFY_FLAGS (tx_CheckSig PubKey_Verify (set_scriptSig nIn (push_all l) tx) nIn) (push_all l) script = Ok tt) as Hv.
    { apply (VerifyScript_direct _ _ l script vchTrue []); [done|lia| |done|by apply (built_not_p2sh ks)]. apply Hrun. by apply accepts_tx. }
    split; [by apply (sign_direct ks script tx nIn ht hash l t)|]. by rewrite VerifyInput_set_scriptSig.
  - destruct (sk_scripts _ Hst _ _ Hsub) as [Ehash Hmax]. assert (size h = 20) as Hh20 by (rewrite Ehash; unfold size, CScriptID_of; by rewrite length_Hash160).
    destruct (IsMine_scripthash fuel ks h sub Hh20 Hsub Hmine) as [fuel' Hmine'].
    destruct (built_shape ks sub Hb) as [[ops Hd] Hsz]. destruct (SignatureHash_ok tx sub ops nIn ht Hd) as [hash2 Hh2]; [lia|].
    destruct (solve_built Hsg ks Hst hash2 ht Hht sub fuel' Hb Hmine') as (l & t & Hs & Ht & Hl & Hlen & Hrun).
    set (script := GetScriptForDestination (CScriptID h)).
    destruct (SignatureHash_ok tx script [[OP_HASH160]; push_data h; [OP_EQUAL]] nIn ht) as [hash Hh].
    { unfold script. cbn [GetScriptForDestination app]. apply decodes_plain; [done|]. apply decodes_push; [rewrite push_data_20 by done; rewrite size_app, (size_cons 20 h), Hh20; done|].
      apply decodes_plain; [done|by constructor]. }
    { unfold script. cbn [GetScriptForDestination]. rewrite push_data_20 by done. rewrite !size_app, (size_cons 20 h), Hh20. done. }
    assert (SignSolver ks script hash ht = Ok (true, sub, TX_SCRIPTHASH)) as Hs1.
    { unfold SignSolver, script. rewrite (Solver_standard _ _ _ (destination_standard (CScriptID h) Hh20)). cbn [mbind outcome_bind negb solution0].
      unfold uint160_of, GetCScript. rewrite Hh20. change (20 =? 20) with true. cbn [negb mbind outcome_bind]. by rewrite Hsub. }
    exists (push_all (l ++ [sub])).
    assert (VerifyScript STANDARD_SCRIPT_VERIFY_FLAGS (tx_CheckSig PubKey_Verify (set_scriptSig nIn (push_all (l ++ [sub])) tx) nIn) (push_all (l ++ [sub])) script = Ok tt) as Hv.
    { apply (VerifyScript_p2sh _ _ l sub h vchTrue []); [by symmetry|done|done|lia|split; [lia|done]| |done]. apply Hrun. by apply accepts_tx. }
    split; [by apply (sign_scripthash ks script sub tx nIn ht hash hash2 l t)|]. by rewrite VerifyInput_set_scriptSig.
Qed.
End Ours.

(** ** A concrete signer *)

(** One key, and a signature that is the same for every hash. *)
Definition demo_sig : list Z := [0x30; 6; 2; 1; 1; 2; 1; 1].
Definition demo_key : list Z := 2 :: replicate 32 7.
Definition demo_ops : KeyOps unit :=
  {| GetPubKey := λ _, demo_key; Sign := λ _ _, Some demo_sig; PubKey_Verify := λ pk _ sig, bool_decide (pk = demo_key ∧ sig = demo_sig) |}.

Lemma demo_signer : @signer_ok unit demo_ops.
Proof.
  split; [intros []; reflexivity|]. intros [] hash. exists demo_sig. split_and!; [reflexivity|vm_compute; reflexivity|discriminate|].
  assert (Forall (λ ht, IsValidSignatureEncoding (demo_sig ++ [ht]) = Ok true) hashtypes) as Ha by (repeat constructor).
  intros ht Hht. by apply (proj1 (list.Forall_forall _ _) Ha).
Qed.

Definition demo_address : list Z := GetScriptForDestination (CKeyID (GetID demo_key)).
Definition demo_script : list Z := multisig_script 2 [demo_key; demo_key].
Definition demo_nested : list Z := GetScriptForDestination (CScriptID (CScriptID_of demo_address)).
Definition demo_store : CBasicKeyStore unit :=
  (AddCScript demo_nested (AddCScript demo_address (AddCScript demo_script (@AddKey unit demo_ops tt KeyStore_new)).2).2).2.
Definition demo_spend : CTransaction := Tx 0 1 [TxIn (OutPoint 5 0) [] 9 []] [TxOut 1000 [OP_1] (-10)] 3.

Lemma spendable_is_signed_witness :
  let script := GetScriptForDestination (CScriptID (CScriptID_of demo_script)) in
  ∃ s, @SignSignature unit demo_ops demo_store script demo_spend 0 SIGHASH_ALL = Ok (true, set_scriptSig 0 s demo_spend) ∧
    VerifyInput (@PubKey_Verify unit demo_ops) STANDARD_SCRIPT_VERIFY_FLAGS (set_scriptSig 0 s demo_spend) 0 script = Ok tt.
Proof.
  cbn zeta. apply (@spendable_is_signed unit demo_ops demo_store 1 0 _ demo_spend SIGHASH_ALL).
  - exact demo_signer.
  - apply store_ok_AddCScript, store_ok_AddCScript, store_ok_AddCScript, store_ok_AddKey, store_ok_new.
  - right. exists (CScriptID_of demo_script), demo_script. split; [reflexivity|]. split; [vm_compute; reflexivity|].
    apply (built_multisig _ 2 [demo_key; demo_key]); [reflexivity|by_decision|by_decision|].
    repeat constructor; intros k _; reflexivity.
  - vm_compute. reflexivity.
  - cbn. lia.
  - left.
Defined.

(** Where the store and the signer disagree: a script hash within a script hash, and a
    key hash pushed with a longer opcode than it needs, count as spendable, but cannot be
    signed. *)
Definition nested_script : list Z := GetScriptForDestination (CScriptID (CScriptID_of demo_nested)).
Definition long_push_script : list Z := [OP_DUP; OP_HASH160; OP_PUSHDATA1; 20] ++ GetID demo_key ++ [OP_EQUALVERIFY; OP_CHECKSIG].

Lemma nested_not_signed :
  IsMine 2 demo_store nested_script = Ok ISMINE_SPENDABLE ∧
  ∃ tx, @SignSignature unit demo_ops demo_store nested_script demo_spend 0 SIGHASH_ALL = Ok (false, tx).
Proof. split; [vm_compute; reflexivity|]. eexists. vm_compute. reflexivity. Qed.
Lemma long_push_not_signed :
  IsMine 2 demo_store long_push_script = Ok ISMINE_SPENDABLE ∧
  ∃ tx, @SignSignature unit demo_ops demo_store long_push_script demo_spend 0 SIGHASH_ALL = Ok (false, tx).
Proof. split; [vm_compute; reflexivity|]. eexists. vm_compute. reflexivity. Qed.
